(* ===== verification/_CoqProject ===== *)
-Q . S2P
Prelude.v
StateM.v
CStr.v
CNum.v
Strings.v
Netlink.v
NetRoute.v
NetDevice.v
NetManager.v
HnsSchema.v
GnsEngine.v
NetRouteThm.v
GnsEngineThm.v
FdTrace.v
Wire.v
Channel.v
DnsServer.v
ChannelThm.v
DnsServerThm.v
WslConf.v
ConfigMsg.v
WslConfThm.v
WslPath.v
EscapePath.v
MountInfo.v
MountFlags.v
MountInfoThm.v
WinPath.v
WinPathThm.v
CommandLine.v
Localhost.v
P9State.v
P9Proto.v
P9File.v
P9Handler.v
P9SafeThm.v
P9Flush.v
P9FlushThm.v
P9Conn.v
P9ShareThm.v
ConfigFile.v
ConfigDocThm.v
DistroConfig.v
BindTracker.v
BindTrackerThm.v
PortTracker.v
DnsTunnel.v
DnsTunnelThm.v
Framing.v
Interop.v
InteropThm.v
TermNotify.v
CreateProc.v
SysOps.v
NetworkConfig.v
CommandLineThm.v
LocalhostThm.v
Timezone.v
Plan9.v
Plan9Thm.v
Plan9Life.v
Plan9LifeThm.v
Relay.v
Session.v
SessionThm.v
Bridge.v
BridgeThm.v
LocalInterop.v
InteropClient.v
InteropClientThm.v
WslInfo.v
WslInfoThm.v
Drvfs.v
SystemThm.v
GnsJson.v
Gns.v
GnsThm.v
Init.v
InitBoot.v
InitLoopThm.v
