(* ===== verification/Prelude.v ===== *)
(** * WSL for FreeBSD: a verification library

    The program has two halves.  The guest is the C code under src/FreeBSD: an
    init (hvinit.c), a console bridge (hvbridge.c), a network engine
    (gns_engine.h), the modules they include, and the small tools wslpath, wslinfo
    and wsl-interop.  The host (Windows) talks to the guest over hv_sock channels
    with messages that start with a 12-byte MESSAGE_HEADER (type, size, sequence
    number).  Under src/src is the upstream C++ project whose Linux init the guest
    replaces; the parts of it that have logic of their own are modelled too: the Plan 9
    share server, the network engine with netlink below it, the DNS server and its
    tunnel, the config file reader and the settings of a distribution, the trackers of
    bind() calls and of listening sockets, and the libraries for messages, strings,
    command lines, mounts and paths.

    ** Reading guide

    A component is a file [X.v] with one Module of the same name (its data, its
    operations, in the order and with the names of the source) and a file
    [XThm.v] with its lemmas and theorems; some files of theorems hold several
    modules, and the file is named below where it is not [XThm.v].  Everything is
    executable; the examples of the theorem files evaluate it.

    Shared:
    - Prelude, CStr, CNum: bytes (a byte is a [Z], a C string the bytes before
      its NUL), record update, tactics; the string functions of C that the
      source uses (strcasecmp, strchr, snprintf's cut, fgets); strtol, strtoul,
      printf's decimals and little-endian wire fields.
    - StateM: a state monad with a small Hoare logic, for Plan9 and Init.
    - FdTrace: accounting for descriptors that a trace opens, uses and closes.
    - Wire (gns_engine.h, dns_tunneling.h, plan9_server.h, hvbridge.c): the
      header and the loops that move exactly [len] bytes over a socket; what the
      socket does is a list of events.  WireThm (in ChannelThm.v): exactness, no
      loss, termination.

    The guest's init:
    - Init, InitBoot (hvinit.c): the init's state and its calls to the system, the
      handlers of the event loop, mount tracking, start and stop of the engine and
      of the Plan 9 server; main from the first mount to the clean-up.
      InitLoopThm.v: the operations, the conversation at boot, requests and answers,
      shutdown, the table of mounts.
    - WslConf (wsl_conf_parser.h): the parser of /etc/wsl.conf.
    - ConfigMsg (config_parser.h): parser and builder of Initialize(5).  In
      WslConfThm.v.
    - SysOps, NetworkConfig, Timezone, Drvfs (network_config.h,
      timezone_handler.h, drvfs_mount.h): configuration of the system, as the
      ordered list of the calls that change it.  SystemThm.
    - Plan9, Plan9Life (plan9_server.h): the built-in 9P2000.L server, one handler
      per message, the request loop, and the life of its process.  Plan9Thm: fids
      as a finite map, and who owns which descriptor; in Plan9LifeThm.v Plan9WireThm:
      the connection against the handlers, Plan9WalkThm: Twalk against a reference,
      and starting and stopping.

    The guest's network:
    - GnsJson, Gns (gns_engine.h): the JSON reader, a search for a quoted key; the
      state monad of the engine, its message handlers for both builds, and its loop,
      with the port tracker between messages.  GnsThm.v: GnsJsonThm, one reply per
      message, in order, and GnsNotifyThm (the changes a host can ask for, the
      commands they become, and resolv.conf).
    - Relay (gns_engine.h): the relay daemon of a port.  In InteropClientThm.v.
    - PortTracker (port_tracker.h): the pcblist walk, the sorted snapshot, one
      polling cycle.  In LocalhostThm.v.
    - DnsTunnel (dns_tunneling.h): client tables, channel framing, the four
      handlers, the poll loop.  DnsTunnelThm, with the descriptors of a run.

    The guest's sessions:
    - CreateProc (hvbridge.c): receiving and parsing the request that starts a
      session, the environment defaults, what the child executes.  In BridgeThm.v.
    - Session (run_session of hvbridge.c): one iteration of the poll loop as a
      function of what the system calls of that iteration report, the loop, the
      early exit and the clean-up; the result is the trace of actions.
      SessionThm: the child is collected once and never signalled afterwards;
      nothing is said to a host that is gone; the exit status; the grace period;
      the terminal's output.
    - Bridge (main of hvbridge.c): session after session.  BridgeThm: the sessions
      that are run are those that the host asked for, and every descriptor is
      closed.
    - Framing (interop_server.h, hvbridge.c): the buffered message readers.  In
      InteropThm.v.
    - Interop (interop_server.h): the query channel, with the CreateProcess
      handler.  A read beyond the message is a result of its own, [Past_end].
    - TermNotify (terminal_notify.h): font size tracking and the sniffer of OSC
      11 sequences.  In SessionThm.v.
    - LocalInterop (wsl_interop.h): the relay of a child's message to the host
      and the copying loop.
    - InteropClient (wsl-interop.c, wsl_interop.h): launching a Windows program, the
      two listeners, and the relay of the three streams by three processes.
      InteropClientThm composes it with LocalInterop and with the parser of
      CreateProc.
    - WslInfo (wslinfo.c), WslPath (wslpath.c): the two other tools.  WslInfoThm.v.

    Upstream, libraries:
    - Channel (SocketChannel.h, message.h, socketshared.h): how a message is laid out
      and read, received, numbered and validated.  ChannelThm.
    - Strings, CommandLine (stringshared.h, CommandLine.h): string helpers and the
      parser of arguments with the command lines of its users.  CommandLineThm.v.
    - MountInfo, MountFlags (src/src/linux/mountutil), EscapePath (escape.cpp),
      WinPath (util.cpp, wslpath.cpp): mount tables and options, characters that NTFS
      does not allow, and path translation.  MountInfoThm.v; WinPathThm.v, with
      collapsing of . and .. and the round trip through a share.
    - ConfigFile (src/src/shared/configfile): the .gitconfig-style reader as a
      machine of its labelled blocks, with the update mode.  ConfigDocThm: documents
      are read as a grammar says, reading ends, and what an update writes is read
      back.
    - DistroConfig (WslDistributionConfig.cpp): the settings of a distribution, read
      through ConfigFile, with its theorems.

    Upstream, network:
    - Netlink (src/src/linux/netlinkutil): netlink messages, their attributes and
      transactions, over a system that answers calls.
    - NetRoute, NetDevice: addresses, routes, rules and neighbours; interfaces.
      NetRouteThm.v: what is written is read back, a transaction's end.
    - NetManager (NetworkManager.cpp, conncheckshared.h, retryshared.h): the operations
      of the engine on interfaces, mirrored networking, the check of a connection.
    - HnsSchema, GnsEngine (hns_schema.h, GnsEngine.cpp): the messages of the host's
      networking service and the engine that applies them.  GnsEngineThm.v: the rules
      of mirrored networking against a table of rules; a status for every message; the
      search for an interface ends.
    - DnsServer (DnsServer.cpp, DnsTunnelingChannel.cpp, DnsTunnelingManager.cpp): the
      DNS server over UDP and TCP, as handlers and as steps between which the other
      thread runs, and its channel to the host.  DnsServerThm: requests against the
      bytes received, who is answered, and that requests cross the channel.
    - Localhost (localhost.cpp): the scan of listening sockets and the relay of
      connections.  LocalhostThm.
    - BindTracker (GnsPortTracker.cpp, SecCompDispatcher.cpp): the threads around a
      stopped bind() call as steps on one state.

    Upstream, file server:
    - P9State, P9Proto, P9File, P9Handler, P9Conn, P9Flush (src/src/linux/plan9):
      the share server.  The state of a connection with its fids, the system calls
      with the identity that makes them, and a monad with exceptions, destructors
      and termination; the wire format; files, directories and attributes; the
      handlers; how messages are cut out of a stream while the tasks that handle them
      run in any order (P9Conn); and, with handlers as several steps, requests in
      progress with the memory that their trackers share (P9Flush).  P9SafeThm and
      P9ShareThm: no path leaves the share, calls are made as the user that
      attached, replies are well formed; in P9ShareThm.v also P9ConnThm, P9FidThm
      (other fids are left alone) and P9ReadDirThm (listing a directory); P9FlushThm:
      Rflush, memory, and that every request is answered.

    ** How the code is modelled

    State is a Record with the fields of the C struct and passed explicitly;
    operations return the new state with the return value.  What comes from
    outside the program (sockets, files, the environment, fork, the kernel's
    structures) is an argument: a list of events or of answers, a function (of the
    calls so far, in Plan9 and P9State; of a world, in Netlink and above), or a field of
    the event record.  Code that is not in the repository is an argument as well: the
    JSON library (the record [nlohmann] of HnsSchema) and inet_pton and inet_ntop (the
    record [libc] of NetRoute).  Exceptions are results of a monad.  Concurrency is a
    step relation (P9Flush, BindTracker) or a run over labels that say which thread
    is next (DnsServer, P9Conn).  Fixed-width integers are kept at their width
    where an overflow is possible ([u16], [u32]).  Out-of-bounds reads, and entries
    that were never written, where the code has them, are results that the theorems
    exclude or characterise.  Allocation succeeds, except where a component says
    otherwise (PortTracker).

    ** Fuel and bounds

    Loops over data are structural.  Loops over what the outside does recurse on
    the list of events, so any number of turns is covered; that the code
    returns is proved from the events (enough progress, a closed stream).  Fuel
    remains where a loop consumes data in steps of varying size, and each time it
    is at least the number of steps: the pcblist walk (the length of the buffer;
    every record has at least the header's size), the diff of two snapshots (the sum
    of their lengths plus one), the DNS frame extraction (every frame takes two bytes
    or more), the search for a JSON key (every match takes two bytes or more), the
    drive bitmap (32 bits), the request loop of Plan9 (the length of the stream), the
    waits for a process (their 50 and 30 rounds), the config file machine (six blocks
    for each character and nine more, ConfigDocThm.config_parse_terminates), the
    collapsing of a path (its length plus one), the tokens of an option string (its
    length), a Treaddir of the upstream server
    (the bytes asked for by the 24 that an entry takes at least), its three attempts
    to open or create, the receiving of a message (a byte for each step), the
    splitting of a string and the walks over netlink messages and attributes (their
    lengths plus one), and the answers that are left (the sending of a DNS response).  The
    theorems on these functions are about the results, so running out of fuel would
    show.  Where the outside decides how long a loop goes on, as for the answers to a
    netlink request, the attempts of RetryWithTimeout and the turns of the engine and of
    ServerLoop, the bound is an argument and its end a result of its own ([Waiting],
    [Blocked]); with a clock that goes on, the time limit divided by the period and two
    more attempts are enough (GnsEngineThm, RetryWithTimeout_ends).

    ** The theorems

    The properties are numbered C1 to C40 in the theorem files.  Refinement and
    equivalence: the bridge against the host's conversations, the scan of listening
    sockets against a host that applies its messages, the rules of mirrored networking
    against a table of rules, a channel against a queue, the connections of both Plan 9
    servers against their handlers, fids against a finite map, the requests of a DNS
    connection against the bytes received, the datagrams passed on against those received,
    Twalk and collapsing of paths against references.  The connection of the upstream
    server is compared under every schedule of its handlers.  Invariants of step relations:
    the bind tracker, requests in progress.  Functional behaviour: sessions, the init's
    answers, the engine's commands, the settings that a wsl.conf gives, command lines.
    Round trips: config file updates, wsl.conf, messages, routes, paths.  Safety: descriptors, child processes,
    silence after a hangup, paths below the share, identities, memory, the order of
    shutdown.  Liveness and termination: requests drain, calls and notifications are
    answered, stopping ends.  The other theorems of the files (buffer bounds, further
    round trips, the guest's port tracker and DNS tunnel, the end of parsing and of
    retrying, timezones, host names, mounts, escapes) are not numbered.  The examples
    next to them record behaviour that differs from what the source documents.

    ** Not modelled

    Of the guest: logging and what is printed to the console, the printing of
    configurations, the raw mode of the terminal, and binfmt registration, which on
    FreeBSD does nothing.  Of upstream: the Windows service and client; the Linux init
    itself (init.cpp, main.cpp, config.cpp), which is mostly namespaces and mounts of
    the Linux kernel; the scheduler and asynchronous I/O of the share server, where
    P9Flush has the interleavings of requests instead; SetWiphyNamespace, which asks
    generic netlink for a family, and the handler of ioctl in the port tracker; the
    texts of errors and logs; the joining of threads; the tests.  A candidate for
    further work is the launching of a program by the upstream init (binfmt.cpp). *)
From Stdlib Require Export ZArith Lia.
From stdpp Require Export base tactics numbers strings list.

#[global] Open Scope Z_scope.

(** * Bytes, C strings and literals *)

(** A byte is an integer in [0, 256); a C string is the list of the bytes
    before its NUL terminator. *)
Abbreviation bytes := (list Z).

Definition is_byte (b : Z) : Prop := 0 <= b < 256.
Definition bytes_ok (l : bytes) : Prop := Forall is_byte l.
Definition no_nul (l : bytes) : Prop := Forall (fun b => b <> 0) l.
(** The content of a C string: bytes, none of them NUL. *)
Definition cstr_ok (l : bytes) : Prop := Forall (fun b => 0 < b < 256) l.

Definition ascii_code (a : Ascii.ascii) : Z := Z.of_N (Ascii.N_of_ascii a).
(** The bytes of a string literal. *)
Definition str (s : string) : bytes := map ascii_code (String.list_ascii_of_string s).

(** Character constants, named after the C literals they stand for. *)
Abbreviation c_tab := 9.
Abbreviation c_nl := 10.
Abbreviation c_cr := 13.
Abbreviation c_esc := 27.
Abbreviation c_bel := 7.
Abbreviation c_space := 32.
Abbreviation c_quote := 34.
Abbreviation c_hash := 35.
Abbreviation c_comma := 44.
Abbreviation c_dash := 45.
Abbreviation c_dot := 46.
Abbreviation c_slash := 47.
Abbreviation c_colon := 58.
Abbreviation c_semi := 59.
Abbreviation c_eq := 61.
Abbreviation c_quest := 63.
Abbreviation c_lbrack := 91.
Abbreviation c_bslash := 92.
Abbreviation c_rbrack := 93.

(** * Machine integers *)
Definition u8 (x : Z) : Z := x mod 2 ^ 8.
Definition u16 (x : Z) : Z := x mod 2 ^ 16.
Definition u32 (x : Z) : Z := x mod 2 ^ 32.
Definition u64 (x : Z) : Z := x mod 2 ^ 64.
Definition INT_MIN : Z := - 2 ^ 31.
Definition INT_MAX : Z := 2 ^ 31 - 1.

(** * Tactics and hints shared by the components *)
Create HintDb wsl.
Create Rewrite HintDb len.

(** Turn boolean comparisons of the code into propositions. *)
Ltac bool_to_prop :=
  repeat match goal with
  | H : _ && _ = true |- _ => apply andb_prop in H; destruct H
  | H : _ || _ = false |- _ => apply orb_false_elim in H; destruct H
  | H : negb _ = true |- _ => apply negb_true_iff in H
  | H : negb _ = false |- _ => apply negb_false_iff in H
  | H : (_ =? _) = true |- _ => apply Z.eqb_eq in H
  | H : (_ =? _) = false |- _ => apply Z.eqb_neq in H
  | H : (_ <? _) = true |- _ => apply Z.ltb_lt in H
  | H : (_ <? _) = false |- _ => apply Z.ltb_ge in H
  | H : (_ <=? _) = true |- _ => apply Z.leb_le in H
  | H : (_ <=? _) = false |- _ => apply Z.leb_gt in H
  | H : bool_decide _ = true |- _ => apply bool_decide_eq_true in H
  | H : bool_decide _ = false |- _ => apply bool_decide_eq_false in H
  end.

(** Case analysis on the first test of the goal. *)
Ltac case_if :=
  match goal with
  | |- context [if ?b then _ else _] => destruct b eqn:?
  end; bool_to_prop.

(** * Lists *)
Fixpoint list_eqb (a b : bytes) : bool :=
  match a, b with
  | [], [] => true
  | x :: a', y :: b' => (x =? y) && list_eqb a' b'
  | _, _ => false
  end.

Lemma list_eqb_eq a b : list_eqb a b = true <-> a = b.
Proof.
  revert b; induction a as [|x a IH]; intros [|y b]; simpl; try (split; congruence).
  rewrite andb_true_iff, IH, Z.eqb_eq. split; [intros [-> ->]|intros [= -> ->]]; auto.
Qed.

Lemma list_eqb_refl a : list_eqb a a = true.
Proof. by apply list_eqb_eq. Qed.

Lemma list_eqb_neq a b : list_eqb a b = false <-> a <> b.
Proof. rewrite <-list_eqb_eq. by destruct (list_eqb a b). Qed.

(** [take_while p l]: the longest prefix of [l] whose elements satisfy [p];
    [drop_while p l]: what follows it. *)
Section While.
Context {A : Type} (p : A -> bool).

Fixpoint take_while (l : list A) : list A :=
  match l with
  | [] => []
  | x :: l' => if p x then x :: take_while l' else []
  end.

Fixpoint drop_while (l : list A) : list A :=
  match l with
  | [] => []
  | x :: l' => if p x then drop_while l' else l
  end.

Lemma take_drop_while l : take_while l ++ drop_while l = l.
Proof. induction l as [|x l IH]; simpl; [done|]. destruct (p x); simpl; congruence. Qed.

Lemma take_while_forall l : Forall (fun x => p x = true) (take_while l).
Proof. induction l as [|x l IH]; simpl; [done|]. destruct (p x) eqn:?; auto. Qed.

Lemma take_while_app l1 x l2 :
  Forall (fun x => p x = true) l1 -> p x = false ->
  take_while (l1 ++ x :: l2) = l1.
Proof.
  intros H Hx. induction H as [|y l1 Hy _ IH]; simpl; [by rewrite Hx|].
  by rewrite Hy, IH.
Qed.

Lemma take_while_all l : Forall (fun x => p x = true) l -> take_while l = l.
Proof. induction 1 as [|y l Hy _ IH]; simpl; [done|]. by rewrite Hy, IH. Qed.

Lemma drop_while_app l1 l2 :
  Forall (fun x => p x = true) l1 -> drop_while (l1 ++ l2) = drop_while l2.
Proof. induction 1 as [|y l Hy _ IH]; simpl; [done|]. by rewrite Hy. Qed.

Lemma drop_while_head x l : p x = false -> drop_while (x :: l) = x :: l.
Proof. simpl. by intros ->. Qed.

Lemma drop_while_suffix l : drop_while l `suffix_of` l.
Proof. exists (take_while l). by rewrite take_drop_while. Qed.

Lemma drop_while_stop l x l' : drop_while l = x :: l' -> p x = false.
Proof. induction l as [|y l IH]; simpl; [done|]. destruct (p y) eqn:?; [auto|congruence]. Qed.

Lemma take_while_length l : (length (take_while l) <= length l)%nat.
Proof. induction l; simpl; [lia|]. destruct (p a); simpl; lia. Qed.

Lemma drop_while_length l : (length (drop_while l) <= length l)%nat.
Proof. induction l; simpl; [lia|]. destruct (p a); simpl; lia. Qed.
End While.

Lemma Forall_impl_hint {A} (P Q : A -> Prop) l :
  Forall P l -> (forall x, P x -> Q x) -> Forall Q l.
Proof. intros H HPQ. by eapply Forall_impl. Qed.

Lemma cstr_ok_no_nul s : cstr_ok s -> no_nul s.
Proof. intros H. eapply Forall_impl_hint; [exact H|]. simpl. lia. Qed.

Lemma cstr_ok_bytes_ok s : cstr_ok s -> bytes_ok s.
Proof. intros H. eapply Forall_impl_hint; [exact H|]. unfold is_byte. lia. Qed.

Lemma str_bytes_ok s : bytes_ok (str s).
Proof.
  unfold bytes_ok, str. induction (String.list_ascii_of_string s) as [|a l IH]; simpl; [done|].
  constructor; [|done].
  unfold is_byte, ascii_code. pose proof (Ascii.N_ascii_bounded a). lia.
Qed.

#[export] Hint Resolve cstr_ok_no_nul cstr_ok_bytes_ok str_bytes_ok : wsl.
#[export] Hint Rewrite @length_app @length_map @length_take @length_drop @length_replicate : len.

(** * Field update of records *)

(** [Eta R] rebuilds a record from its projections; a [Setter] for a
    projection is read off it, so that [r <| f := v |>] is [r] with the one
    field [f] changed. *)
Class Eta (R : Type) := eta_expand : R -> R.
Class Setter {R T : Type} (proj : R -> T) := upd : (T -> T) -> R -> R.
Arguments upd {R T} proj {_} _ _.

Ltac solve_setter :=
  lazymatch goal with
  | |- @Setter ?R ?T ?proj =>
    let i := constr:(ltac:(typeclasses eauto) : Eta R) in
    let e := eval hnf in i in
    lazymatch eval pattern proj in e with
    | ?g _ => exact (fun f => g (fun r => f (proj r)))
    end
  end.
#[export] Hint Extern 1 (Setter _) => solve_setter : typeclass_instances.

Declare Scope record_scope.
#[global] Open Scope record_scope.
Notation "r <| f := v |>" := (upd f (fun _ => v) r)
  (at level 12, left associativity, f at next level, v at level 200) : record_scope.
