(* ===== verification/StateM.v ===== *)
(** A state monad and a small Hoare logic for it.  The handlers that share a
    state and call the system many times (Plan9, Init) are written in it, with
    stdpp's notations [x ← m; k] and [m;; k]; [triple P m Q] says that [m],
    started where [P] holds, returns a value and a state related by [Q]. *)
From S2P Require Import Prelude.

Module StateM.

Definition M (St A : Type) : Type := St -> A * St.
#[export] Instance M_ret {St} : MRet (M St) := fun A x s => (x, s).
#[export] Instance M_bind {St} : MBind (M St) := fun A B f m s => let '(x, s') := m s in f x s'.

Definition get {St} : M St St := fun s => (s, s).
Definition gets {St A} (f : St -> A) : M St A := fun s => (f s, s).
Definition modify {St} (f : St -> St) : M St unit := fun s => (tt, f s).
Definition skip {St} : M St unit := fun s => (tt, s).
Definition when {St} (b : bool) (m : M St unit) : M St unit := if b then m else skip.

(** Do an action for each element, in order. *)
Fixpoint for_each {St A} (l : list A) (f : A -> M St unit) : M St unit :=
  match l with
  | [] => skip
  | x :: l' => f x;; for_each l' f
  end.

Definition triple {St A} (P : St -> Prop) (m : M St A) (Q : A -> St -> Prop) : Prop :=
  forall s, P s -> let '(x, s') := m s in Q x s'.

(** Keeping an invariant, whatever the result. *)
Definition keeps {St A} (I : St -> Prop) (m : M St A) : Prop := triple I m (fun _ => I).

Section Rules.
Context {St : Type}.
Implicit Types P I : St -> Prop.

Lemma triple_elim {A} P (m : M St A) Q s x s' : triple P m Q -> P s -> m s = (x, s') -> Q x s'.
Proof. intros H Hs E. specialize (H s Hs). by rewrite E in H. Qed.

Lemma triple_ret {A} P (x : A) Q : (forall s, P s -> Q x s) -> triple P (mret x) Q.
Proof. intros H s Hs. by apply H. Qed.

Lemma triple_bind {A B} P (m : M St A) (R : A -> St -> Prop) (f : A -> M St B) Q :
  triple P m R -> (forall x, triple (R x) (f x) Q) -> triple P (m ≫= f) Q.
Proof.
  intros Hm Hf s Hs. specialize (Hm s Hs). unfold mbind, M_bind.
  destruct (m s) as [x s1]. exact (Hf x s1 Hm).
Qed.

Lemma triple_gets {A} P (f : St -> A) Q : (forall s, P s -> Q (f s) s) -> triple P (gets f) Q.
Proof. intros H s Hs. by apply H. Qed.

Lemma triple_get P Q : (forall s, P s -> Q s s) -> triple P get Q.
Proof. intros H s Hs. by apply H. Qed.

Lemma triple_modify P (f : St -> St) Q : (forall s, P s -> Q tt (f s)) -> triple P (modify f) Q.
Proof. intros H s Hs. by apply H. Qed.

Lemma triple_skip P Q : (forall s, P s -> Q tt s) -> triple P skip Q.
Proof. intros H s Hs. by apply H. Qed.

Lemma triple_when P (b : bool) (m : M St unit) Q :
  (b = true -> triple P m Q) -> (b = false -> forall s, P s -> Q tt s) -> triple P (when b m) Q.
Proof. destruct b; intros H1 H2; [by apply H1|]. apply triple_skip; auto. Qed.

Lemma triple_conseq {A} P P' (m : M St A) (Q Q' : A -> St -> Prop) :
  triple P' m Q' -> (forall s, P s -> P' s) -> (forall x s, Q' x s -> Q x s) -> triple P m Q.
Proof.
  intros H HP HQ s Hs. specialize (H s (HP s Hs)). destruct (m s). by apply HQ.
Qed.

(** Facts about the result that do not depend on the state. *)
Lemma triple_pre {A} (F : Prop) P (m : M St A) Q :
  (F -> triple P m Q) -> triple (fun s => F /\ P s) m Q.
Proof. intros H s [HF Hs]. exact (H HF s Hs). Qed.

Lemma triple_ex {A X} (P : X -> St -> Prop) (m : M St A) Q :
  (forall x, triple (P x) m Q) -> triple (fun s => exists x, P x s) m Q.
Proof. intros H s [x Hs]. exact (H x s Hs). Qed.

Lemma keeps_ret {A} (I : St -> Prop) (x : A) : keeps I (mret x).
Proof. by apply triple_ret. Qed.

Lemma keeps_bind {A B} I (m : M St A) (f : A -> M St B) :
  keeps I m -> (forall x, keeps I (f x)) -> keeps I (m ≫= f).
Proof. intros Hm Hf. eapply triple_bind; [exact Hm|exact Hf]. Qed.

Lemma keeps_gets {A} I (f : St -> A) : keeps I (gets f).
Proof. by apply triple_gets. Qed.

Lemma keeps_get I : keeps I get.
Proof. by apply triple_get. Qed.

Lemma keeps_skip I : keeps I skip.
Proof. by apply triple_skip. Qed.

Lemma keeps_modify I (f : St -> St) : (forall s, I s -> I (f s)) -> keeps I (modify f).
Proof. intros H. by apply triple_modify. Qed.

Lemma keeps_when I (b : bool) (m : M St unit) : keeps I m -> keeps I (when b m).
Proof. intros H. by apply triple_when. Qed.

Lemma keeps_for_each {A} I (l : list A) (f : A -> M St unit) :
  (forall x, x ∈ l -> keeps I (f x)) -> keeps I (for_each l f).
Proof.
  induction l as [|x l IH]; intros H; cbn [for_each]; [apply keeps_skip|].
  apply keeps_bind; [apply H; by left|]. intros _. apply IH. intros y Hy. apply H. by right.
Qed.

Lemma for_each_app {A} (l1 l2 : list A) (f : A -> M St unit) s :
  for_each (l1 ++ l2) f s = (for_each l1 f;; for_each l2 f) s.
Proof.
  revert s; induction l1 as [|x l1 IH]; intros s; [done|]. cbn [for_each app]. unfold mbind, M_bind.
  destruct (f x s) as [u s1]. apply IH.
Qed.
End Rules.

#[export] Hint Resolve @keeps_ret @keeps_gets @keeps_get @keeps_skip : wsl.

(** Split a program of binds into its actions; [wsl] closes the leaves. *)
Ltac keep_step :=
  match goal with
  | |- keeps _ (_ ≫= _) => apply keeps_bind; [|intros ?]
  | |- keeps _ (when _ _) => apply keeps_when
  | |- keeps _ (let '_ := ?x in _) => destruct x
  | |- keeps _ (if ?b then _ else _) => destruct b eqn:?
  | |- keeps _ (match ?x with _ => _ end) => destruct x eqn:?
  | |- keeps _ _ => solve [eauto with wsl]
  end.
Ltac keep_steps := repeat keep_step.
End StateM.
