(* ===== verification/CStr.v ===== *)
(** The C library functions on strings the modelled code calls, on byte lists:
    character classes of the "C" locale, [strchr], [strcasecmp], [strncmp]
    against a literal, the [strtol] family, [snprintf] truncation and decimal
    printing.  They model the language's library, so no line of the repository
    is mapped to them. *)
From S2P Require Import Prelude.

(** * Strings in buffers *)
Definition nonzero (b : Z) : bool := negb (b =? 0).
(** The C string that starts at the head of a buffer. *)
Definition to_cstr (buf : bytes) : bytes := take_while nonzero buf.
(** Whether the buffer holds a terminator, so that reading it as a C string
    stays inside the buffer. *)
Definition nul_terminated (buf : bytes) : bool := existsb (fun b => b =? 0) buf.

Lemma to_cstr_app_nul s rest : no_nul s -> to_cstr (s ++ 0 :: rest) = s.
Proof.
  intros H. apply take_while_app; [|done].
  eapply Forall_impl_hint; [exact H|]. intros x Hx. unfold nonzero. by apply negb_true_iff, Z.eqb_neq.
Qed.

Lemma to_cstr_all s : no_nul s -> to_cstr s = s.
Proof.
  intros H. apply take_while_all.
  eapply Forall_impl_hint; [exact H|]. intros x Hx. unfold nonzero. by apply negb_true_iff, Z.eqb_neq.
Qed.

Lemma to_cstr_no_nul buf : no_nul (to_cstr buf).
Proof.
  eapply Forall_impl_hint; [apply take_while_forall|]. unfold nonzero.
  intros x Hx. bool_to_prop. done.
Qed.

Lemma to_cstr_bytes_ok buf : bytes_ok buf -> bytes_ok (to_cstr buf).
Proof.
  intros H. unfold to_cstr. rewrite <-(take_drop_while nonzero buf) in H.
  by apply Forall_app in H as [? _].
Qed.

Lemma to_cstr_length buf : (length (to_cstr buf) <= length buf)%nat.
Proof. apply take_while_length. Qed.

(** Strings packed one after the other, each with its terminator. *)
Definition packed (ss : list bytes) : bytes := flat_map (fun s => s ++ [0]) ss.

Lemma packed_app l1 l2 : packed (l1 ++ l2) = packed l1 ++ packed l2.
Proof. apply flat_map_app. Qed.

Lemma packed_cons s ss : packed (s :: ss) = s ++ 0 :: packed ss.
Proof. unfold packed. cbn [flat_map]. by rewrite <-app_assoc. Qed.

(** A NUL-terminated string of the buffer at an offset. *)
Definition string_at (buffer : bytes) (off : nat) (s : bytes) : Prop :=
  no_nul s /\ exists post, drop off buffer = s ++ 0 :: post.

Lemma nul_terminated_split p : nul_terminated p = true -> exists post, p = to_cstr p ++ 0 :: post.
Proof.
  unfold nul_terminated, to_cstr. induction p as [|b p IH]; cbn; [done|]. unfold nonzero at 1.
  destruct (b =? 0) eqn:E; cbn [negb orb].
  - bool_to_prop. subst. intros _. by exists p.
  - intros H. destruct (IH H) as [post Hp]. exists post. cbn [app]. by rewrite Hp at 1.
Qed.

Lemma string_at_cstr buffer off :
  nul_terminated (drop off buffer) = true -> string_at buffer off (to_cstr (drop off buffer)).
Proof. intros H. split; [apply to_cstr_no_nul|]. by apply nul_terminated_split. Qed.

(** * Character classes *)
Definition isdigit (c : Z) : bool := (48 <=? c) && (c <=? 57).
Definition isupper (c : Z) : bool := (65 <=? c) && (c <=? 90).
Definition islower (c : Z) : bool := (97 <=? c) && (c <=? 122).
Definition isalpha (c : Z) : bool := isupper c || islower c.
Definition isalnum (c : Z) : bool := isalpha c || isdigit c.
Definition isspace (c : Z) : bool := (c =? 32) || ((9 <=? c) && (c <=? 13)).
Definition tolower (c : Z) : Z := if isupper c then c + 32 else c.
Definition toupper (c : Z) : Z := if islower c then c - 32 else c.

Ltac unfold_ctype :=
  unfold isalnum, isalpha, isdigit, isupper, islower, isspace, tolower, toupper in *.

Lemma tolower_idem c : tolower (tolower c) = tolower c.
Proof.
  unfold tolower. destruct (isupper c) eqn:E; [|by rewrite E].
  destruct (isupper (c + 32)) eqn:E2; [|done]. unfold_ctype. bool_to_prop. lia.
Qed.

Lemma tolower_toupper c : islower c = true -> tolower (toupper c) = c.
Proof.
  intros H. unfold tolower, toupper. rewrite H. unfold_ctype. bool_to_prop.
  destruct (_ && _) eqn:E; bool_to_prop; [lia|].
  apply andb_false_iff in E as [?|?]; bool_to_prop; lia.
Qed.

Lemma toupper_isalpha c : islower c = true -> isupper (toupper c) = true.
Proof.
  intros H. unfold toupper. rewrite H. unfold_ctype. bool_to_prop.
  apply andb_true_intro; split; apply Z.leb_le; lia.
Qed.

(** * Comparison *)
Definition strcmp_eq (a b : bytes) : bool := list_eqb a b.
Definition strcasecmp_eq (a b : bytes) : bool := list_eqb (map tolower a) (map tolower b).

(** [strncmp(s, pre, strlen(pre)) == 0]. *)
Fixpoint starts_with (pre s : bytes) : bool :=
  match pre, s with
  | [], _ => true
  | p :: pre', c :: s' => (p =? c) && starts_with pre' s'
  | _ :: _, [] => false
  end.

Lemma starts_with_app pre s : starts_with pre (pre ++ s) = true.
Proof. induction pre as [|p pre IH]; simpl; [done|]. by rewrite Z.eqb_refl. Qed.

Lemma starts_with_spec pre s : starts_with pre s = true <-> exists t, s = pre ++ t.
Proof.
  split.
  - revert s; induction pre as [|p pre IH]; intros s H; simpl in *; [by exists s|].
    destruct s as [|c s]; [done|]. bool_to_prop. subst.
    destruct (IH _ H0) as [t ->]. by exists t.
  - intros [t ->]. apply starts_with_app.
Qed.

(** * Searching: [strchr c s] splits [s] at the first [c]. *)
Fixpoint strchr (c : Z) (s : bytes) : option (bytes * bytes) :=
  match s with
  | [] => None
  | x :: s' => if x =? c then Some ([], s')
               else match strchr c s' with
                    | Some (pre, post) => Some (x :: pre, post)
                    | None => None
                    end
  end.

Lemma strchr_spec c s pre post :
  strchr c s = Some (pre, post) -> s = pre ++ c :: post /\ Forall (fun b => b <> c) pre.
Proof.
  revert pre post; induction s as [|x s IH]; intros pre post; simpl; [done|].
  destruct (x =? c) eqn:E; bool_to_prop.
  - intros [= <- <-]. by subst.
  - destruct (strchr c s) as [[pre' post']|] eqn:Hs; [|done].
    intros [= <- <-]. destruct (IH _ _ eq_refl) as [-> ?]. split; [done|by constructor].
Qed.

Lemma strchr_app c pre post :
  Forall (fun b => b <> c) pre -> strchr c (pre ++ c :: post) = Some (pre, post).
Proof.
  induction 1 as [|x pre Hx _ IH]; simpl; [by rewrite Z.eqb_refl|].
  apply Z.eqb_neq in Hx. by rewrite Hx, IH.
Qed.

Lemma strchr_none c s : Forall (fun b => b <> c) s -> strchr c s = None.
Proof.
  induction 1 as [|x s Hx _ IH]; simpl; [done|]. apply Z.eqb_neq in Hx. by rewrite Hx, IH.
Qed.

(** * Bounded copies: what [snprintf(buf, size, "%s", s)] or [strncpy] with a
    forced terminator leaves in a buffer of [size] bytes. *)
Definition snprintf_s (size : Z) (s : bytes) : bytes := take (Z.to_nat (size - 1)) s.

Lemma snprintf_s_fits size s : Z.of_nat (length s) < size -> snprintf_s size s = s.
Proof. intros H. unfold snprintf_s. apply take_ge. lia. Qed.

Lemma snprintf_s_length size s :
  1 <= size -> Z.of_nat (length (snprintf_s size s)) < size.
Proof. intros H. unfold snprintf_s. rewrite length_take. lia. Qed.

Lemma snprintf_s_forall (P : Z -> Prop) size s : Forall P s -> Forall P (snprintf_s size s).
Proof. intros H. by apply Forall_take. Qed.

(** * [fgets]: the reads of a whole file through a buffer of [cap + 1] bytes.
    Each read stops after a newline or after [cap] bytes. *)
Fixpoint fgets_from (cap room : nat) (s cur : bytes) : list bytes :=
  match s with
  | [] => match cur with [] => [] | _ => [rev cur] end
  | c :: s' =>
    if c =? c_nl then rev (c :: cur) :: fgets_from cap cap s' []
    else match room with
         | S (S r) => fgets_from cap (S r) s' (c :: cur)
         | _ => rev (c :: cur) :: fgets_from cap cap s' []
         end
  end.

Definition fgets_lines (size : Z) (s : bytes) : list bytes :=
  let cap := Z.to_nat (size - 1) in fgets_from cap cap s [].

Lemma fgets_from_concat cap room s cur : concat (fgets_from cap room s cur) = rev cur ++ s.
Proof.
  revert room cur; induction s as [|c s IH]; intros room cur; simpl.
  - destruct cur; simpl; by rewrite ?app_nil_r.
  - assert (rev cur ++ c :: s = rev (c :: cur) ++ s) as -> by (simpl; by rewrite <-app_assoc).
    case_if; [|destruct room as [|[|r]]]; cbn [concat]; rewrite ?IH; done.
Qed.

Lemma fgets_from_line cap room l rest cur :
  Forall (fun b => b <> c_nl) l -> (length l < room)%nat ->
  fgets_from cap room (l ++ c_nl :: rest) cur
  = (rev cur ++ l ++ [c_nl]) :: fgets_from cap cap rest [].
Proof.
  intros Hl; revert room cur; induction Hl as [|c l Hc _ IH]; intros room cur Hr.
  - reflexivity.
  - simpl in Hr. destruct room as [|[|r]]; [lia|lia|]. cbn [app fgets_from].
    apply Z.eqb_neq in Hc. rewrite Hc, IH by lia. cbn [rev]. by rewrite <-!app_assoc.
Qed.

(** A line that fits is read whole, with its newline. *)
Lemma fgets_lines_line size l rest :
  Forall (fun b => b <> c_nl) l -> Z.of_nat (length l) + 1 < size ->
  fgets_lines size (l ++ c_nl :: rest) = (l ++ [c_nl]) :: fgets_lines size rest.
Proof. intros Hl Hr. unfold fgets_lines. by rewrite fgets_from_line by (done || lia). Qed.

(** * [strtok_r]: the tokens of a string, from the first to the last. *)
Fixpoint strtok_from (delim : Z -> bool) (cur s : bytes) : list bytes :=
  let emit rest := match cur with [] => rest | _ => rev cur :: rest end in
  match s with
  | [] => emit []
  | c :: s' => if delim c then emit (strtok_from delim [] s') else strtok_from delim (c :: cur) s'
  end.
Definition strtok (delim : Z -> bool) (s : bytes) : list bytes := strtok_from delim [] s.

(** Strings joined by a separator. *)
Fixpoint join (sep : Z) (l : list bytes) : bytes :=
  match l with
  | [] => []
  | [s] => s
  | s :: l' => s ++ sep :: join sep l'
  end.

Definition is_empty (s : bytes) : bool := match s with [] => true | _ => false end.

(** * Comparing buffers *)
Fixpoint memcmp (a b : bytes) : Z :=
  match a, b with
  | x :: a', y :: b' => if x =? y then memcmp a' b' else x - y
  | _, _ => 0
  end.

Lemma memcmp_refl a : memcmp a a = 0.
Proof. induction a as [|x a IH]; cbn; [done|]. by rewrite Z.eqb_refl. Qed.

Lemma memcmp_antisym a b : memcmp b a = - memcmp a b.
Proof.
  revert b; induction a as [|x a IH]; intros [|y b]; cbn; try done.
  rewrite (Z.eqb_sym y x). case_if; [apply IH|lia].
Qed.

Lemma memcmp_eq a b : length a = length b -> memcmp a b = 0 -> a = b.
Proof.
  revert b; induction a as [|x a IH]; intros [|y b] Hl; cbn; try done.
  case_if; intros H; [|lia]. subst. f_equal. apply IH; [by injection Hl|done].
Qed.

Lemma memcmp_trans a b c :
  length a = length b -> length b = length c ->
  memcmp a b < 0 -> memcmp b c <= 0 -> memcmp a c < 0.
Proof.
  revert b c; induction a as [|x a IH]; intros [|y b] [|z c] H1 H2; cbn in *; try done.
  repeat case_if; try lia. subst. intros. eapply IH; [| |eassumption|eassumption]; congruence.
Qed.
