(* ===== verification/CNum.v ===== *)
(** Numbers in the C library: the [strtol] family with base detection and
    range errors, decimal printing ([%d], [%u], [%ld]) and the little-endian
    layout of the wire integers. *)
From S2P Require Import Prelude CStr.

(** * Scanning *)
Definition digit_of (c : Z) : option Z :=
  if isdigit c then Some (c - 48)
  else if islower c then Some (c - 87)
  else if isupper c then Some (c - 55)
  else None.

(** Whether [c] is a digit of the base. *)
Definition digit_in (base c : Z) : bool :=
  match digit_of c with Some d => d <? base | None => false end.

Fixpoint scan_digits (base acc : Z) (s : bytes) : Z * bytes :=
  match s with
  | [] => (acc, [])
  | c :: s' =>
    match digit_of c with
    | Some d => if d <? base then scan_digits base (acc * base + d) s' else (acc, s)
    | None => (acc, s)
    end
  end.

Definition head_digit_in (base : Z) (s : bytes) : bool :=
  match s with c :: _ => digit_in base c | [] => false end.

(** The base and the digits after an optional [0x] or [0] prefix. *)
Definition strto_prefix (base : Z) (s : bytes) : Z * bytes :=
  match s with
  | z :: x :: t =>
    if (z =? 48) && (tolower x =? 120) && head_digit_in 16 t
       && ((base =? 0) || (base =? 16))
    then (16, t)
    else if base =? 0 then (if z =? 48 then 8 else 10, s) else (base, s)
  | z :: _ => if base =? 0 then (if z =? 48 then 8 else 10, s) else (base, s)
  | [] => (if base =? 0 then 10 else base, [])
  end.

(** Sign, magnitude and rest; [None] when there is no conversion (the end
    pointer is then the start of the string). *)
Definition strto_scan (base : Z) (s : bytes) : option (bool * Z * bytes) :=
  let s1 := drop_while isspace s in
  let '(neg, s2) :=
    match s1 with
    | c :: t => if c =? 45 then (true, t) else if c =? 43 then (false, t) else (false, s1)
    | [] => (false, [])
    end in
  let '(b, s3) := strto_prefix base s2 in
  if head_digit_in b s3 then
    let '(v, rest) := scan_digits b 0 s3 in Some (neg, v, rest)
  else None.

Definition LONG_MIN : Z := - 2 ^ 63.
Definition LONG_MAX : Z := 2 ^ 63 - 1.
Definition ULONG_MAX : Z := 2 ^ 64 - 1.

(** [strtol]: the value, whether [errno] is set to [ERANGE], and the rest of
    the string from the end pointer when something was converted. *)
Definition strtol (base : Z) (s : bytes) : Z * bool * option bytes :=
  match strto_scan base s with
  | None => (0, false, None)
  | Some (neg, v, rest) =>
    let x := if neg : bool then - v else v in
    if x <? LONG_MIN then (LONG_MIN, true, Some rest)
    else if LONG_MAX <? x then (LONG_MAX, true, Some rest)
    else (x, false, Some rest)
  end.

Definition strtoul (base : Z) (s : bytes) : Z * option bytes :=
  match strto_scan base s with
  | None => (0, None)
  | Some (neg, v, rest) =>
    if ULONG_MAX <? v then (ULONG_MAX, Some rest)
    else (if neg : bool then u64 (- v) else v, Some rest)
  end.

(** * Decimal printing *)
Fixpoint dec_go (fuel : nat) (n : Z) (acc : bytes) : bytes :=
  match fuel with
  | O => acc
  | S f =>
    let acc' := (48 + n mod 10) :: acc in
    if n / 10 =? 0 then acc' else dec_go f (n / 10) acc'
  end.

(** [%u] of a non-negative integer; one digit per bit is enough fuel. *)
Definition dec (n : Z) : bytes := dec_go (S (Z.to_nat (Z.log2 n))) n [].
(** [%d] *)
Definition dec_signed (n : Z) : bytes := if n <? 0 then c_dash :: dec (- n) else dec n.

Lemma dec_go_app fuel n acc : dec_go fuel n acc = dec_go fuel n [] ++ acc.
Proof.
  revert n acc; induction fuel as [|f IH]; intros n acc; simpl; [done|].
  case_if; [done|]. rewrite IH, (IH _ [_]), <-app_assoc. done.
Qed.

Lemma digit_of_dec n : 0 <= n -> digit_of (48 + n mod 10) = Some (n mod 10).
Proof.
  intros H. pose proof (Z.mod_pos_bound n 10 ltac:(lia)).
  unfold digit_of. assert (isdigit (48 + n mod 10) = true) as ->.
  { unfold isdigit. apply andb_true_intro; split; apply Z.leb_le; lia. }
  f_equal; lia.
Qed.

Lemma scan_digits_dec_go fuel n acc :
  0 <= n < 2 ^ Z.of_nat fuel -> (0 < fuel)%nat ->
  scan_digits 10 0 (dec_go fuel n acc) = scan_digits 10 n acc.
Proof.
  revert n acc; induction fuel as [|f IH]; intros n acc Hn Hf; [lia|].
  pose proof (Z.div_mod n 10 ltac:(lia)). pose proof (Z.mod_pos_bound n 10 ltac:(lia)).
  rewrite Nat2Z.inj_succ, Z.pow_succ_r in Hn by lia.
  simpl dec_go. case_if.
  - cbn [scan_digits]. rewrite digit_of_dec by lia.
    replace (n mod 10 <? 10) with true by (symmetry; apply Z.ltb_lt; lia). f_equal; lia.
  - destruct f as [|f']; [simpl in *; lia|]. rewrite IH by lia.
    cbn [scan_digits]. rewrite digit_of_dec by lia.
    replace (n mod 10 <? 10) with true by (symmetry; apply Z.ltb_lt; lia). f_equal; lia.
Qed.

Lemma scan_digits_stop base n rest :
  head_digit_in base rest = false -> scan_digits base n rest = (n, rest).
Proof.
  destruct rest as [|c r]; simpl; [done|]. unfold digit_in. destruct (digit_of c); [|done].
  by intros ->.
Qed.

(** Reading back a printed number. *)
Lemma scan_digits_dec n rest :
  0 <= n -> head_digit_in 10 rest = false ->
  scan_digits 10 0 (dec n ++ rest) = (n, rest).
Proof.
  intros Hn Hr. unfold dec. rewrite <-dec_go_app, scan_digits_dec_go; [by apply scan_digits_stop| |lia].
  split; [done|]. rewrite Nat2Z.inj_succ, Z2Nat.id by apply Z.log2_nonneg.
  destruct (decide (n = 0)) as [->|]; [simpl; lia|]. apply Z.log2_spec. lia.
Qed.

Lemma dec_go_forall fuel n acc :
  0 <= n -> Forall (fun b => 48 <= b < 58) acc ->
  Forall (fun b => 48 <= b < 58) (dec_go fuel n acc).
Proof.
  revert n acc; induction fuel as [|f IH]; intros n acc Hn Ha; simpl; [done|].
  pose proof (Z.mod_pos_bound n 10 ltac:(lia)).
  assert (0 <= n / 10) by (apply Z.div_pos; lia).
  assert (Forall (fun b => 48 <= b < 58) ((48 + n mod 10) :: acc)) by (constructor; [lia|done]).
  case_if; auto.
Qed.

Lemma dec_digits n : 0 <= n -> Forall (fun b => 48 <= b < 58) (dec n).
Proof. intros. by apply dec_go_forall. Qed.

Lemma dec_go_length fuel n acc k :
  0 <= n < 10 ^ Z.of_nat k -> (1 <= k)%nat -> (length (dec_go fuel n acc) <= length acc + k)%nat.
Proof.
  revert n acc k; induction fuel as [|f IH]; intros n acc k Hn Hk; cbn [dec_go]; [lia|].
  case_if; [cbn [length]; lia|].
  destruct k as [|[|k]]; [lia|change (10 ^ Z.of_nat 1) with 10 in Hn; rewrite Z.div_small in * by lia; lia|].
  assert (Hq : 0 <= n / 10 < 10 ^ Z.of_nat (S k)).
  { rewrite (Nat2Z.inj_succ (S k)), Z.pow_succ_r in Hn by lia.
    split; [apply Z.div_pos; lia|apply Z.div_lt_upper_bound; lia]. }
  specialize (IH (n / 10) ((48 + n mod 10) :: acc) (S k) Hq ltac:(lia)). cbn [length] in IH. lia.
Qed.

(** A [long] prints in at most 20 characters. *)
Lemma dec_signed_length n : LONG_MIN <= n <= LONG_MAX -> (length (dec_signed n) <= 20)%nat.
Proof.
  assert (H : forall m, 0 <= m <= 2 ^ 63 -> (length (dec m) <= 19)%nat).
  { intros m Hm. apply (dec_go_length _ m [] 19); [split; [lia|]|lia]. eapply Z.le_lt_trans; [apply Hm|done]. }
  unfold LONG_MIN, LONG_MAX, dec_signed. intros Hn. case_if; [cbn [length]; specialize (H (- n)); lia|].
  specialize (H n). lia.
Qed.

Lemma dec_nonempty n : 0 <= n -> dec n <> [].
Proof.
  intros Hn E. pose proof (scan_digits_dec n [] Hn eq_refl) as Hs. rewrite E in Hs.
  simpl in Hs. injection Hs as <-. by vm_compute in E.
Qed.

Lemma dec_signed_chars n :
  dec_signed n <> [] /\ Forall (fun b => b = c_dash \/ 48 <= b < 58) (dec_signed n).
Proof.
  assert (H : forall m, 0 <= m -> Forall (fun b => b = c_dash \/ 48 <= b < 58) (dec m)).
  { intros m Hm. eapply Forall_impl_hint; [by apply dec_digits|]. simpl. lia. }
  unfold dec_signed. case_if; [split; [done|constructor; [by left|]]|split; [apply dec_nonempty; lia|]]; apply H; lia.
Qed.

(** Conversion of a long to an int, and [atoi]. *)
Definition to_int (x : Z) : Z :=
  let y := u32 x in if INT_MAX <? y then y - 2 ^ 32 else y.
Definition atoi (s : bytes) : Z := to_int (fst (fst (strtol 10 s))).

(** [strtol] reads a printed number back, up to what is no digit. *)
Lemma strtol_dec_signed n rest :
  LONG_MIN <= n <= LONG_MAX -> head_digit_in 10 rest = false ->
  strtol 10 (dec_signed n ++ rest) = (n, false, Some rest).
Proof.
  intros Hn Hstop.
  assert (Hscan : forall m, 0 <= m -> exists d t, dec m ++ rest = d :: t /\ 48 <= d < 58
    /\ strto_prefix 10 (d :: t) = (10, d :: t) /\ head_digit_in 10 (d :: t) = true
    /\ scan_digits 10 0 (d :: t) = (m, rest)).
  { intros m Hm. pose proof (scan_digits_dec m rest Hm Hstop) as Hs.
    pose proof (dec_digits m Hm) as Hd. destruct (dec m) as [|d t] eqn:E.
    - cbn [app] in Hs. rewrite scan_digits_stop in Hs by done. injection Hs as <-. by vm_compute in E.
    - apply Forall_cons in Hd as [Hd _]. exists d, (t ++ rest). cbn [app] in *. repeat split; try done; try lia.
      + cbn [strto_prefix]. destruct (t ++ rest); [done|]. by rewrite andb_false_r.
      + cbn [head_digit_in]. unfold digit_in, digit_of, isdigit.
        replace ((48 <=? d) && (d <=? 57)) with true by (symmetry; apply andb_true_intro; split; apply Z.leb_le; lia).
        apply Z.ltb_lt. lia. }
  unfold strtol, strto_scan, dec_signed. case_if.
  - destruct (Hscan (- n) ltac:(lia)) as (d & t & E & Hd & Hp & Hh & Hs). cbn [app].
    rewrite drop_while_head by done. cbn [Z.eqb]. rewrite Pos.eqb_refl.
    rewrite E, Hp, Hh, Hs. rewrite Z.opp_involutive.
    destruct (n <? LONG_MIN) eqn:?; [bool_to_prop; lia|]. destruct (LONG_MAX <? n) eqn:?; [bool_to_prop; lia|done].
  - destruct (Hscan n ltac:(lia)) as (d & t & E & Hd & Hp & Hh & Hs). rewrite E.
    rewrite drop_while_head by (unfold isspace; apply orb_false_intro; [apply Z.eqb_neq; lia|];
      apply andb_false_intro2, Z.leb_gt; lia).
    replace (d =? 45) with false by (symmetry; apply Z.eqb_neq; lia).
    replace (d =? 43) with false by (symmetry; apply Z.eqb_neq; lia).
    rewrite Hp, Hh, Hs.
    destruct (n <? LONG_MIN) eqn:?; [bool_to_prop; lia|]. destruct (LONG_MAX <? n) eqn:?; [bool_to_prop; lia|done].
Qed.


(** * Little-endian integers on the wire *)
Fixpoint le_bytes (n : nat) (v : Z) : bytes :=
  match n with
  | O => []
  | S n' => v mod 256 :: le_bytes n' (v / 256)
  end.

Fixpoint le_val (l : bytes) : Z :=
  match l with
  | [] => 0
  | b :: l' => b + 256 * le_val l'
  end.

Lemma le_bytes_length n v : length (le_bytes n v) = n.
Proof. revert v; induction n; intros; simpl; auto. Qed.

Lemma le_bytes_ok n v : bytes_ok (le_bytes n v).
Proof.
  revert v; induction n; intros; simpl; constructor; [|apply IHn].
  unfold is_byte. apply Z.mod_pos_bound. lia.
Qed.

Lemma le_val_bytes n v : le_val (le_bytes n v) = v mod 256 ^ Z.of_nat n.
Proof.
  revert v; induction n as [|n IH]; intros v; [by rewrite Z.mod_1_r|].
  cbn [le_bytes le_val]. rewrite IH, Nat2Z.inj_succ, Z.pow_succ_r by lia.
  rewrite Z.rem_mul_r by lia. lia.
Qed.

Lemma le_val_bytes_small n v : 0 <= v < 256 ^ Z.of_nat n -> le_val (le_bytes n v) = v.
Proof. intros. rewrite le_val_bytes. by apply Z.mod_small. Qed.

Lemma le_val_bound l : bytes_ok l -> 0 <= le_val l < 256 ^ Z.of_nat (length l).
Proof.
  induction 1 as [|b l Hb _ IH]; [simpl; lia|].
  cbn [le_val length]. rewrite Nat2Z.inj_succ, Z.pow_succ_r by lia.
  unfold is_byte in Hb. lia.
Qed.

Lemma le_bytes_val l : bytes_ok l -> le_bytes (length l) (le_val l) = l.
Proof.
  induction 1 as [|b l Hb _ IH]; [done|]. cbn [le_val length le_bytes].
  unfold is_byte in Hb. f_equal.
  - rewrite (Z.mul_comm 256), Z.mod_add, Z.mod_small; lia.
  - rewrite (Z.mul_comm 256), Z.div_add, Z.div_small by lia. done.
Qed.

(** A wire field: [n] bytes at offset [off] of a buffer. *)
Definition get_le (n : nat) (off : Z) (buf : bytes) : Z :=
  le_val (take n (drop (Z.to_nat off) buf)).
Definition get16 (off : Z) (buf : bytes) : Z := get_le 2 off buf.
Definition get32 (off : Z) (buf : bytes) : Z := get_le 4 off buf.
Definition get64 (off : Z) (buf : bytes) : Z := get_le 8 off buf.

Lemma get_le_app n off pre v rest :
  Z.of_nat (length pre) = off -> get_le n off (pre ++ le_bytes n v ++ rest) = v mod 256 ^ Z.of_nat n.
Proof.
  intros <-. unfold get_le. rewrite Nat2Z.id, drop_app_length, take_app_le by (rewrite le_bytes_length; lia).
  rewrite take_ge by (rewrite le_bytes_length; lia). apply le_val_bytes.
Qed.

Lemma get_le_head n v rest : get_le n 0 (le_bytes n v ++ rest) = v mod 256 ^ Z.of_nat n.
Proof. apply (get_le_app n 0 []). done. Qed.

Lemma get_le_head_nil n v : get_le n 0 (le_bytes n v) = v mod 256 ^ Z.of_nat n.
Proof. rewrite <-(app_nil_r (le_bytes n v)). apply get_le_head. Qed.

(** Skipping a field of the layout. *)
Lemma get_le_skip n m v off rest :
  Z.of_nat m <= off -> get_le n off (le_bytes m v ++ rest) = get_le n (off - Z.of_nat m) rest.
Proof.
  intros H. unfold get_le. rewrite drop_app_ge by (rewrite le_bytes_length; lia).
  rewrite le_bytes_length. do 3 f_equal. lia.
Qed.

Lemma get_le_bound n off buf : bytes_ok buf -> 0 <= get_le n off buf < 256 ^ Z.of_nat n.
Proof.
  intros H. unfold get_le.
  assert (bytes_ok (take n (drop (Z.to_nat off) buf))) as Hb by (by apply Forall_take, Forall_drop).
  pose proof (le_val_bound _ Hb) as [? Hlt]. split; [done|]. eapply Z.lt_le_trans; [exact Hlt|].
  apply Z.pow_le_mono_r; [lia|]. rewrite length_take. lia.
Qed.

Lemma atoi_dec_signed n rest :
  INT_MIN <= n <= INT_MAX -> head_digit_in 10 rest = false -> atoi (dec_signed n ++ rest) = n.
Proof.
  unfold INT_MIN, INT_MAX. intros Hn Hr.
  assert (LONG_MIN <= n <= LONG_MAX) by (unfold LONG_MIN, LONG_MAX; lia).
  unfold atoi. rewrite strtol_dec_signed by done. cbn [fst].
  unfold to_int, u32, INT_MAX. destruct (Z.le_gt_cases 0 n) as [H0|H0].
  - rewrite Z.mod_small by lia. case_if; [bool_to_prop; lia|done].
  - rewrite <-(Z.mod_add n 1), Z.mod_small by lia. case_if; [lia|bool_to_prop; lia].
Qed.

(** A boolean fact about bytes, by trying the 256 of them. *)
Lemma every_byte (P : Z -> bool) : forallb P (map Z.of_nat (seq 0 256)) = true -> forall c, is_byte c -> P c = true.
Proof.
  intros H c Hc. rewrite forallb_forall in H. apply H. unfold is_byte in *.
  apply in_map_iff. exists (Z.to_nat c). split; [lia|]. apply in_seq. lia.
Qed.

#[export] Hint Resolve le_bytes_ok : wsl.
#[export] Hint Rewrite le_bytes_length : len.

(** Read one field of a concatenation of wire fields. *)
Ltac read_field :=
  unfold get16, get32, get64;
  repeat (rewrite get_le_skip by lia; simpl Z.of_nat; simpl Z.sub);
  rewrite ?get_le_head, ?get_le_head_nil;
  try (rewrite Z.mod_small by (simpl Z.of_nat; lia)).
