(* ===== verification/Strings.v ===== *)
(** The string helpers that the upstream processes share
    (src/src/shared/inc/stringshared.h): comparison, splitting, host names, GUIDs and
    MAC addresses.  For Linux, in the C locale. *)
From S2P Require Import Prelude CStr CNum.

Module Strings.

(** * Comparison *)

(** std::mismatch: the number of characters before the first difference. *)
Fixpoint mismatch (CaseInsensitive : bool) (first second : bytes) : nat :=
  match first, second with
  | a :: first', b :: second' =>
    if (if CaseInsensitive then tolower a =? tolower b else a =? b) then S (mismatch CaseInsensitive first' second') else O
  | _, _ => O
  end.
Definition Compare (String1 String2 : bytes) (CaseInsensitive : bool) : nat :=
  if (length String1 <=? length String2)%nat then mismatch CaseInsensitive String1 String2
  else mismatch CaseInsensitive String2 String1.
Definition IsEqual (String1 String2 : bytes) (CaseInsensitive : bool) : bool :=
  if negb (length String1 =? length String2)%nat then false
  else (Compare String1 String2 CaseInsensitive =? length String1)%nat.
Definition StartsWith (String Prefix : bytes) (CaseInsensitive : bool) : bool :=
  if (length String <? length Prefix)%nat then false
  else (Compare (take (length Prefix) String) Prefix CaseInsensitive =? length Prefix)%nat.
Definition EndsWith (String Suffix : bytes) : bool :=
  if (length String <? length Suffix)%nat then false
  else list_eqb (take (length Suffix) (rev String)) (rev Suffix).
Definition IsDriveRoot (Path : bytes) : bool :=
  let IsRoot := if (length Path =? 3)%nat then nth 2 Path 0 =? c_bslash else true in
  if (length Path =? 2)%nat || (length Path =? 3)%nat
  then IsRoot && (isalpha (nth 0 Path 0) && (nth 1 Path 0 =? c_colon))
  else false.

(** * Lists of strings *)
Fixpoint Join (Input : list bytes) (Separator : Z) : bytes :=
  match Input with
  | [] => []
  | [Entry] => Entry
  | Entry :: Input' => Entry ++ Separator :: Join Input' Separator
  end.

(** The entries that std::getline reads; an empty last entry makes no difference here. *)
Fixpoint getlines (Separator : Z) (String Entry : bytes) : list bytes :=
  match String with
  | [] => [Entry]
  | c :: String' => if c =? Separator then Entry :: getlines Separator String' [] else getlines Separator String' (Entry ++ [c])
  end.
Definition Split (String : bytes) (Separator : Z) : list bytes :=
  filter (fun Entry => Entry <> []) (getlines Separator String []).

Definition is_in (Separators : bytes) (c : Z) : bool := existsb (fun x => x =? c) Separators.
(** [fuel]: more than the length of the string. *)
Fixpoint split_loop (fuel : nat) (Separators String : bytes) : list bytes :=
  match fuel with
  | O => []
  | S fuel' =>
    match drop_while (is_in Separators) String with
    | [] => []
    | s => take_while (fun c => negb (is_in Separators c)) s
             :: split_loop fuel' Separators (drop_while (fun c => negb (is_in Separators c)) s)
    end
  end.
Definition SplitByMultipleSeparators (String Separators : bytes) : list bytes := split_loop (S (length String)) Separators String.

(** Bytes beyond the span fail fast ([None]); the span after the copy, where the
    string starts, and the next offset. *)
Definition CopyToSpan (String Span : bytes) (Offset : nat) : option (bytes * nat * nat) :=
  if (length Span <? Offset)%nat || (length Span - Offset <? length String)%nat then None
  else Some (take Offset Span ++ String ++ drop (Offset + length String) Span, Offset, (Offset + length String + 1)%nat).

(** * Host names *)
Definition c_defaultHostName : bytes := str "localhost".
Definition is_edge (c : Z) : bool := (c =? c_dot) || (c =? c_dash).
Fixpoint clean_loop (Hostname : bytes) (dot : bool) (result : bytes) : bytes :=
  match Hostname with
  | [] => result
  | e :: Hostname' =>
    if e =? c_dot then
      if dot || match last result with None => true | Some b => b =? c_dash end then clean_loop Hostname' dot result
      else clean_loop Hostname' true (result ++ [e])
    else if e =? c_dash then
      if match last result with None => true | Some b => is_edge b end then clean_loop Hostname' dot result
      else clean_loop Hostname' dot (result ++ [e])
    else if isalnum e then clean_loop Hostname' dot (result ++ [e])
    else clean_loop Hostname' dot result
  end.
Definition CleanHostname (Hostname : bytes) : bytes :=
  match rev (drop_while is_edge (rev (clean_loop Hostname false []))) with
  | [] => c_defaultHostName
  | result => if (64 <? length result)%nat then take 64 result else result
  end.

(** * GUIDs *)
Record GUID : Type := mk_guid { Data1 : Z; Data2 : Z; Data3 : Z; Data4 : list Z }.
Definition guid_ok (g : GUID) : Prop :=
  0 <= Data1 g < 2 ^ 32 /\ 0 <= Data2 g < 2 ^ 16 /\ 0 <= Data3 g < 2 ^ 16 /\ length (Data4 g) = 8%nat /\ bytes_ok (Data4 g).

(** %0[n]x of a value that fits. *)
Definition hex_digit (d : Z) : Z := if d <? 10 then 48 + d else 87 + d.
Fixpoint hex (n : nat) (v : Z) : bytes :=
  match n with O => [] | S n' => hex n' (v / 16) ++ [hex_digit (v mod 16)] end.
Definition GuidToString (g : GUID) (AddBraces Uppercase : bool) : bytes :=
  let d n := hex 2 (nth n (Data4 g) 0) in
  let body := hex 8 (Data1 g) ++ [c_dash] ++ hex 4 (Data2 g) ++ [c_dash] ++ hex 4 (Data3 g) ++ [c_dash] ++
    d 0%nat ++ d 1%nat ++ [c_dash] ++ d 2%nat ++ d 3%nat ++ d 4%nat ++ d 5%nat ++ d 6%nat ++ d 7%nat in
  let output := [123] ++ body ++ [125] in
  let output := if AddBraces then output else removelast (tl output) in
  if Uppercase then map toupper output else output.

(** sscanf.  %[w]x skips white space and takes a sign, 0x and digits, [w] characters at
    most; at least one digit. *)
Fixpoint scan_hex_digits (w : nat) (acc : Z) (s : bytes) : Z * bytes :=
  match w, s with
  | S w', c :: s' =>
    match digit_of c with
    | Some d => if d <? 16 then scan_hex_digits w' (acc * 16 + d) s' else (acc, s)
    | None => (acc, s)
    end
  | _, _ => (acc, s)
  end.
Definition scan_hex (w : nat) (s : bytes) : option (Z * bytes) :=
  let s := drop_while isspace s in
  let '(neg, w, s) :=
    match s with
    | c :: t => if c =? 45 then (true, Nat.pred w, t) else if c =? 43 then (false, Nat.pred w, t) else (false, w, s)
    | [] => (false, w, [])
    end in
  let '(w, s) :=
    match s with
    | z :: x :: t => if (z =? 48) && (tolower x =? 120) && (2 <=? w)%nat then ((w - 2)%nat, t) else (w, s)
    | _ => (w, s)
    end in
  if (0 <? w)%nat && head_digit_in 16 s then
    let '(v, rest) := scan_hex_digits w 0 s in Some (if neg then - v else v, rest)
  else None.
Definition literal (c : Z) (s : bytes) : option bytes :=
  match s with x :: s' => if x =? c then Some s' else None | [] => None end.

(** Conversions of a format: a width, the modulus of the type stored, and the literal
    in front. *)
Fixpoint sscanf (format : list (option Z * nat * Z)) (s : bytes) : list Z :=
  match format with
  | [] => []
  | (lit, w, m) :: format' =>
    match match lit with Some c => literal c s | None => Some s end with
    | None => []
    | Some s =>
      match scan_hex w s with
      | Some (v, s') => v mod m :: sscanf format' s'
      | None => []
      end
    end
  end.
Definition GUID_SSCANF_STRING (open : option Z) : list (option Z * nat * Z) :=
  [(open, 8%nat, 2 ^ 32); (Some c_dash, 4%nat, 2 ^ 16); (Some c_dash, 4%nat, 2 ^ 16); (Some c_dash, 2%nat, 2 ^ 8); (None, 2%nat, 2 ^ 8);
   (Some c_dash, 2%nat, 2 ^ 8); (None, 2%nat, 2 ^ 8); (None, 2%nat, 2 ^ 8); (None, 2%nat, 2 ^ 8); (None, 2%nat, 2 ^ 8); (None, 2%nat, 2 ^ 8)].
Definition ToGuid (string : bytes) : option GUID :=
  let result :=
    if (length string =? 38)%nat && (nth 0 string 0 =? 123) && (nth 37 string 0 =? 125) then sscanf (GUID_SSCANF_STRING (Some 123)) string
    else if (length string =? 36)%nat then sscanf (GUID_SSCANF_STRING None) string
    else [] in
  match result with
  | d1 :: d2 :: d3 :: d4 => if (length d4 =? 8)%nat then Some (mk_guid d1 d2 d3 d4) else None
  | _ => None
  end.

(** * MAC addresses *)
Definition iswxdigit (c : Z) : bool := digit_in 16 c.
Definition ParseNibble (HexDigit : Z) : Z :=
  if (48 <=? HexDigit) && (HexDigit <=? 57) then u8 (HexDigit - 48) else u8 (Z.land HexDigit (Z.lnot 32) - 65 + 10).
Fixpoint mac_octets (Separator : Z) (octets : nat) (Input : bytes) : option bytes :=
  match octets with
  | O => Some []
  | S octets' =>
    if negb (iswxdigit (nth 0 Input 0)) || negb (iswxdigit (nth 1 Input 0)) then None
    else if (0 <? octets')%nat && negb (nth 2 Input 0 =? Separator) then None
    else option_map (cons (u8 (ParseNibble (nth 0 Input 0) * 16 + ParseNibble (nth 1 Input 0)))) (mac_octets Separator octets' (drop 3 Input))
  end.
Definition ParseMacAddressNoThrow (Input : bytes) (Separator : Z) : option bytes :=
  if negb (length Input =? 17)%nat then None
  else
    let found := if Separator =? 0 then nth 2 Input 0 else Separator in
    if (Separator =? 0) && negb (found =? c_dash) && negb (found =? c_colon) then None
    else mac_octets found 6 Input.
Fixpoint FormatMacAddress (input : bytes) (separator : Z) : bytes :=
  match input with
  | [] => []
  | [b] => map toupper (hex 2 b)
  | b :: input' => map toupper (hex 2 b) ++ separator :: FormatMacAddress input' separator
  end.

End Strings.
