(* ===== verification/Netlink.v ===== *)
(** Netlink messages and transactions of the upstream init (src/src/linux/netlinkutil:
    NetlinkMessage.hxx, NetlinkResponse, NetlinkTransaction, NetlinkChannel.hxx, Utils.hxx
    and Syscall.hxx), over a system that answers calls. *)
From stdpp Require Import gmap.
From S2P Require Import Prelude CStr CNum.

Module Netlink.

Definition AF_INET : Z := 2.
Definition AF_INET6 : Z := 10.
Definition NLM_F_REQUEST : Z := 1.
Definition NLM_F_MULTI : Z := 2.
Definition NLM_F_ACK : Z := 4.
Definition NLM_F_REPLACE : Z := 256.
Definition NLM_F_EXCL : Z := 512.
Definition NLM_F_CREATE : Z := 1024.
Definition NLM_F_DUMP : Z := 768.
Definition NLMSG_ERROR : Z := 2.
Definition NLMSG_DONE : Z := 3.

(** * Results *)

(** The exceptions; all of them are std::exception.  A transaction keeps the error of
    the NetlinkError that ended it. *)
Inductive exn : Type :=
| Netlink_error (error : Z) | Transaction_error (error : option Z) | Parse_error | Runtime_error | Syscall_error (errno : Z) | Std_error.

(** [Undefined]: memory outside of a message is read.  [Waiting]: nothing has come
    yet that ends the transaction.  [Terminated]: a broken precondition of gsl. *)
Inductive outcome (A : Type) : Type := Return (x : A) | Throw (e : exn) | Undefined | Waiting | Terminated.
Arguments Return {A} x.
Arguments Throw {A} e.
Arguments Undefined {A}.
Arguments Waiting {A}.
Arguments Terminated {A}.
#[export] Instance outcome_ret : MRet outcome := fun A => Return.
#[export] Instance outcome_bind : MBind outcome := fun A B f m =>
  match m with Return x => f x | Throw e => Throw e | Undefined => Undefined | Waiting => Waiting | Terminated => Terminated end.

(** * Reading *)
Definition NLMSG_HDRLEN : Z := 16.
(** Both NLMSG_ALIGN and RTA_ALIGN, in 32 bits. *)
Definition ALIGN (len : Z) : Z := 4 * (u32 (len + 3) / 4).
Definition nlmsg_len (m : bytes) : Z := get32 0 m.
Definition nlmsg_type (m : bytes) : Z := get16 4 m.
Definition nlmsg_flags (m : bytes) : Z := get16 6 m.
Definition nlmsg_seq (m : bytes) : Z := get32 8 m.

(** NLMSG_OK and NLMSG_NEXT over the rest of a buffer: the messages, and the size that
    is left, which wraps around when the last message is not padded. *)
Fixpoint nlmsg_walk (fuel : nat) (rest : bytes) (size : Z) : outcome (list bytes * Z) :=
  match fuel with
  | O => Undefined
  | S fuel' =>
    if size <? NLMSG_HDRLEN then Return ([], size)
    else if Z.of_nat (length rest) <? NLMSG_HDRLEN then Undefined
    else
      let len := nlmsg_len rest in
      if (len <? NLMSG_HDRLEN) || (size <? len) then Return ([], size)
      else
        '(l, size) ← nlmsg_walk fuel' (drop (Z.to_nat (ALIGN len)) rest) (u64 (size - ALIGN len));
        Return (take (Z.to_nat len) rest :: l, size)
  end.
Definition walk (m_data : bytes) : outcome (list bytes * Z) := nlmsg_walk (S (length m_data)) m_data (Z.of_nat (length m_data)).

Definition Messages (type : Z) (m_data : bytes) : outcome (list bytes) :=
  '(l, size) ← walk m_data;
  if negb (size =? 0) then Throw Parse_error else Return (List.filter (fun m => nlmsg_type m =? type) l).
Definition Sequence (m_data : bytes) : outcome Z :=
  if (length m_data <? 12)%nat then Undefined else Return (nlmsg_seq m_data).
Definition MultiMessage (m_data : bytes) : outcome bool :=
  '(l, _) ← walk m_data; Return (existsb (fun m => negb (Z.land (nlmsg_flags m) NLM_F_MULTI =? 0)) l).
Definition Done (m_data : bytes) : outcome bool := l ← Messages NLMSG_DONE m_data; Return (negb (bool_decide (l = []))).

(** What the message's header is followed by, of which [size] bytes are looked at. *)
Definition Payload (size : Z) (m : bytes) : outcome bytes :=
  if Z.of_nat (length m) <? NLMSG_HDRLEN + size then Throw Parse_error else Return (drop 16 m).

Definition s32 (x : Z) : Z := if x <? 2 ^ 31 then x else x - 2 ^ 32.
Definition sizeof_nlmsgerr : Z := 20.
Fixpoint throw_first_error (l : list bytes) : outcome unit :=
  match l with
  | [] => Return tt
  | e :: l' =>
    p ← Payload sizeof_nlmsgerr e;
    let result := s32 (get32 0 p) in
    if negb (result =? 0) then Throw (Netlink_error result) else throw_first_error l'
  end.
Definition ThrowIfErrorFound (m_data : bytes) : outcome unit := results ← Messages NLMSG_ERROR m_data; throw_first_error results.

(** RTA_OK and RTA_NEXT over what is left of a message: the data of the attributes of
    a type, each up to the end of the message, as a pointer shows it.  [size] is
    compared with the length of the attribute, header included. *)
Definition rta_len (a : bytes) : Z := get16 0 a.
Definition rta_type (a : bytes) : Z := get16 2 a.
Fixpoint attributes_loop (fuel : nat) (size type : Z) (e : bytes) (len : Z) : outcome (list bytes) :=
  match fuel with
  | O => Undefined
  | S fuel' =>
    if len <? 4 then Return []
    else if Z.of_nat (length e) <? 4 then Undefined
    else if (rta_len e <? 4) || (len <? rta_len e) then Return []
    else
      let next := attributes_loop fuel' size type (drop (Z.to_nat (ALIGN (rta_len e))) e) (u64 (len - ALIGN (rta_len e))) in
      if rta_type e =? type then
        if rta_len e <? size then Throw Parse_error else l ← next; Return (drop 4 e :: l)
      else next
  end.
(** [sizeof_message]: of the structure before the attributes. *)
Definition Attributes (sizeof_message size type : Z) (m : bytes) : outcome (list bytes) :=
  attributes_loop (S (length m)) size type (drop (Z.to_nat (16 + ALIGN sizeof_message)) m) (u64 (nlmsg_len m - ALIGN (sizeof_message + 16))).
Definition UniqueAttribute (sizeof_message size type : Z) (m : bytes) : outcome (option bytes) :=
  l ← Attributes sizeof_message size type m;
  match l with [] => Return None | [a] => Return (Some a) | _ => Throw Runtime_error end.

(** The bytes and the int that a pointer to an attribute's data shows. *)
Definition read_bytes (n : nat) (p : bytes) : outcome bytes := if (length p <? n)%nat then Undefined else Return (take n p).
Definition read_int (p : bytes) : outcome Z := b ← read_bytes 4 p; Return (s32 (get32 0 b)).

(** * Writing *)
Definition pad (n : nat) (d : bytes) : bytes := take n (d ++ replicate n 0).
Definition padded (d : bytes) : bytes := d ++ replicate (Z.to_nat (ALIGN (Z.of_nat (length d)) - Z.of_nat (length d))) 0.
(** An attribute with its header, and utils::Attribute, which is padded. *)
Definition RTA_LENGTH (n : Z) : Z := 4 + n.
Definition RTA_SPACE (n : Z) : Z := ALIGN (RTA_LENGTH n).
Definition rtattr (len type : Z) (value : bytes) : bytes := le_bytes 2 len ++ le_bytes 2 type ++ value.
Definition attribute (type : Z) (value : bytes) : bytes := rtattr (RTA_LENGTH (Z.of_nat (length value))) type value.
Definition IntegerAttribute (value type : Z) : bytes := attribute type (le_bytes 4 value).
Definition nlmsg (type flags seq pid : Z) (payload : bytes) : bytes :=
  le_bytes 4 (NLMSG_HDRLEN + Z.of_nat (length payload)) ++ le_bytes 2 type ++ le_bytes 2 flags ++ le_bytes 4 seq ++ le_bytes 4 pid ++ payload.

(** * The system *)
Inductive call : Type :=
| Socket (domain type protocol : Z) | Bind_netlink (fd groups : Z) | Bind_packet (fd protocol ifindex : Z) | Close (fd : Z)
| Sendto (fd : Z) (message : bytes) | Recvmsg_peek (fd : Z) | Recvfrom (fd size : Z)
| Ioctl (fd request : Z) (argument : bytes) | Open (path : bytes) (flags : Z) | Read (fd size : Z) | Write (fd : Z) (data : bytes)
| Poll (fd events timeout : Z) | Now | Sleep_for (milliseconds : Z)
| Directory (path : bytes) | Read_symlink (path : bytes) | Write_file (path content : bytes)
| Popen (command : bytes) | Pclose (file : Z)
| Getaddrinfo (family : Z) (hostname port : bytes) | Fcntl (fd command argument : Z) | Connect (fd : Z) (address : bytes) | Select (fds : list Z) (seconds : Z)
| Receive_notification | Send_status (result : Z).
(** [ret]: negative when the call fails with that error. *)
Record answer : Type := mk_answer { ret : Z; data : bytes; names : list bytes }.

(** The state: of the system, the sequence number of every channel, by its descriptor,
    the table that the manager's routes are in, and the calls so far. *)
Section Channel.
Context {W : Type} (system : call -> W -> answer * W).

Record net : Type := mk_net { world : W; seqNumber : gmap Z Z; primaryTable : Z; calls : list call }.
#[export] Instance net_eta : Eta net := fun s => mk_net (world s) (seqNumber s) (primaryTable s) (calls s).

Definition M (A : Type) : Type := net -> outcome A * net.
#[export] Instance M_ret : MRet M := fun A x s => (Return x, s).
#[export] Instance M_bind : MBind M := fun A B f m s =>
  match m s with
  | (Return x, s') => f x s'
  | (Throw e, s') => (Throw e, s')
  | (Undefined, s') => (Undefined, s')
  | (Waiting, s') => (Waiting, s')
  | (Terminated, s') => (Terminated, s')
  end.
Definition lift {A} (r : outcome A) : M A := fun s => (r, s).
Definition throw {A} (e : exn) : M A := lift (Throw e).
Definition skip : M unit := mret tt.
Definition when (b : bool) (m : M unit) : M unit := if b then m else skip.
Definition try {A} (m : M A) (handler : exn -> M A) : M A := fun s => match m s with (Throw e, s') => handler e s' | r => r end.
Fixpoint for_each {A} (l : list A) (f : A -> M unit) : M unit := match l with [] => skip | x :: l' => f x;; for_each l' f end.

Definition do (c : call) : M answer := fun s =>
  let '(a, w) := system c (world s) in (Return a, s <| world := w |> <| calls := calls s ++ [c] |>).
Definition Syscall (c : call) : M answer := a ← do c; if ret a <? 0 then throw (Syscall_error (- ret a)) else mret a.
(** A destructor that closes the descriptor, on every way out. *)
Definition closing {A} (fd : Z) (m : M A) : M A := fun s =>
  match m s with
  | (Undefined, s') => (Undefined, s')
  | (Waiting, s') => (Waiting, s')
  | (Terminated, s') => (Terminated, s')
  | (r, s') => (r, snd (do (Close fd) s'))
  end.

(** * NetlinkChannel *)
Definition AF_NETLINK : Z := 16.
Definition SOCK_RAW : Z := 3.
Definition NETLINK_ROUTE : Z := 0.
Definition reset_sequence (channel : Z) : M unit := fun s => (Return tt, s <| seqNumber := <[channel := 0]> (seqNumber s) |>).
(** A channel that lives as long as the given action; a copy of its descriptor stands
    for it.  The members of an object that lives longer are made by [open_channel]. *)
Definition with_channel {A} (netlinkFamily : Z) (m : Z -> M A) : M A :=
  a ← Syscall (Socket AF_NETLINK SOCK_RAW netlinkFamily);
  closing (ret a) (Syscall (Bind_netlink (ret a) 0);; reset_sequence (ret a);; m (ret a)).

Definition next_sequence (channel : Z) : M Z := fun s =>
  let seq := u32 (default 0 (seqNumber s !! channel) + 1) in (Return seq, s <| seqNumber := <[channel := seq]> (seqNumber s) |>).
Record transaction : Type := mk_transaction { m_channel : Z; m_request : bytes; m_seq : Z }.
Definition CreateTransaction (channel : Z) (message : bytes) (type flags : Z) : M transaction :=
  seq ← next_sequence channel;
  mret (mk_transaction channel (nlmsg type (Z.lor (Z.lor NLM_F_REQUEST NLM_F_ACK) flags) seq 0 message) seq).

Definition ReceiveNetlinkResponse (channel : Z) : M bytes :=
  size ← Syscall (Recvmsg_peek channel);
  received ← Syscall (Recvfrom channel (ret size));
  if negb (ret received =? ret size) then throw Runtime_error else mret (pad (Z.to_nat (ret size)) (data received)).

(** * NetlinkTransaction *)

(** The loop: [last] is the last response of the transaction, [acc] what the routine has
    gathered.  [fuel] bounds what is received. *)
Fixpoint receive_loop {A} (fuel : nat) (t : transaction) (routine : bytes -> A -> M A) (last : option bytes) (acc : A) : M A :=
  match fuel with
  | O => lift Waiting
  | S fuel' =>
    let again (last : option bytes) (acc : A) : M A :=
      more ← lift (match last with
                   | None => Return true
                   | Some r => multi ← MultiMessage r; if negb multi then Return false else done ← Done r; Return (negb done)
                   end);
      if more : bool then receive_loop fuel' t routine last acc else mret acc in
    response ← ReceiveNetlinkResponse (m_channel t);
    seq ← lift (Sequence response);
    if negb (seq =? m_seq t) then lift (ThrowIfErrorFound response);; again last acc
    else lift (ThrowIfErrorFound response);; acc ← routine response acc; again (Some response) acc
  end.
Definition Execute {A} (limit : nat) (t : transaction) (routine : bytes -> A -> M A) (acc : A) : M A :=
  Syscall (Sendto (m_channel t) (m_request t));;
  try (receive_loop limit t routine None acc)
    (fun e => throw (Transaction_error (match e with Netlink_error error => Some error | _ => None end))).
(** A transaction whose responses are only looked at for errors. *)
Definition Execute_ (limit : nat) (t : transaction) : M unit := Execute limit t (fun _ => mret) tt.

(** * Interfaces by name *)
Definition SIOCGIFINDEX : Z := 0x8933.
Definition SIOCGIFFLAGS : Z := 0x8913.
Definition SIOCSIFFLAGS : Z := 0x8914.
(** ifreq: a name and a union of 24 bytes. *)
Definition ifreq (name value : bytes) : bytes := pad 16 name ++ pad 24 value.
Definition s16 (x : Z) : Z := if x <? 2 ^ 15 then x else x - 2 ^ 16.
Definition GetInterfaceIndex (channel : Z) (name : bytes) : M Z :=
  a ← Syscall (Ioctl channel SIOCGIFINDEX (ifreq (take 15 (to_cstr name)) [])); mret (s32 (get32 16 (pad 40 (data a)))).
Definition SetInterfaceFlags (channel : Z) (name : bytes) (flags : Z) : M unit :=
  Syscall (Ioctl channel SIOCSIFFLAGS (ifreq (take 15 (to_cstr name)) (le_bytes 2 flags)));; skip.
Definition GetInterfaceFlags (channel : Z) (name : bytes) : M Z :=
  a ← Syscall (Ioctl channel SIOCGIFFLAGS (ifreq (take 15 (to_cstr name)) [])); mret (s16 (get16 16 (pad 40 (data a)))).
End Channel.

End Netlink.
