(* ===== verification/NetRoute.v ===== *)
(** Addresses, routes, rules and neighbours of the upstream init (src/src/linux/netlinkutil:
    Address.cpp, Route.cpp, Utils.cpp, RoutingTable.cpp, IpRuleManager.cpp and
    IpNeighborManager.cpp).  inet_pton and inet_ntop are arguments. *)
From stdpp Require Import gmap.
From S2P Require Import Prelude CStr CNum Netlink.

Module NetRoute.
Import Netlink.

(** inet_pton: the result (1, 0 for a text that is no address, negative for an unknown
    family) and what is then in a buffer that held zeros. *)
Record libc : Type := mk_libc { inet_pton : Z -> bytes -> Z * bytes; inet_ntop : Z -> bytes -> option bytes }.

Inductive Operation : Type := Create | Update | Remove.
Inductive Protocol : Type := Tcp | Udp.
#[export] Instance Protocol_eq_dec : EqDecision Protocol.
Proof. solve_decision. Defined.
Definition IPPROTO (p : Protocol) : Z := match p with Tcp => 6 | Udp => 17 end.

(** * Address *)
Definition IpPrefixOrigin_Manual : Z := 1.
Definition IpPrefixOrigin_WellKnown : Z := 2.
Definition IpPrefixOrigin_RouterAdvertisement : Z := 4.
Definition IpSuffixOrigin_Manual : Z := 1.
Definition IpSuffixOrigin_LinkLayerAddress : Z := 4.
Record Address : Type := mk_address {
  Family : Z; PrefixLength : Z; Addr : bytes; m_prefixOrigin : Z; m_suffixOrigin : Z;
  PreferredLifetime : Z; IsPrefixRouteAutogenerationDisabled : bool
}.
#[export] Instance Address_eta : Eta Address := fun a =>
  mk_address (Family a) (PrefixLength a) (Addr a) (m_prefixOrigin a) (m_suffixOrigin a) (PreferredLifetime a) (IsPrefixRouteAutogenerationDisabled a).
Definition new_address (family prefixLength : Z) (address : bytes) (prefixOrigin suffixOrigin preferredLifetime : Z) : Address :=
  mk_address family (u32 prefixLength) address prefixOrigin suffixOrigin
    (if (preferredLifetime =? 0) || ((prefixOrigin =? IpPrefixOrigin_RouterAdvertisement) && (suffixOrigin =? IpSuffixOrigin_LinkLayerAddress)) then 0
     else 0xFFFFFFFF) false.
Definition address_of (family prefixLength : Z) (address : bytes) : Address := new_address family prefixLength address IpPrefixOrigin_Manual IpSuffixOrigin_Manual 0xFFFFFFFF.
Definition address_eqb (a b : Address) : bool := (Family a =? Family b) && list_eqb (Addr a) (Addr b) && (PrefixLength a =? PrefixLength b).
Definition RT_SCOPE_UNIVERSE : Z := 0.
Definition RT_SCOPE_LINK : Z := 253.
Definition Scope (a : Address) : Z :=
  if (m_prefixOrigin a =? IpPrefixOrigin_WellKnown) && (m_suffixOrigin a =? IpSuffixOrigin_LinkLayerAddress) then RT_SCOPE_LINK else RT_SCOPE_UNIVERSE.

Section Libc.
Context (L : libc).

Definition address_size (family : Z) : nat := if family =? AF_INET then 4 else 16.
(** Syscall(inet_pton): only a negative result is an exception. *)
Definition pton (family : Z) (text : bytes) : outcome bytes :=
  let '(result, b) := inet_pton L family text in if result <? 0 then Throw (Syscall_error 97) else Return (pad (address_size family) b).
(** The buffer of AsBytes holds nothing before. *)
Definition AsBytes (a : Address) : outcome bytes :=
  let '(result, b) := inet_pton L (Family a) (Addr a) in
  if result <? 0 then Throw (Syscall_error 97) else if result =? 0 then Undefined else Return (pad (address_size (Family a)) b).
(** FromBytes and FromBinary, from a pointer to the bytes. *)
Definition FromBinary (family prefixLength : Z) (p : bytes) : outcome Address :=
  if negb ((family =? AF_INET) || (family =? AF_INET6)) then Throw Runtime_error
  else
    b ← read_bytes (address_size family) p;
    match inet_ntop L family b with Some s => Return (address_of family prefixLength s) | None => Throw Runtime_error end.

(** The search of the regular expression for a text, a slash and one to three digits: from the first place where it matches, up to the
    last slash of the line that a digit follows. *)
Definition line_end (c : Z) : bool := (c =? c_nl) || (c =? c_cr).
Fixpoint last_slash (s : bytes) : option (bytes * bytes) :=
  match s with
  | [] => None
  | c :: s' =>
    if line_end c then None
    else
      match last_slash s' with
      | Some (a, d) => Some (c :: a, d)
      | None => if (c =? c_slash) && match s' with d :: _ => isdigit d | [] => false end then Some ([], take_while isdigit (take 3 s')) else None
      end
  end.
Fixpoint search_prefix (s : bytes) : option (bytes * bytes) :=
  match last_slash s with
  | Some m => Some m
  | None => match s with [] => None | _ :: s' => search_prefix s' end
  end.
Definition FromPrefixString (family : Z) (prefix : bytes) : outcome Address :=
  match search_prefix prefix with
  | None => Throw Runtime_error
  | Some (address, length) =>
    if negb (fst (inet_pton L family (to_cstr address)) =? 1) then Throw Runtime_error
    else Return (address_of family (fst (scan_digits 10 0 length)) address)
  end.

(** The bytes of the address with all bits after the prefix set; the shift of 1 by 32 or
    31 bits and by negative numbers is not defined. *)
Definition be_val (b : bytes) : Z := le_val (rev b).
Definition be_bytes (n : nat) (v : Z) : bytes := rev (le_bytes n v).
Definition ComputeBroadcastAddress (a : Address) : outcome Address :=
  if negb (Family a =? AF_INET) then Throw Runtime_error
  else
    b ← AsBytes a;
    if (PrefixLength a <? 2) || (32 <? PrefixLength a) then Undefined
    else FromBinary AF_INET (PrefixLength a) (be_bytes 4 (Z.lor (be_val b) (2 ^ (32 - PrefixLength a) - 1))).

Definition AddressAttribute (a : Address) (type : Z) : outcome bytes := b ← pton (Family a) (Addr a); Return (attribute type b).

(** * Route *)
Record Route : Type := mk_route {
  r_family : Z; via : option Address; dev : Z; defaultRoute : bool; to : option Address; metric : Z; isLoopbackRoute : bool
}.
#[export] Instance Route_eta : Eta Route := fun r =>
  mk_route (r_family r) (via r) (dev r) (defaultRoute r) (to r) (metric r) (isLoopbackRoute r).
Definition IsOnlink (r : Route) : bool :=
  match via r with
  | None => true
  | Some v => ((r_family r =? AF_INET) && list_eqb (Addr v) (str "0.0.0.0")) || ((r_family r =? AF_INET6) && list_eqb (Addr v) (str "::"))
  end.
Definition IsMulticast (r : Route) : outcome bool :=
  match to r with
  | None => Return false
  | Some t =>
    b ← pton (Family t) (Addr t);
    Return (if r_family r =? AF_INET then Z.land (nth 0 b 0) 0xf0 =? 0xe0 else nth 0 b 0 =? 0xff)
  end.

(** * RoutingTable *)
Definition RTM_NEWROUTE : Z := 24.
Definition RTM_DELROUTE : Z := 25.
Definition RTM_GETROUTE : Z := 26.
Definition RTA_DST : Z := 1.
Definition RTA_OIF : Z := 4.
Definition RTA_GATEWAY : Z := 5.
Definition RTA_PRIORITY : Z := 6.
Definition RTA_PREFSRC : Z := 7.
Definition RTA_TABLE : Z := 15.
Definition RT_TABLE_UNSPEC : Z := 0.
Definition RT_TABLE_MAIN : Z := 254.
Definition RT_TABLE_LOCAL : Z := 255.
Definition RTPROT_UNSPEC : Z := 0.
Definition RTPROT_KERNEL : Z := 2.
Definition RTPROT_BOOT : Z := 3.
Definition RTN_UNICAST : Z := 1.
Definition RTN_MULTICAST : Z := 5.
Definition RTM_F_NOTIFY : Z := 256.
Definition RTNH_F_ONLINK : Z := 4.
Definition AF_UNSPEC : Z := 0.
Definition EEXIST : Z := 17.
Definition ENOENT : Z := 2.
Definition ESRCH : Z := 3.

Definition sizeof_rtmsg : Z := 12.
Definition rtmsg (family dst_len src_len table protocol scope type flags : Z) : bytes :=
  flat_map (le_bytes 1) [family; dst_len; src_len; 0; table; protocol; scope; type] ++ le_bytes 4 flags.

Record RoutingTable : Type := mk_table { t_channel : Z; m_table : Z }.

(** Of sizeof(const void * ) bytes, which the length of the attribute is compared with. *)
Definition sizeof_pointer : Z := 8.
Definition read_optional_address (m p : bytes) (type : Z) : outcome (option Address) :=
  a ← UniqueAttribute sizeof_rtmsg sizeof_pointer type m;
  match a with None => Return None | Some a => a ← FromBinary (nth 0 p 0) (nth 1 p 0) a; Return (Some a) end.
Definition read_optional_int (sizeof_message type default : Z) (m : bytes) : outcome Z :=
  a ← UniqueAttribute sizeof_message 4 type m; match a with None => Return default | Some a => read_int a end.
(** One message of the dump. *)
Definition process_route (family table : Z) (m : bytes) : outcome (list Route) :=
  p ← Payload sizeof_rtmsg m;
  tableId ← UniqueAttribute sizeof_rtmsg 4 RTA_TABLE m;
  let rtm_family := nth 0 p 0 in
  if negb (family =? AF_UNSPEC) && negb (family =? rtm_family) then Return []
  else
    match tableId with
    | None => Return []
    | Some t =>
      t ← read_int t;
      if negb (t =? table) then Return []
      else
        dst ← read_optional_address m p RTA_DST;
        device ← read_optional_int sizeof_rtmsg RTA_OIF (-1) m;
        metric ← read_optional_int sizeof_rtmsg RTA_PRIORITY 0 m;
        gateway ← read_optional_address m p RTA_GATEWAY;
        Return [mk_route rtm_family gateway device (match dst with None => true | _ => false end) dst metric false]
    end.
Fixpoint process_all {A} (f : bytes -> outcome (list A)) (l : list bytes) : outcome (list A) :=
  match l with [] => Return [] | m :: l' => a ← f m; b ← process_all f l'; Return (a ++ b) end.
Definition process_response {A} (type : Z) (f : bytes -> outcome (list A)) (response : bytes) : outcome (list A) :=
  l ← Messages type response; process_all f l.

(** The flags and the type of a request. *)
Definition operation_flags (action : Operation) : Z :=
  match action with Update => Z.lor NLM_F_CREATE NLM_F_REPLACE | Create => NLM_F_CREATE | Remove => 0 end.
Definition route_operation (action : Operation) : Z := match action with Remove => RTM_DELROUTE | _ => RTM_NEWROUTE end.

(** The message of SendMessage: [extra] is what the routine fills in, the flags that it
    adds and the attributes after the common ones. *)
Definition route_message (table : Z) (r : Route) (operation : Z) (extra : outcome (Z * bytes)) : outcome bytes :=
  multicast ← IsMulticast r;
  '(more, attributes) ← extra;
  Return (rtmsg (r_family r) (match to r with Some t => PrefixLength t | None => 0 end) 0 RT_TABLE_UNSPEC
            (if operation =? RTM_DELROUTE then RTPROT_UNSPEC else RTPROT_KERNEL) (if IsOnlink r then RT_SCOPE_LINK else RT_SCOPE_UNIVERSE)
            (if multicast : bool then RTN_MULTICAST else RTN_UNICAST) (Z.lor RTM_F_NOTIFY more)
          ++ IntegerAttribute table RTA_TABLE ++ IntegerAttribute (dev r) RTA_OIF ++ attributes).

Definition c_ipv4LoopbackRouteSource : Address := address_of AF_INET 32 (str "127.0.0.1").
Definition value {A} (o : option A) : outcome A := match o with Some a => Return a | None => Throw Std_error end.
Definition loopback_route_attributes (r : Route) : outcome (Z * bytes) :=
  to ← value (to r); via ← value (via r);
  source ← AddressAttribute (if list_eqb (Addr to) (str "127.0.0.0") then c_ipv4LoopbackRouteSource else to) RTA_PREFSRC;
  to ← AddressAttribute to RTA_DST;
  via ← AddressAttribute via RTA_GATEWAY;
  Return (RTNH_F_ONLINK, to ++ via ++ source).
Definition default_route_attributes (r : Route) : outcome (Z * bytes) :=
  via ← value (via r); via ← AddressAttribute via RTA_GATEWAY; Return (0, via ++ IntegerAttribute (metric r) RTA_PRIORITY).
Definition link_local_route_attributes (r : Route) : outcome (Z * bytes) :=
  to ← value (to r); to ← AddressAttribute to RTA_DST; Return (0, to ++ IntegerAttribute (metric r) RTA_PRIORITY).
Definition offlink_route_attributes (r : Route) : outcome (Z * bytes) :=
  to ← value (to r); to ← AddressAttribute to RTA_DST;
  via ← value (via r); via ← AddressAttribute via RTA_GATEWAY;
  Return (0, to ++ via ++ IntegerAttribute (metric r) RTA_PRIORITY).
(** ModifyRouteImpl and the four functions that it chooses from. *)
Definition modify_route_message (table : Z) (r : Route) (action : Operation) : outcome bytes :=
  let operation := route_operation action in
  if isLoopbackRoute r then
    match to r, via r with Some _, Some _ => route_message table r operation (loopback_route_attributes r) | _, _ => Throw Runtime_error end
  else if defaultRoute r then
    match via r with Some _ => route_message table r operation (default_route_attributes r) | None => Throw Runtime_error end
  else if IsOnlink r then route_message table r operation (link_local_route_attributes r)
  else match via r with Some _ => route_message table r operation (offlink_route_attributes r) | None => Throw Runtime_error end.
End Libc.

(** * Sending *)
Section Send.
Context (L : libc) {W : Type} (system : call -> W -> answer * W) (limit : nat).
Abbreviation M := (M (W := W)).

(** A request whose errors in [ignored] are none. *)
Definition send_request (channel : Z) (message : bytes) (type flags : Z) (ignored : list Z) : M unit :=
  t ← CreateTransaction channel message type flags;
  try (Execute_ system limit t)
    (fun e => match e with
              | Transaction_error (Some error) => if existsb (fun i => error =? - i) ignored then skip else throw e
              | _ => throw e
              end).
Definition ModifyRoute (table : RoutingTable) (r : Route) (action : Operation) : M unit :=
  if negb ((r_family r =? AF_INET) || (r_family r =? AF_INET6)) then throw Runtime_error
  else
    message ← lift (modify_route_message L (m_table table) r action);
    send_request (t_channel table) message (route_operation action) (operation_flags action)
      (match action with Remove => [ESRCH] | _ => [EEXIST; ENOENT; ESRCH] end).

(** A dump: what a function finds in every message of a type, in order. *)
Definition dump {A} (channel : Z) (message : bytes) (type : Z) (reply : Z) (f : bytes -> outcome (list A)) : M (list A) :=
  t ← CreateTransaction channel message type NLM_F_DUMP;
  Execute system limit t (fun response found => l ← lift (process_response reply f response); mret (found ++ l)) [].

Definition ListRoutes (table : RoutingTable) (family : Z) : M (list Route) :=
  if negb ((family =? AF_UNSPEC) || (family =? AF_INET) || (family =? AF_INET6)) then throw Runtime_error
  else dump (t_channel table) (rtmsg family 0 0 0 0 0 0 0) RTM_GETROUTE RTM_NEWROUTE (process_route L family (m_table table)).
Definition RemoveAll (table : RoutingTable) (addressFamily : Z) : M unit :=
  routes ← ListRoutes table addressFamily; for_each routes (fun route => ModifyRoute table route Remove).

(** * IpRuleManager *)
Definition RTM_NEWRULE : Z := 32.
Definition RTM_DELRULE : Z := 33.
Definition RTM_GETRULE : Z := 34.
Definition FRA_SRC : Z := 2.
Definition FRA_IIFNAME : Z := 3.
Definition FRA_PRIORITY : Z := 6.
Definition FRA_TABLE : Z := 15.
Definition FRA_OIFNAME : Z := 17.
Definition FRA_IP_PROTO : Z := 22.
Record Rule : Type := mk_rule {
  u_family : Z; routingTable : Z; priority : Z; iif : bytes; oif : bytes; protocol : option Protocol; sourceAddress : option Address
}.
#[export] Instance Rule_eta : Eta Rule := fun r =>
  mk_rule (u_family r) (routingTable r) (priority r) (iif r) (oif r) (protocol r) (sourceAddress r).
Definition rule (family table priority : Z) (protocol : option Protocol) : Rule := mk_rule family table priority [] [] protocol None.

Definition rule_header (family src_len : Z) : bytes := rtmsg family 0 src_len 0 RTPROT_BOOT RT_SCOPE_UNIVERSE RTN_UNICAST 0.
Definition protocol_attribute (p : Protocol) : bytes := padded (attribute FRA_IP_PROTO (le_bytes 1 (IPPROTO p))).
Definition rule_operation (operation : Operation) : Z := match operation with Remove => RTM_DELRULE | _ => RTM_NEWRULE end.
Definition rule_flags (operation : Operation) : Z := match operation with Create => NLM_F_CREATE | _ => 0 end.
Definition send_rule (ruleManager : Z) (message : bytes) (operation : Operation) : M unit :=
  send_request ruleManager message (rule_operation operation) (rule_flags operation) [EEXIST; ENOENT].

Definition loopback_rule_message (r : Rule) (p : Protocol) : bytes :=
  rule_header (u_family r) 0 ++ IntegerAttribute (routingTable r) FRA_TABLE ++ IntegerAttribute (priority r) RTA_PRIORITY ++ protocol_attribute p ++
  padded (rtattr (RTA_SPACE (Z.of_nat (length (iif r)))) FRA_IIFNAME (iif r)).
Definition ModifyLoopbackRule (ruleManager : Z) (r : Rule) (operation : Operation) : M unit :=
  match protocol r with
  | None => throw Runtime_error
  | Some p =>
    match operation with
    | Update => throw Runtime_error
    | _ => if is_empty (iif r) then throw Runtime_error else send_rule ruleManager (loopback_rule_message r p) operation
    end
  end.
(** The name of the interface is that of the loopback interface. *)
Definition source_rule_message (r : Rule) (p : Protocol) (source : Address) : outcome bytes :=
  from ← AddressAttribute L source FRA_SRC;
  Return (rule_header (u_family r) (PrefixLength source) ++ IntegerAttribute (routingTable r) FRA_TABLE ++
          attribute FRA_IIFNAME (str "lo" ++ [0; 0]) ++ from ++ IntegerAttribute (priority r) RTA_PRIORITY ++ protocol_attribute p).
Definition ModifyLoopbackRuleWithSourceAddress (ruleManager : Z) (r : Rule) (action : Operation) : M unit :=
  if negb ((u_family r =? AF_INET) || (u_family r =? AF_INET6)) then throw Runtime_error
  else
    match action, protocol r, sourceAddress r with
    | Update, _, _ | _, None, _ | _, _, None => throw Runtime_error
    | _, Some p, Some a => message ← lift (source_rule_message r p a); send_rule ruleManager message action
    end.
Definition priority_rule_message (r : Rule) (more : bytes) : bytes :=
  rule_header (u_family r) 0 ++ IntegerAttribute (routingTable r) FRA_TABLE ++ IntegerAttribute (priority r) RTA_PRIORITY ++ more.
Definition ModifyRoutingTablePriority (ruleManager : Z) (r : Rule) (operation : Operation) : M unit :=
  match operation with
  | Update => throw Runtime_error
  | _ => send_rule ruleManager (priority_rule_message r []) operation
  end.
Definition ModifyRoutingTablePriorityWithProtocol (ruleManager : Z) (r : Rule) (operation : Operation) : M unit :=
  match operation, protocol r with
  | Update, _ | _, None => throw Runtime_error
  | _, Some p => send_rule ruleManager (priority_rule_message r (protocol_attribute p)) operation
  end.

(** One message of the dump of the rules. *)
Definition process_rule (m : bytes) : outcome (list Rule) :=
  msg ← Payload sizeof_rtmsg m;
  priorityAttr ← UniqueAttribute sizeof_rtmsg 4 FRA_PRIORITY m;
  oifAttr ← UniqueAttribute sizeof_rtmsg 1 FRA_OIFNAME m;
  protocolAttr ← UniqueAttribute sizeof_rtmsg 1 FRA_IP_PROTO m;
  tableAttr ← UniqueAttribute sizeof_rtmsg 4 FRA_TABLE m;
  priority ← match priorityAttr with Some p => read_int p | None => Return (-1) end;
  oif ← match oifAttr with Some p => if nul_terminated p then Return (to_cstr p) else Undefined | None => Return [] end;
  proto ← match protocolAttr with Some p => b ← read_bytes 1 p; Return (nth 0 b 0) | None => Return 255 end;
  tableAttrId ← match tableAttr with Some p => read_int p | None => Return (nth 4 msg 0) end;
  Return [mk_rule (nth 0 msg 0) tableAttrId priority [] oif
            (if proto =? IPPROTO Tcp then Some Tcp else if proto =? IPPROTO Udp then Some Udp else None) None].
Definition ListRules (ruleManager : Z) (family : Z) : M (list Rule) :=
  dump ruleManager (rtmsg family 0 0 0 0 0 0 0) RTM_GETRULE RTM_NEWRULE process_rule.

(** * IpNeighborManager *)
Definition RTM_NEWNEIGH : Z := 28.
Definition RTM_DELNEIGH : Z := 29.
Definition NUD_PERMANENT : Z := 128.
Definition NDA_DST : Z := 1.
Definition NDA_LLADDR : Z := 2.
Record Neighbor : Type := mk_neighbor { ipAddress : Address; macAddress : bytes; n_dev : Z }.
Definition ndmsg (family ifindex state type : Z) : bytes := le_bytes 1 family ++ [0; 0; 0] ++ le_bytes 4 ifindex ++ le_bytes 2 state ++ [0] ++ le_bytes 1 type.
Definition neighbor_message (n : Neighbor) : outcome bytes :=
  ip ← AddressAttribute L (ipAddress n) NDA_DST;
  Return (ndmsg (Family (ipAddress n)) (n_dev n) NUD_PERMANENT RTN_UNICAST ++ ip ++ attribute NDA_LLADDR (macAddress n)).
Definition ModifyNeighborEntry (neighborManager : Z) (n : Neighbor) (operation : Operation) : M unit :=
  message ← lift (neighbor_message n);
  send_request neighborManager message (match operation with Remove => RTM_DELNEIGH | _ => RTM_NEWNEIGH end) (operation_flags operation) [EEXIST; ENOENT].

(** * Neighbour discovery *)
Definition AF_PACKET : Z := 17.
Definition SOCK_NONBLOCK : Z := 2048.
Definition ETH_P_ALL : Z := 0x0003.
Definition ETH_P_IP : Z := 0x0800.
Definition ETH_P_ARP : Z := 0x0806.
Definition ETH_P_IPV6 : Z := 0x86DD.
Definition ARPHRD_ETHER : Z := 1.
Definition ARPOP_REQUEST : Z := 1.
Definition ARPOP_REPLY : Z := 2.
Definition POLLIN : Z := 1.
Definition POLLPRI : Z := 2.
Definition htons (x : Z) : Z := be_val (le_bytes 2 x).
Definition BroadcastMac : bytes := replicate 6 255.

(** The packet: the fields of _arp_packet_header in order; [n] is the length of an
    address. *)
Definition arp_packet (Destination Source : bytes) (ProtocolType : Z) (n : nat) (Operation : Z) (SenderMac SenderIp TargetMac TargetIp : bytes) : bytes :=
  Destination ++ Source ++ be_bytes 2 ETH_P_ARP ++ be_bytes 2 ARPHRD_ETHER ++ be_bytes 2 ProtocolType ++ [6; Z.of_nat n] ++
  be_bytes 2 Operation ++ SenderMac ++ SenderIp ++ TargetMac ++ TargetIp.
Definition arp_size (n : nat) : nat := 34 + 2 * n.
Definition ComposeArpRequest (ProtocolType : Z) (Source Target : Neighbor) : outcome bytes :=
  s ← AsBytes L (ipAddress Source); t ← AsBytes L (ipAddress Target);
  Return (arp_packet BroadcastMac (macAddress Source) ProtocolType (length s) ARPOP_REQUEST (macAddress Source) s (replicate 6 0) t).
Definition field (off n : nat) (packet : bytes) : bytes := take n (drop off packet).
(** The address of the sender, when the packet answers the request; the address of the
    target is converted and not used. *)
Definition ParseArpReply (ProtocolType : Z) (Source Target : Neighbor) (reply : bytes) : outcome (option bytes) :=
  s ← AsBytes L (ipAddress Source); t ← AsBytes L (ipAddress Target);
  let n := length s in
  Return (if list_eqb (field 0 6 reply) (macAddress Source) && (be_val (field 12 2 reply) =? ETH_P_ARP) && (be_val (field 14 2 reply) =? ARPHRD_ETHER) &&
             (be_val (field 16 2 reply) =? ProtocolType) && (nth 18 reply 0 =? 6) && (nth 19 reply 0 =? Z.of_nat n) &&
             (be_val (field 20 2 reply) =? ARPOP_REPLY) && list_eqb (field (28 + n) 6 reply) (macAddress Source) && list_eqb (field (34 + n) n reply) s
          then Some (field 22 6 reply) else None).

(** What is received until the time is over; [fuel] bounds the calls of poll. *)
Fixpoint await_reply (fuel : nat) (fd expiry : Z) (size : nat) (parse : bytes -> outcome (option bytes)) : M (option bytes) :=
  match fuel with
  | O => lift Waiting
  | S fuel' =>
    now ← do system Now;
    if negb (ret now <? expiry) then mret None
    else
      now ← do system Now;
      p ← Syscall system (Poll fd (Z.lor POLLIN POLLPRI) (Z.quot (expiry - ret now) 1000000));
      if negb ((ret p =? 1) && (get16 0 (pad 2 (data p)) =? POLLIN)) then await_reply fuel' fd expiry size parse
      else
        r ← Syscall system (Read fd (Z.of_nat size));
        if negb (ret r =? Z.of_nat size) then await_reply fuel' fd expiry size parse
        else
          mac ← lift (parse (pad size (data r)));
          match mac with Some m => mret (Some m) | None => await_reply fuel' fd expiry size parse end
  end.
Fixpoint discovery_loop (retries : nat) (fd : Z) (request : bytes) (parse : bytes -> outcome (option bytes)) : M (option bytes) :=
  match retries with
  | O => mret None
  | S retries' =>
    now ← do system Now;
    Syscall system (Write fd request);;
    r ← await_reply limit fd (ret now + 500 * 1000000) (length request) parse;
    match r with Some m => mret (Some m) | None => discovery_loop retries' fd request parse end
  end.
(** The neighbour's address, when it was found. *)
Definition PerformNeighborDiscovery (Local Neighbor : Neighbor) : M (option bytes) :=
  s ← Syscall system (Socket AF_PACKET (Z.lor SOCK_RAW SOCK_NONBLOCK) (htons ETH_P_ALL));
  closing system (ret s)
    (Syscall system (Bind_packet (ret s) (htons ETH_P_ALL) (n_dev Neighbor));;
     let ProtocolType := if Family (ipAddress Local) =? AF_INET then ETH_P_IP else ETH_P_IPV6 in
     request ← lift (ComposeArpRequest ProtocolType Local Neighbor);
     discovery_loop 5 (ret s) request (ParseArpReply ProtocolType Local Neighbor)).
End Send.

End NetRoute.
