(* ===== verification/NetDevice.v ===== *)
(** Network interfaces of the upstream init (src/src/linux/netlinkutil/Interface.cpp):
    their addresses, links, flags and settings. *)
From stdpp Require Import gmap.
From S2P Require Import Prelude CStr CNum Netlink NetRoute.

Module NetDevice.
Import Netlink NetRoute.

Record Interface : Type := mk_interface { Index : Z; Name : bytes }.
Record InterfaceConfiguration : Type := mk_configuration { Addresses : list Address; LocalAddresses : list Address; BroadcastAddress : option Address }.
#[export] Instance InterfaceConfiguration_eta : Eta InterfaceConfiguration := fun c => mk_configuration (Addresses c) (LocalAddresses c) (BroadcastAddress c).
Definition no_configuration : InterfaceConfiguration := mk_configuration [] [] None.

Definition RTM_NEWLINK : Z := 16.
Definition RTM_DELLINK : Z := 17.
Definition RTM_NEWADDR : Z := 20.
Definition RTM_DELADDR : Z := 21.
Definition RTM_GETADDR : Z := 22.
Definition RTM_NEWQDISC : Z := 36.
Definition RTM_DELQDISC : Z := 37.
Definition RTM_NEWTFILTER : Z := 44.
Definition IFA_ADDRESS : Z := 1.
Definition IFA_LOCAL : Z := 2.
Definition IFA_BROADCAST : Z := 4.
Definition IFA_CACHEINFO : Z := 6.
Definition IFA_FLAGS : Z := 8.
Definition IFA_F_NODAD : Z := 2.
Definition IFA_F_NOPREFIXROUTE : Z := 512.
Definition IFLA_ADDRESS : Z := 1.
Definition IFLA_IFNAME : Z := 3.
Definition IFLA_MTU : Z := 4.
Definition IFLA_LINK : Z := 5.
Definition IFLA_PRIORITY : Z := 9.
Definition IFLA_MASTER : Z := 10.
Definition IFLA_LINKINFO : Z := 18.
Definition IFLA_NET_NS_FD : Z := 28.
Definition IFLA_INFO_KIND : Z := 1.
Definition IFLA_INFO_DATA : Z := 2.
Definition IFLA_BOND_ACTIVE_SLAVE : Z := 2.
Definition IFF_UP : Z := 1.
Definition IFF_RUNNING : Z := 64.

(** * Addresses *)
Definition ifaddrmsg (family prefixlen flags scope index : Z) : bytes := flat_map (le_bytes 1) [family; prefixlen; flags; scope] ++ le_bytes 4 index.
Definition sizeof_ifaddrmsg : Z := 8.
Definition CacheInfoAttribute (a : Address) : bytes := attribute IFA_CACHEINFO (le_bytes 4 (PreferredLifetime a) ++ le_bytes 4 0xFFFFFFFF ++ replicate 8 0).

Section Messages.
Context (L : libc).
Definition address_message (index : Z) (a : Address) (broadcast : option Address) : outcome bytes :=
  address ← AddressAttribute L a IFA_ADDRESS;
  localAddress ← AddressAttribute L a IFA_LOCAL;
  let addrFlags := Z.lor (if IsPrefixRouteAutogenerationDisabled a then IFA_F_NOPREFIXROUTE else 0) (if Family a =? AF_INET6 then IFA_F_NODAD else 0) in
  broadcastAddress ← match broadcast with Some b => AddressAttribute L b IFA_BROADCAST | None => Return [] end;
  Return (ifaddrmsg (Family a) (PrefixLength a) 0 (Scope a) index ++ localAddress ++ address ++ CacheInfoAttribute a ++
          IntegerAttribute addrFlags IFA_FLAGS ++ broadcastAddress).
Definition address_operation (operation : Operation) : Z := match operation with Remove => RTM_DELADDR | _ => RTM_NEWADDR end.
Definition address_flags (operation : Operation) : Z :=
  match operation with Update => Z.lor NLM_F_CREATE NLM_F_REPLACE | Create => Z.lor NLM_F_CREATE NLM_F_EXCL | Remove => 0 end.

(** The addresses that a message of the dump has, which are added to the configuration. *)
Fixpoint from_binary_all (family prefixLength : Z) (l : list bytes) : outcome (list Address) :=
  match l with [] => Return [] | p :: l' => a ← FromBinary L family prefixLength p; r ← from_binary_all family prefixLength l'; Return (a :: r) end.
Definition get_addresses (m p : bytes) (type : Z) : outcome (list Address) :=
  l ← Attributes sizeof_ifaddrmsg sizeof_pointer type m; from_binary_all (nth 0 p 0) (nth 1 p 0) l.
Definition process_address (index : Z) (m : bytes) (c : InterfaceConfiguration) : outcome InterfaceConfiguration :=
  p ← Payload sizeof_ifaddrmsg m;
  if negb (get32 4 p =? u64 index) then Return c
  else
    addresses ← get_addresses m p IFA_ADDRESS;
    localAddresses ← get_addresses m p IFA_LOCAL;
    broadcastAddresses ← get_addresses m p IFA_BROADCAST;
    broadcast ← match broadcastAddresses with [] => Return (BroadcastAddress c) | [b] => Return (Some b) | _ => Throw Runtime_error end;
    Return (mk_configuration (Addresses c ++ addresses) (LocalAddresses c ++ localAddresses) broadcast).
Fixpoint process_addresses (index : Z) (l : list bytes) (c : InterfaceConfiguration) : outcome InterfaceConfiguration :=
  match l with [] => Return c | m :: l' => c ← process_address index m c; process_addresses index l' c end.
End Messages.

(** * Links *)
Definition ifinfomsg (index : Z) : bytes := replicate 4 0 ++ le_bytes 4 index ++ replicate 8 0.
(** An attribute whose length counts its padding. *)
Definition spaced (type : Z) (v : bytes) : bytes := padded (rtattr (RTA_SPACE (Z.of_nat (length v))) type v).
Definition wifi_message (index : Z) (wifiType wifiName : bytes) : bytes :=
  ifinfomsg 0 ++ IntegerAttribute index IFLA_LINK ++ spaced IFLA_LINKINFO (spaced IFLA_INFO_KIND wifiType) ++ spaced IFLA_IFNAME wifiName.
Definition bondData : bytes := [5; 0; 1; 0; 1; 0; 0; 0; 5; 0; 13; 0; 1; 0; 0; 0].
Definition bond_message (bondName : bytes) : bytes :=
  ifinfomsg 0 ++ spaced IFLA_LINKINFO (spaced IFLA_INFO_KIND (str "bond") ++ spaced IFLA_INFO_DATA bondData) ++ spaced IFLA_IFNAME bondName.
Definition active_child_message (index child : Z) : bytes :=
  ifinfomsg index ++ attribute IFLA_LINKINFO (attribute IFLA_INFO_KIND (str "bond") ++ attribute IFLA_INFO_DATA (IntegerAttribute child IFLA_BOND_ACTIVE_SLAVE)).
Definition link_integer_message (index value type : Z) : bytes := ifinfomsg index ++ IntegerAttribute value type.
Definition name_message (index : Z) (newName : bytes) : bytes := ifinfomsg index ++ padded (attribute IFLA_IFNAME newName).
Definition mac_message (index : Z) (address : bytes) : bytes := ifinfomsg index ++ attribute IFLA_ADDRESS address.

(** * Traffic control *)
Definition TC_H_CLSACT : Z := 0xFFFFFFF1.
Definition TC_H_MAKE (major minor : Z) : Z := Z.lor (Z.land major 0xFFFF0000) (Z.land minor 0xFFFF).
Definition TC_H_MIN_INGRESS : Z := 0xFFF2.
Definition TC_H_MIN_EGRESS : Z := 0xFFF3.
Definition tcmsg (ifindex handle parent info : Z) : bytes := replicate 4 0 ++ flat_map (le_bytes 4) [ifindex; handle; parent; info].
Definition classifier_message (index : Z) : bytes :=
  tcmsg index (TC_H_MAKE TC_H_CLSACT 0) TC_H_CLSACT 0 ++ padded (attribute 1 (str "clsact" ++ [0])).
Definition bpf_message (index ProgramFd : Z) (Ingress : bool) : bytes :=
  tcmsg index 0 (TC_H_MAKE TC_H_CLSACT (if Ingress then TC_H_MIN_INGRESS else TC_H_MIN_EGRESS)) (htons ETH_P_ALL) ++
  padded (attribute 1 (str "bpf" ++ [0])) ++
  attribute 2 (IntegerAttribute ProgramFd 6 ++ attribute 7 (str "gns" ++ [0]) ++ IntegerAttribute 1 8).

Section Send.
Context (L : libc) {W : Type} (system : call -> W -> answer * W) (limit : nat).
Abbreviation M := (M (W := W)).

(** A transaction on a channel of its own. *)
Definition send_on_new_channel (message : bytes) (type flags : Z) : M unit :=
  with_channel system NETLINK_ROUTE (fun channel => t ← CreateTransaction channel message type flags; Execute_ system limit t).

Definition ChangeAddress (i : Interface) (a : Address) (broadcast : option Address) (operation : Operation) : M unit :=
  message ← lift (address_message L (Index i) a broadcast); send_on_new_channel message (address_operation operation) (address_flags operation).
Definition ListAddressesImpl (i : Interface) (af : Z) : M InterfaceConfiguration :=
  with_channel system NETLINK_ROUTE (fun channel =>
    t ← CreateTransaction channel (ifaddrmsg af 0 0 0 (Index i)) RTM_GETADDR NLM_F_DUMP;
    Execute system limit t (fun response c => l ← lift (Messages RTM_NEWADDR response); lift (process_addresses L (Index i) l c)) no_configuration).
Definition Ipv4Configuration (i : Interface) : M InterfaceConfiguration := ListAddressesImpl i AF_INET.
Definition Ipv6Configuration (i : Interface) : M InterfaceConfiguration := ListAddressesImpl i AF_INET6.
Definition ModifyIpAddress (i : Interface) (a : Address) (operation : Operation) : M unit :=
  broadcast ← (if Family a =? AF_INET then b ← lift (ComputeBroadcastAddress L a); mret (Some b) else mret None);
  match operation with
  | Update =>
    c ← (if Family a =? AF_INET then Ipv4Configuration i else Ipv6Configuration i);
    when (existsb (fun b => address_eqb b a) (Addresses c)) (ChangeAddress i a broadcast Remove)
  | _ => skip
  end;;
  ChangeAddress i a broadcast operation.

(** The addresses of the left that are not on the right. *)
Definition compare (left right : list Address) : list Address := List.filter (fun e => negb (existsb (fun f => address_eqb f e) right)) left.
Definition SetConfiguration (i : Interface) (current configuration : InterfaceConfiguration) : M unit :=
  for_each (compare (Addresses current) (Addresses configuration)) (fun a => ChangeAddress i a (BroadcastAddress configuration) Remove);;
  for_each (compare (Addresses configuration) (Addresses current)) (fun a => ChangeAddress i a (BroadcastAddress configuration) Create).
Definition SetIpv4Configuration (i : Interface) (configuration : InterfaceConfiguration) : M unit :=
  current ← Ipv4Configuration i; SetConfiguration i current configuration.
Definition SetIpv6Configuration (i : Interface) (configuration : InterfaceConfiguration) : M unit :=
  current ← Ipv6Configuration i; SetConfiguration i current configuration.

(** gslhelpers::get_struct over a buffer that is too short for a name ends the process. *)
Definition send_named (name : bytes) (message : bytes) (flags : Z) : M unit :=
  if is_empty name then lift Terminated else send_on_new_channel message RTM_NEWLINK flags.
Definition CreateWifiAdapter (i : Interface) (wifiName wifiType : bytes) : M unit :=
  send_named wifiName (wifi_message (Index i) wifiType wifiName) (Z.lor NLM_F_CREATE NLM_F_EXCL).
Definition CreateVirtualWifiAdapter (i : Interface) (wifiName : bytes) : M unit := CreateWifiAdapter i wifiName (str "virt_wifi").
Definition CreateProxyWifiAdapter (i : Interface) (wifiName : bytes) : M unit := CreateWifiAdapter i wifiName (str "proxy_wifi").
Definition CreateBondAdapter (bondName : bytes) : M unit := send_named bondName (bond_message bondName) (Z.lor NLM_F_CREATE NLM_F_EXCL).
Definition RemoveFromBond (child : Interface) : M unit := send_on_new_channel (link_integer_message (Index child) 0 IFLA_MASTER) RTM_NEWLINK 0.
Definition AddToBond (i child : Interface) : M unit := send_on_new_channel (link_integer_message (Index child) (Index i) IFLA_MASTER) RTM_NEWLINK 0.
Definition DeleteInterface (i : Interface) : M unit := send_on_new_channel (ifinfomsg (Index i)) RTM_DELLINK 0.
Definition SetActiveChild (i child : Interface) : M unit := send_on_new_channel (active_child_message (Index i) (Index child)) RTM_NEWLINK 0.
Definition SetMtu (i : Interface) (mtu : Z) : M unit := send_on_new_channel (link_integer_message (Index i) mtu IFLA_MTU) RTM_NEWLINK 0.
Definition SetMetric (i : Interface) (metric : Z) : M unit := send_on_new_channel (link_integer_message (Index i) metric IFLA_PRIORITY) RTM_NEWLINK 0.
Definition SetName (i : Interface) (newName : bytes) : M unit := send_named newName (name_message (Index i) newName) 0.
Definition SetNamespace (i : Interface) (namespaceFd : Z) : M unit := send_on_new_channel (link_integer_message (Index i) namespaceFd IFLA_NET_NS_FD) RTM_NEWLINK 0.
Definition SetMacAddress (i : Interface) (address : bytes) : M unit := send_on_new_channel (mac_message (Index i) address) RTM_NEWLINK 0.
Definition ModifyTcClassifier (i : Interface) (Add : bool) : M unit :=
  send_on_new_channel (classifier_message (Index i)) (if Add then RTM_NEWQDISC else RTM_DELQDISC)
    (Z.lor NLM_F_REQUEST (if Add then Z.lor NLM_F_CREATE NLM_F_EXCL else 0)).
Definition BpfAttachTcClassifier (i : Interface) (ProgramFd : Z) (Ingress : bool) : M unit :=
  send_on_new_channel (bpf_message (Index i) ProgramFd Ingress) RTM_NEWTFILTER (Z.lor (Z.lor NLM_F_REQUEST NLM_F_EXCL) NLM_F_CREATE).

(** * Flags and names *)
Definition change_flags (i : Interface) (f : Z -> Z) : M unit :=
  with_channel system NETLINK_ROUTE (fun channel => currentFlags ← GetInterfaceFlags system channel (Name i); SetInterfaceFlags system channel (Name i) (f currentFlags)).
Definition AddFlags (i : Interface) (flags : Z) : M unit := change_flags i (fun f => Z.lor f flags).
Definition RemoveFlags (i : Interface) (flags : Z) : M unit := change_flags i (fun f => Z.ldiff f flags).
Definition SetUp (i : Interface) : M unit := AddFlags i (Z.lor IFF_UP IFF_RUNNING).
Definition SetDown (i : Interface) : M unit := RemoveFlags i (Z.lor IFF_UP IFF_RUNNING).
(** Interface::Open. *)
Definition OpenName (name : bytes) : M Interface :=
  index ← with_channel system NETLINK_ROUTE (fun channel => GetInterfaceIndex system channel name); mret (mk_interface index name).

Definition TUNSETIFF : Z := 0x400454ca.
Definition TUNSETPERSIST : Z := 0x400454cb.
Definition SIOCGIFHWADDR : Z := 0x8927.
Definition O_WRONLY : Z := 1.
Definition O_RDWR : Z := 2.
Definition O_CLOEXEC : Z := 0x80000.
Definition IFNAMSIZ : Z := 16.
Definition CreateTunTapAdapter (name : bytes) (TunAdapter : bool) : M unit :=
  if IFNAMSIZ <? Z.of_nat (length name) then throw Runtime_error
  else
    fd ← Syscall system (Open (str "/dev/net/tun") O_RDWR);
    closing system (ret fd)
      (Syscall system (Ioctl (ret fd) TUNSETIFF (ifreq name (le_bytes 2 (if TunAdapter then 1 else 2))));;
       Syscall system (Ioctl (ret fd) TUNSETPERSIST (le_bytes 4 1));; skip).
(** A name longer than the structure is written over what follows it. *)
Definition GetMacAddress (i : Interface) : M bytes :=
  fd ← Syscall system (Socket AF_PACKET SOCK_RAW (htons ETH_P_ALL));
  closing system (ret fd)
    (if (40 <? length (Name i))%nat then lift Undefined
     else
       a ← Syscall system (Ioctl (ret fd) SIOCGIFHWADDR (pad 40 (Name i)));
       mret (take 6 (drop 18 (pad 40 (data a))))).

(** * Settings *)
Definition setting_path (addressFamily : Z) (scope settingName : bytes) : bytes :=
  str "/proc/sys/net/" ++ (if addressFamily =? AF_INET then str "ipv4" else str "ipv6") ++ str "/conf/" ++ scope ++ [c_slash] ++ settingName.
Definition write_setting (addressFamily : Z) (scope settingName value : bytes) : M unit :=
  fd ← Syscall system (Open (setting_path addressFamily scope settingName) (Z.lor O_WRONLY O_CLOEXEC));
  closing system (ret fd) (Syscall system (Write (ret fd) value);; skip).
(** The values of these two are written with their NUL. *)
Definition EnableNetworkSetting (i : Interface) (settingName : bytes) (addressFamily : Z) : M unit :=
  write_setting addressFamily (Name i) settingName (str "1" ++ [c_nl; 0]).
Definition DisableNetworkSetting (i : Interface) (settingName : bytes) (addressFamily : Z) : M unit :=
  write_setting addressFamily (Name i) settingName (str "0" ++ [c_nl; 0]).
Definition ResetIpv6State (i : Interface) : M unit :=
  EnableNetworkSetting i (str "disable_ipv6") AF_INET6;;
  DisableNetworkSetting i (str "accept_ra") AF_INET6;;
  DisableNetworkSetting i (str "autoconf") AF_INET6;;
  DisableNetworkSetting i (str "use_tempaddr") AF_INET6;;
  EnableNetworkSetting i (str "addr_gen_mode") AF_INET6;;
  DisableNetworkSetting i (str "disable_ipv6") AF_INET6.
End Send.

End NetDevice.
