(* ===== verification/NetManager.v ===== *)
(** The network manager of the upstream init (src/src/linux/init/NetworkManager.cpp), the
    connection check (src/src/shared/inc/conncheckshared.h), running a command
    (UtilExecCommandLine) and retrying (src/src/shared/inc/retryshared.h). *)
From stdpp Require Import gmap.
From S2P Require Import Prelude CStr CNum Netlink NetRoute NetDevice.

Module NetManager.
Import Netlink NetRoute NetDevice.

Definition c_loopbackRoutingTableId : Z := 127.
Definition c_localRoutingTableId : Z := 128.
Definition c_WindowsToLinuxRulePriority : Z := 0.
Definition c_LinuxToWindowsRulePriority : Z := 1.
Definition c_LocalRulePriority : Z := 2.
Definition c_routeTableOffsetFromIndex : Z := 1000.
Definition Ipv4MaxPrefixLen : Z := 32.
Definition Ipv6MaxPrefixLen : Z := 128.
Definition c_ipv4LoopbackGateway : Address := address_of AF_INET Ipv4MaxPrefixLen (str "169.254.73.152").
Definition c_ipv6LoopbackGateway : Address := address_of AF_INET6 Ipv6MaxPrefixLen (str "fe80::500:4aef:feef:2aa2").
Definition c_loopbackV4AddressRange : Address := address_of AF_INET Ipv4MaxPrefixLen (str "127.0.0.1").
Definition c_loopbackV6AddressRange : Address := address_of AF_INET6 Ipv6MaxPrefixLen (str "::1").
Definition c_gatewayMacAddress : bytes := [0x00; 0x11; 0x22; 0x33; 0x44; 0x55].
Definition c_disableSetting : bytes := str "0" ++ [c_nl].
Definition c_enableSetting : bytes := str "1" ++ [c_nl].

(** The channels of the three routing tables and of the managers of rules and
    neighbours.  The id of the first table may change and is in the state. *)
Record NetworkManager : Type := mk_manager { routing_fd : Z; loopback_fd : Z; local_fd : Z; ruleManager : Z; neighborManager : Z }.
Definition loopbackRoutingTable (m : NetworkManager) : RoutingTable := mk_table (loopback_fd m) c_loopbackRoutingTableId.
Definition localRoutingTable (m : NetworkManager) : RoutingTable := mk_table (local_fd m) c_localRoutingTableId.

Inductive InterfaceState : Type := Up | Down.

Section Manager.
Context (L : libc) {W : Type} (system : call -> W -> answer * W) (limit : nat) (m : NetworkManager).
Abbreviation M := (M (W := W)).

Definition the_routing_table : M RoutingTable := fun s => (Return (mk_table (routing_fd m) (primaryTable s)), s).
Definition FindRoutingTableIdForInterface (i : Interface) : option Z := Some (c_routeTableOffsetFromIndex + Index i).
Definition ChangePrimaryRoutingTable (newTableId : Z) : M unit := fun s => (Return tt, s <| primaryTable := newTableId |>).
(** NetworkManager::ListRoutes and NetworkManager::ModifyRoute. *)
Definition ManagerListRoutes (family : Z) : M (list Route) := t ← the_routing_table; ListRoutes L system limit t family.
Definition ManagerModifyRoute (r : Route) (operation : Operation) : M unit := t ← the_routing_table; ModifyRoute L system limit t r operation.

(** Needed to send and receive loopback packets on an interface. *)
Definition EnableLoopbackRouting (i : Interface) : M unit :=
  EnableNetworkSetting system i (str "accept_local") AF_INET;; EnableNetworkSetting system i (str "route_localnet") AF_INET.
Definition ManagerCreateVirtualWifiAdapter (baseAdapter : Interface) (wifiName : bytes) : M Interface :=
  CreateVirtualWifiAdapter system limit baseAdapter wifiName;; virtualWifi ← OpenName system wifiName; EnableLoopbackRouting virtualWifi;; mret virtualWifi.
Definition ManagerCreateProxyWifiAdapter (baseAdapter : Interface) (wifiName : bytes) : M Interface :=
  CreateProxyWifiAdapter system limit baseAdapter wifiName;; proxyWifi ← OpenName system wifiName; EnableLoopbackRouting proxyWifi;; mret proxyWifi.
(** [IPAddress] and [EndpointPrefixLength] of the endpoint. *)
Definition SetAdapterConfiguration (i : Interface) (IPAddress : bytes) (EndpointPrefixLength : Z) : M unit :=
  let a := address_of AF_INET EndpointPrefixLength IPAddress in
  b ← lift (ComputeBroadcastAddress L a);
  SetIpv4Configuration L system limit i (mk_configuration [a] [a] (Some b)).
Definition SetInterfaceState (i : Interface) (state : InterfaceState) : M unit := match state with Up => SetUp system i | Down => SetDown system i end.
Definition SetAdapterName (i : Interface) (name : bytes) : M unit := SetName system limit i name.
Definition SetAdapterNamespace (i : Interface) (namespaceFd : Z) : M unit := SetNamespace system limit i namespaceFd.

Definition ResetRoutingTable (addressFamily : Z) (i : Interface) : M unit :=
  t ← the_routing_table;
  routes ← ListRoutes L system limit t addressFamily;
  for_each (List.filter (fun r => match via r with Some _ => dev r =? Index i | None => false end) routes)
    (fun e => try (ModifyRoute L system limit t e Remove) (fun _ => throw Runtime_error)).
Definition ModifyAddress (i : Interface) (a : Address) (operation : Operation) : M unit :=
  t ← the_routing_table;
  routes ← match operation with Update => ListRoutes L system limit t (Family a) | _ => mret [] end;
  ModifyIpAddress L system limit i a operation;;
  for_each (List.filter (fun r => (dev r =? Index i) && match via r with Some _ => true | None => false end) routes)
    (fun savedRoute => try (ModifyRoute L system limit t savedRoute Create) (fun _ => skip)).

Definition SetAdapterMacAddress (i : Interface) (address : bytes) : M unit :=
  SetInterfaceState i Down;; SetMacAddress system limit i address;; SetInterfaceState i Up.
Definition DisassociateAdapterFromBond (bondInterfaceName : bytes) (i : Interface) : M unit :=
  OpenName system bondInterfaceName;; RemoveFromBond system limit i.
Definition AssociateAdapterWithBond (bondInterfaceName : bytes) (i : Interface) : M unit :=
  bondInterface ← OpenName system bondInterfaceName;
  SetInterfaceState i Down;; AddToBond system limit bondInterface i;; SetInterfaceState i Up.
Definition ActivateAdapterWithBond (bondInterfaceName : bytes) (i : Interface) : M unit :=
  bondInterface ← OpenName system bondInterfaceName; SetActiveChild system limit bondInterface i.
Definition ManagerCreateBondAdapter (name : bytes) : M Interface :=
  CreateBondAdapter system limit name;; bondInterface ← OpenName system name; EnableLoopbackRouting bondInterface;; mret bondInterface.
Definition CreateTunAdapter (name : bytes) : M unit := CreateTunTapAdapter system name true;; EnableLoopbackRouting (mk_interface (-1) name).

(** * Mirrored loopback *)
Definition ModifyNetSetting (addressFamily : Z) (settingName scope settingValue : bytes) : M unit := write_setting system addressFamily scope settingName settingValue.
Definition UpdateMirroredLoopbackRulesForInterface (interfaceName : bytes) (operation : Operation) : M unit :=
  let rule p := rule AF_INET RT_TABLE_LOCAL c_WindowsToLinuxRulePriority (Some p) <| iif := interfaceName |> in
  ModifyLoopbackRule system limit (ruleManager m) (rule Tcp) operation;; ModifyLoopbackRule system limit (ruleManager m) (rule Udp) operation.
Definition AddPriority1Rule (addressFamily : Z) (p : Protocol) (routingTableId : Z) : M unit :=
  ModifyRoutingTablePriorityWithProtocol system limit (ruleManager m) (rule addressFamily routingTableId c_LinuxToWindowsRulePriority (Some p)) Create.
Definition AddMirroredLoopbackRoutingRules (gelnic : Interface) (addressFamily : Z) : M unit :=
  ModifyRoutingTablePriority system limit (ruleManager m) (rule addressFamily RT_TABLE_LOCAL 0 None) Remove;;
  UpdateMirroredLoopbackRulesForInterface (Name gelnic) Create;;
  AddPriority1Rule addressFamily Tcp c_loopbackRoutingTableId;;
  AddPriority1Rule addressFamily Udp c_loopbackRoutingTableId;;
  AddPriority1Rule addressFamily Tcp c_localRoutingTableId;;
  AddPriority1Rule addressFamily Udp c_localRoutingTableId;;
  ModifyRoutingTablePriority system limit (ruleManager m) (rule addressFamily RT_TABLE_LOCAL c_LocalRulePriority None) Create.
Definition gateway (addressFamily : Z) : Address := if addressFamily =? AF_INET then c_ipv4LoopbackGateway else c_ipv6LoopbackGateway.
Definition loopback_route (addressFamily : Z) (i : Interface) (a : Address) : Route :=
  mk_route addressFamily (Some (gateway addressFamily)) (Index i) false (Some a) 0 true.
Definition add_gateway_neighbor (addressFamily : Z) (i : Interface) : M unit :=
  ModifyNeighborEntry L system limit (neighborManager m) (mk_neighbor (gateway addressFamily) c_gatewayMacAddress (Index i)) Create.
Definition InitializeLoopbackConfigurationImpl (gelnic : Interface) (addressFamily : Z) : M unit :=
  SetUp system gelnic;;
  AddMirroredLoopbackRoutingRules gelnic addressFamily;;
  add_gateway_neighbor addressFamily gelnic;;
  ModifyRoute L system limit (loopbackRoutingTable m)
    (loopback_route addressFamily gelnic (if addressFamily =? AF_INET then c_loopbackV4AddressRange else c_loopbackV6AddressRange)) Create.
Definition InitializeLoopbackConfiguration (gelnic : Interface) : M unit :=
  EnableLoopbackRouting gelnic;;
  DisableNetworkSetting system gelnic (str "rp_filter") AF_INET;;
  ModifyNetSetting AF_INET (str "rp_filter") (str "all") c_disableSetting;;
  InitializeLoopbackConfigurationImpl gelnic AF_INET.
Definition UpdateLoopbackRoute (i : Interface) (a : Address) (operation : Operation) : M unit :=
  if Family a =? AF_INET6 then skip
  else
    match operation with Create => add_gateway_neighbor (Family a) i | _ => skip end;;
    ModifyRoute L system limit (localRoutingTable m) (loopback_route (Family a) i a) operation.
Definition ResetLoopbackRoutes : M unit := RemoveAll L system limit (localRoutingTable m) AF_UNSPEC.

(** * Settings of all interfaces *)
Definition set_all_and_default (addressFamily : Z) (settingName value : bytes) : M unit :=
  ModifyNetSetting addressFamily settingName (str "all") value;; ModifyNetSetting addressFamily settingName (str "default") value.
Definition DisableRouterDiscovery : M unit := set_all_and_default AF_INET6 (str "accept_ra") c_disableSetting.
Definition DisableDAD : M unit := set_all_and_default AF_INET6 (str "dad_transmits") c_disableSetting.
Definition DisableIpv6AddressGeneration : M unit :=
  set_all_and_default AF_INET6 (str "autoconf") c_disableSetting;;
  set_all_and_default AF_INET6 (str "addr_gen_mode") c_enableSetting;;
  set_all_and_default AF_INET6 (str "use_tempaddr") c_disableSetting.
Definition EnableIpv4ArpFilter : M unit := set_all_and_default AF_INET (str "arp_filter") c_enableSetting.
End Manager.

Section Helpers.
Context {W : Type} (system : call -> W -> answer * W) (limit : nat).
Abbreviation M := (M (W := W)).

(** * RetryWithTimeout *)

(** Times are in nanoseconds; [fuel] bounds the attempts. *)
Fixpoint retry_loop {A} (fuel : nat) (routine : M A) (retryPeriod : Z) (stop : Z) : M A :=
  match fuel with
  | O => lift Waiting
  | S fuel' =>
    try routine
      (fun e => now ← do system Now;
                if stop <? ret now then throw e else do system (Sleep_for retryPeriod);; retry_loop fuel' routine retryPeriod stop)
  end.
Definition RetryWithTimeout {A} (routine : M A) (retryPeriod timeout : Z) : M A :=
  now ← do system Now; retry_loop limit routine retryPeriod (ret now + timeout * 1000000).

(** * UtilExecCommandLine *)

(** The status as waitpid reports it. *)
Definition UtilProcessChildExitCode (Status ExpectedStatus : Z) : Z :=
  if Z.land Status 0x7f =? 0 then if Z.land (Z.shiftr Status 8) 0xff =? ExpectedStatus then 0 else -1 else -1.
(** The output is what is read from the pipe, when it is wanted: the loop is left after
    the first line, since no result is set yet. *)
Definition UtilExecCommandLine (CommandLine : bytes) (Output : bool) (ExpectedStatus : Z) : M (Z * bytes) :=
  pipe ← do system (Popen CommandLine);
  if ret pipe <? 0 then mret (-1, [])
  else
    let output := match fgets_lines 1024 (data pipe) with line :: _ => if Output then to_cstr line else [] | [] => [] end in
    status ← do system (Pclose (ret pipe));
    mret (if ret status =? -1 then -1 else UtilProcessChildExitCode (ret status) ExpectedStatus, output).

(** * CheckConnection *)
Inductive ConnCheckStatus : Type := InProgress | Success | FailureGetAddrInfo | FailureConfig | FailureSocketConnect.
#[export] Instance ConnCheckStatus_eq_dec : EqDecision ConnCheckStatus.
Proof. solve_decision. Defined.
Definition ConnCheckStatus_value (s : ConnCheckStatus) : Z :=
  match s with InProgress => 0 | Success => 1 | FailureGetAddrInfo => 2 | FailureConfig => 3 | FailureSocketConnect => 4 end.
Definition is_in_progress (s : ConnCheckStatus) : bool := match s with InProgress => true | _ => false end.
Definition EINPROGRESS : Z := 115.
Definition SOCK_STREAM : Z := 1.
Definition F_GETFL : Z := 3.
Definition F_SETFL : Z := 4.
Definition O_NONBLOCK : Z := 2048.

(** The socket, -1 when there is none, and the status. *)
Definition ConnCheckConfigureSocket (family : Z) : M (option Z) :=
  sock ← do system (Socket family SOCK_STREAM 0);
  if ret sock <? 0 then mret None
  else
    value ← do system (Fcntl (ret sock) F_GETFL 0);
    if ret value <? 0 then do system (Close (ret sock));; mret None
    else
      value ← do system (Fcntl (ret sock) F_SETFL (Z.lor (ret value) O_NONBLOCK));
      if ret value <? 0 then do system (Close (ret sock));; mret None else mret (Some (ret sock)).
Definition ConnCheckConnectSocket (family : Z) (hostname port : bytes) : M (Z * ConnCheckStatus) :=
  servinfo ← do system (Getaddrinfo family hostname port);
  if negb (ret servinfo =? 0) then mret (-1, FailureGetAddrInfo)
  else
    sock ← ConnCheckConfigureSocket family;
    match sock with
    | None => mret (-1, FailureConfig)
    | Some sock =>
      status ← do system (Connect sock (data servinfo));
      mret (sock, if negb (ret status =? 0) && negb (ret status =? - EINPROGRESS) then FailureSocketConnect else InProgress)
    end.
Definition maxMillisecondsElapsed : Z := 5000.
Definition fail_pending (s : ConnCheckStatus) : ConnCheckStatus := if is_in_progress s then FailureSocketConnect else s.
(** A socket that select reports is connected; [names] of the answer of Select holds a
    list for each of the two sockets, not empty when it is set. *)
Definition ready (s : ConnCheckStatus) (sock : Z) (set : option bytes) : ConnCheckStatus :=
  if is_in_progress s && (0 <=? sock) && match set with Some (_ :: _) => true | _ => false end then Success else s.
Fixpoint connection_loop (fuel : nat) (startTime v4sock v6sock : Z) (v4 v6 : ConnCheckStatus) : M (ConnCheckStatus * ConnCheckStatus) :=
  if negb (is_in_progress v4 || is_in_progress v6) then mret (v4, v6)
  else
    match fuel with
    | O => lift Waiting
    | S fuel' =>
      currentTime ← do system Now;
      let elapsedTimeMs := Z.quot (ret currentTime - startTime) 1000000 in
      if maxMillisecondsElapsed <=? elapsedTimeMs then mret (fail_pending v4, fail_pending v6)
      else
        let fds := (if is_in_progress v4 then [v4sock] else []) ++ (if is_in_progress v6 then [v6sock] else []) in
        status ← do system (Select fds (Z.quot (maxMillisecondsElapsed - elapsedTimeMs) 1000));
        if ret status <=? 0 then connection_loop fuel' startTime v4sock v6sock (fail_pending v4) (fail_pending v6)
        else connection_loop fuel' startTime v4sock v6sock (ready v4 v4sock (head (names status))) (ready v6 v6sock (head (tl (names status))))
    end.
Definition close_socket (sock : Z) : M unit := when (0 <=? sock) (do system (Close sock);; skip).
Definition CheckConnection (hostname : bytes) (ipv6hostname : option bytes) (port : bytes) : M (ConnCheckStatus * ConnCheckStatus) :=
  '(v4sock, v4) ← ConnCheckConnectSocket AF_INET hostname port;
  '(v6sock, v6) ← ConnCheckConnectSocket AF_INET6 (default hostname ipv6hostname) port;
  startTime ← do system Now;
  r ← connection_loop limit (ret startTime) v4sock v6sock v4 v6;
  close_socket v6sock;; close_socket v4sock;; mret r.
Definition SendConnectRequest (remoteAddress : bytes) : M (ConnCheckStatus * ConnCheckStatus) := CheckConnection remoteAddress None (str "80").
End Helpers.

End NetManager.
