(* ===== verification/HnsSchema.v ===== *)
(** The messages of the host networking service that the network engine of the upstream
    init reads (src/src/shared/inc/hns_schema.h, with the readers of JsonUtils.h).  The JSON
    library is an argument. *)
From S2P Require Import Prelude CStr CNum Strings Netlink.

Module HnsSchema.
Import Strings Netlink.

(** The library: values and their parser, access to members ([find] for json::value, which
    throws when the value is no object; [index] for operator[] on a constant value),
    conversions, and the comparison with a text. *)
Record nlohmann : Type := mk_nlohmann {
  json : Type; parse : bytes -> outcome json; is_null : json -> bool; contains : json -> bytes -> bool;
  at_key : json -> bytes -> outcome json; index : json -> bytes -> outcome json; find : json -> bytes -> outcome (option json);
  get_string : json -> outcome bytes; get_bool : json -> outcome bool; get_unsigned : Z -> json -> outcome Z; get_int : json -> outcome Z;
  is_text : json -> bytes -> bool
}.

Inductive ModifyRequestType : Type := Add | R_Remove | R_Update | Refresh | Reset.
Inductive GuestEndpointResourceType : Type := G_Interface | G_Route | G_IPAddress | G_DNS | G_MacAddress | G_Neighbor | G_Port.
Inductive OperationType : Type := O_Create | O_Update | O_Remove.
Inductive DeviceType : Type := Bond | Loopback | VirtualWifi | VirtualTunnel | VirtualCellular.
Record HNSEndpoint : Type := mk_endpoint { IPAddress : bytes; PortFriendlyName : bytes; ID : GUID; EndpointPrefixLength : Z }.
Record hns_Route : Type := mk_hns_route { NextHop : bytes; DestinationPrefix : bytes; SitePrefixLength : Z; RouteMetric : Z; RouteFamily : Z }.
Record hns_DNS : Type := mk_hns_dns { Domain : bytes; SearchList : bytes; ServerList : bytes; Options : bytes }.
Record hns_IPAddress : Type := mk_hns_address {
  IpText : bytes; IpFamily : Z; OnLinkPrefixLength : Z; PrefixOrigin : Z; SuffixOrigin : Z; IpPreferredLifetime : Z
}.
Record LoopbackRoutesRequest : Type := mk_loopback_routes { LoopbackDevice : bytes; LoopbackOperation : OperationType; LoopbackFamily : Z; LoopbackAddress : bytes }.
Record NetworkInterface : Type := mk_network_interface { Connected : bool; NlMtu : Z; LinkMetric : Z }.
Record InitialIpConfigurationNotification : Type := mk_initial_ip { InitialDevice : bytes; InitialFlags : Z }.
Record CreateDeviceRequest : Type := mk_create_device { Device : DeviceType; lowerEdgeAdapterId : option GUID }.
Record InterfaceNetFilterRequest : Type := mk_net_filter {
  FilterDevice : bytes; FilterOperation : OperationType; ephemeralPortRangeStart : Z; ephemeralPortRangeEnd : Z
}.
Record ModifyGuestEndpointSettingRequest : Type := mk_endpoint_setting {
  RequestType : ModifyRequestType; ResourceType : GuestEndpointResourceType; Settings : NetworkInterface; targetDeviceName : option bytes
}.

Section Readers.
Context (J : nlohmann).
Abbreviation json := (json J).
Abbreviation get_string := (get_string J).
Abbreviation get_bool := (get_bool J).
Abbreviation get_unsigned := (get_unsigned J).

(** json::value: the default when the key is missing. *)
Definition value_or {A} (get : json -> outcome A) (j : json) (key : bytes) (default : A) : outcome A :=
  o ← find J j key; match o with Some v => get v | None => Return default end.
(** Wide strings are converted as C strings. *)
Definition get_wstring (j : json) : outcome bytes := s ← get_string j; Return (to_cstr s).
Definition get_optional {A} (get : json -> outcome A) (j : json) : outcome (option A) :=
  if is_null J j then Return None else a ← get j; Return (Some a).
Definition no_guid : GUID := mk_guid 0 0 0 (replicate 8 0).
Definition get_guid (j : json) : outcome GUID := s ← get_string j; Return (default no_guid (ToGuid s)).
(** NLOHMANN_JSON_SERIALIZE_ENUM: what is not in the table is its first entry. *)
Fixpoint find_name {A} (j : json) (table : list (A * bytes)) : option A :=
  match table with [] => None | (a, name) :: table' => if is_text J j name then Some a else find_name j table' end.
Definition get_enum {A} (first : A) (table : list (A * bytes)) (j : json) : outcome A := Return (default first (find_name j table)).

Definition get_ModifyRequestType : json -> outcome ModifyRequestType :=
  get_enum Add [(Add, str "Add"); (R_Remove, str "Remove"); (R_Update, str "Update"); (Refresh, str "Refresh"); (Reset, str "Reset")].
Definition get_GuestEndpointResourceType : json -> outcome GuestEndpointResourceType :=
  get_enum G_Interface [(G_Interface, str "Interface"); (G_Route, str "Route"); (G_IPAddress, str "IPAddress"); (G_DNS, str "DNS");
    (G_MacAddress, str "MacAddress"); (G_Neighbor, str "Neighbor"); (G_Port, str "Port")].
Definition get_OperationType : json -> outcome OperationType := get_enum O_Create [(O_Create, str "Create"); (O_Update, str "Update"); (O_Remove, str "Remove")].
Definition get_DeviceType : json -> outcome DeviceType :=
  get_enum Bond [(Bond, str "Bond"); (Loopback, str "Loopback"); (VirtualWifi, str "VirtualWifi"); (VirtualTunnel, str "VirtualTunnel"); (VirtualCellular, str "VirtualCellular")].

(** * Messages *)
Definition check_InterfaceConstraint (j : json) : outcome unit :=
  value_or get_guid j (str "InterfaceGuid") no_guid;; value_or (get_unsigned 32) j (str "InterfaceIndex") 0;;
  value_or (get_unsigned 32) j (str "InterfaceMediaType") 0;; value_or get_wstring j (str "InterfaceAlias") [];; Return tt.
(** The members that are not kept are read as well, and may throw. *)
Definition get_HNSEndpoint (j : json) : outcome HNSEndpoint :=
  let text key := value_or get_wstring j (str key) [] in
  IPAddress ← text "IPAddress"; text "MacAddress";; text "GatewayAddress";; PortFriendlyName ← text "PortFriendlyName";
  value_or get_guid j (str "VirtualNetwork") no_guid;; text "VirtualNetworkName";; text "Name";;
  ID ← value_or get_guid j (str "ID") no_guid; PrefixLength ← value_or (get_unsigned 8) j (str "PrefixLength") 0;
  value_or check_InterfaceConstraint j (str "InterfaceConstraint") tt;; text "DNSServerList";;
  Return (mk_endpoint IPAddress PortFriendlyName ID PrefixLength).
Definition get_Route (j : json) : outcome hns_Route :=
  NextHop ← value_or get_wstring j (str "NextHop") []; DestinationPrefix ← value_or get_wstring j (str "DestinationPrefix") [];
  SitePrefixLength ← value_or (get_unsigned 8) j (str "SitePrefixLength") 0; Metric ← value_or (get_unsigned 32) j (str "Metric") 0;
  Family ← value_or (get_unsigned 16) j (str "Family") 0; Return (mk_hns_route NextHop DestinationPrefix SitePrefixLength Metric Family).
Definition get_DNS (j : json) : outcome hns_DNS :=
  Domain ← value_or get_wstring j (str "Domain") []; Search ← value_or get_wstring j (str "Search") [];
  ServerList ← value_or get_wstring j (str "ServerList") []; Options ← value_or get_wstring j (str "Options") [];
  Return (mk_hns_dns Domain Search ServerList Options).
Definition get_IPAddress (j : json) : outcome hns_IPAddress :=
  Address ← value_or get_wstring j (str "Address") []; Family ← value_or (get_unsigned 16) j (str "Family") 0;
  OnLinkPrefixLength ← value_or (get_unsigned 8) j (str "OnLinkPrefixLength") 0; PrefixOrigin ← value_or (get_unsigned 8) j (str "PrefixOrigin") 0;
  SuffixOrigin ← value_or (get_unsigned 8) j (str "SuffixOrigin") 0; PreferredLifetime ← value_or (get_unsigned 32) j (str "PreferredLifetime") 0;
  Return (mk_hns_address Address Family OnLinkPrefixLength PrefixOrigin SuffixOrigin PreferredLifetime).
Definition get_LoopbackRoutesRequest (j : json) : outcome LoopbackRoutesRequest :=
  operation ← value_or get_OperationType j (str "operation") O_Create; targetDeviceName ← value_or get_wstring j (str "targetDeviceName") [];
  family ← value_or (get_unsigned 32) j (str "family") 0; ipAddress ← value_or get_wstring j (str "ipAddress") [];
  Return (mk_loopback_routes targetDeviceName operation family ipAddress).
Definition get_NetworkInterface (j : json) : outcome NetworkInterface :=
  Connected ← value_or get_bool j (str "Connected") false; NlMtu ← value_or (get_unsigned 32) j (str "NlMtu") 0;
  Metric ← value_or (get_unsigned 32) j (str "Metric") 0; Return (mk_network_interface Connected NlMtu Metric).
Definition SkipPrimaryRoutingTableUpdate : Z := 1.
Definition SkipLoopbackRouteReset : Z := 2.
Definition get_InitialIpConfigurationNotification (j : json) : outcome InitialIpConfigurationNotification :=
  targetDeviceName ← value_or get_wstring j (str "targetDeviceName") [];
  flags ← value_or (get_int J) j (str "flags") 0;
  Return (mk_initial_ip targetDeviceName flags).
Definition get_VmNicCreatedNotification (j : json) : outcome GUID := value_or get_guid j (str "adapterId") no_guid.
Definition get_CreateDeviceRequest (j : json) : outcome CreateDeviceRequest :=
  type ← value_or get_DeviceType j (str "type") Bond; value_or get_wstring j (str "deviceName") [];;
  lowerEdgeAdapterId ← value_or (get_optional get_guid) j (str "lowerEdgeAdapterId") None;
  value_or (get_optional get_wstring) j (str "lowerEdgeDeviceName") None;; Return (mk_create_device type lowerEdgeAdapterId).
Definition get_InterfaceNetFilterRequest (j : json) : outcome InterfaceNetFilterRequest :=
  targetDeviceName ← value_or get_wstring j (str "targetDeviceName") []; operation ← value_or get_OperationType j (str "operation") O_Create;
  first ← value_or (get_unsigned 16) j (str "ephemeralPortRangeStart") 0; last ← value_or (get_unsigned 16) j (str "ephemeralPortRangeEnd") 0;
  Return (mk_net_filter targetDeviceName operation first last).
Definition get_MacAddress (j : json) : outcome bytes := value_or get_string j (str "PhysicalAddress") [].
Definition get_ModifyGuestEndpointSettingRequest (j : json) : outcome ModifyGuestEndpointSettingRequest :=
  RequestType ← value_or get_ModifyRequestType j (str "RequestType") Add;
  ResourceType ← value_or get_GuestEndpointResourceType j (str "ResourceType") G_Interface;
  targetDeviceName ← value_or (get_optional get_wstring) j (str "targetDeviceName") None;
  Settings ← value_or get_NetworkInterface j (str "Settings") (mk_network_interface false 0 0);
  Return (mk_endpoint_setting RequestType ResourceType Settings targetDeviceName).

End Readers.

End HnsSchema.
