(* ===== verification/GnsEngine.v ===== *)
(** The network engine of the upstream init (src/src/linux/init/GnsEngine.cpp, StartGns of
    init.cpp): the messages of the host, finding interfaces, and what each message makes
    the network manager do.  The JSON library is an argument. *)
From stdpp Require Import gmap.
From S2P Require Import Prelude CStr CNum Strings Netlink NetRoute NetDevice NetManager HnsSchema.

Module GnsEngine.
Import Strings Netlink NetRoute NetDevice NetManager HnsSchema.

Definition LxGnsMessageInterfaceConfiguration : Z := 53.
Definition LxGnsMessageNotification : Z := 55.
Definition LxGnsMessageVmNicCreatedNotification : Z := 61.
Definition LxGnsMessageCreateDeviceRequest : Z := 62.
Definition LxGnsMessageModifyGuestDeviceSettingRequest : Z := 63.
Definition LxGnsMessageLoopbackRoutesRequest : Z := 64.
Definition LxGnsMessageDeviceSettingRequest : Z := 65.
Definition LxGnsMessageInitialIpConfigurationNotification : Z := 68.
Definition LxGnsMessageSetupIpv6 : Z := 69.
Definition LxGnsMessageNoOp : Z := 71.
Definition LxGnsMessageGlobalNetFilter : Z := 72.
Definition LxGnsMessageInterfaceNetFilter : Z := 73.
Definition LxGnsMessageConnectTestRequest : Z := 74.

Record Message : Type := mk_message { MessageType : Z; Json : bytes; AdapterId : option GUID }.

(** * Reading a notification *)
Definition read_guid (b : bytes) : GUID := mk_guid (get32 0 b) (get16 4 b) (get16 6 b) (take 8 (drop 8 b)).
(** The text between the fields and the last byte; a message that ends before it makes
    the string's constructor throw. *)
Definition read_content (offset : nat) (Span : bytes) : outcome bytes :=
  if (length Span <? offset + 1)%nat then Throw Std_error else Return (take (length Span - offset - 1) (drop offset Span)).
Definition json_messages : list Z :=
  [LxGnsMessageVmNicCreatedNotification; LxGnsMessageCreateDeviceRequest; LxGnsMessageModifyGuestDeviceSettingRequest; LxGnsMessageLoopbackRoutesRequest;
   LxGnsMessageInitialIpConfigurationNotification; LxGnsMessageInterfaceNetFilter; LxGnsMessageDeviceSettingRequest; LxGnsMessageSetupIpv6;
   LxGnsMessageConnectTestRequest].
Definition readNotification (Span : bytes) : outcome Message :=
  let type := get32 0 Span in
  if (type =? LxGnsMessageNoOp) || (type =? LxGnsMessageGlobalNetFilter) then Return (mk_message type [] None)
  else if type =? LxGnsMessageInterfaceConfiguration then c ← read_content 12 Span; Return (mk_message type c None)
  else if type =? LxGnsMessageNotification then c ← read_content 28 Span; Return (mk_message type c (Some (read_guid (drop 12 Span))))
  else if existsb (fun t => t =? type) json_messages then
    c ← read_content 12 Span; if is_empty c then Throw Runtime_error else Return (mk_message type c None)
  else Throw Runtime_error.

(** * Paths of the devices *)
Fixpoint last_component (p : bytes) : bytes :=
  match strchr c_slash p with None => p | Some _ => match p with [] => [] | _ :: p' => last_component p' end end.
Definition filename : bytes -> bytes := last_component.
Definition without_slashes (p : bytes) : bytes := rev (drop_while (fun c => c =? c_slash) (rev p)).
Definition parent_path (p : bytes) : bytes :=
  let directory := take (length p - length (filename p)) p in
  match without_slashes directory with [] => take 1 directory | d => d end.
(** The identifier of the device that a name in /sys/class/net links to. *)
Definition device_guid (symlink : bytes) : option GUID :=
  let adapterName := filename symlink in
  let symlink := if (3 <? length adapterName)%nat && starts_with (str "wlan") adapterName then parent_path (parent_path symlink) else symlink in
  let device := parent_path (parent_path symlink) in
  let deviceGuid := filename device in
  ToGuid (if (6 <? length deviceGuid)%nat && starts_with (str "virtio") deviceGuid then filename (parent_path (parent_path (parent_path device))) else deviceGuid).
Definition guid_eqb (a b : GUID) : bool := (Data1 a =? Data1 b) && (Data2 a =? Data2 b) && (Data3 a =? Data3 b) && list_eqb (Data4 a) (Data4 b).

(** * Commands of the packet filter *)
Definition c_ipStrings : list bytes := [str "ip"; str "ip6"].
Definition quoted (s : bytes) : bytes := [c_quote] ++ s ++ [c_quote].
Definition global_filter_commands (ip : bytes) : list bytes :=
  [str "nft add table " ++ ip ++ str " filter";
   str "nft " ++ quoted (str "add chain " ++ ip ++ str " filter WSLOUTPUT { type filter hook output priority filter; }");
   str "nft add rule " ++ ip ++ str " filter WSLOUTPUT counter mark set 0x1";
   str "nft add table " ++ ip ++ str " nat";
   str "nft " ++ quoted (str "add chain " ++ ip ++ str " nat WSLPOSTROUTING { type nat hook postrouting priority srcnat - 1; }")].
Definition snat_command (ip name protocol : bytes) (first last : Z) : bytes :=
  str "nft add rule " ++ ip ++ str " nat WSLPOSTROUTING oif " ++ name ++ [c_space] ++ protocol ++
  str " sport 1-65535 mark != 0x1 counter masquerade to :" ++ dec first ++ [c_dash] ++ dec last.
Definition list_chain_command (ip : bytes) : bytes := str "nft -a list chain " ++ ip ++ str " nat WSLPOSTROUTING".
Definition delete_command (ip : bytes) (handle : Z) : bytes := str "nft delete rule " ++ ip ++ str " nat WSLPOSTROUTING handle " ++ dec handle.

(** The search for oif, the quoted name, anything on the line, handle and a number; a
    name is taken literally, as names of letters, digits, - and _ are. *)
Definition spaces1 (s : bytes) : option bytes := match s with c :: _ => if isspace c then Some (drop_while isspace s) else None | [] => None end.
(** The last place on the line. *)
Fixpoint last_handle (s : bytes) : option (bytes * bytes) :=
  match s with
  | [] => None
  | c :: s' =>
    match (if line_end c then None else last_handle s') with
    | Some r => Some r
    | None =>
      if starts_with (str "handle") s then
        match spaces1 (drop 6 s) with
        | Some t => if is_empty (take_while isdigit t) then None else Some (take_while isdigit t, drop_while isdigit t)
        | None => None
        end
      else None
    end
  end.
Definition match_rule (name s : bytes) : option (bytes * bytes) :=
  if starts_with (str "oif") s then
    match spaces1 (drop 3 s) with
    | None => None
    | Some t =>
      if starts_with (quoted name) t then match spaces1 (drop (length (quoted name)) t) with Some t => last_handle t | None => None end else None
    end
  else None.
Fixpoint search_rules (fuel : nat) (name s : bytes) : list bytes :=
  match fuel with
  | O => []
  | S fuel' =>
    match match_rule name s with
    | Some (handle, rest) => handle :: search_rules fuel' name rest
    | None => match s with [] => [] | _ :: s' => search_rules fuel' name s' end
    end
  end.
Definition handleNumbers (name output : bytes) : outcome (list Z) :=
  let l := map (fun d => fst (scan_digits 10 0 d)) (search_rules (S (length output)) name output) in
  if forallb (fun h => h <=? INT_MAX) l then Return l else Throw Std_error.

(** UtilWinAfToLinuxAf. *)
Definition UtilWinAfToLinuxAf (WinAddressFamily : Z) : Z :=
  if u16 WinAddressFamily =? 2 then AF_INET else if u16 WinAddressFamily =? 23 then AF_INET6 else AF_UNSPEC.
Definition modify_operation (action : ModifyRequestType) : option Operation :=
  match action with Add => Some Create | R_Remove => Some Remove | R_Update => Some Update | _ => None end.

(** The file that ProcessDNSChange writes. *)
Definition resolv_conf (payload : hns_DNS) : bytes :=
  Options payload ++ flat_map (fun server => str "nameserver " ++ server ++ [c_nl]) (Split (ServerList payload) c_comma) ++
  (if is_empty (Domain payload) then [] else str "domain " ++ Domain payload ++ [c_nl]) ++
  (if is_empty (SearchList payload) then [] else str "search " ++ Strings.Join (Split (SearchList payload) c_comma) c_space ++ [c_nl]).

Section Engine.
Context (L : libc) (J : nlohmann).
Context {W : Type} (system : call -> W -> answer * W) (limit : nat) (m : NetworkManager).
Abbreviation M := (M (W := W)).

(** FromJson. *)
Definition FromJson {A} (get : json J -> outcome A) (text : bytes) : M A := lift (j ← parse J (to_cstr text); get j).

(** * Finding an interface *)
Definition GetAdapterId (path : bytes) : M (option GUID) :=
  a ← do system (Read_symlink path); mret (if ret a <? 0 then None else device_guid (data a)).
Fixpoint find_adapter (id : GUID) (entries : list bytes) (interfaceName : bytes) : M bytes :=
  match entries with
  | [] => mret interfaceName
  | path :: entries' =>
    adapterId ← GetAdapterId path;
    if match adapterId with Some g => guid_eqb g id | None => false end then
      if starts_with (str "_wlan") (filename path) then find_adapter id entries' (filename path) else mret (filename path)
    else find_adapter id entries' interfaceName
  end.
Definition OpenAdapterImpl (id : GUID) : M Interface :=
  d ← do system (Directory (str "/sys/class/net/"));
  if ret d <? 0 then throw Std_error
  else
    interfaceName ← find_adapter id (names d) [];
    if is_empty interfaceName then throw Runtime_error else OpenName system interfaceName.
Definition c_interfaceLookupTimeout : Z := 30000.
Definition c_interfaceLookupRetryPeriod : Z := 100.
Definition OpenAdapter (id : GUID) : M Interface := RetryWithTimeout system limit (OpenAdapterImpl id) c_interfaceLookupRetryPeriod c_interfaceLookupTimeout.
Definition OpenInterfaceImpl (deviceName : bytes) : M Interface := try (OpenName system deviceName) (fun _ => throw Runtime_error).
Definition OpenInterface (deviceName : bytes) : M Interface :=
  RetryWithTimeout system limit (OpenInterfaceImpl deviceName) c_interfaceLookupRetryPeriod c_interfaceLookupTimeout.
Definition OpenInterfaceOrAdapter (nameOrId : bytes) : M Interface :=
  match nameOrId with
  | c :: _ => if c =? 123 then match ToGuid nameOrId with Some id => OpenAdapter id | None => throw Std_error end else OpenInterface nameOrId
  | [] => OpenInterface nameOrId
  end.

(** * The changes of a notification *)
Definition ProcessIpAddressChange (i : Interface) (payload : hns_IPAddress) (action : ModifyRequestType) : M unit :=
  let addrFamily := UtilWinAfToLinuxAf (IpFamily payload) in
  if negb ((addrFamily =? AF_INET) || (addrFamily =? AF_INET6)) then throw Runtime_error
  else
    let a := new_address addrFamily (OnLinkPrefixLength payload) (IpText payload) (PrefixOrigin payload) (SuffixOrigin payload) (IpPreferredLifetime payload)
             <| IsPrefixRouteAutogenerationDisabled := true |> in
    match modify_operation action with Some operation => ModifyAddress L system limit m i a operation | None => throw Runtime_error end.
Definition LX_INIT_DEFAULT_ROUTE_PREFIX : bytes := str "0.0.0.0/0".
Definition LX_INIT_DEFAULT_ROUTE_V6_PREFIX : bytes := str "::/0".
Definition interface_route (i : Interface) (addrFamily : Z) (route : hns_Route) : outcome Route :=
  let defaultRoute := list_eqb (DestinationPrefix route) (if addrFamily =? AF_INET then LX_INIT_DEFAULT_ROUTE_PREFIX else LX_INIT_DEFAULT_ROUTE_V6_PREFIX) in
  to ← if defaultRoute then Return None else a ← FromPrefixString L addrFamily (DestinationPrefix route); Return (Some a);
  Return (mk_route addrFamily (Some (address_of addrFamily (SitePrefixLength route) (NextHop route))) (Index i) defaultRoute to (s32 (RouteMetric route)) false).
Definition ProcessRouteChange (i : Interface) (route : hns_Route) (action : ModifyRequestType) : M unit :=
  let addrFamily := UtilWinAfToLinuxAf (RouteFamily route) in
  if negb ((addrFamily =? AF_INET) || (addrFamily =? AF_INET6)) then throw Runtime_error
  else
    match action with
    | Reset => ResetRoutingTable L system limit m addrFamily i
    | _ =>
      r ← lift (interface_route i addrFamily route);
      match modify_operation action with Some operation => ManagerModifyRoute L system limit m r operation | None => throw Runtime_error end
    end.
Definition ProcessDNSChange (payload : hns_DNS) (action : ModifyRequestType) : M unit :=
  match action with
  | R_Remove => skip
  | R_Update | Add => a ← do system (Write_file (str "/etc/resolv.conf") (resolv_conf payload)); if ret a <? 0 then throw Std_error else skip
  | _ => throw Runtime_error
  end.
Definition ProcessMacAddressChange (i : Interface) (PhysicalAddress : bytes) : M unit :=
  match ParseMacAddressNoThrow PhysicalAddress c_dash with Some address => SetAdapterMacAddress system limit i address | None => throw Std_error end.
Definition ProcessLinkChange (i : Interface) (link : NetworkInterface) : M unit :=
  SetInterfaceState system i (if Connected link then Up else Down);;
  when (Connected link && negb (NlMtu link =? 0)) (SetMtu system limit i (NlMtu link));;
  when (Connected link && negb (LinkMetric link =? 0)) (SetMetric system limit i (LinkMetric link)).

(** ProcessNotificationImpl: the settings and the type of the request. *)
Definition with_settings {A} (get : json J -> outcome A) (payload : json J) (routine : A -> ModifyRequestType -> M unit) : M unit :=
  settings ← lift (j ← at_key J payload (str "Settings"); get j);
  action ← lift (j ← index J payload (str "RequestType"); get_ModifyRequestType J j);
  routine settings action.
Definition ProcessNotification (payload : json J) (i : Interface) : M unit :=
  if negb (contains J payload (str "ResourceType")) then throw Runtime_error
  else
    type ← lift (j ← index J payload (str "ResourceType"); get_GuestEndpointResourceType J j);
    match type with
    | G_Route => with_settings (get_Route J) payload (ProcessRouteChange i)
    | G_IPAddress => with_settings (get_IPAddress J) payload (ProcessIpAddressChange i)
    | G_MacAddress => with_settings (get_MacAddress J) payload (fun s _ => ProcessMacAddressChange i s)
    | G_DNS => with_settings (get_DNS J) payload ProcessDNSChange
    | G_Interface => with_settings (get_NetworkInterface J) payload (fun s _ => ProcessLinkChange i s)
    | G_Neighbor | G_Port => throw Runtime_error
    end.

(** * The messages *)
Definition handle_InterfaceConfiguration (endpoint : HNSEndpoint) : M unit :=
  i ← OpenAdapter (ID endpoint);
  let assignedName := PortFriendlyName endpoint in
  i ← (if is_empty assignedName || list_eqb assignedName (Name i) then mret i
       else if (3 <? length assignedName)%nat && starts_with (str "wlan") assignedName then
         let backingName := [95] ++ assignedName in
         SetAdapterName system limit i backingName;;
         i ← ManagerCreateVirtualWifiAdapter system limit i assignedName;
         backingInterface ← OpenName system backingName;
         SetInterfaceState system backingInterface Up;; mret i
       else SetAdapterName system limit i assignedName;; OpenName system assignedName);
  when (negb (is_empty (IPAddress endpoint))) (SetAdapterConfiguration L system limit i (IPAddress endpoint) (EndpointPrefixLength endpoint));;
  SetInterfaceState system i Up.
Definition handle_LoopbackRoutesRequest (request : LoopbackRoutesRequest) : M unit :=
  match LoopbackOperation request with
  | O_Update => skip
  | operation =>
    let addrFamily := UtilWinAfToLinuxAf (LoopbackFamily request) in
    if negb ((addrFamily =? AF_INET) || (addrFamily =? AF_INET6)) then throw Runtime_error
    else
      i ← OpenInterfaceOrAdapter (LoopbackDevice request);
      UpdateLoopbackRoute L system limit m i (address_of addrFamily (if addrFamily =? AF_INET then Ipv4MaxPrefixLen else Ipv6MaxPrefixLen) (LoopbackAddress request))
        (match operation with O_Create => Create | _ => Remove end)
  end.
Definition handle_InitialIpConfiguration (notification : InitialIpConfigurationNotification) : M unit :=
  i ← OpenInterfaceOrAdapter (InitialDevice notification);
  when (Z.land (InitialFlags notification) SkipPrimaryRoutingTableUpdate =? 0)
    (match FindRoutingTableIdForInterface i with Some table => ChangePrimaryRoutingTable table | None => throw Runtime_error end);;
  ResetIpv6State system i;;
  when (Z.land (InitialFlags notification) SkipLoopbackRouteReset =? 0) (ResetLoopbackRoutes L system limit m);;
  EnableIpv4ArpFilter system.
Definition run_command (command : bytes) : M unit :=
  '(r, _) ← UtilExecCommandLine system command false 0; if r <? 0 then throw Std_error else skip.
Definition handle_GlobalNetFilter : M unit := for_each (flat_map global_filter_commands c_ipStrings) run_command.
Definition remove_filter (name ip : bytes) : M unit :=
  '(r, listOutputString) ← UtilExecCommandLine system (list_chain_command ip) true 0;
  if r <? 0 then throw Std_error
  else handles ← lift (handleNumbers name listOutputString); for_each handles (fun handle => run_command (delete_command ip handle)).
Definition handle_InterfaceNetFilter (request : InterfaceNetFilterRequest) : M unit :=
  i ← OpenInterfaceOrAdapter (FilterDevice request);
  match FilterOperation request with
  | O_Create =>
    for_each c_ipStrings (fun ip => for_each [str "udp"; str "tcp"] (fun protocol =>
      run_command (snat_command ip (Name i) protocol (ephemeralPortRangeStart request) (ephemeralPortRangeEnd request))));;
    UpdateMirroredLoopbackRulesForInterface system limit m (Name i) Create
  | O_Remove => for_each c_ipStrings (remove_filter (Name i));; UpdateMirroredLoopbackRulesForInterface system limit m (Name i) Remove
  | O_Update => throw Runtime_error
  end.

(** The switch of ProcessNextMessage: the value that is returned to the host. *)
Definition process_message (message : Message) : M Z :=
  let type := MessageType message in
  if type =? LxGnsMessageNoOp then mret 0
  else if type =? LxGnsMessageNotification then
    id ← lift (value (AdapterId message)); i ← OpenAdapter id; j ← lift (parse J (Json message)); ProcessNotification j i;; mret 0
  else if type =? LxGnsMessageInterfaceConfiguration then endpoint ← FromJson (get_HNSEndpoint J) (Json message); handle_InterfaceConfiguration endpoint;; mret 0
  else if type =? LxGnsMessageVmNicCreatedNotification then
    adapterId ← FromJson (get_VmNicCreatedNotification J) (Json message); i ← OpenAdapter adapterId; EnableLoopbackRouting system i;; mret 0
  else if type =? LxGnsMessageCreateDeviceRequest then
    request ← FromJson (get_CreateDeviceRequest J) (Json message);
    match Device request with
    | Loopback =>
      id ← lift (value (lowerEdgeAdapterId request)); gelnic ← OpenAdapter id; InitializeLoopbackConfiguration L system limit m gelnic;; mret 0
    | _ => throw Runtime_error
    end
  else if type =? LxGnsMessageModifyGuestDeviceSettingRequest then
    request ← FromJson (get_ModifyGuestEndpointSettingRequest J) (Json message);
    match ResourceType request, targetDeviceName request with
    | G_Interface, Some name => i ← OpenInterfaceOrAdapter name; ProcessLinkChange i (Settings request);; mret 0
    | _, _ => mret 0
    end
  else if type =? LxGnsMessageLoopbackRoutesRequest then
    request ← FromJson (get_LoopbackRoutesRequest J) (Json message); handle_LoopbackRoutesRequest request;; mret 0
  else if type =? LxGnsMessageDeviceSettingRequest then
    j ← lift (parse J (Json message)); name ← lift (v ← at_key J j (str "targetDeviceName"); get_wstring J v);
    i ← OpenInterfaceOrAdapter name; ProcessNotification j i;; mret 0
  else if type =? LxGnsMessageInitialIpConfigurationNotification then
    notification ← FromJson (get_InitialIpConfigurationNotification J) (Json message); handle_InitialIpConfiguration notification;; mret 0
  else if type =? LxGnsMessageSetupIpv6 then DisableDAD system;; DisableRouterDiscovery system;; DisableIpv6AddressGeneration system;; mret 0
  else if type =? LxGnsMessageConnectTestRequest then
    '(v4, v6) ← SendConnectRequest system limit (to_cstr (Json message));
    mret (Z.lor (ConnCheckStatus_value v4) (Z.shiftl (ConnCheckStatus_value v6) 16))
  else if type =? LxGnsMessageGlobalNetFilter then handle_GlobalNetFilter;; mret 0
  else if type =? LxGnsMessageInterfaceNetFilter then
    request ← FromJson (get_InterfaceNetFilterRequest J) (Json message); handle_InterfaceNetFilter request;; mret 0
  else throw Runtime_error.

(** The next notification: the call fails when the channel throws, and returns 0 when it
    is closed. *)
Definition notificationRoutine : M (option Message) :=
  a ← do system Receive_notification;
  if ret a <? 0 then throw Std_error else if ret a =? 0 then mret None else message ← lift (readNotification (data a)); mret (Some message).
(** The status that is sent; the text of an error is left out. *)
Definition statusRoutine (Result : Z) : M unit := a ← do system (Send_status Result); if ret a <? 0 then throw Std_error else skip.
Definition ProcessNextMessage : M (bool * Z) :=
  payload ← notificationRoutine;
  match payload with None => mret (false, -1) | Some message => r ← process_message message; mret (true, r) end.
(** One turn of the loop: whether it goes on. *)
Definition turn : M bool :=
  try ('(should_continue, return_value) ← ProcessNextMessage;
       if should_continue : bool then statusRoutine return_value;; mret true else mret false)
    (fun _ => statusRoutine (-1);; mret true).
Fixpoint run (turns : nat) : M unit :=
  match turns with O => lift Waiting | S turns' => more ← turn; if more : bool then run turns' else skip end.
End Engine.

(** * StartGns *)
Section Start.
Context (L : libc) (J : nlohmann).
Context {W : Type} (system : call -> W -> answer * W) (limit : nat).
Abbreviation M := (M (W := W)).

(** A channel that is a member of the manager; its descriptor is not closed before the
    process ends. *)
Definition open_channel : M Z :=
  a ← Syscall system (Socket AF_NETLINK SOCK_RAW NETLINK_ROUTE);
  Syscall system (Bind_netlink (ret a) 0);; reset_sequence (ret a);; mret (ret a).
Definition new_manager : M NetworkManager :=
  routing ← open_channel; ChangePrimaryRoutingTable RT_TABLE_MAIN;;
  loopback ← open_channel; local ← open_channel; rules ← open_channel; neighbors ← open_channel;
  mret (mk_manager routing loopback local rules neighbors).
(** The constructor of the engine; the tunnel itself is not modelled. *)
Definition c_loopbackInterfaceName : bytes := str "lo".
Definition new_engine (m : NetworkManager) (dnsTunnelingFd : option Z) (dnsTunnelingIpAddress : bytes) : M unit :=
  match dnsTunnelingFd with
  | None => skip
  | Some _ => loInterface ← OpenName system c_loopbackInterfaceName; ModifyAddress L system limit m loInterface (address_of AF_INET 32 dnsTunnelingIpAddress) Create
  end.
Definition start_engine (turns : nat) (DnsFd : option Z) (DnsTunnelingIp : bytes) : M unit :=
  m ← new_manager; new_engine m DnsFd DnsTunnelingIp;; run L J system limit m turns.
End Start.

End GnsEngine.
