(* ===== verification/NetRouteThm.v ===== *)
(** Theorems on netlink (NetlinkThm): messages and attributes are read back as they were
    laid out, and a transaction takes its own responses and no others; and on routes
    (NetRouteThm): a route is listed as it was written. *)
From stdpp Require Import gmap.
From S2P Require Import Prelude CStr CNum Strings Netlink NetRoute.

Module NetlinkThm.
Import Netlink.

(** * Alignment *)
Lemma ALIGN_bounds n : 0 <= n < 2 ^ 32 - 3 -> n <= ALIGN n <= n + 3 /\ ALIGN n mod 4 = 0.
Proof. intros H. unfold ALIGN, u32. rewrite Z.mod_small by lia. split; [Z.to_euclidean_division_equations; lia|]. rewrite Z.mul_comm. apply Z.mod_mul. lia. Qed.
Lemma ALIGN_aligned n : 0 <= n < 2 ^ 32 - 3 -> n mod 4 = 0 -> ALIGN n = n.
Proof. intros H H4. destruct (ALIGN_bounds n H). Z.to_euclidean_division_equations; lia. Qed.

Lemma padded_length d : Z.of_nat (length d) < 2 ^ 32 - 3 -> Z.of_nat (length (padded d)) = ALIGN (Z.of_nat (length d)).
Proof. intros H. unfold padded. rewrite length_app, length_replicate. destruct (ALIGN_bounds (Z.of_nat (length d))); lia. Qed.
Lemma padded_aligned d : Z.of_nat (length d) < 2 ^ 32 - 3 -> Z.of_nat (length d) mod 4 = 0 -> padded d = d.
Proof. intros H H4. unfold padded. rewrite ALIGN_aligned by lia. by rewrite Z.sub_diag, app_nil_r. Qed.
Lemma drop_padded d rest : Z.of_nat (length d) < 2 ^ 32 - 3 -> drop (Z.to_nat (ALIGN (Z.of_nat (length d)))) (padded d ++ rest) = rest.
Proof. intros H. apply drop_app_length'. rewrite <-(padded_length d H). lia. Qed.
Lemma take_padded d rest : take (length d) (padded d ++ rest) = d.
Proof. unfold padded. rewrite <-!app_assoc. by rewrite take_app_length. Qed.

Lemma get_le_prefix n off d rest : (Z.to_nat off + n <= length d)%nat -> get_le n off (d ++ rest) = get_le n off d.
Proof. intros H. unfold get_le. f_equal. rewrite drop_app_le by lia. rewrite take_app_le; [done|]. rewrite length_drop. lia. Qed.
Lemma get_le_padded n off d rest : (Z.to_nat off + n <= length d)%nat -> get_le n off (padded d ++ rest) = get_le n off d.
Proof. intros H. unfold padded. rewrite <-app_assoc. by apply get_le_prefix. Qed.

(** * Messages *)
Definition is_message (m : bytes) : Prop := nlmsg_len m = Z.of_nat (length m) /\ (16 <= length m)%nat /\ Z.of_nat (length m) < 2 ^ 31.
Definition datagram (l : list bytes) : bytes := flat_map padded l.

Lemma nlmsg_walk_padded l fuel : Forall is_message l -> (length l < fuel)%nat -> Z.of_nat (length (datagram l)) < 2 ^ 63 ->
  nlmsg_walk fuel (datagram l) (Z.of_nat (length (datagram l))) = Return (l, 0).
Proof.
  intros Hl. revert fuel. induction Hl as [|m l (Hlen & Hge & Hlt) Hl IH]; intros [|fuel] Hf Hs; cbn [length] in Hf; try lia; [done|].
  cbn [datagram flat_map] in *. fold (datagram l) in *. set (r := padded m ++ datagram l) in *.
  assert (Hr : Z.of_nat (length r) = ALIGN (Z.of_nat (length m)) + Z.of_nat (length (datagram l))).
  { unfold r. rewrite length_app, Nat2Z.inj_add, padded_length by lia. done. }
  destruct (ALIGN_bounds (Z.of_nat (length m)) ltac:(lia)) as [Ha _].
  cbn [nlmsg_walk]. unfold NLMSG_HDRLEN. rewrite !(proj2 (Z.ltb_ge _ _)) by lia. cbv zeta.
  assert (Hn : nlmsg_len r = Z.of_nat (length m)) by (unfold nlmsg_len, get32, r in *; rewrite get_le_padded by (change (Z.to_nat 0) with O; lia); exact Hlen).
  rewrite Hn, !(proj2 (Z.ltb_ge _ _)) by lia. cbn [orb].
  assert (Hd : drop (Z.to_nat (ALIGN (Z.of_nat (length m)))) r = datagram l) by (unfold r; apply drop_padded; lia).
  rewrite Hd. unfold u64. rewrite Z.mod_small by lia.
  replace (Z.of_nat (length r) - ALIGN (Z.of_nat (length m))) with (Z.of_nat (length (datagram l))) by lia.
  rewrite IH by lia. unfold mbind, outcome_bind, r. by rewrite Nat2Z.id, take_padded.
Qed.
Lemma datagram_length l : Forall is_message l -> (length l <= length (datagram l))%nat.
Proof.
  induction 1 as [|m l (_ & H16 & Hlt) _ IH]; [done|]. cbn [datagram flat_map length]. rewrite length_app. fold (datagram l).
  enough (1 <= length (padded m))%nat by lia. unfold padded. rewrite length_app. lia.
Qed.
Lemma walk_padded l : Forall is_message l -> Z.of_nat (length (datagram l)) < 2 ^ 63 -> walk (datagram l) = Return (l, 0).
Proof. intros Hl Hs. unfold walk. apply nlmsg_walk_padded; [done| |done]. pose proof (datagram_length l Hl). lia. Qed.
Lemma Messages_padded type l : Forall is_message l -> Z.of_nat (length (datagram l)) < 2 ^ 63 ->
  Messages type (datagram l) = Return (List.filter (fun m => nlmsg_type m =? type) l).
Proof. intros Hl Hs. unfold Messages. by rewrite walk_padded. Qed.

Lemma nlmsg_length type flags seq pid p : length (nlmsg type flags seq pid p) = (16 + length p)%nat.
Proof. unfold nlmsg. rewrite !length_app, !le_bytes_length. lia. Qed.
Lemma nlmsg_fields type flags seq pid p rest : Z.of_nat (length p) < 2 ^ 31 ->
  nlmsg_len (nlmsg type flags seq pid p ++ rest) = 16 + Z.of_nat (length p) /\ nlmsg_type (nlmsg type flags seq pid p ++ rest) = u16 type /\
  nlmsg_flags (nlmsg type flags seq pid p ++ rest) = u16 flags /\ nlmsg_seq (nlmsg type flags seq pid p ++ rest) = u32 seq /\
  drop 16 (nlmsg type flags seq pid p ++ rest) = p ++ rest.
Proof.
  intros H. unfold nlmsg_len, nlmsg_type, nlmsg_flags, nlmsg_seq, nlmsg, NLMSG_HDRLEN. rewrite <-!app_assoc. repeat split; read_field; try done.
Qed.
Lemma nlmsg_is_message type flags seq pid p : Z.of_nat (length p) < 2 ^ 31 - 16 -> is_message (nlmsg type flags seq pid p).
Proof.
  intros H. unfold is_message. rewrite nlmsg_length. destruct (nlmsg_fields type flags seq pid p [] ltac:(lia)) as [Hl _].
  rewrite app_nil_r in Hl. rewrite Hl. lia.
Qed.

(** * Attributes *)
Definition is_attribute (a : bytes) : Prop := rta_len a = Z.of_nat (length a) /\ (4 <= length a)%nat /\ Z.of_nat (length a) < 2 ^ 16.
(** What the pointers to the data of the attributes of a type show. *)
Fixpoint pointers (type : Z) (l : list bytes) : list bytes :=
  match l with
  | [] => []
  | a :: l' => if rta_type a =? type then (drop 4 a ++ drop (length a) (padded a) ++ datagram l') :: pointers type l' else pointers type l'
  end.

Lemma attributes_padded l fuel size type : Forall is_attribute l -> Forall (fun a => rta_type a = type -> size <= Z.of_nat (length a)) l ->
  (length l < fuel)%nat -> Z.of_nat (length (datagram l)) < 2 ^ 31 ->
  attributes_loop fuel size type (datagram l) (Z.of_nat (length (datagram l))) = Return (pointers type l).
Proof.
  intros Hl. revert fuel. induction Hl as [|a l (Hlen & Hge & Hlt) Hl IH]; intros [|fuel] Hsz Hf Hs; cbn [length] in Hf; try lia; [done|].
  inversion_clear Hsz as [|? ? Ha Hsz']. cbn [datagram flat_map] in *. fold (datagram l) in *. set (r := padded a ++ datagram l) in *.
  assert (Hr : Z.of_nat (length r) = ALIGN (Z.of_nat (length a)) + Z.of_nat (length (datagram l))).
  { unfold r. rewrite length_app, Nat2Z.inj_add, padded_length by lia. done. }
  destruct (ALIGN_bounds (Z.of_nat (length a)) ltac:(lia)) as [Hb _].
  cbn [attributes_loop]. rewrite !(proj2 (Z.ltb_ge _ 4)) by lia.
  assert (Hn : rta_len r = Z.of_nat (length a)) by (unfold rta_len, get16, r in *; rewrite get_le_padded by (change (Z.to_nat 0) with O; lia); exact Hlen).
  assert (Ht : rta_type r = rta_type a) by (unfold rta_type, get16, r; apply get_le_padded; change (Z.to_nat 2) with 2%nat; lia).
  rewrite Hn, Ht, !(proj2 (Z.ltb_ge _ _)) by lia. cbn [orb]. cbv zeta.
  assert (Hd : drop (Z.to_nat (ALIGN (Z.of_nat (length a)))) r = datagram l) by (unfold r; apply drop_padded; lia).
  rewrite Hd. unfold u64. rewrite Z.mod_small by lia.
  replace (Z.of_nat (length r) - ALIGN (Z.of_nat (length a))) with (Z.of_nat (length (datagram l))) by lia.
  rewrite IH by (done || lia). cbn [pointers]. destruct (Z.eqb_spec (rta_type a) type) as [E|E]; [|done].
  rewrite (proj2 (Z.ltb_ge _ _)) by auto. unfold mbind, outcome_bind. do 2 f_equal. unfold r, padded. rewrite drop_app_length, <-app_assoc.
  rewrite drop_app_le by lia. done.
Qed.

Lemma attribute_length type v : length (attribute type v) = (4 + length v)%nat.
Proof. unfold attribute, rtattr. rewrite !length_app, !le_bytes_length. lia. Qed.
Lemma rtattr_fields len type v rest : 0 <= len < 2 ^ 16 -> rta_len (rtattr len type v ++ rest) = len /\ rta_type (rtattr len type v ++ rest) = u16 type.
Proof. intros H. unfold rta_len, rta_type, rtattr. rewrite <-!app_assoc. split; read_field; done. Qed.
Lemma attribute_type type v : rta_type (attribute type v) = u16 type.
Proof. unfold rta_type, attribute, rtattr. read_field. done. Qed.
Lemma attribute_is_attribute type v : Z.of_nat (length v) < 2 ^ 16 - 4 -> is_attribute (attribute type v).
Proof.
  intros H. unfold is_attribute. rewrite attribute_length. split; [|lia]. unfold attribute, RTA_LENGTH.
  destruct (rtattr_fields (4 + Z.of_nat (length v)) type v [] ltac:(lia)) as [E _]. rewrite app_nil_r in E. rewrite E. lia.
Qed.
Lemma IntegerAttribute_length v type : length (IntegerAttribute v type) = 8%nat.
Proof. unfold IntegerAttribute. by rewrite attribute_length, le_bytes_length. Qed.
Lemma drop_attribute type v : drop 4 (attribute type v) = v.
Proof. done. Qed.

(** A message of a structure and attributes. *)
Definition body (header : bytes) (attributes : list bytes) : bytes := header ++ datagram attributes.
Lemma Attributes_padded type flags seq pid header l size t : Forall is_attribute l -> Forall (fun a => rta_type a = t -> size <= Z.of_nat (length a)) l ->
  Z.of_nat (length header) mod 4 = 0 -> Z.of_nat (length (body header l)) < 2 ^ 31 ->
  Attributes (Z.of_nat (length header)) size t (nlmsg type flags seq pid (body header l)) = Return (pointers t l).
Proof.
  intros Hl Hsz H4 Hlen. unfold Attributes. rewrite nlmsg_length. unfold body in *. rewrite length_app in *.
  destruct (nlmsg_fields type flags seq pid (header ++ datagram l) [] ltac:(rewrite length_app; lia)) as (Hn & _ & _ & _ & Hd). rewrite !app_nil_r in Hn, Hd.
  assert ((Z.of_nat (length header) + 16) mod 4 = 0) by (Z.to_euclidean_division_equations; lia).
  rewrite Hn, (ALIGN_aligned (Z.of_nat (length header))), (ALIGN_aligned (Z.of_nat (length header) + 16)) by lia.
  rewrite length_app. replace (Z.to_nat (16 + Z.of_nat (length header))) with (16 + length header)%nat by lia. rewrite <-drop_drop, Hd, app_nil_r, drop_app_length.
  unfold u64. rewrite Z.mod_small by lia.
  replace (16 + Z.of_nat (length header + length (datagram l)) - (Z.of_nat (length header) + 16)) with (Z.of_nat (length (datagram l))) by lia.
  apply attributes_padded; [done..| |lia].
  enough (length l <= length (datagram l))%nat by lia.
  clear -Hl. induction Hl as [|a l (_ & H & _) _ IH]; [done|]. cbn [datagram flat_map length]. rewrite length_app. fold (datagram l).
  unfold padded. rewrite length_app. lia.
Qed.
Lemma UniqueAttribute_padded type flags seq pid header l size t : Forall is_attribute l -> Forall (fun a => rta_type a = t -> size <= Z.of_nat (length a)) l ->
  Z.of_nat (length header) mod 4 = 0 -> Z.of_nat (length (body header l)) < 2 ^ 31 ->
  UniqueAttribute (Z.of_nat (length header)) size t (nlmsg type flags seq pid (body header l)) =
  match pointers t l with [] => Return None | [a] => Return (Some a) | _ => Throw Runtime_error end.
Proof. intros. unfold UniqueAttribute. by rewrite Attributes_padded. Qed.
Lemma Payload_nlmsg type flags seq pid header l : Z.of_nat (length (body header l)) < 2 ^ 31 ->
  Payload (Z.of_nat (length header)) (nlmsg type flags seq pid (body header l)) = Return (body header l).
Proof.
  intros H. unfold Payload, NLMSG_HDRLEN. rewrite nlmsg_length. destruct (nlmsg_fields type flags seq pid (body header l) [] ltac:(lia)) as (_ & _ & _ & _ & Hd).
  rewrite !app_nil_r in Hd. rewrite Hd. unfold body in *. rewrite length_app in *. by rewrite (proj2 (Z.ltb_ge _ _)) by lia.
Qed.

Lemma pointers_cons t k v l : pointers t (attribute k v :: l) =
  if u16 k =? t then (v ++ drop (4 + length v) (padded (attribute k v)) ++ datagram l) :: pointers t l else pointers t l.
Proof. cbn [pointers]. by rewrite attribute_type, drop_attribute, attribute_length. Qed.
Lemma read_bytes_app (v rest : bytes) n : length v = n -> read_bytes n (v ++ rest) = Return v.
Proof. intros <-. unfold read_bytes. rewrite length_app, (proj2 (Nat.ltb_ge _ _)) by lia. by rewrite take_app_length. Qed.
Lemma s32_u32 v : INT_MIN <= v <= INT_MAX -> s32 (v mod 2 ^ 32) = v.
Proof.
  unfold INT_MIN, INT_MAX, s32. intros H. destruct (Z.le_gt_cases 0 v).
  - rewrite Z.mod_small by lia. by rewrite (proj2 (Z.ltb_lt _ _)) by lia.
  - rewrite <-(Z.mod_add v 1), Z.mod_small by lia. rewrite (proj2 (Z.ltb_ge _ _)); lia.
Qed.
Lemma read_int_app v rest : INT_MIN <= v <= INT_MAX -> read_int (le_bytes 4 v ++ rest) = Return v.
Proof.
  intros H. unfold read_int. rewrite read_bytes_app by apply le_bytes_length. unfold mbind, outcome_bind, get32. rewrite get_le_head_nil.
  change (256 ^ Z.of_nat 4) with (2 ^ 32). by rewrite s32_u32.
Qed.

(** * Transactions that are acknowledged *)
Definition ack (seq error : Z) (request : bytes) : bytes := nlmsg NLMSG_ERROR 0 seq 0 (le_bytes 4 error ++ take 16 request).
Section Ack.
Context (seq error : Z) (request : bytes).
Context (Hseq : 0 <= seq < 2 ^ 32) (Herror : INT_MIN <= error <= INT_MAX) (Hrequest : (16 <= length request)%nat).
Lemma ack_length : length (ack seq error request) = 36%nat.
Proof. unfold ack. rewrite nlmsg_length, length_app, le_bytes_length, length_take. lia. Qed.
Lemma ack_walk : walk (ack seq error request) = Return ([ack seq error request], 0).
Proof.
  assert (Hp : padded (ack seq error request) = ack seq error request) by (apply padded_aligned; rewrite ack_length; [lia|done]).
  rewrite <-Hp at 1. rewrite <-(app_nil_r (padded _)). apply (walk_padded [ack seq error request]).
  - constructor; [|constructor]. apply nlmsg_is_message. rewrite length_app, le_bytes_length, length_take. lia.
  - cbn [datagram flat_map]. rewrite app_nil_r, Hp, ack_length. lia.
Qed.
Lemma ack_fields : nlmsg_type (ack seq error request) = NLMSG_ERROR /\ nlmsg_flags (ack seq error request) = 0 /\ nlmsg_seq (ack seq error request) = seq /\
  drop 16 (ack seq error request) = le_bytes 4 error ++ take 16 request.
Proof.
  unfold ack. destruct (nlmsg_fields NLMSG_ERROR 0 seq 0 (le_bytes 4 error ++ take 16 request) []) as (_ & Ht & Hf & Hs & Hd);
    [rewrite length_app, le_bytes_length, length_take; lia|].
  rewrite !app_nil_r in *. rewrite Ht, Hf, Hs, Hd. repeat split; try done. unfold u32. by rewrite Z.mod_small.
Qed.
Lemma ack_Sequence : Sequence (ack seq error request) = Return seq.
Proof. destruct ack_fields as (_ & _ & Hs & _). unfold Sequence. by rewrite ack_length, Hs. Qed.
Lemma ack_MultiMessage : MultiMessage (ack seq error request) = Return false.
Proof. destruct ack_fields as (_ & Hf & _). unfold MultiMessage. rewrite ack_walk. unfold mbind, outcome_bind. cbn [existsb]. by rewrite Hf. Qed.
Lemma ack_ThrowIfErrorFound : ThrowIfErrorFound (ack seq error request) = if error =? 0 then Return tt else Throw (Netlink_error error).
Proof.
  destruct ack_fields as (Ht & _ & _ & Hd). unfold ThrowIfErrorFound, Messages. rewrite ack_walk. unfold mbind, outcome_bind.
  change (negb (0 =? 0)) with false. cbv iota. cbn [List.filter]. rewrite Ht. change (NLMSG_ERROR =? NLMSG_ERROR) with true. cbv iota.
  cbn [throw_first_error]. unfold Payload, NLMSG_HDRLEN, sizeof_nlmsgerr. rewrite ack_length. change (Z.of_nat 36 <? 16 + 20) with false. cbv iota.
  unfold mbind, outcome_bind. rewrite Hd. unfold get32. rewrite get_le_head. change (256 ^ Z.of_nat 4) with (2 ^ 32). rewrite s32_u32 by done.
  by destruct (error =? 0).
Qed.
End Ack.

#[export] Hint Rewrite nlmsg_length attribute_length IntegerAttribute_length : len.
#[global] Arguments ThrowIfErrorFound : simpl never.
#[global] Arguments MultiMessage : simpl never.
#[global] Arguments Sequence : simpl never.
#[global] Arguments pad : simpl never.

(** One transaction on a system that acknowledges the request. *)
Section Transaction.
Context {W : Type} (system : call -> W -> answer * W).
Lemma run_do c s : do system c s = (Return (fst (system c (world s))), s <| world := snd (system c (world s)) |> <| calls := calls s ++ [c] |>).
Proof. unfold do. by destruct (system c (world s)). Qed.
Lemma run_Syscall c s : 0 <= ret (fst (system c (world s))) ->
  Syscall system c s = (Return (fst (system c (world s))), s <| world := snd (system c (world s)) |> <| calls := calls s ++ [c] |>).
Proof. intros H. unfold Syscall, mbind, M_bind. rewrite run_do. by rewrite (proj2 (Z.ltb_ge _ _)). Qed.

(** The system answers three calls: the request is taken, and the next response is [d]. *)
Definition responds (channel : Z) (request d : bytes) (w w' : W) : Prop :=
  exists w0 w1 a0 a1 a2, system (Sendto channel request) w = (a0, w0) /\ 0 <= ret a0 /\
    system (Recvmsg_peek channel) w0 = (a1, w1) /\ ret a1 = Z.of_nat (length d) /\
    system (Recvfrom channel (Z.of_nat (length d))) w1 = (a2, w') /\ ret a2 = Z.of_nat (length d) /\ data a2 = d.

Lemma Execute_acknowledged limit t s w' error : responds (m_channel t) (m_request t) (ack (m_seq t) error (m_request t)) (world s) w' ->
  0 <= m_seq t < 2 ^ 32 -> INT_MIN <= error <= INT_MAX -> (16 <= length (m_request t))%nat ->
  exists l, Execute_ system (S limit) t s =
    (if error =? 0 then Return tt else Throw (Transaction_error (Some error)), s <| world := w' |> <| calls := calls s ++ l |>).
Proof.
  intros (w0 & w1 & a0 & a1 & a2 & E0 & H0 & E1 & H1 & E2 & H2 & Hd) Hs He Hr.
  pose proof (ack_Sequence (m_seq t) error (m_request t) Hs Hr) as F1.
  pose proof (ack_ThrowIfErrorFound (m_seq t) error (m_request t) Hs He Hr) as F2.
  pose proof (ack_MultiMessage (m_seq t) error (m_request t) Hs Hr) as F3.
  remember (ack (m_seq t) error (m_request t)) as d eqn:Ed. clear Ed.
  exists [Sendto (m_channel t) (m_request t); Recvmsg_peek (m_channel t); Recvfrom (m_channel t) (Z.of_nat (length d))].
  unfold Execute_, Execute. unfold mbind at 1, M_bind at 1. rewrite run_Syscall by (by rewrite E0). rewrite E0. cbn [fst snd].
  unfold try. cbn [receive_loop]. unfold ReceiveNetlinkResponse. unfold mbind, M_bind.
  rewrite run_Syscall by (cbn; rewrite E1; cbn; lia). cbn. rewrite E1. cbn [fst snd]. rewrite H1.
  rewrite run_Syscall by (cbn; rewrite E2; cbn; lia). cbn. rewrite E2. cbn [fst snd]. rewrite H2, Z.eqb_refl. cbn [negb].
  assert (Hp : pad (Z.to_nat (Z.of_nat (length d))) (data a2) = d) by (rewrite Hd, Nat2Z.id; unfold pad; by rewrite take_app_length).
  unfold lift, mret, M_ret. rewrite Hp, F1, Z.eqb_refl, F2, F3. cbn [negb]. rewrite <-!app_assoc. cbn [app].
  destruct (Z.eqb_spec error 0) as [->|Hne]; done.
Qed.
End Transaction.
End NetlinkThm.

Module NetRouteThm.
Import Netlink NetRoute NetlinkThm.

Section Libc.
Context (L : libc).

(** An address that the C library reads and prints again. *)
Definition address_ok (family : Z) (a : Address) : Prop :=
  Family a = family /\ 0 <= PrefixLength a < 256 /\
  exists b, inet_pton L family (Addr a) = (1, b) /\ length b = address_size family /\ inet_ntop L family b = Some (Addr a).
Definition family_ok (family : Z) : Prop := family = AF_INET \/ family = AF_INET6.

Lemma address_size_bound family : (4 <= address_size family <= 16)%nat.
Proof. unfold address_size. destruct (family =? AF_INET); lia. Qed.
Lemma pton_ok family a : address_ok family a -> exists b, pton L (Family a) (Addr a) = Return b /\ length b = address_size family /\ inet_ntop L family b = Some (Addr a).
Proof.
  intros (<- & _ & b & Hp & Hl & Hn). exists b. unfold pton. rewrite Hp. repeat split; [|done..].
  change (1 <? 0) with false. cbv iota. f_equal. unfold pad. rewrite <-Hl. by rewrite take_app_length.
Qed.
Lemma FromBinary_ok family prefix b s rest : family_ok family -> length b = address_size family -> inet_ntop L family b = Some s ->
  FromBinary L family prefix (b ++ rest) = Return (address_of family prefix s).
Proof.
  intros Hf Hl Hn. unfold FromBinary. replace (negb ((family =? AF_INET) || (family =? AF_INET6))) with false by (by destruct Hf as [-> | ->]).
  rewrite read_bytes_app by done. unfold mbind, outcome_bind. by rewrite Hn.
Qed.
Lemma AddressAttribute_ok family a type : address_ok family a ->
  exists b, AddressAttribute L a type = Return (attribute type b) /\ length b = address_size family /\ inet_ntop L family b = Some (Addr a).
Proof. intros Ha. destruct (pton_ok family a Ha) as (b & Hp & Hl). exists b. unfold AddressAttribute. by rewrite Hp. Qed.

Lemma rtmsg_length family d s t p sc ty f : length (rtmsg family d s t p sc ty f) = 12%nat.
Proof. done. Qed.
Lemma rtmsg_first family d s t p sc ty f rest : nth 0 (rtmsg family d s t p sc ty f ++ rest) 0 = u8 family /\ nth 1 (rtmsg family d s t p sc ty f ++ rest) 0 = u8 d.
Proof. done. Qed.

(** * Attributes of a route *)
Ltac pointer_steps :=
  rewrite ?pointers_cons; repeat match goal with |- context [u16 ?a =? ?b] => let r := eval vm_compute in (u16 a =? b) in change (u16 a =? b) with r; cbv iota end.

Definition aligned (l : list bytes) : Prop := Forall (fun a => is_attribute a /\ Z.of_nat (length a) mod 4 = 0 /\ (8 <= length a <= 20)%nat) l.
Lemma datagram_aligned l : aligned l -> datagram l = concat l.
Proof.
  induction 1 as [|a l ((_ & _ & Hlt) & H4 & _) _ IH]; [done|]. cbn [datagram flat_map concat]. fold (datagram l). rewrite IH. f_equal. apply padded_aligned; [lia|done].
Qed.
Lemma aligned_is_attribute l : aligned l -> Forall is_attribute l.
Proof. intros H. eapply Forall_impl; [exact H|]. by intros ? []. Qed.
Lemma aligned_length l : aligned l -> (length (datagram l) <= 20 * length l)%nat.
Proof.
  intros H. rewrite (datagram_aligned l H). induction H as [|a l (_ & _ & Ha) _ IH]; [done|]. cbn [concat length]. rewrite length_app. lia.
Qed.
Lemma integer_aligned v t : is_attribute (IntegerAttribute v t) /\ Z.of_nat (length (IntegerAttribute v t)) mod 4 = 0 /\ (8 <= length (IntegerAttribute v t) <= 20)%nat.
Proof. split; [apply attribute_is_attribute; rewrite le_bytes_length; lia|]. rewrite IntegerAttribute_length. split; [done|lia]. Qed.
Lemma address_aligned family b t : length b = address_size family ->
  is_attribute (attribute t b) /\ Z.of_nat (length (attribute t b)) mod 4 = 0 /\ (8 <= length (attribute t b) <= 20)%nat.
Proof.
  intros H. pose proof (address_size_bound family). split; [apply attribute_is_attribute; lia|]. rewrite attribute_length, H. split; [|lia]. unfold address_size.
  by destruct (family =? AF_INET).
Qed.

Lemma rtmsg_unique type flags seq pid family d s tb p sc ty f l size t : aligned l -> size <= 8 -> (length l <= 10)%nat ->
  UniqueAttribute sizeof_rtmsg size t (nlmsg type flags seq pid (body (rtmsg family d s tb p sc ty f) l)) =
  match pointers t l with [] => Return None | [a] => Return (Some a) | _ => Throw Runtime_error end.
Proof.
  intros Ha Hs Hl. change sizeof_rtmsg with (Z.of_nat (length (rtmsg family d s tb p sc ty f))). apply UniqueAttribute_padded; [by apply aligned_is_attribute| |done|].
  - eapply Forall_impl; [exact Ha|]. cbn. lia.
  - unfold body. rewrite length_app, rtmsg_length. pose proof (aligned_length l Ha). lia.
Qed.

Lemma rtmsg_payload type flags seq pid family d s tb p sc ty f l : Z.of_nat (length (body (rtmsg family d s tb p sc ty f) l)) < 2 ^ 31 ->
  Payload sizeof_rtmsg (nlmsg type flags seq pid (body (rtmsg family d s tb p sc ty f) l)) = Return (body (rtmsg family d s tb p sc ty f) l).
Proof. apply (Payload_nlmsg type flags seq pid (rtmsg family d s tb p sc ty f)). Qed.

(** What the attributes of a type show: an address, or a number. *)
Definition shows_address (family t : Z) (l : list bytes) (o : option bytes) : Prop :=
  match o with
  | None => pointers t l = []
  | Some s => exists b rest, pointers t l = [b ++ rest] /\ length b = address_size family /\ inet_ntop L family b = Some s
  end.
Definition shows_int (t : Z) (l : list bytes) (default v : Z) : Prop :=
  (pointers t l = [] /\ v = default) \/ (exists rest, pointers t l = [le_bytes 4 v ++ rest] /\ INT_MIN <= v <= INT_MAX).
Lemma read_optional_int_shows type flags seq pid family d s tb p sc ty f l t default v : aligned l -> (length l <= 10)%nat -> shows_int t l default v ->
  read_optional_int sizeof_rtmsg t default (nlmsg type flags seq pid (body (rtmsg family d s tb p sc ty f) l)) = Return v.
Proof.
  intros Ha Hl H. unfold read_optional_int. rewrite rtmsg_unique by (done || lia). destruct H as [[-> ->]|(rest & -> & Hv)]; unfold mbind, outcome_bind; [done|].
  by apply read_int_app.
Qed.
Lemma read_optional_address_shows type flags seq pid family d s tb p sc ty f l t o : family_ok family -> 0 <= d < 256 -> aligned l -> (length l <= 10)%nat ->
  shows_address family t l o ->
  read_optional_address L (nlmsg type flags seq pid (body (rtmsg family d s tb p sc ty f) l)) (body (rtmsg family d s tb p sc ty f) l) t =
  Return (option_map (address_of family d) o).
Proof.
  intros Hf Hd Ha Hl H. unfold read_optional_address. rewrite rtmsg_unique by (done || (unfold sizeof_pointer; lia)).
  unfold body at 1 2. destruct (rtmsg_first family d s tb p sc ty f (datagram l)) as [-> ->].
  replace (u8 family) with family by (by destruct Hf as [-> | ->]). unfold u8. rewrite Z.mod_small by lia.
  destruct o as [x|]; cbn in H; [|by rewrite H]. destruct H as (b & rest & -> & Hb & Hn). unfold mbind, outcome_bind. by rewrite (FromBinary_ok family d b x rest).
Qed.
Lemma process_route_shows family table type flags seq pid f d p sc ty fl extra dst gw device metric : family_ok f -> 0 <= d < 256 -> aligned extra -> (length extra <= 3)%nat ->
  INT_MIN <= table <= INT_MAX -> INT_MIN <= device <= INT_MAX -> pointers RTA_TABLE extra = [] -> pointers RTA_OIF extra = [] ->
  shows_address f RTA_DST extra dst -> shows_address f RTA_GATEWAY extra gw -> shows_int RTA_PRIORITY extra 0 metric -> family = AF_UNSPEC \/ family = f ->
  process_route L family table (nlmsg type flags seq pid (body (rtmsg f d 0 0 p sc ty fl) (IntegerAttribute table RTA_TABLE :: IntegerAttribute device RTA_OIF :: extra))) =
  Return [mk_route f (option_map (address_of f d) gw) device (match dst with None => true | _ => false end) (option_map (address_of f d) dst) metric false].
Proof.
  intros Hf Hd Ha Hl Ht Hdev Ht0 Ho0 Hdst Hgw Hm Hfam. set (l := IntegerAttribute table RTA_TABLE :: IntegerAttribute device RTA_OIF :: extra).
  assert (Hal : aligned l) by (do 2 (constructor; [apply integer_aligned|]); exact Ha).
  assert (Hll : (length l <= 10)%nat) by (cbn; lia).
  assert (Hbl : Z.of_nat (length (body (rtmsg f d 0 0 p sc ty fl) l)) < 2 ^ 31).
  { unfold body. rewrite length_app, rtmsg_length. pose proof (aligned_length l Hal). lia. }
  unfold process_route. rewrite rtmsg_payload by done.
  unfold mbind, outcome_bind at 1. rewrite rtmsg_unique by (done || lia).
  assert (Hp : forall t, u16 RTA_TABLE =? t = false -> u16 RTA_OIF =? t = false -> pointers t l = pointers t extra).
  { intros t E1 E2. unfold l, IntegerAttribute. by rewrite !pointers_cons, E1, E2. }
  replace (pointers RTA_TABLE l) with [le_bytes 4 table ++ drop (4 + length (le_bytes 4 table)) (padded (attribute RTA_TABLE (le_bytes 4 table))) ++ datagram (IntegerAttribute device RTA_OIF :: extra)]
    by (unfold l, IntegerAttribute; pointer_steps; by rewrite Ht0).
  assert (Hn : nth 0 (body (rtmsg f d 0 0 p sc ty fl) l) 0 = f) by (transitivity (u8 f); [done|by destruct Hf as [-> | ->]]).
  unfold outcome_bind at 1. rewrite Hn.
  replace (negb (family =? AF_UNSPEC) && negb (family =? f)) with false by (destruct Hfam as [-> | ->]; [done|rewrite Z.eqb_refl; by rewrite andb_false_r]).
  rewrite read_int_app by done. unfold outcome_bind at 1. rewrite Z.eqb_refl. cbn [negb].
  rewrite (read_optional_address_shows type flags seq pid f d 0 0 p sc ty fl l RTA_DST dst) by (done || (destruct dst; cbn in *; by rewrite Hp)).
  unfold outcome_bind at 1.
  rewrite (read_optional_int_shows type flags seq pid f d 0 0 p sc ty fl l RTA_OIF (-1) device);
    [|done..|right; eexists; split; [unfold l, IntegerAttribute; pointer_steps; by rewrite Ho0|done]].
  unfold outcome_bind at 1.
  rewrite (read_optional_int_shows type flags seq pid f d 0 0 p sc ty fl l RTA_PRIORITY 0 metric) by (done || (unfold shows_int in *; by rewrite Hp)).
  unfold outcome_bind at 1.
  rewrite (read_optional_address_shows type flags seq pid f d 0 0 p sc ty fl l RTA_GATEWAY gw) by (done || (destruct gw; cbn in *; by rewrite Hp)).
  unfold outcome_bind at 1. by destruct dst.
Qed.
End Libc.

(** What ListRoutes finds for a route: the gateway has the prefix of the destination, and
    what the request does not carry is missing. *)
Definition listed (r : Route) : Route :=
  let length := match to r with Some t => PrefixLength t | None => 0 end in
  let at_ a := address_of (r_family r) length (Addr a) in
  if isLoopbackRoute r then mk_route (r_family r) (option_map at_ (via r)) (dev r) false (option_map at_ (to r)) 0 false
  else if defaultRoute r then mk_route (r_family r) (option_map at_ (via r)) (dev r) true None (metric r) false
  else mk_route (r_family r) (if IsOnlink r then None else option_map at_ (via r)) (dev r) false (option_map at_ (to r)) (metric r) false.

Section Written.
Context (L : libc).

(** A route as the engine makes it: addresses of its family, numbers that fit, and the
    addresses that its shape needs. *)
Definition optional_ok (family : Z) (o : option Address) : Prop := match o with Some a => address_ok L family a | None => True end.
Definition route_ok (r : Route) : Prop :=
  family_ok (r_family r) /\ INT_MIN <= dev r <= INT_MAX /\ INT_MIN <= metric r <= INT_MAX /\
  optional_ok (r_family r) (via r) /\ optional_ok (r_family r) (to r) /\
  match to r with Some a => Addr a = str "127.0.0.0" -> address_ok L (r_family r) c_ipv4LoopbackRouteSource | None => True end /\
  (if isLoopbackRoute r then via r <> None /\ to r <> None else if defaultRoute r then via r <> None else to r <> None).

Lemma IsMulticast_ok r : optional_ok (r_family r) (to r) -> exists b, IsMulticast L r = Return b.
Proof.
  unfold IsMulticast. destruct (to r) as [a|]; cbn; [|by eexists]. intros Ha. destruct (pton_ok L _ a Ha) as (b & -> & _). by eexists.
Qed.
Lemma route_message_body table r operation more ex : optional_ok (r_family r) (to r) -> aligned ex -> exists p sc ty f,
  route_message L table r operation (Return (more, concat ex)) =
  Return (body (rtmsg (r_family r) (match to r with Some t => PrefixLength t | None => 0 end) 0 0 p sc ty f)
            (IntegerAttribute table RTA_TABLE :: IntegerAttribute (dev r) RTA_OIF :: ex)).
Proof.
  intros Hto Hex. destruct (IsMulticast_ok r Hto) as [b Hb]. unfold route_message. rewrite Hb. unfold mbind, outcome_bind.
  do 4 eexists. unfold body. rewrite datagram_aligned; [reflexivity|]. do 2 (constructor; [apply integer_aligned|]). exact Hex.
Qed.

Lemma shows_address_here family t b s k : inet_ntop L family b = Some s -> length b = address_size family ->
  forall l, pointers t l = [] -> u16 k =? t = true -> shows_address L family t (attribute k b :: l) (Some s).
Proof. intros Hn Hb l Hl Hk. unfold shows_address. rewrite pointers_cons, Hk, Hl. by do 2 eexists. Qed.
Lemma shows_metric v : INT_MIN <= v <= INT_MAX -> shows_int RTA_PRIORITY [IntegerAttribute v RTA_PRIORITY] 0 v.
Proof. intros Hv. right. unfold IntegerAttribute. rewrite pointers_cons. change (u16 RTA_PRIORITY =? RTA_PRIORITY) with true. by eexists. Qed.
Lemma shows_skip_address family t k v l o : u16 k =? t = false -> shows_address L family t l o -> shows_address L family t (attribute k v :: l) o.
Proof. intros Hk. unfold shows_address. by rewrite pointers_cons, Hk. Qed.
Lemma shows_skip_int t k v l d x : u16 k =? t = false -> shows_int t l d x -> shows_int t (attribute k v :: l) d x.
Proof. intros Hk. unfold shows_int. by rewrite pointers_cons, Hk. Qed.

(** The four shapes of a request: each is a message whose attributes are listed. *)
Definition listed_as (table : Z) (r : Route) (action : Operation) : Prop :=
  exists message, modify_route_message L table r action = Return message /\
    forall family type flags seq pid, family = AF_UNSPEC \/ family = r_family r ->
      process_route L family table (nlmsg type flags seq pid message) = Return [listed r].
Definition dst_length (r : Route) : Z := match to r with Some t => PrefixLength t | None => 0 end.
Lemma dst_length_ok r : route_ok r -> 0 <= dst_length r < 256.
Proof. intros (_ & _ & _ & _ & Ht & _). unfold dst_length. destruct (to r); [|lia]. by destruct Ht as (_ & ? & _). Qed.
Lemma listed_shape table r action operation more ex dst gw metric' : route_ok r -> INT_MIN <= table <= INT_MAX -> aligned ex -> (length ex <= 3)%nat ->
  modify_route_message L table r action = route_message L table r operation (Return (more, concat ex)) ->
  pointers RTA_TABLE ex = [] -> pointers RTA_OIF ex = [] ->
  shows_address L (r_family r) RTA_DST ex dst -> shows_address L (r_family r) RTA_GATEWAY ex gw -> shows_int RTA_PRIORITY ex 0 metric' ->
  listed r = mk_route (r_family r) (option_map (address_of (r_family r) (dst_length r)) gw) (dev r) (match dst with None => true | _ => false end)
               (option_map (address_of (r_family r) (dst_length r)) dst) metric' false ->
  listed_as table r action.
Proof.
  intros Hr Ht Hex Hl Hmsg H1 H2 Hdst Hgw Hm E. pose proof (dst_length_ok r Hr) as Hd. destruct Hr as (Hf & Hdev & _ & _ & Hto & _).
  destruct (route_message_body table r operation more ex Hto Hex) as (p & sc & ty & f & Hb). unfold listed_as. rewrite Hmsg, Hb. eexists. split; [reflexivity|].
  intros family type flags seq pid Hfam. rewrite E. by apply process_route_shows.
Qed.
Lemma aligned_one family b t l : length b = address_size family -> aligned l -> aligned (attribute t b :: l).
Proof. intros H Hl. constructor; [by apply (address_aligned family)|done]. Qed.
Lemma aligned_metric v t : aligned [IntegerAttribute v t].
Proof. constructor; [apply integer_aligned|constructor]. Qed.

Lemma loopback_listed table r action : route_ok r -> INT_MIN <= table <= INT_MAX -> isLoopbackRoute r = true -> listed_as table r action.
Proof.
  intros Hr Ht El. pose proof Hr as (Hf & Hdev & _ & Hvia & Hto & Hsrc & Hshape). rewrite El in Hshape.
  destruct (via r) as [v|] eqn:Ev; [|by destruct Hshape]. destruct (to r) as [a|] eqn:Ea; [|by destruct Hshape]. cbn in Hvia, Hto.
  set (source := if list_eqb (Addr a) (str "127.0.0.0") then c_ipv4LoopbackRouteSource else a).
  assert (Hsource : address_ok L (r_family r) source).
  { unfold source. destruct (list_eqb (Addr a) (str "127.0.0.0")) eqn:E; [apply Hsrc; by apply list_eqb_eq|done]. }
  destruct (AddressAttribute_ok L _ source RTA_PREFSRC Hsource) as (sb & Es & Hsb & _).
  destruct (AddressAttribute_ok L _ a RTA_DST Hto) as (tb & Et & Htb & Htn). destruct (AddressAttribute_ok L _ v RTA_GATEWAY Hvia) as (vb & Evb & Hvb & Hvn).
  apply (listed_shape table r action (route_operation action) RTNH_F_ONLINK [attribute RTA_DST tb; attribute RTA_GATEWAY vb; attribute RTA_PREFSRC sb]
    (Some (Addr a)) (Some (Addr v)) 0); [done..| |cbn; lia| | | | | | |].
  - do 3 (eapply aligned_one; [done|]). constructor.
  - unfold modify_route_message. rewrite El, Ea, Ev. f_equal. unfold loopback_route_attributes, value. rewrite Ea, Ev. unfold mbind, outcome_bind. fold source.
    rewrite Es, Et, Evb. cbn [concat]. by rewrite app_nil_r.
  - by rewrite !pointers_cons.
  - by rewrite !pointers_cons.
  - apply shows_address_here; [done..| |done]. by rewrite !pointers_cons.
  - apply shows_skip_address; [done|]. apply shows_address_here; [done..| |done]. by rewrite !pointers_cons.
  - left. by rewrite !pointers_cons.
  - unfold listed, dst_length. by rewrite El, Ev, Ea.
Qed.
Lemma default_listed table r action : route_ok r -> INT_MIN <= table <= INT_MAX -> isLoopbackRoute r = false -> defaultRoute r = true -> listed_as table r action.
Proof.
  intros Hr Ht El Ed. pose proof Hr as (Hf & Hdev & Hm & Hvia & Hto & _ & Hshape). rewrite El, Ed in Hshape.
  destruct (via r) as [v|] eqn:Ev; [|done]. cbn in Hvia.
  destruct (AddressAttribute_ok L _ v RTA_GATEWAY Hvia) as (vb & Evb & Hvb & Hvn).
  apply (listed_shape table r action (route_operation action) 0 [attribute RTA_GATEWAY vb; IntegerAttribute (metric r) RTA_PRIORITY]
    None (Some (Addr v)) (metric r)); [done..| |cbn; lia| | | | | | |].
  - eapply aligned_one; [done|]. apply aligned_metric.
  - unfold modify_route_message. rewrite El, Ed, Ev. f_equal. unfold default_route_attributes, value. rewrite Ev. unfold mbind, outcome_bind. rewrite Evb.
    cbn [concat]. by rewrite app_nil_r.
  - by unfold IntegerAttribute; rewrite !pointers_cons.
  - by unfold IntegerAttribute; rewrite !pointers_cons.
  - by unfold IntegerAttribute, shows_address; rewrite !pointers_cons.
  - apply shows_address_here; [done..| |done]. by unfold IntegerAttribute; rewrite !pointers_cons.
  - apply shows_skip_int; [done|]. by apply shows_metric.
  - unfold listed, dst_length. by rewrite El, Ed, Ev.
Qed.
Lemma other_listed table r action : route_ok r -> INT_MIN <= table <= INT_MAX -> isLoopbackRoute r = false -> defaultRoute r = false -> listed_as table r action.
Proof.
  intros Hr Ht El Ed. pose proof Hr as (Hf & Hdev & Hm & Hvia & Hto & _ & Hshape). rewrite El, Ed in Hshape.
  destruct (to r) as [a|] eqn:Ea; [|done]. cbn in Hto. destruct (AddressAttribute_ok L _ a RTA_DST Hto) as (tb & Et & Htb & Htn).
  destruct (IsOnlink r) eqn:Eo.
  - apply (listed_shape table r action (route_operation action) 0 [attribute RTA_DST tb; IntegerAttribute (metric r) RTA_PRIORITY]
      (Some (Addr a)) None (metric r)); [done..| |cbn; lia| | | | | | |].
    + eapply aligned_one; [done|]. apply aligned_metric.
    + unfold modify_route_message. rewrite El, Ed, Eo. f_equal. unfold link_local_route_attributes, value. rewrite Ea. unfold mbind, outcome_bind. rewrite Et.
      cbn [concat]. by rewrite app_nil_r.
    + by unfold IntegerAttribute; rewrite !pointers_cons.
    + by unfold IntegerAttribute; rewrite !pointers_cons.
    + apply shows_address_here; [done..| |done]. by unfold IntegerAttribute; rewrite !pointers_cons.
    + by unfold IntegerAttribute, shows_address; rewrite !pointers_cons.
    + apply shows_skip_int; [done|]. by apply shows_metric.
    + unfold listed, dst_length. by rewrite El, Ed, Ea, Eo.
  - destruct (via r) as [v|] eqn:Ev; [|unfold IsOnlink in Eo; by rewrite Ev in Eo]. cbn in Hvia.
    destruct (AddressAttribute_ok L _ v RTA_GATEWAY Hvia) as (vb & Evb & Hvb & Hvn).
    apply (listed_shape table r action (route_operation action) 0 [attribute RTA_DST tb; attribute RTA_GATEWAY vb; IntegerAttribute (metric r) RTA_PRIORITY]
      (Some (Addr a)) (Some (Addr v)) (metric r)); [done..| |cbn; lia| | | | | | |].
    + do 2 (eapply aligned_one; [done|]). apply aligned_metric.
    + unfold modify_route_message. rewrite El, Ed, Eo, Ev. f_equal. unfold offlink_route_attributes, value. rewrite Ea, Ev. unfold mbind, outcome_bind.
      rewrite Et, Evb. cbn [concat]. by rewrite app_nil_r.
    + by unfold IntegerAttribute; rewrite !pointers_cons.
    + by unfold IntegerAttribute; rewrite !pointers_cons.
    + apply shows_address_here; [done..| |done]. by unfold IntegerAttribute; rewrite !pointers_cons.
    + apply shows_skip_address; [done|]. apply shows_address_here; [done..| |done]. by unfold IntegerAttribute; rewrite !pointers_cons.
    + do 2 (apply shows_skip_int; [done|]). by apply shows_metric.
    + unfold listed, dst_length. by rewrite El, Ed, Ea, Eo, Ev.
Qed.
End Written.

(** What an address says of a network. *)
Definition network (a : Address) : Z * Z * bytes := (Family a, PrefixLength a, Addr a).
Lemma address_of_network L family a : address_ok L family a -> network (address_of family (PrefixLength a) (Addr a)) = network a.
Proof. intros (<- & H & _). unfold network, address_of, new_address, u32. cbn. by rewrite Z.mod_small by lia. Qed.
Lemma listed_to L r : route_ok L r ->
  option_map network (to (listed r)) = if defaultRoute r && negb (isLoopbackRoute r) then None else option_map network (to r).
Proof.
  intros (_ & _ & _ & _ & Ht & _). unfold listed. destruct (isLoopbackRoute r), (defaultRoute r); cbn [to andb negb]; try done.
  all: destruct (to r) as [a|]; cbn; [by rewrite (address_of_network L)|done].
Qed.
Lemma listed_via r :
  option_map Addr (via (listed r)) =
    (if IsOnlink r && negb (defaultRoute r) && negb (isLoopbackRoute r) then None else option_map Addr (via r)) /\
  forall g, via (listed r) = Some g -> PrefixLength g = u32 (match to r with Some a => PrefixLength a | None => 0 end).
Proof.
  unfold listed. destruct (isLoopbackRoute r), (defaultRoute r), (IsOnlink r); cbn [via andb negb].
  all: split; [by destruct (via r)|]; intros g; destruct (via r); cbn; by intros [= <-].
Qed.

(** C35: A route is listed as it was written: for every route that the engine makes, in
    each of its four shapes, with addresses that parse and are in the form that they are
    printed in, ModifyRoute lays out a request, and ListRoutes finds in a message with
    the same contents one route: of the family, on the interface and, but for a default
    route, to the destination and prefix that were asked for; with the gateway's
    address, unless the route is on-link, but with the prefix of the destination
    (RoutingTable.cpp:45); with the metric, which a loopback route does not carry; and
    marked as default when it was one, never as loopback.  A text that is no address
    would be written as zeros (text_sent_as_zeros). *)
Theorem route_written_listed (L : libc) (table : Z) (r : Route) (action : Operation) (family type flags seq pid : Z) :
  route_ok L r -> INT_MIN <= table <= INT_MAX -> family = AF_UNSPEC \/ family = r_family r ->
  exists message r', modify_route_message L table r action = Return message /\
    process_route L family table (nlmsg type flags seq pid message) = Return [r'] /\
    r_family r' = r_family r /\ dev r' = dev r /\
    option_map network (to r') = (if defaultRoute r && negb (isLoopbackRoute r) then None else option_map network (to r)) /\
    (option_map Addr (via r') =
       (if IsOnlink r && negb (defaultRoute r) && negb (isLoopbackRoute r) then None else option_map Addr (via r)) /\
     forall g, via r' = Some g -> PrefixLength g = u32 (match to r with Some a => PrefixLength a | None => 0 end)) /\
    metric r' = (if isLoopbackRoute r then 0 else metric r) /\
    defaultRoute r' = defaultRoute r && negb (isLoopbackRoute r) /\ isLoopbackRoute r' = false.
Proof.
  intros Hr Ht Hf. enough (listed_as L table r action) as (message & Hm & Hp).
  { exists message, (listed r). rewrite (listed_to L) by done. pose proof (listed_via r).
    split_and!; try apply H; auto; unfold listed; by destruct (isLoopbackRoute r), (defaultRoute r). }
  destruct (isLoopbackRoute r) eqn:El; [by apply loopback_listed|]. destruct (defaultRoute r) eqn:Ed; [by apply default_listed|by apply other_listed].
Qed.
(** Addresses of four numbers, for the examples. *)
Definition dotted : libc := mk_libc
  (fun family s => match Strings.Split s c_dot with [a; b; c; d] => (1, map (fun n => fst (scan_digits 10 0 n)) [a; b; c; d]) | _ => (0, []) end)
  (fun family b => Some (Strings.Join (map dec b) c_dot)).
Definition example_route : Route :=
  mk_route AF_INET (Some (address_of AF_INET 24 (str "10.0.0.1"))) 3 false (Some (address_of AF_INET 16 (str "10.1.0.0"))) 100 false.
Lemma route_written_listed_witness :
  exists message r', modify_route_message dotted 254 example_route Create = Return message /\
    process_route dotted AF_UNSPEC 254 (nlmsg RTM_NEWROUTE 0 7 0 message) = Return [r'] /\
    option_map network (to r') = Some (AF_INET, 16, str "10.1.0.0") /\ option_map Addr (via r') = Some (str "10.0.0.1").
Proof.
  destruct (route_written_listed dotted 254 example_route Create AF_UNSPEC RTM_NEWROUTE 0 7 0) as (message & r' & H1 & H2 & _ & _ & H3 & (H4 & _) & _).
  - repeat split; cbn; try (unfold INT_MIN, INT_MAX; lia); try done; try (by left); try (eexists; vm_compute; done).
  - unfold INT_MIN, INT_MAX; lia.
  - by left.
  - exists message, r'. split_and!; [exact H1|exact H2|rewrite H3; reflexivity|rewrite H4; reflexivity].
Defined.

(** Texts that are not what they should be: one that is no address is sent as zeros, a
    prefix may be too long and be followed by anything, and there is no broadcast address
    for short prefixes. *)
Example text_sent_as_zeros : AddressAttribute dotted (address_of AF_INET 24 (str "gateway")) RTA_DST = Return (attribute RTA_DST [0; 0; 0; 0]).
Proof. by vm_compute. Qed.
Example prefix_not_checked : FromPrefixString dotted AF_INET (str "10.0.0.0/999 and more") = Return (address_of AF_INET 999 (str "10.0.0.0")).
Proof. by vm_compute. Qed.
Example short_prefix_undefined : ComputeBroadcastAddress dotted (address_of AF_INET 1 (str "10.0.0.1")) = Undefined.
Proof. by vm_compute. Qed.
End NetRouteThm.
