(* ===== verification/GnsEngineThm.v ===== *)
(** Theorems on the network manager (NetManagerThm): the rules of mirrored networking are
    the documented ones; and on the network engine (GnsEngineThm): every message of the
    host is answered once. *)
From stdpp Require Import gmap.
From S2P Require Import Prelude CStr CNum Strings Netlink NetRoute NetDevice NetManager HnsSchema GnsEngine NetRouteThm.

Module NetManagerThm.
Import Netlink NetRoute NetDevice NetManager NetlinkThm NetRouteThm.

(** * A table of rules *)

(** A line of "ip rule show": no name and no protocol stand for all of them. *)
Record entry : Type := mk_entry { e_priority : Z; e_iif : bytes; e_protocol : option Protocol; e_table : Z }.

(** A new rule comes after the rules of its priority; a request to delete takes the first
    rule that has everything that the request names. *)
Definition add_rule (e : entry) (l : list entry) : list entry :=
  take_while (fun x => e_priority x <=? e_priority e) l ++ e :: drop_while (fun x => e_priority x <=? e_priority e) l.
Definition matches (e x : entry) : bool :=
  (e_priority x =? e_priority e) && (e_table x =? e_table e) && (is_empty (e_iif e) || list_eqb (e_iif e) (e_iif x)) &&
  match e_protocol e with None => true | Some p => bool_decide (e_protocol x = Some p) end.
Fixpoint delete_rule (e : entry) (l : list entry) : list entry :=
  match l with [] => [] | x :: l' => if matches e x then l' else x :: delete_rule e l' end.
(** The error of the acknowledgement and the rules afterwards. *)
Definition apply_request (create : bool) (e : entry) (l : list entry) : Z * list entry :=
  if create then (0, add_rule e l) else (if existsb (matches e) l then 0 else - ENOENT, delete_rule e l).

(** What a request asks for, read from its bytes. *)
Fixpoint parse_attributes (fuel : nat) (b : bytes) : list (Z * bytes) :=
  match fuel with
  | O => []
  | S fuel' =>
    if (length b <? 4)%nat || (rta_len b <? 4) then []
    else (rta_type b, take (Z.to_nat (rta_len b) - 4) (drop 4 b)) :: parse_attributes fuel' (drop (Z.to_nat (ALIGN (rta_len b))) b)
  end.
Definition attribute_of (t : Z) (l : list (Z * bytes)) : option bytes := option_map snd (List.find (fun a => fst a =? t) l).
Definition protocol_of (o : option bytes) : option Protocol :=
  match o with Some b => if nth 0 b 0 =? IPPROTO Tcp then Some Tcp else if nth 0 b 0 =? IPPROTO Udp then Some Udp else None | None => None end.
Definition requested (m : bytes) : option (bool * entry) :=
  let l := parse_attributes (length m) (drop 28 m) in
  if (nth 16 m 0 =? AF_INET) && ((nlmsg_type m =? RTM_NEWRULE) || (nlmsg_type m =? RTM_DELRULE)) then
    match attribute_of FRA_TABLE l, attribute_of FRA_PRIORITY l with
    | Some t, Some p =>
      Some (nlmsg_type m =? RTM_NEWRULE, mk_entry (get32 0 p) (match attribute_of FRA_IIFNAME l with Some n => to_cstr n | None => [] end)
              (protocol_of (attribute_of FRA_IP_PROTO l)) (get32 0 t))
    | _, _ => None
    end
  else None.

(** What the manager relies on: a system that keeps a table of rules and acknowledges
    each request on the channel. *)
Class RuleSystem {W : Type} (system : call -> W -> answer * W) (channel : Z) (rules : W -> list entry) : Prop :=
  rule_request m create e w : (16 <= length m)%nat -> requested m = Some (create, e) ->
    exists w', responds system channel m (ack (nlmsg_seq m) (fst (apply_request create e (rules w))) m) w w' /\
               rules w' = snd (apply_request create e (rules w)).

(** * Reading the requests *)
Lemma parse_attributes_padded l fuel : Forall is_attribute l -> (length l < fuel)%nat ->
  parse_attributes fuel (datagram l) = map (fun a => (rta_type a, drop 4 a)) l.
Proof.
  intros Hl. revert fuel. induction Hl as [|a l (Hlen & Hge & Hlt) Hl IH]; intros [|fuel] Hf; cbn [length] in Hf; try lia; [done|].
  cbn [datagram flat_map map parse_attributes] in *. fold (datagram l) in *.
  assert (Hn : rta_len (padded a ++ datagram l) = Z.of_nat (length a)) by (unfold rta_len, get16 in *; rewrite get_le_padded by (change (Z.to_nat 0) with O; lia); exact Hlen).
  assert (Ht : rta_type (padded a ++ datagram l) = rta_type a) by (unfold rta_type, get16; apply get_le_padded; change (Z.to_nat 2) with 2%nat; lia).
  rewrite Hn, Ht, drop_padded by lia. rewrite (proj2 (Nat.ltb_ge _ _)), (proj2 (Z.ltb_ge _ _)) by (unfold padded; rewrite ?length_app; lia). cbn [orb].
  rewrite IH by lia. do 2 f_equal. unfold padded. rewrite <-app_assoc, drop_app_le by lia. rewrite Nat2Z.id, take_app_le by (rewrite length_drop; lia).
  apply take_ge. rewrite length_drop. lia.
Qed.

(** The attributes of a rule: an interface's name is padded within its attribute. *)
Definition name_attribute (name : bytes) : bytes := padded (rtattr (RTA_SPACE (Z.of_nat (length name))) FRA_IIFNAME name).
Definition rule_attributes (e : entry) : list bytes :=
  [IntegerAttribute (e_table e) FRA_TABLE; IntegerAttribute (e_priority e) RTA_PRIORITY] ++
  match e_protocol e with Some p => [attribute FRA_IP_PROTO (le_bytes 1 (IPPROTO p))] | None => [] end ++
  (if is_empty (e_iif e) then [] else [name_attribute (e_iif e)]).
Definition entry_ok (e : entry) : Prop :=
  0 <= e_table e < 2 ^ 31 /\ 0 <= e_priority e < 2 ^ 31 /\ (length (e_iif e) < 16)%nat /\ no_nul (e_iif e).
Definition rule_message (e : entry) : bytes := body (rule_header AF_INET 0) (rule_attributes e).
Definition request_type (create : bool) : Z := if create then RTM_NEWRULE else RTM_DELRULE.

Lemma name_attribute_ok n : (length n < 16)%nat -> no_nul n ->
  is_attribute (name_attribute n) /\ padded (name_attribute n) = name_attribute n /\ (length (name_attribute n) <= 20)%nat /\
  rta_type (name_attribute n) = FRA_IIFNAME /\ to_cstr (drop 4 (name_attribute n)) = n.
Proof.
  intros Hl Hn. assert (Hr : length (rtattr (RTA_SPACE (Z.of_nat (length n))) FRA_IIFNAME n) = (4 + length n)%nat)
    by (unfold rtattr; rewrite !length_app, !le_bytes_length; lia).
  destruct (ALIGN_bounds (4 + Z.of_nat (length n)) ltac:(lia)) as [Ha H4].
  assert (Hp : Z.of_nat (length (name_attribute n)) = RTA_SPACE (Z.of_nat (length n)))
    by (unfold name_attribute; rewrite padded_length, Hr by (rewrite Hr; lia); unfold RTA_SPACE, RTA_LENGTH; f_equal; lia).
  assert (Hb : RTA_SPACE (Z.of_nat (length n)) <= 20) by (unfold RTA_SPACE, RTA_LENGTH in *; Z.to_euclidean_division_equations; lia).
  unfold RTA_SPACE, RTA_LENGTH in *.
  destruct (rtattr_fields (ALIGN (4 + Z.of_nat (length n))) FRA_IIFNAME n
    (replicate (Z.to_nat (ALIGN (Z.of_nat (4 + length n)) - Z.of_nat (4 + length n))) 0) ltac:(lia)) as [H1 H2].
  assert (E : name_attribute n = rtattr (ALIGN (4 + Z.of_nat (length n))) FRA_IIFNAME n ++ replicate (Z.to_nat (ALIGN (Z.of_nat (4 + length n)) - Z.of_nat (4 + length n))) 0)
    by (unfold name_attribute, RTA_SPACE, RTA_LENGTH, padded in *; by rewrite Hr).
  rewrite <-E in H1, H2. split; [|split; [apply padded_aligned; rewrite Hp; [lia|exact H4]|split; [lia|split; [exact H2|]]]].
  - unfold is_attribute. rewrite H1, Hp. lia.
  - rewrite E. change (drop 4 (rtattr (ALIGN (4 + Z.of_nat (length n))) FRA_IIFNAME n ++ ?r)) with (n ++ r).
    destruct (Z.to_nat _) as [|k]; cbn [replicate]; [rewrite app_nil_r; by apply to_cstr_all|by apply to_cstr_app_nul].
Qed.
Lemma rule_attributes_ok e : entry_ok e -> Forall is_attribute (rule_attributes e) /\ (length (datagram (rule_attributes e)) <= 48)%nat.
Proof.
  intros (_ & _ & Hl & Hn). destruct (name_attribute_ok (e_iif e) Hl Hn) as (H1 & H2 & H3 & _). split.
  - unfold rule_attributes. apply Forall_app_2; [|apply Forall_app_2]; [do 2 (constructor; [apply integer_aligned|]); constructor| |].
    + destruct (e_protocol e); [apply Forall_singleton; by apply attribute_is_attribute|constructor].
    + destruct (is_empty (e_iif e)); [constructor|by apply Forall_singleton].
  - unfold rule_attributes, datagram. rewrite !flat_map_app, !length_app. change (length (flat_map padded [_; _])) with 16%nat.
    destruct (e_protocol e) as [[]|], (is_empty (e_iif e)); cbn [flat_map]; rewrite ?H2, ?app_nil_r; cbn [length] in *; try lia;
      change (length (padded _)) with 8%nat; lia.
Qed.
Lemma get32_small v : 0 <= v < 2 ^ 31 -> get32 0 (le_bytes 4 v) = v.
Proof. intros H. unfold get32. rewrite get_le_head_nil. change (256 ^ Z.of_nat 4) with (2 ^ 32). rewrite Z.mod_small; lia. Qed.
(** The attributes as pairs of a type and data. *)
Lemma rule_pairs e : entry_ok e -> map (fun a => (rta_type a, drop 4 a)) (rule_attributes e) =
  [(FRA_TABLE, le_bytes 4 (e_table e)); (FRA_PRIORITY, le_bytes 4 (e_priority e))] ++
  match e_protocol e with Some p => [(FRA_IP_PROTO, le_bytes 1 (IPPROTO p))] | None => [] end ++
  (if is_empty (e_iif e) then [] else [(FRA_IIFNAME, drop 4 (name_attribute (e_iif e)))]).
Proof.
  intros (_ & _ & H3 & H4). destruct (name_attribute_ok (e_iif e) H3 H4) as (_ & _ & _ & N1 & _). unfold rule_attributes, IntegerAttribute. rewrite !map_app.
  cbn [map]. rewrite !attribute_type. destruct (e_protocol e), (is_empty (e_iif e)); cbn [map]; by rewrite ?attribute_type, ?N1.
Qed.
Lemma rule_message_length e : length (rule_message e) = (12 + length (datagram (rule_attributes e)))%nat.
Proof. unfold rule_message, body. by rewrite length_app. Qed.
Lemma requested_rule create e flags seq : entry_ok e -> requested (nlmsg (request_type create) flags seq 0 (rule_message e)) = Some (create, e).
Proof.
  intros He. destruct (rule_attributes_ok e He) as [Ha Hlen]. unfold requested.
  pose proof (rule_message_length e) as Hm.
  destruct (nlmsg_fields (request_type create) flags seq 0 (rule_message e) [] ltac:(lia)) as (_ & Ht & _ & _ & Hd). rewrite !app_nil_r in Ht, Hd. rewrite app_nil_r in Hd.
  assert (H28 : drop 28 (nlmsg (request_type create) flags seq 0 (rule_message e)) = datagram (rule_attributes e))
    by (change 28%nat with (16 + 12)%nat; by rewrite <-drop_drop, Hd).
  rewrite H28, Ht.
  rewrite parse_attributes_padded; [|done|].
  2: { rewrite nlmsg_length, Hm. enough (length (rule_attributes e) <= 4)%nat by lia. unfold rule_attributes. rewrite !length_app.
       destruct (e_protocol e), (is_empty (e_iif e)); cbn; lia. }
  change (nth 16 _ 0) with 2. rewrite rule_pairs by done. destruct He as (H1 & H2 & H3 & H4). destruct (name_attribute_ok (e_iif e) H3 H4) as (_ & _ & _ & _ & N2).
  destruct e as [prio iif proto table]; cbn [e_priority e_iif e_protocol e_table] in *. remember (drop 4 (name_attribute iif)) as d eqn:Ed. clear Ed.
  pose proof (get32_small table H1) as G1. pose proof (get32_small prio H2) as G2. remember (le_bytes 4 table) as t. remember (le_bytes 4 prio) as p.
  replace (is_empty iif) with (match iif with [] => true | _ => false end) by (by destruct iif).
  unfold to_cstr in N2. destruct create, proto as [[]|], iif; cbn; rewrite ?G1, ?G2, ?N2; reflexivity.
Qed.

(** * Requests of the manager *)
Section Requests.
Context {W : Type} (system : call -> W -> answer * W) (limit : nat) (channel : Z) (rules : W -> list entry) {Hsystem : RuleSystem system channel rules}.

(** An action that returns normally and changes the rules by [f]. *)
Definition Changes (m : M unit) (f : list entry -> list entry) : Prop :=
  forall s, exists s', m s = (Return tt, s') /\ rules (world s') = f (rules (world s)).
Lemma changes_then m m' f g : Changes m f -> Changes m' g -> Changes (m;; m') (fun l => g (f l)).
Proof.
  intros Hm Hm' s. destruct (Hm s) as (s1 & E1 & R1). destruct (Hm' s1) as (s2 & E2 & R2). exists s2. unfold mbind, M_bind. rewrite E1, E2. split; [done|]. by rewrite R2, R1.
Qed.
Lemma changes_each {A} (l : list A) (m : A -> M unit) f : (forall x, x ∈ l -> Changes (m x) (f x)) ->
  Changes (for_each l m) (fun r => fold_left (fun r x => f x r) l r).
Proof.
  induction l as [|x l IH]; intros H; [by intros s; exists s|]. cbn [for_each fold_left].
  apply (changes_then (m x) (for_each l m) (f x) (fun r => fold_left (fun r x => f x r) l r)); [apply H; left|]. apply IH. intros y Hy. apply H. by right.
Qed.

Definition request_of (operation : Operation) (e : entry) (l : list entry) : list entry :=
  match operation with Remove => delete_rule e l | _ => add_rule e l end.
Lemma send_rule_changes e operation : entry_ok e -> operation <> Update ->
  Changes (send_rule system (S limit) channel (rule_message e) operation) (request_of operation e).
Proof.
  intros He Ho s. unfold send_rule, send_request, CreateTransaction, next_sequence. unfold mbind, M_bind, mret, M_ret.
  set (seq := u32 (default 0 (seqNumber s !! channel) + 1)). set (create := match operation with Remove => false | _ => true end).
  assert (Ht : rule_operation operation = request_type create) by (by destruct operation).
  set (flags := Z.lor _ _). rewrite Ht. set (request := nlmsg _ _ _ _ _). set (s1 := s <| seqNumber := _ |>).
  assert (Hseq : 0 <= seq < 2 ^ 32) by (unfold seq, u32; apply Z.mod_pos_bound; lia).
  assert (Hreq : (16 <= length request)%nat) by (unfold request; rewrite nlmsg_length; lia).
  destruct (rule_request request create e (world s) Hreq (requested_rule create e flags seq He)) as (w' & Hr & Hw).
  assert (Hq : nlmsg_seq request = seq).
  { destruct (rule_attributes_ok e He) as [_ Hlen]. unfold request.
    destruct (nlmsg_fields (request_type create) flags seq 0 (rule_message e) []) as (_ & _ & _ & Hs & _); [rewrite rule_message_length; lia|].
    rewrite app_nil_r in Hs. rewrite Hs. unfold u32. by rewrite Z.mod_small. }
  rewrite Hq in Hr. set (error := fst (apply_request create e (rules (world s)))) in *.
  assert (Herr : error = 0 \/ error = - ENOENT) by (unfold error, apply_request; destruct create; cbn; [by left|]; destruct (existsb _ _); auto).
  destruct (Execute_acknowledged system limit (mk_transaction channel request seq) s1 w' error) as [calls' E]; [done..| |done|].
  { unfold INT_MIN, INT_MAX, ENOENT in *. lia. }
  exists (s1 <| world := w' |> <| calls := calls s1 ++ calls' |>). unfold try. rewrite E. split.
  - by destruct Herr as [-> | ->].
  - change (rules w' = request_of operation e (rules (world s))). rewrite Hw. unfold apply_request, create. by destruct operation.
Qed.

(** The requests of the rules that the manager makes. *)
Lemma loopback_message name p : (length name < 16)%nat -> no_nul name -> is_empty name = false ->
  loopback_rule_message (rule AF_INET RT_TABLE_LOCAL c_WindowsToLinuxRulePriority (Some p) <| iif := name |>) p = rule_message (mk_entry 0 name (Some p) RT_TABLE_LOCAL).
Proof.
  intros Hl Hn He. destruct (name_attribute_ok name Hl Hn) as (_ & E & _). unfold rule_message, rule_attributes, body, loopback_rule_message.
  cbn [e_iif e_protocol e_table e_priority]. rewrite He. cbn [app datagram flat_map]. rewrite E, app_nil_r. by destruct p.
Qed.
Lemma priority_message table prio o : priority_rule_message (rule AF_INET table prio o) (match o with Some p => protocol_attribute p | None => [] end) =
  rule_message (mk_entry prio [] o table).
Proof. unfold priority_rule_message, rule_message, rule_attributes, body. cbn [e_iif e_protocol e_table e_priority is_empty]. by destruct o as [[]|]. Qed.

Definition name_ok (name : bytes) : Prop := is_empty name = false /\ (length name < 16)%nat /\ no_nul name.
Definition pair_of (name : bytes) : list entry := [mk_entry 0 name (Some Tcp) RT_TABLE_LOCAL; mk_entry 0 name (Some Udp) RT_TABLE_LOCAL].
Definition update_pair (name : bytes) (operation : Operation) (l : list entry) : list entry :=
  request_of operation (mk_entry 0 name (Some Udp) RT_TABLE_LOCAL) (request_of operation (mk_entry 0 name (Some Tcp) RT_TABLE_LOCAL) l).
Lemma loopback_changes name p operation : name_ok name -> operation <> Update ->
  Changes (ModifyLoopbackRule system (S limit) channel (rule AF_INET RT_TABLE_LOCAL c_WindowsToLinuxRulePriority (Some p) <| iif := name |>) operation)
    (request_of operation (mk_entry 0 name (Some p) RT_TABLE_LOCAL)).
Proof.
  intros (He & Hl & Hn) Ho. pose proof (loopback_message name p Hl Hn He) as Hm.
  assert (Hok : entry_ok (mk_entry 0 name (Some p) RT_TABLE_LOCAL)) by (unfold entry_ok, RT_TABLE_LOCAL; cbn; auto with lia).
  pose proof (send_rule_changes _ operation Hok Ho) as H. rewrite <-Hm in H. unfold ModifyLoopbackRule.
  replace (is_empty (iif _)) with false by done. by destruct operation.
Qed.
Lemma update_changes m name operation : ruleManager m = channel -> name_ok name -> operation <> Update ->
  Changes (UpdateMirroredLoopbackRulesForInterface system (S limit) m name operation) (update_pair name operation).
Proof.
  intros Hc Hn Ho. unfold UpdateMirroredLoopbackRulesForInterface. rewrite Hc.
  apply (changes_then _ _ (request_of operation (mk_entry 0 name (Some Tcp) RT_TABLE_LOCAL)) (request_of operation (mk_entry 0 name (Some Udp) RT_TABLE_LOCAL)));
    by apply loopback_changes.
Qed.
Lemma priority_changes table prio operation : 0 <= table < 2 ^ 31 -> 0 <= prio < 2 ^ 31 -> operation <> Update ->
  Changes (ModifyRoutingTablePriority system (S limit) channel (rule AF_INET table prio None) operation) (request_of operation (mk_entry prio [] None table)).
Proof.
  intros H1 H2 Ho. assert (Hok : entry_ok (mk_entry prio [] None table)) by (repeat split; cbn; try lia; constructor).
  pose proof (send_rule_changes _ operation Hok Ho) as H. rewrite <-(priority_message table prio None) in H. by destruct operation.
Qed.
Lemma protocol_changes m table p : ruleManager m = channel -> 0 <= table < 2 ^ 31 ->
  Changes (AddPriority1Rule system (S limit) m AF_INET p table) (add_rule (mk_entry 1 [] (Some p) table)).
Proof.
  intros Hc H1. assert (Hok : entry_ok (mk_entry 1 [] (Some p) table)) by (repeat split; cbn; try lia; constructor).
  pose proof (send_rule_changes _ Create Hok ltac:(done)) as H. rewrite <-(priority_message table 1 (Some p)) in H. unfold AddPriority1Rule. by rewrite Hc.
Qed.
End Requests.

(** * The tables of the comment on AddMirroredLoopbackRoutingRules *)
Definition RT_TABLE_DEFAULT : Z := 253.
Definition default_rules : list entry := [mk_entry 32766 [] None RT_TABLE_MAIN; mk_entry 32767 [] None RT_TABLE_DEFAULT].
Definition nat_rules : list entry := mk_entry 0 [] None RT_TABLE_LOCAL :: default_rules.
Definition shared_rules : list entry :=
  [mk_entry 1 [] (Some Tcp) c_loopbackRoutingTableId; mk_entry 1 [] (Some Udp) c_loopbackRoutingTableId;
   mk_entry 1 [] (Some Tcp) c_localRoutingTableId; mk_entry 1 [] (Some Udp) c_localRoutingTableId; mk_entry 2 [] None RT_TABLE_LOCAL].
Definition mirrored_rules (names : list bytes) : list entry := flat_map pair_of names ++ shared_rules ++ default_rules.
(** The interfaces that are mirrored after an interface was added or removed. *)
Fixpoint remove_name (name : bytes) (names : list bytes) : list bytes :=
  match names with [] => [] | n :: names' => if list_eqb name n then names' else n :: remove_name name names' end.
Definition mirror (names : list bytes) (change : bytes * Operation) : list bytes :=
  match snd change with Remove => remove_name (fst change) names | _ => names ++ [fst change] end.

Lemma add_after_zeros e l : e_priority e = 0 -> Forall (fun x => e_priority x = 0) l ->
  add_rule e (l ++ shared_rules ++ default_rules) = l ++ e :: shared_rules ++ default_rules.
Proof.
  intros He Hl. unfold add_rule. rewrite He. induction Hl as [|x l Hx _ IH]; [done|]. cbn [app take_while drop_while]. rewrite Hx.
  change (0 <=? 0) with true. cbv iota. cbn [app]. by rewrite IH.
Qed.
Lemma pairs_zero names : Forall (fun x => e_priority x = 0) (flat_map pair_of names).
Proof. induction names as [|n names IH]; cbn [flat_map pair_of app]; by repeat constructor. Qed.
Lemma create_pair name names : update_pair name Create (mirrored_rules names) = mirrored_rules (names ++ [name]).
Proof.
  unfold update_pair, request_of, mirrored_rules. rewrite (add_after_zeros _ (flat_map pair_of names)) by (done || apply pairs_zero).
  change (mk_entry 0 name (Some Tcp) RT_TABLE_LOCAL :: shared_rules ++ default_rules) with ([mk_entry 0 name (Some Tcp) RT_TABLE_LOCAL] ++ shared_rules ++ default_rules).
  rewrite (assoc_L (++)), add_after_zeros; [|done|apply Forall_app_2; [apply pairs_zero|by repeat constructor]]. rewrite flat_map_app, <-!(assoc_L (++)). done.
Qed.
Lemma matches_zero name p n q : is_empty name = false ->
  matches (mk_entry 0 name (Some p) RT_TABLE_LOCAL) (mk_entry 0 n (Some q) RT_TABLE_LOCAL) = list_eqb name n && bool_decide (q = p).
Proof.
  intros He. unfold matches. cbn [e_priority e_table e_iif e_protocol]. rewrite He, !Z.eqb_refl. cbn [andb orb]. f_equal.
  apply bool_decide_ext. split; congruence.
Qed.
Lemma remove_pair name names : is_empty name = false -> update_pair name Remove (mirrored_rules names) = mirrored_rules (remove_name name names).
Proof.
  intros He. unfold update_pair, request_of, mirrored_rules. induction names as [|n names IH]; [by destruct name|].
  cbn [flat_map pair_of app remove_name delete_rule]. rewrite matches_zero by done. change (bool_decide (Tcp = Tcp)) with true.
  destruct (list_eqb name n) eqn:E; cbn [andb delete_rule].
  - rewrite matches_zero, E by done. change (bool_decide (Udp = Udp)) with true. done.
  - rewrite !matches_zero, E by done. cbn [andb delete_rule]. rewrite !matches_zero, E by done. cbn [andb flat_map pair_of app]. by rewrite IH.
Qed.

Section Mirrored.
Context {W : Type} (system : call -> W -> answer * W) (limit : nat) (m : NetworkManager) (rules : W -> list entry) {Hsystem : RuleSystem system (ruleManager m) rules}.

Lemma mirrored_from_nat i : name_ok (Name i) ->
  exists f, Changes rules (AddMirroredLoopbackRoutingRules system (S limit) m i AF_INET) f /\ f nat_rules = mirrored_rules [Name i].
Proof.
  intros Hn. assert (H : forall m' f g, Changes rules m' f -> (f nat_rules = g) -> exists f', Changes rules m' f' /\ f' nat_rules = g) by eauto.
  eapply H.
  - unfold AddMirroredLoopbackRoutingRules. apply changes_then; [by apply (priority_changes system limit _ rules RT_TABLE_LOCAL 0)|].
    apply changes_then; [by apply (update_changes system limit (ruleManager m) rules)|].
    do 4 (apply changes_then; [by apply (protocol_changes system limit (ruleManager m) rules)|]).
    by apply (priority_changes system limit _ rules RT_TABLE_LOCAL c_LocalRulePriority).
  - reflexivity.
Qed.
End Mirrored.

(** C31: The policy rules of mirrored networking are the ones that they are documented to be:
    on any system that keeps a table of rules and acknowledges requests, setting the
    loopback interface up from the rules of NAT mode and then adding and removing mirrored
    interfaces in any order returns normally, and the rules are exactly the table of the
    comment on AddMirroredLoopbackRoutingRules for the interfaces that are left, in the
    order in which they were added. *)
Theorem mirrored_rules_kept {W : Type} (system : call -> W -> answer * W) (limit : nat) (m : NetworkManager) (rules : W -> list entry)
    (gelnic : Interface) (changes : list (bytes * Operation)) (s : net) :
  RuleSystem system (ruleManager m) rules -> rules (world s) = nat_rules -> name_ok (Name gelnic) ->
  Forall (fun change => name_ok (fst change) /\ snd change <> Update) changes ->
  exists s', (AddMirroredLoopbackRoutingRules system (S limit) m gelnic AF_INET;;
              for_each changes (fun change => UpdateMirroredLoopbackRulesForInterface system (S limit) m (fst change) (snd change))) s = (Return tt, s') /\
    rules (world s') = mirrored_rules (fold_left mirror changes [Name gelnic]).
Proof.
  intros Hsystem Hs Hg Hc. rewrite Forall_forall in Hc. destruct (mirrored_from_nat system limit m rules gelnic Hg) as (f & Hf & Ef).
  destruct (changes_then rules _ _ _ _ Hf (changes_each rules changes
    (fun change => UpdateMirroredLoopbackRulesForInterface system (S limit) m (fst change) (snd change)) (fun change => update_pair (fst change) (snd change))
    ltac:(intros x Hx; destruct (Hc x Hx); by apply (update_changes system limit (ruleManager m) rules))) s) as (s' & E & R).
  exists s'. split; [exact E|]. rewrite R, Hs, Ef. clear -Hc. generalize [Name gelnic]. induction changes as [|[name operation] changes IH]; intros names; [done|].
  cbn [fold_left fst snd]. destruct (Hc (name, operation)) as [[He _] Ho]; [left|]. cbn [fst snd] in *. rewrite <-IH by (intros x Hx; apply Hc; by right). f_equal.
  destruct operation; [by apply create_pair|done|by apply remove_pair].
Qed.
(** A system of nothing but rules: it holds the rules and the acknowledgement that is next. *)
Definition rule_kernel (c : call) (w : list entry * bytes) : answer * (list entry * bytes) :=
  let '(l, pending) := w in
  match c with
  | Sendto _ m =>
    match requested m with
    | Some (create, e) => (mk_answer (Z.of_nat (length m)) [] [], (snd (apply_request create e l), ack (nlmsg_seq m) (fst (apply_request create e l)) m))
    | None => (mk_answer (-22) [] [], w)
    end
  | Recvmsg_peek _ => (mk_answer (Z.of_nat (length pending)) [] [], w)
  | Recvfrom _ _ => (mk_answer (Z.of_nat (length pending)) pending [], (l, []))
  | _ => (mk_answer (-38) [] [], w)
  end.
Lemma rule_kernel_acknowledges channel : RuleSystem rule_kernel channel fst.
Proof.
  intros request create e [l pending] Hl Hr. exists (snd (apply_request create e l), []). split; [|done].
  unfold responds. do 5 eexists. cbn [rule_kernel]. rewrite Hr. split; [reflexivity|]. split; [cbn; lia|]. split; [reflexivity|]. split; [reflexivity|].
  split; [reflexivity|]. done.
Qed.
Definition example_changes : list (bytes * Operation) := [(str "eth0", Create); (str "eth1", Create); (str "eth0", Remove); (str "eth7", Remove)].
Lemma mirrored_rules_kept_witness :
  exists s', (AddMirroredLoopbackRoutingRules rule_kernel 1 (mk_manager 1 2 3 4 5) (mk_interface 2 (str "loopback0")) AF_INET;;
              for_each example_changes (fun change => UpdateMirroredLoopbackRulesForInterface rule_kernel 1 (mk_manager 1 2 3 4 5) (fst change) (snd change)))
             (mk_net (nat_rules, []) ∅ 254 []) = (Return tt, s') /\
    fst (world s') = mirrored_rules [str "loopback0"; str "eth1"].
Proof.
  apply (mirrored_rules_kept rule_kernel 0 (mk_manager 1 2 3 4 5) fst (mk_interface 2 (str "loopback0")) example_changes (mk_net (nat_rules, []) ∅ 254 [])).
  - apply rule_kernel_acknowledges.
  - reflexivity.
  - repeat split; cbn; [lia|]. repeat constructor; discriminate.
  - repeat constructor; cbn; try lia; discriminate.
Defined.

(** * Retrying *)

(** A system with a clock that never goes back: Now reads it and sleeping moves it. *)
Class Clock {W : Type} (system : call -> W -> answer * W) (clock : W -> Z) : Prop := {
  clock_forward c w : clock w <= clock (snd (system c w));
  clock_now w : clock w <= ret (fst (system Now w)) <= clock (snd (system Now w));
  clock_sleep p w : clock w + p * 1000000 <= clock (snd (system (Sleep_for p) w))
}.

Section Prompt.
Context {W : Type} (system : call -> W -> answer * W) (clock : W -> Z) {Hclock : Clock system clock}.
Abbreviation M := (M (W := W)).

(** An action that comes back, with a result or an exception. *)
Definition ends {A} (r : outcome A) : Prop := match r with Return _ | Throw _ => True | _ => False end.
Definition Prompt {A} (m : M A) : Prop := forall s, ends (fst (m s)) /\ clock (world s) <= clock (world (snd (m s))).
Lemma prompt_ret {A} (x : A) : Prompt (mret x).
Proof. intros s. split; [done|cbn; lia]. Qed.
Lemma prompt_throw {A} e : Prompt (throw (A := A) e).
Proof. intros s. split; [done|cbn; lia]. Qed.
Lemma prompt_do c : Prompt (do system c).
Proof. intros s. rewrite run_do. split; [done|]. apply clock_forward. Qed.
Lemma prompt_bind {A B} (m : M A) (k : A -> M B) : Prompt m -> (forall x, Prompt (k x)) -> Prompt (m ≫= k).
Proof.
  intros Hm Hk s. destruct (Hm s) as [He Hc]. unfold mbind, M_bind. destruct (m s) as [[x|e| | |] s1]; cbn in *; try done.
  destruct (Hk x s1) as [He' Hc']. split; [done|lia].
Qed.
Lemma prompt_try {A} (m : M A) (h : exn -> M A) : Prompt m -> (forall e, Prompt (h e)) -> Prompt (try m h).
Proof.
  intros Hm Hh s. destruct (Hm s) as [He Hc]. unfold try. destruct (m s) as [[x|e| | |] s1]; cbn in *; try done.
  destruct (Hh e s1) as [He' Hc']. split; [done|lia].
Qed.
Lemma prompt_Syscall c : Prompt (Syscall system c).
Proof. apply prompt_bind; [apply prompt_do|]. intros a. destruct (ret a <? 0); [apply prompt_throw|apply prompt_ret]. Qed.
Lemma prompt_closing {A} fd (m : M A) : Prompt m -> Prompt (closing system fd m).
Proof.
  intros Hm s. destruct (Hm s) as [He Hc]. unfold closing. destruct (m s) as [[x|e| | |] s1]; cbn in *; try done;
    split; try done; destruct (prompt_do (Close fd) s1) as [_ Hd]; lia.
Qed.
Lemma prompt_OpenInterfaceImpl name : Prompt (GnsEngine.OpenInterfaceImpl system name).
Proof.
  apply prompt_try; [|intros e; apply prompt_throw]. apply prompt_bind; [|intros i; apply prompt_ret].
  apply prompt_bind; [apply prompt_Syscall|]. intros a. apply prompt_closing. apply prompt_bind; [apply prompt_Syscall|]. intros _.
  apply prompt_bind; [intros s; split; [done|cbn; lia]|]. intros _. apply prompt_bind; [apply prompt_Syscall|]. intros b. apply prompt_ret.
Qed.

Lemma retry_loop_ends {A} (routine : M A) period stop fuel s : Prompt routine -> stop < clock (world s) + Z.of_nat fuel * (period * 1000000) ->
  ends (fst (retry_loop system (S fuel) routine period stop s)).
Proof.
  intros Hr. revert s. induction fuel as [|fuel IH]; intros s Hs; cbn [retry_loop]; unfold try; destruct (Hr s) as [He Hc];
    destruct (routine s) as [[x|e| | |] s1]; cbn [fst snd ends] in *; try done; unfold mbind, M_bind; rewrite run_do;
    pose proof (clock_now (system := system) (clock := clock) (world s1)) as Hn.
  - by rewrite (proj2 (Z.ltb_lt _ _)) by lia.
  - destruct (stop <? _) eqn:E; [done|]. rewrite run_do. apply IH. cbn [world].
    pose proof (clock_sleep (system := system) (clock := clock) period (snd (system Now (world s1)))) as Hp.
    change (stop < clock (snd (system (Sleep_for period) (snd (system Now (world s1))))) + Z.of_nat fuel * (period * 1000000)). lia.
Qed.
(** Retrying for [timeout] milliseconds comes back after as many attempts as the periods
    that the timeout has, and two. *)
Lemma RetryWithTimeout_ends {A} (routine : M A) period timeout limit s : Prompt routine -> 0 < period -> 0 <= timeout ->
  timeout / period + 2 <= Z.of_nat limit -> ends (fst (RetryWithTimeout system limit routine period timeout s)).
Proof.
  intros Hr Hp Ht Hl. destruct limit as [|fuel]; [pose proof (Z.div_pos timeout period); lia|].
  unfold RetryWithTimeout, mbind, M_bind. rewrite run_do. pose proof (clock_now (system := system) (clock := clock) (world s)) as Hn.
  apply retry_loop_ends; [done|].
  change (ret (fst (system Now (world s))) + timeout * 1000000 < clock (snd (system Now (world s))) + Z.of_nat fuel * (period * 1000000)).
  pose proof (Z.div_mod timeout period ltac:(lia)). pose proof (Z.mod_pos_bound timeout period Hp). nia.
Qed.
(** So the engine's search for an interface ends: after 302 attempts at most. *)
Lemma OpenInterface_ends name limit s : 302 <= Z.of_nat limit -> ends (fst (GnsEngine.OpenInterface system limit name s)).
Proof. intros Hl. apply RetryWithTimeout_ends; [apply prompt_OpenInterfaceImpl|done|done|]. exact Hl. Qed.
End Prompt.
End NetManagerThm.

Module GnsEngineThm.
Import Netlink NetRoute NetDevice NetManager HnsSchema GnsEngine.

(** * Functions that do not talk to the host *)
Definition dialogue (c : call) : bool := match c with Receive_notification | Send_status _ => true | _ => false end.

Section Quiet.
Context {W : Type} (system : call -> W -> answer * W).
Abbreviation M := (M (W := W)).

(** [l] are the calls of the run, of which [d] are those to the host. *)
Definition Runs {A} (m : M A) (s : net) (l : list call) : Prop := calls (snd (m s)) = calls s ++ l.
Definition Says {A} (d : list call) (m : M A) : Prop := forall s, exists l, Runs m s l /\ List.filter dialogue l = d.
Definition Quiet {A} (m : M A) : Prop := Says [] m.

Lemma quiet_silent {A} (m : M A) : (forall s, calls (snd (m s)) = calls s) -> Quiet m.
Proof. intros H s. exists []. unfold Runs. by rewrite H, app_nil_r. Qed.
Lemma quiet_lift {A} (r : outcome A) : Quiet (lift (W := W) r).
Proof. by apply quiet_silent. Qed.
Lemma quiet_ret {A} (x : A) : Quiet (mret x : M A).
Proof. by apply quiet_silent. Qed.
Lemma says_do c : Says (List.filter dialogue [c]) (do system c).
Proof. intros s. exists [c]. unfold Runs, do. by destruct (system c (world s)) as [a w]. Qed.
Lemma quiet_do c : dialogue c = false -> Quiet (do system c).
Proof. intros Hc. pose proof (says_do c) as H. cbn [List.filter] in H. by rewrite Hc in H. Qed.

(** One action after the other, from what the first one leaves. *)
Lemma says_then {A B} d (m : M A) (m' : M B) (k : outcome A -> net -> outcome B * net) :
  (forall s, m' s = let '(r, s1) := m s in k r s1) -> Says d m ->
  (forall r s1, exists l, calls (snd (k r s1)) = calls s1 ++ l /\ List.filter dialogue l = []) -> Says d m'.
Proof.
  intros E Hm Hk s. destruct (Hm s) as (l & H & Hl). unfold Runs in *. rewrite E. destruct (m s) as [r s1]. cbn in H.
  destruct (Hk r s1) as (l' & H' & Hl'). exists (l ++ l'). by rewrite H', H, <-app_assoc, List.filter_app, Hl, Hl', app_nil_r.
Qed.
Lemma no_calls (s : net (W := W)) : exists l, calls s = calls s ++ l /\ List.filter dialogue l = [].
Proof. exists []. by rewrite app_nil_r. Qed.
Lemma says_bind {A B} d (m : M A) (k : A -> M B) : Says d m -> (forall x, Quiet (k x)) -> Says d (m ≫= k).
Proof.
  intros Hm Hk. apply (says_then d m _ (fun r s => match r with Return x => k x s | Throw e => (Throw e, s) | Undefined => (Undefined, s)
                                                   | Waiting => (Waiting, s) | Terminated => (Terminated, s) end)); [|done|].
  - intros s. unfold mbind, M_bind. by destruct (m s) as [[] ?].
  - intros [x| | | |] s1; try apply no_calls. apply (Hk x).
Qed.
Lemma quiet_seq {A B} (m : M A) (k : A -> M B) : Quiet m -> (forall x, Quiet (k x)) -> Quiet (m ≫= k).
Proof. apply says_bind. Qed.
Lemma quiet_try {A} (m : M A) (h : exn -> M A) : Quiet m -> (forall e, Quiet (h e)) -> Quiet (try m h).
Proof.
  intros Hm Hh. apply (says_then [] m _ (fun r s => match r with Throw e => h e s | _ => (r, s) end)); [|done|].
  - intros s. unfold try. by destruct (m s) as [[] ?].
  - intros [x|e| | |] s1; try apply no_calls. apply (Hh e).
Qed.
Lemma quiet_each {A} (l : list A) (f : A -> M unit) : (forall x, Quiet (f x)) -> Quiet (for_each l f).
Proof. intros H. induction l; cbn; [apply quiet_ret|]. by apply quiet_seq. Qed.
Lemma quiet_Syscall c : dialogue c = false -> Quiet (Syscall system c).
Proof. intros H. apply quiet_seq; [by apply quiet_do|]. intros a. destruct (ret a <? 0); [apply quiet_lift|apply quiet_ret]. Qed.
Lemma quiet_closing {A} fd (m : M A) : Quiet m -> Quiet (closing system fd m).
Proof.
  intros Hm. apply (says_then [] m _ (fun r s => match r with Return _ | Throw _ => (r, snd (do system (Close fd) s)) | _ => (r, s) end)); [|done|].
  - intros s. unfold closing. by destruct (m s) as [[] ?].
  - intros r s1. destruct (quiet_do (Close fd) eq_refl s1) as (l & H & Hl). destruct r; try apply no_calls; by exists l.
Qed.
Lemma quiet_with_channel {A} family (m : Z -> M A) : (forall c, Quiet (m c)) -> Quiet (with_channel system family m).
Proof.
  intros H. apply quiet_seq; [by apply quiet_Syscall|]. intros a. apply quiet_closing. apply quiet_seq; [by apply quiet_Syscall|]. intros _.
  apply quiet_seq; [by apply quiet_silent|]. intros _. apply H.
Qed.
End Quiet.
Create HintDb quiet discriminated.
#[export] Hint Resolve quiet_lift quiet_ret : quiet.

(** Goes through an action from its head. *)
Ltac head_of t := lazymatch t with ?f _ => head_of f | _ => t end.
Ltac quiet_step :=
  lazymatch goal with
  | |- Quiet (lift _) => apply quiet_lift
  | |- Quiet (mret _) => apply quiet_ret
  | |- Quiet (do _ _) => apply quiet_do; reflexivity
  | |- Quiet (Syscall _ _) => apply quiet_Syscall; reflexivity
  | |- Quiet (mbind _ _) => apply quiet_seq; [|intros ?]
  | |- Quiet (try _ _) => apply quiet_try; [|intros ?]
  | |- Quiet (for_each _ _) => apply quiet_each; intros ?
  | |- Quiet (closing _ _ _) => apply quiet_closing
  | |- Quiet (with_channel _ _ _) => apply quiet_with_channel; intros ?
  | |- Quiet (let _ := _ in _) => cbv zeta
  | |- Quiet (match ?x with _ => _ end) => destruct x
  | |- Quiet ?m => first [solve [eauto with quiet nocore] | let h := head_of m in unfold h]
  end.
Ltac quiet := repeat quiet_step.

Section Functions.
Context {W : Type} (system : call -> W -> answer * W) (limit : nat).
Abbreviation M := (M (W := W)).

Lemma quiet_next_sequence c : Quiet (next_sequence (W := W) c).
Proof. by apply quiet_silent. Qed.
Lemma quiet_CreateTransaction c message type flags : Quiet (CreateTransaction (W := W) c message type flags).
Proof. apply quiet_seq; [apply quiet_next_sequence|]. intros ?. apply quiet_ret. Qed.
Lemma quiet_receive_loop {A} fuel t (routine : bytes -> A -> M A) last acc : (forall b a, Quiet (routine b a)) -> Quiet (receive_loop system fuel t routine last acc).
Proof. intros H. revert last acc. induction fuel as [|fuel IH]; intros last acc; cbn [receive_loop]; unfold ReceiveNetlinkResponse; quiet; first [apply H|apply IH]. Qed.
Lemma quiet_Execute {A} t (routine : bytes -> A -> M A) acc : (forall b a, Quiet (routine b a)) -> Quiet (Execute system limit t routine acc).
Proof. intros H. unfold Execute. quiet. by apply quiet_receive_loop. Qed.
Lemma quiet_Execute_ t : Quiet (Execute_ system limit t).
Proof. apply quiet_Execute. intros. apply quiet_ret. Qed.
Lemma quiet_send_request c message type flags ignored : Quiet (send_request system limit c message type flags ignored).
Proof. unfold send_request. apply quiet_seq; [apply quiet_CreateTransaction|]. intros t. apply quiet_try; [apply quiet_Execute_|]. intros e. quiet. Qed.
Lemma quiet_dump {A} c message type reply (f : bytes -> outcome (list A)) : Quiet (dump system limit c message type reply f).
Proof. unfold dump. apply quiet_seq; [apply quiet_CreateTransaction|]. intros t. apply quiet_Execute. intros. quiet. Qed.
Lemma quiet_send_on_new_channel message type flags : Quiet (send_on_new_channel system limit message type flags).
Proof. apply quiet_with_channel. intros c. apply quiet_seq; [apply quiet_CreateTransaction|]. intros t. apply quiet_Execute_. Qed.
Lemma quiet_write_setting f scope name v : Quiet (write_setting system f scope name v).
Proof. quiet. Qed.
Lemma quiet_retry {A} (routine : M A) period timeout : Quiet routine -> Quiet (RetryWithTimeout system limit routine period timeout).
Proof.
  intros H. unfold RetryWithTimeout. apply quiet_seq; [by apply quiet_do|]. intros now. generalize (ret now + timeout * 1000000). intros stop.
  induction limit as [|fuel IH]; cbn [retry_loop]; quiet; done.
Qed.
End Functions.
#[export] Hint Resolve quiet_CreateTransaction quiet_Execute_ quiet_send_request quiet_dump quiet_send_on_new_channel quiet_write_setting : quiet.

Section Components.
Context (L : libc) (J : nlohmann).
Context {W : Type} (system : call -> W -> answer * W) (limit : nat) (m : NetworkManager).
Abbreviation M := (M (W := W)).

Lemma quiet_ModifyRoute table r action : Quiet (ModifyRoute L system limit table r action).
Proof. quiet. Qed.
Lemma quiet_ListRoutes table family : Quiet (ListRoutes L system limit table family).
Proof. quiet. Qed.
Lemma quiet_the_routing_table : Quiet (the_routing_table (W := W) m).
Proof. by apply quiet_silent. Qed.
Lemma quiet_ChangePrimaryRoutingTable t : Quiet (ChangePrimaryRoutingTable (W := W) t).
Proof. by apply quiet_silent. Qed.
Lemma quiet_ListAddressesImpl i af : Quiet (ListAddressesImpl L system limit i af).
Proof.
  unfold ListAddressesImpl. apply quiet_with_channel. intros c. apply quiet_seq; [apply quiet_CreateTransaction|]. intros t. apply quiet_Execute. intros. quiet.
Qed.
Lemma quiet_find_adapter id entries name : Quiet (find_adapter system id entries name).
Proof. revert name. induction entries as [|path entries IH]; intros name; cbn [find_adapter]; unfold GetAdapterId; quiet; apply IH. Qed.
Lemma quiet_OpenName name : Quiet (OpenName system name).
Proof. quiet. Qed.
Lemma quiet_OpenAdapter id : Quiet (OpenAdapter system limit id).
Proof. apply quiet_retry. unfold OpenAdapterImpl. quiet; first [apply quiet_find_adapter|apply quiet_OpenName]. Qed.
Lemma quiet_OpenInterface name : Quiet (OpenInterface system limit name).
Proof. apply quiet_retry. unfold OpenInterfaceImpl. quiet. Qed.
Lemma quiet_connection_loop fuel start v4 v6 s4 s6 : Quiet (connection_loop system fuel start v4 v6 s4 s6).
Proof. revert s4 s6. induction fuel as [|fuel IH]; intros s4 s6; cbn [connection_loop]; quiet; apply IH. Qed.
End Components.
#[export] Hint Resolve quiet_ModifyRoute quiet_ListRoutes quiet_the_routing_table quiet_ChangePrimaryRoutingTable quiet_ListAddressesImpl
  quiet_OpenName quiet_OpenAdapter quiet_OpenInterface quiet_connection_loop : quiet.

Section Messages.
Context (L : libc) (J : nlohmann).
Context {W : Type} (system : call -> W -> answer * W) (limit : nat) (m : NetworkManager).

Lemma quiet_ModifyAddress i a operation : Quiet (ModifyAddress L system limit m i a operation).
Proof. quiet. Qed.
Lemma quiet_rules name operation : Quiet (UpdateMirroredLoopbackRulesForInterface system limit m name operation).
Proof. quiet. Qed.
Lemma quiet_InitializeLoopbackConfiguration i : Quiet (InitializeLoopbackConfiguration L system limit m i).
Proof. quiet. Qed.
Lemma quiet_OpenInterfaceOrAdapter name : Quiet (OpenInterfaceOrAdapter system limit name).
Proof. quiet. Qed.
Lemma quiet_ProcessLinkChange i link : Quiet (ProcessLinkChange system limit i link).
Proof. quiet. Qed.
End Messages.
#[export] Hint Resolve quiet_ModifyAddress quiet_rules quiet_InitializeLoopbackConfiguration quiet_OpenInterfaceOrAdapter quiet_ProcessLinkChange : quiet.

Section Answers.
Context (L : libc) (J : nlohmann).
Context {W : Type} (system : call -> W -> answer * W) (limit : nat) (m : NetworkManager).

Lemma quiet_ProcessNotification payload i : Quiet (ProcessNotification L J system limit m payload i).
Proof. quiet. Qed.
Lemma quiet_handlers : (forall e, Quiet (handle_InterfaceConfiguration L system limit e)) /\ (forall r, Quiet (handle_LoopbackRoutesRequest L system limit m r)) /\
  (forall n, Quiet (handle_InitialIpConfiguration L system limit m n)) /\ Quiet (handle_GlobalNetFilter system) /\ (forall r, Quiet (handle_InterfaceNetFilter system limit m r)).
Proof. repeat split; intros; quiet. Qed.
Lemma quiet_process_message message : Quiet (process_message L J system limit m message).
Proof.
  destruct quiet_handlers as (H1 & H2 & H3 & H4 & H5). unfold process_message. quiet; eauto using quiet_ProcessNotification.
Qed.
End Answers.

(** * The dialogue *)
Section Dialogue.
Context (L : libc) (J : nlohmann).
Context {W : Type} (system : call -> W -> answer * W) (limit : nat) (m : NetworkManager).
Abbreviation next := (ProcessNextMessage L J system limit m).

Lemma ProcessNextMessage_receives : Says [Receive_notification] next.
Proof.
  apply says_bind.
  - apply says_bind; [apply says_do|]. intros a. quiet.
  - intros [message|]; [|apply quiet_ret]. apply quiet_seq; [apply quiet_process_message|]. intros r. apply quiet_ret.
Qed.
Lemma statusRoutine_sends r : Says [Send_status r] (statusRoutine system r).
Proof. apply says_bind; [apply says_do|]. intros a. quiet. Qed.

(** A turn that the loop goes on after, with the statuses it sends: what processing the
    message returned; that and then -1, when the first could not be sent; -1, when
    processing threw. *)
Inductive Answered (s : net) : list Z -> net -> Prop :=
| answered_once v s1 s2 :
    next s = (Return (true, v), s1) -> statusRoutine system v s1 = (Return tt, s2) -> Answered s [v] s2
| answered_again v e s1 s2 s3 :
    next s = (Return (true, v), s1) -> statusRoutine system v s1 = (Throw e, s2) ->
    statusRoutine system (-1) s2 = (Return tt, s3) -> Answered s [v; -1] s3
| answered_thrown e s1 s2 :
    next s = (Throw e, s1) -> statusRoutine system (-1) s1 = (Return tt, s2) -> Answered s [-1] s2.
(** A turn that ends the loop: the channel is closed; processing does not come back;
    -1 could not be sent. *)
Inductive Last (s : net) : list Z -> outcome unit * net -> Prop :=
| last_closed v s1 : next s = (Return (false, v), s1) -> Last s [] (Return tt, s1)
| last_undefined s1 : next s = (Undefined, s1) -> Last s [] (Undefined, s1)
| last_waiting s1 : next s = (Waiting, s1) -> Last s [] (Waiting, s1)
| last_terminated s1 : next s = (Terminated, s1) -> Last s [] (Terminated, s1)
| last_unsent v e s1 s2 e' s3 :
    next s = (Return (true, v), s1) -> statusRoutine system v s1 = (Throw e, s2) ->
    statusRoutine system (-1) s2 = (Throw e', s3) -> Last s [v; -1] (Throw e', s3)
| last_thrown e s1 e' s2 :
    next s = (Throw e, s1) -> statusRoutine system (-1) s1 = (Throw e', s2) -> Last s [-1] (Throw e', s2).
(** Turns one after the other. *)
Inductive Served : net -> list (list Z) -> net -> Prop :=
| served_all s : Served s [] s
| served_one s sends s1 turns s' : Answered s sends s1 -> Served s1 turns s' -> Served s (sends :: turns) s'.

Lemma statusRoutine_cases r s : (exists s', statusRoutine system r s = (Return tt, s')) \/ (exists e s', statusRoutine system r s = (Throw e, s')).
Proof.
  unfold statusRoutine, mbind, M_bind, do. destruct (system (Send_status r) (world s)) as [a w]. destruct (ret a <? 0); eauto.
Qed.
Lemma turn_cases s :
  (exists sends s', Answered s sends s' /\ turn L J system limit m s = (Return true, s')) \/
  (exists sends o s', Last s sends (o, s') /\
     turn L J system limit m s = (match o with Return _ => Return false | Throw e => Throw e | Undefined => Undefined | Waiting => Waiting | Terminated => Terminated end, s')).
Proof.
  unfold turn, try, mbind, M_bind. destruct (next s) as [[[[] v]|e| | |] s1] eqn:E; [| | |right; eauto 7 using Last..].
  - destruct (statusRoutine_cases v s1) as [(s2 & E2)|(e & s2 & E2)]; rewrite E2; [left; eauto using Answered|].
    destruct (statusRoutine_cases (-1) s2) as [(s3 & E3)|(e' & s3 & E3)]; rewrite E3; [left; eauto using Answered|].
    right. exists [v; -1], (Throw e'), s3. split; [by econstructor|done].
  - right. exists [], (Return tt), s1. split; [by econstructor|done].
  - destruct (statusRoutine_cases (-1) s1) as [(s2 & E2)|(e' & s2 & E2)]; rewrite E2; [left; eauto using Answered|].
    right. exists [-1], (Throw e'), s2. split; [by econstructor|done].
Qed.
Lemma run_serves turns s : exists answered s', Served s answered s' /\
  (run L J system limit m turns s = (Waiting, s') /\ length answered = turns \/
   exists sends, Last s' sends (run L J system limit m turns s)).
Proof.
  revert s. induction turns as [|turns IH]; intros s; [exists [], s; split; [constructor|by left]|].
  cbn [run]. unfold mbind, M_bind. destruct (turn_cases s) as [(sends & s1 & Ha & ->)|(sends & o & s1 & Hl & ->)].
  - destruct (IH s1) as (answered & s' & Hs & H). exists (sends :: answered), s'. split; [by econstructor|].
    destruct H as [[H Hn]|H]; [left; cbn [length]; by rewrite Hn|by right].
  - exists [], s. split; [constructor|]. right. exists sends. by destruct o as [[]|e| | |].
Qed.

(** The calls to the host in a turn. *)
Definition exchange (sends : list Z) : list call := Receive_notification :: map Send_status sends.
Definition talks (s : @net W) (sends : list Z) (s' : @net W) : Prop :=
  exists l, calls s' = calls s ++ l /\ List.filter dialogue l = exchange sends.
Lemma talks_next s r s1 : next s = (r, s1) -> talks s [] s1.
Proof. intros E. destruct (ProcessNextMessage_receives s) as (l & H & Hl). unfold Runs in H. rewrite E in H. by exists l. Qed.
Lemma talks_send s sends s1 v r s2 : talks s sends s1 -> statusRoutine system v s1 = (r, s2) -> talks s (sends ++ [v]) s2.
Proof.
  intros (l & H & Hl) E. destruct (statusRoutine_sends v s1) as (l2 & H2 & Hl2). unfold Runs in H2. rewrite E in H2. cbn [snd] in H2.
  exists (l ++ l2). rewrite H2, H, <- app_assoc. split; [done|]. rewrite List.filter_app, Hl, Hl2.
  unfold exchange. by rewrite map_app.
Qed.
Lemma Answered_talks s sends s' : Answered s sends s' -> talks s sends s'.
Proof.
  intros [v s1 s2 E E2|v e s1 s2 s3 E E2 E3|e s1 s2 E E2]; apply talks_next in E.
  - by apply (talks_send _ [] _ _ _ _ E E2).
  - exact (talks_send _ _ _ _ _ _ (talks_send _ [] _ _ _ _ E E2) E3).
  - by apply (talks_send _ [] _ _ _ _ E E2).
Qed.
Lemma Last_talks s sends r : Last s sends r -> talks s sends r.2.
Proof.
  intros [v s1 E|s1 E|s1 E|s1 E|v e s1 s2 e' s3 E E2 E3|e s1 e' s2 E E2]; apply talks_next in E; [done..| |].
  - exact (talks_send _ _ _ _ _ _ (talks_send _ [] _ _ _ _ E E2) E3).
  - by apply (talks_send _ [] _ _ _ _ E E2).
Qed.
Lemma Served_talks s answered s' : Served s answered s' ->
  exists l, calls s' = calls s ++ l /\ List.filter dialogue l = flat_map exchange answered.
Proof.
  induction 1 as [s|s sends s1 answered s' Ha _ (l & Hc & Hl)]; [exists []; by rewrite app_nil_r|].
  destruct (Answered_talks _ _ _ Ha) as (l1 & H1 & Hl1). exists (l1 ++ l).
  by rewrite Hc, H1, List.filter_app, Hl1, Hl, <- app_assoc.
Qed.
End Dialogue.

(** C34: The messages of the host are answered in order, one turn for each.  However long
    the loop runs and whatever the system answers, the calls to the host are a
    notification that is received and then its status, over and over: what processing it
    returned, or -1 when receiving or processing it threw; when that status cannot be
    sent, -1 is sent after it.  The loop ends, after a last notification, when the channel
    is closed, with no status; with an exception when -1 cannot be sent; and, with no
    status either, when processing does not come back: the process is terminated, the
    behaviour is not defined (as for a notification without a RequestType,
    GnsEngine.cpp:196), or a search in it is still going on when its attempts are used
    up.  Otherwise it is still running after [turns] messages. *)
Theorem engine_answers_each_message (L : libc) (J : nlohmann) {W : Type} (system : call -> W -> answer * W) (limit : nat)
    (m : NetworkManager) (turns : nat) (s : net) :
  let r := run L J system limit m turns s in
  exists answered s' l tail, Served L J system limit m s answered s' /\
    calls (snd r) = calls s ++ l /\ List.filter dialogue l = flat_map exchange answered ++ tail /\
    (r = (Waiting, s') /\ tail = [] /\ length answered = turns \/
     exists sends, tail = exchange sends /\ Last L J system limit m s' sends r).
Proof.
  cbv zeta. destruct (run_serves L J system limit m turns s) as (answered & s' & Hs & H).
  destruct (Served_talks L J system limit m s answered s' Hs) as (l & Hc & Hl).
  destruct H as [[E Hn]|(sends & H)].
  - exists answered, s', l, []. rewrite E, app_nil_r. cbn [snd]. auto 10.
  - destruct (Last_talks L J system limit m s' sends _ H) as (l1 & H1 & Hl1).
    exists answered, s', (l ++ l1), (exchange sends). rewrite H1, Hc, List.filter_app, Hl, Hl1, <- app_assoc. eauto 10.
Qed.
(** A library that knows no texts. *)
Definition no_json : nlohmann := mk_nlohmann unit (fun _ => Throw Std_error) (fun _ => true) (fun _ _ => false) (fun _ _ => Throw Std_error)
  (fun _ _ => Undefined) (fun _ _ => Throw Std_error) (fun _ => Throw Std_error) (fun _ => Throw Std_error) (fun _ _ => Throw Std_error)
  (fun _ => Throw Std_error) (fun _ _ => false).
(** A host that sends what is queued and then closes the channel. *)
Definition queue_host (c : call) (queue : list bytes) : answer * list bytes :=
  match c, queue with
  | Receive_notification, message :: queue' => (mk_answer 1 message [], queue')
  | _, _ => (mk_answer 0 [] [], queue)
  end.
Definition example_manager : NetworkManager := mk_manager 1 2 3 4 5.
Definition example_run : outcome unit * net :=
  run NetRouteThm.dotted no_json queue_host 5 example_manager 9 (mk_net [le_bytes 4 LxGnsMessageNoOp; le_bytes 4 1; le_bytes 4 LxGnsMessageNoOp] ∅ 254 []).
Example example_run_answers : fst example_run = Return tt /\
  calls (snd example_run) = exchange [0] ++ exchange [-1] ++ exchange [0] ++ [Receive_notification].
Proof. by vm_compute. Qed.
(** A host that does not take statuses: one message, and the loop is left with an
    exception after two attempts. *)
Definition deaf_host (c : call) (queue : list bytes) : answer * list bytes :=
  match c with Send_status _ => (mk_answer (-1) [] [], queue) | _ => queue_host c queue end.
Example deaf_host_ends : 
  let r := run NetRouteThm.dotted no_json deaf_host 5 example_manager 9 (mk_net [le_bytes 4 LxGnsMessageNoOp; le_bytes 4 LxGnsMessageNoOp] ∅ 254 []) in
  fst r = Throw Std_error /\ calls (snd r) = exchange [0; -1].
Proof. by vm_compute. Qed.

(** What nft lists has the rule's handle, but only the first line of a command's output is
    kept: no command deletes the rule. *)
Definition nft_listing : bytes :=
  str "table ip nat {" ++ [c_nl] ++ str "chain WSLPOSTROUTING {" ++ [c_nl] ++
  str "oif " ++ quoted (str "eth0") ++ str " tcp sport 1-65535 counter masquerade to :60000-61000 # handle 5" ++ [c_nl] ++ str "}" ++ [c_nl] ++ str "}" ++ [c_nl].
Definition nft_system (c : call) (w : unit) : answer * unit := (match c with Popen _ => mk_answer 7 nft_listing [] | _ => mk_answer 0 [] [] end, w).
Example listing_has_handle : handleNumbers (str "eth0") nft_listing = Return [5].
Proof. by vm_compute. Qed.
Example filter_not_removed : remove_filter nft_system (str "eth0") (str "ip") (mk_net tt ∅ 254 []) =
  (Return tt, mk_net tt ∅ 254 [Popen (list_chain_command (str "ip")); Pclose 7]).
Proof. by vm_compute. Qed.
End GnsEngineThm.
