(* ===== verification/FdTrace.v ===== *)
(** Accounting for descriptors: what a sequence of calls opens, uses and closes,
    independent of which component makes the calls. *)
From S2P Require Import Prelude.

Module FdTrace.

Inductive fd_event : Type := Opens (fd : Z) | Uses (fd : Z) | Closes (fd : Z).

(** [accounts l es l']: a process that holds the descriptors [l] uses only what it
    holds, closes each once, and holds [l'] in the end. *)
Fixpoint accounts (l : list Z) (es : list fd_event) (l' : list Z) : Prop :=
  match es with
  | [] => l ≡ₚ l'
  | Opens fd :: es' => accounts (fd :: l) es' l'
  | Uses fd :: es' => fd ∈ l /\ accounts l es' l'
  | Closes fd :: es' => exists k, l ≡ₚ fd :: k /\ accounts k es' l'
  end.

#[export] Instance accounts_proper : Proper (Permutation ==> eq ==> Permutation ==> iff) accounts.
Proof.
  intros l k E es _ <- l' k' E'. revert l k E; induction es as [|c es IH]; intros l k E; [cbn; by rewrite E, E'|].
  destruct c; cbn [accounts].
  - apply IH. by rewrite E.
  - by rewrite (IH _ _ E), E.
  - split; intros (j & Hj & H); exists j; [rewrite <-E|rewrite E]; split; auto; eapply IH; eauto.
Qed.

Lemma accounts_app l a k b l' : accounts l a k -> accounts k b l' -> accounts l (a ++ b) l'.
Proof.
  revert l; induction a as [|c a IH]; intros l Ha Hb; [cbn in Ha |- *; by rewrite Ha|].
  destruct c; cbn [accounts app] in *; try (by apply IH); try (destruct Ha as [? Ha]; split; [done|]; by apply IH).
  destruct Ha as (j & Hj & Ha). exists j. split; [done|]. by apply IH.
Qed.

Lemma accounts_opens l L : accounts L (map Opens l) (l ++ L).
Proof.
  revert L; induction l as [|fd l IH]; intros L; [cbn; done|]. cbn [map accounts app].
  rewrite (Permutation_middle l L fd). apply IH.
Qed.
Lemma accounts_closes l L : accounts (l ++ L) (map Closes l) L.
Proof.
  revert L; induction l as [|fd l IH]; intros L; [cbn; done|]. cbn [map accounts app]. exists (l ++ L). by split.
Qed.

End FdTrace.
