(* ===== verification/Wire.v ===== *)
(** The message transport every channel shares: the 12-byte MESSAGE_HEADER and
    the loops that move exactly [len] bytes over a socket whose calls may be
    short, interrupted or not ready (gns_send_all/gns_recv_all in
    src/FreeBSD/gns_engine.h, dns_send_all/dns_recv_all in
    src/FreeBSD/dns_tunneling.h, send_all/recv_all/write_all/read_full in
    src/FreeBSD/hvbridge.c, p9_readn/p9_writen in
    src/FreeBSD/plan9_server.h). *)
From S2P Require Import Prelude CStr CNum.

Module Wire.

(** * MESSAGE_HEADER *)
Record MESSAGE_HEADER : Type := mk_header {
  MessageType : Z; MessageSize : Z; SequenceNumber : Z
}.
Definition sizeof_header : Z := 12.

(** The header's bytes on a little-endian machine. *)
Definition header_bytes (h : MESSAGE_HEADER) : bytes :=
  le_bytes 4 (MessageType h) ++ le_bytes 4 (MessageSize h) ++ le_bytes 4 (SequenceNumber h).
Definition read_header (buf : bytes) : MESSAGE_HEADER :=
  mk_header (get32 0 buf) (get32 4 buf) (get32 8 buf).

Lemma header_bytes_length h : length (header_bytes h) = 12%nat.
Proof. unfold header_bytes. by rewrite !length_app, !le_bytes_length. Qed.

Lemma read_header_bytes t n s rest :
  0 <= t < 2 ^ 32 -> 0 <= n < 2 ^ 32 -> 0 <= s < 2 ^ 32 ->
  read_header (header_bytes (mk_header t n s) ++ rest) = mk_header t n s.
Proof.
  intros Ht Hn Hs. unfold read_header, header_bytes.
  cbn [MessageType MessageSize SequenceNumber]. rewrite <-!app_assoc.
  f_equal; read_field; done.
Qed.

Lemma read_header_any_size t n s rest :
  0 <= t < 2 ^ 32 -> 0 <= s < 2 ^ 32 ->
  read_header (header_bytes (mk_header t n s) ++ rest) = mk_header t (n mod 2 ^ 32) s.
Proof.
  intros Ht Hs. unfold read_header, header_bytes.
  cbn [MessageType MessageSize SequenceNumber]. rewrite <-!app_assoc.
  f_equal; read_field; done.
Qed.

Lemma read_header_take n s : (12 <= n)%nat -> read_header (take n s) = read_header s.
Proof.
  intros Hn. unfold read_header, get32, get_le.
  assert (Hd : forall k, (k <= 8)%nat -> take 4 (drop k (take n s)) = take 4 (drop k s)).
  { intros k Hk. rewrite skipn_firstn_comm, take_take. f_equal. lia. }
  by rewrite !Hd by lia.
Qed.

Lemma read_header_app a b : (12 <= length a)%nat -> read_header (a ++ b) = read_header a.
Proof. intros H. by rewrite <-(read_header_take (length a) (a ++ b)), take_app_length by lia. Qed.

(** * Socket events *)

(** What one system call of a transfer loop does: it moves between 1 and
    [S n] bytes; it is not ready, and the following [poll] succeeds or times
    out; it is interrupted; it fails or sees the end of the stream. *)
Inductive sock_event : Type :=
| Progress (n : nat)
| Again (ready : bool)
| Intr
| Failed.

(** The two retry disciplines of the source. *)
Definition retry_again (e : sock_event) : bool := match e with Again true => true | _ => false end.
Definition retry_intr (e : sock_event) : bool := match e with Intr => true | _ => false end.

(** The state in which a transfer ends: [Some 0] or [Some (-1)] is the return
    value, [None] means the events ran out while the loop was still going. *)
Record xfer : Type := mk_xfer { x_rc : option Z; x_data : bytes; x_events : list sock_event }.

Section Loops.
Context (retry : sock_event -> bool).

(** The sending loop: [sent] is what the kernel accepted so far. *)
Fixpoint send_loop (evs : list sock_event) (buf sent : bytes) : xfer :=
  match buf with
  | [] => mk_xfer (Some 0) sent evs
  | _ :: _ =>
    match evs with
    | [] => mk_xfer None sent []
    | Progress n :: evs' => send_loop evs' (drop (S n) buf) (sent ++ take (S n) buf)
    | e :: evs' => if retry e then send_loop evs' buf sent else mk_xfer (Some (-1)) sent evs'
    end
  end.

(** The receiving loop over what the peer sends before it closes. *)
Fixpoint recv_loop (evs : list sock_event) (stream : bytes) (need : nat) (got : bytes) :
    xfer * bytes :=
  match need with
  | O => (mk_xfer (Some 0) got evs, stream)
  | S _ =>
    match evs with
    | [] => (mk_xfer None got [], stream)
    | Progress n :: evs' =>
      match stream with
      | [] => (mk_xfer (Some (-1)) got evs', [])
      | _ :: _ =>
        let d := take (min (S n) need) stream in
        recv_loop evs' (drop (min (S n) need) stream) (need - length d) (got ++ d)
      end
    | e :: evs' =>
      if retry e then recv_loop evs' stream need got else (mk_xfer (Some (-1)) got evs', stream)
    end
  end.

Lemma send_loop_nil evs sent : send_loop evs [] sent = mk_xfer (Some 0) sent evs.
Proof. by destruct evs. Qed.

Lemma send_loop_data evs buf sent :
  exists k, x_data (send_loop evs buf sent) = sent ++ take k buf
    /\ (x_rc (send_loop evs buf sent) = Some 0 -> take k buf = buf)
    /\ (x_rc (send_loop evs buf sent) <> Some 0 -> (k < length buf)%nat).
Proof.
  revert buf sent; induction evs as [|e evs IH]; intros buf sent.
  - destruct buf; cbn; [by exists 0%nat; rewrite app_nil_r|].
    exists 0%nat. rewrite app_nil_r. split; [done|]. split; [done|]. simpl; lia.
  - destruct buf as [|b buf]; [exists 0%nat; cbn; by rewrite app_nil_r|].
    assert (Hstop : forall rc : option Z, rc <> Some 0 -> exists k,
      sent = sent ++ take k (b :: buf)
      /\ (rc = Some 0 -> take k (b :: buf) = b :: buf)
      /\ (rc <> Some 0 -> (k < length (b :: buf))%nat)).
    { intros rc Hrc. exists 0%nat. rewrite app_nil_r. split; [done|]. split; [done|]. simpl; lia. }
    cbn [send_loop]. destruct e as [n|r| |];
      try (case_if; [apply IH|apply Hstop; done]).
    destruct (IH (drop (S n) (b :: buf)) (sent ++ take (S n) (b :: buf))) as (k & Hd & H0 & H1).
    destruct (decide (S n < length (b :: buf))%nat) as [Hlt|Hge].
    + exists (S n + k)%nat. rewrite <-take_take_drop. split; [by rewrite Hd, <-app_assoc|].
      split; [intros Hrc; rewrite H0 by done; apply take_drop|].
      intros Hrc. specialize (H1 Hrc). rewrite length_drop in H1. lia.
    + rewrite drop_ge, send_loop_nil by lia. cbn [x_data x_rc].
      exists (S n). rewrite take_ge by lia. repeat split; auto. done.
Qed.

Lemma recv_loop_data evs stream need got :
  exists k, x_data (fst (recv_loop evs stream need got)) = got ++ take k stream
    /\ snd (recv_loop evs stream need got) = drop k stream
    /\ (x_rc (fst (recv_loop evs stream need got)) = Some 0 -> k = need /\ (need <= length stream)%nat)
    /\ (k <= need)%nat.
Proof.
  revert stream need got; induction evs as [|e evs IH]; intros stream need got.
  - exists 0%nat. rewrite app_nil_r. destruct need; cbn; (repeat split; auto; try lia; done).
  - destruct need as [|need]; [exists 0%nat; cbn; rewrite app_nil_r; repeat split; auto; lia|].
    assert (Hstop : exists k, got = got ++ take k stream /\ stream = drop k stream
       /\ (Some (-1) = Some 0 -> k = S need /\ (S need <= length stream)%nat) /\ (k <= S need)%nat).
    { exists 0%nat. rewrite app_nil_r. repeat split; auto; try lia; done. }
    cbn [recv_loop]. destruct e as [n|r| |]; try (case_if; [apply IH|apply Hstop]).
    destruct stream as [|b stream]; [apply Hstop|].
    set (m := min (S n) (S need)). set (s := b :: stream) in *.
    destruct (IH (drop m s) (S need - length (take m s))%nat (got ++ take m s))
      as (k & Hd & Hr & H0 & Hk).
    assert (m <= S need)%nat by lia.
    destruct (decide (m <= length s)%nat) as [Hle|Hgt].
    + exists (m + k)%nat. rewrite Hd, Hr, <-take_take_drop, drop_drop, <-app_assoc.
      rewrite length_take, Nat.min_l in Hk, H0 by lia.
      split; [done|]. split; [done|]. split; [|lia].
      intros Hrc. rewrite length_take, Nat.min_l in Hrc by lia.
      destruct (H0 Hrc) as [-> Hl]. rewrite length_drop in Hl. lia.
    + rewrite (drop_ge s m), (take_ge s m) in * by lia. rewrite take_nil, drop_nil, app_nil_r in *.
      exists (length s). rewrite Hd, Hr, take_ge, drop_ge by lia.
      split; [done|]. split; [done|]. split; [|lia].
      intros Hrc. destruct (H0 Hrc) as [_ Hl]. cbn [length] in Hl. lia.
Qed.
End Loops.
(** * The loops of the source *)
Definition send_all (evs : list sock_event) (buf : bytes) : xfer := send_loop retry_again evs buf [].
Definition p9_writen (evs : list sock_event) (buf : bytes) : xfer := send_loop retry_intr evs buf [].
Definition recv_all (evs : list sock_event) (stream : bytes) (len : nat) : xfer * bytes :=
  recv_loop retry_again evs stream len [].
Definition p9_readn (evs : list sock_event) (stream : bytes) (n : nat) : xfer * bytes :=
  recv_loop retry_intr evs stream n [].

(** Calls that move at least one byte. *)
Definition progress (evs : list sock_event) : nat :=
  length (filter (fun e => match e with Progress _ => true | _ => false end = true) evs).
End Wire.
