(* ===== verification/Channel.v ===== *)
(** Messages between the upstream processes: MessageWriter
    (src/src/shared/inc/message.h), RecvMessage (socketshared.h), FromSpan
    (stringshared.h), and SocketChannel with its sequence numbers
    (SocketChannel.h, for Linux). *)
From S2P Require Import Prelude CStr CNum Wire.
Import Wire.

Module Channel.

(** * Writing a message *)

(** An assignment to an unsigned int inside the buffer. *)
Definition put32 (off : nat) (v : Z) (buf : bytes) : bytes := take off buf ++ le_bytes 4 v ++ drop (off + 4) buf.
Definition size_offset : nat := 4.

Section Writer.
(** The message type: the offset of Buffer, the size of the struct, which padding can
    make larger, and the value of Type. *)
Context (bufferOffset sizeof_TMessage : nat) (Type_ : Z).

Definition Size (buf : bytes) : Z := get32 4 buf.
(** The size after a change of the buffer. *)
Definition resized (buf : bytes) : bytes := put32 size_offset (Z.of_nat (length buf)) buf.

Definition MessageWriter : bytes :=
  put32 size_offset (Z.of_nat bufferOffset) (put32 0 Type_ (replicate bufferOffset 0)).

Definition WriteString (String : bytes) (buf : bytes) : bytes := resized (buf ++ String ++ [0]).
(** WriteString with the offset of the index inside the buffer. *)
Definition WriteString_at (Index : nat) (String : bytes) (buf : bytes) : bytes :=
  put32 Index (Size buf) (WriteString String buf).

Definition grow (n : nat) (buf : bytes) : bytes := resized (buf ++ replicate n 0).
Definition Span (buf : bytes) : bytes :=
  if (length buf <? sizeof_TMessage)%nat then grow (sizeof_TMessage - length buf) buf else buf.
(** The buffer after the insertion; the new bytes are at the old size. *)
Definition InsertBuffer (BufferSize : nat) (buf : bytes) : bytes := Span (grow BufferSize buf).
Definition InsertBuffer_at (Index BufferSize : nat) (buf : bytes) : bytes :=
  Span (resized (put32 Index (Size buf) (buf ++ replicate BufferSize 0))).
Definition InsertBuffer_sized (Index BufferSize SizeIndex : nat) (buf : bytes) : bytes :=
  InsertBuffer_at Index BufferSize (put32 SizeIndex (Z.of_nat BufferSize) buf).
Definition overwrite (off : nat) (s buf : bytes) : bytes := take off buf ++ s ++ drop (off + length s) buf.
Definition WriteSpan (s : bytes) (buf : bytes) : bytes :=
  overwrite (Z.to_nat (Size buf)) s (InsertBuffer (length s) buf).
End Writer.

(** The reader of a string; [None] throws. *)
Definition FromSpan (Span : bytes) (Offset : nat) : option bytes :=
  if (length Span <? Offset)%nat then None
  else
    let String := drop Offset Span in
    if nul_terminated String then Some (to_cstr String) else None.

(** * Receiving *)

(** What one recv does: at least one and at most [S n] of the bytes that are there, or
    none at the end of the stream; with MSG_WAITALL all that were asked for, unless a
    signal cuts it ([Cut]). *)
Inductive recv_event : Type := Data (n : nat) | Cut (n : nat) | Recv_intr | Recv_error.

(** An empty span stands for the end of the stream, and for every exception, which
    the function catches itself. *)
Inductive received : Type := Message (m : bytes) | Empty | Waiting.

Fixpoint recv_body (evs : list recv_event) (stream : bytes) (need : nat) (got : bytes) : received * list recv_event * bytes :=
  match need with
  | O => (Message got, evs, stream)
  | S _ =>
    match evs with
    | [] => (Waiting, [], stream)
    | Recv_intr :: evs' => recv_body evs' stream need got
    | Recv_error :: evs' => (Empty, evs', stream)
    | (Data n | Cut n) :: evs' =>
      match stream with
      | [] => (Empty, evs', [])
      | _ :: _ =>
        let d := take (min (S n) need) stream in
        recv_body evs' (drop (min (S n) need) stream) (need - length d) (got ++ d)
      end
    end
  end.

Fixpoint RecvMessage (evs : list recv_event) (stream : bytes) : received * list recv_event * bytes :=
  match evs with
  | [] => (Waiting, [], stream)
  | Recv_intr :: evs' => RecvMessage evs' stream
  | Recv_error :: evs' => (Empty, evs', stream)
  | e :: evs' =>
    let n := match e with Cut n => min (S n) 12 | _ => 12%nat end in
    let header := take n stream in
    let rest := drop n stream in
    if (length header <? 12)%nat then (Empty, evs', rest)
    else
      let MessageSize := MessageSize (read_header header) in
      if MessageSize <? sizeof_header then (Empty, evs', rest)
      else recv_body evs' rest (Z.to_nat (MessageSize - sizeof_header)) header
  end.

(** * The channel *)
Record SocketChannel : Type := mk_channel {
  m_sent_messages : Z; m_received_messages : Z; m_ignore_sequence : bool
}.
#[export] Instance channel_eta : Eta SocketChannel := fun c =>
  mk_channel (m_sent_messages c) (m_received_messages c) (m_ignore_sequence c).

Definition new_channel : SocketChannel := mk_channel 0 0 false.
Definition IgnoreSequenceNumbers (c : SocketChannel) : SocketChannel := c <| m_ignore_sequence := true |>.
(** operator= for a moved channel: the counters of the target stay. *)
Definition move_assign (this other : SocketChannel) : SocketChannel := this <| m_ignore_sequence := m_ignore_sequence other |>.
Definition moved (other : SocketChannel) : SocketChannel := move_assign new_channel other.

Inductive result (A : Type) : Type := Ok (x : A) | Throw_invalid | Throw_write | Blocked.
Arguments Ok {A}. Arguments Throw_invalid {A}. Arguments Throw_write {A}. Arguments Blocked {A}.

Definition LxMiniInitMessageAny : Z := 0.
Definition sequence_offset : nat := 8.

(** [size]: sizeof(TMessage).  What is written comes first. *)
Definition SendMessage (size : nat) (evs : list sock_event) (span : bytes) (c : SocketChannel) : bytes * result unit * SocketChannel :=
  if (length span <? size)%nat then ([], Throw_invalid, c)
  else
    let c := c <| m_sent_messages := u32 (m_sent_messages c + 1) |> in
    let span := put32 sequence_offset (m_sent_messages c) span in
    let x := send_loop retry_intr evs span [] in
    (x_data x, match x_rc x with Some 0 => Ok tt | Some _ => Throw_write | None => Blocked end, c).

(** The overload for a struct. *)
Definition SendMessage_struct (evs : list sock_event) (message : bytes) (c : SocketChannel) : bytes * result unit * SocketChannel :=
  if negb (get32 4 message =? Z.of_nat (length message)) then ([], Throw_invalid, c)
  else SendMessage (length message) evs message c.

(** [width] bytes of the result, up to four; the struct is padded with zeros. *)
Definition SendResultMessage (Type_ : Z) (width : nat) (value : Z) (evs : list sock_event) (c : SocketChannel) : bytes * result unit * SocketChannel :=
  SendMessage_struct evs (header_bytes (mk_header Type_ 16 0) ++ le_bytes width value ++ replicate (4 - width) 0) c.

Definition ValidateMessageHeader (header : MESSAGE_HEADER) (expected expectedSequence : Z) (c : SocketChannel) : bool :=
  negb ((MessageSize header <? sizeof_header) ||
        (negb (expected =? LxMiniInitMessageAny) && negb (MessageType header =? expected)) ||
        (negb (m_ignore_sequence c) && negb (SequenceNumber header =? expectedSequence))).

(** [None]: the channel is closed. *)
Definition ReceiveMessageOrClosed (expected : Z) (size : nat) (evs : list recv_event) (stream : bytes) (c : SocketChannel) :
    result (option bytes) * list recv_event * bytes * SocketChannel :=
  let c := c <| m_received_messages := u32 (m_received_messages c + 1) |> in
  match RecvMessage evs stream with
  | (Waiting, evs, stream) => (Blocked, evs, stream, c)
  | (Empty, evs, stream) => (Ok None, evs, stream, c)
  | (Message m, evs, stream) =>
    if (length m <? size)%nat then (Throw_invalid, evs, stream, c)
    else if negb (ValidateMessageHeader (read_header m) expected (m_received_messages c) c) then (Throw_invalid, evs, stream, c)
    else (Ok (Some m), evs, stream, c)
  end.

Definition ReceiveMessage (expected : Z) (size : nat) (evs : list recv_event) (stream : bytes) (c : SocketChannel) :
    result bytes * list recv_event * bytes * SocketChannel :=
  let '(r, evs, stream, c) := ReceiveMessageOrClosed expected size evs stream c in
  (match r with
   | Ok (Some m) => Ok m | Ok None => Throw_invalid
   | Throw_invalid => Throw_invalid | Throw_write => Throw_write | Blocked => Blocked
   end, evs, stream, c).

(** [response]: what comes back is a function of what was written. *)
Definition Transaction (size : nat) (span : bytes) (sends : list sock_event) (expected : Z) (rsize : nat) (recvs : list recv_event)
    (response : bytes -> bytes) (c : SocketChannel) : bytes * result bytes * SocketChannel :=
  let '(written, r, c) := SendMessage size sends span c in
  match r with
  | Ok _ => let '(r, _, _, c) := ReceiveMessage expected rsize recvs (response written) c in (written, r, c)
  | Throw_invalid => (written, Throw_invalid, c)
  | Throw_write => (written, Throw_write, c)
  | Blocked => (written, Blocked, c)
  end.

End Channel.
