(* ===== verification/DnsServer.v ===== *)
(** The DNS server of the upstream init (src/src/linux/init/DnsServer.cpp), its channel to
    the host (DnsTunnelingChannel.cpp) and the manager that joins them
    (DnsTunnelingManager.cpp), over a system that answers calls. *)
From stdpp Require Import gmap.
From S2P Require Import Prelude CStr CNum Wire Channel.

Module DnsServer.
Import Wire.

Definition IPPROTO_TCP : Z := 6.
Definition IPPROTO_UDP : Z := 17.
Definition c_byteCountTcpRequestLength : nat := 2.
Definition c_dnsServerPort : Z := 53.
Definition c_epollWaitMaxEvents : nat := 100.
Definition c_maxUdpDnsBufferSize : nat := 4096.
Definition c_maxListenBacklog : Z := 1000.
Definition SOCK_STREAM : Z := 1.
Definition SOCK_DGRAM : Z := 2.

(** * State *)

(** A request on its way to the host, with its LX_GNS_DNS_CLIENT_IDENTIFIER. *)
Record request : Type := mk_request { Protocol : Z; DnsClientId : Z; dnsBuffer : bytes }.

Record TcpConnectionContext : Type := mk_context {
  m_tcpConnection : Z; m_currentRequestOffset : Z; m_currentDnsRequest : bytes; m_connectionId : Z
}.
#[export] Instance context_eta : Eta TcpConnectionContext := fun c =>
  mk_context (m_tcpConnection c) (m_currentRequestOffset c) (m_currentDnsRequest c) (m_connectionId c).

(** [connection]: the one whose buffer is filled. *)
Inductive call : Type :=
| Epoll_create | Pipe | Socket (type : Z) | Bind (fd : Z) (address : bytes) (port : Z) | Listen (fd backlog : Z)
| Epoll_add (fd data : Z) | Epoll_wait (maxevents : nat)
| Accept4 (fd : Z) | Make_context | Recv (fd connection : Z) (size : nat) | Recvfrom (fd : Z) (size : nat)
| Sendto (fd : Z) (data address : bytes) | Write (fd : Z) (data : bytes) | Close (fd : Z)
| Tunnel (r : request) | Start_thread.

(** What the system answers: the result, negative when the call fails, the received bytes
    and their sender, and the data of the ready events. *)
Record answer : Type := mk_answer { ret : Z; data : bytes; from : bytes; events : list Z }.

(** The server; [heap] holds the contexts, by address, that the table owns.  The thread of
    the server has [ready] events to go through, and in the middle of one a request
    [pending] that it has read and is to tunnel.  Then what the system will answer, and
    what was done, oldest first. *)
Record dns : Type := mk_dns {
  m_epollFd : Z; m_udpSocket : Z; m_tcpListenSocket : Z; m_shutdown_read : Z; m_shutdown_write : Z;
  m_currentUdpRequestId : Z; m_udpRequests : gmap Z bytes;
  m_currentTcpConnectionId : Z; m_tcpConnectionContexts : gmap Z Z; heap : gmap Z TcpConnectionContext;
  running : bool; ready : list Z; pending : option request;
  answers : list answer; trace : list (call * answer)
}.
#[export] Instance dns_eta : Eta dns := fun s =>
  mk_dns (m_epollFd s) (m_udpSocket s) (m_tcpListenSocket s) (m_shutdown_read s) (m_shutdown_write s)
    (m_currentUdpRequestId s) (m_udpRequests s) (m_currentTcpConnectionId s) (m_tcpConnectionContexts s) (heap s)
    (running s) (ready s) (pending s) (answers s) (trace s).
(** The object before Start; [-1] is no descriptor. *)
Definition new_server (l : list answer) : dns := mk_dns (-1) (-1) (-1) (-1) (-1) 0 ∅ 0 ∅ ∅ false [] None l [].

(** [Undefined]: an object is used after its end.  [Blocked]: the system does not answer,
    or gives what it cannot give. *)
Inductive outcome (A : Type) : Type := Return (x : A) | Throw | Undefined | Blocked.
Arguments Return {A} x.
Arguments Throw {A}.
Arguments Undefined {A}.
Arguments Blocked {A}.

Definition M (A : Type) : Type := dns -> outcome A * dns.
#[export] Instance M_ret : MRet M := fun A x s => (Return x, s).
#[export] Instance M_bind : MBind M := fun A B f m s =>
  match m s with
  | (Return x, s') => f x s' | (Throw, s') => (Throw, s') | (Undefined, s') => (Undefined, s') | (Blocked, s') => (Blocked, s')
  end.
Definition throw {A} : M A := fun s => (Throw, s).
Definition blocked {A} : M A := fun s => (Blocked, s).
Definition undefined {A} : M A := fun s => (Undefined, s).
Definition skip : M unit := mret tt.
Definition try {A} (m handler : M A) : M A := fun s => match m s with (Throw, s') => handler s' | r => r end.
Definition CATCH_LOG (m : M unit) : M unit := try m skip.
Definition gets {A} (f : dns -> A) : M A := fun s => (Return (f s), s).
Definition modify (f : dns -> dns) : M unit := fun s => (Return tt, f s).

Definition did (c : call) (a : answer) (s : dns) : dns := s <| trace := trace s ++ [(c, a)] |>.
Definition do (c : call) : M answer := fun s =>
  match answers s with [] => (Blocked, s) | a :: l => (Return a, did c a (s <| answers := l |>)) end.
Definition Syscall (c : call) : M answer := a ← do c; if ret a <? 0 then throw else mret a.
(** Closing is not answered. *)
Definition close (fd : Z) : M unit := modify (did (Close fd) (mk_answer 0 [] [] [])).

(** * Starting *)
Section Start.
(** inet_pton for AF_INET: the four bytes of a valid address.  For an invalid one it
    returns 0, which Syscall lets through, and the address stays zero. *)
Context (inet_pton : bytes -> option bytes).
Definition sin_addr (ipAddress : bytes) : bytes := match inet_pton ipAddress with Some a => a | None => [0; 0; 0; 0] end.

Definition StartUdpDnsServer (ipAddress : bytes) : M unit := CATCH_LOG (
  a ← Syscall (Socket SOCK_DGRAM); modify (fun s => s <| m_udpSocket := ret a |>);;
  Syscall (Bind (ret a) (sin_addr ipAddress) c_dnsServerPort);;
  Syscall (Epoll_add (ret a) (ret a));; skip).
Definition StartTcpDnsServer (ipAddress : bytes) : M unit := CATCH_LOG (
  a ← Syscall (Socket SOCK_STREAM); modify (fun s => s <| m_tcpListenSocket := ret a |>);;
  Syscall (Bind (ret a) (sin_addr ipAddress) c_dnsServerPort);;
  Syscall (Listen (ret a) c_maxListenBacklog);;
  Syscall (Epoll_add (ret a) (ret a));; skip).
(** The pipe's answer holds its read end, and [from] its write end. *)
Definition Start (ipAddress : bytes) : M unit := CATCH_LOG (
  a ← Syscall Epoll_create; modify (fun s => s <| m_epollFd := ret a |>);;
  StartUdpDnsServer ipAddress;;
  StartTcpDnsServer ipAddress;;
  p ← Syscall Pipe; modify (fun s => s <| m_shutdown_read := ret p |> <| m_shutdown_write := get32 0 (from p) |>);;
  Syscall (Epoll_add (ret p) (ret p));;
  Syscall Start_thread;; modify (fun s => s <| running := true |>)).
End Start.

(** * Requests over UDP *)

(** The part under the lock: the request that was read is tracked. *)
Definition read_udp_request : M (option request) :=
  fd ← gets m_udpSocket;
  a ← Syscall (Recvfrom fd c_maxUdpDnsBufferSize);
  let b := take c_maxUdpDnsBufferSize (data a) in
  match b with
  | [] => mret None
  | _ =>
    requestId ← gets m_currentUdpRequestId;
    modify (fun s => s <| m_currentUdpRequestId := u32 (requestId + 1) |>);;
    modify (fun s => match m_udpRequests s !! requestId with
                     | Some _ => s | None => s <| m_udpRequests := <[requestId := from a]> (m_udpRequests s) |> end);;
    mret (Some (mk_request IPPROTO_UDP requestId b))
  end.
Definition forget_udp (id : Z) : M unit := modify (fun s => s <| m_udpRequests := delete id (m_udpRequests s) |>).
(** The part after it, which for UDP forgets the request when the callback throws. *)
Definition tunnel (r : request) : M unit :=
  if Protocol r =? IPPROTO_UDP then try (Syscall (Tunnel r);; skip) (forget_udp (DnsClientId r);; throw)
  else Syscall (Tunnel r);; skip.
Definition HandleUdpDnsRequest : M unit := CATCH_LOG (
  r ← read_udp_request; match r with Some r => tunnel r | None => skip end).

(** * Requests over TCP *)
Definition destroy (address : Z) : M unit := fun s =>
  match heap s !! address with
  | Some c => (close (m_tcpConnection c);; modify (fun s => s <| heap := delete address (heap s) |>)) s
  | None => (Undefined, s)
  end.
(** Erasing an entry of the table destroys the context that it owns. *)
Definition erase (id : Z) : M unit :=
  t ← gets m_tcpConnectionContexts;
  match t !! id with
  | Some address => modify (fun s => s <| m_tcpConnectionContexts := delete id (m_tcpConnectionContexts s) |>);; destroy address
  | None => skip
  end.
Definition deref (address : Z) : M TcpConnectionContext := fun s =>
  match heap s !! address with Some c => (Return c, s) | None => (Undefined, s) end.
Definition store (address : Z) (c : TcpConnectionContext) : M unit := modify (fun s => s <| heap := <[address := c]> (heap s) |>).

Definition new_context (id fd : Z) : TcpConnectionContext := mk_context fd 0 (replicate c_byteCountTcpRequestLength 0) id.
(** The allocator answers with an address that is not in use. *)
Definition make_context (id fd : Z) : M Z :=
  a ← do Make_context;
  h ← gets heap;
  match h !! ret a with
  | Some _ => blocked
  | None => store (ret a) (new_context id fd);; mret (ret a)
  end.
(** map::emplace, with what it returns; an entry that is there stays and the new context
    is destroyed. *)
Definition emplace (id address : Z) : M Z :=
  t ← gets m_tcpConnectionContexts;
  match t !! id with
  | Some old => destroy address;; mret old
  | None => modify (fun s => s <| m_tcpConnectionContexts := <[id := address]> (m_tcpConnectionContexts s) |>);; mret address
  end.
Definition HandleNewTcpConnection : M unit := CATCH_LOG (
  fd ← gets m_tcpListenSocket;
  a ← Syscall (Accept4 fd);
  connectionId ← gets m_currentTcpConnectionId;
  modify (fun s => s <| m_currentTcpConnectionId := u32 (connectionId + 1) |>);;
  new ← make_context connectionId (ret a);
  localContext ← emplace connectionId new;
  c ← deref localContext;
  try (Syscall (Epoll_add (m_tcpConnection c) localContext);; skip) (erase connectionId;; throw)).

Definition resize (n : nat) (b : bytes) : bytes := take n b ++ replicate (n - length b) 0.
Definition ntohs (b : bytes) : Z := 256 * nth 0 b 0 + nth 1 b 0.
(** The context after [b] was received into its buffer, and the request that is complete. *)
Definition received (b : bytes) (c : TcpConnectionContext) : TcpConnectionContext * option request :=
  let buf := Channel.overwrite (Z.to_nat (m_currentRequestOffset c)) b (m_currentDnsRequest c) in
  let offset := u16 (m_currentRequestOffset c + Z.of_nat (length b)) in
  let c := c <| m_currentDnsRequest := buf |> <| m_currentRequestOffset := offset |> in
  if negb (offset =? Z.of_nat (length buf)) then (c, None)
  else if (length buf =? c_byteCountTcpRequestLength)%nat then
    (c <| m_currentDnsRequest := resize (c_byteCountTcpRequestLength + Z.to_nat (ntohs buf)) buf |>, None)
  else
    (c <| m_currentRequestOffset := 0 |> <| m_currentDnsRequest := replicate c_byteCountTcpRequestLength 0 |>,
     Some (mk_request IPPROTO_TCP (m_connectionId c) buf)).
(** The part under the lock. *)
Definition room (c : TcpConnectionContext) : nat := length (m_currentDnsRequest c) - Z.to_nat (m_currentRequestOffset c).
Definition read_tcp_data (context : Z) : M (option request) :=
  c ← deref context;
  let on_error := erase (m_connectionId c) in
  a ← try (Syscall (Recv (m_tcpConnection c) (m_connectionId c) (room c))) (on_error;; throw);
  match take (room c) (data a) with
  | [] => on_error;; mret None
  | b => let '(c, r) := received b c in store context c;; mret r
  end.
Definition HandleNewTcpData (context : Z) : M unit := CATCH_LOG (
  r ← read_tcp_data context; match r with Some r => tunnel r | None => skip end).

(** * Responses *)

(** [c]: the call that sends the rest of the response. *)
Fixpoint send_rest (fuel : nat) (c : bytes -> call) (rest : bytes) : M unit :=
  match rest with
  | [] => skip
  | _ =>
    match fuel with
    | O => blocked
    | S fuel' => a ← Syscall (c rest); send_rest fuel' c (drop (Z.to_nat (ret a)) rest)
    end
  end.
(** Every turn takes an answer. *)
Definition send_response (c : bytes -> call) (response : bytes) : M unit := fun s => send_rest (S (length (answers s))) c response s.

Definition HandleUdpDnsResponse (response : bytes) (id : Z) : M unit := CATCH_LOG (
  requests ← gets m_udpRequests;
  match requests !! id with
  | None => skip
  | Some remoteAddr =>
    fd ← gets m_udpSocket;
    try (send_response (fun rest => Sendto fd rest remoteAddr) response) (forget_udp id;; throw);;
    forget_udp id
  end).
Definition HandleTcpDnsResponse (response : bytes) (id : Z) : M unit := CATCH_LOG (
  t ← gets m_tcpConnectionContexts;
  match t !! id with
  | None => skip
  | Some address => c ← deref address; send_response (Write (m_tcpConnection c)) response
  end).
Definition HandleDnsResponse (r : request) : M unit := CATCH_LOG (
  if Protocol r =? IPPROTO_UDP then HandleUdpDnsResponse (dnsBuffer r) (DnsClientId r)
  else if Protocol r =? IPPROTO_TCP then HandleTcpDnsResponse (dnsBuffer r) (DnsClientId r)
  else skip).

(** * The server's thread *)

(** epoll_data is a union: the descriptor is the low half of the address. *)
Definition data_fd (d : Z) : Z := to_int (u32 d).
Inductive target : Type := Shutdown | Listening | Udp | Connection.
Definition target_of (s : dns) (d : Z) : target :=
  if data_fd d =? m_shutdown_read s then Shutdown
  else if data_fd d =? m_tcpListenSocket s then Listening
  else if data_fd d =? m_udpSocket s then Udp
  else Connection.

(** One event, whole. *)
Definition dispatch (d : Z) : M unit := fun s =>
  match target_of s d with
  | Shutdown => modify (fun s => s <| running := false |>) s
  | Listening => HandleNewTcpConnection s
  | Udp => HandleUdpDnsRequest s
  | Connection => HandleNewTcpData d s
  end.
Definition if_running (m : M unit) : M unit := fun s => if running s then m s else (Return tt, s).
(** A turn of ServerLoop: events are waited for and gone through, up to the shutdown. *)
Fixpoint dispatch_all (l : list Z) : M unit :=
  match l with
  | [] => skip
  | d :: l' => dispatch d;; if_running (dispatch_all l')
  end.
Definition wait_events : M (list Z) :=
  fd ← gets m_epollFd; a ← Syscall (Epoll_wait c_epollWaitMaxEvents); mret (take c_epollWaitMaxEvents (events a)).
Fixpoint ServerLoop (fuel : nat) : M unit :=
  match fuel with
  | O => blocked
  | S fuel' => CATCH_LOG (l ← wait_events; dispatch_all l);; if_running (ServerLoop fuel')
  end.

(** The same in steps, between which the thread of the channel can take the locks: an
    event up to the end of its locked part, or the tunneling that is left of it. *)
Definition then_pending (m : M (option request)) : M unit :=
  CATCH_LOG (r ← m; modify (fun s => s <| pending := r |>)).
Definition begin_event (d : Z) : M unit := fun s =>
  match target_of s d with
  | Shutdown => modify (fun s => s <| running := false |>) s
  | Listening => HandleNewTcpConnection s
  | Udp => then_pending read_udp_request s
  | Connection => then_pending (read_tcp_data d) s
  end.
Definition server_step : M unit := if_running (fun s =>
  match pending s, ready s with
  | Some r, _ => (modify (fun s => s <| pending := None |>);; CATCH_LOG (tunnel r)) s
  | None, d :: l => (modify (fun s => s <| ready := l |>);; begin_event d) s
  | None, [] => CATCH_LOG (l ← wait_events; modify (fun s => s <| ready := l |>)) s
  end).

(** The threads in any order. *)
Inductive label : Type := Server | Response (r : request).
Fixpoint run (l : list label) : M unit :=
  match l with
  | [] => skip
  | Server :: l' => server_step;; run l'
  | Response r :: l' => HandleDnsResponse r;; run l'
  end.

(** Closing the write end is the shutdown event; the thread is joined. *)
Definition Stop : M unit := fun s =>
  (if m_shutdown_write s =? -1 then skip else close (m_shutdown_write s);; modify (fun s => s <| m_shutdown_write := -1 |>)) s.

(** * The channel to the host *)
Definition LxGnsMessageDnsTunneling : Z := 70.
(** The identifier inside the message: a byte, padding and an unsigned int. *)
Definition identifier_offset : nat := 12.
Definition buffer_offset : nat := 20.
Definition identifier_bytes (r : request) : bytes := le_bytes 1 (Protocol r) ++ [0; 0; 0] ++ le_bytes 4 (DnsClientId r).
Definition dns_message (r : request) : bytes :=
  let message := Channel.MessageWriter buffer_offset LxGnsMessageDnsTunneling in
  let message := Channel.overwrite identifier_offset (identifier_bytes r) message in
  Channel.Span buffer_offset (Channel.WriteSpan buffer_offset (dnsBuffer r) message).
(** What is written, and the channel; exceptions are caught. *)
Definition SendDnsMessage (evs : list sock_event) (r : request) (c : Channel.SocketChannel) : bytes * Channel.SocketChannel :=
  let '(written, _, c) := Channel.SendMessage buffer_offset evs (dns_message r) c in (written, c).

(** What poll does: it is interrupted, fails, times out, or says whether there is
    something in the pipe and in the channel. *)
Inductive poll_event : Type := Poll_intr | Poll_failed | Poll_timeout | Polled (shutdown channel : bool).
Inductive waited : Type := Wait_exit | Wait_data | Wait_throw | Wait_more.
Definition maxRetryCount : nat := 3.
Fixpoint wait_for_channel_fd (retryCount : nat) (polls : list poll_event) : waited * list poll_event :=
  match polls with
  | [] => (Wait_more, [])
  | Poll_intr :: polls' =>
    if (S retryCount <? maxRetryCount)%nat then wait_for_channel_fd (S retryCount) polls' else (Wait_exit, polls')
  | Poll_failed :: polls' => (Wait_throw, polls')
  | Poll_timeout :: polls' => (Wait_exit, polls')
  | Polled true _ :: polls' => (Wait_exit, polls')
  | Polled false true :: polls' => (Wait_data, polls')
  | Polled false false :: polls' => wait_for_channel_fd retryCount polls'
  end.

(** One message of the loop: the response it reports, or an exception, or the end. *)
Inductive turn : Type := Reported (r : request) | Thrown | Ended | Waiting.
Definition read_request (m : bytes) : request := mk_request (nth identifier_offset m 0) (get32 16 m) (drop buffer_offset m).
Definition receive_turn (evs : list Channel.recv_event) (stream : bytes) (c : Channel.SocketChannel) :
    turn * list Channel.recv_event * bytes * Channel.SocketChannel :=
  let '(r, evs, stream, c) := Channel.ReceiveMessageOrClosed Channel.LxMiniInitMessageAny 12 evs stream c in
  (match r with
   | Channel.Ok None => Ended
   | Channel.Ok (Some m) =>
     if negb (MessageType (read_header m) =? LxGnsMessageDnsTunneling) then Thrown
     else if (length m <? buffer_offset)%nat then Ended
     else Reported (read_request m)
   | Channel.Throw_invalid | Channel.Throw_write => Thrown
   | Channel.Blocked => Waiting
   end, evs, stream, c).
(** The responses that are reported in order, and whether the loop ended.  Every turn
    takes a poll, or its end is reached. *)
Fixpoint receive_loop (fuel : nat) (polls : list poll_event) (evs : list Channel.recv_event) (stream : bytes) (c : Channel.SocketChannel) :
    list request * bool :=
  match fuel with
  | O => ([], false)
  | S fuel' =>
    match wait_for_channel_fd 0 polls with
    | (Wait_more, _) => ([], false)
    | (Wait_exit, _) => ([], true)
    | (Wait_throw, polls) => receive_loop fuel' polls evs stream c
    | (Wait_data, polls) =>
      match receive_turn evs stream c with
      | (Reported r, evs, stream, c) => let '(l, ended) := receive_loop fuel' polls evs stream c in (r :: l, ended)
      | (Thrown, evs, stream, c) => receive_loop fuel' polls evs stream c
      | (Ended, _, _, _) => ([], true)
      | (Waiting, _, _, _) => ([], false)
      end
    end
  end.
Definition ReceiveLoop (polls : list poll_event) : list Channel.recv_event -> bytes -> Channel.SocketChannel -> list request * bool :=
  receive_loop (S (length polls)) polls.

(** * The manager *)

(** Its callbacks: a response goes to the server, and a request to the channel until
    the manager stops. *)
Definition report_response (r : request) : M unit := HandleDnsResponse r.
Definition tunnel_request (m_stopped : bool) (evs : list sock_event) (r : request) (c : Channel.SocketChannel) : bytes * Channel.SocketChannel :=
  if m_stopped then ([], c) else SendDnsMessage evs r c.
(** What the tunneled requests put on the channel, each with the events of its sending. *)
Fixpoint tunnel_requests (m_stopped : bool) (l : list (list sock_event * request)) (c : Channel.SocketChannel) : bytes * Channel.SocketChannel :=
  match l with
  | [] => ([], c)
  | (evs, r) :: l' =>
    let '(written, c) := tunnel_request m_stopped evs r c in
    let '(rest, c) := tunnel_requests m_stopped l' c in (written ++ rest, c)
  end.

(** DnsTunnelingChannel::Stop, which takes the write end of its pipe and gives what it is
    afterwards, and the end of the manager: the flag m_stopped, which it sets first. *)
Definition channel_Stop (m_shutdownReceiveWorkerPipe : Z) : M Z :=
  if m_shutdownReceiveWorkerPipe =? -1 then mret (-1) else close m_shutdownReceiveWorkerPipe;; mret (-1).
Definition stop_manager (m_shutdownReceiveWorkerPipe : Z) : M (bool * Z) :=
  p ← channel_Stop m_shutdownReceiveWorkerPipe; Stop;; mret (true, p).

End DnsServer.
