(* ===== verification/ChannelThm.v ===== *)
(** Theorems on the wire (WireThm): sending and receiving whole buffers; and on the
    channels of the upstream programs (ChannelThm): messages as they are written and read. *)
From S2P Require Import Prelude CStr CNum Wire Channel.

Import Wire.

Module WireThm.

Lemma send_loop_progress retry evs buf sent :
  (length buf <= progress evs)%nat -> x_rc (send_loop retry evs buf sent) <> None.
Proof.
  revert buf sent; induction evs as [|e evs IH]; intros buf sent H.
  - destruct buf; [done|]. cbn in H. lia.
  - destruct buf as [|b buf]; [done|]. cbn [send_loop].
    unfold progress in *. destruct e as [n|r| |];
      (rewrite filter_cons_True in H by done) || (rewrite filter_cons_False in H by done);
      try (case_if; [by apply IH|done]).
    apply IH. rewrite length_drop. cbn [length] in H |- *. lia.
Qed.

Lemma recv_loop_progress retry evs stream need got :
  (need <= progress evs)%nat -> x_rc (fst (recv_loop retry evs stream need got)) <> None.
Proof.
  revert stream need got; induction evs as [|e evs IH]; intros stream need got H.
  - destruct need; [done|]. cbn in H. lia.
  - destruct need as [|need]; [done|]. cbn [recv_loop].
    unfold progress in *. destruct e as [n|r| |];
      (rewrite filter_cons_True in H by done) || (rewrite filter_cons_False in H by done);
      try (case_if; [by apply IH|done]).
    destruct stream as [|b stream]; [done|]. apply IH.
    rewrite length_take. cbn [length] in H |- *. lia.
Qed.

Lemma send_loop_rc retry evs buf sent :
  x_rc (send_loop retry evs buf sent) = None \/ x_rc (send_loop retry evs buf sent) = Some 0
  \/ x_rc (send_loop retry evs buf sent) = Some (-1).
Proof.
  revert buf sent; induction evs as [|e evs IH]; intros [|b buf] sent; cbn [send_loop x_rc]; auto.
  destruct e; try apply IH; case_if; try apply IH; cbn; auto.
Qed.

Lemma send_loop_exact retry evs buf :
  let r := send_loop retry evs buf [] in
  (exists k, x_data r = take k buf)
  /\ (x_rc r = Some 0 <-> x_data r = buf)
  /\ ((length buf <= progress evs)%nat -> x_rc r <> None).
Proof.
  intros r. destruct (send_loop_data retry evs buf []) as (k & Hd & H0 & H1). fold r in Hd, H0, H1.
  cbn [app] in Hd. split; [by exists k|]. split; [|apply send_loop_progress].
  split; [intros Hrc; rewrite Hd; auto|]. intros He.
  destruct (decide (x_rc r = Some 0)) as [|Hne]; [done|]. specialize (H1 Hne).
  rewrite He in Hd. apply (f_equal length) in Hd. rewrite length_take in Hd. lia.
Qed.

Lemma recv_loop_exact retry evs stream len :
  let r := recv_loop retry evs stream len [] in
  x_data (fst r) ++ snd r = stream
  /\ (x_rc (fst r) = Some 0 -> x_data (fst r) = take len stream /\ (len <= length stream)%nat)
  /\ (length (x_data (fst r)) <= len)%nat
  /\ ((len <= progress evs)%nat -> x_rc (fst r) <> None).
Proof.
  intros r. destruct (recv_loop_data retry evs stream len []) as (k & Hd & Hr & H0 & Hk).
  fold r in Hd, Hr, H0. cbn [app] in Hd. rewrite Hd, Hr.
  split; [apply take_drop|]. split; [intros Hrc; by destruct (H0 Hrc) as [-> ?]|].
  split; [rewrite length_take; lia|apply recv_loop_progress].
Qed.

(** * Working sockets *)

(** Events of a socket that works: data moves, or the wait succeeds. *)
Definition working (retry : sock_event -> bool) (e : sock_event) : Prop :=
  match e with Progress _ => True | _ => retry e = true end.
Definition healthy (evs : list sock_event) : Prop := Forall (working retry_again) evs.

Lemma progress_cons e evs :
  progress (e :: evs) = ((match e with Progress _ => 1 | _ => 0 end) + progress evs)%nat.
Proof. unfold progress. by destruct e. Qed.

(** Enough of them complete a receive of [need] bytes, using at most [need]. *)
Lemma recv_loop_complete retry evs stream need got :
  Forall (working retry) evs -> (need <= progress evs)%nat -> (need <= length stream)%nat ->
  exists evs', recv_loop retry evs stream need got
      = (mk_xfer (Some 0) (got ++ take need stream) evs', drop need stream)
    /\ Forall (working retry) evs' /\ (progress evs <= progress evs' + need)%nat.
Proof.
  intros Hw. revert stream need got; induction Hw as [|e evs He Hw IH]; intros stream need got Hp Hs.
  - destruct need; [|cbn in Hp; lia]. exists []. rewrite app_nil_r. repeat split; auto.
  - destruct need as [|need]; [exists (e :: evs); rewrite app_nil_r; repeat split; auto; lia|].
    cbn [recv_loop]. rewrite progress_cons in Hp |- *.
    destruct e as [n|r| |]; cbn in He; try rewrite He; try (cbn in Hp; by apply IH).
    destruct stream as [|b stream]; [cbn in Hs; lia|]. set (s := b :: stream) in *.
    set (m := min (S n) (S need)) in *.
    assert (length (take m s) = m) as Hl by (rewrite length_take; lia). rewrite Hl.
    destruct (IH (drop m s) (S need - m)%nat (got ++ take m s)) as (evs' & Heq & Hw' & Hp');
      [lia|rewrite length_drop; lia|].
    exists evs'. rewrite Heq, drop_drop, <-app_assoc, take_take_drop.
    replace (m + (S need - m))%nat with (S need) by lia. repeat split; auto; lia.
Qed.

Lemma send_loop_complete retry evs buf sent :
  Forall (working retry) evs -> (length buf <= progress evs)%nat ->
  exists evs', send_loop retry evs buf sent = mk_xfer (Some 0) (sent ++ buf) evs'
    /\ Forall (working retry) evs' /\ (progress evs <= progress evs' + length buf)%nat.
Proof.
  intros Hw. revert buf sent; induction Hw as [|e evs He Hw IH]; intros buf sent Hp.
  - destruct buf; [|cbn in Hp; lia]. exists []. rewrite app_nil_r. repeat split; auto.
  - destruct buf as [|b buf]; [exists (e :: evs); rewrite app_nil_r; repeat split; auto; lia|].
    cbn [send_loop]. rewrite progress_cons in Hp |- *.
    destruct e as [n|r| |]; cbn in He; try rewrite He; try (cbn in Hp; by apply IH).
    set (s := b :: buf) in *.
    destruct (IH (drop (S n) s) (sent ++ take (S n) s)) as (evs' & Heq & Hw' & Hp');
      [rewrite length_drop; subst s; cbn [length] in *; lia|].
    exists evs'. rewrite Heq, <-app_assoc, take_drop. split; [done|]. split; [done|].
    rewrite length_drop in Hp'. subst s. cbn [length] in *. lia.
Qed.

Lemma send_all_complete evs buf :
  healthy evs -> (length buf <= progress evs)%nat ->
  exists evs', send_all evs buf = mk_xfer (Some 0) buf evs'
    /\ healthy evs' /\ (progress evs <= progress evs' + length buf)%nat.
Proof. apply send_loop_complete. Qed.

Lemma recv_all_complete evs stream need :
  healthy evs -> (need <= progress evs)%nat -> (need <= length stream)%nat ->
  exists evs', recv_all evs stream need = (mk_xfer (Some 0) (take need stream) evs', drop need stream)
    /\ healthy evs' /\ (progress evs <= progress evs' + need)%nat.
Proof. apply recv_loop_complete. Qed.

(** * Properties *)

(** A reliable send moves a prefix of the message, in order; it returns 0
    exactly when every byte was accepted, and it returns once the socket has
    accepted data as many times as the message has bytes. *)
Theorem send_all_exact evs buf :
  let r := send_all evs buf in
  (exists k, x_data r = take k buf)
  /\ (x_rc r = Some 0 <-> x_data r = buf)
  /\ ((length buf <= progress evs)%nat -> x_rc r <> None).
Proof. apply send_loop_exact. Qed.

(** The message goes out in two short writes around a full socket buffer. *)
Lemma send_all_exact_witness :
  let r := send_all [Progress 1; Again true; Progress 0; Progress 7] (str "hello") in
  x_data r = str "hello" /\ x_rc r = Some 0.
Proof.
  intros r. assert (x_data r = str "hello") as H by (vm_compute; reflexivity).
  split; [exact H|].
  exact (proj2 (proj1 (proj2 (send_all_exact [Progress 1; Again true; Progress 0; Progress 7] (str "hello")))) H).
Defined.

(** A reliable receive consumes bytes from the front of the stream and
    hands over exactly those: nothing is lost or reordered, never more than
    asked, and a return of 0 means exactly [len] bytes. *)
Theorem recv_all_exact evs stream len :
  let r := recv_all evs stream len in
  x_data (fst r) ++ snd r = stream
  /\ (x_rc (fst r) = Some 0 -> x_data (fst r) = take len stream /\ (len <= length stream)%nat)
  /\ (length (x_data (fst r)) <= len)%nat
  /\ ((len <= progress evs)%nat -> x_rc (fst r) <> None).
Proof. apply recv_loop_exact. Qed.

Lemma recv_all_exact_witness :
  let r := recv_all [Progress 1; Again true; Progress 9] (str "abcdef") 4 in
  x_rc (fst r) = Some 0 /\ x_data (fst r) = take 4 (str "abcdef").
Proof.
  intros r. assert (x_rc (fst r) = Some 0) as H by (vm_compute; reflexivity).
  split; [exact H|].
  exact (proj1 (proj1 (proj2 (recv_all_exact [Progress 1; Again true; Progress 9] (str "abcdef") 4)) H)).
Defined.

End WireThm.

Import Wire WireThm Channel.

Module ChannelThm.

(** * Fields *)
Lemma put32_length off v buf : (off + 4 <= length buf)%nat -> length (put32 off v buf) = length buf.
Proof. intros H. unfold put32. autorewrite with len. rewrite ?le_bytes_length. lia. Qed.
Lemma put32_app off v f t : (off + 4 <= length f)%nat -> put32 off v (f ++ t) = put32 off v f ++ t.
Proof. intros H. unfold put32. rewrite take_app_le, drop_app_le by lia. by rewrite <-!app_assoc. Qed.
Lemma get_le_put32_same off v buf : (off + 4 <= length buf)%nat -> get32 (Z.of_nat off) (put32 off v buf) = v mod 2 ^ 32.
Proof. intros H. unfold put32, get32. rewrite (get_le_app 4); [done|]. rewrite length_take. lia. Qed.
Definition disjoint (i j : nat) : Prop := (i + 4 <= j)%nat \/ (j + 4 <= i)%nat.
Lemma get32_put32_other i j v buf : disjoint i j -> (i + 4 <= length buf)%nat -> (j + 4 <= length buf)%nat ->
  get32 (Z.of_nat i) (put32 j v buf) = get32 (Z.of_nat i) buf.
Proof.
  intros Hd Hi Hj. unfold get32, get_le, put32. rewrite Nat2Z.id. f_equal. destruct Hd as [Hd|Hd].
  - rewrite drop_app_le by (rewrite length_take; lia). rewrite take_app_le by (rewrite length_drop, length_take; lia).
    rewrite skipn_firstn_comm, take_take. f_equal. lia.
  - rewrite drop_app_ge by (rewrite length_take; lia). rewrite drop_app_ge by (rewrite length_take, le_bytes_length; lia).
    rewrite drop_drop. do 2 f_equal. rewrite length_take, le_bytes_length. lia.
Qed.
Lemma get32_app off f t : (off + 4 <= length f)%nat -> get32 (Z.of_nat off) (f ++ t) = get32 (Z.of_nat off) f.
Proof.
  intros H. unfold get32, get_le. rewrite Nat2Z.id. f_equal.
  rewrite drop_app_le by lia. by rewrite take_app_le by (rewrite length_drop; lia).
Qed.

(** * Writing *)
Inductive write : Type :=
| W_string (s : bytes) | W_string_at (i : nat) (s : bytes) | W_span (s : bytes) | W_insert_at (i n : nat) | W_field (i : nat) (v : Z).
Definition index_of (w : write) : list nat :=
  match w with W_string_at i _ | W_insert_at i _ | W_field i _ => [i] | _ => [] end.
Definition indices (ws : list write) : list nat := flat_map index_of ws.

Section Writer.
Context (bufferOffset sizeof_TMessage : nat) (Type_ : Z).
Abbreviation Span := (Span sizeof_TMessage).
Definition run (buf : bytes) (w : write) : bytes :=
  match w with
  | W_string s => WriteString s buf
  | W_string_at i s => WriteString_at i s buf
  | W_span s => WriteSpan sizeof_TMessage s buf
  | W_insert_at i n => InsertBuffer_at sizeof_TMessage i n buf
  | W_field i v => put32 i v buf
  end.
Definition written (ws : list write) : bytes := Span (fold_left run ws (MessageWriter bufferOffset Type_)).

(** Indices lie behind the header, inside the struct. *)
Definition index_ok (i : nat) : Prop := (12 <= i)%nat /\ (i + 4 <= bufferOffset)%nat.

(** The buffer is the struct [f] and what was appended to it, [t].  [goes L f t f' t']:
    only the fields [L] and the size of the struct change, more is appended, and the
    size is right again. *)
Definition sized (f t : bytes) : Prop := get32 4 f = Z.of_nat (length (f ++ t)) mod 2 ^ 32.
Definition keeps (L : list nat) (f f' : bytes) : Prop :=
  length f' = length f /\
  (forall i, disjoint i 4 -> Forall (disjoint i) L -> (i + 4 <= length f)%nat -> get32 (Z.of_nat i) f' = get32 (Z.of_nat i) f).
Definition goes (L : list nat) (f t f' t' : bytes) : Prop :=
  keeps L f f' /\ (exists d, t' = t ++ d) /\ sized f' t'.

Lemma keeps_refl f : keeps [] f f.
Proof. by split. Qed.
Lemma keeps_trans L L' f f' f'' : keeps L f f' -> keeps L' f' f'' -> keeps (L ++ L') f f''.
Proof.
  intros (H1 & H2) (H1' & H2'). split; [by rewrite H1'|]. intros i Hi HL Hl. rewrite Forall_app in HL. destruct HL.
  rewrite H2' by (done || lia). by apply H2.
Qed.
Lemma put_keeps i v f : (i + 4 <= length f)%nat -> keeps [i] f (put32 i v f).
Proof. intros Hl. split; [by apply put32_length|]. intros j _ HL Hj. apply Forall_inv in HL. by apply get32_put32_other. Qed.
Lemma size_keeps v f : (12 <= length f)%nat -> keeps [] f (put32 4 v f).
Proof. intros Hl. split; [apply put32_length; lia|]. intros j Hj _ Hjl. apply get32_put32_other; [done|lia..]. Qed.

Lemma goes_refl f t : sized f t -> goes [] f t f t.
Proof. intros H. split; [apply keeps_refl|]. split; [exists []; by rewrite app_nil_r|done]. Qed.
Lemma goes_after L L' f t f' t' d f'' : keeps L f f' -> goes L' f' t' f'' (t' ++ d) -> (exists e, t' = t ++ e) -> goes (L ++ L') f t f'' (t' ++ d).
Proof.
  intros Hk (Hk' & _ & Hs) (e & ->). split; [by eapply keeps_trans|]. split; [|done]. exists (e ++ d). by rewrite app_assoc.
Qed.
Lemma goes_trans L L' f t f' t' f'' t'' : goes L f t f' t' -> goes L' f' t' f'' t'' -> goes (L ++ L') f t f'' t''.
Proof. intros (Hk & Ht & _) Hg. destruct Hg as (Hk' & (d & ->) & Hs'). eapply goes_after; [done| |done]. split; [done|]. split; [by exists d|done]. Qed.
Lemma goes_put L f t f' t' i v : goes L f t f' t' -> (12 <= i)%nat -> (i + 4 <= length f)%nat -> goes (L ++ [i]) f t (put32 i v f') t'.
Proof.
  intros (Hk & Ht & Hs) Hi Hl. assert (length f' = length f) as E by apply Hk.
  split; [apply (keeps_trans _ _ _ f'); [done|apply put_keeps; lia]|]. split; [done|].
  unfold sized in *. rewrite length_app, put32_length, <-length_app, <-Hs by lia.
  apply (get32_put32_other 4); [unfold disjoint; lia|lia..].
Qed.
Lemma goes_same L f t f' d d' : goes L f t f' (t ++ d) -> length d' = length d -> goes L f t f' (t ++ d').
Proof. intros (Hk & _ & Hs) E. split; [done|]. split; [by exists d'|]. unfold sized in *. rewrite Hs, !length_app. by rewrite E. Qed.
Lemma resized_goes f t d : (12 <= length f)%nat -> exists f', resized (f ++ t ++ d) = f' ++ t ++ d /\ goes [] f t f' (t ++ d).
Proof.
  intros H. exists (put32 4 (Z.of_nat (length (f ++ t ++ d))) f).
  split; [unfold resized, size_offset; by rewrite put32_app by lia|]. split; [by apply size_keeps|].
  split; [by exists d|]. unfold sized. rewrite (get_le_put32_same 4) by lia. by rewrite !length_app, put32_length by lia.
Qed.
Lemma span_goes f t : (12 <= length f)%nat -> sized f t ->
  exists f' n, Span (f ++ t) = f' ++ t ++ replicate n 0 /\ goes [] f t f' (t ++ replicate n 0).
Proof.
  intros H Hs. unfold Channel.Span. destruct (Nat.ltb_spec (length (f ++ t)) sizeof_TMessage) as [Hl|Hl].
  - unfold grow. rewrite <-app_assoc. destruct (resized_goes f t (replicate (sizeof_TMessage - length (f ++ t)) 0) H) as (f' & -> & Hg). eauto.
  - exists f, 0%nat. cbn. rewrite app_nil_r. split; [done|]. by apply goes_refl.
Qed.
Lemma goes_length L f t f' t' : goes L f t f' t' -> length f' = length f.
Proof. intros (Hk & _). apply Hk. Qed.

(** What a write leaves behind: a string at its index, a span, a value in its field. *)
Definition left_by (w : write) (f t : bytes) : Prop :=
  match w with
  | W_string s => exists p rest, (length f <= p)%nat /\ drop p (f ++ t) = s ++ 0 :: rest
  | W_string_at i s => exists p rest, get32 (Z.of_nat i) f = Z.of_nat p /\ (length f <= p)%nat /\ drop p (f ++ t) = s ++ 0 :: rest
  | W_span s => exists p rest, (length f <= p <= length (f ++ t))%nat /\ drop p (f ++ t) = s ++ rest
  | W_insert_at i n => exists p, get32 (Z.of_nat i) f = Z.of_nat p /\ (length f <= p)%nat /\ (p + n <= length (f ++ t))%nat
  | W_field i v => get32 (Z.of_nat i) f = v mod 2 ^ 32
  end.

Lemma drop_more p (f t f' d s rest : bytes) : length f' = length f -> (length f <= p <= length (f ++ t))%nat -> drop p (f ++ t) = s ++ rest ->
  drop p (f' ++ t ++ d) = s ++ rest ++ d.
Proof.
  intros Hl Hp H. rewrite drop_app_ge in H |- * by lia. rewrite Hl. rewrite length_app in Hp. rewrite drop_app_le by lia.
  by rewrite H, <-app_assoc.
Qed.
Lemma drop_inside p (m s rest : bytes) c : drop p m = s ++ c :: rest -> (p <= length m)%nat.
Proof. intros H. destruct (decide (length m <= p)%nat); [|lia]. rewrite drop_ge in H by lia. by destruct s. Qed.
Lemma left_by_goes w L f t f' t' : Forall (fun i => index_ok i /\ Forall (disjoint i) L) (index_of w) -> length f = bufferOffset ->
  left_by w f t -> goes L f t f' t' -> left_by w f' t'.
Proof.
  intros Hw Hf H ((Hl & Hg) & (d & ->) & _).
  assert (forall i, index_of w = [i] -> get32 (Z.of_nat i) f' = get32 (Z.of_nat i) f) as E.
  { intros i Hi. rewrite Hi in Hw. apply Forall_inv in Hw as [[? ?] ?]. apply Hg; [right; lia|done|lia]. }
  destruct w as [s|i s|s|i n|i v]; cbn [left_by index_of] in *; rewrite ?(E _ eq_refl), ?Hl.
  - destruct H as (p & rest & H2 & H3). assert (p <= length (f ++ t))%nat by by eapply drop_inside.
    exists p, (rest ++ d). split; [done|]. by rewrite (drop_more p f t f' d s (0 :: rest)) by done.
  - destruct H as (p & rest & H1 & H2 & H3). assert (p <= length (f ++ t))%nat by by eapply drop_inside.
    exists p, (rest ++ d). do 2 (split; [done|]). by rewrite (drop_more p f t f' d s (0 :: rest)) by done.
  - destruct H as (p & rest & H2 & H3). exists p, (rest ++ d).
    split; [rewrite !length_app in *; lia|]. by rewrite (drop_more p f t f' d s rest) by done.
  - destruct H as (p & H1 & H2 & H3). exists p. rewrite !length_app in *. rewrite Hl. split; [done|]. split; lia.
  - done.
Qed.

(** One write. *)
Lemma size_sized f t : (12 <= length f)%nat -> sized f t -> Z.of_nat (length (f ++ t)) < 2 ^ 32 -> Size (f ++ t) = Z.of_nat (length (f ++ t)).
Proof.
  intros H Hs Hlen. unfold Size. rewrite (get32_app 4) by lia. change (Z.of_nat 4) with 4. rewrite Hs. apply Z.mod_small. lia.
Qed.
Lemma drop_struct (f t f' d : bytes) : length f' = length f -> drop (length (f ++ t)) (f' ++ t ++ d) = d.
Proof.
  intros E. rewrite length_app, app_assoc, drop_app_ge by (rewrite length_app; lia).
  by replace (_ - _)%nat with 0%nat by (rewrite length_app; lia).
Qed.
Lemma insert_goes n f t : (12 <= length f)%nat ->
  exists f' k, InsertBuffer sizeof_TMessage n (f ++ t) = f' ++ t ++ replicate n 0 ++ replicate k 0 /\ goes [] f t f' (t ++ replicate n 0 ++ replicate k 0).
Proof.
  intros H. unfold InsertBuffer, grow. rewrite <-app_assoc. destruct (resized_goes f t (replicate n 0) H) as (f1 & -> & Hg1).
  destruct (span_goes f1 (t ++ replicate n 0)) as (f2 & k & E & Hg2); [by rewrite (goes_length _ _ _ _ _ Hg1)|apply Hg1|].
  exists f2, k. rewrite E, app_assoc. rewrite <-!app_assoc in *. split; [done|]. apply (goes_trans [] [] _ _ _ _ _ _ Hg1 Hg2).
Qed.
Lemma insert_at_goes i n f t : index_ok i -> length f = bufferOffset -> Size (f ++ t) = Z.of_nat (length (f ++ t)) ->
  Z.of_nat (length (f ++ t)) < 2 ^ 32 ->
  exists f' t', InsertBuffer_at sizeof_TMessage i n (f ++ t) = f' ++ t' /\ goes [i] f t f' t' /\ left_by (W_insert_at i n) f' t'.
Proof.
  intros [Hi Hi'] Hf Hsize Hlen. unfold InsertBuffer_at. rewrite Hsize, <-app_assoc, put32_app by lia.
  set (v := Z.of_nat (length (f ++ t))) in *. pose proof (put_keeps i v f ltac:(lia)) as Hk. set (f0 := put32 i v f) in *.
  assert (get32 (Z.of_nat i) f0 = v mod 2 ^ 32) as Hv by (apply get_le_put32_same; lia).
  assert (length f0 = length f) as Hl0 by apply Hk.
  destruct (resized_goes f0 t (replicate n 0)) as (f1 & -> & Hg1); [lia|].
  assert (length f1 = length f0) as Hl1 by by eapply goes_length.
  destruct (span_goes f1 (t ++ replicate n 0)) as (f2 & k & E & Hg2); [lia|apply Hg1|].
  pose proof (goes_trans [] [] _ _ _ _ _ _ Hg1 Hg2) as Hg. rewrite <-app_assoc in *.
  eexists f2, _. split; [exact E|]. split.
  - eapply (goes_after [i] []); [exact Hk|exact Hg|by exists []; rewrite app_nil_r].
  - assert (length f2 = length f1) as Hl2 by by eapply goes_length.
    exists (length (f ++ t)). destruct Hg as ((_ & Hkeep) & _ & _). rewrite Hkeep by first [lia | by constructor | right; lia].
    rewrite Hv, Z.mod_small by lia. rewrite !length_app, !length_replicate. unfold v. rewrite length_app. repeat split; lia.
Qed.
Lemma run_goes w f t : Forall index_ok (index_of w) -> length f = bufferOffset -> (12 <= bufferOffset)%nat -> sized f t ->
  Z.of_nat (length (f ++ t)) < 2 ^ 32 ->
  exists f' t', run (f ++ t) w = f' ++ t' /\ goes (index_of w) f t f' t' /\ left_by w f' t'.
Proof.
  intros Hw Hf H12 Hs Hlen. assert (12 <= length f)%nat as Hf12 by lia. pose proof (size_sized f t Hf12 Hs Hlen) as Hsize.
  destruct w as [s|i s|s|i n|i v]; cbn [run index_of] in *.
  - unfold WriteString. rewrite <-app_assoc. destruct (resized_goes f t (s ++ [0]) Hf12) as (f1 & -> & Hg). exists f1, (t ++ s ++ [0]).
    split; [done|]. split; [done|]. exists (length (f ++ t)), []. assert (length f1 = length f) as E by by eapply goes_length.
    rewrite E, drop_struct by done. split; [rewrite length_app; lia|done].
  - apply Forall_inv in Hw as [Hi Hi']. unfold WriteString_at, WriteString. rewrite <-app_assoc, Hsize.
    destruct (resized_goes f t (s ++ [0]) Hf12) as (f1 & -> & Hg). assert (length f1 = length f) as E by by eapply goes_length.
    rewrite put32_app by lia. eexists _, _. split; [done|]. split; [apply (goes_put [] f t f1); [done|lia..]|].
    exists (length (f ++ t)), []. rewrite get_le_put32_same, Z.mod_small, put32_length, drop_struct by (rewrite ?put32_length; lia).
    split; [done|]. split; [rewrite length_app; lia|done].
  - unfold WriteSpan. rewrite Hsize, Nat2Z.id. destruct (insert_goes (length s) f t Hf12) as (f1 & k & -> & Hg).
    assert (length f1 = length f) as E by by eapply goes_length. exists f1, (t ++ s ++ replicate k 0). split.
    + unfold overwrite. rewrite <-(length_replicate (length s) 0) at 2. rewrite !app_assoc, <-(app_assoc _ _ (replicate k 0)).
      rewrite take_app_le, take_ge by (rewrite !length_app; lia).
      rewrite drop_app_ge by (rewrite !length_app; lia). rewrite drop_app_length' by (rewrite !length_app, !length_replicate; lia).
      by rewrite <-!app_assoc.
    + split; [eapply goes_same; [exact Hg|by rewrite !length_app, !length_replicate]|].
      exists (length (f ++ t)), (replicate k 0). rewrite E, drop_struct by done. rewrite !length_app. split; [lia|done].
  - apply Forall_inv in Hw. by apply insert_at_goes.
  - apply Forall_inv in Hw as [Hi Hi']. rewrite put32_app by lia. eexists _, _. split; [done|].
    split; [apply (goes_put [] f t f); [by apply goes_refl|lia..]|]. apply get_le_put32_same. lia.
Qed.
(** All writes. *)
Lemma run_length w buf : (12 <= bufferOffset <= length buf)%nat -> Forall index_ok (index_of w) -> (length buf <= length (run buf w))%nat.
Proof.
  assert (forall b, (8 <= length b)%nat -> length (resized b) = length b) as Hr by (intros; unfold resized, size_offset; apply put32_length; lia).
  assert (forall b, (8 <= length b)%nat -> (length b <= length (Span b))%nat) as Hsp.
  { intros b Hb. unfold Channel.Span, grow. case_if; [|lia]. rewrite Hr; rewrite length_app; lia. }
  intros Hb Hw. destruct w as [s|i s|s|i n|i v]; cbn [run index_of] in *; try (apply Forall_inv in Hw as [Hi Hi']).
  - unfold WriteString. rewrite Hr; rewrite length_app; lia.
  - unfold WriteString_at, WriteString. rewrite put32_length, Hr; rewrite ?Hr; rewrite ?length_app; lia.
  - unfold WriteSpan, InsertBuffer, grow, overwrite. etransitivity; [|rewrite !length_app, length_take, length_drop; apply Nat.le_refl].
    pose proof (Hsp (resized (buf ++ replicate (length s) 0))) as H. rewrite Hr in H by (rewrite length_app; lia).
    specialize (H ltac:(rewrite length_app; lia)). rewrite length_app in H. lia.
  - unfold InsertBuffer_at. rewrite <-Hsp; rewrite Hr; rewrite put32_length; rewrite length_app; lia.
  - by rewrite put32_length by lia.
Qed.
Lemma fold_length ws buf : (12 <= bufferOffset <= length buf)%nat -> Forall index_ok (indices ws) -> (length buf <= length (fold_left run ws buf))%nat.
Proof.
  revert buf; induction ws as [|w ws IH]; intros buf Hb Hw; [done|]. cbn in *. rewrite Forall_app in Hw. destruct Hw as [Hw Hws].
  pose proof (run_length w buf Hb Hw). etransitivity; [done|]. apply IH; [lia|done].
Qed.
Lemma fold_goes ws f t : Forall index_ok (indices ws) -> ForallOrdPairs disjoint (indices ws) -> length f = bufferOffset ->
  (12 <= bufferOffset)%nat -> sized f t -> Z.of_nat (length (fold_left run ws (f ++ t))) < 2 ^ 32 ->
  exists f' t', fold_left run ws (f ++ t) = f' ++ t' /\ goes (indices ws) f t f' t' /\ Forall (fun w => left_by w f' t') ws.
Proof.
  revert f t; induction ws as [|w ws IH]; intros f t Hw Hd Hf H12 Hs Hlen.
  - exists f, t. split; [done|]. split; [by apply goes_refl|constructor].
  - cbn [fold_left indices flat_map] in *. fold (indices ws) in *. rewrite Forall_app in Hw. destruct Hw as [Hw Hws].
    assert (ForallOrdPairs disjoint (indices ws) /\ Forall (fun i => index_ok i /\ Forall (disjoint i) (indices ws)) (index_of w)) as [Hd' Hdw].
    { destruct w; cbn in *; (split; [assumption|constructor]) || (inversion Hd; subst; split; [assumption|]).
      all: apply Forall_inv in Hw; by repeat constructor; try apply Hw. }
    assert (length (run (f ++ t) w) <= length (fold_left run ws (run (f ++ t) w)))%nat.
    { apply fold_length; [|done]. pose proof (run_length w (f ++ t) ltac:(rewrite length_app; lia) Hw). rewrite length_app in *. lia. }
    pose proof (run_length w (f ++ t) ltac:(rewrite length_app; lia) Hw).
    destruct (run_goes w f t Hw Hf H12 Hs) as (f1 & t1 & E1 & Hg1 & Hl1); [lia|]. rewrite E1 in *.
    destruct (IH f1 t1) as (f2 & t2 & E2 & Hg2 & Hl2); [done..|by rewrite (goes_length _ _ _ _ _ Hg1)|done|apply Hg1|done|].
    exists f2, t2. rewrite E2. split; [done|]. split; [by eapply goes_trans|]. constructor; [|done].
    eapply left_by_goes; [exact Hdw| |exact Hl1|exact Hg2]. by rewrite (goes_length _ _ _ _ _ Hg1).
Qed.
Lemma written_goes ws : (12 <= bufferOffset)%nat -> Forall index_ok (indices ws) -> ForallOrdPairs disjoint (indices ws) ->
  Z.of_nat (length (written ws)) < 2 ^ 32 ->
  exists f t, written ws = f ++ t /\ goes (indices ws) (MessageWriter bufferOffset Type_) [] f t /\ length f = bufferOffset /\
    (sizeof_TMessage <= length (f ++ t))%nat /\ Forall (fun w => left_by w f t) ws.
Proof.
  intros H12 Hw Hd Hlen. set (f0 := MessageWriter bufferOffset Type_).
  assert (length f0 = bufferOffset) as Hf0 by (unfold f0, MessageWriter, size_offset; rewrite put32_length; rewrite put32_length; rewrite ?length_replicate; lia).
  assert (sized f0 []) as Hs.
  { unfold sized. rewrite app_nil_r, Hf0. unfold f0, MessageWriter, size_offset. apply (get_le_put32_same 4).
    rewrite put32_length; rewrite length_replicate; lia. }
  assert (12 <= bufferOffset <= length f0)%nat as Hb0 by lia. pose proof (fold_length ws f0 Hb0 Hw) as Hl0.
  assert (length (fold_left run ws f0) <= length (written ws))%nat.
  { unfold written, Channel.Span, grow. fold f0. case_if; [|lia]. unfold resized, size_offset. rewrite put32_length; rewrite length_app; lia. }
  destruct (fold_goes ws f0 []) as (f & t & E & Hg & Hl); [done..|rewrite app_nil_r; lia|]. rewrite app_nil_r in E.
  assert (length f = bufferOffset) as Hf by (rewrite (goes_length _ _ _ _ _ Hg); done).
  destruct (span_goes f t) as (f' & n & E' & Hg'); [lia|apply Hg|]. exists f', (t ++ replicate n 0).
  assert (written ws = f' ++ t ++ replicate n 0) as Ew by (unfold written; fold f0; by rewrite E).
  split; [done|]. split; [rewrite <-(app_nil_r (indices ws)); by eapply goes_trans|].
  split; [by rewrite (goes_length _ _ _ _ _ Hg')|]. split.
  - rewrite <-Ew. unfold written. fold f0. unfold Channel.Span, grow. case_if.
    + unfold resized, size_offset. rewrite put32_length; rewrite length_app, length_replicate; lia.
    + match goal with H : (_ <? _)%nat = false |- _ => apply Nat.ltb_ge in H; lia end.
  - rewrite Forall_forall in Hl |- *. intros w Hin. eapply left_by_goes; [|exact Hf|exact (Hl w Hin)|exact Hg'].
    rewrite Forall_forall. intros i Hi. rewrite Forall_forall in Hw. split; [|constructor].
    apply Hw. apply list_elem_of_In, in_flat_map. exists w. by rewrite <-!list_elem_of_In.
Qed.
End Writer.

Lemma FromSpan_at m p s rest : no_nul s -> drop p m = s ++ 0 :: rest -> FromSpan m p = Some s.
Proof.
  intros Hs H. unfold FromSpan. rewrite (proj2 (Nat.ltb_ge _ _)) by by eapply drop_inside. rewrite H, to_cstr_app_nul by done.
  unfold nul_terminated. by rewrite existsb_app, orb_true_r.
Qed.
Lemma goes_header bufferOffset Type_ ws f t : (12 <= bufferOffset)%nat -> 0 <= Type_ < 2 ^ 32 -> Forall (index_ok bufferOffset) (indices ws) ->
  Z.of_nat (length (f ++ t)) < 2 ^ 32 -> goes (indices ws) (MessageWriter bufferOffset Type_) [] f t ->
  read_header f = mk_header Type_ (Z.of_nat (length (f ++ t))) 0.
Proof.
  intros H12 Ht Hw Hlen ((Hl & Hk) & _ & Hs). unfold MessageWriter, size_offset in *.
  assert (length (put32 0 Type_ (replicate bufferOffset 0)) = bufferOffset) as Hl0 by (rewrite put32_length; rewrite length_replicate; lia).
  assert (forall k, (k = 0 \/ k = 8)%nat -> get32 (Z.of_nat k) f = get32 (Z.of_nat k) (put32 0 Type_ (replicate bufferOffset 0))) as E.
  { intros k Hk'. rewrite Hk; [apply get32_put32_other; unfold disjoint; lia|unfold disjoint; lia| |rewrite put32_length; lia].
    eapply Forall_impl; [exact Hw|]. intros i [Hi _]. unfold disjoint. lia. }
  unfold read_header. f_equal.
  - etransitivity; [exact (E 0%nat ltac:(lia))|]. rewrite get_le_put32_same by (rewrite length_replicate; lia). apply Z.mod_small. lia.
  - rewrite Hs. apply Z.mod_small. lia.
  - etransitivity; [exact (E 8%nat ltac:(lia))|]. rewrite get32_put32_other by (unfold disjoint; rewrite ?length_replicate; lia).
    unfold get32, get_le. rewrite drop_replicate, take_replicate. by replace (min _ _) with 4%nat by lia.
Qed.

(** C37: A reader finds what the writer of a message laid out, whatever the order of the
    writes: the header has the type and the length of the whole message, which covers
    the struct; FromSpan gives each string back at its index; a field keeps its value;
    every span and every inserted buffer lies inside the message. *)
Theorem message_written_read bufferOffset sizeof_TMessage Type_ ws :
  (12 <= bufferOffset)%nat -> 0 <= Type_ < 2 ^ 32 -> Forall (index_ok bufferOffset) (indices ws) -> ForallOrdPairs disjoint (indices ws) ->
  let m := written bufferOffset sizeof_TMessage Type_ ws in Z.of_nat (length m) < 2 ^ 32 ->
  read_header m = mk_header Type_ (Z.of_nat (length m)) 0 /\ (sizeof_TMessage <= length m)%nat /\
  (forall i s, W_string_at i s ∈ ws -> no_nul s -> FromSpan m (Z.to_nat (get32 (Z.of_nat i) m)) = Some s) /\
  (forall i v, W_field i v ∈ ws -> get32 (Z.of_nat i) m = v mod 2 ^ 32) /\
  (forall i n, W_insert_at i n ∈ ws -> (bufferOffset <= Z.to_nat (get32 (Z.of_nat i) m))%nat /\ (Z.to_nat (get32 (Z.of_nat i) m) + n <= length m)%nat) /\
  (forall s, W_span s ∈ ws -> exists p, (bufferOffset <= p)%nat /\ take (length s) (drop p m) = s).
Proof.
  intros H12 Ht Hw Hd m Hlen. destruct (written_goes _ sizeof_TMessage Type_ ws H12 Hw Hd Hlen) as (f & t & E & Hg & Hf & Hsz & Hl).
  fold m in E. rewrite Forall_forall in Hl.
  assert (forall i, i ∈ indices ws -> get32 (Z.of_nat i) m = get32 (Z.of_nat i) f) as Hget.
  { intros i Hi. rewrite E. rewrite Forall_forall in Hw. destruct (Hw i Hi). apply get32_app. lia. }
  assert (forall w i, w ∈ ws -> index_of w = [i] -> i ∈ indices ws) as Hin.
  { intros w i Hi Ei. apply list_elem_of_In, in_flat_map. exists w. rewrite Ei, <-list_elem_of_In. split; [done|by left]. }
  split; [|split; [by rewrite E|split; [|split; [|split]]]].
  - rewrite E, read_header_app by lia. apply (goes_header bufferOffset Type_ ws); try done. by rewrite <-E.
  - intros i s Hi Hs. destruct (Hl _ Hi) as (p & rest & H1 & H2 & H3). rewrite Hget by by eapply Hin. rewrite H1, Nat2Z.id, E.
    by eapply FromSpan_at.
  - intros i v Hi. rewrite Hget by by eapply Hin. exact (Hl _ Hi).
  - intros i n Hi. destruct (Hl _ Hi) as (p & H1 & H2 & H3). rewrite Hget by by eapply Hin. rewrite H1, Nat2Z.id, E. lia.
  - intros s Hi. destruct (Hl _ Hi) as (p & rest & H2 & H3). exists p. rewrite E, H3, take_app_length. split; [lia|done].
Qed.

(** A mount message: two strings and a field, written in the order of the caller, in a
    struct that is padded to 28 bytes. *)
Lemma message_written_read_witness :
  let m := written 24 28 5 [W_field 20 7; W_string_at 16 (str "ext4"); W_string_at 12 (str "/mnt"); W_span [1; 2]] in
  read_header m = mk_header 5 36 0 /\ FromSpan m (Z.to_nat (get32 12 m)) = Some (str "/mnt") /\
  FromSpan m (Z.to_nat (get32 16 m)) = Some (str "ext4") /\ get32 20 m = 7.
Proof.
  destruct (message_written_read 24 28 5 [W_field 20 7; W_string_at 16 (str "ext4"); W_string_at 12 (str "/mnt"); W_span [1; 2]])
    as (H1 & _ & H2 & H3 & _); [lia|lia|repeat constructor| |vm_compute; reflexivity|].
  - repeat (constructor; [repeat (constructor; [unfold disjoint; lia|]); constructor|]). constructor.
  - split; [exact H1|]. split; [apply (H2 12%nat (str "/mnt"))|split; [apply (H2 16%nat (str "ext4"))|exact (H3 20%nat 7 ltac:(left; reflexivity))]].
    all: first [right; right; left; reflexivity | right; left; reflexivity | repeat constructor; discriminate].
Defined.

(** * A channel is a queue *)

(** The caller of a channel sends one message after the other, and receives [n] times. *)
Fixpoint send_each (size : nat) (ms : list (list sock_event * bytes)) (c : SocketChannel) : bytes * list (result unit) :=
  match ms with
  | [] => ([], [])
  | (evs, m) :: ms' =>
    let '(d, r, c) := SendMessage size evs m c in
    let '(ds, rs) := send_each size ms' c in (d ++ ds, r :: rs)
  end.
Fixpoint receive_each (n : nat) (expected : Z) (size : nat) (evs : list recv_event) (stream : bytes) (c : SocketChannel) :
    list (result (option bytes)) :=
  match n with
  | O => []
  | S n' =>
    let '(r, evs, stream, c) := ReceiveMessageOrClosed expected size evs stream c in
    r :: receive_each n' expected size evs stream c
  end.

(** The messages as they arrive: numbered from the one after [k]. *)
Fixpoint numbered (k : Z) (ms : list bytes) : list bytes :=
  match ms with [] => [] | m :: ms' => put32 8 (u32 (k + 1)) m :: numbered (u32 (k + 1)) ms' end.

Definition well_formed (expected : Z) (size : nat) (m : bytes) : Prop :=
  (size <= length m)%nat /\ (12 <= length m)%nat /\ get32 4 m = Z.of_nat (length m) /\
  (expected = LxMiniInitMessageAny \/ get32 0 m = expected).
(** The socket works: no error, and no signal in the middle of a header. *)
Definition calm (e : recv_event) : Prop := match e with Data _ | Recv_intr => True | _ => False end.
Definition arrivals (evs : list recv_event) : nat :=
  length (filter (fun e => match e with Data _ => true | _ => false end = true) evs).

Lemma arrivals_cons e evs : arrivals (e :: evs) = ((match e with Data _ => 1 | _ => 0 end) + arrivals evs)%nat.
Proof. unfold arrivals. destruct e; by rewrite ?filter_cons_True, ?filter_cons_False by done. Qed.

Lemma recv_body_complete evs stream need got : Forall calm evs -> (need <= arrivals evs)%nat -> (need <= length stream)%nat ->
  exists evs', recv_body evs stream need got = (Message (got ++ take need stream), evs', drop need stream)
    /\ Forall calm evs' /\ (arrivals evs <= arrivals evs' + need)%nat.
Proof.
  intros Hc. revert stream need got. induction Hc as [|e evs He Hc IH]; intros stream need got Hn Hs.
  - assert (need = 0)%nat as -> by (cbn in Hn; lia). exists []. by rewrite take_0, app_nil_r.
  - destruct need as [|need]; [exists (e :: evs); rewrite take_0, app_nil_r; repeat split; [by constructor|lia]|].
    rewrite arrivals_cons in Hn |- *. cbn [recv_body]. destruct e as [n|n| |]; try done; [|by apply IH].
    destruct stream as [|b stream]; [cbn in Hs; lia|]. set (s := b :: stream) in *. set (k := min (S n) (S need)).
    assert (length (take k s) = k) as Ek by (rewrite length_take; lia). rewrite Ek.
    destruct (IH (drop k s) (S need - k)%nat (got ++ take k s)) as (evs' & E & Hc' & Ha); [lia|rewrite length_drop; lia|].
    exists evs'. rewrite E, <-app_assoc, take_take_drop, drop_drop.
    replace (k + (S need - k))%nat with (S need) by lia. repeat split; [done|lia].
Qed.

Lemma RecvMessage_complete evs m rest : Forall calm evs -> (12 <= length m)%nat -> get32 4 m = Z.of_nat (length m) -> (length m <= arrivals evs)%nat ->
  exists evs', RecvMessage evs (m ++ rest) = (Message m, evs', rest) /\ Forall calm evs' /\ (arrivals evs <= arrivals evs' + length m)%nat.
Proof.
  intros Hc. revert m. induction Hc as [|e evs He Hc IH]; intros m H12 Hsz Hn; [cbn in Hn; lia|].
  rewrite arrivals_cons in Hn |- *. destruct e as [n|n| |]; try done; [|by apply IH]. cbn [RecvMessage].
  assert (length (take 12 (m ++ rest)) = 12%nat) as E12 by (rewrite length_take, length_app; lia).
  rewrite E12. cbn [Nat.ltb Nat.leb]. rewrite read_header_take, read_header_app by lia. unfold read_header. cbn [MessageSize]. rewrite Hsz.
  unfold sizeof_header. rewrite (proj2 (Z.ltb_ge _ _)) by lia.
  destruct (recv_body_complete evs (drop 12 (m ++ rest)) (Z.to_nat (Z.of_nat (length m) - 12)) (take 12 (m ++ rest)))
    as (evs' & E & Hc' & Ha); [done|lia|rewrite length_drop, length_app; lia|].
  exists evs'. rewrite E, take_take_drop, drop_drop.
  replace (12 + Z.to_nat (Z.of_nat (length m) - 12))%nat with (length m) by lia.
  rewrite take_app_length, drop_app_length. repeat split; [done|lia].
Qed.
Lemma RecvMessage_end evs : Forall calm evs -> (1 <= arrivals evs)%nat -> exists evs', RecvMessage evs [] = (Empty, evs', []).
Proof.
  intros Hc. induction Hc as [|e evs He Hc IH]; intros Hn; [cbn in Hn; lia|].
  rewrite arrivals_cons in Hn. destruct e as [n|n| |]; try done; [eexists; reflexivity|by apply IH].
Qed.

(** Numbering a message changes only its number. *)
Lemma put8_well_formed expected size v m : well_formed expected size m -> well_formed expected size (put32 8 v m).
Proof.
  intros (H1 & H2 & H3 & H4). unfold well_formed. rewrite put32_length by lia. split; [done|]. split; [done|].
  split; [rewrite <-H3; apply (get32_put32_other 4)|destruct H4 as [?|H4]; [by left|right]; rewrite <-H4; apply (get32_put32_other 0)];
    unfold disjoint; lia.
Qed.
Lemma numbered_well_formed expected size k ms : Forall (well_formed expected size) ms -> Forall (well_formed expected size) (numbered k ms).
Proof.
  intros H. revert k. induction H as [|m ms Hm H IH]; intros k; [constructor|]. cbn [numbered]. constructor; [by apply put8_well_formed|apply IH].
Qed.
Lemma header_accepted expected size m k c : well_formed expected size m -> m_ignore_sequence c = true \/ get32 8 m = k ->
  ValidateMessageHeader (read_header m) expected k c = true.
Proof.
  intros (_ & H12 & Hsz & Ht) Hk. unfold ValidateMessageHeader, read_header, sizeof_header. cbn [MessageSize MessageType SequenceNumber].
  rewrite Hsz, (proj2 (Z.ltb_ge _ _)) by lia. cbn [orb].
  assert (negb (expected =? LxMiniInitMessageAny) && negb (get32 0 m =? expected) = false) as ->.
  { destruct Ht as [->| ->]; [done|]. by rewrite Z.eqb_refl, andb_false_r. }
  destruct Hk as [->| ->]; [done|]. by rewrite Z.eqb_refl, andb_false_r.
Qed.
Lemma SendMessage_working expected size evs m c : well_formed expected size m -> Forall (working retry_intr) evs -> (length m <= progress evs)%nat ->
  SendMessage size evs m c =
    (put32 8 (u32 (m_sent_messages c + 1)) m, Ok tt, c <| m_sent_messages := u32 (m_sent_messages c + 1) |>).
Proof.
  intros (Hsz & H12 & _) Hw Hp. unfold SendMessage. rewrite (proj2 (Nat.ltb_ge _ _)) by lia. unfold sequence_offset.
  set (v := u32 (m_sent_messages c + 1)). change (m_sent_messages (c <| m_sent_messages := v |>)) with v. set (m' := put32 8 v m). assert (length m' = length m) as E by (apply put32_length; lia).
  destruct (send_loop_complete retry_intr evs m' []) as (evs' & -> & _); [done|lia|]. done.
Qed.
Lemma send_each_working expected size ms c : Forall (fun x => well_formed expected size (snd x)) ms ->
  Forall (fun x => Forall (working retry_intr) (fst x) /\ (length (snd x) <= progress (fst x))%nat) ms ->
  send_each size ms c = (concat (numbered (m_sent_messages c) (map snd ms)), map (fun _ => Ok tt) ms).
Proof.
  intros Hm. revert c. induction Hm as [|[evs m] ms Hm Hms IH]; intros c Hw; [done|].
  pose proof (Forall_inv Hw) as [Hw1 Hw2]. apply Forall_inv_tail in Hw. cbn in Hm, Hw1, Hw2. cbn [send_each map numbered concat snd].
  rewrite (SendMessage_working expected) by done. by rewrite IH.
Qed.
Lemma receive_each_working expected size k ms evs c : Forall (well_formed expected size) ms -> Forall calm evs -> m_ignore_sequence c = true \/ m_received_messages c = k ->
  (length (concat (numbered k ms)) < arrivals evs)%nat ->
  receive_each (S (length ms)) expected size evs (concat (numbered k ms)) c = map (fun m => Ok (Some m)) (numbered k ms) ++ [Ok None].
Proof.
  intros Hm. revert k evs c. induction Hm as [|m ms Hm Hms IH]; intros k evs c Hc Hk Hn.
  - cbn. unfold ReceiveMessageOrClosed. destruct (RecvMessage_end evs Hc) as (evs' & ->); [cbn in Hn; lia|done].
  - cbn [numbered concat] in *. set (m' := put32 8 (u32 (k + 1)) m) in *. set (rest := concat _) in *.
    assert (well_formed expected size m') as (H1 & H2 & H3 & H4) by by apply put8_well_formed. rewrite length_app in Hn.
    destruct (RecvMessage_complete evs m' rest Hc H2 H3) as (evs' & E & Hc' & Ha); [lia|].
    change (S (length (m :: ms))) with (S (S (length ms))). remember (S (length ms)) as n eqn:En. cbn [receive_each].
    unfold ReceiveMessageOrClosed. rewrite E, (proj2 (Nat.ltb_ge _ _)) by lia.
    assert (get32 8 m' = u32 (k + 1)) as H8.
    { unfold m'. rewrite (get_le_put32_same 8) by (destruct Hm; lia). unfold u32. by rewrite Z.mod_mod. }
    rewrite (header_accepted expected size); [|by split|rewrite H8; destruct Hk as [Hk|<-]; [by left|by right]]. cbn [negb map app]. f_equal.
    subst n. apply IH; [done| |fold rest; lia]. cbn. destruct Hk as [Hk|<-]; [by left|by right].
Qed.

(** C36: A channel is a queue.  While the sockets work, the messages sent over it, however
    their bytes are cut up on the way and however many there are, arrive whole and in
    order, each with the number its place gives it, and then the receiver finds the
    channel closed. *)
Theorem channel_is_queue expected size ms revs sender receiver :
  Forall (fun x => well_formed expected size (snd x)) ms ->
  Forall (fun x => Forall (working retry_intr) (fst x) /\ (length (snd x) <= progress (fst x))%nat) ms ->
  m_received_messages receiver = m_sent_messages sender ->
  let '(stream, sent) := send_each size ms sender in
  Forall calm revs -> (length stream < arrivals revs)%nat ->
  sent = map (fun _ => Ok tt) ms /\
  receive_each (S (length ms)) expected size revs stream receiver =
    map (fun m => Ok (Some m)) (numbered (m_sent_messages sender) (map snd ms)) ++ [Ok None].
Proof.
  intros Hm Hw Hk. rewrite (send_each_working expected) by done. intros Hc Hn. split; [done|].
  rewrite <-(length_map snd ms). apply receive_each_working; [by apply Forall_map|done|by right|done].
Qed.

(** Two messages, the first written in two parts, the second received in three. *)
Lemma channel_is_queue_witness :
  let m1 := header_bytes (mk_header 7 14 0) ++ [1; 2] in let m2 := header_bytes (mk_header 9 12 0) in
  let ms := [([Progress 4; Intr; Progress 30] ++ replicate 12 (Progress 0), m1); (replicate 12 (Progress 50), m2)] in
  let revs := Recv_intr :: replicate 30 (Data 0) in
  let '(stream, sent) := send_each 12 ms new_channel in
  receive_each 3 LxMiniInitMessageAny 12 revs stream new_channel =
    [Ok (Some (put32 8 1 m1)); Ok (Some (put32 8 2 m2)); Ok None].
Proof.
  intros m1 m2 ms revs. pose proof (channel_is_queue LxMiniInitMessageAny 12 ms revs new_channel new_channel) as H.
  assert (Forall (fun x => well_formed LxMiniInitMessageAny 12 (snd x)) ms) as Hm.
  { repeat constructor; vm_compute; try lia; reflexivity. }
  assert (Forall (fun x => Forall (working retry_intr) (fst x) /\ (length (snd x) <= progress (fst x))%nat) ms) as Hw.
  { repeat constructor; vm_compute; lia. }
  specialize (H Hm Hw eq_refl). destruct (send_each 12 ms new_channel) as [stream sent] eqn:E.
  vm_compute in E. injection E as <- <-. destruct H as [_ H]; [repeat constructor|vm_compute; lia|].
  refine (eq_trans H _). vm_compute. reflexivity.
Defined.

(** A channel that is moved counts from 0 again, and refuses what the peer sends next. *)
Example moved_loses_count :
  let c := mk_channel 3 3 false in let m := put32 8 4 (header_bytes (mk_header 7 12 0)) in
  fst (fst (fst (ReceiveMessageOrClosed 0 12 [Data 0] m c))) = Ok (Some m) /\
  fst (fst (fst (ReceiveMessageOrClosed 0 12 [Data 0] m (moved c)))) = Throw_invalid.
Proof. vm_compute. auto. Qed.
(** A header with a size below 12 reads as a channel that was closed. *)
Example bad_size_is_closed :
  fst (fst (fst (ReceiveMessageOrClosed 0 12 [Data 0] (header_bytes (mk_header 7 11 1)) new_channel))) = Ok None.
Proof. vm_compute. reflexivity. Qed.
(** A message that was not sent takes a number: the next one is refused. *)
Example failed_send_takes_number :
  let m := header_bytes (mk_header 7 12 0) in
  let '(d1, r1, c) := SendMessage 12 [Failed] m new_channel in
  let '(d2, r2, _) := SendMessage 12 [Progress 11] m c in
  r1 = Throw_write /\ r2 = Ok tt /\ fst (fst (fst (ReceiveMessageOrClosed 0 12 [Data 0] (d1 ++ d2) new_channel))) = Throw_invalid.
Proof. vm_compute. auto. Qed.

End ChannelThm.
