(* ===== verification/DnsServerThm.v ===== *)
(** Theorems on the upstream DNS server: the requests of TCP connections are put together
    again, UDP requests are answered once to who asked, and requests cross the channel
    to the host whole. *)
From stdpp Require Import gmap.
From S2P Require Import Prelude CStr CNum Wire Channel ChannelThm DnsServer.
Import Wire Channel WireThm ChannelThm DnsServer.

Module DnsServerThm.

(** * The requests in the bytes of a connection *)

(** The complete requests at the front of [bs], each with its length before it, up to
    one whose length is 0 or more than 65533. *)
Definition length_ok (n : Z) : bool := (0 <? n) && (n <=? 65533).
Fixpoint frames_from (fuel : nat) (bs : bytes) : list bytes :=
  match fuel with
  | O => []
  | S fuel' =>
    let n := (2 + Z.to_nat (ntohs bs))%nat in
    if (length bs <? 2)%nat || negb (length_ok (ntohs bs)) || (length bs <? n)%nat then []
    else take n bs :: frames_from fuel' (drop n bs)
  end.
Definition frames (bs : bytes) : list bytes := frames_from (length bs) bs.

(** One request. *)
Definition framed (f : bytes) : Prop := length_ok (ntohs f) = true /\ length f = (2 + Z.to_nat (ntohs f))%nat.
Lemma ntohs_app a b : (2 <= length a)%nat -> ntohs (a ++ b) = ntohs a.
Proof. intros H. destruct a as [|x [|y a]]; cbn in H; try lia. done. Qed.
Lemma ntohs_take n a : (2 <= n)%nat -> ntohs (take n a) = ntohs a.
Proof. intros H. destruct n as [|[|n]]; try lia. destruct a as [|x [|y a]]; done. Qed.
Lemma framed_length f : framed f -> 3 <= Z.of_nat (length f) <= 65535.
Proof. intros [H ->]. unfold length_ok in H. lia. Qed.
Lemma frames_from_enough f bs n : framed f -> (length bs < n)%nat ->
  frames_from (length f + n) (f ++ bs) = f :: frames_from (length f + n - 1) bs.
Proof.
  intros Hf Hn. pose proof (framed_length f Hf). destruct Hf as [H1 H2].
  replace (length f + n)%nat with (S (length f + n - 1)) at 1 by lia. cbn [frames_from].
  rewrite ntohs_app by lia. rewrite <-H2, H1, length_app.
  rewrite (proj2 (Nat.ltb_ge _ 2)) by lia. rewrite (proj2 (Nat.ltb_ge _ (length f))) by lia. cbn [negb orb].
  by rewrite take_app_length, drop_app_length.
Qed.
Lemma frames_from_more k n bs : (length bs <= n)%nat -> (length bs <= k)%nat -> frames_from k bs = frames_from n bs.
Proof.
  revert n bs. induction k as [|k IH]; intros n bs Hn Hk.
  - assert (bs = []) as -> by (destruct bs; cbn in *; [done|lia]). by destruct n.
  - destruct n as [|n]; [assert (bs = []) as -> by (destruct bs; cbn in *; [done|lia]); done|]. cbn [frames_from].
    destruct (_ || _) eqn:E; [done|]. f_equal. apply orb_false_iff in E as [[E _]%orb_false_iff E2].
    apply Nat.ltb_ge in E. apply IH; rewrite length_drop; lia.
Qed.
Lemma frames_app f bs : framed f -> frames (f ++ bs) = f :: frames bs.
Proof.
  intros Hf. pose proof (framed_length f Hf). unfold frames. rewrite (frames_from_more _ (length f + S (length bs))) by (rewrite ?length_app; lia).
  rewrite frames_from_enough by (done || lia). f_equal. apply frames_from_more; lia.
Qed.
Lemma frames_concat rs bs : Forall framed rs -> frames (concat rs ++ bs) = rs ++ frames bs.
Proof. intros H. induction H as [|f rs Hf H IH]; [done|]. cbn [concat app]. by rewrite <-app_assoc, frames_app, IH. Qed.
(** No request is complete. *)
Lemma frames_none bs : (length bs < 2)%nat \/ length_ok (ntohs bs) = false \/ (length bs < 2 + Z.to_nat (ntohs bs))%nat -> frames bs = [].
Proof.
  intros H. unfold frames. destruct bs as [|x bs]; [done|]. set (b := x :: bs) in *.
  assert (length b <> 0%nat) as Hl by done. destruct (length b) as [|n] eqn:E; [done|]. cbn [frames_from]. rewrite E.
  destruct (_ || _) eqn:F; [done|]. apply orb_false_iff in F as [[F1 F2]%orb_false_iff F3].
  apply Nat.ltb_ge in F1, F3. apply negb_false_iff in F2. destruct H as [H|[H|H]]; [lia|congruence|lia].
Qed.

(** * One connection *)

Definition offset (c : TcpConnectionContext) : nat := Z.to_nat (m_currentRequestOffset c).
(** [bs]: what was received, [rs] the requests that were read from it.  The rest is
    the length of a request, or a part of the request, or starts with a length that
    never makes a request. *)
Definition reading (c : TcpConnectionContext) (part : bytes) : Prop :=
  let buf := m_currentDnsRequest c in
  part = take (offset c) buf /\
  ((offset c < 2)%nat /\ length buf = 2%nat \/
   (2 <= offset c < length buf)%nat /\ framed buf).
Definition stuck (c : TcpConnectionContext) (part : bytes) : Prop :=
  let buf := m_currentDnsRequest c in
  (2 <= length part)%nat /\ length_ok (ntohs part) = false /\
  (length buf = 2%nat /\ offset c = 2%nat \/ 65535 < Z.of_nat (length buf)).
Definition conn_ok (c : TcpConnectionContext) (bs : bytes) (rs : list bytes) : Prop :=
  0 <= m_currentRequestOffset c < 65536 /\ (offset c <= length (m_currentDnsRequest c))%nat /\
  exists part, bs = concat rs ++ part /\ Forall framed rs /\ (reading c part \/ stuck c part).

Lemma conn_new id fd : conn_ok (new_context id fd) [] [].
Proof.
  split; [done|]. split; [apply Nat.le_0_l|]. exists []. split; [done|]. split; [constructor|].
  left. split; [done|]. left. split; [apply Nat.lt_0_succ|done].
Qed.
Lemma conn_frames c bs rs : conn_ok c bs rs -> frames bs = rs.
Proof.
  intros (Hr & Ho & part & -> & Hf & Hp). rewrite frames_concat by done. rewrite frames_none; [apply app_nil_r|].
  destruct Hp as [[-> [[H1 H2]|[H1 [H2 H3]]]]|(H1 & H2 & _)].
  - left. rewrite length_take. lia.
  - right. right. rewrite ntohs_take by lia. rewrite length_take. lia.
  - right. by left.
Qed.

Lemma overwrite_length o b buf : (o + length b <= length buf)%nat -> length (Channel.overwrite o b buf) = length buf.
Proof. intros H. unfold Channel.overwrite. rewrite !length_app, length_take, length_drop. lia. Qed.
Lemma overwrite_take o b buf : (o + length b <= length buf)%nat -> take (o + length b) (Channel.overwrite o b buf) = take o buf ++ b.
Proof.
  intros H. unfold Channel.overwrite. rewrite app_assoc. rewrite take_app_length'; [done|]. rewrite length_app, length_take. lia.
Qed.
Lemma overwrite_ntohs o b buf : (2 <= o)%nat -> (o + length b <= length buf)%nat -> ntohs (Channel.overwrite o b buf) = ntohs buf.
Proof.
  intros Ho H. rewrite <-(ntohs_take o) by done. unfold Channel.overwrite. rewrite take_app_length' by (rewrite length_take; lia).
  by apply ntohs_take.
Qed.
Lemma resize_length n b : length (resize n b) = n.
Proof. unfold resize. rewrite length_app, length_take, length_replicate. lia. Qed.
Lemma resize_take n b : (length b <= n)%nat -> take (length b) (resize n b) = b.
Proof. intros H. unfold resize. rewrite (take_ge b) by done. by rewrite take_app_length. Qed.

(** Receiving keeps it so, and the request that it completes is the next one. *)
Definition completed (r : option request) : list bytes := match r with Some r => [dnsBuffer r] | None => [] end.
Lemma u16_bounds x : 0 <= u16 x < 65536.
Proof. unfold u16. apply Z.mod_pos_bound. done. Qed.
Lemma u16_small x : 0 <= x < 65536 -> u16 x = x.
Proof. apply Z.mod_small. Qed.

Lemma received_stuck b c bs rs part : bs = concat rs ++ part -> Forall framed rs -> stuck c part -> (0 < length b <= room c)%nat ->
  let '(c', r) := received b c in r = None /\ conn_ok c' (bs ++ b) rs.
Proof.
  intros -> Hf (H1 & H2 & Hs) Hb. unfold room in Hb. fold (offset c) in Hb.
  destruct Hs as [[H3 H4]|H3]; [lia|].
  pose proof (u16_bounds (m_currentRequestOffset c + Z.of_nat (length b))) as Hu.
  pose proof (overwrite_length (offset c) b (m_currentDnsRequest c) ltac:(lia)) as El.
  unfold received. fold (offset c). set (buf := Channel.overwrite _ _ _) in *. set (o := u16 _) in *.
  rewrite El, (proj2 (Z.eqb_neq _ _)) by lia. split; [done|]. split; [done|].
  change (m_currentDnsRequest (c <| m_currentDnsRequest := buf |> <| m_currentRequestOffset := o |>)) with buf.
  split; [change (Z.to_nat o <= length buf)%nat; lia|].
  exists (part ++ b). rewrite app_assoc. split; [done|]. split; [done|]. right. split; [rewrite length_app; lia|].
  rewrite ntohs_app by done. split; [done|]. right. change (65535 < Z.of_nat (length buf)). lia.
Qed.
Definition at_offset (c : TcpConnectionContext) (o : nat) (buf : bytes) : TcpConnectionContext :=
  mk_context (m_tcpConnection c) (Z.of_nat o) buf (m_connectionId c).
Lemma offset_at c o buf : offset (at_offset c o buf) = o.
Proof. apply Nat2Z.id. Qed.
Lemma conn_ok_at c o buf bs rs part : (o <= length buf)%nat -> Z.of_nat o < 65536 -> bs = concat rs ++ part -> Forall framed rs ->
  reading (at_offset c o buf) part \/ stuck (at_offset c o buf) part -> conn_ok (at_offset c o buf) bs rs.
Proof. intros Ho H -> Hf Hp. split; [cbn; lia|]. rewrite offset_at. split; [done|]. by exists part. Qed.

(** What receiving does while the offset does not wrap around. *)
Lemma received_at b c : 0 <= m_currentRequestOffset c -> (offset c + length b <= length (m_currentDnsRequest c))%nat ->
  Z.of_nat (length (m_currentDnsRequest c)) <= 65535 ->
  let buf := Channel.overwrite (offset c) b (m_currentDnsRequest c) in
  received b c =
    if negb (offset c + length b =? length buf)%nat then (at_offset c (offset c + length b) buf, None)
    else if (length buf =? 2)%nat then (at_offset c 2 (resize (2 + Z.to_nat (ntohs buf)) buf), None)
    else (at_offset c 0 [0; 0], Some (mk_request IPPROTO_TCP (m_connectionId c) buf)).
Proof.
  intros H0 Hb Hl buf. pose proof (overwrite_length (offset c) b (m_currentDnsRequest c) Hb) as El. fold buf in El.
  assert (m_currentRequestOffset c = Z.of_nat (offset c)) as Eo by (unfold offset; lia).
  unfold received. fold (offset c) buf. rewrite Eo, u16_small, <-Nat2Z.inj_add by lia.
  destruct (Nat.eqb_spec (offset c + length b) (length buf)) as [E|E].
  - rewrite E, Z.eqb_refl. cbn [negb]. unfold c_byteCountTcpRequestLength. destruct (Nat.eqb_spec (length buf) 2) as [E2|E2]; [by rewrite E2|done].
  - rewrite (proj2 (Z.eqb_neq _ _)) by lia. done.
Qed.

Section Reading.
Context (b : bytes) (c : TcpConnectionContext) (rs : list bytes).
Context (H0 : 0 <= m_currentRequestOffset c) (Hf : Forall framed rs) (Hb : (0 < length b <= room c)%nat).
Let buf := Channel.overwrite (offset c) b (m_currentDnsRequest c).
Let bs := concat rs ++ take (offset c) (m_currentDnsRequest c).

Lemma overwritten : (offset c + length b <= length (m_currentDnsRequest c))%nat /\ length buf = length (m_currentDnsRequest c) /\
  bs ++ b = concat rs ++ take (offset c + length b) buf /\ ((2 <= offset c)%nat -> ntohs buf = ntohs (m_currentDnsRequest c)).
Proof.
  unfold room in Hb. fold (offset c) in Hb. assert (offset c + length b <= length (m_currentDnsRequest c))%nat as H by lia.
  split; [done|]. split; [by apply overwrite_length|]. split; [unfold bs, buf; by rewrite <-app_assoc, overwrite_take|].
  intros H2. by apply overwrite_ntohs.
Qed.

(** The two bytes of the length. *)
Lemma received_length : (offset c < 2)%nat -> length (m_currentDnsRequest c) = 2%nat ->
  let '(c', r) := received b c in conn_ok c' (bs ++ b) (rs ++ completed r).
Proof.
  intros H1 H2. destruct overwritten as (H3 & El & Eb & _). rewrite Eb, received_at by lia. fold buf. rewrite El, H2.
  destruct (Nat.eqb_spec (offset c + length b) 2) as [E|E]; cbn [negb Nat.eqb completed]; rewrite app_nil_r.
  - rewrite take_ge by lia. set (n := (2 + Z.to_nat (ntohs buf))%nat). pose proof (resize_length n buf) as En.
    assert (take 2 (resize n buf) = buf) as Er by (rewrite <-H2, <-El; apply resize_take; lia).
    assert (ntohs (resize n buf) = ntohs buf) as Er2 by (rewrite <-Er at 2; symmetry; by apply ntohs_take).
    apply (conn_ok_at _ _ _ _ _ buf); [lia|done|done|done|]. unfold reading, stuck. rewrite offset_at. cbn [m_currentDnsRequest at_offset].
    destruct (length_ok (ntohs buf)) eqn:El2; [left|right].
    + split; [done|]. right. unfold framed. rewrite Er2, En. split; [unfold length_ok in El2; lia|done].
    + split; [lia|]. split; [done|]. rewrite En. unfold length_ok in El2. destruct (decide (ntohs buf <= 0)); [left|right]; lia.
  - apply (conn_ok_at _ _ _ _ _ (take (offset c + length b) buf)); [lia|lia|done|done|]. left. unfold reading. rewrite offset_at.
    split; [done|]. left. cbn [m_currentDnsRequest at_offset]. lia.
Qed.

(** The bytes of a request. *)
Lemma received_body : (2 <= offset c)%nat -> framed (m_currentDnsRequest c) ->
  let '(c', r) := received b c in conn_ok c' (bs ++ b) (rs ++ completed r).
Proof.
  intros H1 H2. pose proof (framed_length _ H2) as Hl. destruct overwritten as (H3 & El & Eb & En). specialize (En H1).
  assert (framed buf) as Hfb by (destruct H2; split; [by rewrite En|by rewrite El, En]).
  rewrite Eb, received_at by lia. fold buf. destruct (Nat.eqb_spec (offset c + length b) (length buf)) as [E|E]; cbn [negb].
  - rewrite (proj2 (Nat.eqb_neq _ _)) by lia. rewrite take_ge by lia. cbn [completed dnsBuffer].
    apply (conn_ok_at _ _ _ _ _ []); [apply Nat.le_0_l|done|by rewrite concat_app; cbn; rewrite !app_nil_r|by apply Forall_app; auto|].
    left. unfold reading. rewrite offset_at. split; [done|]. left. split; [apply Nat.lt_0_succ|done].
  - cbn [completed]. rewrite app_nil_r. apply (conn_ok_at _ _ _ _ _ (take (offset c + length b) buf)); [lia|lia|done|done|].
    left. unfold reading. rewrite offset_at. split; [done|]. right. cbn [m_currentDnsRequest at_offset]. split; [lia|done].
Qed.
End Reading.

Lemma received_ok b c bs rs : conn_ok c bs rs -> (0 < length b <= room c)%nat ->
  let '(c', r) := received b c in conn_ok c' (bs ++ b) (rs ++ completed r).
Proof.
  intros (H0 & Ho & part & -> & Hf & [[-> Hr]|Hs]) Hb.
  - destruct Hr as [[H1 H2]|[H1 H2]]; [apply received_length|apply received_body]; (done || lia).
  - pose proof (received_stuck b c _ rs part eq_refl Hf Hs Hb) as H. destruct (received b c) as [c' r]. destruct H as [-> H]. by rewrite app_nil_r.
Qed.
Lemma received_id b c : let '(c', r) := received b c in m_connectionId c' = m_connectionId c /\
  match r with Some r => Protocol r = IPPROTO_TCP /\ DnsClientId r = m_connectionId c | None => True end.
Proof. unfold received. destruct (negb _); [done|]. destruct (_ =? _)%nat; done. Qed.

(** * What an action does *)

(** [U]: whether an object may be used after its end. *)
Definition wp {A} (U : Prop) (m : M A) (Q : A -> dns -> Prop) (E : dns -> Prop) (s : dns) : Prop :=
  match m s with (Return x, s') => Q x s' | (Throw, s') => E s' | (Undefined, _) => U | (Blocked, _) => True end.

Section Wp.
Context {U : Prop}.
Implicit Types (E : dns -> Prop).
Lemma wp_bind {A B} (m : M A) (k : A -> M B) Q E s : wp U m (fun x => wp U (k x) Q E) E s -> wp U (m ≫= k) Q E s.
Proof. unfold wp, mbind, M_bind. by destruct (m s) as [[x| | |] s']. Qed.
Lemma wp_try {A} (m h : M A) Q E s : wp U m Q (wp U h Q E) s -> wp U (try m h) Q E s.
Proof. unfold wp, try. by destruct (m s) as [[x| | |] s']. Qed.
Lemma wp_log (m : M unit) Q E s : wp U m (fun _ => Q tt) (Q tt) s -> wp U (CATCH_LOG m) Q E s.
Proof. intros H. apply wp_try. unfold wp in *. by destruct (m s) as [[[]| | |] s']. Qed.
Lemma wp_do c Q E s : (forall a l, answers s = a :: l -> Q a (did c a (s <| answers := l |>))) -> wp U (do c) Q E s.
Proof. intros H. unfold wp, do. destruct (answers s) as [|a l] eqn:Ea; [done|]. by apply H. Qed.
Lemma wp_Syscall c Q E s :
  (forall a l, answers s = a :: l -> 0 <= ret a -> Q a (did c a (s <| answers := l |>))) ->
  (forall a l, answers s = a :: l -> ret a < 0 -> E (did c a (s <| answers := l |>))) -> wp U (Syscall c) Q E s.
Proof.
  intros HQ HE. apply wp_bind, wp_do. intros a l Ea. destruct (ret a <? 0) eqn:Er; [apply HE|apply HQ]; (done || lia).
Qed.
Lemma wp_and {A} (m : M A) (Q Q' : A -> dns -> Prop) E E' s : wp U m Q E s -> wp U m Q' E' s -> wp U m (fun x s => Q x s /\ Q' x s) (fun s => E s /\ E' s) s.
Proof. unfold wp. destruct (m s) as [[x| | |] s']; auto. Qed.
Lemma wp_mono {A} (m : M A) (Q Q' : A -> dns -> Prop) E E' s : wp U m Q E s -> (forall x s, Q x s -> Q' x s) -> (forall s, E s -> E' s) -> wp U m Q' E' s.
Proof. unfold wp. destruct (m s) as [[x| | |] s']; auto. Qed.
End Wp.

(** Keeping [I], whatever happens. *)
Definition keeps {A} (I : dns -> Prop) (m : M A) : Prop := forall s, I s -> wp True m (fun _ => I) I s.
Section Keeps.
Context (I : dns -> Prop).
Lemma dns_keeps_ret {A} (x : A) : keeps I (mret x). Proof. by intros s. Qed.
Lemma dns_keeps_skip : keeps I skip. Proof. by intros s. Qed.
Lemma dns_keeps_throw {A} : keeps I (throw (A := A)). Proof. by intros s. Qed.
Lemma dns_keeps_blocked {A} : keeps I (blocked (A := A)). Proof. by intros s. Qed.
Lemma dns_keeps_gets {A} (f : dns -> A) : keeps I (gets f). Proof. by intros s. Qed.
Lemma dns_keeps_bind {A B} (m : M A) (k : A -> M B) : keeps I m -> (forall x, keeps I (k x)) -> keeps I (m ≫= k).
Proof. intros Hm Hk s Hs. apply wp_bind. eapply wp_mono; [by apply Hm| |done]. intros x s' Hs'. by apply Hk. Qed.
Lemma dns_keeps_try {A} (m h : M A) : keeps I m -> keeps I h -> keeps I (try m h).
Proof. intros Hm Hh s Hs. apply wp_try. eapply wp_mono; [by apply Hm|done|]. intros s' Hs'. by apply Hh. Qed.
Lemma dns_keeps_log m : keeps I m -> keeps I (CATCH_LOG m).
Proof. intros Hm. apply dns_keeps_try; [done|apply dns_keeps_skip]. Qed.
Lemma dns_keeps_do c : (forall a l s, I s -> I (did c a (s <| answers := l |>))) -> keeps I (do c).
Proof. intros H s Hs. apply wp_do. intros a l _. by apply H. Qed.
Lemma dns_keeps_Syscall c : (forall a l s, I s -> I (did c a (s <| answers := l |>))) -> keeps I (Syscall c).
Proof. intros H. apply dns_keeps_bind; [by apply dns_keeps_do|]. intros a s Hs. by destruct (ret a <? 0). Qed.
Lemma dns_keeps_modify f : (forall s, I s -> I (f s)) -> keeps I (modify f).
Proof. intros H s Hs. by apply H. Qed.
Lemma dns_keeps_if_running m : keeps I m -> keeps I (if_running m).
Proof. intros H s Hs. unfold if_running, wp. destruct (running s); [by apply H|done]. Qed.
End Keeps.

Ltac keeps_step :=
  match goal with
  | |- keeps _ (_ ≫= _) => apply dns_keeps_bind; [|intros ?]
  | |- keeps _ (CATCH_LOG _) => apply dns_keeps_log
  | |- keeps _ (try _ _) => apply dns_keeps_try
  | |- keeps _ (if_running _) => apply dns_keeps_if_running
  | |- keeps _ (mret _) => apply dns_keeps_ret
  | |- keeps _ skip => apply dns_keeps_skip
  | |- keeps _ throw => apply dns_keeps_throw
  | |- keeps _ blocked => apply dns_keeps_blocked
  | |- keeps _ (gets _) => apply dns_keeps_gets
  | |- keeps _ (match ?x with _ => _ end) => destruct x eqn:?
  end.
Ltac keeps_steps := repeat keeps_step.

(** The cases of an event and of a step. *)
Lemma wp_begin_event U d Q E s : (target_of s d = Shutdown -> Q tt (s <| running := false |>)) ->
  (target_of s d = Listening -> wp U HandleNewTcpConnection Q E s) -> (target_of s d = Udp -> wp U (then_pending read_udp_request) Q E s) ->
  (target_of s d = Connection -> wp U (then_pending (read_tcp_data d)) Q E s) -> wp U (begin_event d) Q E s.
Proof. intros H1 H2 H3 H4. unfold wp, begin_event in *. destruct (target_of s d); [by apply H1|by apply H2|by apply H3|by apply H4]. Qed.
Lemma wp_server_step U Q E s : (running s = false -> Q tt s) ->
  (forall r, pending s = Some r -> wp U (modify (fun s => s <| pending := None |>);; CATCH_LOG (tunnel r)) Q E s) ->
  (forall d l, pending s = None -> ready s = d :: l -> wp U (begin_event d) Q E (s <| ready := l |>)) ->
  (pending s = None -> wp U wait_events (fun l s => Q tt (s <| ready := l |>)) (Q tt) s) -> wp U server_step Q E s.
Proof.
  intros H1 H2 H3 H4. unfold wp at 1, server_step, if_running. destruct (running s); [|by apply H1].
  destruct (pending s) as [r|]; [by apply (H2 r)|]. destruct (ready s) as [|d l]; [|by apply (H3 d l)].
  apply wp_log, wp_bind. eapply wp_mono; [by apply H4|done|done].
Qed.
Lemma wp_then_pending U m Q E s : wp U m (fun r s' => Q tt (s' <| pending := r |>)) (Q tt) s -> wp U (then_pending m) Q E s.
Proof. intros H. by apply wp_log, wp_bind. Qed.
(** A kept invariant is kept by runs. *)
Lemma dns_keeps_run I : keeps I server_step -> (forall r, keeps I (HandleDnsResponse r)) -> forall l, keeps I (run l).
Proof.
  intros Hs Hr l. induction l as [|[|r] l IH]; [apply dns_keeps_skip| |]; (apply dns_keeps_bind; [done || apply Hr|intros _; apply IH]).
Qed.

(** Sending a response makes only the calls that send. *)
Lemma dns_keeps_send_response I c response : (forall rest a l s, I s -> I (did (c rest) a (s <| answers := l |>))) -> keeps I (send_response c response).
Proof.
  intros H s Hs. change (wp True (send_rest (S (length (answers s))) c response) (fun _ => I) I s).
  generalize (S (length (answers s))). intros fuel. revert response s Hs.
  induction fuel as [|fuel IH]; intros response; (destruct response as [|b rest]; [apply dns_keeps_skip|]); cbn [send_rest]; [apply dns_keeps_blocked|].
  apply dns_keeps_bind; [apply dns_keeps_Syscall; intros; by apply H|]. intros a s' Hs'. by apply IH.
Qed.

(** * The steps are those of the loop *)
Definition nothing_pending (s : dns) : Prop := pending s = None.
Ltac keeps_pending := repeat (keeps_step || (apply dns_keeps_Syscall; done) || (apply dns_keeps_do; done) || (apply dns_keeps_modify; intros ? ?; (done || by repeat case_match))).
Lemma pending_destroy p : keeps nothing_pending (destroy p).
Proof. intros s Hs. unfold wp, destroy. by destruct (heap s !! p). Qed.
Lemma pending_deref p : keeps nothing_pending (deref p).
Proof. intros s Hs. unfold wp, deref. by destruct (heap s !! p). Qed.
Lemma pending_erase id : keeps nothing_pending (erase id).
Proof. unfold erase. keeps_pending. apply pending_destroy. Qed.
Lemma pending_udp : keeps nothing_pending read_udp_request.
Proof. unfold read_udp_request. keeps_pending. Qed.
Lemma pending_tcp d : keeps nothing_pending (read_tcp_data d).
Proof. unfold read_tcp_data, store. keeps_pending; (apply pending_erase || apply pending_deref). Qed.
Lemma pending_connection : keeps nothing_pending HandleNewTcpConnection.
Proof.
  unfold HandleNewTcpConnection, make_context, emplace, store. keeps_pending; (apply pending_destroy || apply pending_deref || apply pending_erase).
Qed.
(** What is left of the event that a thread is in. *)
Definition finish : M unit := fun s =>
  match pending s with Some r => (modify (fun s => s <| pending := None |>);; CATCH_LOG (tunnel r)) s | None => (Return tt, s) end.
Lemma then_finish m s : keeps nothing_pending m -> nothing_pending s ->
  (then_pending m;; finish) s = CATCH_LOG (r ← m; match r with Some r => tunnel r | None => skip end) s.
Proof.
  intros Hm Hs. specialize (Hm s Hs). unfold wp in Hm.
  assert (forall s', nothing_pending s' -> (forall p, s' <| pending := p |> <| pending := None |> = s') /\ s' <| pending := None |> = s') as Es.
  { unfold nothing_pending. intros [] Hp. cbn in Hp. by subst. }
  unfold then_pending, CATCH_LOG, try, finish, mbind, M_bind. destruct (m s) as [[r| | |] s'] eqn:E; [|cbn; by rewrite Hm|done|done].
  destruct (Es s' Hm) as [E1 E2]. cbn. destruct r as [r|]; cbn; [|by rewrite E2].
  unfold CATCH_LOG, try. by rewrite E1.
Qed.
(** An event in steps, with nothing in between, is the event of the loop. *)
Lemma dispatch_steps d s : nothing_pending s -> (begin_event d;; finish) s = dispatch d s.
Proof.
  intros Hs. pose proof (then_finish read_udp_request s pending_udp Hs) as H1. pose proof (then_finish (read_tcp_data d) s (pending_tcp d) Hs) as H2.
  pose proof (pending_connection s Hs) as H3.
  unfold dispatch, HandleUdpDnsRequest, HandleNewTcpData. unfold mbind, M_bind, begin_event, wp in *.
  destruct (target_of s d) eqn:E; [|clear H1 H2|exact H1|exact H2].
  - cbn. unfold finish. cbn. by rewrite Hs.
  - destruct (HandleNewTcpConnection s) as [[[]| | |] s'] eqn:E1; [|done..]. unfold finish. by rewrite H3.
Qed.

(** * The connections *)

(** What the trace says: the connections, the bytes received for one, and the requests
    that the callback was called with. *)
Definition accepted (tr : list (call * answer)) : Z :=
  Z.of_nat (length (filter (fun ca => match fst ca with Make_context => true | _ => false end = true) tr)).
Definition bytes_in (id : Z) (tr : list (call * answer)) : bytes :=
  flat_map (fun ca => match fst ca with
                      | Recv _ connection size => if (connection =? id) && (0 <=? ret (snd ca)) then take size (data (snd ca)) else []
                      | _ => []
                      end) tr.
Definition tunneled (tr : list (call * answer)) : list request := omap (fun ca => match fst ca with Tunnel r => Some r | _ => None end) tr.
(** The requests of a connection, in order; the last one may be pending. *)
Definition of_connection (id : Z) (r : request) : bool := (Protocol r =? IPPROTO_TCP) && (DnsClientId r =? id).
Definition of_pending (p : option request) : list request := match p with Some r => [r] | None => [] end.
Definition all_requests (s : dns) : list request := tunneled (trace s) ++ of_pending (pending s).
Definition requests (id : Z) (s : dns) : list bytes := map dnsBuffer (List.filter (of_connection id) (all_requests s)).

(** The table and the heap hold the same contexts; each is as far as its bytes go; a
    connection that is gone was read up to its end. *)
Record tcp_ok (s : dns) : Prop := {
  ok_table id p : m_tcpConnectionContexts s !! id = Some p -> exists c, heap s !! p = Some c /\ m_connectionId c = id /\
    conn_ok c (bytes_in id (trace s)) (requests id s);
  ok_heap p c : heap s !! p = Some c -> m_tcpConnectionContexts s !! m_connectionId c = Some p;
  ok_gone id : m_tcpConnectionContexts s !! id = None -> frames (bytes_in id (trace s)) = requests id s;
  ok_new id : accepted (trace s) <= id -> bytes_in id (trace s) = [] /\ m_tcpConnectionContexts s !! id = None;
  ok_counter : m_currentTcpConnectionId s = u32 (accepted (trace s))
}.
(** Nothing of it depends on the rest. *)
Lemma tcp_ok_same s s' : tcp_ok s -> m_tcpConnectionContexts s' = m_tcpConnectionContexts s -> heap s' = heap s ->
  m_currentTcpConnectionId s' = m_currentTcpConnectionId s -> accepted (trace s') = accepted (trace s) ->
  (forall id, bytes_in id (trace s') = bytes_in id (trace s)) -> (forall id, requests id s' = requests id s) -> tcp_ok s'.
Proof.
  intros [H1 H2 H3 H4 H5] Et Eh Ec Ea Eb Er. split; rewrite ?Et, ?Eh, ?Ec, ?Ea; [|done| | |done]; intros id; rewrite Eb, ?Er; eauto.
Qed.

Lemma accepted_app a b : accepted (a ++ b) = accepted a + accepted b.
Proof. unfold accepted. rewrite filter_app, length_app. lia. Qed.
Lemma bytes_in_app id a b : bytes_in id (a ++ b) = bytes_in id a ++ bytes_in id b.
Proof. apply flat_map_app. Qed.
Lemma tunneled_app a b : tunneled (a ++ b) = tunneled a ++ tunneled b.
Proof. apply omap_app. Qed.

(** The calls that are none of these. *)
Definition other (c : call) : Prop := match c with Recv _ _ _ | Make_context | Tunnel _ => False | _ => True end.
Lemma requests_did c a s id : other c -> requests id (did c a s) = requests id s.
Proof. intros H. unfold requests, all_requests. cbn. rewrite tunneled_app. destruct c; try done; cbn; by rewrite app_nil_r. Qed.
Lemma tcp_ok_other c a s : other c -> tcp_ok s -> tcp_ok (did c a s).
Proof.
  intros Hc Hs. apply (tcp_ok_same s); try done; [|intros id|intros id; by apply requests_did]; cbn [did trace upd].
  - change (trace (did c a s)) with (trace s ++ [(c, a)]). rewrite accepted_app. destruct c; try done; apply Z.add_0_r.
  - change (trace (did c a s)) with (trace s ++ [(c, a)]). rewrite bytes_in_app. destruct c; try done; cbn; by rewrite app_nil_r.
Qed.

(** A connection ends. *)
Lemma tcp_ok_ended s id p : tcp_ok s -> m_tcpConnectionContexts s !! id = Some p ->
  tcp_ok (s <| m_tcpConnectionContexts := delete id (m_tcpConnectionContexts s) |> <| heap := delete p (heap s) |>).
Proof.
  intros [H1 H2 H3 H4 H5] Hp. destruct (H1 id p Hp) as (c & Hc & Ei & Hok). split; cbn; [| | | |done].
  - intros id' p' [Hne Hp']%lookup_delete_Some. destruct (H1 id' p' Hp') as (c' & Hc' & Ei' & Hok'). exists c'. split; [|done].
    rewrite lookup_delete_ne; [done|]. intros ->. congruence.
  - intros p' c' [Hne Hc']%lookup_delete_Some. rewrite lookup_delete_ne; [by apply H2|]. intros Ee. apply H2 in Hc'. congruence.
  - intros id' [<-|Hn]%lookup_delete_None; [by apply (conn_frames c)|by apply H3].
  - intros id' Hid. destruct (H4 id' Hid) as [? ?]. split; [done|]. by rewrite lookup_delete_None; right.
Qed.

Lemma wp_destroy U s p c (Q : unit -> dns -> Prop) E : heap s !! p = Some c ->
  Q tt (did (Close (m_tcpConnection c)) (mk_answer 0 [] [] []) (s <| heap := delete p (heap s) |>)) -> wp U (destroy p) Q E s.
Proof. intros Hc HQ. unfold wp, destroy. rewrite Hc. exact HQ. Qed.
Lemma wp_erase U s id (Q : unit -> dns -> Prop) E : tcp_ok s ->
  (forall s', tcp_ok s' -> pending s' = pending s -> Q tt s') -> wp U (erase id) Q E s.
Proof.
  intros Hs HQ. unfold erase. apply wp_bind. unfold gets, wp at 1. destruct (m_tcpConnectionContexts s !! id) as [p|] eqn:Hp; [|by apply HQ].
  destruct (ok_table s Hs id p Hp) as (c & Hc & _). apply wp_bind. unfold modify, wp at 1. apply (wp_destroy _ _ p c); [done|].
  apply HQ; [|done]. apply tcp_ok_other; [done|]. exact (tcp_ok_ended s id p Hs Hp).
Qed.

(** ** Reading *)
Lemma requests_pending s id r : pending s = None ->
  requests id (s <| pending := r |>) = requests id s ++ map dnsBuffer (List.filter (of_connection id) (of_pending r)).
Proof.
  intros Hp. unfold requests, all_requests. rewrite Hp. cbn [pending trace upd of_pending]. change (pending (s <| pending := r |>)) with r.
  by rewrite app_nil_r, List.filter_app, map_app.
Qed.
Lemma tcp_ok_answered s l : tcp_ok s -> tcp_ok (s <| answers := l |>).
Proof. intros Hs. by apply (tcp_ok_same s). Qed.
(** A recv that gives nothing to the connection. *)
Lemma tcp_ok_recv_nothing fd i n a s : (0 <=? ret a) = false \/ take n (data a) = [] -> tcp_ok s -> tcp_ok (did (Recv fd i n) a s).
Proof.
  intros Ha Hs. apply (tcp_ok_same s); try done.
  - change (trace (did (Recv fd i n) a s)) with (trace s ++ [(Recv fd i n, a)]). rewrite accepted_app. apply Z.add_0_r.
  - intros id. change (trace (did (Recv fd i n) a s)) with (trace s ++ [(Recv fd i n, a)]). rewrite bytes_in_app. cbn.
    destruct Ha as [-> | ->]; [by rewrite andb_false_r, app_nil_r|]. destruct (_ && _); by rewrite app_nil_r.
  - intros id. unfold requests, all_requests. cbn. by rewrite tunneled_app, app_nil_r.
Qed.
(** A step of one connection. *)
Lemma tcp_ok_update s s' d c c' : tcp_ok s -> heap s !! d = Some c -> m_connectionId c' = m_connectionId c ->
  m_tcpConnectionContexts s' = m_tcpConnectionContexts s -> heap s' = <[d := c']> (heap s) ->
  m_currentTcpConnectionId s' = m_currentTcpConnectionId s -> accepted (trace s') = accepted (trace s) ->
  (forall id, id <> m_connectionId c -> bytes_in id (trace s') = bytes_in id (trace s) /\ requests id s' = requests id s) ->
  conn_ok c' (bytes_in (m_connectionId c) (trace s')) (requests (m_connectionId c) s') -> tcp_ok s'.
Proof.
  intros [H1 H2 H3 H4 H5] Hc Ei Et Eh Ec Ea Hother Hok. pose proof (H2 d c Hc) as Hd. split; rewrite ?Et, ?Eh, ?Ec, ?Ea; [| | | |done].
  - intros id p Hp. destruct (decide (id = m_connectionId c)) as [->|Hne].
    + assert (p = d) as -> by congruence. exists c'. by rewrite lookup_insert_eq.
    + destruct (H1 id p Hp) as (c1 & Hc1 & E1 & Hok1). destruct (Hother id Hne) as [-> ->]. exists c1.
      rewrite lookup_insert_ne; [done|]. intros ->. congruence.
  - intros p c1 [[<- <-]|[Hne Hc1]]%lookup_insert_Some; [by rewrite Ei|by apply H2].
  - intros id Hn. destruct (Hother id) as [-> ->]; [congruence|]. by apply H3.
  - intros id Hid. destruct (H4 id Hid) as [Hb Hn]. destruct (Hother id) as [-> _]; [congruence|done].
Qed.
(** A recv that gives bytes, and what is done with them. *)
Section Received.
Context (s : dns) (d : Z) (c : TcpConnectionContext) (a : answer) (l : list answer).
Context (Hp : pending s = None) (Ha : 0 <= ret a).
Let b := take (room c) (data a).
Let s1 := did (Recv (m_tcpConnection c) (m_connectionId c) (room c)) a (s <| answers := l |>).
Lemma bytes_in_received id : bytes_in id (trace s1) = bytes_in id (trace s) ++ (if m_connectionId c =? id then b else []).
Proof.
  change (trace s1) with (trace s ++ [(Recv (m_tcpConnection c) (m_connectionId c) (room c), a)]). rewrite bytes_in_app. cbn.
  by rewrite (proj2 (Z.leb_le _ _) Ha), andb_true_r, app_nil_r.
Qed.
Lemma requests_received id h r : match r with Some r => Protocol r = IPPROTO_TCP /\ DnsClientId r = m_connectionId c | None => True end ->
  requests id (s1 <| heap := h |> <| pending := r |>) = requests id s ++ (if m_connectionId c =? id then completed r else []).
Proof.
  intros Hr. rewrite requests_pending by done. f_equal.
  - unfold requests, all_requests. change (trace (s1 <| heap := h |>)) with (trace s ++ [(Recv (m_tcpConnection c) (m_connectionId c) (room c), a)]).
    change (pending (s1 <| heap := h |>)) with (pending s). by rewrite tunneled_app, app_nil_r.
  - destruct r as [r|]; [|by destruct (_ =? _)]. destruct Hr as [Hr1 Hr2]. cbn. unfold of_connection. rewrite Hr1, Hr2. cbn. by destruct (_ =? id).
Qed.
Lemma tcp_ok_received : tcp_ok s -> heap s !! d = Some c -> b <> [] ->
  let '(c', r) := received b c in tcp_ok (s1 <| heap := <[d := c']> (heap s1) |> <| pending := r |>).
Proof.
  intros Hs Hc Hb. pose proof (ok_heap s Hs d c Hc) as Ht. destruct (ok_table s Hs _ _ Ht) as (c0 & Hc0 & _ & Hok).
  assert (c0 = c) as -> by congruence.
  assert (0 < length b <= room c)%nat as Hl by (split; [destruct b; [done|cbn; lia]|unfold b; rewrite length_take; lia]).
  pose proof (received_ok b c _ _ Hok Hl) as Hn. pose proof (received_id b c) as Hi. destruct (received b c) as [c' r]. destruct Hi as [Ei Hr].
  apply (tcp_ok_update s _ d c c'); try done.
  - change (accepted (trace s ++ [(Recv (m_tcpConnection c) (m_connectionId c) (room c), a)]) = accepted (trace s)).
    rewrite accepted_app. apply Z.add_0_r.
  - intros id Hne. rewrite requests_received by done. change (trace (_ <| pending := r |>)) with (trace s1). rewrite bytes_in_received.
    rewrite (proj2 (Z.eqb_neq _ _)) by congruence. by rewrite !app_nil_r.
  - rewrite requests_received by done. change (trace (_ <| pending := r |>)) with (trace s1). by rewrite bytes_in_received, Z.eqb_refl.
Qed.
End Received.

Lemma tcp_ok_no_pending s : pending s = None -> tcp_ok s -> tcp_ok (s <| pending := None |>).
Proof. intros Hp Hs. apply (tcp_ok_same s); try done. intros id. by rewrite requests_pending, app_nil_r. Qed.
Lemma wp_read_tcp_data s d : tcp_ok s -> pending s = None ->
  wp (heap s !! d = None) (read_tcp_data d) (fun r s' => tcp_ok (s' <| pending := r |>)) (fun s' => tcp_ok s') s.
Proof.
  intros Hs Hp. unfold read_tcp_data. apply wp_bind. unfold deref, wp at 1. destruct (heap s !! d) as [c|] eqn:Hc; [|done].
  apply wp_bind, wp_try, wp_Syscall; intros a l _ Ha.
  - destruct (take (room c) (data a)) as [|x b] eqn:Eb.
    + apply wp_bind, wp_erase; [apply tcp_ok_recv_nothing; [by right|by apply tcp_ok_answered]|].
      intros s' Hs' Hp'. apply tcp_ok_no_pending; [by rewrite Hp'|done].
    + rewrite <-Eb. pose proof (tcp_ok_received s d c a l Hp Ha Hs Hc) as H. destruct (received _ c) as [c' r]. apply H. by rewrite Eb.
  - apply wp_bind, wp_erase; [|done]. apply tcp_ok_recv_nothing; [left; lia|by apply tcp_ok_answered].
Qed.

(** ** Tunneling, and new connections *)
Lemma wp_tunnel s r U (Q : unit -> dns -> Prop) E : tcp_ok s -> pending s = Some r -> (forall s', tcp_ok s' -> pending s' = None -> Q tt s') ->
  (forall s', tcp_ok s' -> pending s' = None -> E s') -> wp U (modify (fun s => s <| pending := None |>);; tunnel r) Q E s.
Proof.
  intros Hs Hp HQ HE. apply wp_bind. unfold modify, wp at 1.
  assert (forall a l, tcp_ok (did (Tunnel r) a (s <| pending := None |> <| answers := l |>))) as Ht.
  { intros a l. set (s' := did _ _ _). assert (trace s' = trace s ++ [(Tunnel r, a)]) as Et by done. apply (tcp_ok_same s); try done.
    - rewrite Et, accepted_app. apply Z.add_0_r.
    - intros id. by rewrite Et, bytes_in_app, app_nil_r.
    - intros id. unfold requests, all_requests. rewrite Et, Hp, tunneled_app. cbn. by rewrite app_nil_r. }
  unfold tunnel. destruct (_ =? _).
  - apply wp_try, wp_bind, wp_Syscall; intros a l _ _; [by apply HQ|]. apply wp_bind. unfold forget_udp, modify, wp at 1. apply HE; [|done].
    by apply (tcp_ok_same (did (Tunnel r) a (s <| pending := None |> <| answers := l |>))).
  - apply wp_bind, wp_Syscall; intros a l _ _; [by apply HQ|by apply HE].
Qed.

(** A new connection, while the numbers last. *)
Lemma tcp_ok_connected s p fd a l : tcp_ok s -> accepted (trace s) < 2 ^ 32 -> heap s !! p = None ->
  let n := m_currentTcpConnectionId s in
  tcp_ok (did Make_context a (s <| answers := l |>) <| m_currentTcpConnectionId := u32 (n + 1) |> <| heap := <[p := new_context n fd]> (heap s) |>
            <| m_tcpConnectionContexts := <[n := p]> (m_tcpConnectionContexts s) |>).
Proof.
  intros Hs Hn Hp n. set (s' := _ <| m_tcpConnectionContexts := _ |>). pose proof Hs as [H1 H2 H3 H4 H5].
  assert (0 <= accepted (trace s)) as H0 by (unfold accepted; lia).
  assert (n = accepted (trace s)) as En by (unfold n; rewrite H5; apply Z.mod_small; lia).
  assert (trace s' = trace s ++ [(Make_context, a)]) as Et by done.
  assert (accepted (trace s') = accepted (trace s) + 1) as Ea by (rewrite Et, accepted_app; done).
  assert (forall id, bytes_in id (trace s') = bytes_in id (trace s)) as Eb by (intros id; by rewrite Et, bytes_in_app, app_nil_r).
  assert (forall id, requests id s' = requests id s) as Er.
  { intros id. unfold requests, all_requests. rewrite Et, tunneled_app. change (pending s') with (pending s). cbn. by rewrite app_nil_r. }
  destruct (H4 n) as [Hb Hfree]; [lia|]. assert (requests n s = []) as Hr by by rewrite <-(H3 n Hfree), Hb.
  assert (m_tcpConnectionContexts s' = <[n := p]> (m_tcpConnectionContexts s)) as Ett by done.
  assert (heap s' = <[p := new_context n fd]> (heap s)) as Eh by done.
  split; [intros id q|intros q c|intros id|intros id|]; rewrite ?Ett, ?Eh, ?Eb, ?Er, ?Ea.
  - intros [[<- <-]|[Hne Hq]]%lookup_insert_Some.
    + exists (new_context n fd). rewrite Hb, Hr. split; [apply lookup_insert_eq|]. split; [done|apply conn_new].
    + destruct (H1 id q Hq) as (c & Hc & ? & ?). exists c. split; [|done]. rewrite lookup_insert_ne; [done|]. intros ->. congruence.
  - intros [[<- <-]|[Hne Hc]]%lookup_insert_Some; [apply lookup_insert_eq|]. apply H2 in Hc.
    rewrite lookup_insert_ne; [done|]. intros En'. congruence.
  - intros [Hne Hq]%lookup_insert_None. by apply H3.
  - intros Hid. destruct (H4 id) as [? ?]; [lia|]. split; [done|]. apply lookup_insert_None. split; [done|lia].
  - change (u32 (n + 1) = u32 (accepted (trace s) + 1)). by rewrite En.
Qed.

(** Once all numbers were used nothing more is said. *)
Definition exhausted (s : dns) : Prop := 2 ^ 32 <= accepted (trace s).
Definition tcp_inv (s : dns) : Prop := tcp_ok s \/ exhausted s.
Lemma exhausted_did c a l s : exhausted s -> exhausted (did c a (s <| answers := l |>)).
Proof.
  unfold exhausted. change (trace (did c a (s <| answers := l |>))) with (trace s ++ [(c, a)]). rewrite accepted_app.
  assert (0 <= accepted [(c, a)]) by apply Nat2Z.is_nonneg. lia.
Qed.
Ltac keeps_exhausted :=
  repeat (keeps_step || (apply dns_keeps_Syscall; intros; by apply exhausted_did) || (apply dns_keeps_do; intros; by apply exhausted_did) ||
          (apply dns_keeps_modify; intros ? ?; (done || by repeat case_match))).
Lemma exhausted_destroy p : keeps exhausted (destroy p).
Proof.
  intros s Hs. unfold wp, destroy. destruct (heap s !! p) as [c|]; [|done]. apply (exhausted_did _ _ (answers s)). done.
Qed.
Lemma exhausted_deref p : keeps exhausted (deref p).
Proof. intros s Hs. unfold wp, deref. by destruct (heap s !! p). Qed.
Lemma exhausted_erase id : keeps exhausted (erase id).
Proof. unfold erase. keeps_exhausted. apply exhausted_destroy. Qed.
Lemma exhausted_connect n fd : keeps exhausted (new ← make_context n fd; localContext ← emplace n new; c ← deref localContext;
  try (Syscall (Epoll_add (m_tcpConnection c) localContext);; skip) (erase n;; throw)).
Proof. unfold make_context, emplace, store. keeps_exhausted; (apply exhausted_destroy || apply exhausted_deref || apply exhausted_erase). Qed.
Lemma exhausted_tunnel r : keeps exhausted (tunnel r).
Proof. unfold tunnel, forget_udp. keeps_exhausted. Qed.
Lemma exhausted_udp : keeps exhausted read_udp_request.
Proof. unfold read_udp_request. keeps_exhausted. Qed.
Lemma exhausted_tcp d : keeps exhausted (read_tcp_data d).
Proof. unfold read_tcp_data, store. keeps_exhausted; (apply exhausted_deref || apply exhausted_erase). Qed.
Lemma exhausted_connection : keeps exhausted HandleNewTcpConnection.
Proof. unfold HandleNewTcpConnection. apply dns_keeps_log. do 4 (apply dns_keeps_bind; [keeps_exhausted|intros ?]). apply exhausted_connect. Qed.
Lemma exhausted_step : keeps exhausted server_step.
Proof.
  intros s Hs. apply wp_server_step; [done|intros r _|intros d l _ _|intros _].
  - revert s Hs. change (keeps exhausted (modify (fun s => s <| pending := None |>);; CATCH_LOG (tunnel r))). keeps_exhausted. apply exhausted_tunnel.
  - apply wp_begin_event; intros _; [done|by apply exhausted_connection| |]; apply wp_then_pending;
      (eapply wp_mono; [(apply exhausted_udp || apply exhausted_tcp); done|done|done]).
  - eapply wp_mono; [|intros l s' Hs'; exact Hs'|done]. revert s Hs. change (keeps exhausted wait_events). unfold wait_events. keeps_exhausted.
Qed.
Lemma exhausted_response r : keeps exhausted (HandleDnsResponse r).
Proof.
  unfold HandleDnsResponse, HandleUdpDnsResponse, HandleTcpDnsResponse, forget_udp. keeps_exhausted;
    (apply exhausted_deref || (apply dns_keeps_send_response; intros; by apply exhausted_did)).
Qed.

(** ** The invariant *)
Ltac keeps_tcp :=
  repeat (keeps_step || (apply dns_keeps_Syscall; intros; apply tcp_ok_other; [done|by apply tcp_ok_answered]) ||
          (apply dns_keeps_modify; intros ? ?; (by eapply tcp_ok_same) || by repeat case_match)).
Lemma tcp_ok_response r : keeps tcp_ok (HandleDnsResponse r).
Proof.
  unfold HandleDnsResponse, HandleUdpDnsResponse, HandleTcpDnsResponse, forget_udp. keeps_tcp;
    try (apply dns_keeps_send_response; intros; apply tcp_ok_other; [done|by apply tcp_ok_answered]).
  intros s Hs. unfold wp, deref. by destruct (heap s !! _).
Qed.
(** The cases of a datagram. *)
Lemma wp_read_udp_request U s (Q : option request -> dns -> Prop) E :
  (forall a l, let s1 := did (Recvfrom (m_udpSocket s) c_maxUdpDnsBufferSize) a (s <| answers := l |>) in
    let b := take c_maxUdpDnsBufferSize (data a) in let id := m_currentUdpRequestId s in
    (0 <= ret a -> b = [] -> Q None s1) /\ (ret a < 0 -> E s1) /\
    (0 <= ret a -> b <> [] -> Q (Some (mk_request IPPROTO_UDP id b)) (s1 <| m_currentUdpRequestId := u32 (id + 1) |>
      <| m_udpRequests := match m_udpRequests s !! id with Some _ => m_udpRequests s | None => <[id := from a]> (m_udpRequests s) end |>))) ->
  wp U read_udp_request Q E s.
Proof.
  intros H. unfold read_udp_request. apply wp_bind. unfold gets, wp at 1. apply wp_bind, wp_Syscall; intros a l _ Ha; destruct (H a l) as (H1 & H2 & H3); [|by apply H2].
  destruct (take c_maxUdpDnsBufferSize (data a)) as [|x b]; [by apply H1|]. specialize (H3 Ha ltac:(done)).
  unfold wp, gets, modify, mbind, M_bind. cbn. destruct (m_udpRequests s !! m_currentUdpRequestId s) as [y|] eqn:E1; exact H3.
Qed.
Lemma tcp_ok_udp U s : tcp_ok s -> pending s = None -> wp U read_udp_request (fun r s' => tcp_ok (s' <| pending := r |>)) tcp_ok s.
Proof.
  intros Hs Hp. apply wp_read_udp_request. intros a l s1 b id. assert (tcp_ok s1) as H1 by (apply tcp_ok_other; [done|by apply tcp_ok_answered]).
  split; [intros _ _; by apply tcp_ok_no_pending|]. split; [done|]. intros _ _. apply (tcp_ok_same s1); try done.
  intros i. rewrite requests_pending by done. cbn. by rewrite app_nil_r.
Qed.
Abbreviation connect n fd := (new ← make_context n fd; localContext ← emplace n new; c ← deref localContext;
  try (Syscall (Epoll_add (m_tcpConnection c) localContext);; skip) (erase n;; throw)).
Lemma wp_connect U s fd : tcp_ok s -> accepted (trace s) < 2 ^ 32 ->
  wp U (connect (m_currentTcpConnectionId s) fd) (fun _ => tcp_ok) tcp_ok (s <| m_currentTcpConnectionId := u32 (m_currentTcpConnectionId s + 1) |>).
Proof.
  intros Hs Hn. pose proof (tcp_ok_connected s) as Hc. destruct (ok_new s Hs (m_currentTcpConnectionId s)) as [_ Hfree].
  { rewrite (ok_counter s Hs). unfold u32. rewrite Z.mod_small; [done|]. split; [apply Nat2Z.is_nonneg|done]. }
  set (n := m_currentTcpConnectionId s) in *. unfold make_context. apply wp_bind, wp_bind, wp_do. intros a l _.
  apply wp_bind. unfold gets, wp at 1. change (heap (did _ _ _)) with (heap s). destruct (heap s !! ret a) as [c|] eqn:Hp; [done|].
  specialize (Hc (ret a) fd a l Hs Hn Hp). apply wp_bind. unfold store, modify, wp at 1, wp at 1, mret, M_ret.
  apply wp_bind. unfold emplace. apply wp_bind. unfold gets, wp at 1. change (m_tcpConnectionContexts (upd heap _ _)) with (m_tcpConnectionContexts s).
  rewrite Hfree. apply wp_bind. unfold modify, wp at 1, wp at 1, mret, M_ret. apply wp_bind. unfold deref, wp at 1.
  set (s1 := _ <| m_tcpConnectionContexts := _ |>). change (heap s1) with (<[ret a := new_context n fd]> (heap s)). rewrite lookup_insert_eq.
  assert (tcp_ok s1) as H1 by exact Hc. apply wp_try, wp_bind, wp_Syscall; intros a' l' _ _.
  - apply tcp_ok_other; [done|by apply tcp_ok_answered].
  - apply wp_bind, wp_erase; [apply tcp_ok_other; [done|by apply tcp_ok_answered]|done].
Qed.
Lemma tcp_ok_connection s (Q : unit -> dns -> Prop) : (forall s', tcp_inv s' -> Q tt s') -> tcp_ok s -> wp True HandleNewTcpConnection Q (Q tt) s.
Proof.
  intros HQ Hs. apply wp_log, wp_bind. unfold gets, wp at 1.
  apply wp_bind, wp_Syscall; intros a l _ _; [|apply HQ; left; apply tcp_ok_other; [done|by apply tcp_ok_answered]].
  set (s1 := did _ _ _). assert (tcp_ok s1) as H1 by (apply tcp_ok_other; [done|by apply tcp_ok_answered]). clearbody s1.
  apply wp_bind. unfold gets, wp at 1. apply wp_bind. unfold modify, wp at 1. destruct (decide (accepted (trace s1) < 2 ^ 32)) as [Hn|Hn].
  - eapply wp_mono; [by apply wp_connect| |]; cbn; intros; apply HQ; by left.
  - eapply wp_mono; [apply exhausted_connect; unfold exhausted; cbn; lia| |]; cbn; intros; apply HQ; by right.
Qed.

Lemma tcp_inv_step : keeps tcp_inv server_step.
Proof.
  intros s [Hs|Hs]; [|eapply wp_mono; [by apply exhausted_step|by right|by right]].
  apply wp_server_step; [intros _; by left|intros r Hr|intros d l Hp _|intros _].
  - apply wp_bind. unfold modify, wp at 1. apply wp_log. pose proof (wp_tunnel s r True (fun _ => tcp_inv) tcp_inv Hs Hr) as H.
    eapply wp_mono; [apply H; intros; by left|done|done].
  - assert (tcp_ok (s <| ready := l |>)) as Hl by by apply (tcp_ok_same s). clear Hs.
    apply wp_begin_event; intros _; [left; by apply (tcp_ok_same _ _ Hl)|by apply tcp_ok_connection| |]; apply wp_then_pending.
    + eapply wp_mono; [by apply tcp_ok_udp| |]; by left.
    + pose proof (wp_read_tcp_data _ d Hl Hp) as H. unfold wp in *. destruct (read_tcp_data d _) as [[r| | |] s']; [by left|by left|done|done].
  - unfold wait_events. apply wp_bind. unfold gets, wp at 1. apply wp_bind, wp_Syscall; intros a l _ _; left.
    + by apply (tcp_ok_same (did (Epoll_wait c_epollWaitMaxEvents) a (s <| answers := l |>))); [apply tcp_ok_other; [|by apply tcp_ok_answered]|..].
    + apply tcp_ok_other; [done|by apply tcp_ok_answered].
Qed.
Lemma tcp_inv_response r : keeps tcp_inv (HandleDnsResponse r).
Proof. intros s [Hs|Hs]; (eapply wp_mono; [(by apply tcp_ok_response) || by apply exhausted_response|by (left + right)|by (left + right)]). Qed.
Lemma tcp_ok_start inet_pton ip : keeps tcp_ok (Start inet_pton ip).
Proof. unfold Start, StartUdpDnsServer, StartTcpDnsServer. keeps_tcp. Qed.
Lemma tcp_ok_new l : tcp_ok (new_server l).
Proof. split; cbn; try done; intros ? ? H; by rewrite lookup_empty in H. Qed.

(** C32: Whatever comes over however many connections, in whatever order, and however the
    bytes are cut, the requests that the server passes to the host for a connection are
    the complete requests in the bytes received from it, whole and in order, up to one
    whose length is 0 or more than 65533. *)
Theorem tcp_requests_reassembled inet_pton ip labels l s id :
  (Start inet_pton ip;; run labels) (new_server l) = (Return tt, s) -> accepted (trace s) < 2 ^ 32 ->
  requests id s = frames (bytes_in id (trace s)).
Proof.
  intros E Ha. assert (keeps tcp_inv (run labels)) as Hr by (apply dns_keeps_run; [apply tcp_inv_step|apply tcp_inv_response]).
  assert (wp True (Start inet_pton ip;; run labels) (fun _ => tcp_inv) tcp_inv (new_server l)) as H.
  { apply wp_bind. eapply wp_mono; [apply tcp_ok_start, tcp_ok_new|intros x s' Hs'; apply Hr; by left|by left]. }
  unfold wp in H. rewrite E in H. destruct H as [Hs|Hs]; [|unfold exhausted in Hs; lia].
  destruct (m_tcpConnectionContexts s !! id) as [p|] eqn:Hp; [|symmetry; by apply ok_gone].
  destruct (ok_table s Hs id p Hp) as (c & _ & _ & Hc). symmetry. by apply (conn_frames c).
Qed.

(** ** A run *)
Definition ok (n : Z) : answer := mk_answer n [] [] [].
Definition gives (b : bytes) : answer := mk_answer (Z.of_nat (length b)) b [] [].
Definition ready_events (l : list Z) : answer := mk_answer (Z.of_nat (length l)) [] [] l.
(** The descriptors are 3 for epoll, 4 for UDP, 5 for TCP, and 6 and 7 of the pipe. *)
Definition start_answers : list answer := [ok 3; ok 4; ok 0; ok 0; ok 5; ok 0; ok 0; ok 0; mk_answer 6 [] [7; 0; 0; 0] []; ok 0; ok 0].
Definition demo_pton (s : bytes) : option bytes := if list_eqb s (str "10.0.0.1") then Some [10; 0; 0; 1] else None.
(** Two connections, whose contexts are at 4096 and 8192; the bytes of their requests come
    in turn, and a client is gone. *)
Definition demo_answers : list answer := start_answers ++
  [ready_events [5]; ok 8; ok 4096; ok 0; ready_events [5]; ok 9; ok 8192; ok 0;
   ready_events [4096; 8192]; gives [0]; gives [0; 1]; ready_events [8192; 4096]; gives [77]; ok 0; gives [2];
   ready_events [4096]; gives [11; 22]; ok 0; ready_events [8192]; ok 0].
Definition demo_labels : list label := replicate 16 Server.
Definition demo_run : outcome unit * dns := (Start demo_pton (str "10.0.0.1");; run demo_labels) (new_server demo_answers).
Lemma tcp_requests_reassembled_witness :
  let s := snd demo_run in
  fst demo_run = Return tt /\ accepted (trace s) < 2 ^ 32 /\ bytes_in 0 (trace s) = [0; 2; 11; 22] /\
  requests 0 s = [[0; 2; 11; 22]] /\ requests 1 s = [[0; 1; 77]] /\ requests 1 s = frames (bytes_in 1 (trace s)) /\ size (heap s) = 1%nat.
Proof.
  split; [vm_compute; reflexivity|]. split; [vm_compute; reflexivity|]. split; [vm_compute; reflexivity|].
  split; [vm_compute; reflexivity|]. split; [vm_compute; reflexivity|]. split; [|vm_compute; reflexivity].
  apply (tcp_requests_reassembled demo_pton (str "10.0.0.1") demo_labels demo_answers (snd demo_run) 1); vm_compute; reflexivity.
Defined.

(** * Datagrams *)

(** The datagrams received that are not empty, as they were sent, each with its sender. *)
Definition datagrams (tr : list (call * answer)) : list (bytes * bytes) :=
  omap (fun ca => match fst ca with
                  | Recvfrom _ _ => if (0 <=? ret (snd ca)) && negb (is_empty (data (snd ca))) then Some (from (snd ca), data (snd ca)) else None
                  | _ => None
                  end) tr.
Definition over_udp (r : request) : bool := Protocol r =? IPPROTO_UDP.
(** What is passed on of a datagram: its first 4096 bytes, so all of it if it is no longer. *)
Definition first_4096 (b : bytes) : bytes := take (Z.to_nat 4096) b.
(** Each is passed on under its place. *)
Definition numbered (l : list (bytes * bytes)) : list request := imap (fun i d => mk_request IPPROTO_UDP (Z.of_nat i) (first_4096 (snd d))) l.
Lemma received_part (b : bytes) : take c_maxUdpDnsBufferSize b = first_4096 b.
Proof. reflexivity. Qed.
Lemma received_empty (b : bytes) : take c_maxUdpDnsBufferSize b = [] <-> b = [].
Proof. by destruct b. Qed.
Lemma first_4096_whole b : Z.of_nat (length b) <= 4096 -> first_4096 b = b.
Proof. intros H. apply take_ge. lia. Qed.
(** The callback threw. *)
Definition failed (id : Z) (tr : list (call * answer)) : Prop :=
  exists r a, (Tunnel r, a) ∈ tr /\ Protocol r = IPPROTO_UDP /\ DnsClientId r = id /\ ret a < 0.

(** [answered]: the requests for which there are responses. *)
Section Udp.
Context (answered : Z -> Prop).
Record udp_ok (s : dns) : Prop := {
  udp_counter : m_currentUdpRequestId s = u32 (Z.of_nat (length (datagrams (trace s))));
  udp_passed : List.filter over_udp (all_requests s) = numbered (datagrams (trace s));
  udp_table id a : m_udpRequests s !! id = Some a -> exists i d, id = Z.of_nat i /\ datagrams (trace s) !! i = Some d /\ a = fst d;
  udp_open i d : datagrams (trace s) !! i = Some d ->
    m_udpRequests s !! Z.of_nat i = Some (fst d) \/ answered (Z.of_nat i) \/ failed (Z.of_nat i) (trace s)
}.
Definition full (s : dns) : Prop := 2 ^ 32 <= Z.of_nat (length (datagrams (trace s))).
Definition udp_inv (s : dns) : Prop := udp_ok s \/ full s.

Lemma failed_app id a b : failed id a -> failed id (a ++ b).
Proof. intros (r & x & Hin & H). exists r, x. split; [by apply elem_of_app; left|done]. Qed.
Lemma datagrams_app a b : datagrams (a ++ b) = datagrams a ++ datagrams b.
Proof. apply omap_app. Qed.
Lemma udp_ok_same s s' : udp_ok s -> m_currentUdpRequestId s' = m_currentUdpRequestId s -> m_udpRequests s' = m_udpRequests s ->
  datagrams (trace s') = datagrams (trace s) -> (exists more, trace s' = trace s ++ more) ->
  List.filter over_udp (all_requests s') = List.filter over_udp (all_requests s) -> udp_ok s'.
Proof.
  intros [H1 H2 H3 H4] Ec Et Ed [more Em] Er. split; rewrite ?Ec, ?Et, ?Ed, ?Er; [done|done|done|]. intros i d Hi.
  destruct (H4 i d Hi) as [?|[?|?]]; [by left|by right; left|right; right]. rewrite Em. by apply failed_app.
Qed.
Definition quiet (c : call) : Prop := match c with Recvfrom _ _ | Tunnel _ => False | _ => True end.
Lemma udp_ok_did c a l s : quiet c -> udp_ok s -> udp_ok (did c a (s <| answers := l |>)).
Proof.
  intros Hc Hs. set (s' := did _ _ _). assert (trace s' = trace s ++ [(c, a)]) as Et by done.
  apply (udp_ok_same s); try done; [|by exists [(c, a)]|]; unfold all_requests; rewrite Et, ?datagrams_app, ?tunneled_app.
  - destruct c; try done; by rewrite app_nil_r.
  - change (pending s') with (pending s). destruct c; try done; by rewrite app_nil_r.
Qed.
Lemma full_did c a l s : full s -> full (did c a (s <| answers := l |>)).
Proof.
  unfold full. change (trace (did c a (s <| answers := l |>))) with (trace s ++ [(c, a)]). rewrite datagrams_app, length_app. lia.
Qed.
Lemma udp_inv_did c a l s : quiet c -> udp_inv s -> udp_inv (did c a (s <| answers := l |>)).
Proof. intros Hc [Hs|Hs]; [left; by apply udp_ok_did|right; by apply full_did]. Qed.
Lemma udp_inv_same s s' : udp_inv s -> m_currentUdpRequestId s' = m_currentUdpRequestId s -> m_udpRequests s' = m_udpRequests s ->
  trace s' = trace s -> pending s' = pending s -> udp_inv s'.
Proof.
  intros [Hs|Hs] Ec Et Etr Ep; [left|right; unfold full; by rewrite Etr].
  apply (udp_ok_same s); try done; [by rewrite Etr|exists []; by rewrite app_nil_r|unfold all_requests; by rewrite Etr, Ep].
Qed.
Ltac keeps_udp :=
  repeat (keeps_step || (apply dns_keeps_Syscall; intros; by apply udp_inv_did) || (apply dns_keeps_do; intros; by apply udp_inv_did) ||
          (apply dns_keeps_modify; intros ? ?; by eapply udp_inv_same)).
Lemma udp_destroy p : keeps udp_inv (destroy p).
Proof.
  intros s Hs. unfold wp, destroy. destruct (heap s !! p) as [c|]; [|done].
  apply (udp_inv_same (did (Close (m_tcpConnection c)) (mk_answer 0 [] [] []) s)); try done. by apply (udp_inv_did _ _ (answers s)).
Qed.
Lemma udp_deref p : keeps udp_inv (deref p).
Proof. intros s Hs. unfold wp, deref. by destruct (heap s !! p). Qed.
Lemma udp_erase id : keeps udp_inv (erase id).
Proof. unfold erase. keeps_udp. apply udp_destroy. Qed.
Lemma udp_connection : keeps udp_inv HandleNewTcpConnection.
Proof.
  unfold HandleNewTcpConnection, make_context, emplace, store. keeps_udp; (apply udp_destroy || apply udp_deref || apply udp_erase).
Qed.
Lemma udp_start inet_pton ip : keeps udp_inv (Start inet_pton ip).
Proof. unfold Start, StartUdpDnsServer, StartTcpDnsServer. keeps_udp. Qed.

(** A request is forgotten once there is a response or its passing failed. *)
Lemma udp_forget id s : udp_inv s -> answered id \/ failed id (trace s) -> udp_inv (s <| m_udpRequests := delete id (m_udpRequests s) |>).
Proof.
  intros [[H1 H2 H3 H4]|Hs] Ha; [left|by right]. set (s' := _ <| m_udpRequests := _ |>).
  assert (m_udpRequests s' = delete id (m_udpRequests s)) as Em by done. split; rewrite ?Em; [done|done| |].
  - intros i a [_ Hi]%lookup_delete_Some. by apply H3.
  - intros i d Hi. destruct (decide (id = Z.of_nat i)) as [->|Hne]; [by right|]. rewrite lookup_delete_ne by done. by apply H4.
Qed.
Lemma udp_response r : (Protocol r = IPPROTO_UDP -> answered (DnsClientId r)) -> keeps udp_inv (HandleDnsResponse r).
Proof.
  intros Ha. unfold HandleDnsResponse, HandleUdpDnsResponse, HandleTcpDnsResponse. apply dns_keeps_log. destruct (_ =? _) eqn:E.
  - apply Z.eqb_eq in E. unfold forget_udp. keeps_udp; try (apply dns_keeps_modify; intros s Hs; apply udp_forget; auto).
    apply dns_keeps_send_response. intros. by apply udp_inv_did.
  - keeps_udp; [apply udp_deref|]. apply dns_keeps_send_response. intros. by apply udp_inv_did.
Qed.
Lemma udp_tunnel s r : udp_inv s -> pending s = Some r -> wp True (modify (fun s => s <| pending := None |>);; tunnel r) (fun _ => udp_inv) udp_inv s.
Proof.
  intros Hs Hp. apply wp_bind. unfold modify, wp at 1.
  assert (forall a l, udp_inv (did (Tunnel r) a (s <| pending := None |> <| answers := l |>))) as Ht.
  { intros a l. set (s' := did _ _ _). assert (trace s' = trace s ++ [(Tunnel r, a)]) as Et by done.
    assert (datagrams (trace s') = datagrams (trace s)) as Ed by by rewrite Et, datagrams_app, app_nil_r.
    destruct Hs as [Hs|Hs]; [left|right; unfold full; by rewrite Ed].
    apply (udp_ok_same s); try done; [by exists [(Tunnel r, a)]|]. f_equal. unfold all_requests. rewrite Et, Hp, tunneled_app. cbn. by rewrite app_nil_r. }
  unfold tunnel. destruct (_ =? _) eqn:E.
  - apply wp_try, wp_bind, wp_Syscall; intros a l _ Ha; [by apply Ht|]. apply wp_bind. unfold forget_udp, modify, wp at 1. apply udp_forget; [by apply Ht|].
    right. exists r, a. split; [|by apply Z.eqb_eq in E]. change (trace (did _ _ _)) with (trace s ++ [(Tunnel r, a)]). apply elem_of_app. right. by left.
  - apply wp_bind, wp_Syscall; intros a l _ _; by apply Ht.
Qed.

(** A datagram is numbered by its place, while the numbers last. *)
Lemma udp_received s a l b : udp_ok s -> ~ full s -> pending s = None -> 0 <= ret a -> b = take c_maxUdpDnsBufferSize (data a) -> b <> [] ->
  let id := m_currentUdpRequestId s in
  udp_ok (did (Recvfrom (m_udpSocket s) c_maxUdpDnsBufferSize) a (s <| answers := l |>) <| m_currentUdpRequestId := u32 (id + 1) |>
    <| m_udpRequests := match m_udpRequests s !! id with Some _ => m_udpRequests s | None => <[id := from a]> (m_udpRequests s) end |>
    <| pending := Some (mk_request IPPROTO_UDP id b) |>).
Proof.
  intros [H1 H2 H3 H4] Hn Hp Ha Eb Hb id. set (D := datagrams (trace s)) in *. unfold full in Hn. fold D in Hn.
  assert (id = Z.of_nat (length D)) as Ei by (unfold id; rewrite H1; apply Z.mod_small; lia).
  destruct (m_udpRequests s !! id) as [x|] eqn:Ex.
  { destruct (H3 id x Ex) as (i & d & Hi & Hd & _). apply lookup_lt_Some in Hd. lia. }
  set (s' := _ <| pending := _ |>). assert (trace s' = trace s ++ [(Recvfrom (m_udpSocket s) c_maxUdpDnsBufferSize, a)]) as Et by done.
  assert (datagrams (trace s') = D ++ [(from a, data a)]) as Ed.
  { rewrite Et, datagrams_app. unfold datagrams at 2. cbn [omap list_omap fst snd]. rewrite (proj2 (Z.leb_le _ _) Ha).
    destruct (data a) eqn:Edata; [|done]. by destruct Hb; rewrite Eb. }
  assert (all_requests s' = all_requests s ++ [mk_request IPPROTO_UDP id b]) as Er.
  { unfold all_requests. rewrite Et, Hp, tunneled_app. cbn. by rewrite !app_nil_r. }
  assert (m_udpRequests s' = <[id := from a]> (m_udpRequests s)) as Em by done. split; rewrite ?Ed, ?Em, ?Er.
  - change (u32 (id + 1) = u32 (Z.of_nat (length (D ++ [(from a, data a)])))). rewrite length_app. f_equal. cbn. lia.
  - unfold numbered. rewrite imap_app. cbn [imap]. rewrite Nat.add_0_r, <-Ei. fold (numbered D). cbn [snd]. by rewrite <-H2, List.filter_app, <- received_part, <- Eb.
  - intros i x' [[<- <-]|[_ Hi]]%lookup_insert_Some.
    + exists (length D), (from a, data a). by rewrite lookup_app_r, Nat.sub_diag by done.
    + destruct (H3 i x' Hi) as (k & d & -> & Hd & ->). exists k, d. by rewrite (lookup_app_l_Some _ _ _ _ Hd).
  - intros i d [Hd|[Hl Hd]]%lookup_app_Some.
    + assert (Z.of_nat i <> id) by (apply lookup_lt_Some in Hd; lia). rewrite lookup_insert_ne by done.
      destruct (H4 i d Hd) as [?|[?|?]]; [by left|by right; left|right; right]. rewrite Et. by apply failed_app.
    + left. assert (i = length D /\ d = (from a, data a)) as [-> ->].
      { destruct (i - length D)%nat eqn:E; [|done]. injection Hd as <-. split; [lia|done]. }
      rewrite <-Ei. apply lookup_insert_eq.
Qed.
Lemma udp_inv_pending s p : udp_inv s -> pending s = None -> (forall r, p = Some r -> over_udp r = false) -> udp_inv (s <| pending := p |>).
Proof.
  intros [Hs|Hs] Hp Hr; [left|by right]. apply (udp_ok_same s); try done; [by exists []; rewrite app_nil_r|].
  unfold all_requests. rewrite Hp. change (pending (s <| pending := p |>)) with p. rewrite !List.filter_app. f_equal.
  destruct p as [r|]; [|done]. cbn. by rewrite (Hr r eq_refl).
Qed.
Lemma udp_read_datagram s : udp_inv s -> pending s = None ->
  wp True read_udp_request (fun r s' => udp_inv (s' <| pending := r |>)) udp_inv s.
Proof.
  intros Hs Hp. apply wp_read_udp_request. intros a l s1 b id.
  assert ((0 <=? ret a) = false \/ b = [] -> udp_inv s1) as H1.
  { intros Hb. assert (datagrams (trace s1) = datagrams (trace s)) as Ed.
    { change (trace s1) with (trace s ++ [(Recvfrom (m_udpSocket s) c_maxUdpDnsBufferSize, a)]). rewrite datagrams_app. unfold datagrams at 2.
      cbn [omap list_omap fst snd]. destruct Hb as [-> | Hb]; [by rewrite app_nil_r|].
      apply (received_empty (data a)) in Hb. by rewrite Hb, andb_false_r, app_nil_r. }
    destruct Hs as [Hs|Hs]; [left|right; unfold full; by rewrite Ed]. apply (udp_ok_same s); try done; [by eexists|].
    unfold all_requests. change (trace s1) with (trace s ++ [(Recvfrom (m_udpSocket s) c_maxUdpDnsBufferSize, a)]). by rewrite tunneled_app, app_nil_r. }
  split; [intros _ Hb; apply udp_inv_pending; [by apply H1; right|done|done]|]. split; [intros Ha; apply H1; left; lia|].
  intros Ha Hb. destruct (decide (2 ^ 32 <= Z.of_nat (length (datagrams (trace s))))) as [Hf|Hf]; [right; by apply full_did|].
  destruct Hs as [Hs|Hs]; [left; by apply udp_received|done].
Qed.
Lemma read_tcp_request d s : pending s = None -> wp True (read_tcp_data d) (fun r s' => pending s' = None /\ forall x, r = Some x -> over_udp x = false) (fun _ => True) s.
Proof.
  intros Hp. unfold read_tcp_data. apply wp_bind. unfold deref, wp at 1. destruct (heap s !! d) as [c|]; [|done].
  assert (forall id, keeps (fun s => pending s = None) (erase id)) as He.
  { intros id. unfold erase. keeps_steps; try (apply dns_keeps_modify; done). intros s' Hs'. unfold wp, destroy. by destruct (heap s' !! _). }
  apply wp_bind, wp_try, wp_Syscall; intros a l _ _; cbn beta; [|apply wp_bind; eapply wp_mono; [by apply He|done|done]].
  destruct (take (room c) (data a)) as [|x b].
  - apply wp_bind. eapply wp_mono; [by apply He|by intros|done].
  - pose proof (received_id (x :: b) c) as Hi. destruct (received (x :: b) c) as [c' r]. destruct Hi as [_ Hr]. split; [done|].
    intros y ->. unfold over_udp. by destruct Hr as [-> _].
Qed.
Lemma udp_read_tcp d : keeps udp_inv (read_tcp_data d).
Proof. unfold read_tcp_data, store. keeps_udp; (apply udp_deref || apply udp_erase). Qed.

Lemma udp_step : keeps udp_inv server_step.
Proof.
  intros s Hs. apply wp_server_step; [done|intros r Hr|intros d l Hp _|intros _].
  - apply wp_bind. unfold modify, wp at 1. apply wp_log. exact (udp_tunnel s r Hs Hr).
  - assert (udp_inv (s <| ready := l |>)) as Hl by by apply (udp_inv_same s).
    apply wp_begin_event; intros _; [by apply (udp_inv_same s)|by apply udp_connection| |]; apply wp_then_pending.
    + by apply udp_read_datagram.
    + eapply wp_mono; [apply wp_and; [by apply udp_read_tcp|by apply read_tcp_request]| |by intros ? [? _]].
      intros r s' (H1 & H2 & H3). by apply udp_inv_pending.
  - unfold wait_events. apply wp_bind. unfold gets, wp at 1. apply wp_bind, wp_Syscall; intros a l _ _; [|by apply udp_inv_did].
    by apply (udp_inv_same (did (Epoll_wait c_epollWaitMaxEvents) a (s <| answers := l |>))); [apply udp_inv_did|..].
Qed.
Lemma udp_run l : Forall (fun x => match x with Response r => Protocol r = IPPROTO_UDP -> answered (DnsClientId r) | Server => True end) l -> keeps udp_inv (run l).
Proof.
  intros H. induction H as [|[|r] l Hx Hl IH]; [apply dns_keeps_skip| |]; (apply dns_keeps_bind; [(by apply udp_step) || by apply udp_response|intros _; apply IH]).
Qed.
Lemma udp_ok_new l : udp_ok (new_server l).
Proof. by split. Qed.
End Udp.

(** The attempts to send a response over UDP: each sends what the ones before have left,
    until everything is sent or one fails. *)
Fixpoint reply (fd : Z) (address response : bytes) (sends : list (call * answer)) : Prop :=
  match sends with
  | [] => response = []
  | (c, a) :: sends' => response <> [] /\ c = Sendto fd response address /\
    if ret a <? 0 then sends' = [] else reply fd address (drop (Z.to_nat (ret a)) response) sends'
  end.
Lemma wp_send_rest fd address fuel response s :
  let P s' := m_udpRequests s' = m_udpRequests s /\ exists sends, trace s' = trace s ++ sends /\ reply fd address response sends in
  wp False (send_rest fuel (fun rest => Sendto fd rest address) response) (fun _ => P) P s.
Proof.
  revert response s. induction fuel as [|fuel IH]; intros response s; cbn zeta; (destruct response as [|x rest]; [split; [done|]; exists []; by rewrite app_nil_r|]);
    cbn [send_rest]; [done|]. set (b := x :: rest) in *. apply wp_bind, wp_Syscall; intros a l _ Ha; set (s1 := did _ _ _).
  - eapply wp_mono; [apply (IH (drop (Z.to_nat (ret a)) b) s1)| |]; [intros ?|]; intros s' (E1 & sends & E2 & Hr); (split; [done|]);
      exists ((Sendto fd b address, a) :: sends); rewrite E2; change (trace s1) with (trace s ++ [(Sendto fd b address, a)]);
      (split; [by rewrite <-app_assoc|]); (split; [done|]); (split; [done|]); by rewrite (proj2 (Z.ltb_ge _ _)).
  - split; [done|]. exists [(Sendto fd b address, a)]. split; [done|]. split; [done|]. split; [done|]. by rewrite (proj2 (Z.ltb_lt _ _)).
Qed.
Lemma wp_udp_response r address s : Protocol r = IPPROTO_UDP -> m_udpRequests s !! DnsClientId r = Some address ->
  wp False (HandleDnsResponse r) (fun _ s' => m_udpRequests s' = delete (DnsClientId r) (m_udpRequests s) /\
    exists sends, trace s' = trace s ++ sends /\ reply (m_udpSocket s) address (dnsBuffer r) sends) (fun _ => False) s.
Proof.
  intros Hr Ha. unfold HandleDnsResponse. rewrite Hr. apply wp_log, wp_log, wp_bind. unfold gets, wp at 1. rewrite Ha.
  apply wp_bind. unfold gets, wp at 1. apply wp_bind, wp_try.
  eapply wp_mono; [apply (wp_send_rest (m_udpSocket s) address (S (length (answers s))) (dnsBuffer r) s)|intros ?|]; intros s' [E Hs].
  - unfold forget_udp, modify, wp. by rewrite <-E.
  - apply wp_bind. unfold forget_udp, modify, wp at 1, throw, wp. by rewrite <-E.
Qed.

(** There is no response for a request in a run. *)
Definition unanswered (id : Z) (labels : list label) : Prop := forall r, Response r ∈ labels -> Protocol r = IPPROTO_UDP -> DnsClientId r <> id.

(** C33: The datagrams that are not empty, fewer than 2^32 of them so that the numbers are
    not used again, are passed to the host in order, each under the number that its place
    gives it, and whole up to 4096 bytes; of a longer one the first 4096 are passed on.
    As long as the host has not answered one and the passing did not
    fail, its sender is remembered under the number.  A response goes to the sender of the
    datagram with its number and to nobody else, and then the number is forgotten; when
    there is no such datagram any more nothing is done. *)
Theorem udp_requests_answered_once inet_pton ip labels l s :
  (Start inet_pton ip;; run labels) (new_server l) = (Return tt, s) -> Z.of_nat (length (datagrams (trace s))) < 2 ^ 32 ->
  List.filter over_udp (all_requests s) = numbered (datagrams (trace s)) /\
  (forall i d, datagrams (trace s) !! i = Some d -> unanswered (Z.of_nat i) labels -> ~ failed (Z.of_nat i) (trace s) ->
    m_udpRequests s !! Z.of_nat i = Some (fst d)) /\
  (forall r, Protocol r = IPPROTO_UDP ->
    match m_udpRequests s !! DnsClientId r with
    | None => HandleDnsResponse r s = (Return tt, s)
    | Some address =>
      (exists i d, DnsClientId r = Z.of_nat i /\ datagrams (trace s) !! i = Some d /\ address = fst d) /\
      wp False (HandleDnsResponse r) (fun _ s' => m_udpRequests s' = delete (DnsClientId r) (m_udpRequests s) /\
        exists sends, trace s' = trace s ++ sends /\ reply (m_udpSocket s) address (dnsBuffer r) sends) (fun _ => False) s
    end).
Proof.
  intros E Hn. set (answered := fun id => ~ unanswered id labels).
  assert (wp True (Start inet_pton ip;; run labels) (fun _ => udp_inv answered) (udp_inv answered) (new_server l)) as H.
  { apply wp_bind. eapply wp_mono; [apply udp_start; left; apply udp_ok_new| |done]. intros ? s' Hs'. apply udp_run; [|done].
    apply Forall_forall. intros [|r] Hr; [done|]. intros Hp Hu. by apply (Hu r Hr). }
  unfold wp in H. rewrite E in H. destruct H as [[H1 H2 H3 H4]|Hs]; [|unfold full in Hs; lia].
  split; [done|]. split; [intros i d Hi Hu Hf; by destruct (H4 i d Hi) as [?|[?|?]]|]. intros r Hr.
  destruct (m_udpRequests s !! DnsClientId r) as [address|] eqn:Ea; [split; [by apply H3|by apply wp_udp_response]|].
  unfold HandleDnsResponse, HandleUdpDnsResponse, CATCH_LOG, try, gets, mbind, M_bind. rewrite Hr. cbn. by rewrite Ea.
Qed.

(** Two clients; the second is answered first, and a second time to no effect. *)
Definition from_client (address b : bytes) : answer := mk_answer (Z.of_nat (length b)) b address [].
Definition demo_udp_answers : list answer := start_answers ++
  [ready_events [4]; from_client [1] [10; 11]; ok 0; ready_events [4]; from_client [2] [20]; ok 0; ok 3].
Definition demo_udp_labels : list label :=
  replicate 6 Server ++ [Response (mk_request IPPROTO_UDP 1 [7; 7; 7]); Response (mk_request IPPROTO_UDP 1 [8])].
Definition demo_udp_run : outcome unit * dns := (Start demo_pton (str "10.0.0.1");; run demo_udp_labels) (new_server demo_udp_answers).
Lemma udp_requests_answered_once_witness :
  let s := snd demo_udp_run in
  fst demo_udp_run = Return tt /\ Z.of_nat (length (datagrams (trace s))) < 2 ^ 32 /\
  List.filter over_udp (all_requests s) = numbered (datagrams (trace s)) /\ m_udpRequests s !! 0 = Some [1] /\
  HandleDnsResponse (mk_request IPPROTO_UDP 1 [8]) s = (Return tt, s) /\
  last (trace s) = Some (Sendto 4 [7; 7; 7] [2], ok 3).
Proof.
  assert ((Start demo_pton (str "10.0.0.1");; run demo_udp_labels) (new_server demo_udp_answers) = (Return tt, snd demo_udp_run)) as E by (vm_compute; reflexivity).
  assert (Z.of_nat (length (datagrams (trace (snd demo_udp_run)))) < 2 ^ 32) as Hn by (vm_compute; reflexivity).
  destruct (udp_requests_answered_once demo_pton (str "10.0.0.1") demo_udp_labels demo_udp_answers (snd demo_udp_run) E Hn) as (H1 & H2 & H3).
  split; [vm_compute; reflexivity|]. split; [exact Hn|]. split; [exact H1|].
  split; [vm_compute; reflexivity|]. split; [exact (H3 (mk_request IPPROTO_UDP 1 [8]) eq_refl)|vm_compute; reflexivity].
Defined.

(** * The channel *)
Definition request_ok (r : request) : Prop :=
  0 <= Protocol r < 256 /\ 0 <= DnsClientId r < 2 ^ 32 /\ 20 + Z.of_nat (length (dnsBuffer r)) < 2 ^ 32.
Definition message_header (r : request) (v : Z) : MESSAGE_HEADER := mk_header LxGnsMessageDnsTunneling (20 + Z.of_nat (length (dnsBuffer r))) v.
Lemma identifier_length r : length (identifier_bytes r) = 8%nat.
Proof. done. Qed.
Lemma dns_message_bytes r : dns_message r = header_bytes (message_header r 0) ++ identifier_bytes r ++ dnsBuffer r.
Proof.
  unfold dns_message, Channel.WriteSpan, Channel.InsertBuffer, Channel.grow, Channel.resized.
  set (f := Channel.overwrite identifier_offset _ _). assert (length f = 20%nat) as Hf by done.
  assert (Channel.Size f = 20) as -> by done. rewrite !length_app, length_replicate, Hf. set (n := length (dnsBuffer r)).
  rewrite put32_app by (rewrite Hf; unfold Channel.size_offset; lia). set (g := Channel.put32 _ _ f).
  assert (length g = 20%nat) as Hg by (unfold g; rewrite put32_length; [done|unfold Channel.size_offset; lia]).
  unfold Channel.Span. rewrite !length_app, Hg, length_replicate. unfold buffer_offset. rewrite (proj2 (Nat.ltb_ge (20 + n) 20)) by lia.
  assert (Channel.overwrite (Z.to_nat 20) (dnsBuffer r) (g ++ replicate n 0) = g ++ dnsBuffer r) as ->.
  { unfold Channel.overwrite. fold n. rewrite take_app_length', drop_ge by (rewrite ?length_app, ?Hg, ?length_replicate; done || lia). by rewrite app_nil_r. }
  rewrite length_app, Hg. fold n. rewrite (proj2 (Nat.ltb_ge (20 + n) 20)) by lia. rewrite app_assoc. f_equal.
  unfold g, message_header. fold n. rewrite Nat2Z.inj_add. done.
Qed.
Lemma numbered_message r v : Channel.put32 8 v (dns_message r) = header_bytes (message_header r v) ++ identifier_bytes r ++ dnsBuffer r.
Proof. rewrite dns_message_bytes. by rewrite put32_app by by rewrite header_bytes_length. Qed.
Lemma read_numbered r v : request_ok r -> read_request (header_bytes (message_header r v) ++ identifier_bytes r ++ dnsBuffer r) = r.
Proof.
  intros (H1 & H2 & _). unfold read_request. destruct r as [p i b]. cbn in H1, H2. f_equal.
  - cbn. by rewrite Z.mod_small.
  - change (get32 0 (le_bytes 4 i ++ b) = i). by read_field.
Qed.
Lemma dns_message_well_formed r size : request_ok r -> (size <= 20)%nat -> well_formed Channel.LxMiniInitMessageAny size (dns_message r).
Proof.
  intros (_ & _ & H) Hs. rewrite dns_message_bytes. unfold well_formed. rewrite !length_app, header_bytes_length, identifier_length.
  split; [lia|]. split; [lia|]. split; [|by left].
  pose proof (read_header_bytes LxGnsMessageDnsTunneling (20 + Z.of_nat (length (dnsBuffer r))) 0 (identifier_bytes r ++ dnsBuffer r)
    ltac:(done) ltac:(lia) ltac:(done)) as E. apply (f_equal MessageSize) in E. cbn [MessageSize read_header] in E. unfold message_header. rewrite E. lia.
Qed.

(** Sending and reporting one request. *)
Lemma send_request evs r c : request_ok r -> Forall (working retry_intr) evs -> (length (dns_message r) <= progress evs)%nat ->
  SendDnsMessage evs r c = (Channel.put32 8 (u32 (Channel.m_sent_messages c + 1)) (dns_message r),
    c <| Channel.m_sent_messages := u32 (Channel.m_sent_messages c + 1) |>).
Proof.
  intros Hr Hw Hp. unfold SendDnsMessage. by rewrite (SendMessage_working Channel.LxMiniInitMessageAny) by (try apply dns_message_well_formed; done).
Qed.
Lemma receive_request evs r rest c k : request_ok r -> Forall calm evs -> (length (dns_message r) <= arrivals evs)%nat ->
  Channel.m_ignore_sequence c = true \/ Channel.m_received_messages c = k ->
  exists evs', receive_turn evs (Channel.put32 8 (u32 (k + 1)) (dns_message r) ++ rest) c =
    (Reported r, evs', rest, c <| Channel.m_received_messages := u32 (Channel.m_received_messages c + 1) |>) /\
    Forall calm evs' /\ (arrivals evs <= arrivals evs' + length (dns_message r))%nat.
Proof.
  intros Hr Hc Hn Hk. set (m := put32 8 (u32 (k + 1)) (dns_message r)).
  assert (well_formed LxMiniInitMessageAny 12 m) as Hw by (apply put8_well_formed, dns_message_well_formed; [done|lia]).
  assert (m = header_bytes (message_header r (u32 (k + 1))) ++ identifier_bytes r ++ dnsBuffer r) as Em by apply numbered_message.
  assert (length m = length (dns_message r)) as El by (apply put32_length; rewrite dns_message_bytes, length_app, header_bytes_length; lia).
  assert (20 <= length m)%nat as H20 by (rewrite Em, !length_app, header_bytes_length, identifier_length; lia).
  assert (read_header m = message_header r (u32 (k + 1))) as Eh.
  { rewrite Em. destruct Hr as (_ & _ & Hr). apply read_header_bytes; [done|lia|]. unfold u32. by apply Z.mod_pos_bound. }
  pose proof Hw as (H1 & H2 & H3 & _). destruct (RecvMessage_complete evs m rest Hc H2 H3) as (evs' & E & Hc' & Ha); [by rewrite El|].
  exists evs'. rewrite <-El. split; [|done]. unfold receive_turn, ReceiveMessageOrClosed. rewrite E, (proj2 (Nat.ltb_ge _ _)) by lia.
  rewrite (header_accepted LxMiniInitMessageAny 12); [|done|].
  - cbn [negb]. rewrite Eh. cbn [message_header MessageType]. rewrite Z.eqb_refl. cbn [negb]. unfold buffer_offset.
    rewrite (proj2 (Nat.ltb_ge _ _)) by lia. by rewrite Em, read_numbered.
  - destruct Hk as [Hk|<-]; [by left|right]. change (SequenceNumber (read_header m) = u32 (m_received_messages c + 1)). by rewrite Eh.
Qed.

Definition sends_ok (x : list sock_event * request) : Prop :=
  request_ok (snd x) /\ Forall (working retry_intr) (fst x) /\ (length (dns_message (snd x)) <= progress (fst x))%nat.
Lemma tunnel_cons evs r l c : sends_ok (evs, r) ->
  fst (tunnel_requests false ((evs, r) :: l) c) =
    put32 8 (u32 (m_sent_messages c + 1)) (dns_message r) ++ fst (tunnel_requests false l (c <| m_sent_messages := u32 (m_sent_messages c + 1) |>)).
Proof.
  intros (H1 & H2 & H3). cbn [tunnel_requests]. unfold tunnel_request. rewrite send_request by done.
  by destruct (tunnel_requests _ _ _).
Qed.
Lemma receive_tunneled l polls evs sender receiver : Forall sends_ok l -> Forall calm evs ->
  m_ignore_sequence receiver = true \/ m_received_messages receiver = m_sent_messages sender ->
  (length (fst (tunnel_requests false l sender)) < arrivals evs)%nat -> (length l < length polls)%nat -> Forall (fun p => p = Polled false true) polls ->
  receive_loop (S (length polls)) polls evs (fst (tunnel_requests false l sender)) receiver = (map snd l, true).
Proof.
  intros Hl. revert polls evs sender receiver. induction Hl as [|[es r] l Hr Hl IH]; intros polls evs sender receiver Hc Hk Hn Hp Hpolls;
    (destruct Hpolls as [|p polls -> Hpolls]; [cbn in Hp; lia|]); cbn [length]; remember (S (length polls)) as fuel eqn:Ef; cbn [receive_loop wait_for_channel_fd].
  - cbn in Hn. unfold receive_turn, ReceiveMessageOrClosed. cbn [tunnel_requests fst]. destruct (RecvMessage_end evs Hc) as (evs' & ->); [lia|done].
  - rewrite tunnel_cons in Hn |- * by done. rewrite length_app in Hn. pose proof Hr as (H1 & _ & _). cbn in Hp.
    assert (length (put32 8 (u32 (m_sent_messages sender + 1)) (dns_message r)) = length (dns_message r)) as El.
    { apply put32_length. cbn [snd] in H1. rewrite dns_message_bytes, length_app, header_bytes_length. lia. }
    destruct (receive_request evs r (fst (tunnel_requests false l (sender <| m_sent_messages := u32 (m_sent_messages sender + 1) |>))) receiver
      (m_sent_messages sender) H1 Hc) as (evs' & -> & Hc' & Ha); [lia|done|].
    subst fuel. rewrite (IH polls evs'); [done|done| |lia|lia|done]. destruct Hk as [Hk|Hk]; [by left|right]. cbn. by rewrite Hk.
Qed.

(** What the server passes on crosses the channel: while the sockets work, the requests
    that one end sends, with their protocols, numbers and bytes, are what the receive loop
    of an end like it reports, in order, however the bytes are cut on the way, and then
    the loop ends with the channel. *)
Lemma dns_requests_cross l polls revs sender receiver :
  Forall sends_ok l -> m_received_messages receiver = m_sent_messages sender ->
  Forall calm revs -> (length (fst (tunnel_requests false l sender)) < arrivals revs)%nat ->
  Forall (fun p => p = Polled false true) polls -> (length l < length polls)%nat ->
  ReceiveLoop polls revs (fst (tunnel_requests false l sender)) receiver = (map snd l, true).
Proof. intros Hl Hk Hc Hn Hp Hlen. apply receive_tunneled; try done. by right. Qed.

(** Two requests, the first sent in two parts, received byte by byte. *)
Lemma dns_requests_cross_witness :
  let r1 := mk_request IPPROTO_UDP 5 [1; 2; 3] in let r2 := mk_request IPPROTO_TCP 70000 [0; 1; 9] in
  let l := [([Progress 4; Intr] ++ replicate 30 (Progress 0), r1); (replicate 30 (Progress 0), r2)] in
  let stream := fst (tunnel_requests false l Channel.new_channel) in
  length stream = 46%nat /\ ReceiveLoop (replicate 3 (Polled false true)) (replicate 60 (Channel.Data 0)) stream Channel.new_channel = ([r1; r2], true).
Proof.
  intros r1 r2 l stream. split; [vm_compute; reflexivity|].
  apply (dns_requests_cross l (replicate 3 (Polled false true)) (replicate 60 (Channel.Data 0)) Channel.new_channel Channel.new_channel).
  - repeat constructor; vm_compute; (done || lia).
  - reflexivity.
  - repeat constructor.
  - vm_compute. lia.
  - repeat constructor.
  - vm_compute. lia.
Defined.

(** * What the server does not do *)

(** A request whose length is 65534 is never complete: the offset has 16 bits. *)
Example longest_request_lost b : frames ([255; 254] ++ b) = [].
Proof. apply frames_none. right. by left. Qed.
(** A request without bytes ends the connection, at the next event. *)
Example empty_request_closes :
  let s := snd ((Start demo_pton (str "10.0.0.1");; run (replicate 6 Server)) (new_server (start_answers ++
    [ready_events [5]; ok 8; ok 4096; ok 0; ready_events [4096]; gives [0; 0]; ready_events [4096]; gives [0; 1; 5]]))) in
  size (heap s) = 0%nat /\ last (trace s) = Some (Close 8, ok 0).
Proof. vm_compute. done. Qed.
(** A context at an address whose low half is the descriptor of the UDP socket is taken
    for the socket. *)
Example context_taken_for_socket : target_of (snd demo_run) (2 ^ 32 + 4) = Udp.
Proof. vm_compute. done. Qed.
(** For an address that is not valid the server listens on all of them. *)
Example invalid_address_listens : trace (snd (Start demo_pton (str "10.0.0") (new_server start_answers))) !! 2%nat = Some (Bind 4 [0; 0; 0; 0] 53, ok 0).
Proof. vm_compute. done. Qed.
(** A response that the socket takes only a part of leaves the connection with that part. *)
Example response_cut :
  let s := snd demo_run in
  let s' := snd (HandleDnsResponse (mk_request IPPROTO_TCP 0 [0; 3; 1; 2; 3]) (s <| answers := [ok 2; ok (-11)] |>)) in
  trace s' = trace s ++ [(Write 8 [0; 3; 1; 2; 3], ok 2); (Write 8 [1; 2; 3], ok (-11))] /\ heap s' = heap s.
Proof. vm_compute. done. Qed.
(** Three signals while it waits end the loop of the channel. *)
Example signals_end_channel evs stream c : ReceiveLoop (replicate 3 Poll_intr) evs stream c = ([], true).
Proof. done. Qed.
End DnsServerThm.
