(* ===== verification/WslConf.v ===== *)
(** The /etc/wsl.conf parser (src/FreeBSD/wsl_conf_parser.h): the parsed
    configuration, the line scanner with quoting, escapes and comments, the
    application of one key with its duplicate mask, and the parse of a whole
    file.  Allocation is assumed to succeed and diagnostics are not modelled. *)
From S2P Require Import Prelude CStr CNum.

Module WslConf.

(** * The configuration *)
Record wsl_conf : Type := mk_wsl_conf {
  automount_enabled : Z;
  automount_root : option bytes;
  automount_options : option bytes;
  automount_mountfstab : Z;
  automount_ldconfig : Z;
  filesystem_umask : Z;
  interop_enabled : Z;
  interop_append_windows_path : Z;
  network_generate_hosts : Z;
  network_generate_resolvconf : Z;
  network_hostname : option bytes;
  time_use_windows_timezone : Z;
  fileserver_enabled : Z;
  fileserver_log_file : option bytes;
  fileserver_log_level : Z;
  fileserver_log_truncate : Z;
  gpu_enabled : Z;
  gpu_append_lib_path : Z;
  user_default : option bytes;
  boot_command : option bytes;
  boot_systemd : Z;
  boot_init_timeout : Z;
  boot_protect_binfmt : Z;
  general_gui_applications : Z;
  parsed : Z;
  key_count : Z;
  seen_mask : Z
}.

#[export] Instance wsl_conf_eta : Eta wsl_conf := fun r => mk_wsl_conf
  (automount_enabled r) (automount_root r) (automount_options r)
  (automount_mountfstab r) (automount_ldconfig r) (filesystem_umask r)
  (interop_enabled r) (interop_append_windows_path r) (network_generate_hosts r)
  (network_generate_resolvconf r) (network_hostname r) (time_use_windows_timezone r)
  (fileserver_enabled r) (fileserver_log_file r) (fileserver_log_level r)
  (fileserver_log_truncate r) (gpu_enabled r) (gpu_append_lib_path r)
  (user_default r) (boot_command r) (boot_systemd r)
  (boot_init_timeout r) (boot_protect_binfmt r) (general_gui_applications r)
  (parsed r) (key_count r) (seen_mask r).

(** All bytes zero, as after [memset]. *)
Definition wsl_conf_zero : wsl_conf := {|
  automount_enabled := 0;
  automount_root := None;
  automount_options := None;
  automount_mountfstab := 0;
  automount_ldconfig := 0;
  filesystem_umask := 0;
  interop_enabled := 0;
  interop_append_windows_path := 0;
  network_generate_hosts := 0;
  network_generate_resolvconf := 0;
  network_hostname := None;
  time_use_windows_timezone := 0;
  fileserver_enabled := 0;
  fileserver_log_file := None;
  fileserver_log_level := 0;
  fileserver_log_truncate := 0;
  gpu_enabled := 0;
  gpu_append_lib_path := 0;
  user_default := None;
  boot_command := None;
  boot_systemd := 0;
  boot_init_timeout := 0;
  boot_protect_binfmt := 0;
  general_gui_applications := 0;
  parsed := 0;
  key_count := 0;
  seen_mask := 0
|}.

Definition wsl_conf_init : wsl_conf :=
  wsl_conf_zero
    <| automount_enabled := 1 |> <| automount_root := Some (str "/mnt/") |>
    <| automount_mountfstab := 1 |> <| automount_ldconfig := 1 |>
    <| filesystem_umask := 18 |>
    <| interop_enabled := 1 |> <| interop_append_windows_path := 1 |>
    <| network_generate_hosts := 1 |> <| network_generate_resolvconf := 1 |>
    <| time_use_windows_timezone := 1 |>
    <| fileserver_enabled := 1 |> <| fileserver_log_level := 2 |>
    <| fileserver_log_truncate := 1 |>
    <| gpu_enabled := 1 |> <| gpu_append_lib_path := 1 |>
    <| boot_systemd := 0 |> <| boot_init_timeout := 10000 |>
    <| boot_protect_binfmt := 1 |> <| general_gui_applications := 0 |>.

Definition wsl_conf_free (conf : wsl_conf) : wsl_conf := wsl_conf_zero.

(** * Scalar values *)

(** 1 for true, 0 for false, -1 for anything else. *)
Definition wsl_conf_parse_bool (value : bytes) : Z :=
  if strcasecmp_eq value (str "true") || strcmp_eq value (str "1") then 1
  else if strcasecmp_eq value (str "false") || strcmp_eq value (str "0") then 0
  else -1.

(** [strtol] with base 0; [None] is the return value -1. *)
Definition wsl_conf_parse_int (value : bytes) : option Z :=
  match strtol 0 value with
  | (_, _, None) => None
  | (_, true, _) => None
  | (v, false, Some rest) =>
    match rest with
    | _ :: _ => None
    | [] => if (v <? INT_MIN) || (INT_MAX <? v) then None else Some v
    end
  end.

(** * Lines *)
Definition is_lead (c : Z) : bool := (c =? c_space) || (c =? c_tab).
Definition is_trail (c : Z) : bool :=
  (c =? c_space) || (c =? c_tab) || (c =? c_cr) || (c =? c_nl).
Definition strip_trailing (s : bytes) : bytes := rev (drop_while is_trail (rev s)).
Definition wsl_conf_strip (s : bytes) : bytes := strip_trailing (drop_while is_lead s).

Fixpoint wsl_conf_unescape (s : bytes) : bytes :=
  match s with
  | [] => []
  | c :: s' =>
    if c =? c_bslash then
      match s' with
      | [] => [c]
      | d :: s'' =>
        if d =? c_bslash then c_bslash :: wsl_conf_unescape s''
        else if d =? c_quote then c_quote :: wsl_conf_unescape s''
        else if d =? 98 then 8 :: wsl_conf_unescape s''
        else if d =? 110 then c_nl :: wsl_conf_unescape s''
        else if d =? 116 then c_tab :: wsl_conf_unescape s''
        else if d =? c_nl then wsl_conf_unescape s''
        else c :: wsl_conf_unescape s'
      end
    else c :: wsl_conf_unescape s'
  end.

(** The text up to the closing quote, or the whole text when none closes it. *)
Fixpoint quoted_text (s : bytes) : bytes :=
  match s with
  | [] => []
  | c :: s' =>
    if c =? c_bslash then
      match s' with
      | [] => [c]
      | d :: s'' => c :: d :: quoted_text s''
      end
    else if c =? c_quote then []
    else c :: quoted_text s'
  end.

(** The value of a "key = value" line; [None] when there is no '='. *)
Definition wsl_conf_extract_value (line : bytes) : option bytes :=
  match strchr c_eq line with
  | None => None
  | Some (_, after) =>
    let value := wsl_conf_strip after in
    match value with
    | [] => Some []
    | c :: start =>
      if c =? c_quote then Some (wsl_conf_unescape (quoted_text start))
      else
        let text := take_while (fun b => negb (b =? c_hash)) value in
        Some (wsl_conf_unescape (wsl_conf_strip text))
    end
  end.

(** * Applying one key *)

(** The MATCH macro: the names agree (ignoring case) and the key's bit is not
    yet set; it sets the bit. *)
Definition MATCH (section key s k : bytes) (bit : Z) (conf : wsl_conf) : option wsl_conf :=
  if strcasecmp_eq section s && strcasecmp_eq key k then
    if Z.testbit (seen_mask conf) bit then None
    else Some (conf <| seen_mask := Z.lor (seen_mask conf) (Z.shiftl 1 bit) |>)
  else None.

Definition counted (conf : wsl_conf) : wsl_conf :=
  conf <| key_count := key_count conf + 1 |>.

(** The four kinds of branch body. *)
Definition apply_bool (store : Z -> wsl_conf -> wsl_conf) (value : bytes) (conf : wsl_conf) :=
  let b := wsl_conf_parse_bool value in
  if 0 <=? b then counted (store b conf) else conf.
Definition apply_int (store : Z -> wsl_conf -> wsl_conf) (value : bytes) (conf : wsl_conf) :=
  match wsl_conf_parse_int value with
  | Some v => counted (store v conf)
  | None => conf
  end.
Definition apply_str (store : bytes -> wsl_conf -> wsl_conf) (value : bytes) (conf : wsl_conf) :=
  counted (store value conf).
(** The root gets a trailing '/' unless it is empty. *)
Definition normalize_root (value : bytes) : bytes :=
  match last value with
  | Some c => if c =? c_slash then value else value ++ [c_slash]
  | None => value
  end.

(** One arm of the if/else-if chain: the new state and the return value. *)
Definition else_if (m : option wsl_conf) (body : wsl_conf -> wsl_conf) (rest : wsl_conf * Z) :
    wsl_conf * Z :=
  match m with Some conf => (body conf, 1) | None => rest end.
#[local] Notation "'arm' m 'do' body ; rest" := (else_if m body rest)
  (at level 10, m at level 9, body at level 99, rest at level 200).

Definition wsl_conf_apply (conf : wsl_conf) (section key value : bytes) : wsl_conf * Z :=
  let M s k bit := MATCH section key (str s) (str k) bit conf in
  arm (M "automount" "enabled" 0) do apply_bool (fun b c => c <| automount_enabled := b |>) value ;
  arm (M "automount" "root" 1) do apply_str (fun v c => c <| automount_root := Some (normalize_root v) |>) value ;
  arm (M "automount" "options" 2) do apply_str (fun v c => c <| automount_options := Some v |>) value ;
  arm (M "automount" "mountfstab" 3) do apply_bool (fun b c => c <| automount_mountfstab := b |>) value ;
  arm (M "automount" "ldconfig" 4) do apply_bool (fun b c => c <| automount_ldconfig := b |>) value ;
  arm (M "filesystem" "umask" 5) do apply_int (fun v c => c <| filesystem_umask := v |>) value ;
  arm (M "interop" "enabled" 6) do apply_bool (fun b c => c <| interop_enabled := b |>) value ;
  arm (M "interop" "appendwindowspath" 7) do apply_bool (fun b c => c <| interop_append_windows_path := b |>) value ;
  arm (M "network" "generatehosts" 8) do apply_bool (fun b c => c <| network_generate_hosts := b |>) value ;
  arm (M "network" "generateresolvconf" 9) do apply_bool (fun b c => c <| network_generate_resolvconf := b |>) value ;
  arm (M "network" "hostname" 10) do apply_str (fun v c => c <| network_hostname := Some v |>) value ;
  arm (M "time" "usewindowstimezone" 11) do apply_bool (fun b c => c <| time_use_windows_timezone := b |>) value ;
  arm (M "fileserver" "enabled" 12) do apply_bool (fun b c => c <| fileserver_enabled := b |>) value ;
  arm (M "fileserver" "logfile" 13) do apply_str (fun v c => c <| fileserver_log_file := Some v |>) value ;
  arm (M "fileserver" "loglevel" 14) do apply_int (fun v c => c <| fileserver_log_level := v |>) value ;
  arm (M "fileserver" "logtruncate" 15) do apply_bool (fun b c => c <| fileserver_log_truncate := b |>) value ;
  arm (M "gpu" "enabled" 16) do apply_bool (fun b c => c <| gpu_enabled := b |>) value ;
  arm (M "gpu" "appendlibpath" 17) do apply_bool (fun b c => c <| gpu_append_lib_path := b |>) value ;
  arm (M "user" "default" 18) do apply_str (fun v c => c <| user_default := Some v |>) value ;
  arm (M "boot" "command" 19) do apply_str (fun v c => c <| boot_command := Some v |>) value ;
  arm (M "boot" "systemd" 20) do apply_bool (fun _ c => c <| boot_systemd := 0 |>) value ;
  arm (M "boot" "inittimeout" 21) do apply_int (fun v c => c <| boot_init_timeout := v |>) value ;
  arm (M "boot" "protectbinfmt" 22) do apply_bool (fun b c => c <| boot_protect_binfmt := b |>) value ;
  arm (M "general" "guiapplications" 23) do apply_bool (fun b c => c <| general_gui_applications := b |>) value ;
  (conf, 0).

(** * Parsing a file *)

(** The loop state of [wsl_conf_parse_stream]: the configuration and the
    current section (empty when none is open). *)
Record parse_state : Type := mk_ps { ps_conf : wsl_conf; ps_section : bytes }.

(** A section header: the name between the brackets, cut to 127 bytes, and empty
    when it does not start with a letter. *)
Definition section_name (inner : bytes) : bytes :=
  let name := take 127 inner in
  match name with
  | c :: _ => if isalpha c then name else []
  | [] => []
  end.

(** One iteration of the loop, on one line read by [fgets]. *)
Definition parse_line (st : parse_state) (line : bytes) : parse_state :=
  let p := wsl_conf_strip (to_cstr line) in
  match p with
  | [] => st
  | c :: tl =>
    if c =? c_hash then st
    else if c =? c_lbrack then
      match strchr c_rbrack tl with
      | None => st
      | Some (inner, _) => mk_ps (ps_conf st) (section_name inner)
      end
    else
      match ps_section st with
      | [] => st
      | section =>
        match strchr c_eq p with
        | None => st
        | Some (raw_key, _) =>
          let key := wsl_conf_strip raw_key in
          match wsl_conf_extract_value p with
          | None => st
          | Some value =>
            mk_ps (fst (wsl_conf_apply (ps_conf st) section key value)) section
          end
        end
      end
  end.

(** [line] is [char[4096]]. *)
Definition wsl_conf_parse_stream (conf : wsl_conf) (content : bytes) : wsl_conf * Z :=
  let st := fold_left parse_line (fgets_lines 4096 content) (mk_ps conf []) in
  (ps_conf st <| parsed := 1 |>, 0).

(** What [fopen] can return: the file's bytes, [ENOENT], another error. *)
Inductive fopen_result : Type :=
| Opened (content : bytes)
| Not_found
| Open_failed.

Definition wsl_conf_parse_file (conf : wsl_conf) (file : fopen_result) : wsl_conf * Z :=
  match file with
  | Not_found => (conf <| parsed := 1 |>, 0)
  | Open_failed => (conf, -1)
  | Opened content => wsl_conf_parse_stream conf content
  end.

(** [fmemopen] over the string: [opened] is whether the call succeeds. *)
Definition wsl_conf_parse_string (conf : wsl_conf) (opened : bool) (content : bytes) :
    wsl_conf * Z :=
  if opened then wsl_conf_parse_stream conf (to_cstr content) else (conf, -1).

(** * The same as a table *)
Record key_spec : Type := {
  ks_section : bytes; ks_key : bytes; ks_bit : Z;
  ks_store : bytes -> wsl_conf -> wsl_conf
}.
Definition row (s k : string) (bit : Z) (store : bytes -> wsl_conf -> wsl_conf) : key_spec :=
  {| ks_section := str s; ks_key := str k; ks_bit := bit; ks_store := store |}.

Definition conf_table : list key_spec := [
  row "automount" "enabled" 0 (fun value => apply_bool (fun b c => c <| automount_enabled := b |>) value);
  row "automount" "root" 1 (fun value => apply_str (fun v c => c <| automount_root := Some (normalize_root v) |>) value);
  row "automount" "options" 2 (fun value => apply_str (fun v c => c <| automount_options := Some v |>) value);
  row "automount" "mountfstab" 3 (fun value => apply_bool (fun b c => c <| automount_mountfstab := b |>) value);
  row "automount" "ldconfig" 4 (fun value => apply_bool (fun b c => c <| automount_ldconfig := b |>) value);
  row "filesystem" "umask" 5 (fun value => apply_int (fun v c => c <| filesystem_umask := v |>) value);
  row "interop" "enabled" 6 (fun value => apply_bool (fun b c => c <| interop_enabled := b |>) value);
  row "interop" "appendwindowspath" 7 (fun value => apply_bool (fun b c => c <| interop_append_windows_path := b |>) value);
  row "network" "generatehosts" 8 (fun value => apply_bool (fun b c => c <| network_generate_hosts := b |>) value);
  row "network" "generateresolvconf" 9 (fun value => apply_bool (fun b c => c <| network_generate_resolvconf := b |>) value);
  row "network" "hostname" 10 (fun value => apply_str (fun v c => c <| network_hostname := Some v |>) value);
  row "time" "usewindowstimezone" 11 (fun value => apply_bool (fun b c => c <| time_use_windows_timezone := b |>) value);
  row "fileserver" "enabled" 12 (fun value => apply_bool (fun b c => c <| fileserver_enabled := b |>) value);
  row "fileserver" "logfile" 13 (fun value => apply_str (fun v c => c <| fileserver_log_file := Some v |>) value);
  row "fileserver" "loglevel" 14 (fun value => apply_int (fun v c => c <| fileserver_log_level := v |>) value);
  row "fileserver" "logtruncate" 15 (fun value => apply_bool (fun b c => c <| fileserver_log_truncate := b |>) value);
  row "gpu" "enabled" 16 (fun value => apply_bool (fun b c => c <| gpu_enabled := b |>) value);
  row "gpu" "appendlibpath" 17 (fun value => apply_bool (fun b c => c <| gpu_append_lib_path := b |>) value);
  row "user" "default" 18 (fun value => apply_str (fun v c => c <| user_default := Some v |>) value);
  row "boot" "command" 19 (fun value => apply_str (fun v c => c <| boot_command := Some v |>) value);
  row "boot" "systemd" 20 (fun value => apply_bool (fun _ c => c <| boot_systemd := 0 |>) value);
  row "boot" "inittimeout" 21 (fun value => apply_int (fun v c => c <| boot_init_timeout := v |>) value);
  row "boot" "protectbinfmt" 22 (fun value => apply_bool (fun b c => c <| boot_protect_binfmt := b |>) value);
  row "general" "guiapplications" 23 (fun value => apply_bool (fun b c => c <| general_gui_applications := b |>) value)
].
End WslConf.
