(* ===== verification/ConfigMsg.v ===== *)
(** The Initialize(5) message (src/FreeBSD/config_parser.h): extraction of a
    string at an offset of the variable part, the parse of a message into the
    configuration, and the builder that packs one.  A [char *] field is
    [option bytes]; allocation is assumed to succeed. *)
From S2P Require Import Prelude CStr CNum Wire.
Import Wire.

Module ConfigMsg.

(** Mount modes and feature flags. *)
Definition WSL_DRVFS_MOUNT_ELEVATED : Z := 2.
Definition LxInitMessageInitialize : Z := 5.

Record wsl_config : Type := mk_wsl_config {
  hostname : option bytes;
  domainname : option bytes;
  windows_hosts : option bytes;
  distribution_name : option bytes;
  plan9_socket_path : option bytes;
  timezone : option bytes;
  drvfs_volumes_bitmap : Z;
  drvfs_default_owner : Z;
  feature_flags : Z;
  drvfs_mount : Z;
  drvfs_elevated : Z
}.

#[export] Instance wsl_config_eta : Eta wsl_config := fun r => mk_wsl_config
  (hostname r) (domainname r) (windows_hosts r) (distribution_name r) (plan9_socket_path r)
  (timezone r) (drvfs_volumes_bitmap r) (drvfs_default_owner r) (feature_flags r)
  (drvfs_mount r) (drvfs_elevated r).

Definition wsl_config_init : wsl_config :=
  mk_wsl_config None None None None None None 0 0 0 0 0.

(** sizeof(struct wsl_init_message): the header and ten 32-bit fields. *)
Definition sizeof_init_message : Z := 52.

(** The string of the buffer at [offset]: up to a NUL or the end of the buffer. *)
Definition wsl_extract_string (buffer : bytes) (offset : Z) : option bytes :=
  if Z.of_nat (length buffer) <=? offset then None
  else Some (to_cstr (drop (Z.to_nat offset) buffer)).

(** [msg_buf] is [None] for a NULL pointer. *)
Definition wsl_config_parse (cfg : wsl_config) (msg_buf : option bytes) : wsl_config * Z :=
  match msg_buf with
  | None => (cfg, -1)
  | Some msg =>
    if Z.of_nat (length msg) <? sizeof_init_message then (cfg, -1)
    else
      let buffer := drop (Z.to_nat sizeof_init_message) msg in
      let mount := get32 48 msg in
      (cfg <| hostname := wsl_extract_string buffer (get32 12 msg) |>
           <| domainname := wsl_extract_string buffer (get32 16 msg) |>
           <| windows_hosts := wsl_extract_string buffer (get32 20 msg) |>
           <| distribution_name := wsl_extract_string buffer (get32 24 msg) |>
           <| plan9_socket_path := wsl_extract_string buffer (get32 28 msg) |>
           <| timezone := wsl_extract_string buffer (get32 32 msg) |>
           <| drvfs_volumes_bitmap := get32 36 msg |>
           <| drvfs_default_owner := get32 40 msg |>
           <| feature_flags := get32 44 msg |>
           <| drvfs_mount := mount |>
           <| drvfs_elevated := if mount =? WSL_DRVFS_MOUNT_ELEVATED then 1 else 0 |>, 0)
  end.

Definition wsl_config_free (cfg : wsl_config) : wsl_config := wsl_config_init.

Definition wsl_config_has_feature (cfg : wsl_config) (flag : Z) : bool :=
  negb (Z.land (feature_flags cfg) flag =? 0).

(** * Building a message *)
Definition or_empty (s : option bytes) : bytes := match s with Some s => s | None => [] end.

(** [memcpy(buf + off, s, len)] inside the buffer. *)
Definition memcpy_at (off : Z) (s buf : bytes) : bytes :=
  take (Z.to_nat off) buf ++ s ++ drop (Z.to_nat off + length s) buf.

(** One string packed at the running offset, with its terminator; the offset
    is a [uint32_t]. *)
Definition pack (st : bytes * Z) (s : bytes) : (bytes * Z) * Z :=
  let '(buf, offset) := st in
  let field := s ++ [0] in
  ((memcpy_at offset field buf, u32 (offset + Z.of_nat (length field))), offset).

Definition wsl_config_build_message
    (hostname domainname windows_hosts distribution_name plan9_socket timezone : option bytes)
    (drvfs_bitmap drvfs_owner feature_flags drvfs_mount seq : Z) : bytes :=
  let h := or_empty hostname in let d := or_empty domainname in
  let wh := or_empty windows_hosts in let dn := or_empty distribution_name in
  let p9 := or_empty plan9_socket in let tz := or_empty timezone in
  let buffer_size := (length h + 1 + (length d + 1) + (length wh + 1) + (length dn + 1)
                      + (length p9 + 1) + (length tz + 1))%nat in
  let msg_size := sizeof_init_message + Z.of_nat buffer_size in
  let '(st, o1) := pack (replicate buffer_size 0, 0) h in
  let '(st, o2) := pack st d in
  let '(st, o3) := pack st wh in
  let '(st, o4) := pack st dn in
  let '(st, o5) := pack st p9 in
  let '((buf, _), o6) := pack st tz in
  header_bytes (mk_header LxInitMessageInitialize (u32 msg_size) seq)
  ++ le_bytes 4 o1 ++ le_bytes 4 o2 ++ le_bytes 4 o3
  ++ le_bytes 4 o4 ++ le_bytes 4 o5 ++ le_bytes 4 o6
  ++ le_bytes 4 drvfs_bitmap ++ le_bytes 4 drvfs_owner
  ++ le_bytes 4 feature_flags ++ le_bytes 4 drvfs_mount ++ buf.

End ConfigMsg.
