(* ===== verification/WslConfThm.v ===== *)
(** Theorems on the guest's configuration: wsl.conf (WslConfThm) and the
    Initialize(5) message (ConfigMsgThm). *)
From S2P Require Import Prelude CStr CNum Wire WslConf ConfigMsg.

Import WslConf.

Module WslConfThm.

(** * The chain is a table lookup *)
Definition lower (s : bytes) : bytes := map tolower s.
Definition names_row (section key : bytes) (ks : key_spec) : bool :=
  strcasecmp_eq section (ks_section ks) && strcasecmp_eq key (ks_key ks).
Definition row_name (ks : key_spec) : bytes * bytes :=
  (lower (ks_section ks), lower (ks_key ks)).
Definition mark (bit : Z) (conf : wsl_conf) : wsl_conf :=
  conf <| seen_mask := Z.lor (seen_mask conf) (Z.shiftl 1 bit) |>.

Definition table_apply (table : list key_spec) (conf : wsl_conf) (section key value : bytes) :
    wsl_conf * Z :=
  match List.find (names_row section key) table with
  | None => (conf, 0)
  | Some ks =>
    if Z.testbit (seen_mask conf) (ks_bit ks) then (conf, 0)
    else (ks_store ks value (mark (ks_bit ks) conf), 1)
  end.

Definition chain_apply (table : list key_spec) (conf : wsl_conf) (section key value : bytes) :=
  foldr (fun ks rest =>
           else_if (MATCH section key (ks_section ks) (ks_key ks) (ks_bit ks) conf)
                   (ks_store ks value) rest)
        (conf, 0) table.

Lemma wsl_conf_apply_chain conf section key value :
  wsl_conf_apply conf section key value = chain_apply conf_table conf section key value.
Proof. reflexivity. Qed.

Lemma names_row_name section key ks :
  names_row section key ks = true <-> row_name ks = (lower section, lower key).
Proof.
  unfold names_row, row_name, strcasecmp_eq, lower. rewrite andb_true_iff, !list_eqb_eq.
  split; [intros [-> ->]; done|intros [= -> ->]; done].
Qed.

Lemma chain_no_match table conf section key value :
  Forall (fun ks => names_row section key ks = false) table ->
  chain_apply table conf section key value = (conf, 0).
Proof.
  induction 1 as [|ks table H _ IH]; [done|]. simpl. rewrite IH.
  unfold MATCH. unfold names_row in H. by rewrite H.
Qed.

Lemma chain_table table conf section key value :
  NoDup (map row_name table) ->
  chain_apply table conf section key value = table_apply table conf section key value.
Proof.
  unfold table_apply. induction table as [|ks table IH]; intros Hnd; [done|].
  apply NoDup_cons in Hnd as [Hnot Hnd]. simpl.
  destruct (names_row section key ks) eqn:E; unfold names_row in E.
  - unfold MATCH at 1. rewrite E. destruct (Z.testbit _ _) eqn:B; simpl; [|done].
    apply chain_no_match, Forall_forall. intros ks' Hin.
    destruct (names_row section key ks') eqn:E'; [|done]. exfalso. apply Hnot.
    apply names_row_name in E'. apply names_row_name in E. rewrite E, <-E'.
    by apply list_elem_of_fmap_2.
  - unfold MATCH at 1. rewrite E. by apply IH.
Qed.

Lemma conf_table_nodup : NoDup (map row_name conf_table).
Proof. apply (bool_decide_unpack _). vm_compute. done. Qed.

Lemma apply_table conf section key value :
  wsl_conf_apply conf section key value = table_apply conf_table conf section key value.
Proof. rewrite wsl_conf_apply_chain. apply chain_table, conf_table_nodup. Qed.

(** * Sequences of entries *)
Record entry : Type := mk_entry { e_section : bytes; e_key : bytes; e_value : bytes }.

Definition apply_entry (conf : wsl_conf) (e : entry) : wsl_conf :=
  fst (wsl_conf_apply conf (e_section e) (e_key e) (e_value e)).
Definition apply_all (conf : wsl_conf) (es : list entry) : wsl_conf :=
  fold_left apply_entry es conf.
Definition same_key (e1 e2 : entry) : bool :=
  strcasecmp_eq (e_section e1) (e_section e2) && strcasecmp_eq (e_key e1) (e_key e2).

Lemma apply_all_app conf l1 l2 : apply_all conf (l1 ++ l2) = apply_all (apply_all conf l1) l2.
Proof. apply fold_left_app. Qed.

(** A predicate every row's store satisfies holds of any row found. *)
Lemma table_row (P : key_spec -> Prop) section key ks :
  Forall P conf_table -> List.find (names_row section key) conf_table = Some ks -> P ks.
Proof.
  intros HP [Hin _]%List.find_some. rewrite Forall_forall in HP.
  by apply HP, list_elem_of_In.
Qed.

Ltac all_rows :=
  unfold conf_table; repeat apply Forall_cons_2; try apply Forall_nil_2;
  intros; unfold row, apply_bool, apply_int, apply_str, counted; cbn [ks_store ks_bit];
  repeat case_match.

Lemma rows_keep_mask :
  Forall (fun ks => forall v c, seen_mask (ks_store ks v c) = seen_mask c) conf_table.
Proof. all_rows; reflexivity. Qed.

Lemma rows_bit : Forall (fun ks => 0 <= ks_bit ks < 24) conf_table.
Proof. all_rows; lia. Qed.

Lemma found_keeps_mask section key ks v c :
  List.find (names_row section key) conf_table = Some ks ->
  seen_mask (ks_store ks v c) = seen_mask c.
Proof. intros F. exact (table_row _ _ _ _ rows_keep_mask F v c). Qed.

Lemma found_bit section key ks :
  List.find (names_row section key) conf_table = Some ks -> 0 <= ks_bit ks < 24.
Proof. intros F. exact (table_row _ _ _ _ rows_bit F). Qed.

Lemma testbit_mark b m i :
  0 <= b -> Z.testbit (Z.lor m (Z.shiftl 1 b)) i = Z.testbit m i || (b =? i).
Proof.
  intros Hb. rewrite Z.lor_spec. f_equal. rewrite Z.shiftl_1_l. by apply Z.pow2_bits_eqb.
Qed.

(** The mask of an applied entry's row is set afterwards, and bits stay set. *)
Lemma apply_seen_mono conf e i :
  Z.testbit (seen_mask conf) i = true -> Z.testbit (seen_mask (apply_entry conf e)) i = true.
Proof.
  intros H. unfold apply_entry. rewrite apply_table. unfold table_apply.
  destruct (List.find _ _) as [ks|] eqn:F; [|done]. case_match; [done|]. cbn [fst].
  rewrite (found_keeps_mask _ _ _ _ _ F). unfold mark. cbn [upd seen_mask].
  rewrite testbit_mark, H by (apply found_bit in F; lia). done.
Qed.

Lemma apply_all_seen_mono conf es i :
  Z.testbit (seen_mask conf) i = true -> Z.testbit (seen_mask (apply_all conf es)) i = true.
Proof.
  revert conf; induction es as [|e es IH]; intros conf H; [done|].
  apply IH. by apply apply_seen_mono.
Qed.

Lemma apply_marks conf e ks :
  List.find (names_row (e_section e) (e_key e)) conf_table = Some ks ->
  Z.testbit (seen_mask (apply_entry conf e)) (ks_bit ks) = true.
Proof.
  intros F. unfold apply_entry. rewrite apply_table. unfold table_apply. rewrite F.
  destruct (Z.testbit (seen_mask conf) (ks_bit ks)) eqn:B; [done|]. cbn [fst].
  rewrite (found_keeps_mask _ _ _ _ _ F). unfold mark. cbn [upd seen_mask].
  rewrite testbit_mark, Z.eqb_refl, orb_true_r by (apply found_bit in F; lia).
  done.
Qed.

Lemma find_same_key e1 e2 table :
  same_key e1 e2 = true ->
  List.find (names_row (e_section e1) (e_key e1)) table
  = List.find (names_row (e_section e2) (e_key e2)) table.
Proof.
  intros H. unfold same_key, strcasecmp_eq in H. apply andb_prop in H as [Hs Hk].
  apply list_eqb_eq in Hs, Hk.
  induction table as [|ks table IH]; [done|]. simpl.
  assert (names_row (e_section e1) (e_key e1) ks = names_row (e_section e2) (e_key e2) ks) as ->.
  { unfold names_row, strcasecmp_eq. by rewrite Hs, Hk. }
  by rewrite IH.
Qed.

Lemma apply_seen_noop conf e ks :
  List.find (names_row (e_section e) (e_key e)) conf_table = Some ks ->
  Z.testbit (seen_mask conf) (ks_bit ks) = true ->
  wsl_conf_apply conf (e_section e) (e_key e) (e_value e) = (conf, 0).
Proof. intros F B. rewrite apply_table. unfold table_apply. by rewrite F, B. Qed.

Lemma apply_after_same_key conf l1 e1 l2 e2 :
  same_key e1 e2 = true ->
  apply_all conf (l1 ++ e1 :: l2 ++ [e2]) = apply_all conf (l1 ++ e1 :: l2).
Proof.
  intros Hk. change (l1 ++ e1 :: l2 ++ [e2]) with (l1 ++ (e1 :: l2) ++ [e2]).
  rewrite app_assoc, (apply_all_app _ _ [e2]). cbn [apply_all fold_left].
  set (c := apply_all conf (l1 ++ e1 :: l2)).
  unfold apply_entry. destruct (List.find (names_row (e_section e2) (e_key e2)) conf_table)
    as [ks|] eqn:F.
  - rewrite (apply_seen_noop c e2 ks F); [done|]. unfold c. rewrite apply_all_app.
    cbn [apply_all fold_left]. apply apply_all_seen_mono, apply_marks.
    by rewrite (find_same_key e1 e2).
  - rewrite apply_table. unfold table_apply. by rewrite F.
Qed.

(** * The loop extracts entries, then applies them *)

(** The entries a file lists, in order: the pure part of the loop. *)
Definition line_entry (section : bytes) (line : bytes) : bytes * list entry :=
  let p := wsl_conf_strip (to_cstr line) in
  match p with
  | [] => (section, [])
  | c :: tl =>
    if c =? c_hash then (section, [])
    else if c =? c_lbrack then
      match strchr c_rbrack tl with
      | None => (section, [])
      | Some (inner, _) => (section_name inner, [])
      end
    else
      match section, strchr c_eq p, wsl_conf_extract_value p with
      | _ :: _, Some (raw_key, _), Some value =>
        (section, [mk_entry section (wsl_conf_strip raw_key) value])
      | _, _, _ => (section, [])
      end
  end.

Fixpoint entries_of (section : bytes) (lines : list bytes) : list entry :=
  match lines with
  | [] => []
  | line :: rest =>
    let '(section', es) := line_entry section line in es ++ entries_of section' rest
  end.

Lemma parse_line_entry st line :
  parse_line st line =
  mk_ps (apply_all (ps_conf st) (snd (line_entry (ps_section st) line)))
        (fst (line_entry (ps_section st) line)).
Proof.
  destruct st as [conf section]. unfold parse_line, line_entry. cbn [ps_conf ps_section].
  destruct (wsl_conf_strip (to_cstr line)) as [|c tl]; [done|].
  case_if; [done|]. case_if; [by destruct (strchr _ _) as [[? ?]|]|].
  destruct section as [|s0 section]; [done|].
  destruct (strchr c_eq (c :: tl)) as [[raw_key post]|]; [|done].
  by destruct (wsl_conf_extract_value (c :: tl)).
Qed.

Lemma fold_parse_line lines st :
  ps_conf (fold_left parse_line lines st)
  = apply_all (ps_conf st) (entries_of (ps_section st) lines).
Proof.
  revert st; induction lines as [|line lines IH]; intros st; [done|].
  cbn [fold_left entries_of]. rewrite IH, parse_line_entry. cbn [ps_conf ps_section].
  destruct (line_entry _ _) as [section' es]. by rewrite apply_all_app.
Qed.

Lemma parse_stream_entries conf content :
  wsl_conf_parse_stream conf content
  = (apply_all conf (entries_of [] (fgets_lines 4096 content)) <| parsed := 1 |>, 0).
Proof. unfold wsl_conf_parse_stream. by rewrite fold_parse_line. Qed.

(** * Quoting *)
Definition escape_char (c : Z) : bytes :=
  if c =? c_bslash then [c_bslash; c_bslash]
  else if c =? c_quote then [c_bslash; c_quote]
  else if c =? 8 then [c_bslash; 98]
  else if c =? c_nl then [c_bslash; 110]
  else if c =? c_tab then [c_bslash; 116]
  else [c].
Definition escape (s : bytes) : bytes := flat_map escape_char s.

Lemma unescape_escape s : wsl_conf_unescape (escape s) = s.
Proof.
  induction s as [|c s IH]; [done|]. unfold escape in *. cbn [flat_map]. unfold escape_char at 1.
  repeat (case_if; [subst; cbn; by rewrite IH|]).
  cbn [app wsl_conf_unescape].
  replace (c =? c_bslash) with false by (symmetry; by apply Z.eqb_neq). by rewrite IH.
Qed.

Lemma quoted_text_escape s rest : quoted_text (escape s ++ c_quote :: rest) = escape s.
Proof.
  induction s as [|c s IH]; [done|]. unfold escape in *. cbn [flat_map].
  rewrite <-app_assoc. unfold escape_char at 1 3.
  repeat (case_if; [cbn; by rewrite IH|]).
  cbn [app quoted_text].
  replace (c =? c_bslash) with false by (symmetry; by apply Z.eqb_neq).
  replace (c =? c_quote) with false by (symmetry; by apply Z.eqb_neq). by rewrite IH.
Qed.

Lemma escape_forall s : cstr_ok s -> Forall (fun b => b <> c_nl /\ b <> 0) (escape s).
Proof.
  intros H. unfold escape. induction H as [|c s Hc _ IH]; [constructor|]. cbn [flat_map].
  apply Forall_app; split; [|done]. unfold escape_char.
  repeat (case_if; [repeat constructor; lia|]). repeat constructor; lia.
Qed.

(** * Stripping *)
Lemma strip_trailing_drop s c : is_trail c = true -> strip_trailing (s ++ [c]) = strip_trailing s.
Proof. intros H. unfold strip_trailing. rewrite rev_app_distr. cbn [rev app drop_while]. by rewrite H. Qed.

Lemma strip_trailing_keep s c : is_trail c = false -> strip_trailing (s ++ [c]) = s ++ [c].
Proof.
  intros H. unfold strip_trailing. rewrite rev_app_distr. cbn [rev app drop_while]. rewrite H.
  cbn [rev]. by rewrite rev_involutive.
Qed.

Lemma strip_keep c mid d :
  is_lead c = false -> is_trail d = false ->
  wsl_conf_strip (c :: mid ++ [d]) = c :: mid ++ [d].
Proof.
  intros Hc Hd. unfold wsl_conf_strip. rewrite drop_while_head by done.
  rewrite app_comm_cons. by apply strip_trailing_keep.
Qed.

(** * Printing entries and reading them back *)
Definition print_entry (e : entry) : bytes :=
  c_lbrack :: e_section e ++ [c_rbrack] ++ c_nl ::
  e_key e ++ [c_space; c_eq; c_space; c_quote] ++ escape (e_value e) ++ [c_quote] ++ [c_nl].

(** What the file format can carry: a section name that starts with a letter
    and is shorter than 128 bytes, a key without surrounding blanks, a line
    shorter than the buffer. *)
Definition section_ok (s : bytes) : bool :=
  match s with
  | c :: _ => isalpha c && (Z.of_nat (length s) <? 128)
              && forallb (fun b => negb (b =? c_rbrack) && negb (b =? c_nl) && negb (b =? 0)) s
  | [] => false
  end.
Definition key_ok (k : bytes) : bool :=
  match k, last k with
  | c :: _, Some d =>
    negb (is_lead c) && negb (is_trail d) && negb (c =? c_hash) && negb (c =? c_lbrack)
    && forallb (fun b => negb (b =? c_eq) && negb (b =? c_nl) && negb (b =? 0)) k
  | _, _ => false
  end.
Definition entry_ok (e : entry) : bool :=
  section_ok (e_section e) && key_ok (e_key e)
  && forallb (fun b => (0 <? b) && (b <? 256)) (e_value e)
  && (Z.of_nat (length (e_key e) + length (escape (e_value e))) + 6 <? 4096).

Lemma forallb_Forall {A} (p : A -> bool) (P : A -> Prop) l :
  (forall x, p x = true -> P x) -> forallb p l = true -> Forall P l.
Proof. intros HP H. rewrite forallb_forall in H. apply List.Forall_forall. auto. Qed.

Lemma section_line sec0 sec :
  section_ok sec = true ->
  line_entry sec0 (c_lbrack :: sec ++ [c_rbrack] ++ [c_nl]) = (sec, []).
Proof.
  intros H. unfold section_ok in H. destruct sec as [|c sec]; [done|].
  apply andb_prop in H as [H Hall]. apply andb_prop in H as [Ha Hlen]. bool_to_prop.
  set (s := c :: sec) in *.
  assert (Forall (fun b => b <> c_rbrack /\ b <> c_nl /\ b <> 0) s) as Hs.
  { refine (forallb_Forall _ _ _ _ Hall). intros x Hx. bool_to_prop. auto. }
  unfold line_entry. rewrite to_cstr_all.
  2:{ constructor; [lia|]. apply Forall_app; split; [|repeat constructor; lia].
      eapply Forall_impl_hint; [exact Hs|]. simpl. tauto. }
  assert (wsl_conf_strip (c_lbrack :: s ++ [c_rbrack] ++ [c_nl]) = c_lbrack :: s ++ [c_rbrack]) as ->.
  { unfold wsl_conf_strip. rewrite drop_while_head by done.
    rewrite (app_assoc s), app_comm_cons, strip_trailing_drop by done.
    rewrite app_comm_cons. by apply strip_trailing_keep. }
  cbn [Z.eqb Pos.eqb]. rewrite strchr_app.
  2:{ eapply Forall_impl_hint; [exact Hs|]. simpl. tauto. }
  f_equal. unfold section_name. rewrite take_ge by lia. unfold s. by rewrite Ha.
Qed.

Lemma key_snoc (k : bytes) c :
  last k = Some c -> exists k', k = k' ++ [c].
Proof. intros H. by apply last_Some in H. Qed.

Lemma strip_key_space k :
  key_ok k = true -> wsl_conf_strip (k ++ [c_space]) = k.
Proof.
  intros H. unfold key_ok in H. destruct k as [|c k]; [done|].
  destruct (last (c :: k)) as [d|] eqn:L; [|done].
  apply key_snoc in L as [k' E].
  apply andb_prop in H as [H _]. do 2 apply andb_prop in H as [H _]. bool_to_prop.
  unfold wsl_conf_strip. cbn [app]. rewrite drop_while_head by done.
  rewrite app_comm_cons, strip_trailing_drop, E by done. by apply strip_trailing_keep.
Qed.

Lemma value_line sec k v :
  section_ok sec = true -> key_ok k = true -> cstr_ok v ->
  line_entry sec (k ++ [c_space; c_eq; c_space; c_quote] ++ escape v ++ [c_quote] ++ [c_nl])
  = (sec, [mk_entry sec k v]).
Proof.
  intros Hsec Hk Hv. pose proof (strip_key_space k Hk) as Hstrip.
  pose proof (escape_forall v Hv) as Hesc.
  unfold key_ok in Hk. destruct k as [|c k]; [done|].
  destruct (last (c :: k)) as [d|]; [|done].
  apply andb_prop in Hk as [H Hall]. bool_to_prop. set (kk := c :: k) in *.
  assert (Forall (fun b => b <> c_eq /\ b <> c_nl /\ b <> 0) kk) as Hs.
  { refine (forallb_Forall _ _ _ _ Hall). intros x Hx. bool_to_prop. auto. }
  set (tail := [c_space; c_eq; c_space; c_quote] ++ escape v ++ [c_quote]).
  assert (kk ++ [c_space; c_eq; c_space; c_quote] ++ escape v ++ [c_quote] ++ [c_nl]
          = (kk ++ tail) ++ [c_nl]) as ->.
  { unfold tail. by rewrite <-!app_assoc. }
  unfold line_entry. rewrite to_cstr_all.
  2:{ apply Forall_app; split; [|repeat constructor; lia]. apply Forall_app; split.
      - eapply Forall_impl_hint; [exact Hs|]. simpl. tauto.
      - unfold tail. repeat (apply Forall_cons; split; [lia|]).
        apply Forall_app; split; [|repeat constructor; lia].
        eapply Forall_impl_hint; [exact Hesc|]. simpl. tauto. }
  assert (wsl_conf_strip ((kk ++ tail) ++ [c_nl]) = kk ++ tail) as ->.
  { unfold wsl_conf_strip, kk, tail. cbn [app]. rewrite drop_while_head by done.
    rewrite app_comm_cons, strip_trailing_drop by done.
    match goal with |- strip_trailing (c :: k ++ ?x :: ?y :: ?z :: ?w :: ?l ++ [?q]) = _ =>
      change (c :: k ++ x :: y :: z :: w :: l ++ [q]) with ((c :: k) ++ [x; y; z; w] ++ l ++ [q]) end.
    rewrite !app_assoc, strip_trailing_keep by done. by rewrite <-!app_assoc. }
  unfold kk at 1. cbn [app].
  replace (c =? c_hash) with false by (symmetry; by apply Z.eqb_neq).
  replace (c =? c_lbrack) with false by (symmetry; by apply Z.eqb_neq).
  destruct sec as [|s0 sec]; [done|].
  assert (Hch : strchr c_eq (kk ++ tail) = Some (kk ++ [c_space], [c_space; c_quote] ++ escape v ++ [c_quote])).
  { unfold tail. change (kk ++ [c_space; c_eq; c_space; c_quote] ++ escape v ++ [c_quote])
      with (kk ++ [c_space] ++ c_eq :: [c_space; c_quote] ++ escape v ++ [c_quote]).
    rewrite app_assoc. apply strchr_app. apply Forall_app; split; [|repeat constructor; lia].
    eapply Forall_impl_hint; [exact Hs|]. simpl. tauto. }
  change (c :: k ++ tail) with (kk ++ tail). unfold wsl_conf_extract_value. rewrite Hch, Hstrip.
  assert (wsl_conf_strip ([c_space; c_quote] ++ escape v ++ [c_quote]) = c_quote :: escape v ++ [c_quote]) as ->.
  { change ([c_space; c_quote] ++ escape v ++ [c_quote]) with ([c_space] ++ c_quote :: escape v ++ [c_quote]).
    unfold wsl_conf_strip. rewrite drop_while_app by (repeat constructor).
    rewrite drop_while_head by done. rewrite app_comm_cons. by apply strip_trailing_keep. }
  cbn [Z.eqb Pos.eqb]. by rewrite quoted_text_escape, unescape_escape.
Qed.

Lemma entries_of_print sec0 e rest :
  entry_ok e = true ->
  entries_of sec0 (fgets_lines 4096 (print_entry e ++ rest))
  = e :: entries_of (e_section e) (fgets_lines 4096 rest).
Proof.
  intros H. unfold entry_ok in H. apply andb_prop in H as [H Hlen].
  apply andb_prop in H as [H Hv]. apply andb_prop in H as [Hs Hk]. bool_to_prop.
  assert (cstr_ok (e_value e)) as Hok.
  { refine (forallb_Forall _ _ _ _ Hv). intros x Hx. bool_to_prop. auto. }
  pose proof (section_line sec0 _ Hs) as L1. pose proof (value_line _ _ _ Hs Hk Hok) as L2.
  assert (Forall (fun b => b <> c_nl) (e_section e) /\ Z.of_nat (length (e_section e)) < 128) as [Hs1 Hs2].
  { unfold section_ok in Hs. destruct (e_section e); [done|]. apply andb_prop in Hs as [Hs1 Hall].
    bool_to_prop. split; [|done]. refine (forallb_Forall _ _ _ _ Hall). intros x Hx. by bool_to_prop. }
  assert (Forall (fun b => b <> c_nl) (e_key e)) as Hk1.
  { unfold key_ok in Hk. destruct (e_key e); [done|]. destruct (last _); [|done].
    apply andb_prop in Hk as [_ Hall]. refine (forallb_Forall _ _ _ _ Hall). intros x Hx. by bool_to_prop. }
  set (l1 := c_lbrack :: e_section e ++ [c_rbrack]).
  set (l2 := e_key e ++ [c_space; c_eq; c_space; c_quote] ++ escape (e_value e) ++ [c_quote]).
  assert (print_entry e ++ rest = l1 ++ c_nl :: l2 ++ c_nl :: rest) as ->.
  { unfold print_entry, l1, l2. rewrite <-?app_comm_cons, <-?app_assoc. cbn [app].
    rewrite <-?app_comm_cons, <-?app_assoc. cbn [app]. by rewrite <-?app_assoc. }
  rewrite fgets_lines_line.
  2:{ unfold l1. constructor; [lia|]. apply Forall_app; split; [done|repeat constructor; lia]. }
  2:{ unfold l1. cbn [length]. rewrite length_app. cbn [length]. lia. }
  rewrite fgets_lines_line.
  2:{ unfold l2. apply Forall_app; split; [done|]. repeat (apply Forall_cons; split; [lia|]).
      apply Forall_app; split; [|repeat constructor; lia].
      eapply Forall_impl_hint; [exact (escape_forall _ Hok)|]. simpl. tauto. }
  2:{ unfold l2. rewrite !length_app. cbn [length]. lia. }
  cbn [entries_of].
  assert (l1 ++ [c_nl] = c_lbrack :: e_section e ++ [c_rbrack] ++ [c_nl]) as ->.
  { unfold l1. cbn [app]. by rewrite <-app_assoc. }
  rewrite L1. cbn [app].
  assert (l2 ++ [c_nl] = e_key e ++ [c_space; c_eq; c_space; c_quote] ++ escape (e_value e) ++ [c_quote] ++ [c_nl]) as ->.
  { unfold l2. by rewrite <-!app_assoc. }
  rewrite L2. destruct e; done.
Qed.

Lemma entries_of_prints sec0 es :
  Forall (fun e => entry_ok e = true) es ->
  entries_of sec0 (fgets_lines 4096 (flat_map print_entry es)) = es.
Proof.
  intros H; revert sec0. induction H as [|e es He _ IH]; intros sec0; [done|].
  cbn [flat_map]. rewrite entries_of_print by done. by rewrite IH.
Qed.

(** * Well-formedness *)
Definition bool_fields : list (wsl_conf -> Z) := [
  automount_enabled; automount_mountfstab; automount_ldconfig; interop_enabled;
  interop_append_windows_path; network_generate_hosts; network_generate_resolvconf;
  time_use_windows_timezone; fileserver_enabled; fileserver_log_truncate; gpu_enabled;
  gpu_append_lib_path; boot_systemd; boot_protect_binfmt; general_gui_applications].
Definition int_fields : list (wsl_conf -> Z) :=
  [filesystem_umask; fileserver_log_level; boot_init_timeout].
(** The automount root is set, and empty or ends with '/'. *)
Definition root_ok (conf : wsl_conf) : Prop :=
  exists r, automount_root conf = Some r /\ (r = [] \/ last r = Some c_slash).

Record conf_wf (conf : wsl_conf) : Prop := {
  wf_bools : Forall (fun f => f conf = 0 \/ f conf = 1) bool_fields;
  wf_ints : Forall (fun f => INT_MIN <= f conf <= INT_MAX) int_fields;
  wf_root : root_ok conf;
  wf_systemd : boot_systemd conf = 0
}.

Lemma parse_bool_range v : 0 <= wsl_conf_parse_bool v -> wsl_conf_parse_bool v = 0 \/ wsl_conf_parse_bool v = 1.
Proof. unfold wsl_conf_parse_bool. repeat case_match; lia. Qed.

Lemma parse_int_range v x : wsl_conf_parse_int v = Some x -> INT_MIN <= x <= INT_MAX.
Proof.
  unfold wsl_conf_parse_int. repeat case_match; intros [= ->]; bool_to_prop. lia.
Qed.

Lemma normalize_root_ok v : normalize_root v = [] \/ last (normalize_root v) = Some c_slash.
Proof.
  unfold normalize_root. destruct (last v) as [c|] eqn:L.
  - case_if; right; [by subst|]. apply last_snoc.
  - left. by apply last_None.
Qed.

(** Rebuild [conf_wf] field by field after an update. *)
Ltac solve_wf Hr :=
  constructor; [unfold bool_fields in *|unfold int_fields in *| |];
  repeat (match goal with H : Forall _ (_ :: _) |- _ => apply Forall_cons in H as [? H] end);
  repeat (apply Forall_cons_2 || apply Forall_nil_2);
  try first [done | lia | exact Hr | left; reflexivity];
  (try (eexists; split; [reflexivity|apply normalize_root_ok])).

Lemma store_wf :
  Forall (fun ks => forall v c, conf_wf c -> conf_wf (ks_store ks v c)) conf_table.
Proof.
  unfold conf_table. repeat apply Forall_cons_2; try apply Forall_nil_2;
    intros v c [Hb Hi Hr Hs]; unfold row, apply_bool, apply_int, apply_str, counted; cbn [ks_store];
    try (destruct (wsl_conf_parse_int v) as [x|] eqn:P; [apply parse_int_range in P|]);
    try (case_if; [pose proof (parse_bool_range v ltac:(done))|]);
    solve_wf Hr.
Qed.

Lemma apply_entry_wf c e : conf_wf c -> conf_wf (apply_entry c e).
Proof.
  intros H. unfold apply_entry. rewrite apply_table. unfold table_apply.
  destruct (List.find _ _) as [ks|] eqn:F; [|done]. case_if; cbn [fst]; [done|].
  apply (table_row _ _ _ _ store_wf F). destruct H as [Hb Hi Hr Hs].
  solve_wf Hr.
Qed.

Lemma apply_all_wf c es : conf_wf c -> conf_wf (apply_all c es).
Proof. revert c; induction es as [|e es IH]; intros c H; [done|]. by apply IH, apply_entry_wf. Qed.

Lemma init_wf : conf_wf wsl_conf_init.
Proof.
  constructor; [|..|done].
  - repeat apply Forall_cons_2; try apply Forall_nil_2; vm_compute; auto.
  - repeat apply Forall_cons_2; try apply Forall_nil_2; vm_compute; done.
  - exists (str "/mnt/"). split; [done|by right].
Qed.

(** * Properties *)

(** The first occurrence of a key decides: wherever a later entry names
    the same section and key (ignoring case), dropping it changes nothing, so
    neither its value nor its validity matters. *)
Theorem first_occurrence_wins conf l1 e1 l2 e2 l3 :
  same_key e1 e2 = true ->
  apply_all conf (l1 ++ e1 :: l2 ++ e2 :: l3) = apply_all conf (l1 ++ e1 :: l2 ++ l3).
Proof.
  intros H. pose proof (apply_after_same_key conf l1 e1 l2 e2 H) as E.
  replace (l1 ++ e1 :: l2 ++ e2 :: l3) with ((l1 ++ e1 :: l2 ++ [e2]) ++ l3)
    by (rewrite <-!app_assoc; cbn [app]; by rewrite <-!app_assoc).
  replace (l1 ++ e1 :: l2 ++ l3) with ((l1 ++ e1 :: l2) ++ l3) by (by rewrite <-!app_assoc).
  by rewrite !(apply_all_app _ _ l3), E.
Qed.

Lemma first_occurrence_wins_witness :
  same_key (mk_entry (str "interop") (str "enabled") (str "false"))
           (mk_entry (str "Interop") (str "ENABLED") (str "true")) = true
  /\ apply_all wsl_conf_init
       ([] ++ mk_entry (str "interop") (str "enabled") (str "false") :: []
        ++ mk_entry (str "Interop") (str "ENABLED") (str "true") :: [])
     = apply_all wsl_conf_init
       ([] ++ mk_entry (str "interop") (str "enabled") (str "false") :: [] ++ []).
Proof. split; [vm_compute; reflexivity|]. apply first_occurrence_wins. vm_compute. reflexivity. Defined.

(** C40: parsing a file that was printed entry by entry, the values quoted and
    escaped, applies exactly those entries in order: quoting protects blanks,
    '#', '=', double quotes and backslashes, and no entry is lost, split or invented. *)
Theorem print_parse_roundtrip conf es :
  Forall (fun e => entry_ok e = true) es ->
  wsl_conf_parse_stream conf (flat_map print_entry es)
  = (apply_all conf es <| parsed := 1 |>, 0).
Proof. intros H. by rewrite parse_stream_entries, entries_of_prints. Qed.

Lemma print_parse_roundtrip_witness :
  let es := [mk_entry (str "boot") (str "command") (str "a = # b\");
             mk_entry (str "automount") (str "root") (str "/x y")] in
  Forall (fun e => entry_ok e = true) es
  /\ wsl_conf_parse_stream wsl_conf_init (flat_map print_entry es)
     = (apply_all wsl_conf_init es <| parsed := 1 |>, 0).
Proof.
  intros es. assert (Forall (fun e => entry_ok e = true) es) as H
    by (repeat constructor; vm_compute; reflexivity).
  split; [exact H|]. exact (print_parse_roundtrip wsl_conf_init es H).
Defined.

(** Whatever bytes the file holds, parsing keeps the configuration well
    formed: flags stay 0 or 1, integers stay in int range, the automount root
    is set and ends with '/', and systemd stays disabled; it always returns. *)
Theorem parse_stream_wf conf content :
  conf_wf conf ->
  conf_wf (fst (wsl_conf_parse_stream conf content))
  /\ parsed (fst (wsl_conf_parse_stream conf content)) = 1
  /\ snd (wsl_conf_parse_stream conf content) = 0.
Proof.
  intros H. rewrite parse_stream_entries. cbn [fst snd]. split; [|done].
  destruct (apply_all_wf _ (entries_of [] (fgets_lines 4096 content)) H) as [Hb Hi Hr Hs].
  solve_wf Hr.
Qed.

Lemma parse_stream_wf_witness :
  conf_wf wsl_conf_init
  /\ conf_wf (fst (wsl_conf_parse_stream wsl_conf_init (str "[boot] systemd=true"))).
Proof.
  split; [exact init_wf|].
  exact (proj1 (parse_stream_wf wsl_conf_init (str "[boot] systemd=true") init_wf)).
Defined.

(** The return value of [wsl_conf_apply]: 1 exactly when the names match a
    known key whose bit is not yet set, and the configuration changes only
    then; a skipped duplicate returns 0, as an unknown key does. *)
Theorem apply_return_value conf section key value :
  (snd (wsl_conf_apply conf section key value) = 1 <->
   exists ks, List.find (names_row section key) conf_table = Some ks
              /\ Z.testbit (seen_mask conf) (ks_bit ks) = false)
  /\ (snd (wsl_conf_apply conf section key value) <> 1 ->
      wsl_conf_apply conf section key value = (conf, 0)).
Proof.
  rewrite apply_table. unfold table_apply. destruct (List.find _ _) as [ks|].
  - destruct (Z.testbit _ _) eqn:B; cbn [snd]; split; try done; split; try done.
    + intros (ks' & [= <-] & ?). congruence.
    + intros _. by exists ks.
  - split; [|done]. split; [done|]. by intros (? & ? & ?).
Qed.

Lemma apply_return_value_witness :
  let conf := fst (wsl_conf_apply wsl_conf_init (str "gpu") (str "enabled") (str "0")) in
  snd (wsl_conf_apply conf (str "GPU") (str "Enabled") (str "1")) <> 1
  /\ wsl_conf_apply conf (str "GPU") (str "Enabled") (str "1") = (conf, 0).
Proof.
  intros conf. assert (snd (wsl_conf_apply conf (str "GPU") (str "Enabled") (str "1")) <> 1) as H
    by (vm_compute; discriminate).
  split; [exact H|].
  exact (proj2 (apply_return_value conf (str "GPU") (str "Enabled") (str "1")) H).
Defined.

(** The format comment promises backslash-newline continuation; a line never
    reaches the escape rule with its newline. *)
Example no_line_continuation :
  boot_command (fst (wsl_conf_parse_stream wsl_conf_init
    (str "[boot]" ++ [c_nl] ++ str "command = a\" ++ [c_nl] ++ str "b" ++ [c_nl])))
  = Some (str "a\").
Proof. vm_compute. reflexivity. Qed.

End WslConfThm.

Import Wire ConfigMsg.

Module ConfigMsgThm.

Lemma memcpy_at_end pre s rest :
  (length s <= length rest)%nat ->
  memcpy_at (Z.of_nat (length pre)) s (pre ++ rest) = pre ++ s ++ drop (length s) rest.
Proof.
  intros H. unfold memcpy_at. rewrite Nat2Z.id, take_app_length, drop_app_ge by lia.
  do 3 f_equal. lia.
Qed.

(** Packing after [pre], with enough room left and no offset overflow. *)
Lemma pack_step pre rest s :
  (length s + 1 <= length rest)%nat -> Z.of_nat (length pre + length s + 1) < 2 ^ 32 ->
  pack (pre ++ rest, Z.of_nat (length pre)) s
  = (((pre ++ (s ++ [0])) ++ drop (length s + 1) rest, Z.of_nat (length (pre ++ (s ++ [0])))),
     Z.of_nat (length pre)).
Proof.
  intros Hl Ho. assert (length (s ++ [0]) = (length s + 1)%nat) as E
    by (rewrite length_app; done).
  unfold pack. rewrite memcpy_at_end by lia. rewrite E, (app_assoc pre).
  replace (u32 _) with (Z.of_nat (length (pre ++ s ++ [0]))); [done|].
  unfold u32. rewrite Z.mod_small, length_app, E; lia.
Qed.

Lemma extract_at pre s rest :
  no_nul s ->
  wsl_extract_string (pre ++ (s ++ [0]) ++ rest) (Z.of_nat (length pre)) = Some s.
Proof.
  intros H. unfold wsl_extract_string.
  replace (_ <=? _) with false
    by (symmetry; apply Z.leb_gt; rewrite !length_app; cbn [length]; lia).
  rewrite Nat2Z.id, drop_app_length, <-app_assoc. cbn [app]. by rewrite to_cstr_app_nul.
Qed.

Definition offset_of (ss : list bytes) (i : nat) : Z := Z.of_nat (length (packed (take i ss))).

Lemma extract_packed ss i s :
  ss !! i = Some s -> no_nul s -> wsl_extract_string (packed ss) (offset_of ss i) = Some s.
Proof.
  intros Hi Hs. unfold offset_of, packed.
  rewrite <-(take_drop_middle ss i s Hi) at 1. rewrite flat_map_app. cbn [flat_map].
  by apply extract_at.
Qed.

(** The builder's state after packing the first [i] strings. *)
Definition pack_state (ss : list bytes) (i : nat) : bytes * Z :=
  (packed (take i ss) ++ replicate (length (packed ss) - length (packed (take i ss))) 0,
   offset_of ss i).

Lemma packed_take_S ss i s :
  ss !! i = Some s -> packed (take (S i) ss) = packed (take i ss) ++ s ++ [0].
Proof.
  intros Hi. rewrite (take_S_r _ _ s) by done. rewrite packed_app. unfold packed at 2.
  cbn [flat_map]. by rewrite app_nil_r.
Qed.

Lemma packed_split ss i s :
  ss !! i = Some s ->
  length (packed ss) = (length (packed (take i ss)) + (length s + 1) + length (packed (drop (S i) ss)))%nat.
Proof.
  intros Hi. rewrite <-(take_drop_middle ss i s Hi) at 1. rewrite packed_app.
  unfold packed at 2. cbn [flat_map]. fold (packed (drop (S i) ss)).
  rewrite !length_app. cbn [length]. lia.
Qed.

Lemma pack_nth ss i s :
  ss !! i = Some s -> Z.of_nat (length (packed ss)) < 2 ^ 32 ->
  pack (pack_state ss i) s = (pack_state ss (S i), offset_of ss i).
Proof.
  intros Hi Hlen. pose proof (packed_split ss i s Hi) as Hsp.
  destruct (decide (Z.of_nat (length (packed (take i ss)) + length s + 1) < 2 ^ 32)) as [Hlt|]; [|lia].
  unfold pack_state, offset_of. rewrite pack_step by (rewrite ?length_replicate; lia).
  rewrite <-!(packed_take_S ss i s) by done. rewrite drop_replicate.
  do 4 f_equal. rewrite (packed_take_S ss i s), length_app, length_app by done. cbn [length]. lia.
Qed.

Definition strings (h d wh dn p9 tz : option bytes) : list bytes :=
  map or_empty [h; d; wh; dn; p9; tz].

Lemma build_message_layout h d wh dn p9 tz bitmap owner flags mount seq :
  let ss := strings h d wh dn p9 tz in
  Z.of_nat (length (packed ss)) < 2 ^ 32 ->
  wsl_config_build_message h d wh dn p9 tz bitmap owner flags mount seq
  = header_bytes (mk_header LxInitMessageInitialize (u32 (52 + Z.of_nat (length (packed ss)))) seq)
    ++ le_bytes 4 (offset_of ss 0) ++ le_bytes 4 (offset_of ss 1) ++ le_bytes 4 (offset_of ss 2)
    ++ le_bytes 4 (offset_of ss 3) ++ le_bytes 4 (offset_of ss 4) ++ le_bytes 4 (offset_of ss 5)
    ++ le_bytes 4 bitmap ++ le_bytes 4 owner ++ le_bytes 4 flags ++ le_bytes 4 mount ++ packed ss.
Proof.
  intros ss Hlen. unfold wsl_config_build_message.
  set (N := (length (or_empty h) + 1 + _ + _ + _ + _ + _)%nat).
  assert (N = length (packed ss)) as HN.
  { unfold N, ss, packed, strings. cbn [map flat_map]. rewrite !length_app. cbn [length]. lia. }
  replace (replicate N 0, 0) with (pack_state ss 0).
  2:{ unfold pack_state, offset_of. cbn. by rewrite HN, Nat.sub_0_r. }
  do 6 (rewrite (pack_nth ss) by done; cbn beta iota).
  unfold pack_state. rewrite take_ge, Nat.sub_diag, app_nil_r by (cbn; lia).
  rewrite HN. done.
Qed.

(** Every offset fits its 32-bit field. *)
Lemma offset_of_bound ss i : 0 <= offset_of ss i <= Z.of_nat (length (packed ss)).
Proof.
  unfold offset_of.
  assert (length (packed ss) = (length (packed (take i ss)) + length (packed (drop i ss)))%nat) as ->
    by (by rewrite <-length_app, <-packed_app, take_drop).
  lia.
Qed.

(** * Properties *)

(** What a message built from these values means: absent strings read back as
    empty ones. *)
Definition expected (h d wh dn p9 tz : option bytes) (bitmap owner flags mount : Z) : wsl_config :=
  mk_wsl_config (Some (or_empty h)) (Some (or_empty d)) (Some (or_empty wh)) (Some (or_empty dn))
    (Some (or_empty p9)) (Some (or_empty tz)) bitmap owner flags mount
    (if mount =? WSL_DRVFS_MOUNT_ELEVATED then 1 else 0).

Definition u32_ok (x : Z) : Prop := 0 <= x < 2 ^ 32.

(** Parsing a built Initialize(5) message gives back the six strings and
    the four scalars it was built from, for every message below 4 GiB. *)
Theorem build_parse_roundtrip cfg h d wh dn p9 tz bitmap owner flags mount seq :
  Forall no_nul (strings h d wh dn p9 tz) ->
  Z.of_nat (length (packed (strings h d wh dn p9 tz))) < 2 ^ 32 ->
  Forall u32_ok [bitmap; owner; flags; mount] ->
  wsl_config_parse cfg
    (Some (wsl_config_build_message h d wh dn p9 tz bitmap owner flags mount seq))
  = (expected h d wh dn p9 tz bitmap owner flags mount, 0).
Proof.
  intros Hs Hlen Hu. rewrite build_message_layout by done.
  set (ss := strings h d wh dn p9 tz) in *.
  pose proof (fun i => offset_of_bound ss i) as Ho.
  repeat (match goal with H : Forall u32_ok (_ :: _) |- _ => apply Forall_cons in H as [? H] end).
  unfold u32_ok in *. unfold header_bytes, wsl_config_parse, sizeof_init_message.
  cbn [MessageType MessageSize SequenceNumber]. rewrite <-!app_assoc.
  replace (_ <? 52) with false
    by (symmetry; apply Z.ltb_ge; rewrite !length_app, !le_bytes_length; lia).
  replace (drop (Z.to_nat 52) _) with (packed ss) by (by do 13 (rewrite drop_app_ge by (rewrite le_bytes_length; lia); rewrite le_bytes_length)).
  assert (forall i s, ss !! i = Some s -> wsl_extract_string (packed ss) (offset_of ss i) = Some s) as E.
  { intros i s Hi. apply extract_packed; [done|]. rewrite Forall_lookup in Hs. by eapply Hs. }
  pose proof (Ho 0%nat); pose proof (Ho 1%nat); pose proof (Ho 2%nat);
    pose proof (Ho 3%nat); pose proof (Ho 4%nat); pose proof (Ho 5%nat).
  match goal with |- context [get32 12 ?m] => set (msg := m) end.
  assert (get32 12 msg = offset_of ss 0 /\ get32 16 msg = offset_of ss 1 /\ get32 20 msg = offset_of ss 2
    /\ get32 24 msg = offset_of ss 3 /\ get32 28 msg = offset_of ss 4 /\ get32 32 msg = offset_of ss 5
    /\ get32 36 msg = bitmap /\ get32 40 msg = owner /\ get32 44 msg = flags /\ get32 48 msg = mount)
    as (-> & -> & -> & -> & -> & -> & -> & -> & -> & ->).
  { unfold msg. repeat split; read_field; done. }
  rewrite (E 0%nat _ eq_refl), (E 1%nat _ eq_refl), (E 2%nat _ eq_refl), (E 3%nat _ eq_refl),
    (E 4%nat _ eq_refl), (E 5%nat _ eq_refl). reflexivity.
Qed.

Lemma build_parse_roundtrip_witness :
  let f := wsl_config_parse wsl_config_init (Some (wsl_config_build_message
             (Some (str "box")) None (Some (str "1.2.3.4 a")) (Some (str "FreeBSD"))
             None (Some (str "Asia/Shanghai")) 5 1000 32 2 7)) in
  snd f = 0 /\ timezone (fst f) = Some (str "Asia/Shanghai") /\ drvfs_elevated (fst f) = 1.
Proof.
  intros f. unfold f.
  rewrite (build_parse_roundtrip wsl_config_init (Some (str "box")) None (Some (str "1.2.3.4 a"))
    (Some (str "FreeBSD")) None (Some (str "Asia/Shanghai")) 5 1000 32 2 7).
  - split; [reflexivity|split; reflexivity].
  - apply (bool_decide_unpack _). vm_compute. exact I.
  - vm_compute. reflexivity.
  - repeat constructor; vm_compute; discriminate.
Defined.

(** What a string field of an arbitrary message may hold: nothing when its
    offset is outside the variable part, else the bytes at that offset up to
    the first NUL or the end of the message. *)
Definition field_reads (msg : bytes) (offset : Z) (r : option bytes) : Prop :=
  match r with
  | None => Z.of_nat (length msg) <= 52 + offset
  | Some s =>
    no_nul s /\ exists post, drop (Z.to_nat (52 + offset)) msg = s ++ post
                             /\ (post = [] \/ head post = Some 0)
  end.

Lemma extract_reads msg offset :
  0 <= offset -> 52 <= Z.of_nat (length msg) ->
  field_reads msg offset (wsl_extract_string (drop 52 msg) offset).
Proof.
  intros Ho Hl. unfold wsl_extract_string. case_if; rewrite length_drop in *; cbn [field_reads]; [lia|].
  split; [apply to_cstr_no_nul|].
  rewrite drop_drop. replace (52 + Z.to_nat offset)%nat with (Z.to_nat (52 + offset)) by lia.
  exists (drop_while nonzero (drop (Z.to_nat (52 + offset)) msg)).
  unfold to_cstr. split; [by rewrite take_drop_while|].
  destruct (drop_while _ _) as [|x post] eqn:D; [by left|right]. cbn [head].
  apply drop_while_stop in D. unfold nonzero in D. bool_to_prop. by rewrite D.
Qed.

(** Any message, whatever its bytes, either is rejected (it is shorter
    than the fixed part, and the configuration is unchanged) or yields string
    fields that lie inside the message. *)
Theorem parse_reads_inside cfg msg :
  bytes_ok msg ->
  let '(cfg', rc) := wsl_config_parse cfg (Some msg) in
  (rc = -1 /\ cfg' = cfg /\ Z.of_nat (length msg) < 52)
  \/ (rc = 0 /\ 52 <= Z.of_nat (length msg)
      /\ field_reads msg (get32 12 msg) (hostname cfg')
      /\ field_reads msg (get32 16 msg) (domainname cfg')
      /\ field_reads msg (get32 20 msg) (windows_hosts cfg')
      /\ field_reads msg (get32 24 msg) (distribution_name cfg')
      /\ field_reads msg (get32 28 msg) (plan9_socket_path cfg')
      /\ field_reads msg (get32 32 msg) (timezone cfg')).
Proof.
  intros Hb. unfold wsl_config_parse, sizeof_init_message. case_if; [by left|right].
  cbn [upd hostname domainname windows_hosts distribution_name plan9_socket_path timezone].
  split; [done|]. split; [done|].
  repeat split; apply extract_reads; try done; unfold get32; apply get_le_bound; done.
Qed.

Lemma parse_reads_inside_witness :
  bytes_ok (replicate 60 1) /\ field_reads (replicate 60 1) 2 (Some (replicate 6 1))
  /\ snd (wsl_config_parse wsl_config_init (Some (replicate 51 0))) = -1.
Proof.
  assert (bytes_ok (replicate 51 0)) as H by (apply Forall_replicate; split; [discriminate|reflexivity]).
  split; [apply Forall_replicate; split; [discriminate|reflexivity]|].
  split.
  - split; [apply Forall_replicate; discriminate|]. exists []. split; [reflexivity|by left].
  - pose proof (parse_reads_inside wsl_config_init (replicate 51 0) H) as P.
    destruct (wsl_config_parse _ _) as [c rc] eqn:E. destruct P as [[-> _]|[_ [L _]]]; [reflexivity|].
    vm_compute in L. destruct (L eq_refl).
Defined.

End ConfigMsgThm.
