(* ===== verification/WslPath.v ===== *)
(** The wslpath tool (src/FreeBSD/wslpath.c): reading the automount root from
    wsl.conf, the two translations, the command line and [main].  A path that
    does not fit its buffer is the error value [None]; [getcwd] and the file
    are arguments.  Characters are classified in the "C" locale. *)
From S2P Require Import Prelude CStr CNum.

Module WslPath.

(** [s[i]], the terminator included. *)
Definition char_at (s : bytes) (i : nat) : Z := nth i s 0.

Definition UNC_MOUNT_NAME : bytes := str "wsl".
Definition DEFAULT_MOUNT_ROOT : bytes := str "/mnt".

(** [n = snprintf(...)] with the check [n >= size]. *)
Definition snprintf_checked (size : Z) (s : bytes) : option bytes :=
  if size <=? Z.of_nat (length s) then None else Some s.

(** * The automount root *)
Fixpoint strip_slash_rev (r : bytes) : bytes :=
  match r with
  | [] => r
  | c :: r' =>
    match r' with
    | [] => r
    | _ :: _ => if c =? c_slash then strip_slash_rev r' else r
    end
  end.
Definition strip_trailing_slash (path : bytes) : bytes := rev (strip_slash_rev (rev path)).

Definition is_blank (c : Z) : bool := (c =? c_space) || (c =? c_tab).
Definition is_eol_blank (c : Z) : bool :=
  (c =? c_nl) || (c =? c_cr) || (c =? c_space) || (c =? c_tab).
Definition rstrip (p : Z -> bool) (s : bytes) : bytes := rev (drop_while p (rev s)).

(** Loop state: whether the section is [automount], and the buffer. *)
Definition root_line (buf_size : Z) (st : bool * bytes) (line : bytes) : bool * bytes :=
  let '(in_automount, buf) := st in
  let p := rstrip is_eol_blank (drop_while is_blank (to_cstr line)) in
  match p with
  | [] => st
  | c :: tl =>
    if (c =? c_hash) || (c =? c_semi) then st
    else if c =? c_lbrack then
      match strchr c_rbrack tl with
      | Some (name, _) => (strcasecmp_eq name (str "automount"), buf)
      | None => st
      end
    else if negb in_automount then st
    else
      match strchr c_eq p with
      | None => st
      | Some (k, v) =>
        let key := rstrip is_blank (drop_while is_blank k) in
        let value := rstrip is_eol_blank (drop_while is_blank v) in
        let value :=
          match value with
          | q :: v' =>
            if q =? c_quote then
              match strchr c_quote v' with Some (inner, _) => inner | None => value end
            else value
          | [] => value
          end in
        match value with
        | [] => st
        | _ =>
          if strcasecmp_eq key (str "root") then (in_automount, snprintf_s buf_size value) else st
        end
      end
  end.

(** [file] is [None] when fopen fails. *)
Definition read_automount_root (buf_size : Z) (file : option bytes) : bytes :=
  if buf_size <? 5 then []
  else
    match file with
    | None => DEFAULT_MOUNT_ROOT
    | Some content =>
      strip_trailing_slash
        (snd (fold_left (root_line buf_size) (fgets_lines 512 content)
                        (false, DEFAULT_MOUNT_ROOT)))
    end.

(** * Translations *)
Definition replace_sep (from to : Z) (s : bytes) : bytes :=
  map (fun c => if c =? from then to else c) s.

(** [path] made absolute; [cwd] is what getcwd returns. *)
Definition make_absolute (path_max : Z) (cwd : option bytes) (input : bytes) : option bytes :=
  if char_at input 0 =? c_slash then Some input
  else
    match cwd with
    | None => None
    | Some d => snprintf_checked path_max (d ++ [c_slash] ++ input)
    end.

Definition to_windows (path_max : Z) (cwd : option bytes) (mount_root input : bytes)
    (out_size : Z) (mixed : bool) : option bytes :=
  let win_sep := if mixed then c_slash else c_bslash in
  match make_absolute path_max cwd input with
  | None => None
  | Some path =>
    let mlen := length mount_root in
    let plain :=
      match snprintf_checked out_size path with
      | None => None
      | Some o => Some (replace_sep c_slash win_sep o)
      end in
    if (Nat.ltb 0 mlen) && starts_with mount_root path && (char_at path mlen =? c_slash) then
      let rest := drop (mlen + 1) path in
      let unc_len := length UNC_MOUNT_NAME in
      if starts_with UNC_MOUNT_NAME rest
         && ((char_at rest unc_len =? c_slash) || (char_at rest unc_len =? 0)) then
        let unc_rest := drop unc_len rest in
        let unc_rest := if char_at unc_rest 0 =? c_slash then drop 1 unc_rest else unc_rest in
        match snprintf_checked out_size ([c_bslash; c_bslash] ++ unc_rest) with
        | None => None
        | Some o => Some (replace_sep c_slash win_sep o)
        end
      else if isalpha (char_at rest 0)
              && ((char_at rest 1 =? c_slash) || (char_at rest 1 =? 0)) then
        let drive := toupper (char_at rest 0) in
        let remainder := if char_at rest 1 =? c_slash then drop 2 rest else [] in
        match remainder with
        | [] => snprintf_checked out_size [drive; c_colon; win_sep]
        | _ =>
          match snprintf_checked out_size ([drive; c_colon; win_sep] ++ remainder) with
          | None => None
          | Some o => Some (take 3 o ++ replace_sep c_slash win_sep (drop 3 o))
          end
        end
      else plain
    else plain
  end.

Definition to_unix (mount_root input : bytes) (out_size : Z) : option bytes :=
  let input :=
    if (char_at input 0 =? c_bslash) && (char_at input 1 =? c_bslash)
       && (char_at input 2 =? c_quest) && (char_at input 3 =? c_bslash)
    then drop 4 input else input in
  let finish o :=
    match snprintf_checked out_size o with
    | None => None
    | Some o => Some (replace_sep c_bslash c_slash o)
    end in
  if (char_at input 0 =? c_bslash) && (char_at input 1 =? c_bslash) then
    finish (mount_root ++ [c_slash] ++ UNC_MOUNT_NAME ++ [c_slash] ++ drop 2 input)
  else if isalpha (char_at input 0) && (char_at input 1 =? c_colon) then
    let drive := tolower (char_at input 0) in
    let rest := drop 2 input in
    let rest := if (char_at rest 0 =? c_bslash) || (char_at rest 0 =? c_slash)
                then drop 1 rest else rest in
    match rest with
    | [] => finish (mount_root ++ [c_slash; drive])
    | _ => finish (mount_root ++ [c_slash; drive; c_slash] ++ rest)
    end
  else finish input.

(** * The command line *)
Inductive mode : Type := Mode_unix | Mode_windows | Mode_mixed.
Inductive cmdline : Type :=
| Help
| Bad_usage
| Translate (m : mode) (path : bytes).

(** The letters after '-'. *)
Fixpoint flag_letters (m : mode) (letters : bytes) : option mode :=
  match letters with
  | [] => Some m
  | c :: l =>
    if c =? 117 then flag_letters Mode_unix l
    else if c =? 119 then flag_letters Mode_windows l
    else if c =? 109 then flag_letters Mode_mixed l
    else if c =? 97 then flag_letters m l
    else None
  end.

Fixpoint parse_args (m : mode) (path : option bytes) (args : list bytes) : cmdline :=
  match args with
  | [] =>
    match path with
    | Some (c :: p) => Translate m (c :: p)
    | _ => Bad_usage
    end
  | a :: rest =>
    if strcmp_eq a (str "--help") then Help
    else if (char_at a 0 =? c_dash) && negb (char_at a 1 =? 0) then
      match flag_letters m (drop 1 a) with
      | Some m' => parse_args m' path rest
      | None => Bad_usage
      end
    else
      match path with
      | None => parse_args m (Some a) rest
      | Some _ => Bad_usage
      end
  end.

(** Exit status and the line printed on stdout. *)
Definition main (path_max : Z) (cwd conf_file : option bytes) (args : list bytes) :
    Z * option bytes :=
  match parse_args Mode_unix None args with
  | Help => (0, None)
  | Bad_usage => (1, None)
  | Translate m path =>
    let mount_root := read_automount_root path_max conf_file in
    let out_size := path_max * 2 in
    let r :=
      match m with
      | Mode_unix => to_unix mount_root path out_size
      | Mode_windows => to_windows path_max cwd mount_root path out_size false
      | Mode_mixed => to_windows path_max cwd mount_root path out_size true
      end in
    match r with
    | Some o => (0, Some (o ++ [c_nl]))
    | None => (1, None)
    end
  end.

End WslPath.
