(* ===== verification/EscapePath.v ===== *)
(** Escaping of Linux paths for NTFS (src/src/linux/init/escape.cpp): characters
    that NTFS does not allow are moved to U+F000..U+F07F, three bytes of UTF-8. *)
From S2P Require Import Prelude CStr CNum.

Module EscapePath.

Definition PATH_SEP : Z := 47.
Definition PATH_SEP_NT : Z := 92.

(** The 128 entries of the table, sixteen a line. *)
Definition EscapeNtfsLegalAnsiCharacterArray : list bool :=
  let t := true in let f := false in
  [ f; f; f; f; f; f; f; f; f; f; f; f; f; f; f; f;
    f; f; f; f; f; f; f; f; f; f; f; f; f; f; f; f;
    t; t; f; t; t; t; t; t; t; t; f; t; t; t; t; t;
    t; t; t; t; t; t; t; t; t; t; f; t; f; t; f; f;
    t; t; t; t; t; t; t; t; t; t; t; t; t; t; t; t;
    t; t; t; t; t; t; t; t; t; t; t; t; f; t; t; t;
    t; t; t; t; t; t; t; t; t; t; t; t; t; t; t; t;
    t; t; t; t; t; t; t; t; t; t; t; t; f; t; t; t ].

(** UtilEscapeCharBase: U+F000. *)
Definition base0 : Z := 239.
Definition base1 : Z := 128.
Definition base2 : Z := 128.

Definition EscapeCharNeedsEscape (c : Z) : bool :=
  (c <=? 127) && negb (nth (Z.to_nat c) EscapeNtfsLegalAnsiCharacterArray true).

Definition escape_char (c : Z) : bytes :=
  if c =? PATH_SEP then [PATH_SEP_NT]
  else if negb (EscapeCharNeedsEscape c) then [c]
  else [base0; Z.lor base1 (Z.shiftr c 6); Z.lor base2 (Z.land c 63)].

(** [path] is the text before the terminator. *)
Fixpoint EscapePathForNt (path : bytes) : bytes :=
  match path with
  | [] => []
  | c :: path' => escape_char c ++ EscapePathForNt path'
  end.

Fixpoint EscapePathForNtLength (path : bytes) : Z :=
  match path with
  | [] => 0
  | c :: path' => (if negb (EscapeCharNeedsEscape c) then 1 else 3) + EscapePathForNtLength path'
  end.

(** The byte that a sequence stands for, when it is one that is unescaped; the
    bytes are the current one and the two after it. *)
Definition unescaped (c0 c1 c2 : Z) : option Z :=
  if (c0 =? base0) && negb (Z.land c1 base1 =? 0) && negb (Z.land c2 base2 =? 0) then
    let u := u8 (Z.lor (Z.shiftl c1 6) (Z.land c2 63)) in
    if EscapeCharNeedsEscape u then Some u else None
  else None.

(** The scan goes on after the byte it put in; what a terminator written into
    the string hides is read no more ([to_cstr] of the result). *)
Fixpoint unescape_scan (path : bytes) : bytes :=
  match path with
  | [] => []
  | c0 :: path1 =>
    match path1 with
    | c1 :: c2 :: path3 =>
      match unescaped c0 c1 c2 with
      | Some u => u :: unescape_scan path3
      | None => c0 :: unescape_scan path1
      end
    | _ => c0 :: unescape_scan path1
    end
  end.
Definition UnescapePathInplace (path : bytes) : bytes := to_cstr (unescape_scan path).
End EscapePath.
