(* ===== verification/MountInfo.v ===== *)
(** The mountinfo reader (src/src/linux/mountutil/mountutil.c) and the option
    parser of the mount helper (src/src/linux/mountutil/mountflags.cpp). *)
From S2P Require Import Prelude CStr CNum.

Module MountInfo.

(** * strtok_r on the rest of a line: the token and the new rest *)
Definition next_token (sep : Z) (line : bytes) : option (bytes * bytes) :=
  let s := drop_while (fun c => c =? sep) line in
  match s with
  | [] => None
  | _ => Some (take_while (fun c => negb (c =? sep)) s,
               drop 1 (drop_while (fun c => negb (c =? sep)) s))
  end.

(** * Fields *)
Definition MOUNT_ESCAPE_CHAR : Z := 92.
Definition MountFieldMax : nat := 9.

(** The last field may contain separators, but no newline. *)
Definition MountNextField (line : bytes) (field : nat) : option (bytes * bytes) :=
  if (field <? MountFieldMax)%nat then next_token c_space line else next_token c_nl line.

(** Three octal digits, in a [char]. *)
Fixpoint octal_digits (n : nat) (acc : Z) (s : bytes) : option Z :=
  match n with
  | O => Some acc
  | S n' =>
    match s with
    | c :: s' => if (c <? 48) || (55 <? c) then None
                 else octal_digits n' (Z.lor (u8 (Z.shiftl acc 3)) (c - 48)) s'
    | [] => None
    end
  end.
Definition MountFieldUnescapeOctal (s : bytes) : option Z := octal_digits 3 0 s.

Fixpoint unescape_scan (s : bytes) : bytes :=
  match s with
  | [] => []
  | c :: s1 =>
    if c =? MOUNT_ESCAPE_CHAR then
      match s1 with
      | a :: b :: d :: s' =>
        match MountFieldUnescapeOctal s1 with
        | Some u => u :: unescape_scan s'
        | None => c :: unescape_scan s1
        end
      | _ => c :: unescape_scan s1
      end
    else c :: unescape_scan s1
  end.
(** What the field reads as afterwards: an escaped NUL ends it. *)
Definition MountFieldUnescape (field : bytes) : bytes := to_cstr (unescape_scan field).

(** glibc's makedev. *)
Definition makedev (major minor : Z) : Z :=
  let ma := u32 major in let mi := u32 minor in
  Z.lor (Z.lor (Z.shiftl (Z.land ma 4095) 8) (Z.shiftl (Z.land ma 4294963200) 32))
        (Z.lor (Z.land mi 255) (Z.shiftl (Z.land mi 4294967040) 12)).

(** The device number and what is left of the field, cut at the separator. *)
Definition MountParseDevice (field : bytes) : option (Z * bytes) :=
  match strchr c_colon field with
  | None => None
  | Some (major, rest) => Some (makedev (atoi major) (atoi rest), major)
  end.

Record MOUNT_ENTRY : Type := mk_entry {
  Id : Z; ParentId : Z; Device : Z; Root : bytes; MountPoint : bytes; MountOptions : bytes;
  FileSystemType : bytes; Source : bytes; SuperOptions : bytes
}.
#[export] Instance MOUNT_ENTRY_eta : Eta MOUNT_ENTRY := fun r =>
  mk_entry (Id r) (ParentId r) (Device r) (Root r) (MountPoint r) (MountOptions r)
           (FileSystemType r) (Source r) (SuperOptions r).

(** Past the optional fields, up to the lone hyphen; [None] when the line ends
    before it.  The line gets shorter with every field. *)
Fixpoint optional_fields (fuel : nat) (current line : bytes) : option bytes :=
  if strcmp_eq current (str "-") then Some line
  else
    match fuel with
    | O => None
    | S fuel' =>
      match MountNextField line 6 with
      | Some (current, line) => optional_fields fuel' current line
      | None => None
      end
    end.

(** The switch on one field; [None] for a malformed device; the rest of the line
    is [[]] when it was used up. *)
Definition store_field (field : nat) (current line : bytes) (e : MOUNT_ENTRY) : option (MOUNT_ENTRY * bytes) :=
  match field with
  | 0%nat => Some (e <| Id := atoi current |>, line)
  | 1%nat => Some (e <| ParentId := atoi current |>, line)
  | 2%nat =>
    match MountParseDevice current with
    | Some (dev, current) => Some (e <| Device := dev |> <| Root := current |>, line)
    | None => None
    end
  | 3%nat => Some (e <| Root := current |>, line)
  | 4%nat => Some (e <| MountPoint := current |>, line)
  | 5%nat => Some (e <| MountOptions := current |>, line)
  | 6%nat => Some (e, match optional_fields (length line) current line with Some l => l | None => [] end)
  | 7%nat => Some (e <| FileSystemType := current |>, line)
  | 8%nat => Some (e <| Source := current |>, line)
  | _ => Some (e <| SuperOptions := current |>, line)
  end.

(** The fields from [field] on; the number of fields found is the result. *)
Fixpoint parse_fields (left : nat) (field : nat) (line : bytes) (e : MOUNT_ENTRY) :
    option (nat * MOUNT_ENTRY) :=
  match left with
  | O => Some (field, e)
  | S left' =>
    match MountNextField line field with
    | None => Some (field, e)
    | Some (current, line) =>
      match store_field field current line e with
      | None => None
      | Some (e, line) => parse_fields left' (S field) line e
      end
    end
  end.

Definition no_entry : MOUNT_ENTRY := mk_entry 0 0 0 [] [] [] [] [] [].

(** [None] for a malformed line; [e] is what the structure held before. *)
Definition MountParseMountInfoLine (line : bytes) (e : MOUNT_ENTRY) : option MOUNT_ENTRY :=
  match parse_fields (S MountFieldMax) 0 line e with
  | Some (field, e) =>
    if (field <=? MountFieldMax)%nat then None
    else Some (e <| Root := MountFieldUnescape (Root e) |> <| Source := MountFieldUnescape (Source e) |>
                 <| MountPoint := MountFieldUnescape (MountPoint e) |>)
  | None => None
  end.

(** The next valid line of the file: [None] at its end. *)
Fixpoint MountEnumNext (lines : list bytes) (e : MOUNT_ENTRY) : option (MOUNT_ENTRY * list bytes) :=
  match lines with
  | [] => None
  | line :: lines' =>
    match MountParseMountInfoLine line e with
    | Some e' => Some (e', lines')
    | None => MountEnumNext lines' e
    end
  end.

(** The calls of MountEnumNext until it returns -1, at most [fuel]. *)
Fixpoint enumerate (fuel : nat) (lines : list bytes) (e : MOUNT_ENTRY) : list MOUNT_ENTRY :=
  match fuel with
  | O => []
  | S fuel' =>
    match MountEnumNext lines e with
    | Some (e', lines') => e' :: enumerate fuel' lines' e'
    | None => []
    end
  end.
End MountInfo.
