(* ===== verification/MountFlags.v ===== *)
(** The option parser of the mount helper (src/src/linux/mountutil/mountflags.cpp):
    which options become mount flags and which go to the file system as text. *)
From S2P Require Import Prelude CStr CNum.

Module MountFlags.

(** * Linux mount flags *)
Definition MS_RDONLY : Z := 1.
Definition MS_NOSUID : Z := 2.
Definition MS_NODEV : Z := 4.
Definition MS_NOEXEC : Z := 8.
Definition MS_SYNCHRONOUS : Z := 16.
Definition MS_REMOUNT : Z := 32.
Definition MS_MANDLOCK : Z := 64.
Definition MS_DIRSYNC : Z := 128.
Definition MS_NOATIME : Z := 1024.
Definition MS_NODIRATIME : Z := 2048.
Definition MS_SILENT : Z := 2 ^ 15.
Definition MS_RELATIME : Z := 2 ^ 21.
Definition MS_I_VERSION : Z := 2 ^ 23.
Definition MS_STRICTATIME : Z := 2 ^ 24.
Definition MS_LAZYTIME : Z := 2 ^ 25.

(** * ParseFlags *)
Definition PF_None : Z := 0.
Definition PF_Remove : Z := 1.
Definition PF_NoFail : Z := 2.
Definition PF_OptionalValue : Z := 4.
Definition WI_IsFlagSet (flags flag : Z) : bool := negb (Z.land flags flag =? 0).

Record MountFlag : Type := mk_flag { Name : bytes; Flags : Z; Parse : Z }.

Definition FLAG_WITH_NAMED_INVERSE (name inverse : bytes) (flag : Z) : list MountFlag :=
  [mk_flag name flag PF_None; mk_flag inverse flag PF_Remove].
Definition NO_FLAG_WITH_INVERSE (name : bytes) (flag : Z) : list MountFlag :=
  FLAG_WITH_NAMED_INVERSE (str "no" ++ name) name flag.
Definition FLAG_WITH_INVERSE (name : bytes) (flag : Z) : list MountFlag :=
  FLAG_WITH_NAMED_INVERSE name (str "no" ++ name) flag.
Definition plain (name : bytes) (flags parse : Z) : list MountFlag := [mk_flag name flags parse].

Definition c_flagMap : list MountFlag :=
  FLAG_WITH_NAMED_INVERSE (str "sync") (str "async") MS_SYNCHRONOUS
  ++ NO_FLAG_WITH_INVERSE (str "atime") MS_NOATIME
  ++ plain (str "defaults") 0 PF_None
  ++ NO_FLAG_WITH_INVERSE (str "dev") MS_NODEV
  ++ NO_FLAG_WITH_INVERSE (str "diratime") MS_NODIRATIME
  ++ plain (str "dirsync") MS_DIRSYNC PF_None
  ++ NO_FLAG_WITH_INVERSE (str "exec") MS_NOEXEC
  ++ plain (str "group") (Z.lor MS_NOSUID MS_NODEV) PF_None
  ++ plain (str "nogroup") 0 PF_None
  ++ FLAG_WITH_INVERSE (str "iversion") MS_I_VERSION
  ++ FLAG_WITH_INVERSE (str "mand") MS_MANDLOCK
  ++ plain (str "_netdev") 0 PF_None
  ++ plain (str "nofail") 0 PF_NoFail
  ++ FLAG_WITH_INVERSE (str "relatime") MS_RELATIME
  ++ FLAG_WITH_INVERSE (str "strictatime") MS_STRICTATIME
  ++ FLAG_WITH_INVERSE (str "lazytime") MS_LAZYTIME
  ++ NO_FLAG_WITH_INVERSE (str "suid") MS_NOSUID
  ++ FLAG_WITH_NAMED_INVERSE (str "silent") (str "loud") MS_SILENT
  ++ plain (str "owner") (Z.lor MS_NODEV MS_NOSUID) PF_None
  ++ plain (str "noowner") 0 PF_None
  ++ plain (str "remount") MS_REMOUNT PF_None
  ++ FLAG_WITH_NAMED_INVERSE (str "ro") (str "rw") MS_RDONLY
  ++ plain (str "user") (Z.lor (Z.lor MS_NOEXEC MS_NODEV) MS_NOSUID) PF_OptionalValue
  ++ plain (str "nouser") 0 PF_None
  ++ plain (str "users") (Z.lor (Z.lor MS_NOEXEC MS_NODEV) MS_NOSUID) PF_None
  ++ plain (str "nousers") 0 PF_None.

Definition FindOption (opt : bytes) : option MountFlag :=
  let '(has_value, name) :=
    match strchr 61 opt with Some (name, _) => (true, name) | None => (false, opt) end in
  List.find (fun flag => negb (has_value && negb (WI_IsFlagSet (Parse flag) PF_OptionalValue))
                    && strcmp_eq name (Name flag)) c_flagMap.

(** The token before the separator, and the rest. *)
Definition NextToken (view : bytes) (separator : Z) : bytes * bytes :=
  match strchr separator view with
  | None => (view, [])
  | Some (token, rest) => (token, rest)
  end.

Record ParsedOptions : Type := mk_parsed { StringOptions : bytes; MountFlags : Z; NoFail : bool }.
#[export] Instance ParsedOptions_eta : Eta ParsedOptions := fun r =>
  mk_parsed (StringOptions r) (MountFlags r) (NoFail r).

Definition apply_option (result : ParsedOptions) (opt : bytes) : ParsedOptions :=
  match FindOption opt with
  | None =>
    result <| StringOptions :=
      StringOptions result ++ (if is_empty (StringOptions result) then [] else [c_comma]) ++ opt |>
  | Some flag =>
    let flags :=
      if WI_IsFlagSet (Parse flag) PF_Remove then Z.ldiff (MountFlags result) (Flags flag)
      else Z.lor (MountFlags result) (Flags flag) in
    result <| MountFlags := flags |>
           <| NoFail := NoFail result || WI_IsFlagSet (Parse flag) PF_NoFail |>
  end.

(** Every turn takes at least one character of the options. *)
Fixpoint parse_loop (fuel : nat) (options : bytes) (result : ParsedOptions) : ParsedOptions :=
  match fuel, options with
  | S fuel', _ :: _ =>
    let '(opt, options) := NextToken options c_comma in
    parse_loop fuel' options (apply_option result opt)
  | _, _ => result
  end.
Definition MountParseFlags (options : bytes) : ParsedOptions :=
  parse_loop (length options) options (mk_parsed [] 0 false).

(** * MountFilesystem *)
Definition ENOENT : Z := 2.

(** What mount(2) returns for the text options and the flags: 0, or the error. *)
Definition MountFilesystem (mount : bytes -> Z -> Z) (target_exists : bool) (options : bytes) : Z :=
  let parsed := MountParseFlags options in
  let err := mount (StringOptions parsed) (MountFlags parsed) in
  if (err =? ENOENT) && NoFail parsed && target_exists then 0 else err.
End MountFlags.
