(* ===== verification/MountInfoThm.v ===== *)
(** Theorems on the escaping of paths (EscapePathThm: the length, the alphabet, and that
    unescaping brings the path back unless it holds a sequence of its own), on the mount
    table reader (MountInfoThm) and on the parser of mount options (MountFlagsThm). *)
From S2P Require Import Prelude CStr CNum EscapePath MountInfo MountFlags.

Import EscapePath.

Module EscapePathThm.

(** A path with the separators of Linux again. *)
Definition to_slash (c : Z) : Z := if c =? PATH_SEP_NT then PATH_SEP else c.

(** Whether three bytes in a row would be unescaped. *)
Fixpoint has_sequence (path : bytes) : bool :=
  match path with
  | [] => false
  | c0 :: path1 =>
    match path1 with
    | c1 :: c2 :: _ => match unescaped c0 c1 c2 with Some _ => true | None => has_sequence path1 end
    | _ => false
    end
  end.

(** What NTFS accepts in a path, or a byte of a longer UTF-8 sequence. *)
Definition legal_nt (c : Z) : bool := (128 <=? c) || (c =? PATH_SEP_NT) || negb (EscapeCharNeedsEscape c).

(** * The 256 characters, one by one *)
Definition unix_char (c : Z) : bytes :=
  if EscapeCharNeedsEscape c then [base0; Z.lor base1 (Z.shiftr c 6); Z.lor base2 (Z.land c 63)] else [c].

Lemma unix_escape_char c : is_byte c -> map to_slash (escape_char c) = unix_char c.
Proof.
  intros Hc. apply list_eqb_eq. revert c Hc. apply every_byte. vm_compute. reflexivity.
Qed.

Lemma unescaped_escape c : is_byte c -> EscapeCharNeedsEscape c = true ->
  unescaped base0 (Z.lor base1 (Z.shiftr c 6)) (Z.lor base2 (Z.land c 63)) = Some c.
Proof.
  intros Hc Hn. pose proof (every_byte (fun c => negb (EscapeCharNeedsEscape c)
    || match unescaped base0 (Z.lor base1 (Z.shiftr c 6)) (Z.lor base2 (Z.land c 63)) with
       | Some d => d =? c | None => false end) ltac:(vm_compute; reflexivity) c Hc) as H.
  cbv beta in H. rewrite Hn in H. destruct (unescaped _ _ _); [|done]. f_equal. apply Z.eqb_eq. exact H.
Qed.

Lemma unescaped_other c0 c1 c2 : c0 <> base0 -> unescaped c0 c1 c2 = None.
Proof. intros H. unfold unescaped. by rewrite (proj2 (Z.eqb_neq _ _) H). Qed.

(** A byte that is followed by an escaped character makes no sequence. *)
Lemma unescaped_before_base c : is_byte c -> unescaped base0 c base0 = None.
Proof.
  intros Hc. pose proof (every_byte (fun c => match unescaped base0 c base0 with None => true | _ => false end)
    ltac:(vm_compute; reflexivity) c Hc) as H. cbv beta in H. by destruct (unescaped _ _ _).
Qed.
Lemma unescaped_base_twice c : is_byte c -> unescaped base0 base0 c = None.
Proof.
  intros Hc. pose proof (every_byte (fun c => match unescaped base0 base0 c with None => true | _ => false end)
    ltac:(vm_compute; reflexivity) c Hc) as H. cbv beta in H. by destruct (unescaped _ _ _).
Qed.

(** * The scan *)
Lemma unescape_skip c rest :
  (forall c1 c2 r, rest = c1 :: c2 :: r -> unescaped c c1 c2 = None) ->
  unescape_scan (c :: rest) = c :: unescape_scan rest.
Proof.
  intros H. destruct rest as [|c1 [|c2 r]]; [done|done|]. cbn [unescape_scan].
  by rewrite (H c1 c2 r eq_refl).
Qed.

Lemma no_sequence_tail c p : has_sequence (c :: p) = false -> has_sequence p = false.
Proof. destruct p as [|c1 [|c2 r]]; [done|done|]. cbn [has_sequence]. by destruct (unescaped c c1 c2). Qed.

Lemma no_sequence_head c d e p : has_sequence (c :: d :: e :: p) = false -> unescaped c d e = None.
Proof. cbn [has_sequence]. by destruct (unescaped c d e). Qed.

Lemma second_byte c : is_byte c -> is_byte (Z.lor base1 (Z.shiftr c 6)).
Proof.
  intros Hc. pose proof (every_byte (fun c => let b := Z.lor base1 (Z.shiftr c 6) in (0 <=? b) && (b <? 256))
    ltac:(vm_compute; reflexivity) c Hc) as H. cbv beta zeta in H. unfold is_byte. lia.
Qed.

Lemma scan_unix p : bytes_ok p -> has_sequence p = false ->
  unescape_scan (flat_map unix_char p) = p.
Proof.
  induction p as [|c p IH]; intros Hb Hs; [done|]. apply Forall_cons in Hb as [Hc Hb].
  cbn [flat_map]. specialize (IH Hb (no_sequence_tail _ _ Hs)). unfold unix_char at 1.
  destruct (EscapeCharNeedsEscape c) eqn:Ec.
  - cbn [app unescape_scan]. by rewrite unescaped_escape, IH.
  - cbn [app]. rewrite unescape_skip, IH; [done|]. intros c1 c2 r E.
    destruct (Z.eqb_spec c base0) as [->|Hne]; [|by apply unescaped_other].
    destruct p as [|d p]; [done|]. apply Forall_cons in Hb as [Hd Hb]. cbn [flat_map] in E.
    unfold unix_char at 1 in E. destruct (EscapeCharNeedsEscape d) eqn:Ed; cbn [app] in E.
    + injection E as <- <- _. apply unescaped_base_twice. by apply second_byte.
    + destruct p as [|e p]; [done|]. cbn [flat_map] in E. unfold unix_char at 1 in E.
      destruct (EscapeCharNeedsEscape e); cbn [app] in E; injection E as <- <- _.
      * by apply unescaped_before_base.
      * by apply no_sequence_head in Hs.
Qed.

Lemma escape_unix p : bytes_ok p -> map to_slash (EscapePathForNt p) = flat_map unix_char p.
Proof.
  induction 1 as [|c p Hc _ IH]; [done|]. cbn [EscapePathForNt flat_map].
  by rewrite map_app, IH, unix_escape_char.
Qed.

(** The escaping of paths.  The escaped path has exactly the length that
    EscapePathForNtLength announces (its buffer is neither overrun nor left
    unfilled) and only bytes NTFS accepts in a path; and, once its separators are
    slashes again, unescaping it gives back the path it came from, whatever
    characters that has, as long as it holds no sequence that is unescaped. *)
Theorem escape_unescape_roundtrip p :
  cstr_ok p ->
  Z.of_nat (length (EscapePathForNt p)) = EscapePathForNtLength p
  /\ Forall (fun c => legal_nt c = true) (EscapePathForNt p)
  /\ (has_sequence p = false -> UnescapePathInplace (map to_slash (EscapePathForNt p)) = p).
Proof.
  intros Hp. pose proof (cstr_ok_bytes_ok _ Hp) as Hb. split; [|split].
  - clear Hp. induction Hb as [|c p Hc _ IH]; [done|]. cbn [EscapePathForNt EscapePathForNtLength].
    rewrite length_app, Nat2Z.inj_add, IH. f_equal. revert c Hc.
    assert (forall c, is_byte c -> (Z.of_nat (length (escape_char c))
      =? (if negb (EscapeCharNeedsEscape c) then 1 else 3)) = true) as H
      by (apply every_byte; vm_compute; reflexivity).
    intros c Hc. apply Z.eqb_eq. exact (H c Hc).
  - clear Hp. induction Hb as [|c p Hc _ IH]; [done|]. cbn [EscapePathForNt].
    apply Forall_app. split; [|exact IH].
    assert (forall c, is_byte c -> forallb legal_nt (escape_char c) = true) as H
      by (apply every_byte; vm_compute; reflexivity).
    apply Forall_forall. intros x Hx. specialize (H c Hc). rewrite forallb_forall in H.
    by apply H, list_elem_of_In.
  - intros Hs. unfold UnescapePathInplace. rewrite escape_unix, scan_unix by done.
    by apply to_cstr_all, cstr_ok_no_nul.
Qed.

(** A file whose name has a colon, a question mark and an asterisk, in a directory
    with a backslash in its name. *)
Definition ex_path : bytes := str "a\b/report:?*v1".
Lemma escape_unescape_roundtrip_witness :
  UnescapePathInplace (map to_slash (EscapePathForNt ex_path)) = ex_path
  /\ EscapePathForNtLength ex_path = 23.
Proof.
  destruct (escape_unescape_roundtrip ex_path) as (Hl & _ & Hr).
  - unfold cstr_ok. apply (bool_decide_unpack _). vm_compute. exact I.
  - split; [apply Hr; reflexivity|]. rewrite <-Hl. reflexivity.
Defined.

(** The fullwidth exclamation mark U+FF01 is no escape, but it is unescaped. *)
Example fullwidth_is_unescaped :
  UnescapePathInplace [97; 239; 188; 129; 98] = [97; 1; 98].
Proof. reflexivity. Qed.
(** An escaped NUL cuts the path. *)
Example escaped_nul_cuts : UnescapePathInplace [97; 239; 128; 128; 98] = [97].
Proof. reflexivity. Qed.
End EscapePathThm.

Import MountInfo.

Module MountInfoThm.

(** * How the kernel writes a line *)
Definition octal (c : Z) : bytes := [MOUNT_ESCAPE_CHAR; 48 + c / 64; 48 + (c / 8) mod 8; 48 + c mod 8].
Definition mangle (esc : Z -> bool) (s : bytes) : bytes :=
  flat_map (fun c => if esc c then octal c else [c]) s.

Definition sp (w rest : bytes) : bytes := w ++ c_space :: rest.
Definition print_line (esc : Z -> bool) (major minor : Z) (optional : list bytes) (tail : bytes)
    (e : MOUNT_ENTRY) : bytes :=
  sp (dec_signed (Id e)) (sp (dec_signed (ParentId e)) (sp (dec_signed major ++ c_colon :: dec_signed minor)
    (sp (mangle esc (Root e)) (sp (mangle esc (MountPoint e)) (sp (MountOptions e)
      (foldr sp (sp (str "-") (sp (FileSystemType e) (sp (mangle esc (Source e)) (SuperOptions e ++ tail))))
             optional)))))).

(** * Tokens *)
Definition word (sep : Z) (w : bytes) : Prop := w <> [] /\ Forall (fun c => c <> sep) w.

Lemma word_head sep w rest : word sep w -> drop_while (fun c => c =? sep) (w ++ rest) = w ++ rest.
Proof.
  intros [Hn Hw]. destruct w as [|c w]; [done|]. apply Forall_cons in Hw as [Hc _].
  cbn [app drop_while]. by rewrite (proj2 (Z.eqb_neq _ _) Hc).
Qed.

Lemma word_keep sep w : word sep w -> Forall (fun c => negb (c =? sep) = true) w.
Proof. intros [_ Hw]. eapply Forall_impl_hint; [exact Hw|]. intros c Hc. by apply negb_true_iff, Z.eqb_neq. Qed.

Lemma next_word sep w rest : word sep w -> next_token sep (w ++ sep :: rest) = Some (w, rest).
Proof.
  intros Hw. unfold next_token. rewrite word_head by done. pose proof (word_keep _ _ Hw) as Hk.
  rewrite take_while_app, drop_while_app, drop_while_head by (done || by rewrite Z.eqb_refl).
  destruct (w ++ sep :: rest) eqn:E; [by destruct w|done].
Qed.

Lemma next_last sep w : word sep w -> next_token sep w = Some (w, []).
Proof.
  intros Hw. unfold next_token. rewrite <-(app_nil_r w), word_head, app_nil_r by done.
  pose proof (word_keep _ _ Hw) as Hk. rewrite take_while_all by done.
  pose proof (take_drop_while (fun c => negb (c =? sep)) w) as E. rewrite take_while_all in E by done.
  assert (drop_while (fun c => negb (c =? sep)) w = []) as ->.
  { apply (app_inv_head w). by rewrite app_nil_r. }
  destruct Hw as [Hn _]. by destruct w.
Qed.

(** * Escapes *)
Lemma octal_digits_app n acc l rest : length l = n -> octal_digits n acc (l ++ rest) = octal_digits n acc l.
Proof.
  revert acc l. induction n as [|n IH]; intros acc [|c l]; try done. intros [= Hl]. cbn [app octal_digits].
  by rewrite IH.
Qed.

Lemma octal_back c : is_byte c -> octal_digits 3 0 (drop 1 (octal c)) = Some c.
Proof.
  intros Hc. pose proof (every_byte (fun c => match octal_digits 3 0 (drop 1 (octal c)) with
    | Some d => d =? c | None => false end) ltac:(vm_compute; reflexivity) c Hc) as H.
  cbv beta in H. destruct (octal_digits _ _ _); [|done]. by apply Z.eqb_eq in H as ->.
Qed.

Lemma octal_no_space c : is_byte c -> Forall (fun d => d <> c_space) (octal c).
Proof.
  intros Hc. pose proof (every_byte (fun c => forallb (fun d => negb (d =? c_space)) (octal c))
    ltac:(vm_compute; reflexivity) c Hc) as H. cbv beta in H. rewrite forallb_forall in H.
  apply Forall_forall. intros d Hd%list_elem_of_In ->. by specialize (H _ Hd).
Qed.

Section Escapes.
Context (esc : Z -> bool) (esc_space : esc c_space = true) (esc_self : esc MOUNT_ESCAPE_CHAR = true).

Lemma unescape_mangle s : cstr_ok s -> MountFieldUnescape (mangle esc s) = s.
Proof.
  intros Hs. unfold MountFieldUnescape.
  assert (unescape_scan (mangle esc s) = s) as ->; [|by apply to_cstr_all, cstr_ok_no_nul].
  apply cstr_ok_bytes_ok in Hs. induction Hs as [|c s Hc Hs IH]; [done|]. cbn [mangle flat_map].
  fold (mangle esc s). destruct (esc c) eqn:E.
  - pose proof (octal_digits_app 3 0 (drop 1 (octal c)) (mangle esc s) eq_refl) as Ho.
    rewrite octal_back in Ho by done. unfold octal in *. cbn [app drop] in *. cbn [unescape_scan].
    rewrite Z.eqb_refl. unfold MountFieldUnescapeOctal. by rewrite Ho, IH.
  - cbn [app unescape_scan]. destruct (Z.eqb_spec c MOUNT_ESCAPE_CHAR) as [->|_]; [congruence|].
    by rewrite IH.
Qed.

Lemma mangle_word s : s <> [] -> bytes_ok s -> word c_space (mangle esc s).
Proof.
  intros Hn Hs. split.
  - destruct s as [|c s]; [done|]. cbn. by destruct (esc c).
  - clear Hn. induction Hs as [|c s Hc Hs IH]; [constructor|]. cbn [mangle flat_map]. fold (mangle esc s).
    apply Forall_app. split; [|exact IH]. destruct (esc c) eqn:E.
    + by apply octal_no_space.
    + constructor; [|constructor]. intros ->. congruence.
Qed.
End Escapes.


Lemma dec_signed_word sep n : sep <> c_dash -> ~ 48 <= sep < 58 -> word sep (dec_signed n).
Proof.
  intros H1 H2. destruct (dec_signed_chars n) as [Hn Hc]. split; [exact Hn|].
  eapply Forall_impl_hint; [exact Hc|]. cbv beta. intros c [-> | ?] ?; [congruence|lia].
Qed.

(** * A well-formed entry *)
Record entry_ok (e : MOUNT_ENTRY) : Prop := {
  ids_ok : INT_MIN <= Id e <= INT_MAX /\ INT_MIN <= ParentId e <= INT_MAX;
  escaped_ok : Forall (fun s => s <> [] /\ cstr_ok s) [Root e; MountPoint e; Source e];
  plain_ok : Forall (word c_space) [MountOptions e; FileSystemType e];
  super_ok : word c_nl (SuperOptions e)
}.

Lemma parse_device major minor rest :
  0 <= major <= INT_MAX -> 0 <= minor <= INT_MAX ->
  head_digit_in 10 rest = false ->
  MountParseDevice (dec_signed major ++ c_colon :: dec_signed minor ++ rest)
  = Some (makedev major minor, dec_signed major).
Proof.
  intros H1 H2 Hr. unfold MountParseDevice. unfold INT_MAX in *.
  rewrite strchr_app by (by apply (dec_signed_word c_colon); [|lia]).
  rewrite atoi_dec_signed by (unfold INT_MIN, INT_MAX; lia || done).
  rewrite <-(app_nil_r (dec_signed major)) at 1.
  by rewrite atoi_dec_signed by (unfold INT_MIN, INT_MAX; lia || done).
Qed.

Lemma hyphen_word : word c_space (str "-").
Proof. split; [done|]. constructor; [done|constructor]. Qed.

Lemma optional_skip o os fuel rest :
  Forall (fun o => word c_space o /\ o <> str "-") (o :: os) -> (length os < fuel)%nat ->
  optional_fields fuel o (foldr sp (sp (str "-") rest) os) = Some rest.
Proof.
  revert o fuel. induction os as [|o' os IH]; intros o fuel Ho Hf;
    apply Forall_cons in Ho as [[_ Ho] Hos]; destruct fuel as [|fuel]; try lia; cbn [optional_fields].
  all: unfold strcmp_eq at 1; rewrite (proj2 (list_eqb_neq _ _) Ho).
  - cbn [foldr]. unfold sp. unfold MountNextField. cbn [Nat.ltb Nat.leb]. unfold MountFieldMax.
    rewrite next_word by exact hyphen_word. by destruct fuel.
  - cbn [foldr]. unfold sp at 1. unfold MountNextField. cbn [Nat.ltb Nat.leb]. unfold MountFieldMax.
    rewrite next_word by (by apply Forall_cons in Hos as [[? _] _]). apply IH; [done|]. cbn [length] in Hf. lia.
Qed.

(** * Reading the fields *)
#[local] Arguments MountFieldUnescape : simpl never.
#[local] Arguments mangle : simpl never.
Lemma field_step left field w rest e :
  word c_space w -> (field < 9)%nat ->
  parse_fields (S left) field (sp w rest) e
  = match store_field field w rest e with
    | Some (e', line) => parse_fields left (S field) line e'
    | None => None
    end.
Proof.
  intros Hw Hf. cbn [parse_fields]. unfold MountNextField, MountFieldMax.
  rewrite (proj2 (Nat.ltb_lt field 9)) by done. unfold sp. by rewrite next_word.
Qed.

Lemma optional_step left optional rest e :
  Forall (fun o => word c_space o /\ o <> str "-") optional ->
  parse_fields (S left) 6 (foldr sp (sp (str "-") rest) optional) e = parse_fields left 7 rest e.
Proof.
  intros Ho. destruct optional as [|o os].
  - cbn [foldr]. rewrite field_step by (exact hyphen_word || lia).
    cbn [store_field]. by destruct (length rest).
  - cbn [foldr]. pose proof Ho as Ho'. apply Forall_cons in Ho' as [[Hw _] _].
    rewrite field_step by (done || lia). cbn [store_field]. rewrite optional_skip; [done|done|].
    clear Ho Hw. induction os as [|o' os IH]; cbn [foldr length]; unfold sp in *; rewrite length_app; cbn [length]; lia.
Qed.

Lemma last_step w tail e :
  word c_nl w -> tail = [] \/ tail = [c_nl] ->
  parse_fields 1 9 (w ++ tail) e = Some (10%nat, e <| SuperOptions := w |>).
Proof.
  intros Hw Ht. cbn [parse_fields]. unfold MountNextField. cbn [Nat.ltb Nat.leb MountFieldMax].
  destruct Ht as [-> | ->]; [rewrite app_nil_r, next_last by done|rewrite next_word by done]; done.
Qed.

Section Line.
Context (esc : Z -> bool) (esc_space : esc c_space = true) (esc_self : esc MOUNT_ESCAPE_CHAR = true).

Lemma parse_printed major minor optional tail e e0 :
  entry_ok e -> 0 <= major <= INT_MAX -> 0 <= minor <= INT_MAX -> Device e = makedev major minor ->
  Forall (fun o => word c_space o /\ o <> str "-") optional -> tail = [] \/ tail = [c_nl] ->
  MountParseMountInfoLine (print_line esc major minor optional tail e) e0 = Some e.
Proof.
  intros [[Hid Hpid] Hesc Hplain Hsuper] Hma Hmi Hdev Hopt Htail.
  apply Forall_cons in Hesc as [[Hr1 Hr2] Hesc]. apply Forall_cons in Hesc as [[Hm1 Hm2] Hesc].
  apply Forall_cons in Hesc as [[Hs1 Hs2] _]. apply Forall_cons in Hplain as [Ho Hplain].
  apply Forall_cons in Hplain as [Hfs _].
  assert (Hw : forall s, s <> [] -> cstr_ok s -> word c_space (mangle esc s))
    by (intros s ? ?; apply mangle_word; auto using cstr_ok_bytes_ok).
  assert (Hat : forall n, INT_MIN <= n <= INT_MAX -> atoi (dec_signed n) = n)
    by (intros n Hn; rewrite <-(app_nil_r (dec_signed n)); by apply atoi_dec_signed).
  pose proof (parse_device major minor [] Hma Hmi eq_refl) as Hd. rewrite app_nil_r in Hd.
  unfold MountParseMountInfoLine, print_line, MountFieldMax.
  rewrite field_step by (lia || by apply dec_signed_word; [|lia]). cbn [store_field].
  rewrite field_step by (lia || by apply dec_signed_word; [|lia]). cbn [store_field].
  rewrite field_step; [|split|lia].
  2: { by destruct (dec_signed major). }
  2: { apply Forall_app. split; [apply (dec_signed_word c_space); [done|lia]|].
       constructor; [done|]. apply (dec_signed_word c_space); [done|lia]. }
  cbn [store_field]. rewrite Hd.
  rewrite field_step by (auto || lia). cbn [store_field].
  rewrite field_step by (auto || lia). cbn [store_field].
  rewrite field_step by (done || lia). cbn [store_field].
  rewrite optional_step by done.
  rewrite field_step by (done || lia). cbn [store_field].
  rewrite field_step by (auto || lia). cbn [store_field].
  rewrite last_step by done. cbn [Nat.leb]. rewrite !Hat by done. f_equal.
  destruct e as [id pid dev root mp opts fs src super]. cbn in *.
  by rewrite !unescape_mangle, Hdev by done.
Qed.
End Line.

(** * The enumeration *)

(** A line of the file: one that the kernel wrote, or one that is malformed. *)
Inductive file_line : Type :=
| Written (major minor : Z) (optional : list bytes) (tail : bytes) (e : MOUNT_ENTRY)
| Malformed (line : bytes).
Definition line_text (esc : Z -> bool) (l : file_line) : bytes :=
  match l with
  | Written major minor optional tail e => print_line esc major minor optional tail e
  | Malformed line => line
  end.
Definition line_ok (l : file_line) : Prop :=
  match l with
  | Written major minor optional tail e =>
    entry_ok e /\ 0 <= major <= INT_MAX /\ 0 <= minor <= INT_MAX /\ Device e = makedev major minor
    /\ Forall (fun o => word c_space o /\ o <> str "-") optional /\ (tail = [] \/ tail = [c_nl])
  | Malformed line => forall e, MountParseMountInfoLine line e = None
  end.
Definition line_entry (l : file_line) : option MOUNT_ENTRY :=
  match l with Written _ _ _ _ e => Some e | Malformed _ => None end.

(** The mountinfo reader.  On a file whose lines are written the way the kernel
    writes them (blanks, backslashes and any other characters of the paths in
    octal, any number of optional fields) with malformed lines in between, the
    enumeration returns exactly the entries that were written, field by field and
    in order, and ends. *)
Theorem mountinfo_roundtrip esc lines e :
  esc c_space = true -> esc MOUNT_ESCAPE_CHAR = true -> Forall line_ok lines ->
  enumerate (S (length lines)) (map (line_text esc) lines) e = omap line_entry lines.
Proof.
  intros H1 H2 Hl. enough (forall fuel e, (length lines < fuel)%nat ->
    enumerate fuel (map (line_text esc) lines) e = omap line_entry lines) as H by (apply H; lia).
  clear e. induction Hl as [|l lines Hl _ IH]; intros [|fuel] e Hf; cbn [length] in Hf; try lia; [done|].
  cbn [enumerate map MountEnumNext omap list_omap]. destruct l as [ma mi opt tail e'|line]; cbn [line_text line_entry].
  - destruct Hl as (? & ? & ? & ? & ? & ?). rewrite parse_printed by done. by rewrite IH by lia.
  - rewrite (Hl e). specialize (IH (S fuel) e ltac:(lia)). exact IH.
Qed.

(** Two mounts, one of them with a blank in its path, and a cut line. *)
Definition ex_entry (id : Z) (point : bytes) : MOUNT_ENTRY :=
  mk_entry id 1 (makedev 0 30) (str "/") point (str "rw,noatime") (str "9p") (str "C:\") (str "rw,aname=drvfs;path=C:\ x").
Definition ex_lines : list file_line :=
  [Written 0 30 [str "shared:1"; str "master:2"] [c_nl] (ex_entry 25 (str "/mnt/c drive"));
   Malformed (str "26 1 0:31 / /x rw shared:2");
   Written 0 30 [] [] (ex_entry 27 (str "/mnt/d"))].
Definition ex_esc (c : Z) : bool := (c =? 32) || (c =? 92) || (c =? 10) || (c =? 9).

Lemma mountinfo_roundtrip_witness :
  enumerate 4 (map (line_text ex_esc) ex_lines) no_entry
  = [ex_entry 25 (str "/mnt/c drive"); ex_entry 27 (str "/mnt/d")].
Proof.
  refine (mountinfo_roundtrip ex_esc ex_lines no_entry eq_refl eq_refl _).
  assert (Hok : forall id p, INT_MIN <= id <= INT_MAX -> p <> [] -> cstr_ok p -> entry_ok (ex_entry id p)).
  { intros id p Hid Hp Hc. split.
    - split; [exact Hid|unfold INT_MIN, INT_MAX; cbn; lia].
    - repeat constructor; try done; unfold cstr_ok; apply (bool_decide_unpack _); vm_compute; exact I.
    - unfold word. apply (bool_decide_unpack _). vm_compute. exact I.
    - unfold word. apply (bool_decide_unpack _). vm_compute. exact I. }
  assert (Hopt : Forall (fun o => word c_space o /\ o <> str "-") [str "shared:1"; str "master:2"])
    by (unfold word; apply (bool_decide_unpack _); vm_compute; exact I).
  constructor; [|constructor; [intros e; vm_compute; reflexivity|constructor; [|constructor]]].
  all: split; [apply Hok; [done|done|]; unfold cstr_ok; apply (bool_decide_unpack _); vm_compute; exact I|].
  all: split_and!; try done; first [by left|by right|by constructor].
Defined.
End MountInfoThm.

Import MountFlags.

Module MountFlagsThm.

(** * What one option means *)
Definition is_text (o : bytes) : bool := match FindOption o with None => true | Some _ => false end.
Definition is_nofail (o : bytes) : bool :=
  match FindOption o with Some f => WI_IsFlagSet (Parse f) PF_NoFail | None => false end.
(** Whether it sets or clears flag number [i], when it does either. *)
Definition effect (i : Z) (o : bytes) : option bool :=
  match FindOption o with
  | Some f => if Z.testbit (Flags f) i then Some (negb (WI_IsFlagSet (Parse f) PF_Remove)) else None
  | None => None
  end.

Definition option_ok (o : bytes) : Prop := o <> [] /\ Forall (fun c => c <> c_comma) o.

(** * The loop over the tokens *)
Lemma parse_loop_tokens opts fuel r :
  Forall option_ok opts -> (length (join c_comma opts) <= fuel)%nat ->
  parse_loop fuel (join c_comma opts) r = foldl apply_option r opts.
Proof.
  intros Ho. revert fuel r. induction Ho as [|o opts [Hn Hc] Ho IH]; intros fuel r Hf; [by destruct fuel|].
  destruct opts as [|o2 opts].
  - cbn [join foldl] in *. destruct o as [|c o]; [done|]. cbn [length] in Hf.
    destruct fuel as [|fuel]; [lia|]. cbn [parse_loop]. unfold NextToken. rewrite strchr_none by done.
    by destruct fuel.
  - change (join c_comma (o :: o2 :: opts)) with (o ++ c_comma :: join c_comma (o2 :: opts)) in *.
    rewrite length_app in Hf. cbn [length] in Hf. destruct fuel as [|fuel]; [lia|].
    destruct (o ++ c_comma :: join c_comma (o2 :: opts)) as [|c s] eqn:E; [by destruct o|].
    cbn [parse_loop]. rewrite <-E. unfold NextToken. rewrite strchr_app by done.
    rewrite IH by lia. reflexivity.
Qed.

Lemma join_snoc_option l o : Forall option_ok l ->
  join c_comma (l ++ [o]) = join c_comma l ++ (if is_empty (join c_comma l) then [] else [c_comma]) ++ o.
Proof.
  induction 1 as [|x l [Hx _] Hl IH]; [done|]. destruct l as [|y l].
  - cbn [app join]. by destruct x.
  - change (join c_comma ((x :: y :: l) ++ [o])) with (x ++ c_comma :: join c_comma ((y :: l) ++ [o])).
    rewrite IH. change (join c_comma (x :: y :: l)) with (x ++ c_comma :: join c_comma (y :: l)).
    rewrite <-app_assoc. assert (is_empty (x ++ c_comma :: join c_comma (y :: l)) = false) as -> by by destruct x.
    assert (is_empty (join c_comma (y :: l)) = false) as ->.
    { apply Forall_cons in Hl as [[Hy _] _]. destruct l; [by destruct y|by destruct y]. }
    done.
Qed.

Lemma filter_ok p opts : Forall option_ok opts -> Forall option_ok (List.filter p opts).
Proof.
  rewrite !Forall_forall. intros Ho x Hx%list_elem_of_In. apply filter_In in Hx as [Hx _].
  by apply Ho, list_elem_of_In.
Qed.

Lemma fold_options opts :
  Forall option_ok opts ->
  let r := foldl apply_option (mk_parsed [] 0 false) opts in
  StringOptions r = join c_comma (List.filter is_text opts)
  /\ (forall i, 0 <= i -> Z.testbit (MountFlags r) i = default false (last (omap (effect i) opts)))
  /\ NoFail r = existsb is_nofail opts.
Proof.
  induction opts as [|o opts IH] using rev_ind; intros Ho.
  - split_and!; [done| |done]. intros i _. cbn. by rewrite Z.testbit_0_l.
  - apply Forall_app in Ho as [Ho _]. destruct (IH Ho) as (H1 & H2 & H3). rewrite foldl_snoc.
    set (r := foldl _ _ _) in *. rewrite List.filter_app, existsb_app. cbn [List.filter existsb].
    assert (Hom : forall i, omap (effect i) (opts ++ [o])
                     = omap (effect i) opts ++ match effect i o with Some b => [b] | None => [] end)
      by (intros i; by rewrite omap_app; cbn; destruct (effect i o)).
    unfold apply_option. destruct (FindOption o) as [f|] eqn:Ef.
    + assert (is_text o = false) as -> by (unfold is_text; by rewrite Ef).
      assert (is_nofail o = WI_IsFlagSet (Parse f) PF_NoFail) as -> by (unfold is_nofail; by rewrite Ef).
      cbn. rewrite app_nil_r, orb_false_r, H3. split_and!; [done| |done].
      intros i Hi. rewrite Hom. unfold effect at 2. rewrite Ef. destruct (WI_IsFlagSet (Parse f) PF_Remove).
      all: rewrite ?Z.ldiff_spec, ?Z.lor_spec, H2 by done.
      all: destruct (Z.testbit (Flags f) i); rewrite ?last_snoc, ?app_nil_r; cbn;
        by rewrite ?andb_false_r, ?andb_true_r, ?orb_true_r, ?orb_false_r.
    + assert (is_text o = true) as -> by (unfold is_text; by rewrite Ef).
      assert (is_nofail o = false) as -> by (unfold is_nofail; by rewrite Ef).
      cbn. rewrite orb_false_r, H1. split_and!; [|intros i Hi|done].
      * rewrite join_snoc_option; [done|]. by apply filter_ok.
      * rewrite Hom. unfold effect at 2. rewrite Ef, app_nil_r. by apply H2.
Qed.

Lemma parse_joined opts :
  Forall option_ok opts -> MountParseFlags (join c_comma opts) = foldl apply_option (mk_parsed [] 0 false) opts.
Proof. intros Ho. by apply parse_loop_tokens. Qed.

(** Text options are text options again. *)
Lemma parse_text opts :
  Forall option_ok opts -> Forall (fun o => is_text o = true) opts ->
  MountParseFlags (join c_comma opts) = mk_parsed (join c_comma opts) 0 false.
Proof.
  intros Ho Ht. rewrite parse_joined by done.
  induction opts as [|o opts IH] using rev_ind; [done|]. rewrite foldl_snoc.
  apply Forall_app in Ho as [Ho _]. apply Forall_app in Ht as [Ht1 Ht2]. apply Forall_cons in Ht2 as [Ht2 _].
  rewrite IH by done. unfold apply_option. unfold is_text in Ht2. destruct (FindOption o); [done|].
  rewrite join_snoc_option by done. done.
Qed.

(** The options of a mount.  On a list of options the parser agrees with this
    reading of each flag: a mount flag is set exactly when the last option that
    says anything about it sets it; the text options that are no flags go to the
    file system in their order, joined by commas; nofail is given when it occurs.
    Parsing that text again finds no flag in it and changes nothing. *)
Theorem mount_options_equal_reference opts :
  Forall option_ok opts ->
  let r := MountParseFlags (join c_comma opts) in
  StringOptions r = join c_comma (List.filter is_text opts)
  /\ (forall i, 0 <= i -> Z.testbit (MountFlags r) i = default false (last (omap (effect i) opts)))
  /\ NoFail r = existsb is_nofail opts
  /\ MountParseFlags (StringOptions r) = mk_parsed (StringOptions r) 0 false.
Proof.
  intros Ho r. destruct (fold_options opts Ho) as (H1 & H2 & H3). subst r. rewrite parse_joined by done.
  split_and!; [exact H1|exact H2|exact H3|]. rewrite H1. apply parse_text; [by apply filter_ok|].
  apply Forall_forall. intros x Hx%list_elem_of_In. by apply filter_In in Hx as [_ ?].
Qed.

(** suid undoes what user brought; the value of user makes it no text option. *)
Lemma mount_options_equal_reference_witness :
  let r := MountParseFlags (str "user=ada,uid=1000,ro,suid,nofail,metadata") in
  StringOptions r = str "uid=1000,metadata" /\ MountFlags r = 13 /\ NoFail r = true.
Proof.
  destruct (mount_options_equal_reference
    [str "user=ada"; str "uid=1000"; str "ro"; str "suid"; str "nofail"; str "metadata"]) as (H1 & _ & H3 & _).
  - unfold option_ok. apply (bool_decide_unpack _). vm_compute. exact I.
  - split; [exact H1|split; [vm_compute; reflexivity|exact H3]].
Defined.

(** An empty option in front is dropped, one in the middle is kept, one at the end
    is dropped. *)
Example empty_options :
  map (fun o => StringOptions (MountParseFlags (str o))) [",a"; "a,,b"; "a,"]%string
  = [str "a"; str "a,,b"; str "a"].
Proof. reflexivity. Qed.

(** Only a missing source is forgiven: with a missing target the error stays. *)
Example nofail_needs_a_target :
  map (fun there => MountFilesystem (fun _ _ => ENOENT) there (str "nofail")) [true; false] = [0; ENOENT].
Proof. reflexivity. Qed.
End MountFlagsThm.
