(* ===== verification/WinPath.v ===== *)
(** Translation between Linux and Windows paths: the mounts that a path is on
    (src/src/linux/init/util.cpp), wslpath (src/src/linux/init/wslpath.cpp), and the
    path lists of WSLENV.  Strings that C code edits in place keep their length, so
    a std::string may hold a NUL and what is left after it. *)
From S2P Require Import Prelude CStr CNum MountInfo MountFlags EscapePath.
Import MountInfo EscapePath.

Module WinPath.

Definition DRIVE_SEP_NT : Z := 58.
Definition PLAN9_UNC_PREFIX : bytes := [92; 92].
Definition PLAN9_UNC_TRANSLATED_PREFIX : bytes := str "UNC" ++ [92].
Definition PLAN9_RDR_PREFIX : bytes := [92; 92] ++ str "wsl.localhost" ++ [92].
Definition PLAN9_RDR_COMPAT_PREFIX : bytes := [92; 92] ++ str "wsl$" ++ [92].

(** * Strings *)
Definition StartsWith (s prefix : bytes) (CaseInsensitive : bool) : bool :=
  let t := take (length prefix) s in
  if CaseInsensitive then strcasecmp_eq t prefix else list_eqb t prefix.

(** A std::string after C code wrote the shorter [new] over its [old] content. *)
Definition written_over (old new : bytes) : bytes :=
  if (length new <? length old)%nat then new ++ 0 :: drop (S (length new)) old else new.

(** std::string_view::find. *)
Fixpoint find (sub s : bytes) : option nat :=
  if StartsWith s sub false then Some O
  else match s with [] => None | _ :: s' => option_map S (find sub s') end.

(** The tokens of strtok_r. *)
Fixpoint tokens_go (fuel : nat) (sep : Z) (s : bytes) : list bytes :=
  match fuel with
  | O => []
  | S fuel' => match next_token sep s with Some (t, rest) => t :: tokens_go fuel' sep rest | None => [] end
  end.
Definition tokens (sep : Z) (s : bytes) : list bytes := tokens_go (length s) sep s.

Definition char_at (s : bytes) (n : nat) : Z := nth n s 0.

(** [n] characters are written, the last of them [prev]. *)
Fixpoint canonicalise (Separator : Z) (path : bytes) (n : nat) (prev : Z) : bytes :=
  match path with
  | [] => []
  | c :: path' =>
    if (c =? PATH_SEP) || (c =? PATH_SEP_NT) then
      if (1 <? n)%nat && (prev =? Separator) then canonicalise Separator path' n prev
      else Separator :: canonicalise Separator path' (S n) Separator
    else c :: canonicalise Separator path' (S n) c
  end.
Definition UtilCanonicalisePathSeparator (path : bytes) (Separator : Z) : bytes := canonicalise Separator path 0 0.

Definition is_sep (c : Z) : bool := (c =? PATH_SEP_NT) || (c =? PATH_SEP).
Definition UtilIsAbsoluteWindowsPath (path : bytes) : bool :=
  (3 <=? length path)%nat &&
  ((is_sep (char_at path 0) && is_sep (char_at path 1)) || (isalpha (char_at path 0) && (char_at path 1 =? DRIVE_SEP_NT))).

Definition UtilIsPathPrefix (path prefix : bytes) (WinPath : bool) : nat :=
  let Separator := if WinPath then PATH_SEP_NT else PATH_SEP in
  if (length path <? length prefix)%nat ||
     ((length prefix <? length path)%nat && negb (char_at path (length prefix) =? Separator)) then O
  else if StartsWith path prefix WinPath then length prefix else O.

(** * The source of a mount *)

(** The options up to the one of a DrvFs share. *)
Fixpoint plan9_source (fuel : nat) (MountOptions : bytes) : bytes :=
  match fuel, MountOptions with
  | S fuel', _ :: _ =>
    let '(Current, rest) := MountFlags.NextToken MountOptions c_comma in
    if StartsWith Current (str "aname=drvfs") false then
      match find (str "path=") Current with
      | None => []
      | Some Index =>
        let MountSource := fst (MountFlags.NextToken (drop (Index + 5) Current) c_semi) in
        if (1 <? length MountSource)%nat && isalpha (char_at MountSource 0) && (char_at MountSource 1 =? DRIVE_SEP_NT)
        then UtilCanonicalisePathSeparator MountSource PATH_SEP_NT
        else if StartsWith MountSource PLAN9_UNC_TRANSLATED_PREFIX false
        then UtilCanonicalisePathSeparator (PLAN9_UNC_PREFIX ++ drop 4 MountSource) PATH_SEP_NT
        else []
      end
    else plan9_source fuel' rest
  | _, _ => []
  end.
Definition UtilParsePlan9MountSource (MountOptions : bytes) : bytes := plan9_source (S (length MountOptions)) MountOptions.

Definition UtilParseVirtiofsMountSource (Source : bytes) : bytes :=
  if StartsWith Source (str "drvfsa") false && (7 <=? length Source)%nat then [char_at Source 6; DRIVE_SEP_NT]
  else if StartsWith Source (str "drvfs") false && (6 <=? length Source)%nat then [char_at Source 5; DRIVE_SEP_NT]
  else [].

Definition strip_backslash (s : bytes) : bytes :=
  if negb (is_empty s) && (List.last s 0 =? PATH_SEP_NT) then removelast s else s.

(** The Windows path that is mounted; [None] for other file systems. *)
Definition mount_source (e : MOUNT_ENTRY) : option bytes :=
  let source :=
    if strcmp_eq (FileSystemType e) (str "9p") then
      let s := UtilParsePlan9MountSource (SuperOptions e) in if is_empty s then None else Some s
    else if strcmp_eq (FileSystemType e) (str "virtiofs") then
      let s := UtilParseVirtiofsMountSource (Source e) in if is_empty s then None else Some s
    else if strcmp_eq (FileSystemType e) (str "drvfs") then
      Some (UtilCanonicalisePathSeparator (Source e) PATH_SEP_NT)
    else None in
  match source with
  | None => None
  | Some s =>
    let s := strip_backslash s in
    Some (if strcmp_eq (Root e) (str "/") then s else UtilCanonicalisePathSeparator (s ++ Root e) PATH_SEP_NT)
  end.

(** What was found so far: the replacement and the length of the prefix. *)
Definition find_step (path : bytes) (WinPath : bool) (found : bytes * nat) (e : MOUNT_ENTRY) : bytes * nat :=
  let '(FoundReplacement, FoundPrefixLength) := found in
  let LinuxPath := if WinPath then FoundReplacement else path in
  let FoundReplacement :=
    if negb (is_empty FoundReplacement) && (0 <? UtilIsPathPrefix LinuxPath (MountPoint e) false)%nat
    then [] else FoundReplacement in
  match mount_source e with
  | None => (FoundReplacement, FoundPrefixLength)
  | Some source =>
    let Length := UtilIsPathPrefix path (if WinPath then source else MountPoint e) WinPath in
    if (Length =? 0)%nat || (WinPath && (Length <? FoundPrefixLength)%nat) then (FoundReplacement, FoundPrefixLength)
    else (if WinPath then MountPoint e else source, Length)
  end.
(** [mountinfo] is [None] when the file cannot be opened. *)
Definition UtilFindMount (mountinfo : option (list bytes)) (path : bytes) (WinPath : bool) : bytes * nat :=
  match mountinfo with
  | None => ([], O)
  | Some lines => foldl (find_step path WinPath) ([], O) (enumerate (S (length lines)) lines no_entry)
  end.

(** * Absolute paths *)

(** What the system says: mounts, WSL_DISTRO_NAME, getcwd, realpath. *)
Inductive realpath_result : Type := R_path (p : bytes) | R_enoent | R_failed.
Record env : Type := mk_env {
  mountinfo : option (list bytes); distro : bytes; getcwd : option bytes; realpath : bytes -> realpath_result
}.

Definition UtilWinPathTranslateInternal (v : env) (path : bytes) (Reverse : bool) : bytes :=
  if is_empty (distro v) then []
  else
    let Prefix := PLAN9_RDR_PREFIX ++ distro v in
    if negb Reverse then Prefix ++ EscapePathForNt path
    else
      let CompatPrefix := PLAN9_RDR_COMPAT_PREFIX ++ distro v in
      let rest :=
        if StartsWith path Prefix true then Some (drop (length Prefix) path)
        else if StartsWith path CompatPrefix true then Some (drop (length CompatPrefix) path)
        else None in
      match rest with
      | None => []
      | Some [] => [PATH_SEP]
      | Some p =>
        let q := written_over p (UtilCanonicalisePathSeparator p PATH_SEP) in
        written_over q (unescape_scan (to_cstr q))
      end.

Definition UtilWinPathTranslate (v : env) (path : bytes) (Reverse : bool) : bytes :=
  let '(PrefixReplacement, PrefixLength) := UtilFindMount (mountinfo v) path Reverse in
  if is_empty PrefixReplacement then UtilWinPathTranslateInternal v path Reverse
  else
    let Suffix := drop PrefixLength path in
    let drive := is_empty Suffix && (length PrefixReplacement =? 2)%nat && (char_at PrefixReplacement 1 =? DRIVE_SEP_NT) in
    PrefixReplacement ++
      (if negb Reverse && drive then [PATH_SEP_NT]
       else if negb Reverse && negb (EscapePathForNtLength Suffix =? Z.of_nat (length Suffix)) then EscapePathForNt Suffix
       else written_over Suffix (UtilCanonicalisePathSeparator Suffix (if Reverse then PATH_SEP else PATH_SEP_NT))).

(** The last occurrence of a byte (memrchr). *)
Fixpoint memrchr (c : Z) (s : bytes) : option nat :=
  match s with
  | [] => None
  | x :: s' =>
    match memrchr c s' with
    | Some i => Some (S i)
    | None => if x =? c then Some O else None
    end
  end.

(** The loop over the segments from the right; [buf] is the string with its
    terminator.  What the removal moves is the rest of the buffer from LastSegment. *)
Fixpoint collapse_go (fuel : nat) (Separator : Z) (buf : bytes) (Remaining LastSegment RemoveSegmentCount : nat) :
    bytes * nat :=
  match fuel, Remaining with
  | S fuel', S _ =>
    match memrchr Separator (take Remaining buf) with
    | None => (buf, RemoveSegmentCount)
    | Some NextSeparator =>
      let Segment := S NextSeparator in
      let SegmentLength := (Remaining - Segment)%nat in
      let text := take SegmentLength (drop Segment buf) in
      if list_eqb text (str "..") then
        collapse_go fuel' Separator buf NextSeparator LastSegment (S RemoveSegmentCount)
      else
        let RemoveSegmentCount :=
          if (RemoveSegmentCount =? 0)%nat && (is_empty text || list_eqb text (str ".")) then 1%nat else RemoveSegmentCount in
        if (0 <? RemoveSegmentCount)%nat then
          let moved := drop LastSegment buf in
          collapse_go fuel' Separator (take Segment buf ++ moved ++ drop (Segment + length moved) buf)
            NextSeparator Segment (RemoveSegmentCount - 1)
        else collapse_go fuel' Separator buf NextSeparator Segment 0
    end
  | _, _ => (buf, RemoveSegmentCount)
  end.
(** [None]: more .. than segments. *)
Definition CollapsePath (path : bytes) (Separator : Z) : option bytes :=
  let '(buf, count) := collapse_go (S (length path)) Separator (path ++ [0]) (length path) (length path) 0 in
  if (count =? 0)%nat then Some (to_cstr buf) else None.

(** The absolute path, and whether it was relative. *)
Definition AbsolutePath (v : env) (path : bytes) : option (bytes * bool) :=
  if char_at path 0 =? PATH_SEP then option_map (fun p => (p, false)) (CollapsePath path PATH_SEP)
  else
    match getcwd v with
    | None => None
    | Some cwd => option_map (fun p => (p, true)) (CollapsePath (cwd ++ PATH_SEP :: path) PATH_SEP)
    end.

Definition AbsoluteWindowsPath (RelativePath Cwd : bytes) : option bytes :=
  if char_at RelativePath 0 =? PATH_SEP_NT then
    if negb (isalpha (char_at Cwd 0)) || negb (char_at Cwd 1 =? DRIVE_SEP_NT) then None
    else Some (take 2 Cwd ++ RelativePath)
  else Some (Cwd ++ PATH_SEP_NT :: RelativePath).

Definition DosToCanonicalPath (v : env) (path : bytes) : option (bytes * bool) :=
  let absolute :=
    if UtilIsAbsoluteWindowsPath path then Some (path, false)
    else
      match getcwd v with
      | None => None
      | Some cwd =>
        let Cwd := to_cstr (UtilWinPathTranslate v cwd false) in
        if is_empty Cwd then None else option_map (fun p => (p, true)) (AbsoluteWindowsPath path Cwd)
      end in
  match absolute with
  | None => None
  | Some (path, Relative) =>
    let at_ n := char_at path n in
    let collapse start keep :=
      let SuffixString := drop start path in
      option_map (fun p => (take keep SuffixString ++ p, Relative)) (CollapsePath (drop keep SuffixString) PATH_SEP_NT) in
    if (length path <? 2)%nat then None
    else if (at_ 1%nat =? DRIVE_SEP_NT) && (at_ 2%nat =? PATH_SEP_NT) then collapse 0%nat 0%nat
    else if (at_ 0%nat =? PATH_SEP_NT) && (at_ 1%nat =? PATH_SEP_NT) then
      if (at_ 2%nat =? c_quest) && (at_ 3%nat =? PATH_SEP_NT) then collapse 4%nat 0%nat else collapse 0%nat 2%nat
    else None
  end.

(** * wslpath *)
Inductive mode : Type := M_unix | M_windows | M_mixed.

(** Back to a relative path when the result is below the directory. *)
Definition relative_to (OutputCwd TranslatedPath : bytes) : bytes :=
  let n := length OutputCwd in
  if list_eqb (take n (to_cstr TranslatedPath)) OutputCwd then
    let c := char_at TranslatedPath n in
    if is_sep c then
      if (n + 1 =? length TranslatedPath)%nat then str "." else drop (n + 1) TranslatedPath
    else if c =? 0 then drop n TranslatedPath
    else TranslatedPath
  else TranslatedPath.

(** The empty string is the failure. *)
Definition WslPathTranslate (v : env) (path : bytes) (Absolute ResolveSymlinks : bool) (Mode : mode) : bytes :=
  match getcwd v with
  | None => []
  | Some cwd =>
    let canonical :=
      match Mode with
      | M_unix => option_map (fun '(p, r) => (p, r, Some cwd)) (DosToCanonicalPath v (UtilCanonicalisePathSeparator path PATH_SEP_NT))
      | _ =>
        let resolved :=
          if ResolveSymlinks then
            match realpath v path with
            | R_path p =>
              Some (if negb (is_empty path) && (List.last path 0 =? PATH_SEP) then p ++ [PATH_SEP] else p)
            | R_enoent => Some path
            | R_failed => None
            end
          else Some path in
        match resolved with
        | None => None
        | Some p =>
          option_map (fun '(p, r) =>
            (p, r, if r && negb Absolute then
                     let w := UtilWinPathTranslate v cwd false in if is_empty w then None else Some (to_cstr w)
                   else Some cwd)) (AbsolutePath v p)
        end
      end in
    match canonical with
    | None => []
    | Some (p, Relative, OutputCwd) =>
      let t := if is_empty p then [] else UtilWinPathTranslate v p (match Mode with M_unix => true | _ => false end) in
      if is_empty t then []
      else
        let t := if Relative && negb Absolute then match OutputCwd with Some c => relative_to c t | None => t end else t in
        match Mode with M_mixed => UtilCanonicalisePathSeparator (to_cstr t) PATH_SEP | _ => t end
    end
  end.

(** * Path lists and WSLENV *)
Definition translate_element (v : env) (IsNtPathList : bool) (path : bytes) : option bytes :=
  if IsNtPathList && negb (UtilIsAbsoluteWindowsPath path) then None
  else
    let t := WslPathTranslate v path false false (if IsNtPathList then M_unix else M_windows) in
    if is_empty t then None else Some t.

(** [None] when nothing could be translated. *)
Definition UtilTranslatePathList (v : env) (PathList : bytes) (IsNtPathList : bool) : option bytes :=
  let '(source, target) := if IsNtPathList then (c_semi, c_colon) else (c_colon, c_semi) in
  let l := join target (omap (translate_element v IsNtPathList) (tokens source PathList)) in
  if is_empty l then None else Some l.

(** An environment block: name=value strings. *)
Fixpoint UtilGetEnv (Name : bytes) (Environment : list bytes) : option bytes :=
  match Environment with
  | [] => None
  | [] :: _ => None
  | Current :: Environment' =>
    if list_eqb (take (length Name) Current) Name && (char_at Current (length Name) =? 61)
    then Some (drop (length Name + 1) Current)
    else UtilGetEnv Name Environment'
  end.

(** The flags of an entry: the mode (0, p or l) and whether it is skipped. *)
Fixpoint wslenv_flags (Reverse : bool) (flags : bytes) (Mode : Z) (Skip : bool) : Z * bool :=
  match flags with
  | [] => (Mode, Skip)
  | f :: flags' =>
    if (f =? 112) || (f =? 108) then
      if negb (Mode =? 0) && negb (Mode =? 112) && negb (Mode =? 108) then wslenv_flags Reverse flags' Mode true
      else wslenv_flags Reverse flags' f Skip
    else if f =? 117 then wslenv_flags Reverse flags' Mode (Skip || negb Reverse)
    else if f =? 119 then wslenv_flags Reverse flags' Mode (Skip || Reverse)
    else wslenv_flags Reverse flags' Mode true
  end.

(** One entry of WSLENV; [None] when it adds nothing. *)
Definition wslenv_entry (v : env) (getenv : bytes -> option bytes) (Reverse : bool) (entry : bytes) : option bytes :=
  let '(EnvName, flags) := match strchr c_slash entry with Some (n, f) => (n, f) | None => (entry, []) end in
  let '(Mode, Skip) := wslenv_flags Reverse flags 0 false in
  if Skip then None
  else
    match getenv EnvName with
    | None => Some (EnvName ++ [61])
    | Some value =>
      if Mode =? 0 then Some (EnvName ++ 61 :: value)
      else option_map (fun t => EnvName ++ 61 :: t) (UtilTranslatePathList v value Reverse)
    end.

Definition trim_end (s : bytes) : bytes := rev (drop_while isspace (rev s)).

(** The block: WSLENV itself, the entries, each with its terminator, and one more.
    [NtEnvironment] is [None] for the process's own environment. *)
Definition UtilParseWslEnv (v : env) (own : bytes -> option bytes) (NtEnvironment : option (list bytes)) : bytes :=
  let Reverse := match NtEnvironment with Some _ => true | None => false end in
  let getenv n := match NtEnvironment with Some e => UtilGetEnv n e | None => own n end in
  let EnvList := getenv (str "WSLENV") in
  str "WSLENV=" ++ default [] EnvList ++ [0] ++
  match EnvList with
  | Some l => flat_map (fun s => s ++ [0]) (omap (wslenv_entry v getenv Reverse) (tokens c_colon (trim_end l)))
  | None => []
  end ++ [0].
End WinPath.
