(* ===== verification/WinPathThm.v ===== *)
(** Theorems on path translation: the mount that a path is on (WinPathThm),
    collapsing and canonicalising (CollapseThm), and the way to a Windows path and
    back (WinPathTripThm). *)
From S2P Require Import Prelude CStr CNum EscapePath MountInfoThm MountInfo MountFlags WinPath.

Import MountInfo EscapePath WinPath.

Module WinPathThm.

(** * The mount of a path *)
Section Mounts.
Context (path : bytes).

Definition on_mount (e : MOUNT_ENTRY) : bool := (0 <? UtilIsPathPrefix path (MountPoint e) false)%nat.
(** The last mount that the path is on: newer mounts hide older ones. *)
Definition last_mount (mounts : list MOUNT_ENTRY) : option MOUNT_ENTRY := last (filter (fun e => on_mount e = true) mounts).

Lemma prefix_length p prefix win : UtilIsPathPrefix p prefix win = O \/ UtilIsPathPrefix p prefix win = length prefix.
Proof. unfold UtilIsPathPrefix. case_if; [by left|]. case_if; [by right|by left]. Qed.

Lemma last_mount_snoc mounts e :
  last_mount (mounts ++ [e]) = if on_mount e then Some e else last_mount mounts.
Proof.
  unfold last_mount. rewrite filter_app. destruct (on_mount e) eqn:E.
  - rewrite filter_cons_True by done. apply last_snoc.
  - rewrite filter_cons_False by (by rewrite E). by rewrite app_nil_r.
Qed.

Lemma find_step_linux found e :
  let r := find_step path false found e in
  fst r = (if on_mount e then default [] (mount_source e) else fst found) /\
  (on_mount e = true -> is_empty (fst r) = false -> snd r = length (MountPoint e)) /\
  (on_mount e = false -> snd r = snd found).
Proof.
  destruct found as [F n]. unfold find_step, on_mount. cbn [fst snd].
  destruct (prefix_length path (MountPoint e) false) as [H|H]; rewrite H.
  - rewrite andb_false_r. destruct (mount_source e); done.
  - destruct (mount_source e) as [s|]; destruct (length (MountPoint e)) eqn:El.
    1, 3: by rewrite andb_false_r.
    + cbn [Nat.eqb orb andb]. change (0 <? S n0)%nat with true. done.
    + change (0 <? S n0)%nat with true. destruct F; cbn [is_empty negb andb fst snd]; (split; [done|split; [done|congruence]]).
Qed.

(** Linux to Windows: the source of the last mount that the path is on. *)
Lemma find_mount_fold mounts :
  let r := foldl (find_step path false) ([], O) mounts in
  match last_mount mounts with
  | None => r = ([], O)
  | Some e => fst r = default [] (mount_source e) /\ (is_empty (fst r) = false -> snd r = length (MountPoint e))
  end.
Proof.
  cbv zeta. induction mounts as [|e mounts IH] using rev_ind; [done|].
  rewrite foldl_app, last_mount_snoc. cbn [foldl].
  pose proof (find_step_linux (foldl (find_step path false) ([], O) mounts) e) as (H1 & H2 & H3).
  destruct (on_mount e).
  - split; [exact H1|]. by apply H2.
  - specialize (H3 eq_refl). destruct (last_mount mounts) as [e'|].
    + rewrite H1, H3. exact IH.
    + rewrite IH in *. by rewrite (surjective_pairing (find_step _ _ _ _)), H1, H3.
Qed.
End Mounts.

(** Windows to Linux. *)
Definition win_match (path : bytes) (e : MOUNT_ENTRY) : nat :=
  match mount_source e with Some s => UtilIsPathPrefix path s true | None => O end.
(** No mount is made over an earlier one. *)
Fixpoint unshadowed (mounts : list MOUNT_ENTRY) : bool :=
  match mounts with
  | [] => true
  | e :: mounts' => forallb (fun e' => (UtilIsPathPrefix (MountPoint e) (MountPoint e') false =? 0)%nat) mounts' && unshadowed mounts'
  end.

(** The last of the mounts with the longest match. *)
Definition best_match (path : bytes) (mounts : list MOUNT_ENTRY) (r : bytes * nat) : Prop :=
  (r = ([], O) /\ Forall (fun e => win_match path e = O) mounts) \/
  (exists pre e post, mounts = pre ++ e :: post /\ r = (MountPoint e, win_match path e) /\ (0 < win_match path e)%nat /\
     Forall (fun e' => (win_match path e' <= win_match path e)%nat) pre /\
     Forall (fun e' => (win_match path e' < win_match path e)%nat) post).

Lemma unshadowed_app pre e post : unshadowed (pre ++ e :: post) = true ->
  Forall (fun e' => UtilIsPathPrefix (MountPoint e) (MountPoint e') false = O) post /\ unshadowed pre = true.
Proof.
  induction pre as [|x pre IH]; cbn [app unshadowed]; rewrite andb_true_iff; intros [H1 H2].
  - split; [|done]. apply Forall_forall. intros y Hy%list_elem_of_In. rewrite forallb_forall in H1. by apply Nat.eqb_eq, H1.
  - apply IH in H2 as [H2 H3]. rewrite forallb_app, andb_true_iff in H1. rewrite H3. by destruct H1 as [-> _].
Qed.
Lemma unshadowed_snoc mounts e : unshadowed (mounts ++ [e]) = true -> unshadowed mounts = true.
Proof. by intros [_ ?]%unshadowed_app. Qed.

(** The last step of the walk, which nothing discards. *)
Lemma find_step_windows path found e :
  is_empty (fst found) = true \/ UtilIsPathPrefix (fst found) (MountPoint e) false = O ->
  find_step path true found e =
    if (win_match path e =? 0)%nat || (win_match path e <? snd found)%nat then found else (MountPoint e, win_match path e).
Proof.
  destruct found as [F n]. unfold find_step, win_match. cbn [fst snd]. intros H.
  assert ((if negb (is_empty F) && (0 <? UtilIsPathPrefix F (MountPoint e) false)%nat then [] else F) = F) as ->.
  { destruct H as [H|H]; rewrite H; [done|by rewrite andb_false_r]. }
  destruct (mount_source e) as [s|]; [|done]. by rewrite andb_true_l.
Qed.

Lemma find_windows_fold path mounts : unshadowed mounts = true ->
  best_match path mounts (foldl (find_step path true) ([], O) mounts).
Proof.
  induction mounts as [|e mounts IH] using rev_ind; intros Hu; [by left|].
  rewrite foldl_app. cbn [foldl]. specialize (IH (unshadowed_snoc _ _ Hu)).
  set (found := foldl _ _ _) in *. clearbody found.
  rewrite find_step_windows.
  2:{ destruct IH as [[-> _]|(pre & x & post & -> & -> & _)]; [by left|right].
      rewrite <- app_assoc in Hu. apply unshadowed_app in Hu as [Hu _]. cbn [fst].
      apply Forall_app in Hu as [_ Hu]. by inversion Hu. }
  destruct IH as [[-> H0]|(pre & x & post & -> & -> & Hx & H1 & H2)]; cbn [fst snd].
  - destruct (Nat.eqb_spec (win_match path e) 0) as [E|E]; cbn [orb].
    + left. split; [done|]. apply Forall_app. split; [done|by repeat constructor].
    + right. exists mounts, e, []. split_and!; [done|done|lia| |done].
      eapply Forall_impl_hint; [exact H0|]. intros. cbn in *. lia.
  - destruct ((win_match path e =? 0)%nat || (win_match path e <? win_match path x)%nat) eqn:E; right.
    + exists pre, x, (post ++ [e]). rewrite <- app_assoc. split_and!; try done. apply Forall_app. split; [done|].
      repeat constructor. apply orb_true_iff in E as [E|E]; [apply Nat.eqb_eq in E|apply Nat.ltb_lt in E]; lia.
    + exists (pre ++ x :: post), e, []. apply orb_false_iff in E as [E1%Nat.eqb_neq E2%Nat.ltb_ge].
      split_and!; [by rewrite <- app_assoc|done|lia| |done].
      apply Forall_app. split; [|constructor]; try lia.
      * eapply Forall_impl_hint; [exact H1|]. cbn. intros. lia.
      * eapply Forall_impl_hint; [exact H2|]. cbn. intros. lia.
Qed.

(** The mount that a path is on.  From Linux it is the last mount whose mount
    point is a prefix of the path: its Windows source, or nothing when that mount
    has none.  From Windows, as long as no mount is made over an earlier one, it
    is the last of the mounts whose source is a longest prefix of the path. *)
Theorem mount_of_path lines path :
  let mounts := enumerate (S (length lines)) lines no_entry in
  (let '(replacement, n) := UtilFindMount (Some lines) path false in
   match last_mount path mounts with
   | None => replacement = [] /\ n = O
   | Some e => replacement = default [] (mount_source e) /\
               (is_empty replacement = false -> n = length (MountPoint e))
   end) /\
  (unshadowed mounts = true -> best_match path mounts (UtilFindMount (Some lines) path true)).
Proof.
  cbv zeta. unfold UtilFindMount. set (mounts := enumerate _ _ _). clearbody mounts. split; [|apply find_windows_fold].
  pose proof (find_mount_fold path mounts) as H. cbv zeta in H. destruct (foldl _ _ _) as [r n].
  destruct (last_mount path mounts); [exact H|by injection H].
Qed.

(** Two drives, a folder of one of them, and a file system of Linux over a folder. *)
Definition ex_mounts : list bytes :=
  [str "25 1 0:30 / /mnt/c rw - drvfs C:\ rw"; str "26 1 0:31 / /mnt/d rw - drvfs D: rw";
   str "27 1 0:30 /data /data rw - drvfs C:\ rw"; str "28 1 0:32 / /mnt/c/tmp rw - tmpfs tmpfs rw"].
Lemma mount_of_path_witness :
  let mounts := enumerate (S (length ex_mounts)) ex_mounts no_entry in
  UtilFindMount (Some ex_mounts) (str "/mnt/c/Users") false = (str "C:", 6%nat) /\
  fst (UtilFindMount (Some ex_mounts) (str "/mnt/c/tmp/x") false) = [] /\
  unshadowed mounts = true /\ best_match (str "c:\data\x") mounts (str "/data", 7%nat).
Proof.
  cbv zeta. assert (unshadowed (enumerate (S (length ex_mounts)) ex_mounts no_entry) = true) as Hu by (vm_compute; reflexivity).
  assert (UtilFindMount (Some ex_mounts) (str "c:\data\x") true = (str "/data", 7%nat)) as <- by (vm_compute; reflexivity).
  split_and!; [vm_compute; reflexivity|vm_compute; reflexivity|exact Hu|].
  destruct (mount_of_path ex_mounts (str "c:\data\x")) as [_ H]. apply H. exact Hu.
Defined.

(** When the best match is hidden by a later mount, its length still counts, and a
    later mount that does reach the path is passed over. *)
Example hidden_match_hides_others :
  let lines := [str "26 1 0:31 / /mnt/d/data rw - drvfs C:\data rw"; str "27 1 0:32 / /mnt/d rw - tmpfs tmpfs rw";
                str "28 1 0:30 / /mnt/c rw - drvfs C:\ rw"] in
  UtilFindMount (Some lines) (str "C:\data\x") true = ([], 7%nat) /\
  UtilFindMount (Some (drop 1 lines)) (str "C:\data\x") true = (str "/mnt/c", 2%nat).
Proof. vm_compute. done. Qed.

(** * The flags of WSLENV *)
Definition is_mode (f : Z) : bool := (f =? 112) || (f =? 108).
(** Whether a flag keeps the variable from being passed on in this direction. *)
Definition refuses (Reverse : bool) (f : Z) : bool :=
  negb (is_mode f) && (if f =? 117 then negb Reverse else if f =? 119 then Reverse else true).

Lemma wslenv_flags_go Reverse flags : forall Mode Skip, Mode = 0 \/ is_mode Mode = true ->
  wslenv_flags Reverse flags Mode Skip =
    (default Mode (last (List.filter is_mode flags)), Skip || existsb (refuses Reverse) flags).
Proof.
  induction flags as [|f flags IH]; intros Mode Skip HM; cbn [wslenv_flags List.filter existsb]; [by rewrite orb_false_r|].
  unfold refuses at 1. fold (is_mode f). destruct (is_mode f) eqn:Ef; cbn [negb andb orb].
  - replace (negb (Mode =? 0) && negb (Mode =? 112) && negb (Mode =? 108)) with false.
    2:{ destruct HM as [-> |HM]; [done|]. unfold is_mode in HM. destruct (Mode =? 112), (Mode =? 108); by rewrite ?andb_false_r. }
    rewrite IH by by right. f_equal. rewrite last_cons. by destruct (last _).
  - destruct (f =? 117); [|destruct (f =? 119)]; rewrite IH by done; f_equal; by rewrite orb_assoc, ?orb_true_r.
Qed.

(** A variable of WSLENV is passed on unless one of its flags names the other
    direction or is unknown, and the last of its p and l says how. *)
Theorem wslenv_flags_spec Reverse flags :
  wslenv_flags Reverse flags 0 false =
    (default 0 (last (List.filter is_mode flags)), existsb (refuses Reverse) flags).
Proof. rewrite wslenv_flags_go by by left. done. Qed.
End WinPathThm.

Import WinPath.

Module CollapseThm.

(** * Segments *)
Definition dotdot : bytes := str "..".
Definition is_dot (s : bytes) : bool := is_empty s || list_eqb s (str ".").

(** The text of segments: a separator before each of them. *)
Definition text (sep : Z) (segs : list bytes) : bytes := flat_map (fun s => sep :: s) segs.
(** A segment, or what is before the first separator. *)
Definition plain (sep : Z) (s : bytes) : Prop := Forall (fun c => c <> sep /\ c <> 0) s.

(** The walk from the right over segments: [kept] is what stays so far, [count]
    the segments that are still to be removed.  The last segment leaves its
    separator when it is removed. *)
Fixpoint collapse (rsegs kept : list bytes) (count : nat) : list bytes * nat :=
  match rsegs with
  | [] => (kept, count)
  | s :: rsegs' =>
    if list_eqb s dotdot then collapse rsegs' kept (S count)
    else
      let count := if (count =? 0)%nat && is_dot s then 1%nat else count in
      if (0 <? count)%nat then collapse rsegs' (match kept with [] => [[]] | _ => kept end) (count - 1)
      else collapse rsegs' (s :: kept) 0
  end.

(** * The loop on the buffer is the walk over the segments *)
Lemma memrchr_none c s : Forall (fun x => x <> c) s -> memrchr c s = None.
Proof. induction 1 as [|x s Hx _ IH]; [done|]. cbn [memrchr]. rewrite IH. by rewrite (proj2 (Z.eqb_neq _ _) Hx). Qed.
Lemma memrchr_last c a s : Forall (fun x => x <> c) s -> memrchr c (a ++ c :: s) = Some (length a).
Proof.
  intros Hs. induction a as [|x a IH]; cbn [app memrchr length]; [|by rewrite IH].
  rewrite memrchr_none by done. by rewrite Z.eqb_refl.
Qed.

Lemma plain_sep sep s : plain sep s -> Forall (fun c => c <> sep) s.
Proof. intros H. eapply Forall_impl_hint; [exact H|]. by intros c [? _]. Qed.
Lemma plain_no_nul sep s : plain sep s -> no_nul s.
Proof. intros H. eapply Forall_impl_hint; [exact H|]. by intros c [_ ?]. Qed.

Lemma text_snoc sep l s : text sep (l ++ [s]) = text sep l ++ sep :: s.
Proof. unfold text. rewrite flat_map_app. cbn [flat_map]. by rewrite app_nil_r. Qed.

Section Walk.
Context (sep : Z) (head : bytes) (Hhead : plain sep head).

(** The kept text without its first separator. *)
Definition kept_text (kept : list bytes) : bytes := drop 1 (text sep kept).

(** The buffer while the segments [pre] are left: what was passed over since the
    last removal lies in [gap]. *)
Definition shape (pre : list bytes) (gap : bytes) (kept : list bytes) (junk buf : bytes) (Remaining LastSegment : nat) : Prop :=
  buf = (head ++ text sep pre) ++ gap ++ kept_text kept ++ 0 :: junk /\
  Remaining = length (head ++ text sep pre) /\ LastSegment = length ((head ++ text sep pre) ++ gap).

Lemma kept_text_cons s kept : kept_text (s :: kept) = s ++ text sep kept.
Proof. done. Qed.
Lemma kept_text_text kept : kept <> [] -> sep :: kept_text kept = text sep kept.
Proof. by destruct kept. Qed.

(** What removing a segment does to the buffer. *)
Lemma removed_buffer pre s gap kept junk :
  let buf := (head ++ text sep (pre ++ [s])) ++ gap ++ kept_text kept ++ 0 :: junk in
  let Segment := S (length (head ++ text sep pre)) in
  let moved := drop (length ((head ++ text sep (pre ++ [s])) ++ gap)) buf in
  exists junk', take Segment buf ++ moved ++ drop (Segment + length moved) buf =
    (head ++ text sep pre) ++ [sep] ++ kept_text (match kept with [] => [[]] | _ => kept end) ++ 0 :: junk'.
Proof.
  cbv zeta. set (K := kept_text kept ++ 0 :: junk).
  assert (drop (length ((head ++ text sep (pre ++ [s])) ++ gap)) ((head ++ text sep (pre ++ [s])) ++ gap ++ K) = K) as ->.
  { by rewrite app_assoc, drop_app_length. }
  assert (take (S (length (head ++ text sep pre))) ((head ++ text sep (pre ++ [s])) ++ gap ++ K) = (head ++ text sep pre) ++ [sep]) as ->.
  { rewrite text_snoc, (app_assoc head), <- (app_assoc (head ++ text sep pre)).
    change ((sep :: s) ++ gap ++ K) with ([sep] ++ s ++ gap ++ K). rewrite (app_assoc (head ++ text sep pre)).
    by rewrite take_app_length' by (rewrite (length_app _ [sep]); cbn [length]; lia). }
  exists (junk ++ drop (S (length (head ++ text sep pre)) + length K) ((head ++ text sep (pre ++ [s])) ++ gap ++ K)).
  subst K. rewrite <- !app_assoc. destruct kept; done.
Qed.

(** The segment that the loop finds. *)
Lemma found_segment pre s gap K : plain sep s ->
  let buf := (head ++ text sep (pre ++ [s])) ++ gap ++ K in
  let n := length (head ++ text sep pre) in
  length (head ++ text sep (pre ++ [s])) = S (n + length s) /\
  memrchr sep (take (S (n + length s)) buf) = Some n /\ take (length s) (drop (S n) buf) = s.
Proof.
  intros Hs. cbv zeta. rewrite text_snoc, (app_assoc head). set (b := head ++ text sep pre).
  assert (length (b ++ sep :: s) = S (length b + length s)) as Hlen by (rewrite length_app; cbn [length]; lia).
  split_and!; [done| |].
  - rewrite <- Hlen, take_app_length. apply memrchr_last. by apply plain_sep.
  - rewrite <- (app_assoc b). change ((sep :: s) ++ ?x) with ([sep] ++ s ++ x). rewrite (app_assoc b).
    rewrite drop_app_length' by (rewrite (length_app _ [sep]); cbn [length]; lia). by apply take_app_length.
Qed.

Lemma walk_buffer pre : Forall (plain sep) pre -> forall fuel gap kept junk count buf r l,
  (length pre < fuel)%nat -> shape pre gap kept junk buf r l ->
  (count = O -> gap ++ kept_text kept = text sep kept) ->
  exists junk' gap', let '(kept', count') := collapse (rev pre) kept count in
    collapse_go fuel sep buf r l count = (head ++ gap' ++ kept_text kept' ++ 0 :: junk', count') /\
    (count' = O -> gap' ++ kept_text kept' = text sep kept').
Proof.
  induction pre as [|s pre IH] using rev_ind; intros Hp fuel gap kept junk count buf r l Hf (-> & -> & ->) Hgap.
  - exists junk, gap. cbn [rev collapse]. unfold text. cbn [flat_map]. rewrite app_nil_r. split; [|done].
    destruct fuel as [|fuel]; cbn [length] in Hf; [lia|]. cbn [collapse_go]. destruct (length head) eqn:E; [done|].
    rewrite <- E, take_app_length, memrchr_none by by apply plain_sep. done.
  - apply Forall_app in Hp as [Hp Hs%Forall_cons]. destruct Hs as [Hs _].
    rewrite length_app in Hf. cbn [length] in Hf. destruct fuel as [|fuel]; [lia|].
    rewrite rev_app_distr. cbn [rev app collapse].
    set (buf := (head ++ text sep (pre ++ [s])) ++ gap ++ kept_text kept ++ 0 :: junk).
    pose proof (removed_buffer pre s gap kept junk) as (junk1 & Hrem). cbv zeta in Hrem. fold buf in Hrem.
    destruct (found_segment pre s gap (kept_text kept ++ 0 :: junk) Hs) as (Hlen & Hmem & Hseg). fold buf in Hmem, Hseg.
    cbn [collapse_go]. rewrite Hlen. cbv zeta. rewrite Hmem.
    replace (S (length (head ++ text sep pre) + length s) - S (length (head ++ text sep pre)))%nat with (length s) by lia.
    rewrite Hseg. fold dotdot.
    destruct (list_eqb s dotdot) eqn:Edd.
    + eapply (IH Hp fuel (sep :: s ++ gap) kept junk (S count)); [lia| |done]. split_and!; [|done|].
      * subst buf. rewrite text_snoc. rewrite <- !app_assoc. cbn [app]. by rewrite <- !app_assoc.
      * rewrite (length_app _ gap), Hlen, (length_app _ (sep :: _)). cbn [length]. rewrite (length_app s). lia.
    + fold (is_dot s). set (count1 := if (count =? 0)%nat && is_dot s then 1%nat else count).
      destruct (0 <? count1)%nat eqn:Ec.
      * rewrite (length_app _ gap), Hlen in Hrem. rewrite (length_app _ gap), Hlen, Hrem.
        eapply (IH Hp fuel [sep] (match kept with [] => [[]] | _ => kept end) junk1); [lia| |].
        -- split_and!; [done|done|]. rewrite (length_app _ [sep]). cbn [length]. lia.
        -- intros _. by destruct kept.
      * apply Nat.ltb_ge in Ec. assert (count = O) as ->.
        { subst count1. destruct ((count =? 0)%nat && is_dot s); lia. }
        eapply (IH Hp fuel [sep] (s :: kept) junk 0%nat); [lia| |done]. split_and!; [|done|].
        -- subst buf. rewrite text_snoc, kept_text_cons. rewrite (app_assoc gap), Hgap by done.
           by rewrite <- !app_assoc.
        -- rewrite (length_app _ [sep]). cbn [length]. lia.
Qed.
End Walk.

Lemma collapse_forall (P : bytes -> Prop) rsegs : P [] -> Forall P rsegs -> forall kept count,
  Forall P kept -> Forall P (fst (collapse rsegs kept count)).
Proof.
  intros H0. induction 1 as [|s rsegs Hs _ IH]; intros kept count Hk; [done|]. cbn [collapse].
  destruct (list_eqb s dotdot); [by apply IH|]. case_if; apply IH; [destruct kept; [by repeat constructor|done]|by constructor].
Qed.
Lemma text_no_nul sep segs : sep <> 0 -> Forall (plain sep) segs -> no_nul (text sep segs).
Proof.
  intros H0. induction 1 as [|s segs Hs _ IH]; [constructor|]. constructor; [done|].
  apply Forall_app. split; [by eapply plain_no_nul|exact IH].
Qed.

Lemma collapse_path_walk sep head segs : sep <> 0 -> plain sep head -> Forall (plain sep) segs ->
  CollapsePath (head ++ text sep segs) sep =
    (let '(kept, count) := collapse (rev segs) [] 0 in if (count =? 0)%nat then Some (head ++ text sep kept) else None).
Proof.
  intros H0 Hh Hs. unfold CollapsePath. set (path := head ++ text sep segs).
  assert (length segs < S (length path))%nat as Hf.
  { subst path. rewrite length_app. enough (length segs <= length (text sep segs))%nat by lia.
    clear. induction segs as [|s segs IH]; [done|]. cbn [text flat_map length app]. rewrite length_app. fold (text sep segs). lia. }
  edestruct (walk_buffer sep head Hh segs Hs (S (length path)) [] [] [] 0 (path ++ [0]) (length path) (length path))
    as (junk & gap & H); [done| |done|].
  { subst path. split_and!; [done|done|]. by rewrite app_nil_r. }
  pose proof (collapse_forall (plain sep) (rev segs) ltac:(constructor) (Forall_rev Hs) [] 0 ltac:(constructor)) as Hk.
  destruct (collapse _ _ _) as [kept count]. destruct H as [-> Hgap].
  destruct (Nat.eqb_spec count 0) as [E|E]; [|done]. rewrite (app_assoc gap), Hgap by done.
  rewrite (app_assoc head), to_cstr_app_nul; [done|]. apply Forall_app. split; [by eapply plain_no_nul|].
  by apply text_no_nul.
Qed.

(** * The path without its dots *)

(** Left to right, with the segments passed so far on a stack: .. takes one away,
    and there must be one. *)
Fixpoint normalize (segs stack : list bytes) : option (list bytes) :=
  match segs with
  | [] => Some (rev stack)
  | s :: segs' =>
    if is_dot s then normalize segs' stack
    else if list_eqb s dotdot then match stack with [] => None | _ :: stack' => normalize segs' stack' end
    else normalize segs' (s :: stack)
  end.
(** A path that ends in a separator, . or .. ends in a separator afterwards. *)
Definition tail_of (segs : list bytes) : list bytes :=
  match last segs with Some s => if is_dot s || list_eqb s dotdot then [[]] else [] | None => [] end.
(** After a . or an empty segment the rest of the path stays below it. *)
Fixpoint dots_safe (segs : list bytes) : bool :=
  match segs with
  | [] => true
  | s :: segs' => (negb (is_dot s) || match normalize segs' [] with Some _ => true | None => false end) && dots_safe segs'
  end.

Lemma collapse_app a b kept count :
  collapse (a ++ b) kept count = (let '(kept', count') := collapse a kept count in collapse b kept' count').
Proof.
  revert kept count. induction a as [|s a IH]; intros kept count; [done|]. cbn [app collapse].
  destruct (list_eqb s dotdot); [apply IH|]. case_if; apply IH.
Qed.

Lemma dotdot_no_dot s : list_eqb s dotdot = true -> is_dot s = false.
Proof. by intros ->%list_eqb_eq. Qed.

(** The state of the walk is the normal form of the segments passed: as many ..
    as are still to be removed, and the names that stay. *)
Definition normal_form (segs kept : list bytes) (count : nat) (names : list bytes) : Prop :=
  ((kept = [] /\ Forall (eq dotdot) segs /\ count = length segs /\ names = []) \/
   (kept <> [] /\ kept = names ++ tail_of segs)) /\
  forall stack, normalize segs stack = if (count <=? length stack)%nat then Some (rev (drop count stack) ++ names) else None.

Lemma tail_of_cons s segs : segs <> [] -> tail_of (s :: segs) = tail_of segs.
Proof. by destruct segs. Qed.
Lemma tail_of_dotdots segs : segs <> [] -> Forall (eq dotdot) segs -> tail_of segs = [[]].
Proof.
  intros Hn H. destruct (last segs) as [s|] eqn:E; [|by apply last_None in E]. unfold tail_of. rewrite E.
  apply last_Some in E as [l ->]. apply Forall_app in H as [_ H]. inversion H; subst. done.
Qed.

Lemma normal_dotdot segs kept count names : normal_form segs kept count names ->
  normal_form (dotdot :: segs) kept (S count) names.
Proof.
  intros [H1 H2]. split.
  - destruct H1 as [(-> & H & -> & ->)|[H ->]]; [left; by repeat constructor|right].
    split; [done|]. destruct segs; [|by rewrite (tail_of_cons dotdot)]. cbn in H. rewrite app_nil_r in *.
    exfalso. specialize (H2 []). destruct count; cbn in H2; congruence.
  - intros [|x stack]; cbn [normalize]; [done|]. apply H2.
Qed.

Lemma normal_dot s segs kept names : is_dot s = true -> normal_form segs kept 0 names ->
  normal_form (s :: segs) (match kept with [] => [[]] | _ => kept end) 0 names.
Proof.
  intros Hs [H1 H2]. split; [right|intros stack; cbn [normalize]; rewrite Hs; apply H2].
  destruct H1 as [(-> & _ & E & ->)|[H E]].
  - destruct segs; [|done]. unfold tail_of. cbn [last]. by rewrite Hs.
  - destruct kept as [|k kept]; [done|]. split; [done|]. destruct segs; [|by rewrite (tail_of_cons s)].
    cbn in E. rewrite app_nil_r in E. subst. exfalso. specialize (H2 []). cbn in H2. congruence.
Qed.

Lemma normal_name s segs kept count names : is_dot s = false -> list_eqb s dotdot = false ->
  normal_form segs kept count names ->
  normal_form (s :: segs) (if (0 <? count)%nat then match kept with [] => [[]] | _ => kept end else s :: kept)
    (count - 1) (if (0 <? count)%nat then names else s :: names).
Proof.
  intros Hd Hdd [H1 H2]. split.
  - right. destruct H1 as [(-> & H & -> & ->)|[H E]].
    + destruct segs; [unfold tail_of; cbn [last]; by rewrite Hd, Hdd|]. cbn [length]. change (0 <? S (length segs))%nat with true.
      rewrite (tail_of_cons s), tail_of_dotdots by done. done.
    + destruct segs as [|t segs]; [|rewrite (tail_of_cons s) by done; destruct (0 <? count)%nat].
      * cbn in E. rewrite app_nil_r in E. subst. specialize (H2 []). exfalso. destruct count; cbn in H2; congruence.
      * by destruct kept.
      * by rewrite E.
  - intros stack. cbn [normalize]. rewrite Hd, Hdd, H2. destruct count as [|count]; cbn [Nat.ltb Nat.leb length].
    + cbn [drop rev]. by rewrite <- app_assoc.
    + by rewrite Nat.sub_1_r.
Qed.

Lemma collapse_normal segs : dots_safe segs = true ->
  exists names, let '(kept, count) := collapse (rev segs) [] 0 in normal_form segs kept count names.
Proof.
  induction segs as [|s segs IH]; intros Hs.
  { exists []. split; [by left; repeat constructor|]. intros stack. cbn. by rewrite app_nil_r. }
  cbn [dots_safe] in Hs. apply andb_true_iff in Hs as [Hd Hs]. destruct (IH Hs) as [names H].
  cbn [rev]. rewrite collapse_app. destruct (collapse (rev segs) [] 0) as [kept count]. cbn [collapse].
  destruct (list_eqb s dotdot) eqn:Edd.
  - exists names. apply list_eqb_eq in Edd as ->. by apply normal_dotdot.
  - destruct (is_dot s) eqn:Ed.
    + assert (count = O) as ->.
      { destruct H as [_ H]. rewrite H in Hd. by destruct count. }
      exists names. by apply normal_dot.
    + pose proof (normal_name s segs kept count names Ed Edd H) as Hn. rewrite andb_false_r.
      destruct (0 <? count)%nat eqn:Ec; [by exists names|]. exists (s :: names).
      apply Nat.ltb_ge in Ec. by replace (count - 1)%nat with 0%nat in Hn by lia.
Qed.

(** C30: Collapsing a path.  A path of segments is cut by its . and .. and doubled
    separators to what walking it from the left gives, where .. takes away the
    segment before it; there is no result exactly when the path leaves the root;
    and it ends in a separator when its last segment was one of these.  This
    holds as long as the rest of the path does not go up again through a . or a
    doubled separator. *)
Theorem collapse_normalizes sep head segs :
  sep <> 0 -> plain sep head -> Forall (plain sep) segs -> dots_safe segs = true ->
  CollapsePath (head ++ text sep segs) sep =
    option_map (fun names => head ++ text sep (names ++ tail_of segs)) (normalize segs []).
Proof.
  intros H0 Hh Hs Hd. rewrite collapse_path_walk by done. destruct (collapse_normal segs Hd) as [names H].
  destruct (collapse _ _ _) as [kept count]. destruct H as [H1 H2]. rewrite H2.
  destruct count as [|count]; cbn [Nat.eqb]; [|done]. cbn [option_map drop rev app]. f_equal.
  destruct H1 as [(-> & _ & E & ->)|[_ ->]]; [|done]. by destruct segs.
Qed.

Lemma collapse_normalizes_witness :
  CollapsePath (str "/mnt/./c//Users/../x/y/..") 47 = Some (str "/mnt/c/x/") /\
  CollapsePath (str "/mnt/../..") 47 = None.
Proof.
  split.
  - refine (collapse_normalizes 47 [] [str "mnt"; str "."; str "c"; []; str "Users"; str ".."; str "x"; str "y"; str ".."] _ _ _ _);
      [done|constructor| |reflexivity]. apply (bool_decide_unpack _). vm_compute. exact I.
  - refine (collapse_normalizes 47 [] [str "mnt"; str ".."; str ".."] _ _ _ _);
      [done|constructor| |reflexivity]. apply (bool_decide_unpack _). vm_compute. exact I.
Defined.

(** A . or a doubled separator before a .. is the segment that the .. removes. *)
Example dots_count_as_segments :
  CollapsePath (str "/a/b/./../c") 47 = Some (str "/a/b/c") /\
  CollapsePath (str "/a//../c") 47 = Some (str "/a/c") /\
  normalize [str "a"; str "b"; str "."; str ".."; str "c"] [] = Some [str "a"; str "c"].
Proof. vm_compute. done. Qed.
End CollapseThm.

Import EscapePath WinPath EscapePathThm CollapseThm.

Module WinPathTripThm.

(** * Ordinary paths *)
Definition name_ok (s : bytes) : bool := negb (is_dot s) && negb (list_eqb s dotdot).
(** Names, and a separator at the end when [trail]. *)
Definition segments (names : list bytes) (trail : bool) : list bytes := names ++ (if trail then [[]] else []).
Definition names_ok (names : list bytes) : Prop := Forall (fun s => name_ok s = true) names.

Lemma name_ok_spec s : name_ok s = true <-> is_dot s = false /\ list_eqb s dotdot = false.
Proof. unfold name_ok. by rewrite andb_true_iff, !negb_true_iff. Qed.

Lemma normalize_names names stack rest : names_ok names ->
  normalize (names ++ rest) stack = normalize rest (rev names ++ stack).
Proof.
  intros H. revert stack. induction H as [|s names Hs _ IH]; intros stack; [done|]. cbn [app normalize rev].
  apply name_ok_spec in Hs as [-> ->]. rewrite IH. by rewrite <- app_assoc.
Qed.
Lemma dots_safe_names names trail : names_ok names -> dots_safe (segments names trail) = true.
Proof.
  induction 1 as [|s names Hs _ IH]; [by destruct trail|]. cbn [segments app dots_safe]. fold (segments names trail).
  apply name_ok_spec in Hs as [-> _]. by rewrite IH.
Qed.

Lemma collapse_names sep head names trail : sep <> 0 -> plain sep head -> names_ok names -> Forall (plain sep) names ->
  let path := head ++ text sep (segments names trail) in CollapsePath path sep = Some path.
Proof.
  intros H0 Hh Hn Hp path. subst path. rewrite collapse_path_walk; try done.
  2:{ apply Forall_app. split; [done|]. destruct trail; repeat constructor. }
  destruct (collapse_normal _ (dots_safe_names names trail Hn)) as [l H].
  destruct (collapse _ _ _) as [kept count]. destruct H as [H1 H2]. specialize (H2 []).
  unfold segments in H2 at 1. rewrite normalize_names in H2 by done.
  assert (tail_of (segments names trail) = if trail then [[]] else []) as Ht.
  { unfold tail_of, segments. destruct trail; [by rewrite last_snoc|]. rewrite app_nil_r.
    destruct (last names) as [s|] eqn:E; [|done]. apply last_Some in E as [l' ->].
    apply Forall_app in Hn as [_ Hn]. inversion Hn as [|? ? Hs _]. by apply name_ok_spec in Hs as [-> ->]. }
  assert (count = O /\ l = names) as [-> ->].
  { destruct count; [|by destruct trail]. split; [done|].
    destruct trail; cbn in H2; rewrite app_nil_r, rev_involutive in H2; congruence. }
  cbn [Nat.eqb]. f_equal. f_equal. f_equal. destruct H1 as [(-> & _ & E & ->)|[_ ->]]; [|by rewrite Ht].
  by destruct (segments [] trail).
Qed.

(** * Separators *)
Definition to_sep (S c : Z) : Z := if is_sep c then S else c.
(** No two separators in a row; [prev] tells whether one comes before. *)
Fixpoint spaced (prev : bool) (l : bytes) : bool :=
  match l with
  | [] => true
  | c :: l' => if is_sep c then negb prev && spaced true l' else spaced false l'
  end.
Definition no_sep (l : bytes) : Prop := Forall (fun c => is_sep c = false) l.

Lemma canonicalise_spaced S l : is_sep S = true -> forall b n prev,
  ((1 <? n)%nat && (prev =? S) = true -> b = true) -> spaced b l = true ->
  canonicalise S l n prev = map (to_sep S) l.
Proof.
  intros HS. induction l as [|c l IH]; intros b n prev Hb Hl; [done|]. cbn [canonicalise map spaced] in *.
  unfold to_sep at 1. rewrite orb_comm. fold (is_sep c). destruct (is_sep c) eqn:Ec.
  - apply andb_true_iff in Hl as [Hn Hl]. destruct ((1 <? n)%nat && (prev =? S)); [by rewrite Hb in Hn|].
    f_equal. by eapply IH.
  - f_equal. eapply IH; [|exact Hl]. intros [_ E%Z.eqb_eq]%andb_true_iff. congruence.
Qed.

Lemma spaced_app b l rest : no_sep l -> l <> [] -> spaced b (l ++ rest) = spaced false rest.
Proof.
  intros H. revert b. induction H as [|c l Hc _ IH]; intros b Hn; [done|]. cbn [app spaced]. rewrite Hc.
  destruct l as [|d l]; [done|]. by apply IH.
Qed.
Lemma spaced_text S names trail : is_sep S = true -> Forall no_sep names -> Forall (fun s => s <> []) names ->
  spaced false (text S (segments names trail)) = true.
Proof.
  intros HS Hn. induction Hn as [|s names Hs _ IH]; intros Hne.
  - destruct trail; [|done]. cbn. by rewrite HS.
  - apply Forall_cons in Hne as [Hs0 Hne]. unfold segments, text. cbn [app flat_map]. fold (segments names trail).
    fold (text S (segments names trail)). cbn [spaced app]. rewrite HS. rewrite spaced_app by done. by apply IH.
Qed.

Lemma map_to_sep S l : no_sep l -> map (to_sep S) l = l.
Proof. induction 1 as [|c l Hc _ IH]; [done|]. cbn. unfold to_sep at 1. by rewrite Hc, IH. Qed.
Lemma map_to_sep_text S S' segs : is_sep S' = true -> Forall no_sep segs -> map (to_sep S) (text S' segs) = text S segs.
Proof.
  intros HS. induction 1 as [|s segs Hs _ IH]; [done|]. cbn [text flat_map map app]. fold (text S' segs) (text S segs).
  rewrite map_app, IH, map_to_sep by done. f_equal. unfold to_sep. by rewrite HS.
Qed.
Lemma map_to_slash l : map (to_sep PATH_SEP) l = map to_slash l.
Proof.
  apply map_ext. intros c. unfold to_sep, is_sep, to_slash.
  destruct (Z.eqb_spec c PATH_SEP_NT); [done|]. by destruct (Z.eqb_spec c PATH_SEP) as [->|].
Qed.

(** * Escaped names *)
Lemma escape_char_no_sep c : is_byte c -> c <> PATH_SEP -> c <> 0 -> Forall (fun x => is_sep x = false /\ x <> 0) (escape_char c).
Proof.
  intros Hc Hs H0. pose proof (every_byte (fun c => (c =? PATH_SEP) || (c =? 0) ||
    forallb (fun x => negb (is_sep x) && negb (x =? 0)) (escape_char c)) ltac:(vm_compute; reflexivity) c Hc) as H.
  cbv beta in H. rewrite (proj2 (Z.eqb_neq _ _) Hs), (proj2 (Z.eqb_neq _ _) H0) in H. cbn [orb] in H.
  apply Forall_forall. intros x Hx%list_elem_of_In. rewrite forallb_forall in H. specialize (H x Hx). bool_to_prop. done.
Qed.

Lemma escape_app a b : EscapePathForNt (a ++ b) = EscapePathForNt a ++ EscapePathForNt b.
Proof. induction a as [|c a IH]; [done|]. cbn [app EscapePathForNt]. by rewrite IH, app_assoc. Qed.
Lemma escape_text segs : EscapePathForNt (text PATH_SEP segs) = text PATH_SEP_NT (map EscapePathForNt segs).
Proof.
  induction segs as [|s segs IH]; [done|]. cbn [text flat_map map app EscapePathForNt]. fold (text PATH_SEP segs).
  by rewrite escape_app, IH.
Qed.

Definition name_bytes (s : bytes) : Prop := bytes_ok s /\ plain PATH_SEP s.
Lemma escape_clean s : name_bytes s -> Forall (fun x => is_sep x = false /\ x <> 0) (EscapePathForNt s).
Proof.
  intros [Hb Hp]. induction Hb as [|c s Hc _ IH]; [constructor|]. apply Forall_cons in Hp as [[H1 H2] Hp].
  cbn [EscapePathForNt]. apply Forall_app. split; [by apply escape_char_no_sep|by apply IH].
Qed.
Lemma escape_no_sep s : name_bytes s -> no_sep (EscapePathForNt s).
Proof. intros H. eapply Forall_impl_hint; [by apply escape_clean|]. by intros x [? _]. Qed.
Lemma escape_plain s : name_bytes s -> plain PATH_SEP_NT (EscapePathForNt s).
Proof.
  intros H. eapply Forall_impl_hint; [by apply escape_clean|]. intros x [Hx ?]. split; [|done].
  intros ->. done.
Qed.

(** Only a text without special characters escapes to itself. *)
Lemma escape_fixed s x : Forall (fun y => y <> base0 /\ y <> PATH_SEP_NT) x -> EscapePathForNt s = x -> s = x.
Proof.
  intros Hx. revert s. induction Hx as [|y x [H1 H2] _ IH]; intros [|c s] E; [done| |done|].
  - cbn [EscapePathForNt] in E. unfold escape_char in E. by destruct (c =? PATH_SEP), (negb (EscapeCharNeedsEscape c)).
  - cbn [EscapePathForNt] in E. unfold escape_char in E. destruct (c =? PATH_SEP); [by injection E as <- _|].
    destruct (negb (EscapeCharNeedsEscape c)); [|by injection E as <- _]. injection E as <- E. f_equal. by apply IH.
Qed.
Lemma escape_name_ok s : name_ok s = true -> name_ok (EscapePathForNt s) = true.
Proof.
  assert (forall x, forallb (fun y => negb (y =? base0) && negb (y =? PATH_SEP_NT)) x = true ->
    list_eqb s x = false -> list_eqb (EscapePathForNt s) x = false) as H.
  { intros x Hx. rewrite !list_eqb_neq. intros Hn E. apply Hn. apply escape_fixed; [|done].
    apply Forall_forall. intros y Hy%list_elem_of_In. rewrite forallb_forall in Hx. specialize (Hx y Hy). by bool_to_prop. }
  rewrite !name_ok_spec. unfold is_dot. intros [Hd Hdd]. apply orb_false_iff in Hd as [He Hd]. split; [|by apply H].
  rewrite (H (str ".")) by done. destruct s as [|c s]; [done|]. cbn [EscapePathForNt]. unfold escape_char.
  by destruct (c =? PATH_SEP), (negb (EscapeCharNeedsEscape c)).
Qed.

(** * The share of the distribution *)
Definition host : bytes := str "wsl.localhost".
Definition distro_ok (d : bytes) : Prop := name_ok d = true /\ plain PATH_SEP_NT d /\ no_sep d.
(** The path of the share that [names] is. *)
Definition share_with (S : Z) (d : bytes) (names : list bytes) (trail : bool) : bytes :=
  [S; S] ++ host ++ text S (segments (d :: map EscapePathForNt names) trail).
Abbreviation share_path := (share_with PATH_SEP_NT).

Lemma share_path_prefix d names trail :
  share_path d names trail = (PLAN9_RDR_PREFIX ++ d) ++ EscapePathForNt (text PATH_SEP (segments names trail)).
Proof.
  rewrite escape_text. unfold share_with, segments. cbn [app text flat_map]. rewrite map_app.
  unfold PLAN9_RDR_PREFIX, host. destruct trail; by rewrite <- !app_assoc.
Qed.

Lemma name_ok_nonempty s : name_ok s = true -> s <> [].
Proof. by intros H ->. Qed.
Lemma names_nonempty names : names_ok names -> Forall (fun s => s <> []) names.
Proof. intros H. eapply Forall_impl_hint; [exact H|]. intros s. apply name_ok_nonempty. Qed.

Lemma canonical_two S S' l : is_sep S' = true ->
  UtilCanonicalisePathSeparator (S' :: S' :: l) S = S :: S :: canonicalise S l 2 S.
Proof.
  intros HS'. unfold UtilCanonicalisePathSeparator. cbn [canonicalise]. rewrite orb_comm. fold (is_sep S'). by rewrite HS'.
Qed.

(** The separators of the share's path are already those of Windows, and they are
    turned to slashes one by one. *)
Lemma share_canonical S S' d names trail : is_sep S = true -> is_sep S' = true -> distro_ok d -> names_ok names ->
  Forall name_bytes names -> UtilCanonicalisePathSeparator (share_with S' d names trail) S = share_with S d names trail.
Proof.
  intros HS HS' (Hd & _ & Hds) Hn Hb. unfold share_with. set (l := d :: map EscapePathForNt names).
  assert (Forall no_sep l) as Hl.
  { constructor; [done|]. apply Forall_map. eapply Forall_impl_hint; [exact Hb|]. apply escape_no_sep. }
  assert (Forall (fun s => s <> []) l) as Hne.
  { constructor; [by apply name_ok_nonempty|]. apply Forall_map. eapply Forall_impl_hint; [exact Hn|].
    intros s Hs. by apply name_ok_nonempty, escape_name_ok. }
  assert (no_sep host /\ host <> []) as [Hh Hh0] by (split; [apply (bool_decide_unpack _); vm_compute; exact I|done]).
  generalize dependent host. intros h Hh Hh0. cbn [app]. rewrite canonical_two by done. f_equal. f_equal.
  rewrite (canonicalise_spaced S _ HS true 2); [|done|].
  - rewrite map_app, map_to_sep_text; [|done|]; [by rewrite map_to_sep|].
    apply Forall_app. split; [done|]. destruct trail; repeat constructor.
  - rewrite spaced_app; [by apply spaced_text|done|done].
Qed.

Lemma share_no_nul d names trail : distro_ok d -> Forall name_bytes names -> no_nul (share_path d names trail).
Proof.
  intros (_ & Hd & _) Hb. apply Forall_app. split; [by repeat constructor|]. apply Forall_app. split.
  { apply (bool_decide_unpack _). vm_compute. exact I. }
  apply text_no_nul; [done|]. apply Forall_app. split; [|destruct trail; repeat constructor].
  constructor; [done|]. apply Forall_map. eapply Forall_impl_hint; [exact Hb|]. apply escape_plain.
Qed.

Section Trip.
Context (v : env) (names : list bytes) (trail : bool).
Context (Hdistro : distro_ok (distro v)) (Hnames : names_ok names) (Hbytes : Forall name_bytes names).
Let path := text PATH_SEP (segments names trail).
Let share := share_path (distro v) names trail.
Context (Hpath : path <> []).

Lemma distro_nonempty : is_empty (distro v) = false.
Proof. destruct Hdistro as [H%name_ok_nonempty _]. by destruct (distro v). Qed.

(** To Windows. *)
Lemma to_share : fst (UtilFindMount (mountinfo v) path false) = [] -> UtilWinPathTranslate v path false = share.
Proof.
  intros Hm. unfold UtilWinPathTranslate. destruct (UtilFindMount _ _ _) as [r n]. cbn [fst] in Hm. subst r. cbn [is_empty].
  unfold UtilWinPathTranslateInternal. rewrite distro_nonempty. cbn [negb]. unfold share. by rewrite share_path_prefix.
Qed.

Lemma path_absolute : AbsolutePath v path = Some (path, false).
Proof.
  pose proof (collapse_names PATH_SEP [] names trail ltac:(done) ltac:(constructor) Hnames
    ltac:(eapply Forall_impl_hint; [exact Hbytes|by intros s [_ ?]])) as H.
  cbv zeta in H. cbn [app] in H. fold path in H. unfold AbsolutePath. rewrite H.
  subst path. destruct (segments names trail); [done|]. cbn [text flat_map app char_at nth]. by rewrite Z.eqb_refl.
Qed.

Lemma share_absolute : DosToCanonicalPath v share = Some (share, false).
Proof.
  unfold DosToCanonicalPath. assert (UtilIsAbsoluteWindowsPath share = true) as -> by done.
  assert ((length share <? 2)%nat = false) as -> by done.
  change (char_at share 1) with 92. change (char_at share 0) with 92. change (char_at share 2) with 119.
  change (take 2 (drop 0 share)) with [92; 92].
  change (drop 2 (drop 0 share)) with (host ++ text PATH_SEP_NT (segments (distro v :: map EscapePathForNt names) trail)).
  destruct Hdistro as (Hd & Hdp & _). cbn [Z.eqb Pos.eqb andb]. rewrite collapse_names; [done|done| | |].
  - apply (bool_decide_unpack _). vm_compute. exact I.
  - constructor; [done|]. apply Forall_map. eapply Forall_impl_hint; [exact Hnames|]. apply escape_name_ok.
  - constructor; [done|]. apply Forall_map. eapply Forall_impl_hint; [exact Hbytes|]. apply escape_plain.
Qed.

Lemma path_cstr : cstr_ok path.
Proof.
  subst path. unfold text. apply Forall_flat_map. apply Forall_app. split.
  - eapply Forall_impl_hint; [exact Hbytes|]. intros s [Hb Hp]. constructor; [done|].
    apply Forall_forall. intros c Hc. unfold bytes_ok, plain in *. rewrite Forall_forall in Hb, Hp. specialize (Hb c Hc). destruct (Hp c Hc) as [_ H0].
    unfold is_byte in Hb. lia.
  - destruct trail; repeat constructor.
Qed.

Lemma written_over_same old new : length new = length old -> written_over old new = new.
Proof. intros H. unfold written_over. by rewrite H, Nat.ltb_irrefl. Qed.
Lemma strcasecmp_refl a : strcasecmp_eq a a = true.
Proof. apply list_eqb_refl. Qed.

Lemma path_slashes : UtilCanonicalisePathSeparator (EscapePathForNt path) PATH_SEP = map to_slash (EscapePathForNt path).
Proof.
  rewrite <- map_to_slash. unfold UtilCanonicalisePathSeparator. apply (canonicalise_spaced PATH_SEP _ eq_refl false); [done|].
  subst path. rewrite escape_text. unfold segments. rewrite map_app.
  assert (map EscapePathForNt (if trail then [[]] else []) = if trail then [[]] else []) as -> by by destruct trail.
  apply (spaced_text PATH_SEP_NT (map EscapePathForNt names) trail); [done| |]; apply Forall_map.
  - eapply Forall_impl_hint; [exact Hbytes|]. apply escape_no_sep.
  - eapply Forall_impl_hint; [exact Hnames|]. intros s Hs. by apply name_ok_nonempty, escape_name_ok.
Qed.

(** And back. *)
Lemma from_share : has_sequence path = false -> fst (UtilFindMount (mountinfo v) share true) = [] ->
  to_cstr (UtilWinPathTranslate v share true) = path.
Proof.
  intros Hs Hm. unfold UtilWinPathTranslate. destruct (UtilFindMount _ _ _) as [r n]. cbn [fst] in Hm. subst r. cbn [is_empty].
  unfold UtilWinPathTranslateInternal. rewrite distro_nonempty. cbn [negb]. unfold share. rewrite share_path_prefix.
  unfold StartsWith at 1. rewrite take_app_length, strcasecmp_refl, drop_app_length. fold path.
  pose proof path_cstr as Hc. pose proof (cstr_ok_bytes_ok _ Hc) as Hb.
  assert (EscapePathForNt path <> []) as Hne.
  { destruct path as [|c p]; [done|]. cbn [EscapePathForNt]. unfold escape_char. by destruct (c =? PATH_SEP), (negb (EscapeCharNeedsEscape c)). }
  destruct (EscapePathForNt path) as [|c e] eqn:E; [done|]. rewrite <- E, path_slashes.
  rewrite (written_over_same (EscapePathForNt path)) by by rewrite length_map.
  assert (no_nul (map to_slash (EscapePathForNt path))) as Hnn.
  { rewrite escape_unix by done. unfold no_nul. apply Forall_flat_map. eapply Forall_impl_hint; [exact Hc|].
    intros x Hx. cbv beta in Hx. unfold unix_char. destruct (EscapeCharNeedsEscape x); repeat constructor; try done; try lia.
    all: by intros [? _]%Z.lor_eq_0_iff. }
  rewrite (to_cstr_all _ Hnn). rewrite escape_unix, scan_unix by done. unfold written_over.
  case_if; [apply to_cstr_app_nul|apply to_cstr_all]; by apply cstr_ok_no_nul.
Qed.
End Trip.


(** A directory with special characters in its names, with and without mounts of
    other file systems. *)
Definition ex_env : env :=
  mk_env (Some [str "25 1 0:30 / /mnt/c rw - drvfs C:\ rw"; str "26 1 0:32 / / rw - ext4 /dev/sdb rw"]) (str "FreeBSD")
    (Some (str "/root")) (fun _ => R_failed).
Definition ex_names : list bytes := [str "var"; str "a\b: c?"; str "x..y"].
#[local] Instance name_bytes_dec s : Decision (name_bytes s).
Proof. unfold name_bytes, bytes_ok, is_byte, plain. apply _. Defined.
End WinPathTripThm.
