(* ===== verification/CommandLine.v ===== *)
(** The argument parser of the upstream tools (src/src/shared/inc/CommandLine.h, for
    Linux) and the tools that are built on it: wslpath, wslinfo and the start of the
    port tracker and of the Plan 9 server (src/src/linux/init).  The parser works on any
    store of results. *)
From S2P Require Import Prelude CStr CNum Strings WinPath.

Module CommandLine.
Import Strings.

(** The exceptions with a message for the user. *)
Inductive user_error : Type :=
| InvalidInteger (input : bytes) | InvalidGuid (input : bytes)
| MissingArgument (arg : bytes) | InvalidCommandLine (arg : bytes) | Usage.

(** std::from_chars in base 10 for a type with values from [lo] to [hi]. *)
Inductive chars_result : Type := Chars (v : Z) | Out_of_range | Invalid_argument.
Definition from_chars (lo hi : Z) (s : bytes) : chars_result :=
  let '(neg, digits) := match s with c :: t => if (c =? c_dash) && (lo <? 0) then (true, t) else (false, s) | [] => (false, []) end in
  if head_digit_in 10 digits then
    let v := fst (scan_digits 10 0 digits) in
    let v := if neg then - v else v in
    if (lo <=? v) && (v <=? hi) then Chars v else Out_of_range
  else Invalid_argument.

Section Parser.
Context {Store : Type}.

Inductive consumed : Type := Consumed (offset : Z) (s : Store) | Threw (e : user_error).
Definition TParseMethod : Type := option bytes -> Store -> consumed.
Record Argument : Type := mk_argument { Matches : option bytes -> Z -> bool; Consume : TParseMethod; Positional : bool }.

(** AddArgument; [ShortName] is 0 when there is none. *)
Definition AddArgument (Output : TParseMethod) (LongName : option bytes) (ShortName : Z) : Argument :=
  mk_argument (fun Name _ =>
    match Name with
    | None => false
    | Some n =>
      if match LongName with Some l => IsEqual n l false | None => false end then true
      else negb (ShortName =? 0) && (WinPath.char_at n 0 =? c_dash) && (WinPath.char_at n 1 =? ShortName) && (WinPath.char_at n 2 =? 0)
    end) Output false.
Definition AddPositionalArgument (Output : TParseMethod) (Position : Z) : Argument :=
  mk_argument (fun _ Index => Position =? Index) Output true.

(** * What an argument does with its value *)
Definition Flag (set : Store -> Store) : TParseMethod := fun _ s => Consumed 0 (set s).
Definition NoOp : TParseMethod := fun _ s => Consumed 0 s.
Definition Simple (set : bytes -> Store -> Store) : TParseMethod := fun Value s =>
  match Value with None => Consumed (-1) s | Some v => Consumed 1 (set v s) end.
Definition SimpleGuid (set : GUID -> Store -> Store) : TParseMethod := fun Value s =>
  match Value with
  | None => Consumed (-1) s
  | Some v => match ToGuid v with Some g => Consumed 1 (set g s) | None => Threw (InvalidGuid v) end
  end.
(** [emplace]: what an optional does first. *)
Definition Integer (lo hi : Z) (emplace : Store -> Store) (set : Z -> Store -> Store) : TParseMethod := fun input s =>
  match input with
  | None => Consumed (-1) s
  | Some v =>
    let s := emplace s in
    match from_chars lo hi v with
    | Invalid_argument => Threw (InvalidInteger v)
    | Out_of_range => Consumed 1 s
    | Chars x => Consumed 1 (set x s)
    end
  end.
Definition UniqueFd (reset : Z -> Store -> Store) : TParseMethod := fun input s =>
  match input with
  | None => Consumed (-1) s
  | Some v =>
    match from_chars INT_MIN INT_MAX v with
    | Invalid_argument => Threw (InvalidInteger v)
    | Out_of_range => Threw (InvalidInteger v)
    | Chars fd => if fd <? 0 then Threw (InvalidInteger v) else Consumed 1 (reset fd s)
    end
  end.
Definition UniqueSetValue (has_value : Store -> bool) (set : Store -> Store) : TParseMethod := fun _ s =>
  if has_value s then Threw Usage else Consumed 0 (set s).

(** * Parsing *)
Inductive parsed : Type := Parsed (s : Store) | Failed (e : user_error).

Section Parse.
Context (m_arguments : list Argument).

(** A short argument with several letters: whether all of them were found, and the
    store, or the exception. *)
Fixpoint short_letters (letters : bytes) (foundMatch : bool) (s : Store) : bool * parsed :=
  match letters with
  | [] => (foundMatch, Parsed s)
  | c :: letters' =>
    match List.find (fun e => negb (Positional e) && Matches e (Some [c_dash; c]) (-1)) m_arguments with
    | None => (false, Parsed s)
    | Some e =>
      match Consume e None s with
      | Consumed _ s => short_letters letters' true s
      | Threw err => (true, Failed err)
      end
    end
  end.

(** [skip]: the arguments that were consumed as values.  [argv]: what follows. *)
Fixpoint parse_loop (skip : nat) (stopParameters : bool) (argumentPosition : Z) (argv : list bytes) (s : Store) : parsed :=
  match argv with
  | [] => Parsed s
  | arg :: rest =>
    match skip with
    | S skip' => parse_loop skip' stopParameters argumentPosition rest s
    | O =>
      if negb stopParameters && IsEqual arg (str "--") false then parse_loop O true argumentPosition rest s
      else
        let next := if negb (WinPath.char_at arg 0 =? c_dash) then argumentPosition + 1 else argumentPosition in
        let '(foundMatch, r) :=
          if negb stopParameters && (WinPath.char_at arg 0 =? c_dash) && negb (WinPath.char_at arg 1 =? c_dash) && negb (WinPath.char_at arg 1 =? 0) && negb (WinPath.char_at arg 2 =? 0)
          then short_letters (drop 1 arg) false s
          else (false, Parsed s) in
        match r with
        | Failed e => Failed e
        | Parsed s =>
          if foundMatch then parse_loop O stopParameters next rest s
          else
            let Name := if stopParameters then None else Some arg in
            let Pos := if (WinPath.char_at arg 0 =? c_dash) && negb (WinPath.char_at arg 1 =? 0) && negb stopParameters then -1 else argumentPosition in
            match List.find (fun e => Matches e Name Pos) m_arguments with
            | None => Failed (InvalidCommandLine arg)
            | Some e =>
              let value := if Positional e then Some arg else match rest with v :: _ => Some v | [] => None end in
              match Consume e value s with
              | Threw err => Failed err
              | Consumed offset s =>
                if offset <? 0 then Failed (MissingArgument arg)
                else parse_loop (if Positional e then O else Z.to_nat offset) stopParameters next rest s
              end
            end
        end
    end
  end.
(** argv[0] is the name of the program. *)
Definition Parse (argv : list bytes) (s : Store) : parsed := parse_loop O false 0 (tl argv) s.
End Parse.
End Parser.
Arguments consumed : clear implicits. Arguments parsed : clear implicits. Arguments Argument : clear implicits.
Arguments TParseMethod : clear implicits.

(** * wslpath *)
Definition TRANSLATE_FLAG_ABSOLUTE : Z := 1.
Definition TRANSLATE_FLAG_RESOLVE_SYMLINKS : Z := 2.
Definition TRANSLATE_MODE_ABSOLUTE : Z := 97.
Definition TRANSLATE_MODE_UNIX : Z := 117.
Definition TRANSLATE_MODE_WINDOWS : Z := 119.
Definition TRANSLATE_MODE_MIXED : Z := 109.
Definition TRANSLATE_MODE_HELP : Z := 104.

Record path_options : Type := mk_path_options { Flags : Z; Mode : option Z; OriginalPath : option bytes }.
#[export] Instance path_options_eta : Eta path_options := fun o => mk_path_options (Flags o) (Mode o) (OriginalPath o).
Definition is_set {A} (o : option A) : bool := match o with Some _ => true | None => false end.
Definition path_mode (letter : Z) (LongName : option bytes) (ShortName : Z) : Argument path_options :=
  AddArgument (UniqueSetValue (fun o => is_set (Mode o)) (fun o => o <| Mode := Some letter |>)) LongName ShortName.
Definition path_arguments : list (Argument path_options) :=
  [AddPositionalArgument (Simple (fun v o => o <| OriginalPath := Some v |>)) 0;
   AddArgument (Flag (fun o => o <| Flags := Z.lor (Flags o) TRANSLATE_FLAG_ABSOLUTE |>)) None TRANSLATE_MODE_ABSOLUTE;
   path_mode TRANSLATE_MODE_UNIX None TRANSLATE_MODE_UNIX;
   path_mode TRANSLATE_MODE_WINDOWS None TRANSLATE_MODE_WINDOWS;
   path_mode TRANSLATE_MODE_MIXED None TRANSLATE_MODE_MIXED;
   path_mode TRANSLATE_MODE_HELP (Some (str "--help")) 0].

(** The exit status, what is printed and what goes to standard error. *)
Inductive tool_error : Type := User_error (e : user_error) | Invalid_usage | Not_translated (path : bytes) | No_value | Query_failed.
Inductive exit : Type := Exit_ok (output : bytes) | Exit_1 (e : tool_error).

Definition WslPathEntry (v : WinPath.env) (argv : list bytes) : exit :=
  match Parse path_arguments argv (mk_path_options TRANSLATE_FLAG_RESOLVE_SYMLINKS None None) with
  | Failed e => Exit_1 (User_error e)
  | Parsed o =>
    match OriginalPath o with
    | None => Exit_1 Invalid_usage
    | Some path =>
      let mode := match Mode o with Some m => m | None => TRANSLATE_MODE_UNIX end in
      if mode =? TRANSLATE_MODE_HELP then Exit_1 Invalid_usage
      else
        let OutputPath := WinPath.WslPathTranslate v path (Z.testbit (Flags o) 0) (Z.testbit (Flags o) 1)
          (if mode =? TRANSLATE_MODE_UNIX then WinPath.M_unix else if mode =? TRANSLATE_MODE_MIXED then WinPath.M_mixed else WinPath.M_windows) in
        match OutputPath with
        | [] => Exit_1 (Not_translated path)
        | _ => Exit_ok (to_cstr OutputPath ++ [c_nl])
        end
    end
  end.

(** * wslinfo *)
Inductive WslInfoMode : Type := GetNetworkingMode | MsalProxyPath | WslVersion | VMId.
Record info_options : Type := mk_info_options { info_Mode : option WslInfoMode; noNewLine : bool }.
#[export] Instance info_options_eta : Eta info_options := fun o => mk_info_options (info_Mode o) (noNewLine o).
Definition info_mode (m : WslInfoMode) (LongName : bytes) : Argument info_options :=
  AddArgument (UniqueSetValue (fun o => is_set (info_Mode o)) (fun o => o <| info_Mode := Some m |>)) (Some LongName) 0.
Definition info_arguments : list (Argument info_options) :=
  [info_mode GetNetworkingMode (str "--networking-mode"); info_mode MsalProxyPath (str "--msal-proxy-path");
   info_mode WslVersion (str "--version"); info_mode WslVersion (str "--wsl-version"); info_mode VMId (str "--vm-id");
   AddArgument NoOp (Some (str "--help")) 0; AddArgument (Flag (fun o => o <| noNewLine := true |>)) None 110].

(** The environment: whether this is a utility VM, the networking mode that init
    answers, the install path, the version of the package and the VM's identifier. *)
Record info_env : Type := mk_info_env {
  UtilIsUtilityVm : bool; UtilGetNetworkingMode : option Z; LX_WSL2_INSTALL_PATH : bytes; WSL_PACKAGE_VERSION : bytes; UtilGetVmId : bytes
}.
Definition LxMiniInitNetworkingModeNat : Z := 1.
Definition LxMiniInitNetworkingModeBridged : Z := 2.
Definition LxMiniInitNetworkingModeMirrored : Z := 3.
Definition LxMiniInitNetworkingModeVirtioProxy : Z := 4.
Definition networking_mode (m : Z) : bytes :=
  if m =? LxMiniInitNetworkingModeNat then str "nat"
  else if m =? LxMiniInitNetworkingModeBridged then str "bridged"
  else if m =? LxMiniInitNetworkingModeMirrored then str "mirrored"
  else if m =? LxMiniInitNetworkingModeVirtioProxy then str "virtioproxy"
  else str "none".
Definition info_value (v : WinPath.env) (e : info_env) (m : WslInfoMode) : bytes + tool_error :=
  match m with
  | GetNetworkingMode =>
    if UtilIsUtilityVm e then match UtilGetNetworkingMode e with None => inr Query_failed | Some m => inl (networking_mode m) end
    else inl (str "wsl1")
  | MsalProxyPath =>
    match LX_WSL2_INSTALL_PATH e with
    | [] => inr No_value
    | value =>
      match WinPath.WslPathTranslate v value true false WinPath.M_unix with
      | [] => inr (Not_translated value)
      | translatedPath => inl (translatedPath ++ str "/msal.wsl.proxy.exe")
      end
    end
  | WslVersion => inl (WSL_PACKAGE_VERSION e)
  | VMId => if UtilIsUtilityVm e then match UtilGetVmId e with [] => inr No_value | vmId => inl vmId end else inl (str "wsl1")
  end.
Definition WslInfoEntry (v : WinPath.env) (e : info_env) (argv : list bytes) : exit :=
  match Parse info_arguments argv (mk_info_options None false) with
  | Failed err => Exit_1 (User_error err)
  | Parsed o =>
    match info_Mode o with
    | None => Exit_1 Invalid_usage
    | Some m =>
      match info_value v e m with
      | inr err => Exit_1 err
      | inl value => Exit_ok (value ++ (if noNewLine o then [] else [c_nl]))
      end
    end
  end.

End CommandLine.
