(* ===== verification/Localhost.v ===== *)
(** The localhost relay of the upstream init (src/src/linux/init/localhost.cpp): the scan
    of /proc/net/tcp and the messages that it makes the host's relays follow, the worker
    of one relayed connection, and the start of the port tracker. *)
From S2P Require Import Prelude CStr CNum Wire Strings CommandLine.
Import Wire.

Module Localhost.

Definition AF_INET : Z := 2.
Definition AF_INET6 : Z := 10.
Definition TCP_LISTEN : Z := 10.
Definition LxInitMessageStartSocketRelay : Z := 15.
Definition LxGnsMessageSetPortListener : Z := 58.
Definition LxGnsMessagePortListenerRelayStart : Z := 59.
Definition LxGnsMessagePortListenerRelayStop : Z := 60.

(** * The table of TCP sockets *)

(** sockaddr_storage as this file fills it: the family (0 when it stays empty), the port
    as stored, and the words of the address; IPv4 uses the first. *)
Record sockaddr : Type := mk_sockaddr { ss_family : Z; sin_port : Z; s6_addr32 : list Z }.
#[export] Instance sockaddr_eq_dec : EqDecision sockaddr.
Proof. solve_decision. Defined.
Definition no_sockaddr : sockaddr := mk_sockaddr 0 0 [0; 0; 0; 0].

(** std's getline: lines with their newline. *)
Fixpoint getlines (s line : bytes) : list bytes :=
  match s with
  | [] => match line with [] => [] | _ => [line] end
  | c :: s' => if c =? c_nl then (line ++ [c]) :: getlines s' [] else getlines s' (line ++ [c])
  end.
Definition strtok_all (delimiters line : bytes) : list bytes := Strings.SplitByMultipleSeparators line delimiters.
Definition strtol16 (s : bytes) : Z := fst (fst (strtol 16 s)).

Definition field_sockaddr (family : Z) (field : bytes) (port : Z) : sockaddr :=
  if family =? AF_INET then mk_sockaddr family (u16 port) [u32 (strtol16 field); 0; 0; 0]
  else if family =? AF_INET6 then
    mk_sockaddr family (u16 port) (map (fun part => u32 (strtol16 (take 4 (drop (part * 4) field)))) (seq 0 4))
  else no_sockaddr.
Fixpoint line_fields (family : Z) (index : nat) (fields : list bytes) (sock : sockaddr) : sockaddr * Z :=
  match fields with
  | [] => (sock, 0)
  | field :: fields' =>
    if (index =? 1)%nat then
      match strchr c_colon field with
      | None => (sock, 0)
      | Some (_, portString) =>
        let port := to_int (strtol16 portString) in
        if port =? 0 then (sock, 0) else line_fields family (S index) fields' (field_sockaddr family field port)
      end
    else if (index =? 3)%nat then (sock, to_int (strtol16 field))
    else line_fields family (S index) fields' sock
  end.
Definition line_socket (family : Z) (line : bytes) : option sockaddr :=
  let '(sock, status) := line_fields family 0 (strtok_all [c_space; c_nl] line) no_sockaddr in
  if (status =? TCP_LISTEN) && negb (ss_family sock =? 0) then Some sock else None.
(** [None]: the exception for a file without a header. *)
Definition ParseTcpFile (family : Z) (file : bytes) : option (list sockaddr) :=
  match getlines file [] with
  | [] => None
  | _ :: lines => Some (omap (line_socket family) lines)
  end.

(** * The messages *)
Definition SetPortListener (hvSocketPort : Z) : bytes := header_bytes (mk_header LxGnsMessageSetPortListener 16 0) ++ le_bytes 4 hvSocketPort.
Definition SockToRelayMessage (Type_ : Z) (sock : sockaddr) : bytes :=
  header_bytes (mk_header Type_ 32 0) ++ le_bytes 2 (ss_family sock) ++
  (if ss_family sock =? AF_INET then le_bytes 2 (sin_port sock) ++ le_bytes 4 (nth 0 (s6_addr32 sock) 0) ++ replicate 12 0
   else if ss_family sock =? AF_INET6 then le_bytes 2 (sin_port sock) ++ flat_map (le_bytes 4) (s6_addr32 sock)
   else replicate 18 0).
(** A family that is neither ends the process; sockets of the tables have one of them. *)
Definition IsSameSockAddr (left right : sockaddr) : bool :=
  if negb (ss_family left =? ss_family right) then false
  else if ss_family left =? AF_INET then (nth 0 (s6_addr32 left) 0 =? nth 0 (s6_addr32 right) 0) && (sin_port left =? sin_port right)
  else if ss_family left =? AF_INET6 then
    if negb (sin_port left =? sin_port right) then false
    else forallb (fun part => nth part (s6_addr32 left) 0 =? nth part (s6_addr32 right) 0) (seq 0 4)
  else false.

(** * Scanning *)
Inductive announcement : Type := Start (sock : sockaddr) | Stop (sock : sockaddr).
Definition announce (a : announcement) : bytes :=
  match a with
  | Start s => SockToRelayMessage LxGnsMessagePortListenerRelayStart s
  | Stop s => SockToRelayMessage LxGnsMessagePortListenerRelayStop s
  end.

Section Scan.
(** Whether the n-th message can be sent. *)
Context (ok : nat -> bool).

(** The relays, what was sent so far, and whether all of it could be. *)
Record scan : Type := mk_scan { relays : list sockaddr; sent : list announcement; good : bool }.
Definition send (a : announcement) (s : scan) : bool * scan :=
  let r := ok (length (sent s)) in (r, mk_scan (relays s) (sent s ++ [a]) (good s && r)).

(** std::erase_if: what is kept of the relays. *)
Fixpoint stop_stale (sockets entries : list sockaddr) (s : scan) : list sockaddr * scan :=
  match entries with
  | [] => ([], s)
  | entry :: entries' =>
    if existsb (fun socket => IsSameSockAddr entry socket) sockets then
      let '(kept, s) := stop_stale sockets entries' s in (entry :: kept, s)
    else let '(_, s) := send (Stop entry) s in stop_stale sockets entries' s
  end.
Fixpoint start_new (sockets : list sockaddr) (s : scan) : scan :=
  match sockets with
  | [] => s
  | socket :: sockets' =>
    if existsb (fun entry => IsSameSockAddr entry socket) (relays s) then start_new sockets' s
    else
      let '(r, s) := send (Start socket) s in
      start_new sockets' (if r then mk_scan (relays s ++ [socket]) (sent s) (good s) else s)
  end.
Definition scan_once (sockets : list sockaddr) (s : scan) : scan :=
  let '(kept, s) := stop_stale sockets (relays s) s in start_new sockets (mk_scan kept (sent s) (good s)).

(** How the loop ends: with a value, by an exception, or it goes on. *)
Inductive scan_end : Type := Returned (result : Z) | Threw | Scanning.
(** What fopen finds in one cycle; the files are read one after the other. *)
Definition read_tables (tcp4 tcp6 : option bytes) : option (list sockaddr) :=
  match match tcp4 with Some f => ParseTcpFile AF_INET f | None => Some [] end with
  | None => None
  | Some sockets =>
    match tcp6 with
    | None => Some sockets
    | Some f => option_map (app sockets) (ParseTcpFile AF_INET6 f)
    end
  end.
Fixpoint ScanProcNetTCP (cycles : list (option bytes * option bytes)) (s : scan) : scan_end * scan :=
  match cycles with
  | [] => (Scanning, s)
  | (tcp4, tcp6) :: cycles' =>
    match read_tables tcp4 tcp6 with
    | None => (Threw, s)
    | Some sockets =>
      match tcp4, tcp6 with
      | None, None => (Returned 1, s)
      | _, _ =>
        let s := scan_once sockets s in
        if negb (good s) then (Returned (-1), s) else ScanProcNetTCP cycles' s
      end
    end
  end.
End Scan.

(** * The worker of one connection *)

(** The socket address that is connected to: family, port and address in network order. *)
Definition htons (x : Z) : Z := le_val (rev (le_bytes 2 x)).
Definition relay_target (message : bytes) : option (Z * Z * bytes) :=
  if (length message <? 32)%nat || negb (get32 0 message =? LxInitMessageStartSocketRelay) then None
  else
    let Family := get16 12 message in let Port := get16 14 message in
    if Family =? AF_INET then Some (AF_INET, htons Port, [127; 0; 0; 1])
    else if Family =? AF_INET6 then Some (AF_INET6, htons Port, replicate 15 0 ++ [1])
    else None.

(** What a socket has when poll returns, and whether the write of the data succeeds. *)
Inductive side : Type := Not_ready | Eof | Read_failed | Data (d : bytes) (written : bool).
Inductive round : Type := Poll_failed | Round (relay tcp : side).
Inductive direction : Type := To_tcp | To_relay.
Inductive relay_act : Type := Write (to : direction) (d : bytes) | Shutdown (to : direction).

(** The acts, whether the descriptor is still polled, and whether the worker goes on. *)
Definition relay_side (to : direction) (s : side) : list relay_act * bool * bool :=
  match s with
  | Not_ready => ([], true, true)
  | Eof => ([Shutdown to], false, true)
  | Read_failed => ([], true, false)
  | Data d written => (if written : bool then [Write to d] else [], true, written)
  end.
(** The acts and whether the worker has ended, which closes both sockets. *)
Fixpoint relay_rounds (polled : bool) (rounds : list round) : list relay_act * bool :=
  if negb polled then ([], true)
  else
    match rounds with
    | [] => ([], false)
    | Poll_failed :: _ => ([], true)
    | Round relay tcp :: rounds' =>
      let '(a, p, go) := relay_side To_tcp relay in
      if negb go then (a, true)
      else
        let '(b, q, go) := relay_side To_relay tcp in
        if negb go then (a ++ b, true)
        else let '(l, ended) := relay_rounds (p && q) rounds' in (a ++ b ++ l, ended)
    end.
(** [socket_ok], [connected]: of the socket to the target. *)
Definition relay_worker (message : bytes) (socket_ok connected : bool) (rounds : list round) : list relay_act * bool :=
  match message with
  | [] => ([], true)
  | _ =>
    match relay_target message with
    | None => ([], true)
    | Some _ => if negb socket_ok || negb connected then ([], true) else relay_rounds true rounds
    end
  end.

(** The thread that accepts: how many workers it started, and whether it ended. *)
Inductive listen_event : Type := Listen_poll_failed | Other_revents | Accept_failed | Accepted.
Fixpoint ListenThread (evs : list listen_event) : nat * bool :=
  match evs with
  | [] => (O, false)
  | Accepted :: evs' => let '(n, ended) := ListenThread evs' in (S n, ended)
  | _ :: _ => (O, true)
  end.

(** * Starting *)
Record relay_start : Type := mk_relay_start {
  signal_ok : bool; svm_port : option Z; thread_ok : bool; port_sent : bool; scan_sends : nat -> bool;
  cycles : list (option bytes * option bytes)
}.
Definition initial_scan : scan := mk_scan [] [] true.
(** The return value, [None] while it scans; whether the listener runs; what the scan
    did. *)
Definition StartLocalhostRelay (e : relay_start) (GuestRelayFd : Z) (ScanForPorts : bool) : option Z * bool * scan :=
  if negb (signal_ok e) then (Some (-1), false, initial_scan)
  else
    match svm_port e with
    | None => (Some (-1), false, initial_scan)
    | Some _ =>
      if GuestRelayFd <? 0 then (Some (-1), false, initial_scan)
      else if negb (thread_ok e) then (Some (-1), false, initial_scan)
      else if negb (port_sent e) then (Some (-1), true, initial_scan)
      else if ScanForPorts then
        let '(r, s) := ScanProcNetTCP (scan_sends e) (cycles e) initial_scan in
        (match r with Returned v => Some v | Threw => Some (-1) | Scanning => None end, true, s)
      else (Some 0, true, initial_scan)
    end.

Record tracker_options : Type := mk_tracker_options { BpfFd : Z; PortTrackerFd : Z; NetlinkSocketFd : Z; GuestRelayFd : Z }.
#[export] Instance tracker_options_eta : Eta tracker_options := fun o =>
  mk_tracker_options (BpfFd o) (PortTrackerFd o) (NetlinkSocketFd o) (GuestRelayFd o).
Definition int_argument (set : Z -> tracker_options -> tracker_options) (name : string) : CommandLine.Argument tracker_options :=
  CommandLine.AddArgument (CommandLine.Integer INT_MIN INT_MAX id set) (Some (str name)) 0.
Definition tracker_arguments : list (CommandLine.Argument tracker_options) :=
  [int_argument (fun v o => o <| BpfFd := v |>) "--bpf-fd"; int_argument (fun v o => o <| PortTrackerFd := v |>) "--port-tracker-fd";
   int_argument (fun v o => o <| NetlinkSocketFd := v |>) "--netlink-fd"; int_argument (fun v o => o <| GuestRelayFd := v |>) "--localhost-relay"].

(** The exit status, or what the tracker then runs on. *)
Inductive tracker_run : Type := Exits (status : Z) | Relays | Tracks (o : tracker_options) (relay : bool).
Definition RunPortTracker (UtilIsUtilityVm : bool) (e : relay_start) (argv : list bytes) : tracker_run :=
  if negb UtilIsUtilityVm then Exits (-1)
  else
    match CommandLine.Parse tracker_arguments argv (mk_tracker_options (-1) (-1) (-1) (-1)) with
    | CommandLine.Failed _ => Exits 1
    | CommandLine.Parsed o =>
      let synchronousMode := negb (BpfFd o =? -1) && negb (NetlinkSocketFd o =? -1) in
      let localhostRelay := negb (GuestRelayFd o =? -1) in
      if localhostRelay && negb synchronousMode then
        match StartLocalhostRelay e (GuestRelayFd o) true with
        | (Some ret, _, _) => Exits ret
        | (None, _, _) => Relays
        end
      else if negb synchronousMode then Exits 1
      else Tracks o (if localhostRelay then match StartLocalhostRelay e (GuestRelayFd o) false with (_, started, _) => started end else false)
    end.

End Localhost.
