(* ===== verification/P9State.v ===== *)
(** The Plan 9 file server of the upstream init (src/src/linux/plan9): its data,
    the state of a connection, the system calls it makes and the identity they are
    made under, and the monad its handlers are written in. *)
From stdpp Require Import gmap.
From S2P Require Import Prelude CStr CNum MountInfo.

Module P9State.

(** * Errors (LX_E*: the negated number) and limits *)
Definition EPERM : Z := 1.
Definition ENOENT : Z := 2.
Definition EIO : Z := 5.
Definition EBADF : Z := 9.
Definition EACCES : Z := 13.
Definition EEXIST : Z := 17.
Definition ENOTDIR : Z := 20.
Definition EISDIR : Z := 21.
Definition EINVAL : Z := 22.
Definition EOVERFLOW : Z := 75.
Definition ENOTSUP : Z := 95.
Definition ENOMEM : Z := 12.
Definition LX_PATH_MAX : Z := 4096.
Definition c_InvalidUid : Z := 2 ^ 32 - 1.
Definition c_InvalidGid : Z := 2 ^ 32 - 1.

(** * Data *)

(** QidType. *)
Definition QidFile : Z := 0.
Definition QidSymlink : Z := 2.
Definition QidDirectory : Z := 128.
Record Qid : Type := mk_qid { q_Type : Z; q_Version : Z; q_Path : Z }.

Record StatResult : Type := mk_stat_result {
  Mode : Z; s_Uid : Z; s_Gid : Z; NLink : Z; RDev : Z; Size : Z; BlockSize : Z; Blocks : Z;
  AtimeSec : Z; AtimeNsec : Z; MtimeSec : Z; MtimeNsec : Z; CtimeSec : Z; CtimeNsec : Z
}.
Definition no_stat : StatResult := mk_stat_result 0 0 0 0 0 0 0 0 0 0 0 0 0 0.
#[export] Instance StatResult_eta : Eta StatResult := fun r =>
  mk_stat_result (Mode r) (s_Uid r) (s_Gid r) (NLink r) (RDev r) (Size r) (BlockSize r) (Blocks r)
    (AtimeSec r) (AtimeNsec r) (MtimeSec r) (MtimeNsec r) (CtimeSec r) (CtimeNsec r).

Record StatFsResult : Type := mk_statfs {
  f_Type : Z; f_BlockSize : Z; f_Blocks : Z; f_BlocksFree : Z; f_BlocksAvailable : Z; f_Files : Z; f_FilesFree : Z;
  f_FsId : Z; f_NameLength : Z
}.

(** What stat and readdir report. *)
Record stat_t : Type := mk_stat { st_ino : Z; st_dev : Z; st_attr : StatResult }.
Record dirent : Type := mk_dirent { d_ino : Z; d_off : Z; d_type : Z; d_name : bytes }.

(** The share and the user that a client attached with; roots are compared by
    identity. *)
Record Root : Type := mk_root { RootId : Z; RootFd : Z; Uid : Z; Gid : Z; Groups : list Z }.

Record DirectoryEnumerator : Type := mk_enumerator { e_Fd : Z; m_LastOffset : Z }.
Record File : Type := mk_file {
  m_FileName : bytes; m_Enumerator : option DirectoryEnumerator; m_File : option Z;
  m_Root : Root; m_Qid : Qid; m_Device : Z
}.
#[export] Instance File_eta : Eta File := fun r =>
  mk_file (m_FileName r) (m_Enumerator r) (m_File r) (m_Root r) (m_Qid r) (m_Device r).

Inductive XAccess : Type := X_Read | X_Write.
Record XAttr : Type := mk_xattr {
  x_Root : Root; x_FileName : bytes; x_Name : bytes; x_Value : bytes; x_Access : XAccess; x_Flags : Z
}.
#[export] Instance XAttr_eta : Eta XAttr := fun r =>
  mk_xattr (x_Root r) (x_FileName r) (x_Name r) (x_Value r) (x_Access r) (x_Flags r).

Inductive Fid : Type := F_File (f : File) | F_XAttr (x : XAttr).

(** * System calls *)
Inductive call : Type :=
  | Setgroups (groups : list Z) | Setresgid (egid : Z) | Setresuid (euid : Z)
  | Fstatat (dirfd : Z) (path : bytes) (flags : Z) | Fstat (fd : Z)
  | Openat (dirfd : Z) (path : bytes) (flags mode : Z) | Open (path : bytes) (flags : Z)
  | Readlink (path : bytes) | Readlinkat (dirfd : Z) (path : bytes) (size : Z)
  | Mkdirat (dirfd : Z) (path : bytes) (mode : Z) | Mknodat (dirfd : Z) (path : bytes) (mode major minor : Z)
  | Symlinkat (target : bytes) (dirfd : Z) (path : bytes) | Linkat (dirfd : Z) (old new : bytes)
  | Renameat (dirfd : Z) (old new : bytes) | Unlinkat (dirfd : Z) (path : bytes) (flags : Z)
  | Fchmodat (dirfd : Z) (path : bytes) (mode : Z) | Fchownat (dirfd : Z) (path : bytes) (uid gid : Z)
  | Utimensat (dirfd : Z) (path : bytes) (atime mtime : Z * Z) | Ftruncate (fd size : Z)
  | Fsync (fd : Z) | Fstatfs (fd : Z) | Aio_read (fd offset : Z) (size : Z) | Aio_write (fd offset : Z) (data : bytes)
  | Faccessat (dirfd : Z) (path : bytes) (mode : Z) | Capget
  | Lgetxattr (path name : bytes) (size : Z) | Llistxattr (path : bytes) (size : Z)
  | Lsetxattr (path name value : bytes) (flags : Z) | Lremovexattr (path name : bytes)
  | Fdopendir (fd : Z) | Rewinddir (fd : Z) | Seekdir (fd offset : Z) | Readdir (fd : Z)
  | Closedir (fd : Z) | Close (fd : Z) | Read_mountinfo
  | Getpwuid (uid : Z) | Getgrnam (name : bytes) | Getgrouplist (uid gid : Z).

(** The effective user, group and supplementary groups of the thread. *)
Record ids : Type := mk_ids { e_uid : Z; e_gid : Z; e_groups : list Z }.
#[export] Instance ids_eta : Eta ids := fun r => mk_ids (e_uid r) (e_gid r) (e_groups r).
Definition event : Type := ids * call.

(** What the system answers, which may depend on all that was asked before: the
    result (a negated error number when negative) and what it filled in. *)
Record kernel : Type := mk_kernel {
  k_ret : list event -> call -> Z;
  k_stat : list event -> call -> stat_t;
  k_statfs : list event -> call -> StatFsResult;
  k_data : list event -> call -> bytes;
  k_list : list event -> call -> list Z;
  k_dirent : list event -> call -> option dirent;
  k_io : list event -> call -> Z * Z;
  k_mountinfo : list event -> option (list bytes);
  k_memory : Z -> bool       (* whether a vector of this size can be had *)
}.

(** * State *)

(** The response: the size of its buffer, what was written, and whether it may
    move to a larger buffer. *)
Record MessageResponse : Type := mk_response { MaxSize : Z; written : bytes; m_allowResize : bool }.
#[export] Instance MessageResponse_eta : Eta MessageResponse := fun r =>
  mk_response (MaxSize r) (written r) (m_allowResize r).

Record st : Type := mk_st {
  m_Fids : gmap Z Fid; next_root : Z; m_NegotiatedSize : Z; m_Negotiated : bool; m_AllowRenegotiate : bool; m_Use9P2000W : bool;
  fresh : option Fid;        (* the fid that the request made and that is not in the table *)
  reader : bytes;            (* what the request has left *)
  response : MessageResponse;
  who : ids; trace : list event
}.
#[export] Instance st_eta : Eta st := fun s =>
  mk_st (m_Fids s) (next_root s) (m_NegotiatedSize s) (m_Negotiated s) (m_AllowRenegotiate s) (m_Use9P2000W s)
    (fresh s) (reader s) (response s) (who s) (trace s).

(** * The monad *)

(** An exception carries an error number; [Terminated]: FAIL_FAST, a span that is
    used out of its bounds, or an exception out of a destructor. *)
Inductive outcome (A : Type) : Type := Done (x : A) | Throw (e : Z) | Terminated.
Arguments Done {A} x.
Arguments Throw {A} e.
Arguments Terminated {A}.

Definition M (A : Type) : Type := st -> outcome A * st.
#[export] Instance M_ret : MRet M := fun A x s => (Done x, s).
#[export] Instance M_bind : MBind M := fun A B f m s =>
  match m s with
  | (Done x, s') => f x s'
  | (Throw e, s') => (Throw e, s')
  | (Terminated, s') => (Terminated, s')
  end.
Definition get : M st := fun s => (Done s, s).
Definition modify (f : st -> st) : M unit := fun s => (Done tt, f s).
Definition throw {A} (e : Z) : M A := fun s => (Throw e, s).
Definition terminate {A} : M A := fun s => (Terminated, s).
Definition skip : M unit := mret tt.
Definition when (b : bool) (m : M unit) : M unit := if b then m else skip.

(** A destructor that runs at the end of a scope, on the way out of an exception
    too; it must not throw. *)
Definition scoped {A} (m : M A) (destructor : M unit) : M A := fun s =>
  match m s with
  | (Terminated, s1) => (Terminated, s1)
  | (r, s1) => match destructor s1 with (Done _, s2) => (r, s2) | (_, s2) => (Terminated, s2) end
  end.

(** Expected<T>. *)
Inductive Expected (A : Type) : Type := Value (x : A) | LxError (e : Z).
Arguments Value {A} x.
Arguments LxError {A} e.
(** Return the error, or go on with the value. *)
Definition expect {A B} (m : M (Expected A)) (f : A -> M (Expected B)) : M (Expected B) :=
  r ← m; match r with Value x => f x | LxError e => mret (LxError e) end.

Section Kernel.
Context (K : kernel).

Definition push (c : call) : M unit := modify (fun s => s <| trace := trace s ++ [(who s, c)] |>).
(** A call with its result; the extra results are read before it is recorded. *)
Definition sys (c : call) : M Z := s ← get; push c;; mret (k_ret K (trace s) c).
Definition sys_with {A} (f : kernel -> list event -> call -> A) (c : call) : M (Z * A) :=
  s ← get; push c;; mret (k_ret K (trace s) c, f K (trace s) c).

(** A call that fails with its error, or succeeds. *)
Definition try_sys (c : call) : M (Expected Z) :=
  r ← sys c; mret (if r <? 0 then LxError r else Value r).
Definition try_sys_with {A} (f : kernel -> list event -> call -> A) (c : call) : M (Expected A) :=
  '(r, x) ← sys_with f c; mret (if r <? 0 then LxError r else Value x).
Definition try_sys_data (c : call) : M (Expected (Z * bytes)) :=
  '(r, x) ← sys_with k_data c; mret (if r <? 0 then LxError r else Value (r, x)).
(** THROW_LAST_ERROR_IF. *)
Definition sys_or_throw (c : call) : M Z := r ← sys c; if r <? 0 then throw (- r) else mret r.

(** * FsUserContext *)
Definition set_who (f : ids -> ids) : M unit := modify (fun s => s <| who := f (who s) |>).

Definition FsUserContext (r : Root) : M unit :=
  when (negb (bool_decide (Groups r = [])))
    (sys_or_throw (Setgroups (Groups r));; set_who (fun i => i <| e_groups := Groups r |>));;
  when (negb (Uid r =? c_InvalidUid))
    (sys_or_throw (Setresgid (Gid r));; set_who (fun i => i <| e_gid := Gid r |>);;
     sys_or_throw (Setresuid (Uid r));; set_who (fun i => i <| e_uid := Uid r |>)).
Definition FsUserContext_end (r : Root) : M unit :=
  when (negb (Uid r =? c_InvalidUid))
    (sys_or_throw (Setresuid 0);; set_who (fun i => i <| e_uid := 0 |>);;
     sys_or_throw (Setresgid 0);; set_who (fun i => i <| e_gid := 0 |>));;
  when (negb (bool_decide (Groups r = [])))
    (sys_or_throw (Setgroups []);; set_who (fun i => i <| e_groups := [] |>)).
(** The rest of a scope that begins with a FsUserContext; when its constructor
    throws there is nothing to destruct. *)
Definition as_user {A} (r : Root) (body : M A) : M A := FsUserContext r;; scoped body (FsUserContext_end r).

(** * Descriptors *)
Definition O_CREAT : Z := 64.
Definition O_NOFOLLOW : Z := 131072.
Definition O_CLOEXEC : Z := 524288.
Definition O_WRONLY : Z := 1.
Definition O_PATH : Z := 2097152.

Definition flag (v f : Z) : bool := negb (Z.land v f =? 0).
Definition all_flags (v f : Z) : bool := Z.land v f =? f.

Definition proc_fd (fd : Z) : bytes := str "/proc/self/fd/" ++ dec fd.
Definition GetFdPath (fd : Z) : M bytes :=
  '(r, target) ← sys_with k_data (Readlink (proc_fd fd));
  if r <? 0 then throw (- r) else mret (take (Z.to_nat r) target).

Definition Reopen (fd openFlags : Z) : M (Expected Z) :=
  path ← (if flag openFlags O_NOFOLLOW then GetFdPath fd else mret (proc_fd fd));
  try_sys (Open (to_cstr path) (Z.lor openFlags O_CLOEXEC)).
Definition OpenAt (dirfd : Z) (name : bytes) (openFlags mode : Z) : M (Expected Z) :=
  match name with
  | [] => Reopen dirfd openFlags
  | _ => try_sys (Openat dirfd name (Z.lor openFlags O_CLOEXEC) mode)
  end.
Definition close (fd : Z) : M unit := sys (Close fd);; skip.

(** The destructor of a fid. *)
Definition destroy (f : Fid) : M unit :=
  match f with
  | F_File f =>
    match m_File f with Some fd => close fd | None => skip end;;
    match m_Enumerator f with Some e => sys (Closedir (e_Fd e));; skip | None => skip end
  | F_XAttr _ => skip
  end.

Definition AccessHelper (fd : Z) (path : bytes) (mode : Z) : M Z :=
  p ← match path with [] => GetFdPath fd | _ => mret path end;
  r ← sys (Faccessat fd (to_cstr p) mode);
  mret (if r <? 0 then r else 0).

(** CAP_FOWNER: 0, -EPERM or the error of capget. *)
Definition CheckFOwnerCapability : M Z :=
  '(r, effective) ← sys_with k_list Capget;
  mret (if r <? 0 then r else if flag (nth 0 effective 0) (Z.shiftl 1 3) then 0 else - EPERM).
End Kernel.
End P9State.
