(* ===== verification/P9Proto.v ===== *)
(** The wire format of the upstream Plan 9 server (src/src/linux/plan9): SpanReader
    and SpanWriter (p9protohelpers.h), the encodings of p9commonutil.h, the message
    numbers (p9defs.h), their sizes (p9data.h) and the response buffer. *)
From S2P Require Import Prelude CStr CNum P9State.
Import P9State.

Module P9Proto.

(** * Reading *)

(** A reader gives [None] when the message is too short: FAIL_FAST for the plain
    ones, failure for those called Try. *)
Definition Reader (A : Type) : Type := bytes -> option (A * bytes).
#[export] Instance Reader_ret : MRet Reader := fun A x l => Some (x, l).
#[export] Instance Reader_bind : MBind Reader := fun A B f m l =>
  match m l with Some (x, l') => f x l' | None => None end.

Definition Read (count : Z) : Reader bytes := fun l =>
  if Z.of_nat (length l) <? count then None else Some (take (Z.to_nat count) l, drop (Z.to_nat count) l).
Definition ReadFixed (n : nat) : Reader Z := s ← Read (Z.of_nat n); mret (le_val s).
Definition U8 : Reader Z := ReadFixed 1.
Definition U16 : Reader Z := ReadFixed 2.
Definition U32 : Reader Z := ReadFixed 4.
Definition U64 : Reader Z := ReadFixed 8.

(** A string ends at its first NUL. *)
Definition String : Reader bytes := length ← U16; s ← Read length; mret (to_cstr s).
Definition read_Qid : Reader Qid := t ← U8; v ← U32; p ← U64; mret (mk_qid t v p).
Definition ReadStatResult : Reader StatResult :=
  mode ← U32; uid ← U32; gid ← U32; nlink ← U64; rdev ← U64; size ← U64; blksize ← U64; blocks ← U64;
  asec ← U64; ansec ← U64; msec ← U64; mnsec ← U64; csec ← U64; cnsec ← U64;
  mret (mk_stat_result mode uid gid nlink rdev size blksize blocks asec ansec msec mnsec csec cnsec).

Record DirectoryEntry : Type := mk_entry { de_Qid : Qid; de_Offset : Z; de_Type : Z; de_Name : bytes }.
Definition QidSize : Z := 13.
Definition StatResultSize : Z := 3 * 4 + 11 * 8.
Definition TryDirectoryEntry : Reader DirectoryEntry := fun l =>
  if Z.of_nat (length l) <? QidSize + 8 + 1 + 2 then None
  else (q ← read_Qid; o ← U64; t ← U8; n ← String; mret (mk_entry q o t n)) l.

(** * Writing *)
Definition string_bytes (s : bytes) : bytes := le_bytes 2 (Z.of_nat (length s)) ++ s.
Definition qid_bytes (q : Qid) : bytes := le_bytes 1 (q_Type q) ++ le_bytes 4 (q_Version q) ++ le_bytes 8 (q_Path q).
Definition SpanWriteStatResult (a : StatResult) : bytes :=
  le_bytes 4 (Mode a) ++ le_bytes 4 (s_Uid a) ++ le_bytes 4 (s_Gid a) ++ le_bytes 8 (NLink a) ++ le_bytes 8 (RDev a)
  ++ le_bytes 8 (Size a) ++ le_bytes 8 (BlockSize a) ++ le_bytes 8 (Blocks a) ++ le_bytes 8 (AtimeSec a)
  ++ le_bytes 8 (AtimeNsec a) ++ le_bytes 8 (MtimeSec a) ++ le_bytes 8 (MtimeNsec a) ++ le_bytes 8 (CtimeSec a)
  ++ le_bytes 8 (CtimeNsec a).

(** The entry, when it fits the room that is left. *)
Definition SpanWriteDirectoryEntry (room : Z) (e : DirectoryEntry) (attr : option StatResult) : option bytes :=
  let dirEntrySize := QidSize + 8 + 1 + 2 + Z.of_nat (length (de_Name e))
                      + match attr with Some _ => StatResultSize | None => 0 end in
  if room <? dirEntrySize then None
  else Some (qid_bytes (de_Qid e) ++ le_bytes 8 (de_Offset e) ++ le_bytes 1 (de_Type e) ++ string_bytes (de_Name e)
             ++ match attr with Some a => SpanWriteStatResult a | None => [] end).

(** * Messages *)
Inductive MessageType : Type :=
  | Tlerror | Tstatfs | Tlopen | Tlcreate | Tsymlink | Tmknod | Trename | Treadlink | Tgetattr | Tsetattr
  | Txattrwalk | Txattrcreate | Treaddir | Tfsync | Tlock | Tgetlock | Tlink | Tmkdir | Trenameat | Tunlinkat
  | Tversion | Tauth | Tattach | Tflush | Twalk | Tread | Twrite | Tclunk | Tremove | Taccess | Twreaddir | Twopen.
Definition message_types : list (MessageType * Z) :=
  [(Tlerror, 6); (Tstatfs, 8); (Tlopen, 12); (Tlcreate, 14); (Tsymlink, 16); (Tmknod, 18); (Trename, 20);
   (Treadlink, 22); (Tgetattr, 24); (Tsetattr, 26); (Txattrwalk, 30); (Txattrcreate, 32); (Treaddir, 40);
   (Tfsync, 50); (Tlock, 52); (Tgetlock, 54); (Tlink, 70); (Tmkdir, 72); (Trenameat, 74); (Tunlinkat, 76);
   (Tversion, 100); (Tauth, 102); (Tattach, 104); (Tflush, 108); (Twalk, 110); (Tread, 116); (Twrite, 118);
   (Tclunk, 120); (Tremove, 122); (Taccess, 128); (Twreaddir, 130); (Twopen, 132)].
Definition message_type (n : Z) : option MessageType :=
  option_map fst (List.find (fun p => snd p =? n) message_types).

Definition HeaderSize : Z := 7.
Definition attributes_size : Z := 4 + 4 + 4 + 8 * 11 + 8 * 4.
(** The size of the reply to a message, without its dynamic parts. *)
Definition GetMessageSize (reply_to : MessageType) : Z :=
  HeaderSize +
  match reply_to with
  | Tversion => 4 + 2
  | Twalk => 2
  | Tread | Twrite | Treaddir | Twreaddir => 4
  | Tauth | Tattach | Tsymlink | Tmknod | Tmkdir => 13
  | Tlerror => 4
  | Tstatfs => 4 + 4 + 8 * 6 + 4
  | Tlopen | Tlcreate => 13 + 4
  | Treadlink => 2
  | Tgetattr => 8 + 13 + attributes_size
  | Txattrwalk => 8
  | Tlock => 1
  | Tgetlock => 1 + 8 + 8 + 4 + 2
  | Twopen => 1 + 2 + 13 + 2 + 4 + attributes_size
  | _ => 0
  end.

(** * The request and the response in the monad *)

(** Take something from the request. *)
Definition rd {A} (r : Reader A) : M A := fun s =>
  match r (reader s) with
  | Some (x, l) => (Done x, s <| reader := l |>)
  | None => (Terminated, s)
  end.

Definition has_slash (s : bytes) : bool := existsb (fun c => c =? c_slash) s.
(** A name of a directory entry. *)
Definition valid_name (s : bytes) : bool :=
  negb (is_empty s || list_eqb s (str ".") || list_eqb s (str "..") || has_slash s).
Definition Name : M bytes := s ← rd String; if valid_name s then mret s else throw EINVAL.

(** Put something into the response; a span has to hold it. *)
Definition emit (b : bytes) : M unit := fun s =>
  let r := response s in
  if MaxSize r <? Z.of_nat (length (written r) + length b) then (Terminated, s)
  else (Done tt, s <| response := r <| written := written r ++ b |> |>).
Definition u8 (v : Z) : M unit := emit (le_bytes 1 v).
Definition u16 (v : Z) : M unit := emit (le_bytes 2 v).
Definition u32 (v : Z) : M unit := emit (le_bytes 4 v).
Definition u64 (v : Z) : M unit := emit (le_bytes 8 v).
Definition put_string (v : bytes) : M unit := if 65535 <? Z.of_nat (length v) then terminate else emit (string_bytes v).

(** Skip the header, which is written last. *)
Definition empty_response (size : Z) (allowResize : bool) : MessageResponse :=
  mk_response size (replicate 7 0) allowResize.

Definition EnsureSize (message : MessageType) (extraSize : Z) : M unit :=
  s ← get;
  let size := GetMessageSize message + extraSize in
  if m_NegotiatedSize s <? size then throw EINVAL
  else if MaxSize (response s) <? size then
    if m_allowResize (response s) then modify (fun s => s <| response := empty_response size true |>)
    else throw EINVAL
  else skip.

(** What is left of the response buffer. *)
Definition room (s : st) : Z := MaxSize (response s) - Z.of_nat (length (written (response s))).

(** The header over what was written. *)
Definition with_header (type tag : Z) (w : bytes) : bytes :=
  le_bytes 4 (Z.of_nat (length w)) ++ le_bytes 1 type ++ le_bytes 2 tag ++ drop 7 w.
End P9Proto.
