(* ===== verification/P9File.v ===== *)
(** The files of the share (src/src/linux/plan9/p9file.cpp) and extended attributes
    (p9xattr.cpp): one definition per method.  A method works on the fid in one
    place: an entry of the connection's table, or the fid that the request makes. *)
From stdpp Require Import gmap.
From S2P Require Import Prelude CStr CNum MountInfo P9State P9Proto.
Import P9State P9Proto.

Module P9File.

(** * Fids and their places *)
Inductive place : Type := Slot (fid : Z) | Fresh.
Definition place_get (s : st) (p : place) : option Fid :=
  match p with Slot fid => m_Fids s !! fid | Fresh => fresh s end.
Definition place_set (p : place) (f : Fid) (s : st) : st :=
  match p with Slot fid => s <| m_Fids := <[fid := f]> (m_Fids s) |> | Fresh => s <| fresh := Some f |> end.

(** A method of File; the base class answers for other fids with EINVAL. *)
Definition with_file {A} (p : place) (other : M A) (f : File -> M A) : M A :=
  s ← get; match place_get s p with Some (F_File file) => f file | _ => other end.
Definition put (p : place) (f : File) : M unit := modify (place_set p (F_File f)).
Definition invalid {A} : M (Expected A) := mret (LxError (- EINVAL)).

(** * Flags of open *)

(** The pairs of 9P2000.L and Linux flags. *)
Definition c_openFlagsMapping : list (Z * Z) :=
  [(1, 1); (2, 2); (64, 64); (128, 128); (256, 256); (512, 512); (1024, 1024); (2048, 2048); (4096, 4096);
   (8192, 8192); (16384, 16384); (32768, 32768); (65536, 65536); (131072, 131072); (262144, 262144);
   (524288, 524288); (1048576, 1052672)].
Definition OpenFlagsToLinuxFlags (flags : Z) : Z :=
  foldl (fun result '(p9, linux) => if all_flags flags p9 then Z.lor result linux else result) 0 c_openFlagsMapping.

(** * Names and attributes *)
Definition AppendPath (Base Name : bytes) : bytes :=
  (if negb (is_empty Base) && negb (List.last Base 0 =? c_slash) then Base ++ [c_slash] else Base) ++ Name.
(** The name without its last segment. *)
Definition parent_name (name : bytes) : bytes :=
  match drop_while (fun c => negb (c =? c_slash)) (rev name) with [] => [] | _ :: r => rev r end.

Definition S_IFMT (mode : Z) : Z := Z.land mode 61440.
Definition ModeToQidType (mode : Z) : Z :=
  if S_IFMT mode =? 40960 then QidSymlink else if S_IFMT mode =? 16384 then QidDirectory else QidFile.
Definition StatToQid (x : stat_t) : Qid := mk_qid (ModeToQidType (Mode (st_attr x))) 0 (st_ino x).
Definition is_directory (q : Qid) : bool := flag (q_Type q) QidDirectory.

Definition AT_NOFOLLOW_EMPTY : Z := 256 + 4096.
Definition AT_EMPTY_PATH : Z := 4096.
Definition AT_REMOVEDIR : Z := 512.

Section Kernel.
Context (K : kernel).
Abbreviation sys := (sys K).
Abbreviation try_sys := (try_sys K).
Abbreviation as_user := (as_user K).
Abbreviation close := (close K).

(** The result of a call that returns nothing else. *)
Definition lx (c : call) : M Z := r ← sys c; mret (if r <? 0 then r else 0).

Definition GetFileQidByPath (fd : Z) (path : bytes) : M (Expected Qid) :=
  expect (try_sys_with K k_stat (Fstatat fd path AT_NOFOLLOW_EMPTY)) (fun x => mret (Value (StatToQid x))).

Definition Stat (f : File) : M (Expected stat_t) :=
  try_sys_with K k_stat (Fstatat (RootFd (m_Root f)) (m_FileName f) AT_NOFOLLOW_EMPTY).
Definition OpenFile (f : File) (openFlags : Z) : M (Expected Z) :=
  OpenAt K (RootFd (m_Root f)) (m_FileName f) (Z.lor openFlags O_NOFOLLOW) 384.
Definition IsOpen (f : File) : bool :=
  match m_File f, m_Enumerator f with None, None => false | _, _ => true end.

Definition ValidateExists (f : File) : M (Expected File) :=
  expect (Stat f) (fun x => mret (Value (f <| m_Qid := StatToQid x |> <| m_Device := st_dev x |>))).

(** CreateFile, with File::Initialize. *)
Definition CreateFile (root : Root) (uid : Z) : M (Expected (File * Qid)) :=
  as_user root (expect (ValidateExists (mk_file [] None None root (mk_qid 0 0 0) 0))
    (fun f => mret (Value (f, m_Qid f)))).

(** The copy has no open file and, since the constructor leaves it out, device 0. *)
Definition Clone (f : File) : File := mk_file (m_FileName f) None None (m_Root f) (m_Qid f) 0.

(** The file systems whose files are not served. *)
Definition denied_type (t : bytes) : bool :=
  strcmp_eq t (str "drvfs") || strcmp_eq t (str "9p") || strcmp_eq t (str "virtiofs").
(** The type of the first mount with the device; a file that cannot be read is as
    one without it. *)
Definition mount_denied (mountinfo : option (list bytes)) (device : Z) : bool :=
  match mountinfo with
  | None => false
  | Some lines =>
    match List.find (fun e => MountInfo.Device e =? device)
            (MountInfo.enumerate (S (length lines)) lines MountInfo.no_entry) with
    | Some e => denied_type (MountInfo.FileSystemType e)
    | None => false
    end
  end.

(** What the name is set back to when Walk fails: a name without a slash is taken
    for a child of the root. *)
Definition Walk (p : place) (name : bytes) : M (Expected Qid) :=
  with_file p invalid (fun f =>
    if negb (is_directory (m_Qid f)) then mret (LxError (- ENOTDIR))
    else
      let child := f <| m_FileName := AppendPath (m_FileName f) name |> in
      let restored := f <| m_FileName := parent_name (m_FileName child) |> in
      put p restored;;
      as_user (m_Root f) (expect (ValidateExists child) (fun child =>
        s ← get;
        denied ← (if negb (m_Device f =? m_Device child) then
                    push Read_mountinfo;; mret (mount_denied (k_mountinfo K (trace s)) (m_Device child))
                  else mret false);
        if denied : bool then mret (LxError (- EACCES)) else put p child;; mret (Value (m_Qid child))))).

(** * Attributes *)
Definition take_attributes (mask : Z) (a : StatResult) : Z * StatResult :=
  let set f (upd : StatResult -> StatResult) (x : Z * StatResult) :=
    if flag mask f then (Z.lor (fst x) f, upd (snd x)) else x in
  let x := (256, no_stat) in
  let x := set 1 (fun r => r <| Mode := Mode a |>) x in
  let x := set 2 (fun r => r <| NLink := NLink a |>) x in
  let x := set 16 (fun r => r <| RDev := RDev a |>) x in
  let x := set 512 (fun r => r <| Size := Size a |>) x in
  let x := set 1024 (fun r => r <| BlockSize := BlockSize a |> <| Blocks := Blocks a |>) x in
  let x := set 32 (fun r => r <| AtimeSec := AtimeSec a |> <| AtimeNsec := AtimeNsec a |>) x in
  let x := set 64 (fun r => r <| MtimeSec := MtimeSec a |> <| MtimeNsec := MtimeNsec a |>) x in
  let x := set 128 (fun r => r <| CtimeSec := CtimeSec a |> <| CtimeNsec := CtimeNsec a |>) x in
  let x := set 4 (fun r => r <| s_Uid := s_Uid a |>) x in
  set 8 (fun r => r <| s_Gid := s_Gid a |>) x.

Definition GetAttr (p : place) (mask : Z) : M (Expected (Z * Qid * StatResult)) :=
  with_file p invalid (fun f =>
    as_user (m_Root f) (expect (Stat f) (fun x =>
      let '(valid, result) := take_attributes mask (st_attr x) in
      mret (Value (valid, m_Qid f, result))))).

Definition UTIME_NOW : Z := 2 ^ 30 - 1.
Definition UTIME_OMIT : Z := 2 ^ 30 - 2.

(** One step of SetAttr: an error ends it, success clears the pending ctime. *)
Definition attr_step (wanted : bool) (step : M Z) (rest : bool -> M Z) (need : bool) : M Z :=
  if wanted then r ← step; if r <? 0 then mret r else rest false else rest need.

Definition set_size (f : File) (size : Z) : M Z :=
  r ← OpenFile f O_WRONLY;
  match r with
  | LxError e => mret e
  | Value fd => scoped (lx (Ftruncate fd size)) (close fd)
  end.

Definition set_time (valid set_flag now_flag sec nsec : Z) : Z * Z :=
  if flag valid set_flag then if flag valid now_flag then (sec, nsec) else (0, UTIME_NOW) else (0, UTIME_OMIT).

Definition SetAttr (p : place) (valid : Z) (a : StatResult) : M Z :=
  with_file p (mret (- EINVAL)) (fun f =>
    let fd := RootFd (m_Root f) in
    let name := m_FileName f in
    let uid := if flag valid 2 then s_Uid a else c_InvalidUid in
    let gid := if flag valid 4 then s_Gid a else c_InvalidGid in
    as_user (m_Root f)
      (attr_step (flag valid 8) (set_size f (Size a))
        (attr_step (flag valid 1) (lx (Fchmodat fd name (Mode a)))
          (attr_step (flag valid 6) (lx (Fchownat fd name uid gid))
            (attr_step (flag valid 48)
               (lx (Utimensat fd name (set_time valid 16 128 (AtimeSec a) (AtimeNsec a))
                                      (set_time valid 32 256 (MtimeSec a) (MtimeNsec a))))
              (fun needCTimeUpdate =>
                 if needCTimeUpdate : bool then lx (Fchownat fd name c_InvalidUid c_InvalidGid) else mret 0))))
        (flag valid 64))).

(** * Opening and creating *)
Definition Open (p : place) (flags : Z) : M (Expected Qid) :=
  with_file p invalid (fun f =>
    if IsOpen f then invalid
    else
      as_user (m_Root f)
        (expect (OpenAt K (RootFd (m_Root f)) (m_FileName f)
                   (Z.lor (OpenFlagsToLinuxFlags (Z.ldiff flags 64)) O_NOFOLLOW) 384)
           (fun fd => put p (f <| m_File := Some fd |>);; mret (Value (m_Qid f))))).

(** A failed fstat closes the new file, which stays on the disk. *)
Definition Create (p : place) (name : bytes) (flags mode : Z) : M (Expected Qid) :=
  with_file p invalid (fun f =>
    if IsOpen f then invalid
    else
      as_user (m_Root f)
        (let newFileName := AppendPath (m_FileName f) name in
         expect (OpenAt K (RootFd (m_Root f)) newFileName
                   (Z.lor (Z.lor (OpenFlagsToLinuxFlags flags) O_CREAT) O_NOFOLLOW) mode)
           (fun fd =>
              '(r, x) ← sys_with K k_stat (Fstat fd);
              if r <? 0 then close fd;; mret (LxError r)
              else
                put p (f <| m_FileName := newFileName |> <| m_File := Some fd |> <| m_Qid := StatToQid x |>
                         <| m_Device := st_dev x |>);;
                mret (Value (StatToQid x))))).

(** An entry made by a call, with its qid. *)
Definition make_entry (p : place) (name : bytes) (make : Z -> bytes -> call) : M (Expected Qid) :=
  with_file p invalid (fun f =>
    let fd := RootFd (m_Root f) in
    let path := AppendPath (m_FileName f) name in
    as_user (m_Root f) (expect (try_sys (make fd path)) (fun _ => GetFileQidByPath fd path))).
Definition MkDir (p : place) (name : bytes) (mode : Z) : M (Expected Qid) :=
  make_entry p name (fun fd path => Mkdirat fd path mode).
Definition SymLink (p : place) (name target : bytes) : M (Expected Qid) :=
  make_entry p name (fun fd path => Symlinkat target fd path).
Definition MkNod (p : place) (name : bytes) (mode major minor : Z) : M (Expected Qid) :=
  make_entry p name (fun fd path => Mknodat fd path mode major minor).

(** * Reading and writing *)
(** What a buffer of a call holds afterwards, of which [n] bytes are used. *)
Definition filled (n : Z) (data : bytes) : bytes := take (Z.to_nat n) (data ++ replicate (Z.to_nat n) 0).

(** XAttr::GetValue: the value of the attribute, or the list of all of them when
    it has no name; with no buffer the size alone. *)
Definition GetValue (x : XAttr) (size : Z) : M (Expected (Z * bytes)) :=
  as_user (x_Root x)
    (try_sys_data K (if is_empty (x_Name x) then Llistxattr (x_FileName x) size
                     else Lgetxattr (x_FileName x) (x_Name x) size)).

(** The bytes read into a buffer of [size] bytes. *)
Definition XAttr_Read (x : XAttr) (offset size : Z) : M (Expected bytes) :=
  match x_Access x with
  | X_Write => invalid
  | X_Read =>
    if negb (offset =? 0) then invalid
    else expect (GetValue x size) (fun '(r, data) => mret (Value (filled r data)))
  end.
Definition File_Read (f : File) (offset size : Z) : M (Expected bytes) :=
  match m_File f with
  | None => mret (LxError (- EBADF))
  | Some fd =>
    s ← get;
    let c := Aio_read fd offset size in
    push c;;
    let '(error, transferred) := k_io K (trace s) c in
    if negb (error =? 0) && negb (error =? - EOVERFLOW) then mret (LxError error)
    else mret (Value (filled transferred (k_data K (trace s) c)))
  end.
Definition Read (p : place) (offset size : Z) : M (Expected bytes) :=
  s ← get;
  match place_get s p with
  | Some (F_File f) => File_Read f offset size
  | Some (F_XAttr x) => XAttr_Read x offset size
  | None => invalid
  end.

(** The bytes written. *)
Definition XAttr_Write (p : place) (x : XAttr) (offset : Z) (buffer : bytes) : M (Expected Z) :=
  match x_Access x with
  | X_Read => invalid
  | X_Write =>
    if Z.of_nat (length (x_Value x)) <? offset then mret (Value 0)
    else
      let o := Z.to_nat offset in
      let length := Nat.min (length buffer) (length (x_Value x) - o) in
      modify (place_set p (F_XAttr (x <| x_Value := take o (x_Value x) ++ take length buffer
                                                 ++ drop (o + length) (x_Value x) |>)));;
      mret (Value (Z.of_nat length))
  end.
Definition File_Write (f : File) (offset : Z) (buffer : bytes) : M (Expected Z) :=
  match m_File f with
  | None => mret (LxError (- EBADF))
  | Some fd =>
    s ← get;
    let c := Aio_write fd offset buffer in
    push c;;
    let '(error, transferred) := k_io K (trace s) c in
    if negb (error =? 0) then mret (LxError error) else mret (Value transferred)
  end.
Definition Write (p : place) (offset : Z) (buffer : bytes) : M (Expected Z) :=
  s ← get;
  match place_get s p with
  | Some (F_File f) => File_Write f offset buffer
  | Some (F_XAttr x) => XAttr_Write p x offset buffer
  | None => invalid
  end.

Definition ReadLink (p : place) (size : Z) : M (Expected bytes) :=
  with_file p invalid (fun f =>
    as_user (m_Root f)
      (expect (try_sys_data K (Readlinkat (RootFd (m_Root f)) (m_FileName f) size))
         (fun '(r, target) => mret (Value (filled r target))))).

Definition Fsync (p : place) : M Z :=
  with_file p (mret (- EINVAL)) (fun f =>
    match m_File f with None => mret (- EINVAL) | Some fd => lx (Fsync fd) end).

(** The file is opened before the thread takes the user's identity. *)
Definition StatFs (p : place) : M (Expected StatFsResult) :=
  with_file p invalid (fun f =>
    r ← OpenFile f O_PATH;
    match r with
    | LxError e => mret (LxError e)
    | Value fd =>
      scoped (as_user (m_Root f) (try_sys_with K k_statfs (Fstatfs fd))) (close fd)
    end).

(** * Directories *)

(** The position of the stream is known after each entry that was read. *)
Definition set_enumerator (p : place) (f : File) (e : DirectoryEnumerator) : M unit :=
  put p (f <| m_Enumerator := Some e |>).
Definition Seek (e : DirectoryEnumerator) (offset : Z) : M DirectoryEnumerator :=
  if offset =? m_LastOffset e then mret e
  else
    sys (if offset =? 0 then Rewinddir (e_Fd e) else Seekdir (e_Fd e) offset);;
    mret (mk_enumerator (e_Fd e) offset).

(** The attributes of an entry; those of . and .. are those of the directory. *)
Definition entry_attributes (fd : Z) (entry : dirent) : M StatResult :=
  let name := if strcmp_eq (d_name entry) (str ".") || strcmp_eq (d_name entry) (str "..") then [] else d_name entry in
  '(r, x) ← sys_with K k_stat (Fstatat fd name AT_NOFOLLOW_EMPTY);
  mret (if r <? 0 then no_stat <| Mode := Z.shiftl (d_type entry) 12 |> <| NLink := 1 |> else st_attr x).
Definition DirEntryTypeToQidType (type : Z) : Z :=
  if type =? 4 then QidDirectory else if type =? 10 then QidSymlink else QidFile.

(** Entries until one does not fit; [written] tells whether one did. *)
Fixpoint readdir_loop (fuel : nat) (p : place) (f : File) (e : DirectoryEnumerator) (attributes : bool)
    (left : Z) (out : bytes) (written : bool) : M (Expected bytes) :=
  match fuel with
  | O => mret (Value out)
  | S fuel' =>
    '(r, next) ← sys_with K k_dirent (Readdir (e_Fd e));
    match next with
    | None => if r <? 0 then throw (- r) else mret (Value out)
    | Some entry =>
      let e := mk_enumerator (e_Fd e) (d_off entry) in
      set_enumerator p f e;;
      attr ← (if attributes then a ← entry_attributes (e_Fd e) entry; mret (Some a) else mret None);
      let de := mk_entry (mk_qid (DirEntryTypeToQidType (d_type entry)) 0 (d_ino entry)) (d_off entry) (d_type entry) (d_name entry) in
      match SpanWriteDirectoryEntry left de attr with
      | Some b =>
        if 65535 <? Z.of_nat (length (d_name entry)) then terminate else
        readdir_loop fuel' p f e attributes (left - Z.of_nat (length b)) (out ++ b) true
      | None => mret (if written then Value out else LxError (- EINVAL))
      end
    end
  end.

(** The directory stream takes the descriptor over on the first call. *)
Definition ReadDir (p : place) (offset count : Z) (attributes : bool) : M (Expected bytes) :=
  with_file p invalid (fun f =>
    let read f e :=
      e ← Seek e offset;
      set_enumerator p f e;;
      readdir_loop (S (Z.to_nat (count / 24))) p f e attributes count [] false in
    match m_Enumerator f, m_File f with
    | Some e, _ => read f e
    | None, Some fd =>
      r ← sys (Fdopendir fd);
      if r <? 0 then throw (- r)
      else let f := f <| m_File := None |> in read f (mk_enumerator fd 0)
    | None, None => mret (LxError (- EBADF))
    end).

(** * Entries of directories *)
Definition UnlinkAt (p : place) (name : bytes) (flags : Z) : M Z :=
  with_file p (mret (- EINVAL)) (fun f =>
    as_user (m_Root f) (lx (Unlinkat (RootFd (m_Root f)) (AppendPath (m_FileName f) name) flags))).

Definition Remove (p : place) : M Z :=
  with_file p (mret (- EINVAL)) (fun f =>
    match m_FileName f with
    | [] => mret (- EPERM)
    | name => as_user (m_Root f)
                (lx (Unlinkat (RootFd (m_Root f)) name (if is_directory (m_Qid f) then AT_REMOVEDIR else 0)))
    end).

(** The other fid of a call must be a file of the same root. *)
Definition on_root (f : File) (p : place) (body : File -> M Z) : M Z :=
  s ← get;
  match place_get s p with
  | Some (F_File other) => if RootId (m_Root other) =? RootId (m_Root f) then body other else mret (- EINVAL)
  | _ => mret (- EINVAL)
  end.

Definition RenameAt (p : place) (oldName : bytes) (newParent : place) (newName : bytes) : M Z :=
  with_file p (mret (- EINVAL)) (fun f => on_root f newParent (fun newParentFile =>
    as_user (m_Root f) (lx (Renameat (RootFd (m_Root f)) (AppendPath (m_FileName f) oldName)
                              (AppendPath (m_FileName newParentFile) newName))))).

(** The fid follows its file. *)
Definition Rename (p newParent : place) (newName : bytes) : M Z :=
  with_file p (mret (- EINVAL)) (fun f => on_root f newParent (fun newParentFile =>
    match m_FileName f with
    | [] => mret (- EPERM)
    | oldPath =>
      let newPath := AppendPath (m_FileName newParentFile) newName in
      as_user (m_Root f)
        (r ← lx (Renameat (RootFd (m_Root f)) oldPath newPath);
         if r <? 0 then mret r else put p (f <| m_FileName := newPath |>);; mret 0)
    end)).

Definition Link (p : place) (newName : bytes) (target : place) : M Z :=
  with_file p (mret (- EINVAL)) (fun f => on_root f target (fun targetFile =>
    as_user (m_Root f) (lx (Linkat (RootFd (m_Root f)) (m_FileName targetFile) (AppendPath (m_FileName f) newName))))).

(** * Access *)

(** May the file be deleted: write access to the directory and, if that is
    sticky, the right to override it or ownership of one of them. *)
Definition delete_access (f : File) : M Z :=
  let fd := RootFd (m_Root f) in
  match m_FileName f with
  | [] => mret (- EACCES)
  | name =>
    let parentPath := parent_name name in
    result ← AccessHelper K fd parentPath 2;
    if result <? 0 then mret result
    else
      '(r, x) ← sys_with K k_stat (Fstatat fd parentPath AT_EMPTY_PATH);
      if r <? 0 then mret r
      else if negb (flag (Mode (st_attr x)) 512) then mret 0
      else
        result ← CheckFOwnerCapability K;
        if result =? 0 then mret 0
        else if negb (result =? - EPERM) then mret result
        else
          s ← get;
          if e_uid (who s) =? s_Uid (st_attr x) then mret 0
          else
            '(r, x) ← sys_with K k_stat (Fstatat fd name AT_EMPTY_PATH);
            if r <? 0 then mret r
            else if e_uid (who s) =? s_Uid (st_attr x) then mret 0
            else mret (- EACCES)
  end.

Definition AccessDelete : Z := 8.
Definition Access (p : place) (flags : Z) : M Z :=
  with_file p (mret (- ENOTSUP)) (fun f =>
    as_user (m_Root f)
      (result ← AccessHelper K (RootFd (m_Root f)) (m_FileName f) (Z.ldiff flags AccessDelete);
       if result <? 0 then mret result
       else if negb (flag flags AccessDelete) then mret 0
       else delete_access f)).

(** * Extended attributes *)
Definition xattr_path (f : File) : M bytes :=
  path ← GetFdPath K (RootFd (m_Root f)); mret (AppendPath path (m_FileName f)).

Definition XattrWalk (p : place) (name : bytes) : M (Expected XAttr) :=
  with_file p invalid (fun f =>
    path ← xattr_path f; mret (Value (mk_xattr (m_Root f) path name [] X_Read 0))).

(** The value of the attribute is a vector of the size that the client gives. *)
Definition XattrCreate (p : place) (name : bytes) (size flags : Z) : M (Expected XAttr) :=
  with_file p invalid (fun f =>
    if IsOpen f then invalid
    else
      path ← xattr_path f;
      if 2 ^ 63 - 1 <? size then throw EINVAL
      else if negb (k_memory K size) then throw ENOMEM
      else mret (Value (mk_xattr (m_Root f) path name (replicate (Z.to_nat size) 0) X_Write flags))).

(** Clunk of an attribute for writing sets or removes it, under the identity that
    the thread has. *)
Definition Clunk (f : Fid) : M Z :=
  match f with
  | F_XAttr x =>
    match x_Access x with
    | X_Read => mret 0
    | X_Write =>
      lx (if is_empty (x_Value x) then Lremovexattr (x_FileName x) (x_Name x)
          else Lsetxattr (x_FileName x) (x_Name x) (x_Value x) (x_Flags x))
    end
  | F_File _ => mret 0
  end.
End Kernel.
End P9File.
