(* ===== verification/P9Handler.v ===== *)
(** The message handlers of the upstream Plan 9 server
    (src/src/linux/plan9/p9handler.cpp and, for Tattach, p9fs.cpp): one definition
    per handler, the dispatcher, and the processing of one message into its reply. *)
From stdpp Require Import gmap.
From S2P Require Import Prelude CStr CNum P9State P9Proto P9File.
Import P9State P9Proto P9File.

Module P9Handler.

(** * Fids *)
Definition find_fid (fid : Z) : M (option Fid) := s ← get; mret (m_Fids s !! fid).
(** THROW_UNEXPECTED_IF: the fid must be in the table. *)
Definition LookupFid (fid : Z) : M Fid :=
  f ← find_fid fid; match f with Some f => mret f | None => throw EINVAL end.

Definition set_fresh (f : option Fid) : M unit := modify (fun s => s <| fresh := f |>).
(** Fid::Clone of the base class throws. *)
Definition clone_fid (f : Fid) : M File :=
  match f with F_File f => set_fresh (Some (F_File (Clone f)));; mret (Clone f) | F_XAttr _ => throw EINVAL end.
(** The fid of the request goes into the table. *)
Definition EmplaceFid (fid : Z) : M unit :=
  s ← get;
  match m_Fids s !! fid, fresh s with
  | None, Some f => modify (fun s => s <| m_Fids := <[fid := f]> (m_Fids s) |> <| fresh := None |>)
  | _, _ => throw EINVAL
  end.

(** * Shares *)
Definition shares : Type := list (bytes * Z).
Definition share_get (l : shares) (name : bytes) : option Z :=
  option_map snd (List.find (fun p => list_eqb (fst p) name) l).
Definition share_add (l : shares) (name : bytes) (rootFd : Z) : option shares :=
  match share_get l name with Some _ => None | None => Some (l ++ [(name, rootFd)]) end.
Definition share_remove (l : shares) (name : bytes) : option shares :=
  match share_get l name with Some _ => Some (List.filter (fun p => negb (list_eqb (fst p) name)) l) | None => None end.

Definition IoUnit : Z := 0.
Definition MinimumRequestBufferSize : Z := 4096.
Definition MaximumRequestBufferSize : Z := 256 * 1024.
Definition InitialResponseBufferSize : Z := 64.
Definition c_staticBufferSize : Z := 256.
Definition c_createRetryCount : nat := 3.
Definition ProtocolVersionL : bytes := str "9P2000.L".
Definition ProtocolVersionW : bytes := str "9P2000.W".

Section Kernel.
Context (K : kernel) (m_ShareList : shares).

(** The reply of a handler that ends in an error, or in what writes the response. *)
Definition reply {A} (m : M (Expected A)) (f : A -> M unit) : M Z :=
  r ← m; match r with LxError e => mret e | Value x => f x;; mret 0 end.
Definition reply_qid (message : MessageType) (m : M (Expected Qid)) : M Z :=
  reply m (fun q => EnsureSize message 0;; emit (qid_bytes q)).

(** * Connections *)
Definition HandleVersion : M Z :=
  s ← get;
  if m_Negotiated s && negb (m_AllowRenegotiate s) then mret (- ENOTSUP)
  else
    size ← rd U32;
    version ← rd String;
    if size <? MinimumRequestBufferSize then mret (- ENOTSUP)
    else
      let use9P2000W := list_eqb version ProtocolVersionW in
      if negb use9P2000W && negb (list_eqb version ProtocolVersionL) then mret (- ENOTSUP)
      else
        let size := Z.min size MaximumRequestBufferSize in
        if m_Negotiated s && (negb (Bool.eqb use9P2000W (m_Use9P2000W s)) || negb (size =? m_NegotiatedSize s))
        then mret (- ENOTSUP)
        else
          modify (fun s => s <| m_Use9P2000W := use9P2000W |> <| m_NegotiatedSize := size |> <| m_Negotiated := true |>);;
          EnsureSize Tversion (Z.of_nat (length version));;
          u32 size;; put_string version;; mret 0.

(** A failed look-up in the password or group file gives no group. *)
Definition GetUserGroupId (uid : Z) : M Z := r ← sys K (Getpwuid uid); mret (if r <? 0 then c_InvalidGid else r).
Definition GetGroupIdByName (name : bytes) : M Z := r ← sys K (Getgrnam name); mret (if r <? 0 then c_InvalidGid else r).

(** The constructor of Root looks up the groups of the user. *)
Definition make_root (fd uid gid : Z) : M Root :=
  groups ← (if uid =? c_InvalidUid then mret []
            else '(r, l) ← sys_with K k_list (Getgrouplist uid gid); mret (if r <? 0 then [] else l));
  s ← get;
  modify (fun s => s <| next_root := next_root s + 1 |>);;
  mret (mk_root (next_root s) fd uid gid groups).
Definition MakeRoot (aname : bytes) (uid : Z) : M (Expected Root) :=
  match share_get m_ShareList aname with
  | None => mret (LxError (- ENOENT))
  | Some fd =>
    s ← get;
    if uid =? e_uid (who s) then r ← make_root fd c_InvalidUid c_InvalidGid; mret (Value r)
    else if negb (e_uid (who s) =? 0) then mret (LxError (- EPERM))
    else
      gid ← GetUserGroupId uid;
      gid ← (if gid =? c_InvalidGid then GetGroupIdByName (str "nobody") else mret gid);
      if gid =? c_InvalidGid then mret (LxError (- EINVAL))
      else r ← make_root fd uid gid; mret (Value r)
  end.

Definition HandleAttach : M Z :=
  fid ← rd U32; _ ← rd U32; _ ← rd String; aname ← rd String; uid ← rd U32;
  root ← MakeRoot aname uid;
  match root with
  | LxError e => mret e
  | Value root =>
    reply (CreateFile K root uid) (fun '(file, qid) =>
      set_fresh (Some (F_File file));; EmplaceFid fid;; EnsureSize Tattach 0;; emit (qid_bytes qid))
  end.

Definition HandleClunk : M Z :=
  fid ← rd U32;
  f ← find_fid fid;
  match f with
  | None => mret (- EINVAL)
  | Some item =>
    modify (fun s => s <| m_Fids := delete fid (m_Fids s) |>);;
    scoped (Clunk K item) (destroy K item)
  end.

(** * Walking *)
Fixpoint read_names (n : nat) : M (list bytes) :=
  match n with
  | O => mret []
  | S n' => name ← Name; rest ← read_names n'; mret (name :: rest)
  end.
Fixpoint walk_names (names : list bytes) : M Z :=
  match names with
  | [] => mret 0
  | name :: names' =>
    qid ← Walk K Fresh name;
    match qid with LxError e => mret e | Value q => emit (qid_bytes q);; walk_names names' end
  end.
Definition HandleWalk : M Z :=
  fid ← rd U32; newfid ← rd U32; nameCount ← rd U16;
  names ← read_names (Z.to_nat nameCount);
  entry ← LookupFid fid;
  clone_fid entry;;
  EnsureSize Twalk (nameCount * QidSize);;
  u16 nameCount;;
  r ← walk_names names;
  if negb (r =? 0) then mret r else EmplaceFid newfid;; mret 0.

(** * Files *)
Definition HandleStatFs : M Z :=
  fid ← rd U32;
  LookupFid fid;;
  reply (StatFs K (Slot fid)) (fun x =>
    EnsureSize Tstatfs 0;;
    u32 (f_Type x);; u32 (f_BlockSize x);; u64 (f_Blocks x);; u64 (f_BlocksFree x);; u64 (f_BlocksAvailable x);;
    u64 (f_Files x);; u64 (f_FilesFree x);; u64 (f_FsId x);; u32 (f_NameLength x)).

(** btime, gen and data version are zero. *)
Definition put_attributes (a : StatResult) : M unit :=
  emit (SpanWriteStatResult a);; u64 0;; u64 0;; u64 0;; u64 0.
Definition HandleGetAttr : M Z :=
  fid ← rd U32; mask ← rd U64;
  LookupFid fid;;
  reply (GetAttr K (Slot fid) mask) (fun '(valid, qid, stat) =>
    EnsureSize Tgetattr 0;; u64 valid;; emit (qid_bytes qid);; put_attributes stat).
Definition HandleSetAttr : M Z :=
  fid ← rd U32; valid ← rd U32; mode ← rd U32; uid ← rd U32; gid ← rd U32; size ← rd U64;
  asec ← rd U64; ansec ← rd U64; msec ← rd U64; mnsec ← rd U64;
  LookupFid fid;;
  SetAttr K (Slot fid) valid (mk_stat_result mode uid gid 0 0 size 0 0 asec ansec msec mnsec 0 0).

Definition HandleLOpen : M Z :=
  fid ← rd U32; flags ← rd U32;
  LookupFid fid;;
  reply (P9File.Open K (Slot fid) flags) (fun q => EnsureSize Tlopen 0;; emit (qid_bytes q);; u32 IoUnit).
Definition HandleLCreate : M Z :=
  fid ← rd U32; name ← Name; flags ← rd U32; mode ← rd U32; gid ← rd U32;
  LookupFid fid;;
  reply (Create K (Slot fid) name flags mode) (fun q => EnsureSize Tlcreate 0;; emit (qid_bytes q);; u32 IoUnit).

Definition HandleSymLink : M Z :=
  fid ← rd U32; name ← Name; target ← rd String; gid ← rd U32;
  LookupFid fid;; reply_qid Tsymlink (SymLink K (Slot fid) name target).
Definition HandleMkNod : M Z :=
  fid ← rd U32; name ← Name; mode ← rd U32; major ← rd U32; minor ← rd U32; gid ← rd U32;
  LookupFid fid;; reply_qid Tmknod (MkNod K (Slot fid) name mode major minor).
Definition HandleMkDir : M Z :=
  fid ← rd U32; name ← Name; mode ← rd U32; gid ← rd U32;
  LookupFid fid;; reply_qid Tmkdir (MkDir K (Slot fid) name mode).

(** The target is read where the string will be; its size is at most the rest of
    the buffer. *)
Definition HandleReadLink : M Z :=
  fid ← rd U32;
  LookupFid fid;;
  EnsureSize Treadlink LX_PATH_MAX;;
  s ← get;
  reply (ReadLink K (Slot fid) (room s - 2)) (fun target => u16 (Z.of_nat (length target));; emit target).

Definition HandleReadDir (includeAttributes : bool) : M Z :=
  s ← get;
  if includeAttributes && negb (m_Use9P2000W s) then mret (- ENOTSUP)
  else
    fid ← rd U32; offset ← rd U64; count ← rd U32;
    LookupFid fid;;
    EnsureSize Treaddir count;;
    reply (ReadDir K (Slot fid) offset count includeAttributes) (fun out =>
      u32 (Z.of_nat (length out));; emit out).

Definition HandleFsync : M Z := fid ← rd U32; LookupFid fid;; Fsync K (Slot fid).
Definition HandleRead : M Z :=
  fid ← rd U32; offset ← rd U64; count ← rd U32;
  LookupFid fid;;
  EnsureSize Tread count;;
  reply (P9File.Read K (Slot fid) offset count) (fun data => u32 (Z.of_nat (length data));; emit data).
Definition HandleWrite : M Z :=
  fid ← rd U32; offset ← rd U64; count ← rd U32; data ← rd (P9Proto.Read count);
  LookupFid fid;;
  reply (Write K (Slot fid) offset data) (fun n => EnsureSize Twrite 0;; u32 n).

(** * Entries *)
Definition LookupFidPair (fid1 fid2 : Z) : M unit := LookupFid fid1;; LookupFid fid2;; skip.
Definition HandleLink : M Z :=
  dfid ← rd U32; fid ← rd U32; name ← Name;
  LookupFidPair dfid fid;; Link K (Slot dfid) name (Slot fid).
Definition HandleUnlinkAt : M Z :=
  fid ← rd U32; name ← Name; flags ← rd U32; LookupFid fid;; UnlinkAt K (Slot fid) name flags.
Definition HandleRemove : M Z := fid ← rd U32; LookupFid fid;; Remove K (Slot fid).
Definition HandleRenameAt : M Z :=
  oldfid ← rd U32; oldname ← Name; newfid ← rd U32; newname ← Name;
  LookupFidPair oldfid newfid;; RenameAt K (Slot oldfid) oldname (Slot newfid) newname.
Definition HandleRename : M Z :=
  oldFid ← rd U32; newFid ← rd U32; newName ← Name;
  LookupFidPair oldFid newFid;; Rename K (Slot oldFid) (Slot newFid) newName.

(** * Locks: always granted and never held *)
Definition lock_answer {A} (f : Fid) (x : A) : M (Expected A) :=
  match f with
  | F_File f => mret (if IsOpen f then Value x else LxError (- EBADF))
  | F_XAttr _ => invalid
  end.
Definition HandleLock : M Z :=
  fid ← rd U32; type ← rd U8; flags ← rd U32; start ← rd U64; len ← rd U64; procId ← rd U32; clientId ← rd String;
  f ← LookupFid fid;
  reply (lock_answer f 0) (fun status => EnsureSize Tlock 0;; u8 status).
Definition LockUnlock : Z := 2.
Definition HandleGetLock : M Z :=
  fid ← rd U32; type ← rd U8; start ← rd U64; len ← rd U64; procId ← rd U32; clientId ← rd String;
  f ← LookupFid fid;
  reply (lock_answer f tt) (fun _ =>
    EnsureSize Tgetlock 0;;
    u8 LockUnlock;; u64 start;; u64 len;; u32 procId;; put_string clientId).

(** * Extended attributes *)
Definition HandleXattrWalk : M Z :=
  fid ← rd U32; newFid ← rd U32; name ← rd String;
  LookupFid fid;;
  xattr ← XattrWalk K (Slot fid) name;
  match xattr with
  | LxError e => mret e
  | Value x =>
    reply (GetValue K x 0) (fun '(size, _) =>
      set_fresh (Some (F_XAttr x));; EmplaceFid newFid;; EnsureSize Txattrwalk 0;; u64 size)
  end.
(** The fid becomes the attribute. *)
Definition HandleXattrCreate : M Z :=
  fid ← rd U32; name ← rd String; size ← rd U64; flags ← rd U32;
  LookupFid fid;;
  reply (XattrCreate K (Slot fid) name size flags) (fun x =>
    modify (fun s => s <| m_Fids := <[fid := F_XAttr x]> (m_Fids s) |>)).

Definition HandleAccess : M Z :=
  s ← get;
  if negb (m_Use9P2000W s) then mret (- ENOTSUP)
  else fid ← rd U32; flags ← rd U32; LookupFid fid;; Access K (Slot fid) flags.

(** * Twopen *)
Definition Opened : Z := 0.
Definition Created : Z := 1.
Definition ParentNotFound : Z := 2.
Definition NotFound : Z := 3.
Definition Stopped : Z := 4.
(** Flags of open and of wopen. *)
Definition OpenCreate : Z := 64.
Definition OpenExclusive : Z := 128.
Definition OpenTruncate : Z := 512.
Definition OpenDirectory : Z := 65536.
Definition AccessMask : Z := 3.
Definition WDeleteAccess : Z := 1.
Definition WNonDirectoryFile : Z := 2.
Definition WOpenSymlink : Z := 4.

Definition WriteWOpenReply (status walked mask : Z) : M Z :=
  reply (GetAttr K Fresh mask) (fun '(_, qid, stat) =>
    let symlink := flag (q_Type qid) QidSymlink in
    EnsureSize Twopen (if symlink then LX_PATH_MAX else 0);;
    u8 status;; u16 walked;; emit (qid_bytes qid);;
    (if symlink then
       s ← get;
       target ← ReadLink K Fresh (room s - 2);
       match target with
       | Value t => u16 (Z.of_nat (length t));; emit t
       | LxError _ => u16 0
       end
     else u16 0);;
    u32 IoUnit;; put_attributes stat).

(** A step of Twopen returns its reply or goes on. *)
Inductive step (A : Type) : Type := Return (r : Z) | Go (x : A).
Arguments Return {A} r.
Arguments Go {A} x.
Definition return_ {A} (m : M Z) : M (step A) := r ← m; mret (Return r).

(** What to do about a name that is not there, or below something that is no
    directory. *)
Definition walk_failed {A} (e : Z) (not_found : M (step A)) (i mask : Z) : M (step A) :=
  if e =? - ENOENT then not_found
  else if e =? - ENOTDIR then return_ (WriteWOpenReply Stopped i mask)
  else mret (Return e).

(** Step 1: to the directory of the last name. *)
Fixpoint walk_parents (n : nat) (i mask : Z) : M (step unit) :=
  match n with
  | O => mret (Go tt)
  | S n' =>
    name ← Name;
    qid ← Walk K Fresh name;
    match qid with
    | LxError e => walk_failed e (return_ (WriteWOpenReply ParentNotFound i mask)) i mask
    | Value _ => walk_parents n' (i + 1) mask
    end
  end.

(** What is known of the last name: whether it exists, whether it is still to be
    opened, and its qid. *)
Definition found : Type := bool * bool * Qid.

(** Steps 2 and 3: find the last name, or create it; [retries] times. *)
Fixpoint find_or_create (retries : nat) (name : bytes) (flags mode nameCount mask : Z) (entryQid : Qid) : M (step found) :=
  match retries with
  | O => mret (Return (- EIO))
  | S retries' =>
    looked ← (if all_flags flags (Z.lor OpenCreate OpenExclusive) then mret (Go None)
              else
                qid ← Walk K Fresh name;
                match qid with
                | Value q => mret (Go (Some q))
                | LxError e =>
                  walk_failed e
                    (if flag flags OpenCreate then mret (Go None) else return_ (WriteWOpenReply NotFound (nameCount - 1) mask))
                    (nameCount - 1) mask
                end);
    match looked with
    | Return r => mret (Return r)
    | Go (Some q) => mret (Go (true, true, q))
    | Go None =>
      if negb (flag flags OpenCreate) then mret (Go (false, true, entryQid))
      else
        let directory := flag flags OpenDirectory in
        qid ← (if directory then MkDir K Fresh name mode
               else Create K Fresh name (Z.lor flags OpenExclusive) mode);
        match qid with
        | Value q => mret (Go (false, directory, q))
        | LxError e =>
          if (e =? - EEXIST) && negb (flag flags OpenExclusive)
          then find_or_create retries' name flags mode nameCount mask entryQid
          else mret (Return e)
        end
    end
  end.

(** Step 7: the flags that the file is opened with, when it is. *)
Definition open_flags (flags : Z) (entryQid : Qid) : Z :=
  let access := Z.land flags AccessMask in
  let flags := if (access =? 3) || (is_directory entryQid && ((access =? 1) || (access =? 2)))
               then Z.ldiff flags AccessMask else flags in
  Z.ldiff flags (Z.lor OpenCreate OpenExclusive).

(** Steps 4 to 8. *)
Definition finish_wopen (newFid flags wflags nameCount mask : Z) (x : found) : M Z :=
  let '(exists_, needOpen, entryQid) := x in
  if flag wflags WNonDirectoryFile && is_directory entryQid then mret (- EISDIR)
  else if flag flags OpenDirectory && negb (is_directory entryQid) then mret (- ENOTDIR)
  else
    deletable ← (if flag wflags WDeleteAccess then Access K Fresh AccessDelete else mret 0);
    if deletable <? 0 then mret deletable
    else
      let symlink := flag (q_Type entryQid) QidSymlink in
      if symlink && negb (flag wflags WOpenSymlink) then WriteWOpenReply Stopped nameCount mask
      else
        opened ← (if needOpen && negb symlink && (negb (Z.land flags AccessMask =? 3) || flag flags OpenTruncate)
                  then P9File.Open K Fresh (open_flags flags entryQid) else mret (Value entryQid));
        match opened with
        | LxError e => mret e
        | Value _ =>
          result ← WriteWOpenReply (if exists_ : bool then Opened else Created) nameCount mask;
          if result <? 0 then mret result else EmplaceFid newFid;; mret 0
        end.

Definition HandleWOpen : M Z :=
  s ← get;
  if negb (m_Use9P2000W s) then mret (- ENOTSUP)
  else
    fid ← rd U32; newFid ← rd U32; flags ← rd U32; wflags ← rd U32; mode ← rd U32; gid ← rd U32;
    attrMask ← rd U64; nameCount ← rd U16;
    entry ← LookupFid fid;
    newFile ← clone_fid entry;
    let go := finish_wopen newFid flags wflags nameCount attrMask in
    if nameCount =? 0 then go (false, true, m_Qid newFile)
    else
      parents ← walk_parents (Z.to_nat (nameCount - 1)) 0 attrMask;
      match parents with
      | Return r => mret r
      | Go _ =>
        name ← Name;
        x ← find_or_create c_createRetryCount name flags mode nameCount attrMask (m_Qid newFile);
        match x with Return r => mret r | Go x => go x end
      end.

(** * Messages *)

(** Tflush answers when the request it names is done (P9Flush); here a handler is one
    step and does not wait. *)
Definition HandleFlush : M Z := _ ← rd U16; mret 0.

Definition HandleMessage (messageType : Z) : M Z :=
  match message_type messageType with
  | None => mret (- ENOTSUP)
  | Some t =>
    match t with
    | Tread => HandleRead | Twrite => HandleWrite | Tflush => HandleFlush
    | Tstatfs => HandleStatFs | Tlopen => HandleLOpen | Tlcreate => HandleLCreate | Tsymlink => HandleSymLink
    | Tmknod => HandleMkNod | Treadlink => HandleReadLink | Tgetattr => HandleGetAttr | Tsetattr => HandleSetAttr
    | Txattrwalk => HandleXattrWalk | Txattrcreate => HandleXattrCreate
    | Treaddir => HandleReadDir false | Twreaddir => HandleReadDir true
    | Tfsync => HandleFsync | Tlock => HandleLock | Tgetlock => HandleGetLock | Tlink => HandleLink
    | Tmkdir => HandleMkDir | Trenameat => HandleRenameAt | Tunlinkat => HandleUnlinkAt
    | Tversion => HandleVersion | Tattach => HandleAttach | Twalk => HandleWalk | Tclunk => HandleClunk
    | Tremove => HandleRemove | Trename => HandleRename | Taccess => HandleAccess | Twopen => HandleWOpen
    | Tauth | Tlerror => mret (- ENOTSUP)
    end
  end.

Definition catch (m : M Z) : M Z := fun s =>
  match m s with (Throw e, s') => (Done (- e), s') | r => r end.

(** A fid that was not put into the table goes with its handler. *)
Definition destroy_fresh : M unit :=
  s ← get; match fresh s with Some f => destroy K f;; set_fresh None | None => skip end.

Definition ProcessMessage : M bytes :=
  _ ← rd U32; messageType ← rd U8; messageTag ← rd U16;
  s ← get;
  let errorWriter := response s in
  error ← catch (scoped (HandleMessage messageType) destroy_fresh);
  messageType ← (if negb (error =? 0) then
                   modify (fun s => s <| response := errorWriter |>);; u32 (- error);; mret 6
                 else mret messageType);
  s ← get;
  mret (with_header (messageType + 1) messageTag (written (response s))).

(** A message from a socket: the buffer is on the stack and may be replaced. *)
Definition handle_request (message : bytes) : M bytes :=
  modify (fun s => s <| reader := message |> <| response := empty_response c_staticBufferSize true |> <| fresh := None |>);;
  ProcessMessage.
End Kernel.

(** A connection before its first message, as root. *)
Definition new_connection (allowRenegotiate : bool) : st :=
  mk_st ∅ 0 InitialResponseBufferSize false allowRenegotiate false None [] (empty_response 0 true) (mk_ids 0 0 []) [].
End P9Handler.
