(* ===== verification/P9SafeThm.v ===== *)
(** What the upstream Plan 9 server asks of the system: every path is one of names
    below the share, and the calls are made as the user that attached, with the
    exceptions that the theorems name; and the shape of every reply. *)
From stdpp Require Import gmap.
From S2P Require Import Prelude CStr CNum P9State P9Proto P9File P9Handler.
Import P9State P9Proto P9File P9Handler.

Module P9SafeThm.

(** * Paths of names *)

(** The name of an entry of a directory. *)
Definition entry_name (n : bytes) : Prop :=
  n <> [] /\ n <> str "." /\ n <> str ".." /\ Forall (fun c => c <> c_slash) n /\ no_nul n.
(** The path of a file below the root: one name after the other. *)
Inductive clean : bytes -> Prop :=
  | clean_root : clean []
  | clean_child p n : clean p -> entry_name n -> clean (AppendPath p n).

Lemma valid_entry n : valid_name n = true -> no_nul n -> entry_name n.
Proof.
  unfold valid_name, has_slash. rewrite negb_true_iff. intros (((H1 & H2)%orb_false_iff & H3)%orb_false_iff & H4)%orb_false_iff H0.
  split_and!; [by intros ->|by intros ->|by intros ->| |done]. apply Forall_forall. intros c Hc ->. apply list_elem_of_In in Hc.
  rewrite <- not_true_iff_false, existsb_exists in H4. apply H4. by exists c_slash.
Qed.
Lemma valid_no_slash n : entry_name n -> Forall (fun c => (c =? c_slash) = false) n.
Proof. intros (_ & _ & _ & H & _). eapply Forall_impl_hint; [exact H|]. intros c Hc. by apply Z.eqb_neq. Qed.
Lemma valid_nonempty n : entry_name n -> n <> [].
Proof. by intros [? _]. Qed.

Lemma last_slash p : clean p -> p <> [] -> (List.last p 0 =? c_slash) = false.
Proof.
  intros [|p' n Hp Hn]; [done|]. intros _. unfold AppendPath.
  pose proof (valid_no_slash _ Hn) as Hs. pose proof (valid_nonempty _ Hn) as H0.
  assert (forall a, List.last (a ++ n) 0 = List.last n 0) as E.
  { intros a. induction a as [|x a IH]; [done|]. cbn [app List.last]. destruct (a ++ n) eqn:E'; [|by rewrite <- IH].
    by apply app_eq_nil in E' as [_ ->]. }
  rewrite E. clear E Hn. revert H0. induction Hs as [|c n Hc Hs IH]; [done|]. intros _.
  destruct Hs as [|d n Hd Hs]; [exact Hc|]. exact (IH ltac:(done)).
Qed.

Lemma append_clean p n : clean p -> AppendPath p n = match p with [] => n | _ => p ++ c_slash :: n end.
Proof.
  intros H. unfold AppendPath. destruct p as [|c p]; [done|]. rewrite (last_slash _ H) by done.
  cbn [is_empty negb andb]. by rewrite <- app_assoc.
Qed.

Lemma append_nonempty p n : n <> [] -> AppendPath p n <> [].
Proof. unfold AppendPath. intros Hn E. apply app_eq_nil in E as [_ ?]. done. Qed.

Lemma parent_append p n : clean p -> entry_name n -> parent_name (AppendPath p n) = p.
Proof.
  intros Hp Hn. rewrite append_clean by done. unfold parent_name.
  assert (Forall (fun c => negb (c =? c_slash) = true) (rev n)) as Hr.
  { apply Forall_rev. eapply Forall_impl_hint; [by apply valid_no_slash|]. by intros c ->. }
  destruct p as [|c p].
  - rewrite <- (app_nil_r (rev n)), drop_while_app by done. done.
  - rewrite rev_app_distr. cbn [rev app]. rewrite <- app_assoc, drop_while_app by done. cbn [app drop_while].
    change (c_slash =? c_slash) with true. cbn [negb]. by rewrite rev_app_distr, rev_involutive.
Qed.

Lemma parent_clean p : clean p -> clean (parent_name p).
Proof.
  intros [|q n Hq Hn]; [constructor|]. by rewrite parent_append.
Qed.

Lemma clean_cstr p : clean p -> no_nul p.
Proof.
  induction 1 as [|p n Hp IH (_ & _ & _ & _ & H0)]; [constructor|]. rewrite append_clean by done. destruct p; [done|].
  apply Forall_app. split; [done|]. by constructor.
Qed.

(** * Identities *)
Definition rest_ids : ids := mk_ids 0 0 [].
(** The identity of the user of a root. *)
Definition user_ids (r : Root) : ids :=
  let switch := negb (Uid r =? c_InvalidUid) in
  mk_ids (if switch then Uid r else 0) (if switch then Gid r else 0) (Groups r).

Definition identity_call (c : call) : bool := match c with Setgroups _ | Setresgid _ | Setresuid _ => true | _ => false end.

(** * Reading *)
Definition reads {A} (r : Reader A) (Q : A -> Prop) : Prop :=
  forall l, bytes_ok l -> match r l with Some (x, l') => bytes_ok l' /\ Q x | None => True end.
Lemma reads_bind {A B} (r : Reader A) (f : A -> Reader B) R Q :
  reads r R -> (forall x, R x -> reads (f x) Q) -> reads (r ≫= f) Q.
Proof.
  intros Hr Hf l Hl. specialize (Hr l Hl). unfold mbind, Reader_bind. destruct (r l) as [[x l']|]; [|done].
  destruct Hr as [H1 H2]. exact (Hf x H2 l' H1).
Qed.
Lemma reads_ret {A} (x : A) (Q : A -> Prop) : Q x -> reads (mret x) Q.
Proof. by intros H l Hl. Qed.
Lemma reads_Read n : reads (P9Proto.Read n) bytes_ok.
Proof. intros l Hl. unfold P9Proto.Read. case_if; [done|]. split; [by apply Forall_drop|by apply Forall_take]. Qed.
Lemma reads_fixed n : reads (ReadFixed n) (fun v => 0 <= v).
Proof. eapply reads_bind; [apply reads_Read|]. intros x Hx. apply reads_ret. by apply le_val_bound. Qed.
Lemma reads_String : reads String no_nul.
Proof.
  eapply reads_bind; [apply reads_fixed|]. intros n _. eapply reads_bind; [apply reads_Read|]. intros x _.
  apply reads_ret, to_cstr_no_nul.
Qed.

Section Safe.
Context (K : kernel) (sh : shares).
(** A server that runs as root may take any identity. *)
Context (Kids : forall h c, identity_call c = true -> 0 <= k_ret K h c).

(** What an attach makes: a root of a share, with the user that the request names
    and the groups that the system gives this user, or nobody's. *)
Definition attached (r : Root) : Prop :=
  (exists name, share_get sh name = Some (RootFd r)) /\
  ((Uid r = c_InvalidUid /\ Groups r = []) \/
   ((exists h, Gid r = k_ret K h (Getpwuid (Uid r)) \/ Gid r = k_ret K h (Getgrnam (str "nobody"))) /\
    (Groups r = [] \/ exists h, Groups r = k_list K h (Getgrouplist (Uid r) (Gid r))))).

(** The roots that the fids of a connection have, and those that it makes. *)
Context (PR : Root -> Prop).
(** The path of a descriptor, as the system gave it. *)
Definition fd_path (fd : Z) (p : bytes) : Prop :=
  exists h, let c := Readlink (proc_fd fd) in p = take (Z.to_nat (k_ret K h c)) (k_data K h c).
Definition below (r : Root) (p : bytes) : Prop := exists base rel, fd_path (RootFd r) base /\ clean rel /\ p = AppendPath base rel.
(** The root itself, by the name that proc has for it or that it had. *)
Definition root_path (r : Root) (p : bytes) : Prop :=
  p = to_cstr (proc_fd (RootFd r)) \/ exists q, fd_path (RootFd r) q /\ p = to_cstr q.

Definition path_flags : Z := Z.lor (Z.lor O_PATH O_NOFOLLOW) O_CLOEXEC.

(** What a call may be, and as whom. *)
Definition event_ok (e : event) : Prop :=
  let '(i, c) := e in
  let as_user_of r := PR r /\ i = user_ids r in
  match c with
  | Fstatat d p _ => (exists r, as_user_of r /\ d = RootFd r /\ clean p) \/ (exists h n, k_dirent K h (Readdir d) = Some n /\ (p = d_name n \/ p = []))
  | Openat d p fl _ => exists r, PR r /\ d = RootFd r /\ clean p /\ p <> [] /\ (i = user_ids r \/ fl = path_flags)
  | P9State.Open p fl => exists r, PR r /\ root_path r p /\ (i = user_ids r \/ fl = path_flags)
  | Readlinkat d p _ | Mkdirat d p _ | Mknodat d p _ _ _ | Symlinkat _ d p | Unlinkat d p _
  | Fchmodat d p _ | Fchownat d p _ _ | Utimensat d p _ _ => exists r, as_user_of r /\ d = RootFd r /\ clean p
  | Linkat d p q | Renameat d p q => exists r, as_user_of r /\ d = RootFd r /\ clean p /\ clean q
  | Faccessat d p _ => exists r, as_user_of r /\ d = RootFd r /\ (clean p /\ p <> [] \/ root_path r p)
  | Lgetxattr p _ _ | Llistxattr p _ => exists r, as_user_of r /\ below r p
  | Lsetxattr p _ _ _ | Lremovexattr p _ => exists r, PR r /\ below r p
  | _ => True
  end.

(** * The invariant *)
Definition file_ok (f : File) : Prop := clean (m_FileName f) /\ PR (m_Root f).
Definition xattr_ok (x : XAttr) : Prop := PR (x_Root x) /\ below (x_Root x) (x_FileName x).
Definition fid_ok (f : Fid) : Prop := match f with F_File f => file_ok f | F_XAttr x => xattr_ok x end.

Definition response_ok (s : st) : Prop :=
  (7 <= length (written (response s)))%nat /\ Z.of_nat (length (written (response s))) <= MaxSize (response s) /\
  MaxSize (response s) <= Z.max c_staticBufferSize (m_NegotiatedSize s).
Definition negotiated_ok (s : st) : Prop :=
  if m_Negotiated s then MinimumRequestBufferSize <= m_NegotiatedSize s <= MaximumRequestBufferSize
  else m_NegotiatedSize s = InitialResponseBufferSize.

Definition events_ok (tr0 : list event) (s : st) : Prop := exists new, trace s = tr0 ++ new /\ Forall event_ok new.

Context (n0 : Z) (Hnew : forall r, n0 <= RootId r -> attached r -> PR r) (tr0 : list event).

Record I (i : ids) (s : st) : Prop := {
  I_who : who s = i; I_fids : forall fid f, m_Fids s !! fid = Some f -> fid_ok f;
  I_fresh : forall f, fresh s = Some f -> fid_ok f; I_roots : n0 <= next_root s;
  I_events : events_ok tr0 s; I_response : response_ok s; I_negotiated : negotiated_ok s; I_reader : bytes_ok (reader s)
}.

Definition ok {A} (i : ids) (m : M A) (Q : A -> Prop) : Prop :=
  forall s, I i s ->
    match m s with
    | (Done x, s') => I i s' /\ Q x
    | (Throw _, s') => I i s'
    | (Terminated, s') => events_ok tr0 s'
    end.
Abbreviation safe i m := (ok i m (fun _ => True)).

(** ** Rules *)
Lemma ok_ret {A} i (x : A) (Q : A -> Prop) : Q x -> ok i (mret x) Q.
Proof. by intros H s Hs. Qed.
Lemma ok_bind {A B} i (m : M A) (f : A -> M B) (R : A -> Prop) Q :
  ok i m R -> (forall x, R x -> ok i (f x) Q) -> ok i (m ≫= f) Q.
Proof.
  intros Hm Hf s Hs. specialize (Hm s Hs). unfold mbind, M_bind. destruct (m s) as [[x| |] s1]; [|done..].
  destruct Hm as [H1 H2]. exact (Hf x H2 s1 H1).
Qed.
Lemma ok_conseq {A} i (m : M A) (Q Q' : A -> Prop) : ok i m Q -> (forall x, Q x -> Q' x) -> ok i m Q'.
Proof. intros H HQ s Hs. specialize (H s Hs). destruct (m s) as [[x| |] s1]; naive_solver. Qed.
Lemma ok_safe {A} i (m : M A) Q : ok i m Q -> safe i m.
Proof. intros H. by eapply ok_conseq. Qed.
Lemma ok_throw {A} i e (Q : A -> Prop) : ok i (throw e) Q.
Proof. by intros s Hs. Qed.
Lemma ok_terminate {A} i (Q : A -> Prop) : ok i terminate Q.
Proof. intros s Hs. apply Hs. Qed.
Lemma ok_get i : ok i get (I i).
Proof. by intros s Hs. Qed.
Lemma ok_modify i f : (forall s, I i s -> I i (f s)) -> safe i (modify f).
Proof. intros H s Hs. split; [by apply H|done]. Qed.
Lemma ok_when i b m : (b = true -> safe i m) -> safe i (when b m).
Proof. destruct b; intros H; [by apply H|by apply ok_ret]. Qed.
Lemma ok_scoped {A} i (m : M A) d Q : ok i m Q -> safe i d -> ok i (scoped m d) Q.
Proof.
  intros Hm Hd s Hs. specialize (Hm s Hs). unfold scoped. destruct (m s) as [[x|e|] s1].
  - destruct Hm as [H1 H2]. specialize (Hd s1 H1). destruct (d s1) as [[u|e|] s2]; [|apply Hd|done]. by destruct Hd.
  - specialize (Hd s1 Hm). destruct (d s1) as [[u|e'|] s2]; [|apply Hd|done]. by destruct Hd.
  - done.
Qed.
Definition expected {A} (Q : A -> Prop) (x : Expected A) : Prop := match x with Value x => Q x | LxError _ => True end.
Lemma ok_expect {A B} i (m : M (Expected A)) (f : A -> M (Expected B)) (R : A -> Prop) (Q : Expected B -> Prop) :
  ok i m (expected R) -> (forall e, Q (LxError e)) -> (forall x, R x -> ok i (f x) Q) -> ok i (expect m f) Q.
Proof. intros Hm He Hf. eapply ok_bind; [exact Hm|]. intros [x|e] H; [by apply Hf|by apply ok_ret]. Qed.

(** ** Calls *)
Lemma events_snoc s e : events_ok tr0 s -> event_ok e -> events_ok tr0 (s <| trace := trace s ++ [e] |>).
Proof.
  intros (new & E & H) He. exists (new ++ [e]). cbn. rewrite E, <- app_assoc. split; [done|]. apply Forall_app. by repeat constructor.
Qed.
Lemma ok_push i c : event_ok (i, c) -> safe i (push c).
Proof.
  intros Hc. apply ok_modify. intros s [H1 H2 H3 H4 H5 H6 H7 H8]. rewrite <- H1 in Hc. split; try done.
  by apply events_snoc.
Qed.
Lemma ok_sys i c : event_ok (i, c) -> ok i (sys K c) (fun r => exists h, r = k_ret K h c).
Proof.
  intros Hc. eapply ok_bind; [apply ok_get|]. intros s Hs. eapply ok_bind; [by apply ok_push|]. intros _ _.
  apply ok_ret. by exists (trace s).
Qed.
Lemma ok_sys_with {A} i (f : kernel -> list event -> call -> A) c : event_ok (i, c) ->
  ok i (sys_with K f c) (fun p => exists h, p = (k_ret K h c, f K h c)).
Proof.
  intros Hc. eapply ok_bind; [apply ok_get|]. intros s Hs. eapply ok_bind; [by apply ok_push|]. intros _ _.
  apply ok_ret. by exists (trace s).
Qed.
Lemma ok_try_sys i c : event_ok (i, c) -> safe i (try_sys K c).
Proof. intros Hc. eapply ok_bind; [by apply ok_sys|]. intros r _. by apply ok_ret. Qed.
Lemma ok_try_sys_with {A} i (f : kernel -> list event -> call -> A) c : event_ok (i, c) ->
  ok i (try_sys_with K f c) (expected (fun x => exists h, x = f K h c)).
Proof.
  intros Hc. eapply ok_bind; [by apply ok_sys_with|]. intros [r x] (h & [= -> ->]). apply ok_ret. case_if; [done|by exists h].
Qed.
Lemma ok_try_sys_data i c : event_ok (i, c) -> safe i (try_sys_data K c).
Proof. intros Hc. eapply ok_bind; [by apply ok_sys_with|]. intros [r x] _. by apply ok_ret. Qed.
Lemma ok_lx i c : event_ok (i, c) -> safe i (lx K c).
Proof. intros Hc. eapply ok_bind; [by apply ok_sys|]. intros r _. by apply ok_ret. Qed.

(** ** Identities *)

(** A change of identity: it does not fail. *)
Definition becomes (i i' : ids) (m : M unit) : Prop := forall s, I i s -> exists s', m s = (Done tt, s') /\ I i' s'.
Lemma becomes_trans i j k m m' : becomes i j m -> becomes j k m' -> becomes i k (m;; m').
Proof.
  intros H H' s Hs. destruct (H s Hs) as (s1 & E1 & H1). destruct (H' s1 H1) as (s2 & E2 & H2).
  exists s2. split; [|done]. unfold mbind, M_bind. by rewrite E1.
Qed.
Lemma becomes_assoc {A} i j (m : M A) (n k : M unit) : becomes i j ((m;; n);; k) -> becomes i j (m;; n;; k).
Proof.
  intros H s Hs. destruct (H s Hs) as (s1 & E1 & H1). exists s1. split; [|done]. rewrite <- E1.
  unfold mbind, M_bind. by destruct (m s) as [[| |] ?].
Qed.
Lemma becomes_call i j c f : identity_call c = true -> f i = j -> becomes i j (sys_or_throw K c;; set_who f).
Proof.
  intros Hc <- s Hs. assert (event_ok (i, c)) as He by by destruct c.
  destruct Hs as [W F1 F2 F3 F4 F5 F6 F7]. pose proof (Kids (trace s) c Hc) as H0.
  unfold sys_or_throw, sys, mbind, M_bind, get, push, modify, mret, M_ret. rewrite (proj2 (Z.ltb_ge _ _)) by done.
  eexists. split; [reflexivity|]. rewrite <- W. split; try done. rewrite <- W in He. by apply (events_snoc s).
Qed.
Lemma becomes_calls i j k c f m : identity_call c = true -> f i = j -> becomes j k m ->
  becomes i k (sys_or_throw K c;; set_who f;; m).
Proof. intros Hc Hf Hm. apply becomes_assoc. eapply becomes_trans; [by apply becomes_call|done]. Qed.
Lemma becomes_when i i' b m : (b = true -> becomes i i' m) -> (b = false -> i' = i) -> becomes i i' (when b m).
Proof. destruct b; intros H1 H2; [by apply H1|]. rewrite H2 by done. intros s Hs. by exists s. Qed.

Lemma becomes_user r : becomes rest_ids (user_ids r) (FsUserContext K r).
Proof.
  eapply (becomes_trans _ (mk_ids 0 0 (Groups r))); apply becomes_when; unfold user_ids; intros E.
  - by apply becomes_call.
  - apply negb_false_iff, bool_decide_eq_true in E. by rewrite E.
  - rewrite E. by eapply becomes_calls; [| |apply becomes_call].
  - by rewrite E.
Qed.
Lemma becomes_rest r : becomes (user_ids r) rest_ids (FsUserContext_end K r).
Proof.
  eapply (becomes_trans _ (mk_ids 0 0 (Groups r))); apply becomes_when; unfold user_ids; intros E.
  - by eapply becomes_calls; [| |apply becomes_call].
  - by rewrite E.
  - by apply becomes_call.
  - apply negb_false_iff, bool_decide_eq_true in E. by rewrite E.
Qed.

Lemma ok_as_user {A} r (body : M A) Q : ok (user_ids r) body Q -> ok rest_ids (as_user K r body) Q.
Proof.
  intros Hb s Hs. destruct (becomes_user r s Hs) as (s1 & E1 & H1). unfold as_user, mbind, M_bind at 1. rewrite E1.
  unfold scoped. specialize (Hb s1 H1). destruct (body s1) as [[x|e|] s2]; [| |done].
  - destruct Hb as [H2 HQ]. destruct (becomes_rest r s2 H2) as (s3 & -> & H3). done.
  - destruct (becomes_rest r s2 Hb) as (s3 & -> & H3). done.
Qed.

(** ** Fids *)
Lemma I_place i s p f : I i s -> place_get s p = Some f -> fid_ok f.
Proof. intros H. destruct p; [apply H|apply H]. Qed.
Lemma I_set i s p f : I i s -> fid_ok f -> I i (place_set p f s).
Proof.
  intros [H1 H2 H3 H4 H5 H6 H7 H8] Hf. destruct p as [k|]; split; try done; cbn.
  - intros j g. rewrite lookup_insert_Some. naive_solver.
  - by intros g [= <-].
Qed.
Lemma ok_put i p f : file_ok f -> safe i (put p f).
Proof. intros Hf. apply ok_modify. intros s Hs. by apply I_set. Qed.
Lemma ok_with_file {A} i p (other : M A) body Q :
  ok i other Q -> (forall f, file_ok f -> ok i (body f) Q) -> ok i (with_file p other body) Q.
Proof.
  intros Ho Hb. eapply ok_bind; [apply ok_get|]. intros s Hs. pose proof (I_place i s p) as Hp.
  destruct (place_get s p) as [[f|x]|]; [|done..]. apply Hb. by apply (Hp (F_File f)).
Qed.
Lemma ok_invalid {A} i (Q : A -> Prop) : ok i invalid (expected Q).
Proof. by apply ok_ret. Qed.
Lemma ok_any {A} i (m : M (Expected A)) : ok i m (expected (fun _ => True)) <-> safe i m.
Proof. split; intros H; eapply ok_conseq; try exact H; [done|by intros [?|?]]. Qed.

(** ** The methods of a file *)
Lemma ok_GetFdPath i fd : ok i (GetFdPath K fd) (fd_path fd).
Proof.
  eapply ok_bind; [by apply ok_sys_with|]. intros [r t] (h & [= -> ->]). case_if; [apply ok_throw|].
  apply ok_ret. by exists h.
Qed.
Lemma ok_OpenAt i r name fl mode : PR r -> clean name -> i = user_ids r \/ Z.lor fl O_CLOEXEC = path_flags ->
  safe i (OpenAt K (RootFd r) name fl mode).
Proof.
  intros Hr Hn Hi. unfold OpenAt. destruct name as [|c name].
  - eapply (ok_bind _ _ _ (fun q => root_path r (to_cstr q))).
    + case_if; [|apply ok_ret; by left]. eapply ok_conseq; [apply ok_GetFdPath|]. intros q Hq. right. by exists q.
    + intros q Hq. apply ok_try_sys. by exists r.
  - apply ok_try_sys. by exists r.
Qed.
Lemma ok_close i fd : safe i (close K fd).
Proof. eapply ok_bind; [by apply ok_sys|]. intros. by apply ok_ret. Qed.
Lemma ok_destroy i f : safe i (destroy K f).
Proof.
  destruct f as [f|x]; [|by apply ok_ret]. eapply (ok_bind _ _ _ (fun _ => True)).
  - destruct (m_File f); [apply ok_close|by apply ok_ret].
  - intros _ _. destruct (m_Enumerator f); [|by apply ok_ret]. eapply ok_bind; [by apply ok_sys|]. intros. by apply ok_ret.
Qed.

Lemma file_child f n : file_ok f -> valid_name n = true -> no_nul n -> clean (AppendPath (m_FileName f) n).
Proof. intros [H _] ? ?. constructor; [done|by apply valid_entry]. Qed.

(** One step of a method, and the calls of a file of which the user is known. *)
Ltac ev := first [exact Logic.I | match goal with H : file_ok ?f |- _ =>
  first [left; exists (m_Root f) | exists (m_Root f)]; pose proof (proj1 H); pose proof (proj2 H);
  split_and?; first [done | by apply file_child | by left | idtac] end].
Ltac call l := first [apply l | apply ok_any, l | eapply ok_safe, l | eapply ok_conseq; [apply l|done]].
Ltac ok1 :=
  lazymatch goal with
  | |- forall _, _ => intros ?
  | |- ok _ (as_user _ _ _) _ => apply ok_as_user
  | |- ok _ (with_file _ _ _) _ => apply ok_with_file; [|intros ?f ?Hf]
  | |- ok _ (expect _ _) _ => eapply ok_expect; [|done|intros ? ?]
  | |- ok _ (mret _) _ => apply ok_ret
  | |- ok _ invalid _ => apply ok_ret
  | |- ok _ (throw _) _ => apply ok_throw
  | |- ok _ terminate _ => apply ok_terminate
  | |- ok _ get _ => apply ok_get
  | |- ok _ (lx _ _) _ => call ok_lx
  | |- ok _ (push _) _ => call ok_push
  | |- ok _ (put _ _) _ => call ok_put
  | |- ok _ (try_sys _ _) _ => call ok_try_sys
  | |- ok _ (try_sys_data _ _) _ => call ok_try_sys_data
  | |- ok _ (try_sys_with _ _ _) _ => call (@ok_try_sys_with)
  | |- ok _ (sys_with _ _ _) _ => call (@ok_sys_with)
  | |- ok _ (sys _ _) _ => call ok_sys
  | |- ok _ (match ?x with _ => _ end) _ => destruct x eqn:?
  | |- ok _ (mbind _ _) _ => eapply ok_bind; [|intros ? ?]
  | |- ok _ (let _ := _ in _) _ => cbv zeta
  end.

Lemma ok_Stat i f : file_ok f -> i = user_ids (m_Root f) -> safe i (Stat K f).
Proof. intros Hf ->. unfold Stat. ok1. ev. Qed.
Lemma ok_ValidateExists i f : file_ok f -> i = user_ids (m_Root f) -> ok i (ValidateExists K f) (expected file_ok).
Proof. intros Hf ->. unfold ValidateExists. ok1; [apply ok_any; by apply ok_Stat|]. ok1. exact Hf. Qed.
(** Methods that only make calls: one step after the other. *)
Ltac safe := repeat (ok1; try done); try by ev.
Lemma ok_Walk p n : valid_name n = true -> no_nul n -> safe rest_ids (Walk K p n).
Proof.
  intros Hn H0. unfold Walk. ok1; [by ok1|]. ok1; [by ok1|]. cbv zeta.
  pose proof (file_child _ _ Hf Hn H0) as Hc. eapply ok_bind; [call ok_put|intros _ _].
  - split; [exact (parent_clean _ Hc)|apply Hf].
  - ok1. ok1; [apply ok_ValidateExists; [by split; [exact Hc|apply Hf]|done]|]. ok1; [ok1|]. eapply (ok_bind _ _ _ (fun _ => True)); [by safe|].
    intros denied _. safe.
Qed.
Lemma ok_GetAttr p mask : safe rest_ids (GetAttr K p mask).
Proof. unfold GetAttr, Stat. safe. Qed.
Lemma ok_attr_step i w step rest need : safe i step -> (forall b, safe i (rest b)) -> safe i (attr_step w step rest need).
Proof. intros Hs Hr. unfold attr_step. safe. Qed.
Lemma ok_SetAttr p valid a : safe rest_ids (SetAttr K p valid a).
Proof.
  unfold SetAttr. ok1; [by ok1|]. cbv zeta. ok1. repeat (apply ok_attr_step; [|intros ?]); safe.
  unfold set_size, OpenFile. eapply ok_bind; [apply ok_OpenAt; [apply Hf..|by left]|]. safe.
  apply ok_scoped; [by safe|apply ok_close].
Qed.
Lemma ok_Open p flags : safe rest_ids (P9File.Open K p flags).
Proof.
  unfold P9File.Open. ok1; [by ok1|]. safe. apply ok_any, ok_OpenAt; [apply Hf..|by left].
Qed.
Lemma ok_Create p n flags mode : valid_name n = true -> no_nul n -> safe rest_ids (Create K p n flags mode).
Proof.
  intros Hn H0. unfold Create. ok1; [by ok1|]. ok1; [by ok1|]. ok1. cbv zeta. pose proof (file_child _ _ Hf Hn H0) as Hc.
  ok1; [apply ok_any, ok_OpenAt; [apply Hf|done|by left]|]. safe; [apply ok_close|]. split; [done|apply Hf].
Qed.
Lemma ok_make_entry p n make : valid_name n = true -> no_nul n ->
  (forall r q, PR r -> clean q -> event_ok (user_ids r, make (RootFd r) q)) -> safe rest_ids (make_entry K p n make).
Proof.
  intros Hn H0 Hm. unfold make_entry, GetFileQidByPath. safe. apply Hm; [apply Hf|by apply file_child].
Qed.
Lemma ok_MkDir p n mode : valid_name n = true -> no_nul n -> safe rest_ids (MkDir K p n mode).
Proof. intros. apply ok_make_entry; try done. intros r q ? ?. by exists r. Qed.
Lemma ok_SymLink p n t : valid_name n = true -> no_nul n -> safe rest_ids (SymLink K p n t).
Proof. intros. apply ok_make_entry; try done. intros r q ? ?. by exists r. Qed.
Lemma ok_MkNod p n mode a b : valid_name n = true -> no_nul n -> safe rest_ids (MkNod K p n mode a b).
Proof. intros. apply ok_make_entry; try done. intros r q ? ?. by exists r. Qed.

Lemma ok_GetValue x size : xattr_ok x -> safe rest_ids (GetValue K x size).
Proof. intros [Hr Hb]. unfold GetValue. ok1. apply ok_try_sys_data. case_if; by exists (x_Root x). Qed.
Lemma ok_Read p offset size : safe rest_ids (P9File.Read K p offset size).
Proof.
  unfold P9File.Read, File_Read, XAttr_Read. eapply ok_bind; [apply ok_get|intros s Hs]. pose proof (fun g => I_place _ s p g Hs) as Hp.
  ok1; [|by ok1]. ok1; [by safe|]. ok1; [|by ok1]. ok1; [by ok1|]. ok1; [apply ok_any, ok_GetValue; exact (Hp _ eq_refl)|]. safe.
Qed.
Lemma ok_Write p offset buffer : safe rest_ids (Write K p offset buffer).
Proof.
  unfold Write, File_Write, XAttr_Write. eapply ok_bind; [apply ok_get|intros s Hs]. pose proof (fun g => I_place _ s p g Hs) as Hp.
  ok1; [|by ok1]. ok1; [by safe|]. ok1; [by ok1|]. ok1; [by ok1|]. cbv zeta. ok1; [|by ok1].
  apply ok_modify. intros s' Hs'. apply I_set; [done|]. exact (Hp _ eq_refl).
Qed.
Lemma ok_ReadLink p size : safe rest_ids (ReadLink K p size).
Proof. unfold ReadLink. safe. Qed.
Lemma ok_Fsync p : safe rest_ids (P9File.Fsync K p).
Proof. unfold P9File.Fsync. safe. Qed.
Lemma ok_StatFs p : safe rest_ids (StatFs K p).
Proof.
  unfold StatFs, OpenFile. ok1; [by ok1|]. ok1; [apply ok_OpenAt; [apply Hf..|by right]|]. ok1; [|by ok1].
  apply ok_scoped; [by safe|apply ok_close].
Qed.

Lemma ok_Seek i e offset : ok i (Seek K e offset) (fun e' => e_Fd e' = e_Fd e).
Proof. unfold Seek. ok1; [by ok1|]. ok1; [apply ok_sys; by case_if|]. by ok1. Qed.
Lemma ok_entry_attributes i fd n : (exists h, k_dirent K h (Readdir fd) = Some n) -> safe i (entry_attributes K fd n).
Proof.
  intros [h Hh]. unfold entry_attributes. ok1; [apply ok_sys_with; right; exists h, n; split; [done|case_if; auto]|]. safe.
Qed.
Lemma ok_set_enumerator i p f e : file_ok f -> safe i (set_enumerator p f e).
Proof. intros Hf. apply ok_put. by split; apply Hf. Qed.
Lemma ok_readdir_loop i fuel p f e attributes left out w : file_ok f -> safe i (readdir_loop K fuel p f e attributes left out w).
Proof.
  intros Hf. revert e left out w. induction fuel as [|fuel IH]; intros e left out w; cbn [readdir_loop]; [by ok1|].
  ok1; [by apply ok_sys_with|]. destruct x as [r next]. destruct H as (h & [= -> ->]).
  destruct (k_dirent K h (Readdir (e_Fd e))) as [n|] eqn:En; [|by safe]. cbv zeta.
  ok1; [by apply ok_set_enumerator|]. eapply (ok_bind _ _ _ (fun _ => True)).
  - ok1; [|by ok1]. ok1; [apply ok_entry_attributes; by exists h|by ok1].
  - intros attr _. ok1; [|by ok1]. ok1; [by ok1|]. apply IH.
Qed.
Lemma ok_ReadDir p offset count attributes : safe rest_ids (ReadDir K p offset count attributes).
Proof.
  unfold ReadDir. ok1; [by ok1|]. cbv zeta. assert (forall g e, file_ok g -> safe rest_ids
    (e ← Seek K e offset; set_enumerator p g e;; readdir_loop K (S (Z.to_nat (count / 24))) p g e attributes count [] false)) as Hr.
  { intros g e Hg. ok1; [apply ok_Seek|]. ok1; [by apply ok_set_enumerator|]. by apply ok_readdir_loop. }
  destruct (m_Enumerator f); [by apply Hr|]. ok1; [|by ok1]. ok1; [by apply ok_sys|]. ok1; [by ok1|].
  apply Hr. by split; apply Hf.
Qed.

Lemma ok_UnlinkAt p n flags : valid_name n = true -> no_nul n -> safe rest_ids (UnlinkAt K p n flags).
Proof. intros Hn H0. unfold UnlinkAt. safe. Qed.
Lemma ok_Remove p : safe rest_ids (Remove K p).
Proof. unfold Remove. ok1; [by ok1|]. destruct (m_FileName f) as [|c n] eqn:En; [by ok1|]. rewrite <- En. safe. Qed.
Lemma ok_on_root i f p body : safe i (mret (- EINVAL)) -> (forall g, file_ok g -> safe i (body g)) -> safe i (on_root f p body).
Proof.
  intros H0 Hb. unfold on_root. eapply ok_bind; [apply ok_get|intros s Hs]. pose proof (fun g => I_place _ s p g Hs) as Hp.
  ok1; [|done]. ok1; [|done]. ok1; [|by ok1]. apply Hb. exact (Hp _ eq_refl).
Qed.
Lemma ok_RenameAt p n q n' : valid_name n = true -> no_nul n -> valid_name n' = true -> no_nul n' ->
  safe rest_ids (RenameAt K p n q n').
Proof.
  intros Hn H0 Hn' H0'. unfold RenameAt. ok1; [by ok1|]. apply ok_on_root; [by ok1|]. intros g Hg. ok1. apply ok_lx.
  exists (m_Root f). split_and!; try done; [apply Hf|by apply file_child..].
Qed.
Lemma ok_Rename p q n : valid_name n = true -> no_nul n -> safe rest_ids (Rename K p q n).
Proof.
  intros Hn H0. unfold Rename. ok1; [by ok1|]. apply ok_on_root; [by ok1|]. intros g Hg.
  destruct (m_FileName f) as [|c o] eqn:En; [by ok1|]. cbv zeta. ok1. rewrite <- En. pose proof (file_child _ _ Hg Hn H0) as Hc. ok1; [|ok1; [by ok1|ok1; [|by ok1]]].
  - apply ok_lx. exists (m_Root f). split_and!; try done; apply Hf.
  - apply ok_put. by split; [|apply Hf].
Qed.
Lemma ok_Link p n q : valid_name n = true -> no_nul n -> safe rest_ids (Link K p n q).
Proof.
  intros Hn H0. unfold Link. ok1; [by ok1|]. apply ok_on_root; [by ok1|]. intros g Hg. ok1. apply ok_lx.
  exists (m_Root f). split_and!; try done; [apply Hf|apply Hg|by apply file_child].
Qed.

Lemma ok_AccessHelper i r name mode : PR r -> clean name -> i = user_ids r -> safe i (AccessHelper K (RootFd r) name mode).
Proof.
  intros Hr Hn ->. unfold AccessHelper. eapply (ok_bind _ _ _ (fun q => clean q /\ q <> [] \/ fd_path (RootFd r) q)).
  - destruct name as [|c name]; [eapply ok_conseq; [apply ok_GetFdPath|by right]|]. apply ok_ret. by left.
  - intros q Hq. ok1; [|by ok1]. apply ok_sys. exists r. split_and!; try done. destruct Hq as [[Hq Hq0]|Hq].
    + left. by rewrite to_cstr_all by by apply clean_cstr.
    + right. right. by exists q.
Qed.
Lemma ok_Capability i : safe i (CheckFOwnerCapability K).
Proof. unfold CheckFOwnerCapability. safe. Qed.
Lemma ok_delete_access f : file_ok f -> safe (user_ids (m_Root f)) (delete_access K f).
Proof.
  intros Hf. unfold delete_access. cbv zeta. destruct (m_FileName f) as [|c name] eqn:En; [by ok1|]. rewrite <- En.
  assert (clean (parent_name (m_FileName f))) as Hp by apply parent_clean, Hf.
  assert (forall q, clean q -> event_ok (user_ids (m_Root f), Fstatat (RootFd (m_Root f)) q AT_EMPTY_PATH)) as Hs.
  { intros q Hq. left. exists (m_Root f). split_and!; try done. apply Hf. }
  ok1; [apply ok_AccessHelper; [apply Hf|done|done]|]. ok1; [by ok1|].
  ok1; [apply ok_sys_with, Hs, Hp|]. ok1. ok1; [by ok1|]. ok1; [by ok1|]. ok1; [apply ok_Capability|].
  ok1; [by ok1|]. ok1; [by ok1|]. ok1; [apply ok_get|]. ok1; [by ok1|]. ok1; [apply ok_sys_with, Hs, Hf|]. safe.
Qed.
Lemma ok_Access p flags : safe rest_ids (Access K p flags).
Proof.
  unfold Access. ok1; [by ok1|]. ok1. ok1; [apply ok_AccessHelper; [apply Hf|apply Hf|done]|].
  ok1; [by ok1|]. ok1; [by ok1|]. by apply ok_delete_access.
Qed.

Lemma ok_xattr_path i f : file_ok f -> ok i (xattr_path K f) (below (m_Root f)).
Proof.
  intros Hf. unfold xattr_path. ok1; [apply ok_GetFdPath|]. ok1. exists x, (m_FileName f). split_and!; try done. apply Hf.
Qed.
Lemma ok_XattrWalk p n : ok rest_ids (XattrWalk K p n) (expected xattr_ok).
Proof.
  unfold XattrWalk. ok1; [by ok1|]. ok1; [by apply ok_xattr_path|]. ok1. by split; [apply Hf|].
Qed.
Lemma ok_XattrCreate p n size flags : ok rest_ids (XattrCreate K p n size flags) (expected xattr_ok).
Proof.
  unfold XattrCreate. ok1; [by ok1|]. ok1; [by ok1|]. ok1; [by apply ok_xattr_path|]. ok1; [ok1|]. ok1; [ok1|].
  ok1. by split; [apply Hf|].
Qed.
Lemma ok_Clunk i f : fid_ok f -> safe i (Clunk K f).
Proof.
  unfold Clunk. destruct f as [f|x]; intros Hf; [by ok1|]. ok1; [by ok1|]. apply ok_lx. destruct Hf.
  case_if; by exists (x_Root x).
Qed.
Lemma ok_CreateFile r uid : PR r -> ok rest_ids (CreateFile K r uid) (expected (fun p => file_ok p.1)).
Proof.
  intros Hr. unfold CreateFile. ok1. ok1; [apply ok_ValidateExists; [by split; [constructor|]|done]|]. by ok1.
Qed.

(** ** Requests and responses *)
Lemma ok_rd {A} i (r : Reader A) Q : reads r Q -> ok i (rd r) Q.
Proof.
  intros Hr s Hs. specialize (Hr _ (I_reader _ _ Hs)). unfold rd. destruct (r (reader s)) as [[x l]|]; [|apply Hs].
  destruct Hr as [H1 H2]. destruct Hs. by split.
Qed.
Lemma ok_Name i : ok i Name (fun n => valid_name n = true /\ no_nul n).
Proof. unfold Name. ok1; [apply ok_rd, reads_String|]. ok1; [by ok1|ok1]. Qed.
Lemma ok_emit i b : safe i (emit b).
Proof.
  intros s Hs. unfold emit. case_if; [apply Hs|]. split; [|done]. destruct Hs as [H1 H2 H3 H4 H5 [H6 [H7 H8]] H9 H10].
  split; try done. split_and!; cbn; rewrite ?length_app; lia.
Qed.
Lemma ok_put_string i v : safe i (put_string v).
Proof. unfold put_string. ok1; [ok1|apply ok_emit]. Qed.
Lemma size_pos t : 7 <= GetMessageSize t.
Proof. by destruct t. Qed.
Lemma ok_EnsureSize i t n : 0 <= n -> safe i (EnsureSize t n).
Proof.
  intros Hn s Hs. pose proof (size_pos t). unfold EnsureSize, mbind, M_bind, get. cbv zeta.
  case_if; [done|]. case_if; [|done]. case_if; [|done]. split; [|done].
  destruct Hs as [H1 H2 H3 H4 H5 [H6 [H7 H8]] H9 H10]. split; try done. unfold response_ok, empty_response. cbn. lia.
Qed.

Lemma ok_set_fresh i f : (forall g, f = Some g -> fid_ok g) -> safe i (set_fresh f).
Proof. intros Hf. apply ok_modify. intros s [H1 H2 H3 H4 H5 H6 H7 H8]. by split. Qed.
Lemma ok_find_fid i fid : ok i (find_fid fid) (fun o => forall f, o = Some f -> fid_ok f).
Proof.
  unfold find_fid. eapply ok_bind; [apply ok_get|intros s Hs]. apply ok_ret. intros f. apply Hs.
Qed.
Lemma ok_LookupFid i fid : ok i (LookupFid fid) fid_ok.
Proof.
  unfold LookupFid. eapply ok_bind; [apply ok_find_fid|intros o Ho]. ok1; [|ok1]. ok1. by apply Ho.
Qed.
Lemma ok_clone_fid i f : fid_ok f -> safe i (clone_fid f).
Proof.
  intros Hf. unfold clone_fid. destruct f as [f|x]; [|ok1]. ok1; [apply ok_set_fresh|by ok1].
  by intros g [= <-].
Qed.
Lemma ok_EmplaceFid i fid : safe i (EmplaceFid fid).
Proof.
  intros s Hs. unfold EmplaceFid, mbind, M_bind, get. cbn beta iota. destruct (m_Fids s !! fid); [done|].
  destruct (fresh s) as [f|] eqn:Ef; [|done]. split; [|done]. pose proof (I_fresh _ _ Hs f Ef) as Hf.
  apply (I_set _ _ (Slot fid) f) in Hs; [|done]. destruct Hs. by split.
Qed.
Lemma ok_reply {A} i (m : M (Expected A)) f R : ok i m (expected R) -> (forall x, R x -> safe i (f x)) -> safe i (reply m f).
Proof. intros Hm Hf. unfold reply. ok1; [exact Hm|]. destruct x as [x|e]; [|by ok1]. ok1; [by apply Hf|by ok1]. Qed.
Lemma ok_reply_qid i t m : safe i m -> safe i (reply_qid t m).
Proof.
  intros Hm. eapply ok_reply; [by apply ok_any|]. intros q _. ok1; [by apply ok_EnsureSize|]. apply ok_emit.
Qed.

(** ** Handlers *)
Ltac h1 :=
  lazymatch goal with
  | |- ok _ (rd String) _ => apply ok_rd, reads_String
  | |- ok _ (rd (P9Proto.Read _)) _ => apply ok_rd, reads_Read
  | |- ok _ (rd _) _ => apply ok_rd, reads_fixed
  | |- ok _ Name _ => apply ok_Name
  | |- ok _ (LookupFid _) _ => apply ok_LookupFid
  | |- ok _ (EnsureSize _ _) _ => apply ok_EnsureSize
  | |- ok _ (emit _) _ => apply ok_emit
  | |- ok _ (u8 _) _ => apply ok_emit
  | |- ok _ (u16 _) _ => apply ok_emit
  | |- ok _ (u32 _) _ => apply ok_emit
  | |- ok _ (u64 _) _ => apply ok_emit
  | |- ok _ (put_string _) _ => apply ok_put_string
  | |- ok _ (reply_qid _ _) _ => apply ok_reply_qid
  | |- ok _ (EmplaceFid _) _ => apply ok_EmplaceFid
  | |- _ => ok1
  end.
Ltac names := cbv beta in *; match goal with H : valid_name ?n = true /\ no_nul ?n |- _ => destruct H end.
Ltac handler := repeat (h1; try done); cbv beta in *; repeat names.
Ltac replies l := eapply ok_reply; [apply ok_any, l; try done|intros ? _; repeat (h1; try done)].

Lemma ok_put_attributes i a : safe i (put_attributes a).
Proof. unfold put_attributes. by handler. Qed.
Hint Resolve ok_GetAttr ok_Open ok_Create ok_MkDir ok_SymLink ok_MkNod ok_Read ok_Write ok_ReadLink ok_Fsync ok_StatFs
  ok_ReadDir ok_UnlinkAt ok_Remove ok_RenameAt ok_Rename ok_Link ok_Access ok_SetAttr ok_put_attributes : methods.

Lemma ok_HandleStatFs : safe rest_ids (HandleStatFs K).
Proof. unfold HandleStatFs. handler. replies ok_StatFs. Qed.
Lemma ok_HandleGetAttr : safe rest_ids (HandleGetAttr K).
Proof. unfold HandleGetAttr. handler. replies ok_GetAttr. apply ok_put_attributes. Qed.
Lemma ok_HandleSetAttr : safe rest_ids (HandleSetAttr K).
Proof. unfold HandleSetAttr. handler. auto with methods. Qed.
Lemma ok_HandleLOpen : safe rest_ids (HandleLOpen K).
Proof. unfold HandleLOpen. handler. replies ok_Open. Qed.
Lemma ok_HandleLCreate : safe rest_ids (HandleLCreate K).
Proof. unfold HandleLCreate. handler. replies ok_Create. Qed.
Lemma ok_HandleSymLink : safe rest_ids (HandleSymLink K).
Proof. unfold HandleSymLink. handler. auto with methods. Qed.
Lemma ok_HandleMkNod : safe rest_ids (HandleMkNod K).
Proof. unfold HandleMkNod. handler. auto with methods. Qed.
Lemma ok_HandleMkDir : safe rest_ids (HandleMkDir K).
Proof. unfold HandleMkDir. handler. auto with methods. Qed.
Lemma ok_HandleReadLink : safe rest_ids (HandleReadLink K).
Proof. unfold HandleReadLink. handler. replies ok_ReadLink. Qed.
Lemma ok_HandleReadDir a : safe rest_ids (HandleReadDir K a).
Proof. unfold HandleReadDir. handler. replies ok_ReadDir. Qed.
Lemma ok_HandleFsync : safe rest_ids (HandleFsync K).
Proof. unfold HandleFsync. handler. auto with methods. Qed.
Lemma ok_HandleRead : safe rest_ids (HandleRead K).
Proof. unfold HandleRead. handler. replies ok_Read. Qed.
Lemma ok_HandleWrite : safe rest_ids (HandleWrite K).
Proof. unfold HandleWrite. handler. replies ok_Write. Qed.
Lemma ok_LookupFidPair i a b : safe i (LookupFidPair a b).
Proof. unfold LookupFidPair. by handler. Qed.
Lemma ok_HandleLink : safe rest_ids (HandleLink K).
Proof. unfold HandleLink. handler; [apply ok_LookupFidPair|]. handler. auto with methods. Qed.
Lemma ok_HandleUnlinkAt : safe rest_ids (HandleUnlinkAt K).
Proof. unfold HandleUnlinkAt. handler. auto with methods. Qed.
Lemma ok_HandleRemove : safe rest_ids (HandleRemove K).
Proof. unfold HandleRemove. handler. auto with methods. Qed.
Lemma ok_HandleRenameAt : safe rest_ids (HandleRenameAt K).
Proof. unfold HandleRenameAt. handler; [apply ok_LookupFidPair|]. handler. auto with methods. Qed.
Lemma ok_HandleRename : safe rest_ids (HandleRename K).
Proof. unfold HandleRename. handler; [apply ok_LookupFidPair|]. handler. auto with methods. Qed.
Lemma ok_lock_answer {A} i f (x : A) : safe i (lock_answer f x).
Proof. unfold lock_answer. handler. Qed.
Lemma ok_HandleLock : safe rest_ids HandleLock.
Proof. unfold HandleLock. handler. replies (@ok_lock_answer Z). Qed.
Lemma ok_HandleGetLock : safe rest_ids HandleGetLock.
Proof. unfold HandleGetLock. handler. replies (@ok_lock_answer unit). Qed.
Lemma ok_HandleXattrWalk : safe rest_ids (HandleXattrWalk K).
Proof.
  unfold HandleXattrWalk. handler; [apply ok_XattrWalk|]. handler.
  eapply ok_reply; [by apply ok_any, ok_GetValue|]. intros [size v] _. handler. apply ok_set_fresh. by intros g [= <-].
Qed.
Lemma ok_HandleXattrCreate : safe rest_ids (HandleXattrCreate K).
Proof.
  unfold HandleXattrCreate. handler. eapply ok_reply; [apply ok_XattrCreate|]. intros a Ha. apply ok_modify.
  intros s Hs. by apply (I_set _ _ (Slot x)).
Qed.
Lemma ok_HandleAccess : safe rest_ids (HandleAccess K).
Proof. unfold HandleAccess. handler. auto with methods. Qed.
Lemma ok_HandleClunk : safe rest_ids (HandleClunk K).
Proof.
  unfold HandleClunk. ok1; [by h1|]. ok1; [apply ok_find_fid|]. ok1; [|by ok1]. ok1.
  - apply ok_modify. intros s [H1 H2 H3 H4 H5 H6 H7 H8]. split; try done. intros j g. cbn. rewrite lookup_delete_Some. naive_solver.
  - apply ok_scoped; [apply ok_Clunk; auto|apply ok_destroy].
Qed.

Lemma ok_read_names i n : ok i (read_names n) (Forall (fun m => valid_name m = true /\ no_nul m)).
Proof.
  induction n as [|n IH]; cbn [read_names]; [by ok1|]. ok1; [apply ok_Name|]. ok1; [exact IH|]. ok1. by constructor.
Qed.
Lemma ok_walk_names l : Forall (fun m => valid_name m = true /\ no_nul m) l -> safe rest_ids (walk_names K l).
Proof.
  induction 1 as [|m l [Hm H0] _ IH]; cbn [walk_names]; [by ok1|]. ok1; [by apply ok_Walk|]. ok1; [|by ok1].
  ok1; [apply ok_emit|exact IH].
Qed.
Lemma ok_HandleWalk : safe rest_ids (HandleWalk K).
Proof.
  unfold HandleWalk. handler; [apply ok_read_names|by apply ok_clone_fid|unfold QidSize; lia|by apply ok_walk_names].
Qed.

(** The size that a connection has does not change once it is negotiated. *)
Lemma I_negotiate i s w size : I i s -> MinimumRequestBufferSize <= size ->
  m_Negotiated s && (negb (Bool.eqb w (m_Use9P2000W s)) || negb (Z.min size MaximumRequestBufferSize =? m_NegotiatedSize s)) = false ->
  I i (s <| m_Use9P2000W := w |> <| m_NegotiatedSize := Z.min size MaximumRequestBufferSize |> <| m_Negotiated := true |>).
Proof.
  intros [H1 H2 H3 H4 H5 H6 H7 H8] Hm Hn. split; try done; [|cbn; unfold MinimumRequestBufferSize, MaximumRequestBufferSize in *; lia].
  destruct H6 as (G1 & G2 & G3). split_and!; try done. cbn. unfold negotiated_ok in H7. destruct (m_Negotiated s).
  - apply orb_false_iff in Hn as [_ Hn]. apply negb_false_iff, Z.eqb_eq in Hn. by rewrite Hn.
  - rewrite H7 in G3. unfold MinimumRequestBufferSize, MaximumRequestBufferSize, InitialResponseBufferSize, c_staticBufferSize in *. lia.
Qed.
Lemma ok_HandleVersion : safe rest_ids HandleVersion.
Proof.
  intros s Hs. unfold HandleVersion, mbind, M_bind, get. case_if; [done|].
  pose proof (ok_rd rest_ids U32 _ (reads_fixed 4) s Hs) as H1. unfold rd at 1. unfold rd in H1.
  destruct (U32 (reader s)) as [[size l]|]; [|done]. destruct H1 as [H1 Hsize].
  pose proof (ok_rd rest_ids String _ reads_String _ H1) as H2. unfold rd in *.
  destruct (String _) as [[version l']|]; [|done]. destruct H2 as [H2 _].
  destruct (size <? MinimumRequestBufferSize) eqn:Em; [done|]. apply Z.ltb_ge in Em. cbv zeta. case_if; [done|].
  match goal with |- context [if ?c then _ else _] => destruct c eqn:En; [done|] end.
  assert (forall v, safe rest_ids (EnsureSize Tversion (Z.of_nat (length version));; u32 v;; put_string version;; mret 0)) as Ht.
  { intros v. handler. lia. }
  refine (Ht _ _ _). by apply (I_negotiate _ _ _ _ H2 Em).
Qed.

(** ** Attaching *)
Definition groups_of (uid gid : Z) (l : list Z) : Prop :=
  l = [] \/ uid <> c_InvalidUid /\ exists h, l = k_list K h (Getgrouplist uid gid).
Lemma ok_make_root i fd uid gid :
  ok i (make_root K fd uid gid) (fun r => n0 <= RootId r /\ RootFd r = fd /\ Uid r = uid /\ Gid r = gid /\ groups_of uid gid (Groups r)).
Proof.
  unfold make_root. eapply (ok_bind _ _ _ (groups_of uid gid)).
  - destruct (uid =? c_InvalidUid) eqn:E; [by ok1; left|]. apply Z.eqb_neq in E.
    eapply ok_bind; [by apply ok_sys_with|]. intros [r l] (h & [= -> ->]). ok1. case_if; [by left|]. right. split; [done|by exists h].
  - intros l Hl. eapply ok_bind; [apply ok_get|intros s Hs]. ok1; [|ok1; split_and!; try done; apply Hs].
    apply ok_modify. intros s' [H1 H2 H3 H4 H5 H6 H7 H8]. split; try done. cbn. lia.
Qed.
(** The group of the user of an attach. *)
Definition group_of (uid gid : Z) : Prop := gid = c_InvalidGid \/ exists h, gid = k_ret K h (Getpwuid uid) \/ gid = k_ret K h (Getgrnam (str "nobody")).
Lemma ok_GetUserGroupId i uid : ok i (GetUserGroupId K uid) (group_of uid).
Proof.
  unfold GetUserGroupId. ok1; [by apply ok_sys|]. cbn beta in *. destruct H as [h ->]. ok1. case_if; [by left|right; exists h; by left].
Qed.
Lemma ok_GetGroupIdByName i uid : ok i (GetGroupIdByName K (str "nobody")) (group_of uid).
Proof.
  unfold GetGroupIdByName. ok1; [by apply ok_sys|]. cbn beta in *. destruct H as [h ->]. ok1. case_if; [by left|right; exists h; by right].
Qed.
Lemma ok_MakeRoot i aname uid : ok i (MakeRoot K sh aname uid) (expected PR).
Proof.
  unfold MakeRoot. destruct (share_get sh aname) as [fd|] eqn:Efd; [|by ok1]. eapply ok_bind; [apply ok_get|intros s Hs].
  ok1; [|ok1; [by ok1|]].
  - ok1; [apply ok_make_root|]. ok1. destruct H as (G1 & G2 & G3 & G4 & [G5|[G5 _]]); [|done]. apply Hnew; [done|].
    split; [exists aname; by rewrite G2|by left].
  - ok1; [apply ok_GetUserGroupId|]. eapply (ok_bind _ _ _ (group_of uid)); [ok1; [apply ok_GetGroupIdByName|by ok1]|].
    intros gid Hg. destruct (gid =? c_InvalidGid) eqn:E; [by ok1|]. apply Z.eqb_neq in E. destruct Hg as [?|[h Hg]]; [done|].
    ok1; [apply ok_make_root|]. ok1. destruct H0 as (G1 & G2 & G3 & G4 & G5). apply Hnew; [done|].
    split; [exists aname; by rewrite G2|right]. rewrite G3, G4. split; [by exists h|].
    destruct G5 as [G5|[_ G5]]; [by left|by right].
Qed.
Lemma ok_HandleAttach : safe rest_ids (HandleAttach K sh).
Proof.
  unfold HandleAttach. repeat (ok1; [by h1|]). ok1; [apply ok_MakeRoot|]. ok1; [|by ok1].
  eapply ok_reply; [by apply ok_CreateFile|]. intros [file qid] Hf. handler. apply ok_set_fresh. by intros g [= <-].
Qed.

(** ** Twopen *)
Lemma ok_WriteWOpenReply status walked mask : safe rest_ids (WriteWOpenReply K status walked mask).
Proof.
  unfold WriteWOpenReply. eapply ok_reply; [apply ok_any, ok_GetAttr|]. intros [[v q] a] _. cbv zeta.
  ok1; [apply ok_EnsureSize; case_if; unfold LX_PATH_MAX; lia|]. do 3 (ok1; [by h1|]).
  eapply (ok_bind _ _ _ (fun _ => True)); [|handler; apply ok_put_attributes].
  ok1; [|h1]. ok1; [apply ok_get|]. ok1; [apply ok_ReadLink|]. handler.
Qed.
Lemma ok_return {A} i m : safe i m -> safe i (return_ (A := A) m).
Proof. intros H. unfold return_. ok1; [exact H|by ok1]. Qed.
Lemma ok_walk_failed {A} e (m : M (step A)) i mask : safe rest_ids m -> safe rest_ids (walk_failed K e m i mask).
Proof.
  intros H. unfold walk_failed. ok1; [exact H|]. ok1; [apply ok_return, ok_WriteWOpenReply|by ok1].
Qed.
Lemma ok_walk_parents n i mask : safe rest_ids (walk_parents K n i mask).
Proof.
  revert i. induction n as [|n IH]; intros i; cbn [walk_parents]; [by ok1|]. ok1; [apply ok_Name|]. names.
  ok1; [by apply ok_Walk|]. ok1; [apply IH|]. apply ok_walk_failed, ok_return, ok_WriteWOpenReply.
Qed.
Lemma ok_find_or_create n name flags mode count mask q : valid_name name = true -> no_nul name ->
  safe rest_ids (find_or_create K n name flags mode count mask q).
Proof.
  intros Hn H0. induction n as [|n IH]; cbn [find_or_create]; [by ok1|]. eapply (ok_bind _ _ _ (fun _ => True)).
  - ok1; [by ok1|]. ok1; [by apply ok_Walk|]. ok1; [by ok1|]. apply ok_walk_failed.
    ok1; [by ok1|apply ok_return, ok_WriteWOpenReply].
  - intros looked _. ok1; [by ok1|]. ok1; [by ok1|]. ok1; [by ok1|]. cbv zeta. eapply (ok_bind _ _ _ (fun _ => True)).
    + ok1; [by apply ok_MkDir|by apply ok_Create].
    + intros r _. ok1; [by ok1|]. ok1; [exact IH|by ok1].
Qed.
Lemma ok_finish_wopen newFid flags wflags count mask x : safe rest_ids (finish_wopen K newFid flags wflags count mask x).
Proof.
  unfold finish_wopen. destruct x as [[e n] q]. ok1; [by ok1|]. ok1; [by ok1|].
  eapply (ok_bind _ _ _ (fun _ => True)); [ok1; [apply ok_Access|by ok1]|]. intros d _. ok1; [by ok1|]. cbv zeta.
  ok1; [apply ok_WriteWOpenReply|]. eapply (ok_bind _ _ _ (fun _ => True)); [ok1; [apply ok_Open|by ok1]|]. intros o _.
  ok1; [|by ok1]. ok1; [apply ok_WriteWOpenReply|]. handler.
Qed.
Lemma ok_HandleWOpen : safe rest_ids (HandleWOpen K).
Proof.
  unfold HandleWOpen. ok1; [apply ok_get|]. ok1; [by ok1|]. repeat (ok1; [by h1|]). ok1; [by apply ok_clone_fid|].
  cbv zeta. ok1; [apply ok_finish_wopen|]. ok1; [apply ok_walk_parents|]. ok1; [by ok1|].
  ok1; [apply ok_Name|]. names. ok1; [by apply ok_find_or_create|]. ok1; [by ok1|apply ok_finish_wopen].
Qed.

(** ** Messages *)
Lemma ok_HandleMessage n : safe rest_ids (HandleMessage K sh n).
Proof.
  unfold HandleMessage. destruct (message_type n) as [[]|]; try by ok1.
  all: first [apply ok_HandleRead | apply ok_HandleWrite | apply ok_HandleStatFs | apply ok_HandleLOpen | apply ok_HandleLCreate
    | apply ok_HandleSymLink | apply ok_HandleMkNod | apply ok_HandleReadLink | apply ok_HandleGetAttr | apply ok_HandleSetAttr
    | apply ok_HandleXattrWalk | apply ok_HandleXattrCreate | apply ok_HandleReadDir | apply ok_HandleFsync | apply ok_HandleLock
    | apply ok_HandleGetLock | apply ok_HandleLink | apply ok_HandleMkDir | apply ok_HandleRenameAt | apply ok_HandleUnlinkAt
    | apply ok_HandleVersion | apply ok_HandleAttach | apply ok_HandleWalk | apply ok_HandleClunk | apply ok_HandleRemove
    | apply ok_HandleRename | apply ok_HandleAccess | apply ok_HandleWOpen
    | unfold HandleFlush; handler].
Qed.
Lemma ok_catch i m : safe i m -> safe i (catch m).
Proof. intros H s Hs. specialize (H s Hs). unfold catch. by destruct (m s) as [[x|e|] s']. Qed.
Lemma ok_destroy_fresh i : safe i (destroy_fresh K).
Proof.
  unfold destroy_fresh. ok1; [apply ok_get|]. ok1; [|by apply ok_ret]. ok1; [apply ok_destroy|]. by apply ok_set_fresh.
Qed.

(** The rest of ProcessMessage, after the header of the request. *)
Definition process (messageType messageTag : Z) : M bytes :=
  s ← get;
  let errorWriter := response s in
  error ← catch (scoped (HandleMessage K sh messageType) (destroy_fresh K));
  messageType ← (if negb (error =? 0) then
                   modify (fun s => s <| response := errorWriter |>);; u32 (- error);; mret 6
                 else mret messageType);
  s ← get;
  mret (with_header (messageType + 1) messageTag (written (response s))).

(** A reply: its size, its type, its tag; of a known type or an error. *)
Definition reply_ok (type tag bound : Z) (reply : bytes) : Prop :=
  exists t body, reply = le_bytes 4 (Z.of_nat (7 + length body)) ++ le_bytes 1 t ++ le_bytes 2 tag ++ body /\
    (t = type + 1 \/ t = 7) /\ Z.of_nat (7 + length body) <= bound.

Lemma with_header_ok t tag w : (7 <= length w)%nat ->
  with_header t tag w = le_bytes 4 (Z.of_nat (7 + length (drop 7 w))) ++ le_bytes 1 t ++ le_bytes 2 tag ++ drop 7 w.
Proof. intros H. unfold with_header. rewrite length_drop. by replace (7 + (length w - 7))%nat with (length w) by lia. Qed.

Lemma ok_reset i : safe i (modify (fun s => s <| response := empty_response c_staticBufferSize true |>)).
Proof.
  apply ok_modify. intros s [H1 H2 H3 H4 H5 H6 H7 H8]. split; try done. split_and!; cbn; [lia|unfold c_staticBufferSize; lia..].
Qed.
Lemma reply_of t type tag s : I rest_ids s -> t = type + 1 \/ t = 7 ->
  reply_ok type tag (Z.max c_staticBufferSize (m_NegotiatedSize s)) (with_header t tag (written (response s))).
Proof.
  intros Hs Ht. destruct (I_response _ _ Hs) as (H1 & H2 & H3). exists t, (drop 7 (written (response s))).
  rewrite length_drop. split_and!; [by rewrite with_header_ok, length_drop|done|lia].
Qed.
Lemma catch_no_throw m s e s' : catch m s <> (Throw e, s').
Proof. unfold catch. by destruct (m s) as [[|?|] ?]. Qed.
Lemma process_ok type tag s : I rest_ids s -> response s = empty_response c_staticBufferSize true ->
  match process type tag s with
  | (Done r, s') => I rest_ids s' /\ reply_ok type tag (Z.max c_staticBufferSize (m_NegotiatedSize s')) r
  | (Throw _, _) => False
  | (Terminated, s') => events_ok tr0 s'
  end.
Proof.
  intros Hs Hr. unfold process. unfold mbind at 1, M_bind at 1, get at 1. cbv zeta. rewrite Hr.
  pose proof (ok_catch _ _ (ok_scoped _ _ _ _ (ok_HandleMessage type) (ok_destroy_fresh rest_ids)) s Hs) as Hc.
  unfold mbind at 1, M_bind at 1. destruct (catch _ s) as [[e|e|] s1] eqn:Ec; [|by apply catch_no_throw in Ec|exact Hc].
  clear Ec. destruct Hc as [Hc _]. unfold mbind at 1, M_bind at 1. destruct (negb (e =? 0)).
  - pose proof (ok_reset _ s1 Hc) as [H1 _]. pose proof (ok_emit _ (le_bytes 4 (- e)) _ H1) as H2.
    unfold mbind at 1, M_bind at 1. cbn [modify]. unfold mbind at 1, M_bind at 1. unfold u32.
    destruct (emit _ _) as [[u|e'|] s2] eqn:Ee.
    + destruct H2 as [H2 _]. split; [exact H2|]. by apply reply_of; [|right].
    + revert Ee. unfold emit. by case_if.
    + apply H2.
  - split; [exact Hc|]. by apply reply_of; [|left].
Qed.
End Safe.

(** * Connections *)

Definition fid_root (f : Fid) : Root := match f with F_File f => m_Root f | F_XAttr x => x_Root x end.
(** The roots that the fids of a connection have. *)
Definition root_of (s : st) (r : Root) : Prop := exists fid f, m_Fids s !! fid = Some f /\ fid_root f = r.
(** A connection between two requests: the thread has its own identity, each file
    and attribute is on a path below its share, each root was made by an attach. *)
Definition connection_ok (K : kernel) (sh : shares) (s : st) : Prop :=
  who s = rest_ids /\ map_Forall (fun _ f => fid_ok K (attached K sh) f) (m_Fids s) /\ negotiated_ok s.
(** The roots that the calls of a request may be for. *)
Definition roots_of_request (K : kernel) (sh : shares) (s : st) (r : Root) : Prop :=
  root_of s r \/ attached K sh r /\ next_root s <= RootId r.

Lemma fid_ok_impl K (P Q : Root -> Prop) f : (P (fid_root f) -> Q (fid_root f)) -> fid_ok K P f -> fid_ok K Q f.
Proof. destruct f as [f|x]; intros H [? ?]; split; auto. Qed.
Lemma fid_ok_root K P f : fid_ok K P f -> P (fid_root f).
Proof. by destruct f; intros [? ?]. Qed.

Lemma connection_roots K sh s r : connection_ok K sh s -> roots_of_request K sh s r -> attached K sh r.
Proof. intros (_ & H & _) [(k & f & Hf & <-)|[? _]]; [|done]. exact (fid_ok_root _ _ _ (H _ _ Hf)). Qed.

Lemma connection_start K sh s msg : connection_ok K sh s -> bytes_ok msg ->
  I K (roots_of_request K sh s) (next_root s) (trace s) rest_ids
    (s <| reader := msg |> <| response := empty_response c_staticBufferSize true |> <| fresh := None |>).
Proof.
  intros (H1 & H2 & H3) Hm. split; try done.
  - intros k f Hf. eapply fid_ok_impl; [|exact (H2 _ _ Hf)]. intros _. left. by exists k, f.
  - exists []. by rewrite app_nil_r.
  - split_and!; cbn; [lia|unfold c_staticBufferSize; lia..].
Qed.
Lemma connection_end K sh s s' : connection_ok K sh s ->
  I K (roots_of_request K sh s) (next_root s) (trace s) rest_ids s' -> connection_ok K sh s'.
Proof.
  intros Hs [H1 H2 H3 H4 H5 H6 H7 H8]. split_and!; try done. intros k f Hf. eapply fid_ok_impl; [|exact (H2 _ _ Hf)].
  by apply connection_roots.
Qed.

(** The type and the tag of a message. *)
Definition type_of (msg : bytes) : Z := le_val (take 1 (drop 4 msg)).
Definition tag_of (msg : bytes) : Z := le_val (take 2 (drop 5 msg)).

Lemma rd_fixed n s : (n <= length (reader s))%nat ->
  rd (ReadFixed n) s = (Done (le_val (take n (reader s))), s <| reader := drop n (reader s) |>).
Proof.
  intros H. unfold rd, ReadFixed, mbind, Reader_bind, P9Proto.Read. rewrite (proj2 (Z.ltb_ge _ _)) by lia. by rewrite Nat2Z.id.
Qed.
Lemma rd_short n s : (length (reader s) < n)%nat -> rd (ReadFixed n) s = (Terminated, s).
Proof. intros H. unfold rd, ReadFixed, mbind, Reader_bind, P9Proto.Read. by rewrite (proj2 (Z.ltb_lt _ _)) by lia. Qed.

(** A request that is shorter than its header ends the server, before any call. *)
Lemma short_message K sh msg s : (length msg < 7)%nat ->
  exists s', handle_request K sh msg s = (Terminated, s') /\ trace s' = trace s /\ m_Fids s' = m_Fids s.
Proof.
  intros H. unfold handle_request, ProcessMessage, mbind, M_bind. cbn [modify]. set (s0 := s <| reader := msg |> <| response := _ |> <| fresh := _ |>).
  change msg with (reader s0) in H. change (trace s) with (trace s0). change (m_Fids s) with (m_Fids s0). unfold U32, U8, U16.
  destruct (decide (4 <= length (reader s0))%nat) as [H4|H4]; [|rewrite rd_short by lia; by eexists].
  rewrite rd_fixed by done. set (s1 := s0 <| reader := _ |>).
  assert (length (reader s1) < 3)%nat as H1 by (change (length (drop 4 (reader s0)) < 3)%nat; rewrite length_drop; lia).
  destruct (decide (1 <= length (reader s1))%nat) as [H5|H5]; [|rewrite (rd_short 1) by lia; by eexists].
  rewrite (rd_fixed 1) by done.
  rewrite rd_short by (change (length (drop 1 (reader s1)) < 2)%nat; rewrite length_drop; lia). by eexists.
Qed.
Lemma long_message K sh msg s : (7 <= length msg)%nat ->
  handle_request K sh msg s =
  process K sh (type_of msg) (tag_of msg)
    (s <| reader := drop 7 msg |> <| response := empty_response c_staticBufferSize true |> <| fresh := None |>).
Proof.
  intros H. unfold handle_request, ProcessMessage, mbind, M_bind. cbn [modify]. unfold U32, U8, U16.
  rewrite (rd_fixed 4) by exact (Nat.le_trans 4 7 _ ltac:(lia) H).
  rewrite (rd_fixed 1) by (change (1 <= length (drop 4 msg))%nat; rewrite length_drop; lia).
  rewrite (rd_fixed 2) by (change (2 <= length (drop 1 (drop 4 msg)))%nat; rewrite !length_drop; lia).
  assert (drop 5 msg = drop 1 (drop 4 msg)) as E1 by by rewrite drop_drop.
  assert (drop 7 msg = drop 2 (drop 1 (drop 4 msg))) as E2 by by rewrite !drop_drop.
  unfold type_of, tag_of. rewrite E1, E2. reflexivity.
Qed.

(** The properties of a request, together. *)
Lemma request_spec K sh s msg : (forall h c, identity_call c = true -> 0 <= k_ret K h c) -> connection_ok K sh s -> bytes_ok msg ->
  match handle_request K sh msg s with
  | (Done reply, s') =>
    connection_ok K sh s' /\ events_ok K (roots_of_request K sh s) (trace s) s' /\
    reply_ok (type_of msg) (tag_of msg) (Z.max c_staticBufferSize (m_NegotiatedSize s')) reply
  | (Throw _, _) => False
  | (Terminated, s') => events_ok K (roots_of_request K sh s) (trace s) s'
  end.
Proof.
  intros Kids Hs Hm. destruct (decide (length msg < 7)%nat) as [H|H].
  - destruct (short_message K sh msg s H) as (s' & -> & E & _). exists []. by rewrite app_nil_r.
  - rewrite long_message by lia.
    pose proof (connection_start K sh s (drop 7 msg) Hs ltac:(by apply Forall_drop)) as HI.
    assert (forall r, next_root s <= RootId r -> attached K sh r -> roots_of_request K sh s r) as Hnew by (by right).
    pose proof (process_ok K sh Kids _ _ Hnew _ (type_of msg) (tag_of msg) _ HI eq_refl) as Hp.
    destruct (process _ _ _ _ _) as [[reply|e|] s']; [|done|done]. destruct Hp as [Hp Hr].
    split; [by eapply connection_end|]. split; [apply Hp|done].
Qed.
End P9SafeThm.
