(* ===== verification/P9Flush.v ===== *)
(** Requests in progress of the upstream Plan 9 server
    (src/src/linux/plan9/p9handler.cpp: Run, RequestTracker and HandleFlush): many
    messages are processed at once, and a Tflush answers only when the request that
    it names is done.  RequestInfo is heap memory that its tracker or a Tflush
    frees. *)
From stdpp Require Import gmap.
From S2P Require Import Prelude.

Module P9Flush.

(** * Data *)
Record RequestInfo : Type := mk_info { Tag : Z; Cancelled : bool; IsSet : bool }.
#[export] Instance RequestInfo_eta : Eta RequestInfo := fun r => mk_info (Tag r) (Cancelled r) (IsSet r).

Inductive message : Type := Request (tag : Z) | Flush (tag oldTag : Z).
Definition tag_of (m : message) : Z := match m with Request tag | Flush tag _ => tag end.

(** Where the processing of a message is: the receiver waits for the semaphore; the
    scheduled task has yet to run its handler; HandleFlush waits for the request at
    an address; the reply is to be sent; the task's data is to be destroyed, first
    taking the request off the list and then freeing or signalling it.  [waited] is
    what a Tflush waited for. *)
Inductive phase : Type :=
  | Acquiring | Scheduled | Awaiting (target : nat) | Handled (waited : option nat) | Finished | Removed.

(** A reply that was sent, with what it waited for, or one that could not be. *)
Inductive reply : Type := Sent (id : nat) (waited : option nat) | SendFailed (id : nat).
Definition reply_id (r : reply) : nat := match r with Sent id _ | SendFailed id => id end.

(** Messages are known by the address of their RequestInfo, which is new each time. *)
Record state : Type := mk_state {
  heap : gmap nat RequestInfo;
  Requests : list nat;
  tasks : gmap nat (message * phase);
  permits : nat;             (* of the semaphore *)
  next : nat;                (* the next address *)
  cancelled : bool;          (* the connection's token *)
  replies : list reply
}.
#[export] Instance state_eta : Eta state := fun s =>
  mk_state (heap s) (Requests s) (tasks s) (permits s) (next s) (cancelled s) (replies s).

Definition maximumMessages : nat := 32.
Definition initial : state := mk_state ∅ [] ∅ maximumMessages 0 false [].

(** * Steps *)

(** What the code may do next; [Fault]: it touches memory that is not allocated. *)
Inductive action : Type :=
  | Receive (m : message) | Acquire | Run (id : nat) | Wake (id : nat) | Send (id : nat) | SendFails (id : nat)
  | Remove (id : nat) | Destroy (id : nat).
Inductive verdict : Type := Next (s : state) | Disabled | Fault.

Definition set_phase (id : nat) (m : message) (p : phase) (s : state) : state := s <| tasks := <[id := (m, p)]> (tasks s) |>.

(** The receiver deals with one message at a time. *)
Definition acquiring (s : state) : option nat :=
  option_map fst (List.find (fun t => match snd (snd t) with Acquiring => true | _ => false end) (map_to_list (tasks s))).

(** Putting an entry into a linked list, or taking it off, touches other entries. *)
Definition links_ok (s : state) : bool := forallb (fun id => bool_decide (is_Some (heap s !! id))) (Requests s).

(** The constructor of RequestTracker. *)
Definition receive (m : message) (s : state) : verdict :=
  if cancelled s then Disabled
  else match acquiring s with
       | Some _ => Disabled
       | None =>
         let id := next s in
         if negb (links_ok s) then Fault
         else
           Next (set_phase id m Acquiring
                 (s <| heap := <[id := mk_info (tag_of m) false false]> (heap s) |> <| Requests := Requests s ++ [id] |>
                    <| next := S id |>))
       end.
Definition acquire (s : state) : verdict :=
  match acquiring s with
  | None => Disabled
  | Some id =>
    match tasks s !! id, permits s with
    | Some (m, _), S n => Next (set_phase id m Scheduled (s <| permits := n |>))
    | _, _ => Disabled
    end
  end.

(** The search of HandleFlush: the first request with the tag that no other Tflush
    has taken; [None] when it meets a request that is gone. *)
Fixpoint find_request (h : gmap nat RequestInfo) (oldTag : Z) (l : list nat) : option (option nat) :=
  match l with
  | [] => Some None
  | id :: l' =>
    match h !! id with
    | None => None
    | Some r => if (Tag r =? oldTag) && negb (Cancelled r) then Some (Some id) else find_request h oldTag l'
    end
  end.
Definition cancel_request (id : nat) (s : state) : state := s <| heap := alter (fun r => r <| Cancelled := true |>) id (heap s) |>.

(** The handler up to where it waits. *)
Definition run (id : nat) (s : state) : verdict :=
  match tasks s !! id with
  | Some (Request tag, Scheduled) => Next (set_phase id (Request tag) (Handled None) s)
  | Some (Flush tag oldTag, Scheduled) =>
    match find_request (heap s) oldTag (Requests s) with
    | None => Fault
    | Some None => Next (set_phase id (Flush tag oldTag) (Handled None) s)
    | Some (Some target) => Next (set_phase id (Flush tag oldTag) (Awaiting target) (cancel_request target s))
    end
  | _ => Disabled
  end.
(** The event is set; waitRequest is freed at the end of HandleFlush. *)
Definition wake (id : nat) (s : state) : verdict :=
  match tasks s !! id with
  | Some (m, Awaiting target) =>
    match heap s !! target with
    | None => Fault
    | Some r => if IsSet r then Next (set_phase id m (Handled (Some target)) (s <| heap := delete target (heap s) |>)) else Disabled
    end
  | _ => Disabled
  end.
Definition send (ok : bool) (id : nat) (s : state) : verdict :=
  match tasks s !! id with
  | Some (m, Handled waited) =>
    Next (set_phase id m Finished
            (if ok then s <| replies := replies s ++ [Sent id waited] |>
             else s <| replies := replies s ++ [SendFailed id] |> <| cancelled := true |>))
  | _ => Disabled
  end.

(** The destructor of RequestTracker: first under the lock, then without it. *)
Definition remove (id : nat) (s : state) : verdict :=
  match tasks s !! id with
  | Some (m, Finished) =>
    if negb (links_ok s) then Fault
    else Next (set_phase id m Removed (s <| Requests := List.filter (fun j => negb (Nat.eqb j id)) (Requests s) |>))
  | _ => Disabled
  end.
Definition destroy (id : nat) (s : state) : verdict :=
  match tasks s !! id with
  | Some (m, Removed) =>
    match heap s !! id with
    | None => Fault
    | Some r =>
      Next (s <| heap := if Cancelled r then <[id := r <| IsSet := true |>]> (heap s) else delete id (heap s) |>
              <| tasks := delete id (tasks s) |> <| permits := S (permits s) |>)
    end
  | _ => Disabled
  end.

Definition act (a : action) (s : state) : verdict :=
  match a with
  | Receive m => receive m s
  | Acquire => acquire s
  | Run id => run id s
  | Wake id => wake id s
  | Send id => send true id s
  | SendFails id => send false id s
  | Remove id => remove id s
  | Destroy id => destroy id s
  end.

Definition step (s s' : state) : Prop := exists a, act a s = Next s'.
Inductive reachable : state -> Prop :=
  | reach_initial : reachable initial
  | reach_step s s' : reachable s -> step s s' -> reachable s'.

(** A whole run. *)
Fixpoint acts (l : list action) (s : state) : verdict :=
  match l with
  | [] => Next s
  | a :: l' => match act a s with Next s' => acts l' s' | v => v end
  end.
End P9Flush.
