(* ===== verification/P9FlushThm.v ===== *)
(** Requests in progress of the upstream Plan 9 server: the invariant of the steps
    (P9FlushThm), and what follows from it: no request is used after it is freed,
    Rflush comes last, every request is answered (P9FlushTopThm). *)
From stdpp Require Import gmap.
From stdpp Require Import gmap sets.
From S2P Require Import Prelude P9Flush.

Import P9Flush.

Module P9FlushThm.

(** * The invariant *)
Definition task (s : state) (id : nat) (p : phase) : Prop := exists m, tasks s !! id = Some (m, p).
Definition busy (s : state) (id : nat) : Prop := is_Some (tasks s !! id).
Definition replied (s : state) (id : nat) : Prop := In id (map reply_id (replies s)).
Definition early (p : phase) : bool := match p with Finished | Removed => false | _ => true end.

Record Inv (s : state) : Prop := {
  I_fresh : forall id, busy s id \/ is_Some (heap s !! id) \/ replied s id -> (id < next s)%nat;
  I_linked : forall id, In id (Requests s) <-> exists m p, tasks s !! id = Some (m, p) /\ p <> Removed;
  I_info : forall id m p, tasks s !! id = Some (m, p) -> exists r, heap s !! id = Some r /\ Tag r = tag_of m /\ IsSet r = false;
  I_left : forall id r, heap s !! id = Some r -> ~ busy s id -> Cancelled r = true /\ IsSet r = true;
  I_claimed : forall f t, task s f (Awaiting t) -> exists r, heap s !! t = Some r /\ Cancelled r = true;
  I_claim : forall t r, heap s !! t = Some r -> Cancelled r = true -> exists f, task s f (Awaiting t);
  I_unique : forall f f' t, task s f (Awaiting t) -> task s f' (Awaiting t) -> f = f';
  I_replied : forall id, (id < next s)%nat -> ~ busy s id -> replied s id;
  I_early : forall id p, task s id p -> replied s id <-> early p = false;
  I_waited : forall id t, task s id (Handled (Some t)) -> replied s t;
  I_newest : forall id, task s id Acquiring -> next s = S id
}.

Lemma inv_initial : Inv initial.
Proof.
  split; unfold task, busy, replied; cbn; intros; destruct_and?; repeat match goal with H : exists _, _ |- _ => destruct H end;
    try (split; [done|]; intros (? & ? & ? & _)); simplify_map_eq; naive_solver lia.
Qed.

Lemma acquiring_some s id : acquiring s = Some id -> task s id Acquiring.
Proof.
  unfold acquiring. destruct (List.find _ _) as [[id' [m p]]|] eqn:E; [|done]. intros [= <-].
  apply List.find_some in E as [Hin Hp]. cbn in *. destruct p; try done. exists m.
  by apply elem_of_map_to_list, list_elem_of_In.
Qed.
Lemma acquiring_none s id : acquiring s = None -> ~ task s id Acquiring.
Proof.
  unfold acquiring. destruct (List.find _ _) as [[id' [m' p]]|] eqn:E; [done|]. intros _ [m Hm].
  apply elem_of_map_to_list, list_elem_of_In in Hm. by apply (List.find_none _ _ E) in Hm.
Qed.

Lemma inv_links s : Inv s -> links_ok s = true.
Proof.
  intros H. apply forallb_forall. intros id Hid. apply bool_decide_eq_true. apply (I_linked s H) in Hid as (m & p & Hid & _).
  destruct (I_info s H _ _ _ Hid) as (r & -> & _). done.
Qed.

(** A fresh message. *)
Lemma inv_fresh s : Inv s -> tasks s !! next s = None /\ heap s !! next s = None.
Proof.
  intros H. split; apply eq_None_not_Some; intros Hs; pose proof (I_fresh s H (next s)); unfold busy in *; naive_solver lia.
Qed.
(** Look at one entry of an updated map. *)
Ltac at_id id := match goal with
  | |- context [<[?k := _]> _ !! id] => destruct (decide (k = id)) as [<-|]
  | H : context [<[?k := _]> _ !! id] |- _ => destruct (decide (k = id)) as [<-|]
  | |- context [delete ?k _ !! id] => destruct (decide (k = id)) as [<-|]
  | H : context [delete ?k _ !! id] |- _ => destruct (decide (k = id)) as [<-|] end; simplify_map_eq.
Ltac open_inv := unfold task, busy, replied, set_phase in *; cbn in *.

Lemma inv_receive m s s' : Inv s -> receive m s = Next s' -> Inv s'.
Proof.
  intros H. unfold receive. destruct (cancelled s); [done|]. destruct (acquiring s) eqn:Ea; [done|].
  rewrite inv_links by done. cbn [negb]. intros [= <-]. destruct (inv_fresh s H) as [Ft Fh].
  pose proof (fun id => acquiring_none s id Ea) as Hn. destruct H. split; open_inv.
  - intros id. destruct (decide (next s = id)) as [<-|]; [lia|]. rewrite !lookup_insert_ne by done. intros Hid. specialize (I_fresh0 id Hid). lia.
  - intros id. rewrite in_app_iff. destruct (decide (next s = id)) as [<-|Hne].
    + rewrite lookup_insert_eq. split; [intros _; by eexists _, _|intros _; right; by left].
    + rewrite lookup_insert_ne by done. rewrite <- I_linked0. cbn. intuition done.
  - intros id m' p Hp. at_id id; [|eauto]. by eexists.
  - intros id r Hr Hb. at_id id; [|eauto]. exfalso. by apply Hb.
  - intros f t [m' Hm']. at_id f. destruct (I_claimed0 f t) as (r & Hr & Hc); [by exists m'|]. exists r.
    rewrite lookup_insert_ne by congruence. done.
  - intros t r Hr Hc. at_id t. destruct (I_claim0 t r Hr Hc) as (f & m' & Hf). exists f, m'.
    rewrite lookup_insert_ne by congruence. done.
  - intros f f' t [m1 H1] [m2 H2]. at_id f. at_id f'. eauto.
  - intros id Hid Hb. at_id id; [exfalso; by apply Hb|]. apply I_replied0; [lia|done].
  - intros id p [m' Hp]. at_id id; [|by apply I_early0; exists m'].
    split; [|done]. intros Hr. specialize (I_fresh0 (next s)). naive_solver lia.
  - intros id t [m' Hm']. at_id id. by apply (I_waited0 id t); exists m'.
  - intros id [m' Hm']. at_id id; [done|]. exfalso. apply (Hn id). by exists m'.
Qed.

(** A task goes from one phase to another, and nothing else changes. *)
Lemma inv_phase s id m p p' : Inv s -> tasks s !! id = Some (m, p) -> early p = true -> early p' = true -> p' <> Acquiring ->
  (forall t, p <> Awaiting t) -> (forall t, p' <> Awaiting t) -> (forall t, p' <> Handled (Some t)) -> Inv (set_phase id m p' s).
Proof.
  intros H Hid He He' Ha Hw Hw' Hh. destruct H. split; open_inv.
  - intros j Hj. apply I_fresh0. at_id j; by eauto.
  - intros j. rewrite I_linked0. split; intros (m' & q & Hj & Hq).
    + at_id j; [|by eexists _, _]. eexists _, _. split; [done|]. by intros ->.
    + at_id j; [|by eexists _, _]. eexists _, _. split; [done|]. by intros ->.
  - intros j m' q Hj. at_id j; eauto.
  - intros j r Hr Hb. apply (I_left0 j r Hr). intros Hj. apply Hb. at_id j; by eauto.
  - intros f t [m' Hm']. at_id f; try by destruct (Hw' t). apply (I_claimed0 f). by exists m'.
  - intros t r Hr Hc. destruct (I_claim0 t r Hr Hc) as (f & m' & Hf). exists f, m'. at_id f; [by destruct (Hw t)|done].
  - intros f f' t [m1 H1] [m2 H2]. at_id f; try by destruct (Hw' t). at_id f'; try by destruct (Hw' t). eauto.
  - intros j Hj Hb. apply I_replied0; [done|]. intros Hb'. apply Hb. at_id j; by eauto.
  - pose proof (I_early0 id p (ex_intro _ _ Hid)) as Hold. rewrite He, <- He' in Hold.
    intros j q [m' Hj]. at_id j; [done|]. apply I_early0. by exists m'.
  - intros j t [m' Hj]. at_id j; try by destruct (Hh t). apply (I_waited0 j). by exists m'.
  - intros j [m' Hj]. at_id j; try done. apply I_newest0. by exists m'.
Qed.
Lemma inv_permits s n : Inv s -> Inv (s <| permits := n |>).
Proof. intros []. by split. Qed.
Lemma inv_acquire s s' : Inv s -> acquire s = Next s' -> Inv s'.
Proof.
  intros H. unfold acquire. destruct (acquiring s) as [id|] eqn:Ea; [|done]. apply acquiring_some in Ea as [m Hm]. rewrite Hm.
  destruct (permits s) as [|n]; [done|]. intros [= <-]. eapply inv_phase; [by apply inv_permits|exact Hm|done..].
Qed.

(** ** HandleFlush *)
Lemma find_request_spec h old l : (forall id, In id l -> is_Some (h !! id)) ->
  exists o, find_request h old l = Some o /\
    match o with
    | Some id => exists l1 l2 r, l = l1 ++ id :: l2 /\ h !! id = Some r /\ Tag r = old /\ Cancelled r = false /\
                   forall j r, In j l1 -> h !! j = Some r -> Tag r = old -> Cancelled r = true
    | None => forall j r, In j l -> h !! j = Some r -> Tag r = old -> Cancelled r = true
    end.
Proof.
  intros Hl. induction l as [|id l IH]; cbn [find_request].
  - by exists None.
  - destruct (Hl id ltac:(by left)) as [r Hr]. rewrite Hr. destruct ((Tag r =? old) && negb (Cancelled r)) eqn:E.
    + apply andb_true_iff in E as [E1 E2]. apply Z.eqb_eq in E1. apply negb_true_iff in E2.
      eexists. split; [done|]. exists [], l, r. split_and!; try done. 
    + destruct (IH ltac:(intros; apply Hl; by right)) as (o & Ho & Hs). exists o. split; [done|].
      assert (Tag r = old -> Cancelled r = true) as Hid.
      { intros <-. rewrite Z.eqb_refl in E. by apply negb_false_iff in E. }
      destruct o as [id'|].
      * destruct Hs as (l1 & l2 & r' & -> & H1 & H2 & H3 & H4). exists (id :: l1), l2, r'. split_and!; try done.
        intros j q [<-|Hj] Hq; [rewrite Hr in Hq; by injection Hq as <-|eauto].
      * intros j q [<-|Hj] Hq; [rewrite Hr in Hq; by injection Hq as <-|eauto].
Qed.
Lemma find_requests s old : Inv s -> exists o, find_request (heap s) old (Requests s) = Some o /\
  match o with
  | Some id => exists r p, In id (Requests s) /\ task s id p /\ p <> Removed /\ heap s !! id = Some r /\ Tag r = old /\ Cancelled r = false
  | None => forall id r, In id (Requests s) -> heap s !! id = Some r -> Tag r = old -> Cancelled r = true
  end.
Proof.
  intros H. destruct (find_request_spec (heap s) old (Requests s)) as (o & Ho & Hs).
  { intros id Hid. apply (I_linked s H) in Hid as (m & p & Hid & _). destruct (I_info s H _ _ _ Hid) as (r & -> & _). done. }
  exists o. split; [done|]. destruct o as [id|]; [|done]. destruct Hs as (l1 & l2 & r & E & Hr & Ht & Hc & _).
  assert (In id (Requests s)) as Hin by (rewrite E; apply in_app_iff; right; by left).
  destruct (proj1 (I_linked s H id) Hin) as (m & p & Hp & Hn). exists r, p. split_and!; try done. by exists m.
Qed.

Lemma cancel_insert s t r : heap s !! t = Some r -> cancel_request t s = s <| heap := <[t := r <| Cancelled := true |>]> (heap s) |>.
Proof.
  intros Hr. unfold cancel_request.
  replace (alter (fun q => q <| Cancelled := true |>) t (heap s)) with (<[t := r <| Cancelled := true |>]> (heap s)); [done|].
  apply map_eq. intros j. rewrite lookup_alter, lookup_insert. case_decide; [by subst; rewrite Hr|done].
Qed.
Lemma inv_claim s f m t r : Inv s -> tasks s !! f = Some (m, Scheduled) -> busy s t -> heap s !! t = Some r -> Cancelled r = false ->
  Inv (set_phase f m (Awaiting t) (cancel_request t s)).
Proof.
  intros H Hf [[mt pt] Ht] Hr Hc. rewrite (cancel_insert _ _ _ Hr).
  destruct (I_info s H _ _ _ Ht) as (r' & Hr' & Htag & Hset). rewrite Hr in Hr'. injection Hr' as <-.
  pose proof (I_early s H f Scheduled (ex_intro _ _ Hf)) as He.
  assert (forall g, ~ task s g (Awaiting t)) as Hfree.
  { intros g Hg. destruct (I_claimed s H g t Hg) as (q & Hq & Hq'). congruence. }
  destruct H. split; open_inv.
  - intros j Hj. apply I_fresh0. destruct (decide (f = j)) as [<-|]; [left; by eexists|].
    destruct (decide (t = j)) as [<-|]; [left; by eexists|]. by rewrite !lookup_insert_ne in Hj by done.
  - intros j. rewrite I_linked0. split; intros (m' & q & Hj & Hq); at_id j; by eexists _, _.
  - intros j m' q Hj. assert (exists q', tasks s !! j = Some (m', q')) as [q' Hj'] by (at_id j; eauto).
    destruct (I_info0 _ _ _ Hj') as (r' & Hr' & ? & ?). destruct (decide (t = j)) as [<-|].
    + rewrite lookup_insert_eq. eexists. split; [done|]. naive_solver.
    + rewrite lookup_insert_ne by done. by exists r'.
  - intros j q Hq Hb. assert (tasks s !! j = None) as Hn by (at_id j; [exfalso; apply Hb; by eexists|by apply eq_None_not_Some]).
    rewrite lookup_insert_ne in Hq by congruence. apply (I_left0 j q Hq). rewrite Hn. by intros [? ?].
  - intros g t' [m' Hm']. destruct (decide (t = t')) as [<-|]; [rewrite lookup_insert_eq; by eexists|].
    rewrite lookup_insert_ne by done. at_id g. apply (I_claimed0 g). by exists m'.
  - intros t' q Hq Hq'. destruct (decide (t = t')) as [<-|]; [exists f, m; by rewrite lookup_insert_eq|].
    rewrite lookup_insert_ne in Hq by done. destruct (I_claim0 t' q Hq Hq') as (g & m' & Hg). exists g, m'.
    rewrite lookup_insert_ne by congruence. done.
  - intros g g' t' [m1 H1] [m2 H2]. at_id g; at_id g'; try done.
    + exfalso. apply (Hfree g'). by exists m2.
    + exfalso. apply (Hfree g). by exists m1.
    + apply (I_unique0 g g' t'); eauto.
  - intros j Hj Hb. apply I_replied0; [done|]. intros [x Hx]. apply Hb. at_id j; by eexists.
  - intros j q [m' Hj]. at_id j; [done|]. apply I_early0. by exists m'.
  - intros j t' [m' Hj]. at_id j. apply (I_waited0 j). by exists m'.
  - intros j [m' Hj]. at_id j. apply I_newest0. by exists m'.
Qed.
Lemma inv_run id s s' : Inv s -> run id s = Next s' -> Inv s'.
Proof.
  intros H. unfold run. destruct (tasks s !! id) as [[[tag|tag old] []]|] eqn:Hid; try done.
  - intros [= <-]. by eapply inv_phase.
  - destruct (find_requests s old H) as (o & -> & Ho). destruct o as [t|]; intros [= <-]; [|by eapply inv_phase].
    destruct Ho as (r & p & _ & [m' Hp] & _ & Hr & _ & Hc). eapply inv_claim; try done. by eexists.
Qed.

Lemma inv_wake id s s' : Inv s -> wake id s = Next s' -> Inv s'.
Proof.
  intros H. unfold wake. destruct (tasks s !! id) as [[m []]|] eqn:Hid; try done. destruct (heap s !! target) as [r|] eqn:Hr; [|done].
  destruct (IsSet r) eqn:Hset; [|done]. intros [= <-].
  assert (tasks s !! target = None) as Ht.
  { destruct (tasks s !! target) as [[m' p]|] eqn:Ht; [|done]. destruct (I_info s H _ _ _ Ht) as (q & Hq & _ & Hs). congruence. }
  pose proof (I_early s H id _ (ex_intro _ _ Hid)) as He. pose proof (I_unique s H) as Hu.
  destruct H. split; open_inv.
  - intros j Hj. apply I_fresh0. destruct (decide (id = j)) as [<-|]; [left; by eexists|].
    rewrite lookup_insert_ne in Hj by done. destruct (decide (target = j)) as [<-|]; [right; left; by eexists|]. by rewrite lookup_delete_ne in Hj.
  - intros j. rewrite I_linked0. split; intros (m' & q & Hj & Hq); at_id j; by eexists _, _.
  - intros j m' q Hj. assert (exists q', tasks s !! j = Some (m', q')) as [q' Hj'] by (at_id j; eauto).
    rewrite lookup_delete_ne by congruence. eauto.
  - intros j q Hq Hb. apply lookup_delete_Some in Hq as [_ Hq]. apply (I_left0 j q Hq). intros Hj. apply Hb. at_id j; by eauto.
  - intros g t' [m' Hm']. at_id g. destruct (I_claimed0 g t') as (q & Hq & Hc); [by exists m'|]. exists q.
    rewrite lookup_delete_ne; [done|]. intros <-. assert (id = g) as <- by (apply (Hu id g target); eauto). done.
  - intros t' q Hq Hc. apply lookup_delete_Some in Hq as [Hne Hq]. destruct (I_claim0 t' q Hq Hc) as (g & m' & Hg). exists g, m'.
    rewrite lookup_insert_ne; [done|]. intros <-. congruence.
  - intros g g' t' [m1 H1] [m2 H2]. at_id g. at_id g'. apply (I_unique0 g g' t'); eauto.
  - intros j Hj Hb. apply I_replied0; [done|]. intros Hx. apply Hb. at_id j; by eauto.
  - intros j q [m' Hj]. at_id j; [done|]. apply I_early0. by exists m'.
  - intros j t' [m' Hj]. destruct (decide (id = j)) as [<-|].
    + rewrite lookup_insert_eq in Hj. injection Hj as _ <-. apply I_replied0; [apply I_fresh0; right; left; by eexists|].
      rewrite Ht. by intros [? ?].
    + rewrite lookup_insert_ne in Hj by done. apply (I_waited0 j). by exists m'.
  - intros j [m' Hj]. at_id j. apply I_newest0. by exists m'.
Qed.

Lemma inv_send ok id s s' : Inv s -> send ok id s = Next s' -> Inv s'.
Proof.
  intros H. unfold send. destruct (tasks s !! id) as [[m []]|] eqn:Hid; try done. intros [= <-].
  set (s1 := if ok then _ else _).
  assert (heap s1 = heap s /\ Requests s1 = Requests s /\ tasks s1 = tasks s /\ next s1 = next s /\
    forall j, In j (map reply_id (replies s1)) <-> In j (map reply_id (replies s)) \/ id = j) as (E1 & E2 & E3 & E4 & E5).
  { unfold s1. destruct ok; cbn; split_and!; try done; intros j; rewrite map_app, in_app_iff; cbn; intuition. }
  clearbody s1. destruct H. split; open_inv; rewrite ?E1, ?E2, ?E3, ?E4; clear E1 E2 E3 E4.
  - intros j. rewrite E5. intros Hj. apply I_fresh0. destruct (decide (id = j)) as [<-|]; [left; by eexists|].
    rewrite lookup_insert_ne in Hj by done. naive_solver.
  - intros j. rewrite I_linked0. split; intros (m' & q & Hj & Hq); at_id j; by eexists _, _.
  - intros j m' q Hj. at_id j; eauto.
  - intros j q Hq Hb. apply (I_left0 j q Hq). intros Hj. apply Hb. at_id j; by eauto.
  - intros g t [m' Hm']. at_id g. apply (I_claimed0 g). by exists m'.
  - intros t q Hq Hc. destruct (I_claim0 t q Hq Hc) as (g & m' & Hg). exists g, m'. rewrite lookup_insert_ne; [done|]. congruence.
  - intros g g' t' [m1 H1] [m2 H2]. at_id g. at_id g'. apply (I_unique0 g g' t'); eauto.
  - intros j Hj Hb. rewrite E5. left. apply I_replied0; [done|]. intros Hx. apply Hb. at_id j; by eauto.
  - intros j q [m' Hj]. rewrite E5. destruct (decide (id = j)) as [<-|Hne].
    + rewrite lookup_insert_eq in Hj. injection Hj as _ <-. split; [done|by right].
    + rewrite lookup_insert_ne in Hj by done. rewrite <- (I_early0 j q) by by exists m'. naive_solver.
  - intros j t [m' Hj]. rewrite E5. at_id j. left. apply (I_waited0 j). by exists m'.
  - intros j [m' Hj]. at_id j. apply I_newest0. by exists m'.
Qed.

Lemma inv_remove id s s' : Inv s -> remove id s = Next s' -> Inv s'.
Proof.
  intros H. unfold remove. destruct (tasks s !! id) as [[m []]|] eqn:Hid; try done. rewrite inv_links by done. cbn [negb].
  intros [= <-]. pose proof (I_early s H id _ (ex_intro _ _ Hid)) as He. destruct H. split; open_inv.
  - intros j Hj. apply I_fresh0. destruct (decide (id = j)) as [<-|]; [left; by eexists|]. by rewrite lookup_insert_ne in Hj.
  - intros j. rewrite List.filter_In, I_linked0, negb_true_iff, Nat.eqb_neq. split.
    + intros [(m' & q & Hj & Hq) Hne]. exists m', q. by rewrite lookup_insert_ne.
    + intros (m' & q & Hj & Hq). destruct (decide (id = j)) as [<-|]; [rewrite lookup_insert_eq in Hj; by injection Hj as _ <-|].
      rewrite lookup_insert_ne in Hj by done. split; [by exists m', q|done].
  - intros j m' q Hj. at_id j; eauto.
  - intros j q Hq Hb. apply (I_left0 j q Hq). intros Hj. apply Hb. at_id j; by eauto.
  - intros g t [m' Hm']. at_id g. apply (I_claimed0 g). by exists m'.
  - intros t q Hq Hc. destruct (I_claim0 t q Hq Hc) as (g & m' & Hg). exists g, m'. rewrite lookup_insert_ne; [done|]. congruence.
  - intros g g' t' [m1 H1] [m2 H2]. at_id g. at_id g'. apply (I_unique0 g g' t'); eauto.
  - intros j Hj Hb. apply I_replied0; [done|]. intros Hx. apply Hb. at_id j; by eauto.
  - intros j q [m' Hj]. at_id j; [done|]. apply I_early0. by exists m'.
  - intros j t [m' Hj]. at_id j. apply (I_waited0 j). by exists m'.
  - intros j [m' Hj]. at_id j. apply I_newest0. by exists m'.
Qed.

(** Destroying a task's data leaves its RequestInfo to the Tflush that took it. *)
Lemma inv_destroy id s s' : Inv s -> destroy id s = Next s' -> Inv s'.
Proof.
  intros H. unfold destroy. destruct (tasks s !! id) as [[m []]|] eqn:Hid; try done. destruct (heap s !! id) as [r|] eqn:Hr; [|done].
  intros [= <-]. set (h := if Cancelled r then _ else _).
  assert (forall j, j <> id -> h !! j = heap s !! j) as Hh.
  { intros j Hj. unfold h. destruct (Cancelled r); [by rewrite lookup_insert_ne|by rewrite lookup_delete_ne]. }
  assert (h !! id = if Cancelled r then Some (r <| IsSet := true |>) else None) as Hhid.
  { unfold h. destruct (Cancelled r); [by rewrite lookup_insert_eq|by rewrite lookup_delete_eq]. }
  clearbody h. pose proof (I_early s H id _ (ex_intro _ _ Hid)) as He. pose proof (I_fresh s H id (or_introl (ex_intro _ _ Hid))) as Hlt.
  assert (forall j q, h !! j = Some q -> exists q', heap s !! j = Some q' /\ Cancelled q' = Cancelled q) as Hback.
  { intros j q Hq. destruct (decide (j = id)) as [->|Hj]; [|rewrite Hh in Hq by done; by exists q].
    exists r. split; [done|]. rewrite Hhid in Hq. destruct (Cancelled r) eqn:E; [|done]. by injection Hq as <-. }
  destruct H. split; open_inv.
  - intros j Hj. apply I_fresh0. destruct (decide (id = j)) as [<-|]; [left; by eexists|].
    rewrite lookup_delete_ne, Hh in Hj by done. done.
  - intros j. rewrite I_linked0. split; intros (m' & q & Hj & Hq); at_id j; by eexists _, _.
  - intros j m' q Hj. at_id j. rewrite Hh by done. eauto.
  - intros j q Hq Hb. destruct (decide (id = j)) as [<-|].
    + rewrite Hhid in Hq. destruct (Cancelled r) eqn:E; [|done]. by injection Hq as <-.
    + rewrite Hh in Hq by done. rewrite lookup_delete_ne in Hb by done. by apply (I_left0 j).
  - intros g t [m' Hm']. at_id g. destruct (I_claimed0 g t) as (q & Hq & Hc); [by exists m'|]. destruct (decide (t = id)) as [->|].
    + rewrite Hr in Hq. injection Hq as <-. rewrite Hhid, Hc. by eexists.
    + rewrite Hh by done. by exists q.
  - intros t q Hq Hc. destruct (Hback t q Hq) as (q' & Hq' & E). rewrite <- E in Hc.
    destruct (I_claim0 t q' Hq' Hc) as (g & m' & Hg). exists g, m'. rewrite lookup_delete_ne; [done|]. congruence.
  - intros g g' t' [m1 H1] [m2 H2]. at_id g. at_id g'. apply (I_unique0 g g' t'); eauto.
  - intros j Hj Hb. destruct (decide (id = j)) as [<-|]; [by apply He|]. apply I_replied0; [done|]. by rewrite lookup_delete_ne in Hb.
  - intros j q [m' Hj]. at_id j. apply I_early0. by exists m'.
  - intros j t [m' Hj]. at_id j. apply (I_waited0 j). by exists m'.
  - intros j [m' Hj]. at_id j. apply I_newest0. by exists m'.
Qed.

Lemma inv_step s s' : Inv s -> step s s' -> Inv s'.
Proof.
  intros H [[m| | | |j|j|j|j] Hs]; cbn [act] in Hs; eauto using inv_receive, inv_acquire, inv_run, inv_wake, inv_send, inv_remove, inv_destroy.
Qed.
Lemma inv_reachable s : reachable s -> Inv s.
Proof. induction 1 as [|s s' _ IH Hs]; [exact inv_initial|by eapply inv_step]. Qed.

Lemma no_fault s a : Inv s -> act a s <> Fault.
Proof.
  intros H. pose proof (inv_links s H) as Hl. destruct a as [m| |id|id|id|id|id|id]; cbn [act].
  - unfold receive. rewrite Hl. cbn [negb]. destruct (cancelled s); [done|]. by destruct (acquiring s).
  - unfold acquire. destruct (acquiring s); [|done]. destruct (tasks s !! _) as [[? ?]|]; [|done]. by destruct (permits s).
  - unfold run. destruct (find_requests s) with (old := match tasks s !! id with Some (Flush _ old, _) => old | _ => 0 end) as (o & Ho & _); [done|].
    destruct (tasks s !! id) as [[[tag|tag old] []]|]; try done. rewrite Ho. by destruct o.
  - unfold wake. destruct (tasks s !! id) as [[m []]|] eqn:Hid; try done. destruct (I_claimed s H id target) as (r & -> & _); [by exists m|].
    by destruct (IsSet r).
  - unfold send. by destruct (tasks s !! id) as [[m []]|].
  - unfold send. by destruct (tasks s !! id) as [[m []]|].
  - unfold remove. rewrite Hl. cbn [negb]. by destruct (tasks s !! id) as [[m []]|].
  - unfold destroy. destruct (tasks s !! id) as [[m []]|] eqn:Hid; try done. by destruct (I_info s H _ _ _ Hid) as (r & -> & _).
Qed.
End P9FlushThm.

Import P9Flush P9FlushThm.

Module P9FlushTopThm.

(** * What an action changes *)

(** The message that an action is about. *)
Definition actor (a : action) (s : state) : option nat :=
  match a with
  | Receive _ => Some (next s) | Acquire => acquiring s
  | Run id | Wake id | Send id | SendFails id | Remove id | Destroy id => Some id
  end.

Lemma act_other a s s' f : act a s = Next s' -> actor a s <> Some f -> tasks s' !! f = tasks s !! f.
Proof.
  destruct a as [m| |id|id|id|id|id|id]; cbn [act actor];
    unfold receive, acquire, run, wake, send, remove, destroy, set_phase, cancel_request; intros H Hf;
    repeat (case_match; try done); simplify_eq; cbn; rewrite ?lookup_insert_ne, ?lookup_delete_ne by congruence; done.
Qed.
Lemma act_replies a s s' : act a s = Next s' ->
  replies s' = replies s \/
  exists id m w x, actor a s = Some id /\ tasks s !! id = Some (m, Handled w) /\ replies s' = replies s ++ [x] /\
    reply_id x = id /\ (forall id' w', x = Sent id' w' -> w' = w) /\ tasks s' !! id = Some (m, Finished).
Proof.
  destruct a as [m| |id|id|id|id|id|id]; cbn [act actor];
    unfold receive, acquire, run, wake, send, remove, destroy, set_phase, cancel_request; intros H;
    repeat (case_match; try done); simplify_eq; cbn; try (by left).
  all: right; do 4 eexists; split_and!; try done; try (by rewrite lookup_insert_eq); by intros ? ? [=].
Qed.
(** What the actor's phase becomes. *)
Lemma act_actor a s s' f m p : Inv s -> act a s = Next s' -> actor a s = Some f -> tasks s !! f = Some (m, p) ->
  match p with
  | Awaiting t => task s' f (Handled (Some t))
  | Handled w => task s' f Finished
  | Finished => task s' f Removed
  | Removed => tasks s' !! f = None
  | _ => True
  end.
Proof.
  intros Hi H Hf Hm. destruct a as [m'| |id|id|id|id|id|id]; cbn [act actor] in *.
  1: { injection Hf as <-. destruct (inv_fresh s Hi) as [E _]. congruence. }
  1: { apply acquiring_some in Hf as [m' Hf]. rewrite Hm in Hf. by injection Hf as _ ->. }
  all: injection Hf as ->; unfold run, wake, send, remove, destroy, set_phase, cancel_request, task in *; rewrite Hm in H;
    repeat (case_match; try done); simplify_eq; cbn; rewrite ?lookup_insert_eq, ?lookup_delete_eq; eauto.
Qed.

(** * The order of replies *)

(** A Tflush that waits for a request, through to its reply. *)
Definition follows (f r : nat) (s : state) : Prop :=
  task s f (Awaiting r) \/ task s f (Handled (Some r)) \/
  ((f < next s)%nat /\ (forall p, task s f p -> early p = false) /\
   exists l1 x l2, replies s = l1 ++ x :: l2 /\ reply_id x = f /\ In r (map reply_id l1) /\ ~ In f (map reply_id (l1 ++ l2))).

Lemma task_fun s f p q : task s f p -> task s f q -> p = q.
Proof. intros [m Hm] [m' Hm']. congruence. Qed.

Lemma act_next a s s' : act a s = Next s' -> (next s <= next s')%nat.
Proof.
  destruct a as [m| |id|id|id|id|id|id]; cbn [act];
    unfold receive, acquire, run, wake, send, remove, destroy, set_phase, cancel_request; intros H;
    repeat (case_match; try done); simplify_eq; cbn; lia.
Qed.
(** A message that was answered stays so. *)
Lemma late_step f a s s' p : Inv s -> act a s = Next s' -> (f < next s)%nat -> (forall q, task s f q -> early q = false) ->
  task s' f p -> early p = false.
Proof.
  intros Hi Ha Hlt He [m Hp]. destruct (decide (actor a s = Some f)) as [Hact|Hact].
  - destruct (tasks s !! f) as [[m' q]|] eqn:Hq.
    + pose proof (act_actor a s s' f m' q Hi Ha Hact Hq) as H. specialize (He q (ex_intro _ _ Hq)).
      destruct q; try done; [|congruence]. destruct H as [m'' H]. by assert (p = Removed) as -> by congruence.
    + exfalso. destruct a as [m'| |id|id|id|id|id|id]; cbn [act actor] in *.
      1: { injection Hact as <-. lia. }
      1: { apply acquiring_some in Hact as [m' Hact]. congruence. }
      all: injection Hact as ->; unfold run, wake, send, remove, destroy in Ha; by rewrite Hq in Ha.
  - rewrite (act_other _ _ _ _ Ha Hact) in Hp. apply He. by exists m.
Qed.

Lemma follows_step f r s s' : Inv s -> follows f r s -> step s s' -> follows f r s'.
Proof.
  intros Hi Hf [a Ha]. pose proof (act_replies a s s' Ha) as Hr.
  assert (Inv s') as Hi' by (eapply inv_step; [done|by exists a]).
  destruct Hf as [Hm|[Hm|(Hlt & He & l1 & x & l2 & E1 & E2 & E3 & E4)]].
  - destruct (decide (actor a s = Some f)) as [Hact|Hact]; destruct Hm as [m Hm].
    + right; left. exact (act_actor a s s' f m _ Hi Ha Hact Hm).
    + left. exists m. by rewrite (act_other _ _ _ _ Ha Hact).
  - destruct (decide (actor a s = Some f)) as [Hact|Hact]; destruct Hm as [m Hm].
    + pose proof (act_actor a s s' f m _ Hi Ha Hact Hm) as Hfin. right; right. split_and!.
      * apply (I_fresh s' Hi'). left. destruct Hfin as [m' Hfin]. by eexists.
      * intros p Hp. by rewrite (task_fun _ _ _ _ Hp Hfin).
      * assert (~ In f (map reply_id (replies s))) as Hnf by (intros Hin; by apply (I_early s Hi f (Handled (Some r)) (ex_intro _ _ Hm)) in Hin).
        destruct Hr as [E|(id & m' & w & x & Hid & _ & E & Ex & _)].
        { exfalso. apply Hnf. rewrite <- E. by apply (I_early s' Hi' f Finished Hfin). }
        rewrite Hact in Hid. injection Hid as <-. exists (replies s), x, []. rewrite app_nil_r. split_and!; try done.
        apply (I_waited s Hi f r). by exists m.
    + right; left. exists m. by rewrite (act_other _ _ _ _ Ha Hact).
  - right; right. split_and!; [pose proof (act_next _ _ _ Ha); lia|intros p; exact (late_step f a s s' p Hi Ha Hlt He)|].
    destruct Hr as [->|(id & m' & w & y & Hid & Hh & -> & Ey & _)]; [by exists l1, x, l2|].
    exists l1, x, (l2 ++ [y]). rewrite E1, <- app_assoc. split_and!; try done.
    rewrite app_assoc, map_app, in_app_iff. intros [Hin|[Hin|[]]]; [done|]. assert (id = f) as -> by congruence.
    by specialize (He _ (ex_intro _ _ Hh)).
Qed.
Lemma inv_acts l s s' : Inv s -> acts l s = Next s' -> Inv s'.
Proof.
  revert s. induction l as [|a l IH]; intros s Hi; cbn [acts]; [by intros [= <-]|].
  destruct (act a s) as [s1| |] eqn:Ha; try done. apply IH. eapply inv_step; [done|by exists a].
Qed.
Lemma follows_acts f r l s s' : Inv s -> follows f r s -> acts l s = Next s' -> follows f r s'.
Proof.
  revert s. induction l as [|a l IH]; intros s Hi Hf; cbn [acts]; [by intros [= <-]|].
  destruct (act a s) as [s1| |] eqn:Ha; try done. assert (step s s1) by by exists a.
  apply IH; [by eapply inv_step|by eapply follows_step].
Qed.

(** C12: When a Tflush is handled while the request that it names is being processed,
    and no other Tflush waits for that request already, then whatever happens next, in
    any interleaving of any number of messages, its Rflush is sent only after the
    reply to that request was sent or could not be. *)
Theorem rflush_follows_its_request (s s' : state) (f r : nat) (tag old : Z) (m : message) (p : phase) (l : list action) (w : option nat)
  (Hs : reachable s) (Hf : tasks s !! f = Some (Flush tag old, Scheduled))
  (Hr : tasks s !! r = Some (m, p)) (Hp : p <> Removed) (Ht : tag_of m = old) (Hfree : forall g, ~ task s g (Awaiting r))
  (Hone : forall r' m' p', tasks s !! r' = Some (m', p') -> p' <> Removed -> tag_of m' = old -> r' = r)
  (Hl : acts (Run f :: l) s = Next s') (Hw : In (Sent f w) (replies s')) :
  exists l1 l2, replies s' = l1 ++ Sent f w :: l2 /\ In r (map reply_id l1).
Proof.
  apply inv_reachable in Hs. cbn [acts act] in Hl. unfold run in Hl. rewrite Hf in Hl.
  destruct (find_requests s old Hs) as (o & Eo & Ho). rewrite Eo in Hl.
  destruct (I_info s Hs _ _ _ Hr) as (q & Hq & Etag & _).
  assert (o = Some r) as ->.
  { destruct o as [t|].
    - destruct Ho as (q' & p' & _ & [m' Hm'] & Hp' & Hq' & Ht' & _). f_equal. apply (Hone t m' p' Hm' Hp').
      destruct (I_info s Hs _ _ _ Hm') as (q'' & Hq'' & E & _). congruence.
    - assert (Cancelled q = true) as Hc.
      { apply (Ho r q); [|done|congruence]. apply (I_linked s Hs). by exists m, p. }
      destruct (I_claim s Hs r q Hq Hc) as (g & Hg). by destruct (Hfree g). }
  set (s1 := set_phase f (Flush tag old) (Awaiting r) (cancel_request r s)) in Hl.
  assert (act (Run f) s = Next s1) as Ha by (cbn [act]; unfold run; by rewrite Hf, Eo).
  assert (follows f r s1) as Hf1 by (left; exists (Flush tag old); apply lookup_insert_eq).
  assert (Inv s1) as Hi1 by (eapply inv_step; [exact Hs|by exists (Run f)]).
  assert (follows f r s') as Hf' by by eapply follows_acts.
  assert (Inv s') as Hi' by by eapply inv_acts.
  assert (In f (map reply_id (replies s'))) as Hin by (apply in_map_iff; by exists (Sent f w)).
  destruct Hf' as [Hx|[Hx|(_ & _ & l1 & x & l2 & E1 & E2 & E3 & E4)]].
  - by apply (I_early s' Hi' f _ Hx) in Hin.
  - by apply (I_early s' Hi' f _ Hx) in Hin.
  - exists l1, l2. rewrite E1 in Hw. apply in_app_iff in Hw as [Hw|[Hw|Hw]]; [|by subst x|].
    + exfalso. apply E4. rewrite map_app, in_app_iff. left. apply in_map_iff. by exists (Sent f w).
    + exfalso. apply E4. rewrite map_app, in_app_iff. right. apply in_map_iff. by exists (Sent f w).
Qed.

(** A read with tag 1, and a Tflush of it with tag 2. *)
Definition demo_start : list action := [Receive (Request 1); Acquire; Receive (Flush 2 1); Acquire].
Definition demo_end : list action := [Run 0; Send 0; Remove 0; Destroy 0; Wake 1; Send 1; Remove 1; Destroy 1].
Definition state_after (l : list action) : state := match acts l initial with Next s => s | _ => initial end.
Lemma reachable_acts l s s' : reachable s -> acts l s = Next s' -> reachable s'.
Proof.
  revert s. induction l as [|a l IH]; intros s Hs; cbn [acts]; [by intros [= <-]|].
  destruct (act a s) as [s1| |] eqn:Ha; try done. apply IH. eapply reach_step; [done|by exists a].
Qed.
Lemma demo_reachable : reachable (state_after demo_start).
Proof. apply (reachable_acts demo_start initial); [constructor|vm_compute; reflexivity]. Qed.
Lemma demo_tasks id x : tasks (state_after demo_start) !! id = Some x ->
  id = 0%nat /\ x = (Request 1, Scheduled) \/ id = 1%nat /\ x = (Flush 2 1, Scheduled).
Proof.
  intros H. apply elem_of_map_to_list in H.
  assert (map_to_list (tasks (state_after demo_start)) = [(1%nat, (Flush 2 1, Scheduled)); (0%nat, (Request 1, Scheduled))]) as E
    by (vm_compute; reflexivity).
  rewrite E in H. set_unfold in H. naive_solver.
Qed.
Lemma rflush_follows_its_request_witness :
  exists l1 l2, replies (state_after (demo_start ++ Run 1 :: demo_end)) = l1 ++ Sent 1 (Some 0%nat) :: l2 /\ In 0%nat (map reply_id l1).
Proof.
  apply (rflush_follows_its_request (state_after demo_start) _ 1 0 2 1 (Request 1) Scheduled demo_end (Some 0%nat) demo_reachable).
  - reflexivity.
  - reflexivity.
  - done.
  - reflexivity.
  - intros g [m Hm]. apply demo_tasks in Hm as [[_ [=]]|[_ [=]]].
  - intros r' m' p' Hm _ Ht. apply demo_tasks in Hm as [[-> _]|[_ [= -> _]]]; [done|discriminate Ht].
  - vm_compute. reflexivity.
  - vm_compute. right. left. reflexivity.
Defined.

(** * Memory *)
Lemma idle_heap s : Inv s -> tasks s = ∅ -> heap s = ∅.
Proof.
  intros Hs E. apply map_empty. intros id. destruct (heap s !! id) as [r|] eqn:Hr; [|done]. exfalso.
  destruct (I_left s Hs id r Hr) as [Hc _]; [unfold busy; rewrite E, lookup_empty; by intros [? ?]|].
  destruct (I_claim s Hs id r Hr Hc) as (f & m & Hf). by rewrite E in Hf.
Qed.

(** C14: In every interleaving no step touches a RequestInfo that was freed, neither
    its tracker nor the Tflush that took it frees one twice, and when no message is
    being processed all of them have been freed and the list is empty. *)
Theorem requests_memory_safe (s : state) (Hs : reachable s) :
  (forall a, act a s <> Fault) /\ (tasks s = ∅ -> heap s = ∅ /\ Requests s = []).
Proof.
  apply inv_reachable in Hs. split; [intros a; by apply no_fault|]. intros E. split.
  - by apply idle_heap.
  - destruct (Requests s) as [|id l] eqn:El; [done|]. exfalso.
    assert (In id (Requests s)) as Hid by (rewrite El; by left). apply (I_linked s Hs) in Hid as (m & p & Hid & _). by rewrite E in Hid.
Qed.
Lemma requests_memory_safe_witness :
  act (Destroy 0) (state_after (demo_start ++ [Run 1; Run 0; Send 0; Remove 0])) <> Fault /\
  heap (state_after (demo_start ++ Run 1 :: demo_end)) = ∅.
Proof.
  assert (forall l s, acts l initial = Next s -> reachable s) as Hr by (intros l s; apply reachable_acts; constructor).
  split.
  - destruct (requests_memory_safe (state_after (demo_start ++ [Run 1; Run 0; Send 0; Remove 0]))) as [H _]; [|apply H].
    apply (Hr (demo_start ++ [Run 1; Run 0; Send 0; Remove 0])). vm_compute. reflexivity.
  - destruct (requests_memory_safe (state_after (demo_start ++ Run 1 :: demo_end))) as [_ H]; [|by apply H; vm_compute].
    apply (Hr (demo_start ++ Run 1 :: demo_end)). vm_compute. reflexivity.
Defined.

(** * Progress *)

(** A client that flushes only what it sent before, and does not use that tag again
    while the Tflush is pending. *)
Definition sensible (s : state) : Prop :=
  forall f tag old p r m q, tasks s !! f = Some (Flush tag old, p) -> p = Acquiring \/ p = Scheduled ->
    tasks s !! r = Some (m, q) -> (f <= r)%nat -> tag_of m <> old.
Inductive sensible_reachable : state -> Prop :=
  | sensible_initial : sensible_reachable initial
  | sensible_step s s' : sensible_reachable s -> step s s' -> sensible s' -> sensible_reachable s'.

(** ** Sums over the tasks *)
Definition total (g : phase -> nat) (t : gmap nat (message * phase)) : nat := map_fold (fun _ x n => g (snd x) + n)%nat 0%nat t.
Lemma total_fresh g t id x : t !! id = None -> total g (<[id := x]> t) = (g (snd x) + total g t)%nat.
Proof. intros H. unfold total. rewrite map_fold_insert_L; [done|intros; lia|done]. Qed.
Lemma total_delete g t id x : t !! id = Some x -> total g t = (g (snd x) + total g (delete id t))%nat.
Proof. intros H. rewrite <- (total_fresh g (delete id t) id x) by apply lookup_delete_eq. by rewrite insert_delete_id. Qed.
Lemma total_insert g t id x y : t !! id = Some x -> (total g (<[id := y]> t) + g (snd x) = total g t + g (snd y))%nat.
Proof.
  intros H. rewrite (total_delete g t id x H), <- insert_delete_eq, total_fresh by apply lookup_delete_eq. lia.
Qed.

Lemma total_pos g t : (0 < total g t)%nat -> exists id x, t !! id = Some x /\ (0 < g (snd x))%nat.
Proof.
  induction t as [|id x t Hn IH] using map_ind; [unfold total; rewrite map_fold_empty; lia|]. rewrite total_fresh by done. intros H.
  destruct (decide (0 < g (snd x))%nat) as [Hx|Hx]; [exists id, x; by rewrite lookup_insert_eq|].
  destruct IH as (j & y & Hj & Hy); [lia|]. exists j, y. rewrite lookup_insert_ne by congruence. done.
Qed.

#[local] Instance phase_eq_dec : EqDecision phase.
Proof. solve_decision. Defined.
Definition active (p : phase) : nat := match p with Acquiring => 0 | _ => 1 end.
Definition weight (p : phase) : nat :=
  match p with Acquiring => 6 | Scheduled => 5 | Awaiting _ => 4 | Handled _ => 3 | Finished => 2 | Removed => 1 end.
Definition is_receive (a : action) : bool := match a with Receive _ => true | _ => false end.

(** What an action does to the tasks and the permits. *)
Inductive change (s s' : state) : action -> Prop :=
  | change_new m : tasks s !! next s = None -> tasks s' = <[next s := (m, Acquiring)]> (tasks s) -> permits s' = permits s ->
      change s s' (Receive m)
  | change_phase a id m p p' : is_receive a = false -> tasks s !! id = Some (m, p) -> tasks s' = <[id := (m, p')]> (tasks s) ->
      (weight p' < weight p)%nat -> (permits s' + active p' = permits s + active p)%nat ->
      (forall t, p' = Awaiting t -> exists tag old m' q, m = Flush tag old /\ p = Scheduled /\
         tasks s !! t = Some (m', q) /\ tag_of m' = old) -> change s s' a
  | change_end a id m : is_receive a = false -> tasks s !! id = Some (m, Removed) -> tasks s' = delete id (tasks s) ->
      permits s' = S (permits s) -> change s s' a.
Lemma act_change a s s' : Inv s -> act a s = Next s' -> change s s' a.
Proof.
  intros Hi. destruct a as [m| |id|id|id|id|id|id]; cbn [act].
  - destruct (inv_fresh s Hi) as [Hf _]. unfold receive. intros H. repeat (case_match; try done). simplify_eq. by apply change_new.
  - unfold acquire. destruct (acquiring s) as [id|] eqn:Ea; [|done]. apply acquiring_some in Ea as [m Hm]. rewrite Hm.
    destruct (permits s) as [|n] eqn:Ep; [done|]. intros [= <-]. eapply (change_phase _ _ _ id m Acquiring Scheduled); [done|done|done|cbn; lia|cbn; lia|done].
  - unfold run. destruct (tasks s !! id) as [[[tag|tag old] []]|] eqn:Hid; try done.
    + intros [= <-]. eapply (change_phase _ _ _ id _ _ (Handled None)); [done|done|done|cbn; lia|cbn; lia|done].
    + destruct (find_requests s old Hi) as (o & -> & Ho). destruct o as [t|]; intros [= <-].
      * eapply (change_phase _ _ _ id _ _ (Awaiting t)); [done|done|done|cbn; lia|cbn; lia|]. intros t' [= <-].
        destruct Ho as (r & p & _ & [m' Hm'] & _ & Hr & Ht & _). destruct (I_info s Hi _ _ _ Hm') as (r' & Hr' & E & _).
        exists tag, old, m', p. split_and!; try done. congruence.
      * eapply (change_phase _ _ _ id _ _ (Handled None)); [done|done|done|cbn; lia|cbn; lia|done].
  - unfold wake. intros H. repeat (case_match; try done). simplify_eq.
    eapply (change_phase _ _ _ id _ (Awaiting target) (Handled (Some target))); [done|done|done|cbn; lia|cbn; lia|done].
  - unfold send. intros H. repeat (case_match; try done). simplify_eq.
    eapply (change_phase _ _ _ id _ _ Finished); [done|done|done|cbn; lia|cbn; lia|done].
  - unfold send. intros H. repeat (case_match; try done). simplify_eq.
    eapply (change_phase _ _ _ id _ _ Finished); [done|done|done|cbn; lia|cbn; lia|done].
  - unfold remove. intros H. repeat (case_match; try done). simplify_eq.
    eapply (change_phase _ _ _ id _ _ Removed); [done|done|done|cbn; lia|cbn; lia|done].
  - unfold destroy. intros H. repeat (case_match; try done); simplify_eq; by eapply change_end.
Qed.

(** The semaphore counts the tasks that acquired it. *)
Lemma permits_step a s s' : Inv s -> act a s = Next s' -> (permits s' + total active (tasks s') = permits s + total active (tasks s))%nat.
Proof.
  intros Hi H. destruct (act_change a s s' Hi H) as [m Hf E Ep|b id m p p' _ Hid E _ Ep _|b id m _ Hid E Ep]; rewrite E.
  - rewrite total_fresh by done. cbn. lia.
  - pose proof (total_insert active _ _ _ (m, p') Hid). cbn [snd] in *. lia.
  - rewrite (total_delete active _ _ _ Hid). cbn. lia.
Qed.
Lemma permits_reachable s : reachable s -> (permits s + total active (tasks s) = maximumMessages)%nat.
Proof.
  induction 1 as [|s s' Hr IH [a Ha]]; [reflexivity|]. rewrite <- IH. apply (permits_step a); [by apply inv_reachable|done].
Qed.
(** Without new messages there is less to do. *)
Lemma weight_step a s s' : Inv s -> is_receive a = false -> act a s = Next s' -> (total weight (tasks s') < total weight (tasks s))%nat.
Proof.
  intros Hi Hn H. destruct (act_change a s s' Hi H) as [m Hf E Ep|b id m p p' _ Hid E Hw _ _|b id m _ Hid E _]; [done|rewrite E..].
  - pose proof (total_insert weight _ _ _ (m, p') Hid). cbn [snd] in *. lia.
  - rewrite (total_delete weight _ _ _ Hid). cbn. lia.
Qed.

(** ** No circle of waiting *)
Definition older (s : state) : Prop := forall f t, task s f (Awaiting t) -> (t < f)%nat.
Lemma sensible_is_reachable s : sensible_reachable s -> reachable s.
Proof. induction 1; [constructor|by eapply reach_step]. Qed.
Lemma sensible_state s : sensible_reachable s -> sensible s.
Proof. intros [|s1 s2 _ _ H]; [|done]. intros f tag old p r m q Hf. cbn in Hf. by rewrite lookup_empty in Hf. Qed.

Lemma older_step a s s' : Inv s -> sensible s -> older s -> act a s = Next s' -> older s'.
Proof.
  intros Hi Hs Ho H f t [m Hm].
  destruct (act_change a s s' Hi H) as [m' Hf E _|b id m' p p' _ Hid E _ _ Hw|b id m' _ Hid E _]; rewrite E in Hm.
  - apply lookup_insert_Some in Hm as [[_ [=]]|[_ Hm]]. apply Ho. by exists m.
  - apply lookup_insert_Some in Hm as [[<- [= <- ->]]|[_ Hm]]; [|apply Ho; by exists m].
    destruct (Hw t eq_refl) as (tag & old & m2 & q & -> & -> & Ht & Htag). destruct (decide (t < id)%nat) as [|Hlt]; [done|].
    exfalso. apply (Hs id tag old Scheduled t m2 q); auto. lia.
  - apply lookup_delete_Some in Hm as [_ Hm]. apply Ho. by exists m.
Qed.
(** Fewer messages are as sensible. *)
Lemma sensible_after a s s' : Inv s -> is_receive a = false -> act a s = Next s' -> sensible s -> sensible s'.
Proof.
  intros Hi Hn H Hs.
  assert (forall id m p, tasks s' !! id = Some (m, p) -> exists q, tasks s !! id = Some (m, q) /\
            (p = Acquiring \/ p = Scheduled -> q = Acquiring \/ q = Scheduled)) as Hb.
  { intros id m p Hm. destruct (act_change a s s' Hi H) as [m' Hf E _|b j m' q q' _ Hid E Hw _ _|b j m' _ Hid E _]; [done|rewrite E in Hm..].
    - apply lookup_insert_Some in Hm as [[<- [= <- <-]]|[_ Hm]]; [|by exists p]. exists q. split; [done|].
      destruct q; try by auto. all: intros [->| ->]; cbn in Hw; lia.
    - apply lookup_delete_Some in Hm as [_ Hm]. by exists p. }
  intros f tag old p r m q Hf Hp Hr Hle. destruct (Hb _ _ _ Hf) as (p1 & Hf1 & Hp1). destruct (Hb _ _ _ Hr) as (q1 & Hr1 & _).
  by apply (Hs f tag old p1 r m q1); auto.
Qed.

(** What has the semaphore can go on, or what it waits for can. *)
Lemma active_enabled s : Inv s -> older s -> forall id m p, tasks s !! id = Some (m, p) -> p <> Acquiring ->
  exists a s', is_receive a = false /\ act a s = Next s'.
Proof.
  intros Hi Ho id. induction (lt_wf id) as [id _ IH]. intros m p Hid Hp. destruct p as [| |t|w| |]; [done| | | | |].
  - exists (Run id). cbn. unfold run. rewrite Hid. destruct m as [tag|tag old]; [by eexists|].
    destruct (find_requests s old Hi) as (o & -> & _). destruct o; by eexists.
  - destruct (tasks s !! t) as [[m' p]|] eqn:Ht.
    + pose proof (Ho id t (ex_intro _ _ Hid)) as Hlt. apply (IH t Hlt m' p Ht). intros ->.
      pose proof (I_newest s Hi t (ex_intro _ _ Ht)). pose proof (I_fresh s Hi id (or_introl (ex_intro _ _ Hid))). lia.
    + destruct (I_claimed s Hi id t (ex_intro _ _ Hid)) as (r & Hr & _).
      destruct (I_left s Hi t r Hr) as [_ Hset]; [unfold busy; rewrite Ht; by intros [? ?]|].
      exists (Wake id). cbn. unfold wake. rewrite Hid, Hr, Hset. by eexists.
  - exists (Send id). cbn. unfold send. rewrite Hid. by eexists.
  - exists (Remove id). cbn. unfold remove. rewrite Hid, inv_links by done. by eexists.
  - exists (Destroy id). cbn. unfold destroy. rewrite Hid. destruct (I_info s Hi _ _ _ Hid) as (r & -> & _). by eexists.
Qed.
Lemma enabled s : reachable s -> older s -> tasks s <> ∅ -> exists a s', is_receive a = false /\ act a s = Next s'.
Proof.
  intros Hr Ho Hn. pose proof (inv_reachable s Hr) as Hi. destruct (map_choose _ Hn) as (id & [m p] & Hid).
  destruct (decide (p = Acquiring)) as [->|Hp]; [|by eapply active_enabled].
  destruct (acquiring s) as [j|] eqn:Ea; [|by destruct (acquiring_none s id Ea); exists m].
  pose proof (acquiring_some s j Ea) as [mj Hj]. destruct (permits s) as [|n] eqn:Ep.
  - (* all permits are held by tasks that can go on *)
    pose proof (permits_reachable s Hr) as Hc. rewrite Ep in Hc. cbn [Nat.add] in Hc.
    assert (exists k mk q, tasks s !! k = Some (mk, q) /\ q <> Acquiring) as (k & mk & q & Hk & Hq); [|by eapply active_enabled].
    destruct (total_pos active (tasks s)) as (k & [mk q] & Hk & Hq); [unfold maximumMessages in Hc; lia|].
    exists k, mk, q. split; [done|]. intros ->. cbn in Hq. lia.
  - exists Acquire. cbn. unfold acquire. rewrite Ea, Hj, Ep. by eexists.
Qed.
Lemma sensible_older s : sensible_reachable s -> older s.
Proof.
  induction 1 as [|s s' Hs IH [a Ha] _]; [intros f t [m Hm]; cbn in Hm; by rewrite lookup_empty in Hm|].
  by eapply older_step; [apply inv_reachable, sensible_is_reachable|apply sensible_state| |].
Qed.
Lemma weight_acts l s s' : Inv s -> Forall (fun a => is_receive a = false) l -> acts l s = Next s' -> (length l <= total weight (tasks s))%nat.
Proof.
  intros Hi Hl. revert s Hi. induction Hl as [|a l Ha Hl IH]; intros s Hi; cbn [acts length]; [lia|].
  destruct (act a s) as [s1| |] eqn:E; try done. intros H. pose proof (weight_step a s s1 Hi Ha E).
  assert (Inv s1) as Hi1 by (eapply inv_step; [done|by exists a]). specialize (IH s1 Hi1 H). lia.
Qed.
Lemma weight_size t : (total weight t <= 6 * size t)%nat.
Proof.
  induction t as [|id [m p] t Hn IH] using map_ind; [unfold total; rewrite map_fold_empty; lia|].
  rewrite total_fresh, map_size_insert_None by done. destruct p; cbn; lia.
Qed.
Lemma drain s : reachable s -> sensible s -> older s ->
  exists l s', Forall (fun a => is_receive a = false) l /\ acts l s = Next s' /\ tasks s' = ∅ /\ heap s' = ∅ /\
    forall id, (id < next s)%nat -> In id (map reply_id (replies s')).
Proof.
  remember (total weight (tasks s)) as n eqn:En. revert s En. induction (lt_wf n) as [n _ IH]. intros s -> Hr Hse Ho.
  pose proof (inv_reachable s Hr) as Hi. destruct (decide (tasks s = ∅)) as [E|Hn].
  - exists [], s. split_and!; try done.
    + by apply idle_heap.
    + intros id Hid. apply (I_replied s Hi id Hid). unfold busy. rewrite E, lookup_empty. by intros [? ?].
  - destruct (enabled s Hr Ho Hn) as (a & s1 & Ha & E).
    destruct (IH _ (weight_step a s s1 Hi Ha E) s1 eq_refl) as (l & s' & Hl & Hacts & H1 & H2 & H3).
    + eapply reach_step; [done|by exists a].
    + by eapply sensible_after.
    + by eapply older_step.
    + exists (a :: l), s'. split_and!; try done; [by constructor|cbn [acts]; by rewrite E|].
      intros id Hid. apply H3. pose proof (act_next a s s1 E). lia.
Qed.

(** C13: While a client flushes only messages that it sent before, and keeps a tag
    for itself until its Tflush was answered, no set of requests and flushes waits
    for itself: from every state that the server can be in, whatever it does next
    without reading another message ends after at most six steps for each message,
    some run of these ends with nothing left to do, and then every message received
    was answered and all memory is free; and it is never stuck before. *)
Theorem requests_drain (s : state) (Hs : sensible_reachable s) :
  (forall l s', Forall (fun a => is_receive a = false) l -> acts l s = Next s' -> (length l <= 6 * size (tasks s))%nat) /\
  (tasks s <> ∅ -> exists a s', is_receive a = false /\ act a s = Next s') /\
  exists l s', Forall (fun a => is_receive a = false) l /\ acts l s = Next s' /\ tasks s' = ∅ /\ heap s' = ∅ /\
    forall id, (id < next s)%nat -> In id (map reply_id (replies s')).
Proof.
  pose proof (sensible_is_reachable s Hs) as Hr. pose proof (sensible_state s Hs) as Hse.
  pose proof (sensible_older s Hs) as Ho. split_and!.
  - intros l s' Hl Ha. etrans; [by eapply weight_acts; [apply inv_reachable| |]|apply weight_size].
  - by apply enabled.
  - by apply drain.
Qed.

Definition sensible_b (s : state) : bool :=
  forallb (fun '(f, (m, p)) =>
    match m, p with
    | Flush _ old, (Acquiring | Scheduled) =>
      forallb (fun '(r, (m', _)) => negb ((f <=? r)%nat && (tag_of m' =? old))) (map_to_list (tasks s))
    | _, _ => true
    end) (map_to_list (tasks s)).
Lemma sensible_b_ok s : sensible_b s = true -> sensible s.
Proof.
  intros H f tag old p r m q Hf Hp Hr Hle Ht. unfold sensible_b in H. rewrite forallb_forall in H.
  specialize (H (f, (Flush tag old, p)) (proj1 (list_elem_of_In _ _) (proj2 (elem_of_map_to_list _ _ _) Hf))).
  assert (forallb (fun '(r, (m', _)) => negb ((f <=? r)%nat && (tag_of m' =? old))) (map_to_list (tasks s)) = true) as H'
    by by destruct Hp as [->| ->].
  rewrite forallb_forall in H'.
  specialize (H' (r, (m, q)) (proj1 (list_elem_of_In _ _) (proj2 (elem_of_map_to_list _ _ _) Hr))). cbn in H'.
  rewrite (proj2 (Nat.leb_le _ _) Hle), Ht, Z.eqb_refl in H'. done.
Qed.
Lemma demo_sensible : sensible_reachable (state_after demo_start).
Proof.
  assert (forall l a, sensible_reachable (state_after l) -> act a (state_after l) = Next (state_after (l ++ [a])) ->
            sensible_b (state_after (l ++ [a])) = true -> sensible_reachable (state_after (l ++ [a]))) as H.
  { intros l a Hl Ha Hb. eapply sensible_step; [exact Hl|by exists a|by apply sensible_b_ok]. }
  apply (H [Receive (Request 1); Acquire; Receive (Flush 2 1)] Acquire); [|vm_compute; reflexivity..].
  apply (H [Receive (Request 1); Acquire] (Receive (Flush 2 1))); [|vm_compute; reflexivity..].
  apply (H [Receive (Request 1)] Acquire); [|vm_compute; reflexivity..].
  apply (H [] (Receive (Request 1))); [constructor|vm_compute; reflexivity..].
Qed.
Lemma requests_drain_witness :
  exists l s', acts l (state_after demo_start) = Next s' /\ heap s' = ∅ /\ In 1%nat (map reply_id (replies s')).
Proof.
  destruct (requests_drain (state_after demo_start) demo_sensible) as (_ & _ & l & s' & _ & H1 & _ & H2 & H3).
  exists l, s'. split; [exact H1|]. split; [exact H2|]. apply H3. vm_compute. lia.
Defined.

(** A Tflush that names its own tag waits for itself: nothing that the server can do
    ends it. *)
Example flush_of_itself a : is_receive a = false -> act a (state_after [Receive (Flush 7 7); Acquire; Run 0]) = Disabled.
Proof.
  intros Ha. set (s := state_after _).
  assert (forall id, match tasks s !! id with Some (_, p) => p = Awaiting 0 | None => True end) as Ht.
  { intros id. destruct (decide (id = 0%nat)) as [->|Hid]; [vm_compute; reflexivity|].
    replace (tasks s) with ({[0%nat := (Flush 7 7, Awaiting 0)]} : gmap nat (message * phase)) by (vm_compute; reflexivity).
    by rewrite lookup_singleton_ne by done. }
  destruct a as [m| |id|id|id|id|id|id]; [done|vm_compute; reflexivity|..]; cbn [act]; unfold run, wake, send, remove, destroy;
    specialize (Ht id); destruct (tasks s !! id) as [[m p]|] eqn:E; try done; subst p; try done.
  by destruct m.
Qed.
End P9FlushTopThm.
