(* ===== verification/P9Conn.v ===== *)
(** A connection of the upstream Plan 9 server (src/src/linux/plan9/p9handler.cpp:
    FillData, NextMessage and Run): how messages are cut out of what the socket gives,
    and the tasks that handle them, which run in any order between the steps of the
    receiver.  A handler is one step here; what happens inside of a task, and the
    memory of its request, is the subject of P9Flush. *)
From stdpp Require Import gmap.
From S2P Require Import Prelude CStr CNum P9State P9Proto P9File P9Handler.
Import P9State P9Handler.

Module P9Conn.

(** What the socket will give: the chunks that have arrived, none of them empty, and
    then its end, or an error, which ends the connection too. *)
Definition socket : Type := list bytes.
Definition recv (room : nat) (s : socket) : bytes * socket :=
  match s with
  | [] => ([], [])
  | c :: s' => if (length c <=? room)%nat then (c, s') else (take room c, drop room c :: s')
  end.

(** m_RequestData, what was received and not yet used, moves to the start of the
    buffer before more is received behind it. *)
Fixpoint fill_loop (fuel : nat) (requiredBytes : nat) (valid : bytes) (s : socket) : bytes * socket :=
  match fuel with
  | O => (valid, s)
  | S fuel' =>
    if (requiredBytes <=? length valid)%nat then (valid, s)
    else
      let '(c, s') := recv (Z.to_nat MaximumRequestBufferSize - length valid) s in
      match c with [] => (valid, s') | _ => fill_loop fuel' requiredBytes (valid ++ c) s' end
  end.
Definition FillData (requiredBytes : Z) (valid : bytes) (s : socket) : bool * (bytes * socket) :=
  let '(valid, s) := fill_loop (Z.to_nat requiredBytes) (Z.to_nat requiredBytes) valid s in
  ((requiredBytes <=? Z.of_nat (length valid)), (valid, s)).

(** The two halves of NextMessage, which each may wait for the socket: the size that
    the next message states, checked against the size negotiated at that moment; then
    the message itself.  [None]: the receiver stops. *)
Definition NextMessage_size (m_NegotiatedSize : Z) (i : bytes * socket) : option (Z * (bytes * socket)) :=
  let '(data, s) := i in
  let '(ok, (data, s)) := if Z.of_nat (length data) <? 4 then FillData 4 data s else (true, (data, s)) in
  if negb ok then None
  else
    let messageSize := le_val (take 4 data) in
    if (messageSize <? 7) || (m_NegotiatedSize <? messageSize) then None else Some (messageSize, (data, s)).
Definition NextMessage_message (messageSize : Z) (i : bytes * socket) : option (bytes * (bytes * socket)) :=
  let '(data, s) := i in
  let '(ok, (data, s)) := if Z.of_nat (length data) <? messageSize then FillData messageSize data s else (true, (data, s)) in
  if negb ok then None else Some (take (Z.to_nat messageSize) data, (drop (Z.to_nat messageSize) data, s)).

(** * A connection *)

(** Where the receiver is: in either half of NextMessage, waiting for the semaphore
    with a message, or out of its loop. *)
Inductive receiving : Type := Measuring | Collecting (size : Z) | Acquiring (message : bytes) | Stopped.

(** [I] is what is left to receive: the buffer and the socket.  [running] are the
    messages of the tasks that were scheduled and are not done; [received] are all
    messages in the order they came in; [handled] are those that are done, in the
    order they were, with the reply if one was sent.  [cancelled] is the
    connection's token; [crashed]: a handler terminated the server. *)
Record conn (I : Type) : Type := mk_conn {
  input : I; receiver : receiving; running : list bytes; received : list bytes;
  handled : list (bytes * option bytes); cancelled : bool; crashed : bool; server : st
}.
Arguments mk_conn {I}.
Arguments input {I}. Arguments receiver {I}. Arguments running {I}. Arguments received {I}.
Arguments handled {I}. Arguments cancelled {I}. Arguments crashed {I}. Arguments server {I}.
#[export] Instance conn_eta I : Eta (conn I) := fun c =>
  mk_conn (input c) (receiver c) (running c) (received c) (handled c) (cancelled c) (crashed c) (server c).
Definition start {I} (i : I) (s : st) : conn I := mk_conn i Measuring [] [] [] false false s.

(** What may happen next.  The handlers run as tasks of the scheduler, so any of them
    may come before, between or after the steps of the receiver; [sent] says whether
    its reply could be sent. *)
Inductive action : Type := Measure | Collect | Spawn | Abort | Handle (i : nat) (sent : bool).

Definition maximumMessages : nat := 32.

Section Run.
Context (K : kernel) (sh : shares).
(** The two halves of NextMessage. *)
Context {I : Type} (measure : Z -> I -> option (Z * I)) (collect : Z -> I -> option (bytes * I)).

(** The loop is left, and the token cancelled. *)
Definition stop (c : conn I) : conn I := c <| receiver := Stopped |> <| cancelled := true |>.

Definition Receive (a : action) (c : conn I) : option (conn I) :=
  match a, receiver c with
  | Measure, Measuring =>
    Some (match measure (m_NegotiatedSize (server c)) (input c) with
          | None => stop c
          | Some (size, i) => c <| input := i |> <| receiver := Collecting size |>
          end)
  | Collect, Collecting size =>
    Some (match collect size (input c) with
          | None => stop c
          | Some (message, i) => c <| input := i |> <| receiver := Acquiring message |> <| received := received c ++ [message] |>
          end)
  | Spawn, Acquiring message =>
    if (length (running c) <? maximumMessages)%nat then
      Some (c <| running := running c ++ [message] |> <| receiver := if cancelled c then Stopped else Measuring |>)
    else None
  | Abort, (Measuring | Collecting _) => if cancelled c then Some (stop c) else None
  | _, _ => None
  end.

(** The scheduled task: ProcessMessage, and the release of the semaphore. *)
Definition complete (i : nat) (message : bytes) (reply : option bytes) (s : st) (c : conn I) : conn I :=
  c <| running := take i (running c) ++ drop (S i) (running c) |> <| handled := handled c ++ [(message, reply)] |>
    <| cancelled := cancelled c || negb (bool_decide (is_Some reply)) |> <| server := s |>.
Definition Task (i : nat) (sent : bool) (c : conn I) : option (conn I) :=
  match running c !! i with
  | None => None
  | Some message =>
    Some (match handle_request K sh message (server c) with
          | (Done reply, s) => complete i message (if sent then Some reply else None) s c
          | (Throw _, s) => complete i message None s c
          | (Terminated, s) => c <| crashed := true |> <| server := s |>
          end)
  end.

(** [None]: it cannot happen now. *)
Definition step (a : action) (c : conn I) : option (conn I) :=
  if crashed c then None
  else match a with Handle i sent => Task i sent c | _ => Receive a c end.
Fixpoint run (l : list action) (c : conn I) : conn I :=
  match l with [] => c | a :: l' => run l' (default c (step a c)) end.
End Run.

(** The code on a socket. *)
Definition Run (K : kernel) (sh : shares) : list action -> conn (bytes * socket) -> conn (bytes * socket) :=
  run K sh NextMessage_size NextMessage_message.
End P9Conn.
