(* ===== verification/P9ShareThm.v ===== *)
(** Theorems on the upstream Plan 9 server: the entries of a reply are read back
    (P9ProtoThm), a directory is listed once, whatever the sizes of the requests
    (P9ReadDirThm), requests stay in the share and replies are well formed (P9ShareThm),
    a connection handles the messages of its stream (P9ConnThm), and a request changes
    no fids but those it names (P9FidThm). *)
From stdpp Require Import gmap.
From S2P Require Import Prelude CStr CNum P9State P9Proto P9File P9Handler P9SafeThm P9Conn.

Import P9State P9Proto.

Module P9ProtoThm.

(** * One value *)

Definition fits (n : nat) (v : Z) : Prop := 0 <= v < 256 ^ Z.of_nat n.
Lemma read_fixed n v l : fits n v -> ReadFixed n (le_bytes n v ++ l) = Some (v, l).
Proof.
  intros Hv. unfold ReadFixed, mbind, Reader_bind, Read. rewrite length_app, le_bytes_length, (proj2 (Z.ltb_ge _ _)) by lia.
  rewrite Nat2Z.id. rewrite take_app_length', drop_app_length' by by rewrite le_bytes_length.
  by rewrite le_val_bytes_small.
Qed.
Lemma bind_fixed {A} n v (f : Z -> Reader A) l : fits n v -> (ReadFixed n ≫= f) (le_bytes n v ++ l) = f v l.
Proof. intros Hv. unfold mbind, Reader_bind. by rewrite read_fixed. Qed.

Definition qid_ok (q : Qid) : Prop := fits 1 (q_Type q) /\ fits 4 (q_Version q) /\ fits 8 (q_Path q).
Lemma read_qid q l : qid_ok q -> read_Qid (qid_bytes q ++ l) = Some (q, l).
Proof.
  intros (H1 & H2 & H3). unfold read_Qid, qid_bytes, U8, U32, U64. rewrite <- !app_assoc.
  rewrite bind_fixed, bind_fixed, bind_fixed by done. by destruct q.
Qed.
Definition string_ok (s : bytes) : Prop := no_nul s /\ Z.of_nat (length s) <= 65535.
Lemma read_string s l : string_ok s -> String (string_bytes s ++ l) = Some (s, l).
Proof.
  intros [H1 H2]. unfold String, string_bytes, U16. rewrite <- app_assoc.
  rewrite bind_fixed by (unfold fits; cbn; lia). unfold mbind, Reader_bind, Read.
  rewrite length_app, (proj2 (Z.ltb_ge _ _)) by lia. rewrite Nat2Z.id, take_app_length, drop_app_length. by rewrite to_cstr_all.
Qed.

Definition stat_ok (a : StatResult) : Prop :=
  fits 4 (Mode a) /\ fits 4 (s_Uid a) /\ fits 4 (s_Gid a) /\ fits 8 (NLink a) /\ fits 8 (RDev a) /\ fits 8 (Size a) /\
  fits 8 (BlockSize a) /\ fits 8 (Blocks a) /\ fits 8 (AtimeSec a) /\ fits 8 (AtimeNsec a) /\ fits 8 (MtimeSec a) /\
  fits 8 (MtimeNsec a) /\ fits 8 (CtimeSec a) /\ fits 8 (CtimeNsec a).
Lemma read_stat a l : stat_ok a -> ReadStatResult (SpanWriteStatResult a ++ l) = Some (a, l).
Proof.
  intros H. unfold ReadStatResult, SpanWriteStatResult, U32, U64. rewrite <- !app_assoc. destruct_and! H.
  rewrite !bind_fixed by done. by destruct a.
Qed.

Definition entry_ok (e : DirectoryEntry) : Prop :=
  qid_ok (de_Qid e) /\ fits 8 (de_Offset e) /\ fits 1 (de_Type e) /\ string_ok (de_Name e).
Lemma qid_length q : length (qid_bytes q) = 13%nat.
Proof. unfold qid_bytes. by rewrite !length_app, !le_bytes_length. Qed.
Lemma stat_length a : length (SpanWriteStatResult a) = 100%nat.
Proof. unfold SpanWriteStatResult. by rewrite !length_app, !le_bytes_length. Qed.
Lemma read_entry e l : entry_ok e ->
  TryDirectoryEntry (qid_bytes (de_Qid e) ++ le_bytes 8 (de_Offset e) ++ le_bytes 1 (de_Type e) ++ string_bytes (de_Name e) ++ l) = Some (e, l).
Proof.
  intros (H1 & H2 & H3 & H4). unfold TryDirectoryEntry.
  rewrite (proj2 (Z.ltb_ge _ _)) by (unfold string_bytes; rewrite !length_app, qid_length, !le_bytes_length; unfold QidSize; lia).
  unfold mbind at 1, Reader_bind at 1. rewrite read_qid by done. unfold U64, U8. rewrite bind_fixed, bind_fixed by done.
  unfold mbind, Reader_bind. rewrite read_string by done. by destruct e.
Qed.

(** * A directory *)

(** What Treaddir and Twreaddir put into a reply that has [room] bytes: entries, each
    with its attributes or none, until one does not fit. *)
Fixpoint write_entries (room : Z) (l : list (DirectoryEntry * option StatResult)) : bytes :=
  match l with
  | [] => []
  | (e, attr) :: l' =>
    match SpanWriteDirectoryEntry room e attr with
    | Some b => b ++ write_entries (room - Z.of_nat (length b)) l'
    | None => []
    end
  end.
(** A client's reading of it. *)
Fixpoint read_entries (fuel : nat) (attributes : bool) (l : bytes) : list (DirectoryEntry * option StatResult) :=
  match fuel, l with
  | S fuel', _ :: _ =>
    match (e ← TryDirectoryEntry; a ← (if attributes then a ← ReadStatResult; mret (Some a) else mret None); mret (e, a)) l with
    | Some (x, l') => x :: read_entries fuel' attributes l'
    | None => []
    end
  | _, _ => []
  end.
Definition listed_ok (attributes : bool) (x : DirectoryEntry * option StatResult) : Prop :=
  entry_ok (fst x) /\ match snd x with Some a => attributes = true /\ stat_ok a | None => attributes = false end.

Lemma read_listed attributes e attr room b l : listed_ok attributes (e, attr) -> SpanWriteDirectoryEntry room e attr = Some b ->
  (e ← TryDirectoryEntry; a ← (if attributes then a ← ReadStatResult; mret (Some a) else mret None); mret (e, a)) (b ++ l) = Some ((e, attr), l)
  /\ (0 < length b)%nat /\ Z.of_nat (length b) <= room.
Proof.
  intros [He Ha] Hb. cbn [fst snd] in *. unfold SpanWriteDirectoryEntry in Hb.
  match type of Hb with (if ?c then _ else _) = _ => destruct c eqn:Hroom; [done|] end. apply (inj Some) in Hb. subst b. split; [|split].
  - rewrite <- !app_assoc. unfold mbind at 1, Reader_bind at 1. rewrite read_entry by done.
    destruct attr as [a|]; [destruct Ha as [-> Ha]|subst attributes]; [|done].
    unfold mbind, Reader_bind. by rewrite read_stat.
  - rewrite length_app, qid_length. lia.
  - apply Z.ltb_ge in Hroom. etrans; [|exact Hroom]. unfold QidSize, string_bytes. rewrite !length_app, qid_length, !le_bytes_length.
    destruct attr as [a|]; [rewrite stat_length; unfold StatResultSize|cbn [length]]; lia.
Qed.

(** The entries that fit. *)
Fixpoint fitting (room : Z) (l : list (DirectoryEntry * option StatResult)) : list (DirectoryEntry * option StatResult) :=
  match l with
  | [] => []
  | (e, attr) :: l' =>
    match SpanWriteDirectoryEntry room e attr with
    | Some b => (e, attr) :: fitting (room - Z.of_nat (length b)) l'
    | None => []
    end
  end.

Lemma entries_read_back attributes room l fuel : Forall (listed_ok attributes) l -> 0 <= room ->
  (length (write_entries room l) <= fuel)%nat ->
  read_entries fuel attributes (write_entries room l) = fitting room l /\ Z.of_nat (length (write_entries room l)) <= room.
Proof.
  intros Hl. revert room fuel. induction Hl as [|[e attr] l He Hl IH]; intros room fuel Hroom Hf; [by destruct fuel|].
  cbn [write_entries fitting] in *. destruct (SpanWriteDirectoryEntry room e attr) as [b|] eqn:Eb; [|by destruct fuel].
  destruct (read_listed attributes e attr room b (write_entries (room - Z.of_nat (length b)) l) He Eb) as (Hr & Hpos & Hlen).
  rewrite length_app in *. destruct fuel as [|fuel]; [lia|].
  destruct (IH (room - Z.of_nat (length b)) fuel ltac:(lia) ltac:(lia)) as [IH1 IH2].
  cbn [read_entries]. destruct (b ++ _) as [|c x] eqn:Ex; [by destruct b|]. rewrite Hr, IH1. split; [done|lia].
Qed.

(** What a Treaddir or Twreaddir reply holds is read back as exactly the entries
    that were written, in order, each with its qid, offset, type, name and
    attributes; they are the longest beginning of the directory that fits, the bytes
    never exceed the count that the client asked for, and the reader needs no more
    turns than bytes. *)
Theorem directory_entries_read_back (attributes : bool) (room : Z) (l : list (DirectoryEntry * option StatResult))
  (Hl : Forall (listed_ok attributes) l) (Hroom : 0 <= room) :
  let b := write_entries room l in
  read_entries (length b) attributes b = fitting room l /\ Z.of_nat (length b) <= room.
Proof. by apply entries_read_back. Qed.
End P9ProtoThm.

Import P9State P9Proto P9File P9ProtoThm.

Module P9ReadDirThm.

(** The entry that the server writes for one of the system's. *)
Definition entry_of (d : dirent) : DirectoryEntry :=
  mk_entry (mk_qid (DirEntryTypeToQidType (d_type d)) 0 (d_ino d)) (d_off d) (d_type d) (d_name d).
Definition dirent_ok (d : dirent) : Prop := fits 8 (d_ino d) /\ fits 8 (d_off d) /\ fits 1 (d_type d) /\ string_ok (d_name d).
Lemma entry_of_ok d : dirent_ok d -> listed_ok false (entry_of d, None).
Proof.
  intros (H1 & H2 & H3 & H4). split; [|done]. split; [|done]. split; [|split; [unfold fits; cbn; lia|exact H1]].
  cbn [fst entry_of de_Qid q_Type]. unfold DirEntryTypeToQidType, QidDirectory, QidSymlink, QidFile. repeat case_if; unfold fits; cbn; lia.
Qed.
Definition plain (d : dirent) : DirectoryEntry * option StatResult := (entry_of d, None).
Definition entry_size (d : dirent) : Z := 24 + Z.of_nat (length (d_name d)).

Section Directory.
(** A directory whose entries have offsets of their own, and a system that lists it
    through the stream of one descriptor. *)
Context (K : kernel) (D : list dirent) (fd : Z).
Context (HD : Forall dirent_ok D) (Hoff : NoDup (map d_off D)) (Hzero : ~ In 0 (map d_off D)).

(** The entries up to and with the one at an offset. *)
Fixpoint count_to (off : Z) (l : list dirent) : nat :=
  match l with [] => 0 | d :: l' => S (if d_off d =? off then 0 else count_to off l') end.
Definition index (off : Z) : nat := if off =? 0 then 0%nat else count_to off D.
(** Where the stream stands after what was asked of the system. *)
Definition stream_step (n : nat) (e : event) : nat :=
  match snd e with
  | Fdopendir f | Rewinddir f => if f =? fd then 0%nat else n
  | Seekdir f off => if f =? fd then index off else n
  | Readdir f => if (f =? fd) && (n <? length D)%nat then S n else n
  | _ => n
  end.
Definition stream (h : list event) : nat := foldl stream_step 0%nat h.
Context (Hdir : forall h, k_dirent K h (Readdir fd) = D !! stream h) (Hret : forall h c, c = Fdopendir fd \/ c = Readdir fd -> 0 <= k_ret K h c).

Lemma stream_snoc h e : stream (h ++ [e]) = stream_step (stream h) e.
Proof. unfold stream. by rewrite foldl_app. Qed.

(** The offset of an entry leads to the next one. *)
Lemma index_entry n d : D !! n = Some d -> index (d_off d) = S n.
Proof.
  intros Hn. unfold index. assert (In (d_off d) (map d_off D)) as Hin.
  { apply in_map, list_elem_of_In. by eapply list_elem_of_lookup_2. }
  destruct (Z.eqb_spec (d_off d) 0) as [E|_]; [by rewrite E in Hin|]. clear Hin Hzero HD Hdir. revert n Hn Hoff.
  induction D as [|d0 l IH]; intros n Hn Hnd; [done|]. apply NoDup_cons in Hnd as [Hd0 Hnd]. cbn [count_to].
  destruct n as [|n]; cbn in Hn; [injection Hn as ->; by rewrite Z.eqb_refl|].
  destruct (Z.eqb_spec (d_off d0) (d_off d)) as [E|_]; [|by rewrite (IH n)].
  exfalso. apply Hd0. rewrite E. apply list_elem_of_In, in_map, list_elem_of_In. by eapply list_elem_of_lookup_2.
Qed.

(** ** One request *)

(** The file of the directory, open as a stream or not yet. *)
Definition stream_at (f : File) (s : st) : Prop :=
  match m_Enumerator f with
  | Some e => e_Fd e = fd /\ stream (trace s) = index (m_LastOffset e)
  | None => m_File f = Some fd
  end.
Definition directory_at (p : place) (s : st) : Prop := exists f, place_get s p = Some (F_File f) /\ stream_at f s.

Lemma place_get_set p f s : place_get (place_set p f s) p = Some f.
Proof. destruct p; cbn; [apply lookup_insert_eq|done]. Qed.
Lemma place_set_trace p f s : trace (place_set p f s) = trace s.
Proof. by destruct p. Qed.

(** Entries that fit a reply. *)
Fixpoint take_fitting (room : Z) (l : list dirent) : list dirent :=
  match l with
  | [] => []
  | d :: l' => if room <? entry_size d then [] else d :: take_fitting (room - entry_size d) l'
  end.
Definition written_entries (l : list dirent) : bytes :=
  concat (map (fun d => qid_bytes (de_Qid (entry_of d)) ++ le_bytes 8 (d_off d) ++ le_bytes 1 (d_type d) ++ string_bytes (d_name d)) l).

Lemma write_entry room d : SpanWriteDirectoryEntry room (entry_of d) None =
  if room <? entry_size d then None else Some (written_entries [d]).
Proof.
  unfold SpanWriteDirectoryEntry, written_entries, entry_size, QidSize. cbn [map concat]. rewrite !app_nil_r.
  replace (13 + 8 + 1 + 2 + Z.of_nat (length (de_Name (entry_of d))) + 0) with (24 + Z.of_nat (length (d_name d))) by (cbn [entry_of de_Name]; lia).
  done.
Qed.
Lemma written_size d : Z.of_nat (length (written_entries [d])) = entry_size d.
Proof.
  unfold written_entries, entry_size, string_bytes. cbn [map concat]. rewrite !length_app, qid_length, !le_bytes_length. cbn [length]. lia.
Qed.

Lemma bind_done {A B} (m : M A) (f : A -> M B) s x s1 : m s = (Done x, s1) -> (m ≫= f) s = f x s1.
Proof. intros E. unfold mbind, M_bind. by rewrite E. Qed.
Lemma sys_with_eq {A} (f : kernel -> list event -> call -> A) c s :
  sys_with K f c s = (Done (k_ret K (trace s) c, f K (trace s) c), s <| trace := trace s ++ [(who s, c)] |>).
Proof. reflexivity. Qed.
Lemma take_fitting_next room n d : D !! n = Some d -> take_fitting room (drop n D) =
  if room <? entry_size d then [] else d :: take_fitting (room - entry_size d) (drop (S n) D).
Proof. intros H. by rewrite (drop_S _ _ _ H). Qed.

Lemma loop_spec fuel : forall p f e room out w s,
  e_Fd e = fd -> room < 24 * Z.of_nat fuel -> 0 <= room ->
  place_get s p = Some (F_File (f <| m_Enumerator := Some e |>)) -> stream (trace s) = index (m_LastOffset e) ->
  let l := drop (stream (trace s)) D in
  match readdir_loop K fuel p f e false room out w s with
  | (Done (Value r), s') =>
    r = out ++ written_entries (take_fitting room l) /\ directory_at p s' /\ (w = false -> take_fitting room l = [] -> l = [])
  | (Done (LxError _), _) => w = false /\ take_fitting room l = [] /\ l <> []
  | _ => False
  end.
Proof.
  induction fuel as [|fuel IH]; intros p f e room out w s He Hfuel Hroom Hp Hat; [lia|]. cbv zeta.
  cbn [readdir_loop]. rewrite (bind_done _ _ _ _ _ (sys_with_eq _ _ _)). rewrite He, Hdir.
  set (n := stream (trace s)) in *. set (s1 := s <| trace := _ |>). destruct (D !! n) as [d|] eqn:Hd.
  - assert (stream (trace s1) = S n) as Hs1.
    { change (trace s1) with (trace s ++ [(who s, Readdir fd)]). rewrite stream_snoc. unfold stream_step. cbn [snd].
      rewrite Z.eqb_refl, (proj2 (Nat.ltb_lt _ _)); [done|]. by eapply lookup_lt_Some. }
    set (e1 := mk_enumerator fd (d_off d)). set (f1 := F_File (f <| m_Enumerator := Some e1 |>)).
    rewrite (bind_done (set_enumerator p f e1) _ s1 tt (place_set p f1 s1)) by done.
    rewrite (bind_done _ _ (place_set p f1 s1) None (place_set p f1 s1)) by done.
    change (mk_entry _ _ _ _) with (entry_of d). rewrite write_entry, (take_fitting_next _ _ _ Hd).
    assert (dirent_ok d) as Hdok by (rewrite Forall_lookup in HD; by eapply HD).
    assert (directory_at p (place_set p f1 s1)) as Hat1.
    { exists (f <| m_Enumerator := Some e1 |>). split; [by apply place_get_set|]. split; [done|].
      rewrite place_set_trace, Hs1. cbn. by rewrite (index_entry _ _ Hd). }
    destruct (Z.ltb_spec room (entry_size d)) as [Hr|Hr].
    + destruct w; cbn; [|split_and!; [done|done|]; rewrite (drop_S _ _ _ Hd); done].
      split_and!; [by rewrite app_nil_r|done|done].
    + destruct Hdok as (_ & _ & _ & _ & Hlen). rewrite (proj2 (Z.ltb_ge _ _)) by done.
      specialize (IH p f e1 (room - Z.of_nat (length (written_entries [d]))) (out ++ written_entries [d]) true (place_set p f1 s1)).
      rewrite written_size, place_set_trace, Hs1 in IH. unfold entry_size in IH at 1.
      specialize (IH eq_refl ltac:(unfold entry_size; lia) ltac:(lia) ltac:(by apply place_get_set) ltac:(cbn; by rewrite (index_entry _ _ Hd))).
      rewrite written_size. cbv zeta in IH. destruct (readdir_loop _ _ _ _ _ _ _ _ _ _) as [[[r|er]|er|] s2]; [|by destruct IH|done|done].
      destruct IH as (-> & H2 & _). split_and!; [|done|done].
      rewrite <- app_assoc. f_equal. unfold written_entries. cbn [map concat]. by rewrite app_nil_r.
  - rewrite (proj2 (Z.ltb_ge _ _)) by (apply Hret; auto). apply lookup_ge_None in Hd. rewrite drop_ge by done. cbn.
    split_and!; [by rewrite app_nil_r| |done].
    exists (f <| m_Enumerator := Some e |>). split; [by destruct p|]. split; [done|].
    change (stream (trace s ++ [(who s, Readdir fd)]) = index (m_LastOffset e)). rewrite stream_snoc. unfold stream_step. cbn [snd].
    rewrite (proj2 (Nat.ltb_ge _ _)) by done. by rewrite andb_false_r.
Qed.

Lemma Seek_spec e offset s : e_Fd e = fd -> stream (trace s) = index (m_LastOffset e) ->
  exists s', Seek K e offset s = (Done (mk_enumerator fd offset), s') /\ stream (trace s') = index offset /\
    (forall p, place_get s' p = place_get s p).
Proof.
  intros He Hs. unfold Seek. destruct (Z.eqb_spec offset (m_LastOffset e)) as [->|_].
  - exists s. split; [|done]. destruct e. cbn in *. by subst.
  - set (c := if offset =? 0 then _ else _). exists (s <| trace := trace s ++ [(who s, c)] |>). rewrite He.
    split; [reflexivity|]. split; [|by intros []].
    change (stream (trace s ++ [(who s, c)]) = index offset). rewrite stream_snoc. unfold stream_step, c. cbn [snd]. rewrite He.
    unfold index. destruct (Z.eqb_spec offset 0) as [->|Hne]; rewrite ?Z.eqb_refl; [done|].
    by rewrite (proj2 (Z.eqb_neq _ _) Hne).
Qed.

Lemma ReadDir_spec p offset count s : directory_at p s -> 0 <= count ->
  let l := drop (index offset) D in
  match ReadDir K p offset count false s with
  | (Done (Value r), s') => r = written_entries (take_fitting count l) /\ directory_at p s' /\ (take_fitting count l = [] -> l = [])
  | (Done (LxError _), _) => take_fitting count l = [] /\ l <> []
  | _ => False
  end.
Proof.
  intros (f & Hp & Hf) Hc. cbv zeta. unfold ReadDir, with_file. rewrite (bind_done get _ s s s) by done. rewrite Hp. cbv zeta.
  assert (forall g e s0, e_Fd e = fd -> stream (trace s0) = index (m_LastOffset e) ->
    match (e ← Seek K e offset; set_enumerator p g e;; readdir_loop K (S (Z.to_nat (count / 24))) p g e false count [] false) s0 with
    | (Done (Value r), s') => r = written_entries (take_fitting count (drop (index offset) D)) /\ directory_at p s' /\
                              (take_fitting count (drop (index offset) D) = [] -> drop (index offset) D = [])
    | (Done (LxError _), _) => take_fitting count (drop (index offset) D) = [] /\ drop (index offset) D <> []
    | _ => False
    end) as Hread.
  { intros g e s0 He Hs. destruct (Seek_spec e offset s0 He Hs) as (s1 & E1 & Hs1 & _). rewrite (bind_done _ _ _ _ _ E1).
    set (e1 := mk_enumerator fd offset). set (f1 := F_File (g <| m_Enumerator := Some e1 |>)).
    rewrite (bind_done (set_enumerator p g e1) _ s1 tt (place_set p f1 s1)) by done.
    pose proof (loop_spec (S (Z.to_nat (count / 24))) p g e1 count [] false (place_set p f1 s1) eq_refl) as H.
    rewrite place_set_trace, Hs1 in H. specialize (H ltac:(pose proof (Z.mod_pos_bound count 24); pose proof (Z.div_mod count 24); lia) Hc
      ltac:(by apply place_get_set) eq_refl). cbv zeta in H.
    destruct (readdir_loop _ _ _ _ _ _ _ _ _ _) as [[[r|er]|er|] s2]; [|by destruct H as (_ & ? & ?)|done|done].
    destruct H as (-> & H2 & H3). split_and!; auto. }
  unfold stream_at in Hf. destruct (m_Enumerator f) as [e|]; [destruct Hf as [He Hs]; by apply Hread|]. rewrite Hf.
  rewrite (bind_done (sys K (Fdopendir fd)) _ s (k_ret K (trace s) (Fdopendir fd)) (s <| trace := trace s ++ [(who s, Fdopendir fd)] |>)) by done.
  rewrite (proj2 (Z.ltb_ge _ _)) by (apply Hret; auto). cbv zeta. apply Hread; [done|].
  change (stream (trace s ++ [(who s, Fdopendir fd)]) = index 0). rewrite stream_snoc. unfold stream_step. cbn [snd]. by rewrite Z.eqb_refl.
Qed.

(** ** A whole directory *)
Lemma take_fitting_prefix room l : exists k, take_fitting room l = take k l.
Proof.
  revert room. induction l as [|d l IH]; intros room; [by exists 0%nat|]. cbn [take_fitting].
  destruct (room <? entry_size d); [by exists 0%nat|]. destruct (IH (room - entry_size d)) as [k ->]. by exists (S k).
Qed.
Lemma written_fitting room l : written_entries (take_fitting room l) = write_entries room (map plain l) /\
  fitting room (map plain l) = map plain (take_fitting room l).
Proof.
  revert room. induction l as [|d l IH]; intros room; [done|]. cbn [map write_entries fitting take_fitting].
  change (plain d) with (entry_of d, @None StatResult). cbv beta iota. rewrite write_entry.
  destruct (room <? entry_size d); [done|]. rewrite written_size. destruct (IH (room - entry_size d)) as [<- ->].
  split; [|done]. unfold written_entries. cbn [map concat]. by rewrite app_nil_r.
Qed.
End Directory.

Lemma take_fitting_some n D count : Forall (fun d => entry_size d <= count) D -> take_fitting count (drop n D) = [] -> drop n D = [].
Proof.
  intros Hfit. destruct (drop n D) as [|d l] eqn:E; [done|]. cbn [take_fitting].
  assert (entry_size d <= count) as Hd by (apply (Forall_drop _ n) in Hfit; rewrite E in Hfit; by inversion Hfit).
  by rewrite (proj2 (Z.ltb_ge _ _)) by done.
Qed.
Lemma written_nonempty d l : written_entries (d :: l) <> [].
Proof.
  intros E. apply (f_equal length) in E. unfold written_entries in E. cbn [map concat] in E. rewrite !length_app, qid_length in E. cbn in E. lia.
Qed.
(** The last entry of a reply leads to what follows it. *)
Lemma take_fitting_index D : NoDup (map d_off D) -> ~ In 0 (map d_off D) -> forall n count d0 t0, take_fitting count (drop n D) = d0 :: t0 ->
  exists d, last (d0 :: t0) = Some d /\ index D (d_off d) = (n + S (length t0))%nat /\ drop n D = (d0 :: t0) ++ drop (n + S (length t0)) D.
Proof.
  intros Hoff Hzero n count d0 t0 E. destruct (take_fitting_prefix count (drop n D)) as [k Hk]. rewrite E in Hk.
  destruct (last (d0 :: t0)) as [d|] eqn:Hl; [|by apply last_None in Hl]. exists d.
  assert (drop n D = (d0 :: t0) ++ drop (length (d0 :: t0)) (drop n D)) as Hd.
  { rewrite Hk at 1. rewrite Hk, length_take. destruct (Nat.min_spec k (length (drop n D))) as [[_ ->]|[Hle ->]].
    - by rewrite take_drop.
    - by rewrite drop_all, take_ge, app_nil_r. }
  split; [done|]. rewrite drop_drop in Hd. split; [|done].
  rewrite (index_entry D Hoff Hzero (n + length t0) d); [lia|].
  rewrite last_lookup in Hl. cbn [length Nat.pred] in Hl. rewrite <- lookup_drop, Hd, lookup_app_l by (cbn; lia). done.
Qed.

(** A client that lists a directory: it asks from the offset of the last entry that
    it has, until a reply is empty. *)
Fixpoint list_directory (fuel : nat) (K : kernel) (p : place) (count offset : Z) (s : st) :
  option (list (DirectoryEntry * option StatResult)) :=
  match fuel with
  | O => None
  | S fuel' =>
    match ReadDir K p offset count false s with
    | (Done (Value []), _) => Some []
    | (Done (Value b), s') =>
      let l := read_entries (length b) false b in
      match last l with
      | Some (e, _) => option_map (app l) (list_directory fuel' K p count (de_Offset e) s')
      | None => None
      end
    | _ => None
    end
  end.

(** C15: A client that lists a directory of the share with any count that holds its
    longest entry, going on from the offset of the last entry that it has, gets every
    entry of the directory exactly once and in order, whether the descriptor was
    opened just now or the stream stands anywhere after earlier reads, in at most one
    request for each entry and one more. *)
Theorem directory_listed_once (K : kernel) (D : list dirent) (fd : Z) (p : place) (s : st) (count : Z)
  (HD : Forall dirent_ok D) (Hoff : NoDup (map d_off D)) (Hzero : ~ In 0 (map d_off D))
  (Hdir : forall h, k_dirent K h (Readdir fd) = D !! stream D fd h) (Hret : forall h c, c = Fdopendir fd \/ c = Readdir fd -> 0 <= k_ret K h c)
  (Hp : directory_at D fd p s) (Hcount : 0 <= count) (Hfit : Forall (fun d => entry_size d <= count) D) :
  list_directory (S (length D)) K p count 0 s = Some (map plain D).
Proof.
  assert (forall fuel offset s, directory_at D fd p s -> (index D offset <= length D < index D offset + fuel)%nat ->
    list_directory fuel K p count offset s = Some (map plain (drop (index D offset) D))) as H; [|by apply H; [|cbn; lia]].
  clear s Hp. induction fuel as [|fuel IH]; intros offset s Hp Hf; cbn [list_directory]; [lia|].
  pose proof (ReadDir_spec K D fd HD Hoff Hzero Hdir Hret p offset count s Hp Hcount) as H. cbv zeta in H.
  set (n := index D offset) in *. pose proof (take_fitting_some n D count Hfit) as Hsome.
  destruct (ReadDir _ _ _ _ _ _) as [[[b|e]|e|] s1]; [|by destruct H as [? []]; auto|done|done].
  destruct H as (-> & Hat & Hend). destruct (take_fitting count (drop n D)) as [|d0 t0] eqn:Et; [by rewrite Hend|].
  destruct (written_entries (d0 :: t0)) as [|c b] eqn:Eb; [by apply written_nonempty in Eb|]. rewrite <- Eb. clear c b Eb.
  assert (read_entries (length (written_entries (d0 :: t0))) false (written_entries (d0 :: t0)) = map plain (d0 :: t0)) as ->.
  { destruct (written_fitting count (drop n D)) as [E1 E2]. rewrite Et in E1, E2. rewrite E1, <- E2.
    apply entries_read_back; [|done|done]. apply Forall_map, Forall_drop. eapply Forall_impl; [exact HD|apply entry_of_ok]. }
  destruct (take_fitting_index D Hoff Hzero n count d0 t0 Et) as (d & Hlast & Hi & Hdrop).
  pose proof (f_equal length Hdrop) as Hlen. rewrite length_app, !length_drop in Hlen. cbn [length] in Hlen.
  rewrite fmap_last, Hlast. cbn [fmap option_fmap option_map plain]. cbv beta iota.
  change (de_Offset (entry_of d)) with (d_off d). rewrite (IH (d_off d) s1 Hat) by (rewrite Hi; lia). cbn [option_map]. rewrite Hdrop, map_app, Hi. done.
Qed.

(** Three entries, and room for one of them in a reply. *)
Definition demo_dir : list dirent := [mk_dirent 1 5 4 (str "."); mk_dirent 7 9 8 (str "a"); mk_dirent 8 12 8 (str "b")].
Definition demo_system : kernel := mk_kernel (fun _ _ => 0) (fun _ _ => mk_stat 0 0 no_stat) (fun _ _ => mk_statfs 0 0 0 0 0 0 0 0 0)
  (fun _ _ => []) (fun _ _ => []) (fun h c => match c with Readdir 3 => demo_dir !! stream demo_dir 3 h | _ => None end)
  (fun _ _ => (0, 0)) (fun _ => None) (fun _ => true).
Definition demo_file : File := mk_file [] None (Some 3) (mk_root 0 3 0 0 []) (mk_qid 128 0 2) 0.
Definition demo_state : st :=
  mk_st {[1 := F_File demo_file]} 0 8192 true false false None [] (mk_response 256 [] true) (mk_ids 0 0 []) [].
Lemma directory_listed_once_witness : list_directory 4 demo_system (Slot 1) 40 0 demo_state = Some (map plain demo_dir).
Proof.
  apply (directory_listed_once demo_system demo_dir 3 (Slot 1) demo_state 40).
  - repeat apply Forall_cons_2; try apply Forall_nil_2; unfold dirent_ok, fits, string_ok; cbn -[str]; split_and!; try lia; try done;
      apply cstr_ok_no_nul; apply (bool_decide_unpack _); vm_compute; exact Logic.I.
  - apply (bool_decide_unpack _). vm_compute. exact Logic.I.
  - cbn. lia.
  - reflexivity.
  - done.
  - by exists demo_file.
  - lia.
  - repeat apply Forall_cons_2; try apply Forall_nil_2; by vm_compute.
Defined.
End P9ReadDirThm.

Import P9State P9Proto P9File P9Handler P9SafeThm.

Module P9ShareThm.

(** * A small file system *)

(** The directories [] and home, anything else a file; [new] does not exist yet. *)
Definition demo_attr (mode : Z) : StatResult := no_stat <| Mode := mode |> <| NLink := 1 |>.
Definition demo_ret (h : list event) (c : call) : Z :=
  match c with
  | Openat _ _ _ _ | P9State.Open _ _ => Z.of_nat (length h) + 10
  | Readlink _ => 6
  | Getpwuid uid => uid
  | Fstatat _ p _ => if list_eqb p (str "home/new") then - ENOENT else 0
  | Aio_read _ _ _ => 0
  | Lgetxattr _ _ _ => 200
  | _ => 0
  end.
Definition demo_stat (h : list event) (c : call) : stat_t :=
  match c with
  | Fstatat _ p _ =>
    if list_eqb p [] || list_eqb p (str "home") then mk_stat (Z.of_nat (length p) + 2) 5 (demo_attr 16877)
    else mk_stat 77 5 (demo_attr 33188)
  | _ => mk_stat 99 5 (demo_attr 33188)
  end.
Definition demo : kernel := mk_kernel demo_ret demo_stat (fun _ _ => mk_statfs 1 2 3 4 5 6 7 8 9)
  (fun _ c => match c with Readlink _ => str "/share" | Aio_read _ _ _ => str "hello" | _ => [] end)
  (fun _ _ => [100; 4]) (fun _ _ => None)
  (fun _ c => match c with Aio_read _ _ n => (0, Z.min n 5) | Aio_write _ _ d => (0, Z.of_nat (length d)) | _ => (0, 0) end)
  (fun _ => None) (fun _ => true).
Definition demo_shares : shares := [([], 3)].

Definition message (type tag : Z) (body : bytes) : bytes :=
  le_bytes 4 (7 + Z.of_nat (length body)) ++ le_bytes 1 type ++ le_bytes 2 tag ++ body.
Definition s8 (s : String.string) : bytes := string_bytes (str s).
Definition tversion : bytes := message 100 65535 (le_bytes 4 8192 ++ s8 "9P2000.W").
Definition tattach (fid uid : Z) : bytes :=
  message 104 1 (le_bytes 4 fid ++ le_bytes 4 0 ++ s8 "" ++ s8 "" ++ le_bytes 4 uid).
Definition twalk (fid newfid : Z) (names : list String.string) : bytes :=
  message 110 2 (le_bytes 4 fid ++ le_bytes 4 newfid ++ le_bytes 2 (Z.of_nat (length names)) ++ concat (map s8 names)).

(** One request after the other; the replies. *)
Fixpoint requests (K : kernel) (sh : shares) (l : list bytes) (s : st) : list (outcome bytes) * st :=
  match l with
  | [] => ([], s)
  | msg :: l' => let '(r, s1) := handle_request K sh msg s in let '(rs, s2) := requests K sh l' s1 in (r :: rs, s2)
  end.
Definition demo_after (l : list bytes) : st := snd (requests demo demo_shares l (new_connection false)).
(** A client of user 1000 with the root as fid 1 and the file home/f as fid 2. *)
Definition attached_client : st := demo_after [tversion; tattach 1 1000; twalk 1 2 ["home"; "f"]%string].

Lemma demo_identity h c : identity_call c = true -> 0 <= k_ret demo h c.
Proof. by destruct c. Qed.
Lemma new_connection_ok K sh b : connection_ok K sh (new_connection b).
Proof. by split_and!. Qed.
Lemma requests_ok K sh l s : (forall h c, identity_call c = true -> 0 <= k_ret K h c) -> connection_ok K sh s ->
  Forall bytes_ok l -> Forall (fun r => exists b, r = Done b) (fst (requests K sh l s)) -> connection_ok K sh (snd (requests K sh l s)).
Proof.
  intros Kids Hs Hl. revert s Hs. induction Hl as [|msg l Hm Hl IH]; intros s Hs; [done|]. cbn [requests].
  pose proof (request_spec K sh s msg Kids Hs Hm) as Hr. destruct (handle_request K sh msg s) as [r s1].
  specialize (IH s1). destruct (requests K sh l s1) as [rs s2]. cbn [fst snd] in *.
  intros H. apply Forall_cons in H as [[b ->] H]. apply IH; [apply Hr|done].
Qed.
Lemma attached_client_ok : connection_ok demo demo_shares attached_client.
Proof.
  apply requests_ok; [apply demo_identity|apply new_connection_ok| |].
  - repeat apply Forall_cons_2; try apply Forall_nil_2; apply (bool_decide_unpack _); vm_compute; exact Logic.I.
  - match goal with |- Forall _ ?l => let l' := eval vm_compute in l in change l with l' end.
    repeat apply Forall_cons_2; try apply Forall_nil_2; by eexists.
Qed.

(** * What a request can do *)

(** The open of that request is made as user 1000, below the descriptor of the share. *)
Example open_as_user :
  let '(_, s') := handle_request demo demo_shares (message 12 3 (le_bytes 4 2 ++ le_bytes 4 0)) attached_client in
  drop (length (trace attached_client)) (trace s') =
  [(mk_ids 0 0 [], Setgroups [100; 4]); (mk_ids 0 0 [100; 4], Setresgid 1000); (mk_ids 0 1000 [100; 4], Setresuid 1000);
   (mk_ids 1000 1000 [100; 4], Openat 3 (str "home/f") (Z.lor O_NOFOLLOW O_CLOEXEC) 384);
   (mk_ids 1000 1000 [100; 4], Setresuid 0); (mk_ids 0 1000 [100; 4], Setresgid 0); (mk_ids 0 0 [100; 4], Setgroups [])].
Proof. vm_compute. reflexivity. Qed.

(** C16: Every request that the server survives has exactly one reply, and it is
    well formed: its first four bytes are its own length, then come the type of the
    request plus one or Rlerror's, and the request's tag; it is no longer than the
    size that the connection negotiated, or 256 bytes. *)
Theorem replies_are_well_formed (K : kernel) (sh : shares) (s s' : st) (msg reply : bytes)
  (Kids : forall h c, identity_call c = true -> 0 <= k_ret K h c)
  (Hs : connection_ok K sh s) (Hm : bytes_ok msg) (Hr : handle_request K sh msg s = (Done reply, s')) :
  (7 <= length msg)%nat /\
  reply_ok (type_of msg) (tag_of msg) (Z.max c_staticBufferSize (m_NegotiatedSize s')) reply.
Proof.
  pose proof (request_spec K sh s msg Kids Hs Hm) as H. rewrite Hr in H. split; [|apply H].
  destruct (decide (length msg < 7)%nat) as [Hl|]; [|lia].
  destruct (short_message K sh msg s Hl) as (s1 & E & _). by rewrite E in Hr.
Qed.
Lemma replies_are_well_formed_witness :
  let msg := message 116 4 (le_bytes 4 1 ++ le_bytes 8 0 ++ le_bytes 4 100) in
  reply_ok 116 4 8192 (le_bytes 4 11 ++ le_bytes 1 7 ++ le_bytes 2 4 ++ le_bytes 4 EBADF) /\
  fst (handle_request demo demo_shares msg attached_client) = Done (le_bytes 4 11 ++ le_bytes 1 7 ++ le_bytes 2 4 ++ le_bytes 4 EBADF).
Proof.
  cbv zeta. set (msg := message 116 4 (le_bytes 4 1 ++ le_bytes 8 0 ++ le_bytes 4 100)).
  assert (bytes_ok msg) as Hm by (apply (bool_decide_unpack _); vm_compute; exact Logic.I).
  assert (fst (handle_request demo demo_shares msg attached_client) = Done (le_bytes 4 11 ++ le_bytes 1 7 ++ le_bytes 2 4 ++ le_bytes 4 EBADF)
          /\ m_NegotiatedSize (snd (handle_request demo demo_shares msg attached_client)) = 8192) as [E En]
    by (vm_compute; split; reflexivity).
  split; [|exact E]. destruct (handle_request demo demo_shares msg attached_client) as [r s'] eqn:Er. cbn [fst snd] in *. subst r.
  destruct (replies_are_well_formed demo demo_shares attached_client s' msg _ demo_identity attached_client_ok Hm Er) as [_ H].
  rewrite En in H. apply H.
Defined.
End P9ShareThm.

Import P9State P9Handler P9Conn P9SafeThm P9ShareThm.

Module P9ConnThm.

(** The same on a stream of bytes: a message is there when its four bytes of size and
    then all its bytes are. *)
Definition stream_size (L : Z) (l : bytes) : option (Z * bytes) :=
  let size := le_val (take 4 l) in
  if decide (4 <= Z.of_nat (length l) /\ 7 <= size <= L) then Some (size, l) else None.
Definition stream_message (size : Z) (l : bytes) : option (bytes * bytes) :=
  if decide (size <= Z.of_nat (length l)) then Some (take (Z.to_nat size) l, drop (Z.to_nat size) l) else None.
Definition flat (i : bytes * socket) : bytes := fst i ++ concat (snd i).
Definition on_input {I J} (f : I -> J) (c : conn I) : conn J :=
  mk_conn (f (input c)) (receiver c) (running c) (received c) (handled c) (cancelled c) (crashed c) (server c).

(** * Receiving *)
Definition chunks_ok (s : socket) : Prop := Forall (fun c : bytes => c <> []) s.

Lemma recv_spec room s : (0 < room)%nat -> chunks_ok s ->
  let '(c, s') := recv room s in
  c ++ concat s' = concat s /\ chunks_ok s' /\ (length c <= room)%nat /\ (c = [] -> s = []).
Proof.
  intros Hroom [|c s0 Hc Hs]; cbn [recv]; [split_and!; [done|constructor|cbn; lia|done]|].
  destruct (Nat.leb_spec (length c) room) as [Hl|Hl]; [split_and!; [done|done|done|by intros ->]|].
  split_and!; cbn [concat].
  - by rewrite app_assoc, take_drop.
  - constructor; [|done]. intros E. apply (f_equal length) in E. rewrite length_drop in E. cbn in E. lia.
  - rewrite length_take. lia.
  - intros E. apply (f_equal length) in E. rewrite length_take in E. cbn in E. lia.
Qed.
Lemma fill_loop_spec fuel req valid s : (req <= Z.to_nat MaximumRequestBufferSize)%nat -> (req <= length valid + fuel)%nat -> chunks_ok s ->
  let '(v, s') := fill_loop fuel req valid s in
  v ++ concat s' = valid ++ concat s /\ chunks_ok s' /\ ((req <= length v)%nat \/ concat s' = []).
Proof.
  intros Hreq. revert valid s. induction fuel as [|fuel IH]; intros valid s Hf Hs; cbn [fill_loop]; [split_and!; auto; left; lia|].
  destruct (Nat.leb_spec req (length valid)) as [Hl|Hl]; [by auto|].
  pose proof (recv_spec (Z.to_nat MaximumRequestBufferSize - length valid) s ltac:(lia) Hs) as Hr.
  destruct (recv _ s) as [c s'] eqn:E. destruct Hr as (H1 & H2 & H3 & H4). destruct c as [|b c].
  - rewrite (H4 eq_refl) in *. cbn in E. injection E as <-. by auto.
  - specialize (IH (valid ++ b :: c) s'). destruct (fill_loop _ _ _ _) as [v s'']. rewrite <- H1, app_assoc.
    apply IH; [rewrite length_app; cbn; lia|done].
Qed.
Lemma FillData_spec req data s : req <= MaximumRequestBufferSize -> chunks_ok s ->
  let '(ok, (v, s')) := FillData req data s in
  v ++ concat s' = data ++ concat s /\ chunks_ok s' /\ (ok = (req <=? Z.of_nat (length (data ++ concat s)))) /\
  (ok = true -> req <= Z.of_nat (length v)).
Proof.
  intros Hreq Hs. unfold FillData. pose proof (fill_loop_spec (Z.to_nat req) (Z.to_nat req) data s ltac:(lia) ltac:(lia) Hs) as H.
  destruct (fill_loop _ _ _ _) as [v s']. destruct H as (H1 & H2 & H3). split_and!; [done|done| |intros E; lia].
  rewrite <- H1, length_app. destruct H3 as [H3|H3]; [|rewrite H3; cbn; f_equal; lia].
  rewrite !(proj2 (Z.leb_le _ _)) by lia. done.
Qed.
(** Enough data for a message, or what there is. *)
Lemma have_spec req data (s : socket) : req <= MaximumRequestBufferSize -> chunks_ok s ->
  let '(ok, (v, s')) := if Z.of_nat (length data) <? req then FillData req data s else (true, (data, s)) in
  v ++ concat s' = data ++ concat s /\ chunks_ok s' /\ (ok = (req <=? Z.of_nat (length (data ++ concat s)))) /\
  (ok = true -> req <= Z.of_nat (length v)).
Proof.
  intros Hreq Hs. destruct (Z.ltb_spec (Z.of_nat (length data)) req) as [Hl|Hl]; [by apply FillData_spec|].
  split_and!; try done. symmetry. apply Z.leb_le. rewrite length_app. lia.
Qed.

Lemma NextMessage_size_spec L i : L <= MaximumRequestBufferSize -> chunks_ok (snd i) ->
  match NextMessage_size L i with
  | None => stream_size L (flat i) = None
  | Some (size, i') => stream_size L (flat i) = Some (size, flat i') /\ flat i' = flat i /\ chunks_ok (snd i')
  end.
Proof.
  intros HL Hs. destruct i as [data s]. unfold NextMessage_size, stream_size, flat. cbn [fst snd] in *.
  pose proof (have_spec 4 data s ltac:(unfold MaximumRequestBufferSize; lia) Hs) as H.
  destruct (if Z.of_nat (length data) <? 4 then FillData 4 data s else (true, (data, s))) as [ok [v s1]].
  destruct H as (H1 & H2 & -> & H4). rewrite <- H1. rewrite <- H1 in H4.
  destruct (Z.leb_spec 4 (Z.of_nat (length (v ++ concat s1)))) as [Hl|Hl]; cbn [negb]; [|by rewrite decide_False by lia].
  specialize (H4 eq_refl). rewrite (take_app_le v) by lia. set (size := le_val (take 4 v)).
  destruct ((size <? 7) || (L <? size)) eqn:E; [apply orb_true_iff in E; by rewrite decide_False by lia|].
  apply orb_false_iff in E. cbn [fst snd]. by rewrite decide_True by lia.
Qed.
Lemma NextMessage_message_spec size i : 0 <= size <= MaximumRequestBufferSize -> chunks_ok (snd i) ->
  match NextMessage_message size i with
  | None => stream_message size (flat i) = None
  | Some (msg, i') => stream_message size (flat i) = Some (msg, flat i') /\ chunks_ok (snd i')
  end.
Proof.
  intros Hz Hs. destruct i as [data s]. unfold NextMessage_message, stream_message, flat. cbn [fst snd] in *.
  pose proof (have_spec size data s ltac:(lia) Hs) as H.
  destruct (if Z.of_nat (length data) <? size then FillData size data s else (true, (data, s))) as [ok [v s1]].
  destruct H as (H1 & H2 & -> & H4). rewrite <- H1. rewrite <- H1 in H4.
  destruct (Z.leb_spec size (Z.of_nat (length (v ++ concat s1)))) as [Hl|Hl]; cbn [negb]; [|by rewrite decide_False by lia].
  specialize (H4 eq_refl). cbn [fst snd]. rewrite decide_True by lia. by rewrite take_app_le, drop_app_le by lia.
Qed.

(** * Serving *)

(** A message states its own length, which is within the buffer. *)
Definition framed (m : bytes) : Prop := le_val (take 4 m) = Z.of_nat (length m) /\ 7 <= Z.of_nat (length m) <= MaximumRequestBufferSize.
Definition acquiring (r : receiving) : list bytes := match r with Acquiring m => [m] | _ => [] end.
Definition collecting_ok (r : receiving) (l : bytes) : Prop :=
  match r with Collecting size => 7 <= size <= MaximumRequestBufferSize /\ le_val (take 4 l) = size | _ => True end.

Section Serve.
Context (K : kernel) (sh : shares) (sock : socket).
Context (Kids : forall h c, identity_call c = true -> 0 <= k_ret K h c).

(** What holds in every reachable state. *)
Record inv (c : conn (bytes * socket)) : Prop := mk_inv {
  inv_chunks : chunks_ok (snd (input c));
  inv_server : crashed c = false -> connection_ok K sh (server c);
  inv_collecting : collecting_ok (receiver c) (flat (input c));
  inv_stream : concat sock = concat (received c) ++ flat (input c);
  inv_framed : Forall framed (received c);
  inv_handled : map fst (handled c) ++ running c ++ acquiring (receiver c) ≡ₚ received c;
  inv_running : (length (running c) <= maximumMessages)%nat
}.

Lemma negotiated_bound s : connection_ok K sh s -> m_NegotiatedSize s <= MaximumRequestBufferSize.
Proof. intros (_ & _ & H). unfold negotiated_ok in H. destruct (m_Negotiated s); [apply H|rewrite H; done]. Qed.

Lemma stop_inv c : acquiring (receiver c) = [] -> inv c -> inv (stop c).
Proof. intros E []. split; try done. cbn. by rewrite E in *. Qed.

(** A step on the socket and the step on its bytes. *)
Definition follows (o : option (conn (bytes * socket))) (o' : option (conn bytes)) : Prop :=
  o' = option_map (on_input flat) o /\ forall c, o = Some c -> inv c.
Lemma follows_Some c : inv c -> follows (Some c) (Some (on_input flat c)).
Proof. intros H. split; [done|]. by intros ? [= <-]. Qed.
Lemma follows_None : follows None None.
Proof. by split. Qed.
Lemma follows_stop c : acquiring (receiver c) = [] -> inv c -> follows (Some (stop c)) (Some (stop (on_input flat c))).
Proof. intros E H. apply (follows_Some (stop c)). by apply stop_inv. Qed.
Hint Resolve follows_None : core.

Lemma measure_follows c : inv c -> crashed c = false ->
  follows (Receive NextMessage_size NextMessage_message Measure c) (Receive stream_size stream_message Measure (on_input flat c)).
Proof.
  intros Hc Hcr. pose proof (negotiated_bound _ (inv_server _ Hc Hcr)) as HL. destruct c as [i r run rec h ca cr s].
  cbn in Hcr, HL. unfold Receive. destruct r; try done; cbn [receiver input server on_input].
  pose proof (NextMessage_size_spec _ i HL (inv_chunks _ Hc)) as H.
  destruct (NextMessage_size _ i) as [[size i']|]; [|rewrite H; by apply (follows_stop (mk_conn i Measuring _ _ _ _ _ _))].
  destruct H as (H & E & Hi). rewrite H. apply (follows_Some (mk_conn i' (Collecting size) run rec h ca cr s)).
  destruct Hc. cbn in *. rewrite <- E in *. split; cbn; try done.
  revert H. unfold stream_size. case_decide as D; [|done]. intros [= <-]. lia.
Qed.
Lemma collect_follows c : inv c -> crashed c = false ->
  follows (Receive NextMessage_size NextMessage_message Collect c) (Receive stream_size stream_message Collect (on_input flat c)).
Proof.
  intros Hc Hcr. destruct c as [i r run rec h ca cr s]. unfold Receive. destruct r as [|size| |]; try done; cbn [receiver input on_input].
  destruct (inv_collecting _ Hc) as [Hz Hl]. pose proof (NextMessage_message_spec size i ltac:(lia) (inv_chunks _ Hc)) as H.
  cbn [receiver input] in *.
  destruct (NextMessage_message size i) as [[m i']|]; [|rewrite H; by apply (follows_stop (mk_conn i (Collecting size) _ _ _ _ _ _))].
  destruct H as (H & Hi). rewrite H. apply (follows_Some (mk_conn i' (Acquiring m) run (rec ++ [m]) h ca cr s)).
  revert H. unfold stream_message. case_decide as D; [|done]. intros [= <- E].
  destruct Hc. cbn in *. split; cbn; try done.
  - rewrite inv_stream0, concat_app, <- app_assoc. cbn. rewrite app_nil_r, <- E. by rewrite take_drop.
  - apply Forall_app. split; [done|]. constructor; [|constructor]. unfold framed. rewrite take_take, length_take.
    replace (4 `min` Z.to_nat size)%nat with 4%nat by lia. lia.
  - rewrite app_assoc. apply Permutation_app_tail. by rewrite app_nil_r in *.
Qed.
Lemma Receive_follows a c : inv c -> crashed c = false ->
  follows (Receive NextMessage_size NextMessage_message a c) (Receive stream_size stream_message a (on_input flat c)).
Proof.
  intros Hc Hcr. destruct a; [by apply measure_follows|by apply collect_follows| | |done].
  - destruct c as [i r run rec h ca cr s]. unfold Receive. destruct r as [| |m|]; try done; cbn [receiver running on_input].
    destruct (Nat.ltb_spec (length run) maximumMessages) as [Hl|Hl]; [|done].
    apply (follows_Some (mk_conn i (if ca then Stopped else Measuring) (run ++ [m]) rec h ca cr s)).
    destruct Hc. cbn in *. split; cbn; try done; [by destruct ca| |rewrite length_app; cbn; lia].
    by replace (acquiring (if ca then Stopped else Measuring)) with (@nil bytes) by (by destruct ca); rewrite app_nil_r.
  - destruct c as [i r run rec h ca cr s]. unfold Receive. destruct r, ca; try done; cbn [receiver cancelled on_input];
      by apply (follows_stop (mk_conn i _ _ _ _ true _ _)).
Qed.
Lemma received_bytes c : inv c -> bytes_ok (concat sock) -> Forall bytes_ok (received c).
Proof.
  intros Hc. rewrite (inv_stream _ Hc). unfold bytes_ok at 1. rewrite Forall_app. intros [H _].
  apply Forall_forall. intros m Hm. apply Forall_forall. intros b Hb. rewrite Forall_forall in H. apply H.
  apply list_elem_of_In, in_concat. exists m. by rewrite <- !list_elem_of_In.
Qed.
Lemma Task_follows i sent c : inv c -> bytes_ok (concat sock) -> crashed c = false ->
  follows (Task K sh i sent c) (Task K sh i sent (on_input flat c)).
Proof.
  intros Hc Hb Hcr. unfold Task. cbn [running server on_input]. destruct (running c !! i) as [m|] eqn:Em; [|done].
  pose proof (received_bytes _ Hc Hb) as Hm. rewrite <- (inv_handled _ Hc) in Hm.
  apply Forall_app in Hm as [_ Hm]. apply Forall_app in Hm as [Hm _]. pose proof (Forall_lookup_1 _ _ _ _ Hm Em) as Hmi.
  pose proof (request_spec K sh _ m Kids (inv_server _ Hc Hcr) Hmi) as Hr.
  destruct (handle_request _ _ _ _) as [[reply|e|] s1]; [|done|].
  - apply (follows_Some (complete i m _ s1 c)). pose proof (take_drop_middle _ _ _ Em) as Erun.
    destruct Hc as [C1 C2 C3 C4 C5 C6 C7]. split; cbn; try done.
    + intros _. apply Hr.
    + rewrite map_app, <- app_assoc, <- C6. apply Permutation_app_head. cbn. rewrite app_comm_cons.
      apply Permutation_app_tail. etransitivity; [apply Permutation_middle|]. by rewrite Erun.
    + rewrite <- Erun in C7. rewrite length_app in *. cbn in C7. lia.
  - destruct c as [i0 r run rec h ca cr s]. apply (follows_Some (mk_conn i0 r run rec h ca true s1)). destruct Hc. by split.
Qed.
Lemma step_follows a c : inv c -> bytes_ok (concat sock) ->
  follows (step K sh NextMessage_size NextMessage_message a c) (step K sh stream_size stream_message a (on_input flat c)).
Proof.
  intros Hc Hb. unfold step. cbn [crashed on_input]. destruct (crashed c) eqn:Ecr; [done|].
  destruct a; try (by apply Receive_follows). by apply Task_follows.
Qed.
Lemma run_follows l c : inv c -> bytes_ok (concat sock) ->
  inv (Run K sh l c) /\ on_input flat (Run K sh l c) = run K sh stream_size stream_message l (on_input flat c).
Proof.
  intros Hc Hb. unfold Run. revert c Hc. induction l as [|a l IH]; intros c Hc; cbn [run]; [done|].
  destruct (step_follows a c Hc Hb) as [-> H].
  destruct (step K sh NextMessage_size NextMessage_message a c) as [c'|]; cbn [default option_map]; apply IH; auto.
Qed.
End Serve.

Lemma start_inv K sh sock s : connection_ok K sh s -> chunks_ok sock -> inv K sh sock (start ([], sock) s).
Proof. intros Hs Hc. split; cbn; try done. apply Nat.le_0_l. Qed.

(** C17: However the bytes of a client are cut into what recv returns, and in whatever
    order the tasks that handle its messages run between the steps of the receiver,
    the server does what it would do in that order on the plain stream of bytes, where
    the next message is there when its size and its bytes are: the messages received
    are consecutive pieces of the stream from its start, each as long as it states;
    those that were handled, are being handled or wait for the semaphore are those
    received, each once; at most 32 are in progress.  The receiver stops at a size that
    is below seven or above what is negotiated when it looks, when the stream ends
    before a message does, and when the connection is cancelled. *)
Theorem connection_follows_stream (K : kernel) (sh : shares) (sock : socket) (s : st) (l : list action)
  (Kids : forall h c, identity_call c = true -> 0 <= k_ret K h c)
  (Hs : connection_ok K sh s) (Hc : chunks_ok sock) (Hb : bytes_ok (concat sock)) :
  let c := Run K sh l (start ([], sock) s) in
  on_input flat c = run K sh stream_size stream_message l (start (concat sock) s) /\
  concat sock = concat (received c) ++ flat (input c) /\
  Forall framed (received c) /\
  map fst (handled c) ++ running c ++ acquiring (receiver c) ≡ₚ received c /\
  (length (running c) <= 32)%nat.
Proof.
  cbv zeta. destruct (run_follows K sh sock Kids l _ (start_inv K sh sock s Hs Hc) Hb) as [Hi E].
  split_and!; [exact E|apply Hi..].
Qed.

(** A version request and an attach, in three pieces; both are handled, the second
    one after the first. *)
Definition demo_stream : bytes := tversion ++ tattach 1 1000.
Definition demo_socket : socket := [take 3 demo_stream; take 20 (drop 3 demo_stream); drop 23 demo_stream].
Definition demo_schedule : list action := [Measure; Collect; Spawn; Measure; Collect; Handle 0 true; Spawn; Handle 0 true; Measure].
Lemma connection_follows_stream_witness :
  let c := Run demo demo_shares demo_schedule (start ([], demo_socket) (new_connection false)) in
  length (handled c) = 2%nat /\ (length (running c) <= 32)%nat /\
  on_input flat c = run demo demo_shares stream_size stream_message demo_schedule (start (concat demo_socket) (new_connection false)).
Proof.
  assert (chunks_ok demo_socket) as Hc by (repeat apply Forall_cons_2; try apply Forall_nil_2; by vm_compute).
  assert (bytes_ok (concat demo_socket)) as Hb by (apply (bool_decide_unpack _); vm_compute; exact Logic.I).
  destruct (connection_follows_stream demo demo_shares demo_socket (new_connection false) demo_schedule demo_identity
             (new_connection_ok demo demo_shares false) Hc Hb) as (E & _ & _ & _ & Hn).
  split_and!; [vm_compute; reflexivity|exact Hn|exact E].
Defined.

(** The order matters to a client that does not wait for the answer to its version
    request: a message of more than 64 bytes behind it ends the connection when it is
    looked at before that request is handled. *)
Definition eager_stream : bytes := tversion ++ message 120 2 (le_bytes 4 1 ++ repeat 0 60).
Example size_checked_before_version :
  let after l := Run demo demo_shares l (start ([], [eager_stream]) (new_connection false)) in
  receiver (after [Measure; Collect; Spawn; Measure; Handle 0 true]) = Stopped /\
  length (handled (after [Measure; Collect; Spawn; Handle 0 true; Measure; Collect; Spawn; Handle 0 true])) = 2%nat.
Proof. vm_compute. split; reflexivity. Qed.
End P9ConnThm.

Import P9State P9Proto P9File P9Handler P9SafeThm P9ShareThm.

Module P9FidThm.

Section Table.
Context (K : kernel) (sh : shares).
(** The fids that a request names, and the table before it. *)
Context (F : Z -> Prop) (before : gmap Z Fid).

Definition agree (s : st) : Prop := forall k, ~ F k -> m_Fids s !! k = before !! k.
(** However it ends, other entries are left alone. *)
Definition T {A} (m : M A) : Prop := forall s, agree s -> agree (snd (m s)).

(** ** Rules *)
Lemma T_ret {A} (x : A) : T (mret x).
Proof. by intros s Hs. Qed.
Lemma T_throw {A} e : T (A := A) (throw e).
Proof. by intros s Hs. Qed.
Lemma T_terminate {A} : T (A := A) terminate.
Proof. by intros s Hs. Qed.
Lemma T_get : T get.
Proof. by intros s Hs. Qed.
Lemma T_bind {A B} (m : M A) (f : A -> M B) : T m -> (forall x, T (f x)) -> T (m ≫= f).
Proof.
  intros Hm Hf s Hs. specialize (Hm s Hs). unfold mbind, M_bind. destruct (m s) as [[x|e|] s1]; [|done..]. by apply Hf.
Qed.
Lemma T_modify f : (forall s, m_Fids (f s) = m_Fids s) -> T (modify f).
Proof. intros H s Hs k Hk. cbn. rewrite H. by apply Hs. Qed.
Lemma T_scoped {A} (m : M A) d : T m -> T d -> T (scoped m d).
Proof.
  intros Hm Hd s Hs. specialize (Hm s Hs). unfold scoped. destruct (m s) as [[x|e|] s1]; [| |done].
  all: specialize (Hd s1 Hm); by destruct (d s1) as [[u|e'|] s2].
Qed.
Lemma T_when b m : T m -> T (when b m).
Proof. destruct b; intros H; [exact H|apply T_ret]. Qed.
Lemma T_push c : T (push c).
Proof. unfold push. apply T_modify. intros s. reflexivity. Qed.
Lemma T_set_who f : T (set_who f).
Proof. unfold set_who. apply T_modify. intros s. reflexivity. Qed.
Lemma T_rd {A} (r : Reader A) : T (rd r).
Proof. intros s Hs. unfold rd. destruct (r (reader s)) as [[x l]|]; exact Hs. Qed.
Lemma T_emit b : T (emit b).
Proof. intros s Hs. unfold emit. case_if; exact Hs. Qed.

(** Everything that is not a change of the table. *)
Ltac t1 :=
  lazymatch goal with
  | |- forall _, _ => intros ?
  | |- T (mret _) => apply T_ret
  | |- T (throw _) => apply T_throw
  | |- T terminate => apply T_terminate
  | |- T get => apply T_get
  | |- T (mbind _ _) => apply T_bind
  | |- T (scoped _ _) => apply T_scoped
  | |- T (when _ _) => apply T_when
  | |- T (push _) => apply T_push
  | |- T (set_who _) => apply T_set_who
  | |- T (rd _) => apply T_rd
  | |- T (emit _) => apply T_emit
  | |- T (match ?x with _ => _ end) => destruct x
  | |- T (let _ := _ in _) => cbv zeta
  | |- T _ => solve [auto with table]
  end.
Ltac t := repeat t1.

Lemma T_sys c : T (sys K c).
Proof. unfold sys. t. Qed.
Lemma T_sys_with {A} (f : kernel -> list event -> call -> A) c : T (sys_with K f c).
Proof. unfold sys_with. t. Qed.
Hint Resolve T_sys T_sys_with : table.
Lemma T_sys_or_throw c : T (sys_or_throw K c).
Proof. unfold sys_or_throw. t. Qed.
Hint Resolve T_sys_or_throw : table.
Lemma T_as_user {A} r (m : M A) : T m -> T (as_user K r m).
Proof. intros H. unfold as_user, FsUserContext, FsUserContext_end, skip. t; done. Qed.
Hint Resolve T_as_user : table.

(** ** Files and attributes *)
Definition here (p : place) : Prop := match p with Slot k => F k | Fresh => True end.
Lemma here_fresh : here Fresh.
Proof. exact Logic.I. Qed.
Lemma here_slot k : F k -> here (Slot k).
Proof. done. Qed.
Hint Resolve here_fresh here_slot : table.
Lemma T_put p f : here p -> T (put p f).
Proof.
  intros Hp s Hs k Hk. destruct p as [j|]; cbn; [|by apply Hs]. rewrite lookup_insert_ne; [by apply Hs|]. by intros ->.
Qed.
Lemma T_with_file {A} p (other : M A) body : T other -> (forall f, T (body f)) -> T (with_file p other body).
Proof. intros. unfold with_file. t; done. Qed.
Lemma T_expect {A B} (m : M (Expected A)) (f : A -> M (Expected B)) : T m -> (forall x, T (f x)) -> T (expect m f).
Proof. intros. unfold expect. t; done. Qed.
Hint Resolve T_put : table.
Ltac t2 :=
  lazymatch goal with
  | |- T (with_file _ _ _) => apply T_with_file
  | |- T (expect _ _) => apply T_expect
  | |- T (as_user _ _ _) => apply T_as_user
  | |- T (try_sys _ _) => unfold try_sys
  | |- T (try_sys_with _ _ _) => unfold try_sys_with
  | |- T (try_sys_data _ _) => unfold try_sys_data
  | |- T (lx _ _) => unfold lx
  | |- T invalid => unfold invalid
  | |- T skip => unfold skip
  | |- T (close _ _) => unfold close
  | |- _ => t1
  end.
Ltac method := repeat t2; try done.

Lemma T_GetFdPath fd : T (GetFdPath K fd).
Proof. unfold GetFdPath. method. Qed.
Hint Resolve T_GetFdPath : table.
Lemma T_OpenAt fd name fl mode : T (OpenAt K fd name fl mode).
Proof. unfold OpenAt, Reopen. method. Qed.
Lemma T_AccessHelper fd p mode : T (AccessHelper K fd p mode).
Proof. unfold AccessHelper. method. Qed.
Lemma T_destroy f : T (destroy K f).
Proof. unfold destroy. method. Qed.
Lemma T_Capability : T (CheckFOwnerCapability K).
Proof. unfold CheckFOwnerCapability. method. Qed.
Hint Resolve T_OpenAt T_AccessHelper T_destroy T_Capability : table.
Lemma T_ValidateExists f : T (ValidateExists K f).
Proof. unfold ValidateExists, Stat. method. Qed.
Hint Resolve T_ValidateExists : table.
Lemma T_Walk p n : here p -> T (Walk K p n).
Proof. intros. unfold Walk. method. Qed.
Lemma T_GetAttr p mask : T (GetAttr K p mask).
Proof. unfold GetAttr, Stat. method. Qed.
Lemma T_attr_step w step rest need : T step -> (forall b, T (rest b)) -> T (attr_step w step rest need).
Proof. intros. unfold attr_step. method; auto. Qed.
Lemma T_SetAttr p v a : T (SetAttr K p v a).
Proof.
  unfold SetAttr. repeat t2. repeat (apply T_attr_step; [|intros ?]); unfold set_size, OpenFile; method.
Qed.
Lemma T_Open p fl : here p -> T (P9File.Open K p fl).
Proof. intros. unfold P9File.Open. method. Qed.
Lemma T_Create p n fl mode : here p -> T (Create K p n fl mode).
Proof. intros. unfold Create. method. Qed.
Lemma T_make_entry p n make : T (make_entry K p n make).
Proof. unfold make_entry, GetFileQidByPath. method. Qed.
Lemma T_Read p o n : T (P9File.Read K p o n).
Proof. unfold P9File.Read, File_Read, XAttr_Read, GetValue. method. Qed.
Lemma T_Write p o b : here p -> T (Write K p o b).
Proof.
  intros Hp. unfold Write, File_Write, XAttr_Write. repeat t2; try done.
  intros s Hs k Hk. destruct p as [j|]; cbn; [|by apply Hs]. rewrite lookup_insert_ne; [by apply Hs|]. by intros ->.
Qed.
Lemma T_ReadLink p n : T (ReadLink K p n).
Proof. unfold ReadLink. method. Qed.
Lemma T_Fsync p : T (P9File.Fsync K p).
Proof. unfold P9File.Fsync. method. Qed.
Lemma T_StatFs p : T (StatFs K p).
Proof. unfold StatFs, OpenFile. method. Qed.
Lemma T_entry_attributes fd n : T (entry_attributes K fd n).
Proof. unfold entry_attributes. method. Qed.
Hint Resolve T_entry_attributes : table.
Lemma T_readdir_loop fuel p f e a left out w : here p -> T (readdir_loop K fuel p f e a left out w).
Proof.
  intros Hp. revert e left out w. induction fuel as [|fuel IH]; intros; cbn [readdir_loop]; [by t2|].
  unfold set_enumerator. method.
Qed.
Hint Resolve T_readdir_loop : table.
Lemma T_ReadDir p o n a : here p -> T (ReadDir K p o n a).
Proof. intros. unfold ReadDir, Seek, set_enumerator. method. Qed.
Lemma T_UnlinkAt p n fl : T (UnlinkAt K p n fl).
Proof. unfold UnlinkAt. method. Qed.
Lemma T_Remove p : T (Remove K p).
Proof. unfold Remove. method. Qed.
Lemma T_RenameAt p n q n' : T (RenameAt K p n q n').
Proof. unfold RenameAt, on_root. method. Qed.
Lemma T_Rename p q n : here p -> T (Rename K p q n).
Proof. intros. unfold Rename, on_root. method. Qed.
Lemma T_Link p n q : T (Link K p n q).
Proof. unfold Link, on_root. method. Qed.
Lemma T_Access p fl : T (Access K p fl).
Proof. unfold Access, delete_access. method. Qed.
Lemma T_XattrWalk p n : T (XattrWalk K p n).
Proof. unfold XattrWalk, xattr_path. method. Qed.
Lemma T_XattrCreate p n size fl : T (XattrCreate K p n size fl).
Proof. unfold XattrCreate, xattr_path. method. Qed.
Lemma T_GetValue x n : T (GetValue K x n).
Proof. unfold GetValue. method. Qed.
Lemma T_Clunk f : T (Clunk K f).
Proof. unfold Clunk. method. Qed.
Lemma T_CreateFile r u : T (CreateFile K r u).
Proof. unfold CreateFile. method. Qed.
Hint Resolve T_Walk T_GetAttr T_SetAttr T_Open T_Create T_make_entry T_Read T_Write T_ReadLink T_Fsync T_StatFs T_ReadDir T_UnlinkAt
  T_Remove T_RenameAt T_Rename T_Link T_Access T_XattrWalk T_XattrCreate T_GetValue T_Clunk T_CreateFile : table.

(** ** Handlers *)
Lemma T_EmplaceFid k : F k -> T (EmplaceFid k).
Proof.
  intros Hk s Hs. unfold EmplaceFid, mbind, M_bind, get. cbn beta iota. destruct (m_Fids s !! k); [done|].
  destruct (fresh s); [|done]. intros j Hj. cbn. rewrite lookup_insert_ne; [by apply Hs|]. by intros ->.
Qed.
Lemma T_reply {A} (m : M (Expected A)) f : T m -> (forall x, T (f x)) -> T (reply m f).
Proof. intros. unfold reply. method. Qed.
Lemma T_EnsureSize t n : T (EnsureSize t n).
Proof. unfold EnsureSize, skip. repeat t1; by apply T_modify. Qed.
Lemma T_LookupFid k : T (LookupFid k).
Proof. unfold LookupFid, find_fid. method. Qed.
Lemma T_set_fresh f : T (set_fresh f).
Proof. unfold set_fresh. by apply T_modify. Qed.
Hint Resolve T_EmplaceFid T_EnsureSize T_LookupFid T_set_fresh : table.
Lemma T_clone_fid f : T (clone_fid f).
Proof. unfold clone_fid. method. Qed.
Hint Resolve T_clone_fid : table.
Lemma T_Name : T Name.
Proof. unfold Name. method. Qed.
Hint Resolve T_Name : table.
Lemma T_read_names n : T (read_names n).
Proof. induction n; cbn [read_names]; method. Qed.
Lemma T_walk_names l : T (walk_names K l).
Proof. induction l; cbn [walk_names]; method. Qed.
Lemma T_put_string v : T (put_string v).
Proof. unfold put_string. method. Qed.
Lemma T_put_attributes a : T (put_attributes a).
Proof. unfold put_attributes, u64. method. Qed.
Hint Resolve T_read_names T_walk_names T_put_string T_put_attributes : table.
Ltac t3 :=
  lazymatch goal with
  | |- T (reply _ _) => apply T_reply
  | |- T (reply_qid _ _) => apply T_reply
  | |- T (u8 _) => apply T_emit
  | |- T (u16 _) => apply T_emit
  | |- T (u32 _) => apply T_emit
  | |- T (u64 _) => apply T_emit
  | |- _ => t2
  end.
Ltac handler := repeat t3; try done.

(** A handler that starts with a fid that is named, or with two. *)
Definition from1 (body : bytes) {A} (m : M A) : Prop := forall s, reader s = body -> agree s -> agree (snd (m s)).
Lemma from_T body {A} (m : M A) : T m -> from1 body m.
Proof. intros H s _ Hs. by apply H. Qed.
Lemma from_rd body {A} (f : Z -> M A) : (F (le_val (take 4 body)) -> from1 (drop 4 body) (f (le_val (take 4 body)))) ->
  F (le_val (take 4 body)) -> from1 body (rd U32 ≫= f).
Proof.
  intros Hf HF s Hr Hs. change U32 with (ReadFixed 4). unfold mbind, M_bind. destruct (decide (4 <= length (reader s))%nat) as [Hl|Hl].
  - rewrite (rd_fixed 4 s Hl), Hr. apply Hf; [done|reflexivity|exact Hs].
  - by rewrite (rd_short 4 s) by lia.
Qed.
Lemma from_get body {A} (f : st -> M A) : (forall s, from1 body (f s)) -> from1 body (get ≫= f).
Proof. intros Hf s Hr Hs. by apply Hf. Qed.
Lemma from_if body {A} (b : bool) (m n : M A) : from1 body m -> from1 body n -> from1 body (if b then m else n).
Proof. by destruct b. Qed.

Context (body : bytes) (HF : F (le_val (take 4 body))).
Ltac fid := apply from_rd; [intros ?; apply from_T|exact HF].
Abbreviation from m := (from1 body m).

Lemma from_Version : from HandleVersion.
Proof. apply from_T. unfold HandleVersion. handler; by apply T_modify. Qed.
Lemma T_MakeRoot a u : T (MakeRoot K sh a u).
Proof. unfold MakeRoot, make_root, GetUserGroupId, GetGroupIdByName. handler; by apply T_modify. Qed.
Hint Resolve T_MakeRoot : table.
Lemma from_Attach : from (HandleAttach K sh).
Proof. unfold HandleAttach. fid. handler. Qed.
Lemma from_Clunk : from (HandleClunk K).
Proof.
  unfold HandleClunk. fid. unfold find_fid. handler. intros s Hs k Hk. cbn. rewrite lookup_delete_ne; [by apply Hs|]. by intros <-.
Qed.
Lemma from_Walk : F (le_val (take 4 (drop 4 body))) -> from (HandleWalk K).
Proof. intros H2. unfold HandleWalk. apply from_rd; [|exact HF]. intros _. apply from_rd; [|exact H2]. intros _. apply from_T. handler. Qed.
Lemma from_StatFs : from (HandleStatFs K).
Proof. unfold HandleStatFs. fid. handler. Qed.
Lemma from_GetAttr : from (HandleGetAttr K).
Proof. unfold HandleGetAttr. fid. handler. Qed.
Lemma from_SetAttr : from (HandleSetAttr K).
Proof. unfold HandleSetAttr. fid. handler. Qed.
Lemma from_LOpen : from (HandleLOpen K).
Proof. unfold HandleLOpen. fid. handler. Qed.
Lemma from_LCreate : from (HandleLCreate K).
Proof. unfold HandleLCreate. fid. handler. Qed.
Lemma from_entries : from (HandleSymLink K) /\ from (HandleMkNod K) /\ from (HandleMkDir K).
Proof. unfold HandleSymLink, HandleMkNod, HandleMkDir. split_and!; fid; handler; apply T_make_entry. Qed.
Lemma from_ReadLink : from (HandleReadLink K).
Proof. unfold HandleReadLink. fid. handler. Qed.
Lemma from_ReadDir a : from (HandleReadDir K a).
Proof. unfold HandleReadDir. apply from_get. intros s. apply from_if; [apply from_T; by t1|]. fid. handler. Qed.
Lemma from_Fsync : from (HandleFsync K).
Proof. unfold HandleFsync. fid. handler. Qed.
Lemma from_Read : from (HandleRead K).
Proof. unfold HandleRead. fid. handler. Qed.
Lemma from_Write : from (HandleWrite K).
Proof. unfold HandleWrite. fid. handler. Qed.
Lemma from_names : from (HandleLink K) /\ from (HandleUnlinkAt K) /\ from (HandleRemove K) /\ from (HandleRenameAt K).
Proof. unfold HandleLink, HandleUnlinkAt, HandleRemove, HandleRenameAt, LookupFidPair. split_and!; fid; handler. Qed.
Lemma from_Rename : from (HandleRename K).
Proof. unfold HandleRename, LookupFidPair. fid. handler. Qed.
Lemma from_locks : from HandleLock /\ from HandleGetLock.
Proof. unfold HandleLock, HandleGetLock, lock_answer. split_and!; fid; handler. Qed.
Lemma from_XattrWalk : F (le_val (take 4 (drop 4 body))) -> from (HandleXattrWalk K).
Proof. intros H2. unfold HandleXattrWalk. apply from_rd; [|exact HF]. intros _. apply from_rd; [|exact H2]. intros _. apply from_T. handler. Qed.
Lemma from_XattrCreate : from (HandleXattrCreate K).
Proof.
  unfold HandleXattrCreate. fid. handler. intros s Hs k Hk. cbn. rewrite lookup_insert_ne; [by apply Hs|]. by intros <-.
Qed.
Lemma from_Access : from (HandleAccess K).
Proof. unfold HandleAccess. apply from_get. intros s. apply from_if; [apply from_T; by t1|]. fid. handler. Qed.

Lemma T_WriteWOpenReply status w mask : T (WriteWOpenReply K status w mask).
Proof. unfold WriteWOpenReply. handler. Qed.
Hint Resolve T_WriteWOpenReply : table.
Lemma T_return {A} (m : M Z) : T m -> T (return_ (A := A) m).
Proof. intros H. unfold return_. handler. Qed.
Hint Resolve T_return : table.
Lemma T_walk_failed {A} e (m : M (step A)) i mask : T m -> T (walk_failed K e m i mask).
Proof. intros H. unfold walk_failed. handler. Qed.
Hint Resolve T_walk_failed : table.
Lemma T_walk_parents n i mask : T (walk_parents K n i mask).
Proof. revert i. induction n as [|n IH]; intros i; cbn [walk_parents]; handler. Qed.
Lemma T_find_or_create n name fl mode count mask q : T (find_or_create K n name fl mode count mask q).
Proof. induction n as [|n IH]; cbn [find_or_create]; unfold MkDir; handler. apply T_walk_failed. handler. Qed.
Lemma T_finish_wopen k fl wfl count mask x : F k -> T (finish_wopen K k fl wfl count mask x).
Proof. intros Hk. unfold finish_wopen. handler. Qed.
Hint Resolve T_walk_parents T_find_or_create T_finish_wopen : table.
Lemma from_WOpen : F (le_val (take 4 (drop 4 body))) -> from (HandleWOpen K).
Proof.
  intros H2. unfold HandleWOpen. apply from_get. intros s. apply from_if; [apply from_T; by t1|].
  apply from_rd; [|exact HF]. intros _. apply from_rd; [|exact H2]. intros _. apply from_T. handler.
Qed.

Lemma from_HandleMessage type :
  (message_type type = Some Twalk \/ message_type type = Some Txattrwalk \/ message_type type = Some Twopen ->
   F (le_val (take 4 (drop 4 body)))) -> from (HandleMessage K sh type).
Proof.
  intros H2. unfold HandleMessage. destruct (message_type type) as [t|]; [|apply from_T, T_ret].
  pose proof from_entries as (? & ? & ?). pose proof from_names as (? & ? & ? & ?). pose proof from_locks as [? ?].
  destruct t; try (apply from_T, T_ret); auto using from_Read, from_Write, from_StatFs, from_LOpen, from_LCreate, from_ReadLink, from_GetAttr,
    from_SetAttr, from_XattrCreate, from_ReadDir, from_Fsync, from_Version, from_Attach, from_Clunk, from_Rename, from_Access,
    from_XattrWalk, from_Walk, from_WOpen.
  unfold HandleFlush. apply from_T. handler.
Qed.
Lemma T_destroy_fresh : T (destroy_fresh K).
Proof. unfold destroy_fresh. handler. Qed.
Lemma from_scoped {A} (m : M A) d : from m -> T d -> from (scoped m d).
Proof.
  intros Hm Hd s Hr Hs. specialize (Hm s Hr Hs). unfold scoped. destruct (m s) as [[x|e|] s1]; [| |done].
  all: specialize (Hd s1 Hm); by destruct (d s1) as [[u|e'|] s2].
Qed.
Lemma from_catch m : from m -> from (catch m).
Proof. intros Hm s Hr Hs. specialize (Hm s Hr Hs). unfold catch. by destruct (m s) as [[x|e|] s1]. Qed.
Lemma from_bind {A B} (m : M A) (f : A -> M B) : from m -> (forall x, T (f x)) -> from (m ≫= f).
Proof.
  intros Hm Hf s Hr Hs. specialize (Hm s Hr Hs). unfold mbind, M_bind. destruct (m s) as [[x|e|] s1]; [|done..]. by apply Hf.
Qed.
Lemma from_process type tag :
  (message_type type = Some Twalk \/ message_type type = Some Txattrwalk \/ message_type type = Some Twopen ->
   F (le_val (take 4 (drop 4 body)))) -> from (process K sh type tag).
Proof.
  intros H2. unfold process. apply from_get. intros s. cbv zeta. apply from_bind.
  - apply from_catch, from_scoped; [by apply from_HandleMessage|apply T_destroy_fresh].
  - intros e. handler.
Qed.
End Table.

(** The fids that a message may change: the first that it names, and the new one of
    Twalk, Txattrwalk and Twopen. *)
Definition names_fid (msg : bytes) (k : Z) : Prop :=
  k = le_val (take 4 (drop 7 msg)) \/
  (message_type (type_of msg) = Some Twalk \/ message_type (type_of msg) = Some Txattrwalk \/ message_type (type_of msg) = Some Twopen) /\
  k = le_val (take 4 (drop 11 msg)).

(** Whatever a request does, and however it ends, the entries of all fids but
    those it names are what they were: their paths, open files, positions in a
    directory and attribute values; the fids it may change are the first one and,
    for Twalk, Txattrwalk and Twopen, the new one. *)
Theorem requests_keep_other_fids (K : kernel) (sh : shares) (s : st) (msg : bytes) (k : Z) (Hk : ~ names_fid msg k) :
  m_Fids (snd (handle_request K sh msg s)) !! k = m_Fids s !! k.
Proof.
  destruct (decide (length msg < 7)%nat) as [Hl|Hl].
  - by destruct (short_message K sh msg s Hl) as (s' & -> & _ & E); rewrite <- E.
  - rewrite long_message by lia.
    apply (from_process K sh (names_fid msg) (m_Fids s) (drop 7 msg) ltac:(by left) (type_of msg) (tag_of msg)); try done.
    intros Ht. right. split; [done|]. by rewrite drop_drop.
Qed.
(** The open of fid 2 leaves the entry of fid 1, the root of the share, alone. *)
Lemma requests_keep_other_fids_witness :
  let msg := message 12 3 (le_bytes 4 2 ++ le_bytes 4 0) in
  m_Fids (snd (handle_request demo demo_shares msg attached_client)) !! 1 = m_Fids attached_client !! 1.
Proof.
  intros msg. apply (requests_keep_other_fids demo demo_shares attached_client msg 1).
  intros [H|[[H|[H|H]] _]]; vm_compute in H; discriminate H.
Defined.
End P9FidThm.
