(* ===== verification/ConfigFile.v ===== *)
(** The .gitconfig-style reader and updater of .wslconfig and wsl.conf
    (src/src/shared/configfile/configfile.cpp): ParseConfigFile is a machine of
    labelled blocks over the characters of the file; in update mode it writes the
    file anew as it reads it. *)
From S2P Require Import Prelude CStr CNum.

Module ConfigFile.

(** Characters are the wide characters that fgetwc returns. *)
Definition WEOF : Z := -1.
Definition IsHSpace (ch : Z) : bool := (ch =? c_space) || (ch =? c_tab).
(** static_cast<char>. *)
Definition to_char (ch : Z) : Z := u8 ch.

(** * Keys *)
Record ConfigKey : Type := mk_key {
  m_names : list bytes;
  m_parseResult : option (bytes * Z);
  m_values : list bytes            (* what m_parse was called with, oldest first *)
}.
#[export] Instance ConfigKey_eta : Eta ConfigKey := fun r =>
  mk_key (m_names r) (m_parseResult r) (m_values r).

Definition Matches (names : list bytes) (name : bytes) : bool :=
  existsb (fun e => strcasecmp_eq e name) names.
(** strncasecmp. *)
Definition Matches_n (names : list bytes) (name : bytes) (length : nat) : bool :=
  existsb (fun e => strcasecmp_eq (take length e) (take length name)) names.

(** A second value for a key is ignored, with a warning. *)
Definition Parse (k : ConfigKey) (name value : bytes) (line : Z) : ConfigKey :=
  match m_parseResult k with
  | Some _ => k
  | None => k <| m_values := m_values k ++ [value] |> <| m_parseResult := Some (name, line) |>
  end.

Fixpoint SetConfig (keys : list ConfigKey) (keyName value : bytes) (line : Z) : list ConfigKey :=
  match keys with
  | [] => []
  | k :: keys' =>
    if Matches (m_names k) keyName then Parse k keyName value line :: keys'
    else k :: SetConfig keys' keyName value line
  end.

(** * Values *)
Definition ParseBool (s : bytes) : option bool :=
  if strcmp_eq s (str "1") || strcasecmp_eq s (str "true") then Some true
  else if strcmp_eq s (str "0") || strcasecmp_eq s (str "false") then Some false
  else None.

Definition ParseInt (s : bytes) : option Z :=
  let '(number, _, rest) := strtol 0 s in
  match s, rest with
  | _ :: _, Some [] => if (number <? INT_MIN) || (INT_MAX <? number) then None else Some number
  | _, _ => None
  end.

Definition units : list (bytes * Z) :=
  [(str "B", 1); (str "KB", 2 ^ 10); (str "MB", 2 ^ 20); (str "GB", 2 ^ 30); (str "TB", 2 ^ 40)].
Definition ParseMemorySize (s : bytes) : option Z :=
  let '(value, rest) := strtoul 10 s in
  let rest := match rest with Some r => r | None => s end in
  let zero_ok := match s with c :: s' => (c =? 48) && list_eqb rest s' | [] => false end in
  if (value =? 0) && negb zero_ok then None
  else
    match rest with
    | [] => Some value
    | _ =>
      if (2 <? length rest)%nat then None
      else
        match List.find (fun u => strcmp_eq rest (take 1 (fst u)) || strcmp_eq rest (fst u)) units with
        | Some (_, factor) => Some (u64 (value * factor))
        | None => None
        end
    end.

(** * The machine *)

(** The key to write, by its names, and the text of its value. *)
Record OutputKey : Type := mk_output { o_names : list bytes; o_value : bytes }.

(** The arguments that do not change. *)
Record args : Type := mk_args {
  outputKey : option OutputKey; removeKey : bool; skip_invalid : bool
}.

Record st : Type := mk_st {
  input : bytes; at_eof : bool;
  ch : Z; line : Z; newKeyValueInsertPos : nat; trailingComment : bool;
  sectionLength : nat; key : bytes;
  outputKeyValueUpdated : bool; matchedKey : bool;
  configFileOutput : bytes; keys : list ConfigKey
}.
#[export] Instance st_eta : Eta st := fun r =>
  mk_st (input r) (at_eof r) (ch r) (line r) (newKeyValueInsertPos r) (trailingComment r)
        (sectionLength r) (key r) (outputKeyValueUpdated r) (matchedKey r) (configFileOutput r) (keys r).

Inductive label : Type :=
| L_NewLine
| L_Loop
| L_ParseSection
| L_ParseKeyValue
| L_InvalidLine
| L_WriteNewKeyValue
| L_Done (result : Z)
| L_FailFast.

Section Machine.
Context (a : args).
Definition updateConfigFile : bool := match outputKey a with Some _ => true | None => false end.
Definition emit (cs : bytes) (s : st) : st :=
  if updateConfigFile then s <| configFileOutput := configFileOutput s ++ cs |> else s.

(** [ch = fgetwc(file)]. *)
Definition fgetwc (s : st) : st :=
  match input s with
  | [] => s <| ch := WEOF |> <| at_eof := true |>
  | c :: r => s <| ch := c |> <| input := r |>
  end.

(** Read on while the characters satisfy [p], writing them out; the character
    after them is in [ch].  Also the characters read. *)
Definition read_while (p : Z -> bool) (s : st) : bytes * st :=
  let cs := take_while p (input s) in
  (cs, fgetwc (emit cs (s <| input := drop_while p (input s) |>))).

(** The rest of a comment: what is left of the file, the last character, and the
    characters written.  What follows a carriage return is not written. *)
Fixpoint comment (input : bytes) : bytes * Z * bytes :=
  match input with
  | [] => ([], WEOF, [])
  | c :: r =>
    if c =? c_cr then
      match r with
      | [] => ([], WEOF, [c])
      | d :: r' => if d =? c_nl then (r', d, [c]) else let '(rest, l, o) := comment r' in (rest, l, c :: o)
      end
    else if c =? c_nl then (r, c, [c])
    else let '(rest, l, o) := comment r in (rest, l, c :: o)
  end.

Definition skip_comment (s : st) : st :=
  let '(rest, last, o) := comment (input s) in
  let s := emit o (s <| input := rest |> <| ch := last |>) in
  let s := if last =? WEOF then s <| at_eof := true |> else s <| line := line s + 1 |> in
  if trailingComment s
  then s <| newKeyValueInsertPos := (length (configFileOutput s) - 1)%nat |> <| trailingComment := false |>
  else s.

(** A new key is written where there is none yet. *)
Definition wants_new (s : st) : bool := updateConfigFile && negb (outputKeyValueUpdated s) && negb (removeKey a).
Definition finish (s : st) : label := if wants_new s then L_WriteNewKeyValue else L_Done 0.

(** In update mode the invalid character is written before the rest of the line. *)
Definition invalid (s : st) : label * st :=
  (L_InvalidLine, if updateConfigFile then (emit [ch s] s) <| ch := 0 |> else s).

(** One turn of the loop at NewLine writes the character in [ch] and skips a
    comment that starts there, ... *)
Definition pending (s : st) : st :=
  let s :=
    if updateConfigFile && negb (ch s =? 0) && negb (ch s =? WEOF)
    then emit ((if trailingComment s && matchedKey s then [c_nl] else []) ++ [ch s]) s else s in
  if ch s =? c_hash then skip_comment s else s.

(** ... and looks at the first character of the line that is not a space. *)
Definition start_line (s : st) : label * st :=
  if at_eof s then (finish s, s)
  else
    let '(_, s) := read_while IsHSpace s in
    if ch s =? WEOF then (L_Loop, s)
    else if ch s =? c_cr then
      match input s with
      | d :: r => (L_Loop, if d =? c_nl then s <| input := r |> <| line := line s + 1 |> else s)
      | [] => (L_Loop, s <| at_eof := true |>)
      end
    else if ch s =? c_nl then (L_Loop, s <| line := line s + 1 |>)
    else if ch s =? c_hash then (L_Loop, s)
    else if ch s =? c_lbrack then (L_ParseSection, s)
    else if isalpha (ch s) then (L_ParseKeyValue, s)
    else invalid s.

Definition loop_turn (s : st) : label * st := start_line (pending s).

(** The section and the key of the first name of the key to write; [None] where
    the code fails fast. *)
Definition split_name (o : OutputKey) : option (bytes * bytes) :=
  match o_names o with
  | [] => None
  | name :: _ =>
    match strchr 46 name with
    | Some (c :: section, d :: k) => Some (c :: section, d :: k)
    | _ => None
    end
  end.

Definition in_section (s : st) : bool :=
  match outputKey a with
  | Some o => (0 <? sectionLength s)%nat && Matches_n (o_names o) (to_cstr (key s)) (sectionLength s)
  | None => false
  end.

(** Before a section starts, a new key is put at the end of the one before. *)
Definition insert_new (s : st) : option st :=
  if wants_new s && in_section s then
    match outputKey a with
    | Some o =>
      match split_name o with
      | Some (_, k) =>
        let p := newKeyValueInsertPos s in
        Some (s <| configFileOutput := take p (configFileOutput s) ++ (c_nl :: k ++ 61 :: o_value o)
                                       ++ drop p (configFileOutput s) |>
                <| outputKeyValueUpdated := true |>)
      | None => None
      end
    | None => None
    end
  else Some s.

(** The name of a section or key: its first character is in [ch]. *)
Definition read_name (s : st) : bytes * st :=
  let c := ch s in
  let '(cs, s) := read_while isalnum (emit [c] s) in (map to_char (c :: cs), s).

Definition ParseSection (s : st) : label * st :=
  match insert_new s with
  | None => (L_FailFast, s)
  | Some s =>
    let s := fgetwc (emit [ch s] s) in
    if negb (isalpha (ch s)) then invalid s
    else
      let '(name, s) := read_name s in
      let s := s <| key := name |> in
      if negb (ch s =? c_rbrack) then invalid s
      else
        let '(_, s) := read_while IsHSpace (emit [ch s] s) in
        if (ch s =? WEOF) || (ch s =? c_nl) || (ch s =? c_cr)
        then (L_NewLine, s <| sectionLength := length (key s) |>)
        else if ch s =? c_hash
        then (L_NewLine, s <| trailingComment := true |> <| sectionLength := length (key s) |>)
        else invalid s
  end.

(** * The value *)
Inductive value_end : Type := End_of_value | At_comment | Bad_escape.
Record value_result : Type := mk_value {
  v_end : value_end; v_ch : Z; v_rest : bytes; v_eof : bool; v_written : bytes;
  v_value : bytes; v_trimmed : nat; v_quote : bool; v_lines : Z
}.

(** What an escaped character stands for: text, or [None] when it is invalid. *)
Definition escaped (c : Z) : option bytes :=
  if (c =? c_bslash) || (c =? c_quote) then Some [to_char c]
  else if c =? 98 then Some [8]
  else if c =? 110 then Some [c_nl]
  else if c =? 116 then Some [c_tab]
  else if (c =? c_cr) || (c =? c_nl) then Some []
  else None.

Section Value.
Context (forgiving : bool).    (* firstMatchedKey: the value is overwritten *)

(** The loop: [c] is the character in [ch], [input] what follows. *)
Fixpoint value_loop (input : bytes) (c : Z) (quote : bool) (value : bytes) (trimmed : nat)
    (written : bytes) (lines : Z) : value_result :=
  if (c =? WEOF) || (c =? c_nl) || (c =? c_cr)
  then mk_value End_of_value c input (c =? WEOF) written value trimmed quote lines
  else if (c =? c_hash) && negb quote
  then mk_value At_comment c input false written value trimmed quote lines
  else
    let written := if c =? c_hash then written else written ++ [c] in
    if c =? c_bslash then
      match input with
      | [] =>
        (* the escape is cut by the end of the file *)
        if forgiving then mk_value End_of_value WEOF [] true written value (length value) quote lines
        else mk_value Bad_escape c [] true written value trimmed quote lines
      | c2 :: r2 =>
        let written := written ++ [c2] in
        let lines := if c2 =? c_nl then lines + 1 else lines in
        match escaped c2 with
        | None =>
          if forgiving then
            match r2 with
            | [] => mk_value End_of_value WEOF [] true written value (length value) quote lines
            | d :: r => value_loop r d quote value (length value) written lines
            end
          else mk_value Bad_escape c r2 false written value trimmed quote lines
        | Some t =>
          let value := value ++ t in
          match r2 with
          | [] => mk_value End_of_value WEOF [] true written value (length value) quote lines
          | d :: r => value_loop r d quote value (length value) written lines
          end
        end
      end
    else
      let quote := if c =? c_quote then negb quote else quote in
      let value := if c =? c_quote then value else value ++ [to_char c] in
      let trimmed := if IsHSpace c then trimmed else length value in
      match input with
      | [] => mk_value End_of_value WEOF [] true written value trimmed quote lines
      | d :: r => value_loop r d quote value trimmed written lines
      end.
End Value.

(** Everything written since the last newline goes. *)
Fixpoint drop_line_rev (r : bytes) : option bytes :=
  match r with
  | [] => None
  | c :: r' => if c =? c_nl then Some r' else drop_line_rev r'
  end.
Definition remove_line (out : bytes) : bytes :=
  match drop_line_rev (rev out) with Some r => rev r | None => out end.

Definition output_matches (s : st) : bool :=
  match outputKey a with Some o => Matches (o_names o) (to_cstr (key s)) | None => false end.

(** The key is set, or its value replaced, or it is removed. *)
Definition store_value (first matched : bool) (v : value_result) (s : st) : label * st :=
  if v_quote v then (L_InvalidLine, s)
  else if first then
    match outputKey a with
    | Some o =>
      (L_NewLine, (emit (o_value o ++ drop (v_trimmed v) (v_value v)) s) <| outputKeyValueUpdated := true |>)
    | None => (L_NewLine, s)
    end
  else if negb matched then
    (L_NewLine, s <| keys := SetConfig (keys s) (to_cstr (key s)) (to_cstr (take (v_trimmed v) (v_value v))) (line s) |>
                  <| newKeyValueInsertPos := length (configFileOutput s) |>)
  else (L_NewLine, s).

Definition ParseValue (first matched : bool) (s : st) : label * st :=
  let s := s <| matchedKey := matched |> in
  let s := if matched : bool then s <| configFileOutput := remove_line (configFileOutput s) |> else s in
  let v := value_loop first (input s) (ch s) false [] 0 [] 0 in
  let s := s <| ch := v_ch v |> <| input := v_rest v |> <| line := line s + v_lines v |> in
  let s := if v_eof v then s <| at_eof := true |> else s in
  let s := if negb first && negb matched then emit (v_written v) s else s in
  match v_end v with
  | Bad_escape => (L_InvalidLine, s)
  | At_comment => store_value first matched v (s <| trailingComment := true |>)
  | End_of_value => store_value first matched v s
  end.

(** std::string::resize. *)
Definition resize (n : nat) (s : bytes) : bytes := take n s ++ replicate (n - length s) 0.

Definition ParseKeyValue (s : st) : label * st :=
  let s := s <| key := resize (sectionLength s) (key s) |> in
  let s := s <| key := key s ++ (if is_empty (key s) then [] else [46]) |> in
  let '(name, s) := read_name s in
  let s := s <| key := key s ++ name |> in
  let s :=
    if IsHSpace (ch s) then snd (read_while IsHSpace (emit [ch s] s)) else s in
  if negb (ch s =? 61) then invalid s
  else
    let '(_, s) := read_while IsHSpace (emit [ch s] s) in
    let first := wants_new s && output_matches s in
    let matched := updateConfigFile && removeKey a && output_matches s in
    ParseValue first matched s.

(** The rest of an invalid line is skipped; when [ch] is at its end already
    there is none. *)
Definition skip_line (s : st) : st :=
  if (ch s =? WEOF) || (ch s =? c_nl) then s
  else
    let not_nl := fun c => negb (c =? c_nl) in
    let cs := take_while not_nl (input s) in
    fgetwc (emit (List.filter (fun c => negb (c =? c_cr)) cs) (s <| input := drop_while not_nl (input s) |>)).

Definition InvalidLine (s : st) : label * st :=
  if negb (skip_invalid a) then (L_Done (-1), s) else (L_NewLine, skip_line s).

Definition WriteNewKeyValue (has_file : bool) (s : st) : label * st :=
  match outputKey a with
  | None => (L_Done 0, s)
  | Some o =>
    match split_name o with
    | None => (L_FailFast, s)
    | Some (section, k) =>
      let s := if has_file then emit [c_nl] s else s in
      let s := if in_section s then s else emit ([c_lbrack] ++ section ++ [c_rbrack; c_nl]) s in
      (L_Done 0, (emit (k ++ 61 :: o_value o) s) <| outputKeyValueUpdated := true |>)
    end
  end.

Definition step (l : label) (s : st) : label * st :=
  match l with
  | L_NewLine => (L_Loop, if trailingComment s then s else s <| line := line s + 1 |>)
  | L_Loop => loop_turn s
  | L_ParseSection => ParseSection s
  | L_ParseKeyValue => ParseKeyValue s
  | L_InvalidLine => InvalidLine s
  | L_WriteNewKeyValue => WriteNewKeyValue true s
  | l => (l, s)
  end.

Fixpoint run (fuel : nat) (l : label) (s : st) : label * st :=
  match fuel with
  | O => (l, s)
  | S fuel' => let '(l, s) := step l s in run fuel' l s
  end.

Definition start (ks : list ConfigKey) (out file : bytes) : st :=
  mk_st file false 0 0 0 false 0 [0] false false out ks.

(** [file] is [None] when there is none. *)
Definition ParseConfigFile (ks : list ConfigKey) (file : option bytes) (out : bytes) : label * st :=
  match file with
  | None =>
    let s := start ks out [] in
    if wants_new s then WriteNewKeyValue false s else (L_Done 0, s)
  | Some text => run (6 * length text + 9) L_NewLine (start ks out text)
  end.
End Machine.
End ConfigFile.
