(* ===== verification/ConfigDocThm.v ===== *)
(** Theorems on the config file: the reader's lines, values and whole documents, and the
    updates: a key's value is replaced, a new key is put at the end of its section or of
    the file, or a key is removed, and the rest of the file stays as it is. *)
From S2P Require Import Prelude CStr CNum ConfigFile.

Import ConfigFile.

(** * Termination

    Every block but the last uses up a character, the end of the file, or comes
    earlier in the order of the labels. *)
Definition rank (s : st) : nat := (6 * length (input s) + (if at_eof s then 0 else 6))%nat.
Definition weight (l : label) : nat :=
  match l with
  | L_Done _ | L_FailFast => 0
  | L_WriteNewKeyValue => 1
  | L_Loop => 2
  | L_NewLine => 3
  | L_InvalidLine => 4
  | L_ParseSection | L_ParseKeyValue => 5
  end.
Definition stopped (l : label) : bool := match l with L_Done _ | L_FailFast => true | _ => false end.

Section Termination.
Context (a : args).

Lemma rank_emit cs s : rank (emit a cs s) = rank s.
Proof. unfold emit. by destruct (updateConfigFile a). Qed.

Lemma rank_fgetwc s : (rank (fgetwc s) <= rank s)%nat.
Proof. unfold rank, fgetwc. destruct (input s) as [|c r] eqn:E; cbn; [rewrite E|]; cbn; destruct (at_eof s); lia. Qed.

Lemma rank_fgetwc_strict s : at_eof s = false -> (rank (fgetwc s) + 6 <= rank s)%nat.
Proof. unfold rank, fgetwc. intros E. destruct (input s) as [|c r] eqn:Ei; cbn; rewrite ?Ei, E; cbn; lia. Qed.

Lemma rank_drop_while p s : (rank (s <| input := drop_while p (input s) |>) <= rank s)%nat.
Proof. unfold rank. cbn. pose proof (drop_while_length p (input s)). lia. Qed.

Lemma rank_read_while p s cs s' : read_while a p s = (cs, s') ->
  (rank s' <= rank s)%nat /\ (at_eof s = false -> (rank s' + 6 <= rank s)%nat).
Proof.
  intros [= <- <-]. set (s1 := s <| input := _ |>).
  pose proof (rank_drop_while p s : (rank s1 <= rank s)%nat).
  pose proof (rank_fgetwc (emit a (take_while p (input s)) s1)).
  pose proof (rank_fgetwc_strict (emit a (take_while p (input s)) s1)) as H1.
  rewrite rank_emit in *. split; [lia|]. intros E.
  enough (at_eof (emit a (take_while p (input s)) s1) = false) by (specialize (H1 ltac:(done)); lia).
  unfold emit. by destruct (updateConfigFile a).
Qed.

Lemma rank_read_name s cs s' : read_name a s = (cs, s') -> (rank s' <= rank s)%nat.
Proof.
  unfold read_name. destruct (read_while _ _ _) as [cs1 s1] eqn:E. intros [= <- <-].
  apply rank_read_while in E as [H _]. by rewrite rank_emit in H.
Qed.

Lemma rank_invalid s l s' : invalid a s = (l, s') -> weight l = 4%nat /\ rank s' = rank s.
Proof.
  unfold invalid. intros [= <- <-]. split; [done|]. destruct (updateConfigFile a) eqn:E; [|done].
  by rewrite <- (rank_emit [ch s] s).
Qed.

Lemma comment_length t : (length (fst (fst (comment t))) <= length t)%nat.
Proof.
  enough (forall n t, (length t <= n)%nat -> (length (fst (fst (comment t))) <= length t)%nat) as H by by apply (H (length t)).
  clear t. intros n. induction n as [|n IH]; intros [|c r] Hn; cbn [length] in *; try (cbn; lia).
  cbn [comment]. destruct (c =? c_cr).
  - destruct r as [|d r']; [cbn; lia|]. cbn [length] in *. destruct (d =? c_nl); [cbn; lia|].
    specialize (IH r' ltac:(lia)). destruct (comment r') as [[? ?] ?]. cbn in *. lia.
  - destruct (c =? c_nl); [cbn; lia|].
    specialize (IH r ltac:(lia)). destruct (comment r) as [[? ?] ?]. cbn in *. lia.
Qed.

Lemma rank_skip_comment s : (rank (skip_comment a s) <= rank s)%nat.
Proof.
  unfold skip_comment. pose proof (comment_length (input s)) as H.
  destruct (comment (input s)) as [[rest last] o]. cbn in H.
  set (s1 := s <| input := rest |> <| ch := last |>).
  assert (rank (emit a o s1) <= rank s)%nat as H1 by (rewrite rank_emit; unfold rank; cbn; lia).
  set (s2 := emit a o s1) in *. clearbody s2.
  set (s3 := if last =? WEOF then _ else _).
  assert (rank s3 <= rank s2)%nat by (subst s3; destruct (last =? WEOF); unfold rank; cbn; lia).
  clearbody s3. destruct (trailingComment s3); [|lia]. change (rank s3 <= rank s)%nat. lia.
Qed.

Lemma rank_pending s : (rank (pending a s) <= rank s)%nat.
Proof.
  unfold pending. set (s1 := if updateConfigFile a && _ && _ then _ else _).
  assert (rank s1 = rank s) as H by (subst s1; destruct (updateConfigFile a && _ && _); by rewrite ?rank_emit).
  clearbody s1. rewrite <- H. destruct (ch s1 =? c_hash); [apply rank_skip_comment|done].
Qed.

Lemma start_line_decreases s l s' : start_line a s = (l, s') -> (weight l + rank s' < 2 + rank s)%nat.
Proof.
  unfold start_line. destruct (at_eof s) eqn:Ee.
  { intros [= <- <-]. unfold finish. destruct (wants_new a s); cbn; lia. }
  destruct (read_while a IsHSpace s) as [cs s1] eqn:E. apply rank_read_while in E as [_ E]. specialize (E Ee).
  repeat case_if; try (intros [-> ->]%rank_invalid; lia);
    try (destruct (input s1) as [|d r] eqn:Ei; [|destruct (d =? c_nl)]);
    intros [= <- <-]; unfold rank in *; cbn in *; rewrite ?Ei in *; cbn in *;
    destruct (at_eof s1); lia.
Qed.

Lemma insert_new_rank s s' : insert_new a s = Some s' -> rank s' = rank s.
Proof.
  unfold insert_new. destruct (_ && _); [|by intros [= <-]].
  destruct (outputKey a) as [o|]; [|done]. destruct (split_name o) as [[sec k]|]; [|done]. by intros [= <-].
Qed.

Lemma ParseSection_decreases s l s' : ParseSection a s = (l, s') -> (weight l + rank s' < 5 + rank s)%nat.
Proof.
  unfold ParseSection. destruct (insert_new a s) as [s0|] eqn:E0; [|intros [= <- <-]; cbn; lia].
  apply insert_new_rank in E0. rewrite <- E0. clear E0.
  pose proof (rank_fgetwc (emit a [ch s0] s0)) as H1. rewrite rank_emit in H1.
  set (s1 := fgetwc (emit a [ch s0] s0)) in *. clearbody s1.
  case_if; [intros [-> ->]%rank_invalid; lia|].
  destruct (read_name a s1) as [name s2] eqn:E2. apply rank_read_name in E2.
  set (s3 := s2 <| key := name |>). change (rank s2) with (rank s3) in E2. clearbody s3.
  case_if; [intros [-> ->]%rank_invalid; lia|].
  destruct (read_while a IsHSpace (emit a [ch s3] s3)) as [cs s4] eqn:E4.
  apply rank_read_while in E4 as [E4 _]. rewrite rank_emit in E4.
  repeat case_if; try (intros [-> ->]%rank_invalid; lia); intros [= <- <-];
    match goal with |- (_ + ?r < _)%nat => change r with (rank s4) end; cbn [weight]; lia.
Qed.

Lemma value_loop_length f n : forall t c q v tr w ln, (length t <= n)%nat ->
  (length (v_rest (value_loop f t c q v tr w ln)) <= length t)%nat.
Proof.
  induction n as [|n IH]; intros t c q v tr w ln Hn.
  - destruct t; [|cbn in Hn; lia]. cbn [value_loop]. repeat case_if; cbn; lia.
  - destruct t as [|c2 r2]; [cbn [value_loop]; repeat case_if; cbn; lia|].
    cbn [length] in Hn. cbn [value_loop]. repeat case_if; cbn [v_rest length]; try lia.
    all: try (eapply Nat.le_trans; [apply IH|]; lia).
    all: destruct (escaped c2); repeat case_if; cbn [v_rest]; try lia.
    all: destruct r2 as [|d r]; cbn [v_rest length] in *; try lia.
    all: eapply Nat.le_trans; [apply IH|]; lia.
Qed.

Lemma rank_value s v : (length (v_rest v) <= length (input s))%nat ->
  forall n, let s1 := s <| ch := v_ch v |> <| input := v_rest v |> <| line := n |> in
  (rank (if v_eof v then s1 <| at_eof := true |> else s1) <= rank s)%nat.
Proof. intros H n. cbv zeta. destruct (v_eof v); unfold rank; cbn; destruct (at_eof s); lia. Qed.

Lemma store_value_decreases first matched v s l s' :
  store_value a first matched v s = (l, s') -> (weight l <= 4)%nat /\ rank s' = rank s.
Proof.
  unfold store_value. destruct (v_quote v); [by intros [= <- <-]|]. destruct first.
  - destruct (outputKey a); intros [= <- <-]; (split; [cbn; lia|]); [|done].
    by rewrite <- (rank_emit (o_value o ++ drop (v_trimmed v) (v_value v)) s).
  - destruct matched; intros [= <- <-]; cbn; split; lia || done.
Qed.

Lemma ParseValue_decreases first matched s l s' :
  ParseValue a first matched s = (l, s') -> (weight l + rank s' < 5 + rank s)%nat.
Proof.
  unfold ParseValue. set (s0 := s <| matchedKey := matched |>).
  change (rank s) with (rank s0). clearbody s0.
  set (s1 := if matched then _ else _).
  assert (rank s1 = rank s0) as <- by (subst s1; by destruct matched). clearbody s1.
  set (v := value_loop _ _ _ _ _ _ _ _).
  assert (length (v_rest v) <= length (input s1))%nat as Hv by (eapply value_loop_length; done). clearbody v.
  cbv zeta. set (s2 := if v_eof v then _ else _).
  assert (rank s2 <= rank s1)%nat as H by exact (rank_value s1 v Hv (line s1 + v_lines v)). clearbody s2.
  set (s3 := if negb first && negb matched then _ else _).
  assert (rank s3 = rank s2) as H3 by (subst s3; destruct (_ && _); by rewrite ?rank_emit). clearbody s3.
  destruct (v_end v).
  - intros [??]%store_value_decreases. lia.
  - intros [? Hr]%store_value_decreases. change (rank s' = rank s3) in Hr. lia.
  - intros [= <- <-]. cbn [weight]. lia.
Qed.

Lemma ParseKeyValue_decreases s l s' : ParseKeyValue a s = (l, s') -> (weight l + rank s' < 5 + rank s)%nat.
Proof.
  unfold ParseKeyValue. set (s0 := _ <| key := _ ++ _ |>). change (rank s) with (rank s0). clearbody s0.
  destruct (read_name a s0) as [name s1] eqn:E1. apply rank_read_name in E1.
  set (s2 := s1 <| key := _ |>). change (rank s1) with (rank s2) in E1. clearbody s2.
  set (s3 := if IsHSpace (ch s2) then _ else _).
  assert (rank s3 <= rank s2)%nat as H3.
  { subst s3. destruct (IsHSpace (ch s2)); [|done].
    destruct (read_while a IsHSpace (emit a [ch s2] s2)) eqn:E.
    apply rank_read_while in E as [E _]. by rewrite rank_emit in E. }
  clearbody s3. case_if; [intros [-> ->]%rank_invalid; lia|].
  destruct (read_while a IsHSpace (emit a [ch s3] s3)) as [cs s4] eqn:E4.
  apply rank_read_while in E4 as [E4 _]. rewrite rank_emit in E4.
  intros H%ParseValue_decreases. lia.
Qed.

Lemma InvalidLine_decreases s l s' : InvalidLine a s = (l, s') -> (weight l + rank s' < 4 + rank s)%nat.
Proof.
  unfold InvalidLine, skip_line. case_if; intros [= <- <-]; cbn [weight]; [lia|]. case_if; [lia|].
  cbv zeta. set (s1 := s <| input := _ |>).
  pose proof (rank_drop_while (fun c => negb (c =? c_nl)) s : (rank s1 <= rank s)%nat).
  match goal with |- context [fgetwc ?s2] => pose proof (rank_fgetwc s2) as Hf end.
  rewrite rank_emit in Hf. lia.
Qed.

Lemma step_decreases l s l' s' : step a l s = (l', s') -> stopped l = false ->
  (weight l' + rank s' < weight l + rank s)%nat.
Proof.
  destruct l; cbn [step stopped weight]; intros H Hs; try done.
  - injection H as <- <-. destruct (trailingComment s); [cbn; lia|].
    match goal with |- (_ + ?r < _)%nat => change r with (rank s) end. cbn; lia.
  - apply start_line_decreases in H. pose proof (rank_pending s). lia.
  - by apply ParseSection_decreases.
  - by apply ParseKeyValue_decreases.
  - by apply InvalidLine_decreases.
  - unfold WriteNewKeyValue in H. destruct (outputKey a) as [o|]; [|injection H as <- <-; cbn; lia].
    destruct (split_name o) as [[sec k]|]; [|injection H as <- <-; cbn; lia].
    injection H as <- <-. cbn [weight].
    match goal with |- (_ + rank (?s1 <| _ := _ |>) < _)%nat => change (0 + rank s1 < 1 + rank s)%nat end.
    rewrite rank_emit. destruct (in_section a _); rewrite ?rank_emit; lia.
Qed.

Lemma run_stops fuel : forall l s, (weight l + rank s <= fuel)%nat -> stopped (fst (run a fuel l s)) = true.
Proof.
  induction fuel as [|fuel IH]; intros l s H; destruct (stopped l) eqn:Hl;
    try (destruct l; cbn in *; (done || lia)).
  - clear IH. cbn [run]. assert (step a l s = (l, s)) as -> by (by destruct l).
    clear H. induction fuel as [|fuel IH]; cbn [run]; [done|]. by assert (step a l s = (l, s)) as -> by (by destruct l).
  - cbn [run]. destruct (step a l s) as [l' s'] eqn:E. apply step_decreases in E; [|done]. apply IH. lia.
Qed.
End Termination.

Import ConfigFile.

(** * Documents *)
Record entry : Type := mk_entry {
  e_name : bytes; e_before : bytes; e_after : bytes;  (* the spaces around = *)
  e_quoted : bool; e_value : bytes; e_trail : bytes; e_comment : option bytes
}.
Inductive item : Type :=
| I_blank
| I_comment (text : bytes)
| I_section (name trail : bytes) (comment : option bytes)
| I_entry (e : entry).
Record doc_line : Type := mk_line { lead : bytes; body : item }.

Definition escape (c : Z) : bytes :=
  if (c =? c_bslash) || (c =? c_quote) then [c_bslash; c]
  else if c =? c_nl then [c_bslash; 110]
  else if c =? 8 then [c_bslash; 98]
  else if c =? c_tab then [c_bslash; 116]
  else [c].
Definition print_value (quoted : bool) (v : bytes) : bytes :=
  if quoted then c_quote :: flat_map escape v ++ [c_quote] else flat_map escape v.
Definition print_comment (c : option bytes) : bytes :=
  match c with Some text => c_hash :: text | None => [] end.
(** An entry whose value is written as [text]. *)
Definition print_entry_with (e : entry) (text : bytes) : bytes :=
  e_name e ++ e_before e ++ 61 :: e_after e ++ text ++ e_trail e ++ print_comment (e_comment e).
Definition print_item (i : item) : bytes :=
  match i with
  | I_blank => []
  | I_comment text => c_hash :: text
  | I_section name trail c => c_lbrack :: name ++ c_rbrack :: trail ++ print_comment c
  | I_entry e => print_entry_with e (print_value (e_quoted e) (e_value e))
  end.
Definition print_line (l : doc_line) : bytes := lead l ++ print_item (body l) ++ [c_nl].
Definition print (doc : list doc_line) : bytes := flat_map print_line doc.

(** What can be written so. *)
Definition spaces_ok (s : bytes) : bool := forallb IsHSpace s.
Definition text_ok (t : bytes) : bool := forallb (fun c => negb ((c =? c_nl) || (c =? c_cr))) t.
Definition comment_ok (c : option bytes) : bool := match c with Some t => text_ok t | None => true end.
Definition name_ok (n : bytes) : bool :=
  match n with c :: cs => isalpha c && forallb isalnum cs | [] => false end.
Definition char_ok (quoted : bool) (c : Z) : bool :=
  (0 <? c) && (c <? 256) && negb (c =? c_cr) && (quoted || negb (c =? c_hash)).
Definition value_ok (quoted : bool) (v : bytes) : bool :=
  forallb (char_ok quoted) v &&
  (quoted || match v with c :: _ => negb (c =? c_space) && negb (List.last v 0 =? c_space) | [] => false end).
Definition item_ok (i : item) : bool :=
  match i with
  | I_blank => true
  | I_comment text => text_ok text
  | I_section name trail c => name_ok name && spaces_ok trail && comment_ok c
  | I_entry e =>
    name_ok (e_name e) && spaces_ok (e_before e) && spaces_ok (e_after e) &&
    value_ok (e_quoted e) (e_value e) && spaces_ok (e_trail e) && comment_ok (e_comment e)
  end.
Definition line_ok (l : doc_line) : bool := spaces_ok (lead l) && item_ok (body l).

(** The name of a key of a section. *)
Definition qualified (section name : bytes) : bytes :=
  if is_empty section then name else section ++ 46 :: name.

(** What the document says: every entry sets its key. *)
Fixpoint interp (section : bytes) (n : Z) (ks : list ConfigKey) (doc : list doc_line) : list ConfigKey :=
  match doc with
  | [] => ks
  | l :: doc' =>
    match body l with
    | I_section name _ _ => interp name (n + 1) ks doc'
    | I_entry e => interp section (n + 1) (SetConfig ks (qualified section (e_name e)) (e_value e) n) doc'
    | _ => interp section (n + 1) ks doc'
    end
  end.

(** * Values *)

(** The loop from a text on. *)
Definition value_text (f : bool) (t : bytes) q v tr w ln : value_result :=
  match t with
  | [] => mk_value End_of_value WEOF [] true w v tr q ln
  | c :: r => value_loop f r c q v tr w ln
  end.
(** What update mode writes of an escaped text. *)
Definition kept (s : bytes) : bytes := List.filter (fun c => negb (c =? c_hash)) s.

Lemma kept_app s t : kept (s ++ t) = kept s ++ kept t.
Proof. unfold kept. induction s as [|c s IH]; cbn; [done|]. rewrite IH. by destruct (c =? c_hash). Qed.

Lemma value_plain f c t q v tr w ln :
  0 < c < 256 -> c <> c_nl -> c <> c_cr -> c <> c_bslash -> c <> c_quote -> (c = c_hash -> q = true) ->
  value_text f (c :: t) q v tr w ln =
  value_text f t q (v ++ [c]) (if IsHSpace c then tr else length (v ++ [c])) (w ++ kept [c]) ln.
Proof.
  intros Hc Hnl Hcr Hb Hq Hh.
  assert (u8 c = c) as Hu by (apply Z.mod_small; lia).
  assert (w ++ kept [c] = if c =? c_hash then w else w ++ [c]) as ->
    by (cbn; destruct (c =? c_hash); [apply app_nil_r|done]).
  assert (((c =? WEOF) || (c =? c_nl) || (c =? c_cr)) = false) as E1
    by (rewrite !orb_false_iff, !Z.eqb_neq; unfold WEOF; lia).
  assert ((c =? c_hash) && negb q = false) as E2
    by (destruct (c =? c_hash) eqn:E; [rewrite Hh by lia|]; done).
  cbn [value_text]. destruct t; cbn [value_loop]; rewrite E1, E2, (proj2 (Z.eqb_neq _ _) Hb),
    (proj2 (Z.eqb_neq _ _) Hq); unfold to_char; rewrite Hu; done.
Qed.

Lemma value_escape f c x t q v tr w ln : escaped c = Some x -> c <> c_nl ->
  value_text f (c_bslash :: c :: t) q v tr w ln =
  value_text f t q (v ++ x) (length (v ++ x)) (w ++ [c_bslash; c]) ln.
Proof.
  intros H Hc. cbn [value_text value_loop]. rewrite H. cbn.
  rewrite (proj2 (Z.eqb_neq _ _) Hc), <- app_assoc. by destruct t.
Qed.

Lemma value_quote f t q v tr w ln :
  value_text f (c_quote :: t) q v tr w ln = value_text f t (negb q) v (length v) (w ++ [c_quote]) ln.
Proof. by destruct t. Qed.

Lemma value_char f c t q v tr w ln : char_ok q c = true ->
  value_text f (escape c ++ t) q v tr w ln =
  value_text f t q (v ++ [c]) (if c =? c_space then tr else length (v ++ [c])) (w ++ kept (escape c)) ln.
Proof.
  unfold char_ok. rewrite !andb_true_iff, !Z.ltb_lt, negb_true_iff, Z.eqb_neq. intros [[Hc Hcr] Hh].
  unfold escape. destruct (c =? c_bslash) eqn:E1; [apply Z.eqb_eq in E1 as ->; by apply value_escape|].
  destruct (c =? c_quote) eqn:E2; [apply Z.eqb_eq in E2 as ->; by apply value_escape|].
  destruct (c =? c_nl) eqn:E3; [apply Z.eqb_eq in E3 as ->; by apply value_escape|].
  destruct (c =? 8) eqn:E4; [apply Z.eqb_eq in E4 as ->; by apply value_escape|].
  destruct (c =? c_tab) eqn:E5; [apply Z.eqb_eq in E5 as ->; by apply value_escape|].
  rewrite Z.eqb_neq in *. cbn [orb app]. rewrite value_plain; try done.
  - unfold IsHSpace. by rewrite (proj2 (Z.eqb_neq c c_tab)), orb_false_r.
  - intros ->. by destruct q.
Qed.

(** The length up to the last character that is not a space. *)
Fixpoint trims (n tr : nat) (v : bytes) : nat :=
  match v with
  | [] => tr
  | c :: v' => trims (S n) (if c =? c_space then tr else S n) v'
  end.

Lemma trims_all v : forall n tr, v <> [] -> List.last v 0 <> c_space -> trims n tr v = (n + length v)%nat.
Proof.
  induction v as [|c [|d v] IH]; intros n tr Hv Hl; [done| |].
  - cbn in *. rewrite (proj2 (Z.eqb_neq _ _) Hl). lia.
  - change (trims (S n) (if c =? c_space then tr else S n) (d :: v) = (n + length (c :: d :: v))%nat). rewrite IH by done. cbn [length]. lia.
Qed.

Lemma value_chars f s : forall t q v tr w ln, forallb (char_ok q) s = true ->
  value_text f (flat_map escape s ++ t) q v tr w ln =
  value_text f t q (v ++ s) (trims (length v) tr s) (w ++ kept (flat_map escape s)) ln.
Proof.
  induction s as [|c s IH]; intros t q v tr w ln H; cbn [flat_map app]; [cbn; by rewrite !app_nil_r|].
  cbn [forallb] in H. apply andb_true_iff in H as [Hc Hs].
  rewrite <- app_assoc, value_char by done. rewrite IH by done.
  rewrite kept_app, !app_assoc, <- (app_assoc v). cbn [trims app].
  by rewrite length_app, Nat.add_1_r.
Qed.

Lemma value_spaces f s : forall t v tr w ln, spaces_ok s = true ->
  value_text f (s ++ t) false v tr w ln = value_text f t false (v ++ s) tr (w ++ s) ln.
Proof.
  induction s as [|c s IH]; intros t v tr w ln H; cbn [app]; [by rewrite !app_nil_r|].
  cbn in H. apply andb_true_iff in H as [Hc Hs].
  pose proof Hc as Hc'. unfold IsHSpace in Hc'. rewrite orb_true_iff, !Z.eqb_eq in Hc'.
  rewrite value_plain by lia. rewrite Hc, IH by done.
  assert (kept [c] = [c]) as -> by (by destruct Hc' as [-> | ->]). by rewrite <- !app_assoc.
Qed.

(** The whole value, up to the comment or the end of the line. *)
Definition value_end_of (c : option bytes) : value_end := match c with Some _ => At_comment | None => End_of_value end.
Definition end_char (c : option bytes) : Z := match c with Some _ => c_hash | None => c_nl end.
Definition after_end (c : option bytes) (rest : bytes) : bytes :=
  match c with Some t => t ++ c_nl :: rest | None => rest end.

Lemma value_read f quoted v trail c rest : value_ok quoted v = true -> spaces_ok trail = true ->
  value_text f (print_value quoted v ++ trail ++ print_comment c ++ c_nl :: rest) false [] 0 [] 0 =
  mk_value (value_end_of c) (end_char c) (after_end c rest) false
    (kept (print_value quoted v) ++ trail) (v ++ trail) (length v) false 0.
Proof.
  unfold value_ok. rewrite andb_true_iff. intros [Hv Hq] Ht.
  assert (forall vv tr w, value_text f (trail ++ print_comment c ++ c_nl :: rest) false vv tr w 0 =
    mk_value (value_end_of c) (end_char c) (after_end c rest) false (w ++ trail) (vv ++ trail) tr false 0) as Hend.
  { intros vv tr w. rewrite value_spaces by done. by destruct c as [[|]|], rest. }
  destruct quoted; cbn [print_value app].
  - rewrite value_quote, <- app_assoc, value_chars by done. cbn [app]. rewrite value_quote, Hend. cbn [app negb].
    f_equal. change (c_quote :: flat_map escape v ++ [c_quote]) with ([c_quote] ++ flat_map escape v ++ [c_quote]).
    by rewrite !kept_app.
  - rewrite value_chars by done. rewrite Hend. f_equal. cbn [length]. destruct v as [|c0 v]; [done|].
    cbn [orb] in Hq. apply andb_true_iff in Hq as [_ Hl]. rewrite negb_true_iff, Z.eqb_neq in Hl.
    by rewrite trims_all.
Qed.

(** * One line *)
Section Lines.
Context (a : args).

Definition w (out cs : bytes) : bytes := if updateConfigFile a then out ++ cs else out.
Lemma w_w out cs cs' : w (w out cs) cs' = w out (cs ++ cs').
Proof. unfold w. destruct (updateConfigFile a); [by rewrite app_assoc|done]. Qed.
Lemma w_nil out : w out [] = out.
Proof. unfold w. by rewrite app_nil_r; destruct (updateConfigFile a). Qed.

Lemma emit_mk cs i e c ln p t sl k u m out ks :
  emit a cs (mk_st i e c ln p t sl k u m out ks) = mk_st i e c ln p t sl k u m (w out cs) ks.
Proof. unfold emit, w. by destruct (updateConfigFile a). Qed.

Lemma read_while_mk q cs d rest i e c ln p t sl k u m out ks :
  i = cs ++ d :: rest -> forallb q cs = true -> q d = false ->
  read_while a q (mk_st i e c ln p t sl k u m out ks) = (cs, mk_st rest e d ln p t sl k u m (w out cs) ks).
Proof.
  intros -> Hcs Hd.
  assert (Forall (fun x => q x = true) cs) as H by (apply Forall_forall; intros x Hx; by apply forallb_forall with (1 := Hcs), list_elem_of_In).
  unfold read_while. cbn [input]. rewrite take_while_app, drop_while_app, drop_while_head by done.
  match goal with |- (_, fgetwc (emit a cs ?s)) = _ => change s with (mk_st (d :: rest) e c ln p t sl k u m out ks) end.
  by rewrite emit_mk.
Qed.

(** Between two lines: the state once the end of the line before is written. *)
Inductive at_line (sec : bytes) (ln : Z) (pos : nat) (u m : bool) (out : bytes)
    (ks : list ConfigKey) (rest : bytes) (s : st) : Prop :=
| At_line c p kr :
  pending a s = mk_st rest false c ln p false (length sec) (sec ++ kr) u m out ks ->
  (updateConfigFile a = true -> p = pos) ->
  at_line sec ln pos u m out ks rest s.

Definition reaches (l : label) (s : st) (l' : label) (s' : st) : Prop := exists n, run a n l s = (l', s').

Lemma run_app n n' l s : run a (n + n') l s = let '(l', s') := run a n l s in run a n' l' s'.
Proof.
  revert l s. induction n as [|n IH]; intros l s; [done|]. cbn [run Nat.add].
  destruct (step a l s). apply IH.
Qed.
Lemma reaches_step l s l1 s1 l' s' : step a l s = (l1, s1) -> reaches l1 s1 l' s' -> reaches l s l' s'.
Proof. intros H [n Hn]. exists (S n). cbn [run]. by rewrite H. Qed.
Lemma reaches_refl l s : reaches l s l s.
Proof. by exists O. Qed.
Lemma reaches_trans l s l1 s1 l' s' : reaches l s l1 s1 -> reaches l1 s1 l' s' -> reaches l s l' s'.
Proof. intros [n Hn] [n' Hn']. exists (n + n')%nat. by rewrite run_app, Hn. Qed.

(** The end of a line: the end character, or the hash of a comment, is still to
    be written.  After a comment the insertion point is the end of the line. *)
Definition is_comment (c : option bytes) : bool := match c with Some _ => true | None => false end.
Definition line_tail (m : bool) (c : option bytes) : bytes :=
  (if is_comment c && m then [c_nl] else []) ++ print_comment c ++ [c_nl].
Definition comment_pos (c : option bytes) (pos : nat) (out : bytes) : nat :=
  if is_comment c then (length out - 1)%nat else pos.

Lemma comment_text t rest : text_ok t = true -> comment (t ++ c_nl :: rest) = (rest, c_nl, t ++ [c_nl]).
Proof.
  induction t as [|c t IH]; cbn; [done|]. rewrite andb_true_iff, negb_true_iff, orb_false_iff.
  intros [[-> ->] H]. by rewrite IH.
Qed.

Lemma pending_nl rest ln p sl k u m out ks :
  pending a (mk_st rest false c_nl ln p false sl k u m out ks) =
  mk_st rest false c_nl ln p false sl k u m (w out [c_nl]) ks.
Proof. unfold pending, w. cbn. unfold emit. by destruct (updateConfigFile a). Qed.

Lemma pending_hash t rest ln p (tr : bool) sl k u (m : bool) out ks : text_ok t = true ->
  exists p', pending a (mk_st (t ++ c_nl :: rest) false c_hash ln p tr sl k u m out ks) =
  mk_st rest false c_nl (ln + 1) p' false sl k u m (w out (line_tail (tr && m) (Some t))) ks /\
  p' = if tr then (length (w out (line_tail m (Some t))) - 1)%nat else p.
Proof.
  intros Ht. exists (if tr then (length (w out (line_tail m (Some t))) - 1)%nat else p). split; [|done].
  unfold pending, skip_comment, line_tail, w. destruct (updateConfigFile a) eqn:Ea; cbn; rewrite ?Ea; cbn;
    unfold emit; rewrite ?Ea; cbn; rewrite comment_text by done; cbn; rewrite ?Ea; cbn;
    destruct tr, m; cbn; rewrite <- ?app_assoc; done.
Qed.

Lemma newline c rest ln p sec kr u m out ks pos :
  comment_ok c = true -> (updateConfigFile a = true -> p = pos) ->
  exists s', reaches L_NewLine
    (mk_st (after_end c rest) false (end_char c) ln p (is_comment c) (length sec) (sec ++ kr) u m out ks) L_Loop s' /\
  at_line sec (ln + 1) (comment_pos c pos (w out (line_tail m c))) u m (w out (line_tail m c)) ks rest s'.
Proof.
  intros Hc Hp. eexists. split; [eapply reaches_step; [reflexivity|apply reaches_refl]|].
  destruct c as [t|]; cbn -[pending].
  - destruct (pending_hash t rest ln p true (length sec) (sec ++ kr) u m out ks Hc) as (p' & H & Hp').
    econstructor; [exact H|]. by intros _.
  - econstructor; [apply pending_nl|done].
Qed.

Definition moves (s : st) (sec : bytes) (ln : Z) (pos : nat) (u m : bool) (out : bytes)
    (ks : list ConfigKey) (rest : bytes) : Prop :=
  exists s', reaches L_Loop s L_Loop s' /\ at_line sec ln pos u m out ks rest s'.

Lemma moves_newline s c rest ln p sec kr u m out ks pos :
  reaches L_Loop s L_NewLine
    (mk_st (after_end c rest) false (end_char c) ln p (is_comment c) (length sec) (sec ++ kr) u m out ks) ->
  comment_ok c = true -> (updateConfigFile a = true -> p = pos) ->
  moves s sec (ln + 1) (comment_pos c pos (w out (line_tail m c))) u m (w out (line_tail m c)) ks rest.
Proof.
  intros Hs Hc Hp. destruct (newline c rest ln p sec kr u m out ks pos Hc Hp) as (s' & H1 & H2).
  exists s'. split; [by eapply reaches_trans|done].
Qed.

Lemma blank_line s sec ln pos u m out ks rest sp : spaces_ok sp = true ->
  at_line sec ln pos u m out ks (sp ++ c_nl :: rest) s ->
  moves s sec (ln + 1) pos u m (w out (sp ++ [c_nl])) ks rest.
Proof.
  intros Hsp [c p kr Hs Hp]. eexists. split.
  - eapply reaches_step; [|apply reaches_refl]. cbn [step]. unfold loop_turn. rewrite Hs. unfold start_line. cbn [at_eof].
    erewrite read_while_mk by done. reflexivity.
  - econstructor; [|exact Hp]. rewrite <- w_w. apply pending_nl.
Qed.

Lemma comment_line s sec ln pos u m out ks rest sp t : spaces_ok sp = true -> text_ok t = true ->
  at_line sec ln pos u m out ks (sp ++ c_hash :: t ++ c_nl :: rest) s ->
  moves s sec (ln + 1) pos u m (w out (sp ++ c_hash :: t ++ [c_nl])) ks rest.
Proof.
  intros Hsp Ht [c p kr Hs Hp]. eexists. split.
  - eapply reaches_step; [|apply reaches_refl]. cbn [step]. unfold loop_turn. rewrite Hs. unfold start_line. cbn [at_eof].
    erewrite read_while_mk by done. reflexivity.
  - destruct (pending_hash t rest ln p false (length sec) (sec ++ kr) u m (w out sp) ks Ht) as (p' & H & ->).
    econstructor; [|exact Hp]. cbn in H |- *. by rewrite H, w_w.
Qed.

(** ** Names *)
Lemma alnum_range c : isalnum c = true -> 48 <= c < 123.
Proof. unfold_ctype. rewrite !orb_true_iff, !andb_true_iff, !Z.leb_le. lia. Qed.

Lemma doc_name_no_nul n : name_ok n = true -> no_nul n.
Proof.
  destruct n as [|c n]; [done|]. cbn. rewrite andb_true_iff. intros [Hc Hn].
  assert (forallb isalnum (c :: n) = true) as H by (cbn; unfold isalnum at 1; by rewrite Hc).
  rewrite forallb_forall in H. apply Forall_forall. intros x Hx%list_elem_of_In.
  apply H, alnum_range in Hx. lia.
Qed.

Lemma name_chars n : forallb isalnum n = true -> map to_char n = n.
Proof.
  induction n as [|c n IH]; cbn; [done|]. rewrite andb_true_iff. intros [Hc%alnum_range Hn].
  rewrite IH by done. f_equal. apply Z.mod_small. lia.
Qed.

Lemma end_split c rest : print_comment c ++ c_nl :: rest = end_char c :: after_end c rest.
Proof. by destruct c. Qed.
Lemma end_char_stops c : IsHSpace (end_char c) = false.
Proof. by destruct c. Qed.

Lemma read_name_mk c0 cs d rest i e ln p t sl k u m out ks :
  i = cs ++ d :: rest -> name_ok (c0 :: cs) = true -> isalnum d = false ->
  read_name a (mk_st i e c0 ln p t sl k u m out ks) =
  (c0 :: cs, mk_st rest e d ln p t sl k u m (w out (c0 :: cs)) ks).
Proof.
  intros Hi Hn Hd. cbn in Hn. apply andb_true_iff in Hn as [Hc Hcs].
  unfold read_name. cbn [ch]. rewrite emit_mk. erewrite read_while_mk by done. rewrite w_w, name_chars; [done|].
  cbn. unfold isalnum at 1. by rewrite Hc.
Qed.

(** ** Sections *)
Definition section_hit (sec : bytes) : bool :=
  match outputKey a with
  | Some o => (0 <? length sec)%nat && Matches_n (o_names o) sec (length sec)
  | None => false
  end.
Definition section_ok (sec : bytes) : Prop := sec = [] \/ name_ok sec = true.
Lemma section_no_nul sec : section_ok sec -> no_nul sec.
Proof. intros [-> |H]; [constructor|by apply doc_name_no_nul]. Qed.

Lemma in_section_mk sec kr i e c ln p t u m out ks : section_ok sec ->
  in_section a (mk_st i e c ln p t (length sec) (sec ++ kr) u m out ks) = section_hit sec.
Proof.
  intros Hs%section_no_nul. unfold in_section, section_hit, Matches_n. cbn [sectionLength key].
  assert (take (length sec) (to_cstr (sec ++ kr)) = sec) as ->; [|by rewrite (take_ge sec) by lia].
  unfold to_cstr. induction Hs as [|x sec Hx _ IH]; cbn; [done|].
  unfold nonzero at 1. rewrite (proj2 (Z.eqb_neq _ _) Hx). cbn. by rewrite IH.
Qed.

Lemma config_section_line s sec ln pos u m out ks rest sp n trail c u' out' :
  item_ok (I_section n trail c) = true -> spaces_ok sp = true ->
  (forall p kr i, (updateConfigFile a = true -> p = pos) ->
    insert_new a (mk_st i false c_lbrack ln p false (length sec) (sec ++ kr) u m (w out sp) ks) =
    Some (mk_st i false c_lbrack ln p false (length sec) (sec ++ kr) u' m out' ks)) ->
  at_line sec ln pos u m out ks (sp ++ c_lbrack :: n ++ c_rbrack :: trail ++ print_comment c ++ c_nl :: rest) s ->
  let text := c_lbrack :: n ++ c_rbrack :: trail ++ line_tail m c in
  moves s n (ln + 1) (comment_pos c pos (w out' text)) u' m (w out' text) ks rest.
Proof.
  cbn [item_ok]. rewrite !andb_true_iff. intros [[Hn Ht] Hc] Hsp Hins [c0 p kr Hs Hp]. cbv zeta.
  assert (c_lbrack :: n ++ c_rbrack :: trail ++ line_tail m c =
    (c_lbrack :: n ++ c_rbrack :: trail) ++ line_tail m c) as -> by (cbn; by rewrite <- app_assoc).
  rewrite <- w_w. apply (moves_newline s c rest ln p n []); [|done|done].
  eapply reaches_step; [cbn [step]; unfold loop_turn; rewrite Hs; unfold start_line; cbn [at_eof];
    erewrite read_while_mk by done; reflexivity|].
  eapply reaches_step; [|apply reaches_refl]. cbn [step]. unfold ParseSection. rewrite Hins by done.
  cbn [ch]. rewrite emit_mk. destruct n as [|x n]; [done|]. cbn [app fgetwc input ch].
  cbn in Hn. pose proof Hn as [Hx _]%andb_true_iff. change (isalpha x = true) in Hx.
  match goal with |- context [isalpha (ch ?s)] => change (ch s) with x end. rewrite Hx. cbn [negb].
  match goal with |- context [read_name a ?s] =>
    change s with (mk_st (n ++ c_rbrack :: trail ++ print_comment c ++ c_nl :: rest) false x ln p false (length sec) (sec ++ kr) u' m (w out' [c_lbrack]) ks) end.
  erewrite read_name_mk by done. cbn -[read_while]. 
  match goal with |- context [emit a _ ?s] =>
    change s with (mk_st (trail ++ print_comment c ++ c_nl :: rest) false c_rbrack ln p false (length sec) (x :: n) u' m (w (w out' [c_lbrack]) (x :: n)) ks) end.
  rewrite emit_mk. rewrite end_split. erewrite read_while_mk by (done || apply end_char_stops).
  rewrite !w_w. cbn. rewrite app_nil_r. by destruct c.
Qed.

(** ** Entries *)
Definition output_hit (k : bytes) : bool :=
  match outputKey a with Some o => Matches (o_names o) k | None => false end.
Definition wants (u : bool) : bool := updateConfigFile a && negb u && negb (removeKey a).
Definition removes (k : bytes) : bool := updateConfigFile a && removeKey a && output_hit k.

Lemma value_head quoted v t : value_ok quoted v = true ->
  exists d r, print_value quoted v ++ t = d :: r /\ IsHSpace d = false.
Proof.
  unfold value_ok. destruct quoted; [by eexists _, _|]. destruct v as [|c v]; [by rewrite andb_false_r|].
  rewrite !andb_true_iff. cbn [orb]. rewrite andb_true_iff, negb_true_iff. intros [_ [Hc _]].
  cbn [print_value flat_map]. rewrite <- app_assoc. unfold escape.
  destruct (c =? c_tab) eqn:E; repeat case_if; try (by eexists _, _). eexists c, _. split; [done|].
  bool_to_prop. unfold IsHSpace. by apply orb_false_iff; split; apply Z.eqb_neq.
Qed.

Lemma qualified_no_nul sec n : section_ok sec -> name_ok n = true -> no_nul (qualified sec n).
Proof.
  intros Hs%section_no_nul Hn%doc_name_no_nul. unfold qualified. destruct (is_empty sec); [done|].
  apply Forall_app. split; [done|]. by constructor.
Qed.

Lemma resize_app sec kr : resize (length sec) (sec ++ kr) = sec.
Proof.
  unfold resize. rewrite take_app_length, length_app.
  replace (length sec - (length sec + length kr))%nat with O by lia. by rewrite app_nil_r.
Qed.

Lemma set_key_mk k' i e c ln p t sl k u m out ks :
  mk_st i e c ln p t sl k u m out ks <| key := k' |> = mk_st i e c ln p t sl k' u m out ks.
Proof. done. Qed.

Lemma ParseKeyValue_mk x n before after d r ln p sec kr u m out ks :
  name_ok (x :: n) = true -> spaces_ok before = true -> spaces_ok after = true -> section_ok sec ->
  IsHSpace d = false ->
  let k := qualified sec (x :: n) in
  ParseKeyValue a (mk_st (n ++ before ++ 61 :: after ++ d :: r) false x ln p false (length sec) (sec ++ kr) u m out ks) =
  ParseValue a (wants u && output_hit k) (removes k)
    (mk_st r false d ln p false (length sec) k u m (w out (x :: n ++ before ++ 61 :: after)) ks).
Proof.
  intros Hn Hb Ha Hs Hd. cbv zeta. set (k := qualified sec (x :: n)).
  assert (to_cstr k = k) as Hk by (by apply to_cstr_all, qualified_no_nul).
  assert (Hkey : (sec ++ if is_empty sec then [] else [46]) ++ x :: n = k)
    by (subst k; unfold qualified; destruct sec; cbn; by rewrite <- ?app_assoc).
  clearbody k. unfold ParseKeyValue. cbn [key sectionLength]. rewrite resize_app.
  set (s0 := _ <| key := _ ++ _ |>). change s0 with
    (mk_st (n ++ before ++ 61 :: after ++ d :: r) false x ln p false (length sec)
      (sec ++ if is_empty sec then [] else [46]) u m out ks). clear s0.
  set (s4 := mk_st r false d ln p false (length sec) k u m (w out (x :: n ++ before ++ 61 :: after)) ks).
  assert (wants_new a s4 && output_matches a s4 = wants u && output_hit k) as E1.
  { unfold wants_new, output_matches, wants, output_hit, s4. cbn [key outputKeyValueUpdated]. by rewrite Hk. }
  assert (updateConfigFile a && removeKey a && output_matches a s4 = removes k) as E2.
  { unfold removes, output_matches, output_hit, s4. cbn [key]. by rewrite Hk. }
  destruct before as [|b bs]; cbn [app].
  - erewrite read_name_mk by done. cbn -[read_while ParseValue wants_new output_matches]. rewrite Hkey, set_key_mk, emit_mk.
    erewrite read_while_mk by done. rewrite !w_w. cbn [app]. match goal with |- ParseValue a _ _ ?s = _ => change s with s4 end. by rewrite E1, E2.
  - pose proof Hb as [Hb1 Hb2]%andb_true_iff. change (IsHSpace b = true) in Hb1.
    assert (isalnum b = false) as Hbn by (unfold IsHSpace in Hb1; apply orb_true_iff in Hb1 as [->%Z.eqb_eq| ->%Z.eqb_eq]; done).
    erewrite read_name_mk by done. cbn -[read_while ParseValue wants_new output_matches]. rewrite Hkey, set_key_mk. cbn [ch]. rewrite Hb1, emit_mk.
    erewrite read_while_mk by done. cbn -[read_while ParseValue wants_new output_matches]. rewrite emit_mk.
    erewrite read_while_mk by done. rewrite !w_w. cbn [app]. 
    match goal with |- ParseValue a _ _ ?s = _ => change s with s4 end. by rewrite E1, E2.
Qed.

Lemma value_char_pos quoted v : value_ok quoted v = true -> no_nul v.
Proof.
  unfold value_ok. rewrite andb_true_iff, forallb_forall. intros [H _].
  apply Forall_forall. intros x Hx%list_elem_of_In%H. unfold char_ok in Hx. bool_to_prop. lia.
Qed.

Section Entry.
Context (quoted : bool) (v trail : bytes) (c : option bytes) (rest r : bytes) (d : Z).
Context (Hv : value_ok quoted v = true) (Ht : spaces_ok trail = true).
Context (Htext : print_value quoted v ++ trail ++ print_comment c ++ c_nl :: rest = d :: r).

Lemma entry_value f : value_loop f r d false [] 0 [] 0 =
  mk_value (value_end_of c) (end_char c) (after_end c rest) false
    (kept (print_value quoted v) ++ trail) (v ++ trail) (length v) false 0.
Proof. change (value_text f (d :: r) false [] 0 [] 0 = mk_value (value_end_of c) (end_char c) (after_end c rest) false
    (kept (print_value quoted v) ++ trail) (v ++ trail) (length v) false 0). rewrite <- Htext. by apply value_read. Qed.

(** Read and kept, ... *)
Lemma ParseValue_keep ln p sl k u m out ks :
  let out' := w out (kept (print_value quoted v) ++ trail) in
  ParseValue a false false (mk_st r false d ln p false sl k u m out ks) =
  (L_NewLine, mk_st (after_end c rest) false (end_char c) ln (length out') (is_comment c) sl k u false out'
    (SetConfig ks (to_cstr k) v ln)).
Proof.
  cbv zeta. unfold ParseValue. cbn -[value_loop emit]. rewrite entry_value. cbn -[emit store_value].
  match goal with |- context [emit a _ ?s] => change s with
    (mk_st (after_end c rest) false (end_char c) (ln + 0) p false sl k u false out ks) end.
  rewrite emit_mk, Z.add_0_r.
  assert (to_cstr (take (length v) (v ++ trail)) = v) as Hto
    by (rewrite take_app_length; by eapply to_cstr_all, value_char_pos).
  destruct c; unfold store_value; cbn -[to_cstr take]; by rewrite Hto.
Qed.

(** ... replaced, ... *)
Lemma ParseValue_replace o ln p sl k u m out ks : outputKey a = Some o ->
  ParseValue a true false (mk_st r false d ln p false sl k u m out ks) =
  (L_NewLine, mk_st (after_end c rest) false (end_char c) ln p (is_comment c) sl k true false
    (w out (o_value o ++ trail)) ks).
Proof.
  intros Ho. unfold ParseValue. cbn -[value_loop emit]. rewrite entry_value. cbn -[emit store_value].
  unfold store_value. cbn -[emit]. rewrite Ho, drop_app_length, Z.add_0_r.
  destruct c; cbn -[emit]; match goal with |- context [emit a _ ?s] => set (s1 := s) end;
    unfold emit, w; by destruct (updateConfigFile a).
Qed.

(** ... or removed. *)
Lemma ParseValue_remove ln p sl k u m out ks :
  ParseValue a false true (mk_st r false d ln p false sl k u m out ks) =
  (L_NewLine, mk_st (after_end c rest) false (end_char c) ln p (is_comment c) sl k u true (remove_line out) ks).
Proof.
  unfold ParseValue. cbn -[value_loop emit]. rewrite entry_value. cbn -[emit].
  rewrite Z.add_0_r. by destruct c.
Qed.
End Entry.

Lemma start_alpha x t sp c ln p sl k u m out ks : isalpha x = true -> spaces_ok sp = true ->
  start_line a (mk_st (sp ++ x :: t) false c ln p false sl k u m out ks) =
  (L_ParseKeyValue, mk_st t false x ln p false sl k u m (w out sp) ks).
Proof.
  intros Hx Hsp. assert (forall b, b < 65 \/ b = 91 -> (x =? b) = false) as H.
  { intros b Hb. apply Z.eqb_neq. revert Hx. unfold_ctype.
    rewrite orb_true_iff, !andb_true_iff, !Z.leb_le. lia. }
  unfold start_line. cbn [at_eof]. erewrite read_while_mk; [|done|done|by unfold IsHSpace; rewrite !H by lia].
  cbn -[isalpha]. unfold WEOF. by rewrite !H, Hx by lia.
Qed.

Lemma at_line_pos sec ln pos pos' u m out ks rest s : (updateConfigFile a = true -> pos = pos') ->
  at_line sec ln pos u m out ks rest s -> at_line sec ln pos' u m out ks rest s.
Proof. intros H [c p kr Hs Hp]. econstructor; [done|]. intros Hu. by rewrite Hp, H. Qed.

(** The text of an entry line up to its value. *)
Definition entry_head (sp : bytes) (e : entry) : bytes := sp ++ e_name e ++ e_before e ++ 61 :: e_after e.

Lemma entry_start s sec ln pos u m out ks rest sp e :
  item_ok (I_entry e) = true -> spaces_ok sp = true -> section_ok sec ->
  at_line sec ln pos u m out ks (sp ++ print_item (I_entry e) ++ c_nl :: rest) s ->
  let k := qualified sec (e_name e) in
  exists d r p, print_value (e_quoted e) (e_value e) ++ e_trail e ++ print_comment (e_comment e) ++ c_nl :: rest = d :: r /\
  (updateConfigFile a = true -> p = pos) /\
  forall s', ParseValue a (wants u && output_hit k) (removes k)
    (mk_st r false d ln p false (length sec) k u m (w out (entry_head sp e)) ks) = (L_NewLine, s') ->
  reaches L_Loop s L_NewLine s'.
Proof.
  cbn [item_ok]. rewrite !andb_true_iff. intros [[[[[Hn Hb] Ha] Hv] Ht] Hc] Hsp Hsec [c0 p kr Hs Hp]. cbv zeta.
  destruct e as [n before after quoted v trail c]. cbn [e_name e_before e_after e_quoted e_value e_trail e_comment] in *.
  destruct (value_head quoted v (trail ++ print_comment c ++ c_nl :: rest) Hv) as (d & r & Htext & Hd).
  exists d, r, p. split; [done|]. split; [done|]. intros s' Hs'.
  cbn [print_item print_entry_with e_name e_before e_after e_quoted e_value e_trail e_comment] in Hs.
  unfold print_entry_with in Hs. cbn [e_name e_before e_after e_quoted e_value e_trail e_comment] in Hs.
  repeat (rewrite <- app_assoc in Hs; cbn [app] in Hs). rewrite Htext in Hs.
  destruct n as [|x n]; [done|]. pose proof Hn as [Hx _]%andb_true_iff. cbn [app] in Hs.
  eapply reaches_step; [cbn [step]; unfold loop_turn; rewrite Hs; apply (start_alpha x _ sp); done|].
  eapply reaches_step; [|apply reaches_refl]. cbn [step].
  rewrite ParseKeyValue_mk by done. rewrite w_w. exact Hs'.
Qed.

Lemma entry_text out sp e text : w out (sp ++ print_entry_with e text ++ [c_nl]) =
  w (w (w out (entry_head sp e)) (text ++ e_trail e)) (line_tail false (e_comment e)).
Proof.
  rewrite !w_w. f_equal. unfold entry_head, print_entry_with, line_tail. rewrite andb_false_r. cbn [app].
  repeat (rewrite <- !app_assoc; cbn [app]). done.
Qed.

Lemma qualified_prefix sec n : exists kr, qualified sec n = sec ++ kr.
Proof. unfold qualified. destruct sec; cbn; by eexists. Qed.

Lemma entry_line_keep s sec ln pos u m out ks rest sp e :
  let k := qualified sec (e_name e) in
  item_ok (I_entry e) = true -> spaces_ok sp = true -> section_ok sec ->
  wants u && output_hit k = false -> removes k = false ->
  at_line sec ln pos u m out ks (sp ++ print_item (I_entry e) ++ c_nl :: rest) s ->
  let out' := w out (sp ++ print_entry_with e (kept (print_value (e_quoted e) (e_value e))) ++ [c_nl]) in
  moves s sec (ln + 1) (length out' - 1) u false out' (SetConfig ks k (e_value e) ln) rest.
Proof.
  cbv zeta. intros Hok Hsp Hsec Hw Hr Hat. rewrite entry_text.
  destruct (entry_start _ _ _ _ _ _ _ _ _ _ _ Hok Hsp Hsec Hat) as (d & r & p & Htext & Hp & Hgo).
  rewrite Hw, Hr in Hgo. cbn [item_ok] in Hok. rewrite !andb_true_iff in Hok. destruct Hok as [[[[[Hn _] _] Hv] Ht] Hc].
  destruct (qualified_prefix sec (e_name e)) as [kr Hkr].
  pose proof (Hgo _ (ParseValue_keep _ _ _ _ _ _ _ Hv Ht Htext _ _ _ _ _ _ _ _)) as H.
  rewrite to_cstr_all in H by (by apply qualified_no_nul). rewrite Hkr in H at 1.
  eapply moves_newline in H; [|done|intros _; reflexivity]. destruct H as (s' & H1 & H2).
  exists s'. split; [done|]. eapply at_line_pos; [|exact H2]. intros Hu. unfold comment_pos, line_tail.
  destruct (e_comment e); [by rewrite andb_false_r|]. unfold w. rewrite Hu, !length_app. cbn. lia.
Qed.

Lemma entry_line_replace s sec ln pos u m out ks rest sp e o :
  item_ok (I_entry e) = true -> spaces_ok sp = true -> section_ok sec -> outputKey a = Some o ->
  wants u = true -> Matches (o_names o) (qualified sec (e_name e)) = true ->
  at_line sec ln pos u m out ks (sp ++ print_item (I_entry e) ++ c_nl :: rest) s ->
  let out' := w out (sp ++ print_entry_with e (o_value o) ++ [c_nl]) in
  moves s sec (ln + 1) (comment_pos (e_comment e) pos out') true false out' ks rest.
Proof.
  cbv zeta. intros Hok Hsp Hsec Ho Hw Hm Hat. rewrite entry_text.
  destruct (entry_start _ _ _ _ _ _ _ _ _ _ _ Hok Hsp Hsec Hat) as (d & r & p & Htext & Hp & Hgo).
  assert (removes (qualified sec (e_name e)) = false) as Hr.
  { unfold removes. unfold wants in Hw. bool_to_prop. by rewrite H0, andb_false_r. }
  assert (output_hit (qualified sec (e_name e)) = true) as Hh by (unfold output_hit; by rewrite Ho).
  rewrite Hw, Hh, Hr in Hgo. cbn [item_ok] in Hok. rewrite !andb_true_iff in Hok. destruct Hok as [[[[[Hn _] _] Hv] Ht] Hc].
  destruct (qualified_prefix sec (e_name e)) as [kr Hkr].
  pose proof (Hgo _ (ParseValue_replace _ _ _ _ _ _ _ Hv Ht Htext o _ _ _ _ _ _ _ _ Ho)) as H.
  rewrite Hkr in H at 1. eapply moves_newline in H; [exact H|done|exact Hp].
Qed.

(** What is left of a removed line: its comment. *)
Definition removed_text (c : option bytes) : bytes := if is_comment c then print_comment c ++ [c_nl] else [].

Lemma remove_line_app o1 t : Forall (fun c => c <> c_nl) t -> remove_line (o1 ++ c_nl :: t) = o1.
Proof.
  intros H. unfold remove_line. rewrite rev_app_distr. cbn [rev]. rewrite <- app_assoc. cbn [app].
  assert (Forall (fun c => c <> c_nl) (rev t)) as Hr by (by apply Forall_rev).
  assert (drop_line_rev (rev t ++ c_nl :: rev o1) = Some (rev o1)) as ->; [|apply rev_involutive].
  induction Hr as [|c r Hc _ IH]; cbn; [done|]. by rewrite (proj2 (Z.eqb_neq _ _) Hc).
Qed.

Lemma spaces_no_nl t : spaces_ok t = true -> Forall (fun c => c <> c_nl) t.
Proof.
  unfold spaces_ok. rewrite forallb_forall. intros H. apply Forall_forall. intros x Hx%list_elem_of_In%H.
  unfold IsHSpace in Hx. rewrite orb_true_iff, !Z.eqb_eq in Hx. lia.
Qed.
Lemma name_no_nl n : name_ok n = true -> Forall (fun c => c <> c_nl) n.
Proof.
  destruct n as [|c n]; [done|]. cbn. rewrite andb_true_iff. intros [Hc Hn].
  assert (forallb isalnum (c :: n) = true) as H by (cbn; unfold isalnum at 1; by rewrite Hc).
  rewrite forallb_forall in H. apply Forall_forall. intros x Hx%list_elem_of_In%H%alnum_range. lia.
Qed.

Lemma entry_line_remove s sec ln pos u m o1 ks rest sp e :
  item_ok (I_entry e) = true -> spaces_ok sp = true -> section_ok sec ->
  removes (qualified sec (e_name e)) = true ->
  at_line sec ln pos u m (o1 ++ [c_nl]) ks (sp ++ print_item (I_entry e) ++ c_nl :: rest) s ->
  exists pos', moves s sec (ln + 1) pos' u true ((o1 ++ [c_nl]) ++ removed_text (e_comment e)) ks rest.
Proof.
  intros Hok Hsp Hsec Hr Hat.
  destruct (entry_start _ _ _ _ _ _ _ _ _ _ _ Hok Hsp Hsec Hat) as (d & r & p & Htext & Hp & Hgo).
  assert (updateConfigFile a = true /\ removeKey a = true) as [Hu Hrm] by (unfold removes in Hr; by bool_to_prop).
  assert (wants u = false) as Hw by (unfold wants; rewrite Hrm; by rewrite andb_false_r).
  rewrite Hw, Hr in Hgo. cbn [item_ok] in Hok. rewrite !andb_true_iff in Hok.
  destruct Hok as [[[[[Hn Hb] Ha] Hv] Ht] Hc]. destruct (qualified_prefix sec (e_name e)) as [kr Hkr].
  pose proof (Hgo _ (ParseValue_remove _ _ _ _ _ _ _ Hv Ht Htext _ _ _ _ _ _ _ _)) as H.
  rewrite Hkr in H at 1.
  assert (remove_line (w (o1 ++ [c_nl]) (entry_head sp e)) = o1) as Ho.
  { unfold w. rewrite Hu, <- app_assoc. cbn [app]. apply remove_line_app. unfold entry_head.
    repeat (apply Forall_app; split); try (by apply spaces_no_nl); try (by apply name_no_nl).
    constructor; [done|]. by apply spaces_no_nl. }
  rewrite Ho in H. eapply moves_newline in H; [|done|exact Hp]. eexists.
  replace ((o1 ++ [c_nl]) ++ removed_text (e_comment e)) with (w o1 (line_tail true (e_comment e))); [exact H|].
  unfold w, line_tail, removed_text. rewrite Hu. destruct (e_comment e); cbn; by rewrite <- ?app_assoc.
Qed.

(** * Documents *)

(** The section after the document, when nothing in it is replaced, removed or
    has a new key put before it. *)
Fixpoint scan (u : bool) (sec : bytes) (doc : list doc_line) : option bytes :=
  match doc with
  | [] => Some sec
  | l :: doc' =>
    match body l with
    | I_section n _ _ => if wants u && section_hit sec then None else scan u n doc'
    | I_entry e =>
      let k := qualified sec (e_name e) in
      if (wants u && output_hit k) || removes k then None else scan u sec doc'
    | _ => scan u sec doc'
    end
  end.

(** A value that update mode writes as it is: no hash in it. *)
Definition line_plain (l : doc_line) : bool :=
  match body l with I_entry e => forallb (fun c => negb (c =? c_hash)) (e_value e) | _ => true end.
(** A new key goes after the last of these lines. *)
Definition touches (l : doc_line) : bool :=
  match body l with I_entry _ => true | I_section _ _ c => is_comment c | _ => false end.
Fixpoint doc_pos (pos : nat) (out : bytes) (doc : list doc_line) : nat :=
  match doc with
  | [] => pos
  | l :: doc' =>
    let out := w out (print_line l) in
    doc_pos (if touches l then (length out - 1)%nat else pos) out doc'
  end.

Lemma kept_plain quoted v : forallb (fun c => negb (c =? c_hash)) v = true ->
  kept (print_value quoted v) = print_value quoted v.
Proof.
  intros H. assert (kept (flat_map escape v) = flat_map escape v) as Hk.
  { induction v as [|c v IH]; [done|]. cbn in H. apply andb_true_iff in H as [Hc H]. cbn.
    rewrite kept_app, IH by done. f_equal. unfold escape. apply negb_true_iff in Hc.
    destruct (c =? c_bslash) eqn:E1; [apply Z.eqb_eq in E1 as ->; done|].
    destruct (c =? c_quote) eqn:E2; [apply Z.eqb_eq in E2 as ->; done|].
    cbn [orb]. destruct (c =? c_nl), (c =? 8), (c =? c_tab); try done. cbn. by rewrite Hc. }
  destruct quoted; cbn; [|done]. change (c_quote :: kept (flat_map escape v ++ [c_quote]) = c_quote :: flat_map escape v ++ [c_quote]).
  by rewrite kept_app, Hk.
Qed.

Lemma w_ext out t t' : (updateConfigFile a = true -> t = t') -> w out t = w out t'.
Proof. unfold w. destruct (updateConfigFile a); [by intros ->|done]. Qed.

Definition is_entry (l : doc_line) : bool := match body l with I_entry _ => true | _ => false end.
Definition section_comment (l : doc_line) : bool :=
  match body l with I_section _ _ c => is_comment c | _ => false end.

Lemma insert_new_quiet sec kr i e c ln p t u m out ks : section_ok sec -> wants u && section_hit sec = false ->
  insert_new a (mk_st i e c ln p t (length sec) (sec ++ kr) u m out ks) =
  Some (mk_st i e c ln p t (length sec) (sec ++ kr) u m out ks).
Proof. intros Hs H. unfold insert_new. rewrite in_section_mk by done. unfold wants_new. cbn. unfold wants in H. by rewrite H. Qed.

Lemma scan_section_ok u doc : forall sec sec', Forall (fun l => line_ok l = true) doc -> section_ok sec ->
  scan u sec doc = Some sec' -> section_ok sec'.
Proof.
  induction doc as [|l doc IH]; intros sec sec' Hok Hs; [by intros [= <-]|].
  inversion Hok as [|? ? Hl Hdoc]; subst. cbn [scan]. unfold line_ok in Hl. apply andb_true_iff in Hl as [_ Hl].
  destruct (body l) as [| |n trail c|e]; try (by apply IH).
  - destruct (wants u && section_hit sec); [done|]. apply IH; [done|]. right. cbn in Hl. by bool_to_prop.
  - destruct (_ || _); [done|]. by apply IH.
Qed.

Lemma line_keep s sec sec' ln pos u m out ks rest l :
  line_ok l = true -> (updateConfigFile a = true -> line_plain l = true) -> section_ok sec ->
  scan u sec [l] = Some sec' -> m && section_comment l = false ->
  at_line sec ln pos u m out ks (print_line l ++ rest) s ->
  let out' := w out (print_line l) in
  moves s sec' (ln + 1) (if touches l then (length out' - 1)%nat else pos) u (m && negb (is_entry l))
    out' (interp sec ln ks [l]) rest.
Proof.
  destruct l as [sp it]. unfold line_ok, print_line, line_plain, touches, is_entry, section_comment.
  cbn [scan lead body interp]. rewrite andb_true_iff. intros [Hsp Hit] Hplain Hsec Hscan Hm Hat. cbv zeta.
  rewrite <- app_assoc in Hat. destruct it as [|t|n trail c|e]; cbn [negb]; rewrite ?andb_true_r, ?andb_false_r.
  - injection Hscan as <-. by apply blank_line.
  - injection Hscan as <-. cbn in Hat. rewrite <- app_assoc in Hat. by apply comment_line.
  - destruct (wants u && section_hit sec) eqn:Hw; [done|]. injection Hscan as <-.
    cbn [print_item app] in *. rewrite <- ?app_assoc in Hat. cbn [app] in Hat. rewrite <- ?app_assoc in Hat.
    pose proof (config_section_line s sec ln pos u m out ks rest sp n trail c u (w out sp) Hit Hsp) as H.
    rewrite andb_comm in Hm. unfold line_tail in H. rewrite Hm, w_w in H. cbn [app] in H.
    repeat (rewrite <- ?app_assoc; cbn [app]). apply H; [|done]. intros. by apply insert_new_quiet.
  - destruct (_ || _) eqn:Hw in Hscan; [done|]. injection Hscan as <-. apply orb_false_iff in Hw as [Hw Hr].
    rewrite <- app_assoc in Hat. cbn [app] in Hat.
    pose proof (entry_line_keep s sec ln pos u m out ks rest sp e Hit Hsp Hsec Hw Hr Hat) as H. cbv zeta in H.
    assert (w out (sp ++ print_entry_with e (kept (print_value (e_quoted e) (e_value e))) ++ [c_nl]) =
      w out (sp ++ print_item (I_entry e) ++ [c_nl])) as E; [|by rewrite E in H].
    apply w_ext. intros Hu. cbn [print_item]. by rewrite kept_plain by auto.
Qed.

Lemma reaches_moves s s1 sec ln pos u m out ks rest :
  reaches L_Loop s L_Loop s1 -> moves s1 sec ln pos u m out ks rest -> moves s sec ln pos u m out ks rest.
Proof. intros H (s2 & H1 & H2). exists s2. split; [by eapply reaches_trans|done]. Qed.

Lemma interp_cons l doc sec sec' u ln ks : scan u sec [l] = Some sec' ->
  interp sec ln ks (l :: doc) = interp sec' (ln + 1) (interp sec ln ks [l]) doc.
Proof.
  cbn. destruct (body l); try (by intros [= <-]); destruct (_ && _); try (by intros [= <-]); cbn; try done.
  destruct (removes _); [done|by intros [= <-]].
Qed.

Lemma scan_cons l doc sec u sec'' : scan u sec (l :: doc) = Some sec'' ->
  exists sec', scan u sec [l] = Some sec' /\ scan u sec' doc = Some sec''.
Proof. cbn. destruct (body l); try destruct (_ && _); try destruct (removes _); cbn; try done; by eexists. Qed.

(** A quiet document is read, and written as it is. *)
Lemma doc_keep doc : forall s sec sec' ln pos u out ks rest,
  Forall (fun l => line_ok l = true) doc ->
  (updateConfigFile a = true -> Forall (fun l => line_plain l = true) doc) -> section_ok sec ->
  scan u sec doc = Some sec' ->
  at_line sec ln pos u false out ks (print doc ++ rest) s ->
  moves s sec' (ln + Z.of_nat (length doc)) (doc_pos pos out doc) u false (w out (print doc)) (interp sec ln ks doc) rest.
Proof.
  induction doc as [|l doc IH]; intros s sec sec'' ln pos u out ks rest Hok Hplain Hsec Hscan Hat.
  - injection Hscan as <-. exists s. split; [apply reaches_refl|]. cbn. by rewrite Z.add_0_r, w_nil.
  - apply scan_cons in Hscan as (sec' & H1 & H2). inversion Hok as [|? ? Hl Hdoc]; subst.
    unfold print in Hat |- *. cbn [flat_map] in *. rewrite <- app_assoc in Hat.
    apply (line_keep _ _ sec') in Hat as (s1 & Hr & Hat); try done;
      [|intros Hu; specialize (Hplain Hu); by inversion Hplain].
    eapply reaches_moves; [exact Hr|]. rewrite (interp_cons l doc sec sec' u) by done.
    eapply IH in Hat; [|done| |by eapply (scan_section_ok u [l]); eauto|done];
      [|intros Hu; specialize (Hplain Hu); by inversion Hplain].
    rewrite w_w in Hat. cbn [doc_pos length]. by replace (ln + Z.of_nat (S (length doc))) with (ln + 1 + Z.of_nat (length doc)) by lia.
Qed.

(** * Whole files *)
Lemma step_stopped l s : stopped l = true -> step a l s = (l, s).
Proof. by destruct l. Qed.
Lemma run_stopped n l s : stopped l = true -> run a n l s = (l, s).
Proof. intros H. induction n; cbn [run]; [done|]. by rewrite step_stopped. Qed.

Lemma parse_reaches ks text out l s : reaches L_NewLine (start ks out text) l s -> stopped l = true ->
  ParseConfigFile a ks (Some text) out = (l, s).
Proof.
  intros [n Hn] Hl. unfold ParseConfigFile. set (fuel := (6 * length text + 9)%nat).
  assert (stopped (fst (run a fuel L_NewLine (start ks out text))) = true) as Hs
    by (apply run_stops; unfold rank, fuel; cbn; lia).
  destruct (run a fuel L_NewLine (start ks out text)) as [l' s'] eqn:Hf. cbn in Hs.
  destruct (Nat.le_gt_cases n fuel) as [H|H].
  - replace fuel with (n + (fuel - n))%nat in Hf by lia. by rewrite run_app, Hn, run_stopped in Hf.
  - replace n with (fuel + (n - fuel))%nat in Hn by lia. by rewrite run_app, Hf, run_stopped in Hn.
Qed.

Lemma at_start ks out text : exists s, reaches L_NewLine (start ks out text) L_Loop s /\
  at_line [] 1 0 false false out ks text s.
Proof.
  eexists. split; [eapply reaches_step; [reflexivity|apply reaches_refl]|].
  apply (At_line [] 1 0 false false out ks text _ 0 0%nat [0]); [|done].
  unfold pending. cbn. by rewrite andb_false_r.
Qed.

(** The machine when the file is read. *)
Lemma start_line_eof c ln p sl k u m out ks :
  start_line a (mk_st [] false c ln p false sl k u m out ks) = (L_Loop, mk_st [] true WEOF ln p false sl k u m out ks).
Proof. unfold start_line, read_while, emit. cbn. destruct (updateConfigFile a); cbn; by rewrite ?app_nil_r. Qed.

Lemma at_end sec ln pos u m out ks s : at_line sec ln pos u m out ks [] s ->
  exists c p kr, reaches L_Loop s (if wants u then L_WriteNewKeyValue else L_Done 0)
    (mk_st [] true c ln p false (length sec) (sec ++ kr) u m out ks).
Proof.
  intros [c p kr Hs _]. exists WEOF, p, kr.
  eapply reaches_step; [cbn [step]; unfold loop_turn; rewrite Hs; apply start_line_eof|].
  eapply reaches_step; [|apply reaches_refl]. cbn [step]. unfold loop_turn, pending.
  cbn. rewrite andb_false_r. done.
Qed.

Lemma parse_moves ks out text sec ln pos u m out' ks' :
  (forall s, at_line [] 1 0 false false out ks text s -> moves s sec ln pos u m out' ks' []) ->
  wants u = false ->
  exists s, ParseConfigFile a ks (Some text) out = (L_Done 0, s) /\ configFileOutput s = out' /\ keys s = ks'.
Proof.
  intros H Hw. destruct (at_start ks out text) as (s0 & H0 & Hat). apply H in Hat as (s1 & H1 & Hat).
  apply at_end in Hat as (c & p & kr & H2). rewrite Hw in H2. eexists (mk_st _ _ _ _ _ _ _ _ _ _ _ _). split; [|split; [reflexivity|reflexivity]].
  apply parse_reaches; [|done]. eapply reaches_trans; [exact H0|]. eapply reaches_trans; [exact H1|exact H2].
Qed.

(** What a new key at the end of the file looks like after section [sec]. *)
Definition appended (sec osec okey value : bytes) : bytes :=
  c_nl :: (if section_hit sec then [] else c_lbrack :: osec ++ [c_rbrack; c_nl]) ++ okey ++ 61 :: value.

Lemma WriteNewKeyValue_mk o osec okey sec kr i e c ln p t u m out ks :
  section_ok sec -> outputKey a = Some o -> split_name o = Some (osec, okey) ->
  WriteNewKeyValue a true (mk_st i e c ln p t (length sec) (sec ++ kr) u m out ks) =
  (L_Done 0, mk_st i e c ln p t (length sec) (sec ++ kr) true m (w out (appended sec osec okey (o_value o))) ks).
Proof.
  intros Hsec Ho Hsp. unfold WriteNewKeyValue, appended. rewrite Ho, Hsp, emit_mk, in_section_mk by done.
  destruct (section_hit sec); rewrite ?emit_mk, !w_w; cbn; rewrite <- ?app_assoc; done.
Qed.

Lemma parse_moves_new ks out text sec ln pos u m out' ks' o osec okey :
  (forall s, at_line [] 1 0 false false out ks text s -> moves s sec ln pos u m out' ks' []) ->
  wants u = true -> section_ok sec -> outputKey a = Some o -> split_name o = Some (osec, okey) ->
  exists s, ParseConfigFile a ks (Some text) out = (L_Done 0, s) /\ keys s = ks' /\
    configFileOutput s = w out' (appended sec osec okey (o_value o)).
Proof.
  intros H Hw Hsec Ho Hsp. destruct (at_start ks out text) as (s0 & H0 & Hat). apply H in Hat as (s1 & H1 & Hat).
  apply at_end in Hat as (c & p & kr & H2). rewrite Hw in H2. eexists (mk_st _ _ _ _ _ _ _ _ _ _ _ _). split; [|split; [reflexivity|reflexivity]].
  apply parse_reaches; [|done]. eapply reaches_trans; [exact H0|]. eapply reaches_trans; [exact H1|].
  eapply reaches_trans; [exact H2|]. eapply reaches_step; [|apply reaches_refl].
  cbn [step]. rewrite (WriteNewKeyValue_mk o osec okey) by done. reflexivity.
Qed.
End Lines.

(** * Reading *)
Definition reading (skip : bool) : args := mk_args None false skip.
Definition doc_ok (doc : list doc_line) : bool := forallb line_ok doc.
Definition doc_plain (doc : list doc_line) : bool := forallb line_plain doc.

Lemma doc_forallb {A} (f : A -> bool) l : forallb f l = true <-> Forall (fun x => f x = true) l.
Proof. rewrite forallb_forall, Forall_forall. by setoid_rewrite <- list_elem_of_In. Qed.

Lemma scan_settled a u doc : wants a u = false -> removeKey a = false -> forall sec, exists sec', scan a u sec doc = Some sec'.
Proof.
  intros Hw Hr. induction doc as [|l doc IH]; intros sec; cbn; [by eexists|]. rewrite Hw. unfold removes.
  rewrite Hr, andb_false_r. destruct (body l); apply IH.
Qed.

Lemma read_document skip ks doc out : doc_ok doc = true ->
  exists s, ParseConfigFile (reading skip) ks (Some (print doc)) out = (L_Done 0, s) /\
    configFileOutput s = out /\ keys s = interp [] 1 ks doc.
Proof.
  intros Hok%doc_forallb. destruct (scan_settled (reading skip) false doc eq_refl eq_refl []) as [sec Hs].
  eapply (parse_moves (reading skip) ks out _ _ _ _ _ _ out); [|reflexivity].
  intros s Hat. rewrite <- (app_nil_r (print doc)) in Hat. by eapply (doc_keep (reading skip)) in Hat; [exact Hat|done|done|left|].
Qed.

(** A config file that is the print of any list of lines (blank lines,
    comments, section headers and entries with raw or quoted and escaped values,
    each with its spaces and a comment after it) is read to its end, and every
    entry has set its key, qualified by its section, to its exact value with the
    number of its line; a later value of the same key is ignored. *)
Theorem config_document_read skip ks doc : doc_ok doc = true ->
  exists s, ParseConfigFile (reading skip) ks (Some (print doc)) [] = (L_Done 0, s) /\
    keys s = interp [] 1 ks doc.
Proof. intros H. destruct (read_document skip ks doc [] H) as (s & H1 & _ & H2). by exists s. Qed.

Definition sample_entry (name : string) (quoted : bool) (v : string) (c : option bytes) : entry :=
  mk_entry (str name) [c_space] [c_space] quoted (str v) [c_space] c.
Definition sample_doc : list doc_line :=
  [mk_line [] (I_comment (str " settings"));
   mk_line [] (I_section (str "wsl2") [c_space] (Some (str "all of them")));
   mk_line [c_tab] (I_entry (sample_entry "memory" false "4GB" (Some (str "enough"))));
   mk_line [] I_blank;
   mk_line [] (I_entry (sample_entry "swap" true "a\b c " None));
   mk_line [] (I_entry (sample_entry "swap" false "2" None))].
Definition sample_keys : list ConfigKey :=
  [mk_key [str "wsl2.memory"] None []; mk_key [str "wsl2.swap"] None []].

Lemma config_document_read_witness :
  doc_ok sample_doc = true /\
  map m_values (interp [] 1 sample_keys sample_doc) = [[str "4GB"]; [str "a\b c "]] /\
  exists s, ParseConfigFile (reading false) sample_keys (Some (print sample_doc)) [] = (L_Done 0, s) /\
    keys s = interp [] 1 sample_keys sample_doc.
Proof.
  split; [vm_compute; reflexivity|]. split; [vm_compute; reflexivity|].
  apply config_document_read. vm_compute; reflexivity.
Defined.

(** Whatever the file holds, the parser stops: its loop of labelled blocks
    ends with a result (0, or -1 at an invalid line) or at one of the checks of the
    name of the key to write, after at most six blocks for a character. *)
Theorem config_parse_terminates a ks file out :
  stopped (fst (ParseConfigFile a ks file out)) = true.
Proof.
  destruct file as [text|]; cbn [ParseConfigFile].
  - apply run_stops. unfold rank. cbn. lia.
  - destruct (wants_new a (start ks out [])); [|done]. unfold WriteNewKeyValue.
    destruct (outputKey a) as [o|]; [|done]. by destruct (split_name o) as [[? ?]|].
Qed.

Import ConfigFile.

Definition writing (o : OutputKey) (skip : bool) : args := mk_args (Some o) false skip.
Definition removing (o : OutputKey) (skip : bool) : args := mk_args (Some o) true skip.

Lemma print_app d d' : print (d ++ d') = print d ++ print d'.
Proof. apply flat_map_app. Qed.

Lemma doc_ok_app d d' : doc_ok (d ++ d') = doc_ok d && doc_ok d'.
Proof. apply forallb_app. Qed.
Lemma doc_plain_app d d' : doc_plain (d ++ d') = doc_plain d && doc_plain d'.
Proof. apply forallb_app. Qed.

(** The section that the lines of the document end in. *)
Fixpoint last_section (sec : bytes) (doc : list doc_line) : bytes :=
  match doc with
  | [] => sec
  | l :: doc' => last_section (match body l with I_section n _ _ => n | _ => sec end) doc'
  end.

Lemma scan_last a u doc : forall sec sec', scan a u sec doc = Some sec' -> sec' = last_section sec doc.
Proof.
  induction doc as [|l doc IH]; intros sec sec'; cbn; [by intros [= <-]|].
  destruct (body l); try apply IH; [destruct (_ && _)|destruct (_ || _)]; try done; apply IH.
Qed.

Lemma interp_app d : forall sec ln ks d', interp sec ln ks (d ++ d') =
  interp (last_section sec d) (ln + Z.of_nat (length d)) (interp sec ln ks d) d'.
Proof.
  induction d as [|l d IH]; intros sec ln ks d'; cbn [app interp last_section length]; [by rewrite Z.add_0_r|].
  replace (ln + Z.of_nat (S (length d))) with (ln + 1 + Z.of_nat (length d)) by lia.
  destruct (body l); apply IH.
Qed.

(** * The value of a key is replaced *)

(** No line of [pre] has the key, and none of its sections that ends in it is
    taken for the section of the key; [Some] is the section at its end. *)
Definition before_key (o : OutputKey) (pre : list doc_line) : option bytes := scan (writing o false) false [] pre.
Lemma scan_skip_flag o skip u sec pre : scan (writing o skip) u sec pre = scan (writing o false) u sec pre.
Proof. revert sec. induction pre as [|l pre IH]; intros sec; [done|]. cbn -[Nat.ltb]. by destruct (body l); rewrite !IH. Qed.

Lemma replace_document o skip ks pre sp e post sec :
  doc_ok (pre ++ mk_line sp (I_entry e) :: post) = true -> doc_plain (pre ++ post) = true ->
  before_key o pre = Some sec -> Matches (o_names o) (qualified sec (e_name e)) = true ->
  exists s, ParseConfigFile (writing o skip) ks (Some (print (pre ++ mk_line sp (I_entry e) :: post))) [] = (L_Done 0, s) /\
    configFileOutput s = print pre ++ (sp ++ print_entry_with e (o_value o) ++ [c_nl]) ++ print post /\
    keys s = interp [] 1 ks (pre ++ mk_line [] I_blank :: post).
Proof.
  intros Hok Hplain Hscan Hm. unfold before_key in Hscan. rewrite <- (scan_skip_flag o skip) in Hscan.
  set (a := writing o skip) in *. rewrite doc_ok_app in Hok. rewrite doc_plain_app in Hplain.
  apply andb_true_iff in Hok as [Hpre Hok], Hplain as [Hppre Hppost]. cbn [doc_ok forallb] in Hok.
  apply andb_true_iff in Hok as [Hl Hpost]. unfold line_ok in Hl. cbn [lead body] in Hl. apply andb_true_iff in Hl as [Hsp Hit].
  apply doc_forallb in Hpre, Hpost, Hppre, Hppost.
  destruct (scan_settled a true post eq_refl eq_refl sec) as [sec' Hscan'].
  eapply (parse_moves a ks [] _ _ _ _ true); [|reflexivity].
  intros s Hat. rewrite print_app in Hat. apply (doc_keep a) with (sec' := sec) in Hat as (s1 & Hr1 & Hat); try done; [|by left].
  change (print (mk_line sp (I_entry e) :: post)) with
    ((sp ++ print_item (I_entry e) ++ [c_nl]) ++ print post) in Hat. rewrite <- !app_assoc in Hat.
  assert (section_ok sec) as Hsec by (eapply (scan_section_ok a false pre); [done|by left|done]).
  eapply (entry_line_replace a _ _ _ _ _ _ _ _ _ _ _ o) in Hat as (s2 & Hr2 & Hat); [|done|done|done|done|done|exact Hm].
  eapply reaches_moves; [exact Hr1|]. eapply reaches_moves; [exact Hr2|].
  rewrite <- (app_nil_r (print post)) in Hat.
  apply (doc_keep a) with (sec' := sec') in Hat; [|done|done|done|done].
  rewrite !w_w in Hat. rewrite interp_app, <- (scan_last _ _ _ _ _ Hscan). cbn [interp body].
  unfold w in Hat. cbn [updateConfigFile a writing outputKey app] in Hat. rewrite <- !app_assoc. rewrite <- !app_assoc in Hat. exact Hat.
Qed.

(** * A new key *)
Lemma append_document o skip ks doc sec osec okey :
  doc_ok doc = true -> doc_plain doc = true -> before_key o doc = Some sec ->
  split_name o = Some (osec, okey) ->
  exists s, ParseConfigFile (writing o skip) ks (Some (print doc)) [] = (L_Done 0, s) /\
    keys s = interp [] 1 ks doc /\
    configFileOutput s = print doc ++ appended (writing o skip) sec osec okey (o_value o).
Proof.
  intros Hok%doc_forallb Hplain%doc_forallb Hscan Hsp. unfold before_key in Hscan.
  rewrite <- (scan_skip_flag o skip) in Hscan. set (a := writing o skip) in *.
  eapply (parse_moves_new a ks [] _ sec _ _ false _ (print doc)); [|reflexivity| |reflexivity|exact Hsp].
  - intros s Hat. rewrite <- (app_nil_r (print doc)) in Hat. by apply (doc_keep a) with (sec' := sec) in Hat; try done; left.
  - eapply (scan_section_ok a false doc); [done|by left|done].
Qed.

Lemma doc_pos_quiet a mid : forall pos out, forallb (fun l => negb (touches l)) mid = true -> doc_pos a pos out mid = pos.
Proof.
  induction mid as [|l mid IH]; intros pos out; [done|]. cbn [forallb doc_pos]. rewrite andb_true_iff, negb_true_iff.
  intros [-> H]. by apply IH.
Qed.

Lemma doc_pos_last o skip pre it mid : forall pos out, touches it = true -> forallb (fun l => negb (touches l)) mid = true ->
  doc_pos (writing o skip) pos out (pre ++ it :: mid) = (length (out ++ print pre ++ print_line it) - 1)%nat.
Proof.
  induction pre as [|l pre IH]; intros pos out Hit Hmid; cbn [app doc_pos].
  - by rewrite Hit, doc_pos_quiet.
  - rewrite IH by done. unfold w. cbn [updateConfigFile writing outputKey]. change (print (l :: pre)) with (print_line l ++ print pre). by rewrite <- !app_assoc.
Qed.

Lemma insert_new_mk o skip sec kr i e c ln p t m out ks osec okey :
  section_ok sec -> section_hit (writing o skip) sec = true -> split_name o = Some (osec, okey) ->
  insert_new (writing o skip) (mk_st i e c ln p t (length sec) (sec ++ kr) false m out ks) =
  Some (mk_st i e c ln p t (length sec) (sec ++ kr) true m
    (take p out ++ (c_nl :: okey ++ 61 :: o_value o) ++ drop p out) ks).
Proof.
  intros Hs Hh Hsp. unfold insert_new. rewrite in_section_mk, Hh by done. cbn. by rewrite Hsp.
Qed.

(** The line of a new key. *)
Definition new_line (okey value : bytes) : bytes := okey ++ 61 :: value ++ [c_nl].

Lemma insert_text pre it mid sp n trail c post t new okey v : print_line it = t ++ [c_nl] ->
  new = c_nl :: okey ++ 61 :: v ->
  let out := (print pre ++ print_line it ++ print mid) ++ sp in
  let p := (length (print pre ++ print_line it) - 1)%nat in
  ((take p out ++ new ++ drop p out) ++ c_lbrack :: n ++ c_rbrack :: trail ++ line_tail false c) ++ print post =
  print (pre ++ [it]) ++ new_line okey v ++ print (mid ++ mk_line sp (I_section n trail c) :: post).
Proof.
  intros Ht ->. cbv zeta. rewrite Ht.
  assert (length (print pre ++ t ++ [c_nl]) - 1 = length (print pre ++ t))%nat as -> by (rewrite !length_app; cbn; lia).
  replace ((print pre ++ (t ++ [c_nl]) ++ print mid) ++ sp) with ((print pre ++ t) ++ c_nl :: print mid ++ sp)
    by (by repeat (rewrite <- ?app_assoc; cbn [app])).
  rewrite take_app_length, drop_app_length, !print_app. unfold new_line.
  change (print [it]) with (print_line it ++ []).
  change (print (mk_line sp (I_section n trail c) :: post)) with
    ((sp ++ print_item (I_section n trail c) ++ [c_nl]) ++ print post). rewrite Ht.
  unfold line_tail. rewrite andb_false_r. cbn [print_item].
  by repeat (rewrite <- ?app_assoc; cbn [app]).
Qed.

Lemma insert_document o skip ks pre it mid sp n trail c post sec osec okey :
  let doc1 := pre ++ it :: mid in
  let doc2 := mk_line sp (I_section n trail c) :: post in
  doc_ok (doc1 ++ doc2) = true -> doc_plain (doc1 ++ doc2) = true -> before_key o doc1 = Some sec ->
  section_hit (writing o skip) sec = true -> split_name o = Some (osec, okey) ->
  touches it = true -> forallb (fun l => negb (touches l)) mid = true ->
  exists s, ParseConfigFile (writing o skip) ks (Some (print (doc1 ++ doc2))) [] = (L_Done 0, s) /\
    configFileOutput s = print (pre ++ [it]) ++ new_line okey (o_value o) ++ print (mid ++ doc2) /\
    keys s = interp [] 1 ks (doc1 ++ doc2).
Proof.
  cbv zeta. set (doc1 := pre ++ it :: mid). intros Hok Hplain Hscan Hhit Hsplit Hit Hmid.
  unfold before_key in Hscan. rewrite <- (scan_skip_flag o skip) in Hscan. set (a := writing o skip) in *.
  rewrite doc_ok_app in Hok. rewrite doc_plain_app in Hplain. cbn [doc_ok doc_plain forallb] in Hok, Hplain.
  rewrite !andb_true_iff in Hok, Hplain. destruct Hok as [Hok1 [Hl Hok2]], Hplain as [Hp1 [_ Hp2]].
  unfold line_ok in Hl. cbn [lead body] in Hl. apply andb_true_iff in Hl as [Hsp Hn].
  apply doc_forallb in Hok1, Hok2, Hp1, Hp2.
  destruct (scan_settled a true post eq_refl eq_refl n) as [sec' Hscan'].
  eapply (parse_moves a ks [] _ _ _ _ true); [|reflexivity].
  intros s Hat. rewrite print_app in Hat. apply (doc_keep a) with (sec' := sec) in Hat as (s1 & Hr1 & Hat); try done; [|by left].
  assert (section_ok sec) as Hsec by (eapply (scan_section_ok a false doc1); [done|by left|done]).
  change (print (mk_line sp (I_section n trail c) :: post)) with
    ((sp ++ print_item (I_section n trail c) ++ [c_nl]) ++ print post) in Hat.
  cbn [print_item] in Hat. repeat (rewrite <- ?app_assoc in Hat; cbn [app] in Hat).
  assert (exists t, print_line it = t ++ [c_nl]) as [t Ht]
    by (exists (lead it ++ print_item (body it)); unfold print_line; by rewrite app_assoc).
  eapply (config_section_line a) in Hat as (s2 & Hr2 & Hat); [|exact Hn|done|].
  2: { intros p kr i Hp. rewrite (insert_new_mk o skip _ _ _ _ _ _ _ _ _ _ _ osec okey) by done.
       rewrite Hp by done. unfold a, doc1. rewrite doc_pos_last by done. reflexivity. }
  eapply reaches_moves; [exact Hr1|]. eapply reaches_moves; [exact Hr2|].
  rewrite <- (app_nil_r (print post)) in Hat.
  apply (doc_keep a) with (sec' := sec') in Hat; [|done|done|right; cbn in Hn; by bool_to_prop|done].
  rewrite interp_app, <- (scan_last _ _ _ _ _ Hscan). cbn [interp body].
  rewrite print_app in Hat. change (print (it :: mid)) with (print_line it ++ print mid) in Hat.
  unfold w in Hat. cbn [updateConfigFile a writing outputKey app] in Hat.
  rewrite <- (insert_text _ _ _ _ _ _ _ _ _ _ _ _ Ht eq_refl). exact Hat.
Qed.

(** * A key is removed *)
Fixpoint remove_doc (o : OutputKey) (sec : bytes) (doc : list doc_line) : list doc_line :=
  match doc with
  | [] => []
  | l :: doc' =>
    match body l with
    | I_section n _ _ => l :: remove_doc o n doc'
    | I_entry e =>
      if Matches (o_names o) (qualified sec (e_name e)) then
        match e_comment e with Some t => [mk_line [] (I_comment t)] | None => [] end ++ remove_doc o sec doc'
      else l :: remove_doc o sec doc'
    | _ => l :: remove_doc o sec doc'
    end
  end.

Lemma ends_with_nl l : exists t, print_line l = t ++ [c_nl].
Proof. exists (lead l ++ print_item (body l)). unfold print_line. by rewrite app_assoc. Qed.

Lemma remove_hit o skip k : removes (removing o skip) k = Matches (o_names o) k.
Proof. done. Qed.

Lemma scan_removing o skip sec l :
  match body l with I_entry e => Matches (o_names o) (qualified sec (e_name e)) = false | _ => True end ->
  scan (removing o skip) false sec [l] = Some (last_section sec [l]).
Proof. cbn. destruct (body l); try done. intros H. unfold removes, output_hit. cbn. by rewrite H. Qed.

Section Remove.
Context (o : OutputKey) (skip : bool).

(** Lines that are read with the key already set or not: only the text counts. *)
Lemma remove_lines doc : forall s sec ln pos m o1 ks,
  doc_ok doc = true -> doc_plain doc = true -> forallb (fun l => negb (section_comment l)) doc = true ->
  section_ok sec -> at_line (removing o skip) sec ln pos false m (o1 ++ [c_nl]) ks (print doc) s ->
  exists sec' ln' pos' m' ks',
    moves (removing o skip) s sec' ln' pos' false m' ((o1 ++ [c_nl]) ++ print (remove_doc o sec doc)) ks' [].
Proof.
  induction doc as [|l doc IH]; intros s sec ln pos m o1 ks Hok Hplain Hsc Hsec Hat.
  { eexists _, _, _, _, _. exists s. split; [apply reaches_refl|]. cbn. by rewrite app_nil_r. }
  cbn [doc_ok doc_plain forallb] in Hok, Hplain, Hsc. rewrite !andb_true_iff in Hok, Hplain, Hsc.
  destruct Hok as [Hl Hok], Hplain as [Hp Hplain], Hsc as [Hsl Hsc]. apply negb_true_iff in Hsl.
  change (print (l :: doc)) with (print_line l ++ print doc) in Hat.
  assert (Hkeep : scan (removing o skip) false sec [l] = Some (last_section sec [l]) ->
    exists sec' ln' pos' m' ks', moves (removing o skip) s sec' ln' pos' false m'
      ((o1 ++ [c_nl]) ++ print (l :: remove_doc o (last_section sec [l]) doc)) ks' []).
  { intros Hscan. apply (line_keep _ _ _ (last_section sec [l])) in Hat as (s1 & Hr & Hat); try done;
      [|by rewrite Hsl, andb_false_r]. destruct (ends_with_nl l) as [t Ht].
    unfold w in Hat. cbn [updateConfigFile removing outputKey] in Hat. rewrite Ht, app_assoc in Hat.
    apply IH in Hat as (? & ? & ? & ? & ? & Hm); try done;
      [|by eapply (scan_section_ok (removing o skip) false [l]); eauto].
    eexists _, _, _, _, _. eapply reaches_moves; [exact Hr|].
    change (print (l :: ?d)) with (print_line l ++ print d). rewrite Ht, !app_assoc. exact Hm. }
  pose proof (scan_removing o skip sec l) as Hscan. cbn [remove_doc].
  destruct l as [sp it]. cbn [body] in *. destruct it as [|t|n trail c|e]; try (by apply Hkeep, Hscan).
  destruct (Matches (o_names o) (qualified sec (e_name e))) eqn:Hm; [|by apply Hkeep, Hscan].
  clear Hkeep Hscan. unfold line_ok in Hl. cbn [lead body] in Hl. apply andb_true_iff in Hl as [Hsp Hit].
  unfold print_line in Hat. cbn [lead body] in Hat. rewrite <- !app_assoc in Hat. cbn [app] in Hat.
  apply entry_line_remove in Hat as (pos' & s1 & Hr & Hat); try done.
  assert (exists o2, (o1 ++ [c_nl]) ++ removed_text (e_comment e) = o2 ++ [c_nl] /\
    removed_text (e_comment e) = print (match e_comment e with Some t => [mk_line [] (I_comment t)] | None => [] end)) as (o2 & Ho & Ht).
  { destruct (e_comment e) as [t|]; cbn; [|exists o1; by rewrite app_nil_r].
    exists (o1 ++ c_nl :: c_hash :: t). rewrite app_nil_r. split; by repeat (rewrite <- ?app_assoc; cbn [app]). }
  rewrite Ho in Hat. apply IH in Hat as (? & ? & ? & ? & ? & Hmv); try done.
  eexists _, _, _, _, _. eapply reaches_moves; [exact Hr|]. rewrite print_app, <- Ht, (app_assoc (o1 ++ [c_nl])), Ho. exact Hmv.
Qed.
End Remove.

(** * Reading the key back *)
Lemma interp_absent o doc : forall u sec sec' ln pr vs, wants (writing o false) u = true ->
  scan (writing o false) u sec doc = Some sec' ->
  interp sec ln [mk_key (o_names o) pr vs] doc = [mk_key (o_names o) pr vs].
Proof.
  induction doc as [|l doc IH]; intros u sec sec' ln pr vs Hu; [done|]. cbn [scan interp]. rewrite Hu.
  destruct (body l); try (by apply IH).
  - destruct (_ && _); [done|]. by apply IH.
  - unfold output_hit. cbn [writing outputKey andb].
    destruct (Matches (o_names o) (qualified sec (e_name e))) eqn:E; [done|].
    destruct (removes _ _); [done|]. cbn [orb SetConfig m_names]. rewrite E. by apply IH.
Qed.

Lemma interp_settled doc : forall sec ln ns r vs,
  interp sec ln [mk_key ns (Some r) vs] doc = [mk_key ns (Some r) vs].
Proof.
  induction doc as [|l doc IH]; intros sec ln ns r vs; [done|]. cbn [interp].
  destruct (body l); try apply IH. cbn [SetConfig m_names].
  destruct (Matches ns _); apply IH.
Qed.

(** The entry with another value. *)
Definition with_value (e : entry) (quoted : bool) (v : bytes) : entry :=
  mk_entry (e_name e) (e_before e) (e_after e) quoted v (e_trail e) (e_comment e).

(** Setting a key of a config file: in a file that is the print of lines the
    first entry of the key gets the new value, and every other character of the
    file stays as it is: the spaces and the comment after the old value, the other
    lines, and later entries of the same key.  The keys that the file sets are read
    on the way, except for the one that is replaced. *)
Theorem config_update_replaces o skip ks pre sp e post sec :
  doc_ok (pre ++ mk_line sp (I_entry e) :: post) = true -> doc_plain (pre ++ post) = true ->
  before_key o pre = Some sec -> Matches (o_names o) (qualified sec (e_name e)) = true ->
  exists s, ParseConfigFile (writing o skip) ks (Some (print (pre ++ mk_line sp (I_entry e) :: post))) [] = (L_Done 0, s) /\
    configFileOutput s = print pre ++ (sp ++ print_entry_with e (o_value o) ++ [c_nl]) ++ print post /\
    keys s = interp [] 1 ks (pre ++ mk_line [] I_blank :: post).
Proof. apply replace_document. Qed.


(** A key that the file does not have, when its section is not the last one:
    the line key=value is put after the last entry of the section (or its header,
    when that has a comment after it), and every other character of the file
    stays as it is. *)
Theorem config_new_key_inserted o skip ks pre it mid sp n trail c post sec osec okey :
  let doc1 := pre ++ it :: mid in
  let doc2 := mk_line sp (I_section n trail c) :: post in
  doc_ok (doc1 ++ doc2) = true -> doc_plain (doc1 ++ doc2) = true -> before_key o doc1 = Some sec ->
  section_hit (writing o skip) sec = true -> split_name o = Some (osec, okey) ->
  touches it = true -> forallb (fun l => negb (touches l)) mid = true ->
  exists s, ParseConfigFile (writing o skip) ks (Some (print (doc1 ++ doc2))) [] = (L_Done 0, s) /\
    configFileOutput s = print (pre ++ [it]) ++ new_line okey (o_value o) ++ print (mid ++ doc2) /\
    keys s = interp [] 1 ks (doc1 ++ doc2).
Proof. apply insert_document. Qed.

(** A key that the file does not have, at the end of the file: the file is
    followed by an empty line, the header of the section unless the file ends in
    it, and key=value. *)
Theorem config_new_key_appended o skip ks doc sec osec okey :
  doc_ok doc = true -> doc_plain doc = true -> before_key o doc = Some sec ->
  split_name o = Some (osec, okey) ->
  exists s, ParseConfigFile (writing o skip) ks (Some (print doc)) [] = (L_Done 0, s) /\
    keys s = interp [] 1 ks doc /\
    configFileOutput s = print doc ++ appended (writing o skip) sec osec okey (o_value o).
Proof. apply append_document. Qed.

(** Removing a key removes every entry of it and nothing else: of an entry with
    a comment after it the comment stays, on a line of its own. *)
Theorem config_key_removed o skip ks l doc :
  doc_ok (l :: doc) = true -> doc_plain (l :: doc) = true ->
  forallb (fun l => negb (section_comment l)) doc = true -> remove_doc o [] [l] = [l] ->
  exists s, ParseConfigFile (removing o skip) ks (Some (print (l :: doc))) [] = (L_Done 0, s) /\
    configFileOutput s = print (remove_doc o [] (l :: doc)).
Proof.
  intros Hok Hplain Hsc Hl. cbn [doc_ok doc_plain forallb] in Hok, Hplain. rewrite !andb_true_iff in Hok, Hplain.
  destruct Hok as [Hok0 Hok], Hplain as [Hp0 Hplain].
  assert (Hno : match body l with I_entry e => Matches (o_names o) (qualified [] (e_name e)) = false | _ => True end).
  { cbn in Hl. destruct l as [sp it]. cbn [body] in *. destruct it; try done.
    destruct (Matches _ _); [|done]. by destruct (e_comment e). }
  pose proof (scan_removing o skip [] l Hno) as Hscan.
  assert (remove_doc o [] (l :: doc) = l :: remove_doc o (last_section [] [l]) doc) as ->.
  { cbn [remove_doc last_section]. destruct (body l); try done. by rewrite Hno. }
  destruct (at_start (removing o skip) ks [] (print (l :: doc))) as (s0 & H0 & Hat).
  change (print (l :: doc)) with (print_line l ++ print doc) in Hat.
  apply (line_keep _ _ _ (last_section [] [l])) in Hat as (s1 & Hr & Hat); try done; [|by left].
  destruct (ends_with_nl l) as [t Ht]. unfold w in Hat. cbn [updateConfigFile removing outputKey] in Hat.
  rewrite Ht, app_assoc in Hat. apply remove_lines in Hat as (sec' & ln' & pos' & m' & ks' & s2 & Hr2 & Hat); try done;
    [|eapply (scan_section_ok (removing o skip) false [l]); [by constructor|by left|done]].
  apply at_end in Hat as (c & p & kr & Hend). eexists (mk_st _ _ _ _ _ _ _ _ _ _ _ _). split.
  - apply parse_reaches; [|done]. eapply reaches_trans; [exact H0|]. eapply reaches_trans; [exact Hr|].
    eapply reaches_trans; [exact Hr2|exact Hend].
  - cbn [configFileOutput]. change (print (l :: ?d)) with (print_line l ++ print d). by rewrite Ht, <- !app_assoc.
Qed.

(** * Concrete files *)
Definition swap_key : OutputKey := mk_output [str "wsl2.swap"] (str "8GB").
Definition new_key : OutputKey := mk_output [str "wsl2.foo"] (str "1").
Definition sample_pre : list doc_line := take 4 sample_doc.
Definition sample_swap : entry := sample_entry "swap" false "4" (Some (str "old")).
Definition sample_post : list doc_line := drop 5 sample_doc.
Definition sample_net : list doc_line := [mk_line [] (I_section (str "net") [] None); mk_line [] I_blank].

Lemma config_update_replaces_witness :
  exists s, ParseConfigFile (writing swap_key true) sample_keys
      (Some (print (sample_pre ++ mk_line [] (I_entry sample_swap) :: sample_post))) [] = (L_Done 0, s) /\
    configFileOutput s = print sample_pre ++ ([] ++ print_entry_with sample_swap (str "8GB") ++ [c_nl]) ++ print sample_post /\
    keys s = interp [] 1 sample_keys (sample_pre ++ mk_line [] I_blank :: sample_post).
Proof. apply (config_update_replaces swap_key true sample_keys sample_pre [] sample_swap sample_post (str "wsl2")); reflexivity. Defined.


Lemma config_new_key_inserted_witness :
  exists s, ParseConfigFile (writing new_key true) sample_keys (Some (print (sample_doc ++ sample_net))) [] = (L_Done 0, s) /\
    configFileOutput s = print sample_doc ++ str "foo=1" ++ [c_nl] ++ print sample_net /\
    keys s = interp [] 1 sample_keys (sample_doc ++ sample_net).
Proof.
  apply (config_new_key_inserted new_key true sample_keys (take 5 sample_doc)
    (mk_line [] (I_entry (sample_entry "swap" false "2" None))) [] [] (str "net") [] None [mk_line [] I_blank]
    (str "wsl2") (str "wsl2") (str "foo")); reflexivity.
Defined.

Lemma config_new_key_appended_witness :
  exists s, ParseConfigFile (writing new_key true) sample_keys (Some (print sample_net)) [] = (L_Done 0, s) /\
    keys s = interp [] 1 sample_keys sample_net /\
    configFileOutput s = print sample_net ++ c_nl :: str "[wsl2]" ++ c_nl :: str "foo=1".
Proof.
  apply (config_new_key_appended new_key true sample_keys sample_net (str "net") (str "wsl2") (str "foo")); reflexivity.
Defined.

Lemma config_key_removed_witness :
  exists s, ParseConfigFile (removing swap_key true) sample_keys (Some (print (drop 1 sample_doc))) [] = (L_Done 0, s) /\
    configFileOutput s = print (take 3 (drop 1 sample_doc)).
Proof.
  apply (config_key_removed swap_key true sample_keys
    (mk_line [] (I_section (str "wsl2") [c_space] (Some (str "all of them")))) (drop 2 sample_doc)); reflexivity.
Defined.

(** What an update makes of a file. *)
Definition output_of (a : args) (file : bytes) : bytes := configFileOutput (snd (ParseConfigFile a sample_keys (Some file) [])).
Definition lines (l : list bytes) : bytes := flat_map (fun t => t ++ [c_nl]) l.

(** The section of the key is compared over the length of the section in the file:
    a new key of [wsl2] is put into [wsl]. *)
Example new_key_in_prefix_section :
  output_of (writing new_key true) (lines [str "[wsl]"; str "a = 1"; str "[net]"]) =
  lines [str "[wsl]"; str "a = 1"; str "foo=1"; str "[net]"].
Proof. vm_compute. reflexivity. Qed.

(** In a section without entries the new key is put at the start of the file,
    before what is there. *)
Example new_key_before_the_file :
  output_of (writing new_key true) (lines [str "# c"; str "[wsl2]"; str "[net]"]) =
  c_nl :: str "foo=1" ++ lines [str "# c"; str "[wsl2]"; str "[net]"].
Proof. vm_compute. reflexivity. Qed.

(** A hash inside the quotes of another key's value is not written back. *)
Example quoted_hash_is_lost :
  output_of (writing new_key true) (lines [str "[wsl2]"; str "a = " ++ [34; 35; 34]]) =
  lines [str "[wsl2]"; str "a = " ++ [34; 34]] ++ c_nl :: str "foo=1".
Proof. vm_compute. reflexivity. Qed.

(** A line without = in update mode takes the next one with it: the key there is
    not found, and is written once more. *)
Example invalid_line_takes_the_next :
  output_of (writing swap_key true) (lines [str "[wsl2]"; str "abc"; str "swap = 1"]) =
  lines [str "[wsl2]"; str "abc"; str "swap = 1"] ++ c_nl :: str "swap=8GB".
Proof. vm_compute. reflexivity. Qed.

(** An open quote in the value to be replaced: the value is dropped, the key is
    written without one and once more at the end. *)
Example open_quote_is_not_replaced :
  output_of (writing swap_key true) (lines [str "[wsl2]"; str "swap = " ++ [34; 49]]) =
  lines [str "[wsl2]"; str "swap = "] ++ c_nl :: str "swap=8GB".
Proof. vm_compute. reflexivity. Qed.

(** After a key was removed the comment of the next section is put on a line of
    its own. *)
Example section_comment_is_moved :
  output_of (removing swap_key true) (lines [str "[wsl2]"; str "swap = 1"; str "[net] # c"]) =
  lines [str "[wsl2]"; str "[net] "; str "# c"].
Proof. vm_compute. reflexivity. Qed.
