(* ===== verification/DistroConfig.v ===== *)
(** The configuration of a distribution (src/src/linux/init/WslDistributionConfig.cpp): the
    keys of wsl.conf, their defaults, the prefix of the mounts of Windows drives, and the
    safe mode; with the theorems on it. *)
From S2P Require Import Prelude CStr CNum ConfigFile ConfigDocThm.

Module DistroConfig.
Import ConfigFile.

Definition TRACE_LEVEL_INFORMATION : Z := 4.
(** The settings; the state of the boot and what the host sends are left out. *)
Record WslDistributionConfig : Type := mk_config {
  AutoMount : bool; AutoUpdateTimezone : bool; BootCommand : option bytes; BootInit : bool; BootInitTimeout : Z;
  BootProtectBinfmt : bool; DefaultUser : option bytes; DrvFsPrefix : bytes; DrvFsOptions : option bytes;
  InteropAppendWindowsPath : bool; InteropEnabled : bool; MountFsTab : bool; GenerateHosts : bool; GenerateResolvConf : bool;
  HostName : option bytes; Plan9Enabled : bool; Plan9LogFile : option bytes; Plan9LogLevel : Z; Plan9LogTruncate : bool;
  Umask : Z; AppendGpuLibPath : bool; GpuEnabled : bool; LinkOsLibs : bool; GuiAppsEnabled : bool
}.
#[export] Instance config_eta : Eta WslDistributionConfig := fun c =>
  mk_config (AutoMount c) (AutoUpdateTimezone c) (BootCommand c) (BootInit c) (BootInitTimeout c) (BootProtectBinfmt c) (DefaultUser c)
    (DrvFsPrefix c) (DrvFsOptions c) (InteropAppendWindowsPath c) (InteropEnabled c) (MountFsTab c) (GenerateHosts c) (GenerateResolvConf c)
    (HostName c) (Plan9Enabled c) (Plan9LogFile c) (Plan9LogLevel c) (Plan9LogTruncate c) (Umask c) (AppendGpuLibPath c) (GpuEnabled c)
    (LinkOsLibs c) (GuiAppsEnabled c).
Definition defaults : WslDistributionConfig :=
  mk_config true true None false 10000 true None (str "/mnt") None true true true true true None true None TRACE_LEVEL_INFORMATION true 18
    true true true false.

(** * The keys *)

(** What a value does to its setting: nothing when it is not valid. *)
Abbreviation config := WslDistributionConfig.
Definition set_bool (set : bool -> config -> config) (value : bytes) (c : config) : config := match ParseBool value with Some b => set b c | None => c end.
Definition set_int (set : Z -> config -> config) (value : bytes) (c : config) : config := match ParseInt value with Some n => set n c | None => c end.
Definition set_string (set : option bytes -> config -> config) (value : bytes) : config -> config := set (Some value).
Definition config_keys : list (bytes * (bytes -> config -> config)) :=
  [(str "automount.enabled", set_bool (fun b c => c <| AutoMount := b |>));
   (str "automount.root", fun v c => c <| DrvFsPrefix := v |>);
   (str "automount.options", set_string (fun o c => c <| DrvFsOptions := o |>));
   (str "automount.mountFsTab", set_bool (fun b c => c <| MountFsTab := b |>));
   (str "automount.ldconfig", set_bool (fun b c => c <| LinkOsLibs := b |>));
   (str "filesystem.umask", set_int (fun n c => c <| Umask := n |>));
   (str "interop.appendWindowsPath", set_bool (fun b c => c <| InteropAppendWindowsPath := b |>));
   (str "interop.enabled", set_bool (fun b c => c <| InteropEnabled := b |>));
   (str "network.generateHosts", set_bool (fun b c => c <| GenerateHosts := b |>));
   (str "network.generateResolvConf", set_bool (fun b c => c <| GenerateResolvConf := b |>));
   (str "network.hostname", set_string (fun o c => c <| HostName := o |>));
   (str "time.useWindowsTimezone", set_bool (fun b c => c <| AutoUpdateTimezone := b |>));
   (str "fileServer.enabled", set_bool (fun b c => c <| Plan9Enabled := b |>));
   (str "fileServer.logFile", set_string (fun o c => c <| Plan9LogFile := o |>));
   (str "fileServer.logLevel", set_int (fun n c => c <| Plan9LogLevel := n |>));
   (str "fileServer.logTruncate", set_bool (fun b c => c <| Plan9LogTruncate := b |>));
   (str "gpu.enabled", set_bool (fun b c => c <| GpuEnabled := b |>));
   (str "gpu.appendLibPath", set_bool (fun b c => c <| AppendGpuLibPath := b |>));
   (str "user.default", set_string (fun o c => c <| DefaultUser := o |>));
   (str "boot.command", set_string (fun o c => c <| BootCommand := o |>));
   (str "boot.systemd", set_bool (fun b c => c <| BootInit := b |>));
   (str "boot.initTimeout", set_int (fun n c => c <| BootInitTimeout := n |>));
   (str "boot.protectBinfmt", set_bool (fun b c => c <| BootProtectBinfmt := b |>));
   (str "general.guiApplications", set_bool (fun b c => c <| GuiAppsEnabled := b |>))].
Definition keys_of : list ConfigKey := map (fun k => mk_key [fst k] None []) config_keys.
(** Every key has a setting of its own, so the order in which they are set is not seen. *)
Definition set_values (set : bytes -> config -> config) (k : ConfigKey) (c : config) : config := fold_left (fun c v => set v c) (m_values k) c.
Definition set_keys (ks : list ConfigKey) (c : config) : config :=
  fold_left (fun c k => set_values (snd (fst k)) (snd k) c) (combine config_keys ks) c.

(** * The constructor *)

(** The machine, access of INIT_PATH and the variable of the safe mode. *)
Record environment : Type := mk_environment { UtilIsUtilityVm : bool; init_executable : bool; safe_mode : option bytes }.
Definition end_prefix (c : config) : config :=
  match rev (DrvFsPrefix c) with
  | b :: _ => if b =? c_slash then c else c <| DrvFsPrefix := DrvFsPrefix c ++ [c_slash] |>
  | [] => c <| DrvFsPrefix := [c_slash] |>
  end.
Definition check_init (e : environment) (c : config) : config :=
  let c := c <| BootInit := BootInit c && UtilIsUtilityVm e |> in
  if BootInit c && negb (init_executable e) then c <| BootInit := false |> else c.
Definition in_safe_mode (e : environment) : bool := match safe_mode e with Some v => strcmp_eq v (str "1") | None => false end.
Definition apply_safe_mode (c : config) : config :=
  c <| AutoMount := false |> <| LinkOsLibs := false |> <| MountFsTab := false |> <| BootInit := false |> <| GenerateHosts := false |>
    <| GenerateResolvConf := false |> <| Plan9Enabled := false |> <| AppendGpuLibPath := false |> <| GpuEnabled := false |>
    <| InteropAppendWindowsPath := false |> <| InteropEnabled := false |> <| AutoUpdateTimezone := false |> <| BootCommand := None |>.
Definition parsed_keys (file : option bytes) : list ConfigKey := keys (snd (ParseConfigFile (mk_args None false false) keys_of file [])).
Definition make_config (e : environment) (file : option bytes) : config :=
  let c := check_init e (end_prefix (set_keys (parsed_keys file) defaults)) in
  if in_safe_mode e then apply_safe_mode c else c.

(** * What a file says *)

(** The entries of a document with their qualified names, and the first one for a key,
    whatever the case of its letters. *)
Fixpoint entries (section : bytes) (doc : list doc_line) : list (bytes * bytes) :=
  match doc with
  | [] => []
  | l :: doc' =>
    match body l with
    | I_section name _ _ => entries name doc'
    | I_entry e => (qualified section (e_name e), e_value e) :: entries section doc'
    | _ => entries section doc'
    end
  end.
Fixpoint first_value (name : bytes) (l : list (bytes * bytes)) : option bytes :=
  match l with [] => None | (n, v) :: l' => if strcasecmp_eq name n then Some v else first_value name l' end.
(** The settings that the entries give. *)
Definition settings (l : list (bytes * bytes)) : config :=
  fold_left (fun c k => match first_value (fst k) l with Some v => snd k v c | None => c end) config_keys defaults.

(** At most one key has a name. *)
Definition distinct (ks : list ConfigKey) : Prop :=
  ForallOrdPairs (fun a b => forall n, Matches (m_names a) n = true -> Matches (m_names b) n = false) ks.
Lemma SetConfig_map ks n v line : distinct ks ->
  SetConfig ks n v line = map (fun k => if Matches (m_names k) n then Parse k n v line else k) ks.
Proof.
  intros H. induction H as [|k ks Hk H IH]; [done|]. cbn [SetConfig map]. destruct (Matches (m_names k) n) eqn:E; [|by rewrite IH].
  f_equal. clear IH H. induction Hk as [|k' ks Hk' Hks IH]; [done|]. cbn [map]. by rewrite (Hk' n E), <-IH.
Qed.
Lemma Parse_names k n v line : m_names (Parse k n v line) = m_names k.
Proof. unfold Parse. by destruct (m_parseResult k). Qed.
Lemma distinct_map f ks : (forall k, m_names (f k) = m_names k) -> distinct ks -> distinct (map f ks).
Proof.
  intros Hf H. induction H as [|k ks Hk H IH]; cbn [map]; constructor; [|done].
  apply Forall_map. eapply Forall_impl; [exact Hk|]. intros k' Hk' n. cbn. rewrite !Hf. apply Hk'.
Qed.
(** The keys do not see each other. *)
Lemma interp_map ks : distinct ks -> forall doc sec n, exists f, interp sec n ks doc = map f ks /\
  forall k, k ∈ ks -> interp sec n [k] doc = [f k].
Proof.
  intros H doc. revert ks H. induction doc as [|l doc IH]; intros ks H sec n.
  { exists id. split; [symmetry; apply map_id|done]. }
  cbn [interp]. destruct (body l) as [|text|name trail c|e]; try by apply IH.
  set (g := fun k => if Matches (m_names k) (qualified sec (e_name e)) then Parse k (qualified sec (e_name e)) (e_value e) n else k).
  assert (forall k, m_names (g k) = m_names k) as Hg by (intros k; unfold g; destruct (Matches _ _); [apply Parse_names|done]).
  rewrite SetConfig_map by done. fold g. destruct (IH (map g ks) (distinct_map g ks Hg H) sec (n + 1)) as (f & E & Hf).
  exists (fun k => f (g k)). rewrite E, map_map. split; [done|]. intros k Hk.
  rewrite SetConfig_map by (constructor; constructor). cbn [map]. fold (g k). apply Hf. by apply (list_elem_of_fmap_2 g).
Qed.
Lemma key_settled name v n0 doc sec n : interp sec n [mk_key [name] (Some n0) v] doc = [mk_key [name] (Some n0) v].
Proof.
  revert sec n. induction doc as [|l doc IH]; intros sec n; [done|]. cbn [interp].
  destruct (body l) as [| | |e]; try apply IH. cbn [SetConfig Parse m_parseResult m_names]. destruct (Matches _ _); apply IH.
Qed.
Lemma interp_first name doc sec n : map m_values (interp sec n [mk_key [name] None []] doc) =
  [match first_value name (entries sec doc) with Some v => [v] | None => [] end].
Proof.
  revert sec n. induction doc as [|l doc IH]; intros sec n; [done|]. cbn [interp entries]. destruct (body l) as [| | |e]; try apply IH.
  cbn [first_value SetConfig m_names]. unfold Matches. cbn [existsb]. rewrite orb_false_r. destruct (strcasecmp_eq _ _); [|apply IH].
  exact (f_equal (map m_values) (key_settled name [e_value e] (qualified sec (e_name e), n) doc sec (n + 1))).
Qed.

Definition key_ok (a b : bytes) : bool := negb (list_eqb (map tolower a) (map tolower b)).
Fixpoint names_distinct (l : list bytes) : bool := match l with [] => true | a :: l' => forallb (key_ok a) l' && names_distinct l' end.
Lemma distinct_names l : names_distinct l = true -> distinct (map (fun n => mk_key [n] None []) l).
Proof.
  induction l as [|a l IH]; cbn [names_distinct map]; [constructor|]. intros [Ha Hl]%andb_true_iff. constructor; [|by apply IH].
  apply Forall_map, Forall_forall. intros b Hb n. unfold Matches, strcasecmp_eq. cbn. rewrite !orb_false_r.
  apply forallb_forall with (x := b) in Ha; [|by apply list_elem_of_In]. unfold key_ok in Ha. apply negb_true_iff in Ha.
  intros E%list_eqb_eq. apply not_true_iff_false. intros E2%list_eqb_eq. apply not_true_iff_false in Ha. apply Ha, list_eqb_eq. congruence.
Qed.
Lemma set_keys_settings doc ks c : names_distinct (map fst ks) = true ->
  fold_left (fun c k => set_values (snd (fst k)) (snd k) c) (combine ks (interp [] 1 (map (fun k => mk_key [fst k] None []) ks) doc)) c =
  fold_left (fun c (k : bytes * (bytes -> config -> config)) => match first_value (fst k) (entries [] doc) with Some v => snd k v c | None => c end) ks c.
Proof.
  intros H. destruct (interp_map (map (fun n => mk_key [n] None []) (map fst ks)) (distinct_names _ H) doc [] 1) as (f & E & Hf).
  rewrite map_map in E. rewrite E. clear E H.
  assert (forall k, k ∈ ks -> m_values (f (mk_key [fst k] None [])) = match first_value (fst k) (entries [] doc) with Some v => [v] | None => [] end) as Hv.
  { intros k Hk. specialize (Hf (mk_key [fst k] None [])). pose proof (interp_first (fst k) doc [] 1) as Ef. rewrite Hf in Ef; [by injection Ef|].
    apply (list_elem_of_fmap_2 (fun n => mk_key [n] None [])), (list_elem_of_fmap_2 fst _ _ Hk). }
  clear Hf. revert c. induction ks as [|k ks IH]; intros c; [done|]. cbn [map combine fold_left fst snd].
  unfold set_values at 2. rewrite (Hv k) by by left. rewrite IH by (intros k' Hk'; apply Hv; by right).
  by destruct (first_value _ _).
Qed.

(** What is in effect: the prefix ends with a slash, systemd needs the machine and an init
    that can be run, and the safe mode turns the rest off. *)
Definition with_slash (p : bytes) : bytes := if bool_decide (last p = Some c_slash) then p else p ++ [c_slash].
Definition effective (e : environment) (s : config) : config :=
  let safe := in_safe_mode e in
  let on b := b && negb safe in
  mk_config (on (AutoMount s)) (on (AutoUpdateTimezone s)) (if safe then None else BootCommand s)
    (on (BootInit s && UtilIsUtilityVm e && init_executable e)) (BootInitTimeout s) (BootProtectBinfmt s) (DefaultUser s)
    (with_slash (DrvFsPrefix s)) (DrvFsOptions s) (on (InteropAppendWindowsPath s)) (on (InteropEnabled s)) (on (MountFsTab s))
    (on (GenerateHosts s)) (on (GenerateResolvConf s)) (HostName s) (on (Plan9Enabled s)) (Plan9LogFile s) (Plan9LogLevel s)
    (Plan9LogTruncate s) (Umask s) (on (AppendGpuLibPath s)) (on (GpuEnabled s)) (on (LinkOsLibs s)) (GuiAppsEnabled s).
Lemma end_prefix_with_slash c : end_prefix c = c <| DrvFsPrefix := with_slash (DrvFsPrefix c) |>.
Proof.
  unfold end_prefix, with_slash. destruct c. cbn. rewrite <-(rev_involutive DrvFsPrefix0). destruct (rev DrvFsPrefix0) as [|b r]; [done|].
  cbn. rewrite rev_app_distr, rev_involutive, last_snoc. cbn. destruct (Z.eqb_spec b c_slash) as [->|Hb].
  - by rewrite bool_decide_true.
  - rewrite bool_decide_false by congruence. done.
Qed.
Lemma make_config_effective e file : make_config e file = effective e (set_keys (parsed_keys file) defaults).
Proof.
  unfold make_config, effective. rewrite end_prefix_with_slash. generalize (set_keys (parsed_keys file) defaults). intros c.
  destruct c. unfold check_init. cbn. destruct (in_safe_mode e), (UtilIsUtilityVm e), (init_executable e), BootInit0; cbn;
    by rewrite ?andb_true_r, ?andb_false_r.
Qed.


(** Whatever the file holds, even when it is not read to its end. *)
Lemma prefix_ends_with_slash e file : exists p, DrvFsPrefix (make_config e file) = p ++ [c_slash].
Proof.
  rewrite make_config_effective. cbn. unfold with_slash. destruct (bool_decide _) eqn:E; [|by eexists].
  apply bool_decide_eq_true in E. by apply last_Some in E.
Qed.
Lemma systemd_checked e file : BootInit (make_config e file) = true -> UtilIsUtilityVm e = true /\ init_executable e = true /\ in_safe_mode e = false.
Proof.
  rewrite make_config_effective. cbn. rewrite !andb_true_iff, negb_true_iff. tauto.
Qed.
(** The comment in the header lists GuiAppsEnabled with the values that wsl.conf does not set. *)
Example gui_applications_set : GuiAppsEnabled (make_config (mk_environment true true None)
  (Some (print [mk_line [] (I_section (str "general") [] None); mk_line [] (I_entry (sample_entry "guiApplications" false "true" None))]))) = true.
Proof. vm_compute. done. Qed.
End DistroConfig.
