(* ===== verification/BindTracker.v ===== *)
(** The tracker of bind() calls (src/src/linux/init/GnsPortTracker.cpp) with the
    threads around it: the seccomp dispatcher that stops a process in bind() until
    it is answered (SecCompDispatcher.cpp, waitablevalue.h), the tracker's loop,
    which reserves ports at the host, and the thread that lists the bound ports.
    The threads are steps on one shared state. *)
From S2P Require Import Prelude CStr CNum.

Module BindTracker.

Definition AF_INET : Z := 2.
Definition AF_INET6 : Z := 10.
Definition IPPROTO_TCP : Z := 6.
Definition IPPROTO_UDP : Z := 17.
Definition SYS_BIND : Z := 2.
Definition c_bind_timeout_seconds : Z := 60.
Definition SECCOMP_USER_NOTIF_FLAG_CONTINUE : Z := 1.

(** * Port allocations *)
Record PortAllocation : Type := mk_port { Address : bytes; Port : Z; Family : Z; Protocol : Z }.
#[export] Instance PortAllocation_eq_dec : EqDecision PortAllocation.
Proof. solve_decision. Defined.

(** [operator<]. *)
Definition port_lt (a b : PortAllocation) : bool :=
  if Port a <? Port b then true
  else if Port b <? Port a then false
  else if Family a <? Family b then true
  else if Family b <? Family a then false
  else if Protocol a <? Protocol b then true
  else if Protocol b <? Protocol a then false
  else memcmp (Address a) (Address b) <? 0.

(** The 44 bytes of LX_GNS_PORT_ALLOCATION_REQUEST, sequence number included. *)
Definition LxGnsMessagePortMappingRequest : Z := 56.
Definition request_message (sequence : Z) (p : PortAllocation) (allocate : bool) : bytes :=
  le_bytes 4 LxGnsMessagePortMappingRequest ++ le_bytes 4 44 ++ le_bytes 4 sequence ++ Address p ++
  le_bytes 2 (Port p) ++ [0; 0] ++ le_bytes 4 (Family p) ++ le_bytes 4 (Protocol p) ++
  [Z.b2z allocate; 0; 0; 0].

(** * The ordered map *)
Abbreviation ports := (list (PortAllocation * option Z)).

Definition same_key (a b : PortAllocation) : bool := negb (port_lt a b) && negb (port_lt b a).
Definition contains (p : PortAllocation) (m : ports) : bool := existsb (fun e => same_key p (fst e)) m.
(** std::map::emplace: a key goes to its place in the order; an entry that is
    there stays as it is. *)
Fixpoint insert_before (p : PortAllocation) (t : option Z) (m : ports) : ports :=
  match m with
  | [] => [(p, t)]
  | (p', t') :: m' => if port_lt p p' then (p, t) :: m else (p', t') :: insert_before p t m'
  end.
Definition emplace (p : PortAllocation) (t : option Z) (m : ports) : ports :=
  if contains p m then m else insert_before p t m.
Definition in_set (p : PortAllocation) (l : list PortAllocation) : bool := existsb (same_key p) l.

(** * Reading the call *)

(** SecCompDispatcher::ReadProcessMemory, from what its calls find. *)
Record mem_read : Type := mk_read {
  opened : bool; valid_before : bool; sought : bool; data : option bytes; valid_after : bool
}.
Definition ReadProcessMemory (r : mem_read) (length_ : Z) : option bytes :=
  if opened r && valid_before r && sought r then
    match data r with
    | Some d => if (Z.of_nat (length d) =? length_) && valid_after r then Some d else None
    | None => None
    end
  else None.

(** One getxattr of the socket's protocol name: the size, then the value. *)
Inductive xattr : Type := X_data (value : bytes) | X_erange | X_error.
Fixpoint GetSocketProtocol (tries : list (option xattr)) : option Z :=
  match tries with
  | Some X_erange :: tries' => GetSocketProtocol tries'
  | Some (X_data value) :: _ =>
    let protocol := take (length value - 1) value in
    if list_eqb protocol (str "TCP") || list_eqb protocol (str "TCPv6") then Some IPPROTO_TCP
    else if list_eqb protocol (str "UDP") || list_eqb protocol (str "UDPv6") then Some IPPROTO_UDP
    else None
  | _ => None
  end.

(** What the process looks like while its call is read. *)
Record process : Type := mk_process {
  net_namespace : option bytes;               (* the link /proc/pid/ns/net *)
  memory : Z -> Z -> mem_read;                (* address and length *)
  socket_protocol : Z -> list (option xattr); (* by descriptor *)
  still_valid : bool                          (* the cookie, after all that *)
}.

Definition be16 (b : bytes) : Z := 256 * nth 0 b 0 + nth 1 b 0.

Section CallInfo.
Context (m_networkNamespace : bytes).

(** [None]: an exception; [Some None]: the call is let through. *)
Definition ParseSocket (p : process) (Socket AddressPtr AddressLength : Z) : option (option PortAllocation) :=
  if AddressLength <? 16 then Some None
  else
    match net_namespace p with
    | None => None
    | Some ns =>
      if negb (list_eqb ns m_networkNamespace) then Some None
      else
        match ReadProcessMemory (memory p AddressPtr AddressLength) AddressLength with
        | None => None
        | Some a =>
          let sa_family := le_val (take 2 a) in
          if (negb (sa_family =? AF_INET) && negb (sa_family =? AF_INET6)) ||
             ((sa_family =? AF_INET6) && (AddressLength <? 28))
          then Some None
          else
            let port := be16 (drop 2 a) in
            if port =? 0 then Some None
            else
              let address :=
                if sa_family =? AF_INET then take 4 (drop 4 a) ++ replicate 12 0 else take 16 (drop 8 a) in
              match GetSocketProtocol (socket_protocol p Socket) with
              | None => None
              | Some protocol =>
                if still_valid p then Some (Some (mk_port address port sa_family protocol)) else None
              end
        end
    end.

Record seccomp_notif : Type := mk_notif { id : Z; pid : Z; arch : Z; nr : Z; call_args : list Z }.

(** On x86_64. *)
Definition GetCallInfo (p : process) (c : seccomp_notif) : option (option PortAllocation) :=
  let arg n := nth n (call_args c) 0 in
  if Z.testbit (arch c) 31 then ParseSocket p (to_int (arg 0%nat)) (arg 1%nat) (arg 2%nat)
  else if negb (arg 0%nat =? SYS_BIND) then Some None
  else
    match ReadProcessMemory (memory p (arg 1%nat) 12) 12 with
    | None => None
    | Some d =>
      ParseSocket p (to_int (le_val (take 4 d))) (le_val (take 4 (drop 4 d))) (le_val (take 4 (drop 8 d)))
    end.

(** The answer to a call that cannot be read is to let it through. *)
Definition call_request (p : process) (c : seccomp_notif) : option PortAllocation :=
  match GetCallInfo p c with Some r => r | None => None end.
End CallInfo.

(** * The shared state *)
Abbreviation snapshot := (list PortAllocation * Z)%type.

Inductive refresher : Type :=
| R_listing                       (* about to list the ports *)
| R_listed (s : snapshot)         (* about to set the promise *)
| R_waiting.                      (* until it is resumed *)

Inductive event : Type :=
| Notified (c : seccomp_notif)
| Asked (p : PortAllocation) (allocate : bool) (result : Z)
| Tracked (p : PortAllocation) (deadline : Z)
| Scanned (s : snapshot)
| Responded (id error flags : Z).

Record sys : Type := mk_sys {
  m_allocatedPorts : ports;
  future : bool;                    (* the loop holds a future of the promise *)
  refreshResult : option snapshot;
  promise : option snapshot;        (* m_allocatedPortsRefresh *)
  retrieved : bool;                 (* its future was taken *)
  refresh_thread : refresher;
  m_request : option seccomp_notif; (* the WaitableValues *)
  m_reply : option Z;
  in_call : option seccomp_notif;   (* the notification that the dispatcher handles *)
  replies : list (option Z);        (* what the host will answer; [None]: the channel fails *)
  wire : list bytes;                (* the messages sent to the host *)
  trace : list event
}.
#[export] Instance sys_eta : Eta sys := fun s =>
  mk_sys (m_allocatedPorts s) (future s) (refreshResult s) (promise s) (retrieved s) (refresh_thread s)
         (m_request s) (m_reply s) (in_call s) (replies s) (wire s) (trace s).

Definition log (e : event) (s : sys) : sys := s <| trace := trace s ++ [e] |>.

(** How a piece of the loop ends: with a value, with an exception of the channel,
    or against the rules of promise, future and WaitableValue. *)
Inductive outcome (A : Type) : Type := Ok (x : A) | Thrown | Broken.
Arguments Ok {A} x.
Arguments Thrown {A}.
Arguments Broken {A}.

Definition M (A : Type) : Type := sys -> outcome A * sys.
#[export] Instance M_ret : MRet M := fun A x s => (Ok x, s).
#[export] Instance M_bind : MBind M := fun A B f m s =>
  match m s with
  | (Ok x, s') => f x s'
  | (Thrown, s') => (Thrown, s')
  | (Broken, s') => (Broken, s')
  end.
Definition get : M sys := fun s => (Ok s, s).
Definition modify (f : sys -> sys) : M unit := fun s => (Ok tt, f s).
Definition broken {A} : M A := fun s => (Broken, s).
Definition when (b : bool) (m : M unit) : M unit := if b then m else mret tt.

(** The channel's Transaction: the message carries the number of messages sent. *)
Definition RequestPort (p : PortAllocation) (allocate : bool) : M Z := fun s =>
  let s := s <| wire := wire s ++ [request_message (Z.of_nat (length (wire s)) + 1) p allocate] |> in
  match replies s with
  | Some r :: rest => (Ok r, log (Asked p allocate r) (s <| replies := rest |>))
  | None :: rest => (Thrown, s <| replies := rest |>)
  | [] => (Thrown, s)
  end.

Definition HandleRequest (p : PortAllocation) : M Z :=
  s ← get;
  if contains p (m_allocatedPorts s) then mret 0 else RequestPort p true.

(** The walk over the map, entries erased on the way. *)
Fixpoint refresh_loop (seen : ports) (left : ports) (Ports : list PortAllocation) (Timestamp : Z) : M unit :=
  match left with
  | [] => modify (fun s => s <| m_allocatedPorts := seen |>)
  | (p, t) :: left' =>
    if in_set p Ports then refresh_loop (seen ++ [(p, None)]) left' Ports Timestamp
    else if match t with None => true | Some d => d <? Timestamp end then
      modify (fun s => s <| m_allocatedPorts := seen ++ left |>);;
      _ ← RequestPort p false;
      refresh_loop seen left' Ports Timestamp
    else refresh_loop (seen ++ [(p, t)]) left' Ports Timestamp
  end.
Definition OnRefreshAllocatedPorts (Ports : list PortAllocation) (Timestamp : Z) : M unit :=
  modify (log (Scanned (Ports, Timestamp)));;
  s ← get;
  refresh_loop [] (m_allocatedPorts s) Ports Timestamp.

(** WaitableValue::post and the non-blocking part of try_get. *)
Definition CompleteRequest (result : Z) : M unit :=
  s ← get;
  match m_reply s with
  | None => modify (fun s => s <| m_reply := Some result |>)
  | Some _ => broken
  end.

(** * The loop *)
Section Run.
Context (m_networkNamespace : bytes).

(** What one turn meets: the clock and the process of the call. *)
Record turn_input : Type := mk_turn { now : Z; caller : process }.

Definition ReadNextRequest (i : turn_input) : M (option (option PortAllocation)) :=
  s ← get;
  match m_request s with
  | None => mret None
  | Some c =>
    modify (fun s => s <| m_request := None |>);;
    mret (Some (call_request m_networkNamespace (caller i) c))
  end.

Definition handle_bind (i : turn_input) (request : option PortAllocation) : M unit :=
  result ← match request with
           | Some p =>
             result ← HandleRequest p;
             when (result =? 0)
               (let deadline := now i + c_bind_timeout_seconds in
                modify (fun s => log (Tracked p deadline)
                  (s <| m_allocatedPorts := emplace p (Some deadline) (m_allocatedPorts s) |>)));;
             mret result
           | None => mret 0
           end;
  CompleteRequest result.

(** The future is ready: the result is taken, and looked at when the turn had no
    call. *)
Definition take_refresh (had_call : bool) : M unit :=
  s ← get;
  match future s, promise s with
  | true, Some (Ports, Timestamp) =>
    modify (fun s => s <| refreshResult := Some (Ports, Timestamp) |> <| future := false |>
                       <| promise := None |> <| retrieved := false |>);;
    when (negb had_call) (OnRefreshAllocatedPorts Ports Timestamp)
  | _, _ => mret tt
  end.

(** The listing thread is resumed when there is something to deallocate. *)
Definition resume : M unit :=
  s ← get;
  match refreshResult s, m_allocatedPorts s with
  | Some _, _ :: _ =>
    if retrieved s then broken
    else
      match refresh_thread s with
      | R_waiting =>
        modify (fun s => s <| future := true |> <| retrieved := true |> <| refresh_thread := R_listing |>
                           <| refreshResult := None |>)
      | _ => broken
      end
  | _, _ => mret tt
  end.

Definition turn (i : turn_input) : M unit :=
  bindCall ← ReadNextRequest i;
  match bindCall with Some request => handle_bind i request | None => mret tt end;;
  take_refresh (match bindCall with Some _ => true | None => false end);;
  resume.

(** * The threads *)

(** SECCOMP_IOCTL_NOTIF_SEND. *)
Definition response (c : seccomp_notif) (result : Z) : event :=
  Responded (id c) (- result) (if result =? 0 then SECCOMP_USER_NOTIF_FLAG_CONTINUE else 0).

Inductive step : sys -> sys -> Prop :=
| S_notify c s :
  in_call s = None -> m_request s = None ->
  step s (log (Notified c) (s <| in_call := Some c |> <| m_request := Some c |>))
| S_respond c r s :
  in_call s = Some c -> m_reply s = Some r ->
  step s (log (response c r) (s <| in_call := None |> <| m_reply := None |>))
| S_list snap s :
  refresh_thread s = R_listing -> step s (s <| refresh_thread := R_listed snap |>)
| S_set snap s :
  refresh_thread s = R_listed snap -> promise s = None ->
  step s (s <| promise := Some snap |> <| refresh_thread := R_waiting |>)
| S_turn i s s' :
  turn i s = (Ok tt, s') -> step s s'.

(** Run takes the first future before its loop. *)
Definition start (host : list (option Z)) : sys :=
  mk_sys [] true None None true R_listing None None None host [] [].

Inductive reachable (host : list (option Z)) : sys -> Prop :=
| reach_start : reachable host (start host)
| reach_step s s' : reachable host s -> step s s' -> reachable host s'.
End Run.
End BindTracker.
