(* ===== verification/BindTrackerThm.v ===== *)
(** Theorems on the tracker of bind() calls: the host holds exactly the tracked
    ports, nothing is released too early, every stopped call is answered once, the
    loop and the listing thread never block each other, and the addresses of calls
    are read as they were written. *)
From S2P Require Import Prelude CStr CNum BindTracker.
Import BindTracker.

(** * The order of ports *)
Definition port_ok (p : PortAllocation) : Prop := length (Address p) = 16%nat.
Definition port_key (p : PortAllocation) : bytes := Port p :: Family p :: Protocol p :: Address p.

Lemma port_lt_key a b : port_lt a b = (memcmp (port_key a) (port_key b) <? 0).
Proof.
  unfold port_lt, port_key. cbn [memcmp].
  repeat (match goal with |- (if ?x <? ?y then _ else if ?y <? ?x then _ else _) = _ =>
    let H := fresh in destruct (Z.lt_total x y) as [H|[H|H]];
    [rewrite (proj2 (Z.ltb_lt x y) H), (proj2 (Z.eqb_neq x y)) by lia; symmetry; apply Z.ltb_lt; lia
    |rewrite H, Z.ltb_irrefl, Z.eqb_refl; cbv beta iota
    |rewrite (proj2 (Z.ltb_ge x y)), (proj2 (Z.ltb_lt y x) H), (proj2 (Z.eqb_neq x y)) by lia; symmetry; apply Z.ltb_ge; lia] end).
  done.
Qed.

Lemma port_key_length a b : port_ok a -> port_ok b -> length (port_key a) = length (port_key b).
Proof. unfold port_ok, port_key. cbn. congruence. Qed.

Lemma same_key_eq a b : port_ok a -> port_ok b -> same_key a b = true <-> a = b.
Proof.
  intros Ha Hb. unfold same_key. rewrite !port_lt_key, (memcmp_antisym (port_key a) (port_key b)). split.
  - rewrite andb_true_iff, !negb_true_iff, !Z.ltb_ge. intros H.
    assert (port_key a = port_key b) as E by (apply memcmp_eq; [by apply port_key_length|lia]).
    destruct a, b. unfold port_key in E. cbn in E. congruence.
  - intros ->. by rewrite memcmp_refl.
Qed.

(** * The map *)
Definition keys_ok (m : ports) : Prop := Forall (fun e => port_ok (fst e)) m.

Lemma contains_in p m : port_ok p -> keys_ok m -> contains p m = true <-> p ∈ m.*1.
Proof.
  intros Hp Hm. unfold contains. rewrite existsb_exists, list_elem_of_fmap. split.
  - intros (e & He & H). rewrite <- list_elem_of_In in He. exists e. split; [|done].
    apply same_key_eq in H; [done|done|]. unfold keys_ok in Hm. rewrite Forall_forall in Hm. by apply Hm.
  - intros (e & -> & He). exists e. rewrite <- list_elem_of_In. split; [done|]. by apply same_key_eq.
Qed.

Lemma insert_before_split p t m : exists m1 m2, m = m1 ++ m2 /\ insert_before p t m = m1 ++ (p, t) :: m2.
Proof.
  induction m as [|[p' t'] m (m1 & m2 & E1 & E2)]; [by exists [], []|]. cbn.
  destruct (port_lt p p'); [by exists [], ((p', t') :: m)|]. exists ((p', t') :: m1), m2. cbn. by rewrite E2, <- E1.
Qed.

Lemma emplace_present p t m : contains p m = true -> emplace p t m = m.
Proof. unfold emplace. by intros ->. Qed.
Lemma emplace_new p t m : port_ok p -> keys_ok m -> p ∉ m.*1 ->
  exists m1 m2, m = m1 ++ m2 /\ emplace p t m = m1 ++ (p, t) :: m2.
Proof.
  intros Hp Hm Hn. unfold emplace. destruct (contains p m) eqn:E; [|apply insert_before_split].
  apply contains_in in E; done.
Qed.

(** * The monad *)
Lemma bind_ok {A B} (m : M A) (f : A -> M B) s y s' : (m ≫= f) s = (Ok y, s') ->
  exists x s1, m s = (Ok x, s1) /\ f x s1 = (Ok y, s').
Proof. unfold mbind, M_bind. destruct (m s) as [[x| |] s1]; intros H; [by exists x, s1|done|done]. Qed.

Lemma bind_broken {A B} (m : M A) (f : A -> M B) s s' : (m ≫= f) s = (Broken, s') ->
  m s = (Broken, s') \/ exists x s1, m s = (Ok x, s1) /\ f x s1 = (Broken, s').
Proof.
  unfold mbind, M_bind. destruct (m s) as [[x| |] s1]; intros H; [right; by exists x, s1|done|].
  left. congruence.
Qed.

(** A part of the state that a piece of the loop leaves as it is. *)
Definition leaves {A X} (f : sys -> X) (m : M A) : Prop := forall s x s', m s = (x, s') -> f s' = f s.

Lemma leaves_ret {A X} (f : sys -> X) (x : A) : leaves f (mret x).
Proof. by intros s y s' [= <- <-]. Qed.
Lemma leaves_get {X} (f : sys -> X) : leaves f get.
Proof. by intros s y s' [= <- <-]. Qed.
Lemma leaves_modify {X} (f : sys -> X) g : (forall s, f (g s) = f s) -> leaves f (modify g).
Proof. intros H s y s' [= <- <-]. apply H. Qed.
Lemma leaves_bind {A B X} (f : sys -> X) (m : M A) (k : A -> M B) :
  leaves f m -> (forall x, leaves f (k x)) -> leaves f (m ≫= k).
Proof.
  intros Hm Hk s y s'. unfold mbind, M_bind. destruct (m s) as [o s1] eqn:E. apply Hm in E.
  destruct o as [x| |]; [intros H%Hk; congruence| |]; by intros [= <- <-].
Qed.
Lemma leaves_when {X} (f : sys -> X) b m : leaves f m -> leaves f (when b m).
Proof. destruct b; [done|]. intros _. apply leaves_ret. Qed.
Lemma leaves_request {X} (f : sys -> X) p b :
  (forall r l m s, f (log (Asked p b r) (s <| wire := m |> <| replies := l |>)) = f s) ->
  (forall l m s, f (s <| wire := m |> <| replies := l |>) = f s) -> (forall m s, f (s <| wire := m |>) = f s) ->
  leaves f (RequestPort p b).
Proof.
  intros H1 H2 H3 s x s'. unfold RequestPort. cbv zeta. cbn [replies].
  match goal with |- context [replies ?s1] => destruct (replies s1) as [|[r|] l] end; intros [= <- <-]; auto.
Qed.
Create HintDb bind_tracker.
#[export] Hint Resolve leaves_ret leaves_get leaves_when leaves_request : bind_tracker.

Ltac leaves_steps :=
  repeat first [apply leaves_bind; [|intros ?] | apply leaves_modify; intros ? | apply leaves_when
               | match goal with |- leaves _ (match ?x with _ => _ end) => destruct x end
               | match goal with |- leaves _ (if ?x then _ else _) => destruct x end
               | solve [eauto with bind_tracker]]; try done.

(** * The threads *)
Definition handshake (s : sys) : bool * option snapshot * option snapshot * bool * refresher :=
  (future s, refreshResult s, promise s, retrieved s, refresh_thread s).

(** Either the listing thread is on its way and the loop holds the future of an
    empty promise, or it waits, and its result is in the promise or at the loop. *)
Definition handshake_ok (s : sys) : Prop :=
  match refresh_thread s with
  | R_listing | R_listed _ => future s = true /\ retrieved s = true /\ promise s = None /\ refreshResult s = None
  | R_waiting =>
    (future s = true /\ retrieved s = true /\ promise s <> None /\ refreshResult s = None) \/
    (future s = false /\ retrieved s = false /\ promise s = None /\ refreshResult s <> None)
  end.
Lemma handshake_ok_eq s s' : handshake s' = handshake s -> handshake_ok s -> handshake_ok s'.
Proof. unfold handshake, handshake_ok. intros [= -> -> -> -> ->]. done. Qed.

Fixpoint calls (t : list event) : list Z :=
  match t with [] => [] | Notified c :: t' => id c :: calls t' | _ :: t' => calls t' end.
Fixpoint answers (t : list event) : list Z :=
  match t with [] => [] | Responded i _ _ :: t' => i :: answers t' | _ :: t' => answers t' end.
Lemma calls_app t t' : calls (t ++ t') = calls t ++ calls t'.
Proof. induction t as [|[] t IH]; cbn; congruence. Qed.
Lemma answers_app t t' : answers (t ++ t') = answers t ++ answers t'.
Proof. induction t as [|[] t IH]; cbn; congruence. Qed.

Definition dispatch (s : sys) : option seccomp_notif * option Z * option seccomp_notif * list Z * list Z :=
  (m_request s, m_reply s, in_call s, calls (trace s), answers (trace s)).
(** A stopped call is with the loop or has its answer, and was the last one. *)
Definition dispatch_ok (s : sys) : Prop :=
  match in_call s with
  | None => m_request s = None /\ m_reply s = None /\ answers (trace s) = calls (trace s)
  | Some c => (m_request s = Some c /\ m_reply s = None \/ m_request s = None /\ m_reply s <> None) /\
              answers (trace s) ++ [id c] = calls (trace s)
  end.
Lemma dispatch_ok_eq s s' : dispatch s' = dispatch s -> dispatch_ok s -> dispatch_ok s'.
Proof. unfold dispatch, dispatch_ok. intros [= -> -> -> -> ->]. done. Qed.

Lemma log_dispatch e s : calls [e] = [] -> answers [e] = [] -> dispatch (log e s) = dispatch s.
Proof.
  intros Hc Ha. unfold dispatch, log. cbn [m_request m_reply in_call trace].
  change (trace (s <| trace := trace s ++ [e] |>)) with (trace s ++ [e]).
  by rewrite calls_app, answers_app, Hc, Ha, !app_nil_r.
Qed.

Lemma request_leaves_dispatch p b : leaves dispatch (RequestPort p b).
Proof. apply leaves_request; intros; try done. by rewrite log_dispatch. Qed.
Lemma request_leaves_handshake p b : leaves handshake (RequestPort p b).
Proof. by apply leaves_request. Qed.
#[export] Hint Resolve request_leaves_dispatch request_leaves_handshake : bind_tracker.

Lemma refresh_loop_leaves {X} (f : sys -> X) : (forall m s, f (s <| m_allocatedPorts := m |>) = f s) ->
  (forall p, leaves f (RequestPort p false)) ->
  forall left seen Ports ts, leaves f (refresh_loop seen left Ports ts).
Proof.
  intros Hf Hr. induction left as [|[p t] left IH]; intros seen Ports ts; cbn [refresh_loop]; leaves_steps.
Qed.
Lemma refresh_leaves_dispatch P ts : leaves dispatch (OnRefreshAllocatedPorts P ts).
Proof.
  unfold OnRefreshAllocatedPorts. leaves_steps; [by rewrite log_dispatch|].
  apply refresh_loop_leaves; [done|]. eauto with bind_tracker.
Qed.
Lemma refresh_leaves_handshake P ts : leaves handshake (OnRefreshAllocatedPorts P ts).
Proof.
  unfold OnRefreshAllocatedPorts. leaves_steps. apply refresh_loop_leaves; [done|]. eauto with bind_tracker.
Qed.
#[export] Hint Resolve refresh_leaves_dispatch refresh_leaves_handshake : bind_tracker.

(** A piece that keeps to the rules from where [P] holds, and ends in [Q]. *)
Definition spec {A} (P : sys -> Prop) (m : M A) (Q : A -> sys -> Prop) : Prop :=
  forall s, P s -> match m s with (Ok x, s') => Q x s' | (Thrown, _) => True | (Broken, _) => False end.

Lemma spec_bind {A B} P (m : M A) R (f : A -> M B) Q : spec P m R -> (forall x, spec (R x) (f x) Q) -> spec P (m ≫= f) Q.
Proof.
  intros Hm Hf s Hs. specialize (Hm s Hs). unfold mbind, M_bind. destruct (m s) as [[x| |] s1]; try done.
  by apply Hf.
Qed.
Lemma spec_get P : spec P get (fun x s => x = s /\ P s).
Proof. by intros s Hs. Qed.
Lemma spec_modify (P : sys -> Prop) g : spec P (modify g) (fun _ s' => exists s, P s /\ s' = g s).
Proof. intros s Hs. by exists s. Qed.
Lemma spec_ret {A} P (x : A) : spec P (mret x) (fun y s => y = x /\ P s).
Proof. by intros s Hs. Qed.
Lemma spec_conseq {A} (P P' : sys -> Prop) (m : M A) (Q Q' : A -> sys -> Prop) :
  spec P' m Q' -> (forall s, P s -> P' s) -> (forall x s, Q' x s -> Q x s) -> spec P m Q.
Proof. intros H HP HQ s Hs. specialize (H s (HP s Hs)). destruct (m s) as [[x| |] s']; auto. Qed.

(** Pieces that cannot break the rules leave a part of the state alone. *)
Definition orderly {A} (m : M A) : Prop := forall s s', m s <> (Broken, s').
Lemma orderly_ret {A} (x : A) : orderly (mret x). Proof. done. Qed.
Lemma orderly_get : orderly get. Proof. done. Qed.
Lemma orderly_modify g : orderly (modify g). Proof. done. Qed.
Lemma orderly_request p b : orderly (RequestPort p b).
Proof. intros s s'. unfold RequestPort. cbv zeta. by match goal with |- context [replies ?s1] => destruct (replies s1) as [|[|] ?] end. Qed.
Lemma orderly_bind {A B} (m : M A) (f : A -> M B) : orderly m -> (forall x, orderly (f x)) -> orderly (m ≫= f).
Proof. intros Hm Hf s s' [H|(x & s1 & _ & H)]%bind_broken; [by eapply Hm|by eapply Hf]. Qed.
#[export] Hint Resolve orderly_ret orderly_get orderly_modify orderly_request : bind_tracker.
Lemma orderly_refresh P ts : orderly (OnRefreshAllocatedPorts P ts).
Proof.
  unfold OnRefreshAllocatedPorts. repeat (apply orderly_bind; [auto with bind_tracker|intros ?]).
  generalize (@nil (PortAllocation * option Z)) (m_allocatedPorts x0).
  intros seen left. revert seen. induction left as [|[p t] left IH]; intros seen; cbn [refresh_loop]; [auto with bind_tracker|].
  destruct (in_set p P); [apply IH|]. destruct t as [d|]; [destruct (d <? ts)|]; [|apply IH|];
    (apply orderly_bind; [auto with bind_tracker|intros _; apply orderly_bind; auto with bind_tracker]).
Qed.
#[export] Hint Resolve orderly_refresh : bind_tracker.

Lemma spec_leaves {A X} (f : sys -> X) (m : M A) (I : sys -> Prop) :
  leaves f m -> orderly m -> (forall s s', f s' = f s -> I s -> I s') -> spec I m (fun _ => I).
Proof.
  intros Hl Ho HI s Hs. destruct (m s) as [[x| |] s'] eqn:E; [|done|by eapply Ho].
  eapply HI; [by eapply Hl|done].
Qed.

Section Turn.
Context (ns : bytes) (i : turn_input).

Definition rules (s : sys) : Prop := handshake_ok s /\ dispatch_ok s.
(** The loop has taken the call and not answered it. *)
Definition taken (s : sys) : Prop :=
  handshake_ok s /\ m_request s = None /\ m_reply s = None /\
  exists c, in_call s = Some c /\ answers (trace s) ++ [id c] = calls (trace s).

Lemma taken_eq s s' : (handshake s', dispatch s') = (handshake s, dispatch s) -> taken s -> taken s'.
Proof.
  intros [= E1 E2 E3 E4 E5 E6 E7 E8 E9 E10] (H & H1 & H2 & c & H3 & H4).
  split; [eapply handshake_ok_eq; [|exact H]; unfold handshake; congruence|].
  split; [congruence|]. split; [congruence|]. exists c. split; congruence.
Qed.
Lemma rules_eq s s' : (handshake s', dispatch s') = (handshake s, dispatch s) -> rules s -> rules s'.
Proof.
  intros [= E1 E2 E3 E4 E5 E6 E7 E8 E9 E10] [H1 H2].
  split; [eapply handshake_ok_eq; [|exact H1]; unfold handshake|eapply dispatch_ok_eq; [|exact H2]; unfold dispatch]; congruence.
Qed.

Lemma leaves_pair {A X Y} (f : sys -> X) (g : sys -> Y) (m : M A) : leaves f m -> leaves g m -> leaves (fun s => (f s, g s)) m.
Proof. intros Hf Hg s x s' E. by rewrite (Hf _ _ _ E), (Hg _ _ _ E). Qed.

Lemma spec_read : spec rules (ReadNextRequest ns i) (fun b s => match b with Some _ => taken s | None => rules s end).
Proof.
  intros s [Hh Hd]. unfold ReadNextRequest, mbind, M_bind, get. destruct (m_request s) as [c|] eqn:E; [|done].
  cbn. unfold dispatch_ok in Hd. destruct (in_call s) as [c'|] eqn:Ec; [|by destruct Hd as [? _]; congruence].
  destruct Hd as [[[Hc Hr]|[Hc _]] Ha]; [|congruence]. split; [exact Hh|]. split; [done|]. split; [done|]. by exists c'.
Qed.

Lemma spec_handle req : spec taken (handle_bind i req) (fun _ => rules).
Proof.
  unfold handle_bind. apply spec_bind with (R := fun _ => taken).
  - destruct req as [p|]; [|eapply spec_conseq; [apply spec_ret|done|by intros ?? [_ ?]]].
    apply spec_leaves with (f := fun s => (handshake s, dispatch s)); [|..|apply taken_eq].
    + apply leaves_pair; unfold HandleRequest; leaves_steps; by rewrite log_dispatch.
    + unfold HandleRequest. repeat (apply orderly_bind; [|intros ?]); auto with bind_tracker;
        [destruct (contains _ _)|unfold when; destruct (_ =? 0)]; auto with bind_tracker.
  - intros r s (Hh & H1 & H2 & c & Hc & Ha). unfold CompleteRequest, mbind, M_bind, get. rewrite H2. cbn.
    split; [exact Hh|]. unfold dispatch_ok. cbn. rewrite Hc. split; [by right|exact Ha].
Qed.

Lemma spec_take b : spec rules (take_refresh b) (fun _ => rules).
Proof.
  unfold take_refresh. apply spec_bind with (R := fun x s => x = s /\ rules s); [apply spec_get|].
  intros x s [-> [Hh Hd]]. destruct (future s) eqn:Ef; [|done]. destruct (promise s) as [[P ts]|] eqn:Ep; [|done].
  assert (refresh_thread s = R_waiting) as Hr.
  { unfold handshake_ok in Hh. destruct (refresh_thread s); [| |done]; destruct Hh as (_ & _ & ? & _); congruence. }
  refine (spec_bind (fun s0 => s0 = s) (modify _) (fun _ => rules) _ (fun _ => rules) _ _ s eq_refl).
  - intros ? ->. cbn. split; [|exact Hd]. unfold handshake_ok. cbn. rewrite Hr. by right.
  - intros _. destruct b; [by intros ?|]. apply spec_leaves with (f := fun s => (handshake s, dispatch s)); [|by apply orderly_refresh|apply rules_eq].
    apply leaves_pair; cbn; auto with bind_tracker.
Qed.

Lemma spec_resume : spec rules resume (fun _ s => rules s /\ (m_allocatedPorts s <> [] -> refreshResult s = None)).
Proof.
  intros s [Hh Hd]. unfold resume, mbind, M_bind, get. destruct (refreshResult s) as [snap|] eqn:Er; [|done].
  destruct (m_allocatedPorts s) as [|e m] eqn:Em; [by split; [|intros H; rewrite Em in H]|].
  unfold handshake_ok in Hh. destruct (refresh_thread s) eqn:Ert; [destruct Hh as (_ & _ & _ & ?); congruence..|].
  destruct Hh as [(_ & _ & _ & ?)|(_ & Hret & Hp & _)]; [congruence|]. rewrite Hret. cbn.
  split; [|done]. split; [|exact Hd]. unfold handshake_ok. cbn. by rewrite Hp.
Qed.

Lemma turn_rules : spec rules (turn ns i) (fun _ s => rules s /\ (m_allocatedPorts s <> [] -> refreshResult s = None)).
Proof.
  unfold turn. eapply spec_bind; [apply spec_read|]. intros b.
  apply spec_bind with (R := fun _ => rules).
  - destruct b as [req|]; [apply spec_handle|exact (fun s H => H)].
  - intros _.
    apply spec_bind with (R := fun _ => rules); [apply spec_take|].
    intros _. apply spec_resume.
Qed.
End Turn.

(** * The ports *)

(** Whether the host holds [p] for the guest, from what it was asked. *)
Definition held_step (p : PortAllocation) (b : bool) (e : event) : bool :=
  match e with
  | Asked q true r => if bool_decide (q = p) && (r =? 0) then true else b
  | Asked q false _ => if bool_decide (q = p) then false else b
  | _ => b
  end.
Definition held (p : PortAllocation) (t : list event) : bool := fold_left (held_step p) t false.

Definition asks (p : PortAllocation) (e : event) : bool :=
  match e with Asked q _ _ => bool_decide (q = p) | _ => false end.
Definition not_asked (p : PortAllocation) (t : list event) : Prop := Forall (fun e => asks p e = false) t.
Fixpoint last_scan (t : list event) : option snapshot :=
  match t with
  | [] => None
  | Scanned s :: t' => match last_scan t' with Some s' => Some s' | None => Some s end
  | _ :: t' => last_scan t'
  end.
Definition seen_bound (p : PortAllocation) (t : list event) : Prop :=
  exists P ts, Scanned (P, ts) ∈ t /\ in_set p P = true.

(** The port was reserved, its deadline set, and not asked for since. *)
Definition tracked_at (t a : list event) (p : PortAllocation) (d : Z) (b : list event) : Prop :=
  t = a ++ Asked p true 0 :: Tracked p d :: b /\ not_asked p b.

(** What must be true when the host is asked: a port that it does not hold is
    reserved; a port is released when the last listing does not show it, after its
    deadline or after it was once listed. *)
Definition good (pre : list event) (e : event) : Prop :=
  match e with
  | Asked p true _ => held p pre = false
  | Asked p false _ =>
    exists a d b P ts, tracked_at pre a p d b /\ last_scan b = Some (P, ts) /\ in_set p P = false /\
      (d < ts \/ seen_bound p b)
  | _ => True
  end.
Definition all_good (t : list event) : Prop := forall pre e post, t = pre ++ e :: post -> good pre e.

Definition entry_ok (t : list event) (e : PortAllocation * option Z) : Prop :=
  exists a d b, tracked_at t a (fst e) d b /\ (snd e = Some d \/ snd e = None /\ seen_bound (fst e) b).

Record ports_inv (m : ports) (t : list event) : Prop := {
  pi_keys : keys_ok m;
  pi_nodup : NoDup m.*1;
  pi_entries : Forall (entry_ok t) m;
  pi_held : forall p, held p t = true -> p ∈ m.*1;
  pi_good : all_good t
}.

Lemma all_good_snoc t e : all_good t -> good t e -> all_good (t ++ [e]).
Proof.
  intros Ht He pre x post E. destruct (decide (post = [])) as [-> | Hp].
  - apply app_inj_tail in E as [-> ->]. exact He.
  - destruct (exists_last Hp) as (post' & y & ->). rewrite app_comm_cons, app_assoc in E.
    apply app_inj_tail in E as [-> _]. by eapply Ht.
Qed.

Lemma held_snoc p t e : held p (t ++ [e]) = held_step p (held p t) e.
Proof. apply fold_left_app. Qed.

Lemma tracked_snoc t a p d b e : tracked_at t a p d b -> asks p e = false -> tracked_at (t ++ [e]) a p d (b ++ [e]).
Proof.
  intros [-> H] He. split; [by rewrite <- app_assoc|]. apply Forall_app. split; [done|by constructor].
Qed.
Lemma seen_app p t t' : seen_bound p t -> seen_bound p (t ++ t').
Proof. intros (P & ts & H & H'). exists P, ts. split; [apply elem_of_app; by left|done]. Qed.

Lemma entry_snoc t x e : entry_ok t x -> asks (fst x) e = false -> entry_ok (t ++ [e]) x.
Proof.
  intros (a & d & b & H & Ht) He. exists a, d, (b ++ [e]). split; [by apply tracked_snoc|].
  destruct Ht as [Ht|[Ht Hs]]; [by left|right]. split; [done|by apply seen_app].
Qed.

Lemma held_step_other p b e : asks p e = false -> held_step p b e = b.
Proof. destruct e as [|q [] r| | |]; cbn; try done; intros ->; done. Qed.

Lemma held_tracked t a p d b : tracked_at t a p d b -> held p t = true.
Proof.
  intros [-> H]. unfold held. rewrite fold_left_app. cbn. rewrite bool_decide_eq_true_2 by done. cbn.
  induction H as [|e b He _ IH]; cbn; [done|]. by rewrite held_step_other.
Qed.

Lemma last_scan_snoc t e : last_scan (t ++ [e]) = match e with Scanned s => Some s | _ => last_scan t end.
Proof.
  induction t as [|x t IH]; cbn; [by destruct e|]. rewrite IH. destruct x, e; try done.
Qed.

(** Events that ask nothing leave the ports as they are. *)
Lemma ports_inv_log m t e : (forall p, asks p e = false) -> ports_inv m t -> ports_inv m (t ++ [e]).
Proof.
  intros He [H1 H2 H3 H4 H5]. split; try done.
  - eapply Forall_impl; [exact H3|]. intros x Hx. by apply entry_snoc.
  - intros p. rewrite held_snoc, held_step_other by done. apply H4.
  - apply all_good_snoc; [done|]. destruct e as [|q b r| | |]; try done.
    specialize (He q). cbn in He. by rewrite bool_decide_eq_true_2 in He.
Qed.

(** Asking for a port that the host refuses. *)
Lemma ports_inv_refused m t p r : port_ok p -> p ∉ m.*1 -> r <> 0 ->
  ports_inv m t -> ports_inv m (t ++ [Asked p true r]).
Proof.
  intros Hp Hn Hr [H1 H2 H3 H4 H5]. split; try done.
  - rewrite Forall_forall in H3 |- *. intros x Hx. apply entry_snoc; [by apply H3|]. cbn.
    apply bool_decide_eq_false. intros ->. apply Hn, list_elem_of_fmap. by exists x.
  - intros q. rewrite held_snoc. cbn. rewrite (proj2 (Z.eqb_neq _ _) Hr), andb_false_r. apply H4.
  - apply all_good_snoc; [done|]. cbn. destruct (held p t) eqn:E; [|done]. by apply H4 in E.
Qed.

(** Reserving and tracking a port. *)
Lemma ports_inv_reserved m t p d : port_ok p -> p ∉ m.*1 ->
  ports_inv m t -> ports_inv (emplace p (Some d) m) ((t ++ [Asked p true 0]) ++ [Tracked p d]).
Proof.
  intros Hp Hn [H1 H2 H3 H4 H5].
  destruct (emplace_new p (Some d) m Hp H1 Hn) as (m1 & m2 & -> & ->).
  unfold keys_ok in *. rewrite fmap_app in *. rewrite Forall_app in H1, H3. split.
  - unfold keys_ok. rewrite Forall_app. split; [apply H1|]. constructor; [done|apply H1].
  - rewrite fmap_app, fmap_cons. apply NoDup_app in H2 as (Ha & Hb & Hc). apply NoDup_app.
    split; [done|]. split.
    + intros x Hx. rewrite not_elem_of_cons. split; [|by apply Hb]. intros ->. apply Hn, elem_of_app. by left.
    + constructor; [|done]. intros ?. apply Hn, elem_of_app. by right.
  - assert (Hold : forall x, entry_ok t x -> fst x <> p -> entry_ok ((t ++ [Asked p true 0]) ++ [Tracked p d]) x).
    { intros x Hx Hd. apply entry_snoc; [|done]. apply entry_snoc; [done|]. cbn. by apply bool_decide_eq_false. }
    destruct H3 as [H31 H32]. rewrite Forall_forall in H31. rewrite Forall_forall in H32. apply Forall_app. split; [|constructor].
    + apply Forall_forall. intros x Hx. apply Hold; [by apply H31|]. intros <-. apply Hn, elem_of_app. left.
      apply list_elem_of_fmap. by exists x.
    + exists t, d, []. split; [|by left]. split; [by rewrite <- app_assoc|constructor].
    + apply Forall_forall. intros x Hx. apply Hold; [by apply H32|]. intros <-. apply Hn, elem_of_app. right.
      apply list_elem_of_fmap. by exists x.
  - intros q. rewrite !held_snoc. cbn. rewrite fmap_app, elem_of_app, fmap_cons, elem_of_cons. cbn.
    destruct (decide (p = q)) as [-> | Hd]; [tauto|]. rewrite bool_decide_eq_false_2 by done. cbn.
    intros H%H4. apply elem_of_app in H. tauto.
  - apply all_good_snoc; [|done]. apply all_good_snoc; [done|]. cbn. destruct (held p t) eqn:E; [|done].
    apply H4 in E. by rewrite <- fmap_app in *.
Qed.

Lemma ports_inv_replace m1 p o o' m2 t :
  ports_inv (m1 ++ (p, o) :: m2) t -> entry_ok t (p, o') -> ports_inv (m1 ++ (p, o') :: m2) t.
Proof.
  intros [H1 H2 H3 H4 H5] He. unfold keys_ok in *. rewrite !fmap_app, !fmap_cons in *.
  apply Forall_app in H1 as [H1 H1'], H3 as [H3 H3']. inversion H1'; inversion H3'; subst. split; try done.
  - by apply Forall_app; split; [|constructor].
  - by rewrite fmap_app, fmap_cons.
  - by apply Forall_app; split; [|constructor].
  - by rewrite fmap_app, fmap_cons.
Qed.

Lemma nodup_middle (m1 : ports) p (o : option Z) (m2 : ports) x : NoDup (m1 ++ (p, o) :: m2).*1 -> x ∈ m1 ++ m2 -> fst x <> p.
Proof.
  rewrite fmap_app, fmap_cons. cbn. intros (H1 & H2 & H3)%NoDup_app Hx <-.
  apply NoDup_cons in H3 as [H3 _]. apply elem_of_app in Hx as [Hx|Hx].
  - apply (H2 (fst x)); [apply list_elem_of_fmap; by exists x|by left].
  - apply H3, list_elem_of_fmap. by exists x.
Qed.

Lemma ports_inv_released m1 p o m2 t r :
  ports_inv (m1 ++ (p, o) :: m2) t -> good t (Asked p false r) -> ports_inv (m1 ++ m2) (t ++ [Asked p false r]).
Proof.
  intros [H1 H2 H3 H4 H5] Hg. pose proof (fun x => nodup_middle m1 p o m2 x H2) as Hne. split.
  - unfold keys_ok in *. apply Forall_app in H1 as [? H1]. inversion H1; subst. by apply Forall_app.
  - rewrite fmap_app, fmap_cons in H2. rewrite fmap_app. apply NoDup_app in H2 as (Ha & Hb & Hc).
    apply NoDup_cons in Hc as [_ Hc]. apply NoDup_app. split; [done|]. split; [|done].
    intros x Hx Hin. apply (Hb x Hx). by right.
  - apply Forall_forall. intros x Hx. apply entry_snoc; [|cbn; apply bool_decide_eq_false; intros E; by eapply Hne].
    rewrite Forall_forall in H3. apply H3. apply elem_of_app. apply elem_of_app in Hx as [?|?]; [by left|right; by right].
  - intros q. rewrite held_snoc. cbn. destruct (decide (p = q)) as [-> | Hd]; [by rewrite bool_decide_eq_true_2|].
    rewrite bool_decide_eq_false_2 by done. intros H%H4. rewrite fmap_app, fmap_cons, elem_of_app, elem_of_cons in H.
    rewrite fmap_app, elem_of_app. destruct H as [?|[?|?]]; [by left|by subst|by right].
  - by apply all_good_snoc.
Qed.

Lemma last_scan_in t s : last_scan t = Some s -> Scanned s ∈ t.
Proof.
  induction t as [|e t IH]; [done|]. cbn. destruct e; try (intros H; right; by apply IH).
  destruct (last_scan t) eqn:E; [intros [= ->]; right; by apply IH|intros [= ->]; by left].
Qed.

(** An entry that the walk over a listing has not reached. *)
Definition entry_scanned (t : list event) (s : snapshot) (x : PortAllocation * option Z) : Prop :=
  exists a d b, tracked_at t a (fst x) d b /\ (snd x = Some d \/ snd x = None /\ seen_bound (fst x) b) /\
    last_scan b = Some s.

Lemma entry_scanned_snoc t s x e : entry_scanned t s x -> asks (fst x) e = false ->
  (forall s', e <> Scanned s') -> entry_scanned (t ++ [e]) s x.
Proof.
  intros (a & d & b & H & Ht & Hl) He Hs. exists a, d, (b ++ [e]). split; [by apply tracked_snoc|]. split.
  - destruct Ht as [Ht|[Ht Hb]]; [by left|right]. split; [done|by apply seen_app].
  - rewrite last_scan_snoc. destruct e; try done. by destruct (Hs s0).
Qed.

Lemma refresh_loop_inv P ts left : forall seen s x s',
  ports_inv (seen ++ left) (trace s) -> Forall (entry_scanned (trace s) (P, ts)) left ->
  refresh_loop seen left P ts s = (Ok x, s') -> ports_inv (m_allocatedPorts s') (trace s').
Proof.
  induction left as [|[p t] left IH]; intros seen s x s' Hinv Hsc; cbn [refresh_loop].
  { intros [= <- <-]. cbn. by rewrite app_nil_r in Hinv. }
  inversion Hsc as [|? ? (a & d & b & Htr & Ht & Hl) Hsc']; subst. cbn [fst snd] in *.
  destruct (in_set p P) eqn:Ep.
  - apply IH; [|done]. rewrite <- app_assoc. eapply ports_inv_replace; [exact Hinv|].
    exists a, d, b. split; [done|]. right. split; [done|]. exists P, ts. split; [by apply last_scan_in|done].
  - destruct (match t with None => true | Some d => d <? ts end) eqn:Et;
      [|intros H; eapply IH; [|exact Hsc'|exact H]; by rewrite <- app_assoc].
    intros (u & s1 & [= <- <-] & H)%bind_ok. apply bind_ok in H as (r & s2 & Hr & H).
    unfold RequestPort in Hr. cbn in Hr. destruct (replies s) as [|[r0|] l]; [done| |done]. injection Hr as <- <-.
    pose proof (fun x => nodup_middle seen p t left x (pi_nodup _ _ Hinv)) as Hne.
    eapply IH; [| |exact H]; cbn.
    + apply (ports_inv_released seen p t left); [done|]. exists a, d, b, P, ts. split; [done|]. split; [done|]. split; [done|].
      destruct Ht as [-> |[-> Hb]]; [left; by apply Z.ltb_lt|by right].
    + rewrite Forall_forall in Hsc' |- *. intros y Hy. apply entry_scanned_snoc; [by apply Hsc'| |done].
      cbn. apply bool_decide_eq_false. intros E. apply (Hne y); [apply elem_of_app; by right|done].
Qed.

Lemma refresh_inv P ts s x s' : ports_inv (m_allocatedPorts s) (trace s) ->
  OnRefreshAllocatedPorts P ts s = (Ok x, s') -> ports_inv (m_allocatedPorts s') (trace s').
Proof.
  intros Hinv. unfold OnRefreshAllocatedPorts. intros (u & s1 & [= <- <-] & H)%bind_ok.
  apply bind_ok in H as (s2 & s3 & [= <- <-] & H). eapply refresh_loop_inv; [| |exact H].
  - cbn. apply ports_inv_log; [done|exact Hinv].
  - cbn. eapply Forall_impl; [exact (pi_entries _ _ Hinv)|]. intros [p t] (a & d & b & Htr & Ht).
    exists a, d, (b ++ [Scanned (P, ts)]). split; [by apply tracked_snoc|]. split.
    + destruct Ht as [Ht|[Ht Hb]]; [by left|right]. split; [done|by apply seen_app].
    + by rewrite last_scan_snoc.
Qed.

(** * Reading calls *)
Lemma read_length r n d : ReadProcessMemory r n = Some d -> Z.of_nat (length d) = n.
Proof.
  unfold ReadProcessMemory. destruct (_ && _ && _); [|done]. destruct (data r) as [d'|]; [|done].
  destruct ((_ =? n) && _) eqn:E; [|done]. intros [= <-]. by bool_to_prop.
Qed.

Lemma ParseSocket_ok ns p so ptr len q : ParseSocket ns p so ptr len = Some (Some q) -> port_ok q.
Proof.
  unfold ParseSocket. destruct (len <? 16) eqn:El; [done|]. destruct (net_namespace p); [|done].
  destruct (negb _); [done|]. destruct (ReadProcessMemory _ _) as [a|] eqn:Er; [|done]. apply read_length in Er.
  destruct (_ || _) eqn:Ef; [done|]. destruct (be16 _ =? 0); [done|]. destruct (GetSocketProtocol _); [|done].
  destruct (still_valid p); [|done]. intros [= <-]. unfold port_ok. cbn [Address]. apply Z.ltb_ge in El.
  destruct (le_val (take 2 a) =? AF_INET) eqn:E4; [rewrite length_app, length_take, length_drop; cbn [length]; lia|].
  destruct (le_val (take 2 a) =? AF_INET6) eqn:E6; [|done]. cbn in Ef. apply Z.ltb_ge in Ef.
  rewrite length_take, length_drop. lia.
Qed.

Lemma call_request_ok ns p c q : call_request ns p c = Some q -> port_ok q.
Proof.
  unfold call_request, GetCallInfo. destruct (Z.testbit _ _).
  - destruct (ParseSocket _ _ _ _ _) as [[r|]|] eqn:E; intros [= <-]. by eapply ParseSocket_ok.
  - destruct (negb _); [done|]. destruct (ReadProcessMemory _ _); [|done].
    destruct (ParseSocket _ _ _ _ _) as [[r|]|] eqn:E; intros [= <-]. by eapply ParseSocket_ok.
Qed.

(** * One turn *)
Section TurnPorts.
Context (ns : bytes) (i : turn_input).

Definition tracked_ports (s : sys) : Prop := ports_inv (m_allocatedPorts s) (trace s).

(** The answer to a call: 0 for one that is let through or whose port is held, else
    what the host says. *)
Definition decision (s : sys) (request : option PortAllocation) : option Z :=
  match request with
  | None => Some 0
  | Some p => if contains p (m_allocatedPorts s) then Some 0 else match replies s with Some r :: _ => Some r | _ => None end
  end.

Lemma handle_bind_ports s req x s' : tracked_ports s -> (forall p, req = Some p -> port_ok p) ->
  handle_bind i req s = (Ok x, s') -> tracked_ports s' /\ m_reply s' = decision s req.
Proof.
  intros Hinv Hp (r & s1 & H1 & H2)%bind_ok. unfold CompleteRequest in H2.
  apply bind_ok in H2 as (s2 & s3 & [= <- <-] & H2). destruct (m_reply s1); [done|]. injection H2 as <- <-. cbn.
  destruct req as [p|]; [|by injection H1 as <- <-]. specialize (Hp p eq_refl). unfold tracked_ports in *.
  apply bind_ok in H1 as (r1 & s2 & H1 & H2). apply bind_ok in H2 as (u & s3 & H2 & [= <- <-]).
  unfold HandleRequest in H1. apply bind_ok in H1 as (s4 & s5 & [= <- <-] & H1).
  pose proof (contains_in p (m_allocatedPorts s) Hp (pi_keys _ _ Hinv)) as Hc.
  unfold decision. destruct (contains p (m_allocatedPorts s)) eqn:Ec.
  - injection H1 as <- <-. cbn in H2. injection H2 as <- <-. cbn. split; [|done].
    rewrite emplace_present by done. by apply ports_inv_log.
  - assert (p ∉ (m_allocatedPorts s).*1) as Hn by (intros H; apply Hc in H; done).
    unfold RequestPort in H1. cbv zeta in H1. match type of H1 with context [replies ?s1] => change (replies s1) with (replies s) in H1 end. destruct (replies s) as [|[r0|] l]; [done| |done]. injection H1 as <- <-.
    destruct (r0 =? 0) eqn:E0; cbn in H2; injection H2 as <- <-; cbn; (split; [|done]).
    + apply Z.eqb_eq in E0 as ->. by apply ports_inv_reserved.
    + apply Z.eqb_neq in E0. by apply ports_inv_refused.
Qed.

Lemma take_refresh_ports b s x s' : tracked_ports s -> take_refresh b s = (Ok x, s') -> tracked_ports s'.
Proof.
  intros Hinv (s1 & s2 & [= <- <-] & H)%bind_ok. destruct (future s); [|by injection H as _ <-].
  destruct (promise s) as [[P ts]|]; [|by injection H as _ <-].
  apply bind_ok in H as (u & s3 & [= <- <-] & H). destruct b; [by injection H as _ <-|].
  by eapply refresh_inv in H.
Qed.

Lemma resume_ports s x s' : resume s = (Ok x, s') -> m_allocatedPorts s' = m_allocatedPorts s /\ trace s' = trace s.
Proof.
  intros (s1 & s2 & [= <- <-] & H)%bind_ok. destruct (refreshResult s); [|by injection H as _ <-].
  destruct (m_allocatedPorts s) eqn:E; [by injection H as _ <-|].
  destruct (retrieved s); [done|]. destruct (refresh_thread s); [done..|]. injection H as _ <-. by rewrite <- E.
Qed.

Lemma turn_ports s x s' : tracked_ports s -> turn ns i s = (Ok x, s') -> tracked_ports s'.
Proof.
  intros Hinv (b & s1 & H1 & H)%bind_ok. apply bind_ok in H as (u & s2 & H2 & H).
  apply bind_ok in H as (u' & s3 & H3 & H4). apply resume_ports in H4 as [E1 E2].
  assert (tracked_ports s1 /\ forall p, b = Some (Some p) -> port_ok p) as [Hinv1 Hb].
  { unfold ReadNextRequest in H1. apply bind_ok in H1 as (s4 & s5 & [= <- <-] & H1).
    destruct (m_request s) as [c|]; [|by injection H1 as <- <-].
    apply bind_ok in H1 as (u2 & s6 & [= <- <-] & [= <- <-]). split; [exact Hinv|]. intros p [= H].
    by eapply call_request_ok. }
  assert (tracked_ports s2) as Hinv2.
  { destruct b as [req|]; [|by injection H2 as _ <-]. eapply handle_bind_ports in H2 as [H2 _]; [exact H2|done|].
    intros p ->. by apply Hb. }
  apply take_refresh_ports in H3; [|done]. unfold tracked_ports in *. by rewrite E1, E2.
Qed.
End TurnPorts.

(** * All runs *)
Section Runs.
Context (ns : bytes) (host : list (option Z)).

Lemma start_rules : rules (start host) /\ tracked_ports (start host).
Proof.
  split; [by split|]. split; cbn; try done; try (by constructor).
  intros pre e post E. by destruct pre.
Qed.

Lemma reachable_inv s : reachable ns host s -> rules s /\ tracked_ports s.
Proof.
  induction 1 as [|s s' _ [[Hh Hd] Hp] Hstep]; [apply start_rules|].
  destruct Hstep as [c s Hin Hreq|c r s Hin Hrep|snap s Ht|snap s Ht Hpr|i s s' Ht].
  - split; [split|].
    + exact Hh.
    + unfold dispatch_ok in *. rewrite Hin in Hd. cbn. rewrite calls_app, answers_app, app_nil_r. cbn.
      destruct Hd as (_ & ? & ->). split; [by left|done].
    + by apply ports_inv_log.
  - split; [split|].
    + exact Hh.
    + unfold dispatch_ok in *. rewrite Hin in Hd. cbn. rewrite calls_app, answers_app, app_nil_r. cbn.
      destruct Hd as [[[_ ?]|[? _]] Ha]; [congruence|]. by rewrite Ha.
    + by apply ports_inv_log.
  - split; [split|]; [|exact Hd|exact Hp]. unfold handshake_ok in *. rewrite Ht in Hh. exact Hh.
  - split; [split|]; [|exact Hd|exact Hp]. unfold handshake_ok in *. rewrite Ht in Hh. cbn. left.
    destruct Hh as (? & ? & _ & ?). done.
  - pose proof (turn_rules ns i s (conj Hh Hd)) as H. rewrite Ht in H. split; [apply H|]. by eapply turn_ports.
Qed.
End Runs.

(** * The properties *)

(** C7: Whatever processes bind, the host answers and the listings show, the ports
    in the tracker's table are exactly those that the host has reserved for the
    guest and was not asked to release, and a port is only asked for while the host
    does not hold it. *)
Theorem host_holds_tracked_ports ns host s : reachable ns host s ->
  (forall p, port_ok p -> contains p (m_allocatedPorts s) = held p (trace s)) /\
  (forall pre p r post, trace s = pre ++ Asked p true r :: post -> held p pre = false).
Proof.
  intros [_ Hp]%reachable_inv. split; [|intros pre p r post E; exact (pi_good _ _ Hp _ _ _ E)].
  intros p Hok. apply eq_true_iff_eq. rewrite contains_in by (done || apply Hp). split; [|apply Hp].
  intros ((q & o) & -> & Hin)%list_elem_of_fmap. pose proof (pi_entries _ _ Hp) as He. rewrite Forall_forall in He.
  destruct (He _ Hin) as (a & d & b & Ht & _). by eapply held_tracked.
Qed.

(** A port is only released when it was reserved and not released since, when
    the last listing since then does not show it, and when either the deadline set
    for its bind() has passed or an earlier listing did show it. *)
Theorem ports_released_late ns host s pre p r post : reachable ns host s ->
  trace s = pre ++ Asked p false r :: post ->
  exists a d b P ts, pre = a ++ Asked p true 0 :: Tracked p d :: b /\ not_asked p b /\
    last_scan b = Some (P, ts) /\ in_set p P = false /\ (d < ts \/ seen_bound p b).
Proof.
  intros [_ Hp]%reachable_inv E. destruct (pi_good _ _ Hp _ _ _ E) as (a & d & b & P & ts & [-> H] & ?).
  by exists a, d, b, P, ts.
Qed.

(** C8: Every process stopped in bind() is answered exactly once and in order: the
    answers given are those of the calls received, but for the one in hand, for
    which the loop's next turn has an answer unless the host's channel fails: 0,
    which lets the call go on, for what is not an IP bind of this network namespace
    or for a port held already, and otherwise what the host says. *)
Theorem calls_answered_once ns host s : reachable ns host s ->
  answers (trace s) ++ match in_call s with Some c => [id c] | None => [] end = calls (trace s) /\
  forall c i s', m_request s = Some c -> turn ns i s = (Ok tt, s') ->
    m_reply s' = decision s (call_request ns (caller i) c).
Proof.
  intros [[Hh Hd] Hp]%reachable_inv. split.
  { unfold dispatch_ok in Hd. destruct (in_call s); [apply Hd|]. rewrite app_nil_r. apply Hd. }
  intros c i s' Hc (b & s1 & H1 & H)%bind_ok. apply bind_ok in H as (u & s2 & H2 & H).
  apply bind_ok in H as (u' & s3 & H3 & H4). unfold ReadNextRequest in H1.
  apply bind_ok in H1 as (s4 & s5 & [= <- <-] & H1). rewrite Hc in H1.
  apply bind_ok in H1 as (u2 & s6 & [= <- <-] & [= <- <-]).
  eapply handle_bind_ports in H2 as [_ H2]; [|exact Hp|intros p; apply call_request_ok].
  assert (leaves m_reply (take_refresh true)) as L1 by (unfold take_refresh; leaves_steps).
  assert (leaves m_reply resume) as L2 by (unfold resume; leaves_steps; by intros ? ? ? [= _ <-]).
  rewrite (L2 _ _ _ H4), (L1 _ _ _ H3), H2. done.
Qed.

(** The loop and the thread that lists the ports never break the rules of what
    they share: no promise is set twice, no future taken twice, no resume sent to a
    thread that does not wait, no answer posted over another; and while ports are
    tracked the thread is not left waiting: after a turn it is on its way to the
    next listing, or its listing lies ready for the next turn. *)
Theorem refresh_never_stuck ns host s i : reachable ns host s ->
  match turn ns i s with
  | (Broken, _) => False
  | (Thrown, _) => True
  | (Ok _, s') => m_allocatedPorts s' <> [] ->
                  refresh_thread s' <> R_waiting \/ (future s' = true /\ promise s' <> None)
  end.
Proof.
  intros [Hr _]%reachable_inv. pose proof (turn_rules ns i s Hr) as H.
  destruct (turn ns i s) as [[x| |] s']; [|done..]. intros Hm. destruct H as [[Hh _] H]. specialize (H Hm).
  unfold handshake_ok in Hh. destruct (refresh_thread s'); [by left..|right].
  destruct Hh as [(? & _ & ? & _)|(_ & _ & _ & ?)]; [done|congruence].
Qed.

(** ** The address of a call *)
Definition sockaddr (family port : Z) (rest : bytes) : bytes := le_bytes 2 family ++ [port / 256; port mod 256] ++ rest.
Definition readable (ns : bytes) (ptr : Z) (sa : bytes) (so : Z) (tries : list (option xattr)) (p : process) : Prop :=
  net_namespace p = Some ns /\ memory p ptr (Z.of_nat (length sa)) = mk_read true true true (Some sa) true /\
  socket_protocol p so = tries /\ still_valid p = true.

(** A 64-bit bind() to an IPv4 or IPv6 address and a port other than 0 is read as
    exactly that port, family, address (IPv4 in the first word) and protocol, after
    any number of attempts at the protocol's name. *)
Theorem bind_call_read ns p c ptr so port rest retries name protocol (v6 : bool) :
  let family := if v6 then AF_INET6 else AF_INET in
  let sa := sockaddr family port rest in
  call_args c = [so; ptr; Z.of_nat (length sa)] -> Z.testbit (arch c) 31 = true -> 0 <= so <= INT_MAX ->
  0 < port < 65536 -> length rest = (if v6 then 24 else 12)%nat ->
  readable ns ptr sa so (replicate retries (Some X_erange) ++ [Some (X_data (name ++ [0]))]) p ->
  (name, protocol) ∈ [(str "TCP", IPPROTO_TCP); (str "TCPv6", IPPROTO_TCP); (str "UDP", IPPROTO_UDP); (str "UDPv6", IPPROTO_UDP)] ->
  call_request ns p c = Some (mk_port (if v6 then take 16 (drop 4 rest) else take 4 rest ++ replicate 12 0) port family protocol).
Proof.
  cbv zeta. intros Hargs Harch Hso Hport Hlen (Hns & Hmem & Hsock & Hval) Hname.
  unfold call_request, GetCallInfo. rewrite Hargs, Harch. cbn [nth].
  assert (to_int so = so) as -> by (unfold to_int, u32, INT_MAX in *; rewrite Z.mod_small by lia; case_if; lia).
  set (sa := sockaddr _ _ _) in *. assert (length sa = if v6 then 28 else 16)%nat as Hsa.
  { subst sa. unfold sockaddr. rewrite !length_app, le_bytes_length, Hlen. by destruct v6. }
  unfold ParseSocket. rewrite (proj2 (Z.ltb_ge _ _)) by (destruct v6; lia).
  rewrite Hns, list_eqb_refl. cbn [negb]. rewrite Hmem. unfold ReadProcessMemory. cbn [opened valid_before sought data valid_after andb].
  rewrite Z.eqb_refl. cbn [andb].
  assert (GetSocketProtocol (socket_protocol p so) = Some protocol) as Hproto.
  { rewrite Hsock. clear -Hname. induction retries as [|n IH]; cbn [replicate app GetSocketProtocol]; [|exact IH].
    rewrite length_app, Nat.add_sub, take_app_length.
    repeat (apply elem_of_cons in Hname as [[= -> ->]|Hname]; [reflexivity|]). by apply elem_of_nil in Hname. }
  assert (be16 (drop 2 sa) = port) as Hp16.
  { subst sa. unfold sockaddr, be16. cbn. pose proof (Z.div_mod port 256). lia. }
  rewrite Hp16, (proj2 (Z.eqb_neq port 0)), Hproto, Hval by lia.
  subst sa. unfold sockaddr in *. destruct v6.
  - change (le_val (take 2 (le_bytes 2 AF_INET6 ++ _))) with AF_INET6. cbn [andb orb negb Z.eqb].
    rewrite Hsa. reflexivity.
  - reflexivity.
Qed.

(** * A concrete run *)
Definition sample_ns : bytes := str "net:[4026531840]".
Definition sample_sa : bytes := sockaddr AF_INET 8080 ([127; 0; 0; 1] ++ replicate 8 0).
Definition sample_process : process :=
  mk_process (Some sample_ns) (fun _ _ => mk_read true true true (Some sample_sa) true)
    (fun _ => [Some X_erange; Some (X_data (str "TCP" ++ [0]))]) true.
Definition sample_call (n : Z) : seccomp_notif := mk_notif n 77 (2 ^ 31 + 62) 49 [3; 4096; 16].
Definition sample_port : PortAllocation := mk_port ([127; 0; 0; 1] ++ replicate 12 0) 8080 AF_INET IPPROTO_TCP.

Lemma bind_call_read_witness : call_request sample_ns sample_process (sample_call 1) = Some sample_port.
Proof.
  apply (bind_call_read sample_ns sample_process (sample_call 1) 4096 3 8080 ([127; 0; 0; 1] ++ replicate 8 0) 1
    (str "TCP") IPPROTO_TCP false); try reflexivity; try (unfold INT_MAX; lia); [by repeat split|left].
Defined.

(** One process binds the port, a listing shows it, it is closed, another process
    binds it, and a listing taken before that bind is complete arrives. *)
Definition sample_turn (t : Z) (s : sys) : sys := snd (turn sample_ns (mk_turn t sample_process) s).
Definition sample_call_steps (n t : Z) (s : sys) : sys :=
  let s1 := log (Notified (sample_call n)) (s <| in_call := Some (sample_call n) |> <| m_request := Some (sample_call n) |>) in
  let s2 := sample_turn t s1 in
  log (response (sample_call n) 0) (s2 <| in_call := None |> <| m_reply := None |>).
Definition sample_listing (P : list PortAllocation) (t : Z) (s : sys) : sys :=
  sample_turn t (s <| refresh_thread := R_listed (P, t) |> <| promise := Some (P, t) |> <| refresh_thread := R_waiting |>).

Definition sample_state1 : sys := sample_call_steps 1 100 (start [Some 0; Some 0]).
Definition sample_state2 : sys := sample_listing [sample_port] 101 sample_state1.
Definition sample_state3 : sys := sample_call_steps 2 102 sample_state2.
Definition sample_state4 : sys := sample_listing [] 103 sample_state3.

Lemma turn_step i s s' : turn sample_ns i s = (Ok tt, s') -> step sample_ns s s'.
Proof. apply S_turn. Qed.

Lemma reach_call n t s : reachable sample_ns [Some 0; Some 0] s -> in_call s = None -> m_request s = None ->
  fst (turn sample_ns (mk_turn t sample_process) (log (Notified (sample_call n)) (s <| in_call := Some (sample_call n) |> <| m_request := Some (sample_call n) |>))) = Ok tt ->
  m_reply (sample_turn t (log (Notified (sample_call n)) (s <| in_call := Some (sample_call n) |> <| m_request := Some (sample_call n) |>))) = Some 0 ->
  in_call (sample_turn t (log (Notified (sample_call n)) (s <| in_call := Some (sample_call n) |> <| m_request := Some (sample_call n) |>))) = Some (sample_call n) ->
  reachable sample_ns [Some 0; Some 0] (sample_call_steps n t s).
Proof.
  intros Hs H1 H2 H3 H4 H5. unfold sample_call_steps. cbv zeta. set (s1 := log (Notified _) _) in *.
  eapply reach_step; [|apply (S_respond _ (sample_call n) 0); [exact H5|exact H4]].
  eapply reach_step; [|apply (turn_step (mk_turn t sample_process) s1); unfold sample_turn; rewrite <- H3; apply surjective_pairing].
  eapply reach_step; [exact Hs|by apply S_notify].
Qed.

Lemma reach_listing P t s : reachable sample_ns [Some 0; Some 0] s -> refresh_thread s = R_listing -> promise s = None ->
  fst (turn sample_ns (mk_turn t sample_process) (s <| refresh_thread := R_listed (P, t) |> <| promise := Some (P, t) |> <| refresh_thread := R_waiting |>)) = Ok tt ->
  reachable sample_ns [Some 0; Some 0] (sample_listing P t s).
Proof.
  intros Hs H1 H2 H3. unfold sample_listing.
  eapply reach_step; [|apply (turn_step (mk_turn t sample_process)); unfold sample_turn; rewrite <- H3; apply surjective_pairing].
  eapply reach_step; [|by apply (S_set _ (P, t) (s <| refresh_thread := R_listed (P, t) |>))].
  eapply reach_step; [exact Hs|by apply S_list].
Qed.

Lemma sample_reachable : reachable sample_ns [Some 0; Some 0] sample_state3 /\ reachable sample_ns [Some 0; Some 0] sample_state4.
Proof.
  assert (reachable sample_ns [Some 0; Some 0] sample_state3) as H.
  { apply reach_call; [|vm_compute; reflexivity..]. apply reach_listing; [|vm_compute; reflexivity..].
    apply reach_call; [apply reach_start|vm_compute; reflexivity..]. }
  split; [exact H|]. apply reach_listing; [exact H|vm_compute; reflexivity..].
Qed.

(** The comment at HandleRequest says that its answer 0 also updates the port's
    timeout; emplace leaves the entry of a known port as it is, so a port bound
    again is released while it is in use. *)
Example rebound_port_is_released :
  m_allocatedPorts sample_state3 = [(sample_port, None)] /\ m_allocatedPorts sample_state4 = [] /\
  List.filter (asks sample_port) (trace sample_state4) = [Asked sample_port true 0; Asked sample_port false 0] /\
  last (answers (trace sample_state4)) = Some 2.
Proof. vm_compute. repeat split. Qed.

Lemma host_holds_tracked_ports_witness :
  (forall p, port_ok p -> contains p (m_allocatedPorts sample_state3) = held p (trace sample_state3)) /\
  (forall pre p r post, trace sample_state3 = pre ++ Asked p true r :: post -> held p pre = false).
Proof. apply (host_holds_tracked_ports sample_ns [Some 0; Some 0]). apply sample_reachable. Defined.

Lemma ports_released_late_witness :
  exists a d b P ts, removelast (trace sample_state4) = a ++ Asked sample_port true 0 :: Tracked sample_port d :: b /\
    not_asked sample_port b /\ last_scan b = Some (P, ts) /\ in_set sample_port P = false /\ (d < ts \/ seen_bound sample_port b).
Proof.
  apply (ports_released_late sample_ns [Some 0; Some 0] sample_state4 _ sample_port 0 []); [apply sample_reachable|].
  vm_compute. reflexivity.
Defined.

Lemma calls_answered_once_witness : answers (trace sample_state4) ++ [] = calls (trace sample_state4).
Proof. exact (proj1 (calls_answered_once sample_ns [Some 0; Some 0] sample_state4 (proj2 sample_reachable))). Defined.

Lemma refresh_never_stuck_witness :
  match turn sample_ns (mk_turn 104 sample_process) sample_state3 with
  | (Broken, _) => False
  | (Thrown, _) => True
  | (Ok _, s') => m_allocatedPorts s' <> [] -> refresh_thread s' <> R_waiting \/ (future s' = true /\ promise s' <> None)
  end.
Proof. apply (refresh_never_stuck sample_ns [Some 0; Some 0]). apply sample_reachable. Defined.
