(* ===== verification/PortTracker.v ===== *)
(** The localhost port tracker (src/FreeBSD/port_tracker.h): which listening
    sockets are relayed, the walk over FreeBSD's pcblist, the sorted snapshot,
    and one polling cycle, which diffs two snapshots and sends the relay
    messages.  The kernel's structures are read by functions that are arguments
    of the walk. *)
From S2P Require Import Prelude CStr CNum Wire.
Import Wire.

Module PortTracker.

Definition LxGnsMessagePortListenerRelayStart : Z := 59.
Definition LxGnsMessagePortListenerRelayStop : Z := 60.
Definition AF_INET : Z := 2.
Definition SO_ACCEPTCONN : Z := 2.
Definition INADDR_LOOPBACK : Z := 2130706433.

(** [addr] holds four words in network order, read on a little-endian machine. *)
Record port_entry : Type := mk_entry { family : Z; port : Z; addr : Z * Z * Z * Z }.

#[export] Instance port_entry_eq_dec : EqDecision port_entry.
Proof. solve_decision. Defined.

Definition ntohl (x : Z) : Z := le_val (rev (le_bytes 4 x)).
Definition htonl (x : Z) : Z := ntohl x.
Definition htons (x : Z) : Z := le_val (rev (le_bytes 2 x)).

Section Tracker.
Context (AF_INET6 : Z).

Definition port_entry_matches_relay (e : port_entry) : bool :=
  let '(a0, a1, a2, a3) := addr e in
  if family e =? AF_INET then
    let a := ntohl a0 in
    (a =? 0) || (a =? INADDR_LOOPBACK)
  else if family e =? AF_INET6 then
    let all_zero := Z.lor (Z.lor (Z.lor a0 a1) a2) a3 =? 0 in
    let v4_compat_loopback :=
      (a0 =? 0) && (a1 =? 0) && (a2 =? htonl 65535) && (a3 =? htonl INADDR_LOOPBACK) in
    let v6_loopback := (a0 =? 0) && (a1 =? 0) && (a2 =? 0) && (a3 =? htonl 1) in
    all_zero || v6_loopback || v4_compat_loopback
  else false.

(** * Snapshots *)
Definition addr_bytes (a : Z * Z * Z * Z) : bytes :=
  let '(a0, a1, a2, a3) := a in
  le_bytes 4 a0 ++ le_bytes 4 a1 ++ le_bytes 4 a2 ++ le_bytes 4 a3.

Definition port_entry_cmp (a b : port_entry) : Z :=
  if negb (family a =? family b) then family a - family b
  else if negb (port a =? port b) then port a - port b
  else memcmp (addr_bytes (addr a)) (addr_bytes (addr b)).

(** [qsort] with the comparator. *)
Fixpoint insert_sorted (e : port_entry) (l : list port_entry) : list port_entry :=
  match l with
  | [] => [e]
  | x :: l' => if port_entry_cmp e x <=? 0 then e :: l else x :: insert_sorted e l'
  end.
Definition qsort (l : list port_entry) : list port_entry := foldr insert_sorted [] l.

(** The compaction loop: [prev] is [arr[out - 1]]. *)
Fixpoint dedup_from (prev : port_entry) (l : list port_entry) : list port_entry :=
  match l with
  | [] => []
  | e :: l' => if port_entry_cmp prev e =? 0 then dedup_from prev l' else e :: dedup_from e l'
  end.
Definition port_entry_dedup_sort (arr : list port_entry) : list port_entry :=
  match qsort arr with
  | [] => []
  | e :: l => e :: dedup_from e l
  end.

(** * The pcblist walk *)

(** What the walk reads of one record. *)
Record pcb : Type := mk_pcb {
  so_qlimit : Z; so_options : Z; inp_lport : Z; s_addr : Z; in6p_laddr : Z * Z * Z * Z
}.

(** The outcome of the two sysctl calls and the allocation for one list. *)
Inductive pcblist : Type :=
| Unavailable
| No_memory
| Listed (buf : bytes).

Section Walk.
Context (sizeof_xinpgen : nat) (xig_len : bytes -> Z) (read_pcb : bytes -> pcb).
(** [realloc_ok n]: growing the result past [n] entries succeeds.
    [inet6]: the code is compiled with INET6. *)
Context (realloc_ok : nat -> bool) (inet6 : bool).

Definition pcb_entry (fam : Z) (b : pcb) : option port_entry :=
  if negb (so_qlimit b =? 0) || negb (Z.land (so_options b) SO_ACCEPTCONN =? 0) then
    if fam =? AF_INET then
      Some (mk_entry (u16 fam) (htons (inp_lport b)) (s_addr b, 0, 0, 0))
    else if inet6 then
      Some (mk_entry (u16 fam) (htons (inp_lport b)) (in6p_laddr b))
    else None
  else None.

Definition append_entry (e : port_entry) (result : list port_entry) : option (list port_entry) :=
  if port_entry_matches_relay e then
    if (Z.of_nat (length result) mod 16 =? 0) && negb (realloc_ok (length result)) then None
    else Some (result ++ [e])
  else Some result.

(** [p] is the rest of the buffer; [None] is the error return. *)
Fixpoint walk (fuel : nat) (fam : Z) (p : bytes) (result : list port_entry) :
    option (list port_entry) :=
  match fuel with
  | O => Some result
  | S fuel' =>
    if Z.of_nat (length p) <? Z.of_nat sizeof_xinpgen then Some result
    else if (xig_len p <? Z.of_nat sizeof_xinpgen) || (xig_len p =? 0) then Some result
    else if Z.of_nat (length p) <? xig_len p then Some result
    else
      let next := drop (Z.to_nat (xig_len p)) p in
      match pcb_entry fam (read_pcb (drop sizeof_xinpgen p)) with
      | None => walk fuel' fam next result
      | Some e =>
        match append_entry e result with
        | None => None
        | Some result' => walk fuel' fam next result'
        end
      end
  end.

Fixpoint collect_lists (lists : list (Z * pcblist)) (result : list port_entry) :
    option (list port_entry) :=
  match lists with
  | [] => Some result
  | (fam, Unavailable) :: ls => collect_lists ls result
  | (_, No_memory) :: _ => None
  | (fam, Listed buf) :: ls =>
    if Z.of_nat (length buf) <? Z.of_nat sizeof_xinpgen then collect_lists ls result
    else
      match walk (length buf) fam (drop sizeof_xinpgen buf) result with
      | None => None
      | Some result' => collect_lists ls result'
      end
  end.

Definition collect_listening_ports (v4 v6 : pcblist) : option (list port_entry) :=
  match collect_lists [(AF_INET, v4); (AF_INET6, v6)] [] with
  | None => None
  | Some total => Some (port_entry_dedup_sort total)
  end.
End Walk.

(** * Relay messages *)

(** The bytes of LX_GNS_PORT_LISTENER_RELAY. *)
Definition relay_bytes (msg_type : Z) (e : port_entry) (seq : Z) : bytes :=
  header_bytes (mk_header msg_type 32 seq)
  ++ le_bytes 2 (family e) ++ le_bytes 2 (htons (port e)) ++ addr_bytes (addr e).

Definition port_tracker_send_relay (evs : list sock_event) (msg_type : Z) (e : port_entry)
    (seq : Z) : xfer :=
  send_all evs (relay_bytes msg_type e seq).

(** * One polling cycle *)

(** A relay message handed to the socket: what was sent of it and the outcome. *)
Record sent_relay : Type := mk_sent {
  s_type : Z; s_entry : port_entry; s_data : bytes; s_rc : option Z
}.
Definition sent_ok (s : sent_relay) : bool :=
  match s_rc s with Some 0 => true | _ => false end.

(** The diff loop over the rest of the current and of the old snapshot. *)
Fixpoint diff_loop (fuel : nat) (evs : list sock_event) (current entries : list port_entry)
    (trace : list sent_relay) : list sock_event * list sent_relay :=
  match fuel with
  | O => (evs, trace)
  | S fuel' =>
    let cmp :=
      match current, entries with
      | [], [] => 0
      | [], _ :: _ => 1
      | _ :: _, [] => -1
      | c :: _, o :: _ => port_entry_cmp c o
      end in
    match current, entries with
    | [], [] => (evs, trace)
    | _, _ =>
      if cmp <? 0 then
        match current with
        | c :: current' =>
          let x := port_tracker_send_relay evs LxGnsMessagePortListenerRelayStart c 0 in
          diff_loop fuel' (x_events x) current' entries
            (trace ++ [mk_sent LxGnsMessagePortListenerRelayStart c (x_data x) (x_rc x)])
        | [] => (evs, trace)
        end
      else if 0 <? cmp then
        match entries with
        | o :: entries' =>
          let x := port_tracker_send_relay evs LxGnsMessagePortListenerRelayStop o 0 in
          diff_loop fuel' (x_events x) current entries'
            (trace ++ [mk_sent LxGnsMessagePortListenerRelayStop o (x_data x) (x_rc x)])
        | [] => (evs, trace)
        end
      else diff_loop fuel' evs (tail current) (tail entries) trace
    end
  end.

Record poll_result : Type := mk_poll {
  p_rc : Z; p_entries : list port_entry; p_trace : list sent_relay
}.

(** [collected] is the outcome of collect_listening_ports. *)
Definition port_tracker_poll (entries : list port_entry) (collected : option (list port_entry))
    (evs : list sock_event) : poll_result :=
  match collected with
  | None => mk_poll (-1) entries []
  | Some current =>
    let fuel := S (length current + length entries) in
    mk_poll 0 current (snd (diff_loop fuel evs current entries []))
  end.

End Tracker.
End PortTracker.
