(* ===== verification/DnsTunnel.v ===== *)
(** The DNS tunnel (src/FreeBSD/dns_tunneling.h): the client tables, the framed
    channel to the host, the event handlers and the passes of the poll loop.
    Outgoing sockets are byte sinks: every send consumes [sock_event]s and
    leaves an [output].  The clock, the descriptors the kernel returns and the
    received data are arguments. *)
From S2P Require Import Prelude CStr CNum Wire.
Import Wire.

Module DnsTunnel.

Definition LxGnsMessageDnsTunneling : Z := 70.
Definition LX_INIT_DNS_SERVER_PORT : Z := 53.
Definition IPPROTO_UDP : Z := 17.
Definition IPPROTO_TCP : Z := 6.
Definition DNS_MAX_UDP_PKTS : nat := 4096.
Definition DNS_MAX_TCP_CONNS : nat := 32.
Definition DNS_MAX_UDP_CLIENTS : nat := 64.
Definition DNS_TCP_READ_BUF : Z := 2 + 65535.

(** * State *)
Record dns_udp_entry : Type := mk_udp {
  u_used : bool; u_id : Z; u_client : bytes; u_client_len : Z; u_deadline_ms : Z
}.
(** [read_buf] is the first [read_len] bytes of the buffer. *)
Record dns_tcp_conn : Type := mk_conn {
  c_used : bool; c_fd : Z; c_id : Z; read_buf : bytes; have_length : bool; expect_len : Z
}.
Record dns_tunnel : Type := mk_tunnel {
  udp_fd : Z; tcp_fd : Z; channel_fd : Z; stopping : bool;
  next_udp_id : Z; next_tcp_id : Z;
  udp_map : list dns_udp_entry; tcp_conns : list dns_tcp_conn
}.
#[export] Instance dns_udp_entry_eta : Eta dns_udp_entry := fun r =>
  mk_udp (u_used r) (u_id r) (u_client r) (u_client_len r) (u_deadline_ms r).
#[export] Instance dns_tcp_conn_eta : Eta dns_tcp_conn := fun r =>
  mk_conn (c_used r) (c_fd r) (c_id r) (read_buf r) (have_length r) (expect_len r).
#[export] Instance dns_tunnel_eta : Eta dns_tunnel := fun r =>
  mk_tunnel (udp_fd r) (tcp_fd r) (channel_fd r) (stopping r) (next_udp_id r) (next_tcp_id r)
    (udp_map r) (tcp_conns r).

(** What leaves the process. *)
Inductive output : Type :=
| To_host (rc : option Z) (data : bytes)
| To_udp (client dns : bytes)
| To_tcp (fd : Z) (rc : option Z) (data : bytes)
| Close (fd : Z).

(** The pending results of the sending calls, and what was done so far. *)
Record io : Type := mk_io { io_events : list sock_event; io_out : list output }.
Definition emit (o : output) (w : io) : io := mk_io (io_events w) (io_out w ++ [o]).

(** * The UDP client map *)
Fixpoint find_index {A} (p : A -> bool) (l : list A) : option (nat * A) :=
  match l with
  | [] => None
  | x :: l' =>
    if p x then Some (0%nat, x)
    else match find_index p l' with Some (i, y) => Some (S i, y) | None => None end
  end.

Definition dns_udp_alloc (t : dns_tunnel) (client : bytes) (client_len now : Z) :
    dns_tunnel * option dns_udp_entry :=
  match find_index (fun e => negb (u_used e)) (udp_map t) with
  | Some (i, _) =>
    let id := u32 (next_udp_id t + 1) in
    let e := mk_udp true id client client_len (now + 30000) in
    (t <| next_udp_id := id |> <| udp_map := <[i := e]> (udp_map t) |>, Some e)
  | None => (t, None)
  end.

Definition udp_has_id (id : Z) (e : dns_udp_entry) : bool := u_used e && (u_id e =? id).

Definition dns_udp_lookup (t : dns_tunnel) (id : Z) : option dns_udp_entry :=
  option_map snd (find_index (udp_has_id id) (udp_map t)).

Definition dns_udp_free (t : dns_tunnel) (id : Z) : dns_tunnel :=
  match find_index (udp_has_id id) (udp_map t) with
  | Some (i, e) => t <| udp_map := <[i := e <| u_used := false |>]> (udp_map t) |>
  | None => t
  end.

(** * The TCP connection table *)
Definition dns_tcp_alloc (t : dns_tunnel) (fd : Z) : dns_tunnel * option dns_tcp_conn :=
  match find_index (fun c => negb (c_used c)) (tcp_conns t) with
  | Some (i, _) =>
    let id := u32 (next_tcp_id t + 1) in
    let c := mk_conn true fd id [] false 0 in
    (t <| next_tcp_id := id |> <| tcp_conns := <[i := c]> (tcp_conns t) |>, Some c)
  | None => (t, None)
  end.

Definition tcp_has_id (id : Z) (c : dns_tcp_conn) : bool := c_used c && (c_id c =? id).

Definition dns_tcp_lookup (t : dns_tunnel) (id : Z) : option (nat * dns_tcp_conn) :=
  find_index (tcp_has_id id) (tcp_conns t).

Definition dns_tcp_close (c : dns_tcp_conn) (w : io) : dns_tcp_conn * io :=
  (c <| c_used := false |> <| c_fd := -1 |>,
   if 0 <=? c_fd c then emit (Close (c_fd c)) w else w).

(** * The channel *)
Definition dns_message (protocol client_id : Z) (dns : bytes) : bytes :=
  header_bytes (mk_header LxGnsMessageDnsTunneling (u32 (20 + Z.of_nat (length dns))) 0)
  ++ [protocol; 0; 0; 0] ++ le_bytes 4 client_id ++ dns.

Definition dns_channel_send (protocol client_id : Z) (dns : bytes) (w : io) : Z * io :=
  let x := send_all (io_events w) (dns_message protocol client_id dns) in
  let w' := emit (To_host (x_rc x) (x_data x)) (mk_io (x_events x) (io_out w)) in
  match x_rc x with
  | Some rc => (if rc <? 0 then -1 else 0, w')
  | None => (-1, w')
  end.

Record client_identifier : Type := mk_id { Protocol : Z; DnsClientId : Z }.

(** The result of the receive, with the rest of the channel's stream. *)
Definition dns_channel_recv (evs : list sock_event) (stream : bytes) :
    option (client_identifier * bytes) * (list sock_event * bytes) :=
  let '(x, stream1) := recv_all evs stream 12 in
  let stop := (None, (x_events x, stream1)) in
  match x_rc x with
  | Some 0 =>
    let hdr := read_header (x_data x) in
    if (MessageSize hdr <? 12) || (65536 + 12 <? MessageSize hdr) then stop
    else
      let payload := MessageSize hdr - 12 in
      let '(y, stream2) := recv_all (x_events x) stream1 (Z.to_nat payload) in
      let rest := (x_events y, stream2) in
      match x_rc y with
      | Some 0 =>
        if negb (MessageType hdr =? LxGnsMessageDnsTunneling) then (None, rest)
        else if payload <? 8 then (None, rest)
        else
          let body := x_data y in
          (Some (mk_id (nth 0 body 0) (get32 4 body), drop 8 body), rest)
      | _ => (None, rest)
      end
  | _ => stop
  end.

(** * Event handlers *)

(** One call of recvfrom, or of accept. *)
Inductive udp_recv : Type :=
| Packet (data client : bytes) (client_len now : Z)
| Udp_again | Udp_intr | Udp_error.
Inductive tcp_accept : Type := Accepted (fd : Z) | Acc_again | Acc_intr | Acc_error.

Fixpoint dns_handle_udp_readable (recvs : list udp_recv) (t : dns_tunnel) (w : io) : dns_tunnel * io :=
  match recvs with
  | [] => (t, w)
  | Udp_intr :: recvs' => dns_handle_udp_readable recvs' t w
  | Packet data client client_len now :: recvs' =>
    match take DNS_MAX_UDP_PKTS data with
    | [] => (t, w)
    | buf =>
      match dns_udp_alloc t client client_len now with
      | (t, None) => (t, w)
      | (t, Some e) =>
        let '(rc, w) := dns_channel_send IPPROTO_UDP (u_id e) buf w in
        if rc <? 0 then (dns_udp_free t (u_id e), w)
        else dns_handle_udp_readable recvs' t w
      end
    end
  | _ => (t, w)
  end.

Fixpoint dns_handle_tcp_accept (accs : list tcp_accept) (t : dns_tunnel) (w : io) : dns_tunnel * io :=
  match accs with
  | [] => (t, w)
  | Acc_intr :: accs' => dns_handle_tcp_accept accs' t w
  | Accepted fd :: accs' =>
    match dns_tcp_alloc t fd with
    | (t, None) => dns_handle_tcp_accept accs' t (emit (Close fd) w)
    | (t, Some _) => dns_handle_tcp_accept accs' t w
    end
  | _ => (t, w)
  end.

(** [ntohs] of the two bytes of the prefix. *)
Definition be16 (buf : bytes) : Z := 256 * nth 0 buf 0 + nth 1 buf 0.

(** The inner loop: extract complete frames; [true] when it closed the
    connection.  Each turn removes at least the two bytes of a prefix. *)
Fixpoint extract_frames (fuel : nat) (c : dns_tcp_conn) (w : io) : dns_tcp_conn * io * bool :=
  match fuel with
  | O => (c, w, false)
  | S fuel' =>
    if negb (have_length c) && (Z.of_nat (length (read_buf c)) <? 2) then (c, w, false)
    else
      let c :=
        if negb (have_length c)
        then c <| expect_len := be16 (read_buf c) |> <| have_length := true |> else c in
      if Z.of_nat (length (read_buf c)) <? 2 + expect_len c then (c, w, false)
      else
        let frame := take (Z.to_nat (expect_len c)) (drop 2 (read_buf c)) in
        let '(rc, w) := dns_channel_send IPPROTO_TCP (c_id c) frame w in
        if rc <? 0 then let '(c, w) := dns_tcp_close c w in (c, w, true)
        else
          let consumed := Z.to_nat (2 + expect_len c) in
          extract_frames fuel'
            (c <| read_buf := drop consumed (read_buf c) |> <| have_length := false |> <| expect_len := 0 |>) w
  end.

(** The receiving loop of a connection over the bytes its client sends. *)
Fixpoint dns_handle_tcp_readable (evs : list sock_event) (stream : bytes) (c : dns_tcp_conn) (w : io) :
    dns_tcp_conn * io * bytes :=
  if DNS_TCP_READ_BUF <=? Z.of_nat (length (read_buf c)) then
    let '(c, w) := dns_tcp_close c w in (c, w, stream)
  else
    match evs with
    | [] => (c, w, stream)
    | Again _ :: _ => (c, w, stream)
    | Intr :: evs' => dns_handle_tcp_readable evs' stream c w
    | Failed :: _ => let '(c, w) := dns_tcp_close c w in (c, w, stream)
    | Progress n :: evs' =>
      match stream with
      | [] => let '(c, w) := dns_tcp_close c w in (c, w, stream)
      | _ =>
        let m := min (S n) (Z.to_nat DNS_TCP_READ_BUF - length (read_buf c)) in
        let c := c <| read_buf := read_buf c ++ take m stream |> in
        let stream := drop m stream in
        match extract_frames (S (length (read_buf c))) c w with
        | (c, w, true) => (c, w, stream)
        | (c, w, false) => dns_handle_tcp_readable evs' stream c w
        end
      end
    end.

Definition dns_route_response (id : client_identifier) (dns : bytes) (t : dns_tunnel) (w : io) :
    dns_tunnel * io :=
  if Protocol id =? IPPROTO_UDP then
    match dns_udp_lookup t (DnsClientId id) with
    | None => (t, w)
    | Some e => (dns_udp_free t (DnsClientId id), emit (To_udp (u_client e) dns) w)
    end
  else if Protocol id =? IPPROTO_TCP then
    match dns_tcp_lookup t (DnsClientId id) with
    | None => (t, w)
    | Some (i, c) =>
      let close w :=
        let '(c', w') := dns_tcp_close c w in (t <| tcp_conns := <[i := c']> (tcp_conns t) |>, w') in
      if 65535 <? Z.of_nat (length dns) then close w
      else
        let n := Z.of_nat (length dns) in
        let x := send_all (io_events w) ([n / 256; n mod 256] ++ dns) in
        let w := emit (To_tcp (c_fd c) (x_rc x) (x_data x)) (mk_io (x_events x) (io_out w)) in
        match x_rc x with
        | Some 0 => (t, w)
        | _ => close w
        end
    end
  else (t, w).

Definition dns_handle_channel_readable (evs : list sock_event) (stream : bytes) (t : dns_tunnel) (w : io) :
    dns_tunnel * io :=
  match fst (dns_channel_recv evs stream) with
  | None => (t <| stopping := true |>, w)
  | Some (id, dns) => dns_route_response id dns t w
  end.

(** * The poll loop *)

(** A polled descriptor, with the connection of conn_map. *)
Definition pollfds (t : dns_tunnel) : list (Z * option nat) :=
  [(udp_fd t, None); (tcp_fd t, None); (channel_fd t, None)]
  ++ omap (fun '(i, c) => if c_used c && (0 <=? c_fd c) then Some (c_fd c, Some i) else None)
       (imap (fun i c => (i, c)) (tcp_conns t)).

(** What poll reports for one descriptor, and what its handler will read. *)
Record ready : Type := mk_ready {
  r_in : bool; r_hup_err : bool;
  r_udp : list udp_recv; r_accept : list tcp_accept;
  r_events : list sock_event; r_stream : bytes
}.

Definition handle_ready (p : Z * option nat) (r : ready) (tw : dns_tunnel * io) : dns_tunnel * io :=
  let '(t, w) := tw in
  if negb (r_in r || r_hup_err r) then (t, w)
  else if fst p =? udp_fd t then dns_handle_udp_readable (r_udp r) t w
  else if fst p =? tcp_fd t then dns_handle_tcp_accept (r_accept r) t w
  else if fst p =? channel_fd t then
    if r_hup_err r then (t <| stopping := true |>, w)
    else dns_handle_channel_readable (r_events r) (r_stream r) t w
  else
    match snd p with
    | None => (t, w)
    | Some i =>
      match tcp_conns t !! i with
      | None => (t, w)
      | Some c =>
        let '(c', w') :=
          if r_hup_err r then dns_tcp_close c w
          else fst (dns_handle_tcp_readable (r_events r) (r_stream r) c w) in
        (t <| tcp_conns := <[i := c']> (tcp_conns t) |>, w')
      end
    end.

Definition handle_all (pfds : list (Z * option nat)) (rs : list ready) (t : dns_tunnel) (w : io) :
    dns_tunnel * io :=
  fold_left (fun tw pr => handle_ready (fst pr) (snd pr) tw) (combine pfds rs) (t, w).

Definition expire_udp (now : Z) (e : dns_udp_entry) : dns_udp_entry :=
  if u_used e && negb (u_deadline_ms e =? 0) && (u_deadline_ms e <? now)
  then e <| u_used := false |> else e.

(** The outcome of one poll call. *)
Inductive poll_outcome : Type :=
| Poll_intr | Poll_error
| Poll_timeout (now : Z)
| Poll_ready (rs : list ready).

Definition shutdown (t : dns_tunnel) (w : io) : dns_tunnel * io :=
  let '(conns, w) :=
    fold_left (fun '(cs, w) c =>
        if c_used c then let '(c', w') := dns_tcp_close c w in (cs ++ [c'], w') else (cs ++ [c], w))
      (tcp_conns t) ([], w) in
  let close fd w := if 0 <=? fd then emit (Close fd) w else w in
  (t <| tcp_conns := conns |> <| udp_fd := -1 |> <| tcp_fd := -1 |> <| channel_fd := -1 |>,
   close (channel_fd t) (close (tcp_fd t) (close (udp_fd t) w))).

(** The loop over the poll outcomes; [true] when it ended and shut down. *)
Fixpoint serve (polls : list poll_outcome) (t : dns_tunnel) (w : io) : dns_tunnel * io * bool :=
  if stopping t then (shutdown t w, true)
  else
    match polls with
    | [] => (t, w, false)
    | Poll_intr :: polls' => serve polls' t w
    | Poll_error :: _ => (shutdown t w, true)
    | Poll_timeout now :: polls' => serve polls' (t <| udp_map := map (expire_udp now) (udp_map t) |>) w
    | Poll_ready rs :: polls' =>
      let '(t, w) := handle_all (pollfds t) rs t w in serve polls' t w
    end.

(** The port after the WSL_DNS_TUNNEL_PORT override. *)
Definition dns_port (port_env : option bytes) : Z :=
  match port_env with
  | Some (c :: s) =>
    let '(p, _, _) := strtol 10 (c :: s) in
    if (0 <? p) && (p <? 65536) then p else LX_INIT_DNS_SERVER_PORT
  | _ => LX_INIT_DNS_SERVER_PORT
  end.

(** [udp_bound], [tcp_bound]: what dns_bind_udp and dns_bind_tcp return. *)
Definition dns_tunnel_run (udp_bound tcp_bound : Z) (polls : list poll_outcome) (t : dns_tunnel) (w : io) :
    dns_tunnel * io * bool :=
  let t := t <| udp_fd := udp_bound |> in
  if udp_fd t <? 0 then (t, w, true)
  else
    let t := t <| tcp_fd := tcp_bound |> in
    if tcp_fd t <? 0 then (t <| udp_fd := -1 |>, emit (Close (udp_fd t)) w, true)
    else serve polls t w.

Definition dns_tunnel_stop (t : dns_tunnel) : dns_tunnel := t <| stopping := true |>.

(** A zeroed tunnel over a channel. *)
Definition tunnel_init (channel : Z) : dns_tunnel :=
  mk_tunnel 0 0 channel false 0 0
    (replicate DNS_MAX_UDP_CLIENTS (mk_udp false 0 [] 0 0))
    (replicate DNS_MAX_TCP_CONNS (mk_conn false 0 0 [] false 0)).

End DnsTunnel.
