(* ===== verification/DnsTunnelThm.v ===== *)
(** Theorems on the DNS tunnel: the tables and the channel (DnsTunnelThm), and
    the descriptors of a run (DnsFdsThm). *)
From stdpp Require Import relations.
From S2P Require Import Prelude CStr CNum Wire ChannelThm DnsTunnel.

Import Wire WireThm DnsTunnel.

Module DnsTunnelThm.

(** * The channel *)
Lemma dns_message_length p id dns : length (dns_message p id dns) = (20 + length dns)%nat.
Proof. unfold dns_message. rewrite !length_app, header_bytes_length, le_bytes_length. simpl. lia. Qed.

Lemma dns_message_header p id dns rest :
  Z.of_nat (length dns) <= 65555 ->
  read_header (take 12 (dns_message p id dns ++ rest))
  = mk_header LxGnsMessageDnsTunneling (20 + Z.of_nat (length dns)) 0.
Proof.
  intros H. unfold dns_message. rewrite <-app_assoc.
  rewrite <-(header_bytes_length (mk_header LxGnsMessageDnsTunneling (u32 (20 + Z.of_nat (length dns))) 0)).
  rewrite take_app_length. rewrite <-(app_nil_r (header_bytes _)).
  rewrite read_header_bytes; unfold u32, LxGnsMessageDnsTunneling; rewrite ?Z.mod_small; lia || done.
Qed.

(** What the guest sends for a client the receiving side of the channel
    hands back unchanged, whatever the sizes of the reads, leaving the stream
    at the next message. *)
Theorem channel_roundtrip evs p id dns rest :
  0 <= id < 2 ^ 32 -> Z.of_nat (length dns) <= 65528 ->
  healthy evs -> (20 + length dns <= progress evs)%nat ->
  exists evs', dns_channel_recv evs (dns_message p id dns ++ rest)
               = (Some (mk_id p id, dns), (evs', rest)).
Proof.
  intros Hid Hl Hh Hp. unfold dns_channel_recv.
  pose proof (dns_message_length p id dns) as Hm.
  destruct (recv_all_complete evs (dns_message p id dns ++ rest) 12) as (evs1 & -> & Hh1 & Hp1);
    [done|lia|rewrite length_app; lia|].
  cbn [x_rc x_data x_events]. rewrite dns_message_header by lia. cbn [MessageSize MessageType].
  replace (20 + Z.of_nat (length dns) <? 12) with false by (symmetry; apply Z.ltb_ge; lia).
  replace (65536 + 12 <? 20 + Z.of_nat (length dns)) with false by (symmetry; apply Z.ltb_ge; lia).
  cbn [orb].
  assert (drop 12 (dns_message p id dns ++ rest) = ([p; 0; 0; 0] ++ le_bytes 4 id ++ dns) ++ rest) as ->.
  { unfold dns_message. rewrite <-app_assoc. by rewrite <-(header_bytes_length (mk_header
      LxGnsMessageDnsTunneling (u32 (20 + Z.of_nat (length dns))) 0)), drop_app_length. }
  replace (Z.to_nat (20 + Z.of_nat (length dns) - 12))
    with (length ([p; 0; 0; 0] ++ le_bytes 4 id ++ dns))
    by (rewrite !length_app, le_bytes_length; simpl; lia).
  destruct (recv_all_complete evs1 (([p; 0; 0; 0] ++ le_bytes 4 id ++ dns) ++ rest)
              (length ([p; 0; 0; 0] ++ le_bytes 4 id ++ dns))) as (evs2 & -> & _ & _);
    [done|rewrite !length_app, le_bytes_length; simpl; lia|rewrite (length_app _ rest); lia|].
  cbn [x_rc x_data x_events]. rewrite take_app_length, drop_app_length. cbn [negb Z.eqb Pos.eqb LxGnsMessageDnsTunneling].
  replace (20 + Z.of_nat (length dns) - 12 <? 8) with false by (symmetry; apply Z.ltb_ge; lia).
  exists evs2. unfold get32. rewrite (get_le_app 4 4 [p; 0; 0; 0]) by done.
  rewrite Z.mod_small by (simpl; lia). done.
Qed.

Lemma channel_roundtrip_witness :
  exists evs', dns_channel_recv (replicate 30 (Progress 3)) (dns_message 17 5 [1; 2; 3] ++ [9])
               = (Some (mk_id 17 5, [1; 2; 3]), (evs', [9])).
Proof.
  apply (channel_roundtrip (replicate 30 (Progress 3)) 17 5 [1; 2; 3] [9]).
  - lia.
  - simpl; lia.
  - repeat constructor.
  - vm_compute. lia.
Defined.

(** * Frames of DNS over TCP *)
Definition frame (f : bytes) : bytes := [Z.of_nat (length f) / 256; Z.of_nat (length f) mod 256] ++ f.

(** A buffer that holds no complete frame. *)
Definition incomplete (s : bytes) : Prop :=
  (length s < 2)%nat \/ Z.of_nat (length s) < 2 + be16 s.

(** [s] is the frames [fs] followed by an incomplete one. *)
Definition framed (s : bytes) (fs : list bytes) (r : bytes) : Prop :=
  s = concat (map frame fs) ++ r /\ incomplete r /\ Forall (fun f => Z.of_nat (length f) <= 65535) fs.

Lemma framed_app a b fs r fs' r' : framed a fs r -> framed (r ++ b) fs' r' -> framed (a ++ b) (fs ++ fs') r'.
Proof.
  intros (-> & _ & H1) (H2 & H3 & H4). split; [|split; [done|by apply Forall_app]].
  by rewrite <-app_assoc, H2, map_app, concat_app, app_assoc.
Qed.

Lemma be16_bound s : bytes_ok s -> 0 <= be16 s <= 65535.
Proof.
  intros H. unfold be16.
  assert (forall i, is_byte (nth i s 0)) as Hn.
  { intros i. destruct (nth_in_or_default i s 0) as [Hi| ->]; [|unfold is_byte; lia].
    unfold bytes_ok in H. rewrite Forall_forall in H. apply H. by apply list_elem_of_In. }
  pose proof (Hn 0%nat). pose proof (Hn 1%nat). unfold is_byte in *. lia.
Qed.

Lemma frame_split s :
  bytes_ok s -> 2 + be16 s <= Z.of_nat (length s) -> (2 <= length s)%nat ->
  s = frame (take (Z.to_nat (be16 s)) (drop 2 s)) ++ drop (Z.to_nat (2 + be16 s)) s
  /\ length (take (Z.to_nat (be16 s)) (drop 2 s)) = Z.to_nat (be16 s).
Proof.
  intros Hb Hl H2. pose proof (be16_bound s Hb) as Hr.
  destruct s as [|x [|y s]]; [cbn in H2; lia..|]. change (drop 2 (x :: y :: s)) with s.
  assert (length (take (Z.to_nat (be16 (x :: y :: s))) s) = Z.to_nat (be16 (x :: y :: s))) as Hlen.
  { rewrite length_take. cbn [length] in Hl. lia. }
  split; [|done]. unfold frame. rewrite Hlen, Z2Nat.id by lia.
  replace (Z.to_nat (2 + be16 (x :: y :: s))) with (S (S (Z.to_nat (be16 (x :: y :: s))))) by lia.
  cbn [drop app]. apply Forall_cons in Hb as [Hx Hb]. apply Forall_cons in Hb as [Hy _].
  unfold is_byte in *. unfold be16 at 1 2. cbn [nth].
  rewrite (Z.add_comm (256 * x)), (Z.mul_comm 256), Z.div_add, Z.mod_add, Z.div_small, Z.mod_small by lia.
  rewrite Z.add_0_l. do 2 f_equal. symmetry. apply take_drop.
Qed.

(** A connection between two extractions. *)
Definition conn_wf (c : dns_tcp_conn) : Prop :=
  bytes_ok (read_buf c) /\
  (have_length c = true -> (2 <= length (read_buf c))%nat /\ expect_len c = be16 (read_buf c)).

Definition same_conn (c c' : dns_tcp_conn) : Prop :=
  c_used c' = c_used c /\ c_fd c' = c_fd c /\ c_id c' = c_id c.

Definition host_messages (c : dns_tcp_conn) (fs : list bytes) : list output :=
  map (fun f => To_host (Some 0) (dns_message IPPROTO_TCP (c_id c) f)) fs.

Lemma channel_send_ok p id dns w :
  healthy (io_events w) -> (20 + length dns <= progress (io_events w))%nat ->
  exists w', dns_channel_send p id dns w = (0, w')
    /\ io_out w' = io_out w ++ [To_host (Some 0) (dns_message p id dns)]
    /\ healthy (io_events w')
    /\ (progress (io_events w) <= progress (io_events w') + (20 + length dns))%nat.
Proof.
  intros Hh Hp. unfold dns_channel_send.
  destruct (send_all_complete (io_events w) (dns_message p id dns)) as (evs' & -> & Hh' & Hp');
    [done|by rewrite dns_message_length|]. rewrite dns_message_length in Hp'.
  eexists. split; [reflexivity|]. by repeat split.
Qed.

Lemma extract_frames_spec fuel c w :
  conn_wf c -> (length (read_buf c) < fuel)%nat ->
  healthy (io_events w) -> (10 * length (read_buf c) <= progress (io_events w))%nat ->
  exists c' w' fs, extract_frames fuel c w = (c', w', false)
    /\ framed (read_buf c) fs (read_buf c') /\ conn_wf c' /\ same_conn c c'
    /\ io_out w' = io_out w ++ host_messages c fs
    /\ healthy (io_events w')
    /\ (progress (io_events w) + 10 * length (read_buf c')
        <= progress (io_events w') + 10 * length (read_buf c))%nat.
Proof.
  revert c w; induction fuel as [|fuel IH]; intros c w [Hb Hw] Hf Hh Hp; [lia|]. cbn [extract_frames].
  assert (Hstop : forall c1, read_buf c1 = read_buf c -> conn_wf c1 -> same_conn c c1 -> incomplete (read_buf c) ->
    exists c' w' fs, (c1, w, false) = (c', w', false)
    /\ framed (read_buf c) fs (read_buf c') /\ conn_wf c' /\ same_conn c c'
    /\ io_out w' = io_out w ++ host_messages c fs
    /\ healthy (io_events w')
    /\ (progress (io_events w) + 10 * length (read_buf c')
        <= progress (io_events w') + 10 * length (read_buf c))%nat).
  { intros c1 H1 H2 H3 H4. exists c1, w, []. rewrite app_nil_r, H1. repeat split; try done; by apply H2 || apply H3. }
  destruct (negb (have_length c) && _) eqn:E1.
  { bool_to_prop. apply Hstop; [done|done|done|left; lia]. }
  set (c1 := if negb (have_length c) then _ else c).
  assert (read_buf c1 = read_buf c /\ same_conn c c1 /\ expect_len c1 = be16 (read_buf c)
          /\ have_length c1 = true /\ (2 <= length (read_buf c))%nat) as (R1 & S1 & E2 & L1 & H2).
  { subst c1. destruct (have_length c) eqn:Hlc; cbn [negb andb] in *.
    - destruct (Hw eq_refl). by repeat split.
    - bool_to_prop. repeat split; cbn; lia. }
  clearbody c1. rewrite R1, E2. case_if.
  { apply Hstop; [done|split; rewrite R1; auto|done|right; lia]. }
  destruct (frame_split (read_buf c) Hb ltac:(lia) H2) as [Hsplit Hlen].
  set (f := take _ (drop 2 (read_buf c))) in *. pose proof (be16_bound _ Hb) as Hr.
  destruct S1 as (SU & SF & SI). rewrite SI.
  destruct (channel_send_ok IPPROTO_TCP (c_id c) f w) as (w1 & -> & O1 & Hh1 & Hp1); [done|lia|].
  cbn [Z.ltb Z.compare].
  set (rest := drop (Z.to_nat (2 + be16 (read_buf c))) (read_buf c)) in *.
  set (c2 := (_ <| read_buf := rest |> <| have_length := false |> <| expect_len := 0 |>)).
  assert (read_buf c2 = rest) as R2 by done. assert (have_length c2 = false) as L2 by done.
  assert (same_conn c c2) as S2 by done. assert (length rest = length (read_buf c) - 2 - length f)%nat as Lr.
  { subst rest. rewrite length_drop, Hlen. lia. }
  destruct (IH c2 w1) as (c' & w' & fs & -> & F & Wc & Sc & O & Hh' & Hp').
  - split; [rewrite R2; by apply Forall_drop|by rewrite L2].
  - rewrite R2. lia.
  - done.
  - rewrite R2. lia.
  - exists c', w', (f :: fs). split; [done|]. split; [|split; [done|]].
    + rewrite R2 in F. destruct F as (F1 & F2 & F3). split; [|split; [done|]].
      * cbn [map concat]. rewrite <-app_assoc, <-F1. exact Hsplit.
      * constructor; [lia|done].
    + destruct Sc as (? & ? & ?), S2 as (? & ? & HI). split; [repeat split; congruence|].
      split; [|split; [done|]].
      * rewrite O, O1, <-app_assoc. unfold host_messages. by rewrite HI.
      * rewrite R2 in Hp'. lia.
Qed.

Lemma incomplete_room s : bytes_ok s -> incomplete s -> Z.of_nat (length s) < DNS_TCP_READ_BUF.
Proof. intros Hb [?|?]; pose proof (be16_bound s Hb); unfold DNS_TCP_READ_BUF; lia. Qed.

(** The result of feeding a connection: [k] bytes of its stream were read, the
    messages to the host are the complete frames among the bytes received so
    far, and either the connection keeps the incomplete rest, or the client
    had closed and so is the connection. *)
Definition fed (c : dns_tcp_conn) (w : io) (stream : bytes) (turns : nat)
    (r : dns_tcp_conn * io * bytes) : Prop :=
  let '(c', w', stream') := r in
  exists k fs rest,
    stream' = drop k stream /\ (k <= length stream)%nat
    /\ framed (read_buf c ++ take k stream) fs rest
    /\ ((c_used c' = c_used c /\ c_fd c' = c_fd c /\ read_buf c' = rest
         /\ io_out w' = io_out w ++ host_messages c fs
         /\ (min turns (length stream) <= k)%nat)
        \/ (c_used c' = false /\ c_fd c' = -1 /\ k = length stream
            /\ io_out w' = io_out w ++ host_messages c fs
                           ++ (if 0 <=? c_fd c then [Close (c_fd c)] else []))).

Lemma tcp_readable_fed evs stream c w :
  Forall (working retry_intr) evs -> conn_wf c -> incomplete (read_buf c) -> bytes_ok stream ->
  healthy (io_events w) ->
  (10 * (length (read_buf c) + length stream) <= progress (io_events w))%nat ->
  fed c w stream (progress evs) (dns_handle_tcp_readable evs stream c w).
Proof.
  intros He. revert stream c w. induction He as [|e evs He _ IH]; intros stream c w Hc Hi Hs Hh Hp;
    cbn [dns_handle_tcp_readable]; pose proof (incomplete_room _ (proj1 Hc) Hi) as Hroom;
    (case_if; [lia|]).
  - exists 0%nat, [], (read_buf c). rewrite !app_nil_r. split; [done|]. split; [lia|].
    split; [done|]. left. repeat split. cbn. lia.
  - rewrite progress_cons. destruct e as [n|r| |]; cbn in He; try done.
    2: { by apply (IH stream). }
    destruct stream as [|b stream].
    { cbn [dns_tcp_close]. exists 0%nat, [], (read_buf c). rewrite !app_nil_r. split; [done|].
      split; [cbn; lia|]. split; [done|]. right. unfold dns_tcp_close.
      repeat split. by case_if; cbn; rewrite ?app_nil_r. }
    set (s := b :: stream) in *. assert (1 <= length s)%nat as Hs1 by (subst s; cbn; lia). clearbody s.
    set (m := min _ _). assert (1 <= m)%nat as Hm by (unfold m, DNS_TCP_READ_BUF in *; lia).
    set (c1 := c <| read_buf := read_buf c ++ take m s |>).
    assert (length (take m s) + length (drop m s) = length s)%nat as Hsplit
      by (rewrite <-length_app, take_drop; done).
    assert (read_buf c1 = read_buf c ++ take m s) as R1 by done.
    assert (conn_wf c1) as W1.
    { destruct Hc as [Hb Hl]. split; [rewrite R1; apply Forall_app; split; [done|by apply Forall_take]|].
      rewrite R1. intros HL. destruct (Hl HL) as [H2 Hx]. rewrite length_app. split; [lia|].
      change (expect_len c1) with (expect_len c). rewrite Hx. unfold be16.
      rewrite !app_nth1 by lia. done. }
    destruct (extract_frames_spec (S (length (read_buf c1))) c1 w W1)
      as (c2 & w2 & fs & -> & F & W2 & (SU & SF & SI) & O & Hh2 & Hp2); [lia|done|rewrite R1, length_app; lia|].
    rewrite R1, length_app in Hp2.
    pose proof (IH (drop m s) c2 w2 W2 (proj1 (proj2 F)) (Forall_drop _ _ _ Hs) Hh2 ltac:(lia)) as Hfed.
    destruct (dns_handle_tcp_readable evs (drop m s) c2 w2) as [[c' w'] stream'].
    destruct Hfed as (k & fs' & rest & -> & Hk & F' & Hcase).
    assert (framed (read_buf c ++ take (m + k) s) (fs ++ fs') rest) as F2.
    { rewrite <-take_take_drop, app_assoc. eapply framed_app; [|exact F']. by rewrite <-R1. }
    assert (host_messages c2 fs' = host_messages c fs') as HM by (unfold host_messages; by rewrite SI).
    assert (host_messages c1 fs = host_messages c fs) as HM1 by done.
    rewrite length_drop in Hk, Hcase.
    destruct (decide (m <= length s)%nat) as [Hle|Hgt].
    + exists (m + k)%nat, (fs ++ fs'), rest. rewrite drop_drop. split; [done|]. split; [lia|]. split; [done|].
      unfold host_messages. rewrite map_app. fold (host_messages c fs) (host_messages c fs').
      destruct Hcase as [(-> & -> & -> & -> & Hk')|(-> & -> & -> & ->)]; [left|right];
        rewrite ?SU, ?SF, HM, O, HM1, <-!app_assoc; repeat split; lia.
    + assert (k = 0)%nat as -> by lia. exists (length s), (fs ++ fs'), rest.
      rewrite Nat.add_0_r in F2. rewrite (take_ge s m) in F2 by lia.
      rewrite (take_ge s (length s)), drop_0, !drop_ge by lia. split; [done|]. split; [done|]. split; [done|].
      unfold host_messages. rewrite map_app. fold (host_messages c fs) (host_messages c fs').
      destruct Hcase as [(-> & -> & -> & -> & Hk')|(-> & -> & Hk' & ->)]; [left|right];
        rewrite ?SU, ?SF, HM, O, HM1, <-!app_assoc; repeat split; lia.
Qed.

(** However the bytes of a DNS-over-TCP client are cut into reads, the
    host has been sent exactly the complete frames among the bytes read, in
    order and each once; the rest stays buffered, the read-buffer overflow
    never happens, at least one byte is read on every turn, and the connection
    is closed only at the end of the client's stream. *)
Theorem tcp_frames_reassembled evs stream fd id w :
  Forall (working retry_intr) evs -> bytes_ok stream -> healthy (io_events w) ->
  (10 * length stream <= progress (io_events w))%nat ->
  let c := mk_conn true fd id [] false 0 in
  fed c w stream (progress evs) (dns_handle_tcp_readable evs stream c w).
Proof.
  intros He Hs Hh Hp c. apply tcp_readable_fed; try done; [split; [constructor|done]|left; cbn; lia].
Qed.

Lemma tcp_frames_reassembled_witness :
  let stream := frame [1; 2; 3] ++ frame [4] ++ [0] in
  let w := mk_io (replicate 120 (Progress 2)) [] in
  fed (mk_conn true 7 1 [] false 0) w stream 4
    (dns_handle_tcp_readable [Progress 0; Intr; Progress 2; Progress 1; Progress 0] stream
       (mk_conn true 7 1 [] false 0) w).
Proof.
  apply (tcp_frames_reassembled [Progress 0; Intr; Progress 2; Progress 1; Progress 0]).
  - repeat constructor.
  - vm_compute. repeat constructor; discriminate.
  - apply Forall_replicate. exact I.
  - vm_compute. lia.
Defined.

Example tcp_frames_example :
  let w := mk_io (replicate 120 (Progress 20)) [] in
  let '(c, w', s) := dns_handle_tcp_readable [Progress 0; Intr; Progress 2; Progress 9]
      (frame [1; 2; 3] ++ frame [4] ++ [0]) (mk_conn true 7 1 [] false 0) w in
  io_out w' = [To_host (Some 0) (dns_message 6 1 [1; 2; 3]); To_host (Some 0) (dns_message 6 1 [4])]
  /\ read_buf c = [0] /\ s = [].
Proof. vm_compute. auto. Qed.

(** * The client tables *)
Lemma find_index_some {A} (p : A -> bool) l i x :
  find_index p l = Some (i, x) -> l !! i = Some x /\ p x = true /\ (forall j y, (j < i)%nat -> l !! j = Some y -> p y = false).
Proof.
  revert i x; induction l as [|y l IH]; intros i x; cbn; [done|]. destruct (p y) eqn:E.
  - intros [= <- <-]. repeat split; try done. lia.
  - destruct (find_index p l) as [[j z]|]; [|done]. intros [= <- <-].
    destruct (IH _ _ eq_refl) as (H1 & H2 & H3). repeat split; try done.
    intros [|k] y' Hk; cbn; [by intros [= <-]|]. apply H3. lia.
Qed.

Lemma find_index_none {A} (p : A -> bool) l :
  find_index p l = None <-> Forall (fun x => p x = false) l.
Proof.
  induction l as [|y l IH]; cbn; [done|]. rewrite Forall_cons. destruct (p y) eqn:E; [naive_solver|].
  destruct (find_index p l) as [[j z]|]; naive_solver.
Qed.

(** Live entries carry distinct identifiers, none above the counter. *)
Definition udp_ids_ok (t : dns_tunnel) : Prop :=
  (forall i e, udp_map t !! i = Some e -> u_used e = true -> 0 < u_id e <= next_udp_id t)
  /\ (forall i j e f, udp_map t !! i = Some e -> udp_map t !! j = Some f ->
        u_used e = true -> u_used f = true -> u_id e = u_id f -> i = j).

Lemma udp_lookup_at t i e :
  udp_ids_ok t -> udp_map t !! i = Some e -> u_used e = true ->
  find_index (udp_has_id (u_id e)) (udp_map t) = Some (i, e).
Proof.
  intros [_ Hd] Hi Hu. destruct (find_index _ _) as [[j f]|] eqn:E.
  - apply find_index_some in E as (Hj & Hf & _). unfold udp_has_id in Hf. bool_to_prop.
    assert (j = i) as -> by (by eapply Hd). congruence.
  - apply find_index_none in E. rewrite Forall_lookup in E. apply E in Hi. unfold udp_has_id in Hi.
    rewrite Hu, Z.eqb_refl in Hi. done.
Qed.

(** A lookup only depends on the live entries. *)
Lemma udp_lookup_char t id e :
  udp_ids_ok t ->
  dns_udp_lookup t id = Some e <-> u_id e = id /\ exists i, udp_map t !! i = Some e /\ u_used e = true.
Proof.
  intros Ht. unfold dns_udp_lookup. split.
  - destruct (find_index _ _) as [[j f]|] eqn:E; [|done]. intros [= ->].
    apply find_index_some in E as (Hj & Hf & _). unfold udp_has_id in Hf. bool_to_prop. eauto.
  - intros [<- (i & Hi & Hu)]. by rewrite (udp_lookup_at t i e).
Qed.

Lemma insert_inv {A} (l : list A) i x j y :
  <[i := x]> l !! j = Some y -> (i = j /\ x = y /\ is_Some (l !! i)) \/ (i <> j /\ l !! j = Some y).
Proof.
  intros H. apply list_lookup_insert_Some in H as [(-> & -> & Hlt)|[Hne H]]; [left|by right].
  repeat split. by apply lookup_lt_is_Some_2.
Qed.

(** Two tables with the same live entries bind the same identifiers. *)
Lemma lookup_ext t t' id :
  udp_ids_ok t -> udp_ids_ok t' ->
  (forall e, u_id e = id -> (exists i, udp_map t !! i = Some e /\ u_used e = true)
             <-> exists i, udp_map t' !! i = Some e /\ u_used e = true) ->
  dns_udp_lookup t id = dns_udp_lookup t' id.
Proof.
  intros H H' Heq. destruct (dns_udp_lookup t id) as [e|] eqn:E.
  - apply udp_lookup_char in E as [Hid He]; [|done]. symmetry. apply udp_lookup_char; [done|].
    split; [done|]. by apply Heq.
  - destruct (dns_udp_lookup t' id) as [e|] eqn:E'; [|done].
    apply udp_lookup_char in E' as [Hid He]; [|done]. apply Heq in He; [|done].
    assert (dns_udp_lookup t id = Some e) by (by apply udp_lookup_char). congruence.
Qed.

Lemma udp_alloc_ok t client len now t' e :
  udp_ids_ok t -> 0 <= next_udp_id t < 2 ^ 32 - 1 ->
  dns_udp_alloc t client len now = (t', Some e) ->
  udp_ids_ok t' /\ u_client e = client /\ u_id e = next_udp_id t + 1 /\ next_udp_id t' = next_udp_id t + 1
  /\ (exists i, udp_map t' = <[i := e]> (udp_map t) /\ exists f, udp_map t !! i = Some f /\ u_used f = false)
  /\ u_used e = true.
Proof.
  intros [Hn Hd] Hlt. unfold dns_udp_alloc. destruct (find_index _ _) as [[i f]|] eqn:E; [|done].
  intros [= <- <-]. unfold u32. rewrite Z.mod_small by lia.
  apply find_index_some in E as (Hi & Hf & _). apply negb_true_iff in Hf. split; [split|].
  - cbn. intros j g Hj Hu. apply insert_inv in Hj as [(-> & <- & _)|[Hne Hj]]; [cbn; lia|].
    specialize (Hn j g Hj Hu). lia.
  - cbn. intros j k g h Hj Hk Hg Hh Hid.
    apply insert_inv in Hj as [(-> & <- & _)|[Hne Hj]], Hk as [(-> & <- & _)|[Hne' Hk]]; try done.
    + cbn in Hid. specialize (Hn k h Hk Hh). lia.
    + cbn in Hid. specialize (Hn j g Hj Hg). lia.
    + by apply (Hd j k g h).
  - repeat split. exists i. split; [done|]. by exists f.
Qed.

Lemma udp_free_ok t id :
  udp_ids_ok t ->
  udp_ids_ok (dns_udp_free t id) /\ next_udp_id (dns_udp_free t id) = next_udp_id t
  /\ forall e, (exists i, udp_map (dns_udp_free t id) !! i = Some e /\ u_used e = true)
       <-> u_id e <> id /\ exists i, udp_map t !! i = Some e /\ u_used e = true.
Proof.
  intros Ht. pose proof Ht as [Hn Hd]. unfold dns_udp_free.
  destruct (find_index _ _) as [[i e]|] eqn:E.
  - apply find_index_some in E as (Hi & He & _). unfold udp_has_id in He. bool_to_prop.
    set (e' := e <| u_used := false |>). assert (u_used e' = false) as Hu' by done. clearbody e'.
    split; [split|split; [done|]].
    + cbn. intros j g Hj Hu. apply insert_inv in Hj as [(-> & <- & _)|[Hne Hj]]; [congruence|by eapply Hn].
    + cbn. intros j k g h Hj Hk Hg Hh Hid.
      apply insert_inv in Hj as [(-> & <- & _)|[Hne Hj]], Hk as [(-> & <- & _)|[Hne' Hk]]; try congruence.
      by apply (Hd j k g h).
    + intros g. cbn. split.
      * intros (j & Hj & Hg). apply insert_inv in Hj as [(-> & <- & _)|[Hne Hj]]; [congruence|].
        split; [|by exists j]. intros Hid. apply Hne. eapply Hd; [exact Hi|exact Hj| | |]; congruence.
      * intros (Hid & j & Hj & Hg). exists j. split; [|done].
        rewrite list_lookup_insert_ne; [done|]. intros ->. congruence.
  - split; [done|]. split; [done|]. intros g. split; [|naive_solver].
    intros (j & Hj & Hg). split; [|by exists j]. intros Hid. apply find_index_none in E.
    rewrite Forall_lookup in E. apply E in Hj. unfold udp_has_id in Hj. rewrite Hg in Hj.
    cbn [andb] in Hj. bool_to_prop. done.
Qed.

(** The UDP client map behaves as a finite map from identifiers to
    clients: allocating binds a fresh identifier and nothing else, freeing
    unbinds one identifier and nothing else, and a full table changes nothing;
    identifiers of live entries stay distinct. *)
Theorem udp_map_refines_finite_map t client len now id :
  udp_ids_ok t -> 0 <= next_udp_id t < 2 ^ 32 - 1 ->
  (match dns_udp_alloc t client len now with
   | (t', Some e) =>
       udp_ids_ok t' /\ u_client e = client /\ dns_udp_lookup t (u_id e) = None
       /\ forall k, dns_udp_lookup t' k = if k =? u_id e then Some e else dns_udp_lookup t k
   | (t', None) => t' = t /\ Forall (fun e => u_used e = true) (udp_map t)
   end)
  /\ udp_ids_ok (dns_udp_free t id)
  /\ forall k, dns_udp_lookup (dns_udp_free t id) k = if k =? id then None else dns_udp_lookup t k.
Proof.
  intros Ht Hlt. split; [|split; [by apply udp_free_ok|]].
  - destruct (dns_udp_alloc t client len now) as [t' [e|]] eqn:E.
    + destruct (udp_alloc_ok _ _ _ _ _ _ Ht Hlt E) as (Ht' & Hc & Hid & Hnx & (i & Hm & f & Hf & Hfu) & Hu).
      split; [done|]. split; [done|]. split.
      * destruct (dns_udp_lookup t (u_id e)) as [g|] eqn:G; [|done].
        apply udp_lookup_char in G as [Hgid (j & Hj & Hg)]; [|done].
        pose proof (proj1 Ht j g Hj Hg). lia.
      * assert ((i < length (udp_map t))%nat) as Hil by (apply lookup_lt_Some in Hf; done).
        intros k. case_if.
        -- subst k. apply udp_lookup_char; [done|]. split; [done|]. exists i.
           rewrite Hm, list_lookup_insert_eq by done. done.
        -- apply lookup_ext; [done|done|]. intros g Hg. rewrite Hm. split; intros (j & Hj & Hgu); exists j.
           ++ apply insert_inv in Hj as [(-> & <- & _)|[_ Hj]]; [congruence|done].
           ++ split; [|done]. rewrite list_lookup_insert_ne; [done|]. intros ->. congruence.
    + unfold dns_udp_alloc in E. destruct (find_index _ _) as [[i f]|] eqn:F; [done|].
      injection E as <-. split; [done|]. apply find_index_none in F.
      eapply Forall_impl_hint; [exact F|]. intros x Hx. by apply negb_false_iff in Hx.
  - destruct (udp_free_ok t id Ht) as (Ht' & _ & Hm). intros k. case_if.
    + subst k. destruct (dns_udp_lookup (dns_udp_free t id) id) as [e|] eqn:E; [|done].
      apply udp_lookup_char in E as [Hid He]; [|done]. apply Hm in He as [Hne _]. done.
    + apply lookup_ext; [done|done|]. intros e He. rewrite Hm. naive_solver.
Qed.

Lemma tunnel_init_ids channel : udp_ids_ok (tunnel_init channel).
Proof.
  split.
  - intros i e H. apply lookup_replicate in H as [-> _]. done.
  - intros i j e f H. apply lookup_replicate in H as [-> _]. done.
Qed.

Lemma udp_map_refines_finite_map_witness :
  udp_ids_ok (tunnel_init 3) /\ udp_ids_ok (dns_udp_free (tunnel_init 3) 4).
Proof.
  split; [exact (tunnel_init_ids 3)|].
  apply (proj1 (proj2 (udp_map_refines_finite_map (tunnel_init 3) [1] 1 0 4 (tunnel_init_ids 3) ltac:(cbn; lia)))).
Defined.

(** * Routing of responses *)

(** The entry [e] is bound to [k]. *)
Definition bound (k : Z) (e : dns_udp_entry) (t : dns_tunnel) : Prop :=
  udp_ids_ok t /\ 0 <= next_udp_id t /\ dns_udp_lookup t k = Some e.

Lemma bound_free k e t id : bound k e t -> id <> k -> bound k e (dns_udp_free t id).
Proof.
  intros (H1 & H2 & H3) Hne. destruct (udp_free_ok t id H1) as (H4 & H5 & H6).
  split; [done|]. split; [by rewrite H5|].
  rewrite <-H3. apply lookup_ext; [done|done|]. intros g Hg. rewrite H6. split; [naive_solver|].
  intros Hx. split; [congruence|done].
Qed.

Lemma bound_alloc k e t client len now t' f :
  bound k e t -> next_udp_id t < 2 ^ 32 - 1 -> dns_udp_alloc t client len now = (t', Some f) ->
  bound k e t' /\ u_id f <> k /\ next_udp_id t' = next_udp_id t + 1.
Proof.
  intros (H1 & H2 & H3) Hlt E.
  destruct (udp_alloc_ok _ _ _ _ _ _ H1 (conj H2 Hlt) E) as (Ht' & _ & Hid & Hnx & (i & Hm & g & Hg & Hgu) & Hu).
  apply udp_lookup_char in H3 as [Hk (j & Hj & Hje)]; [|done].
  pose proof (proj1 H1 j e Hj Hje) as Hr. split; [|split; lia]. split; [done|]. split; [lia|].
  apply udp_lookup_char; [done|]. split; [done|]. exists j. split; [|done].
  rewrite Hm, list_lookup_insert_ne; [done|]. intros ->. congruence.
Qed.

Lemma udp_readable_bound k e recvs t w :
  bound k e t -> next_udp_id t + Z.of_nat (length recvs) < 2 ^ 32 ->
  bound k e (fst (dns_handle_udp_readable recvs t w)).
Proof.
  revert t w; induction recvs as [|r recvs IH]; intros t w Hb Hlt; [done|]. cbn [length] in Hlt.
  cbn [dns_handle_udp_readable]. destruct r as [data client len now| | |]; try done.
  2: { apply IH; [done|lia]. }
  destruct (take _ _) as [|b buf]; [done|].
  destruct (dns_udp_alloc t client len now) as [t' [f|]] eqn:E.
  - destruct (bound_alloc _ _ _ _ _ _ _ _ Hb ltac:(lia) E) as (Hb' & Hne & Hnx).
    destruct (dns_channel_send _ _ _ _) as [rc w']. case_if; [by apply bound_free|].
    apply IH; [done|lia].
  - unfold dns_udp_alloc in E. destruct (find_index _ _) as [[i g]|]; [done|]. by injection E as <-.
Qed.

(** What can happen to the tunnel while a query waits: more queries, TCP
    traffic, responses to other clients, and timeouts before the deadline. *)
Inductive quiet_step (k deadline : Z) : dns_tunnel -> dns_tunnel -> Prop :=
| quiet_udp recvs t w :
    next_udp_id t + Z.of_nat (length recvs) < 2 ^ 32 ->
    quiet_step k deadline t (fst (dns_handle_udp_readable recvs t w))
| quiet_accept accs t w : quiet_step k deadline t (fst (dns_handle_tcp_accept accs t w))
| quiet_tcp conns t : quiet_step k deadline t (t <| tcp_conns := conns |>)
| quiet_response id dns t w :
    (Protocol id = IPPROTO_UDP -> DnsClientId id <> k) ->
    quiet_step k deadline t (fst (dns_route_response id dns t w))
| quiet_timeout now t :
    now <= deadline -> quiet_step k deadline t (t <| udp_map := map (expire_udp now) (udp_map t) |>).

Lemma tcp_accept_udp accs t w :
  udp_map (fst (dns_handle_tcp_accept accs t w)) = udp_map t
  /\ next_udp_id (fst (dns_handle_tcp_accept accs t w)) = next_udp_id t.
Proof.
  revert t w; induction accs as [|a accs IH]; intros t w; cbn [dns_handle_tcp_accept]; [done|].
  destruct a as [fd| | |]; [|done|apply IH|done].
  unfold dns_tcp_alloc. destruct (find_index _ _) as [[i c]|]; [|apply IH].
  destruct (IH (t <| next_tcp_id := u32 (next_tcp_id t + 1) |> <| tcp_conns :=
     <[i := mk_conn true fd (u32 (next_tcp_id t + 1)) [] false 0]> (tcp_conns t) |>) w) as [-> ->]. done.
Qed.

Lemma bound_same_udp k e t t' :
  udp_map t' = udp_map t -> next_udp_id t' = next_udp_id t -> bound k e t -> bound k e t'.
Proof.
  unfold bound, udp_ids_ok, dns_udp_lookup. by intros -> ->.
Qed.

Lemma expire_keeps now t k e :
  bound k e t -> now <= u_deadline_ms e ->
  bound k e (t <| udp_map := map (expire_udp now) (udp_map t) |>).
Proof.
  intros (H1 & H2 & H3) Hnow. set (t' := t <| udp_map := _ |>).
  assert (Hlive : forall i g, udp_map t' !! i = Some g -> u_used g = true -> udp_map t !! i = Some g).
  { intros i g Hi Hu. subst t'. cbn in Hi. rewrite list_lookup_fmap in Hi.
    destruct (udp_map t !! i) as [h|]; [|done]. injection Hi as <-. unfold expire_udp in *.
    case_if; done. }
  assert (udp_ids_ok t') as Ht'.
  { destruct H1 as [Hn Hd]. split.
    - intros i g Hi Hu. apply (Hn i g); [by apply Hlive|done].
    - intros i j g h Hi Hj Hg Hh. apply (Hd i j g h); try done; by apply Hlive. }
  split; [done|]. split; [done|]. apply udp_lookup_char in H3 as [Hk (i & Hi & Hu)]; [|done].
  apply udp_lookup_char; [done|]. split; [done|]. exists i. split; [|done]. subst t'. cbn.
  rewrite list_lookup_fmap, Hi. cbn. unfold expire_udp.
  replace (u_deadline_ms e <? now) with false by (symmetry; apply Z.ltb_ge; lia).
  by rewrite andb_false_r.
Qed.

Lemma quiet_step_bound k e t t' : bound k e t -> quiet_step k (u_deadline_ms e) t t' -> bound k e t'.
Proof.
  intros Hb Hs. destruct Hs as [recvs t w Hn|accs t w|conns t|id dns t w Hid|now t Hnow].
  - by apply udp_readable_bound.
  - destruct (tcp_accept_udp accs t w). by eapply bound_same_udp.
  - by eapply bound_same_udp.
  - unfold dns_route_response. case_if.
    + destruct (dns_udp_lookup t (DnsClientId id)); [|done]. by apply bound_free; auto.
    + case_if; [|done]. destruct (dns_tcp_lookup t (DnsClientId id)) as [[i c]|]; [|done].
      cbv zeta. unfold dns_tcp_close.
      destruct (65535 <? _); [by eapply bound_same_udp|].
      destruct (x_rc _) as [[| |]|]; try done; by eapply bound_same_udp.
  - by apply expire_keeps.
Qed.

Lemma quiet_steps_bound k e t t' : bound k e t -> rtc (quiet_step k (u_deadline_ms e)) t t' -> bound k e t'.
Proof. intros Hb Hr. induction Hr; [done|]. eauto using quiet_step_bound. Qed.

(** The answer to a UDP query goes to the address that sent the query,
    whatever other queries, answers, connections and (earlier) timeouts came
    in between, and only the first answer is delivered. *)
Theorem udp_response_reaches_its_client t client len now t1 e t2 dns dns' w :
  udp_ids_ok t -> 0 <= next_udp_id t < 2 ^ 32 - 1 ->
  dns_udp_alloc t client len now = (t1, Some e) ->
  rtc (quiet_step (u_id e) (u_deadline_ms e)) t1 t2 ->
  let '(t3, w3) := dns_route_response (mk_id IPPROTO_UDP (u_id e)) dns t2 w in
  io_out w3 = io_out w ++ [To_udp client dns]
  /\ dns_route_response (mk_id IPPROTO_UDP (u_id e)) dns' t3 w3 = (t3, w3).
Proof.
  intros Ht Hlt E Hr.
  destruct (udp_alloc_ok _ _ _ _ _ _ Ht Hlt E) as (Ht1 & Hc & Hid & Hnx & (i & Hm & f & Hf & _) & Hu).
  assert (bound (u_id e) e t1) as Hb.
  { split; [done|]. split; [lia|]. apply udp_lookup_char; [done|]. split; [done|]. exists i.
    rewrite Hm, list_lookup_insert_eq by (by eapply lookup_lt_Some). done. }
  destruct (quiet_steps_bound _ _ _ _ Hb Hr) as (Ht2 & _ & Hl2).
  unfold dns_route_response at 1. cbn [Protocol DnsClientId]. rewrite Z.eqb_refl, Hl2.
  split; [by rewrite Hc|].
  unfold dns_route_response. cbn [Protocol DnsClientId]. rewrite Z.eqb_refl.
  destruct (udp_free_ok t2 (u_id e) Ht2) as (Ht3 & _ & Hm3).
  destruct (dns_udp_lookup (dns_udp_free t2 (u_id e)) (u_id e)) as [g|] eqn:G; [|done].
  apply udp_lookup_char in G as [Hg Hx]; [|done]. by apply Hm3 in Hx as [Hne _].
Qed.

Lemma udp_response_reaches_its_client_witness :
  let '(t1, _) := dns_udp_alloc (tunnel_init 3) [10; 0; 0; 1] 16 1000 in
  let t2 := fst (dns_handle_udp_readable [Packet [7] [10; 0; 0; 2] 16 1001] t1 (mk_io [Progress 99] [])) in
  io_out (snd (dns_route_response (mk_id IPPROTO_UDP 1) [42] t2 (mk_io [] [])))
  = [] ++ [To_udp [10; 0; 0; 1] [42]].
Proof.
  set (p := dns_udp_alloc (tunnel_init 3) [10; 0; 0; 1] 16 1000). cbv zeta.
  pose proof (udp_response_reaches_its_client (tunnel_init 3) [10; 0; 0; 1] 16 1000 (fst p)
    (mk_udp true 1 [10; 0; 0; 1] 16 31000)
    (fst (dns_handle_udp_readable [Packet [7] [10; 0; 0; 2] 16 1001] (fst p) (mk_io [Progress 99] [])))
    [42] [] (mk_io [] []) (tunnel_init_ids 3) ltac:(split; [discriminate|reflexivity]) eq_refl
    (rtc_once _ _ (quiet_udp 1 31000 [Packet [7] [10; 0; 0; 2] 16 1001] (fst p)
       (mk_io [Progress 99] []) eq_refl))) as H.
  exact (proj1 H).
Defined.

(** When all 64 entries are waiting a query is dropped and the map kept; no
    entry is recycled. *)
Example full_udp_map_drops :
  let full := tunnel_init 3 <| udp_map := replicate 64 (mk_udp true 1 [] 0 1) |> in
  dns_udp_alloc full [1] 1 0 = (full, None).
Proof. reflexivity. Qed.

(** After 2^32 - 1 queries the identifier 0, which the code means to skip, is used. *)
Example udp_id_wraps_to_zero :
  option_map u_id (snd (dns_udp_alloc (tunnel_init 3 <| next_udp_id := 2 ^ 32 - 1 |>) [1] 1 0)) = Some 0.
Proof. reflexivity. Qed.

End DnsTunnelThm.

Import Wire WireThm DnsTunnel DnsTunnelThm.

Module DnsFdsThm.

Definition closed (w : io) : list Z :=
  omap (fun o => match o with Close fd => Some fd | _ => None end) (io_out w).
Definition conn_fds (c : dns_tcp_conn) : list Z := if c_used c then [c_fd c] else [].
Definition open_fds (t : dns_tunnel) : list Z := concat (map conn_fds (tcp_conns t)).

(** A connection in use has a descriptor; [live] also says that one that was
    closed has none left. *)
Definition conn_ok (c : dns_tcp_conn) : Prop := c_used c = true -> 0 <= c_fd c.
Definition live (c : dns_tcp_conn) : Prop := if c_used c then 0 <= c_fd c else c_fd c = -1.

Lemma live_ok c : live c -> conn_ok c.
Proof. unfold live, conn_ok. intros H U. by rewrite U in H. Qed.
Lemma ok_used_live c : conn_ok c -> c_used c = true -> live c.
Proof. unfold live, conn_ok. intros H U. rewrite U. auto. Qed.
#[local] Hint Resolve live_ok ok_used_live : core.

Lemma closed_emit o w :
  closed (emit o w) = closed w ++ (match o with Close fd => [fd] | _ => [] end).
Proof. unfold closed, emit. cbn [io_out]. rewrite omap_app. by destruct o. Qed.

(** What one connection's handler does to the descriptors. *)
Definition handled (c : dns_tcp_conn) (w : io) (c' : dns_tcp_conn) (w' : io) : Prop :=
  conn_fds c' ++ closed w' ≡ₚ conn_fds c ++ closed w /\ live c'.

Lemma handled_close c w : live c -> handled c w (fst (dns_tcp_close c w)) (snd (dns_tcp_close c w)).
Proof.
  unfold handled, dns_tcp_close, live, conn_fds. intros H. cbn. split; [|done].
  destruct (c_used c).
  - replace (0 <=? c_fd c) with true by (symmetry; apply Z.leb_le; lia).
    rewrite closed_emit. by rewrite Permutation_app_comm.
  - rewrite H. done.
Qed.

Lemma channel_send_closed p id dns w : closed (snd (dns_channel_send p id dns w)) = closed w.
Proof.
  unfold dns_channel_send.
  assert (closed (emit (To_host (x_rc (send_all (io_events w) (dns_message p id dns)))
     (x_data (send_all (io_events w) (dns_message p id dns))))
     (mk_io (x_events (send_all (io_events w) (dns_message p id dns))) (io_out w))) = closed w) as H.
  { rewrite closed_emit. apply app_nil_r. }
  by destruct (x_rc _).
Qed.

Lemma handled_same c w c' w' :
  c_used c' = c_used c -> c_fd c' = c_fd c -> closed w' = closed w -> live c -> handled c w c' w'.
Proof. unfold handled, conn_fds, live. intros -> -> ->. done. Qed.

Lemma handled_trans c w c1 w1 c2 w2 : handled c w c1 w1 -> handled c1 w1 c2 w2 -> handled c w c2 w2.
Proof. intros [H1 _] [H2 H]. split; [by rewrite H2|done]. Qed.

Lemma extract_frames_handled fuel c w :
  live c -> let '(c', w', _) := extract_frames fuel c w in handled c w c' w'.
Proof.
  revert c w; induction fuel as [|fuel IH]; intros c w Hl; cbn [extract_frames]; [by apply handled_same|].
  case_if; [by apply handled_same|]. clear Heqb.
  set (c1 := if negb (have_length c) then _ else c).
  assert (c_used c1 = c_used c /\ c_fd c1 = c_fd c) as [U F] by (subst c1; by destruct (negb _)).
  clearbody c1. case_if; [by apply handled_same|].
  assert (live c1) as Hl1 by (unfold live in *; by rewrite U, F).
  pose proof (channel_send_closed IPPROTO_TCP (c_id c1)
    (take (Z.to_nat (expect_len c1)) (drop 2 (read_buf c1))) w) as Hc.
  destruct (dns_channel_send _ _ _ w) as [rc w1]. cbn [snd] in Hc.
  assert (handled c w c1 w1) as H1 by (by apply handled_same).
  case_if.
  - pose proof (handled_close c1 w1 Hl1) as H2. destruct (dns_tcp_close c1 w1).
    exact (handled_trans _ _ _ _ _ _ H1 H2).
  - set (c2 := (_ <| expect_len := 0 |>)).
    assert (handled c w c2 w1) as H3 by (by apply handled_same).
    pose proof (IH c2 w1 (proj2 H3)) as H4.
    destruct (extract_frames fuel c2 w1) as [[c3 w3] b].
    exact (handled_trans _ _ _ _ _ _ H3 H4).
Qed.

Lemma tcp_readable_handled evs stream c w :
  live c -> let '(c', w', _) := dns_handle_tcp_readable evs stream c w in handled c w c' w'.
Proof.
  revert stream c w; induction evs as [|e evs IH]; intros stream c w Hl; cbn [dns_handle_tcp_readable];
    pose proof (handled_close c w Hl) as Hclose;
    (case_if; [by destruct (dns_tcp_close c w)|]); [by apply handled_same|].
  destruct e as [n|r| |]; [|by apply handled_same|by apply IH|by destruct (dns_tcp_close c w)].
  destruct stream as [|b stream]; [by destruct (dns_tcp_close c w)|].
  set (c1 := c <| read_buf := _ |>).
  assert (handled c w c1 w) as H1 by (by apply handled_same).
  pose proof (extract_frames_handled (S (length (read_buf c1))) c1 w (proj2 H1)) as H2.
  destruct (extract_frames _ c1 w) as [[c2 w2] []]; [exact (handled_trans _ _ _ _ _ _ H1 H2)|].
  pose proof (IH (drop (min (S n) (Z.to_nat DNS_TCP_READ_BUF - length (read_buf c))) (b :: stream)) c2 w2
    (proj2 H2)) as H3.
  destruct (dns_handle_tcp_readable evs _ c2 w2) as [[c3 w3] s3].
  exact (handled_trans _ _ _ _ _ _ H1 (handled_trans _ _ _ _ _ _ H2 H3)).
Qed.

(** * The table *)
Lemma open_insert (l : list dns_tcp_conn) i c c' :
  l !! i = Some c ->
  conn_fds c ++ concat (map conn_fds (<[i := c']> l)) ≡ₚ conn_fds c' ++ concat (map conn_fds l).
Proof.
  revert i; induction l as [|x l IH]; intros [|i] H; [done..| |].
  - injection H as ->. cbn. apply Permutation_app_swap_app.
  - cbn in H |- *. rewrite Permutation_app_swap_app, (IH i H). by rewrite Permutation_app_swap_app.
Qed.

(** A handler's effect on the tunnel: [acc] are the descriptors it took over,
    and the slots it touched are live. *)
Definition accounted (acc : list Z) (t : dns_tunnel) (w : io) (t' : dns_tunnel) (w' : io) : Prop :=
  open_fds t' ++ closed w' ≡ₚ acc ++ open_fds t ++ closed w
  /\ (forall j c, tcp_conns t' !! j = Some c -> tcp_conns t !! j = Some c \/ live c)
  /\ udp_fd t' = udp_fd t /\ tcp_fd t' = tcp_fd t /\ channel_fd t' = channel_fd t.

Lemma accounted_same t w t' w' :
  tcp_conns t' = tcp_conns t -> udp_fd t' = udp_fd t -> tcp_fd t' = tcp_fd t ->
  channel_fd t' = channel_fd t -> closed w' = closed w -> accounted [] t w t' w'.
Proof. unfold accounted, open_fds. intros -> -> -> -> ->. split; [done|]. split; [auto|done]. Qed.

Lemma accounted_trans a b t w t1 w1 t2 w2 :
  accounted a t w t1 w1 -> accounted b t1 w1 t2 w2 -> accounted (a ++ b) t w t2 w2.
Proof.
  intros (P1 & C1 & F1 & G1 & K1) (P2 & C2 & F2 & G2 & K2).
  split; [rewrite P2, P1, !app_assoc; do 2 f_equiv; apply Permutation_app_comm|].
  split; [|repeat split; congruence]. intros j c H. destruct (C2 j c H) as [H'|]; auto.
Qed.

Lemma accounted_conn t w i c c' w' :
  tcp_conns t !! i = Some c -> handled c w c' w' ->
  accounted [] t w (t <| tcp_conns := <[i := c']> (tcp_conns t) |>) w'.
Proof.
  intros Hi [Hp Hl]. split; [|split; [|done]].
  - unfold open_fds. cbn. apply (Permutation_app_inv_l (conn_fds c)).
    rewrite app_assoc, (open_insert _ _ _ c' Hi), (Permutation_app_comm (conn_fds c')), <-!app_assoc, Hp.
    apply Permutation_app_swap_app.
  - cbn. intros j d Hj. apply insert_inv in Hj as [(_ & <- & _)|[_ Hj]]; auto.
Qed.

Definition conns_ok (t : dns_tunnel) : Prop := Forall conn_ok (tcp_conns t).

Lemma accounted_conns_ok a t w t' w' : accounted a t w t' w' -> conns_ok t -> conns_ok t'.
Proof.
  intros (_ & C & _) H. apply Forall_lookup. intros j c Hj. destruct (C j c Hj) as [H'|]; [|auto].
  unfold conns_ok in H. rewrite Forall_lookup in H. eauto.
Qed.

(** * The handlers *)
Lemma udp_free_same t id :
  tcp_conns (dns_udp_free t id) = tcp_conns t /\ udp_fd (dns_udp_free t id) = udp_fd t
  /\ tcp_fd (dns_udp_free t id) = tcp_fd t /\ channel_fd (dns_udp_free t id) = channel_fd t.
Proof. unfold dns_udp_free. by destruct (find_index _ _) as [[i e]|]. Qed.

Lemma udp_readable_accounted recvs t w :
  let '(t', w') := dns_handle_udp_readable recvs t w in accounted [] t w t' w'.
Proof.
  revert t w; induction recvs as [|r recvs IH]; intros t w; cbn [dns_handle_udp_readable];
    [by apply accounted_same|].
  destruct r as [data client len now| | |]; [|by apply accounted_same|by apply IH|by apply accounted_same].
  destruct (take _ _) as [|b buf]; [by apply accounted_same|].
  unfold dns_udp_alloc. destruct (find_index _ _) as [[i f]|]; [|by apply accounted_same].
  match goal with |- context [dns_channel_send ?p ?id ?d w] =>
    pose proof (channel_send_closed p id d w) as Hc; destruct (dns_channel_send p id d w) as [rc w1] end.
  cbn [snd] in Hc. set (t1 := t <| next_udp_id := _ |> <| udp_map := _ |>).
  assert (accounted [] t w t1 w1) as H1 by (by apply accounted_same).
  case_if.
  - eapply (accounted_trans [] []); [exact H1|]. destruct (udp_free_same t1 (u32 (next_udp_id t + 1))) as (?&?&?&?).
    by apply accounted_same.
  - specialize (IH t1 w1). destruct (dns_handle_udp_readable recvs t1 w1).
    exact (accounted_trans [] [] _ _ _ _ _ _ H1 IH).
Qed.

(** The descriptors a run of accept calls returns. *)
Fixpoint accepted (accs : list tcp_accept) : list Z :=
  match accs with
  | Accepted fd :: accs' => fd :: accepted accs'
  | Acc_intr :: accs' => accepted accs'
  | _ => []
  end.

Lemma tcp_accept_accounted accs t w :
  Forall (fun fd => 0 <= fd) (accepted accs) ->
  let '(t', w') := dns_handle_tcp_accept accs t w in accounted (accepted accs) t w t' w'.
Proof.
  revert t w; induction accs as [|a accs IH]; intros t w Hfd; cbn [dns_handle_tcp_accept accepted] in *;
    [by apply accounted_same|].
  destruct a as [fd| | |]; [|by apply accounted_same|by apply IH|by apply accounted_same].
  apply Forall_cons in Hfd as [H0 Hfd]. unfold dns_tcp_alloc.
  destruct (find_index _ _) as [[i c]|] eqn:E.
  - apply find_index_some in E as (Hi & Hu & _). apply negb_true_iff in Hu.
    set (c' := mk_conn true fd (u32 (next_tcp_id t + 1)) [] false 0).
    set (t1 := t <| next_tcp_id := _ |> <| tcp_conns := _ |>). specialize (IH t1 w Hfd).
    destruct (dns_handle_tcp_accept accs t1 w). apply (accounted_trans [fd] _ _ _ t1 w); [|done].
    split; [|split; [|done]].
    + pose proof (open_insert _ _ _ c' Hi) as Hp. unfold conn_fds at 1 3 in Hp. rewrite Hu in Hp.
      cbn [c_used c_fd c' app] in Hp. unfold open_fds. subst t1. cbn [tcp_conns]. cbn. by rewrite Hp.
    + subst t1. cbn. intros j e Hj. apply insert_inv in Hj as [(_ & <- & _)|[_ Hj]]; auto.
  - specialize (IH t (emit (Close fd) w) Hfd). destruct (dns_handle_tcp_accept accs t _).
    apply (accounted_trans [fd] _ _ _ t (emit (Close fd) w)); [|done]. split; [|auto].
    rewrite closed_emit. by rewrite app_assoc, Permutation_app_comm.
Qed.

Lemma route_response_accounted id dns t w :
  conns_ok t -> let '(t', w') := dns_route_response id dns t w in accounted [] t w t' w'.
Proof.
  intros Hok. unfold dns_route_response. case_if.
  { destruct (dns_udp_lookup _ _); [|by apply accounted_same].
    destruct (udp_free_same t (DnsClientId id)) as (?&?&?&?). apply accounted_same; try done.
    by rewrite closed_emit, app_nil_r. }
  case_if; [|by apply accounted_same].
  destruct (dns_tcp_lookup _ _) as [[i c]|] eqn:E; [|by apply accounted_same].
  apply find_index_some in E as (Hi & Hu & _). unfold tcp_has_id in Hu. apply andb_prop in Hu as [Hu _].
  assert (live c) as Hl.
  { apply ok_used_live; [|done]. unfold conns_ok in Hok. rewrite Forall_lookup in Hok. eauto. }
  assert (Hclose : forall w1, closed w1 = closed w ->
    let '(t', w') := (let '(c', w') := dns_tcp_close c w1 in
       (t <| tcp_conns := <[i := c']> (tcp_conns t) |>, w')) in accounted [] t w t' w').
  { intros w1 Hw. pose proof (handled_close c w1 Hl) as Hh. destruct (dns_tcp_close c w1) as [c' w'].
    eapply (accounted_trans [] [] _ _ t w1); [by apply accounted_same|]. by eapply accounted_conn. }
  cbv zeta. case_if; [by apply Hclose|].
  set (w1 := emit _ _). assert (closed w1 = closed w) as Hw by (subst w1; by rewrite closed_emit, app_nil_r).
  destruct (x_rc _) as [[| |]|]; try (by apply Hclose). by apply accounted_same.
Qed.

(** The descriptors one turn of the pass takes over. *)
Definition turn_accepts (t : dns_tunnel) (p : Z * option nat) (r : ready) : list Z :=
  if (r_in r || r_hup_err r) && negb (fst p =? udp_fd t) && (fst p =? tcp_fd t)
  then accepted (r_accept r) else [].

(** The connections of conn_map are live. *)
Definition slot_live (t : dns_tunnel) (p : Z * option nat) : Prop :=
  forall i c, snd p = Some i -> tcp_conns t !! i = Some c -> live c.

Lemma handle_ready_accounted p r t w :
  conns_ok t -> slot_live t p -> Forall (fun fd => 0 <= fd) (accepted (r_accept r)) ->
  let '(t', w') := handle_ready p r (t, w) in accounted (turn_accepts t p r) t w t' w'.
Proof.
  intros Hok Hs Hfd. unfold handle_ready, turn_accepts.
  destruct (r_in r || r_hup_err r); cbn [negb andb]; [|by apply accounted_same].
  destruct (fst p =? udp_fd t); cbn [negb andb]; [apply udp_readable_accounted|].
  destruct (fst p =? tcp_fd t); [by apply tcp_accept_accounted|].
  destruct (fst p =? channel_fd t).
  - destruct (r_hup_err r); [by apply accounted_same|]. unfold dns_handle_channel_readable.
    destruct (fst (dns_channel_recv _ _)) as [[id dns]|]; [by apply route_response_accounted|].
    by apply accounted_same.
  - destruct (snd p) as [i|] eqn:Hp; [|by apply accounted_same].
    destruct (tcp_conns t !! i) as [c|] eqn:Hi; [|by apply accounted_same].
    pose proof (Hs i c Hp Hi) as Hl. destruct (r_hup_err r).
    + pose proof (handled_close c w Hl) as Hh. destruct (dns_tcp_close c w). by eapply accounted_conn.
    + pose proof (tcp_readable_handled (r_events r) (r_stream r) c w Hl) as Hh.
      destruct (dns_handle_tcp_readable _ _ c w) as [[c' w'] s]. by eapply accounted_conn.
Qed.

Lemma slot_live_after a t w t' w' p : accounted a t w t' w' -> slot_live t p -> slot_live t' p.
Proof. intros (_ & C & _) H i c Hp Hi. destruct (C i c Hi); eauto. Qed.

Definition pass_accepts (t : dns_tunnel) (prs : list ((Z * option nat) * ready)) : list Z :=
  concat (map (fun pr => turn_accepts t (fst pr) (snd pr)) prs).

Lemma turn_accepts_ext t t' p r :
  udp_fd t' = udp_fd t -> tcp_fd t' = tcp_fd t -> turn_accepts t' p r = turn_accepts t p r.
Proof. unfold turn_accepts. by intros -> ->. Qed.

Lemma pass_accounted prs t w :
  conns_ok t -> Forall (slot_live t) (map fst prs) ->
  Forall (fun pr => Forall (fun fd => 0 <= fd) (accepted (r_accept (snd pr)))) prs ->
  let '(t', w') := fold_left (fun tw pr => handle_ready (fst pr) (snd pr) tw) prs (t, w) in
  accounted (pass_accepts t prs) t w t' w'.
Proof.
  revert t w; induction prs as [|[p r] prs IH]; intros t w Hok Hs Hfd; cbn [fold_left];
    [by apply accounted_same|].
  apply Forall_cons in Hs as [Hp Hs]. apply Forall_cons in Hfd as [Hr Hfd]. cbn [fst snd] in *.
  pose proof (handle_ready_accounted p r t w Hok Hp Hr) as H1.
  destruct (handle_ready p r (t, w)) as [t1 w1].
  specialize (IH t1 w1 (accounted_conns_ok _ _ _ _ _ H1 Hok)).
  destruct (fold_left _ prs (t1, w1)) as [t2 w2].
  assert (pass_accepts t ((p, r) :: prs) = turn_accepts t p r ++ pass_accepts t1 prs) as ->.
  { unfold pass_accepts. cbn [map concat fst snd]. f_equal. f_equal. apply map_ext. intros [q s].
    destruct H1 as (_ & _ & HU & HT & _). symmetry. apply turn_accepts_ext; [exact HU|exact HT]. }
  eapply accounted_trans; [exact H1|]. apply IH; [|done].
  eapply Forall_impl_hint; [exact Hs|]. intros q Hq. by eapply slot_live_after.
Qed.

(** * The run *)
Lemma pollfds_live t : conns_ok t -> Forall (slot_live t) (pollfds t).
Proof.
  intros Hok. unfold pollfds. apply Forall_app. split; [by repeat constructor; intros i c [=]|].
  apply Forall_forall. intros p Hp. apply list_elem_of_omap in Hp as ([i c] & Hin & Hp).
  apply elem_of_lookup_imap in Hin as (j & d & [= <- <-] & Hc).
  destruct (c_used c) eqn:Hu; cbn [andb] in Hp; [|done]. case_match; [|done]. injection Hp as <-.
  intros j d [= <-] Hd. assert (d = c) as -> by congruence. apply ok_used_live; [|done].
  unfold conns_ok in Hok. rewrite Forall_lookup in Hok. eauto.
Qed.

Fixpoint serve_accepts (polls : list poll_outcome) (t : dns_tunnel) (w : io) : list Z :=
  if stopping t then []
  else
    match polls with
    | [] | Poll_error :: _ => []
    | Poll_intr :: polls' => serve_accepts polls' t w
    | Poll_timeout now :: polls' =>
      serve_accepts polls' (t <| udp_map := map (expire_udp now) (udp_map t) |>) w
    | Poll_ready rs :: polls' =>
      pass_accepts t (combine (pollfds t) rs)
      ++ serve_accepts polls' (fst (handle_all (pollfds t) rs t w)) (snd (handle_all (pollfds t) rs t w))
    end.

(** The kernel returns non-negative descriptors. *)
Definition accepts_valid (p : poll_outcome) : Prop :=
  match p with
  | Poll_ready rs => Forall (fun r => Forall (fun fd => 0 <= fd) (accepted (r_accept r))) rs
  | _ => True
  end.

Definition listeners (t : dns_tunnel) : list Z :=
  List.filter (fun fd => 0 <=? fd) [udp_fd t; tcp_fd t; channel_fd t].

Definition close_conn : list dns_tcp_conn * io -> dns_tcp_conn -> list dns_tcp_conn * io :=
  fun '(cs, w) c => if c_used c then let '(c', w') := dns_tcp_close c w in (cs ++ [c'], w') else (cs ++ [c], w).

Lemma close_conns l cs w :
  Forall conn_ok l -> Forall (fun c => c_used c = false) cs ->
  let '(cs', w') := fold_left close_conn l (cs, w) in
  closed w' = closed w ++ concat (map conn_fds l) /\ Forall (fun c => c_used c = false) cs'.
Proof.
  intros Hl. revert cs w. induction Hl as [|c l Hc _ IH]; intros cs w Hcs; cbn [fold_left].
  { by rewrite app_nil_r. }
  unfold close_conn at 2. cbn [map concat]. unfold conn_fds at 1, dns_tcp_close.
  destruct (c_used c) eqn:Hu.
  - specialize (Hc Hu). replace (0 <=? c_fd c) with true by (symmetry; apply Z.leb_le; lia).
    specialize (IH (cs ++ [c <| c_used := false |> <| c_fd := -1 |>]) (emit (Close (c_fd c)) w)).
    destruct (fold_left close_conn l _) as [cs' w']. rewrite closed_emit, <-app_assoc in IH.
    apply IH. apply Forall_app. split; [done|]. by constructor.
  - specialize (IH (cs ++ [c]) w). destruct (fold_left close_conn l _) as [cs' w']. apply IH.
    apply Forall_app. split; [done|]. by constructor.
Qed.

Lemma close_if fd w :
  closed (if 0 <=? fd then emit (Close fd) w else w) = closed w ++ (if 0 <=? fd then [fd] else []).
Proof. destruct (0 <=? fd); [apply closed_emit|by rewrite app_nil_r]. Qed.

Lemma shutdown_closes t w :
  conns_ok t ->
  let '(t', w') := shutdown t w in
  closed w' = closed w ++ open_fds t ++ listeners t
  /\ Forall (fun c => c_used c = false) (tcp_conns t') /\ udp_fd t' = -1 /\ tcp_fd t' = -1 /\ channel_fd t' = -1.
Proof.
  intros Hok. unfold shutdown. change (fun '(cs, w) c => _) with close_conn.
  pose proof (close_conns (tcp_conns t) [] w Hok (Forall_nil_2 _)) as H.
  destruct (fold_left close_conn _ _) as [cs w']. destruct H as [Hc Hu].
  rewrite !close_if, Hc. split; [|done]. unfold listeners, open_fds. cbn [List.filter].
  rewrite <-!app_assoc. do 3 f_equal.
  by destruct (0 <=? udp_fd t), (0 <=? tcp_fd t), (0 <=? channel_fd t).
Qed.

Lemma combine_fst {A B} (l : list A) (m : list B) (P : A -> Prop) : Forall P l -> Forall P (map fst (combine l m)).
Proof. intros H. revert m. induction H; intros [|y m]; cbn; constructor; auto. Qed.
Lemma combine_snd {A B} (l : list A) (m : list B) (P : B -> Prop) :
  Forall P m -> Forall (fun ab => P (snd ab)) (combine l m).
Proof. intros H. revert l. induction H; intros [|y k]; cbn; constructor; auto. Qed.

Lemma serve_closes polls t w :
  conns_ok t -> Forall accepts_valid polls ->
  let '(t', w', ended) := serve polls t w in
  ended = true ->
  closed w' ≡ₚ closed w ++ open_fds t ++ serve_accepts polls t w ++ listeners t
  /\ Forall (fun c => c_used c = false) (tcp_conns t').
Proof.
  intros Hok Hv. revert t w Hok.
  assert (Hstop : forall t w, conns_ok t -> let '(t', w') := shutdown t w in
    closed w' ≡ₚ closed w ++ open_fds t ++ [] ++ listeners t /\ Forall (fun c => c_used c = false) (tcp_conns t')).
  { intros t w Hok. pose proof (shutdown_closes t w Hok) as H.
    destruct (shutdown t w) as [t' w']. destruct H as (-> & ? & _). done. }
  induction Hv as [|p polls Hp _ IH]; intros t w Hok; cbn [serve serve_accepts];
    pose proof (Hstop t w Hok) as Hs; (destruct (stopping t); [by destruct (shutdown t w)|]); [done|].
  destruct p as [| |now|rs]; [by apply IH|by destruct (shutdown t w)| |].
  { set (t1 := t <| udp_map := _ |>). by apply (IH t1 w). }
  cbn [accepts_valid] in Hp. unfold handle_all.
  pose proof (pass_accounted (combine (pollfds t) rs) t w Hok (combine_fst _ _ _ (pollfds_live t Hok))
    (combine_snd _ _ (fun r => Forall (fun fd => 0 <= fd) (accepted (r_accept r))) Hp)) as Ha.
  destruct (fold_left _ (combine (pollfds t) rs) (t, w)) as [t1 w1]. cbn [fst snd].
  specialize (IH t1 w1 (accounted_conns_ok _ _ _ _ _ Ha Hok)).
  destruct (serve polls t1 w1) as [[t2 w2] ended]. intros He. destruct (IH He) as [H1 H2].
  split; [|done]. destruct Ha as (Hperm & _ & HU & HT & HC).
  assert (listeners t1 = listeners t) as HL by (unfold listeners; by rewrite HU, HT, HC).
  rewrite H1, HL, app_assoc, (Permutation_app_comm (closed w1)), Hperm.
  rewrite (Permutation_app_comm (pass_accepts _ _)), <-!app_assoc.
  rewrite (Permutation_app_swap_app (open_fds t)). done.
Qed.

(** When the tunnel's loop ends, however the polls, the clients and the
    host behaved, every connection accepted during the run and every
    descriptor open at its start has been closed exactly once, listeners and
    channel included, and no connection is left in use. *)
Theorem run_closes_every_descriptor polls t w :
  conns_ok t -> Forall accepts_valid polls ->
  let r := serve polls t w in
  snd r = true ->
  closed (snd (fst r)) ≡ₚ closed w ++ open_fds t ++ serve_accepts polls t w ++ listeners t
  /\ Forall (fun c => c_used c = false) (tcp_conns (fst (fst r))).
Proof.
  intros Hok Hv. pose proof (serve_closes polls t w Hok Hv) as H.
  by destruct (serve polls t w) as [[t' w'] ended].
Qed.

Definition example_polls : list poll_outcome :=
  let idle := mk_ready false false [] [] [] [] in
  [Poll_ready [idle; mk_ready true false [] [Accepted 11; Acc_intr; Accepted 12; Acc_again] [] []; idle];
   Poll_timeout 5;
   Poll_ready [idle; idle; idle; mk_ready true false [] [] [Progress 0] []; idle];
   Poll_ready [idle; idle; mk_ready false true [] [] [] []]].

Definition example_tunnel : dns_tunnel := tunnel_init 3 <| udp_fd := 8 |> <| tcp_fd := 9 |>.

Lemma run_closes_every_descriptor_witness :
  let r := serve example_polls example_tunnel (mk_io [] []) in
  closed (snd (fst r)) ≡ₚ closed (mk_io [] []) ++ open_fds example_tunnel
    ++ serve_accepts example_polls example_tunnel (mk_io [] []) ++ listeners example_tunnel
  /\ Forall (fun c => c_used c = false) (tcp_conns (fst (fst r))).
Proof.
  apply (run_closes_every_descriptor example_polls example_tunnel (mk_io [] [])).
  - apply Forall_replicate. intros [=].
  - repeat apply Forall_cons_2; try apply Forall_nil_2; vm_compute; repeat constructor; discriminate.
  - vm_compute. reflexivity.
Defined.

Example run_example :
  let r := serve example_polls example_tunnel (mk_io [] []) in
  (closed (snd (fst r)), serve_accepts example_polls example_tunnel (mk_io [] []))
  = ([11; 12; 8; 9; 3], [11; 12]).
Proof. vm_compute. reflexivity. Qed.

End DnsFdsThm.
