(* ===== verification/Framing.v ===== *)
(** The buffered message readers of the session loop: the interop reader
    (src/FreeBSD/interop_server.h) and the control reader
    (src/FreeBSD/hvbridge.c) are the same code over buffers of 1024 and 512
    bytes. *)
From S2P Require Import Prelude CStr CNum Wire.
Import Wire.

Module Framing.

(** [buf] is the first [len] bytes of the reader's buffer. *)
Record reader : Type := mk_reader { buf : bytes }.

(** One call of recv on the non-blocking socket. *)
Inductive recv_result : Type :=
| Recv_data (data : bytes)
| Recv_eof
| Recv_again
| Recv_error.

Inductive read_status : Type :=
| Message (msg : bytes)
| Need_more
| Bad.

Section Reader.
Context (cap : Z).

(** The message at the front of the buffer. *)
Definition peek (r : reader) : read_status :=
  if Z.of_nat (length (buf r)) <? sizeof_header then Need_more
  else
    let size := MessageSize (read_header (buf r)) in
    if (size <? sizeof_header) || (cap <? size) then Bad
    else if Z.of_nat (length (buf r)) <? size then Need_more
    else Message (take (Z.to_nat size) (buf r)).

(** The room passed to recv. *)
Definition room (r : reader) : nat := Z.to_nat (cap - Z.of_nat (length (buf r))).

Definition try_read (r : reader) (ev : recv_result) : reader * read_status :=
  if Z.of_nat (length (buf r)) <? cap then
    match ev with
    | Recv_data data => let r := mk_reader (buf r ++ take (room r) data) in (r, peek r)
    | Recv_eof => (r, Bad)
    | Recv_again => (r, peek r)
    | Recv_error => (r, Bad)
    end
  else (r, peek r).

Definition consume (r : reader) (msg_size : Z) : reader :=
  if msg_size <? Z.of_nat (length (buf r)) then mk_reader (drop (Z.to_nat msg_size) (buf r))
  else mk_reader [].

(** One turn of the poll loop on the readable descriptor: at most one message
    is handled.  The stream is what the peer has sent and was not yet read; a
    turn receives at most [n] of its bytes (none of them is the same as a
    socket that is not ready). *)
Definition turn (n : nat) (r : reader) (stream : bytes) : reader * bytes * read_status :=
  let m := min n (room r) in
  let '(r', st) := try_read r (Recv_data (take m stream)) in
  match st with
  | Message msg => (consume r' (Z.of_nat (length msg)), drop m stream, st)
  | _ => (r', drop m stream, st)
  end.

(** The messages handled over a sequence of turns, until one fails. *)
Fixpoint turns (ns : list nat) (r : reader) (stream : bytes) : reader * bytes * list bytes * bool :=
  match ns with
  | [] => (r, stream, [], true)
  | n :: ns' =>
    match turn n r stream with
    | (r', s', Bad) => (r', s', [], false)
    | (r', s', Need_more) => turns ns' r' s'
    | (r', s', Message m) =>
      let '(r'', s'', ms, ok) := turns ns' r' s' in (r'', s'', m :: ms, ok)
    end
  end.
End Reader.

(** The interop reader. *)
Definition interop_reader_init : reader := mk_reader [].
Definition interop_try_read : reader -> recv_result -> reader * read_status := try_read 1024.
Definition interop_consume : reader -> Z -> reader := consume.
(** The control reader. *)
Definition control_try_read : reader -> recv_result -> reader * read_status := try_read 512.
Definition control_consume : reader -> Z -> reader := consume.

End Framing.
