(* ===== verification/Interop.v ===== *)
(** The interop server (src/FreeBSD/interop_server.h): the reply builders, the
    VM identifier and the dispatcher of the query channel with its CreateProcess
    handler.  The environment, the identifier files and fork are arguments; a
    read past the end of the message is a result of its own. *)
From S2P Require Import Prelude CStr CNum Wire.
Import Wire.

Module Interop.

Definition LxInitMessageCreateProcess : Z := 1.
Definition LxInitMessageCreateProcessResponse : Z := 11.
Definition LxInitMessageQueryDrvfsElevated : Z := 12.
Definition LxInitMessageQueryEnvironmentVariable : Z := 16.
Definition LxInitMessageQueryFeatureFlags : Z := 17.
Definition LxInitMessageCreateLoginSession : Z := 23.
Definition LxInitMessageQueryNetworkingMode : Z := 25.
Definition LxInitMessageQueryVmId : Z := 26.
Definition LxMessageResultBool : Z := 76.
Definition LxMessageResultInt32 : Z := 77.
Definition LxMessageResultUint8 : Z := 79.
Definition LxInitNetworkingModeNat : Z := 0.
Definition ENOENT : Z := 2.
Definition EINVAL : Z := 22.

(** * The VM identifier *)
Definition is_id_blank (c : Z) : bool :=
  (c =? c_nl) || (c =? c_cr) || (c =? c_space) || (c =? c_tab).

(** [files] are the contents of the three identifier files, [None] when one
    cannot be opened. *)
Fixpoint first_id (buf_size : Z) (files : list (option bytes)) : option bytes :=
  match files with
  | [] => None
  | None :: fs => first_id buf_size fs
  | Some content :: fs =>
    match take (Z.to_nat (buf_size - 1)) content with
    | [] => first_id buf_size fs
    | raw =>
      match rev (drop_while is_id_blank (rev raw)) with
      | [] => first_id buf_size fs
      | id => Some id
      end
    end
  end.

Definition interop_get_vm_id_string (buf_size : Z) (files : list (option bytes)) : option bytes :=
  if buf_size <? 37 then None
  else
    match first_id buf_size files with
    | Some id => Some id
    | None => Some (snprintf_s buf_size (str "00000000-0000-0000-0000-000000000000"))
    end.

(** * Replies *)
Definition result_message (ty seq value : Z) : bytes :=
  header_bytes (mk_header ty 16 seq) ++ le_bytes 4 value.
Definition interop_send_bool (seq value : Z) : bytes := result_message LxMessageResultBool seq value.
Definition interop_send_int32 (seq value : Z) : bytes := result_message LxMessageResultInt32 seq (u32 value).
Definition interop_send_uint8 (seq value : Z) : bytes := result_message LxMessageResultUint8 seq (u8 value).

Definition string_message (ty seq : Z) (s : bytes) : bytes :=
  header_bytes (mk_header ty (u32 (12 + (Z.of_nat (length s) + 1))) seq) ++ s ++ [0].
Definition interop_send_env_var_response (seq : Z) (value : bytes) : bytes :=
  string_message LxInitMessageQueryEnvironmentVariable seq value.
Definition interop_send_vm_id_response (seq : Z) (vm_id : bytes) : bytes :=
  string_message LxInitMessageQueryVmId seq vm_id.

(** The structure has four bytes of padding at its end. *)
Definition interop_send_create_process_response (seq result signal_pipe_id flags : Z) : bytes :=
  header_bytes (mk_header LxInitMessageCreateProcessResponse 32 seq)
  ++ le_bytes 4 result ++ le_bytes 8 signal_pipe_id ++ le_bytes 4 flags ++ [0; 0; 0; 0].

(** * CreateProcess *)

(** sizeof(struct LX_INIT_CREATE_PROCESS_COMMON) and the offsets of its fields. *)
Definition sizeof_common : Z := 52.
Definition CurrentWorkingDirectoryOffset (common : bytes) : Z := get32 4 common.
Definition CommandLineOffset (common : bytes) : Z := get32 8 common.
Definition CommandLineCount (common : bytes) : Z := get16 12 common.
Definition EnvironmentOffset (common : bytes) : Z := get32 16 common.
Definition EnvironmentCount (common : bytes) : Z := get16 20 common.

(** What the child is started with. *)
Record spawn : Type := mk_spawn { sp_env : list bytes; sp_cwd : option bytes; sp_cmdline : bytes }.

Inductive fork_result : Type := Forked (pid : Z) | Fork_failed (errno : Z).

(** The environment entries: [p] runs to the end of the buffer. *)
Fixpoint env_entries (count : nat) (p : bytes) : list bytes :=
  match count with
  | O => []
  | S count' =>
    match p with
    | [] => []
    | _ =>
      if nul_terminated p then
        let entry := to_cstr p in
        let rest := env_entries count' (drop (S (length entry)) p) in
        match entry with [] => rest | _ => entry :: rest end
      else []
    end
  end.

(** The command line pointer, as an offset in the buffer.  The sum of the first
    test is a 32-bit one. *)
Definition cmdline_offset (common : bytes) (buffer_size : Z) : option Z :=
  if (0 <? CommandLineCount common)
     && (u32 (CommandLineOffset common + CommandLineCount common) <=? buffer_size)
  then Some (CommandLineOffset common)
  else if (CommandLineCount common =? 0) && (CommandLineOffset common <? buffer_size)
  then Some (CommandLineOffset common)
  else None.

(** [Past_end]: the code reads beyond the message. *)
Inductive handled : Type :=
| Handled (replies : list bytes) (started : option spawn)
| Past_end.

Definition handle_create_process (fork : fork_result) (seq : Z) (msg : bytes) : handled :=
  let cp_min := sizeof_header + sizeof_common in
  let fail err := Handled [interop_send_create_process_response seq err 0 0] None in
  if Z.of_nat (length msg) <? cp_min then fail EINVAL
  else
    let common := drop (Z.to_nat sizeof_header) msg in
    let buffer := drop (Z.to_nat cp_min) msg in
    let buffer_size := Z.of_nat (length buffer) in
    match cmdline_offset common buffer_size with
    | None => fail ENOENT
    | Some off =>
      if buffer_size <? off then Past_end
      else
        let cmdline := drop (Z.to_nat off) buffer in
        if negb (nul_terminated cmdline) then fail ENOENT
        else
          match to_cstr cmdline with
          | [] => fail ENOENT
          | cmd =>
            let cwd_off := CurrentWorkingDirectoryOffset common in
            let cwd := drop (Z.to_nat cwd_off) buffer in
            if (cwd_off <? buffer_size) && negb (nul_terminated cwd) then Past_end
            else
              match fork with
              | Fork_failed errno => fail errno
              | Forked pid =>
                let env :=
                  if (0 <? EnvironmentCount common) && (u32 (EnvironmentOffset common + 1) <=? buffer_size)
                  then env_entries (Z.to_nat (EnvironmentCount common))
                         (drop (Z.to_nat (EnvironmentOffset common)) buffer)
                  else [] in
                let dir :=
                  if cwd_off <? buffer_size then
                    match to_cstr cwd with [] => None | d => Some d end
                  else None in
                Handled [interop_send_create_process_response seq 0 pid 0] (Some (mk_spawn env dir cmd))
              end
          end
    end.

(** * The dispatcher *)
Section Dispatch.
Context (getenv : bytes -> option bytes) (id_files : list (option bytes)) (fork : fork_result).

Definition interop_process_message (msg : bytes) : handled :=
  let hdr := read_header msg in
  let seq := SequenceNumber hdr in
  let ty := MessageType hdr in
  let reply m := Handled [m] None in
  if ty =? LxInitMessageQueryDrvfsElevated then reply (interop_send_bool seq 0)
  else if ty =? LxInitMessageQueryEnvironmentVariable then
    let name := drop 12 msg in
    if negb (nul_terminated name) then Past_end
    else
      reply (interop_send_env_var_response seq
               (match getenv (to_cstr name) with Some v => v | None => [] end))
  else if ty =? LxInitMessageQueryFeatureFlags then reply (interop_send_int32 seq 0)
  else if ty =? LxInitMessageCreateLoginSession then
    if (20 <=? Z.of_nat (length msg)) && negb (nul_terminated (drop 20 msg)) then Past_end
    else reply (interop_send_bool seq 0)
  else if ty =? LxInitMessageQueryNetworkingMode then
    reply (interop_send_uint8 seq LxInitNetworkingModeNat)
  else if ty =? LxInitMessageQueryVmId then
    match interop_get_vm_id_string 64 id_files with
    | Some id => reply (interop_send_vm_id_response seq (to_cstr id))
    | None => Past_end
    end
  else if ty =? LxInitMessageCreateProcess then handle_create_process fork seq msg
  else Handled [] None.
End Dispatch.

End Interop.
