(* ===== verification/InteropThm.v ===== *)
(** Theorems on the buffered message readers (FramingThm) and on the query
    channel (InteropThm). *)
From S2P Require Import Prelude CStr CNum Wire Framing Interop.

Import Wire Framing.

Module FramingThm.

(** A message that fits the reader: its length is its MessageSize. *)
Definition valid_message (cap : Z) (m : bytes) : Prop :=
  sizeof_header <= Z.of_nat (length m) <= cap
  /\ MessageSize (read_header m) = Z.of_nat (length m).

(** What was received before the turn looks for a message. *)
Definition filled (cap : Z) (n : nat) (r : reader) (stream : bytes) : reader :=
  mk_reader (buf r ++ take (min n (room cap r)) stream).

Lemma turn_unfold cap n r stream :
  turn cap n r stream =
  let r1 := filled cap n r stream in
  let s1 := drop (min n (room cap r)) stream in
  match peek cap r1 with
  | Message msg => (consume r1 (Z.of_nat (length msg)), s1, peek cap r1)
  | st => (r1, s1, st)
  end.
Proof.
  unfold turn, try_read, filled. destruct (Z.of_nat (length (buf r)) <? cap) eqn:E; bool_to_prop.
  - rewrite (take_ge (take _ stream)) by (rewrite length_take; lia). by destruct (peek _ _).
  - assert (room cap r = 0)%nat as -> by (unfold room; lia). rewrite Nat.min_0_r, app_nil_r.
    destruct r as [b]. by destruct (peek _ _).
Qed.

Lemma filled_split cap n r stream :
  buf (filled cap n r stream) ++ drop (min n (room cap r)) stream = buf r ++ stream.
Proof. unfold filled. cbn. by rewrite <-app_assoc, take_drop. Qed.

Lemma filled_bound cap n r stream :
  Z.of_nat (length (buf r)) <= cap -> Z.of_nat (length (buf (filled cap n r stream))) <= cap.
Proof. intros H. unfold filled, room in *. cbn. rewrite length_app, length_take. lia. Qed.

Lemma peek_message cap r msg :
  peek cap r = Message msg ->
  valid_message cap msg /\ buf r = msg ++ buf (consume r (Z.of_nat (length msg))).
Proof.
  unfold peek. cbv zeta. destruct (Z.of_nat (length (buf r)) <? sizeof_header) eqn:E1; [done|]. destruct (_ || _) eqn:E2; [done|].
  destruct (Z.of_nat (length (buf r)) <? MessageSize _) eqn:E3; [done|]. intros HM.
  assert (msg = take (Z.to_nat (MessageSize (read_header (buf r)))) (buf r)) as -> by congruence.
  clear HM. bool_to_prop. unfold sizeof_header in *.
  assert (length (take (Z.to_nat (MessageSize (read_header (buf r)))) (buf r))
          = Z.to_nat (MessageSize (read_header (buf r)))) as Hl by (rewrite length_take; lia).
  split.
  - unfold valid_message, sizeof_header. rewrite Hl, read_header_take by lia. lia.
  - rewrite Hl, Z2Nat.id by lia. unfold consume. case_if; cbn [buf].
    + by rewrite take_drop.
    + rewrite app_nil_r, take_ge by lia. done.
Qed.

Lemma turns_conserve cap ns r stream :
  Z.of_nat (length (buf r)) <= cap ->
  let '(r', stream', ms, ok) := turns cap ns r stream in
  concat ms ++ buf r' ++ stream' = buf r ++ stream /\ Forall (valid_message cap) ms
  /\ Z.of_nat (length (buf r')) <= cap.
Proof.
  revert r stream; induction ns as [|n ns IH]; intros r stream Hcap; cbn [turns]; [done|].
  rewrite turn_unfold. cbv zeta. pose proof (filled_split cap n r stream) as Hs.
  pose proof (filled_bound cap n r stream Hcap) as Hb.
  set (r1 := filled cap n r stream) in *. set (s1 := drop _ stream) in *.
  destruct (peek cap r1) as [msg| |] eqn:P; [| |done].
  - destruct (peek_message _ _ _ P) as [Hv Hm].
    specialize (IH (consume r1 (Z.of_nat (length msg))) s1).
    destruct (turns cap ns _ s1) as [[[r' s'] ms] ok]. destruct IH as (H1 & H2 & H3).
    + apply (f_equal length) in Hm. rewrite length_app in Hm. lia.
    + split; [|split; [by constructor|done]]. cbn [concat]. by rewrite <-app_assoc, H1, app_assoc, <-Hm.
  - specialize (IH r1 s1 Hb). destruct (turns cap ns r1 s1) as [[[r' s'] ms] ok]. by rewrite <-Hs.
Qed.

(** Over any sequence of turns the bytes of the stream are exactly the
    handled messages, in order, followed by the buffer and what was not read:
    none is lost, repeated or reordered.  Each handled message has the length
    its header says, at least a header and at most the buffer, which never
    overflows. *)
Theorem reader_loses_nothing cap ns stream :
  sizeof_header <= cap ->
  let '(r', stream', ms, ok) := turns cap ns (mk_reader []) stream in
  concat ms ++ buf r' ++ stream' = stream /\ Forall (valid_message cap) ms
  /\ Z.of_nat (length (buf r')) <= cap.
Proof.
  intros Hc. unfold sizeof_header in Hc. apply (turns_conserve cap ns (mk_reader []) stream).
  cbn. lia.
Qed.

(** A header of type [t] with [n] bytes of body. *)
Definition example_message (t : Z) (body : bytes) : bytes :=
  header_bytes (mk_header t (12 + Z.of_nat (length body)) 7) ++ body.

Lemma reader_loses_nothing_witness :
  let '(r', stream', ms, ok) :=
    turns 1024 [5%nat; 9%nat; 30%nat] (mk_reader []) (example_message 12 [] ++ example_message 16 [1; 2; 3]) in
  concat ms ++ buf r' ++ stream' = example_message 12 [] ++ example_message 16 [1; 2; 3]
  /\ Forall (valid_message 1024) ms /\ Z.of_nat (length (buf r')) <= 1024.
Proof. apply reader_loses_nothing. unfold sizeof_header. lia. Defined.

(** * Well-formed streams *)
Lemma prefix_valid cap a b m ms :
  valid_message cap m -> a ++ b = m ++ concat ms -> (12 <= length a)%nat ->
  MessageSize (read_header a) = Z.of_nat (length m).
Proof.
  intros [[Hl _] Hsz] Heq Ha. unfold sizeof_header in Hl.
  rewrite <-Hsz, <-(read_header_app a b), Heq, read_header_app by lia. done.
Qed.

Lemma peek_valid cap r stream ms :
  Forall (valid_message cap) ms -> buf r ++ stream = concat ms ->
  match peek cap r with
  | Message m => exists ms', ms = m :: ms' /\ buf (consume r (Z.of_nat (length m))) ++ stream = concat ms'
  | Need_more => Z.of_nat (length (buf r)) < sizeof_header
                 \/ exists m ms', ms = m :: ms' /\ (length (buf r) < length m)%nat
  | Bad => False
  end.
Proof.
  intros Hv Heq. destruct (peek cap r) as [msg| |] eqn:P.
  - destruct (peek_message _ _ _ P) as [[[H1 H2] H3] Hm]. unfold sizeof_header in H1.
    destruct ms as [|m ms]; [apply (f_equal length) in Heq; rewrite length_app in Heq;
      apply (f_equal length) in Hm; rewrite length_app in Hm; cbn in Heq; lia|].
    apply Forall_cons in Hv as [Hvm Hv]. cbn [concat] in Heq.
    assert (length msg = length m) as Hlen.
    { rewrite Hm, <-app_assoc in Heq. pose proof (prefix_valid _ _ _ _ _ Hvm Heq ltac:(lia)). lia. }
    rewrite Hm, <-app_assoc in Heq. apply app_inj_1 in Heq as [-> Heq]; [|done]. by exists ms.
  - unfold peek in P. cbv zeta in P. destruct (Z.of_nat (length (buf r)) <? sizeof_header) eqn:E1; bool_to_prop; [by left|].
    destruct (_ || _) eqn:E2; [done|].
    destruct (Z.of_nat (length (buf r)) <? MessageSize _) eqn:E3; [|done]. bool_to_prop.
    right. unfold sizeof_header in *. destruct ms as [|m ms].
    + apply (f_equal length) in Heq. rewrite length_app in Heq. cbn in Heq. lia.
    + apply Forall_cons in Hv as [Hvm _]. rewrite (prefix_valid _ _ _ _ _ Hvm Heq) in E3 by lia.
      exists m, ms. split; [done|lia].
  - unfold peek in P. cbv zeta in P. destruct (Z.of_nat (length (buf r)) <? sizeof_header) eqn:E1; bool_to_prop; [done|]. unfold sizeof_header in *.
    destruct ms as [|m ms]; [apply (f_equal length) in Heq; rewrite length_app in Heq; cbn in Heq; lia|].
    apply Forall_cons in Hv as [Hvm _]. rewrite (prefix_valid _ _ _ _ _ Hvm Heq) in P by lia.
    destruct Hvm as [[H1 H2] _]. unfold sizeof_header in H1.
    replace (Z.of_nat (length m) <? 12) with false in P by (symmetry; apply Z.ltb_ge; lia).
    replace (cap <? Z.of_nat (length m)) with false in P by (symmetry; apply Z.ltb_ge; lia).
    cbn [orb] in P. by destruct (_ <? _).
Qed.

Lemma turns_valid cap ns r stream ms :
  Z.of_nat (length (buf r)) <= cap -> Forall (valid_message cap) ms -> buf r ++ stream = concat ms ->
  Forall (fun n => (1 <= n)%nat) ns ->
  let '(r', stream', ms', ok) := turns cap ns r stream in
  ok = true /\ exists rest, ms = ms' ++ rest
    /\ ((length stream + length ms <= length ns)%nat -> rest = []).
Proof.
  intros Hcap Hv Heq Hn. revert r stream ms Hcap Hv Heq.
  induction Hn as [|n ns Hn _ IH]; intros r stream ms Hcap Hv Heq; cbn [turns].
  { split; [done|]. exists ms. split; [done|]. cbn. destruct ms; [done|cbn; lia]. }
  rewrite turn_unfold. cbv zeta. pose proof (filled_split cap n r stream) as Hs. rewrite Heq in Hs.
  pose proof (filled_bound cap n r stream Hcap) as Hb.
  assert (length (drop (min n (room cap r)) stream) <= length stream)%nat as Hd by (rewrite length_drop; lia).
  assert (buf (filled cap n r stream) = buf r ++ take (min n (room cap r)) stream) as Hf by done.
  set (r1 := filled cap n r stream) in *. pose proof (peek_valid cap r1 _ ms Hv Hs) as P.
  destruct (peek cap r1) as [m| |] eqn:E; [| |done].
  - destruct P as (ms1 & -> & Hs1). apply Forall_cons in Hv as [Hvm Hv].
    destruct (peek_message _ _ _ E) as [_ Hm].
    specialize (IH (consume r1 (Z.of_nat (length m))) (drop (min n (room cap r)) stream) ms1).
    destruct (turns cap ns _ _) as [[[r' s'] ms'] ok]. destruct IH as [-> (rest & -> & Hr)]; try done.
    { apply (f_equal length) in Hm. rewrite length_app in Hm. lia. }
    split; [done|]. exists rest. split; [done|]. cbn [length]. intros Hl. apply Hr. lia.
  - specialize (IH r1 (drop (min n (room cap r)) stream) ms Hb Hv Hs).
    destruct (turns cap ns r1 _) as [[[r' s'] ms'] ok]. destruct IH as [-> (rest & -> & Hr)].
    unfold sizeof_header in *. split; [done|]. exists rest. split; [done|]. cbn [length]. intros Hl. apply Hr.
    destruct stream as [|b stream].
    + destruct P as [P|(m & ms1 & Hms & P)].
      * destruct (ms' ++ rest) as [|m ms1]; [rewrite drop_nil; cbn [length]; lia|]. apply Forall_cons in Hv as [[[Hvm _] _] _].
        unfold sizeof_header in Hvm. rewrite take_nil, app_nil_r in Hf. rewrite app_nil_r in Heq.
        rewrite Hf, Heq in P. cbn [concat] in P. rewrite length_app in P. lia.
      * rewrite take_nil, app_nil_r in Hf. rewrite app_nil_r in Heq. rewrite Hf, Heq, Hms in P.
        cbn [concat] in P. rewrite length_app in P. lia.
    + assert (1 <= room cap r)%nat as Hroom.
      { unfold room. destruct P as [P|(m & ms1 & Hms & P)]; rewrite Hf, length_app in P.
        - destruct (ms' ++ rest) as [|m ms1]; [by destruct (buf r)|].
          apply Forall_cons in Hv as [[[H1 H2] _] _]. unfold sizeof_header in H1. lia.
        - rewrite Hms in Hv. apply Forall_cons in Hv as [[[H1 H2] _] _]. unfold sizeof_header in H1. lia. }
      rewrite length_drop. cbn [length] in *. lia.
Qed.

(** On a stream of messages that fit the buffer no turn fails, however
    the bytes are cut: the handled messages are those of the stream, in order,
    and all of them after as many turns as the stream has bytes and
    messages. *)
Theorem reader_handles_every_message cap ns ms :
  0 <= cap -> Forall (valid_message cap) ms -> Forall (fun n => (1 <= n)%nat) ns ->
  let '(r', stream', ms', ok) := turns cap ns (mk_reader []) (concat ms) in
  ok = true /\ exists rest, ms = ms' ++ rest
    /\ ((length (concat ms) + length ms <= length ns)%nat -> rest = []).
Proof.
  intros Hc Hv Hn. apply (turns_valid cap ns (mk_reader []) (concat ms) ms); [cbn; lia|done|done|done].
Qed.

Lemma reader_handles_every_message_witness :
  let ms := [example_message 12 []; example_message 16 [1; 2; 3]] in
  let '(r', stream', ms', ok) := turns 512 [5%nat; 9%nat; 30%nat] (mk_reader []) (concat ms) in
  ok = true /\ exists rest, ms = ms' ++ rest
    /\ ((length (concat ms) + length ms <= 3)%nat -> rest = []).
Proof.
  apply (reader_handles_every_message 512 [5%nat; 9%nat; 30%nat]).
  - lia.
  - repeat apply Forall_cons_2; try apply Forall_nil_2; vm_compute; repeat split; discriminate.
  - repeat constructor.
Defined.

(** Two requests that arrive together: one turn handles only the first, and
    nothing is left in the socket to make it readable again. *)
Example batched_message_waits :
  let m1 := example_message 12 [] in
  let m2 := example_message 17 [] in
  turn 1024 1024 (mk_reader []) (m1 ++ m2) = (mk_reader m2, [], Message m1)
  /\ peek 1024 (mk_reader m2) = Message m2.
Proof. vm_compute. auto. Qed.

End FramingThm.

Import Wire Interop.

Module InteropThm.

(** * Replies *)

(** The type of the reply to a query; the other types get no reply. *)
Definition reply_type (ty : Z) : option Z :=
  if ty =? LxInitMessageCreateProcess then Some LxInitMessageCreateProcessResponse
  else if ty =? LxInitMessageQueryDrvfsElevated then Some LxMessageResultBool
  else if ty =? LxInitMessageQueryEnvironmentVariable then Some LxInitMessageQueryEnvironmentVariable
  else if ty =? LxInitMessageQueryFeatureFlags then Some LxMessageResultInt32
  else if ty =? LxInitMessageCreateLoginSession then Some LxMessageResultBool
  else if ty =? LxInitMessageQueryNetworkingMode then Some LxMessageResultUint8
  else if ty =? LxInitMessageQueryVmId then Some LxInitMessageQueryVmId
  else None.

(** [m] is a message of type [ty] with sequence number [seq] whose MessageSize
    is its length. *)
Definition is_reply (ty seq : Z) (m : bytes) : Prop :=
  read_header m = mk_header ty (Z.of_nat (length m)) seq.

Lemma result_is_reply ty seq v : 0 <= ty < 2 ^ 32 -> 0 <= seq < 2 ^ 32 -> is_reply ty seq (result_message ty seq v).
Proof.
  intros Ht Hs. unfold is_reply, result_message.
  rewrite read_header_bytes, length_app, header_bytes_length, le_bytes_length by lia. done.
Qed.

Lemma string_is_reply ty seq s :
  0 <= ty < 2 ^ 32 -> 0 <= seq < 2 ^ 32 -> Z.of_nat (length s) < 2 ^ 32 - 13 ->
  is_reply ty seq (string_message ty seq s).
Proof.
  intros Ht Hs Hl. unfold is_reply, string_message, u32. rewrite Z.mod_small by lia.
  rewrite read_header_bytes, !length_app, header_bytes_length by lia. f_equal. cbn [length]. lia.
Qed.

Lemma create_process_is_reply seq res pid fl :
  0 <= seq < 2 ^ 32 ->
  is_reply LxInitMessageCreateProcessResponse seq (interop_send_create_process_response seq res pid fl).
Proof.
  intros Hs. unfold is_reply, interop_send_create_process_response, LxInitMessageCreateProcessResponse.
  rewrite read_header_bytes, !length_app, header_bytes_length, !le_bytes_length by lia. done.
Qed.

Lemma handle_create_process_reply fork seq msg replies started :
  handle_create_process fork seq msg = Handled replies started ->
  exists res pid, replies = [interop_send_create_process_response seq res pid 0].
Proof.
  unfold handle_create_process. cbv zeta. case_if; [intros [= <- _]; eauto|].
  destruct (cmdline_offset _ _) as [off|]; [|intros [= <- _]; eauto].
  case_if; [done|]. case_if; [intros [= <- _]; eauto|].
  destruct (to_cstr _) as [|c s]; [intros [= <- _]; eauto|].
  destruct (_ && _); [done|]. destruct fork; intros [= <- _]; eauto.
Qed.

Lemma vm_id_length files id :
  interop_get_vm_id_string 64 files = Some id -> (length id <= 63)%nat.
Proof.
  unfold interop_get_vm_id_string. cbn [Z.ltb Z.compare Pos.compare Pos.compare_cont].
  destruct (first_id 64 files) as [i|] eqn:E; intros [= <-]; [|vm_compute; lia].
  induction files as [|[content|] fs IH]; cbn [first_id] in E; [done| |by apply IH].
  destruct (take _ content) as [|b raw] eqn:Et; [by apply IH|].
  destruct (rev (drop_while is_id_blank (rev (b :: raw)))) as [|c l] eqn:Er; [by apply IH|].
  injection E as <-. rewrite <-Er, length_rev.
  pose proof (drop_while_length is_id_blank (rev (b :: raw))) as H. rewrite length_rev in H.
  assert (length (b :: raw) <= 63)%nat by (rewrite <-Et, length_take; apply Nat.le_min_l). lia.
Qed.

(** A message the server handles gets exactly one reply when its type is
    one of the seven it knows, and none otherwise; the reply has the type that
    answers the query, the sequence number of the query and a size field equal
    to its length. *)
Theorem one_reply_per_query getenv files fork msg replies started :
  bytes_ok msg -> (forall k v, getenv k = Some v -> Z.of_nat (length v) < 2 ^ 32 - 13) ->
  interop_process_message getenv files fork msg = Handled replies started ->
  match reply_type (MessageType (read_header msg)) with
  | Some ty => exists m, replies = [m] /\ is_reply ty (SequenceNumber (read_header msg)) m
  | None => replies = [] /\ started = None
  end.
Proof.
  intros Hb Henv. unfold interop_process_message, reply_type.
  pose proof (get_le_bound 4 8 msg Hb) as Hseq. change (256 ^ Z.of_nat 4) with (2 ^ 32) in Hseq.
  change (get_le 4 8 msg) with (SequenceNumber (read_header msg)) in Hseq.
  set (seq := SequenceNumber _) in *. set (ty := MessageType _).
  destruct (ty =? LxInitMessageQueryDrvfsElevated) eqn:E1; bool_to_prop.
  { rewrite E1. intros [= <- _]. eexists. split; [done|]. apply result_is_reply; [done|lia]. }
  destruct (ty =? LxInitMessageQueryEnvironmentVariable) eqn:E2; bool_to_prop.
  { rewrite E2. case_if; [done|]. intros [= <- _]. eexists. split; [done|].
    apply string_is_reply; [done|lia|]. destruct (getenv _) eqn:G; [eauto|cbn; lia]. }
  destruct (ty =? LxInitMessageQueryFeatureFlags) eqn:E3; bool_to_prop.
  { rewrite E3. intros [= <- _]. eexists. split; [done|]. apply result_is_reply; [done|lia]. }
  destruct (ty =? LxInitMessageCreateLoginSession) eqn:E4; bool_to_prop.
  { rewrite E4. destruct (_ && _); [done|]. intros [= <- _]. eexists. split; [done|].
    apply result_is_reply; [done|lia]. }
  destruct (ty =? LxInitMessageQueryNetworkingMode) eqn:E5; bool_to_prop.
  { rewrite E5. intros [= <- _]. eexists. split; [done|]. apply result_is_reply; [done|lia]. }
  destruct (ty =? LxInitMessageQueryVmId) eqn:E6; bool_to_prop.
  { rewrite E6. destruct (interop_get_vm_id_string 64 files) as [id|] eqn:V; [|done]. intros [= <- _].
    eexists. split; [done|]. apply string_is_reply; [done|lia|].
    pose proof (vm_id_length _ _ V). pose proof (to_cstr_length id). lia. }
  destruct (ty =? LxInitMessageCreateProcess); [|intros [= <- <-]; done].
  intros H. destruct (handle_create_process_reply _ _ _ _ _ H) as (res & pid & ->).
  eexists. split; [done|]. apply create_process_is_reply. lia.
Qed.

Definition example_query : bytes := header_bytes (mk_header 16 17 9) ++ str "HOME" ++ [0].

Lemma one_reply_per_query_witness :
  exists m, [interop_send_env_var_response 9 (str "/root")] = [m] /\ is_reply 16 9 m.
Proof.
  apply (one_reply_per_query (fun k => if list_eqb k (str "HOME") then Some (str "/root") else None) []
    (Forked 1) example_query [interop_send_env_var_response 9 (str "/root")] None).
  - vm_compute. repeat constructor; discriminate.
  - intros k v. destruct (list_eqb k (str "HOME")); [intros [= <-]; vm_compute; reflexivity|discriminate].
  - vm_compute. reflexivity.
Defined.

(** * CreateProcess *)

Lemma env_entries_strings count buffer off e :
  e ∈ env_entries count (drop off buffer) -> exists off', string_at buffer off' e /\ e <> [].
Proof.
  revert off; induction count as [|count IH]; intros off; cbn [env_entries]; [by intros ?%elem_of_nil|].
  destruct (drop off buffer) as [|b p] eqn:D; [by intros ?%elem_of_nil|]. rewrite <-D.
  destruct (nul_terminated (drop off buffer)) eqn:N; [|by intros ?%elem_of_nil].
  assert (drop (S (length (to_cstr (drop off buffer)))) (drop off buffer)
          = drop (off + S (length (to_cstr (drop off buffer)))) buffer) as -> by apply drop_drop.
  destruct (to_cstr (drop off buffer)) as [|c s] eqn:T; [by apply IH|].
  intros [->|He]%elem_of_cons; [|by eapply IH]. exists off. rewrite <-T. split; [by apply string_at_cstr|].
  by rewrite T.
Qed.

(** The offsets of a message are in range: sums of the 32-bit fields do not
    wrap. *)
Definition offsets_ok (msg : bytes) : Prop :=
  let common := drop 12 msg in
  CommandLineOffset common + CommandLineCount common < 2 ^ 32.

(** A process is only started with strings that lie inside the message,
    each with its terminator inside: the command line at the offset the
    message gives, which is not empty, the directory and every environment
    entry; and when the command line's offset and count do not wrap and the
    directory is terminated, nothing is read beyond the message. *)
Theorem create_process_reads_inside fork seq msg :
  let common := drop 12 msg in
  let buffer := drop 64 msg in
  (forall replies sp, handle_create_process fork seq msg = Handled replies (Some sp) ->
     sp_cmdline sp <> [] /\ string_at buffer (Z.to_nat (CommandLineOffset common)) (sp_cmdline sp)
     /\ (forall d, sp_cwd sp = Some d ->
           d <> [] /\ string_at buffer (Z.to_nat (CurrentWorkingDirectoryOffset common)) d)
     /\ (forall e, e ∈ sp_env sp -> e <> [] /\ exists off, string_at buffer off e))
  /\ (bytes_ok msg -> offsets_ok msg ->
      nul_terminated (drop (Z.to_nat (CurrentWorkingDirectoryOffset common)) buffer) = true ->
      handle_create_process fork seq msg <> Past_end).
Proof.
  intros common buffer. unfold handle_create_process. cbv zeta.
  change (drop (Z.to_nat sizeof_header) msg) with common.
  change (drop (Z.to_nat (sizeof_header + sizeof_common)) msg) with buffer. split.
  - intros replies sp. case_if; [done|]. destruct (cmdline_offset common _) as [off|] eqn:O; [|done].
    assert (off = CommandLineOffset common) as ->.
    { unfold cmdline_offset in O. destruct (_ && _); [congruence|]. destruct (_ && _); congruence. }
    case_if; [done|]. destruct (nul_terminated (drop (Z.to_nat (CommandLineOffset common)) buffer)) eqn:N; [|done].
    cbn [negb]. destruct (to_cstr _) as [|c cmd] eqn:T; [done|].
    destruct (_ && negb _) eqn:Hcwd; [done|].
    destruct fork as [pid|err]; [|done]. intros [= _ <-]. cbn [sp_cmdline sp_cwd sp_env].
    split; [done|]. split; [rewrite <-T; by apply string_at_cstr|]. split.
    + intros d. destruct (CurrentWorkingDirectoryOffset common <? _); [|done]. cbn [andb] in Hcwd.
      apply negb_false_iff in Hcwd. pose proof (string_at_cstr _ _ Hcwd) as Hd.
      destruct (to_cstr (drop (Z.to_nat (CurrentWorkingDirectoryOffset common)) buffer)) as [|x d']; [done|].
      intros HD.
      assert (d = x :: d') as -> by congruence. done.
    + intros e. case_if; [|by intros ?%elem_of_nil]. intros He.
      destruct (env_entries_strings _ _ _ _ He) as (o & H1 & H2). split; [done|by exists o].
  - intros Hb Hoff Hcwd. case_if; [done|].
    destruct (cmdline_offset common _) as [off|] eqn:O; [|done].
    assert (off <= Z.of_nat (length buffer)) as Hle.
    { assert (bytes_ok common) as Hc by (by apply Forall_drop).
      pose proof (get_le_bound 4 8 common Hc). pose proof (get_le_bound 2 12 common Hc).
      change (get_le 4 8 common) with (CommandLineOffset common) in *.
      change (get_le 2 12 common) with (CommandLineCount common) in *.
      unfold cmdline_offset in O. destruct (_ && _) eqn:E; bool_to_prop.
      - injection O as <-. unfold offsets_ok in Hoff. fold common in Hoff. unfold u32 in *.
        rewrite Z.mod_small in * by lia. lia.
      - destruct (_ && (_ <? _)) eqn:E2; [|done]. bool_to_prop. injection O as <-. lia. }
    replace (Z.of_nat (length buffer) <? off) with false by (symmetry; apply Z.ltb_ge; lia).
    case_if; [done|]. destruct (to_cstr _); [done|]. rewrite Hcwd, andb_false_r. by destruct fork.
Qed.

(** A request that runs "ls" in "/" with one variable. *)
Definition example_create : bytes :=
  header_bytes (mk_header 1 76 5)
  ++ le_bytes 4 0 ++ le_bytes 4 3 ++ le_bytes 4 0 ++ le_bytes 4 3 ++ le_bytes 4 5 ++ le_bytes 4 1
  ++ replicate 28 0 ++ str "ls" ++ [0] ++ str "/" ++ [0] ++ str "A=b c" ++ [0; 0].

Example create_process_example :
  handle_create_process (Forked 42) 5 example_create
  = Handled [interop_send_create_process_response 5 0 42 0]
      (Some (mk_spawn [str "A=b c"] (Some (str "/")) (str "ls"))).
Proof. vm_compute. reflexivity. Qed.

Lemma create_process_reads_inside_witness :
  handle_create_process (Forked 42) 5 example_create <> Past_end.
Proof.
  apply (proj2 (create_process_reads_inside (Forked 42) 5 example_create)).
  - vm_compute. repeat constructor; discriminate.
  - vm_compute. reflexivity.
  - vm_compute. reflexivity.
Defined.

(** A command line offset near 2^32 wraps past the bounds test. *)
Definition wrapping_create : bytes :=
  header_bytes (mk_header 1 66 5)
  ++ le_bytes 4 0 ++ le_bytes 4 0 ++ le_bytes 4 (2 ^ 32 - 1) ++ le_bytes 4 1 ++ replicate 36 0 ++ [65; 0].
Example command_line_offset_wraps : handle_create_process (Forked 42) 5 wrapping_create = Past_end.
Proof. vm_compute. reflexivity. Qed.

(** A variable name without terminator is read past the end of the message. *)
Example query_name_unterminated :
  interop_process_message (fun _ => None) [] (Forked 1) (header_bytes (mk_header 16 16 9) ++ str "HOME") = Past_end.
Proof. vm_compute. reflexivity. Qed.

End InteropThm.
