(* ===== verification/TermNotify.v ===== *)
(** Terminal change detection (src/FreeBSD/terminal_notify.h): the font size
    tracker and the sniffer that follows OSC 11 background color sequences in
    the output of the terminal. *)
From S2P Require Import Prelude CStr CNum.

Module TermNotify.

(** * Font size *)
Record font_size_tracker : Type := mk_font {
  tracked_rows : Z; tracked_cols : Z; tracked_xpixel : Z; tracked_ypixel : Z
}.

Definition font_size_tracker_init (rows cols xpixel ypixel : Z) : font_size_tracker :=
  mk_font rows cols xpixel ypixel.

Definition font_size_check_change (t : font_size_tracker) (rows cols xpixel ypixel : Z) :
    font_size_tracker * Z :=
  let changed :=
    if negb (xpixel =? tracked_xpixel t) || negb (ypixel =? tracked_ypixel t) then
      if (0 <? xpixel) && (0 <? cols) && (0 <? ypixel) && (0 <? rows)
         && (0 <? tracked_xpixel t) && (0 <? tracked_cols t)
         && (0 <? tracked_ypixel t) && (0 <? tracked_rows t) then
        let cell_w_old := tracked_xpixel t / tracked_cols t in
        let cell_h_old := tracked_ypixel t / tracked_rows t in
        let cell_w_new := xpixel / cols in
        let cell_h_new := ypixel / rows in
        if negb (cell_w_old =? cell_w_new) || negb (cell_h_old =? cell_h_new) then 1 else 0
      else 0
    else 0 in
  (mk_font rows cols xpixel ypixel, changed).

Definition font_size_sync_after_resize (t : font_size_tracker) (rows cols xpixel ypixel : Z) :
    font_size_tracker :=
  mk_font rows cols xpixel ypixel.

(** * Background color *)
Inductive sniffer_state : Type :=
| TN_SNIFF_IDLE | TN_SNIFF_ESC | TN_SNIFF_OSC | TN_SNIFF_OSC_ESC.

(** [osc_buf] is the first [osc_buf_len] bytes of the buffer. *)
Record bg_color_tracker : Type := mk_bg {
  state : sniffer_state;
  osc_buf : bytes;
  color_initialized : Z;
  tracked_color : Z * Z * Z
}.
#[export] Instance bg_color_tracker_eta : Eta bg_color_tracker := fun r =>
  mk_bg (state r) (osc_buf r) (color_initialized r) (tracked_color r).

Definition sizeof_osc_buf : Z := 256.

Definition bg_color_tracker_init : bg_color_tracker := mk_bg TN_SNIFF_IDLE [] 0 (0, 0, 0).
Definition bg_color_tracker_reset_sniffer (t : bg_color_tracker) : bg_color_tracker :=
  t <| state := TN_SNIFF_IDLE |> <| osc_buf := [] |>.

(** One channel of the X11 form: the value of the digits and the text after
    them. *)
Definition rgb_channel (p : bytes) : option (Z * bytes) :=
  match strtoul 16 p with
  | (val, Some rest) => Some (Z.land val 255, rest)
  | (_, None) => None
  end.

(** [strtoul] of two characters, cut to [unsigned]. *)
Definition hex2 (c d : Z) : Z := u32 (fst (strtoul 16 (to_cstr [c; d]))).

Definition tn_parse_color (s : bytes) : option (Z * Z * Z) :=
  if starts_with (str "rgb:") s then
    match rgb_channel (drop 4 s) with
    | Some (r, c1 :: p1) =>
      if negb (c1 =? c_slash) then None
      else
        match rgb_channel p1 with
        | Some (g, c2 :: p2) =>
          if negb (c2 =? c_slash) then None
          else
            match rgb_channel p2 with
            | Some (b, _) => Some (r, g, b)
            | None => None
            end
        | _ => None
        end
    | _ => None
    end
  else
    match s with
    | h :: t =>
      if h =? c_hash then
        match t with
        | [r1; r2; g1; g2; b1; b2] => Some (hex2 r1 r2, hex2 g1 g2, hex2 b1 b2)
        | [r; g; b] => Some (hex2 r r, hex2 g g, hex2 b b)
        | _ => None
        end
      else None
    | [] => None
    end.

Definition same_color (a b : Z * Z * Z) : bool :=
  let '(r, g, b1) := a in let '(r', g', b') := b in (r =? r') && (g =? g') && (b1 =? b').

Definition tn_process_osc (t : bg_color_tracker) (osc : bytes) : bg_color_tracker :=
  if list_eqb osc (str "11") then t
  else if starts_with (str "11;") osc then
    let param := drop 3 osc in
    if list_eqb param (str "?") then t
    else
      match tn_parse_color param with
      | Some color =>
        if (color_initialized t =? 0) || negb (same_color color (tracked_color t))
        then t <| tracked_color := color |> <| color_initialized := 1 |>
        else t
      | None => t
      end
  else if starts_with (str "111") osc
          && ((length osc =? 3)%nat || starts_with (str "111;") osc) then
    t <| color_initialized := 0 |>
  else t.

(** The return value tells that a complete OSC was processed. *)
Definition bg_color_feed_byte (t : bg_color_tracker) (b : Z) : bg_color_tracker * Z :=
  match state t with
  | TN_SNIFF_IDLE => (if b =? c_esc then t <| state := TN_SNIFF_ESC |> else t, 0)
  | TN_SNIFF_ESC =>
    (if b =? c_rbrack then t <| state := TN_SNIFF_OSC |> <| osc_buf := [] |>
     else if b =? c_esc then t
     else t <| state := TN_SNIFF_IDLE |>, 0)
  | TN_SNIFF_OSC =>
    if b =? c_bel then
      (tn_process_osc (t <| state := TN_SNIFF_IDLE |>) (to_cstr (osc_buf t)), 1)
    else if b =? c_esc then (t <| state := TN_SNIFF_OSC_ESC |>, 0)
    else
      (if Z.of_nat (length (osc_buf t)) <? sizeof_osc_buf - 1
       then t <| osc_buf := osc_buf t ++ [b] |>
       else t <| state := TN_SNIFF_IDLE |> <| osc_buf := [] |>, 0)
  | TN_SNIFF_OSC_ESC =>
    if b =? c_bslash then
      (tn_process_osc (t <| state := TN_SNIFF_IDLE |>) (to_cstr (osc_buf t)), 1)
    else
      let t := t <| state := TN_SNIFF_IDLE |> <| osc_buf := [] |> in
      (if b =? c_esc then t <| state := TN_SNIFF_ESC |> else t, 0)
  end.

(** The relay loop feeds every byte of the output. *)
Definition feed (t : bg_color_tracker) (s : bytes) : bg_color_tracker :=
  fold_left (fun t b => fst (bg_color_feed_byte t b)) s t.

End TermNotify.
