(* ===== verification/CreateProc.v ===== *)
(** The start of a console session (src/FreeBSD/hvbridge.c): receiving the
    CreateProcessUtilityVm message, extracting the program, directory, argument
    and environment strings from it, and the terminal defaults of the
    environment.  Allocations succeed. *)
From S2P Require Import Prelude CStr CNum Wire.
Import Wire.

Module CreateProc.

Definition LxMessageResultUint32 : Z := 78.
Definition PORT_HVS_BSD : Z := 60000.

(** * Receiving the message *)

(** [read_full]: [Some n] with the [n] bytes read (fewer than asked at the end
    of the stream), [Some (-1)] on an error, [None] when the events ran out. *)
Fixpoint read_full (evs : list sock_event) (stream : bytes) (count : nat) (got : bytes) :
    option Z * bytes * list sock_event * bytes :=
  match count with
  | O => (Some (Z.of_nat (length got)), got, evs, stream)
  | S _ =>
    match evs with
    | [] => (None, got, [], stream)
    | Progress n :: evs' =>
      match stream with
      | [] => (Some (Z.of_nat (length got)), got, evs', [])
      | _ :: _ =>
        let d := take (min (S n) count) stream in
        read_full evs' (drop (min (S n) count) stream) (count - length d) (got ++ d)
      end
    | Intr :: evs' => read_full evs' stream count got
    | _ :: evs' => (Some (-1), got, evs', stream)
    end
  end.

Definition initial_response (seq : Z) : bytes :=
  header_bytes (mk_header LxMessageResultUint32 16 seq) ++ le_bytes 4 PORT_HVS_BSD.

(** [stored] is the new value of g_initial_message when it is replaced.
    [Short_header]: the stream ended inside the header, which is then used
    although its last bytes were never written. *)
Inductive initial_result : Type :=
| Received (rc : Z) (stored : option bytes) (sent : bytes) (rest : bytes)
| Short_header
| Blocked.

(** [write_ok]: the response is written whole. *)
Definition receive_initial_message (evs : list sock_event) (stream : bytes) (write_ok : bool) :
    initial_result :=
  match read_full evs stream 12 [] with
  | (None, _, _, _) => Blocked
  | (Some r, hdr, evs, stream) =>
    if r <=? 0 then Received (-1) None [] stream
    else if r <? sizeof_header then Short_header
    else
      let header := read_header hdr in
      if MessageSize header <? sizeof_header then Received (-1) None [] stream
      else
        let body_len := Z.to_nat (MessageSize header - sizeof_header) in
        match read_full evs stream body_len [] with
        | (None, _, _, _) => Blocked
        | (Some rem, body, _, stream) =>
          if rem <? 0 then Received (-1) None [] stream
          else if negb (rem =? Z.of_nat body_len) then Received (-1) None [] stream
          else
            let sent := initial_response (SequenceNumber header) in
            Received (if write_ok then 0 else -1) (Some (hdr ++ body)) sent stream
        end
  end.

(** * The process to start *)
Record create_process_info : Type := mk_info {
  filename : option bytes; cwd : option bytes;
  argv : option (list bytes); envp : option (list bytes)
}.

(** sizeof(LX_INIT_CREATE_PROCESS_UTILITY_VM), which is also the offset of the
    buffer. *)
Definition sizeof_utility_vm : Z := 68.
Definition Rows (msg : bytes) : Z := get16 12 msg.
Definition Columns (msg : bytes) : Z := get16 14 msg.

(** Up to [count] strings, one after the other, in the rest [p] of the buffer;
    one that the buffer cuts is the last. *)
Fixpoint packed_strings (count : nat) (p : bytes) : list bytes :=
  match count with
  | O => []
  | S count' =>
    match p with
    | [] => []
    | _ =>
      let s := to_cstr p in
      if (length p <=? length s)%nat then [s]
      else s :: packed_strings count' (drop (S (length s)) p)
    end
  end.

(** A [strdup] at an offset: no string when the offset is out of range, and a
    read beyond the message when the string has no terminator inside it. *)
Inductive dup : Type := No_string | Dup (s : bytes) | Dup_past_end.
Definition strdup_at (off : Z) (buffer : bytes) : dup :=
  if off <? Z.of_nat (length buffer) then
    let p := drop (Z.to_nat off) buffer in
    if nul_terminated p then Dup (to_cstr p) else Dup_past_end
  else No_string.
Definition dup_option (d : dup) : option bytes := match d with Dup s => Some s | _ => None end.
Definition dup_past_end (d : dup) : bool := match d with Dup_past_end => true | _ => false end.

Definition strings_at (count off : Z) (buffer : bytes) : option (list bytes) :=
  if (0 <? count) && (off <? Z.of_nat (length buffer))
  then Some (packed_strings (Z.to_nat count) (drop (Z.to_nat off) buffer)) else None.

Inductive parsed : Type := Parse_null | Parsed (info : create_process_info) | Parse_past_end.

Definition parse_create_process_info (msg : bytes) : parsed :=
  if Z.of_nat (length msg) <? sizeof_utility_vm then Parse_null
  else if Z.of_nat (length msg) <=? sizeof_utility_vm then Parse_null
  else
    let buffer := drop (Z.to_nat sizeof_utility_vm) msg in
    let file := strdup_at (get32 16 msg) buffer in
    let dir := strdup_at (get32 20 msg) buffer in
    if dup_past_end file || dup_past_end dir then Parse_past_end
    else
      Parsed (mk_info (dup_option file) (dup_option dir)
                (strings_at (get16 28 msg) (get32 24 msg) buffer)
                (strings_at (get16 36 msg) (get32 32 msg) buffer)).

(** * Terminal defaults *)
Definition has_var (name : bytes) (env : list bytes) : bool :=
  existsb (fun e => starts_with (name ++ [c_eq]) e) env.

Definition ensure_env_defaults (info : create_process_info) : create_process_info :=
  let env := match envp info with Some env => env | None => [] end in
  let has_term := has_var (str "TERM") env in
  let has_colorterm := has_var (str "COLORTERM") env in
  if has_term && has_colorterm then info
  else
    mk_info (filename info) (cwd info) (argv info)
      (Some (env ++ (if has_term then [] else [str "TERM=xterm-256color"])
                 ++ (if has_colorterm then [] else [str "COLORTERM=truecolor"]))).

(** * The child *)

(** What the child does before it becomes another program: the directory it
    changes to, the program it tries, and the shell it falls back to. *)
Record exec_plan : Type := mk_plan {
  plan_chdir : option bytes;
  plan_execve : option (bytes * list bytes * list bytes)
}.

(** [sock_path] is the path of the interop socket, empty when there is none;
    the buffer of the variable has 128 bytes. *)
Definition child_plan (info : option create_process_info) (sock_path : bytes) : exec_plan :=
  match info with
  | None => mk_plan None None
  | Some info =>
    mk_plan (cwd info)
      (match filename info, argv info with
       | Some f, Some args =>
         let env := match envp info with Some env => env | None => [] end in
         let env :=
           match sock_path with
           | [] => env
           | _ => env ++ [snprintf_s 128 (str "WSL_INTEROP=" ++ sock_path)]
           end in
         Some (f, args, env)
       | _, _ => None
       end)
  end.

End CreateProc.
