(* ===== verification/SysOps.v ===== *)
(** The calls by which the configuration modules change the system, as values:
    a module's function returns the calls it made, in order, with its return
    value; whether a call succeeds is a function that the theorems quantify
    over. *)
From S2P Require Import Prelude.

Inductive sysop : Type :=
| Sethostname (name : bytes)
| Setdomainname (name : bytes)
| Setenv (name value : bytes)
| Write_file (path content : bytes)
| Unlink (path : bytes)
| Symlink (target path : bytes)
| Mkdir (path : bytes)
| Mount (fstype target : bytes).
