(* ===== verification/NetworkConfig.v ===== *)
(** Host name and hosts file (src/FreeBSD/network_config.h). *)
From S2P Require Import Prelude CStr SysOps.

Module NetworkConfig.

Definition NETC_HOSTNAME_FILE : bytes := str "/etc/hostname".
Definition NETC_HOSTS_FILE : bytes := str "/etc/hosts".
Definition NETC_DEFAULT_HOSTNAME : bytes := str "localhost".
Definition NETC_DEFAULT_DOMAIN : bytes := str "localdomain".
Definition NETC_AUTO_HEADER : bytes :=
  str "This file was automatically generated by WSL. To prevent automatic generation of this file, add the following entry to /etc/wsl.conf:"
  ++ [c_nl].

Definition hostname_char (c : Z) : bool := isalnum c || (c =? c_dash) || (c =? c_dot).

(** The copying loop: [room] is what is left of the destination, [empty] tells
    that nothing was copied yet. *)
Fixpoint clean_loop (room : nat) (empty saw_dot : bool) (src : bytes) : bytes :=
  match src, room with
  | [], _ => []
  | _, O => []
  | c :: src', S room' =>
    if hostname_char c then
      if (c =? c_dot) && saw_dot then clean_loop room empty saw_dot src'
      else
        let saw_dot := saw_dot || (c =? c_dot) in
        if empty && ((c =? c_dash) || (c =? c_dot)) then clean_loop room empty saw_dot src'
        else c :: clean_loop room' false saw_dot src'
    else clean_loop room empty saw_dot src'
  end.

Definition is_edge (c : Z) : bool := (c =? c_dash) || (c =? c_dot).

(** [src] is [None] for a NULL pointer; the destination is not. *)
Definition network_clean_hostname (dst_sz : Z) (src : option bytes) : option bytes :=
  if dst_sz =? 0 then None
  else
    let default := snprintf_s dst_sz NETC_DEFAULT_HOSTNAME in
    match src with
    | None | Some [] => Some default
    | Some s =>
      let copied := clean_loop (Z.to_nat (dst_sz - 1)) true false s in
      match rev (drop_while is_edge (rev copied)) with
      | [] => Some default
      | name => Some (take 64 name)
      end
    end.

Definition non_empty (s : option bytes) : bool :=
  match s with Some (_ :: _) => true | _ => false end.
Definition or_null (s : option bytes) : bytes := match s with Some s => s | None => [] end.

Section Apply.
Context (ok : sysop -> bool).

Definition network_apply_hostname (hostname conf_hostname : option bytes) : list sysop * Z :=
  let raw :=
    if non_empty conf_hostname then or_null conf_hostname
    else if non_empty hostname then or_null hostname
    else NETC_DEFAULT_HOSTNAME in
  let clean := or_null (network_clean_hostname 65 (Some raw)) in
  let set :=
    if ok (Sethostname clean) then [Sethostname clean]
    else if negb (strcmp_eq clean NETC_DEFAULT_HOSTNAME)
    then [Sethostname clean; Sethostname NETC_DEFAULT_HOSTNAME]
    else [Sethostname clean] in
  let ops := set ++ [Setenv (str "NAME") clean] in
  let w := Write_file NETC_HOSTNAME_FILE (clean ++ [c_nl]) in
  if ok w then (ops ++ [w], 0) else (ops, -1).

Definition line (s : string) : bytes := str s ++ [c_nl].

Definition hosts_content (clean_host domain : bytes) (windows_hosts : option bytes) : bytes :=
  NETC_AUTO_HEADER
  ++ line "# [network]" ++ line "# generateHosts = false" ++ [c_nl]
  ++ str "127.0.0.1" ++ [c_tab] ++ line "localhost"
  ++ str "127.0.1.1" ++ [c_tab] ++ clean_host ++ [c_dot] ++ domain ++ [c_tab] ++ clean_host ++ [c_nl]
  ++ (if non_empty windows_hosts then
        let wh := or_null windows_hosts in
        [c_nl] ++ line "# Windows hosts file entries" ++ wh
        ++ (match last wh with Some c => if c =? c_nl then [] else [c_nl] | None => [] end)
      else [])
  ++ [c_nl] ++ line "# The following lines are desirable for IPv6 capable hosts"
  ++ line "::1     ip6-localhost ip6-loopback" ++ line "fe00::0 ip6-localnet"
  ++ line "ff00::0 ip6-mcastprefix" ++ line "ff02::1 ip6-allnodes" ++ line "ff02::2 ip6-allrouters".

Definition network_generate_hosts (hostname domainname windows_hosts : option bytes)
    (generate_hosts : Z) : list sysop * Z :=
  if generate_hosts =? 0 then ([], 1)
  else
    let clean_host := or_null (network_clean_hostname 65 hostname) in
    let domain := if non_empty domainname then or_null domainname else NETC_DEFAULT_DOMAIN in
    let w := Write_file NETC_HOSTS_FILE (hosts_content clean_host domain windows_hosts) in
    if ok w then ([w], 0) else ([], -1).

Definition network_apply_domainname (domainname : option bytes) : list sysop * Z :=
  if negb (non_empty domainname) then ([], 0)
  else
    let op := Setdomainname (or_null domainname) in
    if ok op then ([op], 0) else ([op], -1).
End Apply.

End NetworkConfig.
