(* ===== verification/CommandLineThm.v ===== *)
(** Theorems on the shared string helpers (StringsThm: GUIDs and MAC addresses are read
    back as they were printed, splitting undoes joining, host names are valid) and on the
    argument parser (CommandLineThm: a command line is read as the options and words it
    was built from, and what that means for wslpath and wslinfo). *)
From S2P Require Import Prelude CStr CNum Strings WinPath CommandLine NetworkConfig.

Module StringsThm.
Import Strings.

(** * Comparison *)
Lemma mismatch_all ci a b : length a = length b ->
  ((mismatch ci a b =? length a)%nat = true <-> if ci then strcasecmp_eq a b = true else a = b).
Proof.
  revert b; induction a as [|x a IH]; intros [|y b] Hl; cbn in Hl |- *; try lia; [by destruct ci|].
  injection Hl as Hl. specialize (IH b Hl). destruct ci; cbn.
  - unfold strcasecmp_eq in *. cbn. destruct (tolower x =? tolower y); [exact IH|]. by split.
  - destruct (Z.eqb_spec x y) as [->|Hne]; cbn; [|by split; [|intros [=]]]. rewrite IH. split; congruence.
Qed.
Lemma IsEqual_spec a b ci : IsEqual a b ci = true <-> if ci then strcasecmp_eq a b = true else a = b.
Proof.
  unfold IsEqual, Compare. destruct (Nat.eqb_spec (length a) (length b)) as [Hl|Hl]; cbn.
  - rewrite (proj2 (Nat.leb_le _ _)) by lia. by apply mismatch_all.
  - split; [done|]. destruct ci; [unfold strcasecmp_eq; rewrite list_eqb_eq; intros H%(f_equal length); by rewrite !length_map in H|congruence].
Qed.
Lemma StartsWith_spec s p : StartsWith s p false = true <-> p `prefix_of` s.
Proof.
  unfold StartsWith. destruct (Nat.ltb_spec (length s) (length p)) as [Hl|Hl].
  - split; [done|]. intros H%prefix_length. lia.
  - unfold Compare. rewrite length_take, (proj2 (Nat.leb_le _ _)) by lia.
    assert (length (take (length p) s) = length p) as E by (rewrite length_take; lia).
    pose proof (mismatch_all false _ _ E) as H. rewrite E in H. rewrite H. split.
    + intros <-. apply prefix_take.
    + intros [t ->]. by rewrite take_app_length.
Qed.

(** * Splitting *)
Lemma getlines_app sep a s cur : Forall (fun c => c <> sep) a -> getlines sep (a ++ s) cur = getlines sep s (cur ++ a).
Proof.
  intros H. revert cur. induction H as [|c a Hc H IH]; intros cur; cbn; [by rewrite app_nil_r|].
  rewrite (proj2 (Z.eqb_neq _ _)) by done. by rewrite IH, <-app_assoc.
Qed.
Lemma getlines_join sep l cur : Forall (Forall (fun c => c <> sep)) l -> l <> [] ->
  getlines sep (Join l sep) cur = match l with e :: l' => (cur ++ e) :: l' | [] => [] end.
Proof.
  intros H. revert cur. induction H as [|e l He H IH]; intros cur Hne; [done|]. destruct l as [|e' l].
  - cbn [Join]. rewrite <-(app_nil_r e) at 1. by rewrite getlines_app.
  - cbn [Join] in IH |- *. rewrite getlines_app by done. cbn [getlines]. rewrite Z.eqb_refl. by rewrite IH.
Qed.
(** Splitting what was joined gives the entries back, without the empty ones. *)
Lemma Split_Join sep l : Forall (Forall (fun c => c <> sep)) l -> Split (Join l sep) sep = filter (fun e => e <> []) l.
Proof. intros H. destruct l as [|e l]; [done|]. unfold Split. by rewrite getlines_join. Qed.

Lemma getlines_run sep s cur : getlines sep s cur =
  (cur ++ take_while (fun c => negb (is_in [sep] c)) s) ::
    match drop_while (fun c => negb (is_in [sep] c)) s with [] => [] | _ :: s' => getlines sep s' [] end.
Proof.
  revert cur; induction s as [|c s IH]; intros cur; cbn; [by rewrite app_nil_r|]. rewrite orb_false_r, (Z.eqb_sym sep).
  destruct (c =? sep); cbn; [by rewrite app_nil_r|]. rewrite IH. by rewrite <-app_assoc.
Qed.
Lemma Split_sep c s : Split (c :: s) c = Split s c.
Proof. unfold Split. cbn. by rewrite Z.eqb_refl. Qed.
Lemma Split_drop sep s : Split (drop_while (is_in [sep]) s) sep = Split s sep.
Proof.
  induction s as [|c s IH]; [done|]. cbn [drop_while]. replace (is_in [sep] c) with (sep =? c) by (cbn; by rewrite orb_false_r).
  destruct (Z.eqb_spec sep c) as [->|]; [|done]. by rewrite IH, Split_sep.
Qed.
(** With one separator the two ways to split agree. *)
Lemma SplitByMultipleSeparators_one s sep : SplitByMultipleSeparators s [sep] = Split s sep.
Proof.
  unfold SplitByMultipleSeparators. assert (length s < S (length s))%nat as H by lia. revert H. generalize (S (length s)).
  intros fuel. revert s; induction fuel as [|fuel IH]; intros s Hf; [lia|]. cbn [split_loop]. rewrite <-Split_drop.
  pose proof (drop_while_length (is_in [sep]) s). destruct (drop_while (is_in [sep]) s) as [|c t] eqn:E; [done|].
  apply drop_while_stop in E as Hc. unfold Split. rewrite getlines_run, filter_cons_True.
  - cbn [app]. f_equal. pose proof (drop_while_length (fun c => negb (is_in [sep] c)) t). cbn [length] in *.
    cbn [drop_while]. rewrite Hc. cbn [negb]. rewrite IH by lia.
    destruct (drop_while _ t) as [|x u] eqn:E'; [done|]. apply drop_while_stop in E'. cbn in E'. rewrite orb_false_r in E'.
    apply negb_false_iff, Z.eqb_eq in E' as <-. apply Split_sep.
  - cbn. cbn in Hc. rewrite Hc. done.
Qed.

(** * Hexadecimal numbers *)
Lemma hex_length n v : length (hex n v) = n.
Proof. revert v; induction n as [|n IH]; intros v; cbn; [done|]. rewrite length_app, IH. cbn. lia. Qed.
Definition any_case (c d : Z) : Prop := 0 <= d < 16 /\ (c = hex_digit d \/ c = toupper (hex_digit d)).
Lemma digit_cases (P : Z -> Prop) : Forall P (map Z.of_nat (seq 0 16)) -> forall d, 0 <= d < 16 -> P d.
Proof.
  intros H d Hd. rewrite Forall_forall in H. apply H, list_elem_of_In, in_map_iff. exists (Z.to_nat d). rewrite in_seq. lia.
Qed.
Lemma any_case_digit c d : any_case c d -> digit_of c = Some d /\ isspace c = false /\ c <> 45 /\ c <> 43 /\ tolower c <> 120.
Proof.
  intros (Hd & Hc). revert Hc. revert d Hd. refine (digit_cases (fun d => c = hex_digit d \/ c = toupper (hex_digit d) -> _) _). cbn [map seq Z.of_nat]. repeat (constructor; [intros [->| ->]; repeat split; discriminate|]). constructor.
Qed.
(** [s] is [v] in [n] digits, of either case. *)
Fixpoint digits_of (n : nat) (v : Z) (s : bytes) : Prop :=
  match n with O => s = [] | S n' => exists s' c, s = s' ++ [c] /\ digits_of n' (v / 16) s' /\ any_case c (v mod 16) end.
Lemma digits_of_hex n v : digits_of n v (hex n v) /\ digits_of n v (map toupper (hex n v)).
Proof.
  revert v; induction n as [|n IH]; intros v; cbn; [done|]. destruct (IH (v / 16)) as [H1 H2]. pose proof (Z.mod_pos_bound v 16).
  split; [exists (hex n (v / 16)), (hex_digit (v mod 16))|exists (map toupper (hex n (v / 16))), (toupper (hex_digit (v mod 16)))].
  - split; [done|]. split; [done|]. split; [lia|by left].
  - rewrite map_app. split; [done|]. split; [done|]. split; [lia|by right].
Qed.
Lemma digits_of_length n v s : digits_of n v s -> length s = n.
Proof.
  revert v s; induction n as [|n IH]; intros v s; cbn; [by intros ->|]. intros (s' & c & -> & H & _). rewrite length_app. cbn. by rewrite (IH _ _ H), Nat.add_comm.
Qed.
Lemma digits_of_all n v s : digits_of n v s -> Forall (fun c => exists d, any_case c d) s.
Proof.
  revert v s; induction n as [|n IH]; intros v s; cbn; [by intros ->|]. intros (s' & c & -> & H & Hc).
  rewrite Forall_app. split; [by eapply IH|]. by constructor; [eexists|].
Qed.
Lemma scan_hex_digits_spec n v s w acc rest : digits_of n v s ->
  scan_hex_digits (n + w) acc (s ++ rest) = scan_hex_digits w (acc * 16 ^ Z.of_nat n + v mod 16 ^ Z.of_nat n) rest.
Proof.
  revert v s w acc rest; induction n as [|n IH]; intros v s w acc rest; cbn [digits_of].
  - intros ->. cbn [app Nat.add]. f_equal. change (16 ^ Z.of_nat 0) with 1. rewrite Z.mod_1_r. lia.
  - intros (s' & c & -> & H & Hc). rewrite <-app_assoc. replace (S n + w)%nat with (n + S w)%nat by lia.
    rewrite (IH _ _ _ _ _ H). cbn [app scan_hex_digits]. destruct (any_case_digit _ _ Hc) as (-> & _).
    rewrite (proj2 (Z.ltb_lt _ _)) by (destruct Hc; lia). f_equal. rewrite Nat2Z.inj_succ, Z.pow_succ_r by lia.
    rewrite (Z.rem_mul_r v 16) by lia. lia.
Qed.
Lemma scan_hex_spec n v s rest : (0 < n)%nat -> 0 <= v < 16 ^ Z.of_nat n -> digits_of n v s -> scan_hex n (s ++ rest) = Some (v, rest).
Proof.
  intros Hn Hv H. pose proof (digits_of_all _ _ _ H) as Hall. pose proof (digits_of_length _ _ _ H) as Hl.
  pose proof (scan_hex_digits_spec n v s 0 0 rest H) as Hscan. rewrite Nat.add_0_r, Z.mod_small in Hscan by lia.
  destruct s as [|c s]; [cbn in Hl; lia|]. pose proof (Forall_inv Hall) as [d Hc]. apply Forall_inv_tail in Hall.
  destruct (any_case_digit _ _ Hc) as (Hd & Hsp & H45 & H43 & _). unfold scan_hex. cbn [app] in *. rewrite drop_while_head by done.
  rewrite (proj2 (Z.eqb_neq c 45)), (proj2 (Z.eqb_neq c 43)) by done.
  assert (match s ++ rest with x :: t => if (c =? 48) && (tolower x =? 120) && (2 <=? n)%nat then ((n - 2)%nat, t) else (n, c :: s ++ rest)
                  | [] => (n, c :: s ++ rest) end = (n, c :: s ++ rest)) as E.
  { destruct s as [|x s].
    - cbn in Hl. subst n. destruct (_ ++ _); [done|]. by rewrite andb_false_r.
    - cbn [app]. apply Forall_inv in Hall as [d' Hx]. destruct (any_case_digit _ _ Hx) as (_ & _ & _ & _ & H120).
      by rewrite (proj2 (Z.eqb_neq _ _) H120), andb_false_r. }
  rewrite E. cbn [head_digit_in]. unfold digit_in. rewrite Hd, (proj2 (Nat.ltb_lt _ _)), (proj2 (Z.ltb_lt _ _)) by (destruct Hc; lia).
  cbn [andb]. rewrite Hscan. by destruct rest.
Qed.

(** * GUIDs *)
Definition hex_case (u : bool) (n : nat) (v : Z) : bytes := if u then map toupper (hex n v) else hex n v.
Lemma hex_case_digits u n v : digits_of n v (hex_case u n v).
Proof. destruct u; apply digits_of_hex. Qed.
Lemma scan_hex_case u n v rest : (0 < n)%nat -> 0 <= v < 16 ^ Z.of_nat n -> scan_hex n (hex_case u n v ++ rest) = Some (v, rest).
Proof. intros Hn Hv. apply scan_hex_spec; [done|done|apply hex_case_digits]. Qed.

(** A format reads what is printed for it. *)
Fixpoint printed (u : bool) (format : list (option Z * nat * Z)) (vs : list Z) : bytes :=
  match format, vs with
  | (lit, w, _) :: format', v :: vs' => (match lit with Some c => [c] | None => [] end) ++ hex_case u w v ++ printed u format' vs'
  | _, _ => []
  end.
Lemma sscanf_printed u format vs rest : length vs = length format ->
  Forall (fun '((_, w, m), v) => (0 < w)%nat /\ 0 <= v < 16 ^ Z.of_nat w /\ m = 16 ^ Z.of_nat w) (zip format vs) ->
  sscanf format (printed u format vs ++ rest) = vs.
Proof.
  revert vs; induction format as [|[[lit w] m] format IH]; intros [|v vs] Hl H; try done. cbn [zip zip_with] in H.
  pose proof (Forall_inv H) as (Hw & Hv & Hm). apply Forall_inv_tail in H. cbn [sscanf printed].
  assert (match lit with Some c => literal c (((match lit with Some c => [c] | None => [] end) ++ hex_case u w v ++ printed u format vs) ++ rest)
          | None => Some (((match lit with Some c => [c] | None => [] end) ++ hex_case u w v ++ printed u format vs) ++ rest) end
          = Some (hex_case u w v ++ printed u format vs ++ rest)) as E.
  { rewrite <-!app_assoc. destruct lit; cbn; [by rewrite Z.eqb_refl|done]. }
  rewrite E, scan_hex_case by done. rewrite Z.mod_small by lia. f_equal. apply IH; [by injection Hl|done].
Qed.
Definition fields (g : GUID) : list Z := Data1 g :: Data2 g :: Data3 g :: Data4 g.
Lemma GuidToString_printed g b u : guid_ok g ->
  GuidToString g b u = printed u (GUID_SSCANF_STRING (if b then Some 123 else None)) (fields g) ++ (if b then [125] else []).
Proof.
  intros (_ & _ & _ & Hl & _). destruct g as [d1 d2 d3 d4]. cbn [Data1 Data2 Data3 Data4] in *.
  do 8 (destruct d4 as [|? d4]; [done|]). destruct d4; [|done].
  unfold GuidToString, fields. cbn [Data1 Data2 Data3 Data4 nth GUID_SSCANF_STRING printed]. rewrite app_nil_r.
  repeat match goal with |- context [hex ?n ?v] => let h := fresh "h" in let E := fresh in remember (hex n v) as h eqn:E end.
  destruct u, b; unfold hex_case; repeat match goal with H : ?h = hex ?n ?v |- _ => rewrite <-H; clear H end.
  all: rewrite ?(fun X : bytes => removelast_last X 125 : removelast (tail ([123] ++ X ++ [125])) = X), ?map_app, <-?app_assoc.
  all: cbn [app map]; by rewrite ?app_nil_r.
Qed.
Lemma printed_length u format (vs : list Z) : length vs = length format ->
  length (printed u format vs) = list_sum (map (fun x : option Z * nat * Z => (match fst (fst x) with Some _ => 1 | None => 0 end + snd (fst x))%nat) format).
Proof.
  revert vs; induction format as [|[[lit w] m] format IH]; intros [|v vs] Hl; try done. cbn [printed map list_sum fold_right].
  rewrite !length_app, IH by (by injection Hl). rewrite (digits_of_length _ _ _ (hex_case_digits u w v)). unfold list_sum. destruct lit; cbn; lia.
Qed.
Lemma guid_fields_read g u (b : bool) : guid_ok g ->
  sscanf (GUID_SSCANF_STRING (if b then Some 123 else None)) (GuidToString g b u) = fields g /\
  length (GuidToString g b u) = (if b then 38 else 36)%nat.
Proof.
  intros Hg. rewrite GuidToString_printed by done. destruct Hg as (H1 & H2 & H3 & Hl & Hb).
  assert (length (fields g) = length (GUID_SSCANF_STRING (if b then Some 123 else None))) as Hf.
  { unfold fields. cbn [length]. rewrite Hl. by destruct b. }
  split; [|rewrite length_app, printed_length by done; by destruct b].
  apply sscanf_printed; [done|]. destruct g as [d1 d2 d3 d4]. unfold fields. cbn [Data1 Data2 Data3 Data4] in *.
  do 8 (destruct d4 as [|? d4]; [done|]). destruct d4; [|done]. unfold bytes_ok, is_byte in Hb.
  repeat (apply Forall_cons in Hb as [? Hb]). destruct b; cbn; repeat (constructor; [lia|]); constructor.
Qed.
(** A printed GUID is read back, with or without braces and in either case. *)
Theorem guid_print_parse g AddBraces Uppercase : guid_ok g -> ToGuid (GuidToString g AddBraces Uppercase) = Some g.
Proof.
  intros Hg. destruct (guid_fields_read g Uppercase AddBraces Hg) as [Hr Hl]. unfold ToGuid. rewrite Hl.
  destruct AddBraces; cbn [Nat.eqb].
  - assert (nth 0 (GuidToString g true Uppercase) 0 = 123 /\ nth 37 (GuidToString g true Uppercase) 0 = 125) as [-> ->].
    { rewrite GuidToString_printed in Hl |- * by done. rewrite length_app in Hl. cbn [length] in Hl. split; [done|].
      rewrite app_nth2 by lia. by replace (_ - _)%nat with 0%nat by lia. }
    cbn [andb Z.eqb Pos.eqb]. rewrite Hr. unfold fields. destruct Hg as (_ & _ & _ & -> & _). by destruct g.
  - cbn [andb]. rewrite Hr. unfold fields. destruct Hg as (_ & _ & _ & -> & _). by destruct g.
Qed.
Lemma guid_print_parse_witness :
  ToGuid (GuidToString (mk_guid 0x1B2C3D4E 0xAB 0 [0; 1; 2; 0xFF; 0x10; 0x20; 0x30; 0x40]) true true) =
    Some (mk_guid 0x1B2C3D4E 0xAB 0 [0; 1; 2; 0xFF; 0x10; 0x20; 0x30; 0x40]).
Proof. apply guid_print_parse. unfold guid_ok, bytes_ok, is_byte. cbn. repeat split; try lia. repeat constructor; lia. Defined.

(** * MAC addresses *)
Lemma hex2 b : 0 <= b < 256 -> exists x y, map toupper (hex 2 b) = [x; y] /\ any_case x (b / 16) /\ any_case y (b mod 16) /\ (48 <= x <= 57 \/ 65 <= x <= 70) /\ (48 <= y <= 57 \/ 65 <= y <= 70).
Proof.
  intros H. exists (toupper (hex_digit (b / 16 mod 16))), (toupper (hex_digit (b mod 16))).
  assert (forall d, 0 <= d < 16 -> 48 <= toupper (hex_digit d) <= 57 \/ 65 <= toupper (hex_digit d) <= 70) as Hr.
  { apply digit_cases. cbn [map seq Z.of_nat Pos.of_succ_nat Pos.succ]. repeat (constructor; [vm_compute; intuition discriminate|]). constructor. }
  pose proof (Z.div_pos b 16). pose proof (Z.mod_pos_bound b 16). assert (b / 16 < 16) by (apply Z.div_lt_upper_bound; lia).
  rewrite (Z.mod_small (b / 16)) by lia. split; [cbn; by rewrite (Z.mod_small (b / 16)) by lia|]. unfold any_case.
  repeat split; try lia; auto; apply Hr; lia.
Qed.

Lemma ParseNibble_digit c d : any_case c d -> ParseNibble c = d /\ iswxdigit c = true.
Proof.
  intros (Hd & Hc). revert Hc. revert d Hd. refine (digit_cases (fun d => c = hex_digit d \/ c = toupper (hex_digit d) -> _) _).
  cbn [map seq Z.of_nat]. repeat (constructor; [intros [->| ->]; split; reflexivity|]). constructor.
Qed.
Lemma mac_octets_printed sep l : bytes_ok l -> l <> [] -> mac_octets sep (length l) (FormatMacAddress l sep) = Some l.
Proof.
  intros H. induction H as [|b l Hb H IH]; intros Hne; [done|]. destruct (hex2 b Hb) as (x & y & E & Hx & Hy & _).
  destruct (ParseNibble_digit _ _ Hx) as [Nx Dx]. destruct (ParseNibble_digit _ _ Hy) as [Ny Dy].
  assert (u8 (b / 16 * 16 + b mod 16) = b) as Hval.
  { unfold is_byte in Hb. unfold u8. rewrite Z.mod_small; pose proof (Z.div_mod b 16); lia. }
  destruct l as [|b' l].
  - cbn [FormatMacAddress length mac_octets]. rewrite E. cbn [nth]. rewrite Dx, Dy. cbn. by rewrite Nx, Ny, Hval.
  - cbn [length]. remember (S (length l)) as n eqn:En. cbn [mac_octets].
    assert (FormatMacAddress (b :: b' :: l) sep = x :: y :: sep :: FormatMacAddress (b' :: l) sep) as -> by (cbn [FormatMacAddress]; by rewrite E).
    cbn [nth drop]. rewrite Dx, Dy, Z.eqb_refl, andb_false_r. cbn [negb orb]. rewrite Nx, Ny, Hval. subst n.
    cbn [length] in IH. by rewrite drop_0, IH by done.
Qed.
Lemma FormatMacAddress_length l sep : (S (length (FormatMacAddress l sep)) = match l with [] => 1 | _ => 3 * length l end)%nat.
Proof.
  induction l as [|b l IH]; [done|]. destruct l as [|b' l]; [cbn; by rewrite ?length_map, ?length_app|].
  cbn [FormatMacAddress length] in *. rewrite length_app, length_map, hex_length. cbn [length] in *. lia.
Qed.
(** A printed MAC address is read back, with its separator known or not. *)
Theorem mac_print_parse m separator given : length m = 6%nat -> bytes_ok m -> separator = c_dash \/ separator = c_colon ->
  given = 0 \/ given = separator -> ParseMacAddressNoThrow (FormatMacAddress m separator) given = Some m.
Proof.
  intros Hl Hm Hs Hg. unfold ParseMacAddressNoThrow. pose proof (FormatMacAddress_length m separator) as Hlen.
  destruct m as [|b m]; [done|]. rewrite Hl in Hlen. replace (length (FormatMacAddress (b :: m) separator)) with 17%nat by lia. cbn [Nat.eqb negb].
  assert (nth 2 (FormatMacAddress (b :: m) separator) 0 = separator) as E by by destruct m.
  pose proof (mac_octets_printed separator (b :: m) Hm ltac:(done)) as Hoct. rewrite Hl in Hoct. rewrite E.
  assert ((given =? 0) && negb ((if given =? 0 then separator else given) =? c_dash) && negb ((if given =? 0 then separator else given) =? c_colon) = false) as ->.
  { destruct (given =? 0); [|done]. by destruct Hs as [->| ->]. }
  by destruct Hg as [->| ->]; destruct Hs as [->| ->].
Qed.
Lemma mac_print_parse_witness : ParseMacAddressNoThrow (FormatMacAddress [0; 0x11; 0xAB; 0xCD; 0xEF; 9] c_colon) 0 = Some [0; 0x11; 0xAB; 0xCD; 0xEF; 9].
Proof. apply mac_print_parse; [reflexivity|repeat constructor; discriminate|right; reflexivity|left; reflexivity]. Defined.

(** * Host names *)
Definition dots (h : bytes) : nat := length (filter (fun c => c = c_dot) h).
(** Letters, digits and edges; it starts with a letter or digit, has no two edges next to
    each other, and one dot at most. *)
Fixpoint no_double_edge (h : bytes) : Prop :=
  match h with a :: (b :: _) as t => (is_edge a && is_edge b = false) /\ no_double_edge t | _ => True end.
Definition host_shape (h : bytes) : Prop :=
  Forall (fun c => isalnum c || is_edge c = true) h /\ (dots h <= 1)%nat /\ no_double_edge h /\
  match h with [] => True | c :: _ => isalnum c = true end.

Lemma no_double_edge_snoc h c : no_double_edge (h ++ [c]) <-> no_double_edge h /\ match last h with Some b => is_edge b && is_edge c = false | None => True end.
Proof.
  induction h as [|a h IH]; [cbn; tauto|]. destruct h as [|b h]; [cbn; tauto|].
  change (((a :: b :: h) ++ [c])) with (a :: (b :: h) ++ [c]). cbn [no_double_edge app] in *. rewrite IH. cbn [last]. tauto.
Qed.
Lemma host_shape_take n h : host_shape h -> host_shape (take n h).
Proof.
  revert n. enough (forall h c, host_shape (h ++ [c]) -> host_shape h) as Hs.
  { intros n. revert h. assert (forall t h, host_shape (h ++ t) -> host_shape h) as Ht.
    { induction t as [|c t IH]; intros h H; [by rewrite app_nil_r in H|]. apply (Hs h c), (IH (h ++ [c])). by rewrite <-app_assoc. }
    intros h H. apply (Ht (drop n h)). by rewrite take_drop. }
  clear h. intros h c (H1 & H2 & H3 & H4). rewrite Forall_app in H1. unfold dots in H2. rewrite filter_app, length_app in H2.
  apply no_double_edge_snoc in H3 as [H3 _]. split; [apply H1|]. split; [unfold dots; lia|]. split; [done|]. by destruct h.
Qed.
Lemma clean_loop_shape s (dot : bool) result : host_shape result -> (dots result <= (if dot then 1 else 0))%nat -> host_shape (clean_loop s dot result).
Proof.
  revert dot result; induction s as [|e s IH]; intros dot result H Hd; [done|]. cbn [clean_loop].
  assert (forall d' : bool, isalnum e || is_edge e = true -> (dots (result ++ [e]) <= (if d' then 1 else 0))%nat ->
    (match last result with Some b => is_edge b && is_edge e = false | None => isalnum e = true end) -> host_shape (clean_loop s d' (result ++ [e]))) as Hpush.
  { intros d' He Hd' Hl. destruct H as (H1 & H2 & H3 & H4). apply IH; [|done]. split; [by apply Forall_app_2; [|constructor]|].
    split; [destruct d'; lia|]. split; [apply no_double_edge_snoc; split; [done|by destruct (last result)]|].
    destruct result; [done|exact H4]. }
  assert (dots (result ++ [e]) = dots result + (if decide (e = c_dot) then 1 else 0))%nat as Hdots.
  { unfold dots. rewrite filter_app, length_app. cbn. by case_decide. }
  destruct (Z.eqb_spec e c_dot) as [->|Hne]; [|rewrite decide_False in Hdots by done; destruct (Z.eqb_spec e c_dash) as [->|Hne']].
  - rewrite decide_True in Hdots by done. destruct dot; cbn [orb]; [by apply IH|]. destruct (last result) as [b|] eqn:Hl; [|by apply IH].
    destruct (Z.eqb_spec b c_dash) as [->|Hb]; [by apply IH|]. apply Hpush; [done|lia|].
    unfold is_edge. rewrite (proj2 (Z.eqb_neq b c_dash)) by done. destruct (Z.eqb_spec b c_dot) as [->|]; [|done].
    assert (dots result = 0)%nat as H0 by lia. exfalso. apply last_Some in Hl as [l ->]. unfold dots in H0. rewrite filter_app, length_app, filter_cons_True in H0 by done. cbn [length] in H0. lia.
  - destruct (last result) as [b|] eqn:Hl; [|by apply IH]. destruct (is_edge b) eqn:Hb; [by apply IH|]. apply Hpush; [done|lia|done].
  - destruct (isalnum e) eqn:He; [|by apply IH]. apply Hpush; [done|lia|].
    assert (is_edge e = false) as He' by (unfold is_edge; by rewrite !(proj2 (Z.eqb_neq _ _)) by done).
    destruct (last result); [by rewrite He', andb_false_r|done].
Qed.
Lemma clean_stripped s : host_shape (rev (drop_while is_edge (rev (clean_loop s false [])))) /\
  match last (rev (drop_while is_edge (rev (clean_loop s false [])))) with Some c => is_edge c = false | None => True end.
Proof.
  set (r := clean_loop s false []). assert (host_shape r) as Hr by (apply clean_loop_shape; [repeat split; cbn; try done; lia|cbn; lia]).
  split.
  - destruct (drop_while_suffix is_edge (rev r)) as [pre Hpre]. apply (f_equal (@rev Z)) in Hpre. rewrite rev_involutive, rev_app_distr in Hpre.
    rewrite <-(take_app_length (rev (drop_while is_edge (rev r))) (rev pre)), <-Hpre. by apply host_shape_take.
  - destruct (drop_while is_edge (rev r)) as [|c t] eqn:E; [done|]. cbn. rewrite last_snoc. by eapply drop_while_stop.
Qed.
(** Whatever name comes in, what goes out is 1 to 64 letters and digits with single
    hyphens and at most one dot between them; only a name that had to be cut to 64 can
    end with one of these. *)
Theorem CleanHostname_valid s : let h := CleanHostname s in
  host_shape h /\ (1 <= length h <= 64)%nat /\
  ((length (rev (drop_while is_edge (rev (clean_loop s false [])))) <= 64)%nat -> match last h with Some c => is_edge c = false | None => False end).
Proof.
  cbn zeta. destruct (clean_stripped s) as [Hs Hl]. unfold CleanHostname. set (r := rev _) in *. destruct r as [|c t] eqn:E.
  - split; [|split; [cbn; lia|done]]. repeat split; try (cbn; lia). all: repeat constructor.
  - rewrite <-E in *. destruct (Nat.ltb_spec 64 (length r)) as [H|H].
    + split; [by apply host_shape_take|]. rewrite length_take. split; [lia|lia].
    + split; [done|]. split; [rewrite E in *; cbn [length] in *; lia|]. intros _. destruct (last r) eqn:El; [done|].
      apply last_None in El. by rewrite E in El.
Qed.
(** A name that is cut can end with a hyphen, which the comment in the code rules out. *)
Example cut_ends_with_hyphen : last (CleanHostname (replicate 63 97 ++ [c_dash; 98])) = Some c_dash.
Proof. vm_compute. reflexivity. Qed.
(** The guest's own copy keeps what upstream drops: a hyphen next to a dot or hyphen. *)
Example host_names_differ : CleanHostname (str "a--b.-c") = str "a-b.c" /\ NetworkConfig.network_clean_hostname 65 (Some (str "a--b.-c")) = Some (str "a--b.-c").
Proof. vm_compute. auto. Qed.

End StringsThm.

Module CommandLineThm.
Import Strings StringsThm CommandLine.
Abbreviation char_at := WinPath.char_at.

(** * Options and words *)
Inductive item : Type :=
| I_flag (name : bytes) | I_letters (letters : bytes) | I_value (name value : bytes) | I_word (w : bytes).
Definition print (i : item) : list bytes :=
  match i with I_flag n => [n] | I_letters l => [c_dash :: l] | I_value n v => [n; v] | I_word w => [w] end.
(** The spelling of an option: a letter, or a name after two hyphens. *)
Definition is_name (n : bytes) : Prop := (exists c, n = [c_dash; c] /\ c <> c_dash /\ c <> 0) \/ (exists l, n = c_dash :: c_dash :: l /\ l <> []).
Definition is_word (w : bytes) : Prop := char_at w 0 <> c_dash.

Section Reading.
Context {Store : Type} (args : list (Argument Store)).

Definition well_built (e : Argument Store) : Prop :=
  (Positional e = true /\ exists p, 0 <= p /\ forall n i, Matches e n i = (p =? i)) \/
  (Positional e = false /\ (forall i, Matches e None i = false) /\
   forall n, (forall i, Matches e (Some n) i = Matches e (Some n) (-1)) /\ (Matches e (Some n) (-1) = true -> char_at n 0 = c_dash)).
Definition named (n : bytes) : option (Argument Store) := List.find (fun e => Matches e (Some n) (-1)) args.
Definition at_position (p : Z) : option (Argument Store) := List.find (fun e => Matches e None p) args.
Definition no_value (e : Argument Store) : Prop :=
  forall v s, Consume e v s = Consume e None s /\ match Consume e None s with Consumed offset _ => offset = 0 | Threw _ => True end.
Definition one_value (e : Argument Store) : Prop :=
  forall v s, match Consume e (Some v) s with Consumed offset _ => offset = 1 | Threw _ => True end.
Definition given (n : bytes) (P : Argument Store -> Prop) : Prop := match named n with Some e => Positional e = false /\ P e | None => False end.

(** What the items mean, one after the other: each goes to the first argument that has
    its name or its position. *)
Definition next_store (e : option (Argument Store)) (arg : bytes) (value : option bytes) (s : Store) : parsed Store :=
  match e with
  | None => Failed (InvalidCommandLine arg)
  | Some e => match Consume e value s with Consumed offset s => if offset <? 0 then Failed (MissingArgument arg) else Parsed s | Threw err => Failed err end
  end.
Fixpoint letters_store (l : bytes) (s : Store) : parsed Store :=
  match l with
  | [] => Parsed s
  | c :: l' => match next_store (named [c_dash; c]) [c_dash; c] None s with Parsed s => letters_store l' s | Failed e => Failed e end
  end.
Fixpoint meaning (items : list item) (p : Z) (s : Store) : parsed Store :=
  match items with
  | [] => Parsed s
  | i :: items' =>
    match match i with
          | I_flag n => next_store (named n) n None s
          | I_letters l => letters_store l s
          | I_value n v => next_store (named n) n (Some v) s
          | I_word w => next_store (at_position p) w (Some w) s
          end with
    | Parsed s => meaning items' (match i with I_word _ => p + 1 | _ => p end) s
    | Failed e => Failed e
    end
  end.
(** The words after "--". *)
Definition words (ws : list bytes) : list item := map I_word ws.

Definition item_ok (i : item) : Prop :=
  match i with
  | I_flag n => is_name n /\ given n no_value
  | I_letters l => (2 <= length l)%nat /\ Forall (fun c => c <> 0) l /\ head l <> Some c_dash /\ Forall (fun c => given [c_dash; c] no_value) l
  | I_value n v => is_name n /\ given n one_value
  | I_word w => is_word w
  end.

Context (Hargs : Forall well_built args).

Lemma find_ext (f g : Argument Store -> bool) l : Forall (fun e => f e = g e) l -> List.find f l = List.find g l.
Proof. induction 1 as [|e l He _ IH]; cbn; [done|]. rewrite He. by destruct (g e). Qed.
Lemma find_word w p : is_word w -> List.find (fun e => Matches e (Some w) p) args = at_position p.
Proof.
  intros Hw. apply find_ext. eapply Forall_impl; [exact Hargs|]. intros e [(_ & q & _ & Hm)|(_ & Hn & Hm)]; [by rewrite !Hm|].
  destruct (Hm w) as [Hi H]. rewrite (Hi p), Hn. destruct (Matches e (Some w) (-1)); [|done]. by destruct Hw; apply H.
Qed.
Lemma find_letter n : List.find (fun e => negb (Positional e) && Matches e (Some n) (-1)) args = named n.
Proof.
  apply find_ext. eapply Forall_impl; [exact Hargs|]. intros e [(-> & q & Hq & Hm)|(-> & _)]; [|done].
  rewrite Hm. cbn. symmetry. apply Z.eqb_neq. lia.
Qed.
Lemma at_position_positional p e : at_position p = Some e -> Positional e = true.
Proof.
  intros H. unfold at_position in H. pose proof (List.find_some _ _ H) as [Hin Hm]. rewrite Forall_forall in Hargs.
  apply list_elem_of_In in Hin. destruct (Hargs e Hin) as [[? _]|(_ & Hn & _)]; [done|]. by rewrite Hn in Hm.
Qed.
Lemma dashes_neq (n : bytes) : is_name n \/ is_word n -> IsEqual n (str "--") false = false.
Proof.
  intros H. destruct (IsEqual n (str "--") false) eqn:E; [|done]. apply IsEqual_spec in E as ->. exfalso.
  destruct H as [[(c & [= <-] & Hc & _)|(l & [= <-] & Hl)]|H]; [done|done|]. by unfold is_word in H; cbn in H.
Qed.

Lemma parse_word rest w p s : is_word w -> parse_loop args 0 false p (w :: rest) s =
  match next_store (at_position p) w (Some w) s with Parsed s => parse_loop args 0 false (p + 1) rest s | Failed e => Failed e end.
Proof.
  intros Hw. cbn [parse_loop]. rewrite dashes_neq by by right. cbn [negb andb]. change WinPath.char_at with char_at.
  unfold is_word in Hw. rewrite (proj2 (Z.eqb_neq _ _) Hw). cbn [negb andb]. rewrite find_word by done. unfold next_store.
  destruct (at_position p) as [e|] eqn:E; [|done]. rewrite (at_position_positional _ _ E).
  destruct (Consume e (Some w) s) as [offset s'|]; [|done]. by destruct (offset <? 0).
Qed.
Lemma name_shape n : is_name n -> char_at n 0 = c_dash /\ char_at n 1 <> 0 /\ (char_at n 1 = c_dash \/ char_at n 2 = 0).
Proof. intros [(c & -> & H1 & H2)|(l & -> & Hl)]; cbn; [by auto|]. split; [done|]. split; [done|by left]. Qed.
Lemma parse_name rest n p s : is_name n -> parse_loop args 0 false p (n :: rest) s =
  match named n with
  | None => Failed (InvalidCommandLine n)
  | Some e =>
    match Consume e (if Positional e then Some n else match rest with v :: _ => Some v | [] => None end) s with
    | Threw err => Failed err
    | Consumed offset s => if offset <? 0 then Failed (MissingArgument n) else parse_loop args (if Positional e then O else Z.to_nat offset) false p rest s
    end
  end.
Proof.
  intros Hn. destruct (name_shape n Hn) as (H0 & H1 & H2). cbn [parse_loop]. rewrite dashes_neq by by left. change WinPath.char_at with char_at.
  rewrite H0, (proj2 (Z.eqb_neq _ _) H1). cbn [negb andb Z.eqb Pos.eqb].
  assert (negb (char_at n 1 =? c_dash) && true && negb (char_at n 2 =? 0) = false) as ->.
  { destruct H2 as [-> | ->]; [done|]. by rewrite andb_false_r. }
  done.
Qed.
Lemma parse_letters rest l p s : (2 <= length l)%nat -> Forall (fun c => c <> 0) l -> head l <> Some c_dash ->
  Forall (fun c => given [c_dash; c] no_value) l -> parse_loop args 0 false p ((c_dash :: l) :: rest) s =
  match letters_store l s with Parsed s => parse_loop args 0 false p rest s | Failed e => Failed e end.
Proof.
  intros Hl H0 Hh Hg. destruct l as [|c0 [|c1 l]]; cbn in Hl; try lia. remember (c0 :: c1 :: l) as letters eqn:El.
  assert (forall f, letters <> [] \/ f = true -> short_letters args letters f s = (true, letters_store letters s)) as Hs.
  { clear -Hg Hargs. revert s. induction Hg as [|c letters Hc Hg IH]; intros s f Hf; [destruct Hf; [done|by subst]|].
    cbn [short_letters letters_store]. rewrite find_letter. unfold given in Hc. destruct (named [c_dash; c]) as [e|]; [|done].
    destruct Hc as [_ Hc]. destruct (Hc None s) as [_ Ho]. unfold next_store. destruct (Consume e None s) as [offset s'|]; [|done].
    subst offset. cbn [Z.ltb Z.compare]. apply IH. by right. }
  pose proof (Forall_inv (Forall_inv_tail (eq_ind _ (fun l => Forall _ l) H0 _ El))) as Hc1. cbn in Hc1.
  pose proof (Forall_inv (eq_ind _ (fun l => Forall _ l) H0 _ El)) as Hc0. cbn in Hc0.
  assert (c0 <> c_dash) as Hd by (rewrite El in Hh; cbn in Hh; congruence).
  assert (IsEqual (c_dash :: letters) (str "--") false = false) as E.
  { destruct (IsEqual (c_dash :: letters) (str "--") false) eqn:E; [|done]. apply IsEqual_spec in E. by rewrite El in E. }
  cbn [parse_loop]. rewrite E, El. cbn [WinPath.char_at nth negb andb drop Z.eqb Pos.eqb].
  rewrite (proj2 (Z.eqb_neq c0 c_dash)), (proj2 (Z.eqb_neq c0 0)), (proj2 (Z.eqb_neq c1 0)) by done. cbn [negb andb].
  rewrite <-El, Hs by (left; by rewrite El). by destruct (letters_store letters s).
Qed.

Definition count_words (items : list item) : Z :=
  Z.of_nat (length (filter (fun i => match i with I_word _ => true | _ => false end = true) items)).
Lemma count_words_cons i items : count_words (i :: items) = (match i with I_word _ => 1 | _ => 0 end) + count_words items.
Proof. unfold count_words. destruct i; rewrite ?filter_cons_True, ?filter_cons_False by done; cbn [length]; lia. Qed.
Lemma meaning_app items items' p s : meaning (items ++ items') p s =
  match meaning items p s with Parsed s => meaning items' (p + count_words items) s | Failed e => Failed e end.
Proof.
  revert p s; induction items as [|i items IH]; intros p s; cbn [app meaning]; [f_equal; unfold count_words; cbn; lia|].
  rewrite count_words_cons. match goal with |- match ?r with _ => _ end = _ => destruct r as [s'|]; [|done] end.
  rewrite IH. destruct (meaning items _ s'); [|done]. f_equal. destruct i; lia.
Qed.
Lemma parse_items items rest p s : Forall item_ok items -> parse_loop args 0 false p (flat_map print items ++ rest) s =
  match meaning items p s with Parsed s => parse_loop args 0 false (p + count_words items) rest s | Failed e => Failed e end.
Proof.
  intros H. revert p s; induction H as [|i items Hi H IH]; intros p s; [cbn [meaning flat_map app]; f_equal; unfold count_words; cbn; lia|].
  rewrite count_words_cons. cbn [flat_map meaning]. rewrite <-app_assoc. destruct i as [n|l|n v|w]; cbn [print app].
  - destruct Hi as [Hn Hg]. rewrite parse_name by done. unfold given in Hg. destruct (named n) as [e|]; [|done]. destruct Hg as [-> Hv].
    rewrite (proj1 (Hv _ s)). destruct (Hv None s) as [_ Ho]. unfold next_store. destruct (Consume e None s) as [offset s'|]; [|done].
    subst offset. cbn. apply IH.
  - destruct Hi as (H1 & H2 & H3 & H4). rewrite parse_letters by done. destruct (letters_store l s); [|done]. apply IH.
  - destruct Hi as [Hn Hg]. rewrite parse_name by done. unfold given in Hg. destruct (named n) as [e|]; [|done]. destruct Hg as [-> Hv].
    specialize (Hv v s). unfold next_store. destruct (Consume e (Some v) s) as [offset s'|]; [|done]. subst offset. cbn. apply IH.
  - rewrite parse_word by done. destruct (next_store _ _ _ _); [|done]. rewrite IH. by rewrite Z.add_assoc.
Qed.
Lemma parse_words ws p s : Forall is_word (removelast ws) -> parse_loop args 0 true p ws s = meaning (words ws) p s.
Proof.
  revert p s; induction ws as [|w ws IH]; intros p s H; [done|]. cbn [parse_loop words map meaning negb andb].
  rewrite andb_false_r. fold (at_position p). unfold at_position, next_store. destruct (List.find _ args) as [e|] eqn:E; [|done].
  rewrite (at_position_positional p e E). destruct (Consume e (Some w) s) as [offset s'|]; [|done]. destruct (offset <? 0); [done|].
  destruct ws as [|w' ws]; [done|]. change (removelast (w :: w' :: ws)) with (w :: removelast (w' :: ws)) in H.
  pose proof (Forall_inv H) as Hw. unfold is_word in Hw. change WinPath.char_at with char_at. rewrite (proj2 (Z.eqb_neq _ _) Hw). cbn [negb].
  apply IH. by apply Forall_inv_tail in H.
Qed.
Definition command_line (items : list item) (tail : option (list bytes)) : list bytes :=
  flat_map print items ++ match tail with Some ws => str "--" :: ws | None => [] end.
Lemma parse_command_line program items tail s : Forall item_ok items ->
  Forall is_word (removelast (match tail with Some ws => ws | None => [] end)) ->
  Parse args (program :: command_line items tail) s = meaning (items ++ match tail with Some ws => words ws | None => [] end) 0 s.
Proof.
  intros Hi Ht. unfold Parse, command_line. cbn [tl]. rewrite parse_items, meaning_app by done. destruct (meaning items 0 s) as [s'|]; [|done].
  destruct tail as [ws|]; [|done]. cbn [parse_loop negb andb]. change (IsEqual (str "--") (str "--") false) with true. by apply parse_words.
Qed.
End Reading.

(** C38: A command line is read as the options and words it was built from: flags and
    letters in one argument, options with their values, words, and after "--" more words,
    of which only the last may start with a hyphen: another one would keep its position
    and be replaced (word_after_dashes_replaced).  Each goes to the first argument of its
    name or position, in order, up to the first that is refused. *)
Theorem command_line_read {Store} (args : list (Argument Store)) program items tail s :
  Forall well_built args -> Forall (item_ok args) items -> Forall is_word (removelast (match tail with Some ws => ws | None => [] end)) ->
  Parse args (program :: command_line items tail) s = meaning args (items ++ match tail with Some ws => words ws | None => [] end) 0 s.
Proof. intros Hargs. by apply parse_command_line. Qed.

(** What AddArgument and AddPositionalArgument build is well built. *)
Lemma AddArgument_well_built {Store} (o : TParseMethod Store) LongName ShortName :
  match LongName with Some l => char_at l 0 = c_dash | None => True end -> well_built (AddArgument o LongName ShortName).
Proof.
  intros Hl. right. cbn. split; [done|]. split; [done|]. intros n. split; [done|].
  destruct LongName as [l|]; [destruct (IsEqual n l false) eqn:E; [apply IsEqual_spec in E as ->; done|]|].
  all: intros H; bool_to_prop; done.
Qed.
Lemma AddPositionalArgument_well_built {Store} (o : TParseMethod Store) p : 0 <= p -> well_built (AddPositionalArgument o p).
Proof. intros Hp. left. split; [done|]. by exists p. Qed.
#[export] Hint Resolve AddArgument_well_built AddPositionalArgument_well_built : wsl.

(** * wslpath *)
#[export] Instance item_eq_dec : EqDecision item.
Proof. solve_decision. Defined.
Abbreviation flag_a := (I_flag (str "-a")).
Abbreviation flag_mode m := (I_flag [c_dash; m]).
Definition is_mode (m : Z) : Prop := m = TRANSLATE_MODE_UNIX \/ m = TRANSLATE_MODE_WINDOWS \/ m = TRANSLATE_MODE_MIXED.
Definition times (i : item) (items : list item) : nat := length (filter (fun j => j = i) items).
Lemma times_cons i j items : times i (j :: items) = ((if decide (j = i) then 1 else 0) + times i items)%nat.
Proof. unfold times. destruct (decide (j = i)); by rewrite ?filter_cons_True, ?filter_cons_False by done. Qed.
Lemma times_pos i items : i ∈ items <-> (0 < times i items)%nat.
Proof.
  induction items as [|j items IH]; [unfold times; cbn; split; [by intros ?%elem_of_nil|lia]|]. rewrite elem_of_cons, times_cons, IH.
  destruct (decide (j = i)); [split; [lia|by left]|]. split; [intros [?|?]; [done|lia]|intros; right; lia].
Qed.

Lemma path_arguments_well_built : Forall well_built path_arguments.
Proof.
  unfold path_arguments, path_mode. repeat (apply Forall_cons_2; [by (apply AddArgument_well_built || apply AddPositionalArgument_well_built)|]). constructor.
Qed.
Lemma unique_no_value {S} (h : S -> bool) f l c : no_value (AddArgument (UniqueSetValue h f) l c).
Proof. intros v s. cbn. unfold UniqueSetValue. by destruct (h s). Qed.
Lemma path_items_ok m path : is_mode m -> is_word path ->
  item_ok path_arguments flag_a /\ item_ok path_arguments (flag_mode m) /\ item_ok path_arguments (I_word path).
Proof.
  intros Hm Hw. split; [|split; [|done]].
  - split; [left; by exists 97|]. split; [done|]. by intros v s.
  - assert (exists c, m = c /\ c <> c_dash /\ c <> 0) as (c & -> & H1 & H2) by (exists m; destruct Hm as [->|[->| ->]]; done).
    split; [left; by exists c|]. destruct Hm as [->|[->| ->]]; split; try done; apply unique_no_value.
Qed.
Lemma meaning_step_a items p o : meaning path_arguments (flag_a :: items) p o =
  meaning path_arguments items p (mk_path_options (Z.lor (Flags o) TRANSLATE_FLAG_ABSOLUTE) (Mode o) (OriginalPath o)).
Proof. reflexivity. Qed.
Lemma meaning_step_mode m items p o : is_mode m -> meaning path_arguments (flag_mode m :: items) p o =
  match Mode o with Some _ => Failed Usage | None => meaning path_arguments items p (mk_path_options (Flags o) (Some m) (OriginalPath o)) end.
Proof. intros [->|[->| ->]]; cbn; unfold next_store; cbn; unfold UniqueSetValue; by destruct (Mode o). Qed.
Lemma meaning_step_word path items o : meaning path_arguments (I_word path :: items) 0 o =
  meaning path_arguments items 1 (mk_path_options (Flags o) (Mode o) (Some path)).
Proof. reflexivity. Qed.

Lemma path_meaning m path items p o : is_mode m -> flag_a <> flag_mode m ->
  Forall (fun i => i = flag_a \/ i = flag_mode m \/ i = I_word path) items ->
  (times (flag_mode m) items + (if is_set (Mode o) then 1 else 0) <= 1)%nat ->
  p = 0 /\ (times (I_word path) items <= 1)%nat \/ times (I_word path) items = 0%nat ->
  meaning path_arguments items p o = Parsed (mk_path_options
    (if decide (flag_a ∈ items) then Z.lor (Flags o) TRANSLATE_FLAG_ABSOLUTE else Flags o)
    (if decide (flag_mode m ∈ items) then Some m else Mode o)
    (if decide (I_word path ∈ items) then Some path else OriginalPath o)).
Proof.
  intros Hm Hne H. revert p o. induction H as [|i items Hi H IH]; intros p o Hmode Hword.
  - cbn. rewrite !decide_False by (by intros ?%elem_of_nil). by destruct o.
  - assert (forall j, j ∈ i :: items <-> j = i \/ j ∈ items) as Hin by (intros; apply elem_of_cons).
    rewrite !times_cons in Hmode, Hword. destruct Hi as [->|[->| ->]].
    + rewrite decide_False in Hmode by done. rewrite decide_False in Hword by done.
      rewrite meaning_step_a, IH by (cbn; tauto || lia). cbn [Flags Mode OriginalPath]. f_equal.
      rewrite (decide_True (P := flag_a ∈ flag_a :: items)) by by apply Hin; left.
      rewrite (decide_ext (flag_mode m ∈ flag_a :: items) (flag_mode m ∈ items)) by (rewrite Hin; naive_solver).
      rewrite (decide_ext (I_word path ∈ flag_a :: items) (I_word path ∈ items)) by (rewrite Hin; naive_solver).
      f_equal. case_decide; [|done]. unfold TRANSLATE_FLAG_ABSOLUTE. by rewrite <-Z.lor_assoc, Z.lor_diag.
    + rewrite decide_True in Hmode by done. rewrite decide_False in Hword by done.
      rewrite meaning_step_mode by done. destruct (Mode o) eqn:Ho; cbn in Hmode; [lia|].
      rewrite IH by (cbn; tauto || lia). cbn [Flags Mode OriginalPath]. f_equal.
      rewrite (decide_True (P := flag_mode m ∈ flag_mode m :: items)) by by apply Hin; left.
      rewrite (decide_ext (flag_a ∈ flag_mode m :: items) (flag_a ∈ items)) by (rewrite Hin; naive_solver).
      rewrite (decide_ext (I_word path ∈ flag_mode m :: items) (I_word path ∈ items)) by (rewrite Hin; naive_solver).
      f_equal. by match goal with |- context [decide ?P] => destruct (decide P) end.
    + rewrite decide_False in Hmode by done. rewrite decide_True in Hword by done.
      assert (p = 0) as -> by lia. rewrite meaning_step_word.
      rewrite IH by (cbn; tauto || lia). cbn [Flags Mode OriginalPath]. f_equal.
      rewrite (decide_True (P := I_word path ∈ I_word path :: items)) by by apply Hin; left.
      rewrite (decide_ext (flag_a ∈ I_word path :: items) (flag_a ∈ items)) by (rewrite Hin; naive_solver).
      rewrite (decide_ext (flag_mode m ∈ I_word path :: items) (flag_mode m ∈ items)) by (rewrite Hin; naive_solver).
      f_equal. by match goal with |- context [decide ?P] => destruct (decide P) end.
Qed.
(** wslpath -wa -- -x: letters in one argument, and a path with a hyphen. *)
Lemma command_line_read_witness :
  Parse path_arguments [str "wslpath"; str "-wa"; str "--"; str "-x"] (mk_path_options 2 None None) =
    Parsed (mk_path_options 3 (Some TRANSLATE_MODE_WINDOWS) (Some (str "-x"))).
Proof.
  refine (eq_trans (command_line_read path_arguments (str "wslpath") [I_letters (str "wa")] (Some [str "-x"]) (mk_path_options 2 None None)
    path_arguments_well_built _ _) _); [|constructor|reflexivity].
  constructor; [|constructor]. split; [apply Nat.leb_le; reflexivity|]. split; [repeat constructor; discriminate|]. split; [discriminate|].
  repeat (apply Forall_cons_2; [split; [reflexivity|apply unique_no_value || (intros w s; split; reflexivity)]|]). apply Forall_nil_2.
Defined.

Definition translate_mode (m : Z) : WinPath.mode :=
  if m =? TRANSLATE_MODE_UNIX then WinPath.M_unix else if m =? TRANSLATE_MODE_MIXED then WinPath.M_mixed else WinPath.M_windows.
(** What wslpath prints for a path is its translation, whatever the order and number of
    the options before and after the path. *)
Theorem wslpath_any_order v program path m items : is_mode m -> is_word path ->
  Forall (fun i => i = flag_a \/ i = flag_mode m \/ i = I_word path) items ->
  (times (flag_mode m) items <= 1)%nat -> times (I_word path) items = 1%nat ->
  WslPathEntry v (program :: command_line items None) =
    match WinPath.WslPathTranslate v path (bool_decide (flag_a ∈ items)) true
            (if decide (flag_mode m ∈ items) then translate_mode m else WinPath.M_unix) with
    | [] => Exit_1 (Not_translated path)
    | p => Exit_ok (to_cstr p ++ [c_nl])
    end.
Proof.
  intros Hm Hp Hitems Hmode Hpath. unfold WslPathEntry. destruct (path_items_ok m path Hm Hp) as (Ha & Hmo & Hw).
  assert (flag_a <> flag_mode m) as Hne by (intros [= <-]; destruct Hm as [?|[?|?]]; discriminate).
  rewrite parse_command_line; [|apply path_arguments_well_built| |constructor].
  2: { eapply Forall_impl; [exact Hitems|]. by intros i [->|[->| ->]]. }
  rewrite app_nil_r, (path_meaning m path) by (try done; cbn; lia || (left; lia)). cbn [Flags Mode OriginalPath].
  rewrite (decide_True (P := I_word path ∈ items)) by (apply times_pos; lia).
  set (f := if decide (flag_a ∈ items) then _ else _).
  assert (Z.testbit f 0 = bool_decide (flag_a ∈ items) /\ Z.testbit f 1 = true) as [-> ->] by (subst f; destruct (decide (flag_a ∈ items)) as [Hin|Hin]; [rewrite (bool_decide_eq_true_2 _ Hin)|rewrite (bool_decide_eq_false_2 _ Hin)]; done).
  destruct (decide (flag_mode m ∈ items)).
  - rewrite (proj2 (Z.eqb_neq m TRANSLATE_MODE_HELP)) by (destruct Hm as [->|[->| ->]]; discriminate). fold (translate_mode m).
    by destruct (WinPath.WslPathTranslate v path _ true (translate_mode m)).
  - cbn [Z.eqb TRANSLATE_MODE_UNIX TRANSLATE_MODE_HELP Pos.eqb]. by destruct (WinPath.WslPathTranslate v path _ true WinPath.M_unix).
Qed.
Lemma wslpath_any_order_witness v :
  let entry argv := WslPathEntry v (str "wslpath" :: argv) in
  entry [str "-w"; str "dir"; str "-a"] = entry [str "-a"; str "-a"; str "-w"; str "dir"].
Proof.
  cbn zeta. pose proof (fun items => wslpath_any_order v (str "wslpath") (str "dir") TRANSLATE_MODE_WINDOWS items) as H.
  pose proof (H [flag_mode TRANSLATE_MODE_WINDOWS; I_word (str "dir"); flag_a]) as H1.
  pose proof (H [flag_a; flag_a; flag_mode TRANSLATE_MODE_WINDOWS; I_word (str "dir")]) as H2.
  etransitivity; [apply H1|symmetry; etransitivity; [apply H2|]].
  all: try (right; left; reflexivity). all: try discriminate. all: try reflexivity.
  all: repeat (apply Forall_cons_2; [auto|]); try apply Forall_nil_2. all: apply Nat.leb_le; reflexivity.
Defined.

(** After "--" a word with a hyphen does not move the position: the next word replaces it. *)
Example word_after_dashes_replaced :
  Parse path_arguments (map str ["wslpath"; "--"; "-x"; "y"]) (mk_path_options 2 None None) = Parsed (mk_path_options 2 None (Some (str "y"))).
Proof. vm_compute. reflexivity. Qed.
(** A number that is too large is no error: the default stays. *)
Example large_number_ignored : forall s : Z, Integer INT_MIN INT_MAX id (fun v _ => v) (Some (str "99999999999")) s = Consumed 1 s.
Proof. reflexivity. Qed.
(** In a group of letters an option that needs a value is passed over without one. *)
Example value_missing_in_letters :
  Parse [AddArgument (Simple (fun v _ => v)) None 111; AddArgument (Flag (fun s => s ++ [1])) None 97] (map str ["x"; "-ao"]) [] = Parsed [1].
Proof. vm_compute. reflexivity. Qed.

End CommandLineThm.
