(* ===== verification/LocalhostThm.v ===== *)
(** Theorems on the two port trackers: of the guest (PortTrackerThm) and of the upstream
    relay (LocalhostThm). *)
From Stdlib Require Import Sorted.
From S2P Require Import Prelude CStr CNum Strings Wire ChannelThm CommandLine Localhost PortTracker CommandLineThm.

Import Wire PortTracker.

Module PortTrackerThm.

(** * The comparator *)
(** The comparator is the lexicographic order of this key. *)
Definition key (e : port_entry) : bytes := family e :: port e :: addr_bytes (addr e).

Lemma cmp_key a b : port_entry_cmp a b = memcmp (key a) (key b).
Proof.
  unfold port_entry_cmp, key. cbn [memcmp].
  destruct (family a =? family b); cbn [negb]; [|done]. by destruct (port a =? port b).
Qed.

Lemma addr_bytes_length a : length (addr_bytes a) = 16%nat.
Proof. destruct a as [[[a0 a1] a2] a3]. unfold addr_bytes. by autorewrite with len. Qed.

Lemma key_length e : length (key e) = 18%nat.
Proof. unfold key. cbn [length]. by rewrite addr_bytes_length. Qed.

(** Entries whose address is made of 32-bit words. *)
Definition entry_wf (e : port_entry) : Prop :=
  let '(a0, a1, a2, a3) := addr e in
  0 <= a0 < 2 ^ 32 /\ 0 <= a1 < 2 ^ 32 /\ 0 <= a2 < 2 ^ 32 /\ 0 <= a3 < 2 ^ 32.

Lemma le_bytes_inj n x y :
  0 <= x < 256 ^ Z.of_nat n -> 0 <= y < 256 ^ Z.of_nat n -> le_bytes n x = le_bytes n y -> x = y.
Proof.
  intros Hx Hy H. by rewrite <-(le_val_bytes_small n x), H, le_val_bytes_small by done.
Qed.

Lemma key_inj a b : entry_wf a -> entry_wf b -> key a = key b -> a = b.
Proof.
  destruct a as [f p [[[a0 a1] a2] a3]], b as [g q [[[b0 b1] b2] b3]].
  unfold entry_wf, key, addr_bytes. cbn [family port addr].
  intros (?&?&?&?) (?&?&?&?) HK.
  pose proof (f_equal head HK) as [= ->]. apply (f_equal tail) in HK. cbn [tail] in HK.
  pose proof (f_equal head HK) as [= ->]. apply (f_equal tail) in HK as HT. cbn [tail] in HT.
  apply app_inj_1 in HT as [E0 HT]; [|by rewrite !le_bytes_length].
  apply app_inj_1 in HT as [E1 HT]; [|by rewrite !le_bytes_length].
  apply app_inj_1 in HT as [E2 E3]; [|by rewrite !le_bytes_length].
  apply le_bytes_inj in E0, E1, E2, E3; try done. by subst.
Qed.

Lemma cmp_refl a : port_entry_cmp a a = 0.
Proof. by rewrite cmp_key, memcmp_refl. Qed.

Lemma cmp_eq a b : entry_wf a -> entry_wf b -> port_entry_cmp a b = 0 -> a = b.
Proof.
  intros Ha Hb H. apply key_inj; try done. rewrite cmp_key in H. apply memcmp_eq; [|done].
  by rewrite !key_length.
Qed.

Lemma cmp_antisym a b : port_entry_cmp b a = - port_entry_cmp a b.
Proof. by rewrite !cmp_key, memcmp_antisym. Qed.

Lemma cmp_lt_le a b c : port_entry_cmp a b < 0 -> port_entry_cmp b c <= 0 -> port_entry_cmp a c < 0.
Proof. rewrite !cmp_key. apply memcmp_trans; by rewrite !key_length. Qed.

Lemma cmp_le_trans a b c :
  port_entry_cmp a b <= 0 -> port_entry_cmp b c <= 0 -> port_entry_cmp a c <= 0.
Proof.
  intros H1 H2. destruct (decide (port_entry_cmp a b < 0)) as [Hlt|].
  - pose proof (cmp_lt_le _ _ _ Hlt H2). lia.
  - rewrite !cmp_key in *. assert (key a = key b) as ->; [|done].
    apply memcmp_eq; [by rewrite !key_length|]. lia.
Qed.

(** * Snapshots *)
Definition entry_le (a b : port_entry) : Prop := port_entry_cmp a b <= 0.
Definition entry_lt (a b : port_entry) : Prop := port_entry_cmp a b < 0.

Lemma insert_sorted_perm e l : insert_sorted e l ≡ₚ e :: l.
Proof.
  induction l as [|x l IH]; cbn; [done|]. case_if; [done|]. rewrite IH. apply Permutation_swap.
Qed.

Lemma qsort_perm l : qsort l ≡ₚ l.
Proof. induction l as [|e l IH]; cbn; [done|]. by rewrite insert_sorted_perm, IH. Qed.

Lemma insert_sorted_sorted e l :
  StronglySorted entry_le l -> StronglySorted entry_le (insert_sorted e l).
Proof.
  induction 1 as [|x l Hs IH Hx]; cbn; [by repeat constructor|]. case_if.
  - constructor; [by constructor|]. constructor; [done|].
    eapply Forall_impl_hint; [exact Hx|]. intros y Hy. eapply cmp_le_trans; [|exact Hy]. done.
  - constructor; [done|]. apply Forall_forall. intros y Hy.
    rewrite insert_sorted_perm in Hy. apply list_elem_of_In in Hy as [<-|Hy].
    + unfold entry_le. rewrite cmp_antisym. lia.
    + eapply Forall_forall in Hx; [exact Hx|]. by apply list_elem_of_In.
Qed.

Lemma qsort_sorted l : StronglySorted entry_le (qsort l).
Proof. induction l; cbn; [constructor|]. by apply insert_sorted_sorted. Qed.

Lemma dedup_from_spec prev l :
  Forall entry_wf (prev :: l) -> StronglySorted entry_le (prev :: l) ->
  StronglySorted entry_lt (prev :: dedup_from prev l)
  /\ (forall e, e ∈ prev :: dedup_from prev l <-> e ∈ prev :: l).
Proof.
  revert prev; induction l as [|x l IH]; intros prev Hw Hs; cbn [dedup_from].
  { split; [repeat constructor|done]. }
  apply Forall_cons in Hw as [Hp Hw]. pose proof Hw as Hw'. apply Forall_cons in Hw as [Hx Hw].
  inversion Hs as [|? ? Hs' Hall]; subst. apply Forall_cons in Hall as [Hpx Hall].
  inversion Hs' as [|? ? Hs'' Hxl]; subst. unfold entry_le in Hpx. case_if.
  - apply cmp_eq in Heqb; try done. subst x.
    destruct (IH prev) as [H1 H2]; [by constructor|done|]. split; [done|].
    intros e. rewrite H2, !elem_of_cons. tauto.
  - destruct (IH x) as [H1 H2]; [done|done|]. split.
    + constructor; [done|]. apply Forall_forall. intros e He. apply H2 in He.
      apply elem_of_cons in He as [->|He]; [unfold entry_lt; lia|].
      rewrite Forall_forall in Hxl. apply (cmp_lt_le _ x); [lia|by apply Hxl].
    + intros e. specialize (H2 e). rewrite (elem_of_cons (x :: _)), (elem_of_cons (x :: l)). tauto.
Qed.

Lemma dedup_sort_spec arr :
  Forall entry_wf arr ->
  StronglySorted entry_lt (port_entry_dedup_sort arr)
  /\ (forall e, e ∈ port_entry_dedup_sort arr <-> e ∈ arr).
Proof.
  intros Hw. unfold port_entry_dedup_sort.
  assert (Forall entry_wf (qsort arr)) as Hq by (by rewrite qsort_perm).
  pose proof (qsort_sorted arr) as Hs. pose proof (qsort_perm arr) as Hperm.
  destruct (qsort arr) as [|e l].
  - split; [constructor|]. intros e. by rewrite <-Hperm.
  - destruct (dedup_from_spec e l Hq Hs) as [H1 H2]. split; [done|].
    intros x. by rewrite H2, Hperm.
Qed.

Lemma dedup_sort_wf arr : Forall entry_wf arr -> Forall entry_wf (port_entry_dedup_sort arr).
Proof.
  intros H. apply Forall_forall. intros e He. rewrite (proj2 (dedup_sort_spec arr H) e) in He.
  rewrite Forall_forall in H. by apply H.
Qed.

(** Sorting and compacting a scan gives a strictly increasing array with
    exactly the entries of the scan, so it holds no entry twice. *)
Theorem dedup_sort_is_set arr :
  Forall entry_wf arr ->
  StronglySorted (fun a b => port_entry_cmp a b < 0) (port_entry_dedup_sort arr)
  /\ NoDup (port_entry_dedup_sort arr)
  /\ forall e, e ∈ port_entry_dedup_sort arr <-> e ∈ arr.
Proof.
  intros Hw. destruct (dedup_sort_spec arr Hw) as [Hs Hm]. split; [exact Hs|]. split; [|exact Hm].
  clear Hm. induction Hs as [|e l _ IH Hall]; constructor; [|done].
  intros He. rewrite Forall_forall in Hall. apply Hall in He as Hlt. unfold entry_lt in Hlt.
  rewrite cmp_refl in Hlt. lia.
Qed.

Definition example_entry (p : Z) : port_entry := mk_entry AF_INET p (0, 0, 0, 0).

Lemma dedup_sort_is_set_witness :
  Forall entry_wf [example_entry 80; example_entry 22; example_entry 80]
  /\ NoDup (port_entry_dedup_sort [example_entry 80; example_entry 22; example_entry 80]).
Proof.
  assert (H : Forall entry_wf [example_entry 80; example_entry 22; example_entry 80])
    by (repeat constructor; cbn; lia).
  split; [exact H|]. exact (proj1 (proj2 (dedup_sort_is_set _ H))).
Defined.

Example dedup_sort_example :
  port_entry_dedup_sort [example_entry 80; example_entry 22; example_entry 80]
  = [example_entry 22; example_entry 80].
Proof. reflexivity. Qed.

(** * The diff *)
Abbreviation Start := LxGnsMessagePortListenerRelayStart.
Abbreviation Stop := LxGnsMessagePortListenerRelayStop.

Definition op (s : sent_relay) : Z * port_entry := (s_type s, s_entry s).

(** What a message of the trace carries: a prefix of its bytes, all of them
    exactly when the send succeeded. *)
Definition carries (s : sent_relay) : Prop :=
  exists k, s_data s = take k (relay_bytes (s_type s) (s_entry s) 0)
    /\ (s_rc s = Some 0 -> s_data s = relay_bytes (s_type s) (s_entry s) 0).

(** The messages that lead from one sorted snapshot to another. *)
Inductive diff_ops : list port_entry -> list port_entry -> list (Z * port_entry) -> Prop :=
| diff_done : diff_ops [] [] []
| diff_add c cur old ops :
    Forall (entry_lt c) old -> diff_ops cur old ops -> diff_ops (c :: cur) old ((Start, c) :: ops)
| diff_remove o cur old ops :
    Forall (entry_lt o) cur -> diff_ops cur old ops -> diff_ops cur (o :: old) ((Stop, o) :: ops)
| diff_keep e cur old ops :
    diff_ops cur old ops -> diff_ops (e :: cur) (e :: old) ops.

Lemma lt_cons c o old :
  entry_lt c o -> StronglySorted entry_lt (o :: old) -> Forall (entry_lt c) (o :: old).
Proof.
  intros Hc Hs. inversion Hs as [|? ? _ Hall]; subst. constructor; [done|].
  eapply Forall_impl_hint; [exact Hall|]. intros x Hx. apply (cmp_lt_le _ o); [done|].
  unfold entry_lt in Hx. lia.
Qed.

Lemma send_carries evs ty e :
  carries (let x := port_tracker_send_relay evs ty e 0 in mk_sent ty e (x_data x) (x_rc x)).
Proof.
  unfold carries, port_tracker_send_relay, send_all. cbn [s_data s_rc s_type s_entry].
  destruct (send_loop_data retry_again evs (relay_bytes ty e 0) []) as (k & Hd & H0 & _).
  exists k. cbn [app] in Hd. split; [exact Hd|]. intros Hrc. rewrite Hd. by apply H0.
Qed.

Lemma diff_loop_spec fuel evs cur old trace :
  (length cur + length old < fuel)%nat ->
  Forall entry_wf cur -> Forall entry_wf old ->
  StronglySorted entry_lt cur -> StronglySorted entry_lt old ->
  exists new, snd (diff_loop fuel evs cur old trace) = trace ++ new
    /\ diff_ops cur old (map op new) /\ Forall carries new.
Proof.
  revert evs cur old trace; induction fuel as [|fuel IH]; intros evs cur old trace Hf Wc Wo Sc So; [lia|].
  assert (Hadd : forall c cur', cur = c :: cur' -> Forall (entry_lt c) old ->
    exists new, snd (let x := port_tracker_send_relay evs Start c 0 in
      diff_loop fuel (x_events x) cur' old (trace ++ [mk_sent Start c (x_data x) (x_rc x)]))
      = trace ++ new /\ diff_ops cur old (map op new) /\ Forall carries new).
  { intros c cur' -> Hlt. apply Forall_cons in Wc as [_ Wc]. inversion Sc; subst. cbv zeta.
    set (x := port_tracker_send_relay evs Start c 0). cbn [length] in Hf.
    destruct (IH (x_events x) cur' old (trace ++ [mk_sent Start c (x_data x) (x_rc x)]))
      as (new & E1 & E2 & E3); [lia|done..|]. rewrite E1, <-app_assoc.
    eexists. split; [reflexivity|]. split; [by constructor|]. constructor; [apply send_carries|done]. }
  assert (Hrem : forall o old', old = o :: old' -> Forall (entry_lt o) cur ->
    exists new, snd (let x := port_tracker_send_relay evs Stop o 0 in
      diff_loop fuel (x_events x) cur old' (trace ++ [mk_sent Stop o (x_data x) (x_rc x)]))
      = trace ++ new /\ diff_ops cur old (map op new) /\ Forall carries new).
  { intros o old' -> Hlt. apply Forall_cons in Wo as [_ Wo]. inversion So; subst. cbv zeta.
    set (x := port_tracker_send_relay evs Stop o 0). cbn [length] in Hf.
    destruct (IH (x_events x) cur old' (trace ++ [mk_sent Stop o (x_data x) (x_rc x)]))
      as (new & E1 & E2 & E3); [lia|done..|]. rewrite E1, <-app_assoc.
    eexists. split; [reflexivity|]. split; [by constructor|]. constructor; [apply send_carries|done]. }
  destruct cur as [|c cur], old as [|o old]; cbn [diff_loop].
  - exists []. rewrite app_nil_r. repeat constructor.
  - cbn [Z.ltb Z.compare]. by apply Hrem.
  - cbn [Z.ltb Z.compare]. by apply Hadd.
  - case_if; [apply Hadd; [done|]; by apply lt_cons|]. case_if.
    + apply Hrem; [done|]. apply lt_cons; [|done]. unfold entry_lt. rewrite cmp_antisym. lia.
    + apply Forall_cons in Wc as [Wc0 Wc], Wo as [Wo0 Wo].
      assert (c = o) as -> by (apply cmp_eq; [done..|lia]).
      inversion Sc; inversion So; subst. cbn [tail length] in *.
      destruct (IH evs cur old trace) as (new & E1 & E2 & E3); [lia|done..|].
      exists new. split; [done|]. split; [by constructor|done].
Qed.

Lemma entry_lt_notin e l : Forall (entry_lt e) l -> e ∉ l.
Proof.
  intros H He. rewrite Forall_forall in H. apply H in He. unfold entry_lt in He.
  rewrite cmp_refl in He. lia.
Qed.

Lemma diff_ops_entries cur old ops :
  StronglySorted entry_lt cur -> StronglySorted entry_lt old -> diff_ops cur old ops ->
  (forall ty e, (ty, e) ∈ ops <-> (ty = Start /\ e ∈ cur /\ e ∉ old) \/ (ty = Stop /\ e ∈ old /\ e ∉ cur))
  /\ NoDup (map snd ops).
Proof.
  intros Sc So H. induction H as [|c cur old ops Hlt Hd IH|o cur old ops Hlt Hd IH|e0 cur old ops Hd IH].
  - split; [|constructor]. intros ty e. split; [intros H%elem_of_nil; done|].
    intros [(_ & H%elem_of_nil & _)|(_ & H%elem_of_nil & _)]; done.
  - inversion Sc as [|? ? Sc' Hc]; subst. destruct (IH Sc' So) as [Hm Hn].
    apply entry_lt_notin in Hlt, Hc. split.
    + intros ty e. rewrite elem_of_cons, Hm, elem_of_cons. split.
      * intros [[= -> ->]|[(-> & ? & ?)|(-> & He & ?)]]; [left; auto|left; auto|].
        right. split; [done|]. split; [done|]. intros [->|]; done.
      * intros [(-> & [->|?] & ?)|(-> & ? & Hn')]; [by left|right; left; tauto|].
        right; right. tauto.
    + cbn [map snd]. constructor; [|done]. intros He. apply list_elem_of_fmap in He as ([ty e] & -> & He).
      apply Hm in He as [(_ & ? & _)|(_ & ? & _)]; done.
  - inversion So as [|? ? So' Ho]; subst. destruct (IH Sc So') as [Hm Hn].
    apply entry_lt_notin in Hlt, Ho. split.
    + intros ty e. rewrite elem_of_cons, Hm, elem_of_cons. split.
      * intros [[= -> ->]|[(-> & He & ?)|(-> & ? & ?)]]; [right; auto| |right; auto].
        left. split; [done|]. split; [done|]. intros [->|]; done.
      * intros [(-> & ? & Hn')|(-> & [->|?] & ?)]; [|by left|right; right; tauto].
        right; left. tauto.
    + cbn [map snd]. constructor; [|done]. intros He. apply list_elem_of_fmap in He as ([ty e] & -> & He).
      apply Hm in He as [(_ & ? & _)|(_ & ? & _)]; done.
  - inversion Sc as [|? ? Sc' Hc]; inversion So as [|? ? So' Ho]; subst.
    destruct (IH Sc' So') as [Hm Hn]. apply entry_lt_notin in Hc, Ho. split; [|done].
    intros ty e. rewrite Hm, !elem_of_cons. split.
    + intros [(-> & He & Hn')|(-> & He & Hn')]; [left|right]; (split; [done|split; [by right|]]);
        intros [->|]; done.
    + intros [(-> & [->|He] & Hn')|(-> & [->|He] & Hn')]; tauto.
Qed.

Lemma poll_spec entries arr evs :
  Forall entry_wf arr -> Forall entry_wf entries -> StronglySorted entry_lt entries ->
  let current := port_entry_dedup_sort arr in
  let r := port_tracker_poll entries (Some current) evs in
  p_entries r = current /\ Forall carries (p_trace r) /\ diff_ops current entries (map op (p_trace r)).
Proof.
  intros Wa We Se current r. destruct (dedup_sort_spec arr Wa) as [Ss _].
  pose proof (dedup_sort_wf arr Wa) as Wc. split; [done|]. subst r. cbn [port_tracker_poll p_trace].
  destruct (diff_loop_spec (S (length current + length entries)) evs current entries [])
    as (new & -> & Hops & Hc); [lia|done..|]. cbn [app]. done.
Qed.

(** A polling cycle hands to the socket one Start message for each entry
    of the new scan that the previous snapshot lacks and one Stop message for
    each entry that is gone, and nothing else; no entry is announced twice.
    What reaches the socket of a message is a prefix of its 32 bytes, and all
    of them when the send reports success. *)
Theorem poll_sends_difference entries arr evs :
  Forall entry_wf arr -> Forall entry_wf entries ->
  StronglySorted (fun a b => port_entry_cmp a b < 0) entries ->
  let current := port_entry_dedup_sort arr in
  let r := port_tracker_poll entries (Some current) evs in
  (forall ty e, (ty, e) ∈ map op (p_trace r) <->
     (ty = LxGnsMessagePortListenerRelayStart /\ e ∈ current /\ e ∉ entries)
     \/ (ty = LxGnsMessagePortListenerRelayStop /\ e ∈ entries /\ e ∉ current))
  /\ NoDup (map s_entry (p_trace r))
  /\ Forall carries (p_trace r)
  /\ p_rc r = 0 /\ p_entries r = current.
Proof.
  intros Wa We Se current r. destruct (poll_spec entries arr evs Wa We Se) as (He & Hc & Hd).
  destruct (dedup_sort_spec arr Wa) as [Ss _].
  destruct (diff_ops_entries _ _ _ Ss Se Hd) as [Hm Hn]. rewrite map_map in Hn.
  repeat split; try done; by apply Hm.
Qed.

Lemma poll_sends_difference_witness :
  let r := port_tracker_poll [example_entry 22]
             (Some (port_entry_dedup_sort [example_entry 80])) [Progress 40; Progress 40] in
  NoDup (map s_entry (p_trace r)) /\ p_entries r = port_entry_dedup_sort [example_entry 80].
Proof.
  destruct (poll_sends_difference [example_entry 22] [example_entry 80] [Progress 40; Progress 40])
    as (_ & H & _ & _ & H'); [repeat constructor; cbn; lia..|].
  exact (conj H H').
Defined.

(** * The host's view *)

(** The host opens a port on a Start message and closes it on a Stop message;
    it sees a message only when all of it was sent. *)
Definition host_step (view : port_entry -> bool) (s : sent_relay) : port_entry -> bool :=
  if sent_ok s then fun e => if decide (e = s_entry s) then s_type s =? Start else view e else view.

(** A run of the tracker: each round is the outcome of a scan with the socket
    events of its sends. *)
Fixpoint run_polls (entries : list port_entry) (rounds : list (option (list port_entry) * list sock_event)) :
    list port_entry * list sent_relay :=
  match rounds with
  | [] => (entries, [])
  | (scan, evs) :: rounds' =>
    let r := port_tracker_poll entries (option_map port_entry_dedup_sort scan) evs in
    let '(e', trace) := run_polls (p_entries r) rounds' in (e', p_trace r ++ trace)
  end.

Lemma host_steps_ops view trace e :
  Forall (fun s => sent_ok s = true) trace -> NoDup (map s_entry trace) ->
  fold_left host_step trace view e
  = match list_find (fun s => s_entry s = e) trace with
    | Some (_, s) => s_type s =? Start
    | None => view e
    end.
Proof.
  revert view; induction trace as [|s trace IH]; intros view Hok Hn; [done|].
  apply Forall_cons in Hok as [Hs Hok]. cbn [map] in Hn. apply NoDup_cons in Hn as [Hnot Hn].
  cbn [fold_left list_find]. rewrite IH by done. unfold host_step. rewrite Hs.
  destruct (decide (s_entry s = e)) as [Hse|Hne].
  - assert (list_find (fun s' => s_entry s' = e) trace = None) as ->.
    { apply list_find_None, Forall_forall. intros s' Hs' Heq. apply Hnot.
      rewrite Hse, <-Heq. apply list_elem_of_fmap. exists s'. by split. }
    by rewrite decide_True.
  - destruct (list_find _ trace) as [[i s']|]; cbn; [done|]. by rewrite decide_False by congruence.
Qed.

Lemma poll_host entries arr evs view :
  Forall entry_wf arr -> Forall entry_wf entries -> StronglySorted entry_lt entries ->
  let current := port_entry_dedup_sort arr in
  let r := port_tracker_poll entries (Some current) evs in
  Forall (fun s => sent_ok s = true) (p_trace r) ->
  (forall e, view e = bool_decide (e ∈ entries)) ->
  forall e, fold_left host_step (p_trace r) view e = bool_decide (e ∈ current).
Proof.
  intros Wa We Se current r Hok Hv e. destruct (poll_spec entries arr evs Wa We Se) as (_ & _ & Hd).
  destruct (dedup_sort_spec arr Wa) as [Ss _].
  destruct (diff_ops_entries _ _ _ Ss Se Hd) as [Hm Hn]. rewrite map_map in Hn.
  rewrite host_steps_ops by done. fold r in Hm, Hn |- *. fold current in Hm.
  destruct (list_find _ _) as [[i s]|] eqn:Hf.
  - apply list_find_Some in Hf as (Hl & <- & _).
    assert ((s_type s, s_entry s) ∈ map op (p_trace r)) as Hin.
    { apply list_elem_of_fmap. exists s. split; [done|]. by eapply list_elem_of_lookup_2. }
    apply Hm in Hin as [(-> & Hc & _)|(-> & _ & Hc)].
    + by rewrite bool_decide_eq_true_2.
    + by rewrite bool_decide_eq_false_2.
  - apply list_find_None in Hf. rewrite Forall_forall in Hf. rewrite Hv.
    assert (forall ty, (ty, e) ∉ map op (p_trace r)) as Hno.
    { intros ty Hin. apply list_elem_of_fmap in Hin as (s & [= -> Hs] & Hin). by apply (Hf s). }
    apply bool_decide_ext. split; intros He.
    + destruct (decide (e ∈ current)); [done|]. exfalso. apply (Hno Stop), Hm. auto.
    + destruct (decide (e ∈ entries)); [done|]. exfalso. apply (Hno Start), Hm. auto.
Qed.

Lemma run_polls_host rounds entries view :
  Forall entry_wf entries -> StronglySorted entry_lt entries ->
  Forall (fun r => forall arr, fst r = Some arr -> Forall entry_wf arr) rounds ->
  (forall e, view e = bool_decide (e ∈ entries)) ->
  let '(final, trace) := run_polls entries rounds in
  Forall (fun s => sent_ok s = true) trace ->
  forall e, fold_left host_step trace view e = bool_decide (e ∈ final).
Proof.
  revert entries view; induction rounds as [|[scan evs] rounds IH]; intros entries view We Se Hr Hv;
    cbn [run_polls]; [done|].
  apply Forall_cons in Hr as [Hscan Hr]. cbn [fst] in Hscan.
  destruct scan as [arr|]; cbn [option_map].
  - specialize (Hscan arr eq_refl). destruct (dedup_sort_spec arr Hscan) as [Ss _].
    pose proof (poll_host entries arr evs view Hscan We Se) as Hp. cbv zeta in Hp.
    set (r := port_tracker_poll _ _ _) in *.
    assert (p_entries r = port_entry_dedup_sort arr) as He by done. rewrite He.
    destruct (run_polls _ rounds) as [final trace] eqn:E. intros Hok.
    apply Forall_app in Hok as [Hok1 Hok2]. rewrite fold_left_app.
    specialize (IH (port_entry_dedup_sort arr) (fold_left host_step (p_trace r) view)).
    rewrite E in IH. apply IH; try done; [by apply dedup_sort_wf|]. by apply Hp.
  - cbn [port_tracker_poll p_entries p_trace app]. specialize (IH entries view We Se Hr Hv).
    by destruct (run_polls entries rounds) as [final trace].
Qed.

(** Over any sequence of polling cycles, failed scans included, whose
    sends all succeed, a host that applies the messages in order holds open
    exactly the ports of the tracker's last snapshot. *)
Theorem host_tracks_guest rounds :
  Forall (fun r => forall arr, fst r = Some arr -> Forall entry_wf arr) rounds ->
  Forall (fun s => sent_ok s = true) (snd (run_polls [] rounds)) ->
  forall e, fold_left host_step (snd (run_polls [] rounds)) (fun _ => false) e = true
            <-> e ∈ fst (run_polls [] rounds).
Proof.
  intros Hr.
  pose proof (run_polls_host rounds [] (fun _ => false) (Forall_nil_2 _) (SSorted_nil _) Hr) as H.
  destruct (run_polls [] rounds) as [final trace]. cbn [fst snd]. intros Hok e.
  rewrite H; [apply bool_decide_eq_true| |done].
  intros e'. by rewrite bool_decide_eq_false_2 by apply not_elem_of_nil.
Qed.

Definition example_rounds : list (option (list port_entry) * list sock_event) :=
  [(Some [example_entry 80; example_entry 22], [Progress 40; Progress 40]); (None, []);
   (Some [example_entry 443; example_entry 22], [Progress 40; Progress 7; Again true; Progress 40])].

Lemma host_tracks_guest_witness :
  Forall (fun r : option (list port_entry) * list sock_event =>
            forall arr, fst r = Some arr -> Forall entry_wf arr) example_rounds
  /\ fold_left host_step (snd (run_polls [] example_rounds)) (fun _ => false) (example_entry 443) = true.
Proof.
  assert (H : Forall (fun r : option (list port_entry) * list sock_event =>
            forall arr, fst r = Some arr -> Forall entry_wf arr) example_rounds).
  { repeat constructor; cbn; intros arr [= <-]; repeat constructor; cbn; lia. }
  split; [exact H|].
  apply (host_tracks_guest example_rounds H).
  - vm_compute. repeat constructor.
  - vm_compute. apply list_elem_of_further, list_elem_of_here.
Defined.

(** A message whose send fails is not sent again: the snapshot is replaced
    all the same, and the next cycle has nothing to announce. *)
Example failed_send_is_lost :
  let r1 := port_tracker_poll [] (Some [example_entry 80]) [Failed] in
  let r2 := port_tracker_poll (p_entries r1) (Some [example_entry 80]) [Progress 40] in
  p_rc r1 = 0 /\ map sent_ok (p_trace r1) = [false] /\ p_trace r2 = [].
Proof. vm_compute. auto. Qed.

(** * The pcblist walk *)
Section Walk.
Context (AF_INET6 : Z) (sizeof_xinpgen : nat) (xig_len : bytes -> Z) (read_pcb : bytes -> pcb) (inet6 : bool).

(** A record of the list: its length field is its length, and the structures
    after its leading xinpgen are read from the record alone. *)
Definition pcb_record (r : bytes) (b : pcb) : Prop :=
  (0 < length r)%nat /\ (sizeof_xinpgen <= length r)%nat
  /\ forall rest, xig_len (r ++ rest) = Z.of_nat (length r) /\ read_pcb (drop sizeof_xinpgen (r ++ rest)) = b.

(** What ends the walk: a trailer that is no record. *)
Definition end_marker (t : bytes) : Prop :=
  (length t < sizeof_xinpgen)%nat \/ xig_len t < Z.of_nat sizeof_xinpgen \/ xig_len t = 0.

(** The entries to collect of the records of one list. *)
Definition relayed (fam : Z) (bs : list pcb) : list port_entry :=
  List.filter (port_entry_matches_relay AF_INET6) (omap (pcb_entry inet6 fam) bs).

Lemma walk_records fuel fam recs t result :
  Forall (fun rb => pcb_record (fst rb) (snd rb)) recs -> end_marker t ->
  (length recs < fuel)%nat ->
  walk AF_INET6 sizeof_xinpgen xig_len read_pcb (fun _ => true) inet6 fuel fam
       (concat (map fst recs) ++ t) result
  = Some (result ++ relayed fam (map snd recs)).
Proof.
  intros Hr Ht. revert fuel result.
  induction Hr as [|[r b] recs [H0 [Hsz Hread]] _ IH]; intros [|fuel] result Hf; try (cbn in Hf; lia).
  - cbn [map concat app walk]. unfold relayed. cbn. rewrite app_nil_r.
    destruct (Z.of_nat (length t) <? _) eqn:A; [done|].
    destruct (_ || _) eqn:B; [done|]. bool_to_prop. destruct Ht as [?|[?|?]]; lia.
  - cbn [map concat fst snd length] in *. rewrite <-app_assoc.
    destruct (Hread (concat (map fst recs) ++ t)) as [Hlen Hpcb]. cbn [walk]. rewrite Hlen, Hpcb.
    replace (Z.of_nat (length (r ++ _)) <? Z.of_nat sizeof_xinpgen) with false
      by (symmetry; apply Z.ltb_ge; rewrite length_app; lia).
    replace (Z.of_nat (length r) <? Z.of_nat sizeof_xinpgen) with false by (symmetry; apply Z.ltb_ge; lia).
    replace (Z.of_nat (length r) =? 0) with false by (symmetry; apply Z.eqb_neq; lia).
    replace (Z.of_nat (length (r ++ _)) <? Z.of_nat (length r)) with false
      by (symmetry; apply Z.ltb_ge; rewrite length_app; lia).
    cbn [orb]. rewrite Nat2Z.id, drop_app_length.
    unfold relayed. cbn [omap]. destruct (pcb_entry inet6 fam b) as [e|] eqn:E.
    + unfold append_entry. cbn [negb]. rewrite andb_false_r. cbn. rewrite E. cbn [List.filter].
      destruct (port_entry_matches_relay AF_INET6 e); rewrite IH by lia; [by rewrite <-app_assoc|done].
    + rewrite IH by lia. cbn. by rewrite E.
Qed.

Lemma records_length recs :
  Forall (fun rb => pcb_record (fst rb) (snd rb)) recs ->
  (length recs <= length (concat (map fst recs)))%nat.
Proof.
  induction 1 as [|[r b] recs [H0 _] _ IH]; [done|]. cbn in *. rewrite length_app. lia.
Qed.
End Walk.

(** On a well-formed pcblist (a header, records whose length field is
    their length, an end marker) the walk ends and the scan holds exactly the
    wildcard and loopback listeners of the two lists. *)
Theorem collect_exactly_listeners AF_INET6 sizeof_xinpgen xig_len read_pcb inet6 h4 recs4 t4 h6 recs6 t6 :
  length h4 = sizeof_xinpgen -> length h6 = sizeof_xinpgen ->
  Forall (fun rb => pcb_record sizeof_xinpgen xig_len read_pcb (fst rb) (snd rb)) recs4 ->
  Forall (fun rb => pcb_record sizeof_xinpgen xig_len read_pcb (fst rb) (snd rb)) recs6 ->
  (0 < length t4)%nat -> (0 < length t6)%nat ->
  end_marker sizeof_xinpgen xig_len t4 -> end_marker sizeof_xinpgen xig_len t6 ->
  collect_listening_ports AF_INET6 sizeof_xinpgen xig_len read_pcb (fun _ => true) inet6
    (Listed (h4 ++ concat (map fst recs4) ++ t4)) (Listed (h6 ++ concat (map fst recs6) ++ t6))
  = Some (port_entry_dedup_sort
      (relayed AF_INET6 inet6 AF_INET (map snd recs4) ++ relayed AF_INET6 inet6 AF_INET6 (map snd recs6))).
Proof.
  intros H4 H6 R4 R6 L4 L6 E4 E6. pose proof (records_length _ _ _ _ R4). pose proof (records_length _ _ _ _ R6).
  unfold collect_listening_ports. cbn [collect_lists].
  assert (Hd : forall h x : bytes, length h = sizeof_xinpgen ->
    (Z.of_nat (length (h ++ x)) <? Z.of_nat sizeof_xinpgen) = false /\ drop sizeof_xinpgen (h ++ x) = x).
  { intros h x <-. rewrite drop_app_length. split; [|done]. apply Z.ltb_ge. rewrite length_app. lia. }
  destruct (Hd _ (concat (map fst recs4) ++ t4) H4) as [-> ->].
  destruct (Hd _ (concat (map fst recs6) ++ t6) H6) as [-> ->].
  rewrite (walk_records AF_INET6 sizeof_xinpgen xig_len read_pcb inet6) by (try done; rewrite !length_app; lia).
  rewrite (walk_records AF_INET6 sizeof_xinpgen xig_len read_pcb inet6) by (try done; rewrite !length_app; lia).
  done.
Qed.

(** A small platform for the witness: an xinpgen is a 4-byte length. *)
Definition tiny_len (p : bytes) : Z := get32 0 p.
Definition tiny_pcb (p : bytes) : pcb :=
  mk_pcb (get16 0 p) 0 (get16 2 p) (get32 4 p) (0, 0, 0, 0).
Definition tiny_record (qlimit port addr : Z) : bytes :=
  le_bytes 4 12 ++ le_bytes 2 qlimit ++ le_bytes 2 (htons port) ++ le_bytes 4 (htonl addr).

Lemma collect_exactly_listeners_witness :
  collect_listening_ports 28 4 tiny_len tiny_pcb (fun _ => true) false
    (Listed ([12; 0; 0; 0] ++ concat [tiny_record 5 8080 INADDR_LOOPBACK; tiny_record 0 99 0; tiny_record 5 22 0]
             ++ [0; 0; 0; 0]))
    (Listed ([12; 0; 0; 0] ++ concat [] ++ [0; 0; 0; 0]))
  = Some [mk_entry AF_INET 22 (0, 0, 0, 0); mk_entry AF_INET 8080 (htonl INADDR_LOOPBACK, 0, 0, 0)].
Proof.
  apply (collect_exactly_listeners 28 4 tiny_len tiny_pcb false [12; 0; 0; 0]
    [(tiny_record 5 8080 INADDR_LOOPBACK, mk_pcb 5 0 (htons 8080) (htonl INADDR_LOOPBACK) (0, 0, 0, 0));
     (tiny_record 0 99 0, mk_pcb 0 0 (htons 99) 0 (0, 0, 0, 0));
     (tiny_record 5 22 0, mk_pcb 5 0 (htons 22) 0 (0, 0, 0, 0))] [0; 0; 0; 0] [12; 0; 0; 0] [] [0; 0; 0; 0]).
  - reflexivity.
  - reflexivity.
  - repeat apply Forall_cons_2; try apply Forall_nil_2; split; cbn [fst snd]; vm_compute; auto with lia.
  - apply Forall_nil_2.
  - vm_compute; lia.
  - vm_compute; lia.
  - right; left. reflexivity.
  - right; left. reflexivity.
Defined.

(** Built without INET6, as the Makefiles build it, no socket of the IPv6
    list is ever collected. *)
Example no_ipv6_without_inet6 b : pcb_entry false 28 b = None.
Proof. unfold pcb_entry. by destruct (_ || _). Qed.

End PortTrackerThm.

Module LocalhostThm.
Import StringsThm Localhost.

(** * The host *)

(** A host that refuses to start a relay twice, or to stop one that does not run. *)
Definition host_step (host : list sockaddr) (a : announcement) : option (list sockaddr) :=
  match a with
  | Start s => if decide (s ∈ host) then None else Some (host ++ [s])
  | Stop s => if decide (s ∈ host) then Some (filter (fun e => e <> s) host) else None
  end.
Fixpoint host_run (host : list sockaddr) (l : list announcement) : option (list sockaddr) :=
  match l with
  | [] => Some host
  | a :: l' => match host_step host a with Some host => host_run host l' | None => None end
  end.
Lemma host_run_app h l l' : host_run h (l ++ l') = match host_run h l with Some h => host_run h l' | None => None end.
Proof. revert h; induction l as [|a l IH]; intros h; cbn; [done|]. destruct (host_step h a); [apply IH|done]. Qed.

(** * Socket addresses *)
Definition sock_ok (s : sockaddr) : Prop :=
  length (s6_addr32 s) = 4%nat /\ (ss_family s = AF_INET /\ drop 1 (s6_addr32 s) = [0; 0; 0] \/ ss_family s = AF_INET6).
Lemma same_sock a b : sock_ok a -> sock_ok b -> IsSameSockAddr a b = bool_decide (a = b).
Proof.
  intros [La Ha] [Lb Hb]. symmetry. destruct a as [fa pa wa], b as [fb pb wb]. unfold IsSameSockAddr. cbn [ss_family sin_port s6_addr32] in *.
  do 4 (destruct wa as [|? wa]; [done|]). destruct wa; [|done]. do 4 (destruct wb as [|? wb]; [done|]). destruct wb; [|done].
  destruct (Z.eqb_spec fa fb) as [->|Hf]; cbn [negb]; [|apply bool_decide_eq_false_2; congruence].
  destruct Ha as [[-> Ea]| ->], Hb as [[? Eb]|?]; try discriminate.
  - injection Ea as -> -> ->. injection Eb as -> -> ->. cbn.
    destruct (Z.eqb_spec z z3) as [->|]; cbn; [|apply bool_decide_eq_false_2; congruence].
    destruct (Z.eqb_spec pa pb) as [->|]; cbn; [by apply bool_decide_eq_true_2|apply bool_decide_eq_false_2; congruence].
  - cbn. destruct (Z.eqb_spec pa pb) as [->|]; cbn; [|apply bool_decide_eq_false_2; congruence].
    destruct (Z.eqb_spec z z3) as [->|]; cbn; [|apply bool_decide_eq_false_2; congruence].
    destruct (Z.eqb_spec z0 z4) as [->|]; cbn; [|apply bool_decide_eq_false_2; congruence].
    destruct (Z.eqb_spec z1 z5) as [->|]; cbn; [|apply bool_decide_eq_false_2; congruence].
    destruct (Z.eqb_spec z2 z6) as [->|]; cbn; [by apply bool_decide_eq_true_2|apply bool_decide_eq_false_2; congruence].
Qed.
Lemma same_in s l : sock_ok s -> Forall sock_ok l -> existsb (fun e => IsSameSockAddr s e) l = bool_decide (s ∈ l).
Proof.
  intros Hs H. induction H as [|e l He H IH]; cbn; [done|]. rewrite IH, same_sock by done.
  destruct (decide (s = e)) as [->|Hne]; [rewrite (bool_decide_eq_true_2 (e = e)) by done; symmetry; apply bool_decide_eq_true_2; by left|].
  rewrite (bool_decide_eq_false_2 (s = e)) by done. cbn. apply bool_decide_ext. rewrite elem_of_cons. naive_solver.
Qed.
Lemma same_in' s l : sock_ok s -> Forall sock_ok l -> existsb (fun e => IsSameSockAddr e s) l = bool_decide (s ∈ l).
Proof.
  intros Hs H. rewrite <-same_in by done. induction H as [|e l He H IH]; cbn; [done|]. rewrite IH, !same_sock by done. f_equal.
  apply bool_decide_ext. naive_solver.
Qed.

(** What ParseTcpFile returns is well formed. *)
Lemma line_fields_ok family i fields s : family = AF_INET \/ family = AF_INET6 -> (s = no_sockaddr \/ sock_ok s) ->
  fst (line_fields family i fields s) = no_sockaddr \/ sock_ok (fst (line_fields family i fields s)).
Proof.
  intros Hf. revert i s; induction fields as [|field fields IH]; intros i s Hs; cbn [line_fields]; [done|].
  case_if; [|case_if; [done|by apply IH]]. destruct (strchr c_colon field) as [[? ?]|]; [|done]. case_if; [done|]. apply IH. right.
  unfold field_sockaddr. destruct Hf as [->| ->]; (split; [done|]); [left|right]; done.
Qed.
Lemma ParseTcpFile_ok family file l : family = AF_INET \/ family = AF_INET6 -> ParseTcpFile family file = Some l -> Forall sock_ok l.
Proof.
  intros Hf H. unfold ParseTcpFile in H. destruct (getlines file []) as [|x lines]; [done|]. injection H as <-. clear x.
  induction lines as [|line lines IH]; cbn; [constructor|]. unfold line_socket. pose proof (line_fields_ok family 0 (strtok_all [c_space; c_nl] line) no_sockaddr Hf ltac:(by left)) as Hs.
  destruct (line_fields _ _ _ _) as [sock status]. cbn [fst] in Hs. case_if; [|done]. constructor; [|done]. bool_to_prop. destruct Hs as [->|]; done.
Qed.
Lemma read_tables_ok t4 t6 l : read_tables t4 t6 = Some l -> Forall sock_ok l.
Proof.
  unfold read_tables. destruct t4 as [f4|]; [destruct (ParseTcpFile AF_INET f4) as [l4|] eqn:E4; [|done]|].
  all: destruct t6 as [f6|]; [destruct (ParseTcpFile AF_INET6 f6) as [l6|] eqn:E6; [|done]|]; cbn; intros [= <-]; try apply Forall_app_2; try constructor.
  all: eapply ParseTcpFile_ok; try eassumption; auto.
Qed.

(** * Scanning *)
Section Scan.
Context (ok : nat -> bool).

(** The host that applied what was sent holds the relays, each once. *)
Definition followed (s : scan) : Prop := host_run [] (sent s) = Some (relays s) /\ NoDup (relays s) /\ Forall sock_ok (relays s) /\ good s = true.

Lemma filter_keep {A} (P : A -> Prop) `{forall x, Decision (P x)} l : Forall P l -> filter P l = l.
Proof. induction 1; [done|]. rewrite filter_cons_True by done. by f_equal. Qed.
Lemma remove_sock before entry (entries : list sockaddr) : NoDup (before ++ entry :: entries) ->
  filter (fun e => e <> entry) (before ++ entry :: entries) = before ++ entries.
Proof.
  intros Hnd. apply NoDup_app in Hnd as (_ & Hnot & Hnd). apply NoDup_cons in Hnd as [Hne _].
  rewrite filter_app, filter_cons_False by tauto. rewrite (filter_keep _ before), (filter_keep _ entries); [done|..].
  - apply Forall_forall. by intros x Hx ->.
  - apply Forall_forall. intros x Hx ->. apply (Hnot entry Hx). by left.
Qed.
Lemma send_followed a s : good (snd (send ok a s)) = true -> followed s ->
  fst (send ok a s) = true /\ relays (snd (send ok a s)) = relays s /\ sent (snd (send ok a s)) = sent s ++ [a].
Proof. intros Hg (_ & _ & _ & Hs). unfold send in *. cbn in *. rewrite Hs in Hg. by destruct (ok _). Qed.
Lemma stop_stale_good sockets entries s : good (snd (stop_stale ok sockets entries s)) = true -> good s = true.
Proof.
  revert s; induction entries as [|entry entries IH]; intros s; cbn [stop_stale]; [done|]. case_if.
  - specialize (IH s). destruct (stop_stale ok sockets entries s) as [kept s']. done.
  - unfold send. intros H%IH. cbn in H. by apply andb_prop in H as [? _].
Qed.
Lemma stop_stale_followed sockets entries before s : Forall sock_ok sockets -> followed (mk_scan (before ++ entries) (sent s) (good s)) ->
  let '(kept, s') := stop_stale ok sockets entries s in
  good s' = true -> followed (mk_scan (before ++ kept) (sent s') (good s')) /\ (forall e, e ∈ kept <-> e ∈ entries /\ e ∈ sockets).
Proof.
  intros Hs. revert before s. induction entries as [|entry entries IH]; intros before s Hf; cbn [stop_stale].
  - intros _. split; [done|]. intros e. rewrite elem_of_nil. tauto.
  - destruct Hf as (Hh & Hnd & Hok & Hg). cbn [relays sent good] in *.
    rewrite same_in by (try done; by apply Forall_app, proj2, Forall_cons in Hok as [? _]).
    destruct (bool_decide_reflect (entry ∈ sockets)) as [Hin|Hin].
    + specialize (IH (before ++ [entry]) s). rewrite <-app_assoc in IH. specialize (IH (conj Hh (conj Hnd (conj Hok Hg)))).
      destruct (stop_stale ok sockets entries s) as [kept s']. intros Hg'. destruct (IH Hg') as [Hf' He]. rewrite <-app_assoc in Hf'.
      split; [done|]. intros e. rewrite !elem_of_cons, He. naive_solver.
    + pose proof (stop_stale_good sockets entries (snd (send ok (Stop entry) s))) as Hgood. specialize (IH before (snd (send ok (Stop entry) s))).
      destruct (send ok (Stop entry) s) as [r s1] eqn:Es. cbn [snd] in *.
      destruct (stop_stale ok sockets entries s1) as [kept s'] eqn:Ek. cbn [snd] in *. intros Hg'. specialize (Hgood Hg'). rewrite Hgood in IH.
      unfold send in Es. injection Es as <- <-. cbn [sent good relays] in *.
      assert (entry ∈ before ++ entry :: entries) as Hmem by (apply elem_of_app; right; by left).
      assert (NoDup (before ++ entries)) as Hnd' by (apply NoDup_app in Hnd as (? & Hn & [_ ?]%NoDup_cons); apply NoDup_app; split; [done|split; [|done]]; intros x Hx Hx'; apply (Hn x Hx); by right).
      assert (Forall sock_ok (before ++ entries)) as Hok' by (apply Forall_app in Hok as [? [_ ?]%Forall_cons]; by apply Forall_app).
      destruct IH as [Hf' He]; [|done|].
      * split; [|done]. cbn [sent relays]. rewrite host_run_app, Hh. cbn. rewrite decide_True by done. by rewrite remove_sock.
      * split; [done|]. intros e. rewrite He, elem_of_cons. naive_solver.
Qed.
Lemma start_new_good sockets s : good (start_new ok sockets s) = true -> good s = true.
Proof.
  revert s; induction sockets as [|socket sockets IH]; intros s; cbn [start_new]; [done|]. case_if; [by apply IH|].
  unfold send. intros H%IH. destruct (ok _); cbn in H; by apply andb_prop in H as [? _].
Qed.
Lemma start_new_followed sockets s : Forall sock_ok sockets -> followed s -> let s' := start_new ok sockets s in
  good s' = true -> followed s' /\ (forall e, e ∈ relays s' <-> e ∈ relays s \/ e ∈ sockets).
Proof.
  intros Hs. revert s; induction Hs as [|socket sockets Hso Hs IH]; intros s Hf; cbn zeta; cbn [start_new].
  - intros _. split; [done|]. intros e. rewrite elem_of_nil. tauto.
  - pose proof Hf as (Hh & Hnd & Hok & Hg). rewrite same_in' by done. destruct (bool_decide_reflect (socket ∈ relays s)) as [Hin|Hin].
    + intros Hg'. destruct (IH s Hf Hg') as [Hf' He]. split; [done|]. intros e. rewrite He, elem_of_cons. naive_solver.
    + unfold send. destruct (ok _) eqn:Er; [|intros Hg'%start_new_good; cbn in Hg'; by rewrite andb_false_r in Hg'].
      intros Hg'. rewrite andb_true_r in *. cbn [sent good relays] in *. apply IH in Hg' as [Hf' He].
      * split; [done|]. intros e. rewrite He. cbn. rewrite elem_of_app, list_elem_of_singleton, elem_of_cons. tauto.
      * split; [cbn; rewrite host_run_app, Hh; cbn; by rewrite decide_False|]. split; [|split; [|done]].
        -- cbn. apply NoDup_app. split; [done|]. split; [|apply NoDup_singleton]. intros x Hx ->%list_elem_of_singleton. done.
        -- cbn. apply Forall_app. split; [done|]. by constructor.
Qed.
Lemma scan_once_followed sockets s : Forall sock_ok sockets -> followed s -> good (scan_once ok sockets s) = true ->
  followed (scan_once ok sockets s) /\ (forall e, e ∈ relays (scan_once ok sockets s) <-> e ∈ sockets).
Proof.
  intros Hs Hf. unfold scan_once. pose proof (stop_stale_followed sockets (relays s) [] s Hs) as H. cbn [app] in H.
  destruct (stop_stale ok sockets (relays s) s) as [kept s']. intros Hg. pose proof (start_new_good _ _ Hg) as Hg'. cbn in Hg'.
  destruct H as [Hf' He]; [by destruct s|done|]. apply start_new_followed in Hg as [Hf'' He']; [|done..].
  split; [done|]. intros e. rewrite He'. cbn. rewrite He. tauto.
Qed.
Lemma scan_followed cycles s : followed s -> let '(r, s') := ScanProcNetTCP ok cycles s in
  r = Scanning -> followed s' /\ (forall tcp4 tcp6, last cycles = Some (tcp4, tcp6) ->
    exists sockets, read_tables tcp4 tcp6 = Some sockets /\ forall e, e ∈ relays s' <-> e ∈ sockets).
Proof.
  revert s; induction cycles as [|[t4 t6] cycles IH]; intros s Hf; cbn [ScanProcNetTCP]; [done|].
  destruct (read_tables t4 t6) as [sockets|] eqn:Et; [|done]. pose proof (read_tables_ok _ _ _ Et) as Hs.
  assert ((t4, t6) = (None, None) \/ forall (A : Type) (x y : A), match t4, t6 with None, None => x | _, _ => y end = y) as [[= -> ->]|E];
    [destruct t4, t6; auto|done|].
  rewrite E. destruct (good (scan_once ok sockets s)) eqn:Hg; [|done]. cbn [negb].
  destruct (scan_once_followed sockets s Hs Hf Hg) as [Hf' He]. specialize (IH _ Hf').
  destruct cycles as [|c cycles]; [cbn; intros _; split; [done|]; intros ? ? [= -> ->]; by exists sockets|].
  destruct (ScanProcNetTCP ok (c :: cycles) (scan_once ok sockets s)) as [r s']. exact IH.
Qed.
End Scan.

(** * Reading the table *)
Definition sep (c : Z) : bool := Strings.is_in [c_space; c_nl] c.
Definition token (t : bytes) : Prop := t <> [] /\ Forall (fun x => sep x = false) t.
Lemma split_loop_token fuel sp tok c rest : Forall (fun x => sep x = true) sp -> Forall (fun x => sep x = false) tok -> tok <> [] -> sep c = true ->
  Strings.split_loop (S fuel) [c_space; c_nl] (sp ++ tok ++ c :: rest) = tok :: Strings.split_loop fuel [c_space; c_nl] (c :: rest).
Proof.
  intros Hsp Htok Hne Hc. cbn [Strings.split_loop]. rewrite drop_while_app by done. destruct tok as [|x tok]; [done|].
  pose proof (Forall_inv Htok) as Hx. cbn [app]. rewrite drop_while_head by done. change (x :: tok ++ c :: rest) with ((x :: tok) ++ c :: rest).
  assert (Forall (fun y => negb (Strings.is_in [c_space; c_nl] y) = true) (x :: tok)) as Hall by (eapply Forall_impl; [exact Htok|]; intros y Hy; unfold sep in Hy; by rewrite Hy).
  unfold sep in Hc. rewrite take_while_app by (done || by rewrite Hc). rewrite drop_while_app by done. by rewrite drop_while_head by by rewrite Hc.
Qed.
Lemma split_loop_word fuel x tok c rest : sep x = true -> token tok -> sep c = true ->
  Strings.split_loop (S fuel) [c_space; c_nl] (x :: tok ++ c :: rest) = tok :: Strings.split_loop fuel [c_space; c_nl] (c :: rest).
Proof. intros Hx [Hne Ht] Hc. by apply (split_loop_token fuel [x]); [constructor| | |]. Qed.
Lemma scan_digits_hex n v s acc rest : digits_of n v s -> head_digit_in 16 rest = false ->
  scan_digits 16 acc (s ++ rest) = (acc * 16 ^ Z.of_nat n + v mod 16 ^ Z.of_nat n, rest).
Proof.
  intros H Hr. assert (forall n v s acc t, digits_of n v s -> scan_digits 16 acc (s ++ t) = scan_digits 16 (acc * 16 ^ Z.of_nat n + v mod 16 ^ Z.of_nat n) t) as Hgen.
  { clear. intros n. induction n as [|n IH]; intros v s acc t; cbn [digits_of].
    - intros ->. cbn [app]. change (16 ^ Z.of_nat 0) with 1. rewrite Z.mod_1_r. f_equal. lia.
    - intros (s' & c & -> & H & Hc). rewrite <-app_assoc, (IH _ _ _ _ H). cbn [app scan_digits]. destruct (any_case_digit _ _ Hc) as (-> & _).
      rewrite (proj2 (Z.ltb_lt _ _)) by (destruct Hc; lia). f_equal. rewrite Nat2Z.inj_succ, Z.pow_succ_r by lia. rewrite (Z.rem_mul_r v 16) by lia. lia. }
  rewrite (Hgen n v s acc rest H). destruct rest as [|c rest]; [done|]. cbn in Hr |- *. unfold digit_in in Hr. destruct (digit_of c); [|done]. by rewrite Hr.
Qed.
Lemma strtol16_hex n v s rest : (0 < n <= 8)%nat -> digits_of n v s -> head_digit_in 16 rest = false ->
  match rest with x :: _ => tolower x <> 120 | [] => True end -> strtol16 (s ++ rest) = v mod 16 ^ Z.of_nat n.
Proof.
  intros Hn H Hr Hx. pose proof (Z.mod_pos_bound v (16 ^ Z.of_nat n) ltac:(lia)) as Hv. pose proof (digits_of_all _ _ _ H) as Hall. pose proof (digits_of_length _ _ _ H) as Hl.
  pose proof (scan_digits_hex n v s 0 rest H Hr) as Hscan.
  destruct s as [|c s]; [cbn in Hl; lia|]. pose proof (Forall_inv Hall) as [d Hc]. apply Forall_inv_tail in Hall.
  destruct (any_case_digit _ _ Hc) as (Hd & Hsp & H45 & H43 & _). unfold strtol16, strtol, strto_scan. cbn [app] in *. rewrite drop_while_head by done.
  rewrite (proj2 (Z.eqb_neq c 45)), (proj2 (Z.eqb_neq c 43)) by done.
  assert (strto_prefix 16 (c :: s ++ rest) = (16, c :: s ++ rest)) as ->.
  { unfold strto_prefix. destruct (s ++ rest) as [|x t] eqn:E; [done|].
    assert (tolower x <> 120) as Hx'.
    { destruct s as [|y s]; [cbn in E; subst rest; done|]. injection E as -> _. apply Forall_inv in Hall as [d' Hy]. by destruct (any_case_digit _ _ Hy) as (_ & _ & _ & _ & ?). }
    by rewrite (proj2 (Z.eqb_neq _ _) Hx'), andb_false_r. }
  cbn [head_digit_in]. unfold digit_in. rewrite Hd, (proj2 (Z.ltb_lt _ _)) by (destruct Hc; lia). rewrite Hscan. cbn [fst snd].
  assert (16 ^ Z.of_nat n <= 16 ^ 8) by (apply Z.pow_le_mono_r; lia). assert (16 ^ 8 = 4294967296) as E8 by reflexivity.
  unfold LONG_MIN, LONG_MAX. rewrite (proj2 (Z.ltb_ge _ _)) by lia. rewrite (proj2 (Z.ltb_ge _ _)) by lia. cbn [fst]. lia.
Qed.

Lemma strtol16_digits n v s : (0 < n <= 8)%nat -> digits_of n v s -> strtol16 s = v mod 16 ^ Z.of_nat n.
Proof. intros Hn H. rewrite <- (app_nil_r s). by apply strtol16_hex. Qed.

(** A line of /proc/net/tcp or tcp6: its number, the local address (one word, or four)
    and port, the remote ones and the state in capital hexadecimal digits, and the other
    columns. *)
Definition HEX (n : nat) (v : Z) : bytes := map toupper (Strings.hex n v).
Record tcp_line : Type := mk_line { sl : bytes; laddr : list Z; lport : Z; remote : bytes; state : Z; others : bytes }.
Definition print_line (l : tcp_line) : bytes :=
  c_space :: sl l ++ c_space :: (flat_map (HEX 8) (laddr l) ++ c_colon :: HEX 4 (lport l)) ++ c_space :: remote l ++
  c_space :: HEX 2 (state l) ++ c_space :: others l.
Definition line_ok (family : Z) (l : tcp_line) : Prop :=
  token (sl l) /\ token (remote l) /\ Forall (fun x => x <> c_nl) (others l) /\
  length (laddr l) = (if family =? AF_INET then 1%nat else 4%nat) /\ Forall (fun w => 0 <= w < 2 ^ 32) (laddr l) /\
  0 <= lport l < 2 ^ 16 /\ 0 <= state l < 2 ^ 8.
(** What a line of a socket that listens (state 0A) on a port is announced as: an IPv4
    address as it is; of an IPv6 address the first two words only, each as its two
    halves. *)
Definition announced (family : Z) (address : list Z) : list Z :=
  if family =? AF_INET then [nth 0 address 0; 0; 0; 0] else flat_map (fun w => [w / 2 ^ 16; w mod 2 ^ 16]) (take 2 address).
Definition listener (family : Z) (l : tcp_line) : option sockaddr :=
  if (state l =? 0x0A) && negb (lport l =? 0) then Some (mk_sockaddr family (lport l) (announced family (laddr l))) else None.

Definition sep_digits (l : bytes) : Prop := Forall (fun c => exists d, any_case c d) l.
Lemma digits_token l : sep_digits l -> Forall (fun x => sep x = false) l.
Proof.
  intros H. eapply Forall_impl; [exact H|]. intros c [d Hc]. destruct (any_case_digit _ _ Hc) as (Hd & _). unfold sep, Strings.is_in. cbn [existsb].
  destruct (Z.eqb_spec 32 c) as [E|]; [rewrite <-E in Hd; discriminate Hd|]. destruct (Z.eqb_spec 10 c) as [E|]; [rewrite <-E in Hd; discriminate Hd|]. done.
Qed.
Lemma HEX_digits n v : sep_digits (HEX n v).
Proof. destruct (digits_of_hex n v) as [_ H]. exact (digits_of_all _ _ _ H). Qed.
Lemma HEX_length n v : length (HEX n v) = n.
Proof. destruct (digits_of_hex n v) as [_ H]. exact (digits_of_length _ _ _ H). Qed.
Lemma HEX_token n v : (0 < n)%nat -> token (HEX n v).
Proof.
  intros Hn. split; [|apply digits_token, HEX_digits]. intros E. pose proof (HEX_length n v) as H. rewrite E in H. cbn in H. lia.
Qed.
Lemma address_digits ws : sep_digits (flat_map (HEX 8) ws).
Proof. induction ws as [|w ws IH]; [constructor|]. cbn [flat_map]. apply Forall_app. split; [apply HEX_digits|done]. Qed.
Lemma address_token ws : ws <> [] -> token (flat_map (HEX 8) ws).
Proof.
  intros Hw. split; [|apply digits_token, address_digits]. destruct ws as [|w ws]; [done|]. cbn [flat_map]. intros E.
  apply (f_equal length) in E. rewrite length_app, HEX_length in E. cbn in E. lia.
Qed.
Lemma token_app (a b : bytes) c : token a -> token b -> sep c = false -> token (a ++ c :: b).
Proof. intros [Ha Ha'] [Hb Hb'] Hc. split; [by destruct a|]. apply Forall_app. split; [done|]. by constructor. Qed.

(** The first four columns of a line. *)
Lemma line_tokens family l : line_ok family l -> exists rest, strtok_all [c_space; c_nl] (print_line l ++ [c_nl]) =
  sl l :: (flat_map (HEX 8) (laddr l) ++ c_colon :: HEX 4 (lport l)) :: remote l :: HEX 2 (state l) :: rest.
Proof.
  intros (H1 & H3 & _ & Hw & _). unfold strtok_all, Strings.SplitByMultipleSeparators, print_line.
  assert (token (flat_map (HEX 8) (laddr l) ++ c_colon :: HEX 4 (lport l))) as H2.
  { apply token_app; [|apply HEX_token; lia|done]. apply address_token. intros E. rewrite E in Hw. cbn in Hw. destruct (family =? AF_INET); lia. }
  assert (token (HEX 2 (state l))) as H4 by (apply HEX_token; lia).
  set (w2 := flat_map (HEX 8) (laddr l) ++ c_colon :: HEX 4 (lport l)) in *. set (w4 := HEX 2 (state l)) in *.
  match goal with |- context [Strings.split_loop (S ?n) _ _] => assert (3 <= n)%nat as Hn; [|generalize dependent n; intros fuel Hn] end.
  { cbn [app length]. rewrite !length_app. cbn [length]. rewrite length_app. cbn [length]. lia. }
  do 3 (destruct fuel as [|fuel]; [lia|]). cbn [app]. rewrite <-!app_assoc. cbn [app]. rewrite <-!app_assoc. cbn [app]. rewrite <-?app_assoc. cbn [app].
  exists (Strings.split_loop fuel [c_space; c_nl] (c_space :: others l ++ [c_nl])).
  do 3 rewrite split_loop_word by done. rewrite <-app_assoc. cbn [app]. by rewrite split_loop_word by done.
Qed.

(** The eight digits of a word are the four of its one half and the four of the other. *)
Lemma HEX_halves w : exists a b c d e f g h, HEX 8 w = [a; b; c; d; e; f; g; h] /\
  digits_of 4 (w / 2 ^ 16) [a; b; c; d] /\ digits_of 4 w [e; f; g; h].
Proof.
  destruct (digits_of_hex 8 w) as [_ H]. fold (HEX 8 w) in H.
  destruct H as (s7 & h & E7 & (s6 & g & -> & (s5 & f & -> & (s4 & e & -> & H4 & He) & Hf) & Hg) & Hh).
  assert (w / 16 / 16 / 16 / 16 = w / 2 ^ 16) as Ew by (rewrite !Z.div_div by lia; done). rewrite Ew in H4.
  pose proof (digits_of_length _ _ _ H4) as Hl. do 4 (destruct s4 as [|? s4]; [done|]). destruct s4; [|done].
  rewrite E7. do 8 eexists. split; [reflexivity|]. split; [exact H4|].
  exists [e; f; g], h. split; [done|]. split; [|done]. exists [e; f], g. split; [done|]. split; [|done].
  exists [e], f. split; [done|]. split; [|done]. exists [], e. by split.
Qed.
Lemma HEX_strtol n v rest : (0 < n <= 8)%nat -> 0 <= v < 16 ^ Z.of_nat n -> head_digit_in 16 rest = false ->
  match rest with x :: _ => tolower x <> 120 | [] => True end -> strtol16 (HEX n v ++ rest) = v.
Proof. intros Hn Hv Hr Hx. rewrite (strtol16_hex n v) by (done || apply digits_of_hex). by apply Z.mod_small. Qed.
Lemma field_read family l port : family = AF_INET \/ family = AF_INET6 -> line_ok family l -> 0 <= port < 2 ^ 16 ->
  field_sockaddr family (flat_map (HEX 8) (laddr l) ++ c_colon :: HEX 4 (lport l)) port = mk_sockaddr family port (announced family (laddr l)).
Proof.
  intros Hf (_ & _ & _ & Hl & Hw & _) Hp. unfold field_sockaddr, announced, u16. rewrite (Z.mod_small port) by lia.
  destruct Hf as [->| ->]; cbn [AF_INET AF_INET6 Z.eqb Pos.eqb] in *.
  - destruct (laddr l) as [|w [|? ?]]; [done| |done]. apply Forall_inv in Hw. cbn [flat_map]. rewrite app_nil_r, (HEX_strtol 8) by (done || lia).
    unfold u32. by rewrite Z.mod_small by lia.
  - destruct (laddr l) as [|w0 [|w1 [|w2 [|w3 [|? ?]]]]]; try done. cbn [flat_map].
    pose proof (Forall_inv Hw) as Hw0. apply Forall_inv_tail, Forall_inv in Hw.
    destruct (HEX_halves w0) as (a & b & c & d & e & f & g & h & -> & H0 & H1).
    destruct (HEX_halves w1) as (a' & b' & c' & d' & e' & f' & g' & h' & -> & H2 & H3).
    cbn [app seq map Nat.mul Nat.add drop take flat_map]. rewrite ?take_0.
    rewrite (strtol16_digits 4 _ _ ltac:(lia) H0), (strtol16_digits 4 _ _ ltac:(lia) H1), (strtol16_digits 4 _ _ ltac:(lia) H2), (strtol16_digits 4 _ _ ltac:(lia) H3).
    change (16 ^ Z.of_nat 4) with (2 ^ 16). unfold u32.
    assert (forall w, 0 <= w < 2 ^ 32 -> (w / 2 ^ 16) mod 2 ^ 16 mod 2 ^ 32 = w / 2 ^ 16 /\ w mod 2 ^ 16 mod 2 ^ 32 = w mod 2 ^ 16) as Hm.
    { intros w H. pose proof (Z.mod_pos_bound w (2 ^ 16) ltac:(lia)). split; [|by rewrite Z.mod_small by lia].
      assert (0 <= w / 2 ^ 16 < 2 ^ 16) by (split; [by apply Z.div_pos; lia|by apply Z.div_lt_upper_bound; lia]).
      rewrite (Z.mod_small (w / 2 ^ 16)) by done. rewrite Z.mod_small; lia. }
    destruct (Hm _ Hw0) as [-> ->]. by destruct (Hm _ Hw) as [-> ->].
Qed.
Lemma line_read family l : family = AF_INET \/ family = AF_INET6 -> line_ok family l -> line_socket family (print_line l ++ [c_nl]) = listener family l.
Proof.
  intros Hf Hl. unfold line_socket. destruct (line_tokens family l Hl) as [rest ->]. pose proof Hl as (_ & _ & _ & _ & _ & Hp & Hs).
  assert (forall x, 0 <= x < 65536 -> to_int x = x) as Hint by (intros x Hx; unfold to_int, u32, INT_MAX; rewrite Z.mod_small by lia; by rewrite (proj2 (Z.ltb_ge _ _)) by lia).
  cbn [line_fields Nat.eqb].
  assert (strchr c_colon (flat_map (HEX 8) (laddr l) ++ c_colon :: HEX 4 (lport l)) = Some (flat_map (HEX 8) (laddr l), HEX 4 (lport l))) as ->.
  { apply strchr_app. eapply Forall_impl; [exact (address_digits (laddr l))|]. intros c [d Hc] ->. destruct (any_case_digit _ _ Hc) as (Hd & _). discriminate Hd. }
  rewrite (strtol16_digits 4 (lport l)) by (apply digits_of_hex || lia). rewrite Z.mod_small, Hint by lia. unfold listener.
  destruct (Z.eqb_spec (lport l) 0) as [E|Hne]; [by destruct (state l =? 10)|]. rewrite field_read by done.
  rewrite (strtol16_digits 2 (state l)) by (apply digits_of_hex || lia). rewrite Z.mod_small, Hint by lia. cbn [ss_family].
  rewrite (proj2 (Z.eqb_neq family 0)) by by destruct Hf as [->| ->]. change TCP_LISTEN with 10. by destruct (state l =? 10).
Qed.
Lemma getlines_line l s cur : Forall (fun x => x <> c_nl) l -> getlines (l ++ c_nl :: s) cur = (cur ++ l ++ [c_nl]) :: getlines s [].
Proof.
  intros H. revert cur. induction H as [|x l Hx H IH]; intros cur; cbn [app getlines]; [done|].
  rewrite (proj2 (Z.eqb_neq _ _)) by done. by rewrite IH, <-app_assoc.
Qed.
Lemma print_line_no_nl family l : line_ok family l -> Forall (fun x => x <> c_nl) (print_line l).
Proof.
  intros ((_ & T1) & (_ & T3) & Ho & _).
  assert (forall t, Forall (fun x => sep x = false) t -> Forall (fun x => x <> c_nl) t) as Ht by (intros t H; eapply Forall_impl; [exact H|]; by intros x Hx ->).
  pose proof (digits_token _ (address_digits (laddr l))) as T8. pose proof (digits_token _ (HEX_digits 4 (lport l))) as T4.
  pose proof (digits_token _ (HEX_digits 2 (state l))) as T2. apply Ht in T1, T2, T3, T4, T8. unfold print_line.
  repeat (rewrite Forall_cons || rewrite Forall_app). by repeat split.
Qed.
(** A table: its header and its lines. *)
Definition table : Type := bytes * list tcp_line.
Definition print_table (t : table) : bytes := fst t ++ c_nl :: flat_map (fun l => print_line l ++ [c_nl]) (snd t).
Definition table_ok (family : Z) (t : table) : Prop := Forall (fun x => x <> c_nl) (fst t) /\ Forall (line_ok family) (snd t).
(** The sockets that listen, as they are announced; [None]: the table cannot be opened. *)
Definition listeners (family : Z) (t : option table) : list sockaddr :=
  match t with Some t => omap (listener family) (snd t) | None => [] end.
(** The table of TCP sockets as the kernel prints it is read back: ParseTcpFile finds
    exactly the sockets that listen on a port, in order. *)
Theorem tcp_table_read family t : family = AF_INET \/ family = AF_INET6 -> table_ok family t ->
  ParseTcpFile family (print_table t) = Some (omap (listener family) (snd t)).
Proof.
  intros Hf [Hh Hl]. unfold ParseTcpFile, print_table. rewrite getlines_line by done. f_equal. induction Hl as [|l lines Hl H IH]; [done|].
  cbn [flat_map]. rewrite <-app_assoc. cbn [app]. rewrite getlines_line by by eapply print_line_no_nl.
  cbn [app omap list_omap]. rewrite line_read by done. by rewrite IH.
Qed.
Lemma tables_read t4 t6 : (forall t, t4 = Some t -> table_ok AF_INET t) -> (forall t, t6 = Some t -> table_ok AF_INET6 t) ->
  read_tables (option_map print_table t4) (option_map print_table t6) = Some (listeners AF_INET t4 ++ listeners AF_INET6 t6).
Proof.
  intros H4 H6. unfold read_tables. destruct t4 as [t4|], t6 as [t6|]; cbn [option_map listeners].
  all: rewrite ?(tcp_table_read AF_INET) by auto; rewrite ?(tcp_table_read AF_INET6) by auto; cbn [option_map app]; by rewrite ?app_nil_r.
Qed.

Ltac table_is_ok := unfold table_ok, line_ok, token; cbn; repeat split; try lia; try discriminate; repeat constructor; try lia; try discriminate.
Definition example_line (port st : Z) : tcp_line := mk_line (str "0:") [16777343] port (str "00000000:0000") st (str "00000000:00000000").
Definition example_table (lines : list (Z * Z)) : table := (str "  sl  local_address", map (fun l => example_line (fst l) (snd l)) lines).
Definition v6_loopback_table : table :=
  (str "header", [mk_line (str "0:") [0; 0; 0; 16777216] 8080 (str "00000000000000000000000000000000:0000") 10 (str "00000000:00000000")]).
Lemma tcp_table_read_witness :
  ParseTcpFile AF_INET (print_table (example_table [(8080, 10); (22, 1); (53, 10)])) =
    Some [mk_sockaddr AF_INET 8080 [16777343; 0; 0; 0]; mk_sockaddr AF_INET 53 [16777343; 0; 0; 0]].
Proof. refine (eq_trans (tcp_table_read _ _ _ _) _); [by left|table_is_ok|reflexivity]. Defined.



(** * What the code does otherwise *)

(** The four words of an IPv6 address are read from four digits each and not from
    eight, so a socket on ::1 is announced as one on all addresses. *)
Example v6_loopback_read_as_any :
  ParseTcpFile AF_INET6 (str "header" ++ [c_nl] ++
    str "   0: 00000000000000000000000001000000:1F90 00000000000000000000000000000000:0000 0A 00000000:00000000" ++ [c_nl]) =
  Some [mk_sockaddr AF_INET6 8080 [0; 0; 0; 0]].
Proof. vm_compute. reflexivity. Qed.
(** When one side has ended, the worker ends too: what the other side would still answer
    is lost. *)
Example half_close_cuts_reply :
  relay_rounds true [Round (Data (str "request") true) Not_ready; Round Eof Not_ready; Round Not_ready (Data (str "reply") true)] =
    ([Write To_tcp (str "request"); Shutdown To_tcp], true).
Proof. vm_compute. reflexivity. Qed.
(** A cycle in which /proc/net/tcp cannot be opened stops the relays of its sockets. *)
Example unreadable_table_stops_relays :
  let v4 := print_table (example_table [(80, 10)]) in
  sent (snd (ScanProcNetTCP (fun _ => true) [(Some v4, Some (str "header")); (None, Some (str "header"))] initial_scan)) =
    [Start (mk_sockaddr AF_INET 80 [16777343; 0; 0; 0]); Stop (mk_sockaddr AF_INET 80 [16777343; 0; 0; 0])].
Proof. vm_compute. reflexivity. Qed.
(** The usage names --netlink-fd; the message for a missing one names --netlink-socket,
    and allows what is then refused: neither. *)
Example neither_is_refused : forall e, RunPortTracker true e (map str ["localhost"; "--port-tracker-fd"; "5"]) = Exits 1.
Proof. reflexivity. Qed.

End LocalhostThm.
