(* ===== verification/Timezone.v ===== *)
(** Timezone updates (src/FreeBSD/timezone_handler.h). *)
From S2P Require Import Prelude CStr CNum SysOps.

Module Timezone.

Definition TZ_LOCALTIME_FILE : bytes := str "/etc/localtime".
Definition TZ_SETTING_FILE : bytes := str "/etc/timezone".
Definition TZ_ZONEINFO_BASE : bytes := str "/usr/share/zoneinfo/".

Section Apply.
Context (ok : sysop -> bool) (file_exists : bytes -> bool).

(** A failed unlink is ignored. *)
Definition timezone_apply (timezone : option bytes) (auto_update : Z) : list sysop * Z :=
  if auto_update =? 0 then ([], 0)
  else
    match timezone with
    | None | Some [] => ([], 0)
    | Some tz =>
      let target := TZ_ZONEINFO_BASE ++ tz in
      if 256 <=? Z.of_nat (length target) then ([], -1)
      else if negb (file_exists target) then ([], -1)
      else
        let link := Symlink target TZ_LOCALTIME_FILE in
        let ops := [Unlink TZ_LOCALTIME_FILE; link] in
        if negb (ok link) then (ops, -1)
        else
          let w := Write_file TZ_SETTING_FILE (tz ++ [c_nl]) in
          if negb (ok w) then (ops, -1)
          else (ops ++ [w; Setenv (str "TZ") tz], 0)
    end.

(** [Past_end]: the name is read beyond the end of the message. *)
Inductive tz_result : Type :=
| Done (ops : list sysop) (rc : Z)
| Past_end.

Definition timezone_handle_message (msg : option bytes) (auto_update : Z) : tz_result :=
  match msg with
  | None => Done [] (-1)
  | Some m =>
    if Z.of_nat (length m) <? 16 then Done [] (-1)
    else
      let tz_offset := get32 12 m in
      if Z.of_nat (length m) <=? 16 then Done [] (-1)
      else
        let buf := drop 16 m in
        if Z.of_nat (length buf) <=? tz_offset then Done [] (-1)
        else
          let timezone := drop (Z.to_nat tz_offset) buf in
          if negb (nul_terminated timezone) then Past_end
          else let '(ops, rc) := timezone_apply (Some (to_cstr timezone)) auto_update in Done ops rc
  end.
End Apply.

End Timezone.
