(* ===== verification/Plan9.v ===== *)
(** The built-in 9P2000.L server (src/FreeBSD/plan9_server.h, the branch without
    __FreeBSD__): the table of fids, the wire format, one handler per message
    type, the request loop and the accept loop.  The file system is the kernel's:
    each system call is an entry of the history with its result, and what the
    kernel answers is a function of the history so far. *)
From S2P Require Import Prelude StateM CStr CNum Wire.
Import StateM Wire.

Module Plan9.

(** * Constants *)
Definition P9_TVERSION : Z := 100.
Definition P9_RVERSION : Z := 101.
Definition P9_TATTACH : Z := 104.
Definition P9_RATTACH : Z := 105.
Definition P9_TFLUSH : Z := 108.
Definition P9_RFLUSH : Z := 109.
Definition P9_TWALK : Z := 110.
Definition P9_RWALK : Z := 111.
Definition P9_TLOPEN : Z := 112.
Definition P9_RLOPEN : Z := 113.
Definition P9_TLCREATE : Z := 114.
Definition P9_RLCREATE : Z := 115.
Definition P9_TREAD : Z := 116.
Definition P9_RREAD : Z := 117.
Definition P9_TWRITE : Z := 118.
Definition P9_RWRITE : Z := 119.
Definition P9_TCLUNK : Z := 120.
Definition P9_RCLUNK : Z := 121.
Definition P9_TREMOVE : Z := 122.
Definition P9_RREMOVE : Z := 123.
Definition P9_TSTAT : Z := 124.
Definition P9_RSTAT : Z := 125.
Definition P9_RERROR : Z := 7.
Definition P9_QID_DIR : Z := 128.
Definition P9_MAXMSIZE : Z := 65536.
Definition MAX_FID_MAP : nat := 64.

(** The flags of open(2) the handlers use, and the d_type of a directory. *)
Definition O_RDONLY : Z := 0.
Definition O_CREAT : Z := 64.
Definition O_DIRECTORY : Z := 65536.
Definition O_NOFOLLOW : Z := 131072.
Definition O_CLOEXEC : Z := 524288.
Definition DT_DIR : Z := 4.
Definition flag_or (l : list Z) : Z := fold_right Z.lor 0 l.

(** * The table of fids *)
Record fid_entry : Type := mk_fid {
  e_fid : Z; e_fd : Z; e_qpath : Z; e_qtype : Z; e_path : bytes
}.
#[export] Instance fid_entry_eta : Eta fid_entry := fun r =>
  mk_fid (e_fid r) (e_fd r) (e_qpath r) (e_qtype r) (e_path r).

(** A slot whose descriptor is negative is free. *)
Definition in_use (e : fid_entry) : bool := 0 <=? e_fd e.
Definition is_fid (f : Z) (e : fid_entry) : bool := in_use e && (e_fid e =? f).
Definition free_slot (e : fid_entry) : bool := e_fd e <? 0.

(** The first slot that satisfies a test, and its update in place. *)
Section Table.
Context (p : fid_entry -> bool).

Fixpoint first_slot (t : list fid_entry) : option fid_entry :=
  match t with
  | [] => None
  | e :: t' => if p e then Some e else first_slot t'
  end.

Fixpoint update_first (g : fid_entry -> fid_entry) (t : list fid_entry) : list fid_entry :=
  match t with
  | [] => []
  | e :: t' => if p e then g e :: t' else e :: update_first g t'
  end.
End Table.

Definition PATH_SIZE : Z := 512.
Definition fill_entry (f fd qpath qtype : Z) (path : bytes) (e : fid_entry) : fid_entry :=
  mk_fid f fd qpath qtype (snprintf_s PATH_SIZE path).
Definition clear_entry (e : fid_entry) : fid_entry := e <| e_fd := -1 |> <| e_fid := 0 |>.

Definition find (t : list fid_entry) (f : Z) : option fid_entry := first_slot (is_fid f) t.
Definition add (t : list fid_entry) (f fd qpath qtype : Z) (path : bytes) :
    option (list fid_entry) :=
  match first_slot free_slot t with
  | Some _ => Some (update_first free_slot (fill_entry f fd qpath qtype path) t)
  | None => None
  end.
Definition remove (t : list fid_entry) (f : Z) : list fid_entry :=
  update_first (is_fid f) clear_entry t.
Definition replace (t : list fid_entry) (f fd qpath qtype : Z) (path : bytes) : list fid_entry :=
  update_first (is_fid f) (fill_entry f fd qpath qtype path) t.

(** * State and system calls *)

(** What the handlers read of a [struct stat] and of a [struct dirent]. *)
Record stat : Type := mk_stat { st_mode : Z; st_dev : Z; st_atime : Z; st_mtime : Z; st_size : Z }.
Record dirent : Type := mk_dirent { d_type : Z; d_name : bytes }.

(** A system call that succeeded or failed; descriptors are results. *)
Inductive sys_call : Type :=
| Opened (dir : option Z) (path : bytes) (flags mode fd : Z)
| Dupped (old fd : Z)
| Accepted (fd : Z)
| Closed (fd : Z)
| Pwrote (fd : Z) (data : bytes) (offset n : Z)
| Rmdir (path : bytes) (ok : bool)
| Unlink (path : bytes) (ok : bool).

(** The static variables of the child, the system calls it made, oldest first,
    and what it sent on the connection. *)
Record p9 : Type := mk_p9 {
  g_fid_map : list fid_entry;
  g_fid_count : Z;
  g_rootfd : Z;
  g_next_qpath : Z;
  g_root_path : bytes;
  calls : list sys_call;
  sent : bytes
}.
#[export] Instance p9_eta : Eta p9 := fun r =>
  mk_p9 (g_fid_map r) (g_fid_count r) (g_rootfd r) (g_next_qpath r) (g_root_path r) (calls r) (sent r).

Abbreviation P9 := (M p9).
Definition log (c : sys_call) : P9 unit := modify (fun s => s <| calls := calls s ++ [c] |>).

(** The descriptors a history leaves open, besides those open before it. *)
Definition after_call (open : list Z) (c : sys_call) : list Z :=
  match c with
  | Opened _ _ _ _ fd | Dupped _ fd | Accepted fd => if 0 <=? fd then fd :: open else open
  | Closed fd => List.remove Z.eq_dec fd open
  | _ => open
  end.
Definition open_after (h : list sys_call) : list Z := fold_left after_call h [].

(** What a request leads to: a response of some type, or a step that C does not
    define (a write outside a buffer, a read outside the message, the use of an
    uninitialised name). *)
Inductive outcome : Type :=
| Reply (type : Z) (body : bytes)
| Overrun
| Uninitialised.

(** * The table, as the handlers use it *)
Definition fid_find (f : Z) : P9 (option fid_entry) := gets (fun s => find (g_fid_map s) f).

Definition fid_add (f fd qpath qtype : Z) (path : bytes) : P9 bool := fun s =>
  match add (g_fid_map s) f fd qpath qtype path with
  | Some t => (true, s <| g_fid_map := t |> <| g_fid_count := g_fid_count s + 1 |>)
  | None => (false, s)
  end.

Definition close (fd : Z) : P9 unit := log (Closed fd).

Definition fid_remove (f : Z) : P9 unit :=
  e ← fid_find f;
  match e with
  | Some e =>
    close (e_fd e);;
    modify (fun s => s <| g_fid_map := remove (g_fid_map s) f |> <| g_fid_count := g_fid_count s - 1 |>)
  | None => skip
  end.

Definition fid_replace (f fd qpath qtype : Z) (path : bytes) : P9 bool :=
  e ← fid_find f;
  match e with
  | Some e =>
    close (e_fd e);;
    modify (fun s => s <| g_fid_map := replace (g_fid_map s) f fd qpath qtype path |>);;
    mret true
  | None => mret false
  end.

Definition fid_next_qpath : P9 Z := fun s =>
  (g_next_qpath s, s <| g_next_qpath := u64 (g_next_qpath s + 1) |>).

(** * The wire format *)
Definition p9_put16 (v : Z) : bytes := le_bytes 2 (u16 v).
Definition p9_put32 (v : Z) : bytes := le_bytes 4 (u32 v).
Definition p9_put64 (v : Z) : bytes := le_bytes 8 (u64 v).
Definition p9_put_string (s : bytes) : bytes := p9_put16 (Z.of_nat (length s)) ++ s.
(** P9_PACK_QID with version 0. *)
Definition pack_qid (qtype qpath : Z) : bytes := [u8 qtype] ++ p9_put32 0 ++ p9_put64 qpath.

(** The buffers p9_send_response writes, in order. *)
Definition response_writes (type tag : Z) (body : bytes) : list bytes :=
  let total := 7 + Z.of_nat (length body) in
  let hdr := p9_put32 total ++ [u8 type] ++ p9_put16 tag in
  if 512 <? total then
    if 0 <? Z.of_nat (length body) then [hdr; body] else [hdr]
  else [hdr ++ body].

(** p9_send_error: the body of an Rerror. *)
Definition p9_send_error (msg : bytes) : outcome := Reply P9_RERROR (p9_put_string msg).
Definition fail (msg : bytes) : P9 outcome := mret (p9_send_error msg).

(** A field of a body that may be too short for it. *)
Definition field (body : bytes) (need : nat) (n : nat) (off : Z) : Z :=
  if (need <=? length body)%nat then get_le n off body else 0.

Definition parent_path (parent name : bytes) : bytes :=
  if is_empty parent then snprintf_s PATH_SIZE name
  else snprintf_s PATH_SIZE (parent ++ [c_slash] ++ name).
Definition full_path (root path : bytes) : bytes :=
  if is_empty path then snprintf_s PATH_SIZE root
  else snprintf_s PATH_SIZE (root ++ [c_slash] ++ path).

Definition is_dir (e : fid_entry) : bool := negb (Z.land (e_qtype e) P9_QID_DIR =? 0).
Definition S_ISDIR (mode : Z) : bool := Z.land mode 61440 =? 16384.
(** [(off_t)offset] *)
Definition off_t (x : Z) : Z := if x <? 2 ^ 63 then x else x - 2 ^ 64.

(** P9_BUILD_STAT, with the two bytes of size in front. *)
Definition stat_fields (e : fid_entry) (st : stat) : bytes :=
  p9_put16 (if S_ISDIR (st_mode st) then 1 else 0) ++ p9_put32 (st_dev st)
  ++ pack_qid (e_qtype e) (e_qpath e) ++ p9_put32 (st_mode st) ++ p9_put32 (st_atime st)
  ++ p9_put32 (st_mtime st) ++ p9_put64 (st_size st)
  ++ p9_put_string (if is_empty (e_path e) then [c_slash] else e_path e)
  ++ p9_put_string (str "root") ++ p9_put_string (str "wheel") ++ p9_put_string (str "root").
Definition build_stat (e : fid_entry) (st : stat) : bytes :=
  let f := stat_fields e st in p9_put16 (Z.of_nat (length f)) ++ f.

(** One entry of a directory listing. *)
Definition pack_dirent (d : dirent) (qpath idx : Z) : bytes :=
  pack_qid (if d_type d =? DT_DIR then P9_QID_DIR else 0) qpath ++ p9_put64 (idx + 1)
  ++ [if d_type d =? DT_DIR then 1 else 0] ++ p9_put_string (d_name d).
Definition is_dot (d : dirent) : bool :=
  strcmp_eq (d_name d) (str ".") || strcmp_eq (d_name d) (str "..").

Section Server.
(** The kernel, given the calls so far: a descriptor or a negative number for
    dup, open and openat; the status of a descriptor; the stream of a directory
    ([None] when fdopendir fails) from its start; pread; the result of pwrite,
    rmdir and unlink; whether malloc succeeds; for each write to the connection,
    what its system calls do; and the descriptor of an accepted client. *)
Context (k_dup : list sys_call -> Z -> Z).
Context (k_openat : list sys_call -> option Z -> bytes -> Z -> Z -> Z).
Context (k_fstat : list sys_call -> Z -> option stat).
Context (k_readdir : list sys_call -> Z -> option (list dirent)).
Context (k_pread : list sys_call -> Z -> Z -> Z -> option bytes).
Context (k_pwrite : list sys_call -> Z -> bytes -> Z -> Z).
Context (k_rmdir k_unlink : list sys_call -> bytes -> bool).
Context (k_malloc : list sys_call -> Z -> bool).
Context (k_write : list sys_call -> bytes -> bytes -> list sock_event).
Context (k_accept : list sys_call -> Z).

(** * System calls *)
Definition dup (fd : Z) : P9 Z :=
  r ← gets (fun s => k_dup (calls s) fd); log (Dupped fd r);; mret r.
Definition openat (dir : option Z) (path : bytes) (flags mode : Z) : P9 Z :=
  r ← gets (fun s => k_openat (calls s) dir path flags mode);
  log (Opened dir path flags mode r);; mret r.
Definition pwrite (fd : Z) (data : bytes) (offset : Z) : P9 Z :=
  n ← gets (fun s => k_pwrite (calls s) fd data offset); log (Pwrote fd data offset n);; mret n.
Definition malloc (n : Z) : P9 bool := gets (fun s => k_malloc (calls s) n).

(** * The handlers *)
Definition handle_tversion (body : bytes) : P9 outcome :=
  if (length body <? 6)%nat then fail (str "bad Tversion")
  else
    let client_msize := get32 0 body in
    let msize := if client_msize <? P9_MAXMSIZE then client_msize else P9_MAXMSIZE in
    mret (Reply P9_RVERSION (p9_put32 msize ++ p9_put_string (str "9P2000.L"))).

Definition handle_tattach (body : bytes) : P9 outcome :=
  let fid := field body 4 4 0 in
  root ← gets g_rootfd;
  root_dup ← dup root;
  if root_dup <? 0 then fail (str "dup root failed")
  else
    ok ← fid_add fid root_dup 1 P9_QID_DIR [];
    if ok : bool then mret (Reply P9_RATTACH (pack_qid P9_QID_DIR 1))
    else close root_dup;; fail (str "fid table full").

(** [stat_buf] has 512 bytes. *)
Definition handle_tstat (body : bytes) : P9 outcome :=
  entry ← fid_find (field body 4 4 0);
  match entry with
  | None => fail (str "unknown fid")
  | Some e =>
    st ← gets (fun s => k_fstat (calls s) (e_fd e));
    match st with
    | None => fail (str "fstat failed")
    | Some st =>
      let buf := build_stat e st in
      if 512 <? Z.of_nat (length buf) then mret Overrun
      else mret (Reply P9_RSTAT (take (Z.to_nat (get16 0 buf + 2)) buf))
    end
  end.

(** A walk of no component: a copy of the fid. *)
Definition clone_fid (fid newfid : Z) : P9 outcome :=
  entry ← fid_find fid;
  match entry with
  | None => fail (str "unknown fid")
  | Some parent =>
    newfd ← dup (e_fd parent);
    if newfd <? 0 then fail (str "dup failed")
    else
      ok ← fid_add newfid newfd (e_qpath parent) (e_qtype parent) (e_path parent);
      if ok : bool then mret (Reply P9_RWALK (p9_put16 0))
      else close newfd;; fail (str "fid table full")
  end.

(** As a directory first, then as a file: the descriptor and the qid's type. *)
Definition open_component (dir : Z) (name : bytes) : P9 (Z * Z) :=
  d ← openat (Some dir) name (flag_or [O_DIRECTORY; O_NOFOLLOW; O_CLOEXEC]) 0;
  if d <? 0 then
    f ← openat (Some dir) name (flag_or [O_RDONLY; O_NOFOLLOW; O_CLOEXEC]) 0; mret (f, 0)
  else mret (d, P9_QID_DIR).

(** The loop over the components: [left] of them remain, the first at [pos] of
    the body; the result is the list of qids, or [None] when [name] (256 bytes)
    or [qids] (16 qids) is overrun. *)
Fixpoint walk_loop (body : bytes) (newfid parent_fd : Z) (left : nat) (pos : nat)
    (cur_fd : Z) (cur_path : bytes) (qids : list bytes) : P9 (option (list bytes)) :=
  match left with
  | O => mret (Some qids)
  | S left' =>
    if (length body <? pos + 2)%nat then mret (Some qids)
    else
      let name_len := Z.to_nat (get16 (Z.of_nat pos) body) in
      let pos := (pos + 2)%nat in
      if (length body <? pos + name_len)%nat then mret (Some qids)
      else if (256 <=? name_len)%nat then mret None
      else
        let name := to_cstr (take name_len (drop pos body)) in
        '(next_fd, qtype) ← open_component cur_fd name;
        if next_fd <? 0 then mret (Some [])
        else
          let new_path := parent_path cur_path name in
          qpath ← fid_next_qpath;
          if (16 <=? length qids)%nat then mret None
          else
            let qids := qids ++ [pack_qid qtype qpath] in
            match left' with
            | O =>
              ok ← fid_add newfid next_fd qpath qtype new_path;
              if ok : bool then mret (Some qids) else close next_fd;; mret (Some [])
            | S _ =>
              when (negb (cur_fd =? parent_fd)) (close cur_fd);;
              walk_loop body newfid parent_fd left' (pos + name_len) next_fd new_path qids
            end
  end.

Definition handle_twalk (body : bytes) : P9 outcome :=
  let fid := field body 10 4 0 in
  let newfid := field body 10 4 4 in
  let nwname := field body 10 2 8 in
  if nwname =? 0 then clone_fid fid newfid
  else
    entry ← fid_find fid;
    match entry with
    | None => fail (str "unknown fid")
    | Some parent =>
      qids ← walk_loop body newfid (e_fd parent) (Z.to_nat nwname) 10
               (e_fd parent) (e_path parent) [];
      match qids with
      | None => mret Overrun
      | Some qids => mret (Reply P9_RWALK (p9_put16 (Z.of_nat (length qids)) ++ concat qids))
      end
    end.

Definition handle_tclunk (body : bytes) : P9 outcome :=
  fid_remove (field body 4 4 0);; mret (Reply P9_RCLUNK []).

Definition open_reply (type qtype qpath : Z) : outcome :=
  Reply type (pack_qid qtype qpath ++ p9_put32 8192).

(** The entry gets the new descriptor in place. *)
Definition reopen_fid (f newfd : Z) : P9 unit :=
  modify (fun s => s <| g_fid_map := update_first (is_fid f) (fun e => e <| e_fd := newfd |>)
                                      (g_fid_map s) |>).

Definition handle_tlopen (body : bytes) : P9 outcome :=
  let fid := field body 8 4 0 in
  let flags := field body 8 4 4 in
  entry ← fid_find fid;
  match entry with
  | None => fail (str "unknown fid")
  | Some e =>
    if is_dir e then mret (open_reply P9_RLOPEN (e_qtype e) (e_qpath e))
    else
      root ← gets g_root_path;
      newfd ← openat None (full_path root (e_path e)) (Z.lor flags O_CLOEXEC) 0;
      if newfd <? 0 then fail (str "open failed")
      else close (e_fd e);; reopen_fid fid newfd;; mret (open_reply P9_RLOPEN 0 (e_qpath e))
  end.

(** The name of a Tlcreate: the local array is written only when the body holds
    a name that is not empty. *)
Inductive created_name : Type := Name (n : bytes) | Name_overrun | Name_unset.
Definition tlcreate_name (body : bytes) : created_name :=
  let name_len := Z.to_nat (field body 10 2 4) in
  if (0 <? name_len)%nat && (6 + name_len <=? length body)%nat then
    if (256 <=? name_len)%nat then Name_overrun else Name (to_cstr (take name_len (drop 6 body)))
  else Name_unset.
Definition tlcreate_word (body : bytes) (at_ : Z) : Z :=
  let off := 6 + field body 10 2 4 in
  if (10 <=? length body)%nat && (off + 12 <=? Z.of_nat (length body)) then get32 (off + at_) body
  else 0.

Definition create_file (fid : Z) (parent : fid_entry) (name : bytes) (flags mode : Z) : P9 outcome :=
  newfd ← openat (Some (e_fd parent)) name (flag_or [flags; O_CREAT; O_CLOEXEC]) (Z.land mode 511);
  if newfd <? 0 then fail (str "create failed")
  else
    let child_path := parent_path (e_path parent) name in
    qpath ← fid_next_qpath;
    replaced ← fid_replace fid newfd qpath 0 child_path;
    added ← (if replaced : bool then mret true else fid_add fid newfd qpath 0 child_path);
    if added : bool then mret (open_reply P9_RLCREATE 0 qpath)
    else close newfd;; fail (str "fid table full").

Definition handle_tlcreate (body : bytes) : P9 outcome :=
  let fid := field body 10 4 0 in
  match tlcreate_name body with
  | Name_overrun => mret Overrun
  | name =>
    entry ← fid_find fid;
    match entry with
    | None => fail (str "unknown fid")
    | Some parent =>
      match name with
      | Name n => create_file fid parent n (tlcreate_word body 0) (tlcreate_word body 4)
      | _ => mret Uninitialised
      end
    end
  end.

(** The entries that fit into [count] bytes, after the ones skipped. *)
Fixpoint pack_entries (des : list dirent) (count data_len idx : Z) : P9 bytes :=
  match des with
  | [] => mret []
  | de :: des' =>
    if count <=? data_len then mret []
    else if is_dot de then pack_entries des' count data_len idx
    else
      qpath ← fid_next_qpath;
      let entry := pack_dirent de qpath idx in
      if count <? data_len + (24 + Z.of_nat (length (d_name de))) then mret []
      else
        rest ← pack_entries des' count (data_len + Z.of_nat (length entry)) (idx + 1);
        mret (entry ++ rest)
  end.

(** Rread: the number of bytes and the bytes. *)
Definition rread (data : bytes) : P9 outcome :=
  ok ← malloc (4 + Z.of_nat (length data));
  if ok : bool then mret (Reply P9_RREAD (p9_put32 (Z.of_nat (length data)) ++ data))
  else fail (str "oom").

Definition read_dir (e : fid_entry) (offset count : Z) : P9 outcome :=
  copy ← dup (e_fd e);
  stream ← gets (fun s => if copy <? 0 then None else k_readdir (calls s) copy);
  match stream with
  | None => fail (str "opendir failed")
  | Some des =>
    ok ← malloc count;
    if ok : bool then
      let skipped := Z.to_nat (Z.min offset (Z.of_nat (length des))) in
      data ← pack_entries (drop skipped des) count 0 (Z.of_nat skipped);
      close copy;; rread data
    else close copy;; fail (str "oom")
  end.

Definition read_file (e : fid_entry) (offset count : Z) : P9 outcome :=
  ok ← malloc count;
  if ok : bool then
    data ← gets (fun s => k_pread (calls s) (e_fd e) count (off_t offset));
    match data with
    | None => fail (str "read failed")
    | Some d => rread (take (Z.to_nat count) d)
    end
  else fail (str "oom").

Definition handle_tread (body : bytes) : P9 outcome :=
  let offset := field body 16 8 4 in
  let count := field body 16 4 12 in
  entry ← fid_find (field body 16 4 0);
  match entry with
  | None => fail (str "unknown fid")
  | Some e => if is_dir e then read_dir e offset count else read_file e offset count
  end.

(** [16 + count] is computed in 32 bits. *)
Definition handle_twrite (body : bytes) : P9 outcome :=
  let offset := field body 16 8 4 in
  let count := field body 16 4 12 in
  entry ← fid_find (field body 16 4 0);
  match entry with
  | None => fail (str "unknown fid")
  | Some e =>
    if (0 <? count) && (u32 (16 + count) <=? Z.of_nat (length body)) then
      if Z.of_nat (length body) <? 16 + count then mret Overrun
      else
        n ← pwrite (e_fd e) (take (Z.to_nat count) (drop 16 body)) (off_t offset);
        mret (Reply P9_RWRITE (p9_put32 (if n <? 0 then 0 else n)))
    else mret (Reply P9_RWRITE (p9_put32 0))
  end.

Definition handle_tremove (body : bytes) : P9 outcome :=
  let fid := field body 4 4 0 in
  entry ← fid_find fid;
  match entry with
  | None => fail (str "unknown fid")
  | Some e =>
    root ← gets g_root_path;
    let path := full_path root (e_path e) in
    (if is_dir e then ok ← gets (fun s => k_rmdir (calls s) path); log (Rmdir path ok)
     else ok ← gets (fun s => k_unlink (calls s) path); log (Unlink path ok));;
    fid_remove fid;; mret (Reply P9_RREMOVE [])
  end.

(** The switch on the message type. *)
Definition dispatch (msg_type : Z) (body : bytes) : P9 outcome :=
  if msg_type =? P9_TVERSION then handle_tversion body
  else if msg_type =? P9_TATTACH then handle_tattach body
  else if msg_type =? P9_TSTAT then handle_tstat body
  else if msg_type =? P9_TWALK then handle_twalk body
  else if msg_type =? P9_TCLUNK then handle_tclunk body
  else if msg_type =? P9_TLOPEN then handle_tlopen body
  else if msg_type =? P9_TLCREATE then handle_tlcreate body
  else if msg_type =? P9_TREAD then handle_tread body
  else if msg_type =? P9_TWRITE then handle_twrite body
  else if msg_type =? P9_TREMOVE then handle_tremove body
  else if msg_type =? P9_TFLUSH then mret (Reply P9_RFLUSH [])
  else fail (str "not supported").

(** * Requests *)

(** One p9_writen on the connection: [Some 0], [Some (-1)], or [None] while
    the peer does not take the bytes. *)
Definition p9_write (buf : bytes) : P9 (option Z) := fun s =>
  let x := p9_writen (k_write (calls s) (sent s) buf) buf in
  (x_rc x, s <| sent := sent s ++ x_data x |>).

Fixpoint write_seq (bufs : list bytes) : P9 (option Z) :=
  match bufs with
  | [] => mret (Some 0)
  | b :: bufs' =>
    rc ← p9_write b;
    match rc with Some 0 => write_seq bufs' | _ => mret rc end
  end.

Definition p9_send_response (type tag : Z) (body : bytes) : P9 (option Z) :=
  write_seq (response_writes type tag body).

(** How a request ends: the loop goes on or the connection is closed (the two
    return values), the process waits for the peer, or it is undefined. *)
Inductive request_end : Type := Continue | Disconnect | Waiting | Undefined.

Record conn : Type := mk_conn { rx_events : list sock_event; rx_stream : bytes }.

Definition p9_answer (rest : bytes) : P9 request_end :=
  let tag := get16 1 rest in
  o ← dispatch (get_le 1 0 rest) (drop 3 rest);
  match o with
  | Reply type body =>
    rc ← p9_send_response type tag body;
    mret (match rc with Some _ => Continue | None => Waiting end)
  | _ => mret Undefined
  end.

(** Read [n] bytes of the connection, or say why not. *)
Definition p9_read (c : conn) (n : nat) : (request_end + bytes) * conn :=
  let '(x, s) := p9_readn (rx_events c) (rx_stream c) n in
  (match x_rc x with
   | Some 0 => inr (x_data x)
   | Some _ => inl Disconnect
   | None => inl Waiting
   end, mk_conn (x_events x) s).

Definition p9_handle_request (c : conn) : P9 (request_end * conn) :=
  match p9_read c 4 with
  | (inl e, c1) => mret (e, c1)
  | (inr size_buf, c1) =>
    let msg_size := get32 0 size_buf in
    if (msg_size <? 7) || (P9_MAXMSIZE <? msg_size) then mret (Disconnect, c1)
    else
      let remaining := msg_size - 4 in
      ok ← malloc remaining;
      if ok : bool then
        match p9_read c1 (Z.to_nat remaining) with
        | (inl e, c2) => mret (e, c2)
        | (inr rest, c2) => e ← p9_answer rest; mret (e, c2)
        end
      else mret (Disconnect, c1)
  end.

(** while (p9_handle_request(conn_fd) == 0); every request that continues takes
    at least seven bytes of the stream, so its length is enough fuel. *)
Fixpoint serve_loop (fuel : nat) (c : conn) : P9 (request_end * conn) :=
  match fuel with
  | O => mret (Continue, c)
  | S fuel' =>
    '(e, c') ← p9_handle_request c;
    match e with Continue => serve_loop fuel' c' | _ => mret (e, c') end
  end.
Definition serve (c : conn) : P9 (request_end * conn) := serve_loop (S (length (rx_stream c))) c.

(** * The child: what accept returns, one event per call *)
Inductive accepted : Type :=
| Client (c : conn)
| Accept_intr
| Accept_failed.

Definition init_fid_map (t : list fid_entry) : list fid_entry :=
  map (fun e => e <| e_fd := -1 |> <| e_fid := 0 |> <| e_path := [] |>) t.

(** The accept loop ends in the exit status of the child, or in [None] while it
    runs (or when a request is undefined). *)
Fixpoint accept_loop (evs : list accepted) : P9 (option Z) :=
  match evs with
  | [] => mret None
  | Accept_intr :: evs' => accept_loop evs'
  | Accept_failed :: _ => mret (Some 0)
  | Client c :: evs' =>
    fd ← gets (fun s => k_accept (calls s)); log (Accepted fd);;
    '(e, _) ← serve c;
    match e with
    | Disconnect => close fd;; accept_loop evs'
    | _ => mret None
    end
  end.

Definition plan9_child_run (control_fd : Z) (evs : list accepted) : P9 (option Z) :=
  modify (fun s => s <| g_fid_map := init_fid_map (g_fid_map s) |> <| g_fid_count := 0 |>
                     <| g_next_qpath := 2 |>);;
  root ← gets g_root_path;
  r ← openat None root (flag_or [O_DIRECTORY; O_CLOEXEC]) 0;
  modify (fun s => s <| g_rootfd := r |>);;
  if r <? 0 then mret (Some 1) else close control_fd;; accept_loop evs.
End Server.
End Plan9.
