(* ===== verification/Plan9Thm.v ===== *)
(** Theorems on the tables of the built-in Plan 9 server: fids as a finite map
    (Plan9Thm), and their descriptors (Plan9FdsThm). *)
From stdpp Require Import gmap sets.
From stdpp Require Import sets.
From S2P Require Import Prelude StateM CStr CNum Wire Plan9.

Import StateM Wire Plan9.

Module Plan9Thm.

(** * Slots *)
Lemma first_slot_split p t e :
  first_slot p t = Some e ->
  exists t1 t2, t = t1 ++ e :: t2 /\ Forall (fun x => p x = false) t1 /\ p e = true
    /\ forall g, update_first p g t = t1 ++ g e :: t2.
Proof.
  induction t as [|x t IH]; cbn; [done|]. destruct (p x) eqn:E.
  - intros [= ->]. by exists [], t.
  - intros H. destruct (IH H) as (t1 & t2 & -> & Ht1 & Hp & Hg). exists (x :: t1), t2.
    split; [done|]. split; [by constructor|]. split; [done|]. intros g. cbn. by rewrite Hg.
Qed.

Lemma first_slot_none p t : first_slot p t = None <-> Forall (fun x => p x = false) t.
Proof.
  induction t as [|x t IH]; cbn; [by split|]. rewrite Forall_cons, <-IH.
  destruct (p x); split; try done; [by intros [? _]|by intros [_ ?]].
Qed.

Lemma update_first_length p g t : length (update_first p g t) = length t.
Proof. induction t as [|x t IH]; cbn; [done|]. destruct (p x); cbn; congruence. Qed.

Lemma update_first_forall (P : fid_entry -> Prop) p g t :
  Forall P t -> (forall e, p e = true -> P e -> P (g e)) -> Forall P (update_first p g t).
Proof.
  intros Ht Hg. induction Ht as [|x t Hx Ht IH]; cbn; [done|].
  destruct (p x) eqn:E; constructor; auto.
Qed.

Lemma first_slot_in p t e : first_slot p t = Some e -> e ∈ t /\ p e = true.
Proof.
  intros H. destruct (first_slot_split _ _ _ H) as (t1 & t2 & -> & _ & Hp & _).
  split; [set_solver|done].
Qed.

(** * The entries in use *)
Definition live (t : list fid_entry) : list fid_entry := List.filter in_use t.
Definition live_fids (t : list fid_entry) : list Z := map e_fid (live t).
Definition live_fds (t : list fid_entry) : list Z := map e_fd (live t).

Lemma live_app t1 t2 : live (t1 ++ t2) = live t1 ++ live t2.
Proof. apply List.filter_app. Qed.

Lemma free_not_in_use e : free_slot e = true <-> in_use e = false.
Proof. unfold free_slot, in_use. rewrite Z.ltb_lt, Z.leb_gt. done. Qed.

Lemma is_fid_spec f e : is_fid f e = true <-> in_use e = true /\ e_fid e = f.
Proof. unfold is_fid. by rewrite andb_true_iff, Z.eqb_eq. Qed.

Lemma find_spec t f e : find t f = Some e -> e ∈ live t /\ e_fid e = f /\ 0 <= e_fd e.
Proof.
  intros H. apply first_slot_in in H as [Hin Hp]. apply is_fid_spec in Hp as [Hu Hf].
  split; [apply list_elem_of_In, List.filter_In; split; [by apply list_elem_of_In|done]|].
  split; [done|]. unfold in_use in Hu. bool_to_prop. done.
Qed.

(** The three updates, on the list of entries in use. *)
Lemma add_live t f fd qp qt pa t' :
  0 <= fd -> add t f fd qp qt pa = Some t' ->
  exists l1 l2, live t = l1 ++ l2 /\ live t' = l1 ++ mk_fid f fd qp qt (snprintf_s PATH_SIZE pa) :: l2
    /\ length t' = length t.
Proof.
  intros Hfd. unfold add. destruct (first_slot free_slot t) as [e|] eqn:E; [|done]. intros [= <-].
  rewrite update_first_length.
  destruct (first_slot_split _ _ _ E) as (t1 & t2 & -> & _ & Hp & Hg). rewrite Hg.
  apply free_not_in_use in Hp. exists (live t1), (live t2). rewrite !live_app. cbn. rewrite Hp.
  replace (in_use _) with true; [done|]. symmetry. by apply Z.leb_le.
Qed.

Lemma remove_live t f e :
  find t f = Some e ->
  exists l1 l2, live t = l1 ++ e :: l2 /\ live (remove t f) = l1 ++ l2
    /\ Forall (fun x => e_fid x <> f) l1.
Proof.
  intros E. destruct (first_slot_split _ _ _ E) as (t1 & t2 & -> & Hn & Hp & Hg).
  unfold remove. rewrite Hg, !live_app. apply is_fid_spec in Hp as [Hu _]. cbn. rewrite Hu.
  exists (live t1), (live t2). split; [done|]. split; [done|].
  apply Forall_forall. intros x Hx. apply list_elem_of_In, List.filter_In in Hx as [Hx Hux].
  rewrite Forall_forall in Hn. intros Hf. assert (is_fid f x = true) by by apply is_fid_spec.
  rewrite Hn in *; [done|by apply list_elem_of_In].
Qed.

Lemma update_live t f e g :
  find t f = Some e -> in_use (g e) = true ->
  exists l1 l2, live t = l1 ++ e :: l2 /\ live (update_first (is_fid f) g t) = l1 ++ g e :: l2.
Proof.
  intros E Hg1. destruct (first_slot_split _ _ _ E) as (t1 & t2 & -> & _ & Hp & Hg).
  rewrite Hg, !live_app. apply is_fid_spec in Hp as [Hu _]. cbn. rewrite Hu, Hg1. eauto.
Qed.

(** * The table as a finite map *)
Definition pairs (l : list fid_entry) : list (Z * fid_entry) := map (fun e => (e_fid e, e)) l.
Definition abs_of (l : list fid_entry) : gmap Z fid_entry := list_to_map (pairs l).
Definition fids (t : list fid_entry) : gmap Z fid_entry := abs_of (live t).

Lemma pairs_fst l : (pairs l).*1 = map e_fid l.
Proof. unfold pairs. induction l; cbn; congruence. Qed.

Lemma abs_middle l1 e l2 :
  NoDup (map e_fid (l1 ++ e :: l2)) -> abs_of (l1 ++ e :: l2) = <[e_fid e := e]> (abs_of (l1 ++ l2)).
Proof.
  intros H. unfold abs_of. change (<[e_fid e := e]> (list_to_map (pairs (l1 ++ l2))))
    with (list_to_map (M := gmap Z fid_entry) (pairs (e :: l1 ++ l2))).
  apply list_to_map_proper; [by rewrite pairs_fst|].
  unfold pairs. apply Permutation_map. symmetry. apply Permutation_middle.
Qed.

Lemma abs_none l f : abs_of l !! f = None <-> f ∉ map e_fid l.
Proof. unfold abs_of. rewrite <-pairs_fst. symmetry. apply not_elem_of_list_to_map. Qed.

Lemma abs_find t f : find t f = fids t !! f.
Proof.
  unfold fids, find. induction t as [|e t IH]; [done|]. cbn [first_slot live List.filter].
  unfold is_fid at 1. destruct (in_use e) eqn:Hu; cbn [andb]; [|done].
  change (abs_of (e :: List.filter in_use t)) with (<[e_fid e := e]> (abs_of (live t))).
  destruct (e_fid e =? f) eqn:E; bool_to_prop; subst.
  - by rewrite lookup_insert_eq.
  - by rewrite lookup_insert_ne.
Qed.

Lemma middle_fids l1 (e : fid_entry) l2 :
  map e_fid (l1 ++ e :: l2) ≡ₚ e_fid e :: map e_fid (l1 ++ l2).
Proof. rewrite !map_app. cbn. symmetry. apply Permutation_middle. Qed.

Lemma add_abs t f fd qp qt pa t' :
  0 <= fd -> NoDup (live_fids t) -> fids t !! f = None -> add t f fd qp qt pa = Some t' ->
  fids t' = <[f := mk_fid f fd qp qt (snprintf_s PATH_SIZE pa)]> (fids t) /\ NoDup (live_fids t').
Proof.
  intros Hfd Hnd Hf Ha. destruct (add_live _ _ _ _ _ _ _ Hfd Ha) as (l1 & l2 & Hl & Hl' & _).
  unfold live_fids, fids in *. rewrite Hl, Hl' in *. apply abs_none in Hf.
  set (e := mk_fid _ _ _ _ _) in *.
  assert (Hn : NoDup (map e_fid (l1 ++ e :: l2))) by (rewrite middle_fids; by constructor).
  split; [by apply abs_middle|done].
Qed.

Lemma remove_abs t f :
  NoDup (live_fids t) -> fids (remove t f) = delete f (fids t) /\ NoDup (live_fids (remove t f)).
Proof.
  intros Hnd. destruct (find t f) as [e|] eqn:E.
  - destruct (find_spec _ _ _ E) as (_ & He & _).
    destruct (remove_live _ _ _ E) as (l1 & l2 & Hl & Hl' & _).
    unfold live_fids, fids in *. rewrite Hl, Hl' in *. rewrite abs_middle by done.
    rewrite middle_fids in Hnd. apply NoDup_cons in Hnd as [Hin Hnd]. split; [|done].
    rewrite <-He, delete_insert_id; [done|]. by apply abs_none.
  - unfold remove. replace (update_first _ _ _) with t.
    + rewrite abs_find in E. by rewrite delete_id.
    + apply first_slot_none in E. induction E as [|x t Hx Hn IH]; [done|].
      cbn. rewrite Hx. f_equal. apply IH. revert Hnd. unfold live_fids, live. cbn.
      destruct (in_use x); [intros [_ ?]%NoDup_cons|]; done.
Qed.

Lemma replace_abs t f fd qp qt pa :
  0 <= fd -> NoDup (live_fids t) -> fids t !! f <> None ->
  fids (replace t f fd qp qt pa) = <[f := mk_fid f fd qp qt (snprintf_s PATH_SIZE pa)]> (fids t)
  /\ NoDup (live_fids (replace t f fd qp qt pa)).
Proof.
  intros Hfd Hnd Hf. rewrite <-abs_find in Hf. destruct (find t f) as [e|] eqn:E; [|done].
  destruct (find_spec _ _ _ E) as (_ & He & _).
  destruct (update_live t f e (fill_entry f fd qp qt pa) E) as (l1 & l2 & Hl & Hl');
    [by apply Z.leb_le|].
  unfold replace, live_fids, fids in *. rewrite Hl, Hl' in *.
  set (e' := fill_entry f fd qp qt pa e) in *.
  assert (Hn : NoDup (map e_fid (l1 ++ e' :: l2))).
  { rewrite middle_fids in *. cbn. by rewrite <-He. }
  split; [|done]. rewrite !abs_middle by done. cbn. rewrite He. by rewrite insert_insert_eq.
Qed.

Lemma fids_size t : NoDup (live_fids t) -> size (fids t) = length (live t).
Proof.
  intros H. unfold fids, abs_of. rewrite map_size_list_to_map by by rewrite pairs_fst.
  unfold pairs. apply length_map.
Qed.

Lemma full_table t :
  NoDup (live_fids t) -> first_slot free_slot t = None <-> size (fids t) = length t.
Proof.
  intros H. rewrite fids_size, first_slot_none by done. clear H.
  assert (Hle : forall t : list fid_entry, (length (live t) <= length t)%nat)
    by (intros u; apply List.filter_length_le).
  induction t as [|e t IH]; [done|]. rewrite Forall_cons, IH. cbn [live List.filter].
  destruct (in_use e) eqn:Hu; cbn [length].
  - assert (free_slot e = false).
    { apply not_true_iff_false. rewrite free_not_in_use. congruence. }
    split; [intros [_ Hl]; by f_equal|intros [= Hl]; by split].
  - assert (free_slot e = true) by by apply free_not_in_use. specialize (Hle t).
    fold (live t). split; [intros [? _]; congruence|lia].
Qed.

(** C26: the fid table of 64 slots refines a finite map from fids to entries,
    while the client uses each fid once: looking up is the map's lookup,
    fid_add of a new fid is insert and fails exactly when the map holds 64
    entries, fid_remove is delete and fid_replace of a fid in use is insert; the
    fids stay distinct. *)
Theorem fid_table_refines_map (t : list fid_entry) (f fd qp qt : Z) (pa : bytes) :
  length t = MAX_FID_MAP -> NoDup (live_fids t) -> 0 <= fd ->
  let e := mk_fid f fd qp qt (snprintf_s PATH_SIZE pa) in
  find t f = fids t !! f
  /\ (fids t !! f = None ->
      match add t f fd qp qt pa with
      | Some t' => (size (fids t) < 64)%nat /\ fids t' = <[f := e]> (fids t)
                   /\ NoDup (live_fids t') /\ length t' = MAX_FID_MAP
      | None => size (fids t) = 64%nat
      end)
  /\ (fids (remove t f) = delete f (fids t) /\ NoDup (live_fids (remove t f)))
  /\ (fids t !! f <> None -> fids (replace t f fd qp qt pa) = <[f := e]> (fids t)
      /\ NoDup (live_fids (replace t f fd qp qt pa))).
Proof.
  intros Hlen Hnd Hfd e. split; [apply abs_find|]. split; [|split; [by apply remove_abs|by apply replace_abs]].
  intros Hf. pose proof (full_table t Hnd) as Hfull. rewrite Hlen in Hfull.
  destruct (add t f fd qp qt pa) as [t'|] eqn:Ha.
  - destruct (add_abs _ _ _ _ _ _ _ Hfd Hnd Hf Ha) as [Habs Hnd'].
    destruct (add_live _ _ _ _ _ _ _ Hfd Ha) as (_ & _ & _ & _ & Hl).
    split; [|by rewrite Hl].
    assert (size (fids t) <= 64)%nat.
    { rewrite fids_size by done. change 64%nat with MAX_FID_MAP. rewrite <-Hlen.
      apply List.filter_length_le. }
    assert (size (fids t) <> 64%nat); [|lia]. intros Hs. apply Hfull in Hs.
    unfold add in Ha. by rewrite Hs in Ha.
  - apply Hfull. unfold add in Ha. by destruct (first_slot free_slot t).
Qed.

(** A fresh table, and one with fids 5 and 9. *)
Definition empty_table : list fid_entry := repeat (mk_fid 0 (-1) 0 0 []) MAX_FID_MAP.
Definition two_fids : list fid_entry :=
  [mk_fid 5 10 1 128 []; mk_fid 9 11 2 0 (str "a")] ++ repeat (mk_fid 0 (-1) 0 0 []) 62.

Lemma fid_table_refines_map_witness :
  length two_fids = MAX_FID_MAP /\ NoDup (live_fids two_fids)
  /\ (find two_fids 9 = fids two_fids !! 9 /\ find two_fids 9 <> None).
Proof.
  assert (NoDup (live_fids two_fids)) as Hnd.
  { change (NoDup [5; 9]). repeat constructor; set_solver. }
  split; [reflexivity|]. split; [exact Hnd|]. split; [|by vm_compute].
  exact (proj1 (fid_table_refines_map two_fids 9 12 3 0 [] eq_refl Hnd ltac:(lia))).
Defined.
End Plan9Thm.

Import StateM Wire Plan9 Plan9Thm.

Module Plan9FdsThm.

#[local] Arguments open_after : simpl never.
#[local] Arguments after_call : simpl never.
#[local] Arguments live : simpl never.
#[local] Arguments live_fds : simpl never.

(** What the C types and buffers of an entry promise. *)
Definition entry_ok (e : fid_entry) : Prop :=
  0 <= e_fid e < 2 ^ 32 /\ (e_qtype e = 0 \/ e_qtype e = P9_QID_DIR) /\ 0 <= e_qpath e < 2 ^ 64
  /\ (length (e_path e) < 512)%nat /\ no_nul (e_path e).

Record holds (L : list Z) (s : p9) : Prop := {
  h_length : length (g_fid_map s) = MAX_FID_MAP;
  h_count : g_fid_count s = Z.of_nat (length (live (g_fid_map s)));
  h_distinct : NoDup (L ++ live_fds (g_fid_map s));
  h_open : Forall (fun fd => fd ∈ open_after (calls s)) (L ++ live_fds (g_fid_map s));
  h_fds : Forall (fun fd => 0 <= fd) L;
  h_entries : Forall entry_ok (live (g_fid_map s));
  h_qpath : 0 <= g_next_qpath s < 2 ^ 64
}.

Lemma open_after_snoc h c : open_after (h ++ [c]) = after_call (open_after h) c.
Proof. unfold open_after. by rewrite fold_left_app. Qed.

Lemma holds_perm L L' s : L ≡ₚ L' -> holds L s -> holds L' s.
Proof. intros H [? ? ? ? ? ? ?]. split; try done; by rewrite <-H. Qed.

(** Descriptors that are forgotten stay open; nothing else changes. *)
Lemma holds_weaken x L s : holds (x :: L) s -> holds L s.
Proof.
  intros [? ? Hn Ho Hf ? ?]. cbn in *. apply NoDup_cons in Hn as [_ ?].
  apply Forall_cons in Ho as [_ ?], Hf as [_ ?]. by split.
Qed.

Lemma holds_log L s c :
  holds L s -> (forall fd, fd ∈ L ++ live_fds (g_fid_map s) -> fd ∈ open_after (calls s) ->
                 fd ∈ after_call (open_after (calls s)) c) ->
  holds L (s <| calls := calls s ++ [c] |>).
Proof.
  intros [? ? ? Ho ? ? ?] H. split; try done. cbn. rewrite open_after_snoc.
  rewrite Forall_forall in *. auto.
Qed.

(** [held r L]: the descriptors after a call that returned [r]. *)
Definition held (r : Z) (L : list Z) : list Z := if r <? 0 then L else r :: L.

Lemma holds_fresh L s c r :
  holds L s -> after_call (open_after (calls s)) c
    = (if 0 <=? r then r :: open_after (calls s) else open_after (calls s)) ->
  (0 <= r -> r ∉ open_after (calls s)) -> holds (held r L) (s <| calls := calls s ++ [c] |>).
Proof.
  intros H Hc Hr.
  assert (H' : holds L (s <| calls := calls s ++ [c] |>)).
  { apply holds_log; [done|]. intros fd _ Hin. rewrite Hc. destruct (0 <=? r); [by right|done]. }
  unfold held. destruct (r <? 0) eqn:E; bool_to_prop; [done|].
  destruct H as [? ? Hn Ho ? ? ?], H' as [? ? Hn' Ho' ? ? ?]. split; try done.
  - cbn. constructor; [|done]. intros Hin. rewrite Forall_forall in Ho. by apply Hr, Ho.
  - cbn. constructor; [|done]. rewrite open_after_snoc, Hc.
    replace (0 <=? r) with true by (symmetry; by apply Z.leb_le). by left.
  - by constructor.
Qed.

Lemma holds_close x L s : holds (x :: L) s -> holds L (s <| calls := calls s ++ [Closed x] |>).
Proof.
  intros H. apply holds_log; [by eapply holds_weaken|].
  intros fd Hin Ho. unfold after_call. destruct H as [_ _ Hn _ _ _ _]. cbn in Hn. apply NoDup_cons in Hn as [Hx _].
  apply list_elem_of_In, in_in_remove; [by intros ->|by apply list_elem_of_In].
Qed.

(** Replacing the table by one with the same descriptors, some of them moved
    from or to the handler. *)
Lemma holds_table L L' s t n :
  holds L s -> length t = MAX_FID_MAP -> n = Z.of_nat (length (live t)) ->
  L ++ live_fds (g_fid_map s) ≡ₚ L' ++ live_fds t -> Forall (fun fd => 0 <= fd) L' ->
  Forall entry_ok (live t) ->
  holds L' (s <| g_fid_map := t |> <| g_fid_count := n |>).
Proof.
  intros [? ? ? ? ? ? ?] Hl Hn Hp Hf He. split; try done; cbn; by rewrite <-Hp.
Qed.

Lemma name_no_nul n b : no_nul (to_cstr (take n b)).
Proof. apply to_cstr_no_nul. Qed.

Lemma no_nul_app a b : no_nul a -> no_nul b -> no_nul (a ++ b).
Proof. apply Forall_app_2. Qed.

Lemma snprintf_path_ok s :
  no_nul s -> (length (snprintf_s PATH_SIZE s) < 512)%nat /\ no_nul (snprintf_s PATH_SIZE s).
Proof.
  intros H. split; [|by apply snprintf_s_forall].
  pose proof (snprintf_s_length PATH_SIZE s ltac:(unfold PATH_SIZE; lia)).
  unfold PATH_SIZE in *. lia.
Qed.

Lemma parent_path_no_nul p n : no_nul p -> no_nul n -> no_nul (parent_path p n).
Proof.
  intros Hp Hn. unfold parent_path. case_if; apply snprintf_s_forall; [done|].
  apply no_nul_app; [done|]. by constructor.
Qed.

(** An entry as the handlers make it. *)
Lemma filled_ok f fd qp qt pa :
  0 <= f < 2 ^ 32 -> qt = 0 \/ qt = P9_QID_DIR -> 0 <= qp < 2 ^ 64 -> no_nul pa ->
  entry_ok (mk_fid f fd qp qt (snprintf_s PATH_SIZE pa)).
Proof. intros. repeat (split; [done|]). by apply snprintf_path_ok. Qed.

Lemma live_fds_middle l1 (e : fid_entry) l2 :
  map e_fd (l1 ++ e :: l2) ≡ₚ e_fd e :: map e_fd (l1 ++ l2).
Proof. rewrite !map_app. cbn. symmetry. apply Permutation_middle. Qed.

Lemma found_entry L s f e : holds L s -> find (g_fid_map s) f = Some e -> entry_ok e.
Proof.
  intros H E. apply find_spec in E as (Hin & _ & _). destruct H as [_ _ _ _ _ He _].
  rewrite Forall_forall in He. by apply He.
Qed.

(** * Rules *)
Section Rules.
Context (k_dup : list sys_call -> Z -> Z).
Context (k_openat : list sys_call -> option Z -> bytes -> Z -> Z -> Z).
(** The kernel hands out descriptors that are not open. *)
Hypothesis dup_fresh : forall h d, 0 <= k_dup h d -> k_dup h d ∉ open_after h.
Hypothesis openat_fresh : forall h d p fl m,
  0 <= k_openat h d p fl m -> k_openat h d p fl m ∉ open_after h.

Lemma rule_dup L fd : triple (holds L) (dup k_dup fd) (fun r => holds (held r L)).
Proof.
  intros s H. cbn. apply holds_fresh; [done|done|]. intros Hr. by apply dup_fresh.
Qed.

Lemma rule_openat L d p fl m :
  triple (holds L) (openat k_openat d p fl m) (fun r => holds (held r L)).
Proof.
  intros s H. cbn. apply holds_fresh; [done|done|]. intros Hr. by apply openat_fresh.
Qed.

Lemma rule_close x L : triple (holds (x :: L)) (close x) (fun _ => holds L).
Proof. intros s H. by apply holds_close. Qed.

Lemma rule_next_qpath L :
  triple (holds L) fid_next_qpath (fun q s => 0 <= q < 2 ^ 64 /\ holds L s).
Proof.
  intros s [? ? ? ? ? ? ?]. split; [done|]. split; try done. cbn. unfold u64.
  by apply Z.mod_pos_bound.
Qed.

Lemma rule_find L f :
  triple (holds L) (fid_find f) (fun o s => (forall e, o = Some e -> entry_ok e) /\ holds L s).
Proof. intros s H. split; [|done]. intros e He. by eapply found_entry. Qed.

Lemma rule_gets {A} L (f : p9 -> A) : triple (holds L) (gets f) (fun _ => holds L).
Proof. by apply triple_gets. Qed.

Lemma rule_add L f fd qp qt pa :
  0 <= f < 2 ^ 32 -> qt = 0 \/ qt = P9_QID_DIR -> 0 <= qp < 2 ^ 64 -> no_nul pa ->
  triple (holds (fd :: L)) (fid_add f fd qp qt pa)
         (fun ok => holds (if ok : bool then L else fd :: L)).
Proof.
  intros Hf Hqt Hqp Hpa s H. unfold fid_add.
  destruct (add _ _ _ _ _ _) as [t|] eqn:E; [|done].
  assert (Hfd : 0 <= fd) by (destruct H as [_ _ _ _ Hfds _ _]; by apply Forall_cons in Hfds as [? _]).
  destruct (add_live _ _ _ _ _ _ _ Hfd E) as (l1 & l2 & Hl & Hl' & Hlen).
  pose proof H as [H1 H2 H3 H4 H5 H6 H7]. rewrite Hl in H6. apply Forall_app in H6 as [? ?].
  apply (holds_table (fd :: L)); [done| | | | |].
  - congruence.
  - rewrite H2, Hl, Hl', !length_app. cbn [length]. lia.
  - unfold live_fds. rewrite Hl, Hl', live_fds_middle. cbn. apply Permutation_middle.
  - by apply Forall_cons in H5 as [_ ?].
  - rewrite Hl'. apply Forall_app. split; [done|]. constructor; [by apply filled_ok|done].
Qed.

(** The descriptor of an entry is closed while its slot is cleared or gets the
    descriptor [fd] of the handler. *)
Lemma rule_remove L f : triple (holds L) (fid_remove f) (fun _ => holds L).
Proof.
  intros s H. unfold fid_remove, fid_find, mbind, M_bind, gets.
  destruct (find (g_fid_map s) f) as [e|] eqn:E; [|done].
  destruct (remove_live _ _ _ E) as (l1 & l2 & Hl & Hl' & _).
  pose proof H as [H1 H2 H3 H4 H5 H6 H7]. rewrite Hl in H6. apply Forall_app in H6 as [? He].
  apply Forall_cons in He as [? ?]. apply find_spec in E as (_ & _ & Hfd).
  assert (Hm : holds (e_fd e :: L) (s <| g_fid_map := remove (g_fid_map s) f |>
                                      <| g_fid_count := g_fid_count s - 1 |>)).
  { apply (holds_table L); [done| | | | |].
    - unfold remove. by rewrite update_first_length.
    - rewrite H2, Hl, Hl', !length_app. cbn [length]. lia.
    - unfold live_fds. rewrite Hl, Hl', live_fds_middle. cbn. symmetry. apply Permutation_middle.
    - by constructor.
    - rewrite Hl'. by apply Forall_app. }
  apply holds_close in Hm. exact Hm.
Qed.

Lemma holds_swap L s f fd e g :
  holds (fd :: L) s -> find (g_fid_map s) f = Some e ->
  entry_ok (g e) -> e_fd (g e) = fd -> 
  holds L (s <| calls := calls s ++ [Closed (e_fd e)] |>
             <| g_fid_map := update_first (is_fid f) g (g_fid_map s) |>).
Proof.
  intros H E Hok Hg.
  pose proof H as [H1 H2 H3 H4 H5 H6 H7]. apply Forall_cons in H5 as [Hfd H5].
  destruct (update_live _ _ _ g E) as (l1 & l2 & Hl & Hl'); [apply Z.leb_le; by rewrite Hg|].
  rewrite Hl in H6. apply Forall_app in H6 as [? He]. apply Forall_cons in He as [? ?].
  apply find_spec in E as (_ & _ & Hfde).
  assert (Hm : holds (e_fd e :: L) (s <| g_fid_map := update_first (is_fid f) g (g_fid_map s) |>
                                      <| g_fid_count := g_fid_count s |>)).
  { apply (holds_table (fd :: L)); [done| | | | |].
    - by rewrite update_first_length.
    - rewrite H2, Hl, Hl', !length_app. done.
    - unfold live_fds. rewrite Hl, Hl', !live_fds_middle, Hg. cbn.
      rewrite <-!Permutation_middle. apply Permutation_swap.
    - by constructor.
    - rewrite Hl'. apply Forall_app. split; [done|]. by constructor. }
  apply holds_close in Hm. exact Hm.
Qed.

Lemma rule_replace L f fd qp qt pa :
  0 <= f < 2 ^ 32 -> qt = 0 \/ qt = P9_QID_DIR -> 0 <= qp < 2 ^ 64 -> no_nul pa ->
  triple (holds (fd :: L)) (fid_replace f fd qp qt pa)
         (fun ok => holds (if ok : bool then L else fd :: L)).
Proof.
  intros Hf Hqt Hqp Hpa s H. unfold fid_replace, fid_find, mbind, M_bind, gets.
  destruct (find (g_fid_map s) f) as [e|] eqn:E; [|done].
  exact (holds_swap L s f fd e (fill_entry f fd qp qt pa) H E
           (filled_ok f fd qp qt pa Hf Hqt Hqp Hpa) eq_refl).
Qed.
End Rules.

Lemma field_bound body need n off : bytes_ok body -> 0 <= field body need n off < 256 ^ Z.of_nat n.
Proof.
  intros H. unfold field. case_if; [by apply get_le_bound|].
  split; [lia|]. apply Z.pow_pos_nonneg; lia.
Qed.

Lemma field32 body need off : bytes_ok body -> 0 <= field body need 4 off < 2 ^ 32.
Proof. apply field_bound. Qed.

#[export] Hint Resolve field32 name_no_nul parent_path_no_nul : wsl.

(** * The handlers: each returns what it holds *)
Section Handlers.
Context (k_dup : list sys_call -> Z -> Z).
Context (k_openat : list sys_call -> option Z -> bytes -> Z -> Z -> Z).
Context (k_fstat : list sys_call -> Z -> option stat).
Context (k_readdir : list sys_call -> Z -> option (list dirent)).
Context (k_pread : list sys_call -> Z -> Z -> Z -> option bytes).
Context (k_pwrite : list sys_call -> Z -> bytes -> Z -> Z).
Context (k_rmdir k_unlink : list sys_call -> bytes -> bool).
Context (k_malloc : list sys_call -> Z -> bool).
Context (k_write : list sys_call -> bytes -> bytes -> list sock_event).
Hypothesis dup_fresh : forall h d, 0 <= k_dup h d -> k_dup h d ∉ open_after h.
Hypothesis openat_fresh : forall h d p fl m,
  0 <= k_openat h d p fl m -> k_openat h d p fl m ∉ open_after h.

(** The descriptors of the caller. *)
Context (F : list Z).

Abbreviation returns m := (triple (holds F) m (fun _ => holds F)).

(** Follow the handler's text. *)
Ltac own_bind :=
  match goal with
  | |- triple _ (dup _ _ ≫= _) _ => eapply triple_bind; [by apply rule_dup|]
  | |- triple _ (openat _ _ _ _ _ ≫= _) _ => eapply triple_bind; [by apply rule_openat|]
  | |- triple _ (fid_find _ ≫= _) _ => eapply triple_bind; [apply rule_find|]
  | |- triple _ (fid_next_qpath ≫= _) _ => eapply triple_bind; [apply rule_next_qpath|]
  | |- triple _ (gets _ ≫= _) _ => eapply triple_bind; [apply rule_gets|]
  | |- triple _ (malloc _ _ ≫= _) _ => eapply triple_bind; [apply rule_gets|]
  | |- triple _ (close _ ≫= _) _ => eapply triple_bind; [apply rule_close|]
  | |- triple _ (fid_remove _ ≫= _) _ => eapply triple_bind; [apply rule_remove|]
  end; intros ?; cbv beta.
Ltac own_step :=
  match goal with
  | |- triple _ (mret _) _ => apply triple_ret; cbv beta; auto
  | |- triple _ (fail _) _ => apply triple_ret; cbv beta; auto
  | |- triple (fun s => _ /\ _) _ _ => apply triple_pre; intros
  | |- triple (holds (held ?r _)) (if ?r <? 0 then _ else _) _ => unfold held; destruct (r <? 0)
  | |- triple _ (match ?x with _ => _ end) _ => destruct x
  | |- _ => own_bind
  end.
Ltac own := repeat own_step.

Lemma own_tversion body : returns (handle_tversion body).
Proof. unfold handle_tversion. own. Qed.

Lemma own_tattach body : bytes_ok body -> returns (handle_tattach k_dup body).
Proof.
  intros Hb. unfold handle_tattach. own.
  eapply triple_bind; [apply rule_add; auto with wsl; [lia|constructor]|]. intros []; cbv beta; own.
Qed.

Lemma own_tstat body : returns (handle_tstat k_fstat body).
Proof. unfold handle_tstat. own. Qed.

Lemma own_clone fid newfid :
  0 <= newfid < 2 ^ 32 -> returns (clone_fid k_dup fid newfid).
Proof.
  intros Hb. unfold clone_fid. own. destruct (H _ eq_refl) as (? & ? & ? & _ & ?).
  eapply triple_bind; [apply rule_add; auto with wsl|]. intros []; cbv beta; own.
Qed.

(** The type of a qid is one of the two. *)
Lemma own_component L dir name :
  triple (holds L) (open_component k_openat dir name)
    (fun r s => (snd r = 0 \/ snd r = P9_QID_DIR) /\ holds (held (fst r) L) s).
Proof.
  unfold open_component. own_bind. unfold held. destruct (x <? 0) eqn:E.
  - eapply triple_bind; [by apply rule_openat|]. intros f. cbv beta. apply triple_ret. intros s H. auto.
  - apply triple_ret. intros s H. cbn. rewrite E. auto.
Qed.

Lemma holds_forget L s : holds (L ++ F) s -> holds F s.
Proof. induction L as [|x L IH]; intros H; [done|]. apply IH. by eapply holds_weaken. Qed.

(** The descriptor the walk is at, when it is not the fid's own. *)
Definition walk_held (parent_fd cur_fd : Z) : list Z :=
  if cur_fd =? parent_fd then [] else [cur_fd].

Lemma own_walk_step parent_fd cur_fd next :
  triple (holds (next :: walk_held parent_fd cur_fd ++ F))
    (when (negb (cur_fd =? parent_fd)) (close cur_fd)) (fun _ => holds (walk_held parent_fd next ++ F)).
Proof.
  assert (Hn : forall s, holds (next :: F) s -> holds (walk_held parent_fd next ++ F) s).
  { intros s H. unfold walk_held. case_if; [by eapply holds_weaken|done]. }
  unfold walk_held at 1. destruct (cur_fd =? parent_fd); cbn [negb when].
  - by apply triple_skip.
  - intros s H. apply Hn, holds_close. eapply holds_perm; [|exact H]. apply Permutation_swap.
Qed.

Lemma own_walk_loop body newfid parent_fd left pos cur_fd cur_path qids :
  0 <= newfid < 2 ^ 32 -> no_nul cur_path ->
  triple (holds (walk_held parent_fd cur_fd ++ F))
    (walk_loop k_openat body newfid parent_fd left pos cur_fd cur_path qids) (fun _ => holds F).
Proof.
  intros Hf. revert pos cur_fd cur_path qids.
  assert (Hret : forall L (x : option (list bytes)), F `suffix_of` L ->
    triple (holds L) (mret x) (fun _ => holds F)).
  { intros L x [L' ->]. apply triple_ret. apply holds_forget. }
  pose proof (suffix_cons_r (A := Z)) as Hc. pose proof (suffix_app_r (A := Z)) as Ha.
  induction left as [|left IH]; intros pos cur_fd cur_path qids Hp; cbn [walk_loop]; [auto|].
  do 3 (case_match; [by auto|]).
  eapply triple_bind; [apply own_component|]. intros [next qt]. apply triple_pre. cbn [fst snd].
  intros Hqt. unfold held. destruct (next <? 0) eqn:E; [by auto|].
  own_bind. apply triple_pre. intros Hq. case_match; [by auto|].
  destruct left as [|left].
  - eapply triple_bind; [apply rule_add; auto with wsl|]. intros []; cbv beta; [by auto|].
    own_bind. auto.
  - eapply triple_bind; [apply own_walk_step|]. intros u. cbv beta. apply IH. auto with wsl.
Qed.

Lemma own_twalk body : bytes_ok body -> returns (handle_twalk k_dup k_openat body).
Proof.
  intros Hb. unfold handle_twalk. case_match; [apply own_clone; auto with wsl|].
  own. destruct (H0 _ eq_refl) as (_ & _ & _ & _ & Hpath).
  apply (triple_bind _ _ (fun _ => holds F)); [|intros o; cbv beta; own].
  eapply triple_conseq; [apply (own_walk_loop _ _ (e_fd f) _ _ (e_fd f)); auto with wsl| |done].
  intros s H1. unfold walk_held. by rewrite Z.eqb_refl.
Qed.

Lemma own_tclunk body : returns (handle_tclunk body).
Proof. unfold handle_tclunk. own. Qed.

(** The entry is still the one found: openat does not touch the table. *)
Lemma own_tlopen body : returns (handle_tlopen k_openat body).
Proof.
  intros s H. unfold handle_tlopen, mbind, M_bind, fid_find, gets.
  destruct (find (g_fid_map s) (field body 8 4 0)) as [e|] eqn:E; [|exact H].
  destruct (is_dir e); [exact H|].
  set (path := full_path _ _). set (flags := Z.lor _ _).
  set (r := k_openat (calls s) None path flags 0).
  assert (H' : holds (held r F) (s <| calls := calls s ++ [Opened None path flags 0 r] |>))
    by exact (rule_openat k_openat openat_fresh F None path flags 0 s H).
  change (let '(_, s') := (if r <? 0 then fail (str "open failed") else
     close (e_fd e);; reopen_fid (field body 8 4 0) r;; mret (open_reply P9_RLOPEN 0 (e_qpath e)))
       (s <| calls := calls s ++ [Opened None path flags 0 r] |>) in holds F s').
  unfold held in H'. destruct (r <? 0); [exact H'|].
  apply (holds_swap F _ (field body 8 4 0) r e (fun x => x <| e_fd := r |>) H' E);
    [exact (found_entry _ _ _ _ H E)|reflexivity].
Qed.

Lemma own_create fid parent name flags mode :
  0 <= fid < 2 ^ 32 -> entry_ok parent -> no_nul name ->
  returns (create_file k_openat fid parent name flags mode).
Proof.
  intros Hf (_ & _ & _ & _ & Hp) Hn. unfold create_file. own.
  eapply triple_bind; [apply rule_replace; auto with wsl|]. intros replaced. cbv beta.
  eapply (triple_bind _ _ (fun ok => holds (if ok : bool then F else x :: F))).
  - destruct replaced; [by apply triple_ret|apply rule_add; auto with wsl].
  - intros []; own.
Qed.

Lemma own_tlcreate body : bytes_ok body -> returns (handle_tlcreate k_openat body).
Proof.
  intros Hb. unfold handle_tlcreate.
  destruct (tlcreate_name body) as [n| |] eqn:En; [|own|own].
  own. apply own_create; auto with wsl. revert En. unfold tlcreate_name.
  repeat case_match; try done. intros [= <-]. auto with wsl.
Qed.

Lemma own_pack L des count data_len idx :
  triple (holds L) (pack_entries des count data_len idx) (fun _ => holds L).
Proof.
  revert data_len idx; induction des as [|d des IH]; intros data_len idx; cbn [pack_entries]; [own|].
  case_match; [own|]. case_match; [apply IH|]. own_bind. apply triple_pre. intros _.
  case_match; [own|]. eapply triple_bind; [apply IH|]. intros rest. cbv beta. own.
Qed.

Lemma own_rread data : returns (rread k_malloc data).
Proof. unfold rread. own. Qed.

(** When fdopendir fails the copy is forgotten. *)
Lemma own_read_dir e offset count : returns (read_dir k_dup k_readdir k_malloc e offset count).
Proof.
  unfold read_dir. own_bind. rename x into copy.
  apply (triple_bind _ _ (fun o s => (copy <? 0 = true -> o = None) /\ holds (held copy F) s)).
  { apply triple_gets. intros s H. split; [by intros ->|done]. }
  intros [des|]; apply triple_pre; intros Hn.
  - unfold held. destruct (copy <? 0); [by specialize (Hn eq_refl)|].
    own_bind. destruct x; [|own].
    apply (triple_bind _ _ (fun _ => holds (copy :: F))).
    + apply own_pack.
    + intros data. cbv beta. own. apply own_rread.
  - apply triple_ret. intros s H. unfold held in H. destruct (copy <? 0); [done|].
    by eapply holds_weaken.
Qed.

Lemma own_tread body : returns (handle_tread k_dup k_readdir k_pread k_malloc body).
Proof.
  unfold handle_tread. own_bind. apply triple_pre. intros _. destruct x as [e|]; [|own].
  destruct (is_dir e); [apply own_read_dir|]. unfold read_file. own. apply own_rread.
Qed.

Lemma own_twrite body : returns (handle_twrite k_pwrite body).
Proof.
  unfold handle_twrite. own. apply (triple_bind _ _ (fun _ => holds F)); [|intros n; cbv beta; own].
  intros s Hs. cbn. by apply holds_log.
Qed.

Lemma own_tremove body : returns (handle_tremove k_rmdir k_unlink body).
Proof.
  unfold handle_tremove. own_bind. apply triple_pre. intros _. destruct x as [e|]; [|own].
  own_bind. apply (triple_bind _ _ (fun _ => holds F)).
  - destruct (is_dir e); intros s H; cbn; by apply holds_log.
  - intros u. cbv beta. own.
Qed.

Lemma own_dispatch t body : bytes_ok body ->
  returns (dispatch k_dup k_openat k_fstat k_readdir k_pread k_pwrite k_rmdir k_unlink k_malloc t body).
Proof.
  intros Hb. pose proof own_tversion. pose proof own_tattach. pose proof own_tstat.
  pose proof own_twalk. pose proof own_tclunk. pose proof own_tlopen. pose proof own_tlcreate.
  pose proof own_tread. pose proof own_twrite. pose proof own_tremove.
  unfold dispatch. repeat (case_match; [by auto|]). own.
Qed.

(** Sending changes only what was sent. *)
Lemma own_write b : triple (holds F) (p9_write k_write b) (fun _ => holds F).
Proof. intros s [? ? ? ? ? ? ?]. by split. Qed.

Lemma own_write_seq bufs : triple (holds F) (write_seq k_write bufs) (fun _ => holds F).
Proof.
  induction bufs as [|b bufs IH]; cbn [write_seq]; [own|].
  eapply triple_bind; [apply own_write|]. intros rc. cbv beta. repeat case_match; auto; own.
Qed.

Abbreviation request :=
  (p9_handle_request k_dup k_openat k_fstat k_readdir k_pread k_pwrite k_rmdir k_unlink k_malloc k_write).

Lemma own_answer rest : bytes_ok rest ->
  returns (p9_answer k_dup k_openat k_fstat k_readdir k_pread k_pwrite k_rmdir k_unlink k_malloc
             k_write rest).
Proof.
  intros Hb. unfold p9_answer. eapply triple_bind.
  { apply own_dispatch. by apply Forall_drop. }
  intros o. cbv beta. destruct o; [|own|own].
  eapply triple_bind; [apply own_write_seq|]. intros rc. cbv beta. own.
Qed.

(** What a read leaves are the bytes of the stream. *)
Lemma p9_read_split c n :
  exists k, rx_stream (snd (p9_read c n)) = drop k (rx_stream c)
    /\ (forall d, fst (p9_read c n) = inr d ->
         d = take n (rx_stream c) /\ k = n /\ (n <= length (rx_stream c))%nat).
Proof.
  unfold p9_read, p9_readn.
  destruct (recv_loop_data retry_intr (rx_events c) (rx_stream c) n []) as (k & Hd & Hs & H0 & _).
  destruct (recv_loop _ _ _ _ _) as [x str']. cbn in *. exists k. split; [done|]. intros d.
  destruct (x_rc x) as [[| |]|] eqn:E; try done. intros [= <-]. destruct (H0 eq_refl) as [-> ?].
  by rewrite Hd.
Qed.

Lemma own_request c : bytes_ok (rx_stream c) ->
  triple (holds F) (request c) (fun r s => bytes_ok (rx_stream (snd r)) /\ holds F s).
Proof.
  intros Hc. unfold p9_handle_request.
  pose proof (p9_read_split c 4) as (k1 & Hs1 & _). destruct (p9_read c 4) as [[e|size] c1].
  { apply triple_ret. cbn in *. intros s H. split; [rewrite Hs1; by apply Forall_drop|done]. }
  cbn [snd] in Hs1. assert (Hc1 : bytes_ok (rx_stream c1)) by (rewrite Hs1; by apply Forall_drop).
  case_match; [by apply triple_ret|]. own_bind. destruct x; [|by apply triple_ret].
  pose proof (p9_read_split c1 (Z.to_nat (get32 0 size - 4))) as (k2 & Hs2 & Hr).
  destruct (p9_read c1 _) as [[e|rest] c2]; cbn [fst snd] in *;
    assert (Hc2 : bytes_ok (rx_stream c2)) by (rewrite Hs2; by apply Forall_drop).
  - by apply triple_ret.
  - destruct (Hr _ eq_refl) as [-> _]. eapply triple_bind; [apply own_answer; by apply Forall_take|].
    intros e. by apply triple_ret.
Qed.

Lemma own_serve fuel c : bytes_ok (rx_stream c) ->
  triple (holds F) (serve_loop k_dup k_openat k_fstat k_readdir k_pread k_pwrite k_rmdir k_unlink
    k_malloc k_write fuel c) (fun _ => holds F).
Proof.
  revert c; induction fuel as [|fuel IH]; intros c Hc; cbn [serve_loop]; [own|].
  eapply triple_bind; [by apply own_request|]. intros [e c']. apply triple_pre. intros Hc'.
  destruct e; [by apply IH|own|own|own].
Qed.
End Handlers.

(** * The child *)
Section Child.
Context (k_dup : list sys_call -> Z -> Z).
Context (k_openat : list sys_call -> option Z -> bytes -> Z -> Z -> Z).
Context (k_fstat : list sys_call -> Z -> option stat).
Context (k_readdir : list sys_call -> Z -> option (list dirent)).
Context (k_pread : list sys_call -> Z -> Z -> Z -> option bytes).
Context (k_pwrite : list sys_call -> Z -> bytes -> Z -> Z).
Context (k_rmdir k_unlink : list sys_call -> bytes -> bool).
Context (k_malloc : list sys_call -> Z -> bool).
Context (k_write : list sys_call -> bytes -> bytes -> list sock_event).
Context (k_accept : list sys_call -> Z).

(** The kernel hands out descriptors that are not open; accept, when it
    succeeds, a valid one. *)
Definition fresh_kernel : Prop :=
  (forall h d, 0 <= k_dup h d -> k_dup h d ∉ open_after h)
  /\ (forall h d p fl m, 0 <= k_openat h d p fl m -> k_openat h d p fl m ∉ open_after h)
  /\ (forall h, 0 <= k_accept h /\ k_accept h ∉ open_after h).
Hypothesis fresh : fresh_kernel.

Definition sends_bytes (e : accepted) : Prop :=
  match e with Client c => bytes_ok (rx_stream c) | _ => True end.

Abbreviation accepts := (accept_loop k_dup k_openat k_fstat k_readdir k_pread k_pwrite k_rmdir
  k_unlink k_malloc k_write k_accept).
Abbreviation child := (plan9_child_run k_dup k_openat k_fstat k_readdir k_pread k_pwrite k_rmdir
  k_unlink k_malloc k_write k_accept).

Lemma own_accepts F evs :
  Forall sends_bytes evs -> triple (holds F) (accepts evs) (fun _ => holds F).
Proof.
  destruct fresh as (Hd & Ho & Ha).
  induction 1 as [|e evs He Hevs IH]; cbn [accept_loop]; [by apply triple_ret|].
  destruct e as [c| |]; [|done|by apply triple_ret].
  intros s H. set (fd := k_accept (calls s)).
  assert (H1 : holds (fd :: F) (s <| calls := calls s ++ [Accepted fd] |>)).
  { destruct (Ha (calls s)) as [Hge Hin]. fold fd in Hge, Hin.
    pose proof (holds_fresh F s (Accepted fd) fd H eq_refl (fun _ => Hin)) as H1.
    unfold held in H1. replace (fd <? 0) with false in H1 by (symmetry; by apply Z.ltb_ge). done. }
  pose proof (own_serve k_dup k_openat k_fstat k_readdir k_pread k_pwrite k_rmdir k_unlink k_malloc
    k_write Hd Ho (fd :: F) (S (length (rx_stream c))) c He _ H1) as H2.
  unfold serve, mbind, M_bind, gets, log, modify. cbn [calls] in *. fold fd.
  destruct (serve_loop _ _ _ _ _ _ _ _ _ _ _ _ _) as [[e c'] s2].
  destruct e; try (by eapply holds_weaken). apply holds_close in H2. apply IH in H2. exact H2.
Qed.

Lemma live_init t : live (init_fid_map t) = [].
Proof. induction t as [|e t IH]; [done|]. cbn. exact IH. Qed.

Lemma own_child control_fd evs s rc s' :
  length (g_fid_map s) = MAX_FID_MAP -> 0 <= control_fd -> control_fd ∈ open_after (calls s) ->
  Forall sends_bytes evs -> child control_fd evs s = (rc, s') -> exists F, holds F s'
    /\ (rc <> Some 1 -> exists root, F = [root]).
Proof.
  destruct fresh as (Hd & Ho & Ha). intros Hl Hge Hin Hb E.
  set (s1 := s <| g_fid_map := init_fid_map (g_fid_map s) |> <| g_fid_count := 0 |>
               <| g_next_qpath := 2 |>).
  assert (H1 : holds [control_fd] s1).
  { split; cbn; rewrite ?live_init; unfold live_fds; rewrite ?live_init; cbn; try done; try lia.
    - unfold init_fid_map. by rewrite length_map.
    - repeat constructor; set_solver.
    - by repeat constructor.
    - by repeat constructor. }
  set (p := g_root_path s1). set (fl := flag_or [O_DIRECTORY; O_CLOEXEC]).
  set (r := k_openat (calls s1) None p fl 0).
  set (s2 := s1 <| calls := calls s1 ++ [Opened None p fl 0 r] |> <| g_rootfd := r |>).
  assert (H2 : holds (held r [control_fd]) s2).
  { destruct (rule_openat k_openat Ho [control_fd] None p fl 0 s1 H1). by split. }
  change (child control_fd evs s) with ((if r <? 0 then mret (Some 1) else
    close control_fd;; accepts evs) s2) in E.
  unfold held in H2. destruct (r <? 0).
  - injection E as <- <-. exists [control_fd]. done.
  - exists [r]. split; [|by exists r].
    apply (holds_perm _ [control_fd; r]) in H2; [|apply Permutation_swap].
    apply holds_close, (own_accepts [r] evs Hb) in H2.
    change ((close control_fd;; accepts evs) s2)
      with (accepts evs (s2 <| calls := calls s2 ++ [Closed control_fd] |>)) in E.
    by rewrite E in H2.
Qed.
End Child.

(** C24: descriptors of the 9P server.  Whatever clients send and whatever the
    file system answers, once the child accepts clients the descriptor of its
    root and those of the fids in use are open, and no two of them are the same:
    no request closes a descriptor that another fid still has. *)
Theorem fid_descriptors_owned k_dup k_openat k_fstat k_readdir k_pread k_pwrite k_rmdir k_unlink
    k_malloc k_write k_accept control_fd evs s rc s' :
  fresh_kernel k_dup k_openat k_accept ->
  length (g_fid_map s) = MAX_FID_MAP -> 0 <= control_fd -> control_fd ∈ open_after (calls s) ->
  Forall sends_bytes evs ->
  plan9_child_run k_dup k_openat k_fstat k_readdir k_pread k_pwrite k_rmdir k_unlink k_malloc
    k_write k_accept control_fd evs s = (rc, s') -> rc <> Some 1 ->
  exists root, NoDup (root :: live_fds (g_fid_map s'))
    /\ Forall (fun fd => fd ∈ open_after (calls s')) (root :: live_fds (g_fid_map s')).
Proof.
  intros Hk Hl Hge Hin Hb E Hrc.
  destruct (own_child _ _ _ _ _ _ _ _ _ _ _ Hk _ _ _ _ _ Hl Hge Hin Hb E) as (F & H & Hroot).
  destruct (Hroot Hrc) as [root ->]. exists root. by destruct H.
Qed.

(** C25: the types of the fid table: after any sequence of clients every entry in
    use has a 32-bit fid, a qid type that is file or directory, a 64-bit qid path
    and a NUL-free path that fits its 512 bytes; the table has its 64 slots, and
    g_fid_count is the number of slots in use. *)
Theorem fid_entries_typed k_dup k_openat k_fstat k_readdir k_pread k_pwrite k_rmdir k_unlink
    k_malloc k_write k_accept control_fd evs s rc s' :
  fresh_kernel k_dup k_openat k_accept ->
  length (g_fid_map s) = MAX_FID_MAP -> 0 <= control_fd -> control_fd ∈ open_after (calls s) ->
  Forall sends_bytes evs ->
  plan9_child_run k_dup k_openat k_fstat k_readdir k_pread k_pwrite k_rmdir k_unlink k_malloc
    k_write k_accept control_fd evs s = (rc, s') ->
  Forall entry_ok (live (g_fid_map s')) /\ length (g_fid_map s') = MAX_FID_MAP
  /\ g_fid_count s' = Z.of_nat (length (live (g_fid_map s'))) /\ 0 <= g_fid_count s' <= 64
  /\ 0 <= g_next_qpath s' < 2 ^ 64.
Proof.
  intros Hk Hl Hge Hin Hb E.
  destruct (own_child _ _ _ _ _ _ _ _ _ _ _ Hk _ _ _ _ _ Hl Hge Hin Hb E) as (F & H & _).
  destruct H as [H1 H2 _ _ _ H6 H7]. split; [done|]. split; [done|]. split; [done|]. split; [|done].
  assert (length (live (g_fid_map s')) <= length (g_fid_map s'))%nat
    by apply List.filter_length_le.
  rewrite H1 in *. unfold MAX_FID_MAP in *. lia.
Qed.

(** ** A concrete kernel and a client *)

(** The lowest number above the open descriptors and 2. *)
Definition next_fd (h : list sys_call) : Z := 1 + fold_right Z.max 2 (open_after h).

Lemma next_fd_fresh h : next_fd h ∉ open_after h.
Proof.
  unfold next_fd. intros Hin.
  assert (Hmax : forall l x, x ∈ l -> x <= fold_right Z.max 2 l).
  { intros l x. induction 1; cbn; lia. }
  specialize (Hmax _ _ Hin). lia.
Qed.

(** Everything but "gone" can be opened; "dir" is a directory. *)
Definition ex_open (h : list sys_call) (_ : option Z) (path : bytes) (flags _ : Z) : Z :=
  if strcmp_eq path (str "gone") then -1
  else if (flags =? flag_or [O_DIRECTORY; O_NOFOLLOW; O_CLOEXEC]) && negb (strcmp_eq path (str "dir"))
  then -1 else next_fd h.
Definition ex_dirents : list dirent :=
  [mk_dirent 4 (str "."); mk_dirent 4 (str ".."); mk_dirent 4 (str "dir"); mk_dirent 8 (str "file")].
Definition ex_write (_ : list sys_call) (_ buf : bytes) : list sock_event :=
  repeat (Progress 600) (length buf).

Abbreviation ex_child := (plan9_child_run (fun h _ => next_fd h) ex_open
  (fun _ _ => Some (mk_stat 16877 5 100 200 4096)) (fun _ _ => Some ex_dirents)
  (fun _ _ _ _ => Some (str "hello")) (fun _ _ d _ => Z.of_nat (length d))
  (fun _ _ => true) (fun _ _ => true) (fun _ _ => true) ex_write next_fd).

Definition tmsg (type tag : Z) (body : bytes) : bytes :=
  p9_put32 (7 + Z.of_nat (length body)) ++ [type] ++ p9_put16 tag ++ body.
(** Attach fid 0, walk to dir/file as fid 1, open it, clunk fid 0. *)
Definition ex_session : bytes :=
  tmsg P9_TATTACH 1 (p9_put32 0)
  ++ tmsg P9_TWALK 2 (p9_put32 0 ++ p9_put32 1 ++ p9_put16 2
                      ++ p9_put_string (str "dir") ++ p9_put_string (str "file"))
  ++ tmsg P9_TLOPEN 3 (p9_put32 1 ++ p9_put32 0)
  ++ tmsg P9_TCLUNK 4 (p9_put32 0).
Definition ex_client : accepted := Client (mk_conn (repeat (Progress 600) 20) ex_session).
Definition ex_start : p9 := mk_p9 empty_table 0 (-1) 2 (str "/tmp/r") [Dupped 0 4] [].

Lemma ex_fresh : fresh_kernel (fun h _ => next_fd h) ex_open next_fd.
Proof.
  split; [intros; apply next_fd_fresh|]. split.
  - intros h d p fl m. unfold ex_open. repeat case_match; [lia|lia|]. intros _. apply next_fd_fresh.
  - intros h. split; [|apply next_fd_fresh]. unfold next_fd.
    induction (open_after h) as [|x l IH]; cbn in *; lia.
Qed.

Lemma ex_session_bytes : Forall sends_bytes [ex_client].
Proof.
  constructor; [|done]. cbn [ex_client sends_bytes rx_stream].
  apply (Forall_impl (fun b => Is_true ((0 <=? b) && (b <? 256)))).
  - apply forallb_True. by vm_compute.
  - intros b Hb. apply Is_true_true in Hb. unfold is_byte. bool_to_prop. lia.
Qed.

Definition ex_end : option Z * p9 := Eval vm_compute in ex_child 4 [ex_client] ex_start.
Lemma ex_run : ex_child 4 [ex_client] ex_start = (None, snd ex_end).
Proof. vm_compute. reflexivity. Qed.

Lemma fid_descriptors_owned_witness :
  exists root, NoDup (root :: live_fds (g_fid_map (snd ex_end))).
Proof.
  destruct (fid_descriptors_owned _ _ _ _ _ _ _ _ _ _ _ 4 [ex_client] ex_start _ _ ex_fresh
    eq_refl ltac:(lia) ltac:(vm_compute; left) ex_session_bytes ex_run ltac:(discriminate))
    as (root & Hn & _).
  exists root. exact Hn.
Defined.

Lemma fid_entries_typed_witness :
  g_fid_count (snd ex_end) = 1 /\ Forall entry_ok (live (g_fid_map (snd ex_end))).
Proof.
  split; [reflexivity|].
  exact (proj1 (fid_entries_typed _ _ _ _ _ _ _ _ _ _ _ 4 [ex_client] ex_start _ _ ex_fresh
    eq_refl ltac:(lia) ltac:(vm_compute; left) ex_session_bytes ex_run)).
Defined.
End Plan9FdsThm.
