(* ===== verification/Plan9Life.v ===== *)
(** The life cycle of the Plan 9 server (src/FreeBSD/plan9_server.h): starting
    the child, the production child's accept loop around lib9p, and stopping it,
    for the build with __FreeBSD__ (hv_sock and lib9p) and for the stub.  The
    calls that take or release a descriptor, a process or a file are logged in
    order; what they return comes from the outside. *)
From S2P Require Import Prelude StateM CStr CNum.
Import StateM.

Module Plan9Life.

Definition LX_INIT_UTILITY_VM_PLAN9_PORT : Z := 50001.
Definition P9_TEST_PORT : Z := 50009.
Definition SIGKILL : Z := 9.
Definition SIGTERM : Z := 15.

Inductive life_call : Type :=
| Got (fd : Z)
| Close (fd : Z)
| Bind (fd port : Z) (ok : bool)
| Listen (fd backlog : Z) (ok : bool)
| Fork (pid : Z)
| Wait_ready (fd : Z)
| Kill (pid sig : Z)
| Waitpid (pid : Z) (nohang : bool)
| Usleep (us : Z)
| Mkdtemp (path : bytes)
| Rmdir (path : bytes)
| Unlink (path : bytes).

(** g_plan9, and the root directory of the stub. *)
Record plan9 : Type := mk_plan9 {
  child_pid : Z; port : Z; started : bool; control_pipe : Z * Z;
  g_root_path : bytes; calls : list life_call
}.
#[export] Instance plan9_eta : Eta plan9 := fun r =>
  mk_plan9 (child_pid r) (port r) (started r) (control_pipe r) (g_root_path r) (calls r).
Definition plan9_initial : plan9 := mk_plan9 (-1) 0 false (-1, -1) [] [].

Abbreviation LM := (M plan9).
Definition log (c : life_call) : LM unit := modify (fun s => s <| calls := calls s ++ [c] |>).
(** A call that returns a descriptor, or a negative number. *)
Definition take_fd (fd : Z) : LM Z := (if fd <? 0 then skip else log (Got fd));; mret fd.
Definition close (fd : Z) : LM unit := log (Close fd).
Definition set_pipe (p : Z * Z) : LM unit := modify (fun s => s <| control_pipe := p |>).

(** What the system answers while the server starts. *)
Record start_env : Type := mk_env {
  root_fd : Z;                  (* open("/") *)
  sock_fd : Z;                  (* socket *)
  bind_ok : bool;
  listen_ok : bool;
  pipe_fds : option (Z * Z);
  fork_pid : Z;
  test_root : bytes;            (* WSL_TEST_ROOT, empty when not set *)
  mkdtemp : bytes -> option bytes
}.

(** plan9_start_server returns a port in the parent (0 on failure); the child
    runs the server with its descriptors. *)
Inductive start_result : Type :=
| Port (p : Z)
| In_child (listen_fd rootfd control_fd : Z).

Section Start.
Context (e : start_env).

(** * The production build *)
Definition plan9_bind_hvsocket (p : Z) : LM Z :=
  fd ← take_fd (sock_fd e);
  if fd <? 0 then mret (-1)
  else
    log (Bind fd p (bind_ok e));;
    if negb (bind_ok e) then close fd;; mret (-1)
    else
      log (Listen fd 10 (listen_ok e));;
      if negb (listen_ok e) then close fd;; mret (-1) else mret fd.

(** pipe(2) and fork(2), with what each failure releases; [others] are the
    descriptors that go with the pipe. *)
Definition close_all (fds : list Z) : LM unit := for_each fds close.

Definition finish_start (others : list Z) (listen_fd rootfd the_port : Z) : LM start_result :=
  match pipe_fds e with
  | None => close_all others;; mret (Port 0)
  | Some (rd, wr) =>
    log (Got rd);; log (Got wr);; set_pipe (rd, wr);;
    log (Fork (fork_pid e));;
    if fork_pid e <? 0 then
      close_all others;; close rd;; close wr;; set_pipe (-1, -1);; mret (Port 0)
    else if fork_pid e =? 0 then
      close rd;; mret (In_child listen_fd rootfd wr)
    else
      close wr;; set_pipe (rd, -1);; close_all others;; log (Wait_ready rd);;
      modify (fun s => s <| child_pid := fork_pid e |> <| port := the_port |> <| started := true |>);;
      mret (Port the_port)
  end.

Definition plan9_start_server : LM start_result :=
  s ← get;
  if started s then mret (Port (port s))
  else
    rootfd ← take_fd (root_fd e);
    if rootfd <? 0 then mret (Port 0)
    else
      listen_fd ← plan9_bind_hvsocket LX_INIT_UTILITY_VM_PLAN9_PORT;
      if listen_fd <? 0 then close rootfd;; mret (Port 0)
      else finish_start [listen_fd; rootfd] listen_fd rootfd LX_INIT_UTILITY_VM_PLAN9_PORT.

(** * The stub *)
Definition temp_template : bytes :=
  snprintf_s 256 (if is_empty (test_root e) then str "/tmp/wsl_plan9_XXXXXX"
                  else test_root e ++ str "/plan9_XXXXXX").

Definition stub_listen : LM Z :=
  fd ← take_fd (sock_fd e);
  if fd <? 0 then mret (-1)
  else
    log (Bind fd P9_TEST_PORT (bind_ok e));;
    if negb (bind_ok e) then close fd;; mret (-1)
    else
      log (Listen fd 5 (listen_ok e));;
      if negb (listen_ok e) then close fd;; mret (-1) else mret fd.

Definition stub_start_server : LM start_result :=
  s ← get;
  if started s then mret (Port (port s))
  else
    modify (fun s => s <| g_root_path := temp_template |>);;
    match mkdtemp e temp_template with
    | None => mret (Port 0)
    | Some path =>
      log (Mkdtemp path);; modify (fun s => s <| g_root_path := path |>);;
      listen_fd ← stub_listen;
      if listen_fd <? 0 then mret (Port 0)
      else finish_start [listen_fd] listen_fd (-1) P9_TEST_PORT
    end.
End Start.

(** * The production child: lib9p's calls are the outside's *)
Inductive child_event : Type :=
| Poll_intr
| Poll_failed
| Poll_other
| Accept_again
| Accept_failed
| Accepted (conn_fd : Z).

(** The connections handed to l9p_socket_accept; true when the loop ended. *)
Fixpoint child_loop (evs : list child_event) : list Z * bool :=
  match evs with
  | [] => ([], false)
  | Poll_failed :: _ | Accept_failed :: _ => ([], true)
  | Accepted fd :: evs' => let '(l, b) := child_loop evs' in (fd :: l, b)
  | _ :: evs' => child_loop evs'
  end.

(** The exit status ([None] while it serves), the connections, and whether it
    closed its end of the pipe before serving. *)
Definition plan9_child_run (backend_ok server_ok : bool) (evs : list child_event) :
    option Z * list Z * bool :=
  if negb backend_ok then (Some 1, [], false)
  else if negb server_ok then (Some 1, [], false)
  else
    let '(l, ended) := child_loop evs in
    ((if ended : bool then Some 0 else None), l, true).

(** * Stopping *)

(** The wait loop: [waitpid(WNOHANG)] at each turn returns the child's pid, 0
    while it runs, or -1; false when it was given up. *)
Fixpoint wait_loop (left : nat) (pid : Z) (answers : list Z) : LM bool :=
  match left with
  | O => mret false
  | S left' =>
    log (Waitpid pid true);;
    let rc := hd 0 answers in
    if rc =? pid then mret true
    else if rc <? 0 then mret true
    else log (Usleep 100000);; wait_loop left' pid (tl answers)
  end.

(** The signals of a stop: SIGKILL when forced, else SIGTERM and SIGKILL for a
    child that outlives the polls; the production build waits for it there. *)
Definition signal_child (limit : nat) (wait_killed force : bool) (pid : Z) (answers : list Z) : LM unit :=
  if force then log (Kill pid SIGKILL)
  else
    log (Kill pid SIGTERM);;
    ended ← wait_loop limit pid answers;
    if ended : bool then skip
    else log (Kill pid SIGKILL);; when wait_killed (log (Waitpid pid false)).

Definition not_running (s : plan9) : bool := negb (started s) || (child_pid s <? 0).

(** Reap, close the pipe, forget the child. *)
Definition reap (pid : Z) : LM unit :=
  log (Waitpid pid false);;
  s ← get;
  let rd := fst (control_pipe s) in
  if rd <? 0 then skip
  else close rd;; set_pipe (-1, snd (control_pipe s)).
Definition forget : LM unit :=
  modify (fun s => s <| child_pid := -1 |> <| started := false |> <| port := 0 |>).

Definition plan9_stop_server (force : bool) (answers : list Z) : LM bool :=
  s ← get;
  let pid := child_pid s in
  if not_running s then mret true
  else
    signal_child 50 true force pid answers;; reap pid;; forget;; mret true.

(** The stub also empties its directory: [dir] is what opendir lists (name and
    whether it is a directory), [None] when it fails. *)
Definition clean_entry (root : bytes) (d : bytes * bool) : LM unit :=
  let '(name, is_dir) := d in
  if strcmp_eq name (str ".") || strcmp_eq name (str "..") then skip
  else
    let path := snprintf_s 512 (root ++ [c_slash] ++ name) in
    if is_dir : bool then log (Rmdir path) else log (Unlink path).

Definition stub_clean (dir : option (list (bytes * bool))) : LM unit :=
  s ← get;
  let root := g_root_path s in
  if is_empty root then skip
  else
    match dir with Some l => for_each l (clean_entry root) | None => skip end;;
    log (Rmdir root);; modify (fun s => s <| g_root_path := [] |>).

Definition stub_stop_server (force : bool) (answers : list Z)
    (dir : option (list (bytes * bool))) : LM bool :=
  s ← get;
  let pid := child_pid s in
  if not_running s then mret true
  else
    signal_child 30 false force pid answers;; reap pid;; stub_clean dir;; forget;; mret true.

Definition plan9_get_port (s : plan9) : Z := port s.
Definition plan9_is_running (s : plan9) : bool := started s && (0 <? child_pid s).
End Plan9Life.
