(* ===== verification/Plan9LifeThm.v ===== *)
(** Theorems on the built-in Plan 9 server's messages (Plan9WireThm, Plan9WalkThm) and on
    starting and stopping it (Plan9LifeThm). *)
From stdpp Require Import sets.
From S2P Require Import Prelude StateM CStr CNum Wire ChannelThm Plan9 Plan9Thm Plan9Life.

Import StateM Wire WireThm Plan9 Plan9Thm Plan9FdsThm.

Module Plan9WireThm.

(** * Answers *)

(** A message of the protocol: size, type, tag, body. *)
Definition frame (type tag : Z) (body : bytes) : bytes :=
  p9_put32 (7 + Z.of_nat (length body)) ++ [u8 type] ++ p9_put16 tag ++ body.

Lemma response_writes_concat type tag body :
  concat (response_writes type tag body) = frame type tag body.
Proof.
  unfold response_writes, frame. destruct body as [|b body]; [done|].
  repeat case_if; cbn [concat]; rewrite ?app_nil_r, <-?app_assoc; done.
Qed.

Definition answers (t : Z) (o : outcome) : Prop :=
  match o with Reply rt _ => rt = t + 1 \/ rt = P9_RERROR | _ => True end.

Section Requests.
Context (k_dup : list sys_call -> Z -> Z).
Context (k_openat : list sys_call -> option Z -> bytes -> Z -> Z -> Z).
Context (k_fstat : list sys_call -> Z -> option stat).
Context (k_readdir : list sys_call -> Z -> option (list dirent)).
Context (k_pread : list sys_call -> Z -> Z -> Z -> option bytes).
Context (k_pwrite : list sys_call -> Z -> bytes -> Z -> Z).
Context (k_rmdir k_unlink : list sys_call -> bytes -> bool).
Context (k_malloc : list sys_call -> Z -> bool).
Context (k_write : list sys_call -> bytes -> bytes -> list sock_event).

Abbreviation run_dispatch :=
  (dispatch k_dup k_openat k_fstat k_readdir k_pread k_pwrite k_rmdir k_unlink k_malloc).
Abbreviation request :=
  (p9_handle_request k_dup k_openat k_fstat k_readdir k_pread k_pwrite k_rmdir k_unlink k_malloc k_write).
Abbreviation answer :=
  (p9_answer k_dup k_openat k_fstat k_readdir k_pread k_pwrite k_rmdir k_unlink k_malloc k_write).
Abbreviation serves :=
  (serve_loop k_dup k_openat k_fstat k_readdir k_pread k_pwrite k_rmdir k_unlink k_malloc k_write).

(** Every handler ends in a reply of its own type, in an error or undefined. *)
Abbreviation replies t m := (triple (fun _ => True) m (fun o _ => answers t o)).
Ltac reply_step :=
  match goal with
  | |- triple _ (mret _) _ => apply triple_ret; intros; cbn; auto
  | |- triple _ (fail _) _ => apply triple_ret; intros; cbn; auto
  | |- triple _ (_ ≫= _) _ =>
      apply (triple_bind _ _ (fun _ _ => True)); [by intros ? _; case_match|intros ?; cbv beta]
  | |- triple _ (let '_ := ?x in _) _ => destruct x
  | |- triple _ (match ?x with _ => _ end) _ => destruct x
  end.

Lemma dispatch_answers t body : replies t (run_dispatch t body).
Proof.
  unfold dispatch, handle_tversion, handle_tattach, handle_tstat, handle_twalk, clone_fid,
    handle_tclunk, handle_tlopen, handle_tlcreate, create_file, handle_tread, read_dir, read_file,
    rread, handle_twrite, handle_tremove.
  repeat (case_match; [bool_to_prop; subst t; repeat reply_step|]). repeat reply_step.
Qed.

(** The connection takes every byte. *)
Definition takes_all : Prop :=
  forall h sent buf, x_rc (p9_writen (k_write h sent buf) buf) = Some 0.

Lemma writen_data evs buf : x_rc (p9_writen evs buf) = Some 0 -> x_data (p9_writen evs buf) = buf.
Proof.
  intros H. unfold p9_writen in *.
  destruct (send_loop_data retry_intr evs buf []) as (k & -> & Hk & _). by apply Hk.
Qed.

Lemma write_seq_all bufs s :
  takes_all -> write_seq k_write bufs s = (Some 0, s <| sent := sent s ++ concat bufs |>).
Proof.
  intros H. revert s; induction bufs as [|b bufs IH]; intros s; cbn [write_seq concat].
  - rewrite app_nil_r. by destruct s.
  - unfold p9_write, mbind, M_bind. specialize (H (calls s) (sent s) b). rewrite H.
    rewrite IH, writen_data by done. cbn. by rewrite <-app_assoc.
Qed.

Lemma answer_reply rest s rt body s1 :
  takes_all -> run_dispatch (get_le 1 0 rest) (drop 3 rest) s = (Reply rt body, s1) ->
  answer rest s = (Continue, s1 <| sent := sent s1 ++ frame rt (get16 1 rest) body |>).
Proof.
  intros Hw E. unfold p9_answer, p9_send_response. unfold mbind, M_bind. rewrite E.
  rewrite write_seq_all by done. by rewrite response_writes_concat.
Qed.

(** Only sending changes what was sent. *)
Abbreviation quiet x m := (keeps (fun s => sent s = x) m).

Lemma quiet_add x f fd q t p : quiet x (fid_add f fd q t p).
Proof. intros s H. unfold fid_add. by destruct (add _ _ _ _ _ _). Qed.
Lemma quiet_log x c : quiet x (log c).
Proof. by intros s H. Qed.
Lemma quiet_modify_map x g n :
  quiet x (modify (fun s => s <| g_fid_map := g s |> <| g_fid_count := n s |>)).
Proof. by intros s H. Qed.
Lemma quiet_modify x g : quiet x (modify (fun s => s <| g_fid_map := g s |>)).
Proof. by intros s H. Qed.
Lemma quiet_qpath x : quiet x fid_next_qpath.
Proof. by intros s H. Qed.
#[local] Hint Resolve quiet_add quiet_log quiet_modify_map quiet_modify quiet_qpath : wsl.

Lemma quiet_walk x body newfid pfd left pos cur path qids :
  quiet x (walk_loop k_openat body newfid pfd left pos cur path qids).
Proof.
  revert pos cur path qids; induction left as [|left IH]; intros; cbn [walk_loop];
    unfold open_component, openat, close; keep_steps.
Qed.

Lemma quiet_pack x des count len idx : quiet x (pack_entries des count len idx).
Proof. revert len idx; induction des as [|d des IH]; intros; cbn [pack_entries]; keep_steps. Qed.
#[local] Hint Resolve quiet_walk quiet_pack : wsl.

Lemma dispatch_quiet x t body : quiet x (run_dispatch t body).
Proof.
  unfold dispatch, handle_tversion, handle_tattach, handle_tstat, handle_twalk, clone_fid,
    handle_tclunk, handle_tlopen, handle_tlcreate, create_file, handle_tread, read_dir, read_file,
    rread, handle_twrite, handle_tremove, fid_remove, fid_replace, fid_find, reopen_fid, fail, dup,
    openat, pwrite, malloc, close.
  keep_steps.
Qed.

(** * The messages of a connection, without the transport *)
Fixpoint answer_all (msgs : list (Z * Z * bytes)) : P9 (option (list (Z * bytes))) :=
  match msgs with
  | [] => mret (Some [])
  | (t, tag, body) :: msgs' =>
    o ← run_dispatch t body;
    match o with
    | Reply rt rb =>
      modify (fun s => s <| sent := sent s ++ frame rt tag rb |>);;
      rs ← answer_all msgs';
      mret (match rs with Some l => Some ((rt, rb) :: l) | None => None end)
    | _ => mret None
    end
  end.

Definition message_ok (m : Z * Z * bytes) : Prop :=
  let '(t, tag, body) := m in
  0 <= t < 256 /\ 0 <= tag < 2 ^ 16 /\ Z.of_nat (length body) <= 65529.
Definition message_bytes (m : Z * Z * bytes) : bytes :=
  let '(t, tag, body) := m in frame t tag body.
Definition reply_bytes (m : Z * Z * bytes) (r : Z * bytes) : bytes :=
  frame (fst r) (snd (fst m)) (snd r).

Lemma answer_all_sent msgs s rs s1 :
  answer_all msgs s = (Some rs, s1) ->
  sent s1 = sent s ++ concat (zip_with reply_bytes msgs rs)
  /\ Forall2 (fun m r => fst r = fst (fst m) + 1 \/ fst r = P9_RERROR) msgs rs.
Proof.
  revert s rs; induction msgs as [|[[t tag] body] msgs IH]; intros s rs.
  - intros [= <- <-]. by rewrite app_nil_r.
  - cbn [answer_all]. unfold mbind, M_bind, modify. 
    destruct (run_dispatch t body s) as [o s2] eqn:E.
    pose proof (triple_elim _ _ _ _ _ _ (dispatch_quiet (sent s) t body) eq_refl E) as Hs.
    pose proof (triple_elim _ _ _ _ _ _ (dispatch_answers t body) I E) as Ha. cbn in Hs.
    destruct o as [rt rb| |]; try done.
    destruct (answer_all msgs _) as [[l|] s3] eqn:E2; [|done]. intros [= <- <-].
    destruct (IH _ _ E2) as [Hsent Hall]. split; [|by constructor].
    rewrite Hsent. cbn. by rewrite Hs, <-app_assoc.
Qed.

(** * Reading *)
Abbreviation working_conn c := (Forall (working retry_intr) (rx_events c)).
(** Calls that move bytes; each byte needs one at most. *)
Definition budget (c : conn) : nat := progress (rx_events c).

Lemma p9_read_complete c n :
  working_conn c -> (n <= budget c)%nat -> (n <= length (rx_stream c))%nat ->
  exists c', p9_read c n = (inr (take n (rx_stream c)), c') /\ rx_stream c' = drop n (rx_stream c)
    /\ working_conn c' /\ (budget c <= budget c' + n)%nat.
Proof.
  intros Hw Hb Hl. destruct (recv_loop_complete retry_intr _ (rx_stream c) n [] Hw Hb Hl)
    as (evs' & E & Hw' & Hp). exists (mk_conn evs' (drop n (rx_stream c))).
  unfold p9_read, p9_readn. rewrite E. done.
Qed.

(** A peer that closes: every read ends. *)
Lemma recv_loop_ends retry evs stream need got :
  Forall (working retry) evs -> (length stream < progress evs)%nat ->
  let '(x, stream') := recv_loop retry evs stream need got in
  x_rc x <> None /\ Forall (working retry) (x_events x)
  /\ ((length stream' < progress (x_events x))%nat \/ x_rc x <> Some 0).
Proof.
  intros Hw. revert stream need got; induction Hw as [|e evs He Hw IH]; intros stream need got Hp.
  - cbn in Hp. lia.
  - destruct need as [|need]; [cbn; auto|]. cbn [recv_loop]. rewrite progress_cons in Hp.
    destruct e as [n|r| |]; cbn in He; try rewrite He; try (cbn in Hp; by apply IH).
    destruct stream as [|b stream]; [cbn; auto|]. apply IH.
    rewrite length_drop. cbn [length] in *. lia.
Qed.

Lemma p9_read_ends c n :
  working_conn c -> (length (rx_stream c) < budget c)%nat ->
  let '(r, c') := p9_read c n in
  r <> inl Waiting /\ r <> inl Continue /\ working_conn c'
  /\ forall d, r = inr d -> (length (rx_stream c') < budget c')%nat.
Proof.
  intros Hw Hl. pose proof (recv_loop_ends retry_intr _ (rx_stream c) n [] Hw Hl) as H.
  unfold p9_read, p9_readn, budget. destruct (recv_loop _ _ _ _ _) as [x s'].
  destruct H as (H0 & H1 & H2). cbn [rx_events rx_stream].
  split; [by destruct (x_rc x) as [[| |]|]|]. split; [by destruct (x_rc x) as [[| |]|]|].
  split; [exact H1|]. intros d. destruct H2 as [H2|H2]; [done|].
  by destruct (x_rc x) as [[| |]|].
Qed.

Lemma p9_read_shorter c n d c' :
  p9_read c n = (inr d, c') ->
  (length (rx_stream c') + n = length (rx_stream c))%nat.
Proof.
  unfold p9_read, p9_readn.
  destruct (recv_loop_data retry_intr (rx_events c) (rx_stream c) n []) as (k & _ & Hs & H0 & _).
  destruct (recv_loop _ _ _ _ _) as [x str']. cbn in Hs, H0.
  destruct (x_rc x) as [[|p|p]|] eqn:E; try done. intros [= <- <-].
  destruct (H0 eq_refl) as [-> ?]. cbn. rewrite Hs, length_drop. lia.
Qed.

Lemma p9_read_continue c n c' : p9_read c n <> (inl Continue, c').
Proof.
  unfold p9_read. destruct (p9_readn _ _ _) as [x str']. by destruct (x_rc x) as [[| |]|].
Qed.

(** A request that goes on took its message, of at least seven bytes. *)
Lemma request_shorter c s c' s' :
  request c s = ((Continue, c'), s') -> (length (rx_stream c') + 7 <= length (rx_stream c))%nat.
Proof.
  unfold p9_handle_request. destruct (p9_read c 4) as [[e|size] c1] eqn:E1;
    [intros [= ->]; by apply p9_read_continue in E1|].
  case_if; [done|]. unfold mbind, M_bind, malloc, gets. destruct (k_malloc _ _); [|done].
  destruct (p9_read c1 _) as [[e|rest] c2] eqn:E2;
    [intros [= ->]; by apply p9_read_continue in E2|].
  destruct (answer rest s) as [e s2]. intros [= -> <- <-].
  apply p9_read_shorter in E1, E2. lia.
Qed.

(** Every write on the connection ends, well or not. *)
Definition writes_end : Prop :=
  forall h sent buf, x_rc (p9_writen (k_write h sent buf) buf) <> None.

Lemma write_seq_ends bufs s : writes_end -> fst (write_seq k_write bufs s) <> None.
Proof.
  intros H. revert s; induction bufs as [|b bufs IH]; intros s; cbn [write_seq]; [done|].
  unfold p9_write, mbind, M_bind. specialize (H (calls s) (sent s) b).
  destruct (x_rc _) as [[| |]|]; [apply IH|done|done|done].
Qed.

Lemma answer_ends rest s : writes_end -> fst (answer rest s) <> Waiting.
Proof.
  intros H. unfold p9_answer, p9_send_response, mbind, M_bind.
  destruct (run_dispatch _ _ s) as [[rt rb| |] s1]; [|done|done].
  pose proof (write_seq_ends (response_writes rt (get16 1 rest) rb) s1 H) as Hw.
  destruct (write_seq k_write _ s1) as [[rc|] s2]; done.
Qed.

Abbreviation closing c := (working_conn c /\ (length (rx_stream c) < budget c)%nat).

Lemma request_ends c s : writes_end -> closing c ->
  let '((e, c'), _) := request c s in e <> Waiting /\ (e = Continue -> closing c').
Proof.
  intros Hw [Hc Hl]. unfold p9_handle_request. pose proof (p9_read_ends c 4 Hc Hl) as H1.
  destruct (p9_read c 4) as [[e|size] c1]; destruct H1 as (H1 & H1' & Hc1 & Hl1).
  { split; [by intros ->|by intros ->]. }
  case_if; [done|]. unfold mbind, M_bind, malloc, gets. destruct (k_malloc _ _); [|done].
  specialize (Hl1 _ eq_refl). set (n := Z.to_nat (get32 0 size - 4)).
  pose proof (p9_read_ends c1 n Hc1 Hl1) as H2.
  destruct (p9_read c1 n) as [[e|rest] c2]; destruct H2 as (H2 & H2' & Hc2 & Hl2).
  { split; [by intros ->|by intros ->]. }
  pose proof (answer_ends rest s Hw) as Ha. destruct (answer rest s) as [e s2].
  split; [done|]. intros _. split; [done|]. by apply (Hl2 rest).
Qed.

Lemma serve_loop_ends fuel c s :
  writes_end -> closing c -> (length (rx_stream c) < fuel)%nat ->
  let '((e, _), _) := serves fuel c s in e = Disconnect \/ e = Undefined.
Proof.
  intros Hw. revert c s; induction fuel as [|fuel IH]; intros c s Hc Hf; [lia|].
  cbn [serve_loop]. unfold mbind, M_bind.
  pose proof (request_ends c s Hw Hc) as Hr. pose proof (request_shorter c s) as Hs.
  destruct (request c s) as [[e c'] s']. destruct Hr as [He Hc'].
  destruct e; cbn; auto; [|done]. specialize (Hs _ _ eq_refl). apply IH; [by apply Hc'|lia].
Qed.

(** The fuel does not matter once it exceeds the stream. *)
Lemma serve_loop_message fuel c s c' s' :
  request c s = ((Continue, c'), s') -> serves (S fuel) c s = serves fuel c' s'.
Proof. intros E. cbn [serve_loop]. unfold mbind, M_bind. by rewrite E. Qed.

Lemma frame_length t tag body : length (frame t tag body) = (7 + length body)%nat.
Proof. unfold frame, p9_put32, p9_put16. rewrite !length_app, !le_bytes_length. cbn. lia. Qed.

(** One message of a client, read and answered. *)
Lemma request_message t tag body rest c s rt rb s1 :
  message_ok (t, tag, body) -> takes_all -> (forall h n, k_malloc h n = true) ->
  working_conn c -> rx_stream c = frame t tag body ++ rest -> (7 + length body <= budget c)%nat ->
  run_dispatch t body s = (Reply rt rb, s1) ->
  exists c', request c s = ((Continue, c'), s1 <| sent := sent s1 ++ frame rt tag rb |>)
    /\ rx_stream c' = rest /\ working_conn c' /\ (budget c <= budget c' + (7 + length body))%nat.
Proof.
  intros (Ht & Htag & Hlen) Hw Hm Hc Hs Hb E.
  set (v := 7 + Z.of_nat (length body)). assert (Hv : 0 <= v < 2 ^ 32) by lia.
  assert (Hfl : length (rx_stream c) = (7 + length body + length rest)%nat)
    by by rewrite Hs, length_app, frame_length.
  destruct (p9_read_complete c 4 Hc ltac:(lia) ltac:(lia)) as (c1 & E1 & Hs1 & Hc1 & Hb1).
  set (msg := [u8 t] ++ p9_put16 tag ++ body).
  assert (Hmsg : length msg = (3 + length body)%nat).
  { unfold msg, p9_put16. rewrite !length_app, le_bytes_length. done. }
  assert (Hf : rx_stream c = le_bytes 4 (u32 v) ++ msg ++ rest).
  { rewrite Hs. unfold frame, msg, p9_put32. by rewrite <-!app_assoc. }
  rewrite Hf in E1, Hs1. rewrite take_app_length' in E1 by (symmetry; apply le_bytes_length).
  rewrite drop_app_length' in Hs1 by (symmetry; apply le_bytes_length).
  assert (Hsize : get32 0 (le_bytes 4 (u32 v)) = v).
  { unfold get32. rewrite get_le_head_nil. unfold u32. rewrite (Z.mod_small v) by exact Hv.
    apply Z.mod_small. exact Hv. }
  assert (Hn : Z.to_nat (v - 4) = (3 + length body)%nat) by (unfold v; lia).
  destruct (p9_read_complete c1 (Z.to_nat (v - 4)) Hc1) as (c2 & E2 & Hs2 & Hc2 & Hb2);
    [lia|rewrite Hs1, length_app; lia|].
  rewrite Hs1 in E2, Hs2. rewrite take_app_length' in E2 by lia. rewrite drop_app_length' in Hs2 by lia.
  exists c2. split; [|split; [done|]; split; [done|lia]].
  unfold p9_handle_request. rewrite E1, Hsize.
  replace ((v <? 7) || (P9_MAXMSIZE <? v)) with false
    by (symmetry; apply orb_false_intro; apply Z.ltb_ge; unfold P9_MAXMSIZE, v; lia).
  unfold mbind, M_bind, malloc, gets. rewrite Hm, E2.
  assert (Htype : get_le 1 0 msg = t).
  { change (u8 t + 256 * 0 = t). unfold u8. rewrite Z.mod_small by exact Ht. lia. }
  assert (Hbody : drop 3 msg = body) by done.
  assert (Htag2 : get16 1 msg = tag).
  { change msg with ([u8 t] ++ le_bytes 2 (u16 tag) ++ body). unfold get16.
    rewrite (get_le_app 2 1 [u8 t]) by done. unfold u16. rewrite (Z.mod_small tag) by exact Htag.
    apply Z.mod_small. exact Htag. }
  rewrite <-Htype, <-Hbody in E. rewrite (answer_reply _ _ _ _ _ Hw E).
  by rewrite Htag2.
Qed.

Definition total_bytes (msgs : list (Z * Z * bytes)) : nat := length (concat (map message_bytes msgs)).

(** The loop reads and answers each message, then sees the end of the stream. *)
Lemma serve_messages msgs c s rs s1 fuel :
  Forall message_ok msgs -> takes_all -> (forall h n, k_malloc h n = true) ->
  working_conn c -> rx_stream c = concat (map message_bytes msgs) ->
  (total_bytes msgs < budget c)%nat -> (total_bytes msgs < fuel)%nat ->
  answer_all msgs s = (Some rs, s1) ->
  exists c', serves fuel c s = ((Disconnect, c'), s1).
Proof.
  intros Hok Hw Hm. revert c s rs s1 fuel.
  induction Hok as [|[[t tag] body] msgs Hmsg Hok IH]; intros c s rs s1 fuel Hc Hs Hb Hf E.
  - injection E as <- <-. destruct fuel as [|fuel]; [lia|].
    cbn [serve_loop]. unfold mbind, M_bind, p9_handle_request.
    pose proof (p9_read_ends c 4 Hc ltac:(rewrite Hs; done)) as H.
    destruct (p9_read c 4) as [[e|d] c1] eqn:Er.
    + destruct H as (H1 & H2 & _). destruct e; try done.
      * by exists c1.
      * exfalso. revert Er. unfold p9_read. destruct (p9_readn _ _ _) as [x s'].
        by destruct (x_rc x) as [[| |]|].
    + apply p9_read_shorter in Er. rewrite Hs in Er. cbn in Er. lia.
  - cbn [answer_all] in E. unfold mbind, M_bind, modify in E.
    destruct (run_dispatch t body s) as [o s2] eqn:Ed. destruct o as [rt rb| |]; try done.
    destruct (answer_all msgs _) as [[l|] s3] eqn:E2; [|done]. injection E as <- <-.
    unfold total_bytes in *. cbn [map concat message_bytes] in *.
    rewrite length_app, frame_length in *.
    destruct (request_message t tag body _ c s rt rb s2 Hmsg Hw Hm Hc Hs ltac:(lia) Ed)
      as (c' & Er & Hs' & Hc' & Hb').
    destruct fuel as [|fuel]; [lia|]. rewrite (serve_loop_message _ _ _ _ _ Er).
    eapply (IH c' _ l _ fuel Hc' Hs'); [lia|lia|exact E2].
Qed.
End Requests.

(** C23: the byte-level loop of a connection refines the message handlers: for
    messages the server's limits allow, however the bytes are cut, it decodes and
    handles each message in order and closes at the end of the stream; what it
    sends is one frame per message, with the message's tag, and of the type that
    answers the request or Rerror. *)
Theorem connection_refines_handlers k_dup k_openat k_fstat k_readdir k_pread k_pwrite k_rmdir
    k_unlink k_malloc k_write msgs evs s rs s1 :
  Forall message_ok msgs -> takes_all k_write -> (forall h n, k_malloc h n = true) ->
  Forall (working retry_intr) evs ->
  (total_bytes msgs < progress evs)%nat ->
  answer_all k_dup k_openat k_fstat k_readdir k_pread k_pwrite k_rmdir k_unlink k_malloc msgs s
    = (Some rs, s1) ->
  (exists c', serve k_dup k_openat k_fstat k_readdir k_pread k_pwrite k_rmdir k_unlink k_malloc
      k_write (mk_conn evs (concat (map message_bytes msgs))) s = ((Disconnect, c'), s1))
  /\ sent s1 = sent s ++ concat (zip_with reply_bytes msgs rs)
  /\ Forall2 (fun m r => fst r = fst (fst m) + 1 \/ fst r = P9_RERROR) msgs rs.
Proof.
  intros Hok Hw Hm He Hb E. split; [|by eapply answer_all_sent].
  eapply serve_messages; eauto.
Qed.

(** The request loop ends: when the client closes its side and every write
    returns, whatever was sent, the loop stops, by closing the connection or at a
    request that leaves the server's buffers; the fuel of [serve] is enough. *)
Theorem serve_terminates k_dup k_openat k_fstat k_readdir k_pread k_pwrite k_rmdir k_unlink
    k_malloc k_write c s :
  writes_end k_write -> Forall (working retry_intr) (rx_events c) ->
  (length (rx_stream c) < progress (rx_events c))%nat ->
  let '((e, _), _) := serve k_dup k_openat k_fstat k_readdir k_pread k_pwrite k_rmdir k_unlink
    k_malloc k_write c s in e = Disconnect \/ e = Undefined.
Proof. intros Hw Hc Hl. apply serve_loop_ends; [done|done|lia]. Qed.

(** The session of Plan9FdsThm as messages. *)
Definition ex_msgs : list (Z * Z * bytes) :=
  [(P9_TATTACH, 1, p9_put32 0);
   (P9_TWALK, 2, p9_put32 0 ++ p9_put32 1 ++ p9_put16 1 ++ p9_put_string (str "file"));
   (P9_TCLUNK, 3, p9_put32 0)].
Definition ex_ready : p9 := mk_p9 empty_table 0 5 2 (str "/tmp/r") [Dupped 0 5] [].

Abbreviation ex_answer_all := (answer_all (fun h _ => next_fd h) ex_open
  (fun _ _ => Some (mk_stat 16877 5 100 200 4096)) (fun _ _ => Some ex_dirents)
  (fun _ _ _ _ => Some (str "hello")) (fun _ _ d _ => Z.of_nat (length d))
  (fun _ _ => true) (fun _ _ => true) (fun _ _ => true)).

Lemma ex_takes_all : takes_all ex_write.
Proof.
  intros h snt buf.
  destruct (send_loop_complete retry_intr (ex_write h snt buf) buf []) as (evs' & E & _).
  - apply Forall_forall. intros e He. apply list_elem_of_In, repeat_spec in He. by subst.
  - apply Nat.eq_le_incl. unfold ex_write. induction buf as [|b buf IH]; [done|].
    cbn [repeat length] in *. rewrite progress_cons. lia.
  - unfold p9_writen. by rewrite E.
Qed.

Lemma ex_working n : Forall (working retry_intr) (repeat (Progress 600) n).
Proof. apply Forall_forall. intros e He. apply list_elem_of_In, repeat_spec in He. by subst. Qed.

Lemma ex_msgs_ok : Forall message_ok ex_msgs.
Proof. unfold ex_msgs. repeat constructor; by vm_compute. Qed.

Definition ex_answers : option (list (Z * bytes)) * p9 := Eval vm_compute in ex_answer_all ex_msgs ex_ready.
Lemma ex_answers_eq :
  ex_answer_all ex_msgs ex_ready = (Some (default [] (fst ex_answers)), snd ex_answers).
Proof. vm_compute. reflexivity. Qed.

Lemma connection_refines_handlers_witness :
  map fst (default [] (fst ex_answers)) = [P9_RATTACH; P9_RWALK; P9_RCLUNK]
  /\ sent (snd ex_answers) = concat (zip_with reply_bytes ex_msgs (default [] (fst ex_answers))).
Proof.
  split; [vm_compute; reflexivity|].
  exact (proj1 (proj2 (connection_refines_handlers _ _ _ _ _ _ _ _ _ ex_write ex_msgs
    (repeat (Progress 600) 100) ex_ready _ _ ex_msgs_ok ex_takes_all (fun _ _ => eq_refl)
    (ex_working 100) ltac:(apply Nat.ltb_lt; vm_compute; reflexivity) ex_answers_eq))).
Defined.

Lemma serve_terminates_witness :
  writes_end ex_write
  /\ (let '((e, _), _) := serve (fun h _ => next_fd h) ex_open (fun _ _ => None) (fun _ _ => None)
       (fun _ _ _ _ => None) (fun _ _ _ _ => 0) (fun _ _ => true) (fun _ _ => true)
       (fun _ _ => true) ex_write (mk_conn (repeat (Progress 600) 100) ex_session) ex_ready in
     e = Disconnect \/ e = Undefined).
Proof.
  assert (H : writes_end ex_write) by (intros h snt buf; by rewrite ex_takes_all).
  split; [exact H|]. apply (serve_terminates _ _ _ _ _ _ _ _ _ _ (mk_conn (repeat (Progress 600) 100) ex_session)
    ex_ready H (ex_working 100)).
  apply Nat.ltb_lt. vm_compute. reflexivity.
Defined.
End Plan9WireThm.

Import StateM Wire Plan9 Plan9Thm Plan9FdsThm Plan9WireThm.

Module Plan9WalkThm.

(** * Twalk *)
Definition name_ok (n : bytes) : Prop := no_nul n /\ (length n < 256)%nat.
Definition names_bytes (names : list bytes) : bytes := concat (map p9_put_string names).
Definition walk_body (fid newfid : Z) (names : list bytes) : bytes :=
  p9_put32 fid ++ p9_put32 newfid ++ p9_put16 (Z.of_nat (length names)) ++ names_bytes names.

Section Walk.
Context (k_dup : list sys_call -> Z -> Z).
Context (k_openat : list sys_call -> option Z -> bytes -> Z -> Z -> Z).

(** The reference: from a descriptor along a list of names; the qids of the
    components, or none when one cannot be opened or the table is full. *)
Fixpoint walk_names (newfid parent_fd : Z) (names : list bytes) (cur_fd : Z) (cur_path : bytes)
    (qids : list bytes) : P9 (list bytes) :=
  match names with
  | [] => mret qids
  | n :: names' =>
    '(next_fd, qtype) ← open_component k_openat cur_fd n;
    if next_fd <? 0 then mret []
    else
      qpath ← fid_next_qpath;
      let path := parent_path cur_path n in
      let qids := qids ++ [pack_qid qtype qpath] in
      match names' with
      | [] =>
        ok ← fid_add newfid next_fd qpath qtype path;
        if ok : bool then mret qids else close next_fd;; mret []
      | _ =>
        when (negb (cur_fd =? parent_fd)) (close cur_fd);;
        walk_names newfid parent_fd names' next_fd path qids
      end
  end.

Definition spec_walk (fid newfid : Z) (names : list bytes) : P9 outcome :=
  entry ← fid_find fid;
  match entry with
  | None => fail (str "unknown fid")
  | Some parent =>
    qids ← walk_names newfid (e_fd parent) names (e_fd parent) (e_path parent) [];
    mret (Reply P9_RWALK (p9_put16 (Z.of_nat (length qids)) ++ concat qids))
  end.

Lemma put16_bytes v : p9_put16 v = le_bytes 2 (u16 v).
Proof. done. Qed.

Lemma put_string_length n : length (p9_put_string n) = (2 + length n)%nat.
Proof. unfold p9_put_string. by rewrite put16_bytes, length_app, le_bytes_length. Qed.

Lemma name_length_field pre n rest :
  (length n < 256)%nat ->
  Z.to_nat (get16 (Z.of_nat (length pre)) (pre ++ p9_put_string n ++ rest)) = length n.
Proof.
  intros H. unfold p9_put_string. rewrite put16_bytes, <-app_assoc. unfold get16.
  rewrite get_le_app by done. unfold u16.
  assert (Hn : 0 <= Z.of_nat (length n) < 2 ^ 16) by lia.
  rewrite (Z.mod_small (Z.of_nat _)) by exact Hn. rewrite Z.mod_small by exact Hn. lia.
Qed.

Lemma name_field pre n rest :
  take (length n) (drop (length pre + 2) (pre ++ p9_put_string n ++ rest)) = n.
Proof.
  unfold p9_put_string. rewrite put16_bytes, <-app_assoc.
  rewrite <-drop_drop, drop_app_length, drop_app_length' by (by rewrite le_bytes_length).
  by rewrite take_app_length.
Qed.

Lemma walk_loop_names body newfid pfd names pre cur path qids s :
  body = pre ++ names_bytes names -> Forall name_ok names ->
  (length qids + length names <= 16)%nat ->
  walk_loop k_openat body newfid pfd (length names) (length pre) cur path qids s
  = let '(q, s') := walk_names newfid pfd names cur path qids s in (Some q, s').
Proof.
  intros Hb Hok. revert pre cur path qids s Hb.
  induction Hok as [|n names [Hn Hlen] Hok IH]; intros pre cur path qids s Hb Hq; [done|].
  change (names_bytes (n :: names)) with (p9_put_string n ++ names_bytes names) in Hb.
  assert (Hl : length body = (length pre + (2 + length n) + length (names_bytes names))%nat).
  { rewrite Hb, !length_app, put_string_length. lia. }
  assert (Hg : Z.to_nat (get16 (Z.of_nat (length pre)) body) = length n)
    by (rewrite Hb; by apply name_length_field).
  assert (Hf : take (length n) (drop (length pre + 2) body) = n)
    by (rewrite Hb; apply name_field).
  cbn [length walk_loop walk_names] in *. rewrite Hg, Hf, to_cstr_all by done.
  do 2 (match goal with |- context [(length body <? ?b)%nat] =>
    replace (length body <? b)%nat with false by (symmetry; apply Nat.ltb_ge; lia) end).
  replace (256 <=? length n)%nat with false by (symmetry; by apply Nat.leb_gt).
  unfold mbind, M_bind. destruct (open_component _ _ _ s) as [[next qt] s1].
  destruct (next <? 0); [done|]. destruct (fid_next_qpath s1) as [qp s2].
  replace (16 <=? length qids)%nat with false by (symmetry; apply Nat.leb_gt; lia).
  destruct names as [|m names].
  - cbn [length]. destruct (fid_add _ _ _ _ _ s2) as [[] s3]; [done|].
    destruct (close next s3) as [u s4]. done.
  - cbn [length]. destruct (when _ _ s2) as [u s3].
    specialize (IH (pre ++ p9_put_string n) next (parent_path path n) (qids ++ [pack_qid qt qp]) s3).
    replace (length pre + 2 + length n)%nat with (length (pre ++ p9_put_string n))
      by (rewrite length_app, put_string_length; lia).
    apply IH; [by rewrite Hb, <-app_assoc|]. rewrite length_app. cbn [length] in *. lia.
Qed.

Lemma walk_body_fields fid newfid names :
  0 <= fid < 2 ^ 32 -> 0 <= newfid < 2 ^ 32 -> (length names <= 16)%nat ->
  let b := walk_body fid newfid names in
  (10 <= length b)%nat /\ get_le 4 0 b = fid /\ get_le 4 4 b = newfid
  /\ get_le 2 8 b = Z.of_nat (length names)
  /\ b = take 10 b ++ names_bytes names /\ length (take 10 b) = 10%nat.
Proof.
  intros Hf Hn Hl b.
  set (hd := le_bytes 4 fid ++ le_bytes 4 newfid ++ le_bytes 2 (Z.of_nat (length names))).
  assert (Hb : b = hd ++ names_bytes names).
  { unfold b, walk_body, p9_put32, p9_put16, u32, u16, hd.
    rewrite !Z.mod_small by lia. by rewrite <-!app_assoc. }
  assert (Hhd : length hd = 10%nat) by (unfold hd; by rewrite !length_app, !le_bytes_length).
  assert (Htake : take 10 b = hd) by (rewrite Hb; by apply take_app_length').
  split; [rewrite Hb, length_app; lia|]. rewrite Htake.
  split; [|split; [|split; [|by split]]]; rewrite Hb; unfold hd; rewrite <-!app_assoc.
  - rewrite get_le_head. by apply Z.mod_small.
  - rewrite get_le_skip by lia. simpl Z.of_nat. simpl Z.sub. rewrite get_le_head. by apply Z.mod_small.
  - do 2 (rewrite get_le_skip by lia; simpl Z.of_nat; simpl Z.sub). rewrite get_le_head.
    apply Z.mod_small. lia.
Qed.

(** * What the reference walk does to the table *)
Lemma open_component_map dir n s :
  g_fid_map (snd (open_component k_openat dir n s)) = g_fid_map s.
Proof.
  assert (H : keeps (fun s' => g_fid_map s' = g_fid_map s) (open_component k_openat dir n)).
  { assert (Hlog : forall c, keeps (fun s' => g_fid_map s' = g_fid_map s) (log c)) by by intros c s'.
    unfold open_component, openat. keep_steps. }
  specialize (H s eq_refl). by destruct (open_component _ _ _ s).
Qed.

Lemma walk_names_spec newfid pfd names cur path qids s q s' :
  names <> [] -> walk_names newfid pfd names cur path qids s = (q, s') ->
  (q = [] /\ g_fid_map s' = g_fid_map s)
  \/ (length q = length qids + length names)%nat
     /\ exists fd qp qt, 0 <= fd /\
        add (g_fid_map s) newfid fd qp qt (foldl parent_path path names) = Some (g_fid_map s').
Proof.
  revert cur path qids s; induction names as [|n names IH]; intros cur path qids s Hne E; [done|].
  cbn [walk_names] in E. unfold mbind, M_bind in E.
  pose proof (open_component_map cur n s) as Hm.
  destruct (open_component _ _ _ s) as [[next qt] s1]. cbn [snd] in Hm.
  destruct (next <? 0) eqn:En; [injection E as <- <-; auto|]. bool_to_prop.
  cbn [fid_next_qpath] in E. destruct names as [|m names].
  - unfold fid_add in E. cbn [g_fid_map] in E. rewrite <-Hm.
    destruct (add _ _ _ _ _ _) as [t|] eqn:Ea.
    + injection E as <- <-. right. split; [rewrite length_app; cbn; lia|]. eexists _, _, _.
      split; [exact En|]. exact Ea.
    + unfold close, log, modify in E. injection E as <- <-. left. done.
  - assert (Hw : exists s2, g_fid_map s2 = g_fid_map s /\ walk_names newfid pfd (m :: names) next
        (parent_path path n) (qids ++ [pack_qid qt (g_next_qpath s1)]) s2 = (q, s')).
    { destruct (cur =? pfd); cbn [negb when] in E; unfold close, log, modify, skip in E;
        eexists; (split; [|exact E]); exact Hm. }
    destruct Hw as (s2 & Hm2 & E2). apply IH in E2; [|done]. rewrite Hm2 in E2.
    destruct E2 as [E2|[Hq Hx]]; [by left|right]. split; [|exact Hx].
    rewrite Hq, length_app. cbn [length]. lia.
Qed.
End Walk.

Lemma twalk_reference k_dup k_openat fid newfid names s :
  0 <= fid < 2 ^ 32 -> 0 <= newfid < 2 ^ 32 -> Forall name_ok names ->
  (1 <= length names <= 16)%nat ->
  handle_twalk k_dup k_openat (walk_body fid newfid names) s
  = spec_walk k_openat fid newfid names s.
Proof.
  intros Hf Hn Hok Hl.
  destruct (walk_body_fields fid newfid names Hf Hn ltac:(lia)) as (Hlen & H0 & H4 & H8 & Hb & H10).
  unfold handle_twalk, spec_walk, field. rewrite (proj2 (Nat.leb_le _ _) Hlen), H0, H4, H8.
  replace (Z.of_nat (length names) =? 0) with false by (symmetry; apply Z.eqb_neq; lia).
  unfold fid_find, mbind, M_bind, gets. destruct (find (g_fid_map s) fid) as [parent|]; [|done].
  rewrite Nat2Z.id. rewrite <-H10 at 1.
  rewrite (walk_loop_names k_openat _ newfid _ names (take 10 (walk_body fid newfid names)))
    by (done || (cbn [length]; lia)).
  by destruct (walk_names _ _ _ _ _ _ _ s).
Qed.

(** C27: equivalence of the walk with its reference: on a Twalk of one to sixteen
    names, none longer than 255 bytes, the handler, which parses the body by
    positions, does what the walk over the list of names does, call for call; it
    stays inside its buffers. *)
Theorem twalk_equals_reference k_dup k_openat fid newfid names s :
  0 <= fid < 2 ^ 32 -> 0 <= newfid < 2 ^ 32 -> Forall name_ok names ->
  (1 <= length names <= 16)%nat ->
  handle_twalk k_dup k_openat (walk_body fid newfid names) s
  = spec_walk k_openat fid newfid names s.
Proof. apply twalk_reference. Qed.

Lemma twalk_equals_reference_witness :
  Forall name_ok [str "dir"; str "file"]
  /\ handle_twalk (fun h _ => next_fd h) ex_open (walk_body 0 1 [str "dir"; str "file"]) ex_ready
     = spec_walk ex_open 0 1 [str "dir"; str "file"] ex_ready.
Proof.
  assert (H : Forall name_ok [str "dir"; str "file"]).
  { repeat (constructor; [split; [by repeat constructor|cbn; lia]|]). constructor. }
  split; [exact H|]. apply (twalk_equals_reference _ _ 0 1 _ ex_ready ltac:(lia) ltac:(lia) H).
  cbn. lia.
Defined.

(** What a walk does: it answers with no qid and leaves the table as it was,
    or answers with one qid per name and newfid is added with the descriptor of
    the last component and the path of the fid extended by the names. *)
Theorem twalk_binds_newfid k_dup k_openat fid newfid names s parent :
  0 <= fid < 2 ^ 32 -> 0 <= newfid < 2 ^ 32 -> Forall name_ok names ->
  (1 <= length names <= 16)%nat -> find (g_fid_map s) fid = Some parent ->
  exists qids, let '(o, s') := handle_twalk k_dup k_openat (walk_body fid newfid names) s in
    o = Reply P9_RWALK (p9_put16 (Z.of_nat (length qids)) ++ concat qids)
    /\ (qids = [] /\ g_fid_map s' = g_fid_map s
        \/ length qids = length names /\ exists fd qp qt, 0 <= fd /\
           add (g_fid_map s) newfid fd qp qt (foldl parent_path (e_path parent) names)
           = Some (g_fid_map s')).
Proof.
  intros Hf Hn Hok Hl Hp. rewrite twalk_reference by done.
  unfold spec_walk, fid_find, mbind, M_bind, gets. rewrite Hp.
  destruct (walk_names _ _ _ _ _ _ _ s) as [q s'] eqn:E. exists q. split; [done|].
  apply walk_names_spec in E; [exact E|]. by destruct names; [cbn in Hl; lia|].
Qed.

Lemma twalk_binds_newfid_witness :
  match find (g_fid_map (snd ex_end)) 1 with
  | Some e => exists qids,
      let '(o, s') := handle_twalk (fun h _ => next_fd h) ex_open (walk_body 1 7 [str "gone"])
                        (snd ex_end) in
      o = Reply P9_RWALK (p9_put16 (Z.of_nat (length qids)) ++ concat qids)
      /\ (qids = [] /\ g_fid_map s' = g_fid_map (snd ex_end)
          \/ length qids = 1%nat /\ exists fd qp qt, 0 <= fd /\
             add (g_fid_map (snd ex_end)) 7 fd qp qt (parent_path (e_path e) (str "gone"))
             = Some (g_fid_map s'))
  | None => False
  end.
Proof.
  destruct (find (g_fid_map (snd ex_end)) 1) as [e|] eqn:E; [|vm_compute in E; discriminate].
  apply (twalk_binds_newfid _ _ 1 7 [str "gone"] (snd ex_end) e ltac:(lia) ltac:(lia));
    [|cbn; lia|exact E].
  constructor; [split; [by repeat constructor|cbn; lia]|constructor].
Defined.

(** A walk of two or more names forgets the descriptor before the last. *)
Example walk_keeps_an_intermediate_descriptor :
  open_after (calls (snd ex_end)) = [10; 8; 5]
  /\ live_fds (g_fid_map (snd ex_end)) = [10] /\ g_rootfd (snd ex_end) = 5.
Proof. by vm_compute. Qed.

(** A newfid equal to the fid gets a slot of its own, the first free one; which
    of the two entries is found depends on the slots. *)
Example walk_onto_itself_is_shadowed :
  let '(_, s) := handle_twalk (fun h _ => next_fd h) ex_open (walk_body 9 9 [str "x"])
                   (ex_ready <| g_fid_map := two_fids |>) in
  match find (g_fid_map s) 9 with Some e => e_path e | None => [] end = str "a"
  /\ map e_path (live (g_fid_map s)) = [[]; str "a"; str "a/x"].
Proof. by vm_compute. Qed.

(** A name of 256 bytes overruns the buffer of the name, and a path of 451
    bytes that of the status. *)
Example long_name_overruns :
  fst (handle_twalk (fun h _ => next_fd h) ex_open (walk_body 1 2 [repeat 97 256]) (snd ex_end))
  = Overrun.
Proof. by vm_compute. Qed.

(** * Tstat *)
Lemma build_stat_length e st :
  Z.of_nat (length (build_stat e st))
  = 62 + Z.of_nat (length (if is_empty (e_path e) then [c_slash] else e_path e)).
Proof.
  unfold build_stat, stat_fields, pack_qid, p9_put_string, p9_put16, p9_put32, p9_put64.
  rewrite !length_app, !le_bytes_length. cbn [length str map String.list_ascii_of_string]. lia.
Qed.

(** Bounds of Tstat: the status of a fid fits its 512-byte buffer exactly
    when the fid's path has at most 450 bytes, although a path may have 511; when
    it fits the answer holds the whole status, and its size field agrees. *)
Theorem tstat_bounds k_fstat body s e st :
  find (g_fid_map s) (get32 0 body) = Some e -> (4 <= length body)%nat -> entry_ok e ->
  k_fstat (calls s) (e_fd e) = Some st ->
  let o := fst (handle_tstat k_fstat body s) in
  (Z.of_nat (length (e_path e)) <= 450 -> o = Reply P9_RSTAT (build_stat e st)
     /\ get16 0 (build_stat e st) + 2 = Z.of_nat (length (build_stat e st)))
  /\ (450 < Z.of_nat (length (e_path e)) -> o = Overrun).
Proof.
  intros Hf Hl He Hst. unfold handle_tstat, field, fid_find, mbind, M_bind, gets.
  rewrite (proj2 (Nat.leb_le _ _) Hl). unfold get32 in Hf. rewrite Hf, Hst.
  pose proof (build_stat_length e st) as Hlen.
  assert (Hp : e_path e <> [] -> is_empty (e_path e) = false) by by destruct (e_path e).
  split; intros Hpath.
  - assert (Hle : Z.of_nat (length (build_stat e st)) <= 512).
    { rewrite Hlen. destruct (is_empty _); cbn [length]; lia. }
    assert (Hsz : get16 0 (build_stat e st) + 2 = Z.of_nat (length (build_stat e st))).
    { unfold build_stat, get16. rewrite put16_bytes, get_le_head, length_app, le_bytes_length.
      revert Hle. unfold build_stat. rewrite put16_bytes, length_app, le_bytes_length. intros Hle.
      unfold u16. rewrite (Z.mod_small (Z.of_nat _)) by lia. rewrite Z.mod_small; lia. }
    replace (512 <? _) with false by (symmetry; by apply Z.ltb_ge). split; [|done].
    cbn [fst]. rewrite Hsz, Nat2Z.id, take_ge by lia. done.
  - rewrite Hp in Hlen by (intros H0; rewrite H0 in Hpath; cbn in Hpath; lia).
    replace (512 <? _) with true by (symmetry; apply Z.ltb_lt; lia). done.
Qed.

(** * Twrite *)

(** Bounds of Twrite: data that the message holds is written once, at the
    offset; a count beyond the message writes nothing and answers 0, except for
    the sixteen counts from 2^32 - 16 on, where the 32-bit sum of the check wraps
    and the write reads past the message. *)
Theorem twrite_bounds k_pwrite body s e :
  find (g_fid_map s) (get32 0 body) = Some e -> bytes_ok body ->
  (16 <= length body)%nat -> Z.of_nat (length body) <= 65529 ->
  let count := get32 12 body in
  let n := k_pwrite (calls s) (e_fd e) (take (Z.to_nat count) (drop 16 body)) (off_t (get64 4 body)) in
  let r := handle_twrite k_pwrite body s in
  (0 < count <= Z.of_nat (length body) - 16 ->
     r = (Reply P9_RWRITE (p9_put32 (if n <? 0 then 0 else n)),
          s <| calls := calls s ++ [Pwrote (e_fd e) (take (Z.to_nat count) (drop 16 body))
                                      (off_t (get64 4 body)) n] |>))
  /\ (count = 0 \/ Z.of_nat (length body) - 16 < count < 2 ^ 32 - 16 ->
      r = (Reply P9_RWRITE (p9_put32 0), s))
  /\ (2 ^ 32 - 16 <= count -> r = (Overrun, s)).
Proof.
  intros Hf Hb Hl Hmax count n r. unfold r, handle_twrite, field, fid_find, mbind, M_bind, gets.
  rewrite (proj2 (Nat.leb_le _ _) Hl). change (get_le 4 0 body) with (get32 0 body).
  change (get_le 4 12 body) with count. change (get_le 8 4 body) with (get64 4 body).
  rewrite Hf. assert (Hc : 0 <= count < 2 ^ 32) by exact (get_le_bound 4 12 body Hb).
  split; [|split]; intros Hr.
  - replace (u32 (16 + count)) with (16 + count) by (symmetry; apply Z.mod_small; lia).
    replace (0 <? count) with true by (symmetry; apply Z.ltb_lt; lia).
    replace (16 + count <=? _) with true by (symmetry; apply Z.leb_le; lia).
    replace (_ <? 16 + count) with false by (symmetry; apply Z.ltb_ge; lia). done.
  - destruct Hr as [Hr|Hr]; [by rewrite Hr|].
    replace (u32 (16 + count)) with (16 + count) by (symmetry; apply Z.mod_small; lia).
    replace (16 + count <=? _) with false by (symmetry; apply Z.leb_gt; lia).
    by rewrite andb_false_r.
  - replace (u32 (16 + count)) with (count - (2 ^ 32 - 16))
      by (unfold u32; apply (Z.mod_unique _ _ 1); lia).
    replace (0 <? count) with true by (symmetry; apply Z.ltb_lt; lia).
    replace (count - _ <=? _) with true by (symmetry; apply Z.leb_le; lia).
    replace (_ <? 16 + count) with true by (symmetry; apply Z.ltb_lt; lia). done.
Qed.

Definition write_body (fid offset count : Z) (data : bytes) : bytes :=
  p9_put32 fid ++ p9_put64 offset ++ p9_put32 count ++ data.

Lemma twrite_bounds_witness :
  handle_twrite (fun _ _ d _ => Z.of_nat (length d)) (write_body 1 0 (2 ^ 32 - 8) (str "abc"))
    (snd ex_end) = (Overrun, snd ex_end).
Proof.
  destruct (find (g_fid_map (snd ex_end)) (get32 0 (write_body 1 0 (2 ^ 32 - 8) (str "abc"))))
    as [e|] eqn:E; [|vm_compute in E; discriminate].
  apply (twrite_bounds _ _ (snd ex_end) e E); [|cbn; lia|cbn; lia|vm_compute; discriminate].
  apply (Forall_impl (fun b => Is_true ((0 <=? b) && (b <? 256)))).
  - apply forallb_True. by vm_compute.
  - intros b Hb. apply Is_true_true in Hb. unfold is_byte. bool_to_prop. lia.
Defined.

Lemma tstat_bounds_witness :
  match find (g_fid_map (snd ex_end)) 1 with
  | Some e => let st := mk_stat 33188 5 100 200 11 in
      fst (handle_tstat (fun _ _ => Some st) (p9_put32 1) (snd ex_end))
      = Reply P9_RSTAT (build_stat e st)
  | None => False
  end.
Proof.
  destruct (find (g_fid_map (snd ex_end)) 1) as [e|] eqn:E; [|vm_compute in E; discriminate].
  apply (tstat_bounds (fun _ _ => Some (mk_stat 33188 5 100 200 11)) (p9_put32 1) (snd ex_end) e _ E);
    [cbn; lia| |reflexivity|].
  - vm_compute in E. injection E as <-. split; [cbn; lia|]. split; [by left|].
    split; [cbn; lia|]. split; [cbn; lia|by repeat constructor].
  - vm_compute in E. injection E as <-. cbn. lia.
Defined.

(** * Reading a directory *)

(** A directory entry as a client decodes it. *)
Record listed : Type := mk_listed {
  l_qtype : Z; l_qpath : Z; l_offset : Z; l_type : Z; l_name : bytes
}.
Definition listed_bytes (e : listed) : bytes :=
  pack_qid (l_qtype e) (l_qpath e) ++ p9_put64 (l_offset e) ++ [l_type e] ++ p9_put_string (l_name e).

(** The decoder of a client; an entry takes 24 bytes or more. *)
Fixpoint parse_listing (fuel : nat) (data : bytes) : list listed :=
  match fuel with
  | O => []
  | S fuel' =>
    if (length data <? 24)%nat then []
    else
      let n := Z.to_nat (get16 22 data) in
      mk_listed (get_le 1 0 data) (get64 5 data) (get64 13 data) (get_le 1 21 data)
        (take n (drop 24 data)) :: parse_listing fuel' (drop (24 + n) data)
  end.

(** What a listing should hold: the entries, numbered. *)
Fixpoint listing (des : list dirent) (qpath idx : Z) : list listed :=
  match des with
  | [] => []
  | d :: des' =>
    let dir := d_type d =? DT_DIR in
    mk_listed (if dir then P9_QID_DIR else 0) qpath (idx + 1) (if dir then 1 else 0) (d_name d)
      :: listing des' (u64 (qpath + 1)) (idx + 1)
  end.
Definition visible (des : list dirent) : list dirent := List.filter (fun d => negb (is_dot d)) des.

Definition listed_ok (e : listed) : Prop :=
  0 <= l_qtype e < 256 /\ 0 <= l_qpath e < 2 ^ 64 /\ 0 <= l_offset e < 2 ^ 64
  /\ 0 <= l_type e < 256 /\ Z.of_nat (length (l_name e)) < 2 ^ 16.

Lemma listed_bytes_length e : length (listed_bytes e) = (24 + length (l_name e))%nat.
Proof.
  unfold listed_bytes, pack_qid, p9_put_string, p9_put16, p9_put32, p9_put64.
  rewrite !length_app, !le_bytes_length. cbn [length]. lia.
Qed.

Lemma get_byte_app off pre b rest :
  Z.of_nat (length pre) = off -> get_le 1 off (pre ++ [b] ++ rest) = b.
Proof.
  intros <-. unfold get_le. rewrite Nat2Z.id, drop_app_length. change (b + 256 * 0 = b). lia.
Qed.

Lemma parse_listed fuel e rest :
  listed_ok e -> parse_listing (S fuel) (listed_bytes e ++ rest) = e :: parse_listing fuel rest.
Proof.
  intros (Hqt & Hqp & Hoff & Hty & Hn). cbn [parse_listing].
  rewrite length_app, listed_bytes_length.
  replace (_ <? 24)%nat with false by (symmetry; apply Nat.ltb_ge; lia).
  set (p1 := [u8 (l_qtype e)] ++ le_bytes 4 (u32 0)).
  set (p2 := p1 ++ le_bytes 8 (u64 (l_qpath e))).
  set (p3 := p2 ++ le_bytes 8 (u64 (l_offset e))).
  set (p4 := p3 ++ [l_type e]).
  set (p5 := p4 ++ le_bytes 2 (u16 (Z.of_nat (length (l_name e))))).
  assert (H5 : listed_bytes e ++ rest = p5 ++ l_name e ++ rest).
  { unfold p5, p4, p3, p2, p1, listed_bytes, pack_qid, p9_put_string, p9_put16, p9_put32, p9_put64.
    by rewrite <-!app_assoc. }
  assert (Hn5 : get16 22 (listed_bytes e ++ rest) = Z.of_nat (length (l_name e))).
  { rewrite H5. unfold p5. rewrite <-app_assoc. unfold get16. rewrite (get_le_app 2 22 p4) by done.
    assert (Hr : 0 <= Z.of_nat (length (l_name e)) < 2 ^ 16) by (split; [lia|exact Hn]).
    unfold u16. rewrite (Z.mod_small (Z.of_nat (length (l_name e)))) by exact Hr. apply Z.mod_small. exact Hr. }
  rewrite Hn5, Nat2Z.id, H5. f_equal.
  - destruct e as [qt qp off ty nm]. cbn [l_qtype l_qpath l_offset l_type l_name] in *. f_equal.
    + change (get_le 1 0 (u8 qt :: drop 1 (p5 ++ nm ++ rest)) = qt).
      unfold get_le. change (u8 qt + 256 * 0 = qt). unfold u8. rewrite Z.mod_small by exact Hqt. lia.
    + unfold p5, p4, p3, p2. rewrite <-!app_assoc. unfold get64. rewrite (get_le_app 8 5 p1) by done.
      unfold u64. rewrite (Z.mod_small qp) by exact Hqp. by apply Z.mod_small.
    + unfold p5, p4, p3. rewrite <-!app_assoc. unfold get64. rewrite (get_le_app 8 13 p2) by done.
      unfold u64. rewrite (Z.mod_small off) by exact Hoff. by apply Z.mod_small.
    + unfold p5, p4. rewrite <-!app_assoc. by apply get_byte_app.
    + change 24%nat with (length p5). by rewrite drop_app_length, take_app_length.
  - change (24 + length (l_name e))%nat with (length p5 + length (l_name e))%nat.
    by rewrite <-drop_drop, drop_app_length, drop_app_length.
Qed.

Lemma parse_listing_bytes l fuel :
  Forall listed_ok l -> (length l <= fuel)%nat ->
  parse_listing fuel (concat (map listed_bytes l)) = l.
Proof.
  intros H. revert fuel; induction H as [|e l He _ IH]; intros fuel Hf; [by destruct fuel|].
  destruct fuel as [|fuel]; [cbn in Hf; lia|]. cbn [map concat].
  rewrite parse_listed by done. f_equal. apply IH. cbn in Hf. lia.
Qed.

Lemma pack_dirent_length d qpath idx : length (pack_dirent d qpath idx) = (24 + length (d_name d))%nat.
Proof. exact (listed_bytes_length (mk_listed _ _ _ _ _)). Qed.

(** The longest prefix of the visible entries that fits. *)
Lemma pack_entries_spec des count data_len idx s data s' :
  pack_entries des count data_len idx s = (data, s') -> data_len <= count ->
  exists m, data = concat (map listed_bytes (listing (take m (visible des)) (g_next_qpath s) idx))
    /\ data_len + Z.of_nat (length data) <= count
    /\ forall d, visible des !! m = Some d ->
         count < data_len + Z.of_nat (length data) + 24 + Z.of_nat (length (d_name d)).
Proof.
  revert data_len idx s data s'; induction des as [|d des IH]; intros data_len idx s data s' E Hle;
    cbn [pack_entries] in E.
  - injection E as <- <-. exists 0%nat. split; [done|]. split; [cbn; lia|]. by intros d.
  - destruct (count <=? data_len) eqn:E1; bool_to_prop.
    { injection E as <- <-. exists 0%nat. split; [by rewrite take_0|]. cbn [length].
      split; [lia|]. intros d' _. lia. }
    cbn [visible List.filter]. destruct (is_dot d) eqn:Ed; cbn [negb]; [by eapply IH|].
    unfold mbind, M_bind in E. cbn [fid_next_qpath] in E.
    destruct (count <? data_len + (24 + Z.of_nat (length (d_name d)))) eqn:E2; bool_to_prop.
    + injection E as <- <-. exists 0%nat. split; [done|]. cbn [length].
      split; [lia|]. intros d' [= <-]. lia.
    + remember (pack_dirent d (g_next_qpath s) idx) as entry eqn:He.
      destruct (pack_entries des count _ _ _) as [rest s2] eqn:E3. injection E as <- <-.
      assert (Hl : length entry = (24 + length (d_name d))%nat) by (subst; apply pack_dirent_length).
      rewrite Hl in E3.
      destruct (IH _ _ _ _ _ E3 ltac:(lia)) as (m & Hd & Hc & Hm). exists (S m).
      rewrite length_app, Hl.
      split; [|split; [lia|intros d' Hd'; specialize (Hm d' Hd'); lia]].
      by rewrite Hd, He.
Qed.

Lemma listing_ok des qpath idx :
  Forall (fun d => Z.of_nat (length (d_name d)) < 2 ^ 16) des -> 0 <= qpath < 2 ^ 64 ->
  0 <= idx -> idx + Z.of_nat (length des) < 2 ^ 64 -> Forall listed_ok (listing des qpath idx).
Proof.
  intros H. revert qpath idx; induction H as [|d des Hd _ IH]; intros qpath idx Hq Hi Hl;
    cbn [listing]; constructor.
  - cbn [length] in Hl. unfold listed_ok. cbn [l_qtype l_qpath l_offset l_type l_name].
    unfold P9_QID_DIR. destruct (d_type d =? DT_DIR); (repeat split; try lia).
  - cbn [length] in Hl. apply IH; [by apply Z.mod_pos_bound|lia|lia].
Qed.

Lemma listing_length des qpath idx : length (listing des qpath idx) = length des.
Proof. revert qpath idx; induction des; intros; cbn; congruence. Qed.

Lemma listing_bytes_length l : (length l <= length (concat (map listed_bytes l)))%nat.
Proof.
  induction l as [|e l IH]; [done|]. cbn [map concat length].
  rewrite length_app, listed_bytes_length. lia.
Qed.

Definition read_body (fid offset count : Z) : bytes :=
  p9_put32 fid ++ p9_put64 offset ++ p9_put32 count.

Lemma read_body_fields fid offset count :
  0 <= fid < 2 ^ 32 -> 0 <= offset < 2 ^ 64 -> 0 <= count < 2 ^ 32 ->
  let b := read_body fid offset count in
  length b = 16%nat /\ get_le 4 0 b = fid /\ get_le 8 4 b = offset /\ get_le 4 12 b = count.
Proof.
  intros Hf Ho Hc b. unfold b, read_body, p9_put32, p9_put64, u32, u64.
  rewrite !Z.mod_small by done. rewrite !length_app, !le_bytes_length.
  split; [done|]. split; [|split].
  - rewrite get_le_head. by apply Z.mod_small.
  - rewrite get_le_skip by lia. simpl Z.of_nat. simpl Z.sub. rewrite get_le_head.
    by apply Z.mod_small.
  - do 2 (rewrite get_le_skip by lia; simpl Z.of_nat; simpl Z.sub). rewrite get_le_head_nil.
    by apply Z.mod_small.
Qed.

(** A directory read from its start, decoded by the client: the answer holds
    at most the requested number of bytes, and decodes to the first entries of
    the directory other than . and .., in order, with their names, their types
    and offsets 1, 2, ...; it stops only where the next entry would not fit. *)
Theorem tread_lists_directory k_dup k_readdir k_pread k_malloc fid count s e des :
  0 <= fid < 2 ^ 32 -> 0 <= count < 2 ^ 32 -> find (g_fid_map s) fid = Some e ->
  is_dir e = true -> 0 <= k_dup (calls s) (e_fd e) -> 0 <= g_next_qpath s < 2 ^ 64 ->
  (forall h fd, k_readdir h fd = Some des) -> (forall h n, k_malloc h n = true) ->
  Forall (fun d => Z.of_nat (length (d_name d)) < 2 ^ 16) des -> Z.of_nat (length des) < 2 ^ 63 ->
  exists m data,
    fst (handle_tread k_dup k_readdir k_pread k_malloc (read_body fid 0 count) s)
      = Reply P9_RREAD (p9_put32 (Z.of_nat (length data)) ++ data)
    /\ Z.of_nat (length data) <= count
    /\ parse_listing (length data) data = listing (take m (visible des)) (g_next_qpath s) 0
    /\ forall d, visible des !! m = Some d ->
         count < Z.of_nat (length data) + 24 + Z.of_nat (length (d_name d)).
Proof.
  intros Hf Hc He Hdir Hd Hq Hr Hm Hn Hlen.
  destruct (read_body_fields fid 0 count Hf ltac:(lia) Hc) as (Hb & H0 & H4 & H12).
  unfold handle_tread, field. rewrite Hb, H0, H4, H12. cbn [Nat.leb].
  unfold fid_find, mbind, M_bind, gets. rewrite He, Hdir.
  unfold read_dir, dup, malloc, mret, M_ret, mbind, M_bind, gets, log, modify. rewrite Hr.
  replace (k_dup _ _ <? 0) with false by (symmetry; by apply Z.ltb_ge). rewrite Hm.
  rewrite Z.min_l by lia. cbv beta iota. change (drop (Z.to_nat 0) des) with des.
  change (Z.of_nat (Z.to_nat 0)) with 0. set (s1 := upd calls _ s).
  destruct (pack_entries des count 0 0 s1) as [data s2] eqn:E.
  destruct (pack_entries_spec _ _ _ _ _ _ _ E ltac:(lia)) as (m & Hdata & Hcount & Hmax).
  cbn [g_next_qpath] in Hdata. exists m, data.
  unfold close, log, modify, rread, malloc, mbind, M_bind, gets. rewrite Hm.
  split; [done|]. split; [lia|]. split; [|intros d Hd'; specialize (Hmax d Hd'); lia].
  assert (Hok : Forall listed_ok (listing (take m (visible des)) (g_next_qpath s) 0)).
  { apply listing_ok; [|done|lia|].
    - apply Forall_take, Forall_forall. intros d Hin. rewrite Forall_forall in Hn. apply Hn.
      apply list_elem_of_In, List.filter_In in Hin as [Hin _]. by apply list_elem_of_In.
    - rewrite length_take. pose proof (List.filter_length_le (fun d => negb (is_dot d)) des).
      unfold visible. lia. }
  rewrite Hdata. apply parse_listing_bytes; [exact Hok|]. apply listing_bytes_length.
Qed.

(** Continuing at the offset of the last entry returns entries again: the
    skipped entries include . and .., the numbers given do not. *)
Definition read_names (offset : Z) : list (Z * bytes) :=
  match fst (handle_tread (fun h _ => next_fd h) (fun _ _ => Some ex_dirents) (fun _ _ _ _ => None)
               (fun _ _ => true) (read_body 5 offset 4096) (ex_ready <| g_fid_map := two_fids |>)) with
  | Reply _ data => map (fun e => (l_offset e, l_name e)) (parse_listing 99 (drop 4 data))
  | _ => []
  end.
Example directory_read_repeats :
  read_names 0 = [(1, str "dir"); (2, str "file")]
  /\ read_names 2 = [(3, str "dir"); (4, str "file")] /\ read_names 4 = [].
Proof. by vm_compute. Qed.

Lemma tread_lists_directory_witness :
  exists m data,
    fst (handle_tread (fun h _ => next_fd h) (fun _ _ => Some ex_dirents) (fun _ _ _ _ => None)
           (fun _ _ => true) (read_body 5 0 40) (ex_ready <| g_fid_map := two_fids |>))
      = Reply P9_RREAD (p9_put32 (Z.of_nat (length data)) ++ data)
    /\ parse_listing (length data) data = listing (take m (visible ex_dirents)) 2 0.
Proof.
  destruct (tread_lists_directory (fun h _ => next_fd h) (fun _ _ => Some ex_dirents)
    (fun _ _ _ _ => None) (fun _ _ => true) 5 40 (ex_ready <| g_fid_map := two_fids |>)
    (mk_fid 5 10 1 128 []) ex_dirents) as (m & data & H1 & _ & H2 & _);
    try reflexivity; try (cbn; lia).
  - vm_compute. discriminate.
  - repeat constructor; cbn; lia.
  - exists m, data. split; [exact H1|exact H2].
Defined.
End Plan9WalkThm.

Import StateM Plan9Life.

Module Plan9LifeThm.

(** Descriptors obtained and closed by a log. *)
Definition got (h : list life_call) : list Z :=
  omap (fun c => match c with Got fd => Some fd | _ => None end) h.
Definition closed (h : list life_call) : list Z :=
  omap (fun c => match c with Close fd => Some fd | _ => None end) h.
Definition signals (h : list life_call) : list (Z * Z) :=
  omap (fun c => match c with Kill pid sig => Some (pid, sig) | _ => None end) h.
Definition polls (h : list life_call) : nat :=
  length (omap (fun c => match c with Waitpid _ true => Some tt | _ => None end) h).
Definition reaped (h : list life_call) (pid : Z) : Prop := Waitpid pid false ∈ h.

Definition start (freebsd : bool) (e : start_env) : LM start_result :=
  if freebsd then plan9_start_server e else stub_start_server e.
Definition stop (freebsd force : bool) (answers : list Z) (dir : option (list (bytes * bool))) : LM bool :=
  if freebsd then plan9_stop_server force answers else stub_stop_server force answers dir.

(** The same, apart from the pipe, the directory and the log. *)
Definition same_server (s s' : plan9) : Prop :=
  child_pid s' = child_pid s /\ port s' = port s /\ started s' = started s.

Lemma list_count_perm (l1 l2 : list Z) :
  (forall x, count_occ Z.eq_dec l1 x = count_occ Z.eq_dec l2 x) -> l1 ≡ₚ l2.
Proof. by rewrite <-Permutation_count_occ. Qed.

Ltac perm :=
  apply list_count_perm; let x := fresh in intros x; cbn [app count_occ];
  repeat destruct (Z.eq_dec _ x); lia.

Ltac run :=
  cbv -[Z.ltb Z.eqb Z.lt got closed same_server temp_template app strcmp_eq].

(** Run the code, and split on the first test it is stuck at. *)
Ltac decide_next :=
  match goal with
  | H : ?b = true |- context [if ?b then _ else _] => rewrite H
  | H : ?b = false |- context [if ?b then _ else _] => rewrite H
  | |- context [if ?b then _ else _] => is_var b; destruct b
  | |- context [if ?x <? 0 then _ else _] => is_var x; destruct (x <? 0) eqn:?
  | |- context [if ?x =? 0 then _ else _] => is_var x; destruct (x =? 0) eqn:?
  | |- context [match ?x with Some _ => _ | None => _ end] => is_var x; destruct x as [[? ?]|]
  end; run.

Lemma start_spec (freebsd : bool) (e : start_env) (s : plan9) :
  started s = false -> calls s = [] ->
  let '(r, s') := start freebsd e s in
  match r with
  | Port 0 => same_server s s' /\ got (calls s') ≡ₚ closed (calls s')
  | Port p => p = (if freebsd then 50001 else 50009) /\ port s' = p /\ started s' = true
      /\ child_pid s' = fork_pid e /\ 0 < child_pid s'
      /\ got (calls s') ≡ₚ fst (control_pipe s') :: closed (calls s')
  | In_child listen_fd rootfd control_fd =>
      got (calls s') ≡ₚ [listen_fd; control_fd] ++ (if freebsd then [rootfd] else []) ++ closed (calls s')
  end.
Proof.
  intros Hs Hc. destruct e as [rfd sfd bok lok pfds fpid tr mk], s as [cp p st pipe rp h]. cbn in Hs, Hc.
  subst st h. destruct freebsd; run; [|destruct (mk _) as [path|]; run];
    repeat decide_next; bool_to_prop; try (split; [repeat split|cbn; perm]).
  all: try (cbn; perm).
  all: repeat (split; [lia || done|]); cbn; perm.
Qed.

(** The port the server reports. *)
Lemma start_port e s r s' :
  started s = false -> calls s = [] -> port s = 0 -> fork_pid e <> 0 ->
  plan9_start_server e s = (r, s') ->
  exists p, r = Port p /\ (p = 0 \/ p = 50001) /\ port s' = p.
Proof.
  intros Hs Hc Hp Hf E. pose proof (start_spec true e s Hs Hc) as H. cbn [start] in H. rewrite E in H.
  destruct r as [p|l rt c].
  - exists p. split; [done|]. destruct p as [|q|q].
    + destruct H as [(_ & H & _) _]. split; [by left|congruence].
    + destruct H as (-> & H & _). by split; [right|].
    + by destruct H as (? & _).
  - exfalso. clear H. unfold plan9_start_server, mbind, M_bind, get in E. rewrite Hs in E.
    destruct (take_fd (root_fd e) s) as [rootfd s1]. destruct (rootfd <? 0); [done|].
    destruct (plan9_bind_hvsocket e _ s1) as [lfd s2].
    destruct (lfd <? 0); [done|]. unfold finish_start in E. apply Z.eqb_neq in Hf.
    destruct (pipe_fds e) as [[rd wr]|]; [|done].
    unfold mbind, M_bind, log, set_pipe, modify in E. cbv beta iota in E. rewrite Hf in E.
    destruct (fork_pid e <? 0); [|].
    + destruct (close_all [lfd; rootfd] _) as [u s3]. done.
    + unfold close, log, modify in E. destruct (close_all [lfd; rootfd] _) as [u s3]. done.
Qed.

(** Starting the server, in both builds: when any step fails 0 is returned,
    the server counts as not started, and every descriptor taken on the way is
    closed exactly once; in the parent a success records the child and keeps only
    the read end of the pipe; the child keeps the listener, the root and the write
    end. *)
Theorem start_outcomes (freebsd : bool) (e : start_env) (s : plan9) :
  started s = false -> calls s = [] ->
  let '(r, s') := start freebsd e s in
  match r with
  | Port 0 => same_server s s' /\ got (calls s') ≡ₚ closed (calls s')
  | Port p => p = (if freebsd then 50001 else 50009) /\ port s' = p /\ started s' = true
      /\ child_pid s' = fork_pid e /\ 0 < child_pid s'
      /\ got (calls s') ≡ₚ fst (control_pipe s') :: closed (calls s')
  | In_child listen_fd rootfd control_fd =>
      got (calls s') ≡ₚ [listen_fd; control_fd] ++ (if freebsd then [rootfd] else []) ++ closed (calls s')
  end.
Proof. apply start_spec. Qed.

Definition ex_env : start_env :=
  mk_env 3 4 true false (Some (5, 6)) 77 [] (fun p => Some p).

Lemma start_outcomes_witness :
  started plan9_initial = false
  /\ got (calls (snd (start true ex_env plan9_initial)))
     ≡ₚ closed (calls (snd (start true ex_env plan9_initial))).
Proof.
  split; [reflexivity|]. exact (proj2 (start_outcomes true ex_env plan9_initial eq_refl eq_refl)).
Defined.

(** * Stopping *)
Definition still_runs (pid rc : Z) : bool := negb (rc =? pid) && negb (rc <? 0).
(** The child is running at each of the next [n] polls. *)
Fixpoint outlives (n : nat) (pid : Z) (answers : list Z) : bool :=
  match n with
  | O => true
  | S n' => still_runs pid (hd 0 answers) && outlives n' pid (tl answers)
  end.

(** A log without descriptors and signals. *)
Definition calm (h : list life_call) : Prop := got h = [] /\ closed h = [] /\ signals h = [].

Lemma wait_loop_spec n pid answers s :
  exists h, wait_loop n pid answers s
      = (negb (outlives n pid answers), s <| calls := calls s ++ h |>)
    /\ calm h /\ (polls h <= n)%nat.
Proof.
  revert answers s; induction n as [|n IH]; intros answers s; cbn [wait_loop outlives].
  - exists []. rewrite app_nil_r. split; [by destruct s|]. by repeat split.
  - unfold mbind, M_bind, log, modify, still_runs.
    destruct (hd 0 answers =? pid); [exists [Waitpid pid true]; split; [done|]; split; [by repeat split|cbn; lia]|].
    destruct (hd 0 answers <? 0); [exists [Waitpid pid true]; split; [done|]; split; [by repeat split|cbn; lia]|]. cbn [negb andb].
    destruct (IH (tl answers) (s <| calls := (calls s ++ [Waitpid pid true]) ++ [Usleep 100000] |>))
      as (h & E & (H1 & H2 & H3) & Hp).
    exists (Waitpid pid true :: Usleep 100000 :: h). split;
      [|split; [done|change (S (polls h) <= S n)%nat; lia]].
    etransitivity; [exact E|]. cbn. by rewrite <-!app_assoc.
Qed.

Lemma clean_entries_spec root l s :
  exists h, for_each l (clean_entry root) s = (tt, s <| calls := calls s ++ h |>)
    /\ calm h /\ polls h = 0%nat.
Proof.
  revert s; induction l as [|[name d] l IH]; intros s; cbn [for_each].
  - exists []. rewrite app_nil_r. split; [by destruct s|]. by repeat split.
  - unfold mbind, M_bind, clean_entry, log, modify.
    destruct (_ || _); [apply IH|]. set (path := snprintf_s _ _).
    set (c := if d then Rmdir path else Unlink path).
    destruct (IH (s <| calls := calls s ++ [c] |>)) as (h & E & (H1 & H2 & H3) & H4).
    exists (c :: h). split; [|by destruct d].
    transitivity (for_each l (clean_entry root) (s <| calls := calls s ++ [c] |>)); [by destruct d|].
    rewrite E. cbn. by rewrite <-app_assoc.
Qed.

Lemma stub_clean_spec dir s :
  exists h root, stub_clean dir s = (tt, s <| calls := calls s ++ h |> <| g_root_path := root |>)
    /\ calm h /\ polls h = 0%nat.
Proof.
  unfold stub_clean, mbind, M_bind, get. destruct (is_empty (g_root_path s)) eqn:Er.
  - exists [], (g_root_path s). rewrite app_nil_r. split; [by destruct s|]. by repeat split.
  - set (root := g_root_path s). destruct dir as [l|].
    + destruct (clean_entries_spec root l s) as (h & E & (H1 & H2 & H3) & H4).
      exists (h ++ [Rmdir root]), []. rewrite E. cbn. rewrite <-app_assoc. split; [done|].
      unfold calm, got, closed, signals, polls in *. rewrite !omap_app, H1, H2, H3.
      split; [done|]. by rewrite length_app, H4.
    + exists [Rmdir root], []. split; [done|]. by repeat split.
Qed.

Lemma signal_child_spec limit wk force pid answers s :
  exists h, signal_child limit wk force pid answers s = (tt, s <| calls := calls s ++ h |>)
    /\ got h = [] /\ closed h = [] /\ (polls h <= if force then 0 else limit)%nat
    /\ signals h = (if force then [(pid, SIGKILL)]
         else (pid, SIGTERM) :: if outlives limit pid answers then [(pid, SIGKILL)] else []).
Proof.
  unfold signal_child. destruct force.
  { exists [Kill pid SIGKILL]. do 3 (split; [done|]). split; [cbn; lia|done]. }
  unfold mbind, M_bind, log at 1, modify at 1.
  set (s1 := s <| calls := _ |>).
  destruct (wait_loop_spec limit pid answers s1) as (h & E & (H1 & H2 & H3) & Hp). rewrite E.
  unfold got, closed, polls, signals in *. destruct (outlives limit pid answers); cbn [negb].
  - exists ((Kill pid SIGTERM :: h) ++ Kill pid SIGKILL :: if wk then [Waitpid pid false] else []).
    split; [unfold log, modify, when, skip, s1; destruct wk; cbn; by rewrite <-!app_assoc|].
    rewrite !omap_app. cbn. rewrite H1, H2, H3. destruct wk; cbn; rewrite ?length_app; cbn; repeat split; lia.
  - exists (Kill pid SIGTERM :: h). split; [unfold skip, s1; cbn; by rewrite <-app_assoc|]. cbn. by rewrite H1, H2, H3.
Qed.

Lemma reap_spec pid (s : plan9) :
  0 <= fst (control_pipe s) ->
  reap pid s = (tt, s <| calls := calls s ++ [Waitpid pid false; Close (fst (control_pipe s))] |>
                      <| control_pipe := (-1, snd (control_pipe s)) |>).
Proof.
  intros H. unfold reap, mbind, M_bind, log, modify, get. cbn [control_pipe upd].
  destruct s as [cp p st [rd wr] rp h]. cbn in *.
  replace (rd <? 0) with false by (symmetry; by apply Z.ltb_ge). cbn. by rewrite <-app_assoc.
Qed.

(** Both builds: the signals, the reaping, what the stub cleans. *)
Lemma stop_spec (freebsd force : bool) answers dir (s : plan9) :
  started s = true -> 0 <= child_pid s -> 0 <= fst (control_pipe s) ->
  let limit := if freebsd then 50%nat else 30%nat in
  let pid := child_pid s in
  exists h h2 s', stop freebsd force answers dir s = (true, s')
    /\ calls s' = calls s ++ (h ++ [Waitpid pid false; Close (fst (control_pipe s))]) ++ h2
    /\ got h = [] /\ closed h = [] /\ (polls h <= if force then 0 else limit)%nat
    /\ signals h = (if force then [(pid, SIGKILL)]
         else (pid, SIGTERM) :: if outlives limit pid answers then [(pid, SIGKILL)] else [])
    /\ calm h2 /\ polls h2 = 0%nat
    /\ child_pid s' = -1 /\ started s' = false /\ port s' = 0 /\ fst (control_pipe s') = -1.
Proof.
  intros Hs Hpid Hrd limit pid.
  destruct (signal_child_spec limit freebsd force pid answers s) as (h & E & Hg & Hc & Hp & Hsig).
  set (s1 := s <| calls := calls s ++ h |>) in *.
  set (s2 := s1 <| calls := calls s1 ++ [Waitpid pid false; Close (fst (control_pipe s1))] |>
               <| control_pipe := (-1, snd (control_pipe s1)) |>).
  assert (Er : reap pid s1 = (tt, s2)) by (by apply reap_spec).
  assert (Hn : not_running s = false).
  { unfold not_running. rewrite Hs. cbn. by apply Z.ltb_ge. }
  assert (Hcalls : calls s2 = calls s ++ h ++ [Waitpid pid false; Close (fst (control_pipe s))])
    by (cbn; by rewrite <-app_assoc).
  destruct freebsd; cbn [stop].
  - unfold plan9_stop_server, mbind, M_bind, get. rewrite Hn. fold pid.
    change 50%nat with limit. rewrite E, Er.
    exists h, [], (s2 <| child_pid := -1 |> <| started := false |> <| port := 0 |>).
    rewrite app_nil_r. repeat (split; [done|]). by repeat split.
  - destruct (stub_clean_spec dir s2) as (h2 & root & E2 & Hcalm & Hp2).
    unfold stub_stop_server, mbind, M_bind, get. rewrite Hn. fold pid.
    change 30%nat with limit. rewrite E, Er, E2.
    eexists h, h2, _. split; [reflexivity|]. split; [cbn; by rewrite <-!app_assoc|].
    repeat (split; [done|]). by repeat split.
Qed.

(** C28: stopping the server, in both builds: whatever waitpid answers it ends,
    after at most 50 (production) or 30 (stub) polls; the child gets SIGTERM, and
    SIGKILL exactly when it is still running after the last poll (only SIGKILL,
    and no poll, when forced); it is reaped by a blocking wait, the read end of
    the pipe is closed once and the server no longer runs. *)
Theorem stop_terminates (freebsd force : bool) (answers : list Z)
    (dir : option (list (bytes * bool))) (s : plan9) :
  started s = true -> 0 <= child_pid s -> 0 <= fst (control_pipe s) ->
  let limit := if freebsd then 50%nat else 30%nat in
  exists new s', stop freebsd force answers dir s = (true, s')
    /\ calls s' = calls s ++ new
    /\ plan9_is_running s' = false /\ plan9_get_port s' = 0 /\ fst (control_pipe s') = -1
    /\ (polls new <= if force then 0 else limit)%nat
    /\ signals new = (if force then [(child_pid s, SIGKILL)]
                      else (child_pid s, SIGTERM)
                           :: if outlives limit (child_pid s) answers then [(child_pid s, SIGKILL)] else [])
    /\ reaped new (child_pid s) /\ got new = [] /\ closed new = [fst (control_pipe s)].
Proof.
  intros Hs Hpid Hrd limit.
  destruct (stop_spec freebsd force answers dir s Hs Hpid Hrd) as
    (h & h2 & s' & E & Hcalls & Hg & Hc & Hp & Hsig & (Hg2 & Hc2 & Hs2) & Hp2 & H1 & H2 & H3 & H4).
  eexists _, s'. split; [exact E|]. split; [exact Hcalls|].
  unfold plan9_is_running, plan9_get_port, got, closed, polls, signals, reaped in *.
  rewrite H2, H3, H4, !omap_app, Hg, Hc, Hg2, Hc2, Hs2, Hsig. cbn. rewrite !app_nil_r.
  repeat (split; [done|]). split; [rewrite !length_app, Hp2; cbn [length]; fold limit in Hp; lia|].
  split; [done|]. split; [set_solver|]. done.
Qed.

Definition ex_running : plan9 := mk_plan9 77 50001 true (5, -1) [] [].

Lemma stop_terminates_witness :
  started ex_running = true
  /\ (exists new s', stop true false [0; 0; 77] None ex_running = (true, s')
       /\ signals new = [(77, SIGTERM)] /\ (polls new <= 50)%nat).
Proof.
  split; [reflexivity|].
  destruct (stop_terminates true false [0; 0; 77] None ex_running eq_refl ltac:(cbn; lia)
    ltac:(cbn; lia)) as (new & s' & E & _ & _ & _ & _ & Hp & Hs & _).
  exists new, s'. split; [exact E|]. split; [exact Hs|exact Hp].
Defined.

(** The read of the pipe ends the same way when the child failed to start: the
    parent reports success. *)
Example failed_child_counts_as_started :
  fst (fst (plan9_child_run false true [])) = Some 1
  /\ fst (start true (mk_env 3 4 true true (Some (5, 6)) 77 [] (fun p => Some p)) plan9_initial)
     = Port 50001.
Proof. done. Qed.

(** A directory below the stub's root is not emptied before its rmdir. *)
Example stub_clean_is_one_level :
  calls (snd (stub_clean (Some [(str "d", true); (str "f", false)])
                (plan9_initial <| g_root_path := str "/tmp/r" |>)))
  = [Rmdir (str "/tmp/r/d"); Unlink (str "/tmp/r/f"); Rmdir (str "/tmp/r")].
Proof. by vm_compute. Qed.
End Plan9LifeThm.
