(* ===== verification/Relay.v ===== *)
(** StartSocketRelay (src/FreeBSD/gns_engine.h): the listener and the relay
    daemon that the init forks for a port, and the copying loop of one connection. *)
From S2P Require Import Prelude CStr CNum.

Module Relay.

Definition sizeof_start_socket_relay : Z := 32.

Inductive relay_call : Type :=
| Got (fd : Z)
| Close (fd : Z)
| Bind (fd port : Z)
| Listen (fd backlog : Z)
| Fork (pid : Z).

(** What socket, bind, listen and fork return. *)
Record relay_env : Type := mk_relay_env {
  r_socket : Z; r_bind : bool; r_listen : bool; r_fork : Z
}.

(** The return value, with the daemon's pid and the host's port when it was
    started; or the daemon itself, with its listener. *)
Inductive relay_result : Type :=
| Failed
| Started (pid host_port : Z)
| In_daemon (listen_fd host_port : Z).

Definition to_s32 (x : Z) : Z := if x <? 2 ^ 31 then x else x - 2 ^ 32.

Definition gns_handle_start_socket_relay (init_fd : Z) (e : relay_env) (msg : bytes) :
    list relay_call * relay_result :=
  if Z.of_nat (length msg) <? sizeof_start_socket_relay then ([], Failed)
  else
    let port := get16 14 msg in
    let hv_socket_port := to_s32 (get32 16 msg) in
    let fd := r_socket e in
    if fd <? 0 then ([], Failed)
    else if negb (r_bind e) then ([Got fd; Bind fd port; Close fd], Failed)
    else if negb (r_listen e) then ([Got fd; Bind fd port; Listen fd 16; Close fd], Failed)
    else
      let ops := [Got fd; Bind fd port; Listen fd 16; Fork (r_fork e)] in
      if r_fork e <? 0 then (ops ++ [Close fd], Failed)
      else if r_fork e =? 0 then (ops ++ [Close init_fd], In_daemon fd hv_socket_port)
      else (ops ++ [Close fd], Started (r_fork e) hv_socket_port).

(** * The daemon: one event per accept *)
Inductive accept_event : Type :=
| Accept_intr
| Accept_failed
| Accepted (client_fd pid : Z).

(** What the daemon did, and whether its loop ended; a client whose fork
    returned 0 is relayed by that process, which is told apart by its client. *)
Inductive daemon_end : Type := Listening | Finished | Serving (client_fd : Z).

Fixpoint daemon_loop (listen_fd : Z) (evs : list accept_event) : list relay_call * daemon_end :=
  match evs with
  | [] => ([], Listening)
  | Accept_intr :: evs' => daemon_loop listen_fd evs'
  | Accept_failed :: _ => ([], Finished)
  | Accepted fd pid :: evs' =>
    if pid =? 0 then ([Got fd; Fork pid; Close listen_fd], Serving fd)
    else
      let '(ops, e) := daemon_loop listen_fd evs' in (Got fd :: Fork pid :: Close fd :: ops, e)
  end.

(** * One connection *)

(** What one recv returns, and whether the send_all of its data succeeds. *)
Inductive side : Type :=
| Quiet
| Gone
| Data (d : bytes) (sent : bool).

Inductive poll_event : Type :=
| Poll_intr
| Poll_stop
| Ready (client host : side).

Record copied : Type := mk_copied { to_host : bytes; to_client : bytes }.
#[export] Instance copied_eta : Eta copied := fun r => mk_copied (to_host r) (to_client r).

(** One direction: the data passed on, and whether the loop goes on. *)
Definition relay_side (s : side) (out : bytes) : bytes * bool :=
  match s with
  | Quiet => (out, true)
  | Gone => (out, false)
  | Data d sent => if sent : bool then (out ++ d, true) else (out, false)
  end.

Fixpoint relay_loop (evs : list poll_event) (c : copied) : copied * bool :=
  match evs with
  | [] => (c, false)
  | Poll_intr :: evs' => relay_loop evs' c
  | Poll_stop :: _ => (c, true)
  | Ready client host :: evs' =>
    let '(h, go) := relay_side client (to_host c) in
    if go : bool then
      let '(k, go) := relay_side host (to_client c) in
      let c := mk_copied h k in
      if go : bool then relay_loop evs' c else (c, true)
    else (c <| to_host := h |>, true)
  end.

(** gns_relay_connection: [host_fd] is the socket connected to the host's port, if
    it could be; the result is the data each side got, the calls on the socket, and
    whether it returned. *)
Definition gns_relay_connection (host_fd : Z) (connected : bool) (evs : list poll_event) :
    copied * list relay_call * bool :=
  if host_fd <? 0 then (mk_copied [] [], [], true)
  else if negb connected then (mk_copied [] [], [Got host_fd; Close host_fd], true)
  else
    let '(c, ended) := relay_loop evs (mk_copied [] []) in
    (c, Got host_fd :: (if ended : bool then [Close host_fd] else []), ended).
End Relay.
