(* ===== verification/Session.v ===== *)
(** The session loop of the bridge (run_session in src/FreeBSD/hvbridge.c): one
    iteration of the poll loop as a function of what the system calls of that
    iteration report, the loop, its start and its clean-up.  What the bridge
    does is the trace of its actions, in order; [Send_*] is a call of send_all,
    whose transfer is the subject of the file Wire. *)
From S2P Require Import Prelude CStr CNum Wire Framing Interop TermNotify SysOps CreateProc.
Import Wire Framing TermNotify.

Module Session.

Definition LxInitMessageNetworkInformation : Z := 4.
Definition LxInitMessageTimezoneInformation : Z := 7.
Definition LxInitMessageExitStatus : Z := 9.
Definition LxInitMessageWindowSizeChanged : Z := 10.
Definition LxInitMessageTerminateInstance : Z := 14.

Inductive signal : Type := SIGHUP | SIGKILL.

Inductive action : Type :=
| Kill (s : signal)                    (** kill(pid, s) *)
| Reap (status : option Z)             (** waitpid returned pid; [None]: the blocking one *)
| Send_control (msg : bytes)
| Send_stdout (data : bytes)
| Send_channel (data : bytes)
| Send_interop (msg : bytes)
| Write_pty (data : bytes)
| Set_winsize (rows cols : Z)          (** ioctl TIOCSWINSZ *)
| Sys (op : sysop)
| Start_process (p : Interop.spawn)    (** the child of an interop CreateProcess *)
| Relay_local                          (** wsl_interop_try_accept with the control channel *)
| Read_past_end                        (** a string is read beyond its message *)
| Close_master
| Close_local                          (** the listener of the local interop socket *)
| Unlink_socket.                       (** wsl_interop_cleanup *)

(** * State *)
Record session : Type := mk_session {
  host_disconnected : bool;
  child_reaped : bool;
  sighup_sent : bool;
  sigkill_sent : bool;
  session_done : bool;
  shutdown_deadline : Z;
  last_size_check : Z;
  fst_ : font_size_tracker;
  bct : bg_color_tracker;
  cr : reader;
  ir : reader;
  stdin_open : bool;                   (** stdin_fd >= 0 *)
  exit_code : Z
}.
#[export] Instance session_eta : Eta session := fun r =>
  mk_session (host_disconnected r) (child_reaped r) (sighup_sent r) (sigkill_sent r) (session_done r)
    (shutdown_deadline r) (last_size_check r) (fst_ r) (bct r) (cr r) (ir r) (stdin_open r) (exit_code r).

Definition session_init (rows cols now : Z) : session :=
  mk_session false false false false false 0 now (font_size_tracker_init rows cols 0 0)
    bg_color_tracker_init (mk_reader []) interop_reader_init true (-1).

(** * What an iteration sees *)
Record winsize : Type := mk_ws { ws_row : Z; ws_col : Z; ws_xpixel : Z; ws_ypixel : Z }.

Inductive poll_rc : Type := Poll_eintr | Poll_failed | Poll_events.

(** [ev_now]: time() at the start of the iteration, [ev_later]: when a shutdown
    begins in it.  [ev_winsize], [ev_sync]: the TIOCGWINSZ of the periodic check
    and of a WindowSizeChanged message.  [ev_killed], [ev_exit]: the wait status
    when the child has exited at the wait after SIGKILL, or at the one of
    SIGCHLD.  [ev_drain]: the reads that empty the terminal after
    the exit, each with the success of the send that follows it.  The others
    are the readable descriptors with what a read of each returns. *)
Record events : Type := mk_events {
  ev_poll : poll_rc; ev_terminate : bool; ev_now : Z; ev_later : Z;
  ev_winsize : option winsize; ev_sync : option winsize;
  ev_killed : option Z; ev_sigchld : bool; ev_exit : option Z; ev_drain : list (bytes * bool);
  ev_control : option recv_result; ev_stdin : option recv_result; ev_pty : option bytes;
  ev_channel : option bytes; ev_interop : option recv_result; ev_local : bool;
  ev_resolv_ok : bool
}.

Section Session.
(** [has_channel], [has_interop], [has_local]: the descriptor is not -1;
    [exit_status]: WIFEXITED ? WEXITSTATUS : -1. *)
Context (has_channel has_interop has_local : bool) (exit_status : Z -> Z).
Context (interop_handle : bytes -> Interop.handled).

(** A wait for the child succeeds only once. *)
Definition waitpid (st : session) (status : option Z) : option Z :=
  if child_reaped st then None else status.

(** * Messages to the host *)
Definition exit_message (code : Z) : bytes :=
  header_bytes (mk_header LxInitMessageExitStatus 16 1) ++ le_bytes 4 (u32 code).
Definition window_size_message (rows cols : Z) : bytes :=
  header_bytes (mk_header LxInitMessageWindowSizeChanged 16 0) ++ le_bytes 2 rows ++ le_bytes 2 cols.
Definition nack_message (seq : Z) : bytes :=
  header_bytes (mk_header 76 16 seq) ++ le_bytes 4 0.

Definition notify_host_window_size (rows cols : Z) : list action :=
  [Send_control (window_size_message rows cols)].
Definition update_pty_winsize (rows cols : Z) : list action :=
  if (rows =? 0) || (cols =? 0) then [] else [Set_winsize rows cols].

(** * The blocks of one iteration *)

(** SIGKILL once the deadline has passed. *)
Definition escalate (now : Z) (status : option Z) (st : session) : session * list action :=
  if host_disconnected st && negb (child_reaped st) && negb (sigkill_sent st)
     && (shutdown_deadline st <=? now)
  then
    let st := st <| sigkill_sent := true |> in
    match waitpid st status with
    | Some s => (st <| child_reaped := true |> <| session_done := true |>, [Kill SIGKILL; Reap (Some s)])
    | None => (st, [Kill SIGKILL])
    end
  else (st, []).

(** The size the terminal has now, at most once per second. *)
Definition check_size (now : Z) (ws : option winsize) (st : session) : session * list action :=
  if negb (host_disconnected st) && (1 <=? now - last_size_check st) then
    let st := st <| last_size_check := now |> in
    match ws with
    | None => (st, [])
    | Some w =>
      let notify :=
        if negb (ws_row w =? tracked_rows (fst_ st)) || negb (ws_col w =? tracked_cols (fst_ st))
        then notify_host_window_size (ws_row w) (ws_col w) else [] in
      (st <| fst_ := fst (font_size_check_change (fst_ st) (ws_row w) (ws_col w) (ws_xpixel w) (ws_ypixel w)) |>,
       notify)
    end
  else (st, []).

(** The terminal's remaining output: to the host, until a send fails. *)
Fixpoint drain (connected : bool) (chunks : list (bytes * bool)) : list action :=
  match chunks with
  | [] => []
  | (data, ok) :: chunks' =>
    if connected then Send_stdout data :: (if ok : bool then drain connected chunks' else [])
    else drain connected chunks'
  end.

(** The exit of the child; [true] leaves the loop. *)
Definition sigchld (readable : bool) (status : option Z) (chunks : list (bytes * bool)) (st : session) :
    session * list action * bool :=
  if readable then
    match waitpid st status with
    | Some s =>
      let st := st <| child_reaped := true |> <| session_done := true |> in
      let out := drain (negb (host_disconnected st)) chunks in
      if host_disconnected st then (st, Reap (Some s) :: out, true)
      else
        let code := exit_status s in
        (st <| exit_code := code |>, Reap (Some s) :: out ++ [Send_control (exit_message code)], true)
    | None => (st, [], false)
    end
  else (st, [], false).

(** The graceful shutdown after the host closed the control channel or asked
    for the end of the session. *)
Definition start_shutdown (now : Z) (st : session) : session * list action :=
  (st <| host_disconnected := true |> <| bct := bg_color_tracker_reset_sniffer (bct st) |>
      <| sighup_sent := true |> <| shutdown_deadline := now + 5 |>,
   if sighup_sent st then [] else [Kill SIGHUP]).

(** A string in a message of the control channel, at an offset of the reader's
    buffer: it is read to its NUL, wherever that is. *)
Definition control_string (off : Z) (st : session) : option bytes :=
  let p := drop (Z.to_nat off) (buf (cr st)) in
  if nul_terminated p then Some (to_cstr p) else None.

Definition control_message (ev : events) (msg : bytes) (st : session) : session * list action :=
  let hdr := read_header msg in
  let ty := MessageType hdr in
  let size := MessageSize hdr in
  if ty =? LxInitMessageWindowSizeChanged then
    if 16 <=? size then
      let rows := get16 12 msg in let cols := get16 14 msg in
      let '(x, y) :=
        match ev_sync ev with
        | Some w => (ws_xpixel w, ws_ypixel w)
        | None => (tracked_xpixel (fst_ st), tracked_ypixel (fst_ st))
        end in
      (st <| fst_ := font_size_sync_after_resize (fst_ st) rows cols x y |>, update_pty_winsize rows cols)
    else (st, [])
  else if ty =? LxInitMessageTerminateInstance then start_shutdown (ev_later ev) st
  else if ty =? LxInitMessageNetworkInformation then
    if 20 <=? size then
      if get32 16 msg <? size - 20 then
        if ev_resolv_ok ev then
          (st, match control_string (20 + get32 16 msg) st with
               | Some content => [Sys (Write_file (str "/etc/resolv.conf") content)]
               | None => [Read_past_end]
               end)
        else (st, [])
      else (st, [])
    else (st, [])
  else if ty =? LxInitMessageTimezoneInformation then
    if 16 <=? size then
      if get32 12 msg <? size - 16 then
        (st, match control_string (16 + get32 12 msg) st with
             | Some zone =>
               [Sys (Unlink (str "/etc/localtime"));
                Sys (Symlink (snprintf_s 256 (str "/usr/share/zoneinfo/" ++ zone)) (str "/etc/localtime"))]
             | None => [Read_past_end]
             end)
      else (st, [])
    else (st, [])
  else (st, [Send_control (nack_message (SequenceNumber hdr))]).

(** The control channel: at most one message. *)
Definition control (ev : events) (st : session) : session * list action :=
  match ev_control ev with
  | Some r =>
    if host_disconnected st then (st, [])
    else
      match control_try_read (cr st) r with
      | (cr', Bad) => start_shutdown (ev_later ev) (st <| cr := cr' |>)
      | (cr', Need_more) => (st <| cr := cr' |>, [])
      | (cr', Message msg) =>
        let '(st, acts) := control_message ev msg (st <| cr := cr' |>) in
        (st <| cr := control_consume (cr st) (MessageSize (read_header msg)) |>, acts)
      end
  | None => (st, [])
  end.

Definition stdin_to_pty (r : option recv_result) (st : session) : session * list action :=
  if negb (host_disconnected st) && stdin_open st then
    match r with
    | Some (Recv_data data) => (st, [Write_pty data])
    | Some Recv_eof | Some Recv_error => (st <| stdin_open := false |>, [])
    | Some Recv_again | None => (st, [])
    end
  else (st, []).

Definition pty_to_stdout (r : option bytes) (st : session) : session * list action :=
  match r with
  | Some data =>
    if host_disconnected st then (st, [])
    else (st <| bct := feed (bct st) data |>, [Send_stdout data])
  | None => (st, [])
  end.

Definition channel_echo (r : option bytes) (st : session) : list action :=
  match r with
  | Some data => if negb (host_disconnected st) && has_channel then [Send_channel data] else []
  | None => []
  end.

(** A closed interop channel stays in the poll set: only the entry of this
    iteration is cleared. *)
Definition interop (r : option recv_result) (st : session) : session * list action :=
  match r with
  | Some r =>
    if negb (host_disconnected st) && has_interop then
      match interop_try_read (ir st) r with
      | (ir', Message msg) =>
        (st <| ir := interop_consume ir' (MessageSize (read_header msg)) |>,
         match interop_handle msg with
         | Interop.Handled replies started =>
           match started with Some p => [Start_process p] | None => [] end ++ map Send_interop replies
         | Interop.Past_end => [Read_past_end]
         end)
      | (ir', _) => (st <| ir := ir' |>, [])
      end
    else (st, [])
  | None => (st, [])
  end.

Definition local_interop (readable : bool) : list action :=
  if has_local && readable then [Relay_local] else [].

(** * One iteration *)

(** The result tells whether the loop is left. *)
Definition iteration (ev : events) (st : session) : session * list action * bool :=
  match ev_poll ev with
  | Poll_eintr => (st, [], ev_terminate ev)
  | Poll_failed =>
    if child_reaped st then (st, [], true)
    else (st <| child_reaped := true |>, [Kill SIGKILL; Reap None], true)
  | Poll_events =>
    if ev_terminate ev then (st, [], true)
    else
      let '(st, a1) := escalate (ev_now ev) (ev_killed ev) st in
      let '(st, a2) := check_size (ev_now ev) (ev_winsize ev) st in
      let '(st, a3, leave) := sigchld (ev_sigchld ev) (ev_exit ev) (ev_drain ev) st in
      if leave : bool then (st, a1 ++ a2 ++ a3, true)
      else
        let '(st, a4) := control ev st in
        let '(st, a5) := stdin_to_pty (ev_stdin ev) st in
        let '(st, a6) := pty_to_stdout (ev_pty ev) st in
        let a7 := channel_echo (ev_channel ev) st in
        let '(st, a8) := interop (ev_interop ev) st in
        let a9 := local_interop (ev_local ev) in
        (st, a1 ++ a2 ++ a3 ++ a4 ++ a5 ++ a6 ++ a7 ++ a8 ++ a9, session_done st)
  end.

(** The loop over the iterations; [true] when it was left. *)
Fixpoint poll_loop (evs : list events) (st : session) : session * list action * bool :=
  match evs with
  | [] => (st, [], false)
  | ev :: evs' =>
    let '(st, acts, leave) := iteration ev st in
    if leave : bool then (st, acts, true)
    else let '(st, acts', leave) := poll_loop evs' st in (st, acts ++ acts', leave)
  end.

Definition cleanup (st : session) : session * list action :=
  let reap := if child_reaped st then [] else [Kill SIGKILL; Reap None] in
  (st <| child_reaped := true |>,
   reap ++ [Close_master] ++ (if has_local then [Close_local] else []) ++ [Unlink_socket]).

(** * The session *)

(** The terminal size of the initial message, which is [None] before one was
    received. *)
Definition initial_size (msg : option bytes) : Z * Z :=
  match msg with
  | Some m => if 16 <=? Z.of_nat (length m) then (CreateProc.Rows m, CreateProc.Columns m) else (24, 80)
  | None => (24, 80)
  end.

(** [fork_ok]: forkpty succeeds.  [early]: the wait status of a child that has
    exited before the loop.  The second component is the return value, [None]
    while the loop runs. *)
Definition run_session (initial : option bytes) (fork_ok : bool) (early : option Z) (now : Z)
    (evs : list events) : list action * option Z :=
  if negb fork_ok then ([], Some (-1))
  else
    match early with
    | Some s =>
      ([Reap (Some s); Send_control (exit_message (exit_status s)); Close_master], Some (exit_status s))
    | None =>
      let '(rows, cols) := initial_size initial in
      let '(st, acts, leave) := poll_loop evs (session_init rows cols now) in
      if leave : bool then
        let '(st, acts') := cleanup st in (acts ++ acts', Some (exit_code st))
      else (acts, None)
    end.
End Session.

End Session.
