(* ===== verification/SessionThm.v ===== *)
(** Theorems on the detection of terminal changes (TermNotifyThm) and on the session's
    loop (SessionThm). *)
From S2P Require Import Prelude CStr CNum Wire Framing Interop TermNotify CreateProc SysOps Session.

Import TermNotify.

Module TermNotifyThm.

(** * The buffer *)
Definition buf_ok (t : bg_color_tracker) : Prop := Z.of_nat (length (osc_buf t)) < sizeof_osc_buf.

Lemma process_osc_frame t osc :
  state (tn_process_osc t osc) = state t /\ osc_buf (tn_process_osc t osc) = osc_buf t.
Proof.
  unfold tn_process_osc. destruct (list_eqb osc (str "11")); [done|].
  destruct (starts_with (str "11;") osc).
  - destruct (list_eqb _ _); [done|]. destruct (tn_parse_color _); [|done]. by destruct (_ || _).
  - by destruct (_ && _).
Qed.

Lemma feed_byte_buf_ok t b : buf_ok t -> buf_ok (fst (bg_color_feed_byte t b)).
Proof.
  unfold bg_color_feed_byte, buf_ok. intros H. destruct (state t); cbn [fst].
  - by destruct (b =? c_esc).
  - destruct (b =? c_rbrack); [done|]. by destruct (b =? c_esc).
  - destruct (b =? c_bel); cbn [fst]; [by rewrite (proj2 (process_osc_frame _ _))|].
    destruct (b =? c_esc); cbn [fst]; [done|]. case_if; [|done]. cbn.
    rewrite length_app. cbn [length]. unfold sizeof_osc_buf in *. lia.
  - destruct (b =? c_bslash); cbn [fst]; [by rewrite (proj2 (process_osc_frame _ _))|].
    by destruct (b =? c_esc).
Qed.

(** Whatever the terminal prints, the collected sequence and its
    terminator fit the sniffer's buffer. *)
Theorem sniffer_buffer_bounded s : Z.of_nat (length (osc_buf (feed bg_color_tracker_init s))) < sizeof_osc_buf.
Proof.
  assert (buf_ok bg_color_tracker_init) as H by (unfold buf_ok, sizeof_osc_buf; cbn; lia).
  revert H. generalize bg_color_tracker_init. induction s as [|b s IH]; intros t H; [done|].
  unfold feed. cbn [fold_left]. apply IH. by apply feed_byte_buf_ok.
Qed.

(** * Complete sequences *)
Definition payload_byte (b : Z) : Prop := b <> c_bel /\ b <> c_esc /\ b <> 0.

Lemma feed_app t s1 s2 : feed t (s1 ++ s2) = feed (feed t s1) s2.
Proof. apply fold_left_app. Qed.

Lemma feed_payload t p :
  state t = TN_SNIFF_OSC -> Forall payload_byte p ->
  Z.of_nat (length (osc_buf t)) + Z.of_nat (length p) < sizeof_osc_buf ->
  feed t p = t <| osc_buf := osc_buf t ++ p |>.
Proof.
  intros Hs Hp. revert t Hs. induction Hp as [|b p (H1 & H2 & _) _ IH]; intros t Hs Hl.
  - rewrite app_nil_r. destruct t. cbn in Hs. by subst.
  - unfold feed. cbn [fold_left]. unfold bg_color_feed_byte at 2. rewrite Hs.
    apply Z.eqb_neq in H1, H2. rewrite H1, H2. cbn [fst length] in *.
    case_if; [|unfold sizeof_osc_buf in *; lia].
    fold (feed (t <| osc_buf := osc_buf t ++ [b] |>) p). rewrite IH; [|done|].
    + cbn. by rewrite <-app_assoc.
    + cbn. rewrite length_app. cbn [length]. lia.
Qed.

(** The text between two sequences. *)
Lemma feed_idle_text t s :
  state t = TN_SNIFF_IDLE -> Forall (fun b => b <> c_esc) s -> feed t s = t.
Proof.
  intros Ht Hs. induction Hs as [|b s Hb _ IH]; [done|]. unfold feed in *. cbn [fold_left].
  unfold bg_color_feed_byte at 2. rewrite Ht. apply Z.eqb_neq in Hb. by rewrite Hb.
Qed.

Inductive terminator : bytes -> Prop :=
| term_bel : terminator [c_bel]
| term_st : terminator [c_esc; c_bslash].

Definition osc (payload term : bytes) : bytes := [c_esc; c_rbrack] ++ payload ++ term.

Lemma feed_osc t p term :
  state t = TN_SNIFF_IDLE -> Forall payload_byte p -> Z.of_nat (length p) < sizeof_osc_buf ->
  terminator term ->
  exists t', feed t (osc p term) = t' /\ state t' = TN_SNIFF_IDLE
    /\ color_initialized t' = color_initialized (tn_process_osc t p)
    /\ tracked_color t' = tracked_color (tn_process_osc t p).
Proof.
  intros Hs Hp Hl Hterm. eexists. split; [reflexivity|]. unfold osc. rewrite feed_app.
  assert (feed t [c_esc; c_rbrack] = t <| state := TN_SNIFF_OSC |> <| osc_buf := [] |>) as ->.
  { unfold feed. cbn [fold_left]. unfold bg_color_feed_byte. rewrite Hs. done. }
  set (t0 := t <| state := TN_SNIFF_OSC |> <| osc_buf := [] |>).
  rewrite feed_app, (feed_payload t0 p eq_refl Hp) by exact Hl. change (osc_buf t0) with (@nil Z). cbn [app].
  assert (to_cstr p = p) as Hc.
  { apply to_cstr_all. eapply Forall_impl_hint; [exact Hp|]. by intros x (_ & _ & H). }
  set (t1 := t0 <| osc_buf := p |>).
  assert (feed t1 term = tn_process_osc (t <| state := TN_SNIFF_IDLE |> <| osc_buf := p |>) p) as ->.
  { transitivity (tn_process_osc (t <| state := TN_SNIFF_IDLE |> <| osc_buf := p |>) (to_cstr p));
      [by destruct Hterm|by rewrite Hc]. }
  rewrite (proj1 (process_osc_frame _ _)). split; [done|].
  unfold tn_process_osc. destruct (list_eqb p (str "11")); [done|].
  destruct (starts_with (str "11;") p).
  - destruct (list_eqb _ _); [done|]. destruct (tn_parse_color _); [|done]. cbn. by destruct (_ || _).
  - by destruct (_ && _).
Qed.

(** * Colors *)
Definition hex_digit (v : Z) : Z := if v <? 10 then 48 + v else 87 + v.
Definition hex_byte (v : Z) : bytes := [hex_digit (v / 16); hex_digit (v mod 16)].

Lemma digit_of_hex v : 0 <= v < 16 -> digit_of (hex_digit v) = Some v.
Proof.
  intros H. assert (v ∈ map Z.of_nat (seq 0 16)) as Hin.
  { apply list_elem_of_fmap. exists (Z.to_nat v). split; [lia|]. apply elem_of_seq. lia. }
  revert Hin. cbn [map seq]. intros Hin.
  repeat (apply elem_of_cons in Hin as [->|Hin]; [reflexivity|]). by apply elem_of_nil in Hin.
Qed.

Lemma hex_digit_plain v : 0 <= v < 16 ->
  isspace (hex_digit v) = false /\ hex_digit v <> 45 /\ hex_digit v <> 43 /\ tolower (hex_digit v) <> 120
  /\ payload_byte (hex_digit v).
Proof.
  intros H. assert (v ∈ map Z.of_nat (seq 0 16)) as Hin.
  { apply list_elem_of_fmap. exists (Z.to_nat v). split; [lia|]. apply elem_of_seq. lia. }
  revert Hin. cbn [map seq]. intros Hin. unfold payload_byte.
  repeat (apply elem_of_cons in Hin as [->|Hin]; [vm_compute; repeat split; discriminate|]).
  by apply elem_of_nil in Hin.
Qed.

(** Two hexadecimal digits are read as their value, with the rest of the text. *)
Lemma strtoul_hex v rest :
  0 <= v < 256 -> head_digit_in 16 rest = false ->
  strtoul 16 (hex_byte v ++ rest) = (v, Some rest).
Proof.
  intros Hv Hr. assert (0 <= v / 16 < 16) as H1 by (split; [apply Z.div_pos; lia|apply Z.div_lt_upper_bound; lia]).
  pose proof (Z.mod_pos_bound v 16 ltac:(lia)) as H2.
  destruct (hex_digit_plain _ H1) as (S1 & N1 & P1 & X1 & _).
  destruct (hex_digit_plain _ H2) as (S2 & N2 & P2 & X2 & _).
  unfold strtoul, strto_scan, hex_byte. cbn [app]. rewrite drop_while_head by done.
  apply Z.eqb_neq in N1, P1, X2. rewrite N1, P1. unfold strto_prefix. rewrite X2, andb_false_r. cbn [andb Z.eqb].
  unfold head_digit_in at 1, digit_in. rewrite digit_of_hex by done.
  replace (v / 16 <? 16) with true by (symmetry; apply Z.ltb_lt; lia).
  cbn [scan_digits]. rewrite !digit_of_hex by done.
  replace (v / 16 <? 16) with true by (symmetry; apply Z.ltb_lt; lia).
  replace (v mod 16 <? 16) with true by (symmetry; apply Z.ltb_lt; lia).
  rewrite scan_digits_stop by done.
  replace ((0 * 16 + v / 16) * 16 + v mod 16) with v by (pose proof (Z.div_mod v 16); lia).
  unfold ULONG_MAX. case_if; [lia|done].
Qed.

Lemma hex2_hex v : 0 <= v < 256 -> hex2 (hex_digit (v / 16)) (hex_digit (v mod 16)) = v.
Proof.
  intros Hv. unfold hex2.
  assert (0 <= v / 16 < 16) as H1 by (split; [apply Z.div_pos; lia|apply Z.div_lt_upper_bound; lia]).
  pose proof (Z.mod_pos_bound v 16 ltac:(lia)) as H2.
  destruct (hex_digit_plain _ H1) as (_ & _ & _ & _ & (_ & _ & Z1)).
  destruct (hex_digit_plain _ H2) as (_ & _ & _ & _ & (_ & _ & Z2)).
  rewrite to_cstr_all by (by repeat constructor).
  pose proof (strtoul_hex v [] Hv eq_refl) as Hs. rewrite app_nil_r in Hs. unfold hex_byte in Hs.
  rewrite Hs. unfold u32. rewrite Z.mod_small; cbn; lia.
Qed.

(** The two long forms of a color. *)
Inductive color_form : Type := Hash_form | X11_form.
Definition print_color (f : color_form) (c : Z * Z * Z) : bytes :=
  let '(r, g, b) := c in
  match f with
  | Hash_form => [c_hash] ++ hex_byte r ++ hex_byte g ++ hex_byte b
  | X11_form => str "rgb:" ++ hex_byte r ++ [c_slash] ++ hex_byte g ++ [c_slash] ++ hex_byte b
  end.
Definition color_ok (c : Z * Z * Z) : Prop :=
  let '(r, g, b) := c in 0 <= r < 256 /\ 0 <= g < 256 /\ 0 <= b < 256.

Lemma land_255 v : 0 <= v < 256 -> Z.land v 255 = v.
Proof. intros H. change 255 with (Z.ones 8). rewrite Z.land_ones, Z.mod_small by lia. done. Qed.

Lemma parse_print_color f c : color_ok c -> tn_parse_color (print_color f c) = Some c.
Proof.
  destruct c as [[r g] b]. intros (Hr & Hg & Hb). unfold tn_parse_color, print_color. destruct f.
  - unfold hex_byte. cbn [app]. cbn [starts_with str andb Z.eqb].
    change (starts_with (str "rgb:") (c_hash :: _)) with false. cbn [Z.eqb Pos.eqb].
    by rewrite !hex2_hex.
  - rewrite starts_with_app. change 4%nat with (length (str "rgb:")). rewrite drop_app_length.
    unfold rgb_channel. cbn [app]. rewrite strtoul_hex by done. cbn [Z.eqb Pos.eqb negb].
    rewrite strtoul_hex by done. cbn [Z.eqb Pos.eqb negb].
    rewrite <-(app_nil_r (hex_byte b)), strtoul_hex by done. by rewrite !land_255.
Qed.

Lemma print_color_payload f c : color_ok c -> Forall payload_byte (print_color f c).
Proof.
  destruct c as [[r g] b]. intros (Hr & Hg & Hb).
  assert (Hx : forall v, 0 <= v < 256 -> Forall payload_byte (hex_byte v)).
  { intros v Hv. repeat constructor; apply hex_digit_plain;
      (split; [apply Z.div_pos; lia|apply Z.div_lt_upper_bound; lia]) || (apply Z.mod_pos_bound; lia). }
  destruct f; unfold print_color; repeat (apply Forall_app; split); try (by apply Hx);
    repeat constructor; discriminate.
Qed.

(** Wherever an OSC 11 color sequence appears in the terminal's output
    between ordinary text, with either terminator and in either long form, the
    tracked color afterwards is the color of the sequence and the sniffer is
    idle again. *)
Theorem osc11_sets_tracked_color t text1 f c term text2 :
  state t = TN_SNIFF_IDLE -> Forall (fun b => b <> c_esc) text1 -> Forall (fun b => b <> c_esc) text2 ->
  color_ok c -> terminator term ->
  let t' := feed t (text1 ++ osc (str "11;" ++ print_color f c) term ++ text2) in
  state t' = TN_SNIFF_IDLE /\ color_initialized t' <> 0 /\ tracked_color t' = c.
Proof.
  intros Ht H1 H2 Hc Hterm. cbv zeta. rewrite !feed_app, (feed_idle_text t text1) by done.
  destruct (feed_osc t (str "11;" ++ print_color f c) term Ht) as (t' & -> & Hs & Hi & Hcol); [| |done|].
  - apply Forall_app. split; [repeat constructor; discriminate|by apply print_color_payload].
  - destruct c as [[r g] b]. by destruct f.
  - rewrite feed_idle_text by done. split; [done|]. rewrite Hi, Hcol. unfold tn_process_osc.
    assert (list_eqb (str "11;" ++ print_color f c) (str "11") = false) as -> by (by apply list_eqb_neq).
    rewrite starts_with_app. change 3%nat with (length (str "11;")). rewrite drop_app_length.
    assert (list_eqb (print_color f c) (str "?") = false) as ->.
    { apply list_eqb_neq. destruct c as [[r g] b]. by destruct f. }
    rewrite parse_print_color by done. destruct (color_initialized t =? 0) eqn:Hz; cbn [orb]; [done|].
    bool_to_prop. destruct (same_color c (tracked_color t)) eqn:Hsame; cbn [negb]; [|done]. split; [done|].
    destruct c as [[r g] b], (tracked_color t) as [[r' g'] b']. unfold same_color in Hsame. bool_to_prop. congruence.
Qed.

Lemma osc11_sets_tracked_color_witness :
  let t' := feed bg_color_tracker_init
    (str "ls" ++ osc (str "11;" ++ print_color X11_form (30, 30, 46)) [c_esc; c_bslash] ++ [c_nl]) in
  state t' = TN_SNIFF_IDLE /\ color_initialized t' <> 0 /\ tracked_color t' = (30, 30, 46).
Proof.
  apply (osc11_sets_tracked_color bg_color_tracker_init (str "ls") X11_form (30, 30, 46) [c_esc; c_bslash] [c_nl]).
  - reflexivity.
  - repeat constructor; discriminate.
  - repeat constructor; discriminate.
  - repeat split; discriminate.
  - constructor.
Defined.

Example osc11_example :
  print_color X11_form (30, 30, 46) = str "rgb:1e/1e/2e"
  /\ tn_parse_color (str "#123") = Some (17, 34, 51)
  /\ tracked_color (feed bg_color_tracker_init (osc (str "11;#1e1e2e") [c_bel])) = (30, 30, 46).
Proof. vm_compute. auto. Qed.

(** A signed channel of the '#' form is not cut to 255. *)
Example hash_channel_out_of_range : tn_parse_color (str "#-1-1-1") = Some (2 ^ 32 - 1, 2 ^ 32 - 1, 2 ^ 32 - 1).
Proof. vm_compute. reflexivity. Qed.

(** A sequence that starts while another one is open is missed. *)
Example restarted_sequence_missed :
  color_initialized (feed bg_color_tracker_init ([c_esc; c_rbrack] ++ str "0;title" ++ osc (str "11;#1e1e2e") [c_bel])) = 0.
Proof. vm_compute. reflexivity. Qed.

(** * Font size *)

(** Readings taken from a terminal, as unsigned shorts. *)
Definition readings_ok (l : list Z) : Prop := Forall (fun x => 0 <= x < 2 ^ 16) l.

(** A font size change is reported exactly when both readings have
    pixel sizes and the size of a cell differs; the tracker then holds the new
    reading, and after the host resized the terminal, reading back the state
    it was synchronised with reports nothing. *)
Theorem font_change_iff_cell_changed t rows cols x y :
  readings_ok [rows; cols; x; y; tracked_rows t; tracked_cols t; tracked_xpixel t; tracked_ypixel t] ->
  (snd (font_size_check_change t rows cols x y) = 1 <->
     rows <> 0 /\ cols <> 0 /\ x <> 0 /\ y <> 0
     /\ tracked_rows t <> 0 /\ tracked_cols t <> 0 /\ tracked_xpixel t <> 0 /\ tracked_ypixel t <> 0
     /\ (x <> tracked_xpixel t \/ y <> tracked_ypixel t)
     /\ (x / cols <> tracked_xpixel t / tracked_cols t \/ y / rows <> tracked_ypixel t / tracked_rows t))
  /\ fst (font_size_check_change t rows cols x y) = mk_font rows cols x y
  /\ snd (font_size_check_change (font_size_sync_after_resize t rows cols x y) rows cols x y) = 0.
Proof.
  intros H. unfold readings_ok in H. rewrite !Forall_cons in H.
  destruct H as (R & C & X & Y & TR & TC & TX & TY & _).
  split; [|split; [done|cbn; by rewrite !Z.eqb_refl]].
  unfold font_size_check_change. cbn [snd].
  destruct (negb (x =? tracked_xpixel t) || negb (y =? tracked_ypixel t)) eqn:E1.
  - assert (x <> tracked_xpixel t \/ y <> tracked_ypixel t) as D.
    { apply orb_true_iff in E1 as [E1|E1]; bool_to_prop; auto. }
    match goal with |- context [if ?b then _ else _] => destruct b eqn:E2 end.
    + bool_to_prop. match goal with |- context [if ?b then _ else _] => destruct b eqn:E3 end.
      * split; [intros _|done]. repeat split; lia.
      * split; [done|]. intros (_&_&_&_&_&_&_&_&_&[D2|D2]); bool_to_prop; congruence.
    + split; [done|]. intros (?&?&?&?&?&?&?&?&_). exfalso.
      repeat (apply andb_false_iff in E2 as [E2|E2]); bool_to_prop; lia.
  - bool_to_prop. split; [done|]. intros (_&_&_&_&_&_&_&_&[D|D]&_); congruence.
Qed.

Lemma font_change_iff_cell_changed_witness :
  readings_ok [24; 80; 800; 480; 24; 80; 640; 384]
  /\ fst (font_size_check_change (mk_font 24 80 640 384) 24 80 800 480) = mk_font 24 80 800 480.
Proof.
  assert (H : readings_ok [24; 80; 800; 480; 24; 80; 640; 384]) by (repeat constructor; lia).
  split; [exact H|].
  exact (proj1 (proj2 (font_change_iff_cell_changed (mk_font 24 80 640 384) 24 80 800 480 H))).
Defined.

End TermNotifyThm.

Import Wire Framing TermNotify Session.

Module SessionThm.

(** * Traces with a turning point *)
Section Phase.
Context (mark after : action -> bool).

(** [b] and [b'] tell whether the turning point lies behind, before and after
    the actions. *)
Definition phase (b b' : bool) (acts : list action) : Prop :=
  match b, b' with
  | true, true => Forall (fun a => after a = true) acts
  | true, false => False
  | false, false => Forall (fun a => mark a = false) acts
  | false, true => exists a1 m a2, acts = a1 ++ m :: a2
      /\ Forall (fun a => mark a = false) a1 /\ mark m = true /\ Forall (fun a => after a = true) a2
  end.

Lemma phase_app b1 b2 b3 l1 l2 : phase b1 b2 l1 -> phase b2 b3 l2 -> phase b1 b3 (l1 ++ l2).
Proof.
  destruct b1, b2, b3; cbn; try done.
  - intros. by apply Forall_app.
  - intros (a1 & m & a2 & -> & H1 & Hm & H2) H3. exists a1, m, (a2 ++ l2).
    split; [by rewrite <-app_assoc|]. split; [done|]. split; [done|]. by apply Forall_app.
  - intros H0 (a1 & m & a2 & -> & H1 & Hm & H2). exists (l1 ++ a1), m, a2.
    split; [by rewrite app_assoc|]. split; [by apply Forall_app|]. done.
  - intros. by apply Forall_app.
Qed.

(** Actions that are neither the turning point nor forbidden after it. *)
Lemma phase_same b l :
  Forall (fun a => mark a = false /\ after a = true) l -> phase b b l.
Proof. intros H. destruct b; cbn; (eapply Forall_impl; [exact H|]); naive_solver. Qed.

Lemma phase_nil b : phase b b [].
Proof. by apply phase_same. Qed.
End Phase.

Section Session.
Context (has_channel has_interop has_local : bool) (exit_status : Z -> Z).
Context (interop_handle : bytes -> Interop.handled).

(** * Shapes of the blocks *)

(** Actions that are no signal and no wait. *)
Definition is_reap (a : action) : bool := match a with Reap _ => true | _ => false end.
Definition is_kill (a : action) : bool := match a with Kill _ => true | _ => false end.
Definition calm (a : action) : bool := negb (is_reap a) && negb (is_kill a).

(** Actions that reach neither the host nor the terminal. *)
Definition silent (a : action) : bool :=
  match a with
  | Kill SIGKILL | Reap _ | Close_master | Close_local | Unlink_socket => true
  | _ => false
  end.
(** What may still happen when the host is gone. *)
Definition hushed (a : action) : bool := match a with Relay_local => has_local | _ => silent a end.
Definition is_hangup (a : action) : bool := match a with Kill SIGHUP => true | _ => false end.

Notation reaping := (phase is_reap calm).
Notation leaving := (phase is_hangup hushed).

Definition inv (st : session) : Prop :=
  (child_reaped st = true -> host_disconnected st = true) /\ sighup_sent st = host_disconnected st.

(** The actions of a block that keep both flags. *)
Definition ordinary (st st' : session) (acts : list action) : Prop :=
  child_reaped st' = child_reaped st /\ host_disconnected st' = host_disconnected st
  /\ sighup_sent st' = sighup_sent st
  /\ Forall (fun a => calm a = true /\ is_hangup a = false) acts
  /\ (host_disconnected st = true -> Forall (fun a => hushed a = true) acts).

Lemma ordinary_nil st st' :
  child_reaped st' = child_reaped st -> host_disconnected st' = host_disconnected st ->
  sighup_sent st' = sighup_sent st -> ordinary st st' [].
Proof. intros. split; [done|]. split; [done|]. split; [done|]. by split. Qed.

Lemma ordinary_step st st' acts :
  inv st -> ordinary st st' acts ->
  reaping (child_reaped st) (child_reaped st') acts
  /\ leaving (host_disconnected st) (host_disconnected st') acts /\ inv st'.
Proof.
  intros [Hi1 Hi2] (H1 & H2 & H3 & Hc & Hs). rewrite H1, H2. split.
  - apply phase_same. eapply Forall_impl; [exact Hc|]. intros a [Ha _]. split; [|done].
    unfold calm in Ha. bool_to_prop. by destruct (is_reap a).
  - split; [|unfold inv; by rewrite H1, H2, H3]. destruct (host_disconnected st).
    + by apply Hs.
    + eapply Forall_impl; [exact Hc|]. by intros a [_ Ha].
Qed.

Definition step_ok (st st' : session) (acts : list action) : Prop :=
  inv st ->
  reaping (child_reaped st) (child_reaped st') acts
  /\ leaving (host_disconnected st) (host_disconnected st') acts /\ inv st'.

Lemma step_ok_app st st1 st' a1 a2 : step_ok st st1 a1 -> step_ok st1 st' a2 -> step_ok st st' (a1 ++ a2).
Proof.
  intros H1 H2 Hi. destruct (H1 Hi) as (Hr1 & Hl1 & Hi1). destruct (H2 Hi1) as (Hr2 & Hl2 & Hi2).
  split; [by eapply phase_app|]. split; [by eapply phase_app|done].
Qed.

Lemma ordinary_ok st st' acts : ordinary st st' acts -> step_ok st st' acts.
Proof. intros Ho Hi. by apply ordinary_step. Qed.

(** * The blocks *)
Lemma escalate_ok now status st st' acts :
  escalate now status st = (st', acts) -> step_ok st st' acts.
Proof.
  unfold escalate. case_if; [|intros [= <- <-]; by apply ordinary_ok, ordinary_nil].
  rename select (host_disconnected st = true) into Hd. rename select (child_reaped st = false) into Hr.
  unfold waitpid. cbn. rewrite Hr.
  intros Heq [Hi1 Hi2]. destruct status as [s|]; injection Heq as <- <-; cbn; rewrite Hd, ?Hr; cbn.
  - split; [by exists [Kill SIGKILL], (Reap (Some s)), []; repeat constructor|].
    split; [by repeat constructor|]. split; cbn; [done|]. by rewrite Hi2.
  - split; [by repeat constructor|]. split; [by repeat constructor|]. done.
Qed.

Lemma check_size_ok now ws st st' acts :
  check_size now ws st = (st', acts) -> step_ok st st' acts.
Proof.
  unfold check_size. case_if; [|intros [= <- <-]; by apply ordinary_ok, ordinary_nil].
  rename select (host_disconnected st = false) into Hd.
  destruct ws as [w|]; intros [= <- <-]; apply ordinary_ok; [|by apply ordinary_nil].
  split; [done|]. split; [done|]. split; [done|]. cbn. rewrite Hd. split; [|done].
  case_if; by repeat constructor.
Qed.

Lemma drain_ordinary connected chunks :
  Forall (fun a => calm a = true /\ is_hangup a = false) (drain connected chunks)
  /\ (connected = false -> drain connected chunks = []).
Proof.
  induction chunks as [|[d ok] chunks [IH1 IH2]]; cbn; [by split|].
  destruct connected; [|by split; [apply IH1|apply IH2]]. split; [|done].
  constructor; [done|]. by destruct ok.
Qed.

Lemma sigchld_ok readable status chunks st st' acts leave :
  sigchld exit_status readable status chunks st = (st', acts, leave) ->
  (leave = false -> st' = st /\ acts = [])
  /\ (inv st ->
      reaping (child_reaped st) (child_reaped st') acts
      /\ leaving (host_disconnected st) (host_disconnected st') acts).
Proof.
  unfold sigchld, waitpid. destruct readable, (child_reaped st) eqn:Hr;
    try (intros [= <- <- <-]; split; [done|]; intros _; rewrite ?Hr; split; apply phase_nil).
  destruct status as [s|];
    [|intros [= <- <- <-]; split; [done|]; intros _; rewrite ?Hr; split; apply phase_nil].
  cbn [host_disconnected].
  destruct (drain_ordinary (negb (host_disconnected st)) chunks) as [Hd Hd'].
  assert (Hcalm : Forall (fun a => calm a = true) (drain (negb (host_disconnected st)) chunks)).
  { eapply Forall_impl; [exact Hd|]. by intros a [? _]. }
  assert (Hhang : Forall (fun a => is_hangup a = false) (drain (negb (host_disconnected st)) chunks)).
  { eapply Forall_impl; [exact Hd|]. by intros a [_ ?]. }
  change (host_disconnected (st <| child_reaped := true |> <| session_done := true |>))
    with (host_disconnected st).
  destruct (host_disconnected st) eqn:Hh; intros [= <- <- <-]; (split; [done|]); intros _; cbn.
  - rewrite Hh. cbn in Hd'. rewrite Hd' by done. split; [|by repeat constructor].
    exists [], (Reap (Some s)), []. by repeat constructor.
  - rewrite Hh. split.
    + exists [], (Reap (Some s)), (drain true chunks ++ [Send_control (exit_message (exit_status s))]).
      split; [done|]. split; [done|]. split; [done|]. apply Forall_app. by split; [|repeat constructor].
    + constructor; [done|]. apply Forall_app. by split; [|repeat constructor].
Qed.

Lemma start_shutdown_ok now st st' acts :
  host_disconnected st = false -> start_shutdown now st = (st', acts) -> step_ok st st' acts.
Proof.
  intros Hd. unfold start_shutdown. intros [= <- <-] [Hi1 Hi2]. rewrite Hd in *. cbn. rewrite Hi2.
  destruct (child_reaped st) eqn:Hr; [by discriminate Hi1|]. cbn.
  split; [by repeat constructor|]. split; [|done].
  exists [], (Kill SIGHUP), []. by repeat constructor.
Qed.

Ltac ordinary_tac :=
  apply ordinary_ok; split; [done|]; split; [done|]; split; [done|];
  split; [try (by repeat constructor)|try (intros; by repeat constructor)].

Lemma control_message_ok ev msg st st' acts :
  host_disconnected st = false ->
  control_message ev msg st = (st', acts) -> step_ok st st' acts.
Proof.
  intros Hd. unfold control_message, update_pty_winsize. cbv zeta. case_if.
  { case_if; [|intros [= <- <-]; by apply ordinary_ok, ordinary_nil].
    destruct (ev_sync ev) as [w|]; intros [= <- <-]; ordinary_tac;
      first [by case_if; repeat constructor|cbn; by rewrite Hd]. }
  case_if; [by apply start_shutdown_ok|].
  case_if.
  { case_if; [|intros [= <- <-]; by apply ordinary_ok, ordinary_nil].
    case_if; [|intros [= <- <-]; by apply ordinary_ok, ordinary_nil].
    destruct (ev_resolv_ok ev); [|intros [= <- <-]; by apply ordinary_ok, ordinary_nil].
    destruct (control_string _ st); intros [= <- <-]; ordinary_tac; by rewrite Hd. }
  case_if.
  { case_if; [|intros [= <- <-]; by apply ordinary_ok, ordinary_nil].
    case_if; [|intros [= <- <-]; by apply ordinary_ok, ordinary_nil].
    destruct (control_string _ st); intros [= <- <-]; ordinary_tac; by rewrite Hd. }
  intros [= <- <-]; ordinary_tac; by rewrite Hd.
Qed.

(** The flags do not depend on the readers. *)
Lemma step_ok_flags st0 st st' st1 acts :
  step_ok st st' acts ->
  child_reaped st0 = child_reaped st -> host_disconnected st0 = host_disconnected st ->
  sighup_sent st0 = sighup_sent st ->
  child_reaped st1 = child_reaped st' -> host_disconnected st1 = host_disconnected st' ->
  sighup_sent st1 = sighup_sent st' -> step_ok st0 st1 acts.
Proof. unfold step_ok, inv. intros H -> -> -> -> -> ->. exact H. Qed.

Lemma control_ok ev st st' acts : control ev st = (st', acts) -> step_ok st st' acts.
Proof.
  unfold control. destruct (ev_control ev) as [r|]; [|intros [= <- <-]; by apply ordinary_ok, ordinary_nil].
  destruct (host_disconnected st) eqn:Hd; [intros [= <- <-]; by apply ordinary_ok, ordinary_nil|].
  destruct (control_try_read (cr st) r) as [cr' [msg| |]].
  - destruct (control_message ev msg (st <| cr := cr' |>)) as [st1 acts1] eqn:E. intros [= <- <-].
    eapply step_ok_flags; [eapply control_message_ok; [|exact E]; done|done..].
  - intros [= <- <-]. by apply ordinary_ok, ordinary_nil.
  - intros E. eapply step_ok_flags; [eapply start_shutdown_ok; [|exact E]; done|done..].
Qed.

Lemma stdin_to_pty_ok r st st' acts : stdin_to_pty r st = (st', acts) -> step_ok st st' acts.
Proof.
  unfold stdin_to_pty. case_if; [|intros [= <- <-]; by apply ordinary_ok, ordinary_nil].
  rename select (host_disconnected st = false) into Hd.
  destruct r as [[data| | |]|]; intros [= <- <-]; ordinary_tac; by rewrite Hd.
Qed.

Lemma pty_to_stdout_ok r st st' acts : pty_to_stdout r st = (st', acts) -> step_ok st st' acts.
Proof.
  unfold pty_to_stdout. destruct r as [data|]; [|intros [= <- <-]; by apply ordinary_ok, ordinary_nil].
  destruct (host_disconnected st) eqn:Hd; intros [= <- <-]; ordinary_tac; by rewrite Hd.
Qed.

Lemma channel_echo_ok r st : step_ok st st (channel_echo has_channel r st).
Proof.
  unfold channel_echo. destruct r as [data|]; [|by apply ordinary_ok, ordinary_nil].
  destruct (host_disconnected st) eqn:Hd, has_channel; ordinary_tac; by rewrite Hd.
Qed.

Lemma interop_ok r st st' acts : interop has_interop interop_handle r st = (st', acts) -> step_ok st st' acts.
Proof.
  unfold interop. destruct r as [r|]; [|intros [= <- <-]; by apply ordinary_ok, ordinary_nil].
  case_if; [|intros [= <- <-]; by apply ordinary_ok, ordinary_nil].
  rename select (host_disconnected st = false) into Hd.
  destruct (interop_try_read (ir st) r) as [ir' [msg| |]];
    try (intros [= <- <-]; by apply ordinary_ok, ordinary_nil).
  intros [= <- <-]. apply ordinary_ok. split; [done|]. split; [done|]. split; [done|].
  split; [|by rewrite Hd].
  destruct (interop_handle msg) as [replies started|]; [|by repeat constructor].
  apply Forall_app. split; [by destruct started; repeat constructor|].
  induction replies; by constructor.
Qed.

Lemma local_interop_ok r st : step_ok st st (local_interop has_local r).
Proof. unfold local_interop. case_if; ordinary_tac. Qed.

(** * The loop *)
Definition loop_ok (st st' : session) (acts : list action) (leave : bool) : Prop :=
  inv st ->
  reaping (child_reaped st) (child_reaped st') acts
  /\ leaving (host_disconnected st) (host_disconnected st') acts
  /\ (leave = false -> inv st').

Lemma step_loop_ok st st' acts leave : step_ok st st' acts -> loop_ok st st' acts leave.
Proof. intros H Hi. destruct (H Hi) as (H1 & H2 & H3). done. Qed.

Lemma loop_ok_app st st1 st' a1 a2 leave :
  step_ok st st1 a1 -> loop_ok st1 st' a2 leave -> loop_ok st st' (a1 ++ a2) leave.
Proof.
  intros H1 H2 Hi. destruct (H1 Hi) as (Hr1 & Hl1 & Hi1). destruct (H2 Hi1) as (Hr2 & Hl2 & Hi2).
  split; [by eapply phase_app|]. split; [by eapply phase_app|done].
Qed.

Notation iteration := (iteration has_channel has_interop has_local exit_status interop_handle).
Notation poll_loop := (poll_loop has_channel has_interop has_local exit_status interop_handle).
Notation cleanup := (cleanup has_local).

Lemma iteration_ok ev st st' acts leave :
  iteration ev st = (st', acts, leave) -> loop_ok st st' acts leave.
Proof.
  unfold Session.iteration. destruct (ev_poll ev).
  - intros [= <- <- <-]. by apply step_loop_ok, ordinary_ok, ordinary_nil.
  - destruct (child_reaped st) eqn:Hr; intros [= <- <- <-].
    + by apply step_loop_ok, ordinary_ok, ordinary_nil.
    + intros Hi. rewrite Hr. cbn. split; [|split; [|done]].
      * exists [Kill SIGKILL], (Reap None), []. by repeat constructor.
      * destruct (host_disconnected st); by repeat constructor.
  - case_if; [intros [= <- <- <-]; by apply step_loop_ok, ordinary_ok, ordinary_nil|].
    destruct (escalate _ _ st) as [st1 a1] eqn:E1. apply escalate_ok in E1.
    destruct (check_size _ _ st1) as [st2 a2] eqn:E2. apply check_size_ok in E2.
    destruct (sigchld _ _ _ _ st2) as [[st3 a3] leave3] eqn:E3. apply sigchld_ok in E3 as [E3 E3'].
    destruct leave3.
    + intros [= <- <- <-]. do 2 (eapply loop_ok_app; [done|]). intros Hi.
      destruct (E3' Hi) as [Hr Hl]. done.
    + destruct E3 as [-> ->]; [done|].
      destruct (control ev st2) as [st4 a4] eqn:E4. apply control_ok in E4.
      destruct (stdin_to_pty _ st4) as [st5 a5] eqn:E5. apply stdin_to_pty_ok in E5.
      destruct (pty_to_stdout _ st5) as [st6 a6] eqn:E6. apply pty_to_stdout_ok in E6.
      pose proof (channel_echo_ok (ev_channel ev) st6) as E7.
      destruct (interop _ _ _ st6) as [st8 a8] eqn:E8. apply interop_ok in E8.
      pose proof (local_interop_ok (ev_local ev) st8) as E9.
      intros [= <- <- <-]. cbn [app].
      repeat (eapply loop_ok_app; [eassumption|]). by apply step_loop_ok.
Qed.

Lemma poll_loop_ok evs st st' acts leave :
  poll_loop evs st = (st', acts, leave) -> loop_ok st st' acts leave.
Proof.
  revert st acts; induction evs as [|ev evs IH]; intros st acts; cbn [Session.poll_loop].
  - intros [= <- <- <-]. by apply step_loop_ok, ordinary_ok, ordinary_nil.
  - destruct (iteration ev st) as [[st1 a1] leave1] eqn:E1. apply iteration_ok in E1. destruct leave1.
    + by intros [= <- <- <-].
    + destruct (poll_loop evs st1) as [[st2 a2] leave2] eqn:E2. intros [= -> <- ->].
      apply IH in E2. intros Hi. destruct (E1 Hi) as (Hr1 & Hl1 & Hi1).
      destruct (E2 (Hi1 eq_refl)) as (Hr2 & Hl2 & Hi2).
      split; [by eapply phase_app|]. split; [by eapply phase_app|done].
Qed.

Lemma cleanup_ok st st' acts :
  cleanup st = (st', acts) ->
  reaping (child_reaped st) true acts /\ leaving (host_disconnected st) (host_disconnected st) acts.
Proof.
  unfold Session.cleanup. intros [= <- <-]. split.
  - destruct (child_reaped st); cbn.
    + destruct has_local; by repeat constructor.
    + exists [Kill SIGKILL], (Reap None), ([Close_master] ++ (if has_local then [Close_local] else []) ++ [Unlink_socket]).
      split; [done|]. split; [by repeat constructor|]. split; [done|]. destruct has_local; by repeat constructor.
  - apply phase_same. destruct (child_reaped st), has_local; by repeat constructor.
Qed.

Lemma init_inv rows cols now : inv (session_init rows cols now).
Proof. done. Qed.

(** The actions of a whole session that ran its loop. *)
Lemma session_phases initial now evs acts rc :
  run_session has_channel has_interop has_local exit_status interop_handle initial true None now evs
    = (acts, Some rc) ->
  exists st st' a1 a2,
    poll_loop evs (session_init (fst (initial_size initial)) (snd (initial_size initial)) now) = (st, a1, true)
    /\ cleanup st = (st', a2) /\ acts = a1 ++ a2 /\ rc = exit_code st'.
Proof.
  unfold run_session. cbn [negb]. destruct (initial_size initial) as [rows cols]. cbn [fst snd].
  destruct (poll_loop evs (session_init rows cols now)) as [[st a1] leave].
  destruct leave; [|done]. destruct (cleanup st) as [st' a2] eqn:E2. intros Heq.
  exists st, st', a1, a2. split; [done|]. split; [done|]. split; congruence.
Qed.

(** C2: on every way out of a session, whatever the polls, the host and the
    child did, the child is collected exactly once, and no signal is sent to
    its process number after it was collected, when the number may belong to
    another process. *)
Theorem child_collected_once initial early now evs acts rc :
  run_session has_channel has_interop has_local exit_status interop_handle initial true early now evs
    = (acts, Some rc) ->
  exists before status after,
    acts = before ++ Reap status :: after
    /\ Forall (fun a => is_reap a = false) before
    /\ Forall (fun a => is_reap a = false /\ is_kill a = false) after.
Proof.
  destruct early as [s|].
  - cbn. intros [= <- _]. exists [], (Some s), [Send_control (exit_message (exit_status s)); Close_master].
    by repeat constructor.
  - intros (st & st' & a1 & a2 & E1 & E2 & -> & _)%session_phases.
    destruct (poll_loop_ok _ _ _ _ _ E1 (init_inv _ _ _)) as (Hr & _ & _).
    apply cleanup_ok in E2 as [Hr' _].
    destruct (phase_app _ _ _ _ _ _ _ Hr Hr') as (b & m & a & Heq & Hb & Hm & Ha).
    destruct m as [s|status| | | | | | | | | | | | |]; try done.
    exists b, status, a. split; [done|]. split; [done|]. eapply Forall_impl; [exact Ha|].
    intros x Hx. unfold calm in Hx. bool_to_prop. done.
Qed.

Lemma hushed_cases a : hushed a = true -> silent a = true \/ a = Relay_local /\ has_local = true.
Proof. destruct a; cbn; auto. Qed.


(** * The exit status *)
Definition is_exit (a : action) : bool :=
  match a with
  | Send_control m => MessageType (read_header m) =? LxInitMessageExitStatus
  | _ => false
  end.

Lemma message_type t n s rest :
  0 <= t < 2 ^ 32 -> MessageType (read_header (header_bytes (mk_header t n s) ++ rest)) = t.
Proof.
  intros H. unfold read_header, header_bytes. cbn [MessageType MessageSize SequenceNumber].
  rewrite <-!app_assoc. read_field. done.
Qed.

(** Killing, or a host that was gone before. *)
Definition torn (st : session) (acts : list action) : Prop :=
  host_disconnected st = true \/ Exists (fun a => is_kill a = true) acts.

Definition quiet (st st' : session) (acts : list action) : Prop :=
  exit_code st' = exit_code st
  /\ Forall (fun a => is_exit a = false) acts
  /\ (host_disconnected st' = false -> Forall (fun a => is_kill a = false) acts)
  /\ (child_reaped st' = true -> child_reaped st = true \/ torn st acts)
  /\ (host_disconnected st = true -> host_disconnected st' = true)
  /\ (host_disconnected st' = true -> torn st acts).

Lemma quiet_refl st st' acts :
  exit_code st' = exit_code st -> host_disconnected st' = host_disconnected st ->
  child_reaped st' = child_reaped st ->
  Forall (fun a => is_exit a = false /\ is_kill a = false) acts -> quiet st st' acts.
Proof.
  intros H1 H2 H3 Hf. unfold quiet, torn. rewrite H1, H2, H3.
  split; [done|]. split; [eapply Forall_impl; [exact Hf|]; naive_solver|].
  split; [intros _; eapply Forall_impl; [exact Hf|]; naive_solver|]. naive_solver.
Qed.

Lemma torn_app st st1 a1 a2 :
  (host_disconnected st1 = true -> torn st a1) -> torn st1 a2 -> torn st (a1 ++ a2).
Proof.
  unfold torn. rewrite Exists_app. naive_solver.
Qed.
Lemma torn_l st a1 a2 : torn st a1 -> torn st (a1 ++ a2).
Proof. unfold torn. rewrite Exists_app. naive_solver. Qed.

Lemma quiet_app st st1 st' a1 a2 : quiet st st1 a1 -> quiet st1 st' a2 -> quiet st st' (a1 ++ a2).
Proof.
  intros (A1 & A2 & A3 & A4 & A5 & A6) (B1 & B2 & B3 & B4 & B5 & B6).
  split; [congruence|]. split; [by apply Forall_app|]. split.
  { intros H. apply Forall_app. split; [apply A3|by apply B3].
    destruct (host_disconnected st1); [by rewrite B5 in H|done]. }
  split; [|split; [auto|]].
  - intros H. destruct (B4 H) as [Hr|Ht]; [|right; by eapply torn_app].
    destruct (A4 Hr) as [|Ht]; [by left|right; by apply torn_l].
  - intros H. eapply torn_app; [exact A6|auto].
Qed.

Lemma start_shutdown_quiet now st st' acts :
  inv st -> start_shutdown now st = (st', acts) -> quiet st st' acts.
Proof.
  intros [Hi1 Hi2]. unfold start_shutdown. intros [= <- <-]. unfold quiet, torn. cbn. rewrite Hi2.
  split; [done|]. destruct (host_disconnected st).
  - split; [done|]. naive_solver.
  - split; [by repeat constructor|]. split; [done|]. split; [by left|]. split; [done|].
    intros _. right. by repeat constructor.
Qed.

Lemma escalate_quiet now status st st' acts :
  escalate now status st = (st', acts) -> quiet st st' acts.
Proof.
  unfold escalate. case_if; [|intros [= <- <-]; by apply quiet_refl].
  rename select (host_disconnected st = true) into Hd.
  unfold waitpid. cbn. rename select (child_reaped st = false) into Hr. rewrite Hr.
  destruct status; intros [= <- <-]; unfold quiet, torn; cbn; rewrite Hd;
    (split; [done|]); (split; [by repeat constructor|]); naive_solver.
Qed.

Lemma check_size_quiet now ws st st' acts :
  check_size now ws st = (st', acts) -> quiet st st' acts.
Proof.
  unfold check_size. case_if; [|intros [= <- <-]; by apply quiet_refl].
  destruct ws as [w|]; intros [= <- <-]; apply quiet_refl; try done.
  case_if; [|done]. unfold notify_host_window_size, window_size_message. constructor; [|done].
  cbn [is_exit is_kill]. by rewrite message_type.
Qed.

Lemma control_quiet ev st st' acts :
  inv st -> control ev st = (st', acts) -> quiet st st' acts.
Proof.
  intros Hi. unfold control. destruct (ev_control ev) as [r|]; [|intros [= <- <-]; by apply quiet_refl].
  destruct (host_disconnected st) eqn:Hd; [intros [= <- <-]; by apply quiet_refl|].
  destruct (control_try_read (cr st) r) as [cr' [msg| |]].
  - destruct (control_message ev msg (st <| cr := cr' |>)) as [st1 acts1] eqn:E. intros [= <- <-].
    enough (Hq : quiet (st <| cr := cr' |>) st1 acts1) by exact Hq. revert E.
    unfold control_message, update_pty_winsize. cbv zeta.
    repeat first
      [ by apply start_shutdown_quiet
      | by (intros [= <- <-]; apply quiet_refl)
      | match goal with
        | |- context [if ?b then _ else _] => destruct b
        | |- context [match ?o with Some _ => _ | None => _ end] => destruct o
        end ];
      intros [= <- <-]; apply quiet_refl; try done; repeat (constructor; [done|]); try done.
  - intros [= <- <-]. by apply quiet_refl.
  - intros E. apply start_shutdown_quiet in E; [exact E|done].
Qed.

Lemma stdin_to_pty_quiet r st st' acts : stdin_to_pty r st = (st', acts) -> quiet st st' acts.
Proof.
  unfold stdin_to_pty. case_if; [|intros [= <- <-]; by apply quiet_refl].
  destruct r as [[data| | |]|]; intros [= <- <-]; by apply quiet_refl; repeat constructor.
Qed.

Lemma pty_to_stdout_quiet r st st' acts : pty_to_stdout r st = (st', acts) -> quiet st st' acts.
Proof.
  unfold pty_to_stdout. destruct r as [data|]; [|intros [= <- <-]; by apply quiet_refl].
  destruct (host_disconnected st); intros [= <- <-]; by apply quiet_refl; repeat constructor.
Qed.

Lemma channel_echo_quiet r st : quiet st st (channel_echo has_channel r st).
Proof.
  apply quiet_refl; try done. unfold channel_echo. destruct r; [|done].
  case_if; by repeat constructor.
Qed.

Lemma interop_quiet r st st' acts : interop has_interop interop_handle r st = (st', acts) -> quiet st st' acts.
Proof.
  unfold interop. destruct r as [r|]; [|intros [= <- <-]; by apply quiet_refl].
  case_if; [|intros [= <- <-]; by apply quiet_refl].
  destruct (interop_try_read (ir st) r) as [ir' [msg| |]]; intros [= <- <-]; apply quiet_refl; try done.
  destruct (interop_handle msg) as [replies started|]; [|by repeat constructor].
  apply Forall_app. split; [by destruct started; repeat constructor|].
  induction replies; by constructor.
Qed.

Lemma local_interop_quiet r st : quiet st st (local_interop has_local r).
Proof. apply quiet_refl; try done. unfold local_interop. case_if; by repeat constructor. Qed.

(** The end that tells the host: the exit status is the last action. *)
Definition told (st st' : session) (acts : list action) : Prop :=
  host_disconnected st = false /\ exists before s,
    acts = before ++ [Send_control (exit_message (exit_status s))]
    /\ Reap (Some s) ∈ before
    /\ Forall (fun a => is_exit a = false /\ is_kill a = false) before
    /\ exit_code st' = exit_status s /\ child_reaped st' = true.

Lemma told_app st st1 st' a1 a2 : quiet st st1 a1 -> told st1 st' a2 -> told st st' (a1 ++ a2).
Proof.
  intros (A1 & A2 & A3 & A4 & A5 & A6) (Hh & b & s & -> & Hr & Hb & Hc & Hd). split.
  { destruct (host_disconnected st); [by rewrite A5 in Hh|done]. }
  exists (a1 ++ b), s. split; [by rewrite app_assoc|]. split; [apply elem_of_app; by right|].
  split; [|done]. apply Forall_app. split; [|done].
  specialize (A3 Hh). apply Forall_and. split; [exact A2|exact A3].
Qed.

Lemma drain_quiet chunks c : Forall (fun a => is_exit a = false /\ is_kill a = false) (drain c chunks).
Proof.
  induction chunks as [|[d ok] chunks IH]; cbn; [done|]. destruct c; [|done].
  constructor; [done|]. by destruct ok.
Qed.

(** What the collection of the child does: nothing to say when the host is
    gone. *)
Lemma sigchld_told readable status chunks st st' acts :
  sigchld exit_status readable status chunks st = (st', acts, true) ->
  quiet st st' acts \/ told st st' acts.
Proof.
  unfold sigchld, waitpid. destruct readable, (child_reaped st) eqn:Hr; try done.
  destruct status as [s|]; [|done].
  change (host_disconnected (st <| child_reaped := true |> <| session_done := true |>))
    with (host_disconnected st).
  destruct (host_disconnected st) eqn:Hd; intros [= <- <-].
  - left. unfold quiet, torn. cbn. rewrite Hd.
    assert (Hf := drain_quiet chunks false). split; [done|].
    split; [constructor; [done|]; eapply Forall_impl; [exact Hf|]; naive_solver|]. naive_solver.
  - right. split; [done|]. exists (Reap (Some s) :: drain true chunks), s.
    split; [done|]. split; [by constructor|]. split; [|done].
    constructor; [done|]. apply drain_quiet.
Qed.

Definition outcome (st st' : session) (acts : list action) (leave : bool) : Prop :=
  quiet st st' acts \/ (leave = true /\ told st st' acts)
  \/ (leave = true /\ exit_code st' = exit_code st /\ Forall (fun a => is_exit a = false) acts
      /\ Exists (fun a => is_kill a = true) acts /\ child_reaped st' = true).

Lemma outcome_app st st1 st' a1 a2 leave :
  quiet st st1 a1 -> outcome st1 st' a2 leave -> outcome st st' (a1 ++ a2) leave.
Proof.
  intros Hq [H|[[-> H]|(-> & H1 & H2 & H3 & H4)]].
  - left. by eapply quiet_app.
  - right; left. split; [done|]. by eapply told_app.
  - right; right. destruct Hq as (A1 & A2 & _). split; [done|]. split; [congruence|].
    split; [by apply Forall_app|]. split; [|done]. apply Exists_app. by right.
Qed.

Lemma iteration_outcome ev st st' acts leave :
  inv st -> iteration ev st = (st', acts, leave) -> outcome st st' acts leave.
Proof.
  intros Hi. unfold Session.iteration. destruct (ev_poll ev).
  - intros [= <- <- <-]. left. by apply quiet_refl.
  - destruct (child_reaped st) eqn:Hr; intros [= <- <- <-]; [left; by apply quiet_refl|].
    right; right. split; [done|]. split; [done|]. split; [by repeat constructor|].
    split; [by repeat constructor|done].
  - case_if; [intros [= <- <- <-]; left; by apply quiet_refl|].
    destruct (escalate _ _ st) as [st1 a1] eqn:E1. destruct (escalate_ok _ _ _ _ _ E1 Hi) as (_ & _ & Hi1).
    apply escalate_quiet in E1.
    destruct (check_size _ _ st1) as [st2 a2] eqn:E2. destruct (check_size_ok _ _ _ _ _ E2 Hi1) as (_ & _ & Hi2).
    apply check_size_quiet in E2.
    destruct (sigchld _ _ _ _ st2) as [[st3 a3] leave3] eqn:E3. destruct leave3.
    + intros [= <- <- <-]. do 2 (eapply outcome_app; [done|]).
      apply sigchld_told in E3 as [E3|E3]; [by left|]. right; left. done.
    + apply sigchld_ok in E3 as [E3 _]. destruct E3 as [-> ->]; [done|].
      destruct (control ev st2) as [st4 a4] eqn:E4. apply control_quiet in E4; [|done].
      destruct (stdin_to_pty _ st4) as [st5 a5] eqn:E5. apply stdin_to_pty_quiet in E5.
      destruct (pty_to_stdout _ st5) as [st6 a6] eqn:E6. apply pty_to_stdout_quiet in E6.
      pose proof (channel_echo_quiet (ev_channel ev) st6) as E7.
      destruct (interop _ _ _ st6) as [st8 a8] eqn:E8. apply interop_quiet in E8.
      pose proof (local_interop_quiet (ev_local ev) st8) as E9.
      intros [= <- <- <-]. left. cbn [app]. repeat (eapply quiet_app; [eassumption|]). exact E9.
Qed.

Lemma poll_loop_outcome evs st st' acts leave :
  inv st -> poll_loop evs st = (st', acts, leave) -> outcome st st' acts leave.
Proof.
  revert st acts; induction evs as [|ev evs IH]; intros st acts Hi; cbn [Session.poll_loop].
  - intros [= <- <- <-]. left. by apply quiet_refl.
  - destruct (iteration ev st) as [[st1 a1] leave1] eqn:E1.
    pose proof (iteration_ok _ _ _ _ _ E1 Hi) as (_ & _ & Hi1). apply iteration_outcome in E1; [|done].
    destruct leave1; [by intros [= <- <- <-]|].
    destruct (poll_loop evs st1) as [[st2 a2] leave2] eqn:E2. intros [= -> <- ->].
    apply IH in E2; [|by apply Hi1]. destruct E1 as [E1|[[? _]|[? _]]]; [|done..].
    by eapply outcome_app.
Qed.

Definition is_send (a : action) : bool :=
  match a with
  | Send_control _ | Send_stdout _ | Send_channel _ | Send_interop _ => true
  | _ => false
  end.

(** C1: a session ends in one of two ways.  Either the child exited while the
    host was connected: then no signal was ever sent to it, the host is sent
    exactly one ExitStatus message, with the exit code the session returns,
    after all of the terminal's output and as the last message of the session.
    Or the child was killed (by a hangup or by force): then no ExitStatus is
    sent and the session returns -1. *)
Theorem exit_status_delivered initial now evs acts rc :
  run_session has_channel has_interop has_local exit_status interop_handle initial true None now evs
    = (acts, Some rc) ->
  (exists before s after,
     acts = before ++ Send_control (exit_message (exit_status s)) :: after
     /\ rc = exit_status s /\ Reap (Some s) ∈ before
     /\ Forall (fun a => is_exit a = false) before
     /\ Forall (fun a => is_send a = false) after
     /\ Forall (fun a => is_kill a = false) acts)
  \/ (rc = -1 /\ Forall (fun a => is_exit a = false) acts /\ Exists (fun a => is_kill a = true) acts).
Proof.
  intros (st & st' & a1 & a2 & E1 & E2 & -> & Hrc)%session_phases.
  apply poll_loop_outcome in E1; [|apply init_inv]. unfold Session.cleanup in E2.
  assert (exit_code st' = exit_code st) as Hc by (injection E2 as <- _; done).
  assert (a2 = (if child_reaped st then [] else [Kill SIGKILL; Reap None])
               ++ [Close_master] ++ (if has_local then [Close_local] else []) ++ [Unlink_socket]) as ->
    by (injection E2 as _ <-; done). clear E2.
  assert (Hexit : Forall (fun a => is_exit a = false) ((if child_reaped st then [] else [Kill SIGKILL; Reap None])
               ++ [Close_master] ++ (if has_local then [Close_local] else []) ++ [Unlink_socket])).
  { destruct (child_reaped st), has_local; by repeat constructor. }
  destruct E1 as [(A1 & A2 & A3 & A4 & _)|[[_ (_ & b & s & -> & Hr & Hb & Hec & Hre)]|(_ & H1 & H2 & H3 & H4)]].
  - right. split; [rewrite Hrc, Hc; exact A1|]. split; [by apply Forall_app|]. apply Exists_app.
    destruct (child_reaped st) eqn:Hre; [|by right; repeat constructor].
    left. by destruct (A4 eq_refl) as [|[]].
  - left. rewrite Hre. cbn [app]. set (closing := Close_master :: _).
    assert (Hcl : Forall (fun a => is_send a = false /\ is_kill a = false) closing)
      by (subst closing; destruct has_local; by repeat constructor).
    exists b, s, closing. split; [by rewrite <-app_assoc|]. split; [congruence|]. split; [done|].
    split; [eapply Forall_impl; [exact Hb|]; naive_solver|].
    split; [eapply Forall_impl; [exact Hcl|]; naive_solver|].
    rewrite !Forall_app. split; [split|].
    + eapply Forall_impl; [exact Hb|]. naive_solver.
    + by repeat constructor.
    + eapply Forall_impl; [exact Hcl|]. naive_solver.
  - right. split; [rewrite Hrc, Hc; exact H1|]. split; [by apply Forall_app|].
    apply Exists_app. by left.
Qed.

(** * The grace period *)

(** An iteration that sees the child alive. *)
Definition alive (ev : events) : Prop :=
  ev_poll ev <> Poll_failed /\ ev_terminate ev = false /\ ev_killed ev = None /\ ev_sigchld ev = false.
Definition due (deadline : Z) (ev : events) : Prop := ev_poll ev = Poll_events /\ deadline <= ev_now ev.

(** With the host gone an iteration only escalates and relays. *)
Lemma iteration_disconnected ev st :
  host_disconnected st = true -> ev_poll ev = Poll_events -> ev_terminate ev = false -> ev_sigchld ev = false ->
  iteration ev st
  = (fst (escalate (ev_now ev) (ev_killed ev) st),
     snd (escalate (ev_now ev) (ev_killed ev) st) ++ local_interop has_local (ev_local ev),
     session_done (fst (escalate (ev_now ev) (ev_killed ev) st))).
Proof.
  intros Hd Hp Ht Hs. unfold Session.iteration. rewrite Hp, Ht.
  destruct (escalate (ev_now ev) (ev_killed ev) st) as [st1 a1] eqn:E1.
  assert (Hd1 : host_disconnected st1 = true).
  { apply escalate_quiet in E1 as (_ & _ & _ & _ & Hm & _). by apply Hm. }
  cbn [fst snd]. unfold check_size. rewrite Hd1. cbn [negb andb]. unfold sigchld. rewrite Hs.
  unfold control. rewrite Hd1. destruct (ev_control ev);
    unfold stdin_to_pty; rewrite Hd1; cbn [negb andb]; unfold pty_to_stdout; rewrite Hd1;
    destruct (ev_pty ev); unfold channel_echo; rewrite Hd1; cbn [negb andb];
    destruct (ev_channel ev); unfold interop; rewrite Hd1; cbn [negb andb];
    destruct (ev_interop ev); done.
Qed.

Lemma local_interop_no_kill r : Forall (fun a => is_kill a = false) (local_interop has_local r).
Proof. unfold local_interop. case_if; by repeat constructor. Qed.

Definition kills (acts : list action) : list action := List.filter is_kill acts.

Lemma kills_none acts : Forall (fun a => is_kill a = false) acts -> kills acts = [].
Proof. induction 1 as [|a acts Ha _ IH]; [done|]. unfold kills. cbn. rewrite Ha. exact IH. Qed.

Lemma kills_app a b : kills (a ++ b) = kills a ++ kills b.
Proof. apply List.filter_app. Qed.

(** After SIGKILL the loop only waits. *)
Lemma after_kill evs st :
  host_disconnected st = true -> sigkill_sent st = true -> session_done st = false -> Forall alive evs ->
  let '(_, acts, leave) := poll_loop evs st in leave = false /\ kills acts = [].
Proof.
  intros Hd Hk Hn. induction 1 as [|ev evs (Hp & Ht & Hkl & Hs) Hevs IH]; [done|]. cbn [Session.poll_loop].
  destruct (ev_poll ev) eqn:Epoll; [| |].
  - unfold Session.iteration. rewrite Epoll, Ht. cbn [snd].
    destruct (poll_loop evs st) as [[st2 a2] leave2]. done.
  - done.
  - rewrite (iteration_disconnected ev st Hd Epoll Ht Hs). unfold escalate. rewrite Hd, Hk.
    cbn [andb negb]. rewrite andb_false_r. cbn [andb fst snd]. rewrite Hn.
    destruct (poll_loop evs st) as [[st2 a2] leave2]. destruct IH as [-> IH]. split; [done|].
    by rewrite kills_app, (kills_none (_ ++ _)), IH by apply local_interop_no_kill.
Qed.

Lemma grace_period evs st :
  host_disconnected st = true -> child_reaped st = false -> sigkill_sent st = false ->
  session_done st = false -> Forall alive evs ->
  let '(_, acts, leave) := poll_loop evs st in
  leave = false
  /\ ((kills acts = [Kill SIGKILL] /\ Exists (due (shutdown_deadline st)) evs)
      \/ (kills acts = [] /\ ~ Exists (due (shutdown_deadline st)) evs)).
Proof.
  intros Hd Hr Hk Hn.
  induction 1 as [|ev evs (Hp & Ht & Hkl & Hs) Hevs IH].
  { split; [done|]. right. split; [done|]. by intros ?%Exists_nil. }
  cbn [Session.poll_loop]. destruct (ev_poll ev) eqn:Epoll.
  - unfold Session.iteration. rewrite Epoll, Ht.
    destruct (poll_loop evs st) as [[st2 a2] leave2]. destruct IH as [-> IH]. split; [done|].
    cbn [app]. destruct IH as [[H1 H2]|[H1 H2]]; [left|right]; (split; [done|]); rewrite Exists_cons.
    + by right.
    + intros [[He _]|He]; congruence.
  - done.
  - rewrite (iteration_disconnected ev st Hd Epoll Ht Hs). unfold escalate.
    rewrite Hd, Hr, Hk, Hkl. cbn [andb negb].
    destruct (shutdown_deadline st <=? ev_now ev) eqn:Edue; bool_to_prop; unfold waitpid; cbn.
    + rewrite Hr. cbn. rewrite Hn. pose proof (after_kill evs (st <| sigkill_sent := true |>)) as Hak.
      specialize (Hak Hd eq_refl Hn Hevs).
      destruct (poll_loop evs (st <| sigkill_sent := true |>)) as [[st2 a2] leave2].
      destruct Hak as [-> Hak].
      split; [done|]. left. split; [|by left].
      change (Kill SIGKILL :: ?x) with ([Kill SIGKILL] ++ x).
      rewrite !kills_app, Hak, (kills_none (local_interop _ _)) by apply local_interop_no_kill. done.
    + rewrite Hn. destruct (poll_loop evs st) as [[st2 a2] leave2]. destruct IH as [-> IH]. split; [done|].
      rewrite kills_app, (kills_none (local_interop _ _)) by apply local_interop_no_kill. cbn [app].
      destruct IH as [[H1 H2]|[H1 H2]]; [left|right]; (split; [done|]); rewrite Exists_cons.
      * by right.
      * intros [[_ He]|He]; [lia|congruence].
Qed.

(** After the host is gone the child has five seconds to exit: while it
    lives, SIGKILL is sent by the first iteration of the loop at or after the
    deadline, not before, and only once, and the loop goes on until the child
    is collected. *)
Theorem grace_period_respected now st0 evs :
  child_reaped st0 = false -> sigkill_sent st0 = false -> session_done st0 = false -> Forall alive evs ->
  let '(_, acts, leave) := poll_loop evs (fst (start_shutdown now st0)) in
  leave = false
  /\ ((kills acts = [Kill SIGKILL] /\ Exists (due (now + 5)) evs)
      \/ (kills acts = [] /\ ~ Exists (due (now + 5)) evs)).
Proof.
  intros Hr Hk Hn He. by apply (grace_period evs (fst (start_shutdown now st0))).
Qed.

(** * The terminal's output and input *)
Definition stdout (acts : list action) : bytes :=
  flat_map (fun a => match a with Send_stdout d => d | _ => [] end) acts.
Definition typed (acts : list action) : bytes :=
  flat_map (fun a => match a with Write_pty d => d | _ => [] end) acts.
Definition no_io (a : action) : bool :=
  match a with Send_stdout _ | Write_pty _ => false | _ => true end.

Lemma no_io_streams acts : Forall (fun a => no_io a = true) acts -> stdout acts = [] /\ typed acts = [].
Proof. induction 1 as [|a acts Ha _ [IH1 IH2]]; [done|]. by destruct a. Qed.

Lemma streams_app a b : stdout (a ++ b) = stdout a ++ stdout b /\ typed (a ++ b) = typed a ++ typed b.
Proof. split; apply flat_map_app. Qed.

(** Whether an iteration collects the child, what it then reads from the
    terminal, and what it reads from the host. *)
Definition runs (ev : events) : bool :=
  match ev_poll ev with Poll_events => negb (ev_terminate ev) | _ => false end.
Definition collects (ev : events) : bool :=
  runs ev && ev_sigchld ev && match ev_exit ev with Some _ => true | None => false end.
Definition output (ev : events) : bytes :=
  if collects ev then flat_map fst (ev_drain ev)
  else if runs ev then default [] (ev_pty ev) else [].
Definition input (ev : events) : bytes :=
  if runs ev && negb (collects ev)
  then match ev_stdin ev with Some (Recv_data d) => d | _ => [] end else [].

Lemma drain_all chunks :
  Forall (fun c => snd c = true) chunks -> stdout (drain true chunks) = flat_map fst chunks.
Proof. induction 1 as [|[d ok] chunks Hok _ IH]; [done|]. cbn in *. by rewrite Hok, <-IH. Qed.

Lemma drain_typed chunks c : typed (drain c chunks) = [].
Proof. induction chunks as [|[d ok] chunks IH]; [done|]. cbn. destruct c; [|done]. by destruct ok. Qed.

Definition flows (st st' : session) (acts : list action) (out inp : bytes) : Prop :=
  host_disconnected st' = false ->
  stdout acts = out /\ (stdin_open st' = true -> typed acts = inp)
  /\ host_disconnected st = false /\ (stdin_open st' = true -> stdin_open st = true).

Lemma flows_app st st1 st' a1 a2 o1 o2 i1 i2 :
  flows st st1 a1 o1 i1 -> flows st1 st' a2 o2 i2 -> flows st st' (a1 ++ a2) (o1 ++ o2) (i1 ++ i2).
Proof.
  intros H1 H2 Hd. destruct (H2 Hd) as (A1 & A2 & A3 & A4). destruct (H1 A3) as (B1 & B2 & B3 & B4).
  destruct (streams_app a1 a2) as [-> ->]. rewrite A1, B1. split; [done|]. split; [|by auto].
  intros Ho. by rewrite A2, B2 by auto.
Qed.

(** A block that neither reads nor writes the two streams. *)
Lemma flows_no_io st st' acts :
  (host_disconnected st = true -> host_disconnected st' = true) ->
  stdin_open st' = stdin_open st -> Forall (fun a => no_io a = true) acts -> flows st st' acts [] [].
Proof.
  intros Hm Ho Hf Hd. destruct (no_io_streams acts Hf) as [-> ->]. rewrite Ho.
  split; [done|]. split; [done|]. split; [|done]. destruct (host_disconnected st); [by rewrite Hm in Hd|done].
Qed.

Ltac no_io_tac :=
  repeat match goal with
  | |- context [if ?b then _ else _] => destruct b
  | |- context [match ?o with Some _ => _ | None => _ end] => destruct o
  end;
  intros [= <- <-]; (split; [done|by repeat constructor]).

Lemma escalate_no_io now status st st' acts :
  escalate now status st = (st', acts) ->
  stdin_open st' = stdin_open st /\ Forall (fun a => no_io a = true) acts.
Proof. unfold escalate. no_io_tac. Qed.

Lemma check_size_no_io now ws st st' acts :
  check_size now ws st = (st', acts) ->
  stdin_open st' = stdin_open st /\ Forall (fun a => no_io a = true) acts.
Proof. unfold check_size, notify_host_window_size. no_io_tac. Qed.

Lemma control_message_no_io ev msg st st' acts :
  control_message ev msg st = (st', acts) ->
  stdin_open st' = stdin_open st /\ Forall (fun a => no_io a = true) acts.
Proof. unfold control_message, update_pty_winsize, start_shutdown. cbv zeta. no_io_tac. Qed.

Lemma control_no_io ev st st' acts :
  control ev st = (st', acts) ->
  stdin_open st' = stdin_open st /\ Forall (fun a => no_io a = true) acts.
Proof.
  unfold control. destruct (ev_control ev) as [r|]; [|by intros [= <- <-]].
  destruct (host_disconnected st); [by intros [= <- <-]|].
  destruct (control_try_read (cr st) r) as [cr' [msg| |]].
  - destruct (control_message ev msg (st <| cr := cr' |>)) as [st1 acts1] eqn:E. intros [= <- <-].
    by apply control_message_no_io in E.
  - by intros [= <- <-].
  - unfold start_shutdown. no_io_tac.
Qed.

Lemma interop_no_io r st st' acts :
  interop has_interop interop_handle r st = (st', acts) ->
  stdin_open st' = stdin_open st /\ host_disconnected st' = host_disconnected st
  /\ Forall (fun a => no_io a = true) acts.
Proof.
  unfold interop. destruct r as [r|]; [|by intros [= <- <-]]. case_if; [|by intros [= <- <-]].
  destruct (interop_try_read (ir st) r) as [ir' [msg| |]]; intros [= <- <-];
    (split; [done|]); (split; [done|]); try done.
  destruct (interop_handle msg) as [replies started|]; [|by repeat constructor].
  apply Forall_app. split; [by destruct started; repeat constructor|].
  induction replies; by constructor.
Qed.

Lemma stdin_flows r st st' acts :
  stdin_to_pty r st = (st', acts) ->
  flows st st' acts [] (match r with Some (Recv_data d) => d | _ => [] end).
Proof.
  unfold stdin_to_pty, flows. destruct (host_disconnected st) eqn:Hd, (stdin_open st) eqn:Ho; cbn [negb andb];
    destruct r as [[data| | |]|]; intros [= <- <-]; cbn; rewrite ?Hd, ?Ho, ?app_nil_r; done.
Qed.

Lemma pty_flows r st st' acts :
  pty_to_stdout r st = (st', acts) -> flows st st' acts (default [] r) [].
Proof.
  unfold pty_to_stdout, flows. destruct r as [data|]; destruct (host_disconnected st) eqn:Hd;
    intros [= <- <-]; cbn; rewrite ?Hd, ?app_nil_r; done.
Qed.

Lemma quiet_flows st st' acts :
  quiet st st' acts -> stdin_open st' = stdin_open st /\ Forall (fun a => no_io a = true) acts ->
  flows st st' acts [] [].
Proof. intros (_ & _ & _ & _ & Hm & _) [Ho Hf]. by apply flows_no_io. Qed.

(** When the child is collected, and when it is not. *)
Lemma sigchld_flows ev st st' acts leave :
  Forall (fun c => snd c = true) (ev_drain ev) -> runs ev = true ->
  sigchld exit_status (ev_sigchld ev) (ev_exit ev) (ev_drain ev) st = (st', acts, leave) ->
  if leave then flows st st' acts (output ev) (input ev)
  else child_reaped st = false -> collects ev = false.
Proof.
  intros Hdr Hrun. unfold sigchld, waitpid, output, input, collects. rewrite Hrun.
  destruct (ev_sigchld ev); [|by intros [= <- <- <-]].
  destruct (child_reaped st); [by intros [= <- <- <-]|].
  destruct (ev_exit ev) as [s|]; [|by intros [= <- <- <-]].
  change (host_disconnected (st <| child_reaped := true |> <| session_done := true |>))
    with (host_disconnected st). cbn [andb negb].
  destruct (host_disconnected st) eqn:Hd; intros [= <- <- <-] H; cbn in H; [congruence|].
  change (Reap (Some s) :: ?x) with ([Reap (Some s)] ++ x).
  destruct (streams_app [Reap (Some s)] (drain true (ev_drain ev) ++ [Send_control (exit_message (exit_status s))]))
    as [-> ->].
  destruct (streams_app (drain true (ev_drain ev)) [Send_control (exit_message (exit_status s))]) as [-> ->].
  rewrite drain_all, drain_typed by done. cbn. by rewrite app_nil_r.
Qed.

Lemma iteration_flows ev st st' acts leave :
  inv st -> Forall (fun c => snd c = true) (ev_drain ev) ->
  iteration ev st = (st', acts, leave) -> flows st st' acts (output ev) (input ev).
Proof.
  intros Hi Hdr. unfold Session.iteration. destruct (runs ev) eqn:Hrun.
  2:{ unfold output, input, collects. rewrite Hrun. cbn [andb]. unfold runs in Hrun.
      destruct (ev_poll ev); [intros [= <- <- <-]; by apply flows_no_io| |].
      - destruct (child_reaped st); intros [= <- <- <-]; by apply flows_no_io; repeat constructor.
      - apply negb_false_iff in Hrun. rewrite Hrun. intros [= <- <- <-]. by apply flows_no_io. }
  pose proof Hrun as Hrun'. unfold runs in Hrun'.
  destruct (ev_poll ev); [done..|]. apply negb_true_iff in Hrun'. rewrite Hrun'.
  destruct (escalate _ _ st) as [st1 a1] eqn:E1. destruct (escalate_ok _ _ _ _ _ E1 Hi) as (_ & _ & Hi1).
  assert (F1 : flows st st1 a1 [] [])
    by (apply quiet_flows; [by eapply escalate_quiet|by eapply escalate_no_io]).
  destruct (check_size _ _ st1) as [st2 a2] eqn:E2. destruct (check_size_ok _ _ _ _ _ E2 Hi1) as (_ & _ & Hi2).
  assert (F2 : flows st1 st2 a2 [] [])
    by (apply quiet_flows; [by eapply check_size_quiet|by eapply check_size_no_io]).
  destruct (sigchld _ _ _ _ st2) as [[st3 a3] leave3] eqn:E3.
  pose proof (sigchld_flows _ _ _ _ _ Hdr Hrun E3) as F3. destruct leave3.
  { intros [= <- <- <-]. change (output ev) with ([] ++ [] ++ output ev).
    change (input ev) with ([] ++ [] ++ input ev).
    eapply flows_app; [exact F1|]. by eapply flows_app. }
  apply sigchld_ok in E3 as [E3 _]. destruct E3 as [-> ->]; [done|].
  destruct (control ev st2) as [st4 a4] eqn:E4.
  assert (F4 : flows st2 st4 a4 [] [])
    by (apply quiet_flows; [by eapply control_quiet|by eapply control_no_io]).
  destruct (stdin_to_pty _ st4) as [st5 a5] eqn:E5. apply stdin_flows in E5.
  destruct (pty_to_stdout _ st5) as [st6 a6] eqn:E6. apply pty_flows in E6.
  assert (F7 : flows st6 st6 (channel_echo has_channel (ev_channel ev) st6) [] []).
  { apply flows_no_io; try done. unfold channel_echo. destruct (ev_channel ev); [|done].
    case_if; by repeat constructor. }
  destruct (interop _ _ _ st6) as [st8 a8] eqn:E8. apply interop_no_io in E8 as (O8 & D8 & N8).
  assert (F8 : flows st6 st8 a8 [] []) by (apply flows_no_io; congruence).
  assert (F9 : flows st8 st8 (local_interop has_local (ev_local ev)) [] []).
  { apply flows_no_io; try done. unfold local_interop. case_if; by repeat constructor. }
  intros [= <- <- <-] Hd. cbn [app].
  pose proof (flows_app _ _ _ _ _ _ _ _ _ F4 (flows_app _ _ _ _ _ _ _ _ _ E5 (flows_app _ _ _ _ _ _ _ _ _ E6
    (flows_app _ _ _ _ _ _ _ _ _ F7 (flows_app _ _ _ _ _ _ _ _ _ F8 F9))))) as F.
  destruct (F Hd) as (_ & _ & H2 & _).
  assert (collects ev = false) as Hc.
  { apply F3. destruct (child_reaped st2) eqn:R2; [|done]. destruct Hi2 as [Hi2 _]. by rewrite Hi2 in H2. }
  unfold output, input. rewrite Hc, Hrun. cbn [andb negb].
  pose proof (flows_app _ _ _ _ _ _ _ _ _ F1 (flows_app _ _ _ _ _ _ _ _ _ F2 F)) as FF.
  specialize (FF Hd). cbn [app] in FF. by rewrite !app_nil_r in FF.
Qed.

Lemma poll_loop_flows evs st st' acts leave :
  inv st -> Forall (fun ev => Forall (fun c => snd c = true) (ev_drain ev)) evs ->
  poll_loop evs st = (st', acts, leave) ->
  exists k, flows st st' acts (flat_map output (take k evs)) (flat_map input (take k evs))
    /\ (leave = false -> (length evs <= k)%nat).
Proof.
  intros Hi Hdr. revert st Hi acts; induction Hdr as [|ev evs Hev _ IH]; intros st Hi acts; cbn [Session.poll_loop].
  - intros [= <- <- <-]. exists 0%nat. split; [by apply flows_no_io|done].
  - destruct (iteration ev st) as [[st1 a1] leave1] eqn:E1.
    pose proof (iteration_ok _ _ _ _ _ E1 Hi) as (_ & _ & Hi1). apply iteration_flows in E1; [|done..].
    destruct leave1.
    + intros [= <- <- <-]. exists 1%nat. cbn. rewrite take_0. cbn. by rewrite !app_nil_r.
    + destruct (poll_loop evs st1) as [[st2 a2] leave2] eqn:E2. intros [= -> <- ->].
      destruct (IH _ (Hi1 eq_refl) _ E2) as (k & Hk & Hl). exists (S k). cbn [take flat_map].
      split; [by eapply flows_app|]. intros Hlv. specialize (Hl Hlv). cbn [length]. lia.
Qed.

(** While the host stays connected the bridge is transparent: what it sends
    to standard output is exactly what the terminal produced, in order and
    without loss, the last output after the child's exit included, and what it
    types into the terminal is exactly what the host sent. *)
Theorem output_passes_through rows cols now evs st acts leave :
  Forall (fun ev => Forall (fun c => snd c = true) (ev_drain ev)) evs ->
  poll_loop evs (session_init rows cols now) = (st, acts, leave) ->
  host_disconnected st = false ->
  exists k, stdout acts = flat_map output (take k evs)
    /\ (stdin_open st = true -> typed acts = flat_map input (take k evs))
    /\ (leave = false -> (length evs <= k)%nat).
Proof.
  intros Hdr E Hd. destruct (poll_loop_flows _ _ _ _ _ (init_inv _ _ _) Hdr E) as (k & Hk & Hl).
  destruct (Hk Hd) as (H1 & H2 & _). by exists k.
Qed.
End Session.

(** * Sample sessions *)
Definition sample_status (s : Z) : Z := if s mod 128 =? 0 then s / 256 else -1.
Definition sample_handle : bytes -> Interop.handled :=
  Interop.interop_process_message (fun _ => None) [] (Interop.Forked 77).

Definition at_time (now : Z) (control stdin : option recv_result) (pty : option bytes) : events :=
  mk_events Poll_events false now now None None None false None [] control stdin pty None None false true.
Definition child_exit (now status : Z) (chunks : list (bytes * bool)) : events :=
  mk_events Poll_events false now now None None None true (Some status) chunks None None None None None false true.

(** The user types a command, the shell answers, exits with code 3, and its last
    output is read after the exit. *)
Definition normal_events : list events :=
  [at_time 100 None (Some (Recv_data (str "exit 3"))) (Some (str "$ "));
   at_time 101 None None (Some (str "exit"));
   child_exit 101 768 [(str " bye", true)]].
Definition normal_run : list action * option Z :=
  run_session true true true sample_status sample_handle None true None 100 normal_events.

(** The host goes away at 100, the child ignores the hangup, is killed after the
    deadline and collected. *)
Definition gone_events : list events :=
  [at_time 100 (Some Recv_eof) None (Some (str "lost"));
   at_time 104 None None (Some (str "lost too"));
   mk_events Poll_events false 105 105 None None None false None [] None None None None None true true;
   child_exit 106 9 []].
Definition gone_run : list action * option Z :=
  run_session true true true sample_status sample_handle None true None 100 gone_events.

Lemma child_collected_once_witness :
  exists before status after,
    fst gone_run = before ++ Reap status :: after
    /\ Forall (fun a => is_reap a = false) before
    /\ Forall (fun a => is_reap a = false /\ is_kill a = false) after.
Proof.
  apply (child_collected_once true true true sample_status sample_handle None None 100 gone_events
           (fst gone_run) (-1)).
  vm_compute. reflexivity.
Defined.


Lemma exit_status_delivered_witness :
  (exists before s after,
     fst normal_run = before ++ Send_control (exit_message (sample_status s)) :: after
     /\ 3 = sample_status s /\ Reap (Some s) ∈ before
     /\ Forall (fun a => is_exit a = false) before
     /\ Forall (fun a => is_send a = false) after
     /\ Forall (fun a => is_kill a = false) (fst normal_run))
  \/ (3 = -1 /\ Forall (fun a => is_exit a = false) (fst normal_run)
      /\ Exists (fun a => is_kill a = true) (fst normal_run)).
Proof.
  apply (exit_status_delivered true true true sample_status sample_handle None 100 normal_events
           (fst normal_run) 3).
  vm_compute. reflexivity.
Defined.

Lemma grace_period_respected_witness :
  let '(_, acts, leave) :=
    poll_loop true true true sample_status sample_handle
      [at_time 104 None None None; at_time 105 None None None; at_time 200 None None None]
      (fst (start_shutdown 100 (session_init 24 80 100))) in
  leave = false
  /\ ((kills acts = [Kill SIGKILL]
        /\ Exists (due (100 + 5)) [at_time 104 None None None; at_time 105 None None None; at_time 200 None None None])
      \/ (kills acts = []
        /\ ~ Exists (due (100 + 5)) [at_time 104 None None None; at_time 105 None None None; at_time 200 None None None])).
Proof.
  apply (grace_period_respected true true true sample_status sample_handle 100 (session_init 24 80 100));
    [reflexivity..|].
  repeat constructor; discriminate.
Defined.

Lemma output_passes_through_witness :
  exists k, stdout (snd (fst (poll_loop true true true sample_status sample_handle normal_events
                               (session_init 24 80 100))))
            = flat_map output (take k normal_events).
Proof.
  destruct (output_passes_through true true true sample_status sample_handle 24 80 100 normal_events
              (fst (fst (poll_loop true true true sample_status sample_handle normal_events (session_init 24 80 100))))
              (snd (fst (poll_loop true true true sample_status sample_handle normal_events (session_init 24 80 100))))
              true) as (k & H & _); [repeat constructor|vm_compute; reflexivity|vm_compute; reflexivity|].
  exists k. exact H.
Defined.

(** The whole trace of the normal session. *)
Example normal_trace :
  normal_run
  = ([Write_pty (str "exit 3"); Send_stdout (str "$ "); Send_stdout (str "exit"); Reap (Some 768);
      Send_stdout (str " bye"); Send_control (exit_message 3); Close_master; Close_local; Unlink_socket],
     Some 3).
Proof. vm_compute. reflexivity. Qed.

Example gone_trace :
  gone_run
  = ([Kill SIGHUP; Kill SIGKILL; Relay_local; Reap (Some 9); Close_master; Close_local; Unlink_socket], Some (-1)).
Proof. vm_compute. reflexivity. Qed.

(** A child that exits before the loop starts: the listener of the local interop
    socket stays open and its file stays behind. *)
Example early_exit_leaves_socket :
  run_session true true true sample_status sample_handle None true (Some 0) 100 []
  = ([Reap (Some 0); Send_control (exit_message 0); Close_master], Some 0).
Proof. reflexivity. Qed.

(** A closed interop channel changes nothing, so the next poll reports it again
    at once. *)
Example closed_interop_spins :
  let ev := mk_events Poll_events false 100 100 None None None false None [] None None None None
              (Some Recv_eof) false true in
  iteration true true true sample_status sample_handle ev (session_init 24 80 100)
  = (session_init 24 80 100, [], false).
Proof. reflexivity. Qed.

(** The resolv.conf content of a message without terminator runs on into the
    next message of the buffer. *)
Example resolv_conf_runs_on :
  let msg := header_bytes (mk_header LxInitMessageNetworkInformation 22 1) ++ le_bytes 4 0 ++ le_bytes 4 0 ++ str "ns" in
  snd (control (at_time 100 (Some (Recv_data (msg ++ [65; 0]))) None None) (session_init 24 80 100))
  = [Sys (Write_file (str "/etc/resolv.conf") (str "nsA"))].
Proof. vm_compute. reflexivity. Qed.

End SessionThm.
