(* ===== verification/Bridge.v ===== *)
(** The bridge (main of src/FreeBSD/hvbridge.c): its listener, and session after
    session, the connections of the host, the request that names the program, the
    session itself, and what is closed behind it. *)
From S2P Require Import Prelude CStr CNum Wire Interop CreateProc Session.
Import Wire.

Module Bridge.

Definition NUM_ADDITIONAL_SOCKETS : nat := 5.

(** What poll and accept give within a minute. *)
Inductive accepted : Type := Poll_timeout | Poll_error | Accept_error | Connection (fd : Z).
Definition accept_with_poll (a : accepted) : option Z :=
  match a with Connection fd => Some fd | _ => None end.

(** One call of run_session: the descriptors that it was given, the size of the
    terminal, the program, its actions and its result. *)
Record session_run : Type := mk_run {
  run_control : Z; run_stdin : Z; run_stdout : Z; run_channel : Z; run_interop : Z;
  run_size : Z * Z; run_info : option CreateProc.create_process_info;
  run_actions : list Session.action; run_code : option Z
}.
Inductive call : Type :=
| Opened (fd : Z)
| Bind (fd port : Z)
| Listen (fd backlog : Z)
| Answer (fd : Z) (data : bytes)
| Run (r : session_run)
| Closed (fd : Z).

(** [Undefined]: bytes or array entries that were never written are used, or a
    string is read beyond its message. *)
Inductive ending : Type := Exit (status : Z) | Waiting | Undefined.

(** What one turn of the loop meets.  [b_unset] is what the array holds where no
    socket was stored. *)
Record turn : Type := mk_turn {
  b_init : accepted; b_control : accepted;
  b_recv : list sock_event; b_stream : bytes; b_write_ok : bool;
  b_sockets : nat -> accepted; b_unset : nat -> Z;
  b_local : bool; b_fork_ok : bool; b_early : option Z; b_now : Z; b_events : list Session.events;
  b_terminate : bool
}.

Section Bridge.
Context (exit_status : Z -> Z) (interop_handle : bytes -> Interop.handled).

(** The five sockets, up to the first that does not come. *)
Fixpoint accept_additional (n : nat) (i : nat) (sockets : nat -> accepted) : list Z * bool :=
  match n with
  | O => ([], true)
  | S n' =>
    match accept_with_poll (sockets i) with
    | None => ([], false)
    | Some fd => let '(l, ok) := accept_additional n' (S i) sockets in (fd :: l, ok)
    end
  end.

(** After a failure every entry of the array that is not negative is closed: the
    failed one is, the ones behind it were never set. *)
Definition close_sockets (t : turn) (l : list Z) : list call :=
  map Closed l ++
  map Closed (filter (fun v => 0 <= v) (map (b_unset t) (seq (S (length l)) (NUM_ADDITIONAL_SOCKETS - S (length l))))).

(** The state between the turns: g_initial_message. *)
Inductive next : Type := Continue (g_initial_message : option bytes) | Leave | Stop (e : ending).

(** From the five sockets to the end of the session. *)
Definition serve (t : turn) (init_c initial_c : Z) (g_initial_message : option bytes) (info : option CreateProc.create_process_info) :
    list call * next :=
  let '(l, ok) := accept_additional NUM_ADDITIONAL_SOCKETS 0 (b_sockets t) in
  if negb ok then (map Opened l ++ [Closed init_c; Closed initial_c] ++ close_sockets t l, Leave)
  else
    let '(acts, code) :=
      Session.run_session true true (b_local t) exit_status interop_handle g_initial_message (b_fork_ok t) (b_early t) (b_now t) (b_events t) in
    let run := mk_run initial_c (nth 0 l 0) (nth 1 l 0) (nth 3 l 0) (nth 4 l 0) (Session.initial_size g_initial_message) info acts code in
    match code with
    | None => (map Opened l ++ [Run run], Stop Waiting)
    | Some _ =>
      (map Opened l ++ [Run run] ++ [Closed init_c; Closed initial_c] ++ map Closed l, if b_terminate t then Leave else Continue None)
    end.

Definition one_session (g_initial_message : option bytes) (t : turn) : list call * next :=
  match accept_with_poll (b_init t) with
  | None => ([], Leave)
  | Some init_c =>
    match accept_with_poll (b_control t) with
    | None => ([Opened init_c; Closed init_c], Leave)
    | Some initial_c =>
      let opened := [Opened init_c; Opened initial_c] in
      match CreateProc.receive_initial_message (b_recv t) (b_stream t) (b_write_ok t) with
      | CreateProc.Blocked => (opened, Stop Waiting)
      | CreateProc.Short_header => (opened, Stop Undefined)
      | CreateProc.Received rc stored sent _ =>
        let answer := match sent with [] => [] | _ => [Answer initial_c sent] end in
        let g := match stored with Some m => Some m | None => g_initial_message end in
        if rc <? 0 then (opened ++ answer ++ [Closed init_c; Closed initial_c], Leave)
        else
          match (match g with Some m => CreateProc.parse_create_process_info m | None => CreateProc.Parse_null end) with
          | CreateProc.Parse_past_end => (opened ++ answer, Stop Undefined)
          | CreateProc.Parse_null =>
            let '(cs, n) := serve t init_c initial_c g None in (opened ++ answer ++ cs, n)
          | CreateProc.Parsed i =>
            let '(cs, n) := serve t init_c initial_c g (Some (CreateProc.ensure_env_defaults i)) in (opened ++ answer ++ cs, n)
          end
      end
    end
  end.

Fixpoint sessions (g_initial_message : option bytes) (listen_fd : Z) (turns : list turn) : list call * ending :=
  match turns with
  | [] => ([], Waiting)
  | t :: turns' =>
    let '(cs, n) := one_session g_initial_message t in
    match n with
    | Continue g => let '(cs', e) := sessions g listen_fd turns' in (cs ++ cs', e)
    | Leave => (cs ++ [Closed listen_fd], Exit 0)
    | Stop e => (cs, e)
    end
  end.

Definition main (fd : Z) (bind_ok listen_ok : bool) (turns : list turn) : list call * ending :=
  if fd <? 0 then ([], Exit 1)
  else
    let port := CreateProc.PORT_HVS_BSD in
    if negb bind_ok then ([Opened fd; Bind fd port; Closed fd], Exit 1)
    else if negb listen_ok then ([Opened fd; Bind fd port; Listen fd 10; Closed fd], Exit 1)
    else let '(cs, e) := sessions None fd turns in ([Opened fd; Bind fd port; Listen fd 10] ++ cs, e).
End Bridge.

End Bridge.
