(* ===== verification/BridgeThm.v ===== *)
(** Theorems on the CreateProcess messages (CreateProcThm) and on the bridge's main loop
    (BridgeThm). *)
From stdpp Require Import sets.
From S2P Require Import Prelude CStr CNum FdTrace Wire ChannelThm Interop CreateProc Session Bridge.

Import Wire WireThm CreateProc.

Module CreateProcThm.

(** * Receiving *)
Lemma read_full_complete evs stream need got :
  Forall (working retry_intr) evs -> (need <= progress evs)%nat -> (need <= length stream)%nat ->
  exists evs', read_full evs stream need got
      = (Some (Z.of_nat (length got + need)), got ++ take need stream, evs', drop need stream)
    /\ Forall (working retry_intr) evs' /\ (progress evs <= progress evs' + need)%nat.
Proof.
  intros Hw. revert stream need got; induction Hw as [|e evs He Hw IH]; intros stream need got Hp Hs.
  - destruct need; [|cbn in Hp; lia]. exists []. rewrite app_nil_r, Nat.add_0_r. repeat split; auto.
  - destruct need as [|need].
    { exists (e :: evs). rewrite app_nil_r, Nat.add_0_r. repeat split; auto; lia. }
    cbn [read_full]. rewrite progress_cons in Hp |- *.
    destruct e as [n|r| |]; cbn in He; try done; try (cbn in Hp; by apply IH).
    destruct stream as [|b stream]; [cbn in Hs; lia|]. set (s := b :: stream) in *.
    set (m := min (S n) (S need)) in *.
    assert (length (take m s) = m) as Hl by (rewrite length_take; lia). rewrite Hl.
    destruct (IH (drop m s) (S need - m)%nat (got ++ take m s)) as (evs' & Heq & Hw' & Hp');
      [lia|rewrite length_drop; lia|].
    exists evs'. rewrite Heq, drop_drop, <-app_assoc, take_take_drop, length_app, Hl.
    replace (m + (S need - m))%nat with (S need) by lia.
    replace (length got + m + (S need - m))%nat with (length got + S need)%nat by lia.
    repeat split; auto; lia.
Qed.

Lemma receive_complete evs hdr body rest :
  Forall (working retry_intr) evs -> (length hdr + length body <= progress evs)%nat ->
  length hdr = 12%nat ->
  MessageSize (read_header hdr) = 12 + Z.of_nat (length body) ->
  receive_initial_message evs ((hdr ++ body) ++ rest) true
  = Received 0 (Some (hdr ++ body)) (initial_response (SequenceNumber (read_header hdr))) rest.
Proof.
  intros Hw Hp Hh Hs. unfold receive_initial_message. rewrite <-app_assoc.
  destruct (read_full_complete evs (hdr ++ body ++ rest) 12 [])
    as (evs1 & E1 & Hw1 & Hp1); [done|lia|rewrite !length_app; lia|].
  rewrite E1. cbn [app length Nat.add]. rewrite <-Hh, take_app_length, drop_app_length, Hh. cbn [Z.of_nat].
  change (Z.of_nat 12 <=? 0) with false. change (Z.of_nat 12 <? sizeof_header) with false. cbv iota.
  cbv zeta. rewrite Hs. rewrite (proj2 (Z.ltb_ge _ _)) by (unfold sizeof_header; lia).
  replace (Z.to_nat (12 + Z.of_nat (length body) - sizeof_header)) with (length body)
    by (unfold sizeof_header; lia).
  destruct (read_full_complete evs1 (body ++ rest) (length body) [])
    as (evs2 & E2 & _ & _); [done|lia|rewrite length_app; lia|].
  rewrite E2. cbn [app length Nat.add]. rewrite (proj2 (Z.ltb_ge _ _)) by lia.
  rewrite Z.eqb_refl, take_app_length, drop_app_length. done.
Qed.

(** * Parsing *)
Lemma packed_strings_roundtrip ss rest :
  Forall no_nul ss -> packed_strings (length ss) (packed ss ++ rest) = ss.
Proof.
  induction 1 as [|s ss Hs Hss IH]; [done|].
  rewrite packed_cons, <-app_assoc. cbn [length app packed_strings].
  destruct (s ++ 0 :: packed ss ++ rest) as [|b p] eqn:D; [by destruct s|]. rewrite <-D.
  rewrite to_cstr_app_nul by done. rewrite (proj2 (Nat.leb_gt _ _)) by (rewrite length_app; cbn [length]; lia).
  f_equal. replace (S (length s)) with (length (s ++ [0])) by (rewrite length_app; cbn [length]; lia).
  replace (s ++ 0 :: packed ss ++ rest) with ((s ++ [0]) ++ packed ss ++ rest) by (by rewrite <-app_assoc).
  by rewrite drop_app_length.
Qed.

Lemma strdup_at_packed pre s rest :
  no_nul s -> strdup_at (Z.of_nat (length pre)) (pre ++ s ++ 0 :: rest) = Dup s.
Proof.
  intros Hs. unfold strdup_at.
  rewrite (proj2 (Z.ltb_lt _ _)) by (rewrite !length_app; cbn [length]; lia).
  rewrite Nat2Z.id, drop_app_length, to_cstr_app_nul by done.
  unfold nul_terminated. rewrite existsb_app. cbn [existsb]. by rewrite orb_true_r.
Qed.

(** The strings the host sends for an argument list: none at all when the
    list is empty. *)
Definition some_strings (ss : list bytes) : option (list bytes) :=
  match ss with [] => None | _ => Some ss end.

Lemma strings_at_packed pre ss rest :
  Forall no_nul ss ->
  strings_at (Z.of_nat (length ss)) (Z.of_nat (length pre)) (pre ++ packed ss ++ rest) = some_strings ss.
Proof.
  intros Hs. unfold strings_at. destruct ss as [|s ss]; [done|]. set (l := s :: ss) in *.
  rewrite (proj2 (Z.ltb_lt _ _)) by (subst l; cbn [length]; lia).
  rewrite (proj2 (Z.ltb_lt _ _)).
  2:{ subst l. rewrite packed_cons, !length_app. cbn [length]. lia. }
  cbn [andb]. by rewrite !Nat2Z.id, drop_app_length, packed_strings_roundtrip.
Qed.

(** The message of the host: the fixed part, with [pad] and [tail] for the
    bytes the guest does not read, and the strings. *)
Definition utility_vm_fields (rows cols o_dir o_args nargs pad o_env nenv : Z) (tail : bytes) : bytes :=
  le_bytes 2 rows ++ le_bytes 2 cols ++ le_bytes 4 0 ++ le_bytes 4 o_dir ++ le_bytes 4 o_args
  ++ le_bytes 2 nargs ++ le_bytes 2 pad ++ le_bytes 4 o_env ++ le_bytes 2 nenv ++ tail.

Definition utility_vm_body (rows cols pad : Z) (tail file dir : bytes) (args env : list bytes) : bytes :=
  let o_dir := (length file + 1)%nat in
  let o_args := (o_dir + (length dir + 1))%nat in
  utility_vm_fields rows cols (Z.of_nat o_dir) (Z.of_nat o_args) (Z.of_nat (length args)) pad
    (Z.of_nat (o_args + length (packed args))) (Z.of_nat (length env)) tail
  ++ file ++ 0 :: dir ++ 0 :: packed args ++ packed env.

Definition utility_vm_message (seq rows cols pad : Z) (tail file dir : bytes) (args env : list bytes) : bytes :=
  let body := utility_vm_body rows cols pad tail file dir args env in
  header_bytes (mk_header 8 (12 + Z.of_nat (length body)) seq) ++ body.

Section Parse.
Context (hdr : MESSAGE_HEADER) (rows cols pad : Z) (tail file dir : bytes) (args env : list bytes).
Context (Htail : length tail = 30%nat) (Hfile : no_nul file) (Hdir : no_nul dir).
Context (Hargs : Forall no_nul args) (Henv : Forall no_nul env).
Context (Hna : Z.of_nat (length args) < 2 ^ 16) (Hne : Z.of_nat (length env) < 2 ^ 16).
Context (Hrows : 0 <= rows < 2 ^ 16) (Hcols : 0 <= cols < 2 ^ 16).

Lemma parse_fields_buffer o_dir o_args o_env buffer :
  o_dir = Z.of_nat (length (file ++ [0])) -> o_args = Z.of_nat (length (file ++ 0 :: dir ++ [0])) ->
  o_env = Z.of_nat (length (file ++ 0 :: dir ++ 0 :: packed args)) ->
  buffer = file ++ 0 :: dir ++ 0 :: packed args ++ packed env ->
  Z.of_nat (length buffer) < 2 ^ 32 ->
  let msg := header_bytes hdr
    ++ utility_vm_fields rows cols o_dir o_args (Z.of_nat (length args)) pad o_env (Z.of_nat (length env)) tail
    ++ buffer in
  parse_create_process_info msg
  = Parsed (mk_info (Some file) (Some dir) (some_strings args) (some_strings env))
  /\ Rows msg = rows /\ Columns msg = cols.
Proof.
  intros Ho1 Ho2 Ho3 Hb Hlen msg.
  assert (Hl1 := f_equal (fun l : bytes => length l) Hb). rewrite !length_app in Hl1. cbn [length] in Hl1.
  rewrite !length_app in Hl1. cbn [length] in Hl1. rewrite length_app in Hl1.
  rewrite !length_app in Ho1, Ho2, Ho3. cbn [length] in Ho1, Ho2, Ho3.
  rewrite !length_app in Ho2, Ho3. cbn [length] in Ho2, Ho3.
  assert (Hfix : drop 68 msg = buffer).
  { subst msg. rewrite app_assoc. replace 68%nat with
      (length (header_bytes hdr ++ utility_vm_fields rows cols o_dir o_args (Z.of_nat (length args)) pad o_env
                 (Z.of_nat (length env)) tail)); [apply drop_app_length|].
    unfold utility_vm_fields. autorewrite with len. rewrite header_bytes_length, Htail. done. }
  assert (Hl2 : length msg = (68 + length buffer)%nat).
  { rewrite <-Hfix, length_drop. assert (68 <= length msg)%nat; [|lia].
    subst msg. unfold utility_vm_fields. autorewrite with len. rewrite header_bytes_length, Htail. lia. }
  assert (Hg : get32 16 msg = 0 /\ get32 20 msg = o_dir /\ get32 24 msg = o_args
    /\ get16 28 msg = Z.of_nat (length args) /\ get32 32 msg = o_env /\ get16 36 msg = Z.of_nat (length env)
    /\ get16 12 msg = rows /\ get16 14 msg = cols).
  { subst msg. unfold header_bytes, utility_vm_fields. rewrite <-!app_assoc.
    repeat split; read_field; try done; lia. }
  destruct Hg as (G1 & G2 & G3 & G4 & G5 & G6 & G7 & G8).
  split; [|done]. unfold parse_create_process_info.
  rewrite (proj2 (Z.ltb_ge _ _)), (proj2 (Z.leb_gt _ _)) by (unfold sizeof_utility_vm; lia).
  change (Z.to_nat sizeof_utility_vm) with 68%nat. cbv zeta.
  rewrite Hfix, G1, G2, G3, G4, G5, G6.
  assert (strdup_at 0 buffer = Dup file) as ->.
  { rewrite Hb. by apply (strdup_at_packed []). }
  assert (strdup_at o_dir buffer = Dup dir) as ->.
  { replace buffer with ((file ++ [0]) ++ dir ++ 0 :: packed args ++ packed env)
      by (rewrite Hb, <-app_assoc; done).
    replace o_dir with (Z.of_nat (length (file ++ [0]))); [by apply strdup_at_packed|].
    rewrite length_app. cbn [length]. lia. }
  assert (strings_at (Z.of_nat (length args)) o_args buffer = some_strings args) as ->.
  { replace buffer with ((file ++ 0 :: dir ++ [0]) ++ packed args ++ packed env)
      by (rewrite Hb, <-app_assoc; cbn [app]; by rewrite <-app_assoc).
    replace o_args with (Z.of_nat (length (file ++ 0 :: dir ++ [0]))); [by apply strings_at_packed|].
    rewrite !length_app. cbn [length]. rewrite length_app. cbn [length]. lia. }
  assert (strings_at (Z.of_nat (length env)) o_env buffer = some_strings env) as ->; [|done].
  replace buffer with ((file ++ 0 :: dir ++ 0 :: packed args) ++ packed env ++ [])
    by (rewrite Hb, app_nil_r, <-app_assoc; cbn [app]; by rewrite <-app_assoc).
  replace o_env with (Z.of_nat (length (file ++ 0 :: dir ++ 0 :: packed args))); [by apply strings_at_packed|].
  rewrite !length_app. cbn [length]. rewrite length_app. cbn [length]. lia.
Qed.
End Parse.

(** The session request survives the trip: for a message the host lays out
    as documented, whatever the sizes of the reads, the guest receives exactly
    that message, answers with its sequence number, leaves the stream at the
    next message, and extracts the program, the directory, the arguments, the
    environment and the terminal size it was built from. *)
Theorem session_request_read evs seq rows cols pad tail file dir args env rest :
  let msg := utility_vm_message seq rows cols pad tail file dir args env in
  Forall (working retry_intr) evs -> (length msg <= progress evs)%nat ->
  Z.of_nat (length msg) < 2 ^ 32 -> 0 <= seq < 2 ^ 32 -> length tail = 30%nat ->
  Forall no_nul (file :: dir :: args ++ env) ->
  Z.of_nat (length args) < 2 ^ 16 -> Z.of_nat (length env) < 2 ^ 16 ->
  0 <= rows < 2 ^ 16 -> 0 <= cols < 2 ^ 16 ->
  receive_initial_message evs (msg ++ rest) true = Received 0 (Some msg) (initial_response seq) rest
  /\ parse_create_process_info msg
     = Parsed (mk_info (Some file) (Some dir) (some_strings args) (some_strings env))
  /\ Rows msg = rows /\ Columns msg = cols.
Proof.
  intros msg Hw Hp Hlen Hseq Htail Hs Hna Hne Hrows Hcols.
  apply Forall_cons in Hs as [Hf Hs]. apply Forall_cons in Hs as [Hd Hs]. apply Forall_app in Hs as [Ha He].
  set (body := utility_vm_body rows cols pad tail file dir args env) in *.
  assert (Hm : msg = header_bytes (mk_header 8 (12 + Z.of_nat (length body)) seq) ++ body) by done.
  rewrite Hm, length_app, header_bytes_length in Hp, Hlen. split.
  - assert (Hh : read_header (header_bytes (mk_header 8 (12 + Z.of_nat (length body)) seq))
                 = mk_header 8 (12 + Z.of_nat (length body)) seq).
    { rewrite <-(app_nil_r (header_bytes _)). apply read_header_bytes; lia. }
    rewrite Hm, receive_complete, Hh; [done|done|rewrite header_bytes_length; lia
      |apply header_bytes_length|by rewrite Hh].
  - rewrite Hm. unfold body, utility_vm_body. apply parse_fields_buffer; try done.
    + rewrite length_app. cbn [length]. done.
    + rewrite !length_app. cbn [length]. rewrite length_app. cbn [length]. lia.
    + rewrite !length_app. cbn [length]. rewrite !length_app. cbn [length]. lia.
    + assert (Z.of_nat (length (file ++ 0 :: dir ++ 0 :: packed args ++ packed env)) <= Z.of_nat (length body)); [|lia].
      unfold body, utility_vm_body. rewrite (length_app (utility_vm_fields _ _ _ _ _ _ _ _ _)). lia.
Qed.

(** The request for a login shell, read in two pieces. *)
Definition sample_message : bytes :=
  utility_vm_message 7 40 120 0 (replicate 30 0) (str "/bin/sh") (str "/root")
    [str "sh"; str "-l"] [str "HOME=/root"; str "TERM=dumb"].

Lemma session_request_read_witness :
  receive_initial_message (replicate 200 (Progress 300)) (sample_message ++ [1; 2]) true
  = Received 0 (Some sample_message) (initial_response 7) [1; 2].
Proof.
  apply session_request_read; try done;
    try (repeat constructor; done); try (vm_compute; lia).
Defined.

(** * Arbitrary messages *)

(** A piece of the buffer without NUL; unlike [string_at] it may end where the
    buffer ends. *)
Definition piece_of (buffer s : bytes) : Prop :=
  no_nul s /\ exists off, take (length s) (drop off buffer) = s.

Lemma to_cstr_prefix p : take (length (to_cstr p)) p = to_cstr p.
Proof.
  unfold to_cstr. rewrite <-(take_drop_while nonzero p) at 2. by rewrite take_app_length.
Qed.

Lemma packed_strings_pieces count off buffer :
  Forall (piece_of buffer) (packed_strings count (drop off buffer))
  /\ (length (packed_strings count (drop off buffer)) <= count)%nat.
Proof.
  revert off; induction count as [|count IH]; intros off; cbn [packed_strings]; [by split; [|cbn; lia]|].
  destruct (drop off buffer) as [|b p] eqn:D; [by split; [|cbn; lia]|]. rewrite <-D.
  assert (piece_of buffer (to_cstr (drop off buffer))) as Hp.
  { split; [apply to_cstr_no_nul|]. exists off. apply to_cstr_prefix. }
  case_if; [split; [by apply Forall_singleton|cbn; lia]|].
  rewrite drop_drop. destruct (IH (off + S (length (to_cstr (drop off buffer))))%nat) as [IH1 IH2].
  split; [by constructor|]. cbn [length]. lia.
Qed.

Definition unterminated_at (off : Z) (buffer : bytes) : Prop :=
  off < Z.of_nat (length buffer) /\ nul_terminated (drop (Z.to_nat off) buffer) = false.

Lemma strdup_at_spec off buffer :
  match strdup_at off buffer with
  | No_string => Z.of_nat (length buffer) <= off
  | Dup s => string_at buffer (Z.to_nat off) s
  | Dup_past_end => unterminated_at off buffer
  end.
Proof.
  unfold strdup_at, unterminated_at. case_if; bool_to_prop; [|done].
  destruct (nul_terminated _) eqn:N; [by apply string_at_cstr|done].
Qed.

Definition strings_ok (count : Z) (buffer : bytes) (r : option (list bytes)) : Prop :=
  forall ss, r = Some ss -> Forall (piece_of buffer) ss /\ Z.of_nat (length ss) <= count.

Lemma strings_at_ok count off buffer : strings_ok count buffer (strings_at count off buffer).
Proof.
  intros ss. unfold strings_at. case_if; [|done]. bool_to_prop.
  destruct (packed_strings_pieces (Z.to_nat count) (Z.to_nat off) buffer) as [H1 H2].
  intros Heq. assert (ss = packed_strings (Z.to_nat count) (drop (Z.to_nat off) buffer)) as -> by congruence.
  split; [done|lia].
Qed.

(** Whatever the message holds, every string the parser hands over lies
    inside it: the program and the directory with their terminators, the
    arguments and the environment entries as pieces of the buffer, never more
    of them than the message announces.  The only way to read beyond the
    message is a program or directory offset in range whose string has no
    terminator; no offset or count can do it. *)
Theorem session_strings_inside msg :
  let buffer := drop 68 msg in
  match parse_create_process_info msg with
  | Parse_null => Z.of_nat (length msg) <= 68
  | Parse_past_end => unterminated_at (get32 16 msg) buffer \/ unterminated_at (get32 20 msg) buffer
  | Parsed info =>
    (forall s, filename info = Some s -> string_at buffer (Z.to_nat (get32 16 msg)) s)
    /\ (forall s, cwd info = Some s -> string_at buffer (Z.to_nat (get32 20 msg)) s)
    /\ strings_ok (get16 28 msg) buffer (argv info)
    /\ strings_ok (get16 36 msg) buffer (envp info)
  end.
Proof.
  intros buffer. unfold parse_create_process_info, sizeof_utility_vm.
  case_if; [bool_to_prop; lia|]. case_if; [by bool_to_prop|]. cbv zeta. fold buffer.
  change (drop (Z.to_nat 68) msg) with buffer.
  pose proof (strdup_at_spec (get32 16 msg) buffer) as Hf.
  pose proof (strdup_at_spec (get32 20 msg) buffer) as Hd.
  destruct (strdup_at (get32 16 msg) buffer), (strdup_at (get32 20 msg) buffer);
    cbn [dup_past_end dup_option orb filename cwd argv envp]; auto;
    (split; [intros ? [=]; subst; done|]); (split; [intros ? [=]; subst; done|]);
    split; apply strings_at_ok.
Qed.

(** * Environment defaults *)
Definition env_value (name : bytes) (env : list bytes) : option bytes :=
  option_map (drop (S (length name))) (List.find (starts_with (name ++ [c_eq])) env).

Definition env_of (info : create_process_info) : list bytes :=
  match envp info with Some env => env | None => [] end.

Lemma env_value_app name l1 l2 :
  env_value name (l1 ++ l2)
  = match env_value name l1 with Some v => Some v | None => env_value name l2 end.
Proof.
  unfold env_value. induction l1 as [|e l1 IH]; [done|]. cbn [app List.find].
  by destruct (starts_with _ e).
Qed.

Lemma has_var_value name env :
  has_var name env = match env_value name env with Some _ => true | None => false end.
Proof.
  unfold has_var, env_value. induction env as [|e env IH]; [done|]. cbn [existsb List.find].
  by destruct (starts_with _ e).
Qed.

(** A variable with one '=' defines one name. *)
Lemma starts_with_name name key value :
  Forall (fun c => c <> c_eq) key -> Forall (fun c => c <> c_eq) value ->
  starts_with (name ++ [c_eq]) (key ++ [c_eq] ++ value) = true -> name = key.
Proof.
  intros Hk Hv (t & Ht)%starts_with_spec. rewrite <-app_assoc in Ht. revert name Ht.
  induction Hk as [|k key Hk _ IH]; intros [|n name] Ht; cbn in Ht; try done.
  - exfalso. injection Ht as Hn Hv'. rewrite Hv' in Hv. apply Forall_app in Hv as [_ Hv].
    by apply Forall_cons in Hv as [Hv _].
  - by injection Ht.
  - injection Ht as -> Ht. f_equal. by apply IH.
Qed.

Lemma env_value_default name key value :
  Forall (fun c => c <> c_eq) key -> Forall (fun c => c <> c_eq) value ->
  env_value name [key ++ [c_eq] ++ value] = if decide (name = key) then Some value else None.
Proof.
  intros Hk Hv. unfold env_value. cbn [List.find]. case_decide as Hn.
  - subst name. rewrite app_assoc, starts_with_app. cbn [option_map].
    replace (S (length key)) with (length (key ++ [c_eq])) by (rewrite length_app; cbn [length]; lia).
    by rewrite drop_app_length.
  - destruct (starts_with _ _) eqn:H; [|done]. exfalso. by eapply Hn, (starts_with_name name key value).
Qed.

Lemma ensure_env info :
  let add name value := match env_value name (env_of info) with
                        | Some _ => [] | None => [name ++ [c_eq] ++ value] end in
  env_of (ensure_env_defaults info)
  = env_of info ++ add (str "TERM") (str "xterm-256color") ++ add (str "COLORTERM") (str "truecolor").
Proof.
  intros add. unfold ensure_env_defaults. fold (env_of info). rewrite !has_var_value. unfold add.
  destruct (env_value (str "TERM") (env_of info)), (env_value (str "COLORTERM") (env_of info));
    [by rewrite app_nil_r|done..].
Qed.

(** Either default is looked up as if it had been added on its own. *)
Lemma env_value_added name key value env :
  Forall (fun c => c <> c_eq) key -> Forall (fun c => c <> c_eq) value ->
  env_value name (env ++ match env_value key env with Some _ => [] | None => [key ++ [c_eq] ++ value] end)
  = if decide (name = key) then Some (default value (env_value key env)) else env_value name env.
Proof.
  intros Hk Hv. rewrite env_value_app. destruct (env_value key env) as [v|] eqn:E.
  - case_decide as Hn; [subst name; by rewrite E|]. by destruct (env_value name env).
  - rewrite env_value_default by done. case_decide as Hn; [subst name; by rewrite E|].
    by destruct (env_value name env).
Qed.

(** The child always gets a terminal type and a color depth: a value the
    host set is kept, otherwise the default is used; every other variable keeps
    its value, the host's entries stay in place in front, and a second pass
    changes nothing. *)
Theorem env_defaults_complete info :
  let info' := ensure_env_defaults info in
  (forall name, env_value name (env_of info') =
     if decide (name = str "TERM")
     then Some (default (str "xterm-256color") (env_value name (env_of info)))
     else if decide (name = str "COLORTERM")
     then Some (default (str "truecolor") (env_value name (env_of info)))
     else env_value name (env_of info))
  /\ env_of info `prefix_of` env_of info'
  /\ ensure_env_defaults info' = info'.
Proof.
  intros info'. assert (Hv : forall name, env_value name (env_of info') =
     if decide (name = str "TERM")
     then Some (default (str "xterm-256color") (env_value name (env_of info)))
     else if decide (name = str "COLORTERM")
     then Some (default (str "truecolor") (env_value name (env_of info)))
     else env_value name (env_of info)).
  { intros name. unfold info'. rewrite ensure_env. cbv zeta. rewrite app_assoc.
    set (env1 := env_of info ++ _).
    assert (HT : forall n, env_value n env1 = if decide (n = str "TERM")
       then Some (default (str "xterm-256color") (env_value (str "TERM") (env_of info)))
       else env_value n (env_of info)).
    { intros n. apply env_value_added; by repeat constructor. }
    replace (env_value (str "COLORTERM") (env_of info)) with (env_value (str "COLORTERM") env1)
      by (by rewrite HT).
    rewrite env_value_added by (by repeat constructor). rewrite !HT.
    destruct (decide (name = str "COLORTERM")) as [->|Hc]; [done|]. by case_decide; [subst|]. }
  split; [done|]. split; [unfold info'; rewrite ensure_env; by eexists|].
  unfold ensure_env_defaults at 1. fold (env_of info'). by rewrite !has_var_value, !Hv.
Qed.

(** A host that closes the connection inside the header: the guest goes on with
    a header whose last bytes it never read. *)
Example short_header_used :
  receive_initial_message [Progress 5; Progress 5] [8; 0; 0; 0; 80; 0] true = Short_header.
Proof. reflexivity. Qed.

(** A program name without terminator is read beyond the message. *)
Example unterminated_program :
  parse_create_process_info
    (header_bytes (mk_header 8 70 1) ++ utility_vm_fields 24 80 9 9 0 0 9 0 (replicate 30 0) ++ str "sh")
  = Parse_past_end.
Proof. vm_compute. reflexivity. Qed.

End CreateProcThm.

Import FdTrace Wire WireThm Bridge.

Module BridgeThm.

(** * Descriptors *)
Definition fds (c : call) : list fd_event :=
  match c with
  | Opened fd => [Opens fd]
  | Closed fd => [Closes fd]
  | Bind fd _ | Listen fd _ | Answer fd _ => [Uses fd]
  | Run r => map Uses [run_control r; run_stdin r; run_stdout r; run_channel r; run_interop r]
  end.
Definition uses (l : list Z) (cs : list call) (l' : list Z) : Prop := accounts l (flat_map fds cs) l'.
Lemma uses_app l a k b l' : uses l a k -> uses k b l' -> uses l (a ++ b) l'.
Proof. unfold uses. rewrite flat_map_app. apply accounts_app. Qed.
Lemma fds_map (mk : Z -> call) (ev : Z -> fd_event) l : (forall fd, fds (mk fd) = [ev fd]) -> flat_map fds (map mk l) = map ev l.
Proof. intros H. induction l as [|x l IH]; [done|]. cbn [map flat_map]. by rewrite H, IH. Qed.
Lemma uses_opened l L : uses L (map Opened l) (l ++ L).
Proof. unfold uses. rewrite (fds_map Opened Opens) by done. apply accounts_opens. Qed.
Lemma uses_closed l L : uses (l ++ L) (map Closed l) L.
Proof. unfold uses. rewrite (fds_map Closed Closes) by done. apply accounts_closes. Qed.
Lemma uses_close_two a b l L : uses (l ++ [b; a] ++ L) [Closed a; Closed b] (l ++ L).
Proof.
  unfold uses. cbn. exists (l ++ b :: L). split; [|by exists (l ++ L); split; [rewrite Permutation_middle|]].
  rewrite (Permutation_swap a b), Permutation_middle. done.
Qed.

Section Bridge.
Context (exit_status : Z -> Z) (interop_handle : bytes -> Interop.handled).
Abbreviation one := (one_session exit_status interop_handle).

(** The array entries behind a failed accept hold no descriptor. *)
Definition unset_ok (t : turn) : Prop := forall i, b_unset t i < 0.

Lemma close_sockets_ok t l : unset_ok t -> close_sockets t l = map Closed l.
Proof.
  intros Hu. unfold close_sockets. rewrite <-(app_nil_r (map Closed l)) at 2. f_equal.
  induction (seq _ _) as [|i s IH]; [done|]. cbn [map]. rewrite filter_cons_False; [apply IH|]. specialize (Hu i). lia.
Qed.
Lemma additional_length n i sockets l : accept_additional n i sockets = (l, true) -> length l = n.
Proof.
  revert i l; induction n as [|n IH]; intros i l; cbn [accept_additional]; [by intros [= <-]|].
  destruct (accept_with_poll _); [|done]. destruct (accept_additional n _ _) as [l' ok] eqn:E. intros [= <- ->]. cbn. f_equal. by eapply IH.
Qed.
Definition stops_ok (n : next) (P : Prop) : Prop := match n with Stop e => forall st, e <> Exit st | _ => P end.
(** The calls lead from [L] to something, and to [L'] when the bridge goes on. *)
Definition leads (L : list Z) (m : list call * next) (L' : list Z) : Prop :=
  exists k, uses L m.1 k /\ stops_ok m.2 (k ≡ₚ L').

Lemma leads_app L cs k cs' n L' : uses L cs k -> leads k (cs', n) L' -> leads L (cs ++ cs', n) L'.
Proof. intros H (j & Hj & Hl). exists j. split; [by eapply uses_app|exact Hl]. Qed.
Lemma uses_nil l : uses l [] l.
Proof. by change (l ≡ₚ l). Qed.
Lemma leads_end L : leads L ([], Leave) L.
Proof. exists L. split; [apply uses_nil|by cbn]. Qed.
Lemma leads_stop L cs k e L' : uses L cs k -> (forall st, e <> Exit st) -> leads L (cs, Stop e) L'.
Proof. intros H He. by exists k. Qed.
Lemma leads_close_two l cs a b fd n : uses (l ++ [fd]) cs [fd] -> stops_ok n True -> leads (l ++ [b; a; fd]) ([Closed a; Closed b] ++ cs, n) [fd].
Proof. intros H Hn. exists [fd]. split; [|by destruct n; cbn in *]. eapply uses_app; [apply (uses_close_two a b l [fd])|exact H]. Qed.

Lemma serve_fds t a b g info fd : unset_ok t -> leads [b; a; fd] (serve exit_status interop_handle t a b g info) [fd].
Proof.
  intros Hu. unfold serve. destruct (accept_additional _ _ _) as [l ok] eqn:E. pose proof (uses_opened l [b; a; fd]) as Ho.
  destruct ok; cbn [negb].
  - apply additional_length in E. destruct (Session.run_session _ _ _ _ _ _ _ _ _ _) as [acts code].
    set (r := mk_run _ _ _ _ _ _ _ _ _).
    assert (uses (l ++ [b; a; fd]) [Run r] (l ++ [b; a; fd])) as Hr.
    { destruct l as [|s0 [|s1 [|s2 [|s3 [|s4 []]]]]]; try discriminate E. unfold uses. cbn. repeat split; set_solver. }
    destruct code as [c|].
    + eapply leads_app; [exact Ho|]. apply (leads_app _ [Run r] _ _ _ _ Hr).
      apply (leads_close_two l); [apply uses_closed|destruct (b_terminate t); exact I].
    + apply (leads_stop _ _ (l ++ [b; a; fd])); [by eapply uses_app|done].
  - rewrite close_sockets_ok by done. eapply leads_app; [exact Ho|]. apply (leads_close_two l); [apply uses_closed|exact I].
Qed.

Lemma one_session_fds g t fd : unset_ok t -> leads [fd] (one g t) [fd].
Proof.
  intros Hu. unfold one_session. destruct (accept_with_poll (b_init t)) as [a|]; [|apply leads_end].
  destruct (accept_with_poll (b_control t)) as [b|]; [|exists [fd]; split; [unfold uses; cbn; exists [fd]; by split|by cbn]].
  destruct (CreateProc.receive_initial_message _ _ _) as [rc stored sent rest| |];
    [|by apply (leads_stop _ _ [b; a; fd]); unfold uses; cbn..].
  set (answer := match sent with [] => [] | _ => [Answer b sent] end).
  assert (uses [fd] ([Opened a; Opened b] ++ answer) [b; a; fd]) as Hs.
  { apply (uses_app _ _ [b; a; fd]); [unfold uses; cbn; done|]. subst answer. destruct sent; [apply uses_nil|]. unfold uses. cbn. by split; [left|]. }
  assert (forall m, leads [b; a; fd] m [fd] -> leads [fd] (let '(cs, n) := m in ([Opened a; Opened b] ++ answer ++ cs, n)) [fd]) as Hgo.
  { intros [cs n] H. rewrite app_assoc. by apply (leads_app _ _ _ _ _ _ Hs). }
  destruct (rc <? 0).
  { rewrite app_assoc. apply (leads_app _ _ _ _ _ _ Hs). apply (leads_close_two [] []); [apply uses_nil|exact I]. }
  destruct (match _ with Some m => _ | None => _ end) as [|info|]; [by apply Hgo, serve_fds..|]. by apply (leads_stop _ _ _ _ _ Hs).
Qed.

Lemma sessions_fds turns g fd : Forall unset_ok turns ->
  exists k, uses [fd] (sessions exit_status interop_handle g fd turns).1 k /\
    (forall st, (sessions exit_status interop_handle g fd turns).2 = Exit st -> k = []).
Proof.
  intros Hu. revert g; induction Hu as [|t turns Ht _ IH]; intros g; [exists [fd]; split; [apply uses_nil|done]|]. cbn [sessions].
  destruct (one_session_fds g t fd Ht) as (k & Hk & Hl). destruct (one g t) as [cs n]. cbn [fst snd] in Hk, Hl.
  destruct n as [g'| |e]; cbn [stops_ok] in Hl.
  - destruct (IH g') as (j & Hj & He). destruct (sessions _ _ g' fd turns) as [cs' e]. cbn [fst snd] in *.
    exists j. split; [|exact He]. eapply uses_app; [exact Hk|]. unfold uses. by rewrite Hl.
  - exists []. split; [|done]. cbn [fst]. eapply uses_app; [exact Hk|]. unfold uses. rewrite Hl. cbn. exists []. by split.
  - exists k. split; [exact Hk|]. cbn [snd]. intros st ->. by destruct (Hl st).
Qed.

(** Whatever the host and the system do, the bridge uses only descriptors that it
    holds and closes none twice, session after session, and when it ends it has
    closed all of them.  The entries that a failed accept leaves unset are assumed
    not to look like descriptors: the code tests and closes them. *)
Theorem bridge_descriptors (fd : Z) (bind_ok listen_ok : bool) (turns : list turn) (Hu : Forall unset_ok turns) :
  let m := main exit_status interop_handle fd bind_ok listen_ok turns in
  exists k, uses [] m.1 k /\ (forall st, m.2 = Exit st -> k = []).
Proof.
  intros m. subst m. unfold main. destruct (fd <? 0); [exists []; split; [apply uses_nil|done]|].
  destruct bind_ok; cbn [negb].
  2:{ exists []. split; [|done]. unfold uses. cbn. split; [by left|]. exists []. by split. }
  destruct listen_ok; cbn [negb].
  2:{ exists []. split; [|done]. unfold uses. cbn. do 2 (split; [by left|]). exists []. by split. }
  destruct (sessions_fds turns None fd Hu) as (k & Hk & He). destruct (sessions _ _ _ _ _) as [cs e]. cbn [fst snd] in *.
  exists k. split; [|exact He]. apply (uses_app _ [Opened fd; Bind fd _; Listen fd 10] [fd]); [|exact Hk].
  unfold uses. cbn. by repeat (split; [by left|]).
Qed.

(** * Sessions *)

(** One conversation of the host: its request, and the descriptors of its seven
    connections. *)
Record request : Type := mk_request {
  q_seq : Z; q_rows : Z; q_cols : Z; q_pad : Z; q_tail : bytes;
  q_file : bytes; q_dir : bytes; q_args : list bytes; q_env : list bytes
}.
Record conversation : Type := mk_conversation { c_init : Z; c_control : Z; c_socket : nat -> Z; c_request : request }.

Definition message (q : request) : bytes :=
  CreateProcThm.utility_vm_message (q_seq q) (q_rows q) (q_cols q) (q_pad q) (q_tail q) (q_file q) (q_dir q) (q_args q) (q_env q).
Definition request_ok (q : request) : Prop :=
  Z.of_nat (length (message q)) < 2 ^ 32 /\ 0 <= q_seq q < 2 ^ 32 /\ length (q_tail q) = 30%nat /\
  Forall no_nul (q_file q :: q_dir q :: q_args q ++ q_env q) /\
  Z.of_nat (length (q_args q)) < 2 ^ 16 /\ Z.of_nat (length (q_env q)) < 2 ^ 16 /\ 0 <= q_rows q < 2 ^ 16 /\ 0 <= q_cols q < 2 ^ 16.

(** The session that the host asks for. *)
Definition session_of (t : turn) (c : conversation) : list Session.action * option Z :=
  Session.run_session true true (b_local t) exit_status interop_handle (Some (message (c_request c))) (b_fork_ok t) (b_early t)
    (b_now t) (b_events t).
Definition run_of (t : turn) (c : conversation) : session_run :=
  let q := c_request c in
  mk_run (c_control c) (c_socket c 0%nat) (c_socket c 1%nat) (c_socket c 3%nat) (c_socket c 4%nat) (q_rows q, q_cols q)
    (Some (CreateProc.ensure_env_defaults (CreateProc.mk_info (Some (q_file q)) (Some (q_dir q))
       (CreateProcThm.some_strings (q_args q)) (CreateProcThm.some_strings (q_env q)))))
    (session_of t c).1 (session_of t c).2.
(** The host connects, sends its request, and the session comes to its end. *)
Definition holds_conversation (t : turn) (c : conversation) : Prop :=
  b_init t = Connection (c_init c) /\ b_control t = Connection (c_control c) /\
  (forall i, b_sockets t i = Connection (c_socket c i)) /\
  request_ok (c_request c) /\ (exists rest, b_stream t = message (c_request c) ++ rest) /\
  Forall (working retry_intr) (b_recv t) /\ (length (message (c_request c)) <= progress (b_recv t))%nat /\ b_write_ok t = true /\
  is_Some (session_of t c).2 /\ b_terminate t = false.

(** What the bridge does for it. *)
Definition session_calls (t : turn) (c : conversation) : list call :=
  let sockets := map (c_socket c) (seq 0 5) in
  [Opened (c_init c); Opened (c_control c); Answer (c_control c) (CreateProc.initial_response (q_seq (c_request c)))] ++
  map Opened sockets ++ [Run (run_of t c); Closed (c_init c); Closed (c_control c)] ++ map Closed sockets.

Lemma conversation_served t c : holds_conversation t c -> one None t = (session_calls t c, Continue None).
Proof.
  intros (Hi & Hc & Hs & (Hl & Hseq & Ht & Hn & Ha & He & Hr & Hco) & (rest & Hst) & Hw & Hp & Hok & (rc & Hrc) & Hterm).
  unfold one_session. rewrite Hi, Hc, Hst, Hok. cbn [accept_with_poll].
  destruct (CreateProcThm.session_request_read (b_recv t) (q_seq (c_request c)) (q_rows (c_request c)) (q_cols (c_request c)) (q_pad (c_request c))
    (q_tail (c_request c)) (q_file (c_request c)) (q_dir (c_request c)) (q_args (c_request c)) (q_env (c_request c)) rest
    Hw Hp Hl Hseq Ht Hn Ha He Hr Hco) as (E1 & E2 & E3 & E4).
  fold (message (c_request c)) in E1, E2, E3, E4. rewrite E1. cbn [Z.ltb Z.compare]. rewrite E2.
  assert (accept_additional NUM_ADDITIONAL_SOCKETS 0 (b_sockets t) = (map (c_socket c) (seq 0 5), true)) as Hacc
    by (unfold NUM_ADDITIONAL_SOCKETS; cbn [accept_additional seq map]; by rewrite !Hs).
  unfold serve. rewrite Hacc. cbn [negb]. fold (session_of t c). unfold session_calls, run_of.
  assert (Session.initial_size (Some (message (c_request c))) = (q_rows (c_request c), q_cols (c_request c))) as Hsize.
  { unfold Session.initial_size. rewrite E3, E4. rewrite (proj2 (Z.leb_le _ _)); [done|].
    unfold message, CreateProcThm.utility_vm_message, CreateProcThm.utility_vm_body, CreateProcThm.utility_vm_fields.
    rewrite !length_app, header_bytes_length, !le_bytes_length. lia. }
  rewrite Hsize. destruct (session_of t c) as [acts code]. cbn [snd] in Hrc. subst code. rewrite Hterm. reflexivity.
Qed.

(** C3: Sessions: for any number of conversations of the host, one after the other,
    the bridge answers each request once on its own control channel, runs exactly the
    program that it names, with its directory, arguments, environment and terminal
    size, on the sockets of that conversation, and closes these.  The one variable of
    the bridge that outlives a session, the first message of the host, is used up by
    each conversation, so that what follows is done as from the start.  What a session
    leaves in the system outlives it: when the child exits before the loop, the
    listener of its local interop socket stays open and its file in /run/WSL
    (SessionThm.early_exit_leaves_socket). *)
Theorem sessions_served (fd : Z) (turns : list turn) (cs : list conversation) (more : list turn)
  (Hfd : 0 <= fd) (Hall : Forall2 holds_conversation turns cs) :
  main exit_status interop_handle fd true true (turns ++ more) =
  ([Opened fd; Bind fd 60000; Listen fd 10] ++ concat (zip_with session_calls turns cs) ++
     (sessions exit_status interop_handle None fd more).1,
   (sessions exit_status interop_handle None fd more).2).
Proof.
  assert (sessions exit_status interop_handle None fd (turns ++ more) =
    (concat (zip_with session_calls turns cs) ++ (sessions exit_status interop_handle None fd more).1,
     (sessions exit_status interop_handle None fd more).2)) as E.
  { induction Hall as [|t c turns cs Hc _ IH]; [cbn; by destruct (sessions exit_status interop_handle None fd more)|].
    cbn [app sessions zip_with concat]. rewrite (conversation_served t c) by done. rewrite IH. by rewrite app_assoc. }
  unfold main. rewrite (proj2 (Z.ltb_ge _ _)) by done. cbn [negb]. by rewrite E.
Qed.
End Bridge.


(** ** A run with two sessions, and the end after a minute without a third *)
Definition demo_request (seq : Z) (file : bytes) : request :=
  mk_request seq 24 80 0 (replicate 30 0) file (str "/root") [file; str "-l"] [str "HOME=/root"].
Definition demo_conversation (base : Z) (q : request) : conversation :=
  mk_conversation base (base + 1) (fun i => base + 2 + Z.of_nat i) q.
Definition demo_turn (base : Z) (q : request) : turn :=
  mk_turn (Connection base) (Connection (base + 1)) (Intr :: replicate 200 (Progress 40)) (message q) true
    (fun i => Connection (base + 2 + Z.of_nat i)) (fun _ => -1) true true (Some 0) 100 [] false.
Definition nobody : turn :=
  mk_turn Poll_timeout Poll_timeout [] [] true (fun _ => Poll_timeout) (fun _ => -1) true true None 200 [] false.
Lemma sessions_served_witness :
  let turns := [demo_turn 10 (demo_request 7 (str "/bin/sh")); demo_turn 20 (demo_request 8 (str "/bin/ls"))] in
  let cs := [demo_conversation 10 (demo_request 7 (str "/bin/sh")); demo_conversation 20 (demo_request 8 (str "/bin/ls"))] in
  main (fun s => s / 256) (fun _ => Interop.Handled [] None) 3 true true (turns ++ [nobody]) =
  ([Opened 3; Bind 3 60000; Listen 3 10] ++ concat (zip_with (session_calls (fun s => s / 256) (fun _ => Interop.Handled [] None)) turns cs) ++
     [Closed 3], Exit 0).
Proof.
  intros turns cs. apply (sessions_served (fun s => s / 256) (fun _ => Interop.Handled [] None) 3 turns cs [nobody]); [lia|].
  subst turns cs. repeat apply Forall2_cons_2; [..|apply Forall2_nil_2].
  all: unfold holds_conversation; repeat split; try reflexivity; try (vm_compute; congruence);
    try (apply (bool_decide_unpack _); vm_compute; exact Logic.I).
  all: first [exists []; symmetry; apply app_nil_r | constructor; [reflexivity|apply Forall_replicate; exact Logic.I]].
Defined.

(** A minute without a new session ends the bridge, although it says that it waits
    for one. *)
Example idle_bridge_ends : main (fun s => s) (fun _ => Interop.Handled [] None) 3 true true [nobody] =
  ([Opened 3; Bind 3 60000; Listen 3 10; Closed 3], Exit 0).
Proof. reflexivity. Qed.
(** When the third of the five sockets does not come, the two array entries that
    were never set are tested and closed: here 0, standard input. *)
Example unset_entries_are_closed :
  let q := demo_request 7 (str "/bin/sh") in
  let t := mk_turn (Connection 10) (Connection 11) (replicate 200 (Progress 40)) (message q) true
             (fun i => if (i <? 2)%nat then Connection (12 + Z.of_nat i) else Poll_timeout) (fun _ => 0) true true None 100 [] false in
  (one_session (fun s => s) (fun _ => Interop.Handled [] None) None t).1 =
  [Opened 10; Opened 11; Answer 11 (CreateProc.initial_response 7); Opened 12; Opened 13; Closed 10; Closed 11; Closed 12; Closed 13;
   Closed 0; Closed 0].
Proof. vm_compute. reflexivity. Qed.
End BridgeThm.
