(* ===== verification/LocalInterop.v ===== *)
(** The local interop socket (src/FreeBSD/wsl_interop.h): the relay of one
    message from a child process to the host's control channel, and the copying
    loop of the I/O relay. *)
From S2P Require Import Prelude CStr CNum Wire.
Import Wire.

Module LocalInterop.

Definition LxInitMessageCreateProcessUtilityVm : Z := 8.
Definition EIO : Z := 5.

(** * Paths *)
Definition WSL_INTEROP_TEMP_FOLDER : bytes := str "/run/WSL".
Definition WSL_INTEROP_SOCKET_NAME : bytes := str "interop".

(** The socket's path of wsl_interop_create_server. *)
Definition socket_path (path_len pid : Z) : bytes :=
  snprintf_s path_len (WSL_INTEROP_TEMP_FOLDER ++ [c_slash] ++ dec_signed pid ++ str "_" ++ WSL_INTEROP_SOCKET_NAME).

(** The path and, when it was found through the parent, the new value of
    WSL_INTEROP. *)
Definition wsl_interop_find_socket (exists_ : bytes -> bool) (env : option bytes) (path_len ppid : Z) :
    option (bytes * option bytes) :=
  let by_parent :=
    if 0 <? ppid then
      let path := socket_path path_len ppid in
      if exists_ path then Some (path, Some path) else None
    else None in
  match env with
  | Some path => if exists_ path then Some (take (Z.to_nat (path_len - 1)) path, None) else by_parent
  | None => by_parent
  end.

(** * The relay of one message *)

(** What the child is sent back, and what goes to the control channel.  [None]
    as return value: the control channel neither accepts data nor fails. *)
Record relayed : Type := mk_relayed { r_rc : option Z; r_control : bytes; r_reply : option bytes }.

Definition result_reply (seq result : Z) : bytes :=
  header_bytes (mk_header 78 16 seq) ++ le_bytes 4 result.

(** [stream] is what the child sends before it closes the connection or stops
    for five seconds; [control_open]: control_fd >= 0; [evs]: the sends on it. *)
Definition wsl_interop_relay_message (control_open : bool) (evs : list sock_event) (stream : bytes) : relayed :=
  let hdr_bytes := take 12 stream in
  if Z.of_nat (length hdr_bytes) <? sizeof_header then mk_relayed (Some (-1)) [] None
  else
    let hdr := read_header hdr_bytes in
    if (MessageSize hdr <? sizeof_header) || (65536 <? MessageSize hdr) then mk_relayed (Some (-1)) [] None
    else
      let body_len := Z.to_nat (MessageSize hdr - sizeof_header) in
      let body := take body_len (drop 12 stream) in
      if (length body <? body_len)%nat then mk_relayed (Some (-1)) [] None
      else if MessageType hdr =? LxInitMessageCreateProcessUtilityVm then
        let x := if control_open then send_loop retry_intr evs (hdr_bytes ++ body) []
                 else mk_xfer (Some (-1)) [] evs in
        match x_rc x with
        | None => mk_relayed None (x_data x) None
        | Some rc =>
          mk_relayed (Some rc) (x_data x)
            (Some (result_reply (SequenceNumber hdr) (if rc =? 0 then 0 else EIO)))
        end
      else mk_relayed (Some 0) [] (Some (result_reply (SequenceNumber hdr) 0)).

Inductive accept_result : Type := Accepted (stream : bytes) | Accept_again | Accept_error.

(** The connection is closed in every case. *)
Definition wsl_interop_try_accept (a : accept_result) (control_open : bool) (evs : list sock_event) :
    option Z * relayed :=
  match a with
  | Accept_again => (Some 0, mk_relayed None [] None)
  | Accept_error => (Some (-1), mk_relayed None [] None)
  | Accepted stream =>
    let r := wsl_interop_relay_message control_open evs stream in
    (match r_rc r with Some rc => Some (if rc =? 0 then 1 else -1) | None => None end, r)
  end.

(** * The copying loop *)
Inductive read_result : Type := Read_data (d : bytes) | Read_eof | Read_again | Read_error.

(** One turn: the stop flag and, when it is set, whether the drain poll finds
    data; the outcome of poll, with the read that follows and the writes. *)
Inductive relay_poll : Type :=
| Relay_intr | Relay_error | Relay_timeout
| Relay_hangup (r : read_result)       (** POLLERR, POLLHUP or POLLNVAL *)
| Relay_readable (r : read_result)
| Relay_other.                         (** none of the flags the loop tests *)
Record relay_turn : Type := mk_turn {
  t_stop : bool; t_drain : bool; t_poll : relay_poll; t_writes : list sock_event
}.

(** A full buffer and an interruption are waited out; in the last copy after a
    hangup they are not. *)
Definition retry_copy (e : sock_event) : bool := match e with Again _ | Intr => true | _ => false end.
Definition retry_never (e : sock_event) : bool := false.

(** How the loop ends, if it does. *)
Inductive relay_end : Type :=
| End_stopped | End_eof | End_hangup | End_poll_error | End_read_error | End_write_error
| End_pending.

(** The bytes written. *)
Fixpoint wsl_interop_relay_pair (turns : list relay_turn) : bytes * relay_end :=
  match turns with
  | [] => ([], End_pending)
  | t :: turns' =>
    if t_stop t && negb (t_drain t) then ([], End_stopped)
    else
      match t_poll t with
      | Relay_intr | Relay_other => wsl_interop_relay_pair turns'
      | Relay_error => ([], End_poll_error)
      | Relay_timeout => if t_stop t then ([], End_stopped) else wsl_interop_relay_pair turns'
      | Relay_hangup (Read_data d) => (x_data (send_loop retry_never (t_writes t) d []), End_hangup)
      | Relay_hangup _ => ([], End_hangup)
      | Relay_readable Read_eof => ([], End_eof)
      | Relay_readable Read_again => wsl_interop_relay_pair turns'
      | Relay_readable Read_error => ([], End_read_error)
      | Relay_readable (Read_data d) =>
        let x := send_loop retry_copy (t_writes t) d [] in
        match x_rc x with
        | Some 0 =>
          let '(out, e) := wsl_interop_relay_pair turns' in (x_data x ++ out, e)
        | Some _ => (x_data x, End_write_error)
        | None => (x_data x, End_pending)
        end
      end
  end.

End LocalInterop.
