(* ===== verification/InteropClient.v ===== *)
(** Launching a Windows program from the guest: the tool wsl-interop
    (src/FreeBSD/wsl-interop.c) and what it uses of src/FreeBSD/wsl_interop.h: the
    server's socket, the listener that the host connects back to, and the relay of
    the three standard streams by three processes. *)
From S2P Require Import Prelude CStr CNum Wire LocalInterop.
Import Wire LocalInterop.

Module InteropClient.

(** * What a process does, in order, and how it ends *)
Inductive call : Type :=
| Mkdir (path : bytes) (mode : Z)
| Chmod (path : bytes) (mode : Z)
| Unlink (path : bytes)
| Opened (fd : Z)                  (** socket or accept returned it *)
| Bind (fd : Z) (address : bytes)
| Listen (fd backlog : Z)
| Connect (fd : Z) (path : bytes)
| Sent (fd : Z) (data : bytes)
| Closed (fd : Z)
| Fork (pid : Z)
| Wrote (fd : Z) (data : bytes)
| Reaped (pid : Z).

(** Leaving the process, or a call that does not return. *)
Inductive ending : Type := Exit (status : Z) | Blocked.

Definition M (A : Type) : Type := (list call * (A + ending))%type.
#[global] Instance M_ret : MRet M := fun A x => ([], inl x).
#[global] Instance M_bind : MBind M := fun A B f m =>
  match m with
  | (l, inl x) => let '(l', r) := f x in (l ++ l', r)
  | (l, inr e) => (l, inr e)
  end.
Definition tell (c : call) : M unit := ([c], inl tt).
Definition stop {A} (e : ending) : M A := ([], inr e).
Definition when (b : bool) (m : M unit) : M unit := if b then m else mret tt.

(** * The server's socket *)
Inductive mkdir_result : Type := Made | Exists | Mkdir_failed.
Record server_env : Type := mk_server_env {
  s_mkdir : mkdir_result; s_socket : Z; s_bind : bool; s_listen : bool
}.
Definition sizeof_sun_path : Z := 104.
(** strncpy into a zeroed array. *)
Definition sun_path (path : bytes) : bytes := take (Z.to_nat (sizeof_sun_path - 1)) path.

Definition wsl_interop_create_server (e : server_env) (pid path_len : Z) : M (option (Z * bytes)) :=
  tell (Mkdir WSL_INTEROP_TEMP_FOLDER 511);;
  match s_mkdir e with
  | Mkdir_failed => mret None
  | _ =>
    tell (Chmod WSL_INTEROP_TEMP_FOLDER 511);;
    let path := socket_path path_len pid in
    tell (Unlink path);;
    let fd := s_socket e in
    if fd <? 0 then mret None
    else
      tell (Opened fd);;
      tell (Bind fd (sun_path path));;
      if negb (s_bind e) then tell (Closed fd);; mret None
      else
        tell (Listen fd 16);;
        if negb (s_listen e) then tell (Closed fd);; tell (Unlink path);; mret None
        else tell (Chmod path 511);; mret (Some (fd, path))
  end.

Definition wsl_interop_cleanup (path : option bytes) : M unit :=
  match path with
  | Some p => when (negb (is_empty p)) (tell (Unlink p))
  | None => mret tt
  end.

(** * The listener for the host *)
Definition WSL_INTEROP_IO_DEFAULT_IP : bytes := str "127.0.0.1".

(** [io_pton]: inet_pton reads the address; [io_name]: the two bytes of sin_port
    that getsockname stores. *)
Record io_env : Type := mk_io_env {
  io_socket : Z; io_bind_ip : option bytes; io_pton : bytes -> bool; io_bind : bool; io_listen : bool; io_name : option (Z * Z)
}.

Definition ntohs (p : Z * Z) : Z := p.1 * 256 + p.2.

Definition wsl_interop_create_io_listener (e : io_env) : M (option (Z * Z)) :=
  let fd := io_socket e in
  if fd <? 0 then mret None
  else
    tell (Opened fd);;
    let bind_ip := match io_bind_ip e with
                   | Some ip => if is_empty ip then WSL_INTEROP_IO_DEFAULT_IP else ip
                   | None => WSL_INTEROP_IO_DEFAULT_IP
                   end in
    if negb (io_pton e bind_ip) then tell (Closed fd);; mret None
    else
      tell (Bind fd bind_ip);;
      if negb (io_bind e) then tell (Closed fd);; mret None
      else
        tell (Listen fd 8);;
        if negb (io_listen e) then tell (Closed fd);; mret None
        else
          match io_name e with
          | None => tell (Closed fd);; mret None
          | Some port => mret (Some (fd, ntohs port))
          end.

(** What poll and accept give for one connection. *)
Inductive accepted : Type := Poll_timeout | Poll_error | Accept_failed | Connection (fd : Z).
Definition wsl_interop_accept_one_io (a : accepted) : M (option Z) :=
  match a with
  | Connection fd => tell (Opened fd);; mret (Some fd)
  | _ => mret None
  end.

(** * The relay of the standard streams *)
Definition STDIN_FILENO : Z := 0.
Definition STDOUT_FILENO : Z := 1.
Definition STDERR_FILENO : Z := 2.

(** The stop flag is a local variable: a child has a copy that stays 0, and the
    parent sets its own only when it no longer looks at it. *)
Definition running (t : relay_turn) : relay_turn := mk_turn false (t_drain t) (t_poll t) (t_writes t).
Definition relay (turns : list relay_turn) : bytes * relay_end := wsl_interop_relay_pair (map running turns).
Definition goes_on (e : relay_end) : bool := match e with End_pending => true | _ => false end.

(** The three accepts, what the two forks return, and the turns of the three
    copying loops. *)
Record relay_env : Type := mk_relay_env {
  r_stdin : accepted; r_stdout : accepted; r_stderr : accepted;
  r_fork_stdout : Z; r_fork_stderr : Z;
  t_stdin : list relay_turn; t_stdout : list relay_turn; t_stderr : list relay_turn
}.

(** A child copies from a local descriptor to its connection and exits. *)
Definition relay_child {A} (net : Z) (turns : list relay_turn) : M A :=
  let '(out, e) := relay turns in
  tell (Wrote net out);; stop (if goes_on e then Blocked else Exit 0).

(** The parent waits for a child: it returns when the child's loop has. *)
Definition waitpid (pid : Z) (turns : list relay_turn) : M unit :=
  if goes_on (relay turns).2 then stop Blocked else tell (Reaped pid).

Definition wsl_interop_run_io_relay (listen_fd : Z) (e : relay_env) : M Z :=
  stdin ← wsl_interop_accept_one_io (r_stdin e);
  match stdin with
  | None => mret (-1)
  | Some stdin_net =>
    stdout ← wsl_interop_accept_one_io (r_stdout e);
    match stdout with
    | None => tell (Closed stdin_net);; mret (-1)
    | Some stdout_net =>
      stderr ← wsl_interop_accept_one_io (r_stderr e);
      match stderr with
      | None => tell (Closed stdin_net);; tell (Closed stdout_net);; mret (-1)
      | Some stderr_net =>
        let close_all := tell (Closed stdin_net);; tell (Closed stdout_net);; tell (Closed stderr_net) in
        tell (Closed listen_fd);;
        tell (Fork (r_fork_stdout e));;
        if r_fork_stdout e =? 0 then relay_child stdout_net (t_stdout e)
        else if r_fork_stdout e <? 0 then close_all;; mret (-1)
        else
          tell (Fork (r_fork_stderr e));;
          if r_fork_stderr e =? 0 then relay_child stderr_net (t_stderr e)
          else if r_fork_stderr e <? 0 then
            waitpid (r_fork_stdout e) (t_stdout e);; close_all;; mret (-1)
          else
            let '(input, e') := relay (t_stdin e) in
            tell (Wrote STDIN_FILENO input);;
            when (goes_on e') (stop Blocked);;
            close_all;;
            waitpid (r_fork_stdout e) (t_stdout e);;
            waitpid (r_fork_stderr e) (t_stderr e);;
            mret 0
      end
    end
  end.

(** * The request *)
Definition LxMessageResultUint32 : Z := 78.
Definition sizeof_common : Z := 52.
(** offsetof(struct LX_INIT_CREATE_NT_PROCESS_UTILITY_VM, Common.Buffer) *)
Definition buffer_offset : Z := sizeof_header + 4 + sizeof_common.

(** The fixed part of LX_INIT_CREATE_NT_PROCESS_COMMON, with two bytes of padding
    behind each count; the fields that the tool leaves 0 follow. *)
Definition common_bytes (filename_off cwd_off cmdline_off cmdline_count env_off env_count : Z) : bytes :=
  le_bytes 4 filename_off ++ le_bytes 4 cwd_off ++ le_bytes 4 cmdline_off ++
  le_bytes 2 cmdline_count ++ le_bytes 2 0 ++ le_bytes 4 env_off ++ le_bytes 2 env_count ++ le_bytes 2 0 ++
  replicate 28 0.

Fixpoint args_size (args : list bytes) : Z :=
  match args with [] => 0 | a :: args' => Z.of_nat (length a) + 1 + args_size args' end.

(** [args] is argv[1..]; nothing is returned for a request that is too long.
    Allocation succeeds. *)
Definition build_create_nt_process_message (filename : bytes) (args : list bytes) (port : Z) : option bytes :=
  let filename_len := Z.of_nat (length filename) + 1 in
  let cwd_len := 1 in
  let env_len := 1 in
  let total := buffer_offset + filename_len + cwd_len + env_len + args_size args in
  if 65536 <? total then None
  else
    let cwd_off := filename_len in
    let env_off := cwd_off + cwd_len in
    let cmdline_off := env_off + env_len in
    Some (header_bytes (mk_header LxInitMessageCreateProcessUtilityVm total 0) ++ le_bytes 4 port ++
          common_bytes 0 cwd_off cmdline_off (u16 (Z.of_nat (length args))) env_off 0 ++
          packed (filename :: [] :: [] :: args)).

(** * main *)
(** What recv with MSG_WAITALL returns within ten seconds. *)
Inductive response : Type := Recv_error | Recv (data : bytes).

Record client_env : Type := mk_client_env {
  c_exists : bytes -> bool; c_interop : option bytes; c_ppid : Z;
  c_socket : Z; c_connect : bool; c_io : io_env; c_send : list sock_event; c_response : response; c_relay : relay_env
}.

Definition close_listener (l : option (Z * Z)) : M unit :=
  match l with Some (fd, _) => tell (Closed fd) | None => mret tt end.

(** The result of a response: Some 0 when the host took the request. *)
Definition response_result (r : response) : option Z :=
  match r with
  | Recv_error => None
  | Recv d =>
    if (length d <? 16)%nat then None
    else if negb (get32 0 d =? LxMessageResultUint32) then None
    else Some (get32 12 d)
  end.

(** With a listener, its connections are relayed. *)
Definition after_launch (e : client_env) (io : option (Z * Z)) : M Z :=
  match io with
  | Some (io_listen_fd, io_port) =>
    if 0 <? io_port then
      relay_rc ← wsl_interop_run_io_relay io_listen_fd (c_relay e);
      mret (if relay_rc <? 0 then 1 else 0)
    else mret 0
  | None => mret 0
  end.

Definition main (e : client_env) (argv : list bytes) : M Z :=
  match tl argv with
  | [] => mret 1
  | windows_path :: _ =>
    match wsl_interop_find_socket (c_exists e) (c_interop e) 64 (c_ppid e) with
    | None => mret 1
    | Some (sock_path, _) =>
      let fd := c_socket e in
      if fd <? 0 then mret 1
      else
        tell (Opened fd);;
        tell (Connect fd (sun_path sock_path));;
        if negb (c_connect e) then tell (Closed fd);; mret 1
        else
          io ← wsl_interop_create_io_listener (c_io e);
          let io_port := match io with Some (_, p) => p | None => 0 end in
          match build_create_nt_process_message windows_path (tl argv) io_port with
          | None => close_listener io;; tell (Closed fd);; mret 1
          | Some msg =>
            let x := send_loop retry_intr (c_send e) msg [] in
            tell (Sent fd (x_data x));;
            match x_rc x with
            | None => stop Blocked
            | Some rc =>
              if negb (rc =? 0) then close_listener io;; tell (Closed fd);; mret 1
              else
                tell (Closed fd);;
                match response_result (c_response e) with
                | Some 0 => after_launch e io
                | _ => close_listener io;; mret 1
                end
            end
          end
    end
  end.

End InteropClient.
