(* ===== verification/InteropClientThm.v ===== *)
(** Theorems on the local interop socket: copying loops (RelayThm), the relay of a
    message (LocalInteropThm), and the launch of a Windows program through it: the
    request, its delivery, and the descriptors (InteropClientThm). *)
From stdpp Require Import sets.
From S2P Require Import Prelude CStr CNum FdTrace Wire ChannelThm CreateProc BridgeThm Relay LocalInterop InteropClient.

Import Relay.

Module RelayThm.

Definition chunk (s : side) : bytes := match s with Data d _ => d | _ => [] end.
Definition flows (s : side) : bool := match s with Quiet => true | Data _ sent => sent | Gone => false end.
Definition turn_flows (e : poll_event) : bool :=
  match e with Poll_intr => true | Poll_stop => false | Ready c h => flows c && flows h end.
Definition from_client (e : poll_event) : bytes := match e with Ready c _ => chunk c | _ => [] end.
Definition from_host (e : poll_event) : bytes := match e with Ready _ h => chunk h | _ => [] end.

Lemma relay_side_flows s out : flows s = true -> relay_side s out = (out ++ chunk s, true).
Proof. destruct s as [| |d []]; cbn; try done. by rewrite app_nil_r. Qed.

Lemma relay_loop_flows evs c :
  forallb turn_flows evs = true ->
  relay_loop evs c = (mk_copied (to_host c ++ concat (map from_client evs))
                               (to_client c ++ concat (map from_host evs)), false).
Proof.
  revert c; induction evs as [|e evs IH]; intros c; cbn [forallb relay_loop].
  - intros _. cbn. rewrite !app_nil_r. by destruct c.
  - intros H. apply andb_prop in H as [He H]. destruct e as [| |cl ho]; [by apply IH|done|].
    cbn in He. apply andb_prop in He as [Hc Hh].
    rewrite !relay_side_flows by done. rewrite IH by done. cbn. by rewrite <-!app_assoc.
Qed.

(** The relayed connection: while both sides are open and take the data, each
    side has been sent exactly what the other one sent, in order; when one is gone
    the loop ends and the socket to the host is closed. *)
Theorem relay_copies_both_ways host_fd evs last rest :
  0 <= host_fd -> forallb turn_flows evs = true -> turn_flows last = false ->
  let '(c, ops, ended) := gns_relay_connection host_fd true (evs ++ last :: rest) in
  ended = true /\ ops = [Got host_fd; Close host_fd]
  /\ (exists more, to_host c = concat (map from_client evs) ++ more)
  /\ to_client c = concat (map from_host evs).
Proof.
  intros Hfd Hevs Hlast. unfold gns_relay_connection.
  replace (host_fd <? 0) with false by (symmetry; by apply Z.ltb_ge). cbn [negb].
  assert (H : forall c, relay_loop (evs ++ last :: rest) c
    = relay_loop (last :: rest) (mk_copied (to_host c ++ concat (map from_client evs))
                                           (to_client c ++ concat (map from_host evs)))).
  { clear Hlast. induction evs as [|e evs IH]; intros c; [cbn; rewrite !app_nil_r; by destruct c|].
    cbn [forallb] in Hevs. apply andb_prop in Hevs as [He Hevs]. cbn [app relay_loop].
    destruct e as [| |cl ho]; [by apply IH|done|]. cbn in He. apply andb_prop in He as [Hc Hh].
    rewrite !relay_side_flows by done. rewrite IH by done. cbn [to_host to_client map concat].
    by rewrite <-!app_assoc. }
  rewrite H. cbn [relay_loop to_host to_client app].
  destruct last as [| |cl ho]; [done|by split; [|split; [|split; [exists []; rewrite app_nil_r|]]]|].
  cbn [turn_flows] in Hlast. destruct cl as [| |d [|]], ho as [| |d' [|]]; cbn in *; try done;
    (split; [done|]); (split; [done|]); (split; [|done]);
    first [by exists []; rewrite app_nil_r|by exists d].
Qed.

(** Every client the daemon accepted it also closed, once. *)
Theorem daemon_closes_clients listen_fd evs :
  Forall (fun e => match e with Accepted _ pid => pid <> 0 | _ => True end) evs ->
  let ops := fst (daemon_loop listen_fd evs) in
  omap (fun c => match c with Got fd => Some fd | _ => None end) ops
  = omap (fun c => match c with Close fd => Some fd | _ => None end) ops.
Proof.
  induction 1 as [|e evs He _ IH]; [done|]. destruct e as [| |fd pid]; [exact IH|done|].
  cbn [daemon_loop]. replace (pid =? 0) with false by (symmetry; by apply Z.eqb_neq).
  cbn zeta in IH. destruct (daemon_loop listen_fd evs) as [ops e]. cbn in *. by rewrite IH.
Qed.

(** Starting the relay: in the init process the listener is always closed again,
    whether the daemon was started or a call failed. *)
Theorem start_relay_releases init_fd e msg :
  match gns_handle_start_socket_relay init_fd e msg with
  | (ops, In_daemon fd _) => Got fd ∈ ops /\ Close fd ∈ ops -> fd = init_fd
  | (ops, _) =>
    omap (fun c => match c with Got fd => Some fd | _ => None end) ops
    = omap (fun c => match c with Close fd => Some fd | _ => None end) ops
  end.
Proof.
  unfold gns_handle_start_socket_relay. destruct (_ <? sizeof_start_socket_relay); [done|].
  destruct (r_socket e <? 0); [done|]. destruct (r_bind e), (r_listen e); cbn [negb]; try done.
  destruct (r_fork e <? 0); [done|]. destruct (r_fork e =? 0); [|done].
  intros [_ H]. cbn in H. set_solver.
Qed.
End RelayThm.

Import Wire WireThm LocalInterop.

Module LocalInteropThm.

(** A message at the front of a stream. *)
Definition front_message (stream msg : bytes) : Prop :=
  msg `prefix_of` stream /\ 12 <= MessageSize (read_header msg) <= 65536
  /\ Z.of_nat (length msg) = MessageSize (read_header msg).

(** The lengths that decide whether a stream starts with a message. *)
Lemma front_message_iff stream :
  (exists msg, front_message stream msg) <->
  (12 <= length stream)%nat /\ 12 <= MessageSize (read_header stream) <= 65536
  /\ MessageSize (read_header stream) <= Z.of_nat (length stream).
Proof.
  split.
  - intros (msg & [rest ->] & Hs & Hl). rewrite read_header_app by lia. rewrite length_app. lia.
  - intros (Hl & Hs & Hle). exists (take (Z.to_nat (MessageSize (read_header stream))) stream).
    split; [by eexists; symmetry; apply take_drop|]. rewrite read_header_take by lia.
    split; [lia|]. rewrite length_take. lia.
Qed.

(** What the control channel receives of a message. *)
Lemma control_send control_open evs msg :
  msg <> [] ->
  let x := if control_open : bool then send_loop retry_intr evs msg [] else mk_xfer (Some (-1)) [] evs in
  x_data x `prefix_of` msg /\ (x_rc x = Some 0 <-> x_data x = msg)
  /\ (x_rc x = None \/ x_rc x = Some 0 \/ x_rc x = Some (-1)).
Proof.
  intros Hne x. subst x. destruct control_open.
  - destruct (send_loop_exact retry_intr evs msg) as ((k & Hk) & Hex & _). rewrite Hk.
    split; [exists (drop k msg); symmetry; apply take_drop|]. rewrite <-Hk. split; [done|].
    apply send_loop_rc.
  - cbn. split; [apply prefix_nil|]. split; [|by right; right]. split; [done|]. by intros <-.
Qed.

(** Whatever a child process sends, the relay takes at most the first
    message from it and answers at most once, with the message's sequence
    number.  A CreateProcess request goes to the host unchanged: the control
    channel receives a prefix of it, all of it exactly when the child is told 0,
    and EIO otherwise.  Any other message is acknowledged and not relayed; a
    malformed or incomplete one is neither relayed nor answered. *)
Theorem relay_message_verbatim control_open evs stream :
  let r := wsl_interop_relay_message control_open evs stream in
  match r_rc r, r_reply r with
  | None, reply => reply = None /\ exists msg, front_message stream msg /\ r_control r `prefix_of` msg /\ r_control r <> msg
  | Some rc, None => rc = -1 /\ r_control r = [] /\ ~ exists msg, front_message stream msg
  | Some rc, Some reply =>
    exists msg result, front_message stream msg
      /\ reply = result_reply (SequenceNumber (read_header msg)) result
      /\ (if MessageType (read_header msg) =? LxInitMessageCreateProcessUtilityVm
          then r_control r `prefix_of` msg
               /\ ((rc = 0 /\ result = 0 /\ r_control r = msg) \/ (rc = -1 /\ result = EIO /\ r_control r <> msg))
          else rc = 0 /\ result = 0 /\ r_control r = [])
  end.
Proof.
  unfold wsl_interop_relay_message, sizeof_header. pose proof (front_message_iff stream) as Hfront.
  assert (Hnone : ~ (exists msg, front_message stream msg) ->
    match Some (-1), @None bytes with
    | Some rc, None => rc = -1 /\ @nil Z = [] /\ ~ exists msg, front_message stream msg
    | _, _ => True
    end) by done.
  rewrite length_take. case_if; [apply Hnone; rewrite Hfront; lia|].
  assert (Hlen : (12 <= length stream)%nat) by lia.
  rewrite (read_header_take 12 stream) by lia. set (hdr := read_header stream) in *.
  destruct (MessageSize hdr <? 12) eqn:E1; bool_to_prop; cbn [orb]; [apply Hnone; rewrite Hfront; lia|].
  case_if; [apply Hnone; rewrite Hfront; lia|].
  set (n := Z.to_nat (MessageSize hdr - 12)). rewrite length_take, length_drop.
  destruct (min n (length stream - 12) <? n)%nat eqn:E; [apply Nat.ltb_lt in E|apply Nat.ltb_ge in E].
  { apply Hnone. rewrite Hfront. lia. }
  rewrite take_take_drop. set (msg := take (12 + n) stream).
  assert (Hread : read_header msg = hdr) by (apply read_header_take; lia).
  assert (Hmsg : front_message stream msg).
  { split; [eexists; symmetry; apply take_drop|]. rewrite Hread. subst msg. rewrite length_take. lia. }
  assert (Hne : msg <> []).
  { intros Hnil. destruct Hmsg as (_ & ? & ?). rewrite Hnil in *. cbn [length] in *. lia. }
  clearbody msg. case_if.
  2:{ cbn [r_rc r_reply r_control]. exists msg, 0. rewrite Hread. split; [done|]. split; [done|].
      by rewrite (proj2 (Z.eqb_neq _ _)). }
  destruct (control_send control_open evs msg Hne) as (Hp & Hiff & Hrc). cbv zeta in Hp, Hiff, Hrc.
  set (x := if control_open then _ else _) in *.
  destruct (x_rc x) as [rc|] eqn:Erc; cbn [r_rc r_reply r_control].
  2:{ split; [done|]. exists msg. split; [done|]. split; [done|]. intros E'. by apply Hiff in E'. }
  exists msg, (if rc =? 0 then 0 else EIO). rewrite Hread, (proj2 (Z.eqb_eq (MessageType hdr) _)) by done.
  split; [done|]. split; [done|]. split; [done|].
  destruct Hrc as [|[Hrc|Hrc]]; [done|left|right]; injection Hrc as ->.
  - split; [done|]. split; [done|]. by apply Hiff.
  - split; [done|]. split; [done|]. intros Hm. by apply Hiff in Hm.
Qed.

(** The control channel is non-blocking, and the relay does not wait: when it is
    full in the middle of a message the host is left with a part of it. *)
Example full_control_channel_cuts :
  let msg := header_bytes (mk_header 8 16 5) ++ str "abcd" in
  wsl_interop_relay_message true [Progress 13; Again true; Progress 10] msg
  = mk_relayed (Some (-1)) (take 14 msg) (Some (result_reply 5 EIO)).
Proof. vm_compute. reflexivity. Qed.

(** * The copying loop *)
Definition read_of (t : relay_turn) : bytes :=
  match t_poll t with Relay_hangup (Read_data d) | Relay_readable (Read_data d) => d | _ => [] end.

Definition clean (e : relay_end) : Prop := e = End_stopped \/ e = End_eof \/ e = End_poll_error \/ e = End_read_error.

(** The loop writes what it reads, in order, and loses nothing unless a write
    fails or the peer hangs up. *)
Lemma copy_loop_exact turns :
  let '(out, e) := wsl_interop_relay_pair turns in
  exists k, out `prefix_of` flat_map read_of (take k turns)
    /\ (clean e -> out = flat_map read_of (take k turns)).
Proof.
  assert (Hnil : forall ts e, exists k, [] `prefix_of` flat_map read_of (take k ts)
      /\ (clean e -> [] = flat_map read_of (take k ts))).
  { intros ts e. exists 0%nat. by split; [apply prefix_nil|]. }
  induction turns as [|t turns IH]; [apply (Hnil []) |]. cbn [wsl_interop_relay_pair].
  case_if; [apply Hnil|].
  assert (Hskip : read_of t = [] -> let '(out, e) := wsl_interop_relay_pair turns in
    exists k, out `prefix_of` flat_map read_of (take k (t :: turns))
      /\ (clean e -> out = flat_map read_of (take k (t :: turns)))).
  { intros Hr. destruct (wsl_interop_relay_pair turns) as [out e]. destruct IH as (k & H1 & H2).
    exists (S k). cbn [take flat_map]. by rewrite Hr. }
  assert (Hone : forall d x, t_poll t = Relay_hangup (Read_data d) \/ t_poll t = Relay_readable (Read_data d) ->
    x `prefix_of` d -> exists k, x `prefix_of` flat_map read_of (take k (t :: turns))).
  { intros d x Hd Hx. exists 1%nat. cbn. rewrite take_0. cbn. rewrite app_nil_r. unfold read_of.
    by destruct Hd as [-> | ->]. }
  unfold read_of in Hskip at 1. destruct (t_poll t) as [| | |r|r|] eqn:Ep; try apply Hskip; try apply Hnil; try done.
  - case_if; [apply Hnil|by apply Hskip].
  - destruct r as [d| | |]; try apply Hnil.
    destruct (send_loop_exact retry_never (t_writes t) d) as ((k & Hk) & _). rewrite Hk.
    destruct (Hone d (take k d)) as [j Hj]; [by left|exists (drop k d); by rewrite take_drop|].
    exists j. split; [done|]. by intros [|[|[|]]].
  - destruct r as [d| | |]; try apply Hnil; [|by apply Hskip].
    destruct (send_loop_exact retry_copy (t_writes t) d) as ((k & Hk) & Hex & _).
    destruct (Hone d (take k d)) as [j Hj]; [by right|exists (drop k d); by rewrite take_drop|].
    destruct (x_rc (send_loop retry_copy (t_writes t) d [])) as [[|p|p]|] eqn:Erc;
      try (rewrite Hk; exists j; split; [done|]; by intros [|[|[|]]]).
    rewrite (proj1 Hex) by done.
    destruct (wsl_interop_relay_pair turns) as [out e]. destruct IH as (i & H1 & H2).
    exists (S i). cbn [take flat_map]. unfold read_of at 1 3. rewrite Ep.
    split; [by apply prefix_app|]. intros Hc. by rewrite (H2 Hc).
Qed.

(** At a hangup only one more read is copied, and only as far as the writer
    accepts it at once. *)
Example hangup_drops_output :
  wsl_interop_relay_pair [mk_turn false false (Relay_hangup (Read_data (str "result"))) [Progress 2; Again true]]
  = (str "res", End_hangup).
Proof. reflexivity. Qed.

End LocalInteropThm.

Import FdTrace Wire WireThm LocalInterop LocalInteropThm InteropClient.

Module InteropClientThm.

(** * The request *)
Lemma args_size_packed args : args_size args = Z.of_nat (length (packed args)).
Proof.
  induction args as [|a args IH]; [done|]. cbn [args_size]. rewrite packed_cons, length_app, IH. cbn [length]. lia.
Qed.
Lemma args_count args : (length args <= length (packed args))%nat.
Proof. induction args as [|a args IH]; [done|]. rewrite packed_cons, length_app. cbn [length]. lia. Qed.

(** The size of the request. *)
Definition request_size (filename : bytes) (args : list bytes) : nat :=
  (68 + length (packed (filename :: [] :: [] :: args)))%nat.

Lemma build_spec filename args port :
  build_create_nt_process_message filename args port =
  if 65536 <? Z.of_nat (request_size filename args) then None
  else
    let n := Z.of_nat (length filename) in
    Some (header_bytes (mk_header 8 (Z.of_nat (request_size filename args)) 0) ++ le_bytes 4 port ++
          common_bytes 0 (n + 1) (n + 3) (u16 (Z.of_nat (length args))) (n + 2) 0 ++
          packed (filename :: [] :: [] :: args)).
Proof.
  unfold build_create_nt_process_message, request_size. rewrite args_size_packed. cbv zeta.
  assert (buffer_offset + (Z.of_nat (length filename) + 1) + 1 + 1 + Z.of_nat (length (packed args))
          = Z.of_nat (68 + length (packed (filename :: [] :: [] :: args)))) as ->.
  { rewrite !packed_cons, length_app. cbn [length app]. unfold buffer_offset, sizeof_header, sizeof_common. lia. }
  replace (Z.of_nat (length filename) + 1 + 1 + 1) with (Z.of_nat (length filename) + 3) by lia.
  replace (Z.of_nat (length filename) + 1 + 1) with (Z.of_nat (length filename) + 2) by lia. done.
Qed.

(** What a host that knows the layout reads. *)
Definition reads (msg filename : bytes) (args : list bytes) (port : Z) : Prop :=
  read_header msg = mk_header 8 (Z.of_nat (length msg)) 0 /\ get32 12 msg = port /\
  CreateProc.parse_create_process_info msg =
    CreateProc.Parsed (CreateProc.mk_info (Some filename) (Some []) (CreateProcThm.some_strings args) None).

Section Request.
Context (filename : bytes) (args : list bytes) (port : Z) (msg : bytes).
Context (Hport : 0 <= port < 2 ^ 32) (Hf : no_nul filename) (Ha : Forall no_nul args).
Context (Hmsg : build_create_nt_process_message filename args port = Some msg).

Lemma request_length : length msg = request_size filename args /\ Z.of_nat (request_size filename args) <= 65536.
Proof.
  pose proof Hmsg as H. rewrite build_spec in H. destruct (65536 <? _) eqn:E in H; [done|]. bool_to_prop. cbv zeta in H. apply (inj Some) in H as <-.
  unfold common_bytes. autorewrite with len. rewrite header_bytes_length. split; [|lia]. unfold request_size. lia.
Qed.

Lemma request_parts : exists common,
  msg = header_bytes (mk_header 8 (Z.of_nat (length msg)) 0) ++ le_bytes 4 port ++ common ++ packed (filename :: [] :: [] :: args) /\
  let n := Z.of_nat (length filename) in
  common = common_bytes 0 (n + 1) (n + 3) (Z.of_nat (length args)) (n + 2) 0 /\ length common = 52%nat.
Proof.
  destruct request_length as [Hl Hb]. pose proof Hmsg as H. rewrite build_spec in H. destruct (65536 <? _) eqn:E in H; [done|].
  cbv zeta in H. apply (inj Some) in H as <-. eexists. split; [by rewrite Hl|]. cbv zeta. split.
  - unfold u16. rewrite Z.mod_small; [done|]. pose proof (args_count args). unfold request_size in Hb. rewrite !packed_cons in Hb.
    cbn [app length] in Hb. rewrite length_app in Hb. cbn [length] in Hb. lia.
  - unfold common_bytes. by autorewrite with len.
Qed.

Lemma request_reads : reads msg filename args port.
Proof.
  destruct request_length as [Hl Hb]. destruct request_parts as (common & Hp & Hc & Hlc). cbv zeta in Hc.
  assert (0 <= Z.of_nat (length msg) < 2 ^ 32) as Hm by lia. set (buffer := packed (filename :: [] :: [] :: args)) in *.
  assert (drop 68 msg = buffer) as Hd.
  { rewrite Hp, (app_assoc _ (le_bytes 4 port)), (app_assoc _ common). apply drop_app_length'.
    autorewrite with len. by rewrite header_bytes_length, Hlc. }
  assert (Z.of_nat (length filename) + 3 <= 65536) as Hn
    by (unfold request_size in Hb; rewrite packed_cons, length_app in Hb; cbn [length] in Hb; lia).
  assert (Z.of_nat (length args) < 2 ^ 16) as Hna.
  { pose proof (args_count args). unfold request_size in Hb. rewrite !packed_cons in Hb. cbn [app length] in Hb.
    rewrite length_app in Hb. cbn [length] in Hb. lia. }
  assert (Hg : get32 12 msg = port /\ get32 16 msg = 0 /\ get32 20 msg = Z.of_nat (length filename) + 1
    /\ get32 24 msg = Z.of_nat (length filename) + 3 /\ get16 28 msg = Z.of_nat (length args) /\ get16 36 msg = 0).
  { rewrite Hp, Hc. unfold header_bytes, common_bytes. rewrite <-!app_assoc. repeat split; read_field; try done; lia. }
  destruct Hg as (G0 & G1 & G2 & G3 & G4 & G5).
  split; [rewrite Hp at 1; by apply read_header_bytes|]. split; [exact G0|]. unfold CreateProc.parse_create_process_info.
  assert (68 < length msg)%nat by (rewrite Hl; unfold request_size; rewrite packed_cons, length_app; cbn [length]; lia).
  rewrite (proj2 (Z.ltb_ge _ _)), (proj2 (Z.leb_gt _ _)) by (unfold CreateProc.sizeof_utility_vm; lia).
  change (Z.to_nat CreateProc.sizeof_utility_vm) with 68%nat. cbv zeta. rewrite Hd, G1, G2, G3, G4, G5. subst buffer.
  rewrite packed_cons. cbn [packed flat_map app]. fold (packed args).
  assert (CreateProc.strdup_at 0 (filename ++ 0 :: 0 :: 0 :: packed args) = CreateProc.Dup filename) as ->
    by exact (CreateProcThm.strdup_at_packed [] filename (0 :: 0 :: packed args) Hf).
  assert (CreateProc.strdup_at (Z.of_nat (length filename) + 1) (filename ++ 0 :: 0 :: 0 :: packed args) = CreateProc.Dup []) as ->.
  { pose proof (CreateProcThm.strdup_at_packed (filename ++ [0]) [] (0 :: packed args) ltac:(constructor)) as E.
    rewrite <-app_assoc, length_app, Nat2Z.inj_add in E. exact E. }
  assert (CreateProc.strings_at (Z.of_nat (length args)) (Z.of_nat (length filename) + 3) (filename ++ 0 :: 0 :: 0 :: packed args)
          = CreateProcThm.some_strings args) as ->; [|done].
  pose proof (CreateProcThm.strings_at_packed (filename ++ [0; 0; 0]) args [] Ha) as E.
  rewrite app_nil_r, <-app_assoc, length_app, Nat2Z.inj_add in E. exact E.
Qed.
End Request.

(** The sender's limit, exactly. *)
Lemma build_none filename args port :
  build_create_nt_process_message filename args port = None <-> 65536 < Z.of_nat (request_size filename args).
Proof. rewrite build_spec. case_if; split; intros; try done; lia. Qed.

(** * The launch, with the session's server on the other end *)
Definition sent (cs : list call) : bytes := flat_map (fun c => match c with Sent _ d => d | _ => [] end) cs.
Definition quiet {A} (m : M A) : Prop := sent m.1 = [].

Lemma sent_data_app a b : sent (a ++ b) = sent a ++ sent b.
Proof. apply flat_map_app. Qed.
Lemma fst_bind {A B} (m : M A) (f : A -> M B) :
  (m ≫= f).1 = m.1 ++ match m.2 with inl x => (f x).1 | inr _ => [] end.
Proof. destruct m as [l [x|e]]; cbn; [by destruct (f x)|by rewrite app_nil_r]. Qed.
Lemma snd_bind {A B} (m : M A) (f : A -> M B) : (m ≫= f).2 = match m.2 with inl x => (f x).2 | inr e => inr e end.
Proof. destruct m as [l [x|e]]; cbn; [by destruct (f x)|done]. Qed.
Lemma quiet_bind {A B} (m : M A) (f : A -> M B) : quiet m -> (forall x, quiet (f x)) -> quiet (m ≫= f).
Proof.
  unfold quiet. intros Hm Hf. rewrite fst_bind, sent_data_app, Hm. destruct (snd m); [apply Hf|done].
Qed.
Ltac quiet_tac :=
  repeat lazymatch goal with
  | |- forall _, _ => intros ?
  | |- quiet (mbind _ _) => apply quiet_bind
  | |- quiet (match ?x with _ => _ end) => destruct x
  | |- quiet (when ?b _) => unfold when
  | |- quiet (let _ := _ in _) => cbv zeta
  | |- quiet _ => reflexivity
  end.

Lemma quiet_accept a : quiet (wsl_interop_accept_one_io a).
Proof. by destruct a. Qed.
Lemma quiet_wait pid t : quiet (waitpid pid t).
Proof. unfold waitpid. quiet_tac. Qed.
Lemma quiet_after e io : quiet (after_launch e io).
Proof.
  unfold after_launch, wsl_interop_run_io_relay, relay_child.
  repeat (quiet_tac || apply quiet_accept || apply quiet_wait).
Qed.
Lemma quiet_listener e : quiet (wsl_interop_create_io_listener e).
Proof. unfold wsl_interop_create_io_listener. quiet_tac. Qed.

(** main up to the request: it fails before it, or the request follows. *)
Definition send_request (e : client_env) (fd : Z) (io : option (Z * Z)) (msg : bytes) : M Z :=
  let x := send_loop retry_intr (c_send e) msg [] in
  tell (Sent fd (x_data x));;
  match x_rc x with
  | None => stop Blocked
  | Some rc =>
    if negb (rc =? 0) then close_listener io;; tell (Closed fd);; mret 1
    else
      tell (Closed fd);;
      match response_result (c_response e) with
      | Some 0 => after_launch e io
      | _ => close_listener io;; mret 1
      end
  end.
Definition port_of (io : option (Z * Z)) : Z := match io with Some (_, p) => p | None => 0 end.

Lemma bind_prefix {A B} (m : M A) (f : A -> M B) x : m.2 = inl x -> m ≫= f = (m.1 ++ (f x).1, (f x).2).
Proof. destruct m as [l r]. cbn. intros ->. by destruct (f x). Qed.

Lemma listener_total e : exists io, (wsl_interop_create_io_listener e).2 = inl io.
Proof.
  unfold wsl_interop_create_io_listener. cbv zeta. repeat case_match; subst; eexists; rewrite ?snd_bind; reflexivity.
Qed.
Lemma listener_port e io : (forall a b, io_name e = Some (a, b) -> is_byte a /\ is_byte b) ->
  (wsl_interop_create_io_listener e).2 = inl io -> 0 <= port_of io < 2 ^ 16.
Proof.
  intros Hb. unfold wsl_interop_create_io_listener, is_byte in *. cbv zeta.
  repeat case_match; rewrite ?snd_bind; intros [= <-]; cbn [port_of]; try lia.
  all: destruct p as [a b]; destruct (Hb a b eq_refl); unfold ntohs; cbn [fst snd]; lia.
Qed.

Lemma main_shape e argv path args : tl argv = path :: args ->
  (exists cs, main e argv = (cs, inl 1) /\ sent cs = []) \/
  exists pre fd io msg, sent pre = [] /\ (wsl_interop_create_io_listener (c_io e)).2 = inl io /\
    build_create_nt_process_message path (path :: args) (port_of io) = Some msg /\
    main e argv = (pre ++ (send_request e fd io msg).1, (send_request e fd io msg).2).
Proof.
  intros Ha. unfold main. rewrite Ha.
  destruct (wsl_interop_find_socket _ _ _ _) as [[p v]|]; [|left; by exists []]. cbv zeta.
  case_if; [left; by exists []|]. set (fd := c_socket e).
  destruct (c_connect e); cbn [negb]; [|left; by eexists].
  destruct (listener_total (c_io e)) as [io Hio]. rewrite (bind_prefix _ _ io Hio). cbn [tell mbind M_bind mret M_ret].
  fold (port_of io). destruct (build_create_nt_process_message _ _ _) as [msg|] eqn:Hm.
  - right. exists ([Opened fd; Connect fd (sun_path p)] ++ (wsl_interop_create_io_listener (c_io e)).1), fd, io, msg.
    split; [|split; [done|]; split; [done|]].
    + rewrite sent_data_app. cbn. apply quiet_listener.
    + reflexivity.
  - left. eexists. split; [by destruct io as [[l q]|]|]. cbn [sent flat_map app]. fold sent. rewrite sent_data_app, quiet_listener.
    by destruct io as [[l q]|].
Qed.

(** The answer reaches the tool when it is the result of the relay. *)
Definition answered (e : client_env) (r : relayed) : Prop :=
  c_response e = match r_reply r with Some d => Recv d | None => Recv [] end.
(** The host has the whole request. *)
Definition delivered (r : relayed) (stream : bytes) : Prop := stream <> [] /\ r_control r = stream.

(** A part of a message does not start with a message. *)
Lemma part_is_no_message msg part : MessageSize (read_header msg) = Z.of_nat (length msg) -> part `prefix_of` msg -> part <> msg ->
  ~ exists m, front_message part m.
Proof.
  intros Hs [rest ->] Hne. rewrite front_message_iff. intros (Hl & _ & Hle).
  rewrite read_header_app in Hs by done. rewrite Hs, length_app in Hle.
  assert (rest = []) as -> by (destruct rest; [done|cbn [length] in Hle; lia]). by rewrite app_nil_r in Hne.
Qed.
Lemma front_message_whole msg m : MessageSize (read_header msg) = Z.of_nat (length msg) -> front_message msg m -> m = msg.
Proof.
  intros Hs ([rest E] & Hb & Hl). assert (12 <= length m)%nat by lia.
  rewrite E, read_header_app, length_app in Hs by done. rewrite E.
  assert (rest = []) as -> by (destruct rest; [done|cbn [length] in Hs; lia]). by rewrite app_nil_r.
Qed.

Lemma reply_result seq v : 0 <= seq < 2 ^ 32 -> 0 <= v < 2 ^ 32 -> response_result (Recv (result_reply seq v)) = Some v.
Proof.
  intros Hs Hv. unfold response_result, result_reply. rewrite length_app, header_bytes_length, le_bytes_length.
  change (12 + 4 <? 16)%nat with false. cbv iota. unfold header_bytes. cbn [MessageType MessageSize SequenceNumber].
  rewrite <-!app_assoc. assert (get32 0 (le_bytes 4 78 ++ le_bytes 4 16 ++ le_bytes 4 seq ++ le_bytes 4 v) = 78) as -> by (by read_field).
  cbn [Z.eqb negb LxMessageResultUint32]. f_equal. by read_field.
Qed.

(** The relay of a whole request: the tool is told 0 exactly when the host has it. *)
Lemma relay_of_request filename args port msg control_open evs e :
  0 <= port < 2 ^ 32 -> no_nul filename -> Forall no_nul args -> build_create_nt_process_message filename args port = Some msg ->
  let r := wsl_interop_relay_message control_open evs msg in
  answered e r -> (response_result (c_response e) = Some 0 <-> delivered r msg).
Proof.
  intros Hp Hf Ha Hm r Hr. destruct (request_reads filename args port msg Hp Hf Ha Hm) as (Hh & _).
  destruct (request_length filename args port msg Hm) as [Hlen _].
  pose proof (relay_message_verbatim control_open evs msg) as H. fold r in H. cbv zeta in H. unfold answered in Hr.
  assert (msg <> []) as Hne by (intros ->; by cbn in Hlen).
  assert (MessageSize (read_header msg) = Z.of_nat (length msg)) as Hs by (by rewrite Hh).
  destruct (r_rc r) as [rc|].
  - destruct (r_reply r) as [d|].
    + destruct H as (m & v & Hfm & Hd & H). apply (front_message_whole _ _ Hs) in Hfm as ->. rewrite Hh in Hd, H.
      cbn [MessageType SequenceNumber] in Hd, H. change (8 =? LxInitMessageCreateProcessUtilityVm) with true in H. cbv iota in H.
      rewrite Hr, Hd. destruct H as (_ & [(_ & -> & Hc)|(_ & -> & Hc)]); rewrite (reply_result 0) by (unfold EIO; lia).
      * split; [done|]. done.
      * split; [unfold EIO; congruence|]. by intros [_ ?].
    + destruct H as (_ & Hc & _). rewrite Hr. split; [done|]. intros [_ Hd]. by rewrite Hc in Hd.
  - destruct H as [Hd (m & Hfm & _ & Hc)]. rewrite Hr, Hd. split; [done|]. intros [_ E].
    by apply (front_message_whole _ _ Hs) in Hfm as ->.
Qed.

(** The three ways in which sending ends. *)
Lemma send_request_cases e fd io msg :
  let x := send_loop retry_intr (c_send e) msg [] in
  (x_rc x <> Some 0 /\ sent (send_request e fd io msg).1 = x_data x /\ x_data x <> msg /\ x_data x `prefix_of` msg /\
     ((send_request e fd io msg).2 = inl 1 \/ (send_request e fd io msg).2 = inr Blocked)) \/
  (x_data x = msg /\ sent (send_request e fd io msg).1 = msg /\
     ((response_result (c_response e) = Some 0 /\
       send_request e fd io msg = ([Sent fd msg; Closed fd] ++ (after_launch e io).1, (after_launch e io).2)) \/
      (response_result (c_response e) <> Some 0 /\ (send_request e fd io msg).2 = inl 1))).
Proof.
  intros x. destruct (send_loop_exact retry_intr (c_send e) msg) as ((k & Hk) & Hex & _). fold x in Hk, Hex.
  assert (x_data x `prefix_of` msg) as Hp by (rewrite Hk; exists (drop k msg); by rewrite take_drop).
  pose proof (quiet_after e io) as Hq. unfold quiet in Hq.
  unfold send_request. fold x. destruct (x_rc x) as [rc|] eqn:E.
  2:{ left. cbn. rewrite app_nil_r. repeat split; auto. intros Hd. by apply Hex in Hd. }
  destruct (Z.eqb_spec rc 0) as [->|Hn]; cbn [negb].
  - right. rewrite (proj1 Hex eq_refl). split; [done|].
    destruct (decide (response_result (c_response e) = Some 0)) as [Hr|Hr].
    + rewrite Hr. rewrite (bind_prefix (tell _) _ tt eq_refl), (bind_prefix (tell _) _ tt eq_refl). cbn [fst snd].
      split; [|by left]. change (msg ++ sent (after_launch e io).1 = msg). by rewrite Hq, app_nil_r.
    + assert (forall T (a b : T), match response_result (c_response e) with Some 0 => a | _ => b end = b) as Hm
        by (intros; by destruct (response_result _) as [[| |]|]).
      rewrite Hm, (bind_prefix (tell _) _ tt eq_refl). split; [destruct io as [[l q]|]; cbn; by rewrite app_nil_r|].
      right. split; [done|]. by destruct io as [[l q]|].
  - left. split; [congruence|]. destruct io as [[l q]|]; cbn; rewrite app_nil_r; repeat split; auto; intros Hd; apply Hex in Hd; congruence.
Qed.


(** One environment: everything works, the host connects three times, and the
    streams close at once. *)
Definition demo_io : io_env := mk_io_env 5 None (fun ip => list_eqb ip (str "127.0.0.1")) true true (Some (200, 1)).
Definition closed_stream : list relay_turn := [mk_turn false false (Relay_readable Read_eof) []].
Definition demo_relay : relay_env :=
  mk_relay_env (Connection 6) (Connection 7) (Connection 8) 100 101 closed_stream closed_stream closed_stream.
Definition demo_client (answer : response) : client_env :=
  mk_client_env (fun p => list_eqb p (str "/run/WSL/9_interop")) None 9 4 true demo_io [Progress 49; Intr; Progress 200] answer demo_relay.
Definition demo_argv : list bytes := [str "wsl-interop"; str "notepad.exe"; str "a.txt"].


(** * Descriptors *)

(** What a call does to the descriptors; standard input is inherited. *)
Definition fds (c : call) : list fd_event :=
  match c with
  | Opened fd => [Opens fd]
  | Closed fd => [Closes fd]
  | Bind fd _ | Listen fd _ | Connect fd _ | Sent fd _ => [Uses fd]
  | Wrote fd _ => if fd =? STDIN_FILENO then [] else [Uses fd]
  | _ => []
  end.
Definition uses (l : list Z) (cs : list call) (l' : list Z) : Prop := accounts l (flat_map fds cs) l'.
Lemma tool_calls_nil l : uses l [] l.
Proof. by change (l ≡ₚ l). Qed.
Lemma tool_calls_app l a k b l' : uses l a k -> uses k b l' -> uses l (a ++ b) l'.
Proof. unfold uses. rewrite flat_map_app. apply accounts_app. Qed.

(** [holding l m Q]: the calls of [m] are in order for a process with [l]; when [m]
    returns, [Q] of its value and of what is then held. *)
Definition holding {A} (l : list Z) (m : M A) (Q : A -> list Z -> Prop) : Prop :=
  exists l', uses l m.1 l' /\ match m.2 with inl x => Q x l' | inr _ => True end.

Lemma holding_ret {A} l (x : A) (Q : A -> list Z -> Prop) : Q x l -> holding l (mret x) Q.
Proof. intros H. exists l. split; [by change (l ≡ₚ l)|exact H]. Qed.
Lemma holding_stop {A} l e (Q : A -> list Z -> Prop) : holding l (stop e) Q.
Proof. exists l. by split; [change (l ≡ₚ l)|]. Qed.
Lemma holding_bind {A B} l (m : M A) (f : A -> M B) R Q :
  holding l m R -> (forall x k, R x k -> holding k (f x) Q) -> holding l (m ≫= f) Q.
Proof.
  intros (k & Hu & HR) Hf. unfold holding. rewrite fst_bind, snd_bind. destruct m.2 as [x|e].
  - destruct (Hf x k HR) as (l' & Hu' & HQ). exists l'. split; [by eapply tool_calls_app|exact HQ].
  - exists k. by rewrite app_nil_r.
Qed.
Lemma holding_tell {B} l c k (f : unit -> M B) Q : uses l [c] k -> holding k (f tt) Q -> holding l (tell c ≫= f) Q.
Proof. intros Hc Hf. apply (holding_bind l _ f (fun _ k' => k' = k)); [by exists k|]. by intros [] ? ->. Qed.
Lemma holding_weaken {A} l (m : M A) (Q R : A -> list Z -> Prop) : holding l m Q -> (forall x k, Q x k -> R x k) -> holding l m R.
Proof. intros (k & Hu & H) HR. exists k. split; [done|]. destruct m.2; auto. Qed.

Ltac held := first [apply list_elem_of_here | apply list_elem_of_further; held].
Ltac step_fd :=
  cbn [negb];
  lazymatch goal with
  | |- holding ?l (mret _) _ => apply holding_ret
  | |- holding ?l (stop _) _ => apply holding_stop
  | |- holding ?l (tell (Opened ?fd) ≫= _) _ => apply (holding_tell l _ (fd :: l)); [apply tool_calls_nil|]
  | |- holding ?l (tell _ ≫= _) _ => apply (holding_tell l _ l); [unfold uses; cbn; repeat split; try held; try reflexivity|]
  end.

Lemma holding_close {B} l fd k (f : unit -> M B) Q : l ≡ₚ fd :: k -> holding k (f tt) Q -> holding l (tell (Closed fd) ≫= f) Q.
Proof. intros H. apply holding_tell. cbn. exists k. by split. Qed.
Ltac failed_at l := cbn [negb]; apply (holding_close _ _ l); [done|]; step_fd.

(** The listener is held exactly when there is one. *)
Definition with_listener (l : list Z) (io : option (Z * Z)) : list Z := match io with Some (fd, _) => fd :: l | None => l end.

Lemma create_io_listener_fds l e : holding l (wsl_interop_create_io_listener e)
  (fun io k => k = with_listener l io /\ forall fd p, io = Some (fd, p) -> fd = io_socket e /\ exists q, io_name e = Some q /\ p = ntohs q).
Proof.
  unfold wsl_interop_create_io_listener. cbv zeta. case_if; [by step_fd|]. step_fd.
  destruct (io_pton e _); [|by failed_at l]. step_fd. destruct (io_bind e); [|by failed_at l].
  step_fd. destruct (io_listen e); [|by failed_at l]. cbn [negb]. destruct (io_name e) as [q|] eqn:E; [|by failed_at l].
  step_fd. split; [done|]. intros fd p [= <- <-]. split; [done|]. by exists q.
Qed.

(** Everything is closed on return; only when a connection does not come is the
    listener left to the end of the process. *)
Definition relayed_fds (l : list Z) (listen_fd : Z) (rc : Z) (k : list Z) : Prop := k ≡ₚ l \/ rc = -1 /\ k ≡ₚ listen_fd :: l.

Lemma holding_waitpid {B} l pid turns (f : unit -> M B) Q : holding l (f tt) Q -> holding l (waitpid pid turns ≫= f) Q.
Proof.
  intros H. apply (holding_bind l _ f (fun _ k => k = l)); [|by intros [] ? ->].
  unfold waitpid. case_match; [by step_fd|]. exists l. split; [by apply tool_calls_nil|done].
Qed.
Lemma holding_accept {B} l a (f : option Z -> M B) Q :
  holding l (f None) Q -> (forall fd, holding (fd :: l) (f (Some fd)) Q) -> holding l (wsl_interop_accept_one_io a ≫= f) Q.
Proof.
  intros H0 H1. apply (holding_bind l _ f (fun o k => k = match o with Some fd => fd :: l | None => l end)).
  - destruct a; cbn [wsl_interop_accept_one_io]; by repeat step_fd.
  - by intros [fd|] ? ->.
Qed.
(** The three connections are closed together. *)
Lemma holding_close3 {B} l a b c (f : unit -> M B) Q :
  holding l (f tt) Q -> holding (c :: b :: a :: l) ((tell (Closed a);; tell (Closed b);; tell (Closed c)) ≫= f) Q.
Proof.
  intros H. apply (holding_bind _ _ f (fun _ k => k = l)); [|by intros [] ? ->].
  apply (holding_close _ _ (c :: b :: l)); [by rewrite (Permutation_swap a b), (Permutation_swap a c)|].
  apply (holding_close _ _ (c :: l)); [apply Permutation_swap|].
  exists l. split; [|done]. cbn. by exists l.
Qed.
Lemma holding_child {A} l net turns (Q : A -> list Z -> Prop) : net ∈ l -> holding l (relay_child net turns) Q.
Proof.
  intros H. unfold relay_child. destruct (relay turns) as [out e]. apply (holding_tell l _ l); [|by step_fd].
  unfold uses. cbn. case_if; cbn; [done|by split].
Qed.

Lemma run_io_relay_fds l listen_fd e : holding (listen_fd :: l) (wsl_interop_run_io_relay listen_fd e) (relayed_fds l listen_fd).
Proof.
  unfold wsl_interop_run_io_relay. apply holding_accept; [step_fd; by right|]. intros stdin_net.
  apply holding_accept; [apply (holding_close _ _ (listen_fd :: l)); [done|]; step_fd; by right|]. intros stdout_net.
  apply holding_accept; [|intros stderr_net].
  { apply (holding_close _ _ (stdout_net :: listen_fd :: l)); [apply Permutation_swap|].
    apply (holding_close _ _ (listen_fd :: l)); [done|]. step_fd. by right. }
  cbv zeta. apply (holding_close _ _ (stderr_net :: stdout_net :: stdin_net :: l)).
  { rewrite (Permutation_swap listen_fd stdin_net), (Permutation_swap listen_fd stdout_net). apply Permutation_swap. }
  step_fd. case_if; [apply holding_child; held|]. case_if; [apply holding_close3; step_fd; by left|].
  step_fd. case_if; [apply holding_child; held|].
  case_if; [apply holding_waitpid, holding_close3; step_fd; by left|].
  destruct (relay (t_stdin e)) as [input e']. step_fd.
  apply (holding_bind _ _ _ (fun _ k => k = stderr_net :: stdout_net :: stdin_net :: l)).
  { destruct (goes_on e'); cbn [when]; by step_fd. }
  intros _ ? ->. apply holding_close3. do 2 apply holding_waitpid. step_fd. by left.
Qed.

(** The exit with status 1, with and without a listener. *)
Lemma holding_close_listener io fd Q : Q 1 [] -> holding (with_listener [fd] io) (close_listener io;; tell (Closed fd);; mret 1) Q.
Proof.
  intros H. destruct io as [[l p]|]; cbn [close_listener with_listener].
  - apply (holding_close _ _ [fd]); [done|]. by failed_at (@nil Z).
  - apply (holding_bind _ _ _ (fun _ k => k = [fd])); [by step_fd|]. intros _ ? ->. by failed_at (@nil Z).
Qed.

(** ** When the tool returns *)

(** The copies of the stop flag that the children look at stay 0: no loop of the
    relay is ever stopped by it. *)
Lemma relay_never_stopped turns : (relay turns).2 <> End_stopped.
Proof.
  unfold relay. induction turns as [|t turns IH]; [done|]. cbn [map wsl_interop_relay_pair running t_stop t_drain t_poll t_writes andb].
  destruct (t_poll t) as [| | |r|r|]; try done; try (by destruct r).
  destruct r; try done. destruct (x_rc _) as [[]|]; try done. by destruct (wsl_interop_relay_pair _).
Qed.
(** The host closes the program's standard input, which ends the parent's loop;
    the terminal, from which the children copy, stays open, and the parent waits. *)
Example terminal_keeps_tool_waiting :
  let idle := mk_turn false false Relay_timeout [] in
  let e := mk_relay_env (Connection 6) (Connection 7) (Connection 8) 100 101 closed_stream [idle; idle; idle] [idle; idle] in
  wsl_interop_run_io_relay 5 e =
  ([Opened 6; Opened 7; Opened 8; Closed 5; Fork 100; Fork 101; Wrote 0 []; Closed 6; Closed 7; Closed 8], inr Blocked).
Proof. vm_compute. reflexivity. Qed.
(** A path in WSL_INTEROP is looked up whole and then cut to 63 bytes. *)
Example long_socket_path_is_cut :
  let path := str "/run/WSL/sessions/0123456789/0123456789/0123456789/0123456789/12_interop" in
  wsl_interop_find_socket (fun p => list_eqb p path) (Some path) 64 1 = Some (take 63 path, None).
Proof. vm_compute. reflexivity. Qed.

End InteropClientThm.
