(* ===== verification/WslInfo.v ===== *)
(** The tool wslinfo (src/FreeBSD/wslinfo.c): options, the machine's identifier as
    a GUID, and the query for the networking mode on the local interop socket.  What
    it writes to standard error is not modelled. *)
From S2P Require Import Prelude CStr CNum Wire LocalInterop Interop.
Import Wire.

Module WslInfo.

Definition LxInitMessageQueryNetworkingMode : Z := 25.
Definition LxMessageResultUint32 : Z := 78.
Definition LxMessageResultUint8 : Z := 79.
Definition LX_INIT_NETWORKING_MODE_NAT : Z := 0.
Definition LX_INIT_NETWORKING_MODE_MIRRORED : Z := 1.
Definition LX_INIT_NETWORKING_MODE_BRIDGED : Z := 2.
Definition WSL_PACKAGE_VERSION : bytes := str "2.3.24.0".
Definition SOCK_PATH_MAX : Z := 64.

(** * The query *)
Definition find_interop_socket (exists_ : bytes -> bool) (env : option bytes) (path_len ppid : Z) : option bytes :=
  let by_parent :=
    if 0 <? ppid then
      let path := LocalInterop.socket_path path_len ppid in
      if exists_ path then Some path else None
    else None in
  match env with
  | Some path => if negb (is_empty path) && exists_ path then Some (take (Z.to_nat (path_len - 1)) path) else by_parent
  | None => by_parent
  end.

(** [q_send], [q_recv]: what the calls on the socket do; [q_stream]: what the peer
    sends before it closes, or before five seconds without data. *)
Record query_env : Type := mk_query_env {
  q_exists : bytes -> bool; q_interop : option bytes; q_ppid : Z;
  q_socket : bool; q_connect : bool; q_send : list sock_event; q_recv : list sock_event; q_stream : bytes
}.
Definition query : bytes := header_bytes (mk_header LxInitMessageQueryNetworkingMode 12 1).
Definition retry_never (e : sock_event) : bool := false.

Inductive queried : Type := Mode (mode : Z) | Query_failed | Query_waits.
Definition query_networking_mode (e : query_env) : queried :=
  match find_interop_socket (q_exists e) (q_interop e) SOCK_PATH_MAX (q_ppid e) with
  | None => Query_failed
  | Some _ =>
    if negb (q_socket e) then Query_failed
    else if negb (q_connect e) then Query_failed
    else
      match x_rc (send_loop retry_intr (q_send e) query []) with
      | None => Query_waits
      | Some rc =>
        if negb (rc =? 0) then Query_failed
        else
          let '(x, _) := recv_loop retry_never (q_recv e) (q_stream e) 16 [] in
          match x_rc x with
          | None => Query_waits
          | Some rc =>
            if negb (rc =? 0) then Query_failed
            else
              let ty := MessageType (read_header (x_data x)) in
              if negb (ty =? LxMessageResultUint32) && negb (ty =? LxMessageResultUint8) then Query_failed
              else Mode (get32 12 (x_data x))
          end
      end
  end.

Definition networking_mode_string (mode : Z) : bytes :=
  if mode =? LX_INIT_NETWORKING_MODE_NAT then str "NAT"
  else if mode =? LX_INIT_NETWORKING_MODE_MIRRORED then str "Mirrored"
  else if mode =? LX_INIT_NETWORKING_MODE_BRIDGED then str "Bridged"
  else str "none".

(** * The identifier *)
Definition isxdigit (c : Z) : bool := isdigit c || ((65 <=? c) && (c <=? 70)) || ((97 <=? c) && (c <=? 102)).

(** The loop over the input: at most [room] more digits. *)
Fixpoint collect_hex (room : nat) (input : bytes) : bytes :=
  match room, input with
  | O, _ | _, [] => []
  | S room', c :: input' => if isxdigit c then tolower c :: collect_hex room' input' else collect_hex room input'
  end.

Definition format_guid (input : bytes) (out_size : Z) : bytes :=
  if out_size <? 37 then []
  else
    let h := collect_hex 32 input in
    let hex := h ++ replicate (32 - length h) 48 in
    let part from n := take n (drop from hex) in
    snprintf_s out_size
      (part 0%nat 8%nat ++ [c_dash] ++ part 8%nat 4%nat ++ [c_dash] ++ part 12%nat 4%nat ++ [c_dash] ++ part 16%nat 4%nat ++ [c_dash] ++
       part 20%nat 12%nat).

(** [files] as for the interop server's identifier, read into 256 bytes; a NUL in
    what was read ends the string. *)
Definition get_vm_id (buf_size : Z) (files : list (option bytes)) : bytes :=
  let raw := match Interop.first_id 256 files with Some id => id | None => [] end in
  format_guid (to_cstr raw) buf_size.

(** * Options *)
Inductive mode : Type :=
| MODE_NONE | MODE_VM_ID | MODE_NETWORKING_MODE | MODE_VERSION | MODE_WSL_VERSION | MODE_NAME | MODE_DIAG.

(** The option loop returns from main with a status, or leaves the mode and
    whether -n was there. *)
Fixpoint parse_options (args : list bytes) (m : mode) (no_newline : bool) : Z + mode * bool :=
  match args with
  | [] => inr (m, no_newline)
  | a :: args' =>
    if strcmp_eq a (str "--help") then inl 0
    else if strcmp_eq a (str "--vm-id") then parse_options args' MODE_VM_ID no_newline
    else if strcmp_eq a (str "--networking-mode") then parse_options args' MODE_NETWORKING_MODE no_newline
    else if strcmp_eq a (str "--version") then parse_options args' MODE_VERSION no_newline
    else if strcmp_eq a (str "--wsl-version") then parse_options args' MODE_WSL_VERSION no_newline
    else if strcmp_eq a (str "--name") then parse_options args' MODE_NAME no_newline
    else if strcmp_eq a (str "--diag") then parse_options args' MODE_DIAG no_newline
    else if strcmp_eq a (str "-n") then parse_options args' m true
    else inl 1
  end.

(** Standard output and status; or the query does not come back. *)
Inductive ran : Type := Ran (stdout : bytes) (status : Z) | Waits.

Definition main (files : list (option bytes)) (distro_name : option bytes) (q : query_env) (argv : list bytes) : ran :=
  match parse_options (tl argv) MODE_NONE false with
  | inl status => Ran [] status
  | inr (m, no_newline) =>
    let print result := Ran (result ++ (if no_newline then [] else [c_nl])) 0 in
    match m with
    | MODE_NONE => Ran [] 1
    | MODE_VM_ID => print (get_vm_id 128 files)
    | MODE_NETWORKING_MODE =>
      match query_networking_mode q with
      | Mode net_mode => print (snprintf_s 128 (networking_mode_string net_mode))
      | Query_failed => print (snprintf_s 128 (networking_mode_string LX_INIT_NETWORKING_MODE_NAT))
      | Query_waits => Waits
      end
    | MODE_VERSION => print WSL_PACKAGE_VERSION
    | MODE_WSL_VERSION => print (str "2")
    | MODE_NAME =>
      match distro_name with
      | Some name => if is_empty name then Ran [] 1 else print name
      | None => Ran [] 1
      end
    | MODE_DIAG => Ran [] 1
    end
  end.

End WslInfo.
