(* ===== verification/WslInfoThm.v ===== *)
(** Theorems on the two tools wslpath (WslPathThm) and wslinfo (WslInfoThm). *)
From S2P Require WslConf.
From S2P Require Import Prelude CStr CNum Wire ChannelThm WslPath Interop LocalInterop WslInfo.

Import WslPath.

Module WslPathThm.

Definition no_bslash (s : bytes) : Prop := Forall (fun b => b <> c_bslash) s.

(** * Separators *)
Lemma replace_sep_length from to s : length (replace_sep from to s) = length s.
Proof. apply length_map. Qed.

Lemma replace_sep_id from to s : Forall (fun b => b <> from) s -> replace_sep from to s = s.
Proof.
  induction 1 as [|c s Hc _ IH]; [done|]. unfold replace_sep in *. cbn [map].
  apply Z.eqb_neq in Hc. by rewrite Hc, IH.
Qed.

Lemma replace_sep_app from to s t :
  replace_sep from to (s ++ t) = replace_sep from to s ++ replace_sep from to t.
Proof. apply map_app. Qed.

Definition win_sep (mixed : bool) : Z := if mixed then c_slash else c_bslash.

(** Converting to either Windows style and back to slashes. *)
Lemma replace_back mixed s :
  no_bslash s -> replace_sep c_bslash c_slash (replace_sep c_slash (win_sep mixed) s) = s.
Proof.
  induction 1 as [|c s Hc _ IH]; [done|]. unfold replace_sep in *. cbn [map]. rewrite IH.
  f_equal. destruct (c =? c_slash) eqn:E; [apply Z.eqb_eq in E; subst; by destruct mixed|].
  apply Z.eqb_neq in Hc. by rewrite Hc.
Qed.

Lemma no_bslash_app s t : no_bslash s -> no_bslash t -> no_bslash (s ++ t).
Proof. intros. by apply Forall_app. Qed.

Lemma checked_some size s o : snprintf_checked size s = Some o -> o = s.
Proof. unfold snprintf_checked. case_if; congruence. Qed.

Lemma checked_fits size s : Z.of_nat (length s) < size -> snprintf_checked size s = Some s.
Proof. intros. unfold snprintf_checked. case_if; [lia|done]. Qed.

Lemma char_at_app s t i : char_at (s ++ t) (length s + i) = char_at t i.
Proof. unfold char_at. rewrite app_nth2 by lia. f_equal. lia. Qed.

(** * Paths under the automount root *)

(** A drive root, a file of a drive, a file of a share. *)
Inductive automounted (mount_root : bytes) : bytes -> Prop :=
| am_drive c : islower c = true -> automounted mount_root (mount_root ++ [c_slash; c])
| am_file c t : islower c = true -> no_bslash t -> t <> [] ->
    automounted mount_root (mount_root ++ [c_slash; c; c_slash] ++ t)
| am_share t : no_bslash t -> starts_with (str "?/") t = false ->
    automounted mount_root (mount_root ++ [c_slash] ++ UNC_MOUNT_NAME ++ [c_slash] ++ t).

(** What the code assumes of the root: absolute, without backslashes. *)
Definition root_wf (mount_root : bytes) : Prop :=
  head mount_root = Some c_slash /\ no_bslash mount_root.

Lemma islower_range c : islower c = true -> 97 <= c <= 122.
Proof. unfold islower. intros. by bool_to_prop. Qed.

(** The test that a path lies under the root. *)
Lemma under_root M t pm cwd :
  root_wf M ->
  make_absolute pm cwd (M ++ c_slash :: t) = Some (M ++ c_slash :: t)
  /\ Nat.ltb 0 (length M) = true /\ starts_with M (M ++ c_slash :: t) = true
  /\ (char_at (M ++ c_slash :: t) (length M) =? c_slash) = true
  /\ drop (length M + 1) (M ++ c_slash :: t) = t.
Proof.
  intros [Hh _]. destruct M as [|m M]; [done|]. injection Hh as ->.
  split; [done|]. split; [done|]. split; [apply starts_with_app|]. split.
  - rewrite <-(Nat.add_0_r (length _)), char_at_app. done.
  - rewrite drop_app_ge by lia. by replace (_ + 1 - _)%nat with 1%nat by lia.
Qed.

Ltac under_root_simpl M t pm cwd HM :=
  unfold to_windows;
  let A := fresh in let B := fresh in let C := fresh in let D := fresh in let E := fresh in
  destruct (under_root M t pm cwd HM) as (A & B & C & D & E);
  rewrite A, B, C, D; cbn [andb]; rewrite E; clear A B C D E.

(** * The drive cases *)
Lemma to_windows_drive M c pm cwd size mixed :
  root_wf M -> islower c = true ->
  to_windows pm cwd M (M ++ [c_slash; c]) size mixed
  = snprintf_checked size [toupper c; c_colon; win_sep mixed].
Proof.
  intros HM Hc. pose proof (islower_range _ Hc). under_root_simpl M [c] pm cwd HM.
  change UNC_MOUNT_NAME with [119; 115; 108].
  assert (starts_with [119; 115; 108] [c] = false) as -> by (apply andb_false_r).
  cbn [andb char_at nth]. unfold isalpha. rewrite Hc, orb_true_r. reflexivity.
Qed.

Lemma to_windows_file M c t pm cwd size mixed :
  root_wf M -> islower c = true -> t <> [] ->
  to_windows pm cwd M (M ++ [c_slash; c; c_slash] ++ t) size mixed
  = match snprintf_checked size ([toupper c; c_colon; win_sep mixed] ++ t) with
    | None => None
    | Some _ => Some ([toupper c; c_colon; win_sep mixed] ++ replace_sep c_slash (win_sep mixed) t)
    end.
Proof.
  intros HM Hc Ht. pose proof (islower_range _ Hc). cbn [app].
  under_root_simpl M (c :: c_slash :: t) pm cwd HM.
  change UNC_MOUNT_NAME with [119; 115; 108].
  assert (starts_with [119; 115; 108] (c :: c_slash :: t) = false) as -> by (apply andb_false_r).
  cbn [andb char_at nth]. unfold isalpha. rewrite Hc, orb_true_r. cbn [andb orb Z.eqb Pos.eqb drop].
  destruct t as [|x t]; [done|]. fold (win_sep mixed). rewrite drop_0.
  destruct (snprintf_checked _ _) as [o|] eqn:E; [|done].
  apply checked_some in E. by subst o.
Qed.

Lemma to_windows_share M t pm cwd size mixed :
  root_wf M ->
  to_windows pm cwd M (M ++ [c_slash] ++ UNC_MOUNT_NAME ++ [c_slash] ++ t) size mixed
  = match snprintf_checked size ([c_bslash; c_bslash] ++ t) with
    | None => None
    | Some _ => Some ([c_bslash; c_bslash] ++ replace_sep c_slash (win_sep mixed) t)
    end.
Proof.
  intros HM. change ([c_slash] ++ UNC_MOUNT_NAME ++ [c_slash] ++ t)
    with (c_slash :: (UNC_MOUNT_NAME ++ c_slash :: t)).
  under_root_simpl M (UNC_MOUNT_NAME ++ c_slash :: t) pm cwd HM.
  rewrite starts_with_app. cbn [andb orb]. cbn. fold (win_sep mixed).
  destruct (snprintf_checked _ _) as [o|] eqn:E; [|done].
  apply checked_some in E. by subst o.
Qed.

Lemma finish_back s size :
  Z.of_nat (length s) < size -> no_bslash s ->
  match snprintf_checked size s with
  | None => None
  | Some o => Some (replace_sep c_bslash c_slash o)
  end = Some s.
Proof. intros. rewrite checked_fits by done. by rewrite replace_sep_id. Qed.

Lemma to_unix_drive M c s mixed size :
  islower c = true ->
  to_unix M ([toupper c; c_colon; win_sep mixed] ++ s) size
  = match snprintf_checked size
      (match s with [] => M ++ [c_slash; c] | _ => M ++ [c_slash; c; c_slash] ++ s end) with
    | None => None
    | Some o => Some (replace_sep c_bslash c_slash o)
    end.
Proof.
  intros Hc. pose proof (islower_range _ Hc) as Hr. unfold to_unix. cbn [app char_at nth].
  assert (toupper c = c - 32) as Hu by (unfold toupper; by rewrite Hc).
  replace (toupper c =? c_bslash) with false by (symmetry; apply Z.eqb_neq; lia).
  cbn [andb app char_at nth]. replace (toupper c =? c_bslash) with false by (symmetry; apply Z.eqb_neq; lia).
  cbn [andb]. unfold isalpha. rewrite toupper_isalpha by done. cbn [orb andb Z.eqb Pos.eqb].
  rewrite tolower_toupper by done. cbn [drop]. rewrite ?drop_0. cbn [char_at nth].
  assert ((win_sep mixed =? c_bslash) || (win_sep mixed =? c_slash) = true) as -> by (by destruct mixed).
  by destruct s as [|x s].
Qed.

Lemma to_unix_share M t mixed size :
  starts_with (str "?/") t = false -> no_bslash t ->
  to_unix M ([c_bslash; c_bslash] ++ replace_sep c_slash (win_sep mixed) t) size
  = match snprintf_checked size
      (M ++ [c_slash] ++ UNC_MOUNT_NAME ++ [c_slash] ++ replace_sep c_slash (win_sep mixed) t) with
    | None => None
    | Some o => Some (replace_sep c_bslash c_slash o)
    end.
Proof.
  intros Ht Hb. unfold to_unix.
  match goal with |- context [if ?b then drop 4 _ else _] => destruct b eqn:E end; [|done].
  exfalso. bool_to_prop. destruct t as [|q [|d t]]; [done| |].
  - by cbn in *.
  - cbn in *. apply Forall_cons in Hb as [Hq Hb]. apply Forall_cons in Hb as [Hd _].
    destruct (q =? 47) eqn:E1; bool_to_prop; [by destruct mixed|]. subst q.
    destruct (d =? 47) eqn:E2; bool_to_prop; [subst; done|done].
Qed.

Lemma automounted_shape M p :
  root_wf M -> automounted M p -> no_bslash p.
Proof.
  intros [_ HM] Hp.
  destruct Hp as [c Hc|c t Hc Ht _|t Ht _]; repeat apply no_bslash_app; try done;
    repeat constructor; try done; apply islower_range in Hc; lia.
Qed.

(** For every path under the automount root the translation to either
    Windows style succeeds when the buffer is larger than the path, and
    translating the result back yields the path: wslpath -w or -m followed by
    wslpath -u is the identity on drive roots, files of a drive and files of
    a network share. *)
Theorem translate_roundtrip pm cwd M p size mixed :
  root_wf M -> automounted M p -> Z.of_nat (length p) < size ->
  exists w, to_windows pm cwd M p size mixed = Some w /\ to_unix M w size = Some p.
Proof.
  intros HM Hp Hs. pose proof (automounted_shape M p HM Hp) as Hb.
  assert (1 <= length M)%nat as Hl by (destruct HM as [HM _]; destruct M; [done|simpl; lia]).
  destruct Hp as [c Hc|c t Hc Ht Hne|t Ht Hq]; autorewrite with len in Hs; cbn [length] in Hs.
  - eexists. rewrite to_windows_drive, checked_fits by (done || simpl; lia). split; [done|].
    change [toupper c; c_colon; win_sep mixed] with ([toupper c; c_colon; win_sep mixed] ++ []).
    rewrite to_unix_drive by done. apply finish_back; [|done]. autorewrite with len. simpl. lia.
  - eexists. rewrite to_windows_file, checked_fits by (done || autorewrite with len; simpl; lia).
    split; [done|]. rewrite to_unix_drive by done.
    destruct t as [|x t]; [done|]. cbn [replace_sep map].
    rewrite checked_fits by (autorewrite with len; simpl; rewrite ?replace_sep_length; autorewrite with len in *; simpl in Hs; lia).
    f_equal. rewrite !replace_sep_app. fold (replace_sep c_slash (win_sep mixed) (x :: t)).
    change ((if x =? c_slash then win_sep mixed else x) :: _)
      with (replace_sep c_slash (win_sep mixed) (x :: t)).
    rewrite replace_back by done. f_equal; [by apply replace_sep_id, HM|].
    f_equal. apply replace_sep_id. apply islower_range in Hc. repeat constructor; lia.
  - change (length UNC_MOUNT_NAME) with 3%nat in Hs.
    eexists. rewrite to_windows_share, checked_fits by (done || autorewrite with len; simpl; lia).
    split; [done|]. rewrite to_unix_share by done.
    rewrite checked_fits by (autorewrite with len; rewrite replace_sep_length;
      change (length UNC_MOUNT_NAME) with 3%nat; simpl; lia).
    f_equal. rewrite !replace_sep_app, replace_back by done.
    by rewrite (replace_sep_id _ _ M) by apply HM.
Qed.

Lemma translate_roundtrip_witness :
  exists w, to_windows 1024 None (str "/mnt") (str "/mnt/c/Users/foo") 2048 false = Some w
    /\ to_unix (str "/mnt") w 2048 = Some (str "/mnt/c/Users/foo").
Proof.
  apply (translate_roundtrip 1024 None (str "/mnt") (str "/mnt/c/Users/foo") 2048 false).
  - split; [reflexivity|]. repeat constructor; discriminate.
  - apply (am_file (str "/mnt") 99 (str "Users/foo")); [reflexivity| |discriminate].
    repeat constructor; discriminate.
  - reflexivity.
Defined.

Example to_windows_users :
  to_windows 1024 None (str "/mnt") (str "/mnt/c/Users/foo") 2048 false = Some (str "C:\Users\foo")
  /\ to_windows 1024 None (str "/mnt") (str "/mnt/wsl/srv/share/x") 2048 true = Some (str "\\srv/share/x")
  /\ to_unix (str "/mnt") (str "\\?\D:\a b") 2048 = Some (str "/mnt/d/a b").
Proof. vm_compute. auto. Qed.

(** * Buffers *)

(** A bounded result that does not depend on the buffer, as long as it fits. *)
Definition bounded_result (f : Z -> option bytes) : Prop :=
  (forall size, f size = None)
  \/ exists o, forall size, f size = if size <=? Z.of_nat (length o) then None else Some o.

Lemma bounded_map s (g : bytes -> bytes) :
  (forall o, length (g o) = length o) ->
  bounded_result (fun size => match snprintf_checked size s with
                              | None => None | Some o => Some (g o) end).
Proof.
  intros Hg. right. exists (g s). intros size. rewrite Hg. unfold snprintf_checked. by case_if.
Qed.

Lemma bounded_checked s : bounded_result (fun size => snprintf_checked size s).
Proof. right. by exists s. Qed.

Lemma replace_tail_length from to o :
  length (take 3 o ++ replace_sep from to (drop 3 o)) = length o.
Proof. rewrite length_app, replace_sep_length, <-length_app. by rewrite take_drop. Qed.

Lemma to_unix_bounded M s : bounded_result (to_unix M s).
Proof.
  unfold to_unix. match goal with |- context [if ?b then drop 4 s else s] =>
    generalize (if b then drop 4 s else s); intros input end.
  destruct (_ && _); [apply bounded_map, replace_sep_length|].
  destruct (_ && _); [|apply bounded_map, replace_sep_length].
  match goal with |- context [if ?b then drop 1 ?r else ?r] =>
    generalize (if b then drop 1 r else r); intros rest end.
  destruct rest; apply bounded_map, replace_sep_length.
Qed.

Lemma to_windows_bounded pm cwd M s mixed :
  bounded_result (fun size => to_windows pm cwd M s size mixed).
Proof.
  unfold to_windows. destruct (make_absolute pm cwd s) as [path|]; [|by left].
  destruct (_ && _); [|apply bounded_map, replace_sep_length].
  destruct (_ && _); [apply bounded_map, replace_sep_length|].
  destruct (_ && _); [|apply bounded_map, replace_sep_length].
  match goal with |- context [if ?b then drop 2 ?r else []] =>
    generalize (if b then drop 2 r else []); intros rest end.
  destruct rest; [apply bounded_checked|].
  apply bounded_map, replace_tail_length.
Qed.

(** The translations never cut a path short: a result is produced only
    when it fits its buffer with the terminator, and with any other buffer the
    outcome is that same result or, when it is too small, the error. *)
Theorem translations_never_truncate pm cwd M s mixed size o :
  (to_unix M s size = Some o ->
     Z.of_nat (length o) < size
     /\ forall size', to_unix M s size' = if size' <=? Z.of_nat (length o) then None else Some o)
  /\ (to_windows pm cwd M s size mixed = Some o ->
     Z.of_nat (length o) < size
     /\ forall size', to_windows pm cwd M s size' mixed
                      = if size' <=? Z.of_nat (length o) then None else Some o).
Proof.
  split; intros H.
  - destruct (to_unix_bounded M s) as [E|[o' E]]; [by rewrite E in H|]. rewrite E in H.
    revert H. case_if; intros H; [done|]. injection H as <-. split; [lia|exact E].
  - destruct (to_windows_bounded pm cwd M s mixed) as [E|[o' E]]; [by rewrite E in H|].
    rewrite E in H. revert H. case_if; intros H; [done|]. injection H as <-. split; [lia|exact E].
Qed.

Lemma translations_never_truncate_witness :
  Z.of_nat (length (str "/mnt/c/a")) < 9
  /\ forall size', to_unix (str "/mnt") (str "C:\a") size' = if size' <=? 8 then None else Some (str "/mnt/c/a").
Proof.
  apply (proj1 (translations_never_truncate 1024 None (str "/mnt") (str "C:\a") false 9 (str "/mnt/c/a"))).
  reflexivity.
Defined.

(** * The automount root *)
Lemma strip_slash_rev_shape r :
  r <> [] -> strip_slash_rev r <> [] /\
  (strip_slash_rev r = [c_slash] \/ head (strip_slash_rev r) <> Some c_slash).
Proof.
  induction r as [|c r IH]; intros H; [done|]. destruct r as [|d r].
  - cbn. split; [done|]. destruct (Z.eq_dec c c_slash); [left; congruence|right; congruence].
  - cbn [strip_slash_rev] in *. destruct (c =? c_slash) eqn:E; [by apply IH|].
    bool_to_prop. split; [done|right; cbn; congruence].
Qed.

Lemma strip_slash_rev_suffix r : strip_slash_rev r `suffix_of` r.
Proof.
  induction r as [|c r IH]; [done|]. destruct r as [|d r]; [done|].
  cbn [strip_slash_rev] in *. case_if; [by apply suffix_cons_r|done].
Qed.

Lemma root_line_inv size st line :
  2 <= size -> (snd st <> [] /\ Z.of_nat (length (snd st)) < size) ->
  snd (root_line size st line) <> [] /\ Z.of_nat (length (snd (root_line size st line))) < size.
Proof.
  intros Hs Hst. destruct st as [a buf]. unfold root_line.
  repeat match goal with
  | |- context [match ?x with _ => _ end] =>
      lazymatch x with context [match _ with _ => _ end] => fail | _ => destruct x eqn:? end
  end; try done; cbn [snd]; (split; [|apply snprintf_s_length; lia]);
  unfold snprintf_s; intros Hn; apply (f_equal length) in Hn; rewrite length_take in Hn; simpl in Hn; lia.
Qed.

(** Whatever wsl.conf holds, the automount root the tool works with is
    not empty, fits its buffer and has no trailing slash, except for the root
    directory itself. *)
Theorem automount_root_shape size file :
  5 <= size ->
  let r := read_automount_root size file in
  r <> [] /\ Z.of_nat (length r) < size /\ (r = [c_slash] \/ last r <> Some c_slash).
Proof.
  intros Hs. unfold read_automount_root. case_if; [lia|]. clear Heqb. cbv zeta.
  destruct file as [content|]; [|split; [done|split; [cbn; lia|by right]]].
  set (st := fold_left _ _ _).
  assert (snd st <> [] /\ Z.of_nat (length (snd st)) < size) as [Hne Hlen].
  { subst st. generalize (fgets_lines 512 content). intros ls.
    assert (snd (false, DEFAULT_MOUNT_ROOT) <> [] /\
            Z.of_nat (length (snd (false, DEFAULT_MOUNT_ROOT))) < size) as H by (split; [done|cbn; lia]).
    revert H. generalize (false, DEFAULT_MOUNT_ROOT).
    induction ls as [|l ls IH]; intros st H; cbn [fold_left]; [done|].
    apply IH, root_line_inv; [lia|done]. }
  unfold strip_trailing_slash.
  assert (rev (snd st) <> []) as Hr.
  { intros E. apply Hne. rewrite <-(rev_involutive (snd st)), E. done. }
  destruct (strip_slash_rev_shape _ Hr) as [H1 H2]. repeat split.
  - intros E. apply H1. by rewrite <-(rev_involutive (strip_slash_rev _)), E.
  - destruct (strip_slash_rev_suffix (rev (snd st))) as [k Hk].
    apply (f_equal length) in Hk. rewrite length_rev, length_app in Hk. rewrite length_rev. lia.
  - destruct H2 as [->|H2]; [by left|right].
    destruct (strip_slash_rev _) as [|x l]; [done|]. cbn [rev]. rewrite last_snoc. exact H2.
Qed.

Lemma automount_root_shape_witness :
  5 <= 1024 /\
  (let r := read_automount_root 1024 (Some (str "[automount]" ++ [c_nl] ++ str "root = /win//" ++ [c_nl])) in
   r <> [] /\ Z.of_nat (length r) < 1024 /\ (r = [c_slash] \/ last r <> Some c_slash)).
Proof. split; [lia|]. apply automount_root_shape. lia. Defined.

Example automount_root_example :
  read_automount_root 1024 (Some (str "[automount]" ++ [c_nl] ++ str "root = /win//" ++ [c_nl])) = str "/win".
Proof. reflexivity. Qed.

(** With the drives mounted at the root directory, as [root = /] asks, no path
    is recognised as a path of a drive. *)
Example root_directory_not_mapped :
  read_automount_root 1024 (Some (str "[automount]" ++ [c_nl] ++ str "root = /" ++ [c_nl])) = str "/"
  /\ to_windows 1024 None (str "/") (str "/c/foo") 2048 false = Some (str "\c\foo")
  /\ to_unix (str "/") (str "C:\foo") 2048 = Some (str "//c/foo").
Proof. vm_compute. auto. Qed.

(** Of two [root] lines wslpath takes the last one; the wsl.conf parser, the first. *)
Definition two_roots : bytes :=
  str "[automount]" ++ [c_nl] ++ str "root=/a/" ++ [c_nl] ++ str "root=/b/" ++ [c_nl].

Example duplicate_root_disagreement :
  read_automount_root 1024 (Some two_roots) = str "/b"
  /\ WslConf.WslConf.automount_root
       (fst (WslConf.WslConf.wsl_conf_parse_string WslConf.WslConf.wsl_conf_init true two_roots))
     = Some (str "/a/").
Proof. vm_compute. auto. Qed.

End WslPathThm.

Import Wire WireThm WslInfo.

Module WslInfoThm.

(** * GUIDs *)
Definition is_hex (c : Z) : Prop := 48 <= c <= 57 \/ 97 <= c <= 102.
(** 8-4-4-4-12 digits in lower case. *)
Definition is_guid (g : bytes) : Prop := exists a b c d e,
  g = a ++ [c_dash] ++ b ++ [c_dash] ++ c ++ [c_dash] ++ d ++ [c_dash] ++ e /\
  length a = 8%nat /\ length b = 4%nat /\ length c = 4%nat /\ length d = 4%nat /\ length e = 12%nat /\
  Forall is_hex (a ++ b ++ c ++ d ++ e).

Lemma collect_hex_hex n s : Forall is_hex (collect_hex n s).
Proof.
  revert n; induction s as [|c s IH]; intros [|n]; cbn [collect_hex]; try constructor.
  destruct (isxdigit c) eqn:E; [constructor; [|apply IH]|apply IH].
  unfold isxdigit, is_hex, tolower, isdigit, isupper in *.
  destruct (Z.leb_spec 65 c), (Z.leb_spec c 90), (Z.leb_spec 48 c), (Z.leb_spec c 57), (Z.leb_spec c 70), (Z.leb_spec 97 c), (Z.leb_spec c 102);
    cbn in E |- *; try discriminate; lia.
Qed.
Lemma collect_hex_length n s : (length (collect_hex n s) <= n)%nat.
Proof.
  revert n; induction s as [|c s IH]; intros [|n]; cbn [collect_hex length]; try lia.
  destruct (isxdigit c); cbn [length]; [specialize (IH n); lia|apply (IH (S n))].
Qed.

(** The 32 digits of a formatted identifier. *)
Definition digits (s : bytes) : bytes := let h := collect_hex 32 s in h ++ replicate (32 - length h) 48.
Lemma digits_length s : length (digits s) = 32%nat.
Proof. unfold digits. cbv zeta. pose proof (collect_hex_length 32 s). autorewrite with len. lia. Qed.
Lemma digits_hex s : Forall is_hex (digits s).
Proof.
  unfold digits. cbv zeta. apply Forall_app_2; [apply collect_hex_hex|]. apply Forall_replicate. left. lia.
Qed.

Lemma pieces (l : bytes) : length l = 32%nat ->
  take 8 l ++ take 4 (drop 8 l) ++ take 4 (drop 12 l) ++ take 4 (drop 16 l) ++ take 12 (drop 20 l) = l.
Proof. intros H. rewrite (app_assoc (take 8 l)), take_take_drop, (app_assoc (take _ l)), take_take_drop, (app_assoc (take _ l)),
  take_take_drop, take_take_drop. by rewrite take_ge by lia. Qed.
Lemma format_guid_is_guid s n : 37 <= n -> is_guid (format_guid s n).
Proof.
  intros Hn. unfold format_guid. rewrite (proj2 (Z.ltb_ge _ _)) by done. cbv zeta. fold (digits s).
  pose proof (digits_length s) as Hl. pose proof (digits_hex s) as Hh. rewrite snprintf_s_fits.
  2:{ autorewrite with len. cbn [length]. rewrite Hl. lia. }
  do 5 eexists. split; [reflexivity|]. rewrite !length_take, !length_drop, Hl. do 5 (split; [reflexivity|]).
  rewrite drop_0. enough (take 8 (digits s) ++ take 4 (drop 8 (digits s)) ++ take 4 (drop 12 (digits s)) ++ take 4 (drop 16 (digits s)) ++
          take 12 (drop 20 (digits s)) = digits s) as -> by done.
  by apply pieces.
Qed.

(** Text that is a GUID, in any case. *)
Definition guid_text (g : bytes) : Prop := exists a b c d e,
  g = a ++ [c_dash] ++ b ++ [c_dash] ++ c ++ [c_dash] ++ d ++ [c_dash] ++ e /\
  length a = 8%nat /\ length b = 4%nat /\ length c = 4%nat /\ length d = 4%nat /\ length e = 12%nat /\
  Forall (fun x => isxdigit x = true) (a ++ b ++ c ++ d ++ e).

Lemma collect_hex_app n h rest : Forall (fun x => isxdigit x = true) h -> (length h <= n)%nat ->
  collect_hex n (h ++ rest) = map tolower h ++ collect_hex (n - length h) rest.
Proof.
  intros Hh. revert n; induction Hh as [|x h Hx _ IH]; intros n Hn; [by rewrite Nat.sub_0_r|].
  destruct n as [|n]; [cbn in Hn; lia|]. cbn [app collect_hex length map]. rewrite Hx, IH by (cbn in Hn; lia). done.
Qed.
Lemma collect_hex_dash n rest : collect_hex n (c_dash :: rest) = collect_hex n rest.
Proof. destruct n; [by destruct rest|done]. Qed.

Lemma format_guid_text g n : guid_text g -> 37 <= n -> format_guid g n = map tolower g.
Proof.
  intros (a & b & c & d & e & -> & Ha & Hb & Hc & Hd & He & H) Hn. rewrite !Forall_app in H. destruct H as (H1 & H2 & H3 & H4 & H5).
  unfold format_guid. rewrite (proj2 (Z.ltb_ge _ _)) by done.
  assert (collect_hex 32 (a ++ [c_dash] ++ b ++ [c_dash] ++ c ++ [c_dash] ++ d ++ [c_dash] ++ e) = map tolower (a ++ b ++ c ++ d ++ e)) as ->.
  { do 4 (rewrite collect_hex_app by (done || lia); cbn [app]; rewrite collect_hex_dash).
    rewrite <-(app_nil_r e) at 1. rewrite collect_hex_app by (done || lia). rewrite !map_app. do 4 f_equal. destruct (_ - _)%nat; apply app_nil_r. }
  cbv zeta. set (A := map tolower a). set (B := map tolower b). set (C := map tolower c). set (D := map tolower d). set (E := map tolower e).
  assert (length A = 8 /\ length B = 4 /\ length C = 4 /\ length D = 4 /\ length E = 12)%nat as (LA & LB & LC & LD & LE)
    by (unfold A, B, C, D, E; rewrite !length_map; auto).
  rewrite !map_app. fold A B C D E. rewrite !length_app, LA, LB, LC, LD, LE. cbn [replicate Nat.sub Nat.add]. rewrite app_nil_r.
  rewrite snprintf_s_fits by (autorewrite with len; cbn [length]; rewrite ?LA, ?LB, ?LC, ?LD, ?LE; lia).
  rewrite drop_0. rewrite (take_app_length' A) by done.
  rewrite (drop_app_length' A) by done. rewrite (take_app_length' B) by done.
  rewrite (app_assoc A B), (drop_app_length' (A ++ B)) by (rewrite length_app; lia). rewrite (take_app_length' C) by done.
  rewrite (app_assoc (A ++ B) C), (drop_app_length' ((A ++ B) ++ C)) by (rewrite !length_app; lia). rewrite (take_app_length' D) by done.
  rewrite (app_assoc ((A ++ B) ++ C) D), (drop_app_length' (((A ++ B) ++ C) ++ D)) by (rewrite !length_app; lia).
  rewrite (take_ge E) by lia. done.
Qed.

Lemma guid_text_bytes g : guid_text g -> length g = 36%nat /\ no_nul g /\ exists l x, g = l ++ [x] /\ Interop.is_id_blank x = false.
Proof.
  intros (a & b & c & d & e & -> & Ha & Hb & Hc & Hd & He & H).
  assert (forall l, Forall (fun x => isxdigit x = true) l -> Forall (fun x => x <> 0 /\ Interop.is_id_blank x = false) l) as Hx.
  { intros l Hl. eapply Forall_impl; [exact Hl|]. intros x. cbn beta. intros Hd'. unfold isxdigit, isdigit, Interop.is_id_blank in *.
    split; [by intros ->|]. repeat rewrite (proj2 (Z.eqb_neq x _)); try done; intros ->; discriminate. }
  specialize (Hx _ H). rewrite !Forall_app in Hx. destruct Hx as (H1 & H2 & H3 & H4 & H5).
  assert (forall l, Forall (fun x => x <> 0 /\ Interop.is_id_blank x = false) l -> no_nul l) as Hn.
  { intros l Hl. eapply Forall_impl; [exact Hl|]. by intros x []. }
  split; [autorewrite with len; cbn [length]; lia|]. split.
  - unfold no_nul in *. rewrite !Forall_app. repeat split; try (by apply Hn); by repeat constructor.
  - destruct (exists_last (l := e)) as (l & x & ->); [by intros ->|].
    rewrite Forall_app in H5. destruct H5 as [_ H5]. apply Forall_inv in H5 as [_ H5].
    exists (a ++ [c_dash] ++ b ++ [c_dash] ++ c ++ [c_dash] ++ d ++ [c_dash] ++ l), x. split; [|done]. by rewrite <-!app_assoc.
Qed.

Lemma first_id_text size skipped g blanks rest :
  Forall (fun f => f = None) skipped -> guid_text g -> Forall (fun b => Interop.is_id_blank b = true) blanks ->
  Z.of_nat (length (g ++ blanks)) < size ->
  Interop.first_id size (skipped ++ Some (g ++ blanks) :: rest) = Some g.
Proof.
  intros Hs Hg Hb Hl. destruct (guid_text_bytes g Hg) as (Hlg & _ & l & x & -> & Hx).
  induction Hs as [|f skipped -> _ IH]; [|exact IH]. cbn [app Interop.first_id]. rewrite take_ge by lia.
  destruct ((l ++ [x]) ++ blanks) as [|z s] eqn:E; [by destruct l|]. rewrite <-E.
  rewrite rev_app_distr, drop_while_app by (by apply Forall_rev). rewrite rev_app_distr. cbn [rev app]. rewrite drop_while_head by done.
  cbn [rev]. rewrite rev_involutive. by destruct l.
Qed.

(** The identifier: whatever the identifier files hold, --vm-id prints a GUID in
    lower case and status 0; and when the first file that can be opened holds the
    text of a GUID, in any case and with blanks behind it, the GUID is that one, the
    same that the interop server answers with, up to case. *)
Theorem vm_id_printed (files : list (option bytes)) (name : option bytes) (q : query_env) (argv0 : bytes) :
  (exists g, is_guid g /\ main files name q [argv0; str "--vm-id"] = Ran (g ++ [c_nl]) 0) /\
  (forall skipped g blanks rest,
     files = skipped ++ Some (g ++ blanks) :: rest -> Forall (fun f => f = None) skipped -> guid_text g ->
     Forall (fun b => Interop.is_id_blank b = true) blanks -> Z.of_nat (length blanks) < 28 ->
     main files name q [argv0; str "--vm-id"] = Ran (map tolower g ++ [c_nl]) 0 /\
     Interop.interop_get_vm_id_string 64 files = Some g).
Proof.
  assert (main files name q [argv0; str "--vm-id"] = Ran (get_vm_id 128 files ++ [c_nl]) 0) as -> by reflexivity.
  split; [exists (get_vm_id 128 files); split; [by apply format_guid_is_guid|done]|].
  intros skipped g blanks rest -> Hs Hg Hb Hl. destruct (guid_text_bytes g Hg) as (Hlg & Hn & _).
  unfold get_vm_id, Interop.interop_get_vm_id_string. rewrite !first_id_text by (done || (rewrite length_app; lia)).
  split; [|done]. by rewrite to_cstr_all, format_guid_text.
Qed.
Definition no_query : query_env := mk_query_env (fun _ => false) None 1 true true [] [] [].
Lemma vm_id_printed_witness :
  let g := str "0A1B2C3D-0000-1111-2222-AABBCCDDEEFF" in
  main [None; Some (g ++ [c_nl])] None no_query [str "wslinfo"; str "--vm-id"] = Ran (str "0a1b2c3d-0000-1111-2222-aabbccddeeff" ++ [c_nl]) 0.
Proof.
  intros g. destruct (vm_id_printed [None; Some (g ++ [c_nl])] None no_query (str "wslinfo")) as [_ H].
  destruct (H [None] g [c_nl] []) as [E _]; [reflexivity|by repeat constructor| |by repeat constructor|cbn; lia|exact E].
  exists (str "0A1B2C3D"), (str "0000"), (str "1111"), (str "2222"), (str "AABBCCDDEEFF"). repeat split; try reflexivity.
  apply (bool_decide_unpack _). vm_compute. exact I.
Defined.

(** * The networking mode *)

(** A query that reaches a peer: the socket is found and connected, and the calls on
    it move data. *)
Definition reaches (q : query_env) : Prop :=
  is_Some (find_interop_socket (q_exists q) (q_interop q) SOCK_PATH_MAX (q_ppid q)) /\ q_socket q = true /\ q_connect q = true /\
  Forall (working retry_intr) (q_send q) /\ (12 <= progress (q_send q))%nat /\
  Forall (working retry_never) (q_recv q) /\ (16 <= progress (q_recv q))%nat.

Lemma query_length : length query = 12%nat.
Proof. apply header_bytes_length. Qed.

(** A result of one of the two types is taken, whatever follows it. *)
Lemma query_result q ty v rest : reaches q -> ty = LxMessageResultUint32 \/ ty = LxMessageResultUint8 -> 0 <= v < 2 ^ 32 ->
  q_stream q = Interop.result_message ty 1 v ++ rest -> query_networking_mode q = Mode v.
Proof.
  intros ([p Hp] & Hso & Hc & Hs & Hps & Hr & Hpr) Hty Hv Hst. unfold query_networking_mode. rewrite Hp, Hso, Hc. cbn [negb].
  destruct (send_loop_complete retry_intr (q_send q) query [] Hs ltac:(rewrite query_length; lia)) as (evs & -> & _). cbn [x_rc Z.eqb negb].
  assert (length (Interop.result_message ty 1 v) = 16%nat) as Hl
    by (unfold Interop.result_message; rewrite length_app, header_bytes_length, le_bytes_length; done).
  destruct (recv_loop_complete retry_never (q_recv q) (q_stream q) 16 [] Hr Hpr ltac:(rewrite Hst, length_app, Hl; lia)) as (evs' & -> & _).
  cbn [x_rc x_data Z.eqb negb app]. rewrite Hst, take_app_length' by done. unfold Interop.result_message.
  assert (0 <= ty < 2 ^ 32) by (unfold LxMessageResultUint32, LxMessageResultUint8 in Hty; lia).
  rewrite read_header_bytes by lia. cbn [MessageType].
  assert (negb (ty =? LxMessageResultUint32) && negb (ty =? LxMessageResultUint8) = false) as -> by (by destruct Hty as [-> | ->]).
  f_equal. unfold header_bytes. rewrite <-!app_assoc. by read_field.
Qed.

(** The local socket's server answers every query alike, so that the tool prints NAT
    when it reaches that server, and when it does not. *)
Theorem mode_of_local_server_is_nat (q : query_env) control_open evs :
  q_stream q = default [] (LocalInterop.r_reply (LocalInterop.wsl_interop_relay_message control_open evs query)) ->
  forall files name argv0, main files name q [argv0; str "--networking-mode"] = Ran (str "NAT" ++ [c_nl]) 0 \/
    main files name q [argv0; str "--networking-mode"] = Waits.
Proof.
  intros Hst files name argv0. assert (q_stream q = Interop.result_message 78 1 0) as E by (rewrite Hst; by destruct control_open).
  assert (query_networking_mode q = Mode 0 \/ query_networking_mode q = Query_failed \/ query_networking_mode q = Query_waits) as H.
  { unfold query_networking_mode. destruct (find_interop_socket _ _ _ _); [|by auto]. repeat (case_match; [by auto|]).
    destruct (x_rc (send_loop _ _ _ _)); [|by auto]. case_match; [by auto|]. destruct (recv_loop _ _ _ _ _) as [x rest] eqn:Ex.
    pose proof (recv_loop_exact retry_never (q_recv q) (q_stream q) 16) as (_ & Hd & _). rewrite Ex in Hd. cbn [fst] in Hd.
    destruct (x_rc x) as [rc|]; [|by auto]. destruct (Z.eqb_spec rc 0) as [->|]; [|by auto]. destruct (Hd eq_refl) as [-> _].
    rewrite E. left. reflexivity. }
  unfold main. cbn [tl parse_options]. destruct H as [H|[H|H]]; rewrite H; auto.
Qed.
(** The interop server of the other channel answers with its mode in one byte. *)
Example mode_of_interop_server :
  let q := mk_query_env (fun p => list_eqb p (str "/run/WSL/9_interop")) None 9 true true [Progress 11] (replicate 16 (Progress 3))
             (Interop.interop_send_uint8 1 1) in
  main [] None q [str "wslinfo"; str "--networking-mode"; str "-n"] = Ran (str "Mirrored") 0.
Proof. vm_compute. reflexivity. Qed.

(** * Options *)

(** Options are read one after the other, so the last query wins, and --help ends
    the reading. *)
Lemma parse_options_app a b m n : parse_options (a ++ b) m n =
  match parse_options a m n with inl st => inl st | inr (m', n') => parse_options b m' n' end.
Proof. revert m n; induction a as [|x a IH]; intros m n; [done|]. cbn [app parse_options]. repeat (destruct (strcmp_eq _ _); [done || apply IH|]). done. Qed.
(** --diag is taken as an option but has no result. *)
Example diag_is_invalid : main [] None no_query [str "wslinfo"; str "--diag"] = Ran [] 1.
Proof. reflexivity. Qed.

End WslInfoThm.
