(* ===== verification/Drvfs.v ===== *)
(** DrvFs mounts (src/FreeBSD/drvfs_mount.h): the 9p option string, mkdir -p,
    the mount of one volume, the walk over the drive bitmap and the
    mount.drvfs command. *)
From S2P Require Import Prelude CStr CNum SysOps.

Module Drvfs.

Definition PLAN9_FS_TYPE : bytes := str "p9fs".
Definition PLAN9_ANAME_DRVFS : bytes := str "aname=drvfs".
Definition LX_INIT_UTILITY_VM_PLAN9_BUFFER_SIZE : Z := 65536.
Definition DRVFS_FEATURE_VIRTIO_9P : Z := 1.

(** * Options *)

(** The transport part. *)
Definition transport_options (feature_flags elevated : Z) : bytes :=
  if negb (Z.land feature_flags DRVFS_FEATURE_VIRTIO_9P =? 0) then
    str "msize=262144,trans=virtio," ++ (if elevated =? 0 then str "drvfs" else str "drvfsa")
    ++ str ",cache=mmap,"
  else str "msize=" ++ dec LX_INIT_UTILITY_VM_PLAN9_BUFFER_SIZE ++ str ",trans=fd,cache=mmap,".

Definition comma_to_semi (c : Z) : Z := if c =? c_comma then c_semi else c.

(** The appending copy loop: while [cur < bufsize - 2]. *)
Fixpoint append_options (limit : Z) (buf opts : bytes) : bytes :=
  match opts with
  | [] => buf
  | c :: opts' =>
    if Z.of_nat (length buf) <? limit then append_options limit (buf ++ [comma_to_semi c]) opts' else buf
  end.

(** [snprintf(buf + cur, bufsize - cur, ...)]. *)
Definition append (bufsize : Z) (buf s : bytes) : bytes :=
  buf ++ snprintf_s (bufsize - Z.of_nat (length buf)) s.
Definition fits (bufsize : Z) (buf s : bytes) : bool :=
  Z.of_nat (length s) <? bufsize - Z.of_nat (length buf).

(** [drvfs_opts] is [None] for NULL; [None] is the return value -1. *)
Definition drvfs_build_options (bufsize : Z) (source std_options : bytes) (drvfs_opts : option bytes)
    (feature_flags elevated : Z) : option bytes :=
  if bufsize =? 0 then None
  else
    let buf := snprintf_s bufsize (transport_options feature_flags elevated) in
    let buf := match std_options with [] => buf | o => append bufsize buf (o ++ [c_comma]) end in
    let aname := PLAN9_ANAME_DRVFS ++ str ";path=" ++ source in
    if negb (fits bufsize buf aname) then None
    else
      let buf := append bufsize buf aname in
      match drvfs_opts with
      | None | Some [] => Some buf
      | Some opts =>
        if negb (fits bufsize buf [c_semi]) then None
        else Some (append_options (bufsize - 2) (append bufsize buf [c_semi]) opts)
      end.

(** * One volume *)
Section Mount.
Context (path_exists : bytes -> bool) (mkdir_ok mount_ok : bytes -> bool).

(** The component loop: [done] is the path up to [p], reversed. *)
Fixpoint mkdir_components (done rest : bytes) : list sysop * bool :=
  match rest with
  | [] =>
    let path := rev done in ([Mkdir path], mkdir_ok path)
  | c :: rest' =>
    if c =? c_slash then
      let path := rev done in
      if mkdir_ok path then
        let '(ops, r) := mkdir_components (c :: done) rest' in (Mkdir path :: ops, r)
      else ([Mkdir path], false)
    else mkdir_components (c :: done) rest'
  end.

(** [mkdir_ok] is also true when the directory exists.  (On an empty path the
    source scans past the terminator; only the final mkdir is kept here.) *)
Definition drvfs_mkdir_p (path : bytes) : list sysop * Z :=
  if 512 <=? Z.of_nat (length path) then ([], -1)
  else
    let tmp :=
      match rev path with
      | c :: r' => if (c =? c_slash) && (1 <? Z.of_nat (length path)) then rev r' else path
      | [] => path
      end in
    match tmp with
    | [] => ([Mkdir []], if mkdir_ok [] then 0 else -1)
    | c :: rest =>
      let '(ops, r) := mkdir_components [c] rest in (ops, if r : bool then 0 else -1)
    end.

Definition drvfs_mount_single (source target std_options : bytes) (drvfs_opts : option bytes)
    (feature_flags elevated : Z) : list sysop * Z :=
  let '(ops, rc) := if path_exists target then ([], 0) else drvfs_mkdir_p target in
  if rc <? 0 then (ops, -1)
  else
    match drvfs_build_options 1024 source std_options drvfs_opts feature_flags elevated with
    | None => (ops, -1)
    | Some options =>
      if mount_ok target then (ops ++ [Mount PLAN9_FS_TYPE target], 0)
      else (ops ++ [Mount PLAN9_FS_TYPE target], -1)
    end.

(** * The bitmap *)

(** [__builtin_ffs] - 1: the lowest set bit at or above [i], within [n] bits. *)
Fixpoint lowest_bit (n : nat) (i : Z) (x : Z) : option Z :=
  match n with
  | O => None
  | S n' => if Z.testbit x i then Some i else lowest_bit n' (i + 1) x
  end.
Definition ffs_index (x : Z) : option Z := lowest_bit 32 0 x.

Fixpoint strip_slashes_rev (r : bytes) : bytes :=
  match r with
  | c :: ((_ :: _) as r') => if c =? c_slash then strip_slashes_rev r' else r
  | _ => r
  end.

Definition volume_source (index : Z) : bytes := [65 + index; c_colon; c_bslash].
Definition volume_target (prefix : bytes) (index : Z) : bytes :=
  snprintf_s 256 (rev (strip_slashes_rev (rev prefix)) ++ [c_slash; 97 + index]).

(** The loop over the set bits; at most 32 turns. *)
Fixpoint mount_loop (fuel : nat) (remaining : Z) (prefix std_options : bytes) (drvfs_opts : option bytes)
    (feature_flags elevated : Z) : list (Z * (list sysop * Z)) :=
  match fuel with
  | O => []
  | S fuel' =>
    if remaining =? 0 then []
    else
      match ffs_index remaining with
      | None => []
      | Some index =>
        let remaining := Z.lxor remaining (Z.shiftl 1 index) in
        (index, drvfs_mount_single (volume_source index) (volume_target prefix index) std_options
                  drvfs_opts feature_flags elevated)
        :: mount_loop fuel' remaining prefix std_options drvfs_opts feature_flags elevated
      end
  end.

(** The number of mounted volumes, with what was done for each drive. *)
Definition drvfs_mount_volumes (bitmap owner_uid owner_gid elevated : Z) (prefix : option bytes)
    (drvfs_opts : option bytes) (feature_flags : Z) : list (Z * (list sysop * Z)) * Z :=
  if bitmap =? 0 then ([], 0)
  else
    let prefix := match prefix with None | Some [] => str "/mnt" | Some p => p end in
    let std_options :=
      snprintf_s 256 (str "noatime,uid=" ++ dec owner_uid ++ str ",gid=" ++ dec owner_gid) in
    let results := mount_loop 32 bitmap prefix std_options drvfs_opts feature_flags elevated in
    (results, Z.of_nat (length (List.filter (fun r => snd (snd r) =? 0) results))).

(** * mount.drvfs *)

(** The value after "-o", searched from the fourth argument on. *)
Fixpoint find_o (args : list bytes) : option bytes :=
  match args with
  | a :: ((v :: _) as args') => if strcmp_eq a (str "-o") then Some v else find_o args'
  | _ => None
  end.

(** [args] without argv[0]; [elevated_env]: WSL_DRVFS_ELEVATED is set. *)
Definition drvfs_mount_entry (args : list bytes) (elevated_env : bool) : list sysop * Z :=
  match args with
  | source :: target :: rest =>
    let options := find_o rest in
    let '(ops, rc) := drvfs_mount_single source target [] options 0 (if elevated_env then 1 else 0) in
    (ops, if rc =? 0 then 0 else 1)
  | _ => ([], 1)
  end.
End Mount.

End Drvfs.
