(* ===== verification/SystemThm.v ===== *)
(** Theorems on the configuration of the system: host names, the hosts file and
    time zones (SystemThm), and the mounts of Windows volumes (DrvfsThm). *)
From S2P Require Import Prelude CStr CNum SysOps NetworkConfig Timezone Drvfs.

Import NetworkConfig Timezone Drvfs.

Module SystemThm.

(** * Host names *)
Definition dots (h : bytes) : nat := length (List.filter (fun c => c =? c_dot) h).
Definition head_ok (h : bytes) : Prop := match h with c :: _ => is_edge c = false | [] => True end.
Definition valid_hostname (h : bytes) : Prop :=
  h <> [] /\ (length h <= 64)%nat /\ Forall (fun c => hostname_char c = true) h /\ (dots h <= 1)%nat
  /\ head_ok h /\ head_ok (rev h).

Lemma clean_loop_spec room (empty saw : bool) src :
  let h := clean_loop room empty saw src in
  (length h <= room)%nat /\ Forall (fun c => hostname_char c = true) h
  /\ (dots h <= if saw then 0 else 1)%nat /\ (empty = true -> head_ok h).
Proof.
  revert room empty saw; induction src as [|c src IH]; intros room empty saw; cbn [clean_loop].
  { repeat split; [cbn; lia|constructor|cbn; lia]. }
  destruct room as [|room]; [repeat split; [cbn; lia|constructor|cbn; lia]|].
  destruct (hostname_char c) eqn:Hc; [|apply (IH (S room))].
  destruct ((c =? c_dot) && saw) eqn:E1; [apply (IH (S room))|].
  destruct (empty && ((c =? c_dash) || (c =? c_dot))) eqn:E2.
  - destruct (IH (S room) empty (saw || (c =? c_dot))) as (H1 & H2 & H3 & H4).
    split; [done|]. split; [done|]. split; [|done]. destruct saw, (c =? c_dot); cbn [orb] in *; lia.
  - destruct (IH room false (saw || (c =? c_dot))) as (H1 & H2 & H3 & _).
    split; [cbn; lia|]. split; [by constructor|]. split.
    + unfold dots in *. cbn [List.filter].
      destruct saw, (c =? c_dot); cbn [andb orb length] in *; try done; lia.
    + intros ->. cbn [andb] in E2. exact E2.
Qed.

Lemma drop_edges_spec h : head_ok (drop_while is_edge h).
Proof. destruct (drop_while is_edge h) as [|c t] eqn:E; [done|]. by apply drop_while_stop in E. Qed.

Lemma dots_suffix_le a b : (dots b <= dots (a ++ b))%nat.
Proof. unfold dots. rewrite List.filter_app, length_app. lia. Qed.

Lemma dots_rev h : dots (rev h) = dots h.
Proof.
  unfold dots. induction h as [|c h IH]; [done|]. cbn [rev List.filter].
  rewrite List.filter_app, length_app, IH. cbn [List.filter]. destruct (c =? c_dot); cbn [length]; lia.
Qed.

(** Cutting the trailing hyphens and dots. *)
Lemma strip_edges_valid h :
  (length h <= 64)%nat -> Forall (fun c => hostname_char c = true) h -> (dots h <= 1)%nat -> head_ok h ->
  let s := rev (drop_while is_edge (rev h)) in s = [] \/ valid_hostname s.
Proof.
  intros Hl Hc Hd Hh s.
  assert (h = s ++ rev (take_while is_edge (rev h))) as Hs.
  { subst s. rewrite <-rev_app_distr, take_drop_while. by rewrite rev_involutive. }
  destruct s as [|c t] eqn:E; [by left|right].
  rewrite Hs in Hl, Hc, Hd, Hh. rewrite length_app in Hl. apply Forall_app in Hc as [Hc _].
  split; [done|]. split; [lia|]. split; [done|]. split.
  - rewrite <-dots_rev in Hd |- *. rewrite rev_app_distr in Hd.
    pose proof (dots_suffix_le (rev (rev (take_while is_edge (rev h)))) (rev (c :: t))). lia.
  - split; [exact Hh|]. rewrite <-E. subst s. rewrite rev_involutive. apply drop_edges_spec.
Qed.

Lemma clean_hostname_result src h : network_clean_hostname 65 src = Some h -> valid_hostname h.
Proof.
  assert (valid_hostname NETC_DEFAULT_HOSTNAME) as Hdef.
  { repeat split; try done; vm_compute; first [lia | repeat constructor]. }
  unfold network_clean_hostname. cbn [Z.eqb].
  change (snprintf_s 65 NETC_DEFAULT_HOSTNAME) with NETC_DEFAULT_HOSTNAME.
  destruct src as [[|c s]|]; [by intros [= <-]| |by intros [= <-]].
  destruct (clean_loop_spec (Z.to_nat (65 - 1)) true false (c :: s)) as (H1 & H2 & H3 & H4).
  destruct (strip_edges_valid _ H1 H2 H3 (H4 eq_refl)) as [H5|H5].
  - rewrite H5. by intros [= <-].
  - destruct (rev (drop_while is_edge _)) as [|x n] eqn:E; [by intros [= <-]|].
    destruct H5 as (Hne & Hlen & H5). intros H. assert (h = x :: n) as ->.
    { rewrite take_ge in H by done. congruence. }
    by split.
Qed.

Lemma clean_loop_id room (empty saw : bool) h :
  (length h <= room)%nat -> Forall (fun c => hostname_char c = true) h ->
  (dots h <= if saw then 0 else 1)%nat -> (empty = true -> head_ok h) ->
  clean_loop room empty saw h = h.
Proof.
  revert room empty saw; induction h as [|c h IH]; intros room empty saw Hl Hc Hd Hh; [done|].
  apply Forall_cons in Hc as [Hc0 Hc]. destruct room as [|room]; [cbn in Hl; lia|].
  cbn [clean_loop]. rewrite Hc0. unfold dots in Hd. cbn [List.filter] in Hd.
  assert (empty && ((c =? c_dash) || (c =? c_dot)) = false) as He.
  { destruct empty; [|done]. exact (Hh eq_refl). }
  destruct (c =? c_dot) eqn:E; cbn [andb orb length] in *.
  - destruct saw; [lia|]. cbn [andb orb]. rewrite He. f_equal. apply IH; [lia|done| |done].
    cbn. unfold dots. lia.
  - rewrite He, orb_false_r. f_equal. by apply IH; [lia| | |].
Qed.

(** The cleaned host name is always valid (1 to 64 letters, digits,
    hyphens and at most one dot, no hyphen or dot at either end), whatever the
    source, and a name that is valid is left as it is; so cleaning twice is
    cleaning once. *)
Theorem clean_hostname_valid_and_stable src :
  (exists h, network_clean_hostname 65 src = Some h /\ valid_hostname h)
  /\ forall h, valid_hostname h -> network_clean_hostname 65 (Some h) = Some h.
Proof.
  split.
  - destruct (network_clean_hostname 65 src) as [h|] eqn:E.
    + exists h. split; [done|]. by eapply clean_hostname_result.
    + exfalso. revert E. unfold network_clean_hostname. cbn [Z.eqb].
      destruct src as [[|c s]|]; [done| |done]. by destruct (rev (drop_while is_edge _)).
  - intros h (Hne & Hl & Hc & Hd & Hh & Hr). unfold network_clean_hostname. cbn [Z.eqb].
    destruct h as [|c s]; [done|].
    rewrite clean_loop_id by (done || (cbn [length] in *; lia)).
    assert (drop_while is_edge (rev (c :: s)) = rev (c :: s)) as ->.
    { destruct (rev (c :: s)) as [|x t]; [done|]. by apply drop_while_head. }
    rewrite rev_involutive, take_ge by done. done.
Qed.

Lemma clean_hostname_valid_and_stable_witness :
  valid_hostname (str "bsd-box.lan")
  /\ network_clean_hostname 65 (Some (str "bsd-box.lan")) = Some (str "bsd-box.lan").
Proof.
  assert (valid_hostname (str "bsd-box.lan")) as Hv
    by (repeat split; try done; vm_compute; first [lia | repeat constructor]).
  split; [done|]. exact (proj2 (clean_hostname_valid_and_stable None) _ Hv).
Defined.

Example clean_hostname_example :
  network_clean_hostname 65 (Some (str "-My_Host.lan.corp-")) = Some (str "MyHost.lancorp")
  /\ network_clean_hostname 65 (Some (str "-._.-")) = Some (str "localhost").
Proof. vm_compute. auto. Qed.

(** The dot that is skipped at the start still counts as the only one allowed. *)
Example leading_dot_uses_up_the_dot : network_clean_hostname 65 (Some (str ".a.b")) = Some (str "ab").
Proof. vm_compute. reflexivity. Qed.

(** When the kernel refuses the name the fallback is set, but /etc/hostname
    and NAME get the refused name. *)
Example hostname_fallback_disagrees :
  let ok op := match op with Sethostname n => list_eqb n (str "localhost") | _ => true end in
  network_apply_hostname ok (Some (str "box")) None
  = ([Sethostname (str "box"); Sethostname (str "localhost"); Setenv (str "NAME") (str "box");
      Write_file (str "/etc/hostname") (str "box" ++ [c_nl])], 0).
Proof. vm_compute. reflexivity. Qed.

(** * Timezone *)

(** A TimezoneInformation message with the name at offset [length pre]. *)
Definition tz_message (header pre tz post : bytes) : bytes :=
  header ++ le_bytes 4 (Z.of_nat (length pre)) ++ pre ++ tz ++ 0 :: post.

(** A message that carries a terminated timezone name at its offset
    applies that name: with updates enabled and the zone installed, the link,
    /etc/timezone and TZ all name it; the old link is only removed when the
    new target exists and fits, and with updates disabled nothing changes. *)
Theorem timezone_message_applies ok file_exists header pre tz post auto_update :
  length header = 12%nat -> no_nul tz -> tz <> [] ->
  Z.of_nat (length pre) < 2 ^ 32 ->
  exists ops rc,
    timezone_handle_message ok file_exists (Some (tz_message header pre tz post)) auto_update = Done ops rc
    /\ (auto_update = 0 -> ops = [] /\ rc = 0)
    /\ (rc = 0 -> auto_update <> 0 -> ops =
          [Unlink TZ_LOCALTIME_FILE; Symlink (TZ_ZONEINFO_BASE ++ tz) TZ_LOCALTIME_FILE;
           Write_file TZ_SETTING_FILE (tz ++ [c_nl]); Setenv (str "TZ") tz])
    /\ (ops <> [] -> file_exists (TZ_ZONEINFO_BASE ++ tz) = true
          /\ Z.of_nat (length (TZ_ZONEINFO_BASE ++ tz)) < 256)
    /\ (auto_update <> 0 -> (forall op, ok op = true) -> file_exists (TZ_ZONEINFO_BASE ++ tz) = true ->
          Z.of_nat (length (TZ_ZONEINFO_BASE ++ tz)) < 256 -> rc = 0).
Proof.
  intros Hh Hn Hne Hp. unfold timezone_handle_message.
  set (m := tz_message header pre tz post).
  assert (drop 16 m = pre ++ tz ++ 0 :: post) as Hbuf.
  { subst m. unfold tz_message. rewrite drop_app_ge by lia. rewrite Hh.
    rewrite drop_app_ge by (rewrite le_bytes_length; lia). by rewrite le_bytes_length. }
  assert (get32 12 m = Z.of_nat (length pre)) as Hoff.
  { subst m. unfold tz_message, get32. rewrite (get_le_app 4 12) by lia. apply Z.mod_small. simpl. lia. }
  assert (Z.of_nat (length m) = 16 + Z.of_nat (length (pre ++ tz ++ 0 :: post))) as Hlen.
  { subst m. unfold tz_message. rewrite !length_app, le_bytes_length. lia. }
  assert (Z.of_nat (length pre) + 1 <= Z.of_nat (length (pre ++ tz ++ 0 :: post))) as Hpos
    by (rewrite !length_app; cbn [length]; lia).
  rewrite Hoff, Hbuf, Hlen. repeat (case_if; [lia|]). rewrite Nat2Z.id, drop_app_length.
  assert (nul_terminated (tz ++ 0 :: post) = true) as ->.
  { unfold nul_terminated. rewrite existsb_app. cbn. by rewrite orb_true_r. }
  rewrite to_cstr_app_nul by done. cbn [negb]. clear Hoff Hbuf Hlen Hpos.
  unfold timezone_apply. destruct (auto_update =? 0) eqn:Ea; bool_to_prop.
  { exists [], 0. repeat split; done. }
  destruct tz as [|c s]; [done|]. set (tz := c :: s) in *.
  destruct (256 <=? _) eqn:E1; bool_to_prop.
  { exists [], (-1). repeat split; try done. intros. lia. }
  destruct (file_exists _) eqn:E2; cbn [negb].
  2: { exists [], (-1). repeat split; done. }
  destruct (ok (Symlink _ _)) eqn:E3; cbn [negb].
  2: { eexists _, (-1). repeat split; try done. intros _ Hok. by rewrite Hok in E3. }
  destruct (ok (Write_file _ _)) eqn:E4; cbn [negb].
  2: { eexists _, (-1). repeat split; try done. intros _ Hok. by rewrite Hok in E4. }
  eexists _, 0. repeat split; done.
Qed.

Lemma timezone_message_applies_witness :
  exists ops rc,
    timezone_handle_message (fun _ => true) (fun _ => true)
      (Some (tz_message (replicate 12 0) [65; 0] (str "Asia/Shanghai") [1])) 1 = Done ops rc
    /\ (1 = 0 -> ops = [] /\ rc = 0).
Proof.
  destruct (timezone_message_applies (fun _ => true) (fun _ => true) (replicate 12 0) [65; 0]
    (str "Asia/Shanghai") [1] 1) as (ops & rc & H & H0 & _).
  - reflexivity.
  - vm_compute. repeat constructor; discriminate.
  - discriminate.
  - reflexivity.
  - exists ops, rc. exact (conj H H0).
Defined.

(** A name without a terminator is read past the end of the message. *)
Example timezone_unterminated :
  timezone_handle_message (fun _ => true) (fun _ => true)
    (Some (replicate 12 0 ++ le_bytes 4 0 ++ str "UTC")) 1 = Timezone.Past_end.
Proof. vm_compute. reflexivity. Qed.

(** When the symlink fails the old /etc/localtime is already gone. *)
Example timezone_failure_removes_link :
  timezone_apply (fun op => match op with Symlink _ _ => false | _ => true end) (fun _ => true) (Some (str "UTC")) 1
  = ([Unlink (str "/etc/localtime"); Symlink (str "/usr/share/zoneinfo/UTC") (str "/etc/localtime")], -1).
Proof. vm_compute. reflexivity. Qed.

End SystemThm.

Import Drvfs.

Module DrvfsThm.

(** * The option string *)

(** The string without its drvfs options. *)
Definition base_options (source std : bytes) (flags elevated : Z) : bytes :=
  transport_options flags elevated ++ (match std with [] => [] | _ => std ++ [c_comma] end)
  ++ PLAN9_ANAME_DRVFS ++ str ";path=" ++ source.

Lemma append_fits b buf s :
  Z.of_nat (length (buf ++ s)) < b -> append b buf s = buf ++ s.
Proof.
  intros H. unfold append. rewrite length_app in H. rewrite snprintf_s_fits by lia. done.
Qed.

Lemma append_length b buf s :
  Z.of_nat (length buf) < b ->
  Z.of_nat (length (append b buf s)) = Z.min (b - 1) (Z.of_nat (length (buf ++ s))).
Proof. intros H. unfold append, snprintf_s. rewrite !length_app, length_take. lia. Qed.

(** The copying loop, in closed form. *)
Lemma append_options_take limit buf opts :
  append_options limit buf opts
  = take (Z.to_nat (Z.max limit (Z.of_nat (length buf)))) (buf ++ map comma_to_semi opts).
Proof.
  revert buf; induction opts as [|c opts IH]; intros buf; cbn [append_options map].
  - rewrite app_nil_r, take_ge; [done|lia].
  - case_if.
    + rewrite IH, <-app_assoc. cbn [app]. f_equal. rewrite length_app. cbn [length]. lia.
    + rewrite Z.max_r, Nat2Z.id, take_app_length by lia. done.
Qed.

Lemma build_base_buffer b source std flags elevated :
  0 < b ->
  let t := snprintf_s b (transport_options flags elevated) in
  let buf := match std with [] => t | o => append b t (o ++ [c_comma]) end in
  Z.of_nat (length buf) < b
  /\ fits b buf (PLAN9_ANAME_DRVFS ++ str ";path=" ++ source)
     = (Z.of_nat (length (base_options source std flags elevated)) <? b)
  /\ (Z.of_nat (length (base_options source std flags elevated)) < b ->
      append b buf (PLAN9_ANAME_DRVFS ++ str ";path=" ++ source) = base_options source std flags elevated).
Proof.
  intros Hb. cbv zeta. set (tr := transport_options flags elevated).
  assert (Z.of_nat (length (snprintf_s b tr)) = Z.min (b - 1) (Z.of_nat (length tr))) as Ht.
  { unfold snprintf_s. rewrite length_take. lia. }
  set (a := PLAN9_ANAME_DRVFS ++ str ";path=" ++ source).
  assert (0 < Z.of_nat (length a)) as Ha by (subst a; rewrite length_app; cbn; lia).
  set (buf := match std with [] => _ | _ => _ end).
  set (full := tr ++ match std with [] => [] | _ => std ++ [c_comma] end).
  assert (Z.of_nat (length buf) = Z.min (b - 1) (Z.of_nat (length full))) as Hl.
  { subst buf full. destruct std as [|c s]; [rewrite app_nil_r; exact Ht|].
    rewrite append_length by lia. rewrite !(length_app _ (_ ++ [c_comma])). lia. }
  assert (base_options source std flags elevated = full ++ a) as ->.
  { unfold base_options. subst full a. by rewrite <-app_assoc. }
  rewrite length_app. split; [lia|]. split.
  - unfold fits. apply eq_bool_prop_intro. rewrite !Is_true_true, !Z.ltb_lt. lia.
  - intros Hfit. assert (buf = full) as ->.
    { subst buf full. assert (snprintf_s b tr = tr) as Hs by (apply snprintf_s_fits; rewrite length_app in Hfit; lia).
      rewrite Hs. destruct std as [|c s]; [by rewrite app_nil_r|]. apply append_fits. lia. }
    apply append_fits. rewrite length_app. lia.
Qed.

(** The options string is exactly the documented format when it fits.
    The call fails when the part before the drvfs options does not fit; when
    only the drvfs options do not fit they are cut at the end of the buffer,
    with the return value of success. *)
Theorem build_options_format b source std opts flags elevated :
  0 < b ->
  let base := base_options source std flags elevated in
  drvfs_build_options b source std opts flags elevated =
  match opts with
  | None | Some [] => if Z.of_nat (length base) <? b then Some base else None
  | Some o =>
    if Z.of_nat (length base) + 1 <? b
    then Some (take (Z.to_nat (Z.max (b - 2) (Z.of_nat (length base) + 1)))
                 (base ++ [c_semi] ++ map comma_to_semi o))
    else None
  end.
Proof.
  intros Hb base. unfold drvfs_build_options. replace (b =? 0) with false by (symmetry; apply Z.eqb_neq; lia).
  destruct (build_base_buffer b source std flags elevated Hb) as (H1 & H2 & H3). fold base in H2, H3.
  cbv zeta. set (buf := match std with [] => _ | _ => _ end) in *.
  rewrite H2. destruct (Z.of_nat (length base) <? b) eqn:E; bool_to_prop; cbn [negb].
  2: { destruct opts as [[|c o]|]; try done. case_if; [lia|done]. }
  rewrite H3 by done. destruct opts as [[|c o]|]; try done.
  unfold fits. cbn [length].
  assert ((Z.of_nat 1 <? b - Z.of_nat (length base)) = (Z.of_nat (length base) + 1 <? b)) as ->.
  { apply eq_bool_prop_intro. rewrite !Is_true_true, !Z.ltb_lt. lia. }
  destruct (Z.of_nat (length base) + 1 <? b) eqn:E2; cbn [negb]; [|done]. bool_to_prop.
  rewrite append_fits by (rewrite length_app; cbn; lia).
  rewrite append_options_take, <-app_assoc, length_app. cbn [length]. do 3 f_equal. lia.
Qed.

Lemma build_options_format_witness :
  drvfs_build_options 1024 (str "C:\") (str "noatime") (Some (str "metadata,umask=022")) 0 0
  = Some (str "msize=65536,trans=fd,cache=mmap,noatime,aname=drvfs;path=C:\;metadata;umask=022").
Proof.
  rewrite (build_options_format 1024 (str "C:\") (str "noatime") (Some (str "metadata,umask=022")) 0 0);
    [vm_compute; reflexivity|reflexivity].
Defined.

(** Options that do not fit are dropped without an error. *)
Example options_cut_silently :
  drvfs_build_options 64 (str "C:\") [] (Some (str "metadata,umask=022")) 0 0
  = Some (str "msize=65536,trans=fd,cache=mmap,aname=drvfs;path=C:\;metadata;").
Proof. vm_compute. reflexivity. Qed.

(** * The drives *)
Fixpoint range (n : nat) (lo : Z) : list Z :=
  match n with O => [] | S n' => lo :: range n' (lo + 1) end.

Lemma range_app n m lo : range (n + m) lo = range n lo ++ range m (lo + Z.of_nat n).
Proof.
  revert lo; induction n as [|n IH]; intros lo; cbn [range Nat.add app].
  - f_equal. lia.
  - rewrite IH. do 3 f_equal. lia.
Qed.

Lemma range_elem n lo i : i ∈ range n lo -> lo <= i < lo + Z.of_nat n.
Proof.
  revert lo; induction n as [|n IH]; intros lo; cbn [range]; [by intros ?%elem_of_nil|].
  intros [->|H]%elem_of_cons; [lia|]. specialize (IH _ H). lia.
Qed.

Lemma filter_none x n lo :
  (forall i, lo <= i < lo + Z.of_nat n -> Z.testbit x i = false) ->
  List.filter (Z.testbit x) (range n lo) = [].
Proof.
  revert lo; induction n as [|n IH]; intros lo H; [done|]. cbn [range List.filter].
  rewrite H by lia. apply IH. intros i Hi. apply H. lia.
Qed.

Lemma filter_ext_range x y n lo :
  (forall i, lo <= i < lo + Z.of_nat n -> Z.testbit x i = Z.testbit y i) ->
  List.filter (Z.testbit x) (range n lo) = List.filter (Z.testbit y) (range n lo).
Proof.
  intros H. apply List.filter_ext_in. intros i Hi%list_elem_of_In. apply H. by apply range_elem.
Qed.

Lemma lowest_bit_spec n i x :
  match lowest_bit n i x with
  | Some j => i <= j < i + Z.of_nat n /\ Z.testbit x j = true
              /\ forall k, i <= k < j -> Z.testbit x k = false
  | None => forall k, i <= k < i + Z.of_nat n -> Z.testbit x k = false
  end.
Proof.
  revert i; induction n as [|n IH]; intros i; cbn [lowest_bit]; [intros; lia|].
  destruct (Z.testbit x i) eqn:E; [split; [lia|split; [done|lia]]|].
  specialize (IH (i + 1)). destruct (lowest_bit n (i + 1) x) as [j|].
  - destruct IH as (H1 & H2 & H3). split; [lia|]. split; [done|]. intros k Hk.
    destruct (Z.eq_dec k i) as [->|]; [done|]. apply H3. lia.
  - intros k Hk. destruct (Z.eq_dec k i) as [->|]; [done|]. apply IH. lia.
Qed.

Lemma clear_bit x j i :
  0 <= j -> 0 <= i -> Z.testbit x j = true ->
  Z.testbit (Z.lxor x (Z.shiftl 1 j)) i = if i =? j then false else Z.testbit x i.
Proof.
  intros Hj Hi Hx. rewrite Z.lxor_spec, Z.shiftl_1_l, Z.pow2_bits_eqb by done. rewrite (Z.eqb_sym j i).
  case_if; [subst; by rewrite Hx|apply xorb_false_r].
Qed.

Section Order.
Context (path_exists : bytes -> bool) (mkdir_ok mount_ok : bytes -> bool).

Lemma mount_loop_order fuel lo x prefix std opts flags elevated :
  0 <= x -> 0 <= lo -> (forall i, 0 <= i < lo -> Z.testbit x i = false) ->
  (forall i, 32 <= i -> Z.testbit x i = false) ->
  32 - lo <= Z.of_nat fuel ->
  map fst (mount_loop path_exists mkdir_ok mount_ok fuel x prefix std opts flags elevated)
  = List.filter (Z.testbit x) (range 32 0).
Proof.
  revert lo x; induction fuel as [|fuel IH]; intros lo x Hx Hlo Hlow Hhigh Hf; cbn [mount_loop].
  - rewrite filter_none; [done|]. intros i Hi. apply Hlow. lia.
  - case_if; [subst; rewrite filter_none; [done|intros; apply Z.bits_0]|].
    pose proof (lowest_bit_spec 32 0 x) as Hb. unfold ffs_index.
    destruct (lowest_bit 32 0 x) as [j|] eqn:E.
    + destruct Hb as (H1 & H2 & H3). cbn [map fst].
      assert (lo <= j) as Hlj. { destruct (Z_lt_le_dec j lo); [|done]. rewrite Hlow in H2 by lia. done. }
      set (y := Z.lxor x (Z.shiftl 1 j)).
      assert (Hy : forall i, 0 <= i -> Z.testbit y i = if i =? j then false else Z.testbit x i)
        by (intros; apply clear_bit; done || lia).
      rewrite (IH (j + 1) y).
      * change 32%nat with (Z.to_nat 32). replace (Z.to_nat 32) with (Z.to_nat j + (1 + (Z.to_nat (31 - j))))%nat by lia.
        rewrite !range_app, !List.filter_app. cbn [range app List.filter]. rewrite !Z.add_0_l, !Z2Nat.id by lia.
        rewrite H2, !Hy, Z.eqb_refl by lia.
        rewrite (filter_none y (Z.to_nat j)), (filter_none x (Z.to_nat j)).
        -- cbn [app]. f_equal. apply filter_ext_range. intros i Hi. rewrite Hy by lia. case_if; [lia|done].
        -- intros i Hi. apply H3. lia.
        -- intros i Hi. rewrite Hy by lia. case_if; [done|]. apply H3. lia.
      * subst y. apply Z.lxor_nonneg. split; [intros _; apply Z.shiftl_nonneg; lia|intros _; done].
      * lia.
      * intros i Hi. rewrite Hy by lia. case_if; [done|]. apply H3. lia.
      * intros i Hi. rewrite Hy by lia. case_if; [done|]. by apply Hhigh.
      * lia.
    + exfalso. apply Heqb. apply Z.bits_inj_0. intros i.
      destruct (Z_lt_le_dec i 0); [by apply Z.testbit_neg_r|].
      destruct (Z_lt_le_dec i 32); [apply Hb; lia|by apply Hhigh].
Qed.

Lemma bits_high x n : 0 <= x < 2 ^ n -> 0 <= n -> forall i, n <= i -> Z.testbit x i = false.
Proof.
  intros Hx Hn i Hi. rewrite <-(Z.mod_small x (2 ^ n)) by done. by apply Z.mod_pow2_bits_high; lia.
Qed.

(** The volumes are mounted in the order of the drive letters, one
    attempt for each set bit of the bitmap and none for a clear one; the loop
    ends within its 32 turns, a failed drive does not stop the others, and
    the result counts the mounts that succeeded. *)
Theorem mount_volumes_order bitmap uid gid elevated prefix opts flags :
  0 <= bitmap < 2 ^ 32 ->
  let '(results, n) :=
    drvfs_mount_volumes path_exists mkdir_ok mount_ok bitmap uid gid elevated prefix opts flags in
  map fst results = List.filter (Z.testbit bitmap) (range 32 0)
  /\ n = Z.of_nat (length (List.filter (fun r => snd (snd r) =? 0) results))
  /\ forall index r, (index, r) ∈ results -> exists std,
       r = drvfs_mount_single path_exists mkdir_ok mount_ok [65 + index; c_colon; c_bslash]
             (volume_target (match prefix with None | Some [] => str "/mnt" | Some p => p end) index)
             std opts flags elevated.
Proof.
  intros Hb. unfold drvfs_mount_volumes. case_if; [subst; split; [done|split; [done|by intros ? ? ?%elem_of_nil]]|].
  cbv zeta. set (pre := match prefix with None | Some [] => _ | _ => _ end).
  set (std := snprintf_s 256 _). split; [|split; [done|]].
  - apply (mount_loop_order 32 0); try lia; try done. by apply bits_high; [|lia].
  - generalize 32%nat as fuel, bitmap as x. intros fuel. induction fuel as [|fuel IH]; intros x index r;
      cbn [mount_loop]; [by intros ?%elem_of_nil|].
    case_if; [by intros ?%elem_of_nil|]. destruct (ffs_index x) as [j|]; [|by intros ?%elem_of_nil].
    intros [[= -> ->]|H]%elem_of_cons; [by exists std|by eapply IH].
Qed.
End Order.

Lemma mount_volumes_order_witness :
  let '(results, n) :=
    drvfs_mount_volumes (fun _ => true) (fun _ => true) (fun t => list_eqb t (str "/mnt/d"))
      12 1000 1000 0 (Some (str "/mnt/")) None 0 in
  map fst results = List.filter (Z.testbit 12) (range 32 0)
  /\ n = Z.of_nat (length (List.filter (fun r => snd (snd r) =? 0) results))
  /\ forall index r, (index, r) ∈ results -> exists std,
       r = drvfs_mount_single (fun _ => true) (fun _ => true) (fun t => list_eqb t (str "/mnt/d"))
             [65 + index; c_colon; c_bslash] (volume_target (str "/mnt/") index) std None 0 0.
Proof.
  apply (mount_volumes_order (fun _ => true) (fun _ => true) (fun t => list_eqb t (str "/mnt/d"))
    12 1000 1000 0 (Some (str "/mnt/")) None 0). lia.
Defined.

Example mount_volumes_example :
  let r := drvfs_mount_volumes (fun _ => true) (fun _ => true) (fun t => list_eqb t (str "/mnt/d"))
      12 1000 1000 0 (Some (str "/mnt/")) None 0 in
  snd r = 1 /\ concat (map (fun x => fst (snd x)) (fst r))
    = [Mount (str "p9fs") (str "/mnt/c"); Mount (str "p9fs") (str "/mnt/d")].
Proof. vm_compute. auto. Qed.

(** Bits above 25 give sources and targets that are no drive letters. *)
Example bit_26_is_no_letter :
  volume_source 26 = str "[:\" /\ volume_target (str "/mnt") 26 = str "/mnt/{".
Proof. vm_compute. auto. Qed.

End DrvfsThm.
