(* ===== verification/GnsJson.v ===== *)
(** The JSON reader of the network engine (gns_json_* in
    src/FreeBSD/gns_engine.h).  It is not a parser: a value is found by
    searching the text for the quoted key followed by a colon, wherever it
    stands.  A JSON text is a C string, the bytes before its NUL. *)
From S2P Require Import Prelude CStr CNum.

Module GnsJson.

Abbreviation c_lbrace := 123.
Abbreviation c_rbrace := 125.

(** What follows the first occurrence of [pat] ([strstr], then [p += n]). *)
Fixpoint after_first (pat s : bytes) : option bytes :=
  if starts_with pat s then Some (drop (length pat) s)
  else match s with
       | [] => None
       | _ :: s' => after_first pat s'
       end.

Definition json_blank (c : Z) : bool := (c =? c_space) || (c =? c_tab).

Definition key_pattern (key : bytes) : bytes := [c_quote] ++ key ++ [c_quote].

(** The search loop; each turn consumes the pattern, so the length of the text
    bounds the number of turns. *)
Fixpoint find_value_loop (fuel : nat) (pat p : bytes) : option bytes :=
  match fuel with
  | O => None
  | S fuel' =>
    match after_first pat p with
    | None => None
    | Some p =>
      match drop_while json_blank p with
      | [] => find_value_loop fuel' pat []
      | c :: p' => if c =? c_colon then Some (drop_while json_blank p')
                   else find_value_loop fuel' pat (c :: p')
      end
    end
  end.

Definition gns_json_find_value (json key : bytes) : option bytes :=
  let pat := key_pattern key in
  let n := Z.of_nat (length pat) in
  if (n <=? 0) || (64 <=? n) then None
  else find_value_loop (S (length json)) pat json.

(** The copying loop; [room] is how many bytes fit before the terminator. *)
Fixpoint string_loop (room : nat) (v : bytes) : bytes :=
  match room, v with
  | O, _ => []
  | _, [] => []
  | S room', c :: v' =>
    if c =? c_quote then []
    else if c =? c_bslash then
      match v' with
      | c2 :: v'' => c2 :: string_loop room' v''
      | [] => [c]
      end
    else c :: string_loop room' v'
  end.

(** The return value and the string that [out] holds afterwards; it is left
    alone when the key is absent or its value is not a string. *)
Definition gns_json_get_string (json key out : bytes) (outsz : Z) : Z * bytes :=
  match gns_json_find_value json key with
  | Some (c :: v) => if c =? c_quote then (0, string_loop (Z.to_nat (outsz - 1)) v) else (-1, out)
  | _ => (-1, out)
  end.

(** The common use: the output buffer starts zeroed. *)
Definition get_field (json key : bytes) (outsz : Z) : bytes :=
  snd (gns_json_get_string json key [] outsz).

Definition gns_json_get_int (json key : bytes) (def : Z) : Z :=
  match gns_json_find_value json key with
  | None => def
  | Some v => let '(x, _, _) := strtol 10 v in x
  end.

Definition gns_json_get_bool (json key : bytes) (def : Z) : Z :=
  match gns_json_find_value json key with
  | None => def
  | Some v =>
    if starts_with (str "true") v then 1
    else if starts_with (str "false") v then 0
    else def
  end.

(** The two nested copying loops, told apart by [in_str].  [room] is
    [outsz - 1 - i], or 0 when [i] is past it.  The byte after a backslash is
    copied without looking at [room]. *)
Fixpoint object_loop (in_str : bool) (room : nat) (depth : Z) (v : bytes) : bytes :=
  match room, v with
  | O, _ => []
  | _, [] => []
  | S room', c :: v' =>
    if in_str then
      if c =? c_bslash then
        match v' with
        | c2 :: v'' => c :: c2 :: object_loop true (Nat.pred room') depth v''
        | [] => [c]
        end
      else c :: object_loop (negb (c =? c_quote)) room' depth v'
    else if c =? c_lbrace then c :: object_loop false room' (depth + 1) v'
    else if c =? c_rbrace then
      if depth - 1 =? 0 then [c] else c :: object_loop false room' (depth - 1) v'
    else c :: object_loop (c =? c_quote) room' depth v'
  end.

(** The return value and the bytes written before the terminator; [out] is
    left alone ([None]) when there is no object. *)
Definition gns_json_get_subobject (json key : bytes) (outsz : Z) : Z * option bytes :=
  match gns_json_find_value json key with
  | Some (c :: v) =>
    if c =? c_lbrace then
      let out := object_loop false (Z.to_nat (outsz - 1)) 0 (c :: v) in
      (if (0 <? Z.of_nat (length out)) then 0 else -1, Some out)
    else (-1, None)
  | _ => (-1, None)
  end.

End GnsJson.
