(* ===== verification/Gns.v ===== *)
(** The network engine (src/FreeBSD/gns_engine.h): the messages of the GNS
    channel are decoded, applied with ifconfig, route, pfctl and the like, and
    answered; between messages the port tracker runs.  What the engine does to
    the outside is a list of operations, in order; what the outside answers is a
    function of the operations so far.  Both builds are modelled: [freebsd]
    tells whether __FreeBSD__ is defined. *)
From S2P Require Import Prelude CStr CNum Wire GnsJson PortTracker.
Import Wire GnsJson.

Module Gns.

(** * Message types *)
Definition LxGnsMessageInterfaceConfiguration : Z := 53.
Definition LxGnsMessageResult : Z := 54.
Definition LxGnsMessageNotification : Z := 55.
Definition LxGnsMessagePortMappingRequest : Z := 56.
Definition LxGnsMessageSetPortListener : Z := 58.
Definition LxGnsMessageVmNicCreatedNotification : Z := 61.
Definition LxGnsMessageCreateDeviceRequest : Z := 62.
Definition LxGnsMessageModifyGuestDeviceSettingRequest : Z := 63.
Definition LxGnsMessageLoopbackRoutesRequest : Z := 64.
Definition LxGnsMessageDeviceSettingRequest : Z := 65.
Definition LxGnsMessageIfStateChangeRequest : Z := 66.
Definition LxGnsMessageIfStateChangeResponse : Z := 67.
Definition LxGnsMessageInitialIpConfigurationNotification : Z := 68.
Definition LxGnsMessageSetupIpv6 : Z := 69.
Definition LxGnsMessageNoOp : Z := 71.
Definition LxGnsMessageGlobalNetFilter : Z := 72.
Definition LxGnsMessageInterfaceNetFilter : Z := 73.
Definition LxGnsMessageConnectTestRequest : Z := 74.
Definition LxGnsMessageListenerRelay : Z := 75.
Definition LxMessageResultUint32 : Z := 78.

(** * State and effects *)
Inductive gns_op : Type :=
| Run (cmd : bytes)
| Popen (cmd : bytes)
| Write (path content : bytes)
| Rename (old new : bytes)
| Unlink (path : bytes)
| Connect (addr : bytes) (port : Z) (udp : bool)
| Send (msg : bytes).

(** The static variables, and the operations done so far. *)
Record gns : Type := mk_gns {
  g_default_interface : bytes;
  g_generate_resolvconf : Z;
  g_resolvconf_path : bytes;
  ops : list gns_op
}.
#[export] Instance gns_eta : Eta gns := fun r =>
  mk_gns (g_default_interface r) (g_generate_resolvconf r) (g_resolvconf_path r) (ops r).

Definition M (A : Type) : Type := gns -> A * gns.
#[export] Instance M_ret : MRet M := fun A x st => (x, st).
#[export] Instance M_bind : MBind M := fun A B f m st => let '(x, st') := m st in f x st'.

Definition get : M gns := fun st => (st, st).
Definition emit (o : gns_op) : M unit := fun st => (tt, st <| ops := ops st ++ [o] |>).
(** Ask the outside, which has seen the operations so far. *)
Definition ask {A} (f : list gns_op -> A) : M A := fun st => (f (ops st), st).
Definition skip : M unit := mret tt.
Definition when (b : bool) (m : M unit) : M unit := if b then m else skip.

(** [strncpy] into a zeroed buffer, the last byte kept. *)
Definition gns_set_default_interface (name : bytes) : M unit := fun st =>
  (tt, if is_empty name then st else st <| g_default_interface := snprintf_s 32 name |>).

Definition GNS_RESOLVCONF_PATH_DEFAULT : bytes := str "/etc/resolv.conf".
Definition gns_set_resolvconf_path (path : bytes) : M unit := fun st =>
  (tt, st <| g_resolvconf_path :=
         if is_empty path then GNS_RESOLVCONF_PATH_DEFAULT else snprintf_s 256 path |>).

(** * Replies *)
(** The bytes of LX_GNS_RESULT with a note. *)
Definition result_bytes (typ seq code : Z) (note : bytes) : bytes :=
  header_bytes (mk_header typ (16 + (Z.of_nat (length note) + 1)) seq)
  ++ le_bytes 4 (u32 code) ++ note ++ [0].

Definition gns_send_result (seq code : Z) (note : bytes) : M unit :=
  emit (Send (result_bytes LxGnsMessageResult seq code note)).

(** [snprintf(cmd, size, ...)]. *)
Definition fmt (size : Z) (parts : list bytes) : bytes := snprintf_s size (concat parts).
Definition quiet : bytes := str " 2>/dev/null".

Section Engine.
Context (freebsd : bool).
(** [system] returns a wait status or -1; [fopen_w]: the file can be opened for
    writing; [popen]: the output of a command, [None] when it cannot be started;
    [read_file]: the content of a file; [inet6]: an IPv6 socket can be made;
    [connects]: [None] when there is no socket, else whether connect succeeds. *)
Context (system : list gns_op -> bytes -> Z).
Context (fopen_w fclose_ok : list gns_op -> bytes -> bool).
Context (rename_ok : list gns_op -> bytes -> bytes -> bool).
Context (popen : list gns_op -> bytes -> option bytes).
Context (read_file : bytes -> option bytes).
Context (inet6 : list gns_op -> bool).
Context (connects : list gns_op -> bytes -> Z -> bool -> option bool).

(** * Commands *)
Definition WEXITSTATUS (rc : Z) : Z := Z.land (Z.shiftr rc 8) 255.

Definition sys (cmd : bytes) : M Z := rc ← ask (fun h => system h cmd); emit (Run cmd);; mret rc.

Definition gns_run_cmd (cmd : bytes) : M Z :=
  if freebsd then
    rc ← sys cmd; mret (if rc =? -1 then -1 else WEXITSTATUS rc)
  else
    let wrapped := str "timeout 3 " ++ cmd in
    if 512 <=? Z.of_nat (length wrapped) then mret (-1)
    else rc ← sys wrapped; mret (if rc =? -1 then -1 else WEXITSTATUS rc).

Definition run (cmd : bytes) : M unit := gns_run_cmd cmd;; skip.

(** A command whose failure only changes the note of the reply. *)
Definition run_noting (cmd note failed : bytes) : M bytes :=
  rc ← gns_run_cmd cmd; mret (if negb (rc =? 0) then failed else note).

(** * InterfaceConfiguration *)
Record iface_config : Type := mk_iface {
  interface : bytes; address : bytes; gateway : bytes; mtu : bytes; bring_up : bool
}.
#[export] Instance iface_config_eta : Eta iface_config := fun r =>
  mk_iface (interface r) (address r) (gateway r) (mtu r) (bring_up r).

(** The first quoted string of a copied list, cut to a buffer. *)
Definition first_quoted (s : bytes) (size : Z) : option bytes :=
  match strchr c_quote s with
  | Some (_, q1) =>
    match strchr c_quote q1 with
    | Some (inside, _) => Some (take (Z.to_nat (size - 1)) inside)
    | None => None
    end
  | None => None
  end.

Definition from_list (content key cur : bytes) (size : Z) : bytes :=
  if negb (is_empty cur) then cur
  else
    match gns_json_get_subobject content key 256 with
    | (0, Some arr) =>
      match first_quoted arr size with Some s => s | None => cur end
    | _ => cur
    end.

Definition with_prefix (addr : bytes) (prefix_len : Z) : bytes :=
  if (0 <? prefix_len) && negb (is_empty addr) then
    let alen := Z.of_nat (length addr) in
    if alen + 8 <? 128 then addr ++ fmt (128 - alen) [str "/"; dec_signed prefix_len] else addr
  else addr.

Definition hns_endpoint (content : bytes) : iface_config :=
  let interface := get_field content (str "PortFriendlyName") 64 in
  let interface :=
    if is_empty interface then snd (gns_json_get_string content (str "Name") interface 64) else interface in
  let interface :=
    if is_empty interface then snd (gns_json_get_string content (str "targetDeviceName") interface 64)
    else interface in
  let address := get_field content (str "IPAddress") 128 in
  let address := from_list content (str "IPAddresses") address 128 in
  let prefix_len := to_int (gns_json_get_int content (str "PrefixLength") 0) in
  let address := with_prefix address prefix_len in
  let gateway := get_field content (str "GatewayAddress") 64 in
  let gateway := from_list content (str "Gateways") gateway 64 in
  mk_iface interface address gateway [] true.

Definition ifconfig_mac (mac : bytes) : bytes :=
  take 31 (map (fun c => if c =? c_dash then c_colon else tolower c) mac).

Definition apply_mac_address (content interface : bytes) : M unit :=
  let mac_addr := get_field content (str "MacAddress") 32 in
  when (negb (is_empty interface) && negb (is_empty mac_addr))
    (run (fmt 192 [str "ifconfig "; interface; str " ether "; ifconfig_mac mac_addr; quiet])).

(** One line of the key=value format. *)
Definition key_value (c : iface_config) (tok : bytes) : iface_config :=
  let tok := drop_while json_blank tok in
  match tok with
  | [] => c
  | h :: _ =>
    if h =? c_hash then c
    else if starts_with (str "interface=") tok then c <| interface := snprintf_s 64 (drop 10 tok) |>
    else if starts_with (str "address=") tok then c <| address := snprintf_s 128 (drop 8 tok) |>
    else if starts_with (str "gateway=") tok then c <| gateway := snprintf_s 64 (drop 8 tok) |>
    else if starts_with (str "mtu=") tok then c <| mtu := snprintf_s 16 (drop 4 tok) |>
    else if strcmp_eq tok (str "up") then c <| bring_up := true |>
    else c
  end.

Definition is_newline (c : Z) : bool := (c =? c_nl) || (c =? c_cr).

Definition key_values (content : bytes) : iface_config :=
  foldl key_value (mk_iface [] [] [] [] false) (strtok is_newline content).

Definition is_json (content : bytes) : bool :=
  match drop_while (fun c => json_blank c || is_newline c) content with
  | c :: _ => c =? c_lbrace
  | [] => false
  end.

Definition apply_address (c : iface_config) : M Z :=
  if negb (is_empty (interface c)) && negb (is_empty (address c)) then
    r ← gns_run_cmd (fmt 256 [str "ifconfig "; interface c; str " "; address c; quiet]);
    mret (if negb (r =? 0) then -1 else 0)
  else mret 0.

Definition apply_gateway (c : iface_config) : M unit :=
  when (negb (is_empty (gateway c)))
    (let add := fmt 256 [str "route add default "; gateway c; quiet] in
     r ← gns_run_cmd add;
     when (negb (r =? 0)) (run (fmt 256 [str "route delete default "; gateway c; quiet]);; run add)).

Definition gns_handle_interface_configuration (msg : bytes) (seq : Z) : M Z :=
  if Z.of_nat (length msg) <? 12 then gns_send_result seq (-1) (str "msg too small");; mret (-1)
  else if Z.of_nat (length msg) <=? 12 then gns_send_result seq (-1) (str "no content");; mret (-1)
  else
    let content := to_cstr (drop 12 msg) in
    let json := is_json content in
    let c := if json then hns_endpoint content else key_values content in
    when json (apply_mac_address content (interface c));;
    result ← apply_address c;
    when (negb (is_empty (interface c)) && negb (is_empty (mtu c)))
      (run (fmt 256 [str "ifconfig "; interface c; str " mtu "; mtu c; quiet]));;
    when (negb (is_empty (interface c)) && bring_up c)
      (run (fmt 256 [str "ifconfig "; interface c; str " up"; quiet]));;
    apply_gateway c;;
    gns_send_result seq result (if result =? 0 then str "ok" else str "partial");;
    mret result.

(** * NetworkInformation *)

(** A string of the message, read for logging and writing; the outer option is
    [None] when the read runs past the message. *)
Definition indexed_string (buffer : bytes) (index : Z) : option (option bytes) :=
  if index <? Z.of_nat (length buffer) then
    let s := drop (Z.to_nat index) buffer in
    if nul_terminated s then Some (Some (to_cstr s)) else None
  else Some None.

Definition with_newline (s : bytes) : bytes :=
  match last s with
  | Some c => if c =? c_nl then s else s ++ [c_nl]
  | None => s
  end.

(** [None]: the code reads beyond the message. *)
Definition gns_handle_network_information (msg : bytes) : M (option Z) :=
  if Z.of_nat (length msg) <? 20 then mret (Some (-1))
  else if Z.of_nat (length msg) <=? 20 then mret (Some (-1))
  else
    let buffer := drop 20 msg in
    match indexed_string buffer (get32 12 msg), indexed_string buffer (get32 16 msg) with
    | Some _, Some file_contents =>
      st ← get;
      if g_generate_resolvconf st =? 0 then mret (Some 0)
      else
        let resolv_path := g_resolvconf_path st in
        let tmp_path := fmt 512 [resolv_path; str ".tmp"] in
        opened ← ask (fun h => fopen_w h tmp_path);
        if negb opened then mret (Some (-1))
        else
          emit (Write tmp_path (match file_contents with Some s => with_newline s | None => [] end));;
          closed ← ask (fun h => fclose_ok h tmp_path);
          if negb closed then mret (Some (-1))
          else
            renamed ← ask (fun h => rename_ok h tmp_path resolv_path);
            emit (Rename tmp_path resolv_path);;
            if negb renamed then emit (Unlink tmp_path);; mret (Some (-1))
            else mret (Some 0)
    | _, _ => mret None
    end.

(** * Notification *)
Definition or_default (dest_prefix : bytes) : bool :=
  is_empty dest_prefix || starts_with (str "0.0.0.0") dest_prefix.

Definition gns_apply_route_change (settings request_type : bytes) : M unit :=
  let next_hop := get_field settings (str "NextHop") 64 in
  let dest_prefix := get_field settings (str "DestinationPrefix") 80 in
  if strcmp_eq request_type (str "Reset") then run (str "route delete default" ++ quiet)
  else if is_empty next_hop then skip
  else if strcmp_eq request_type (str "Remove") then
    run (if or_default dest_prefix then fmt 256 [str "route delete default "; next_hop; quiet]
         else fmt 256 [str "route delete "; dest_prefix; str " "; next_hop; quiet])
  else
    when (strcmp_eq request_type (str "Update"))
      (run (fmt 256 [str "route delete default "; next_hop; quiet]));;
    run (if or_default dest_prefix then fmt 256 [str "route add default "; next_hop; quiet]
         else fmt 256 [str "route add "; dest_prefix; str " "; next_hop; quiet]).

Definition gns_apply_ip_change (iface settings request_type : bytes) : M unit :=
  let address := get_field settings (str "Address") 64 in
  let prefix := gns_json_get_int settings (str "OnLinkPrefixLength") 0 in
  if is_empty address || is_empty iface then skip
  else if strcmp_eq request_type (str "Remove") then
    run (fmt 256 [str "ifconfig "; iface; str " delete "; address; quiet])
  else
    let alias p := fmt 256 [str "ifconfig "; iface; str " "; address; str "/"; dec_signed p; str " alias"; quiet] in
    let cmd :=
      if (0 <? prefix) && (prefix <=? 32) then alias prefix
      else fmt 256 [str "ifconfig "; iface; str " "; address; str " netmask 255.255.255.255 alias"; quiet] in
    if strcmp_eq request_type (str "Update") then
      run cmd;; run (alias (if 0 <? prefix then prefix else 32))
    else run cmd.

Definition is_comma (c : Z) : bool := c =? c_comma.
Definition no_spaces (s : bytes) : bytes := drop_while (fun c => c =? c_space) s.

(** Appending one domain with [strncat] into a buffer of 256 bytes. *)
Definition add_search (out s : bytes) : bytes :=
  let out := if is_empty out then out else take 255 (out ++ str " ") in
  take 255 (out ++ no_spaces s).

Definition resolv_conf (options server_list domain search : bytes) : bytes :=
  options
  ++ concat (map (fun s => str "nameserver " ++ no_spaces s ++ [c_nl]) (strtok is_comma server_list))
  ++ (if is_empty domain then [] else str "domain " ++ domain ++ [c_nl])
  ++ (let search_out := foldl add_search [] (strtok is_comma search) in
      if is_empty search_out then [] else str "search " ++ search_out ++ [c_nl]).

Definition gns_apply_dns_change (settings request_type : bytes) : M unit :=
  if strcmp_eq request_type (str "Remove") then skip
  else
    let domain := get_field settings (str "Domain") 128 in
    let search := get_field settings (str "Search") 256 in
    let server_list := get_field settings (str "ServerList") 512 in
    let options := get_field settings (str "Options") 256 in
    st ← get;
    if g_generate_resolvconf st =? 0 then skip
    else
      opened ← ask (fun h => fopen_w h (g_resolvconf_path st));
      when opened (emit (Write (g_resolvconf_path st) (resolv_conf options server_list domain search))).

Definition up_down (b : Z) : bytes := if negb (b =? 0) then str "up" else str "down".

Definition gns_apply_link_change (iface settings request_type : bytes) : M unit :=
  let connected := gns_json_get_bool settings (str "Connected") 1 in
  let mtu := gns_json_get_int settings (str "NlMtu") 0 in
  if is_empty iface then skip
  else
    run (fmt 128 [str "ifconfig "; iface; str " "; up_down connected; quiet]);;
    when (negb (connected =? 0) && (0 <? mtu))
      (run (fmt 128 [str "ifconfig "; iface; str " mtu "; dec_signed mtu; quiet])).

Definition bsd_mac (mac : bytes) : bytes := take 63 (map (fun c => if c =? c_dash then c_colon else c) mac).

Definition gns_apply_mac_change (iface settings : bytes) : M unit :=
  let mac := get_field settings (str "PhysicalAddress") 64 in
  if is_empty mac || is_empty iface then skip
  else run (fmt 128 [str "ifconfig "; iface; str " link "; bsd_mac mac; quiet]).

(** Apply the settings when the request has them. *)
Definition with_settings (body : bytes) (outsz : Z) (apply : bytes -> M unit) : M Z :=
  match gns_json_get_subobject body (str "Settings") outsz with
  | (0, Some settings) => apply settings;; mret 0
  | _ => mret (-1)
  end.

Definition gns_handle_notification (msg : bytes) (seq : Z) : M Z :=
  if Z.of_nat (length msg) <? 12 then gns_send_result seq (-1) (str "msg too small");; mret (-1)
  else if Z.of_nat (length msg) <=? 12 then gns_send_result seq (-1) (str "no payload");; mret (-1)
  else
    let body := to_cstr (drop 12 msg) in
    let resource_type := get_field body (str "ResourceType") 32 in
    let request_type := get_field body (str "RequestType") 16 in
    let target_device := get_field body (str "targetDeviceName") 32 in
    st ← get;
    let iface := if is_empty target_device then g_default_interface st else target_device in
    result ←
      (if strcmp_eq resource_type (str "Route") then
         with_settings body 1024 (fun s => gns_apply_route_change s request_type)
       else if strcmp_eq resource_type (str "IPAddress") then
         with_settings body 1024 (fun s => gns_apply_ip_change iface s request_type)
       else if strcmp_eq resource_type (str "DNS") then
         with_settings body 1024 (fun s => gns_apply_dns_change s request_type)
       else if strcmp_eq resource_type (str "Interface") then
         with_settings body 512 (fun s => gns_apply_link_change iface s request_type)
       else if strcmp_eq resource_type (str "MacAddress") then
         with_settings body 256 (fun s => gns_apply_mac_change iface s)
       else mret 0);
    gns_send_result seq result (if result =? 0 then str "notification applied" else str "partial");;
    mret result.

(** * Queries on the init channel *)
Definition LX_INIT_NETWORKING_MODE_NAT : Z := 0.
Definition LX_INIT_NETWORKING_MODE_BRIDGED : Z := 1.
Definition LX_INIT_NETWORKING_MODE_MIRRORED : Z := 2.

Definition is_trailing_space (c : Z) : bool := is_newline c || json_blank c.

Fixpoint first_guid (paths : list bytes) (buf_size : Z) : bytes :=
  match paths with
  | [] => fmt buf_size [str "00000000-0000-0000-0000-000000000000"]
  | path :: paths' =>
    match read_file path with
    | None => first_guid paths' buf_size
    | Some content =>
      let buf := rev (drop_while is_trailing_space (rev (take (Z.to_nat (buf_size - 1)) content))) in
      if is_empty buf then first_guid paths' buf_size else to_cstr buf
    end
  end.

Definition try_paths : list bytes :=
  [str "/etc/hostid"; str "/etc/machine-id"; str "/proc/sys/kernel/random/boot_id"].

Definition gns_get_vm_guid_string (buf_size : Z) : option bytes :=
  if buf_size <? 37 then None else Some (first_guid try_paths buf_size).

Definition is_hex (c : Z) : bool :=
  isdigit c || ((97 <=? c) && (c <=? 102)) || ((65 <=? c) && (c <=? 70)).

Definition gns_get_vm_id_u32 : Z :=
  match gns_get_vm_guid_string 64 with
  | None => 3050307585
  | Some guid =>
    match take 8 (take_while is_hex guid) with
    | [] => 3050307585
    | hex9 => u32 (fst (strtoul 16 hex9))
    end
  end.

(** The bytes of RESULT_MESSAGE_UINT32; the sequence number of the query. *)
Definition result_uint32 (msg : bytes) (value : Z) : bytes :=
  header_bytes (mk_header LxMessageResultUint32 16
    (if 12 <=? Z.of_nat (length msg) then SequenceNumber (read_header msg) else 0))
  ++ le_bytes 4 value.

(** [env] is WSL2_NETWORKING_MODE. *)
Definition networking_mode (env : option bytes) : Z :=
  match env with
  | Some (c :: s) =>
    let '(x, _, _) := strtol 10 (c :: s) in
    let v := to_int x in
    if v =? 2 then LX_INIT_NETWORKING_MODE_BRIDGED
    else if v =? 3 then LX_INIT_NETWORKING_MODE_MIRRORED
    else LX_INIT_NETWORKING_MODE_NAT
  | _ => LX_INIT_NETWORKING_MODE_NAT
  end.

Definition gns_handle_query_networking_mode (env : option bytes) (msg : bytes) : M unit :=
  emit (Send (result_uint32 msg (networking_mode env))).

Definition gns_handle_query_vm_id (msg : bytes) : M unit :=
  emit (Send (result_uint32 msg gns_get_vm_id_u32)).

(** * The other messages of the GNS channel *)
Definition gns_handle_setup_ipv6 (seq : Z) : M unit :=
  v6_sock ← ask inet6;
  when (v6_sock && freebsd)
    (run (str "ifconfig lo0 inet6 ::1/128 add" ++ quiet);;
     run (str "sysctl net.inet6.ip6.dad_count=0" ++ quiet);;
     run (str "sysctl net.inet6.ip6.accept_rtadv=0" ++ quiet);;
     run (str "sysctl net.inet6.ip6.auto_linklocal=0" ++ quiet));;
  gns_send_result seq 0 (str "ipv6 configured").

Definition gns_extract_content (msg : bytes) : option bytes :=
  if Z.of_nat (length msg) <=? 12 then None else Some (to_cstr (drop 12 msg)).

(** The common shape of a handler: without content the reply is an error. *)
Definition with_content (msg : bytes) (seq : Z) (handle : bytes -> M unit) : M Z :=
  match gns_extract_content msg with
  | None => gns_send_result seq (-1) (str "no content");; mret (-1)
  | Some content => handle content;; mret 0
  end.

Definition valid_port (port : Z) : bool := (0 <? port) && (port <=? 65535).

Definition port_mapping_cmd (remove : Z) (proto : bytes) (port : Z) : bytes :=
  let p := dec_signed port in
  let rdr := [str "echo 'rdr pass inet proto "; proto; str " from any to any port "; p;
              str " -> 127.0.0.1 port "; p; str "' | pfctl -a wsl_portmap -f -"; quiet] in
  let rule flag := [str "iptables "; flag; str " INPUT -p "; proto; str " --dport "; p; str " -j ACCEPT"; quiet] in
  if freebsd then
    if negb (remove =? 0) then fmt 256 rdr
    else fmt 256 ([str "pfctl -a wsl_portmap -Fr"; quiet; str "; "] ++ rdr)
  else
    if negb (remove =? 0) then fmt 256 (rule (str "-D"))
    else fmt 256 (rule (str "-C") ++ [str " && "] ++ rule (str "-D") ++ [str "; "] ++ rule (str "-A")).

Definition gns_handle_port_mapping_request (msg : bytes) (seq : Z) : M Z :=
  with_content msg seq (fun content =>
    let port := gns_json_get_int content (str "Port") 0 in
    let remove := gns_json_get_bool content (str "Remove") 0 in
    let protocol := get_field content (str "Protocol") 16 in
    let note := str "port mapping applied" in
    note ←
      (if valid_port port then
         let proto :=
           if negb (is_empty protocol) && negb (strcmp_eq protocol (str "any")) then protocol else str "tcp" in
         run_noting (port_mapping_cmd remove proto port) note (str "port mapping failed (non-fatal)")
       else mret note);
    gns_send_result seq 0 note).

Definition port_listener_cmd (family port : Z) : bytes :=
  let proto := if family =? 2 then str "tcp" else str "udp" in
  let p := dec_signed port in
  let rule flag := [str "iptables "; flag; str " INPUT -p "; proto; str " --dport "; p; str " -j ACCEPT"; quiet] in
  if freebsd then
    fmt 256 [str "echo 'pass in proto "; proto; str " from any to any port "; p;
             str "' | pfctl -a wsl_listener -f -"; quiet]
  else fmt 256 (rule (str "-C") ++ [str " || "] ++ rule (str "-A")).

Definition gns_handle_set_port_listener (msg : bytes) (seq : Z) : M Z :=
  with_content msg seq (fun content =>
    let port := gns_json_get_int content (str "Port") 0 in
    let family := gns_json_get_int content (str "Family") 2 in
    let note := str "listener configured" in
    note ←
      (if valid_port port then
         run_noting (port_listener_cmd family port) note (str "listener config failed (non-fatal)")
       else mret note);
    gns_send_result seq 0 note).

Definition gns_handle_listener_relay (msg : bytes) (seq : Z) : M Z :=
  with_content msg seq (fun _ => gns_send_result seq 0 (str "relay ack")).

Definition create_device_cmd (name : bytes) : bytes :=
  if freebsd then fmt 192 [str "ifconfig "; name; str " create"; quiet]
  else fmt 192 [str "ip link add "; name; str " type veth peer name "; name; str "-peer"; quiet;
                str " && ip link set "; name; str " up"; quiet].

Definition gns_handle_create_device (msg : bytes) (seq : Z) : M Z :=
  with_content msg seq (fun content =>
    let name := get_field content (str "Name") 64 in
    let note := str "device created" in
    note ←
      (if negb (is_empty name) then
         run_noting (create_device_cmd name) note (str "device create failed (non-fatal)")
       else mret note);
    gns_send_result seq 0 note).

Definition modify_device_cmd (name setting value : bytes) : bytes :=
  if freebsd then fmt 192 [str "ifconfig "; name; str " "; setting; str " "; value; quiet]
  else if strcmp_eq setting (str "mtu") then
    fmt 192 [str "ip link set dev "; name; str " mtu "; value; quiet]
  else fmt 192 [str "ip link set dev "; name; str " "; setting; str " "; value; quiet].

Definition gns_handle_modify_device_setting (msg : bytes) (seq : Z) : M Z :=
  with_content msg seq (fun content =>
    let name := get_field content (str "Name") 64 in
    let setting := get_field content (str "Setting") 32 in
    let value := get_field content (str "Value") 64 in
    let note := str "device modified" in
    note ←
      (if negb (is_empty name) && negb (is_empty setting) && negb (is_empty value) then
         run_noting (modify_device_cmd name setting value) note (str "device modify failed (non-fatal)")
       else mret note);
    gns_send_result seq 0 note).

Definition loopback_route_cmd (action dest : bytes) : bytes :=
  let is_del := strcmp_eq action (str "remove") || strcmp_eq action (str "del") || strcmp_eq action (str "delete") in
  if freebsd then
    fmt 256 [str "route "; if is_del then str "delete" else str "add"; str " "; dest; str " -interface lo0"; quiet]
  else
    fmt 256 [str "ip route "; if is_del then str "del" else str "add"; str " "; dest; str " dev lo"; quiet].

Definition gns_handle_loopback_routes (msg : bytes) (seq : Z) : M Z :=
  with_content msg seq (fun content =>
    let action := get_field content (str "Action") 16 in
    let dest := get_field content (str "Destination") 80 in
    let note := str "loopback route applied" in
    note ←
      (if negb (is_empty action) && negb (is_empty dest) then
         run_noting (loopback_route_cmd action dest) note (str "loopback route failed (non-fatal)")
       else mret note);
    gns_send_result seq 0 note).

(** The first line of a stream, in a buffer of 64 bytes, without its end. *)
Definition first_line (content : bytes) : bytes :=
  match fgets_lines 64 content with
  | l :: _ => rev (drop_while is_newline (rev (to_cstr l)))
  | [] => []
  end.

Definition setting_value (name setting : bytes) : M bytes :=
  let pipe cmd := r ← ask (fun h => popen h cmd); emit (Popen cmd);;
                  mret (match r with Some out => first_line out | None => [] end) in
  if freebsd then
    pipe (fmt 256 [str "ifconfig "; name; quiet; str " | grep -i "; setting; str " | head -1"])
  else if strcmp_eq setting (str "mtu") then
    mret (match read_file (fmt 256 [str "/sys/class/net/"; name; str "/mtu"]) with
          | Some content => first_line content
          | None => []
          end)
  else pipe (fmt 256 [str "ip link show "; name; quiet; str " | grep -i "; setting; str " | head -1"]).

Definition gns_handle_device_setting (msg : bytes) (seq : Z) : M Z :=
  with_content msg seq (fun content =>
    let name := get_field content (str "Name") 64 in
    let setting := get_field content (str "Setting") 32 in
    let note := str "device setting queried" in
    note ←
      (if negb (is_empty name) && negb (is_empty setting) then
         value ← setting_value name setting;
         mret (if negb (is_empty value) then fmt 128 [setting; str "="; value]
               else fmt 128 [setting; str " not found"])
       else mret note);
    gns_send_result seq 0 note).

Definition gns_handle_if_state_change (msg : bytes) (seq : Z) : M Z :=
  with_content msg seq (fun content =>
    let name := get_field content (str "Name") 64 in
    let up := gns_json_get_bool content (str "Up") 1 in
    let mtu := gns_json_get_int content (str "MTU") 0 in
    when (negb (is_empty name))
      (run (if 0 <? mtu
            then fmt 128 [str "ifconfig "; name; str " "; up_down up; str " mtu "; dec_signed mtu; quiet]
            else fmt 128 [str "ifconfig "; name; str " "; up_down up; quiet]));;
    emit (Send (result_bytes LxGnsMessageIfStateChangeResponse seq 0 (str "state changed")))).

Definition global_filter_cmd (action rules : bytes) : bytes :=
  let load := fmt 512 [str "echo '"; rules; str "' | pfctl -a wsl_global -f -"; quiet] in
  if strcmp_eq action (str "flush") then
    if freebsd then fmt 512 [str "pfctl -a wsl_global -Fr"; quiet] else fmt 512 [str "iptables -F INPUT"; quiet]
  else if strcmp_eq action (str "remove") && negb (is_empty rules) then
    if freebsd then load else fmt 512 [str "iptables -D INPUT "; rules; quiet]
  else if negb (is_empty rules) then
    if freebsd then load
    else fmt 512 [str "iptables -C INPUT "; rules; quiet; str " || iptables -A INPUT "; rules; quiet]
  else str "true".

Definition gns_handle_global_netfilter (msg : bytes) (seq : Z) : M Z :=
  with_content msg seq (fun content =>
    let action := get_field content (str "Action") 16 in
    let rules := get_field content (str "Rules") 512 in
    let note := str "global netfilter applied" in
    note ←
      (if negb (is_empty action) then
         run_noting (global_filter_cmd action rules) note (str "global netfilter failed (non-fatal)")
       else mret note);
    gns_send_result seq 0 note).

Definition interface_filter_cmd (name action rules : bytes) : bytes :=
  if strcmp_eq action (str "flush") then
    if freebsd then fmt 512 [str "pfctl -a wsl_iface_"; name; str " -Fr"; quiet]
    else fmt 512 [str "iptables -F INPUT"; quiet]
  else if strcmp_eq action (str "remove") && negb (is_empty rules) then
    if freebsd then
      fmt 512 [str "echo 'block in on "; name; str "' | pfctl -a wsl_iface_"; name; str " -f -"; quiet]
    else fmt 512 [str "iptables -D INPUT -i "; name; str " "; rules; quiet]
  else if negb (is_empty rules) then
    if freebsd then
      fmt 512 [str "echo '"; rules; str " on "; name; str "' | pfctl -a wsl_iface_"; name; str " -f -"; quiet]
    else fmt 512 [str "iptables -C INPUT -i "; name; str " "; rules; quiet;
                  str " || iptables -A INPUT -i "; name; str " "; rules; quiet]
  else str "true".

Definition gns_handle_interface_netfilter (msg : bytes) (seq : Z) : M Z :=
  with_content msg seq (fun content =>
    let name := get_field content (str "Name") 64 in
    let action := get_field content (str "Action") 16 in
    let rules := get_field content (str "Rules") 512 in
    let note := str "interface netfilter applied" in
    note ←
      (if negb (is_empty name) && negb (is_empty action) then
         run_noting (interface_filter_cmd name action rules) note (str "interface netfilter failed (non-fatal)")
       else mret note);
    gns_send_result seq 0 note).

Definition connect_test (addr : bytes) (port : Z) (proto : bytes) : M (Z * bytes) :=
  if negb (is_empty addr) && valid_port port then
    let udp := strcmp_eq proto (str "udp") in
    r ← ask (fun h => connects h addr port udp);
    match r with
    | None => mret (0, str "socket creation failed")
    | Some ok =>
      emit (Connect addr port udp);;
      mret (if ok || udp then (0, str "connect succeeded") else (-1, str "connect failed (non-fatal)"))
    end
  else mret (0, str "connect ok").

Definition gns_handle_connect_test (msg : bytes) (seq : Z) : M unit :=
  match gns_extract_content msg with
  | None => gns_send_result seq 0 (str "connect ok (no payload)")
  | Some content =>
    r ← connect_test (get_field content (str "Address") 64) (gns_json_get_int content (str "Port") 0)
          (get_field content (str "Protocol") 16);
    gns_send_result seq (fst r) (snd r)
  end.

Definition gns_handle_nic_created (msg : bytes) (seq : Z) : M unit :=
  match gns_extract_content msg with
  | None => gns_send_result seq 0 (str "nic created (no content)")
  | Some content =>
    let iface := get_field content (str "interfaceName") 32 in
    let iface :=
      if is_empty iface then snd (gns_json_get_string content (str "targetDeviceName") iface 32) else iface in
    when (negb (is_empty iface))
      (gns_set_default_interface iface;;
       when freebsd (run (str "sysctl net.inet.ip.forwarding=1" ++ quiet)));;
    gns_send_result seq 0 (str "nic created")
  end.

(** * The engine *)

(** The switch of the engine's loop. *)
Definition dispatch (msg : bytes) : M unit :=
  let hdr := read_header msg in
  let typ := MessageType hdr in
  let seq := SequenceNumber hdr in
  if typ =? LxGnsMessageInterfaceConfiguration then gns_handle_interface_configuration msg seq;; skip
  else if typ =? LxGnsMessageNotification then gns_handle_notification msg seq;; skip
  else if typ =? LxGnsMessageNoOp then gns_send_result seq 0 (str "noop")
  else if typ =? LxGnsMessageConnectTestRequest then gns_handle_connect_test msg seq
  else if typ =? LxGnsMessageInitialIpConfigurationNotification then gns_send_result seq 0 (str "ip configured")
  else if typ =? LxGnsMessageSetupIpv6 then gns_handle_setup_ipv6 seq
  else if typ =? LxGnsMessageVmNicCreatedNotification then gns_handle_nic_created msg seq
  else if typ =? LxGnsMessagePortMappingRequest then gns_handle_port_mapping_request msg seq;; skip
  else if typ =? LxGnsMessageSetPortListener then gns_handle_set_port_listener msg seq;; skip
  else if typ =? LxGnsMessageListenerRelay then gns_handle_listener_relay msg seq;; skip
  else if typ =? LxGnsMessageCreateDeviceRequest then gns_handle_create_device msg seq;; skip
  else if typ =? LxGnsMessageModifyGuestDeviceSettingRequest then gns_handle_modify_device_setting msg seq;; skip
  else if typ =? LxGnsMessageLoopbackRoutesRequest then gns_handle_loopback_routes msg seq;; skip
  else if typ =? LxGnsMessageDeviceSettingRequest then gns_handle_device_setting msg seq;; skip
  else if typ =? LxGnsMessageIfStateChangeRequest then gns_handle_if_state_change msg seq;; skip
  else if typ =? LxGnsMessageGlobalNetFilter then gns_handle_global_netfilter msg seq;; skip
  else if typ =? LxGnsMessageInterfaceNetFilter then gns_handle_interface_netfilter msg seq;; skip
  else gns_send_result seq 0 (str "unhandled").

(** [tracker] is [None] when port_tracker_init failed; [stream] is what the
    host has sent and the engine has not read. *)
Record engine : Type := mk_engine {
  e_gns : gns; stream : bytes; tracker : option (list PortTracker.port_entry); last_port_scan : Z
}.
#[export] Instance engine_eta : Eta engine := fun r =>
  mk_engine (e_gns r) (stream r) (tracker r) (last_port_scan r).

(** What one turn of the loop meets: [poll] fails; it times out or is
    interrupted, at a time, with the ports that are listening and what the
    socket does; it reports the channel, an error or input, with what the two
    receptions meet. *)
Inductive engine_event : Type :=
| Poll_failed
| Idle (now : Z) (ports : option (list PortTracker.port_entry)) (evs : list sock_event)
| Ready (error pollin : bool) (header_evs payload_evs : list sock_event).

Definition relay_op (s : PortTracker.sent_relay) : gns_op :=
  Send (PortTracker.relay_bytes (PortTracker.s_type s) (PortTracker.s_entry s) 0).

Definition port_scan (now : Z) (ports : option (list PortTracker.port_entry)) (evs : list sock_event)
    (e : engine) : engine :=
  match tracker e with
  | None => e
  | Some entries =>
    if 1 <=? now - last_port_scan e then
      let r := PortTracker.port_tracker_poll entries ports evs in
      e <| e_gns := e_gns e <| ops := ops (e_gns e) ++ map relay_op (PortTracker.p_trace r) |> |>
        <| tracker := Some (PortTracker.p_entries r) |> <| last_port_scan := now |>
    else e
  end.

(** How a turn ends: the loop goes on, it is left, or a reception still waits
    when its events run out. *)
Inductive turn : Type := Continue | Leave | Waiting.

Definition receive_message (header_evs payload_evs : list sock_event) (e : engine) : turn * engine :=
  match recv_all header_evs (stream e) (Z.to_nat sizeof_header) with
  | (mk_xfer (Some 0) hdr _, s) =>
    let size := MessageSize (read_header hdr) in
    if size <? sizeof_header then (Continue, e <| stream := s |>)
    else
      match recv_all payload_evs s (Z.to_nat (size - sizeof_header)) with
      | (mk_xfer (Some 0) payload _, s) =>
        (Continue, e <| stream := s |> <| e_gns := snd (dispatch (hdr ++ payload) (e_gns e)) |>)
      | (mk_xfer None _ _, s) => (Waiting, e <| stream := s |>)
      | (mk_xfer (Some _) _ _, s) => (Leave, e <| stream := s |>)
      end
  | (mk_xfer None _ _, s) => (Waiting, e <| stream := s |>)
  | (mk_xfer (Some _) _ _, s) => (Leave, e <| stream := s |>)
  end.

Definition engine_turn (ev : engine_event) (e : engine) : turn * engine :=
  match ev with
  | Poll_failed => (Leave, e)
  | Idle now ports evs => (Continue, port_scan now ports evs e)
  | Ready error pollin header_evs payload_evs =>
    if error then (Leave, e)
    else if negb pollin then (Continue, e)
    else receive_message header_evs payload_evs e
  end.

Fixpoint gns_engine_loop (events : list engine_event) (e : engine) : turn * engine :=
  match events with
  | [] => (Continue, e)
  | ev :: events' =>
    match engine_turn ev e with
    | (Continue, e') => gns_engine_loop events' e'
    | r => r
    end
  end.

End Engine.
End Gns.
