(* ===== verification/GnsThm.v ===== *)
(** Theorems on the network engine: one reply for each message, in order (GnsThm), and
    the changes that a host asks for (GnsNotifyThm).
    First the JSON reader (GnsJsonThm). *)
From stdpp Require Import sets.
From S2P Require Import Prelude CStr CNum Wire ChannelThm PortTracker GnsJson Gns.

Import GnsJson.

Module GnsJsonThm.

(** * The search as a scan *)

Lemma after_first_length pat s r :
  after_first pat s = Some r -> (length r + length pat <= length s)%nat.
Proof.
  assert (Hhere : forall s, starts_with pat s = true -> (length (drop (length pat) s) + length pat <= length s)%nat).
  { intros s0 E. apply starts_with_spec in E as [t ->]. rewrite drop_app_length, length_app. lia. }
  induction s as [|c s IH]; cbn [after_first]; destruct (starts_with pat _) eqn:E; [| |intros [= <-]; auto|].
  - intros [= <-]. auto.
  - done.
  - intros H. specialize (IH H). simpl. lia.
Qed.

Section Scan.
Context (key : bytes).
Abbreviation pat := (key_pattern key).

Lemma pattern_length : length pat = S (S (length key)).
Proof. unfold key_pattern. rewrite !length_app. simpl. lia. Qed.

Lemma loop_fuel f g p :
  (length p < f)%nat -> (length p < g)%nat -> find_value_loop f pat p = find_value_loop g pat p.
Proof.
  revert g p. induction f as [|f IH]; intros [|g] p Hf Hg; try lia. cbn [find_value_loop].
  destruct (after_first pat p) as [r|] eqn:E; [|done].
  apply after_first_length in E. rewrite pattern_length in E.
  pose proof (drop_while_length json_blank r) as Hd.
  destruct (drop_while json_blank r) as [|c p']; [apply IH; simpl; lia|].
  case_if; [done|]. apply IH; simpl in *; lia.
Qed.

(** The search from a position of the text. *)
Definition scan (s : bytes) : option bytes := find_value_loop (S (length s)) pat s.

Lemma scan_nil : scan [] = None.
Proof. done. Qed.

Lemma scan_skip c s : starts_with pat (c :: s) = false -> scan (c :: s) = scan s.
Proof.
  intros H. unfold scan. cbn [find_value_loop]. cbn [after_first]. rewrite H.
  destruct (after_first pat s) as [r|] eqn:E; [|done].
  apply after_first_length in E. rewrite pattern_length in E.
  pose proof (drop_while_length json_blank r) as Hd.
  destruct (drop_while json_blank r) as [|c' p']; [apply loop_fuel; simpl; lia|].
  case_if; [done|]. apply loop_fuel; simpl in *; lia.
Qed.

Lemma after_first_here s rest : s = pat ++ rest -> after_first pat s = Some rest.
Proof.
  intros ->. assert (H : starts_with pat (pat ++ rest) = true) by apply starts_with_app.
  destruct (pat ++ rest) as [|c s] eqn:E; cbn [after_first]; rewrite H; rewrite <-E, drop_app_length; done.
Qed.

Lemma scan_found rest v :
  drop_while json_blank rest = c_colon :: v -> scan (pat ++ rest) = Some (drop_while json_blank v).
Proof.
  intros H. unfold scan. cbn [find_value_loop]. rewrite (after_first_here _ rest) by done. by rewrite H.
Qed.

Lemma scan_other c rest :
  json_blank c = false -> c <> c_colon -> scan (pat ++ c :: rest) = scan (c :: rest).
Proof.
  intros Hb Hc. unfold scan at 1. cbn [find_value_loop]. rewrite (after_first_here _ (c :: rest)) by done.
  rewrite drop_while_head by done. apply Z.eqb_neq in Hc. rewrite Hc.
  apply loop_fuel; rewrite ?length_app, ?pattern_length; simpl; lia.
Qed.

Lemma scan_other_nil : scan pat = None.
Proof.
  unfold scan. cbn [find_value_loop]. rewrite (after_first_here _ []) by (by rewrite app_nil_r).
  rewrite pattern_length. done.
Qed.

Lemma not_here c s : c <> c_quote -> starts_with pat (c :: s) = false.
Proof.
  intros H. unfold key_pattern. cbn [app starts_with].
  destruct (c_quote =? c) eqn:E; [bool_to_prop; congruence|done].
Qed.

(** Text without quotes holds no key. *)
Lemma scan_no_quote a s : Forall (fun b => b <> c_quote) a -> scan (a ++ s) = scan s.
Proof.
  induction 1 as [|c a Hc _ IH]; [done|]. cbn [app]. rewrite scan_skip by by apply not_here. done.
Qed.
End Scan.

(** * JSON values and their text *)
Inductive json : Type :=
| JString (s : bytes)
| JInt (n : Z)
| JBool (b : bool)
| JObject (ms : members)
with members : Type :=
| MNil
| MCons (k : bytes) (v : json) (ms : members).

Scheme json_mut := Induction for json Sort Prop
  with members_mut := Induction for members Sort Prop.
Combined Scheme json_members_ind from json_mut, members_mut.

Definition special (c : Z) : bool := (c =? c_quote) || (c =? c_bslash).
Definition esc (s : bytes) : bytes := flat_map (fun c => if special c then [c_bslash; c] else [c]) s.
Definition quoted (s : bytes) : bytes := c_quote :: esc s ++ [c_quote].

Fixpoint print (v : json) : bytes :=
  match v with
  | JString s => quoted s
  | JInt n => dec_signed n
  | JBool b => if b then str "true" else str "false"
  | JObject ms => c_lbrace :: print_members ms ++ [c_rbrace]
  end
with print_members (ms : members) : bytes :=
  match ms with
  | MNil => []
  | MCons k v MNil => quoted k ++ [c_colon] ++ print v
  | MCons k v ms' => quoted k ++ [c_colon] ++ print v ++ [c_comma] ++ print_members ms'
  end.

(** The first member with the key, in document order and at any depth. *)
Fixpoint find_json (key : bytes) (v : json) : option json :=
  match v with
  | JObject ms => find_members key ms
  | _ => None
  end
with find_members (key : bytes) (ms : members) : option json :=
  match ms with
  | MNil => None
  | MCons k v ms' =>
    if list_eqb k key then Some v
    else match find_json key v with
         | Some x => Some x
         | None => find_members key ms'
         end
  end.

Definition key_ok (k : bytes) : Prop := k <> [] /\ Forall (fun c => isalnum c = true) k.

(** The keys are letters and digits; the strings are arbitrary bytes. *)
Fixpoint json_ok (v : json) : Prop :=
  match v with
  | JObject ms => members_ok ms
  | _ => True
  end
with members_ok (ms : members) : Prop :=
  match ms with
  | MNil => True
  | MCons k v ms' => key_ok k /\ json_ok v /\ members_ok ms'
  end.

Definition delim (c : Z) : Prop := c = c_comma \/ c = c_rbrace.

Lemma alnum_plain c : isalnum c = true -> c <> c_quote /\ c <> c_bslash /\ c <> c_colon /\ json_blank c = false.
Proof.
  unfold json_blank. unfold_ctype. intros H.
  repeat match goal with H : _ || _ = true |- _ => apply orb_prop in H as [H|H] end; bool_to_prop;
    repeat split; try lia; apply orb_false_intro; apply Z.eqb_neq; lia.
Qed.

Lemma alnum_no_quote k : Forall (fun c => isalnum c = true) k -> Forall (fun b => b <> c_quote) k.
Proof. intros H. eapply Forall_impl_hint; [exact H|]. intros x Hx. by destruct (alnum_plain x Hx). Qed.

Lemma esc_cons c s : esc (c :: s) = (if special c then [c_bslash; c] else [c]) ++ esc s.
Proof. done. Qed.

Lemma esc_alnum k : Forall (fun c => isalnum c = true) k -> esc k = k.
Proof.
  induction 1 as [|c k Hc _ IH]; [done|]. rewrite esc_cons, IH.
  apply alnum_plain in Hc as (H1 & H2 & _). apply Z.eqb_neq in H1, H2.
  unfold special. by rewrite H1, H2.
Qed.

(** A key that is read where an escaped string stands is that string. *)
Lemma esc_key_split key s r t :
  Forall (fun c => isalnum c = true) key ->
  esc s ++ c_quote :: r = key ++ c_quote :: t -> s = key /\ r = t.
Proof.
  intros Hk. revert s. induction Hk as [|k key Hk _ IH]; intros [|a s]; rewrite ?esc_cons.
  - intros [= ->]. done.
  - unfold special. destruct (a =? c_quote) eqn:E1; [done|]. destruct (a =? c_bslash) eqn:E2; [done|].
    intros [= -> _]. done.
  - intros [= <- _]. by apply alnum_plain in Hk as (? & _).
  - apply alnum_plain in Hk as (H1 & H2 & _). destruct (special a) eqn:E; [intros [= <- _]; done|].
    cbn [app]. intros [= <- H]. destruct (IH _ H) as [-> ->]. done.
Qed.

Section Find.
Context (key : bytes) (Hkey : key_ok key).

Lemma key_alnum : Forall (fun c => isalnum c = true) key.
Proof. apply Hkey. Qed.

Lemma not_before c rest : isalnum c = false -> starts_with (key_pattern key) (c_quote :: c :: rest) = false.
Proof.
  intros Hc. destruct Hkey as [Hne Ha]. destruct Ha as [|k key' Hk _]; [done|].
  unfold key_pattern. cbn [app starts_with]. rewrite Z.eqb_refl.
  destruct (k =? c) eqn:E; [bool_to_prop; congruence|done].
Qed.

Lemma at_quote s r :
  starts_with (key_pattern key) (c_quote :: esc s ++ c_quote :: r) = list_eqb s key.
Proof.
  destruct (list_eqb s key) eqn:E.
  - apply list_eqb_eq in E as ->. apply starts_with_spec. exists r.
    rewrite esc_alnum by apply key_alnum. unfold key_pattern. cbn [app]. by rewrite <-app_assoc.
  - apply list_eqb_neq in E. apply not_true_is_false. rewrite starts_with_spec. intros [t Ht].
    unfold key_pattern in Ht. cbn [app] in Ht. rewrite <-app_assoc in Ht. injection Ht as Ht.
    by apply esc_key_split in Ht as [-> _]; [|apply key_alnum].
Qed.

(** The inside of a string, from any character on. *)
Lemma scan_inside s c rest :
  isalnum c = false -> json_blank c = false -> c <> c_colon ->
  scan key (esc s ++ c_quote :: c :: rest) = scan key (c :: rest)
  /\ scan key (c_quote :: esc s ++ c_quote :: c :: rest) = scan key (c :: rest).
Proof.
  intros Hc Hb Hcol.
  assert (Hquote : forall s, scan key (esc s ++ c_quote :: c :: rest) = scan key (c :: rest) ->
    scan key (c_quote :: esc s ++ c_quote :: c :: rest) = scan key (c :: rest)).
  { intros s' IH. pose proof (at_quote s' (c :: rest)) as Hq. destruct (list_eqb s' key) eqn:E.
    - apply list_eqb_eq in E as ->. rewrite esc_alnum by apply key_alnum.
      rewrite <-(scan_other key c rest) by done. f_equal. unfold key_pattern. cbn [app].
      by rewrite <-app_assoc.
    - by rewrite scan_skip. }
  cut (scan key (esc s ++ c_quote :: c :: rest) = scan key (c :: rest)); [by auto|].
  induction s as [|a s IH]; [cbn [esc flat_map app]; by rewrite (scan_skip key c_quote) by by apply not_before|].
  rewrite esc_cons. destruct (special a) eqn:E; cbn [app].
  - rewrite scan_skip by by apply not_here.
    destruct (decide (a = c_quote)) as [->|Ha]; [by apply Hquote|by rewrite scan_skip by by apply not_here].
  - unfold special in E. bool_to_prop. by rewrite scan_skip by by apply not_here.
Qed.

Lemma scan_member k rest :
  key_ok k ->
  scan key (quoted k ++ c_colon :: rest)
  = if list_eqb k key then Some (drop_while json_blank rest) else scan key rest.
Proof.
  intros [_ Hk]. unfold quoted. cbn [app]. rewrite <-app_assoc. cbn [app].
  pose proof (at_quote k (c_colon :: rest)) as Hq. destruct (list_eqb k key) eqn:E.
  - apply list_eqb_eq in E as ->. rewrite esc_alnum by done.
    rewrite <-(scan_found key (c_colon :: rest) rest) by done. f_equal. unfold key_pattern. cbn [app].
    by rewrite <-app_assoc.
  - rewrite scan_skip by done. rewrite esc_alnum by done.
    rewrite scan_no_quote; [|by apply alnum_no_quote].
    rewrite scan_skip by by apply not_before. by rewrite scan_skip by by apply not_here.
Qed.

Lemma scan_delim c rest : delim c -> scan key (c :: rest) = scan key rest.
Proof. intros [-> | ->]; by rewrite scan_skip by by apply not_here. Qed.

Lemma dec_signed_no_quote n : Forall (fun b => b <> c_quote) (dec_signed n).
Proof.
  assert (H : forall m, 0 <= m -> Forall (fun b => b <> c_quote) (dec m)).
  { intros m Hm. eapply Forall_impl_hint; [by apply dec_digits|]. simpl. lia. }
  unfold dec_signed. case_if; [constructor; [done|]|]; apply H; lia.
Qed.

Lemma print_head v : exists c t, print v = c :: t /\ json_blank c = false.
Proof.
  destruct v as [s|n|b|ms]; cbn [print]; [by eexists _, _| |destruct b; by eexists _, _|by eexists _, _].
  unfold dec_signed. case_if; [by eexists _, _|].
  assert (Hd := dec_digits n ltac:(lia)). assert (dec n <> []).
  { intros E. pose proof (scan_digits_dec n [] ltac:(lia) eq_refl) as Hs. rewrite E in Hs.
    simpl in Hs. injection Hs as <-. by vm_compute in E. }
  destruct (dec n) as [|c t]; [done|]. apply Forall_cons in Hd as [Hc _].
  exists c, t. split; [done|]. unfold json_blank. apply orb_false_intro; apply Z.eqb_neq; lia.
Qed.

Lemma drop_blank_print v rest : drop_while json_blank (print v ++ rest) = print v ++ rest.
Proof. destruct (print_head v) as (c & t & -> & Hc). cbn [app]. by apply drop_while_head. Qed.

(** What the search gives from the start of a value's text. *)
Definition finds (r : option json) (found : option bytes) (rest : bytes) : Prop :=
  match r with
  | Some x => exists c' rest', delim c' /\ found = Some (print x ++ c' :: rest')
  | None => found = scan key rest
  end.

Lemma scan_print :
  (forall v, json_ok v -> forall c rest, delim c ->
     finds (find_json key v) (scan key (print v ++ c :: rest)) (c :: rest))
  /\ (forall ms, members_ok ms -> forall c rest, delim c ->
     finds (find_members key ms) (scan key (print_members ms ++ c :: rest)) (c :: rest)).
Proof.
  apply json_members_ind; cbn [print print_members json_ok members_ok find_json find_members].
  - intros s _ c rest Hc. unfold quoted. cbn [app finds]. rewrite <-app_assoc. cbn [app].
    apply (scan_inside s c rest); by destruct Hc as [-> | ->].
  - intros n _ c rest Hc. cbn [finds]. apply scan_no_quote, dec_signed_no_quote.
  - intros b _ c rest Hc. cbn [finds]. apply scan_no_quote. destruct b; repeat constructor; done.
  - intros ms IH Hok c rest Hc. cbn [app]. rewrite <-app_assoc, scan_skip by by apply not_here.
    pose proof (IH Hok c_rbrace (c :: rest) (or_intror eq_refl)) as H. destruct (find_members key ms); [done|].
    cbn [finds app] in *. by rewrite H, scan_delim by by right.
  - done.
  - intros k v IHv ms IHms (Hk & Hv & Hms) c rest Hc.
    assert (Ht : exists c' rest', delim c' /\ print_members (MCons k v ms) ++ c :: rest
        = quoted k ++ c_colon :: (print v ++ c' :: rest')
        /\ finds (find_members key ms) (scan key (c' :: rest')) (c :: rest)).
    { specialize (IHms Hms c rest Hc). destruct ms as [|k' v' ms'].
      - exists c, rest. cbn [print_members]. rewrite <-!app_assoc. done.
      - exists c_comma, (print_members (MCons k' v' ms') ++ c :: rest). split; [by left|].
        rewrite scan_delim by by left. split; [cbn [print_members]; by rewrite <-!app_assoc|done]. }
    destruct Ht as (c' & rest' & Hc' & Htext & Hrest).
    cbn [print_members] in Htext. rewrite Htext, scan_member by done.
    destruct (list_eqb k key); [exists c', rest'; by rewrite drop_blank_print|].
    specialize (IHv Hv c' rest' Hc'). destruct (find_json key v); [done|]. cbn [finds] in IHv.
    by rewrite IHv.
Qed.
End Find.

(** * Reading values back *)
Definition key_fits (key : bytes) : Prop := key_ok key /\ (length key <= 61)%nat.

Lemma find_value_scan json key : key_fits key -> gns_json_find_value json key = scan key json.
Proof.
  intros [_ Hl]. unfold gns_json_find_value. rewrite pattern_length.
  destruct (_ || _) eqn:E; [|done]. apply orb_prop in E as [E|E]; bool_to_prop; lia.
Qed.

Lemma find_value_spec key ms :
  key_fits key -> members_ok ms ->
  match find_members key ms with
  | Some x => exists c rest, delim c /\ gns_json_find_value (print (JObject ms)) key = Some (print x ++ c :: rest)
  | None => gns_json_find_value (print (JObject ms)) key = None
  end.
Proof.
  intros Hk Hms. rewrite find_value_scan by done. destruct Hk as [Hk _]. cbn [print app].
  rewrite scan_skip by by apply not_here.
  pose proof (proj2 (scan_print key Hk) ms Hms c_rbrace [] (or_intror eq_refl)) as H.
  destruct (find_members key ms); cbn [finds] in H; [done|].
  by rewrite H, scan_delim by by right.
Qed.

Lemma string_loop_esc room s rest : string_loop room (esc s ++ c_quote :: rest) = take room s.
Proof.
  revert room. induction s as [|c s IH]; intros [|room]; try done. rewrite esc_cons.
  destruct (special c) eqn:E; cbn [app string_loop take]; [by rewrite IH|].
  apply orb_false_elim in E as [E1 E2]. rewrite E1, E2. by rewrite IH.
Qed.

Lemma strtol_delim n c rest :
  LONG_MIN <= n <= LONG_MAX -> delim c -> strtol 10 (dec_signed n ++ c :: rest) = (n, false, Some (c :: rest)).
Proof. intros Hn Hc. apply strtol_dec_signed; [done|]. by destruct Hc as [-> | ->]. Qed.

(** * Copying an object *)
Lemma object_loop_plain r d a rest :
  Forall (fun c => c <> c_quote /\ c <> c_lbrace /\ c <> c_rbrace) a ->
  object_loop false (length a + r) d (a ++ rest) = a ++ object_loop false r d rest.
Proof.
  induction 1 as [|c a (H1 & H2 & H3) _ IH]; [done|]. apply Z.eqb_neq in H1, H2, H3.
  cbn [length Nat.add app object_loop]. by rewrite H1, H2, H3, IH.
Qed.

Lemma object_loop_inside r d s rest :
  object_loop true (length (esc s) + S r) d (esc s ++ c_quote :: rest)
  = esc s ++ c_quote :: object_loop false r d rest.
Proof.
  induction s as [|c s IH]; [done|]. rewrite esc_cons. destruct (special c) eqn:E; cbn [app length Nat.add].
  - cbn [object_loop]. cbn [Z.eqb Pos.eqb Nat.pred]. by rewrite IH.
  - apply orb_false_elim in E as [E1 E2]. cbn [object_loop]. rewrite E1, E2. cbn [negb]. by rewrite IH.
Qed.

Lemma object_loop_quoted r d s rest :
  object_loop false (length (quoted s) + r) d (quoted s ++ rest) = quoted s ++ object_loop false r d rest.
Proof.
  unfold quoted. cbn [app length Nat.add object_loop]. cbn [Z.eqb Pos.eqb].
  replace (length (esc s ++ [c_quote]) + r)%nat with (length (esc s) + S r)%nat
    by (rewrite length_app; simpl; lia).
  rewrite <-!app_assoc. cbn [app]. by rewrite object_loop_inside.
Qed.

Lemma dec_signed_plain n : Forall (fun c => c <> c_quote /\ c <> c_lbrace /\ c <> c_rbrace) (dec_signed n).
Proof.
  assert (H : forall m, 0 <= m -> Forall (fun c => c <> c_quote /\ c <> c_lbrace /\ c <> c_rbrace) (dec m)).
  { intros m Hm. eapply Forall_impl_hint; [by apply dec_digits|]. simpl. lia. }
  unfold dec_signed. case_if; [constructor; [done|]|]; apply H; lia.
Qed.

(** A printed value is copied whole, at any depth inside an object. *)
Definition copies (s : bytes) : Prop :=
  forall r d rest, 1 <= d ->
    object_loop false (length s + r) d (s ++ rest) = s ++ object_loop false r d rest.

Lemma copies_app a b : copies a -> copies b -> copies (a ++ b).
Proof. intros Ha Hb r d rest Hd. by rewrite length_app, <-Nat.add_assoc, <-!app_assoc, Ha, Hb. Qed.

Lemma copies_plain a : Forall (fun c => c <> c_quote /\ c <> c_lbrace /\ c <> c_rbrace) a -> copies a.
Proof. intros Ha r d rest _. by apply object_loop_plain. Qed.

Lemma object_loop_open r d s rest :
  0 <= d -> copies s ->
  object_loop false (length (c_lbrace :: s ++ [c_rbrace]) + r) d (c_lbrace :: s ++ [c_rbrace] ++ rest)
  = c_lbrace :: s ++ c_rbrace :: (if d =? 0 then [] else object_loop false r d rest).
Proof.
  intros Hd Hs. cbn [length Nat.add object_loop]. cbn [Z.eqb Pos.eqb].
  rewrite length_app, <-Nat.add_assoc, Hs by lia. do 2 f_equal.
  cbn [length Nat.add app object_loop]. cbn [Z.eqb Pos.eqb].
  replace (d + 1 - 1) with d by lia. by destruct (d =? 0).
Qed.

Lemma copies_print : (forall v, copies (print v)) /\ (forall ms, copies (print_members ms)).
Proof.
  apply json_members_ind; cbn [print print_members].
  - intros s r d rest _. apply object_loop_quoted.
  - intros n. apply copies_plain, dec_signed_plain.
  - intros b. apply copies_plain. destruct b; repeat constructor; done.
  - intros ms IH r d rest Hd. cbn [app]. rewrite <-!app_assoc.
    rewrite object_loop_open by (done || lia). by destruct (d =? 0) eqn:E; [bool_to_prop; lia|].
  - by apply copies_plain.
  - intros k v IHv ms IHms.
    assert (Hk : copies (quoted k ++ [c_colon])).
    { apply copies_app; [intros r d rest _; apply object_loop_quoted|]. apply copies_plain. repeat constructor; done. }
    assert (Hcomma : copies [c_comma]) by (apply copies_plain; by repeat constructor).
    destruct ms as [|k' v' ms']; rewrite (app_assoc (quoted k)).
    + by apply copies_app.
    + by apply copies_app, copies_app, copies_app.
Qed.

Lemma subobject_copied ms rest room :
  (length (print (JObject ms)) <= room)%nat ->
  object_loop false room 0 (print (JObject ms) ++ rest) = print (JObject ms).
Proof.
  intros Hroom. replace room with (length (print (JObject ms)) + (room - length (print (JObject ms))))%nat by lia.
  cbn [print app]. rewrite <-app_assoc, object_loop_open by (done || apply copies_print). done.
Qed.

(** * Each reader on a printed object *)
Lemma key_fits_lit k :
  forallb isalnum k && (negb (list_eqb k [])) && (length k <=? 61)%nat = true -> key_fits k.
Proof.
  intros H. bool_to_prop. apply Nat.leb_le in H0. split; [split|done].
  - intros ->. done.
  - apply Forall_forall. intros x Hx. rewrite forallb_forall in H. by apply H, list_elem_of_In.
Qed.

Section Readers.
Context (key : bytes) (ms : members) (Hk : key_fits key) (Hms : members_ok ms).
Abbreviation text := (print (JObject ms)).

Lemma find_value_reads x :
  find_members key ms = Some x ->
  exists c rest, delim c /\ gns_json_find_value text key = Some (print x ++ c :: rest).
Proof. intros H. pose proof (find_value_spec key ms Hk Hms) as Hf. by rewrite H in Hf. Qed.

Lemma find_value_absent : find_members key ms = None -> gns_json_find_value text key = None.
Proof. intros H. pose proof (find_value_spec key ms Hk Hms) as Hf. by rewrite H in Hf. Qed.

Lemma get_string_reads s out outsz :
  find_members key ms = Some (JString s) ->
  gns_json_get_string text key out outsz = (0, take (Z.to_nat (outsz - 1)) s).
Proof.
  intros H. destruct (find_value_reads _ H) as (c & rest & _ & E). unfold gns_json_get_string. rewrite E.
  cbn [print quoted app]. cbn [Z.eqb Pos.eqb]. rewrite <-app_assoc. cbn [app]. by rewrite string_loop_esc.
Qed.

Lemma get_field_reads s outsz :
  find_members key ms = Some (JString s) -> Z.of_nat (length s) < outsz -> get_field text key outsz = s.
Proof.
  intros H Hl. unfold get_field. rewrite (get_string_reads s) by done. cbn [snd]. apply take_ge. lia.
Qed.

Lemma get_field_absent outsz : find_members key ms = None -> get_field text key outsz = [].
Proof. intros H. unfold get_field, gns_json_get_string. by rewrite find_value_absent. Qed.

Lemma get_int_reads n def :
  find_members key ms = Some (JInt n) -> LONG_MIN <= n <= LONG_MAX -> gns_json_get_int text key def = n.
Proof.
  intros H Hn. destruct (find_value_reads _ H) as (c & rest & Hc & E). unfold gns_json_get_int. rewrite E.
  cbn [print]. by rewrite strtol_delim.
Qed.

Lemma get_bool_reads (b : bool) def :
  find_members key ms = Some (JBool b) -> gns_json_get_bool text key def = if b then 1 else 0.
Proof.
  intros H. destruct (find_value_reads _ H) as (c & rest & _ & E). unfold gns_json_get_bool. rewrite E.
  by destruct b.
Qed.

Lemma get_subobject_reads sub outsz :
  find_members key ms = Some (JObject sub) -> Z.of_nat (length (print (JObject sub))) < outsz ->
  gns_json_get_subobject text key outsz = (0, Some (print (JObject sub))).
Proof.
  intros H Hsz. destruct (find_value_reads _ H) as (c & rest & _ & E). unfold gns_json_get_subobject. rewrite E.
  pose proof (subobject_copied sub (c :: rest) (Z.to_nat (outsz - 1)) ltac:(lia)) as Hcopy.
  change (print (JObject sub) ++ c :: rest)
    with (c_lbrace :: (print_members sub ++ [c_rbrace]) ++ c :: rest) in *.
  cbn [Z.eqb Pos.eqb]. rewrite Hcopy. done.
Qed.
End Readers.

(** Reading back what was written.  Take a JSON object with letters and
    digits as keys and arbitrary bytes in its strings (quotes, backslashes,
    text that looks like another member), printed without blanks, and let the
    first member named [key], in document order and at any depth, be [x].  A
    string is returned unescaped, cut to the buffer; a number and a boolean
    are returned as they are; an object that fits is copied unchanged.  When no
    member has that name, each function reports it or returns the default. *)
Theorem json_readers_roundtrip key ms :
  key_fits key -> members_ok ms ->
  match find_members key ms with
  | Some (JString s) =>
      forall out outsz, 1 <= outsz ->
        gns_json_get_string (print (JObject ms)) key out outsz = (0, take (Z.to_nat (outsz - 1)) s)
  | Some (JInt n) =>
      forall def, LONG_MIN <= n <= LONG_MAX -> gns_json_get_int (print (JObject ms)) key def = n
  | Some (JBool b) =>
      forall def, gns_json_get_bool (print (JObject ms)) key def = if b then 1 else 0
  | Some (JObject sub) =>
      forall outsz, Z.of_nat (length (print (JObject sub))) < outsz ->
        gns_json_get_subobject (print (JObject ms)) key outsz = (0, Some (print (JObject sub)))
  | None =>
      forall out outsz def,
        gns_json_get_string (print (JObject ms)) key out outsz = (-1, out)
        /\ gns_json_get_int (print (JObject ms)) key def = def
        /\ gns_json_get_bool (print (JObject ms)) key def = def
        /\ gns_json_get_subobject (print (JObject ms)) key outsz = (-1, None)
  end.
Proof.
  intros Hk Hms. destruct (find_members key ms) as [[s|n|b|sub]|] eqn:E.
  - intros out outsz _. by apply get_string_reads.
  - intros def. by apply get_int_reads.
  - intros def. by apply get_bool_reads.
  - intros outsz. by apply get_subobject_reads.
  - intros out outsz def. pose proof (find_value_absent key ms Hk Hms E) as Hf.
    unfold gns_json_get_string, gns_json_get_int, gns_json_get_bool, gns_json_get_subobject. by rewrite Hf.
Qed.

Definition sample : members :=
  MCons (str "ResourceType") (JString (str "Route"))
  (MCons (str "Note") (JString (str "a \" ++ [c_quote] ++ str "Settings" ++ [c_quote; c_colon]))
  (MCons (str "Settings") (JObject (MCons (str "Metric") (JInt (-5)) (MCons (str "Up") (JBool true) MNil)))
   MNil)).

Lemma json_readers_roundtrip_witness :
  let text := print (JObject sample) in
  let settings := print (JObject (MCons (str "Metric") (JInt (-5)) (MCons (str "Up") (JBool true) MNil))) in
  gns_json_get_string text (str "Note") [] 8 = (0, str "a \" ++ [c_quote] ++ str "Set")
  /\ gns_json_get_int text (str "Metric") 0 = -5
  /\ gns_json_get_bool text (str "Up") 0 = 1
  /\ gns_json_get_subobject text (str "Settings") 40 = (0, Some settings).
Proof.
  assert (Hok : members_ok sample) by (repeat constructor; done).
  split; [|split; [|split]].
  - apply (json_readers_roundtrip (str "Note") sample (key_fits_lit (str "Note") eq_refl) Hok [] 8). lia.
  - apply (json_readers_roundtrip (str "Metric") sample (key_fits_lit (str "Metric") eq_refl) Hok). by vm_compute.
  - apply (json_readers_roundtrip (str "Up") sample (key_fits_lit (str "Up") eq_refl) Hok).
  - apply (json_readers_roundtrip (str "Settings") sample (key_fits_lit (str "Settings") eq_refl) Hok 40). by vm_compute.
Defined.

(** * How much is written *)
Lemma string_loop_length room v : (length (string_loop room v) <= room)%nat.
Proof.
  assert (H : forall n v room, (length v <= n)%nat -> (length (string_loop room v) <= room)%nat).
  { induction n as [|n IH]; intros [|c v'] [|room'] Hn; simpl in *; try lia.
    case_if; [simpl; lia|]. case_if; [destruct v' as [|c2 v'']|]; simpl in *; try lia.
    - specialize (IH v'' room' ltac:(lia)). lia.
    - specialize (IH v' room' ltac:(lia)). lia. }
  by apply (H (length v)).
Qed.

Lemma object_loop_length b room d v :
  (length (object_loop b room d v) <= S room)%nat
  /\ (room = 0%nat -> object_loop b room d v = [])
  /\ (Forall (fun c => c <> c_bslash) v -> (length (object_loop b room d v) <= room)%nat).
Proof.
  assert (H : forall n v b room d, (length v <= n)%nat ->
    (length (object_loop b room d v) <= S room)%nat
    /\ (room = 0%nat -> object_loop b room d v = [])
    /\ (Forall (fun c => c <> c_bslash) v -> (length (object_loop b room d v) <= room)%nat)).
  { clear. induction n as [|n IH]; intros [|c v'] b [|r] d Hn; simpl in Hn; try (simpl; repeat split; lia || done).
    assert (Hone : forall b' d', let l := c :: object_loop b' r d' v' in
      (length l <= S (S r))%nat /\ (S r = 0%nat -> l = [])
      /\ (Forall (fun c => c <> c_bslash) (c :: v') -> (length l <= S r)%nat)).
    { intros b' d'. destruct (IH v' b' r d' ltac:(lia)) as (H1 & H2 & H3). cbn [length].
      split; [lia|]. split; [done|]. intros Hf. apply Forall_cons in Hf as [_ Hf]. specialize (H3 Hf). lia. }
    cbn [object_loop]. destruct b.
    - case_if; [|apply Hone]. destruct v' as [|c2 v'']; [simpl; repeat split; try lia|].
      simpl in Hn. destruct (IH v'' true (Nat.pred r) d ltac:(lia)) as (H1 & H2 & _). cbn [length].
      split; [destruct r; [rewrite H2 by done; simpl; lia|simpl in *; lia]|]. split; [done|].
      intros Hf. apply Forall_cons in Hf as [Hf _]. done.
    - case_if; [apply Hone|]. case_if; [case_if; [|apply Hone]|apply Hone].
      simpl. repeat split; try lia. }
  by apply (H (length v)).
Qed.

Lemma find_value_forall (P : Z -> Prop) json key v :
  gns_json_find_value json key = Some v -> Forall P json -> Forall P v.
Proof.
  unfold gns_json_find_value. destruct (_ || _); [done|]. generalize (S (length json)). intros fuel.
  generalize (key_pattern key). intros pat.
  assert (Hdrop : forall l, Forall P l -> Forall P (drop_while json_blank l)).
  { intros l Hl. rewrite <-(take_drop_while json_blank l) in Hl. by apply Forall_app in Hl as [_ Hl]. }
  assert (Hafter : forall s r, after_first pat s = Some r -> Forall P s -> Forall P r).
  { induction s as [|c s IH]; intros r; cbn [after_first]; destruct (starts_with pat _);
      try (intros [= <-]; apply Forall_drop); try done. intros H Hs. apply Forall_cons in Hs as [_ Hs]. auto. }
  revert json. induction fuel as [|fuel IH]; intros json; cbn [find_value_loop]; [done|].
  destruct (after_first pat json) as [r|] eqn:E; [|done]. intros H Hj.
  specialize (Hdrop r (Hafter _ _ E Hj)) as Hr. destruct (drop_while json_blank r) as [|c p'].
  - by apply (IH []).
  - destruct (c =? c_colon); [injection H as <-; apply Hdrop; by apply Forall_cons in Hr as [_ Hr]|by apply (IH (c :: p'))].
Qed.

(** What the readers write.  Reading a string leaves the terminator inside
    the buffer.  Copying an object writes at most [outsz] bytes before the
    terminator, one more than the buffer holds with it; without backslashes in
    the text it stays inside. *)
Theorem json_writes_bounded json key out outsz :
  1 <= outsz ->
  (Z.of_nat (length out) < outsz -> Z.of_nat (length (snd (gns_json_get_string json key out outsz))) < outsz)
  /\ (forall rc sub, gns_json_get_subobject json key outsz = (rc, Some sub) ->
       Z.of_nat (length sub) <= outsz
       /\ (Forall (fun c => c <> c_bslash) json -> Z.of_nat (length sub) < outsz)).
Proof.
  intros Hsz. unfold gns_json_get_string, gns_json_get_subobject.
  destruct (gns_json_find_value json key) as [[|c v]|] eqn:E; [by split|split|by split].
  - intros Hout. case_if; [|done]. cbn [snd]. pose proof (string_loop_length (Z.to_nat (outsz - 1)) v). lia.
  - intros rc sub. case_if; [|done]. intros [= _ <-].
    destruct (object_loop_length false (Z.to_nat (outsz - 1)) 0 (c :: v)) as (H1 & _ & H3).
    split; [lia|]. intros Hb. specialize (H3 (find_value_forall _ _ _ _ E Hb)). lia.
Qed.

Lemma json_writes_bounded_witness :
  Z.of_nat (length (snd (gns_json_get_string (print (JObject sample)) (str "Note") [] 4))) < 4.
Proof. apply (json_writes_bounded (print (JObject sample)) (str "Note") [] 4); done. Defined.

(** An escape at the end of the buffer: 8 bytes and the terminator go into a
    buffer of 8. *)
Example subobject_overflows :
  let text := str "{" ++ quoted (str "Settings") ++ str ":{" ++ quoted (str "a") ++ str ":"
              ++ quoted [c_bslash; c_bslash] ++ str "}}" in
  exists sub, gns_json_get_subobject text (str "Settings") 8 = (0, Some sub) /\ Z.of_nat (length sub) = 8.
Proof. eexists. split; reflexivity. Qed.

(** Arrays are not objects: the lists of addresses and gateways are not read. *)
Example address_list_not_read :
  gns_json_get_subobject (str "{" ++ quoted (str "IPAddresses") ++ str ":[" ++ quoted (str "10.0.0.2") ++ str "]}")
    (str "IPAddresses") 256 = (-1, None).
Proof. reflexivity. Qed.

(** The search does not know the depth: a member of the settings answers for
    the request. *)
Example nested_member_wins :
  get_field (print (JObject (MCons (str "Settings") (JObject (MCons (str "RequestType") (JString (str "x")) MNil))
             (MCons (str "RequestType") (JString (str "Add")) MNil)))) (str "RequestType") 16 = str "x".
Proof. reflexivity. Qed.
End GnsJsonThm.

Import Wire WireThm GnsJson GnsJsonThm Gns.

Module GnsThm.

(** * What is sent *)
Definition sends (h : list gns_op) : list bytes :=
  omap (fun o => match o with Send m => Some m | _ => None end) h.

Lemma sends_app a b : sends (a ++ b) = sends a ++ sends b.
Proof. apply omap_app. Qed.

Section Replies.
Context (freebsd : bool).
Context (system : list gns_op -> bytes -> Z).
Context (fopen_w fclose_ok : list gns_op -> bytes -> bool).
Context (rename_ok : list gns_op -> bytes -> bytes -> bool).
Context (popen : list gns_op -> bytes -> option bytes).
Context (read_file : bytes -> option bytes).
Context (inet6 : list gns_op -> bool).
Context (connects : list gns_op -> bytes -> Z -> bool -> option bool).

(** The computation sends nothing. *)
Definition silent {A} (m : M A) : Prop :=
  forall st, exists new, ops (snd (m st)) = ops st ++ new /\ sends new = [].

(** It sends one result, as its last operation. *)
Definition replies {A} (typ seq : Z) (m : M A) : Prop :=
  forall st, exists pre code note,
    ops (snd (m st)) = ops st ++ pre ++ [Send (result_bytes typ seq code note)] /\ sends pre = [].

Lemma silent_same {A} (m : M A) : (forall st, ops (snd (m st)) = ops st) -> silent m.
Proof. intros H st. exists []. by rewrite app_nil_r. Qed.

Lemma silent_ret {A} (x : A) : silent (mret x).
Proof. by apply silent_same. Qed.
Lemma silent_get : silent get.
Proof. by apply silent_same. Qed.
Lemma silent_ask {A} (f : list gns_op -> A) : silent (ask f).
Proof. by apply silent_same. Qed.
Lemma silent_default name : silent (gns_set_default_interface name).
Proof. apply silent_same. intros st. cbn. by destruct (is_empty name). Qed.

Lemma silent_emit o : (match o with Send _ => False | _ => True end) -> silent (emit o).
Proof. intros H st. exists [o]. split; [done|]. by destruct o. Qed.

Lemma silent_if {A} (b : bool) (m1 m2 : M A) : silent m1 -> silent m2 -> silent (if b then m1 else m2).
Proof. by destruct b. Qed.
Lemma replies_if {A} (b : bool) typ seq (m1 m2 : M A) :
  replies typ seq m1 -> replies typ seq m2 -> replies typ seq (if b then m1 else m2).
Proof. by destruct b. Qed.

Lemma silent_bind {A B} (m : M A) (f : A -> M B) : silent m -> (forall x, silent (f x)) -> silent (m ≫= f).
Proof.
  intros Hm Hf st. destruct (Hm st) as (n1 & H1 & Hs1). unfold mbind, M_bind. destruct (m st) as [x st1].
  destruct (Hf x st1) as (n2 & H2 & Hs2). exists (n1 ++ n2).
  cbn [snd] in *. by rewrite H2, H1, app_assoc, sends_app, Hs1, Hs2.
Qed.

Lemma replies_bind {A B} typ seq (m : M A) (f : A -> M B) :
  silent m -> (forall x, replies typ seq (f x)) -> replies typ seq (m ≫= f).
Proof.
  intros Hm Hf st. destruct (Hm st) as (n1 & H1 & Hs1). unfold mbind, M_bind. destruct (m st) as [x st1].
  destruct (Hf x st1) as (n2 & code & note & H2 & Hs2). exists (n1 ++ n2), code, note.
  cbn [snd] in *. by rewrite H2, H1, <-!app_assoc, sends_app, Hs1, Hs2.
Qed.

(** After the reply, only values are returned. *)
Lemma replies_then {A B} typ seq (m : M A) (x : B) : replies typ seq m -> replies typ seq (m ≫= fun _ => mret x).
Proof.
  intros Hm st. destruct (Hm st) as (pre & code & note & H & Hs). exists pre, code, note.
  unfold mbind, M_bind. by destruct (m st).
Qed.

Lemma replies_emit typ seq code note : replies typ seq (emit (Send (result_bytes typ seq code note))).
Proof. intros st. by exists [], code, note. Qed.

Lemma replies_send_result seq code note : replies LxGnsMessageResult seq (gns_send_result seq code note).
Proof. apply replies_emit. Qed.

#[local] Hint Resolve silent_ret silent_get silent_ask silent_default : wsl.

Ltac silence_step :=
  match goal with
  | |- silent (mret _) => apply silent_ret
  | |- silent skip => apply silent_ret
  | |- silent (ask _) => apply silent_ask
  | |- silent get => apply silent_get
  | |- silent (emit _) => apply silent_emit; exact I
  | |- silent (gns_set_default_interface _) => apply silent_default
  | |- silent (_ ≫= _) => apply silent_bind; [|intros ?]
  | |- silent (when ?b _) => unfold when
  | |- silent (if _ then _ else _) => apply silent_if
  | |- silent (match ?x with _ => _ end) => destruct x
  end.
Ltac silence := repeat (cbv zeta; first [silence_step | solve [auto with wsl]]).

Lemma silent_run_cmd cmd : silent (gns_run_cmd freebsd system cmd).
Proof. unfold gns_run_cmd, sys. silence. Qed.
Lemma silent_run cmd : silent (run freebsd system cmd).
Proof. unfold run. silence. apply silent_run_cmd. Qed.
Lemma silent_run_noting cmd n f : silent (run_noting freebsd system cmd n f).
Proof. unfold run_noting. silence. apply silent_run_cmd. Qed.
#[local] Hint Resolve silent_run_cmd silent_run silent_run_noting : wsl.

Lemma silent_apply_address c : silent (apply_address freebsd system c).
Proof. unfold apply_address. silence. Qed.
Lemma silent_apply_gateway c : silent (apply_gateway freebsd system c).
Proof. unfold apply_gateway. silence. Qed.
Lemma silent_apply_mac content i : silent (apply_mac_address freebsd system content i).
Proof. unfold apply_mac_address. silence. Qed.
Lemma silent_route s r : silent (gns_apply_route_change freebsd system s r).
Proof. unfold gns_apply_route_change. silence. Qed.
Lemma silent_ip i s r : silent (gns_apply_ip_change freebsd system i s r).
Proof. unfold gns_apply_ip_change. silence. Qed.
Lemma silent_dns s r : silent (gns_apply_dns_change fopen_w s r).
Proof. unfold gns_apply_dns_change. silence. Qed.
Lemma silent_link i s r : silent (gns_apply_link_change freebsd system i s r).
Proof. unfold gns_apply_link_change. silence. Qed.
Lemma silent_mac i s : silent (gns_apply_mac_change freebsd system i s).
Proof. unfold gns_apply_mac_change. silence. Qed.
Lemma silent_setting n s : silent (setting_value freebsd popen read_file n s).
Proof. unfold setting_value. silence. Qed.
Lemma silent_connect a p pr : silent (connect_test connects a p pr).
Proof. unfold connect_test. silence. Qed.
Lemma silent_with_settings body n apply : (forall s, silent (apply s)) -> silent (with_settings body n apply).
Proof. intros H. unfold with_settings. silence. Qed.
#[local] Hint Resolve silent_apply_address silent_apply_gateway silent_apply_mac silent_route silent_ip silent_dns
  silent_link silent_mac silent_setting silent_connect silent_with_settings : wsl.

Lemma replies_with_content typ msg seq handle :
  (Z.of_nat (length msg) <= 12 -> typ = LxGnsMessageResult) ->
  (12 < Z.of_nat (length msg) -> forall content, replies typ seq (handle content)) ->
  replies typ seq (with_content msg seq handle).
Proof.
  intros Hs Hl. unfold with_content, gns_extract_content.
  case_if; apply replies_then; [rewrite Hs by done; apply replies_send_result|apply Hl; lia].
Qed.

Ltac answer_step :=
  match goal with
  | |- replies _ _ (gns_send_result _ _ _) => apply replies_send_result
  | |- replies _ _ (emit (Send _)) => apply replies_emit
  | |- replies _ _ (gns_send_result _ _ _ ≫= _) => apply replies_then
  | |- replies _ _ (_ ≫= _) => apply replies_bind; [|intros ?]
  | |- replies _ _ (if _ then _ else _) => apply replies_if
  | |- replies _ _ (match ?x with _ => _ end) => destruct x
  end.
Ltac answer := repeat (cbv zeta; first [answer_step | silence_step | solve [auto with wsl]]).
Ltac answer_content := apply replies_with_content; [done|intros _ ?]; answer.

Lemma replies_interface msg seq :
  replies LxGnsMessageResult seq (gns_handle_interface_configuration freebsd system msg seq).
Proof. unfold gns_handle_interface_configuration. answer. Qed.

Lemma replies_notification msg seq :
  replies LxGnsMessageResult seq (gns_handle_notification freebsd system fopen_w msg seq).
Proof. unfold gns_handle_notification. answer; apply silent_with_settings; auto with wsl. Qed.

Lemma replies_ipv6 seq : replies LxGnsMessageResult seq (gns_handle_setup_ipv6 freebsd system inet6 seq).
Proof. unfold gns_handle_setup_ipv6. answer. Qed.

Lemma replies_port_mapping msg seq :
  replies LxGnsMessageResult seq (gns_handle_port_mapping_request freebsd system msg seq).
Proof. unfold gns_handle_port_mapping_request. answer_content. Qed.

Lemma replies_port_listener msg seq :
  replies LxGnsMessageResult seq (gns_handle_set_port_listener freebsd system msg seq).
Proof. unfold gns_handle_set_port_listener. answer_content. Qed.

Lemma replies_listener_relay msg seq : replies LxGnsMessageResult seq (gns_handle_listener_relay msg seq).
Proof. unfold gns_handle_listener_relay. answer_content. Qed.

Lemma replies_create_device msg seq :
  replies LxGnsMessageResult seq (gns_handle_create_device freebsd system msg seq).
Proof. unfold gns_handle_create_device. answer_content. Qed.

Lemma replies_modify_device msg seq :
  replies LxGnsMessageResult seq (gns_handle_modify_device_setting freebsd system msg seq).
Proof. unfold gns_handle_modify_device_setting. answer_content. Qed.

Lemma replies_loopback msg seq :
  replies LxGnsMessageResult seq (gns_handle_loopback_routes freebsd system msg seq).
Proof. unfold gns_handle_loopback_routes. answer_content. Qed.

Lemma replies_device_setting msg seq :
  replies LxGnsMessageResult seq (gns_handle_device_setting freebsd popen read_file msg seq).
Proof. unfold gns_handle_device_setting. answer_content. Qed.

Lemma replies_global_filter msg seq :
  replies LxGnsMessageResult seq (gns_handle_global_netfilter freebsd system msg seq).
Proof. unfold gns_handle_global_netfilter. answer_content. Qed.

Lemma replies_interface_filter msg seq :
  replies LxGnsMessageResult seq (gns_handle_interface_netfilter freebsd system msg seq).
Proof. unfold gns_handle_interface_netfilter. answer_content. Qed.

Lemma replies_connect msg seq : replies LxGnsMessageResult seq (gns_handle_connect_test connects msg seq).
Proof. unfold gns_handle_connect_test. answer. Qed.

Lemma replies_nic msg seq : replies LxGnsMessageResult seq (gns_handle_nic_created freebsd system msg seq).
Proof. unfold gns_handle_nic_created. answer. Qed.

Lemma replies_if_state msg seq :
  replies (if 12 <? Z.of_nat (length msg) then LxGnsMessageIfStateChangeResponse else LxGnsMessageResult) seq
    (gns_handle_if_state_change freebsd system msg seq).
Proof.
  unfold gns_handle_if_state_change. apply replies_with_content.
  - intros H. case_if; [lia|done].
  - intros H content. case_if; [|lia]. answer.
Qed.

(** The type of the reply to a message. *)
Definition reply_type (msg : bytes) : Z :=
  if (MessageType (read_header msg) =? LxGnsMessageIfStateChangeRequest) && (12 <? Z.of_nat (length msg))
  then LxGnsMessageIfStateChangeResponse else LxGnsMessageResult.

#[local] Hint Resolve replies_interface replies_notification replies_ipv6 replies_port_mapping replies_port_listener
  replies_listener_relay replies_create_device replies_modify_device replies_loopback replies_device_setting
  replies_global_filter replies_interface_filter replies_connect replies_nic replies_send_result : wsl.

Abbreviation dispatch := (Gns.dispatch freebsd system fopen_w popen read_file inet6 connects).

Lemma dispatch_replies msg : replies (reply_type msg) (SequenceNumber (read_header msg)) (dispatch msg).
Proof.
  unfold Gns.dispatch, reply_type. cbv zeta. set (typ := MessageType (read_header msg)).
  destruct (typ =? LxGnsMessageIfStateChangeRequest) eqn:E; cbn [andb].
  - apply Z.eqb_eq in E. rewrite E. cbn. apply replies_then, replies_if_state.
  - repeat (case_if; [solve [auto with wsl | apply replies_then; auto with wsl]|]). auto with wsl.
Qed.

(** * The engine's loop *)

(** The results among the messages sent; the port tracker's notifications have
    other types. *)
Definition is_result (m : bytes) : bool :=
  let typ := MessageType (read_header m) in
  (typ =? LxGnsMessageResult) || (typ =? LxGnsMessageIfStateChangeResponse).
Definition results (h : list gns_op) : list bytes := filter (fun m => is_result m = true) (sends h).

Definition is_reply (msg r : bytes) : Prop :=
  exists code note, r = result_bytes (reply_type msg) (SequenceNumber (read_header msg)) code note.

(** A message the host frames correctly. *)
Definition framed (m : bytes) : Prop :=
  12 <= Z.of_nat (length m) /\ MessageSize (read_header m) = Z.of_nat (length m).

Lemma results_app a b : results (a ++ b) = results a ++ results b.
Proof. unfold results. by rewrite sends_app, filter_app. Qed.

Lemma message_type_header typ size seq rest :
  0 <= typ < 2 ^ 32 -> MessageType (read_header (header_bytes (mk_header typ size seq) ++ rest)) = typ.
Proof.
  intros H. unfold read_header, header_bytes. cbn [MessageType MessageSize SequenceNumber].
  rewrite <-!app_assoc. unfold get32. rewrite get_le_head. by apply Z.mod_small.
Qed.

Lemma reply_is_result msg seq code note : is_result (result_bytes (reply_type msg) seq code note) = true.
Proof.
  unfold is_result, result_bytes, reply_type. by destruct (_ && _); rewrite message_type_header.
Qed.

Lemma results_dispatch msg st :
  exists r, results (ops (snd (dispatch msg st))) = results (ops st) ++ [r] /\ is_reply msg r.
Proof.
  destruct (dispatch_replies msg st) as (pre & code & note & Hops & Hpre).
  exists (result_bytes (reply_type msg) (SequenceNumber (read_header msg)) code note).
  split; [|by exists code, note]. rewrite Hops, !results_app.
  unfold results at 2 3. rewrite Hpre. cbn [sends omap list_omap app].
  rewrite filter_nil, filter_cons_True by apply reply_is_result. done.
Qed.

Lemma diff_loop_types fuel evs cur old trace :
  Forall (fun s => PortTracker.s_type s = 59 \/ PortTracker.s_type s = 60) trace ->
  Forall (fun s => PortTracker.s_type s = 59 \/ PortTracker.s_type s = 60)
    (snd (PortTracker.diff_loop fuel evs cur old trace)).
Proof.
  revert evs cur old trace. induction fuel as [|fuel IH]; intros evs cur old trace Ht; [done|].
  cbn [PortTracker.diff_loop]. cbv zeta.
  destruct cur as [|c cur], old as [|o old]; try done; repeat case_if; try done; apply IH; try done;
    (apply Forall_app; split; [done|]; repeat constructor; by (left + right)).
Qed.

Lemma results_port_scan now ports evs e :
  results (ops (e_gns (port_scan now ports evs e))) = results (ops (e_gns e))
  /\ stream (port_scan now ports evs e) = stream e.
Proof.
  unfold port_scan. destruct (tracker e) as [entries|]; [|done]. case_if; [|done]. split; [|done].
  etransitivity; [apply results_app|]. rewrite <-(app_nil_r (results (ops (e_gns e)))) at 2. f_equal.
  unfold PortTracker.port_tracker_poll. destruct ports as [current|]; [|done]. cbn [PortTracker.p_trace].
  pose proof (diff_loop_types (S (length current + length entries)) evs current entries [] ltac:(done)) as Ht.
  induction Ht as [|s l Hs _ IH]; [done|]. cbn [map]. change (relay_op s :: map relay_op l) with ([relay_op s] ++ map relay_op l).
  rewrite results_app, IH, app_nil_r. unfold results, relay_op. cbn [sends omap list_omap].
  rewrite filter_cons_False; [done|]. unfold is_result, PortTracker.relay_bytes.
  by destruct Hs as [-> | ->]; rewrite message_type_header.
Qed.

Lemma receive_framed m ms hevs pevs e :
  framed m -> stream e = m ++ concat ms ->
  receive_message freebsd system fopen_w popen read_file inet6 connects hevs pevs e
    = (Continue, e <| stream := concat ms |> <| e_gns := snd (dispatch m (e_gns e)) |>)
  \/ (fst (receive_message freebsd system fopen_w popen read_file inet6 connects hevs pevs e) <> Continue
      /\ e_gns (snd (receive_message freebsd system fopen_w popen read_file inet6 connects hevs pevs e)) = e_gns e).
Proof.
  intros [Hlen Hsize] Hs. unfold receive_message.
  destruct (recv_loop_exact retry_again hevs (stream e) 12) as (Hall & Hdone & _). fold (recv_all hevs (stream e) 12) in *.
  change (Z.to_nat sizeof_header) with 12%nat.
  destruct (recv_all hevs (stream e) 12) as [[[rc|] hdr hev'] s1]; [|by right]. cbn [fst snd x_rc x_data] in *.
  destruct rc; [|by right|by right]. destruct (Hdone eq_refl) as [Hhdr _]. rewrite Hs in Hhdr.
  rewrite take_app_le in Hhdr by lia. assert (Hh : read_header hdr = read_header m).
  { rewrite Hhdr. by apply read_header_take. }
  rewrite Hh, Hsize. destruct (_ <? sizeof_header) eqn:E; [unfold sizeof_header in E; bool_to_prop; lia|clear E].
  assert (Hs1 : s1 = drop 12 m ++ concat ms).
  { rewrite Hs, <-(take_drop 12 m), <-app_assoc, Hhdr in Hall. by apply app_inv_head in Hall. }
  replace (Z.to_nat (Z.of_nat (length m) - sizeof_header)) with (length (drop 12 m))
    by (rewrite length_drop; unfold sizeof_header; lia).
  destruct (recv_loop_exact retry_again pevs s1 (length (drop 12 m))) as (Hall2 & Hdone2 & _).
  fold (recv_all pevs s1 (length (drop 12 m))) in *.
  destruct (recv_all pevs s1 (length (drop 12 m))) as [[[rc|] pl pev'] s2]; [|by right]. cbn [fst snd x_rc x_data] in *.
  destruct rc; [|by right|by right]. left. destruct (Hdone2 eq_refl) as [Hpl _].
  rewrite Hs1, take_app_length in Hpl. rewrite Hs1, Hpl in Hall2. apply app_inv_head in Hall2.
  by rewrite Hall2, Hpl, Hhdr, take_drop.
Qed.

Abbreviation receive := (receive_message freebsd system fopen_w popen read_file inet6 connects).
Abbreviation engine_loop := (gns_engine_loop freebsd system fopen_w popen read_file inet6 connects).

Lemma receive_empty hevs pevs e :
  stream e = [] ->
  fst (receive hevs pevs e) <> Continue /\ e_gns (snd (receive hevs pevs e)) = e_gns e.
Proof.
  intros Hs. unfold receive_message. rewrite Hs.
  destruct (recv_loop_exact retry_again hevs [] 12) as (_ & Hdone & _). fold (recv_all hevs [] 12) in *.
  change (Z.to_nat sizeof_header) with 12%nat.
  destruct (recv_all hevs [] 12) as [[[rc|] hdr hev'] s1]; [|done]. cbn [fst snd x_rc x_data] in *.
  destruct rc; [|done|done]. destruct (Hdone eq_refl) as [_ Hl]. simpl in Hl. lia.
Qed.

(** A turn that reads one message, on a socket that works and delivers data
    often enough for messages of up to [n] bytes; or a turn that reads none. *)
Definition works (n : nat) (ev : engine_event) : Prop :=
  match ev with
  | Poll_failed => False
  | Idle _ _ _ => True
  | Ready error _ hevs pevs =>
    error = false /\ healthy hevs /\ healthy pevs /\ (12 <= progress hevs)%nat /\ (n <= progress pevs)%nat
  end.

Definition reads (ev : engine_event) : nat :=
  match ev with Ready false true _ _ => 1%nat | _ => 0%nat end.
Definition total_reads (events : list engine_event) : nat := list_sum (map reads events).

Lemma total_reads_cons ev events : total_reads (ev :: events) = (reads ev + total_reads events)%nat.
Proof. done. Qed.

Lemma receive_works n m ms hevs pevs e :
  framed m -> stream e = m ++ concat ms -> (length m <= n)%nat -> works n (Ready false true hevs pevs) ->
  fst (receive hevs pevs e) = Continue.
Proof.
  intros [Hlen Hsize] Hs Hn (_ & Hh & Hp & Hh12 & Hpn). unfold receive_message. rewrite Hs.
  change (Z.to_nat sizeof_header) with 12%nat.
  destruct (recv_all_complete hevs (m ++ concat ms) 12) as (hev' & -> & _); [done|done|rewrite length_app; lia|].
  rewrite take_app_le, drop_app_le by lia.
  rewrite (read_header_take 12 m), Hsize by lia.
  destruct (_ <? sizeof_header) eqn:E; [done|].
  destruct (recv_all_complete pevs (drop 12 m ++ concat ms) (Z.to_nat (Z.of_nat (length m) - sizeof_header)))
    as (pev' & -> & _); [done|unfold sizeof_header; lia|rewrite length_app, length_drop; unfold sizeof_header; lia|done].
Qed.

(** One turn: the loop goes on after the messages that the turn reads are
    answered, or it ends and nothing is sent. *)
Lemma turn_spec ms ev e :
  Forall framed ms -> stream e = concat ms ->
  (exists e' rs, engine_turn freebsd system fopen_w popen read_file inet6 connects ev e = (Continue, e')
     /\ results (ops (e_gns e')) = results (ops (e_gns e)) ++ rs
     /\ Forall2 is_reply (take (reads ev) ms) rs /\ stream e' = concat (drop (reads ev) ms)
     /\ (reads ev <= length ms)%nat)
  \/ (exists t e', engine_turn freebsd system fopen_w popen read_file inet6 connects ev e = (t, e')
     /\ t <> Continue /\ e_gns e' = e_gns e).
Proof.
  intros Hms Hs.
  assert (Hnone : forall e', results (ops (e_gns e')) = results (ops (e_gns e)) -> stream e' = stream e ->
    exists e'' rs, (Continue, e') = (Continue, e'') /\ results (ops (e_gns e'')) = results (ops (e_gns e)) ++ rs
     /\ Forall2 is_reply (take 0 ms) rs /\ stream e'' = concat (drop 0 ms) /\ (0 <= length ms)%nat).
  { intros e' H1 H2. exists e', []. rewrite app_nil_r, H2. repeat split; [done|constructor|done|lia]. }
  destruct ev as [|now ports evs|error pollin hevs pevs]; cbn [engine_turn reads].
  - right. by exists Leave, e.
  - left. destruct (results_port_scan now ports evs e). by apply Hnone.
  - destruct error; [right; by exists Leave, e|]. destruct pollin; [|left; by apply Hnone]. cbn [negb].
    destruct ms as [|m ms].
    + destruct (receive_empty hevs pevs e Hs) as [H1 H2]. right.
      exists (fst (receive hevs pevs e)), (snd (receive hevs pevs e)). by rewrite <-surjective_pairing.
    + apply Forall_cons in Hms as [Hm Hms]. destruct (receive_framed m ms hevs pevs e Hm Hs) as [Heq|[H1 H2]].
      * left. destruct (results_dispatch m (e_gns e)) as (r & Hr & Hreply). eexists _, [r]. split; [exact Heq|].
        split; [exact Hr|]. split; [by repeat constructor|]. split; [done|cbn; lia].
      * right. exists (fst (receive hevs pevs e)), (snd (receive hevs pevs e)). by rewrite <-surjective_pairing.
Qed.

Lemma turn_works n ms ev e :
  Forall framed ms -> stream e = concat ms -> Forall (fun m => (length m <= n)%nat) ms -> works n ev ->
  (reads ev <= length ms)%nat ->
  fst (engine_turn freebsd system fopen_w popen read_file inet6 connects ev e) = Continue.
Proof.
  intros Hms Hs Hn Hw Hr. destruct ev as [|now ports evs|error pollin hevs pevs]; [done..|].
  destruct Hw as (-> & Hh & Hp & Hh12 & Hpn). cbn [engine_turn reads] in *.
  destruct pollin; [|done]. cbn [negb]. destruct ms as [|m ms]; [simpl in Hr; lia|].
  apply Forall_cons in Hms as [Hm _]. apply Forall_cons in Hn as [Hn _].
  by apply (receive_works n m ms).
Qed.

(** C21: Every message is answered once, in order.  The host has sent the
    messages [ms]; whatever the turns of the loop meet (timeouts with port
    scans, short reads, errors) and whatever the commands do, the results the
    engine sends are replies to a prefix of [ms], one each, in the order of the
    messages and with their sequence numbers.  While the loop goes on, that
    prefix has one message per turn that found input.  If every such turn finds
    a socket that works, the loop does go on. *)
Theorem messages_answered_in_order ms events e :
  Forall framed ms -> stream e = concat ms ->
  (exists k rs,
     results (ops (e_gns (snd (engine_loop events e)))) = results (ops (e_gns e)) ++ rs
     /\ Forall2 is_reply (take k ms) rs
     /\ (fst (engine_loop events e) = Continue -> k = total_reads events /\ (k <= length ms)%nat))
  /\ (forall n, Forall (fun m => (length m <= n)%nat) ms -> Forall (works n) events ->
      (total_reads events <= length ms)%nat -> fst (engine_loop events e) = Continue).
Proof.
  revert ms e. induction events as [|ev events IH]; intros ms e Hms Hs; cbn [gns_engine_loop].
  { split; [|done]. exists 0%nat, []. rewrite app_nil_r. repeat split; [constructor|lia]. }
  pose proof (turn_works) as Hworks.
  destruct (turn_spec ms ev e Hms Hs) as [(e' & rs & -> & Hr & Hrep & Hs' & Hle)|(t & e' & Heq & Ht & He)].
  - destruct (IH (drop (reads ev) ms) e' (Forall_drop _ _ _ Hms) Hs') as [(k & rs' & H1 & H2 & H3) H4]. split.
    + exists (reads ev + k)%nat, (rs ++ rs'). rewrite H1, Hr, <-app_assoc. split; [done|].
      rewrite <-take_take_drop. split; [by apply Forall2_app|]. intros Hc. destruct (H3 Hc) as [-> Hk].
      rewrite length_drop in Hk. split; [done|lia].
    + intros n Hn Hw Hc. apply Forall_cons in Hw as [_ Hw]. apply (H4 n (Forall_drop _ _ _ Hn) Hw).
      rewrite total_reads_cons in Hc. rewrite length_drop. lia.
  - split.
    + rewrite Heq. exists 0%nat, []. destruct t; [done| |]; cbn [fst snd]; rewrite He, app_nil_r; by repeat split.
    + intros n Hn Hw Hc. apply Forall_cons in Hw as [Hw _]. specialize (Hworks n ms ev e Hms Hs Hn Hw).
      rewrite Heq in Hworks. destruct Ht. apply Hworks. rewrite total_reads_cons in Hc. lia.
Qed.
End Replies.

(** * An example *)
Definition noop (seq : Z) : bytes := header_bytes (mk_header LxGnsMessageNoOp 12 seq).
Definition example_engine : engine :=
  mk_engine (mk_gns (str "hn0") 1 (str "/etc/resolv.conf") []) (noop 5 ++ noop 6) (Some []) 0.
(** A timeout, then two messages, the second after a wait. *)
Definition example_events : list engine_event :=
  [Idle 10 (Some []) []; Ready false true (replicate 12 (Progress 3)) (replicate 12 (Progress 0));
   Ready false true (Again true :: replicate 12 (Progress 11)) (replicate 12 (Progress 0))].

Lemma messages_answered_in_order_witness :
  fst (gns_engine_loop true (fun _ _ => 0) (fun _ _ => true) (fun _ _ => None) (fun _ => None) (fun _ => true)
         (fun _ _ _ _ => None) example_events example_engine) = Continue.
Proof.
  apply (messages_answered_in_order true (fun _ _ => 0) (fun _ _ => true) (fun _ _ => None) (fun _ => None)
    (fun _ => true) (fun _ _ _ _ => None) [noop 5; noop 6] example_events example_engine) with (n := 12%nat).
  - by repeat constructor.
  - reflexivity.
  - by repeat constructor.
  - constructor; [exact I|]. constructor; [|constructor; [|constructor]].
    all: split; [done|]; split; [by repeat constructor|]; split; [by repeat constructor|]; vm_compute; lia.
  - cbn. lia.
Defined.

(** A size below the header's is skipped, and the bytes that follow are read as
    the next header. *)
Example small_size_resynchronises :
  let bad := header_bytes (mk_header LxGnsMessageNoOp 4 1) in
  results (ops (e_gns (snd (gns_engine_loop true (fun _ _ => 0) (fun _ _ => true) (fun _ _ => None) (fun _ => None)
    (fun _ => true) (fun _ _ _ _ => None)
    [Ready false true (replicate 12 (Progress 11)) []; Ready false true (replicate 12 (Progress 11)) []]
    (example_engine <| stream := bad ++ noop 2 |>)))))
  = [result_bytes LxGnsMessageResult 2 0 (str "noop")].
Proof. vm_compute. reflexivity. Qed.
End GnsThm.

Import Wire GnsJson GnsJsonThm Gns.

Module GnsNotifyThm.

(** * What the host asks for *)
Inductive change : Type :=
| Route_change (next_hop dest : bytes)
| Ip_change (addr : bytes) (prefix : Z)
| Dns_change (domain : bytes) (search servers : list bytes) (options : bytes)
| Link_change (connected : bool) (mtu : Z)
| Mac_change (mac : bytes).

Definition resource_type (c : change) : bytes :=
  match c with
  | Route_change _ _ => str "Route"
  | Ip_change _ _ => str "IPAddress"
  | Dns_change _ _ _ _ => str "DNS"
  | Link_change _ _ => str "Interface"
  | Mac_change _ => str "MacAddress"
  end.

Definition settings_of (c : change) : members :=
  match c with
  | Route_change hop dest =>
      MCons (str "NextHop") (JString hop) (MCons (str "DestinationPrefix") (JString dest) MNil)
  | Ip_change addr prefix =>
      MCons (str "Address") (JString addr) (MCons (str "OnLinkPrefixLength") (JInt prefix) MNil)
  | Dns_change domain search servers options =>
      MCons (str "Domain") (JString domain) (MCons (str "Search") (JString (join c_comma search))
      (MCons (str "ServerList") (JString (join c_comma servers)) (MCons (str "Options") (JString options) MNil)))
  | Link_change connected mtu =>
      MCons (str "Connected") (JBool connected) (MCons (str "NlMtu") (JInt mtu) MNil)
  | Mac_change mac => MCons (str "PhysicalAddress") (JString mac) MNil
  end.

Definition request (c : change) (request_type device : bytes) : members :=
  MCons (str "ResourceType") (JString (resource_type c))
  (MCons (str "RequestType") (JString request_type)
  (MCons (str "targetDeviceName") (JString device)
  (MCons (str "Settings") (JObject (settings_of c)) MNil))).

Definition notification_message (seq : Z) (c : change) (request_type device : bytes) : bytes :=
  let body := print (JObject (request c request_type device)) in
  header_bytes (mk_header LxGnsMessageNotification (12 + (Z.of_nat (length body) + 1)) seq) ++ body ++ [0].

(** The buffer the settings are copied to. *)
Definition settings_room (c : change) : Z :=
  match c with
  | Route_change _ _ | Ip_change _ _ | Dns_change _ _ _ _ => 1024
  | Link_change _ _ => 512
  | Mac_change _ => 256
  end.

(** * What is to happen *)
Definition command (words : list bytes) : gns_op := Run (join c_space words ++ quiet).

Section Effects.
Context (fopen_w : list gns_op -> bytes -> bool).
Context (st : gns) (rq iface : bytes).

Definition is_request (s : string) : bool := strcmp_eq rq (str s).

Definition target (dest : bytes) : bytes := if or_default dest then str "default" else dest.

Definition route_effects (hop dest : bytes) : list gns_op :=
  if is_request "Reset" then [command [str "route"; str "delete"; str "default"]]
  else if is_request "Remove" then [command [str "route"; str "delete"; target dest; hop]]
  else (if is_request "Update" then [command [str "route"; str "delete"; str "default"; hop]] else [])
       ++ [command [str "route"; str "add"; target dest; hop]].

Definition slash (addr : bytes) (prefix : Z) : bytes := addr ++ str "/" ++ dec_signed prefix.

Definition ip_effects (addr : bytes) (prefix : Z) : list gns_op :=
  if is_request "Remove" then [command [str "ifconfig"; iface; str "delete"; addr]]
  else
    [if (0 <? prefix) && (prefix <=? 32) then command [str "ifconfig"; iface; slash addr prefix; str "alias"]
     else command [str "ifconfig"; iface; addr; str "netmask"; str "255.255.255.255"; str "alias"]]
    ++ (if is_request "Update" then
          [command [str "ifconfig"; iface; slash addr (if 0 <? prefix then prefix else 32); str "alias"]]
        else []).

Definition dns_effects (domain : bytes) (search servers : list bytes) (options : bytes) : list gns_op :=
  if is_request "Remove" || (g_generate_resolvconf st =? 0) || negb (fopen_w (ops st) (g_resolvconf_path st))
  then []
  else [Write (g_resolvconf_path st)
          (options
           ++ concat (map (fun s => str "nameserver " ++ s ++ [c_nl]) servers)
           ++ (if is_empty domain then [] else str "domain " ++ domain ++ [c_nl])
           ++ (if is_empty (join c_space search) then [] else str "search " ++ join c_space search ++ [c_nl]))].

Definition link_effects (connected : bool) (mtu : Z) : list gns_op :=
  [command [str "ifconfig"; iface; if connected then str "up" else str "down"]]
  ++ (if connected && (0 <? mtu) then [command [str "ifconfig"; iface; str "mtu"; dec_signed mtu]] else []).

Definition mac_effects (mac : bytes) : list gns_op :=
  [command [str "ifconfig"; iface; str "link"; map (fun c => if c =? c_dash then c_colon else c) mac]].

Definition effects (c : change) : list gns_op :=
  match c with
  | Route_change hop dest => route_effects hop dest
  | Ip_change addr prefix => ip_effects addr prefix
  | Dns_change domain search servers options => dns_effects domain search servers options
  | Link_change connected mtu => link_effects connected mtu
  | Mac_change mac => mac_effects mac
  end.
End Effects.

(** * Well-formed requests: what fits the buffers of the guest *)
Definition fits (n : Z) (s : bytes) : Prop := no_nul s /\ Z.of_nat (length s) < n.
(** An element of a comma-separated list. *)
Definition item (s : bytes) : Prop :=
  match s with c :: _ => c <> c_space | [] => False end /\ Forall (fun c => c <> c_comma) s.

Definition change_ok (c : change) : Prop :=
  match c with
  | Route_change hop dest => fits 64 hop /\ hop <> [] /\ fits 80 dest
  | Ip_change addr prefix => fits 64 addr /\ addr <> [] /\ LONG_MIN <= prefix <= LONG_MAX
  | Dns_change domain search servers options =>
      fits 128 domain /\ fits 256 (join c_comma search) /\ Forall item search
      /\ fits 512 (join c_comma servers) /\ Forall item servers /\ fits 256 options
  | Link_change _ mtu => LONG_MIN <= mtu <= LONG_MAX
  | Mac_change mac => fits 64 mac /\ mac <> []
  end.

(** * Lists in strings *)
Lemma strtok_from_item delim l cur s :
  Forall (fun c => delim c = false) l -> strtok_from delim cur (l ++ s) = strtok_from delim (rev l ++ cur) s.
Proof.
  intros H. revert cur. induction H as [|c l Hc _ IH]; intros cur; [done|]. cbn [app strtok_from].
  rewrite Hc, IH. cbn [rev]. by rewrite <-app_assoc.
Qed.

Lemma strtok_join sep l :
  Forall (fun s => s <> [] /\ Forall (fun c => c <> sep) s) l -> strtok (fun c => c =? sep) (join sep l) = l.
Proof.
  intros H. unfold strtok.
  assert (Hitem : forall s, Forall (fun c => c <> sep) s -> Forall (fun c => (c =? sep) = false) s).
  { intros s Hs. eapply Forall_impl_hint; [exact Hs|]. intros x Hx. by apply Z.eqb_neq. }
  assert (Hrev : forall s : bytes, s <> [] -> rev s ++ [] <> []).
  { intros s Hs. rewrite app_nil_r. intros E. apply Hs. by rewrite <-(rev_involutive s), E. }
  induction H as [|s l [Hne Hs] Hl IH]; [done|]. destruct l as [|s' l].
  - cbn [join]. rewrite <-(app_nil_r s) at 1. rewrite strtok_from_item by auto. cbn [strtok_from].
    specialize (Hrev s Hne). destruct (rev s ++ []) eqn:E; [done|]. by rewrite <-E, app_nil_r, rev_involutive.
  - change (join sep (s :: s' :: l)) with (s ++ sep :: join sep (s' :: l)).
    rewrite strtok_from_item by auto. cbn [strtok_from]. rewrite Z.eqb_refl, IH.
    specialize (Hrev s Hne). destruct (rev s ++ []) eqn:E; [done|]. by rewrite <-E, app_nil_r, rev_involutive.
Qed.

Lemma join_length sep sep' l : length (join sep l) = length (join sep' l).
Proof.
  induction l as [|s l IH]; [done|]. destruct l as [|s' l]; [done|].
  change (join sep (s :: s' :: l)) with (s ++ sep :: join sep (s' :: l)).
  change (join sep' (s :: s' :: l)) with (s ++ sep' :: join sep' (s' :: l)).
  rewrite !length_app. cbn [length]. by rewrite IH.
Qed.

Lemma join_snoc sep l s : l <> [] -> join sep (l ++ [s]) = join sep l ++ sep :: s.
Proof.
  intros Hl. induction l as [|a l IH]; [done|]. destruct l as [|b l]; [done|].
  change (join sep ((a :: b :: l) ++ [s])) with (a ++ sep :: join sep ((b :: l) ++ [s])).
  change (join sep (a :: b :: l)) with (a ++ sep :: join sep (b :: l)).
  rewrite IH by done. by rewrite <-app_assoc.
Qed.

Lemma no_spaces_item s : item s -> no_spaces s = s.
Proof. intros [H _]. destruct s as [|c s]; [done|]. apply drop_while_head. by apply Z.eqb_neq. Qed.

Lemma search_join l :
  Forall item l -> (length (join c_space l) <= 255)%nat -> foldl add_search [] l = join c_space l.
Proof.
  induction l as [|s l IH] using rev_ind; [done|]. intros Hi Hl. apply Forall_app in Hi as [Hi Hs].
  apply Forall_cons in Hs as [Hs _]. rewrite foldl_app. cbn [foldl].
  destruct (decide (l = [])) as [->|Hne].
  - cbn [foldl app join] in *. unfold add_search. cbn [is_empty app]. rewrite no_spaces_item by done.
    by apply take_ge.
  - rewrite join_snoc in * by done. rewrite length_app in Hl. cbn [length] in Hl. rewrite IH by (done || lia).
    unfold add_search. rewrite no_spaces_item by done.
    assert (He : is_empty (join c_space l) = false).
    { destruct l as [|a [|b l]]; [done| |by destruct a]. apply Forall_cons in Hi as [[Ha _] _]. by destruct a. }
    rewrite He. rewrite (take_ge (join c_space l ++ _)) by (rewrite length_app; simpl; lia).
    rewrite take_ge by (rewrite !length_app; simpl; lia). by rewrite <-app_assoc.
Qed.

(** * The commands, one change at a time *)
Section Apply.
Context (system : list gns_op -> bytes -> Z) (fopen_w : list gns_op -> bytes -> bool).

(** From any state, the computation does exactly these operations. *)
Definition does {A} (m : M A) (x : A) (l : list gns_op) : Prop :=
  forall st, m st = (x, st <| ops := ops st ++ l |>).

Lemma does_ret {A} (x : A) : does (mret x) x [].
Proof. intros st. unfold mret, M_ret. destruct st. cbn. by rewrite app_nil_r. Qed.

Lemma does_bind {A B} (m : M A) (f : A -> M B) x y l1 l2 :
  does m x l1 -> does (f x) y l2 -> does (m ≫= f) y (l1 ++ l2).
Proof.
  intros H1 H2 st. unfold mbind, M_bind. rewrite H1, H2. destruct st. cbn. by rewrite app_assoc.
Qed.

Lemma does_run cmd o : Run cmd = o -> does (run true system cmd) tt [o].
Proof. by intros <-. Qed.

Lemma does_when (b : bool) m l : does m tt l -> does (when b m) tt (if b then l else []).
Proof. intros H. destruct b; [done|]. apply does_ret. Qed.

Lemma does_if {A} (b : bool) (m1 m2 : M A) x l1 l2 :
  does m1 x l1 -> does m2 x l2 -> does (if b then m1 else m2) x (if b then l1 else l2).
Proof. by destruct b. Qed.

Lemma does_eq {A} (m : M A) x l l' : does m x l -> l = l' -> does m x l'.
Proof. by intros ? <-. Qed.

Lemma str_length s : length (str s) = String.length s.
Proof. unfold str. rewrite length_map. induction s; cbn; congruence. Qed.

Lemma fmt_full size parts : Z.of_nat (length (concat parts)) < size -> fmt size parts = concat parts.
Proof. apply snprintf_s_fits. Qed.

Lemma is_empty_spec s : s <> [] -> is_empty s = false.
Proof. by destruct s. Qed.

Ltac len_solve := unfold quiet; cbn [concat]; rewrite ?length_app, ?str_length; cbn [String.length length] in *; lia.

(** A formatted command that fits is the command of its words. *)
Ltac words := unfold command; f_equal; rewrite fmt_full by len_solve; cbn [concat join];
  repeat (rewrite <-!app_assoc; cbn [app]); reflexivity.

Lemma settings_ok c : members_ok (settings_of c).
Proof. destruct c; cbn; repeat split; try done; by repeat constructor. Qed.

Lemma request_ok c rq dev : members_ok (request c rq dev).
Proof.
  unfold request. cbn [members_ok json_ok]. pose proof (settings_ok c).
  repeat split; try done; by repeat constructor.
Qed.

Abbreviation settings c := (print (JObject (settings_of c))).

Lemma route_does hop dest rq :
  change_ok (Route_change hop dest) ->
  does (gns_apply_route_change true system (settings (Route_change hop dest)) rq) tt (route_effects rq hop dest).
Proof.
  intros ([_ Hh] & Hne & [_ Hd]). unfold gns_apply_route_change, route_effects, is_request, target. cbv zeta.
  rewrite (get_field_reads (str "NextHop") _ (key_fits_lit (str "NextHop") eq_refl) (settings_ok _) hop) by done.
  rewrite (get_field_reads (str "DestinationPrefix") _ (key_fits_lit (str "DestinationPrefix") eq_refl)
             (settings_ok _) dest) by done.
  rewrite is_empty_spec by done.
  apply does_if; [by apply does_run|]. apply does_if; [|eapply does_bind; [apply does_when|]]; apply does_run.
  - destruct (or_default dest); words.
  - words.
  - destruct (or_default dest); words.
Qed.

Lemma ip_does iface addr prefix rq :
  Z.of_nat (length iface) < 32 -> iface <> [] -> change_ok (Ip_change addr prefix) ->
  does (gns_apply_ip_change true system iface (settings (Ip_change addr prefix)) rq) tt
    (ip_effects rq iface addr prefix).
Proof.
  intros Hi Hie ([_ Ha] & Hne & Hp). unfold gns_apply_ip_change, ip_effects, is_request, slash. cbv zeta.
  rewrite (get_field_reads (str "Address") _ (key_fits_lit (str "Address") eq_refl) (settings_ok _) addr) by done.
  rewrite (get_int_reads (str "OnLinkPrefixLength") _ (key_fits_lit (str "OnLinkPrefixLength") eq_refl)
             (settings_ok _) prefix) by done.
  rewrite !is_empty_spec by done. cbn [orb].
  assert (Hp' : LONG_MIN <= (if 0 <? prefix then prefix else 32) <= LONG_MAX) 
    by (unfold LONG_MIN, LONG_MAX in *; case_if; lia).
  pose proof (dec_signed_length _ Hp). pose proof (dec_signed_length _ Hp').
  set (head := if (0 <? prefix) && (prefix <=? 32) then command [str "ifconfig"; iface; addr ++ str "/" ++ dec_signed prefix; str "alias"]
     else command [str "ifconfig"; iface; addr; str "netmask"; str "255.255.255.255"; str "alias"]).
  match goal with |- does (if _ then _ else if _ then run _ _ ?c ≫= _ else _) _ _ =>
    assert (Hhead : Run c = head) by (subst head; destruct (_ && _); words) end.
  apply does_if; [apply does_run; words|]. destruct (strcmp_eq rq (str "Update")).
  - eapply does_bind; apply does_run; [done|words].
  - by apply does_run.
Qed.

Lemma link_does iface (connected : bool) mtu rq :
  Z.of_nat (length iface) < 32 -> iface <> [] -> change_ok (Link_change connected mtu) ->
  does (gns_apply_link_change true system iface (settings (Link_change connected mtu)) rq) tt
    (link_effects iface connected mtu).
Proof.
  intros Hi Hie Hm. unfold gns_apply_link_change, link_effects. cbv zeta.
  rewrite (get_bool_reads (str "Connected") _ (key_fits_lit (str "Connected") eq_refl) (settings_ok _) connected) by done.
  rewrite (get_int_reads (str "NlMtu") _ (key_fits_lit (str "NlMtu") eq_refl) (settings_ok _) mtu) by done.
  rewrite is_empty_spec by done. pose proof (dec_signed_length _ Hm).
  eapply does_bind; [apply does_run; destruct connected; unfold up_down; cbn [Z.eqb Pos.eqb negb]; words|].
  destruct connected; cbn [Z.eqb negb andb]; [|apply does_ret].
  apply does_when, does_run. words.
Qed.

Lemma mac_does iface mac :
  Z.of_nat (length iface) < 32 -> iface <> [] -> change_ok (Mac_change mac) ->
  does (gns_apply_mac_change true system iface (settings (Mac_change mac))) tt (mac_effects iface mac).
Proof.
  intros Hi Hie ([_ Hm] & Hne). unfold gns_apply_mac_change, mac_effects. cbv zeta.
  rewrite (get_field_reads (str "PhysicalAddress") _ (key_fits_lit (str "PhysicalAddress") eq_refl) (settings_ok _) mac) by done.
  rewrite !is_empty_spec by done. apply does_run. unfold bsd_mac.
  assert (length (map (fun c => if c =? c_dash then c_colon else c) mac) = length mac) as Hlen by apply length_map.
  rewrite take_ge by lia. words.
Qed.

Lemma dns_does st domain search servers options rq :
  change_ok (Dns_change domain search servers options) ->
  gns_apply_dns_change fopen_w (settings (Dns_change domain search servers options)) rq st
  = (tt, st <| ops := ops st ++ dns_effects fopen_w st rq domain search servers options |>).
Proof.
  intros ([_ Hd] & [_ Hs] & Hsi & [_ Hv] & Hvi & [_ Ho]). unfold gns_apply_dns_change, dns_effects, is_request. cbv zeta.
  rewrite (get_field_reads (str "Domain") _ (key_fits_lit (str "Domain") eq_refl) (settings_ok _) domain) by done.
  rewrite (get_field_reads (str "Search") _ (key_fits_lit (str "Search") eq_refl) (settings_ok _) (join c_comma search)) by done.
  rewrite (get_field_reads (str "ServerList") _ (key_fits_lit (str "ServerList") eq_refl) (settings_ok _) (join c_comma servers)) by done.
  rewrite (get_field_reads (str "Options") _ (key_fits_lit (str "Options") eq_refl) (settings_ok _) options) by done.
  assert (Hconf : resolv_conf options (join c_comma servers) domain (join c_comma search)
    = options ++ concat (map (fun s => str "nameserver " ++ s ++ [c_nl]) servers)
           ++ (if is_empty domain then [] else str "domain " ++ domain ++ [c_nl])
           ++ (if is_empty (join c_space search) then [] else str "search " ++ join c_space search ++ [c_nl])).
  { assert (Hitems : forall l, Forall item l -> strtok is_comma (join c_comma l) = l).
    { intros l Hl. apply (strtok_join c_comma). eapply Forall_impl_hint; [exact Hl|].
      intros s [H1 H2]. split; [by intros ->|done]. }
    unfold resolv_conf. cbv zeta. rewrite !Hitems, search_join by (done || rewrite (join_length _ c_comma); lia).
    do 2 f_equal. clear -Hvi. induction Hvi as [|s l Hs _ IH]; [done|]. cbn [map concat].
    by rewrite no_spaces_item, IH. }
  rewrite Hconf. destruct (strcmp_eq rq (str "Remove")); [apply (does_ret tt)|]. cbn [orb].
  unfold mbind, M_bind, get, ask, when, emit. destruct (g_generate_resolvconf st =? 0); [apply (does_ret tt)|]. cbn [orb].
  destruct (fopen_w (ops st) (g_resolvconf_path st)); [done|apply (does_ret tt)].
Qed.

(** * The message *)
Fixpoint clean (v : json) : Prop :=
  match v with
  | JString s => no_nul s
  | JObject ms => clean_members ms
  | _ => True
  end
with clean_members (ms : members) : Prop :=
  match ms with
  | MNil => True
  | MCons k v ms' => no_nul k /\ clean v /\ clean_members ms'
  end.

Lemma no_nul_quoted s : no_nul s -> no_nul (quoted s).
Proof.
  intros H. unfold quoted, no_nul. constructor; [done|]. apply Forall_app. split; [|by repeat constructor].
  induction H as [|c s Hc _ IH]; [constructor|]. rewrite esc_cons. apply Forall_app. split; [|done].
  destruct (special c); by repeat constructor.
Qed.

Lemma print_no_nul :
  (forall v, clean v -> no_nul (print v)) /\ (forall ms, clean_members ms -> no_nul (print_members ms)).
Proof.
  apply json_members_ind; cbn [print print_members clean clean_members].
  - intros s. apply no_nul_quoted.
  - intros n _. unfold dec_signed.
    assert (Hd : forall m, 0 <= m -> no_nul (dec m)).
    { intros m Hm. eapply Forall_impl_hint; [by apply dec_digits|]. simpl. lia. }
    case_if; [constructor; [done|]|]; apply Hd; lia.
  - intros [] _; by repeat constructor.
  - intros ms IH H. constructor; [done|]. apply Forall_app. split; [by apply IH|by repeat constructor].
  - constructor.
  - intros k v IHv ms IHms (Hk & Hv & Hms). specialize (IHv Hv). specialize (IHms Hms).
    apply no_nul_quoted in Hk. unfold no_nul in *.
    destruct ms; rewrite !Forall_app; repeat split; try done; by repeat constructor.
Qed.

Lemma request_clean c rq dev : change_ok c -> no_nul rq -> no_nul dev -> clean_members (request c rq dev).
Proof.
  intros Hc Hr Hd. unfold request. cbn [clean_members clean].
  assert (Hs : clean_members (settings_of c)).
  { destruct c; cbn [settings_of clean_members clean change_ok] in *; unfold fits in Hc;
      repeat split; try tauto; by repeat constructor. }
  repeat split; try done; destruct c; by repeat constructor.
Qed.

Lemma settings_extracted c rq dev :
  Z.of_nat (length (print (JObject (settings_of c)))) < settings_room c ->
  gns_json_get_subobject (print (JObject (request c rq dev))) (str "Settings") (settings_room c)
  = (0, Some (settings c)).
Proof.
  apply (get_subobject_reads (str "Settings") (request c rq dev) (key_fits_lit (str "Settings") eq_refl) (request_ok c rq dev)).
  done.
Qed.

(** The branch of the handler for a change. *)
Definition apply_change (c : change) (iface rq s : bytes) : M unit :=
  match c with
  | Route_change _ _ => gns_apply_route_change true system s rq
  | Ip_change _ _ => gns_apply_ip_change true system iface s rq
  | Dns_change _ _ _ _ => gns_apply_dns_change fopen_w s rq
  | Link_change _ _ => gns_apply_link_change true system iface s rq
  | Mac_change _ => gns_apply_mac_change true system iface s
  end.

Lemma apply_change_does st c iface rq :
  Z.of_nat (length iface) < 32 -> iface <> [] -> change_ok c ->
  apply_change c iface rq (settings c) st = (tt, st <| ops := ops st ++ effects fopen_w st rq iface c |>).
Proof.
  intros Hi Hie Hc. destruct c; cbn [apply_change effects].
  - by apply route_does.
  - by apply ip_does.
  - by apply dns_does.
  - by apply link_does.
  - by apply mac_does.
Qed.

Lemma resource_branch {A} c (route ip dns link mac other : A) :
  (if strcmp_eq (resource_type c) (str "Route") then route
   else if strcmp_eq (resource_type c) (str "IPAddress") then ip
   else if strcmp_eq (resource_type c) (str "DNS") then dns
   else if strcmp_eq (resource_type c) (str "Interface") then link
   else if strcmp_eq (resource_type c) (str "MacAddress") then mac else other)
  = match c with
    | Route_change _ _ => route | Ip_change _ _ => ip | Dns_change _ _ _ _ => dns
    | Link_change _ _ => link | Mac_change _ => mac
    end.
Proof. by destruct c. Qed.

Lemma handle_notification_request msg seq st c rq dev :
  12 < Z.of_nat (length msg) -> to_cstr (drop 12 msg) = print (JObject (request c rq dev)) ->
  Z.of_nat (length rq) < 16 -> Z.of_nat (length dev) < 32 ->
  Z.of_nat (length (settings c)) < settings_room c ->
  gns_handle_notification true system fopen_w msg seq st
  = (apply_change c (if is_empty dev then g_default_interface st else dev) rq (settings c);;
     gns_send_result seq 0 (str "notification applied");; mret 0) st.
Proof.
  intros Hlen Hbody Hr Hd Hroom. unfold gns_handle_notification. cbv zeta.
  destruct (_ <? 12) eqn:E; [bool_to_prop; lia|clear E]. destruct (_ <=? 12) eqn:E; [bool_to_prop; lia|clear E].
  rewrite Hbody. pose proof (request_ok c rq dev) as Hok.
  rewrite (get_field_reads (str "ResourceType") _ (key_fits_lit (str "ResourceType") eq_refl) Hok (resource_type c))
    by (done || by destruct c).
  rewrite (get_field_reads (str "RequestType") _ (key_fits_lit (str "RequestType") eq_refl) Hok rq) by done.
  rewrite (get_field_reads (str "targetDeviceName") _ (key_fits_lit (str "targetDeviceName") eq_refl) Hok dev) by done.
  pose proof (settings_extracted c rq dev Hroom) as Hset.
  unfold mbind, M_bind, get. cbv beta iota. rewrite resource_branch.
  destruct (apply_change c _ rq (settings c) st) as [[] st'] eqn:E.
  destruct c; cbn [settings_room apply_change] in *; unfold with_settings; rewrite Hset;
    unfold mbind, M_bind; by rewrite E.
Qed.

(** C22: The host's notifications do what they say.  Take a change (a route, an
    address, the name servers, the link, the hardware address) whose strings fit
    the guest's buffers, a request type and a device name, written as the JSON
    text of a Notification.  On FreeBSD the engine then runs exactly the
    commands of the change, whole and in order (for name servers: writes
    exactly the resolv.conf, if its generation is on), on the named device or
    else on the default one, and then sends one reply, a success with the
    message's sequence number. *)
Theorem notification_applied popen read_file inet6 connects seq st c rq dev :
  let iface := if is_empty dev then g_default_interface st else dev in
  0 <= seq < 2 ^ 32 -> change_ok c -> fits 16 rq -> fits 32 dev ->
  Z.of_nat (length (g_default_interface st)) < 32 -> g_default_interface st <> [] ->
  Z.of_nat (length (settings c)) < settings_room c ->
  snd (dispatch true system fopen_w popen read_file inet6 connects (notification_message seq c rq dev) st)
  = st <| ops := ops st ++ effects fopen_w st rq iface c
                 ++ [Send (result_bytes LxGnsMessageResult seq 0 (str "notification applied"))] |>.
Proof.
  intros iface Hseq Hc [Hrn Hr] [Hdn Hd] Hi Hie Hroom.
  set (body := print (JObject (request c rq dev))).
  assert (Hbody : to_cstr (drop 12 (notification_message seq c rq dev)) = body).
  { unfold notification_message. cbv zeta. fold body. rewrite drop_app_length' by done.
    apply to_cstr_app_nul, (proj1 print_no_nul (JObject (request c rq dev))). by apply request_clean. }
  assert (Hi' : Z.of_nat (length iface) < 32 /\ iface <> []) by (subst iface; by destruct dev).
  assert (Hlen : 12 < Z.of_nat (length (notification_message seq c rq dev))).
  { unfold notification_message. rewrite !length_app, header_bytes_length. simpl. lia. }
  assert (Hhdr := read_header_any_size LxGnsMessageNotification (12 + (Z.of_nat (length body) + 1)) seq (body ++ [0])
    ltac:(done) Hseq).
  change (header_bytes _ ++ body ++ [0]) with (notification_message seq c rq dev) in Hhdr.
  unfold dispatch. cbv zeta.
  rewrite Hhdr. cbn [MessageType SequenceNumber].
  unfold mbind, M_bind. change (LxGnsMessageNotification =? LxGnsMessageInterfaceConfiguration) with false.
  rewrite Z.eqb_refl. cbv iota.
  rewrite (handle_notification_request _ seq st c rq dev Hlen Hbody Hr Hd Hroom). fold iface.
  unfold mbind, M_bind. rewrite apply_change_does by tauto. unfold gns_send_result, emit, skip, mret, M_ret.
  cbn [snd]. destruct st. cbn. by rewrite <-app_assoc.
Qed.
End Apply.

(** * NetworkInformation *)
Section NetworkInformation.
Context (fopen_w fclose_ok : list gns_op -> bytes -> bool) (rename_ok : list gns_op -> bytes -> bytes -> bool).

Definition temporary (path : bytes) : bytes := path ++ str ".tmp".

(** The content of the new file: the indexed string, or nothing when the index
    is outside the message. *)
Definition new_content (msg : bytes) : bytes :=
  let index := get32 16 msg in
  if index <? Z.of_nat (length msg) - 20 then with_newline (to_cstr (drop (Z.to_nat (20 + index)) msg)) else [].

Lemma indexed_string_some msg index s :
  20 <= Z.of_nat (length msg) -> 0 <= index -> indexed_string (drop 20 msg) index = Some s ->
  s = if index <? Z.of_nat (length msg) - 20 then Some (to_cstr (drop (Z.to_nat (20 + index)) msg)) else None.
Proof.
  intros Hl Hi. unfold indexed_string. rewrite length_drop, drop_drop.
  replace (20 + Z.to_nat index)%nat with (Z.to_nat (20 + index)) by lia.
  replace (Z.of_nat (length msg - 20)) with (Z.of_nat (length msg) - 20) by lia.
  destruct (index <? _); [|congruence]. destruct (nul_terminated _); congruence.
Qed.

(** Resolv.conf is replaced in one step.  Handling a NetworkInformation
    message, the engine writes only the temporary file next to resolv.conf, so
    resolv.conf itself is never seen half-written.  When its generation is on
    and the handler succeeds, it wrote the string the message selects, ended by
    a newline, and renamed it over resolv.conf, and did nothing else.  When
    generation is off it does nothing; when a step fails, the temporary file is
    not left behind by a failed rename. *)
Theorem resolv_conf_replaced_atomically msg st :
  bytes_ok msg -> (length (g_resolvconf_path st) <= 255)%nat ->
  let path := g_resolvconf_path st in
  let '(rc, st') := gns_handle_network_information fopen_w fclose_ok rename_ok msg st in
  exists new, ops st' = ops st ++ new
    /\ (forall p content, Write p content ∈ new -> p = temporary path)
    /\ (g_generate_resolvconf st = 0 -> new = [])
    /\ (g_generate_resolvconf st <> 0 -> rc = Some 0 ->
         new = [Write (temporary path) (new_content msg); Rename (temporary path) path])
    /\ (rc <> Some 0 -> Rename (temporary path) path ∈ new -> last new = Some (Unlink (temporary path))).
Proof.
  intros Hb Hp path. unfold gns_handle_network_information.
  assert (Hnone : forall rc : option Z, rc <> Some 0 \/ g_generate_resolvconf st = 0 ->
    exists new, ops st = ops st ++ new
    /\ (forall p content, Write p content ∈ new -> p = temporary path)
    /\ (g_generate_resolvconf st = 0 -> new = [])
    /\ (g_generate_resolvconf st <> 0 -> rc = Some 0 ->
         new = [Write (temporary path) (new_content msg); Rename (temporary path) path])
    /\ (rc <> Some 0 -> Rename (temporary path) path ∈ new -> last new = Some (Unlink (temporary path)))).
  { intros rc H. exists []. rewrite app_nil_r. repeat split; [set_solver|tauto|set_solver]. }
  destruct (_ <? 20); [apply Hnone; by left|]. destruct (_ <=? 20) eqn:E; [apply Hnone; by left|]. bool_to_prop.
  destruct (indexed_string (drop 20 msg) (get32 12 msg)); [|apply Hnone; by left].
  destruct (indexed_string (drop 20 msg) (get32 16 msg)) as [contents|] eqn:Ec; [|apply Hnone; by left].
  apply indexed_string_some in Ec; [|lia|apply (get_le_bound 4 16 msg Hb)].
  assert (Hc : match contents with Some s => with_newline s | None => [] end = new_content msg).
  { subst contents. unfold new_content. by destruct (_ <? _). }
  unfold mbind, M_bind, get, ask, emit. rewrite Hc. fold path.
  assert (Ht : fmt 512 [path; str ".tmp"] = temporary path).
  { rewrite fmt_full; [done|]. cbn [concat]. rewrite !length_app, str_length. fold path in Hp. simpl. lia. }
  rewrite Ht. destruct (g_generate_resolvconf st =? 0) eqn:Eg; [apply Hnone; right; by apply Z.eqb_eq|].
  apply Z.eqb_neq in Eg. destruct (fopen_w _ _); [|apply Hnone; by left]. cbn [negb].
  destruct (fclose_ok _ _).
  - cbn [negb]. destruct (rename_ok _ _ _); cbn [negb].
    + exists [Write (temporary path) (new_content msg); Rename (temporary path) path].
      split; [exact (eq_sym (app_assoc (ops st) [_] [_]))|].
      split; [set_solver|done].
    + exists [Write (temporary path) (new_content msg); Rename (temporary path) path; Unlink (temporary path)].
      split; [transitivity (((ops st ++ [Write (temporary path) (new_content msg)]) ++ [Rename (temporary path) path])
                ++ [Unlink (temporary path)]); [done|by rewrite <-!app_assoc]|].
      split; [set_solver|done].
  - exists [Write (temporary path) (new_content msg)]. repeat split; [set_solver|done|done|set_solver].
Qed.
End NetworkInformation.

(** * Examples *)
Definition start : gns := mk_gns (str "hn0") 1 (str "/etc/resolv.conf") [].
Definition dns_sample : change :=
  Dns_change (str "corp") [str "a.example"; str "b.example"] [str "10.0.0.1"; str "10.0.0.2"] [].

Lemma dns_sample_ok : change_ok dns_sample.
Proof. repeat split; try done; repeat constructor; done. Qed.

Lemma notification_applied_witness :
  snd (dispatch true (fun _ _ => 0) (fun _ _ => true) (fun _ _ => None) (fun _ => None) (fun _ => true)
         (fun _ _ _ _ => None) (notification_message 7 dns_sample (str "Update") []) start)
  = start <| ops :=
      [Write (str "/etc/resolv.conf")
         (str "nameserver 10.0.0.1" ++ [c_nl] ++ str "nameserver 10.0.0.2" ++ [c_nl] ++ str "domain corp" ++ [c_nl]
          ++ str "search a.example b.example" ++ [c_nl]);
       Send (result_bytes LxGnsMessageResult 7 0 (str "notification applied"))] |>.
Proof.
  apply (notification_applied (fun _ _ => 0) (fun _ _ => true) (fun _ _ => None) (fun _ => None) (fun _ => true)
    (fun _ _ _ _ => None) 7 start dns_sample (str "Update") []); try done.
  - apply dns_sample_ok.
  - split; [repeat constructor; done|done].
  - split; [constructor|done].
Defined.

Definition network_information : bytes :=
  header_bytes (mk_header 4 46 1) ++ le_bytes 4 0 ++ le_bytes 4 4 ++ packed [str "wsl"; str "nameserver 1.1.1.1"].

Lemma resolv_conf_replaced_atomically_witness :
  exists new, ops (snd (gns_handle_network_information (fun _ _ => true) (fun _ _ => true) (fun _ _ _ => true)
                          network_information start)) = [] ++ new
    /\ new = [Write (str "/etc/resolv.conf.tmp") (str "nameserver 1.1.1.1" ++ [c_nl]);
              Rename (str "/etc/resolv.conf.tmp") (str "/etc/resolv.conf")].
Proof.
  destruct (resolv_conf_replaced_atomically (fun _ _ => true) (fun _ _ => true) (fun _ _ _ => true)
    network_information start) as (new & H1 & _ & _ & H4 & _).
  - vm_compute. repeat (constructor; [split; [discriminate|reflexivity]|]). constructor.
  - vm_compute. lia.
  - exists new. split; [exact H1|]. apply H4; [done|reflexivity].
Defined.

(** The text of a message of the given type. *)
Definition json_message (typ : Z) (ms : members) : bytes :=
  header_bytes (mk_header typ 0 1) ++ print (JObject ms) ++ [0].
(** The commands run for a message on FreeBSD, when all of them succeed. *)
Definition commands (msg : bytes) : list bytes :=
  omap (fun o => match o with Run c => Some c | _ => None end)
    (ops (snd (dispatch true (fun _ _ => 0) (fun _ _ => true) (fun _ _ => None) (fun _ => None) (fun _ => true)
                 (fun _ _ _ _ => None) msg start))).

(** The text of the host reaches the shell as it is. *)
Example next_hop_is_shell_text :
  commands (notification_message 1 (Route_change (str "10.0.0.1;reboot") []) (str "Add") [])
  = [str "route add default 10.0.0.1;reboot 2>/dev/null"].
Proof. vm_compute. reflexivity. Qed.

(** Removing a port mapping loads the redirection again. *)
Example remove_port_mapping_adds :
  commands (json_message LxGnsMessagePortMappingRequest
    (MCons (str "Port") (JInt 80) (MCons (str "Remove") (JBool true) MNil)))
  = [str "echo 'rdr pass inet proto tcp from any to any port 80 -> 127.0.0.1 port 80' | pfctl -a wsl_portmap -f - 2>/dev/null"].
Proof. vm_compute. reflexivity. Qed.

(** Removing a global filter rule loads it, as adding it does. *)
Example remove_filter_adds :
  let request action := json_message LxGnsMessageGlobalNetFilter
    (MCons (str "Action") (JString (str action)) (MCons (str "Rules") (JString (str "pass in all")) MNil)) in
  commands (request "remove"%string) = commands (request "add"%string).
Proof. vm_compute. reflexivity. Qed.

(** A long filter rule is cut, and the shell gets an open quote. *)
Example long_filter_is_cut :
  forall msg,
    msg = json_message LxGnsMessageGlobalNetFilter
      (MCons (str "Action") (JString (str "add")) (MCons (str "Rules") (JString (replicate 510 97)) MNil)) ->
    commands msg = [str "echo '" ++ replicate 505 97].
Proof. intros msg ->. vm_compute. reflexivity. Qed.

(** Options that do not end a line join the first name server. *)
Example options_join_the_next_line :
  resolv_conf (str "options ndots:1") (str "10.0.0.1") [] []
  = str "options ndots:1nameserver 10.0.0.1" ++ [c_nl].
Proof. reflexivity. Qed.
End GnsNotifyThm.
