(* ===== verification/Init.v ===== *)
(** The guest's init (src/FreeBSD/hvinit.c), first part: its state, the tracking
    of mounts, the child processes, the handlers of the init channel and the event
    loop.  It composes the models of the modules it includes (Drvfs, Timezone,
    NetworkConfig, Gns, Plan9Life, Relay); everything it does is an entry of one
    ordered list, and what the outside answers is a function of that list. *)
From S2P Require Import Prelude StateM CStr CNum Wire WslConf ConfigMsg SysOps Timezone Drvfs.
From S2P Require Import NetworkConfig Gns Plan9Life Relay.
Import StateM Wire.

Module Init.

(** * Constants *)
Definition PORT_HVS : Z := 50000.
Definition PORT_HVS_GNS : Z := 50001.
Definition PORT_HVS_BSD : Z := 60000.
Definition LxInitMessageCreateSessionResponse : Z := 3.
Definition LxInitMessageNetworkInformation : Z := 4.
Definition LxInitMessageInitializeResponse : Z := 6.
Definition LxInitMessageTimezoneInformation : Z := 7.
Definition LxInitMessageWindowSizeChanged : Z := 10.
Definition LxInitMessageRemountDrvfs : Z := 13.
Definition LxInitMessageTerminateInstance : Z := 14.
Definition LxInitMessageStartSocketRelay : Z := 15.
Definition LxInitMessageKernelVersion : Z := 18.
Definition LxInitMessageAddVirtioFsDevice : Z := 19.
Definition LxInitMessageAddVirtioFsDeviceResponse : Z := 20.
Definition LxInitMessageRemountVirtioFsDevice : Z := 21.
Definition LxInitMessageStartDistroInit : Z := 22.
Definition LxInitMessageStopPlan9Server : Z := 24.
Definition LxInitMessageQueryNetworkingMode : Z := 25.
Definition LxInitMessageQueryVmId : Z := 26.
Definition LxInitMessageOobeResult : Z := 28.
Definition LxMiniInitMessageCreateInstanceResult : Z := 33.
Definition LxMiniInitMessageGuestCapabilities : Z := 43.
Definition LxMessageResultBool : Z := 76.
Definition LxMessageResultInt32 : Z := 77.
Definition LxMessageResultUint32 : Z := 78.
Definition LxInitFeatureDnsTunneling : Z := 32.
Definition F2_MAX_MOUNTS : nat := 16.
Definition SIGTERM : Z := 15.

(** * State and effects *)
Inductive init_op : Type :=
| Sys (o : sysop)
| Net (o : Gns.gns_op)
| Plan9 (c : Plan9Life.life_call)
| Relays (c : Relay.relay_call)
| Connect (port fd : Z)
| Send (fd : Z) (msg : bytes)
| Close (fd : Z)
| Fork (pid : Z)
| Kill (pid sig : Z)
| Waitpid (pid : Z)
| Reaped (pid : Z)
| System (cmd : bytes)
| Unmount (path : bytes) (force : bool)
| Sync
| Exit (status : Z).
Abbreviation hist := (list init_op).

Record init : Type := mk_init {
  g_config : ConfigMsg.wsl_config;
  g_config_parsed : bool;
  g_wsl_conf : WslConf.wsl_conf;
  g_wsl_conf_parsed : bool;
  g_mounted_fs : list bytes;      (* g_mounted_count is its length *)
  g_gns_pid : Z;
  g_plan9 : Plan9Life.plan9;
  g_gns : Gns.gns;
  stream : bytes;                 (* what the host sends on the init channel *)
  ops : hist
}.
#[export] Instance init_eta : Eta init := fun r =>
  mk_init (g_config r) (g_config_parsed r) (g_wsl_conf r) (g_wsl_conf_parsed r) (g_mounted_fs r)
    (g_gns_pid r) (g_plan9 r) (g_gns r) (stream r) (ops r).

#[local] Instance gns_part : Eta Gns.gns := Gns.gns_eta.
#[local] Instance plan9_part : Eta Plan9Life.plan9 := Plan9Life.plan9_eta.

(** What the outside answers. *)
Inductive unmount_result : Type := Unmounted | Busy | Unmount_failed.
Record world : Type := mk_world {
  w_connect : hist -> Z -> Z;                      (* hv_connect: a descriptor or -1 *)
  w_ok : hist -> sysop -> bool;                    (* the calls of Timezone and NetworkConfig *)
  w_exists : hist -> bytes -> bool;
  w_mkdir : hist -> bytes -> bool;
  w_mount : hist -> bytes -> bool;
  w_unmount : hist -> bytes -> bool -> unmount_result;
  w_getpwnam : bytes -> option Z;
  w_gid : Z -> Z;                                  (* the group DrvFs gives an owner *)
  w_system : hist -> bytes -> Z;
  w_fork : hist -> Z;
  w_wsl_conf : WslConf.fopen_result;
  w_uname : option bytes;                          (* the release *)
  w_start_plan9 : hist -> Plan9Life.start_env;
  w_waits : hist -> list Z;                        (* waitpid, while the server is stopped *)
  w_relay : hist -> Relay.relay_env;
  w_fopen_w : hist -> bytes -> bool;
  w_fclose : hist -> bytes -> bool;
  w_rename : hist -> bytes -> bytes -> bool;
  w_networking_mode : option bytes;                (* the environment variable *)
  w_read_file : bytes -> option bytes;
  w_test_root : bytes                              (* WSL_TEST_ROOT, empty when not set *)
}.

Abbreviation IM := (M init).
Definition emit (o : init_op) : IM unit := modify (fun s => s <| ops := ops s ++ [o] |>).
Definition emits (os : list init_op) : IM unit := modify (fun s => s <| ops := ops s ++ os |>).
Definition ask {A} (f : hist -> A) : IM A := gets (fun s => f (ops s)).

(** Run a component on its part of the state. *)
Definition with_gns {A} (m : hist -> Gns.M A) : IM A := fun s =>
  let '(x, g) := m (ops s) (g_gns s <| Gns.ops := [] |>) in
  (x, s <| g_gns := g <| Gns.ops := [] |> |> <| ops := ops s ++ map Net (Gns.ops g) |>).
Definition with_plan9 {A} (m : hist -> M Plan9Life.plan9 A) : IM A := fun s =>
  let '(x, p) := m (ops s) (g_plan9 s <| Plan9Life.calls := [] |>) in
  (x, s <| g_plan9 := p <| Plan9Life.calls := [] |> |>
        <| ops := ops s ++ map Plan9 (Plan9Life.calls p) |>).

(** * Mounts *)
Definition fs_track_mount (path : bytes) : IM unit :=
  modify (fun s => if (length (g_mounted_fs s) <? F2_MAX_MOUNTS)%nat
                   then s <| g_mounted_fs := g_mounted_fs s ++ [take 63 path] |> else s).

(** * Replies *)
Definition result_int32 (seq r : Z) : bytes :=
  header_bytes (mk_header LxMessageResultInt32 16 seq) ++ le_bytes 4 (u32 r).
Definition result_uint32 (seq r : Z) : bytes :=
  header_bytes (mk_header LxMessageResultUint32 16 seq) ++ le_bytes 4 (u32 r).
Definition result_bool (seq : Z) (b : bool) : bytes :=
  header_bytes (mk_header LxMessageResultBool 16 seq) ++ [if b then 1 else 0; 0; 0; 0].
Definition kernel_version (seq : Z) (release : bytes) : bytes :=
  header_bytes (mk_header LxMessageResultInt32 (16 + Z.of_nat (length release) + 1) seq)
  ++ le_bytes 4 0 ++ release ++ [0].
Definition virtiofs_response (seq : Z) (tag : bytes) : bytes :=
  header_bytes (mk_header LxInitMessageAddVirtioFsDeviceResponse
                 (20 + Z.of_nat (length tag) + 1) seq)
  ++ le_bytes 4 0 ++ le_bytes 4 0 ++ tag ++ [0].

(** How a handler ends: the loop goes on, the process exits, it is the child of a
    fork, or it reads beyond the message. *)
Inductive handled : Type := Handled | Exiting | In_child | Past_end.

Section World.
Context (W : world).

Definition unmount (path : bytes) (force : bool) : IM unmount_result :=
  r ← ask (fun h => w_unmount W h path force); emit (Unmount path force);; mret r.

(** One entry of fs_unmount_all; the result counts the successes. *)
Definition unmount_one (path : bytes) : IM Z :=
  rc ← unmount path false;
  rc ← (match rc with Busy => unmount path true | r => mret r end);
  mret (match rc with Unmounted => 1 | _ => 0 end).

Fixpoint unmount_list (paths : list bytes) : IM Z :=
  match paths with
  | [] => mret 0
  | p :: paths' => n ← unmount_one p; m ← unmount_list paths'; mret (n + m)
  end.
Definition fs_unmount_all : IM Z := s ← get; unmount_list (rev (g_mounted_fs s)).

(** [mount] of a file system on a directory that is made when it is missing. *)
Definition mount_fs (fstype target : bytes) : IM unit :=
  there ← ask (fun h => w_exists W h target);
  when (negb there) (emit (Sys (Mkdir target)));;
  ok ← ask (fun h => w_mount W h target);
  emit (Sys (Mount fstype target));;
  when ok (fs_track_mount target).

Definition initialize_filesystems : IM unit :=
  mount_fs (str "devfs") (str "/dev");;
  mount_fs (str "linprocfs") (str "/proc");;
  mount_fs (str "tmpfs") (str "/run").

(** drvfs_mount_volumes with fs_track_mount as its callback. *)
Definition mount_drvfs (bitmap owner elevated flags : Z) : IM Z :=
  s ← get;
  let conf := g_wsl_conf s in
  let root := if g_wsl_conf_parsed s then WslConf.automount_root conf else None in
  let prefix := match root with Some r => r | None => str "/mnt" end in
  let opts := if g_wsl_conf_parsed s then WslConf.automount_options conf else None in
  r ← ask (fun h => Drvfs.drvfs_mount_volumes (w_exists W h) (w_mkdir W h) (w_mount W h)
                      bitmap owner (w_gid W owner) elevated (Some prefix) opts flags);
  let target := Drvfs.volume_target (match prefix with [] => str "/mnt" | p => p end) in
  for_each (fst r) (fun v => emits (map Sys (fst (snd v)));;
                             when (snd (snd v) =? 0) (fs_track_mount (target (fst v))));;
  mret (snd r).

(** * Child processes *)
Definition hv_connect (port : Z) : IM Z :=
  fd ← ask (fun h => w_connect W h port); emit (Connect port fd);; mret fd.

Definition gns_configure_test_paths : IM unit :=
  let path := w_test_root W ++ str "/resolv.conf" in
  when (negb (is_empty (w_test_root W)) && (Z.of_nat (length path) <? 512))
    (with_gns (fun _ => Gns.gns_set_resolvconf_path path)).

Definition gns_stop_engine : IM unit :=
  s ← get;
  when (0 <? g_gns_pid s)
    (emit (Kill (g_gns_pid s) SIGTERM);; emit (Waitpid (g_gns_pid s));;
     modify (fun s => s <| g_gns_pid := -1 |>)).

(** The parent goes on; the child runs the engine on its channel, the grandchild
    the DNS relay. *)
Inductive engine_start : Type :=
| In_parent
| Gns_child (gns_fd : Z)
| Dns_child (dns_fd : Z).

Definition gns_start_engine (cap_fd notify_fd init_fd : Z) : IM engine_start :=
  gns_fd ← hv_connect PORT_HVS_GNS;
  if gns_fd <? 0 then mret In_parent
  else
    s ← get;
    dns_fd ← (if g_config_parsed s
                 && negb (Z.land (ConfigMsg.feature_flags (g_config s)) LxInitFeatureDnsTunneling =? 0)
              then hv_connect PORT_HVS else mret (-1));
    pid ← ask (w_fork W); emit (Fork pid);;
    if pid <? 0 then
      emit (Close gns_fd);; when (0 <=? dns_fd) (emit (Close dns_fd));; mret In_parent
    else if pid =? 0 then
      emit (Close cap_fd);; when (0 <=? notify_fd) (emit (Close notify_fd));; emit (Close init_fd);;
      if 0 <=? dns_fd then
        dns_pid ← ask (w_fork W); emit (Fork dns_pid);;
        if dns_pid =? 0 then emit (Close gns_fd);; mret (Dns_child dns_fd)
        else emit (Close dns_fd);; mret (Gns_child gns_fd)
      else mret (Gns_child gns_fd)
    else
      emit (Close gns_fd);; when (0 <=? dns_fd) (emit (Close dns_fd));;
      modify (fun s => s <| g_gns_pid := pid |>);; mret In_parent.

(** The pids waitpid(-1, WNOHANG) returned. *)
Definition reap_children (pids : list Z) : IM unit := emits (map Reaped pids).

(** * The handlers of the event loop *)
Section Handlers.
Context (init_fd notify_fd : Z).

Definition send_all (msg : bytes) : IM unit := emit (Send init_fd msg).

Definition handle_terminate_instance (seq : Z) : IM handled :=
  send_all (result_uint32 seq 0);;
  gns_stop_engine;;
  s ← get;
  when (Plan9Life.plan9_is_running (g_plan9 s))
    (with_plan9 (fun h => Plan9Life.plan9_stop_server true (w_waits W h));; skip);;
  s ← get;
  match g_mounted_fs s with [] => skip | _ => fs_unmount_all;; skip end;;
  emit Sync;; emit (Exit 0);; mret Exiting.

Definition handle_window_size_changed (msg : bytes) : IM handled :=
  when ((16 <=? Z.of_nat (length msg)) && (0 <=? notify_fd)) (emit (Send notify_fd msg));;
  mret Handled.

Definition conf_or (f : WslConf.wsl_conf -> Z) : IM Z :=
  gets (fun s => if g_wsl_conf_parsed s then f (g_wsl_conf s) else 1).

Definition handle_network_information (msg : bytes) : IM handled :=
  r ← with_gns (fun h => Gns.gns_handle_network_information
       (fun g => w_fopen_w W (h ++ map Net g)) (fun g => w_fclose W (h ++ map Net g))
       (fun g => w_rename W (h ++ map Net g)) msg);
  mret (match r with Some _ => Handled | None => Past_end end).

Definition handle_timezone (msg : bytes) : IM handled :=
  auto_tz ← conf_or WslConf.time_use_windows_timezone;
  r ← ask (fun h => Timezone.timezone_handle_message (w_ok W h) (w_exists W h) (Some msg) auto_tz);
  match r with
  | Timezone.Done os _ => emits (map Sys os);; mret Handled
  | Timezone.Past_end => mret Past_end
  end.

Definition handle_start_socket_relay (msg : bytes) : IM handled :=
  r ← ask (fun h => Relay.gns_handle_start_socket_relay init_fd (w_relay W h) msg);
  emits (map Relays (fst r));;
  mret (match snd r with Relay.In_daemon _ _ => In_child | _ => Handled end).

Definition sizeof_mount_drvfs : Z := 28.
Definition handle_remount_drvfs (seq : Z) (msg : bytes) : IM handled :=
  if Z.of_nat (length msg) <? sizeof_mount_drvfs then send_all (result_int32 seq (-1));; mret Handled
  else
    let admin := get_le 1 12 msg in
    s ← get;
    mount_drvfs (get32 16 msg) (get32 24 msg) (if admin =? 0 then 0 else 1)
      (if g_config_parsed s then ConfigMsg.feature_flags (g_config s) else 0);;
    send_all (result_int32 seq 0);; mret Handled.

Definition sizeof_stop_plan9 : Z := 16.
Definition handle_stop_plan9 (seq : Z) (msg : bytes) : IM handled :=
  if Z.of_nat (length msg) <? sizeof_stop_plan9 then send_all (result_bool seq false);; mret Handled
  else
    ok ← with_plan9 (fun h => Plan9Life.plan9_stop_server (negb (get32 12 msg =? 0)) (w_waits W h));
    send_all (result_bool seq ok);; mret Handled.

Definition handle_kernel_version (seq : Z) : IM handled :=
  send_all (kernel_version seq (match w_uname W with Some r => r | None => str "unknown" end));;
  mret Handled.

(** A string of the buffer at [offset], empty when the offset is outside it;
    [None] when it is not terminated inside the message. *)
Definition buffer_string (buffer : bytes) (offset : Z) : option bytes :=
  if offset <? Z.of_nat (length buffer) then
    let s := drop (Z.to_nat offset) buffer in
    if nul_terminated s then Some (to_cstr s) else None
  else Some [].

Definition run_system (cmd : bytes) : IM Z :=
  rc ← ask (fun h => w_system W h cmd); emit (System cmd);; mret rc.

Definition handle_add_virtiofs (seq : Z) (msg : bytes) : IM handled :=
  if Z.of_nat (length msg) <? 24 then send_all (result_int32 seq (-1));; mret Handled
  else
    let buffer := drop 24 msg in
    match buffer_string buffer (get32 16 msg), buffer_string buffer (get32 20 msg) with
    | Some path, Some options =>
      run_system (snprintf_s 512 (str "mount -t virtiofs wsl-virtiofs " ++ path ++ str " -o "
                                  ++ options ++ str " 2>/dev/null"));;
      send_all (virtiofs_response seq (str "wsl-virtiofs"));; mret Handled
    | _, _ => mret Past_end
    end.

Definition handle_remount_virtiofs (seq : Z) (msg : bytes) : IM handled :=
  if Z.of_nat (length msg) <? 20 then send_all (result_int32 seq (-1));; mret Handled
  else
    match buffer_string (drop 20 msg) (get32 16 msg) with
    | Some tag =>
      run_system (snprintf_s 512 (str "umount " ++ tag ++ str " 2>/dev/null; mount -t virtiofs "
                                  ++ tag ++ str " " ++ tag ++ str " 2>/dev/null"));;
      send_all (virtiofs_response seq tag);; mret Handled
    | None => mret Past_end
    end.

Definition run_boot_command : IM unit :=
  s ← get;
  match WslConf.boot_command (g_wsl_conf s) with
  | Some cmd => when (g_wsl_conf_parsed s) (run_system cmd;; skip)
  | None => skip
  end.

Definition handle_start_distro_init (seq : Z) : IM handled :=
  run_boot_command;; send_all (result_int32 seq 0);; mret Handled.

(** A query of the network engine that only replies, here on the init channel. *)
Definition query (m : Gns.M unit) : IM handled :=
  s ← get;
  let '(_, g) := m (g_gns s <| Gns.ops := [] |>) in
  emits (omap (fun o => match o with Gns.Send msg => Some (Send init_fd msg) | _ => None end)
              (Gns.ops g));;
  mret Handled.

(** The switch on the message type. *)
Definition dispatch (msg : bytes) : IM handled :=
  let hdr := read_header msg in
  let seq := SequenceNumber hdr in
  let t := MessageType hdr in
  if t =? LxInitMessageTerminateInstance then handle_terminate_instance seq
  else if t =? LxInitMessageWindowSizeChanged then handle_window_size_changed msg
  else if t =? LxInitMessageNetworkInformation then handle_network_information msg
  else if t =? LxInitMessageTimezoneInformation then handle_timezone msg
  else if t =? LxInitMessageStartSocketRelay then handle_start_socket_relay msg
  else if t =? LxInitMessageQueryNetworkingMode then
    query (Gns.gns_handle_query_networking_mode (w_networking_mode W) msg)
  else if t =? LxInitMessageQueryVmId then query (Gns.gns_handle_query_vm_id (w_read_file W) msg)
  else if t =? LxInitMessageRemountDrvfs then handle_remount_drvfs seq msg
  else if t =? LxInitMessageStopPlan9Server then handle_stop_plan9 seq msg
  else if t =? LxInitMessageKernelVersion then handle_kernel_version seq
  else if t =? LxInitMessageAddVirtioFsDevice then handle_add_virtiofs seq msg
  else if t =? LxInitMessageRemountVirtioFsDevice then handle_remount_virtiofs seq msg
  else if t =? LxInitMessageStartDistroInit then handle_start_distro_init seq
  else mret Handled.

(** * The event loop: one event per poll *)
Inductive loop_event : Type :=
| Poll_intr
| Poll_failed
| Polled (children : option (list Z)) (input : bool) (header_evs payload_evs : list sock_event).

(** How a turn, or the loop, ends. *)
Inductive turn : Type := Again | Leave | Waiting | Stopped (h : handled).

Definition receive_message (header_evs payload_evs : list sock_event) : IM turn :=
  s ← get;
  match recv_all header_evs (stream s) (Z.to_nat sizeof_header) with
  | (mk_xfer (Some 0) hdr _, rest) =>
    modify (fun s => s <| stream := rest |>);;
    let size := MessageSize (read_header hdr) in
    if size <? sizeof_header then mret Again
    else
      match recv_all payload_evs rest (Z.to_nat (size - sizeof_header)) with
      | (mk_xfer (Some 0) payload _, rest) =>
        modify (fun s => s <| stream := rest |>);;
        h ← dispatch (hdr ++ payload);
        mret (match h with Handled => Again | h => Stopped h end)
      | (mk_xfer (Some _) _ _, rest) => modify (fun s => s <| stream := rest |>);; mret Leave
      | (mk_xfer None _ _, rest) => modify (fun s => s <| stream := rest |>);; mret Waiting
      end
  | (mk_xfer (Some _) _ _, rest) => modify (fun s => s <| stream := rest |>);; mret Leave
  | (mk_xfer None _ _, rest) => modify (fun s => s <| stream := rest |>);; mret Waiting
  end.

Definition loop_turn (ev : loop_event) : IM turn :=
  match ev with
  | Poll_intr => mret Again
  | Poll_failed => mret Leave
  | Polled children input header_evs payload_evs =>
    match children with Some pids => reap_children pids | None => skip end;;
    if input : bool then receive_message header_evs payload_evs else mret Again
  end.

Fixpoint event_loop (evs : list loop_event) : IM turn :=
  match evs with
  | [] => mret Again
  | ev :: evs' =>
    t ← loop_turn ev;
    match t with Again => event_loop evs' | t => mret t end
  end.
End Handlers.
End World.
End Init.
