(* ===== verification/InitBoot.v ===== *)
(** The guest's init (src/FreeBSD/hvinit.c), second part: the messages of the
    handshake, the configuration that Initialize(5) and wsl.conf ask for, and
    [main], from the first mount to the clean-up after the event loop. *)
From S2P Require Import Prelude StateM CStr CNum Wire WslConf ConfigMsg SysOps Timezone.
From S2P Require Import NetworkConfig Gns Plan9Life Init.
Import StateM Wire Init.

Module InitBoot.

#[local] Instance config_part : Eta ConfigMsg.wsl_config := ConfigMsg.wsl_config_eta.
#[local] Instance gns_part : Eta Gns.gns := Gns.gns_eta.

(** * The handshake's messages *)

(** [fill n]: [n] bytes that malloc left as they were. *)
Definition capabilities (fill : nat -> bytes) : bytes :=
  let kver := str "FreeBSD-13.3-HVPoC" in
  header_bytes (mk_header LxMiniInitMessageGuestCapabilities (16 + Z.of_nat (length kver) + 1) 1)
  ++ [0] ++ kver ++ [0] ++ fill 3%nat.

Definition create_instance_result (fill : nat -> bytes) : bytes :=
  let warning := str "No warnings" in
  header_bytes (mk_header LxMiniInitMessageCreateInstanceResult (40 + Z.of_nat (length warning) + 1) 1)
  ++ le_bytes 4 0 ++ le_bytes 4 0 ++ fill 4%nat ++ le_bytes 8 1 ++ le_bytes 4 PORT_HVS_BSD
  ++ le_bytes 4 0 ++ warning ++ [0].

Definition flavor : bytes := str "GenericFlavor".
Definition version : bytes := str "1.0.0".
Definition configuration_info_response (seq plan9_port default_uid : Z) : bytes :=
  header_bytes (mk_header LxInitMessageInitializeResponse
                 (48 + Z.of_nat (length flavor) + 1 + Z.of_nat (length version) + 1) seq)
  ++ le_bytes 4 plan9_port ++ le_bytes 4 default_uid ++ le_bytes 4 PORT_HVS_BSD
  ++ [0] ++ repeat 0 7 ++ le_bytes 8 0 ++ le_bytes 4 0
  ++ le_bytes 4 (Z.of_nat (length flavor) + 1) ++ flavor ++ [0] ++ version ++ [0].

Definition create_session_response (seq port : Z) : bytes :=
  header_bytes (mk_header LxInitMessageCreateSessionResponse 16 seq) ++ le_bytes 4 port.

Definition oobe_result (result default_uid : Z) : bytes :=
  header_bytes (mk_header LxInitMessageOobeResult 24 1) ++ le_bytes 4 result ++ le_bytes 8 default_uid.

(** [%x] of a 32-bit number. *)
Definition hex_digit (d : Z) : Z := if d <? 10 then 48 + d else 87 + d.
Fixpoint hex_go (fuel : nat) (n : Z) (acc : bytes) : bytes :=
  match fuel with
  | O => acc
  | S f =>
    let acc' := hex_digit (n mod 16) :: acc in
    if n / 16 =? 0 then acc' else hex_go f (n / 16) acc'
  end.
Definition hex (n : Z) : bytes := hex_go 8 n [].

(** * Receiving *)

(** One recv of at most [len] bytes of the host's stream: [None] when it fails,
    no bytes when the host closed. *)
Definition recv_once (fd : Z) (ev : sock_event) (len : nat) : IM (option bytes) := fun s =>
  if fd <? 0 then (None, s)
  else
    match ev with
    | Progress n =>
      let d := take (min (S n) len) (stream s) in
      (Some d, s <| stream := drop (length d) (stream s) |>)
    | _ => (None, s)
    end.

(** What the outside does while the init starts. *)
Record boot_events : Type := mk_boot {
  b_fill : nat -> bytes;
  b_caps_sent : bool;          (* the send of the capabilities does not fail *)
  b_first : Z;                 (* recv on the capability channel *)
  b_header : sock_event;       (* the two recv of Initialize *)
  b_body : sock_event;
  b_session : sock_event       (* the recv of CreateSession *)
}.

(** How [main] ends: a return or exit status, the event loop still running or
    reading past a message, or one of the processes it forks. *)
Inductive ended : Type :=
| Returned (status : Z)
| Running (t : turn)
| Plan9_child (listen_fd rootfd control_fd : Z)
| Engine_child (start : engine_start).

Section World.
Context (W : world) (B : boot_events).

(** * Applying the configuration *)
Definition setenv (name value : bytes) : IM unit := emit (Sys (Setenv name value)).

Definition parse_initialize (msg : bytes) : IM unit :=
  s ← get;
  let '(cfg, rc) := ConfigMsg.wsl_config_parse ConfigMsg.wsl_config_init (Some msg) in
  modify (fun s => s <| g_config := cfg |>);;
  when (rc =? 0)
    (modify (fun s => s <| g_config_parsed := true |>);;
     match ConfigMsg.distribution_name cfg with
     | Some d => setenv (str "WSL_DISTRO_NAME") d
     | None => skip
     end;;
     setenv (str "WSL_FEATURE_FLAGS") (hex (ConfigMsg.feature_flags cfg))).

Definition parse_wsl_conf : IM unit :=
  let '(conf, rc) := WslConf.wsl_conf_parse_file WslConf.wsl_conf_init (w_wsl_conf W) in
  modify (fun s => s <| g_wsl_conf := conf |>);;
  when (rc =? 0)
    (modify (fun s => s <| g_wsl_conf_parsed := true |>);;
     s ← get;
     match WslConf.user_default conf with
     | Some u =>
       when (g_config_parsed s)
         match w_getpwnam W u with
         | Some uid =>
           modify (fun s => s <| g_config := g_config s <| ConfigMsg.drvfs_default_owner := uid |> |>)
         | None => skip
         end
     | None => skip
     end).

(** A module that changes the system and reports what it did. *)
Definition apply (f : hist -> list sysop * Z) : IM unit :=
  r ← ask f; emits (map Sys (fst r)).

Definition apply_timezone : IM unit :=
  s ← get;
  auto_tz ← conf_or WslConf.time_use_windows_timezone;
  when (g_config_parsed s)
    match ConfigMsg.timezone (g_config s) with
    | Some tz => apply (fun h => Timezone.timezone_apply (w_ok W h) (w_exists W h) (Some tz) auto_tz)
    | None => skip
    end.

Definition apply_network : IM unit :=
  s ← get;
  gen_hosts ← conf_or WslConf.network_generate_hosts;
  let cfg := g_config s in
  let conf_host := if g_wsl_conf_parsed s then WslConf.network_hostname (g_wsl_conf s) else None in
  when (g_config_parsed s)
    (apply (fun h => NetworkConfig.network_apply_hostname (w_ok W h) (ConfigMsg.hostname cfg) conf_host);;
     apply (fun h => NetworkConfig.network_apply_domainname (w_ok W h) (ConfigMsg.domainname cfg));;
     apply (fun h => NetworkConfig.network_generate_hosts (w_ok W h) (ConfigMsg.hostname cfg)
                       (ConfigMsg.domainname cfg) (ConfigMsg.windows_hosts cfg) gen_hosts)).

Definition automount : IM unit :=
  s ← get;
  auto_mount ← conf_or WslConf.automount_enabled;
  let cfg := g_config s in
  when (g_config_parsed s && negb (ConfigMsg.drvfs_mount cfg =? 0) && negb (auto_mount =? 0))
    (mount_drvfs W (ConfigMsg.drvfs_volumes_bitmap cfg) (ConfigMsg.drvfs_default_owner cfg)
       (ConfigMsg.drvfs_elevated cfg) (ConfigMsg.feature_flags cfg);; skip).

Definition set_generate_resolvconf : IM unit :=
  gen ← conf_or WslConf.network_generate_resolvconf;
  modify (fun s => s <| g_gns := g_gns s <| Gns.g_generate_resolvconf := gen |> |>).

Definition set_append_path : IM unit :=
  append_path ← conf_or WslConf.interop_append_windows_path;
  setenv (str "WSL_APPEND_WINDOWS_PATH") (if append_path =? 0 then str "0" else str "1").

Definition send_configuration_info_response (init_fd seq : Z) : IM unit :=
  s ← get;
  emit (Send init_fd (configuration_info_response seq (Plan9Life.plan9_get_port (g_plan9 s))
    (if g_config_parsed s then ConfigMsg.drvfs_default_owner (g_config s) else 1))).

(** Everything between the reception of Initialize and its response; the result
    tells the server's child from the parent. *)
Definition apply_initialize (init_fd : Z) (msg : bytes) : IM (option ended) :=
  parse_initialize msg;;
  parse_wsl_conf;;
  apply_timezone;;
  apply_network;;
  automount;;
  run_boot_command W;;
  set_generate_resolvconf;;
  set_append_path;;
  r ← with_plan9 (fun h => Plan9Life.plan9_start_server (w_start_plan9 W h));
  match r with
  | Plan9Life.In_child l r c => mret (Some (Plan9_child l r c))
  | Plan9Life.Port _ =>
    send_configuration_info_response init_fd (SequenceNumber (read_header msg));; mret None
  end.

(** Initialize(5): the header and the body in one recv each; a short one is
    dropped. *)
Definition receive_initialize (init_fd : Z) : IM (option ended) :=
  hdr ← recv_once init_fd (b_header B) 12;
  match hdr with
  | None => mret None
  | Some hdr =>
    let size := MessageSize (read_header hdr) in
    if negb (length hdr =? 12)%nat then mret None
    else if size <? sizeof_header then mret None
    else
      let payload_len := Z.to_nat (size - sizeof_header) in
      if (payload_len =? 0)%nat then apply_initialize init_fd hdr
      else
        body ← recv_once init_fd (b_body B) payload_len;
        match body with
        | Some body =>
          if (length body =? payload_len)%nat then apply_initialize init_fd (hdr ++ body) else mret None
        | None => mret None
        end
  end.

(** CreateSession(2): what a short recv does not fill keeps its old content. *)
Definition receive_create_session (init_fd : Z) : IM unit :=
  r ← recv_once init_fd (b_session B) 24;
  match r with
  | Some (b :: d) =>
    let seq := get32 8 (b :: d ++ b_fill B (23 - length d)) in
    emit (Send init_fd (create_session_response seq PORT_HVS_BSD))
  | _ => skip
  end.

Definition send_oobe_result (init_fd : Z) : IM unit :=
  s ← get;
  let owner := ConfigMsg.drvfs_default_owner (g_config s) in
  emit (Send init_fd (oobe_result 0 (if g_config_parsed s && negb (owner =? 0) then owner else -1))).

(** After the loop: the configurations are freed, the engine is stopped, the
    channels are closed. *)
Definition clean_up (cap_fd notify_fd init_fd : Z) : IM unit :=
  modify (fun s => if g_config_parsed s
    then s <| g_config := ConfigMsg.wsl_config_free (g_config s) |> <| g_config_parsed := false |> else s);;
  modify (fun s => if g_wsl_conf_parsed s
    then s <| g_wsl_conf := WslConf.wsl_conf_free (g_wsl_conf s) |> <| g_wsl_conf_parsed := false |> else s);;
  gns_stop_engine;;
  emit (Close cap_fd);; when (0 <=? notify_fd) (emit (Close notify_fd));;
  when (0 <=? init_fd) (emit (Close init_fd)).

(** After the handshake: the engine, the loop and the clean-up. *)
Definition run_engine_and_loop (cap_fd notify_fd init_fd : Z) (evs : list loop_event) : IM ended :=
  st ← gns_start_engine W cap_fd notify_fd init_fd;
  match st with
  | In_parent =>
    t ← event_loop W init_fd notify_fd evs;
    match t with
    | Leave => clean_up cap_fd notify_fd init_fd;; mret (Returned 0)
    | Stopped Exiting => mret (Returned 0)
    | t => mret (Running t)
    end
  | child => mret (Engine_child child)
  end.

Definition handshake (cap_fd notify_fd : Z) (evs : list loop_event) : IM ended :=
  init_fd ← hv_connect W PORT_HVS;
  emit (Send init_fd (create_instance_result (b_fill B)));;
  r ← receive_initialize init_fd;
  match r with
  | Some e => mret e
  | None =>
    receive_create_session init_fd;;
    send_oobe_result init_fd;;
    run_engine_and_loop cap_fd notify_fd init_fd evs
  end.

Definition close_channels (cap_fd notify_fd : Z) : IM unit :=
  emit (Close cap_fd);; when (0 <=? notify_fd) (emit (Close notify_fd)).

Definition main (evs : list loop_event) : IM ended :=
  gns_configure_test_paths W;;
  initialize_filesystems W;;
  cap_fd ← hv_connect W PORT_HVS;
  if cap_fd <? 0 then mret (Returned 1)
  else
    emit (Send cap_fd (capabilities (b_fill B)));;
    if negb (b_caps_sent B) then emit (Close cap_fd);; mret (Returned 1)
    else
      notify_fd ← hv_connect W PORT_HVS;
      if b_first B <=? 0 then close_channels cap_fd notify_fd;; mret (Returned 1)
      else handshake cap_fd notify_fd evs.
End World.

(** The static variables when the process starts. *)
Definition init_start (host : bytes) : init :=
  mk_init ConfigMsg.wsl_config_init false WslConf.wsl_conf_zero false [] (-1)
    Plan9Life.plan9_initial (Gns.mk_gns (str "lo0") 1 Gns.GNS_RESOLVCONF_PATH_DEFAULT []) host [].
End InitBoot.
