(* ===== verification/InitLoopThm.v ===== *)
(** Theorems on the init: its operations (InitThm), its conversation with the host at boot
    (InitBootThm), the event loop, whose requests are answered, and shutting down
    (InitLoopThm), and the table of mounts (InitMountsThm). *)
From stdpp Require Import sets.
From S2P Require Import Prelude StateM CStr CNum Wire ChannelThm WslConf ConfigMsg SysOps NetworkConfig Timezone Plan9Life Plan9LifeThm Relay Drvfs Gns Init InitBoot.

Import StateM Wire Init InitBoot.


Module InitThm.

(** * A concrete world: everything succeeds *)
Definition ex_world : world := mk_world
  (fun h _ => 3 + Z.of_nat (length h)) (fun _ _ => true) (fun _ _ => true) (fun _ _ => true)
  (fun _ _ => true) (fun _ _ force => if force then Unmounted else Busy)
  (fun _ => Some 1001) (fun uid => uid) (fun _ _ => 0) (fun _ => 55)
  (WslConf.Opened (str "[user]" ++ [c_nl] ++ str "default=ada" ++ [c_nl]))
  (Some (str "14.1-RELEASE"))
  (fun _ => Plan9Life.mk_env 30 31 true true (Some (32, 33)) 44 [] (fun p => Some p))
  (fun _ => [44]) (fun _ => Relay.mk_relay_env 60 true true 66)
  (fun _ _ => true) (fun _ _ => true) (fun _ _ _ => true) None (fun _ => None) [].

(** * What is sent, and the part of the state that silent code leaves alone *)
Definition sent (h : hist) : list (Z * bytes) :=
  omap (fun o => match o with Send fd m => Some (fd, m) | _ => None end) h.
#[global] Arguments sent : simpl never.
Definition silent (os : hist) : Prop := sent os = [].

Definition view_type : Type :=
  (list (Z * bytes) * ConfigMsg.wsl_config * bool * bytes * Plan9Life.plan9)%type.
Definition view (s : init) : view_type :=
  (sent (ops s), g_config s, g_config_parsed s, stream s, g_plan9 s).
Abbreviation quiet v m := (keeps (fun s => view s = v) m).

Lemma sent_app a b : sent (a ++ b) = sent a ++ sent b.
Proof. apply omap_app. Qed.

Lemma silent_map {A} (f : A -> init_op) l : (forall x, silent [f x]) -> silent (map f l).
Proof.
  intros H. induction l as [|x l IH]; [done|]. unfold silent in *. cbn [map].
  change (f x :: map f l) with ([f x] ++ map f l). by rewrite sent_app, H, IH.
Qed.

Lemma view_ops s os : silent os -> view (s <| ops := ops s ++ os |>) = view s.
Proof. intros H. unfold view. cbn. by rewrite sent_app, H, app_nil_r. Qed.

Section Quiet.
Context (v : view_type).

Lemma quiet_emits os : silent os -> quiet v (emits os).
Proof. intros H s Hs. cbn. by rewrite view_ops. Qed.

Lemma quiet_emit o : silent [o] -> quiet v (emit o).
Proof. intros H s Hs. cbn. by rewrite view_ops. Qed.

Lemma view_modify (f : init -> init) : (forall s, view (f s) = view s) -> quiet v (modify f).
Proof. intros H. apply keeps_modify. intros s Hs. by rewrite H. Qed.

Lemma quiet_ask {A} (f : hist -> A) : quiet v (ask f).
Proof. apply keeps_gets. Qed.

Lemma quiet_with_gns {A} (m : hist -> Gns.M A) : quiet v (with_gns m).
Proof.
  intros s Hs. unfold with_gns. destruct (m _ _) as [x g]. cbn.
  rewrite <-Hs. apply (view_ops s). by apply silent_map.
Qed.

Lemma quiet_track path : quiet v (fs_track_mount path).
Proof. apply view_modify. intros s. by case_match. Qed.
End Quiet.
#[export] Hint Resolve quiet_ask quiet_with_gns quiet_track : wsl.
#[export] Hint Extern 1 (keeps _ (emit _)) => apply quiet_emit; reflexivity : wsl.
#[export] Hint Extern 1 (keeps _ (emits (map _ _))) =>
  apply quiet_emits, silent_map; reflexivity : wsl.
#[export] Hint Extern 1 (keeps _ (modify _)) => apply view_modify; intros ?; reflexivity : wsl.

Section World.
Context (W : world).

Section Silent.
Context (v : view_type).

Lemma quiet_mount_fs t d : quiet v (mount_fs W t d).
Proof. unfold mount_fs. keep_steps. Qed.

Lemma quiet_for_each {A} (l : list A) (f : A -> IM unit) :
  (forall x, quiet v (f x)) -> quiet v (for_each l f).
Proof. intros H. by apply keeps_for_each. Qed.

Lemma quiet_mount_drvfs b o e f : quiet v (mount_drvfs W b o e f).
Proof.
  unfold mount_drvfs. keep_steps. apply quiet_for_each. intros y. keep_steps.
Qed.

Lemma quiet_unmount_list l : quiet v (unmount_list W l).
Proof.
  induction l as [|p l IH]; cbn [unmount_list]; [apply keeps_ret|].
  unfold unmount_one, unmount. keep_steps.
Qed.

Lemma quiet_hv_connect p : quiet v (hv_connect W p).
Proof. unfold hv_connect. keep_steps. Qed.
#[local] Hint Resolve quiet_mount_fs quiet_mount_drvfs quiet_unmount_list quiet_hv_connect : wsl.

Lemma quiet_initialize_filesystems : quiet v (initialize_filesystems W).
Proof. unfold initialize_filesystems. keep_steps. Qed.

Lemma quiet_unmount_all : quiet v (fs_unmount_all W).
Proof. unfold fs_unmount_all. keep_steps. Qed.

Lemma quiet_stop_engine : quiet v gns_stop_engine.
Proof. unfold gns_stop_engine. keep_steps. Qed.

Lemma quiet_start_engine c n i : quiet v (gns_start_engine W c n i).
Proof. unfold gns_start_engine. keep_steps. Qed.

Lemma quiet_boot_command : quiet v (run_boot_command W).
Proof. unfold run_boot_command, run_system. keep_steps. Qed.

Lemma quiet_apply f : quiet v (apply f).
Proof. unfold apply. keep_steps. Qed.
#[local] Hint Resolve quiet_apply : wsl.

Lemma quiet_conf_or f : quiet v (conf_or f).
Proof. apply keeps_gets. Qed.
#[local] Hint Resolve quiet_conf_or : wsl.

Lemma quiet_timezone : quiet v (apply_timezone W).
Proof. unfold apply_timezone. keep_steps. Qed.

Lemma quiet_network : quiet v (apply_network W).
Proof. unfold apply_network. keep_steps. Qed.

Lemma quiet_automount : quiet v (automount W).
Proof. unfold automount. keep_steps. Qed.

Lemma quiet_resolvconf : quiet v set_generate_resolvconf.
Proof. unfold set_generate_resolvconf. keep_steps. Qed.

Lemma quiet_append_path : quiet v set_append_path.
Proof. unfold set_append_path, setenv. keep_steps. Qed.

Lemma quiet_test_paths : quiet v (gns_configure_test_paths W).
Proof. unfold gns_configure_test_paths. keep_steps. Qed.
End Silent.
End World.
#[export] Hint Resolve quiet_mount_fs quiet_mount_drvfs quiet_unmount_list quiet_hv_connect
  quiet_initialize_filesystems quiet_unmount_all quiet_stop_engine quiet_start_engine
  quiet_boot_command quiet_apply quiet_conf_or quiet_timezone quiet_network quiet_automount
  quiet_resolvconf quiet_append_path quiet_test_paths : wsl.

(** * The handshake *)

(** The user that owns the drives: the one wsl.conf names, when it exists. *)
Definition boot_owner (W : world) (owner : Z) : Z :=
  let '(conf, rc) := WslConf.wsl_conf_parse_file WslConf.wsl_conf_init (w_wsl_conf W) in
  match WslConf.user_default conf with
  | Some u => match w_getpwnam W u with Some uid => if rc =? 0 then uid else owner | None => owner end
  | None => owner
  end.

#[local] Instance config_part : Eta ConfigMsg.wsl_config := ConfigMsg.wsl_config_eta.
Definition with_owner (cfg : ConfigMsg.wsl_config) (owner : Z) : ConfigMsg.wsl_config :=
  cfg <| ConfigMsg.drvfs_default_owner := owner |>.

Section Boot.
Context (W : world) (B : boot_events).

Lemma parse_initialize_view msg cfg S cfg0 p0 str p9 :
  ConfigMsg.wsl_config_parse ConfigMsg.wsl_config_init (Some msg) = (cfg, 0) ->
  triple (fun s => view s = (S, cfg0, p0, str, p9)) (parse_initialize msg)
         (fun _ s => view s = (S, cfg, true, str, p9)).
Proof.
  intros E. unfold parse_initialize. rewrite E. cbn [Z.eqb when].
  eapply triple_bind; [apply keeps_get|]. intros s0. cbv beta.
  eapply (triple_bind _ _ (fun _ s => view s = (S, cfg, p0, str, p9))).
  { apply triple_modify. intros s [= H1 H2 H3 H4 H5]. unfold view. cbn. congruence. }
  intros []. eapply (triple_bind _ _ (fun _ s => view s = (S, cfg, true, str, p9))).
  { apply triple_modify. intros s [= H1 H2 H3 H4 H5]. unfold view. cbn. congruence. }
  intros []. change (quiet (S, cfg, true, str, p9) (match ConfigMsg.distribution_name cfg with
     | Some d => setenv (Prelude.str "WSL_DISTRO_NAME") d | None => skip end;;
     setenv (Prelude.str "WSL_FEATURE_FLAGS") (hex (ConfigMsg.feature_flags cfg)))).
  unfold setenv. keep_steps.
Qed.

Lemma parse_wsl_conf_view S cfg str p9 :
  triple (fun s => view s = (S, cfg, true, str, p9)) (parse_wsl_conf W)
    (fun _ s => view s
       = (S, with_owner cfg (boot_owner W (ConfigMsg.drvfs_default_owner cfg)), true, str, p9)).
Proof.
  unfold parse_wsl_conf, boot_owner.
  destruct (WslConf.wsl_conf_parse_file _ _) as [conf rc].
  assert (Hid : with_owner cfg (ConfigMsg.drvfs_default_owner cfg) = cfg) by by destruct cfg.
  intros s Hs. unfold mbind, M_bind, when, modify, get, skip.
  destruct (rc =? 0); cbn [g_config_parsed g_wsl_conf];
    destruct (WslConf.user_default conf) as [u|]; unfold view in *;
    try destruct (w_getpwnam W u); injection Hs as H1 H2 H3 H4 H5; cbn; rewrite ?H3; cbn;
    rewrite ?H1, ?H2, ?H3, ?H4, ?H5, ?Hid; reflexivity.
Qed.

(** Starting the Plan 9 server in the parent: nothing is said to the host. *)
Lemma start_plan9_view S cfg p str p9 :
  Plan9Life.started p9 = false -> Plan9Life.port p9 = 0 ->
  (forall h, Plan9Life.fork_pid (w_start_plan9 W h) <> 0) ->
  triple (fun s => view s = (S, cfg, p, str, p9))
    (with_plan9 (fun h => Plan9Life.plan9_start_server (w_start_plan9 W h)))
    (fun r s => exists port p9', r = Plan9Life.Port port /\ (port = 0 \/ port = 50001)
       /\ Plan9Life.port p9' = port /\ view s = (S, cfg, p, str, p9')).
Proof.
  intros Hs Hp Hf s [= H1 H2 H3 H4 H5]. subst p9. unfold with_plan9.
  destruct (Plan9Life.plan9_start_server _ _) as [r p'] eqn:E.
  apply Plan9LifeThm.start_port in E as (port & -> & Hport & Hp'); [|done|done|done|apply Hf].
  eexists port, _. split; [done|]. split; [done|]. split; [|unfold view; cbn].
  2: { rewrite sent_app, silent_map, app_nil_r by done. by rewrite H1, H2, H3, H4. }
  exact Hp'.
Qed.

Lemma emit_send_view fd msg S cfg p str p9 s :
  view s = (S, cfg, p, str, p9) -> view (s <| ops := ops s ++ [Send fd msg] |>)
    = (S ++ [(fd, msg)], cfg, p, str, p9).
Proof. intros [= H1 H2 H3 H4 H5]. unfold view. cbn. rewrite sent_app.
  change (sent [Send fd msg]) with [(fd, msg)]. congruence.
Qed.

Lemma apply_initialize_view init_fd msg cfg S cfg0 p0 str p9 :
  ConfigMsg.wsl_config_parse ConfigMsg.wsl_config_init (Some msg) = (cfg, 0) ->
  Plan9Life.started p9 = false -> Plan9Life.port p9 = 0 ->
  (forall h, Plan9Life.fork_pid (w_start_plan9 W h) <> 0) ->
  let owner := boot_owner W (ConfigMsg.drvfs_default_owner cfg) in
  triple (fun s => view s = (S, cfg0, p0, str, p9)) (apply_initialize W init_fd msg)
    (fun r s => r = None /\ exists port p9', (port = 0 \/ port = 50001) /\
       view s = (S ++ [(init_fd, configuration_info_response (SequenceNumber (read_header msg)) port owner)],
                 with_owner cfg owner, true, str, p9')).
Proof.
  intros E Hs Hp Hf owner. unfold apply_initialize.
  eapply triple_bind; [by apply parse_initialize_view|]. intros [].
  eapply triple_bind; [apply parse_wsl_conf_view|]. intros []. fold owner.
  set (v := (S, with_owner cfg owner, true, str, p9)).
  do 6 (eapply triple_bind; [first [apply (quiet_timezone W v)|apply (quiet_network W v)
    |apply (quiet_automount W v)|apply (quiet_boot_command W v)|apply (quiet_resolvconf v)
    |apply (quiet_append_path v)]|intros []; cbv beta]).
  eapply triple_bind; [by apply start_plan9_view|]. intros r s (port & p9' & -> & Hport & Hpp & Hv).
  unfold send_configuration_info_response, mbind, M_bind, get, emit, modify.
  split; [done|]. exists port, p9'. split; [done|].
  assert (Hg : g_config s = with_owner cfg owner /\ g_config_parsed s = true /\ g_plan9 s = p9')
    by by injection Hv.
  destruct Hg as (Hg & -> & ->). rewrite Hg. unfold Plan9Life.plan9_get_port. rewrite Hpp.
  apply emit_send_view. exact Hv.
Qed.

(** * The event loop only adds to what was sent *)
Definition grows (S : list (Z * bytes)) (s : init) : Prop := exists more, sent (ops s) = S ++ more.

Lemma grows_refl s : grows (sent (ops s)) s.
Proof. exists []. by rewrite app_nil_r. Qed.

Lemma grows_emits S os : keeps (grows S) (emits os).
Proof. intros s [more H]. exists (more ++ sent os). cbn. by rewrite sent_app, H, app_assoc. Qed.

Lemma grows_emit S o : keeps (grows S) (emit o).
Proof. apply (grows_emits S [o]). Qed.

Lemma grows_quiet {A} S (m : IM A) : (forall v, quiet v m) -> keeps (grows S) m.
Proof.
  intros Hm s [more H]. pose proof (Hm (view s) s eq_refl) as Hv. destruct (m s) as [x s'].
  injection Hv as Hv _ _ _ _. exists more. by rewrite Hv.
Qed.

Lemma grows_modify S f : (forall s, ops (f s) = ops s) -> keeps (grows S) (modify f).
Proof. intros Hf. apply keeps_modify. intros s [more H]. exists more. by rewrite Hf. Qed.

Lemma grows_with_plan9 {A} S (m : hist -> M Plan9Life.plan9 A) : keeps (grows S) (with_plan9 m).
Proof.
  intros s [more H]. unfold with_plan9. destruct (m _ _) as [x g]. exists more. cbn.
  by rewrite sent_app, silent_map, app_nil_r.
Qed.
#[local] Hint Resolve grows_emits grows_emit grows_with_plan9 : wsl.
#[local] Hint Extern 2 (keeps (grows _) (modify _)) => apply grows_modify; intros ?; reflexivity : wsl.
#[local] Hint Extern 3 (keeps (grows _) _) => apply grows_quiet; intros ?; solve [eauto with wsl] : wsl.

Section Channel.
Context (init_fd notify_fd : Z) (S : list (Z * bytes)).

Lemma grows_dispatch msg : keeps (grows S) (dispatch W init_fd notify_fd msg).
Proof.
  unfold dispatch, handle_terminate_instance, handle_window_size_changed, handle_network_information,
    handle_timezone, handle_start_socket_relay, query, handle_remount_drvfs, handle_stop_plan9,
    handle_kernel_version, handle_add_virtiofs, handle_remount_virtiofs, handle_start_distro_init,
    send_all, run_system.
  keep_steps.
Qed.
#[local] Hint Resolve grows_dispatch : wsl.

Lemma grows_receive h p : keeps (grows S) (receive_message W init_fd notify_fd h p).
Proof. unfold receive_message. keep_steps. Qed.
#[local] Hint Resolve grows_receive : wsl.

Lemma grows_loop evs : keeps (grows S) (event_loop W init_fd notify_fd evs).
Proof.
  induction evs as [|e evs IH]; cbn [event_loop]; [apply keeps_ret|].
  apply keeps_bind; [|intros []; auto with wsl]. unfold loop_turn, reap_children. keep_steps.
Qed.
End Channel.
#[local] Hint Resolve grows_loop : wsl.

Lemma grows_engine_and_loop S c n i evs : keeps (grows S) (run_engine_and_loop W c n i evs).
Proof.
  unfold run_engine_and_loop, clean_up. keep_steps; apply grows_modify; intros ?; by case_match.
Qed.
End Boot.
End InitThm.

Import StateM Wire Init InitBoot InitThm.

Module InitBootThm.

Section Boot.
Context (W : world) (B : boot_events).

(** A recv that returns everything that was asked for. *)
Definition whole (ev : sock_event) (n : nat) : bool :=
  match ev with Progress k => (n <=? S k)%nat | _ => false end.

Lemma recv_once_whole fd ev n d S cfg p str p9 :
  0 <= fd -> whole ev n = true -> length d = n ->
  triple (fun s => view s = (S, cfg, p, d ++ str, p9)) (recv_once fd ev n)
         (fun r s => r = Some d /\ view s = (S, cfg, p, str, p9)).
Proof.
  intros Hfd Hev Hd s [= H1 H2 H3 H4 H5]. unfold recv_once.
  replace (fd <? 0) with false by lia. destruct ev as [k| | |]; try done.
  apply Nat.leb_le in Hev. rewrite Nat.min_r, H4, take_app_length' by lia.
  split; [done|]. unfold view. cbn. rewrite drop_app_length. congruence.
Qed.

Lemma hv_connect_view port v :
  (forall h p, 0 <= w_connect W h p) ->
  triple (fun s => view s = v) (hv_connect W port) (fun fd s => 0 <= fd /\ view s = v).
Proof.
  intros Hc s Hs. unfold hv_connect, mbind, M_bind, ask, gets, emit, modify. cbn.
  split; [apply Hc|]. by rewrite (view_ops s [_]).
Qed.

Lemma send_view fd msg S cfg p str p9 :
  triple (fun s => view s = (S, cfg, p, str, p9)) (emit (Send fd msg))
         (fun _ s => view s = (S ++ [(fd, msg)], cfg, p, str, p9)).
Proof. intros s Hs. cbn. by apply emit_send_view. Qed.

(** Initialize, received whole, is applied and answered. *)
Lemma receive_initialize_view init_fd msg cfg S cfg0 p0 str p9 :
  0 <= init_fd ->
  ConfigMsg.wsl_config_parse ConfigMsg.wsl_config_init (Some msg) = (cfg, 0) ->
  (12 <= length msg)%nat -> MessageSize (read_header msg) = Z.of_nat (length msg) ->
  whole (b_header B) 12 = true -> whole (b_body B) (length msg - 12) = true ->
  Plan9Life.started p9 = false -> Plan9Life.port p9 = 0 ->
  (forall h, Plan9Life.fork_pid (w_start_plan9 W h) <> 0) ->
  let owner := boot_owner W (ConfigMsg.drvfs_default_owner cfg) in
  triple (fun s => view s = (S, cfg0, p0, msg ++ str, p9)) (receive_initialize W B init_fd)
    (fun r s => r = None /\ exists port p9', (port = 0 \/ port = 50001) /\
       view s = (S ++ [(init_fd, configuration_info_response (SequenceNumber (read_header msg)) port owner)],
                 with_owner cfg owner, true, str, p9')).
Proof.
  intros Hfd Hcfg Hlen Hsize Hh Hb Hst Hp Hf owner. unfold receive_initialize.
  assert (Ht : length (take 12 msg) = 12%nat) by (rewrite length_take; lia).
  replace (msg ++ str) with (take 12 msg ++ drop 12 msg ++ str) by by rewrite app_assoc, take_drop.
  eapply triple_bind; [by apply recv_once_whole|]. intros r. apply triple_pre. intros ->.
  rewrite Ht, read_header_take, Hsize by lia. cbn [Nat.eqb negb]. unfold sizeof_header.
  replace (Z.of_nat (length msg) <? 12) with false by lia.
  replace (Z.to_nat (Z.of_nat (length msg) - 12)) with (length msg - 12)%nat by lia.
  destruct (Nat.eqb_spec (length msg - 12) 0) as [E0|E0].
  - rewrite (drop_ge msg 12), app_nil_l by lia. rewrite (take_ge msg 12) by lia.
    by apply apply_initialize_view.
  - eapply triple_bind; [apply recv_once_whole; [done|exact Hb|by rewrite length_drop]|].
    intros r. apply triple_pre. intros ->. rewrite length_drop, Nat.eqb_refl, take_drop.
    by apply apply_initialize_view.
Qed.

Lemma receive_create_session_view init_fd sess S cfg p str p9 :
  0 <= init_fd -> whole (b_session B) 24 = true -> length sess = 24%nat ->
  triple (fun s => view s = (S, cfg, p, sess ++ str, p9)) (receive_create_session B init_fd)
    (fun _ s => view s = (S ++ [(init_fd, create_session_response (get32 8 sess) PORT_HVS_BSD)],
                          cfg, p, str, p9)).
Proof.
  intros Hfd Hs Hl. unfold receive_create_session.
  eapply triple_bind; [by apply recv_once_whole|]. intros r. apply triple_pre. intros ->.
  destruct sess as [|b d]; [done|].
  replace (get32 8 (b :: d)) with (get32 8 (b :: d ++ b_fill B (23 - length d))); [apply send_view|].
  unfold get32, get_le. f_equal. change (b :: d ++ b_fill B (23 - length d)) with ((b :: d) ++ b_fill B (23 - length d)).
  cbn [length] in Hl. rewrite skipn_app, take_app_le; [done|]. rewrite length_drop. cbn [length]. lia.
Qed.

Lemma send_oobe_view init_fd S cfg p9 str :
  let owner := ConfigMsg.drvfs_default_owner cfg in
  triple (fun s => view s = (S, cfg, true, str, p9)) (send_oobe_result init_fd)
    (fun _ s => view s = (S ++ [(init_fd, oobe_result 0 (if owner =? 0 then -1 else owner))],
                          cfg, true, str, p9)).
Proof.
  intros owner s Hs. unfold send_oobe_result, mbind, M_bind, get.
  assert (Hg : g_config s = cfg /\ g_config_parsed s = true) by by injection Hs.
  destruct Hg as [-> ->]. fold owner. cbn [andb].
  destruct (owner =? 0); by apply (send_view init_fd _ S cfg true str p9 s).
Qed.

Lemma engine_in_parent c n i v :
  (forall h p, 0 <= w_connect W h p) -> (forall h, w_fork W h <> 0) ->
  triple (fun s => view s = v) (gns_start_engine W c n i) (fun r s => r = In_parent /\ view s = v).
Proof.
  intros Hc Hf. unfold gns_start_engine.
  eapply triple_bind; [by apply hv_connect_view|]. intros fd. apply triple_pre. intros Hfd.
  replace (fd <? 0) with false by lia.
  eapply triple_bind; [apply keeps_get|]. intros s0. cbv beta.
  apply (triple_bind _ _ (fun _ s => view s = v)).
  { change (quiet v (if g_config_parsed s0
      && negb (Z.land (ConfigMsg.feature_flags (g_config s0)) LxInitFeatureDnsTunneling =? 0)
      then hv_connect W PORT_HVS else mret (-1))). keep_steps. }
  intros dns. apply (triple_bind _ _ (fun pid s => pid <> 0 /\ view s = v)).
  { apply triple_gets. intros s Hs. split; [apply Hf|done]. }
  intros pid. apply triple_pre. intros Hpid.
  assert (Hend : forall m : IM unit, quiet v m ->
    triple (fun s => view s = v) (m;; mret In_parent) (fun r s => r = In_parent /\ view s = v)).
  { intros m Hm. eapply triple_bind; [exact Hm|]. intros []. by apply triple_ret. }
  eapply triple_bind; [apply (quiet_emit v); reflexivity|]. intros [].
  replace (pid =? 0) with false by lia. destruct (pid <? 0).
  all: eapply triple_bind; [apply (quiet_emit v); reflexivity|]; intros [].
  - apply Hend. keep_steps.
  - eapply triple_bind; [apply (keeps_when (fun s => view s = v)), quiet_emit; reflexivity|].
    intros []. apply Hend. keep_steps.
Qed.

(** With no event the loop only starts, and nothing more is sent or read. *)
Lemma loop_starts_quietly c n i v :
  (forall h p, 0 <= w_connect W h p) -> (forall h, w_fork W h <> 0) ->
  triple (fun s => view s = v) (run_engine_and_loop W c n i []) (fun _ s => view s = v).
Proof.
  intros Hc Hf. unfold run_engine_and_loop.
  eapply triple_bind; [by apply engine_in_parent|]. intros r. apply triple_pre. intros ->.
  apply (triple_bind _ _ (fun t s => t = Again /\ view s = v)); [by apply triple_ret|].
  intros t. apply triple_pre. intros ->. by apply triple_ret.
Qed.

Lemma loop_only_adds c n i S evs :
  triple (fun s => sent (ops s) = S) (run_engine_and_loop W c n i evs)
         (fun _ s => exists more, sent (ops s) = S ++ more).
Proof.
  intros s <-. apply (grows_engine_and_loop W (sent (ops s)) c n i evs s). apply grows_refl.
Qed.

(** The bytes one recv hands over. *)
Definition arrived (ev : sock_event) (len : nat) (str : bytes) : bytes :=
  match ev with Progress n => take (min (S n) len) str | _ => [] end.

Lemma recv_once_arrived fd ev len s :
  0 <= fd ->
  recv_once fd ev len s
    = (match ev with Progress n => Some (arrived ev len (stream s)) | _ => None end,
       s <| stream := drop (length (arrived ev len (stream s))) (stream s) |>).
Proof. intros Hfd. unfold recv_once. replace (fd <? 0) with false by lia. destruct ev; by destruct s. Qed.

(** An Initialize that does not come in the two recv calls.  When the first
    call returns less than the header, or the second less than the size the header
    gives, nothing of it is applied and no response is sent: the only effect is
    that the bytes of these calls are gone from the channel; what is left of the
    message stays there and is read next. *)
Theorem short_initialize_is_dropped init_fd s :
  0 <= init_fd ->
  let hdr := arrived (b_header B) 12 (stream s) in
  let left := drop (length hdr) (stream s) in
  let need := Z.to_nat (MessageSize (read_header hdr) - 12) in
  let body := if (length hdr =? 12)%nat then arrived (b_body B) need left else [] in
  (length hdr = 12%nat -> 12 <= MessageSize (read_header hdr)) ->
  (length hdr < 12)%nat \/ (length body < need)%nat ->
  receive_initialize W B init_fd s
    = (None, s <| stream := drop (length hdr + length body) (stream s) |>).
Proof.
  intros Hfd hdr left need body Hsize Hshort. unfold receive_initialize, mbind, M_bind.
  rewrite recv_once_arrived by done. fold hdr. fold left.
  destruct (b_header B) as [n| | |] eqn:Eh.
  2-4: subst hdr; cbn [arrived length] in *; by rewrite drop_0.
  subst body. destruct (Nat.eqb_spec (length hdr) 12) as [E|E]; cbn [negb].
  2: { cbn [length]. by rewrite Nat.add_0_r. }
  specialize (Hsize E). unfold sizeof_header. replace (_ <? 12) with false by lia.
  change (Z.to_nat (MessageSize (read_header hdr) - 12)) with need.
  destruct Hshort as [?|Hshort]; [lia|]. destruct (Nat.eqb_spec need 0) as [?|_]; [lia|].
  rewrite recv_once_arrived by done. change (stream (s <| stream := left |>)) with left.
  assert (Hd : drop (length hdr + length (arrived (b_body B) need left)) (stream s)
               = drop (length (arrived (b_body B) need left)) left) by (symmetry; apply drop_drop).
  rewrite Hd. destruct (b_body B) as [k| | |]; try done.
  destruct (Nat.eqb_spec (length (arrived (Progress k) need left)) need) as [?|_]; [lia|done].
Qed.
(** What the host must do for the start to go through. *)
Record reachable_host (msg sess : bytes) (cfg : ConfigMsg.wsl_config) : Prop := {
  host_connects : forall h p, 0 <= w_connect W h p;
  host_forks : forall h, w_fork W h <> 0 /\ Plan9Life.fork_pid (w_start_plan9 W h) <> 0;
  host_answers : b_caps_sent B = true /\ 0 < b_first B;
  host_config : ConfigMsg.wsl_config_parse ConfigMsg.wsl_config_init (Some msg) = (cfg, 0);
  host_framed : (12 <= length msg)%nat /\ MessageSize (read_header msg) = Z.of_nat (length msg);
  host_whole : whole (b_header B) 12 = true /\ whole (b_body B) (length msg - 12) = true;
  host_session : length sess = 24%nat /\ whole (b_session B) 24 = true
}.

(** What is said before the event loop starts. *)
Definition greeting (cap init_fd port owner : Z) (msg sess : bytes) : list (Z * bytes) :=
  [(cap, capabilities (b_fill B));
   (init_fd, create_instance_result (b_fill B));
   (init_fd, configuration_info_response (SequenceNumber (read_header msg)) port owner);
   (init_fd, create_session_response (get32 8 sess) PORT_HVS_BSD);
   (init_fd, oobe_result 0 (if owner =? 0 then -1 else owner))].

Lemma main_reaches_loop evs msg sess rest cfg Q :
  reachable_host msg sess cfg ->
  let owner := boot_owner W (ConfigMsg.drvfs_default_owner cfg) in
  (forall cap nfd ifd port p9, port = 0 \/ port = 50001 ->
     triple (fun s => view s = (greeting cap ifd port owner msg sess, with_owner cfg owner, true, rest, p9))
            (run_engine_and_loop W cap nfd ifd evs) Q) ->
  triple (fun s => view s = ([], ConfigMsg.wsl_config_init, false, msg ++ sess ++ rest,
                             Plan9Life.plan9_initial))
         (main W B evs) Q.
Proof.
  intros [Hc Hf [Hcaps Hfirst] Hcfg [Hlen Hsize] [Hh Hb] [Hl Hs]] owner HQ.
  unfold main, handshake. rewrite Hcaps. replace (b_first B <=? 0) with false by lia.
  eapply triple_bind; [apply quiet_test_paths|]. intros [].
  eapply triple_bind; [apply quiet_initialize_filesystems|]. intros [].
  eapply triple_bind; [by apply hv_connect_view|]. intros cap. apply triple_pre. intros Hcap.
  replace (cap <? 0) with false by lia. cbn [negb].
  eapply triple_bind; [apply send_view|]. intros [].
  eapply triple_bind; [by apply hv_connect_view|]. intros nfd. apply triple_pre. intros Hnfd.
  eapply triple_bind; [by apply hv_connect_view|]. intros ifd. apply triple_pre. intros Hifd.
  eapply triple_bind; [apply send_view|]. intros [].
  eapply triple_bind; [apply (receive_initialize_view _ msg cfg); try done; intros h; apply Hf|].
  intros r. apply triple_pre. intros ->. fold owner.
  apply triple_ex. intros port. apply triple_ex. intros p9. apply triple_pre. intros Hport.
  eapply triple_bind; [by apply receive_create_session_view|]. intros [].
  eapply triple_bind; [apply send_oobe_view|]. intros []. exact (HQ cap nfd ifd port p9 Hport).
Qed.

(** C4: the conversation of the start.  When the host accepts the connections and
    sends a well-formed Initialize and a CreateSession, the init says exactly five
    things before it enters the event loop, in this order: its capabilities on the
    first channel; then on the init channel the result of the instance, the
    response to Initialize with its sequence number, the port of the Plan 9 server
    and the user that owns the drives (the one wsl.conf names when it exists), the
    response to CreateSession with the session's port, and the result of the first
    run with that user.  Whatever the loop then does only adds to this; and when
    nothing has happened on the channels yet, nothing else was said and exactly
    the two messages were taken off the stream. *)
Theorem boot_conversation evs msg sess rest cfg :
  reachable_host msg sess cfg ->
  let owner := boot_owner W (ConfigMsg.drvfs_default_owner cfg) in
  let '(_, s) := main W B evs (init_start (msg ++ sess ++ rest)) in
  exists cap init_fd port more,
    (port = 0 \/ port = 50001)
    /\ sent (ops s) = greeting cap init_fd port owner msg sess ++ more
    /\ (evs = [] -> more = [] /\ stream s = rest).
Proof.
  intros Hr owner. refine (main_reaches_loop evs msg sess rest cfg
    (fun _ s => exists cap init_fd port more, (port = 0 \/ port = 50001)
       /\ sent (ops s) = greeting cap init_fd port owner msg sess ++ more
       /\ (evs = [] -> more = [] /\ stream s = rest)) Hr _
    (init_start (msg ++ sess ++ rest)) eq_refl).
  intros cap nfd ifd port p9 Hport s Hv. destruct evs as [|e evs].
  - pose proof (loop_starts_quietly cap nfd ifd _ (host_connects _ _ _ Hr)
      (fun h => proj1 (host_forks _ _ _ Hr h)) s Hv) as Hq.
    destruct (run_engine_and_loop _ _ _ _ _ s) as [r s']. injection Hq as H1 _ _ H4 _.
    exists cap, ifd, port, []. by rewrite app_nil_r, H1.
  - injection Hv as H1 _ _ H4 _.
    pose proof (loop_only_adds cap nfd ifd _ (e :: evs) s eq_refl) as Hq.
    destruct (run_engine_and_loop _ _ _ _ _ s) as [r s']. destruct Hq as [more Hmore].
    exists cap, ifd, port, more. by rewrite Hmore, H1.
Qed.
End Boot.

(** * A start *)
Definition ex_msg : bytes := ConfigMsg.wsl_config_build_message (Some (str "box")) None None
  (Some (str "FreeBSD")) None (Some (str "Asia/Shanghai")) 5 1000 32 2 7.
Definition ex_session : bytes := header_bytes (mk_header 2 24 8) ++ le_bytes 4 0 ++ le_bytes 8 3.
Definition ex_boot : boot_events := mk_boot (fun n => repeat 170 n) true 5 (Progress 11)
  (Progress 1000) (Progress 23).
Definition ex_config : ConfigMsg.wsl_config :=
  Eval vm_compute in fst (ConfigMsg.wsl_config_parse ConfigMsg.wsl_config_init (Some ex_msg)).

Lemma ex_reachable : reachable_host ex_world ex_boot ex_msg ex_session ex_config.
Proof.
  split.
  - intros h p. unfold ex_world, w_connect. lia.
  - intros h. split; vm_compute; discriminate.
  - done.
  - vm_compute; reflexivity.
  - split; [apply Nat.leb_le|]; vm_compute; reflexivity.
  - split; vm_compute; reflexivity.
  - split; vm_compute; reflexivity.
Qed.

Lemma boot_conversation_witness :
  let '(_, s) := main ex_world ex_boot [] (init_start (ex_msg ++ ex_session ++ [9])) in
  exists cap init_fd port more,
    (port = 0 \/ port = 50001)
    /\ sent (ops s) = greeting ex_boot cap init_fd port
         (boot_owner ex_world (ConfigMsg.drvfs_default_owner ex_config)) ex_msg ex_session ++ more
    /\ (@nil loop_event = [] -> more = [] /\ stream s = [9]).
Proof. exact (boot_conversation ex_world ex_boot [] ex_msg ex_session [9] ex_config ex_reachable). Defined.

(** The header arrives, and one byte of the body. *)
Definition ex_short : boot_events := mk_boot (fun n => repeat 170 n) true 5 (Progress 11)
  (Progress 0) (Progress 23).

Lemma short_initialize_is_dropped_witness :
  let s := init_start (ex_msg ++ ex_session) in
  receive_initialize ex_world ex_short 9 s = (None, s <| stream := drop 13 (ex_msg ++ ex_session) |>).
Proof.
  intros s. refine (short_initialize_is_dropped ex_world ex_short 9 s _ _ _); [done|done|].
  right. apply Nat.ltb_lt. vm_compute. reflexivity.
Defined.

(** The session request that follows is then cut out of the middle of the message:
    the response carries four of its bytes as sequence number. *)
Example short_initialize_desynchronizes :
  let s := snd (main ex_world ex_short [] (init_start (ex_msg ++ ex_session))) in
  sent (ops s) =
    [(6, capabilities (b_fill ex_boot)); (9, create_instance_result (b_fill ex_boot));
     (9, create_session_response (get32 8 (drop 13 ex_msg)) PORT_HVS_BSD); (9, oobe_result 0 (-1))].
Proof. vm_compute. reflexivity. Qed.

(** In this start the response gives the user of wsl.conf, and the five messages
    are all that was sent. *)
Example ex_start_sends :
  let s := snd (main ex_world ex_boot [] (init_start (ex_msg ++ ex_session))) in
  sent (ops s) = greeting ex_boot 6 9 50001 1001 ex_msg ex_session.
Proof. vm_compute. reflexivity. Qed.
End InitBootThm.

Import StateM Wire WireThm Init InitThm.

Module InitLoopThm.

(** * What is said on one channel *)
Definition said (fd : Z) (h : hist) : list bytes :=
  omap (fun o => match o with Send f m => if f =? fd then Some m else None | _ => None end) h.
#[global] Arguments said : simpl never.

Lemma said_app fd a b : said fd (a ++ b) = said fd a ++ said fd b.
Proof. apply omap_app. Qed.

Lemma said_sent fd h : said fd h = omap (fun p : Z * bytes => if fst p =? fd then Some (snd p) else None) (sent h).
Proof.
  induction h as [|o h IH]; [done|]. change (o :: h) with ([o] ++ h).
  rewrite said_app, sent_app, omap_app, IH. f_equal.
  by destruct o.
Qed.

(** The messages that are replied to on the init channel (StartSocketRelay gets
    no reply). *)
Definition replying (msg : bytes) : bool :=
  bool_decide (MessageType (read_header msg) ∈
    [LxInitMessageTerminateInstance; LxInitMessageQueryNetworkingMode; LxInitMessageQueryVmId;
     LxInitMessageRemountDrvfs; LxInitMessageStopPlan9Server; LxInitMessageKernelVersion;
     LxInitMessageAddVirtioFsDevice; LxInitMessageRemountVirtioFsDevice; LxInitMessageStartDistroInit]).

(** A reply carries the sequence number of the request and its own size. *)
Definition answers (msg reply : bytes) : Prop :=
  SequenceNumber (read_header reply) = SequenceNumber (read_header msg)
  /\ MessageSize (read_header reply) = Z.of_nat (length reply).

Definition framed (msg : bytes) : Prop :=
  (12 <= length msg)%nat /\ MessageSize (read_header msg) = Z.of_nat (length msg).

Lemma answers_bytes msg typ n body :
  bytes_ok msg -> 0 <= typ < 2 ^ 32 -> n < 2 ^ 32 -> n = 12 + Z.of_nat (length body) ->
  answers msg (header_bytes (mk_header typ n (SequenceNumber (read_header msg))) ++ body).
Proof.
  intros Hb Ht Hn Hl. pose proof (get_le_bound 4 8 msg Hb) as Hs. unfold answers.
  rewrite read_header_bytes by (unfold read_header; cbn [SequenceNumber]; unfold get32; lia).
  cbn [SequenceNumber MessageSize]. rewrite length_app, header_bytes_length. lia.
Qed.

Section Loop.
Context (W : world) (init_fd notify_fd : Z).
Context (two_channels : init_fd <> notify_fd).
Context (short_release : match w_uname W with Some r => Z.of_nat (length r) < 256 | None => True end).

(** Where the conversation and the stream are. *)
Definition at_point (S : list bytes) (x : bytes) (s : init) : Prop :=
  said init_fd (ops s) = S /\ stream s = x.
Abbreviation hush S x m := (keeps (at_point S x) m).

Section Point.
Context (S : list bytes) (x : bytes).

Lemma hush_quiet {A} (m : IM A) : (forall v, quiet v m) -> hush S x m.
Proof.
  intros Hm s [H1 H2]. pose proof (Hm (view s) s eq_refl) as Hv. destruct (m s) as [y s'].
  injection Hv as E1 _ _ E2 _. split; [by rewrite said_sent, E1, <-said_sent|by rewrite E2].
Qed.

Lemma hush_emits os : said init_fd os = [] -> hush S x (emits os).
Proof. intros H s [H1 H2]. split; cbn; [by rewrite said_app, H, app_nil_r|done]. Qed.

Lemma hush_notify msg : hush S x (emit (Send notify_fd msg)).
Proof.
  apply (hush_emits [Send notify_fd msg]). unfold said. cbn.
  by destruct (notify_fd =? init_fd) eqn:E; [lia|].
Qed.

Lemma said_map {A} (f : A -> init_op) l : (forall x, said init_fd [f x] = []) -> said init_fd (map f l) = [].
Proof.
  intros H. induction l as [|y l IH]; [done|]. cbn [map].
  change (f y :: map f l) with ([f y] ++ map f l). by rewrite said_app, H, IH.
Qed.

Lemma hush_with_plan9 {A} (m : hist -> M Plan9Life.plan9 A) : hush S x (with_plan9 m).
Proof.
  intros s [H1 H2]. unfold with_plan9. destruct (m _ _) as [y g]. split; [|done]. cbn.
  by rewrite said_app, said_map, app_nil_r.
Qed.
End Point.
#[local] Hint Resolve hush_with_plan9 hush_notify : wsl.
#[local] Hint Extern 3 (keeps (at_point _ _) _) => apply hush_quiet; intros ?; solve [eauto with wsl] : wsl.

(** * One message *)

(** [m] answers [msg] once, unless it reads beyond it, which it does before it
    says anything. *)
Definition answering (msg : bytes) (m : IM handled) : Prop := forall S x,
  triple (at_point S x) m (fun h s =>
    (h = Past_end /\ at_point S x s)
    \/ (h <> Past_end /\ exists r, answers msg r /\ at_point (S ++ [r]) x s)).

Lemma send_all_point S x r : triple (at_point S x) (send_all init_fd r) (fun _ => at_point (S ++ [r]) x).
Proof.
  intros s [H1 H2]. split; cbn; [|done]. rewrite said_app, H1. unfold said. cbn. by rewrite Z.eqb_refl.
Qed.

Lemma answering_first msg r (m : IM handled) :
  answers msg r -> (forall S x, hush S x m) -> (forall s, fst (m s) <> Past_end) ->
  answering msg (send_all init_fd r;; m).
Proof.
  intros Hr Hm Hne S x. eapply triple_bind; [apply send_all_point|]. intros [] s Hs.
  pose proof (Hm _ _ s Hs) as H. specialize (Hne s).
  destruct (m s) as [h s']. right. split; [done|]. by exists r.
Qed.

Lemma answering_end msg r h :
  answers msg r -> h <> Past_end -> answering msg (send_all init_fd r;; mret h).
Proof. intros Hr Hh. apply answering_first; [done|intros S x; apply keeps_ret|done]. Qed.

Lemma answering_bind {A} msg (m : IM A) f :
  (forall S x, hush S x m) -> (forall y, answering msg (f y)) -> answering msg (m ≫= f).
Proof. intros Hm Hf S x. eapply triple_bind; [apply Hm|]. intros y. apply Hf. Qed.

Lemma answering_past_end msg : answering msg (mret Past_end).
Proof. intros S x s Hs. by left. Qed.

(** The loop's handlers that have something to say. *)
Section Request.
Context (msg : bytes) (msg_bytes : bytes_ok msg) (msg_framed : framed msg).
Let seq : Z := SequenceNumber (read_header msg).

Lemma answers_int32 r : answers msg (result_int32 seq r).
Proof. apply answers_bytes; try done. Qed.
Lemma answers_uint32 r : answers msg (result_uint32 seq r).
Proof. apply answers_bytes; try done. Qed.
Lemma answers_bool b : answers msg (result_bool seq b).
Proof. apply answers_bytes; try done. Qed.

Lemma answers_kernel_version :
  answers msg (kernel_version seq (match w_uname W with Some r => r | None => str "unknown" end)).
Proof using msg_bytes short_release.
  assert (Z.of_nat (length match w_uname W with Some r => r | None => str "unknown" end) < 256)
    by by destruct (w_uname W).
  apply answers_bytes; [done|done|lia|]. rewrite !length_app, le_bytes_length. cbn [length]. lia.
Qed.

Lemma answers_virtiofs tag : Z.of_nat (length tag) + 21 < 2 ^ 32 -> answers msg (virtiofs_response seq tag).
Proof.
  intros H. apply answers_bytes; [done|done|lia|]. rewrite !length_app, !le_bytes_length. cbn [length]. lia.
Qed.

Lemma answers_query v : answers msg (Gns.result_uint32 msg v).
Proof.
  unfold Gns.result_uint32. destruct msg_framed as [Hl _].
  replace (12 <=? Z.of_nat (length msg)) with true by lia. by apply answers_bytes.
Qed.

Lemma buffer_string_length buffer off t :
  buffer_string buffer off = Some t -> Z.of_nat (length t) <= Z.max 0 (Z.of_nat (length buffer) - 1).
Proof.
  unfold buffer_string. destruct (off <? _); [|intros [= <-]; cbn [length]; lia].
  destruct (nul_terminated _) eqn:E; [|done]. intros [= <-].
  apply nul_terminated_split in E as [post E]. apply (f_equal length) in E.
  rewrite length_drop, length_app in E. cbn [length] in E. lia.
Qed.

#[local] Hint Resolve answers_int32 answers_uint32 answers_bool answers_kernel_version
  answers_query answering_past_end : wsl.
#[local] Hint Extern 1 (_ <> Past_end) => discriminate : wsl.

Lemma terminate_answers : answering msg (handle_terminate_instance W init_fd seq).
Proof.
  apply answering_first; [auto with wsl|intros S x; keep_steps|].
  intros s. unfold mbind, M_bind, mret, M_ret. by repeat case_match.
Qed.

Lemma remount_drvfs_answers : answering msg (handle_remount_drvfs W init_fd seq msg).
Proof.
  unfold handle_remount_drvfs. destruct (_ <? _); [by apply answering_end; auto with wsl|].
  apply answering_bind; [intros S x; keep_steps|]. intros s.
  apply answering_bind; [intros S x; keep_steps|]. intros n. apply answering_end; auto with wsl.
Qed.

Lemma stop_plan9_answers : answering msg (handle_stop_plan9 W init_fd seq msg).
Proof.
  unfold handle_stop_plan9. destruct (_ <? _); [by apply answering_end; auto with wsl|].
  apply answering_bind; [intros S x; keep_steps|]. intros b. apply answering_end; auto with wsl.
Qed.

Lemma run_system_hush cmd S x : hush S x (run_system W cmd).
Proof. apply hush_quiet. intros v. unfold run_system. keep_steps. Qed.

Lemma add_virtiofs_answers : answering msg (handle_add_virtiofs W init_fd seq msg).
Proof.
  unfold handle_add_virtiofs. destruct (_ <? _); [by apply answering_end; auto with wsl|].
  do 2 (destruct (buffer_string _ _); [|apply answering_past_end]).
  apply answering_bind; [intros S x; apply run_system_hush|]. intros n.
  apply answering_end; [|done]. by apply answers_virtiofs.
Qed.

Lemma remount_virtiofs_answers : answering msg (handle_remount_virtiofs W init_fd seq msg).
Proof.
  unfold handle_remount_virtiofs. destruct (_ <? _); [by apply answering_end; auto with wsl|].
  destruct (buffer_string _ _) eqn:E; [|apply answering_past_end]. apply buffer_string_length in E.
  apply answering_bind; [intros S x; apply run_system_hush|]. intros n.
  apply answering_end; [|done]. apply answers_virtiofs. rewrite length_drop in E.
  destruct msg_framed as [? Hs]. pose proof (get_le_bound 4 4 msg msg_bytes) as Hb.
  unfold read_header in Hs. cbn [MessageSize] in Hs. unfold get32 in Hs. lia.
Qed.

Lemma distro_init_answers : answering msg (handle_start_distro_init W init_fd seq).
Proof.
  unfold handle_start_distro_init. apply answering_bind; [intros S x; keep_steps|]. intros [].
  apply answering_end; auto with wsl.
Qed.

Lemma query_answers v (m : Gns.M unit) :
  (forall g, Gns.ops (snd (m g)) = Gns.ops g ++ [Gns.Send (Gns.result_uint32 msg v)]) ->
  answering msg (query init_fd m).
Proof.
  intros Hm. unfold query. apply answering_bind; [intros S x; apply keeps_get|]. intros s S x s1 Hs.
  pose proof (answering_end msg _ Handled (answers_query v) ltac:(done) S x s1 Hs) as H.
  destruct (m _) as [[] g] eqn:E. 
  match type of E with m ?a = _ => specialize (Hm a) end. rewrite E in Hm. cbn [snd] in Hm. rewrite Hm. exact H.
Qed.

(** What a message does to the conversation. *)
Definition after (S : list bytes) (x : bytes) (h : handled) (s : init) : Prop :=
  if replying msg
  then (h = Past_end /\ at_point S x s)
       \/ (h <> Past_end /\ exists r, answers msg r /\ at_point (S ++ [r]) x s)
  else at_point S x s.

Lemma after_answering S x m : replying msg = true -> answering msg m -> triple (at_point S x) m (after S x).
Proof. intros Hr Hm s Hs. unfold after. rewrite Hr. by apply Hm. Qed.

Lemma after_hush S x m : replying msg = false -> hush S x m -> triple (at_point S x) m (after S x).
Proof. intros Hr Hm s Hs. unfold after. rewrite Hr. by apply Hm. Qed.

Lemma kernel_version_answers : answering msg (handle_kernel_version W init_fd seq).
Proof. apply answering_end; auto with wsl. Qed.

Lemma other_hush S x :
  hush S x (handle_window_size_changed notify_fd msg) /\ hush S x (handle_network_information W msg)
  /\ hush S x (handle_timezone W msg) /\ hush S x (handle_start_socket_relay W init_fd msg).
Proof.
  unfold handle_window_size_changed, handle_network_information, handle_timezone,
    handle_start_socket_relay.
  split_and!; keep_steps.
Qed.

Lemma dispatch_point S x : triple (at_point S x) (dispatch W init_fd notify_fd msg) (after S x).
Proof.
  assert (Hq : answering msg (query init_fd (Gns.gns_handle_query_networking_mode (w_networking_mode W) msg)))
    by by eapply query_answers.
  assert (Hv : answering msg (query init_fd (Gns.gns_handle_query_vm_id (w_read_file W) msg)))
    by by eapply query_answers.
  destruct (other_hush S x) as (H1 & H2 & H3 & H4).
  unfold dispatch. fold seq.
  repeat match goal with
  | |- triple _ (if ?t =? ?c then _ else _) _ => destruct (Z.eqb_spec t c) as [E|?]
  end.
  all: try (apply after_answering; [unfold replying; rewrite E; reflexivity|]).
  all: first [apply terminate_answers|exact Hq|exact Hv|apply remount_drvfs_answers|apply stop_plan9_answers
    |apply kernel_version_answers|apply add_virtiofs_answers|apply remount_virtiofs_answers
    |apply distro_init_answers|apply after_hush; [try (unfold replying; rewrite E; reflexivity)|]; try done].
  - unfold replying. apply bool_decide_eq_false. set_solver.
  - apply keeps_ret.
Qed.
End Request.

(** * The loop *)

(** A poll that finds a message on a socket that works and delivers data often
    enough for [n] bytes, or one that finds none. *)
Definition works (n : nat) (ev : loop_event) : Prop :=
  match ev with
  | Poll_failed => False
  | Poll_intr => True
  | Polled _ false _ _ => True
  | Polled _ true hevs pevs =>
    healthy hevs /\ healthy pevs /\ (12 <= progress hevs)%nat /\ (n <= 12 + progress pevs)%nat
  end.
Definition reads (ev : loop_event) : nat := match ev with Polled _ true _ _ => 1%nat | _ => 0%nat end.
Definition total_reads (evs : list loop_event) : nat := list_sum (map reads evs).

Definition to_turn (h : handled) : turn := match h with Handled => Again | h => Stopped h end.

Lemma receive_whole_message hevs pevs m rest s n :
  framed m -> stream s = m ++ rest -> (length m <= n)%nat -> works n (Polled None true hevs pevs) ->
  receive_message W init_fd notify_fd hevs pevs s
    = (h ← dispatch W init_fd notify_fd m; mret (to_turn h)) (s <| stream := rest |>).
Proof.
  intros [Hlen Hsize] Hs Hn (Hh & Hp & Hhp & Hpp). unfold receive_message, mbind at 1, M_bind at 1, get.
  rewrite Hs. change (Z.to_nat sizeof_header) with 12%nat.
  destruct (recv_all_complete hevs (m ++ rest) 12 Hh Hhp) as (ev1 & -> & _); [rewrite length_app; lia|].
  rewrite take_app_le, drop_app_le by lia. unfold mbind, M_bind, modify. cbn beta iota.
  rewrite read_header_take by lia. rewrite Hsize. unfold sizeof_header.
  replace (Z.of_nat (length m) <? 12) with false by lia.
  replace (Z.to_nat (Z.of_nat (length m) - 12)) with (length (drop 12 m)) by (rewrite length_drop; lia).
  destruct (recv_all_complete pevs (drop 12 m ++ rest) (length (drop 12 m)) Hp) as (ev2 & -> & _);
    [rewrite length_drop; lia|rewrite length_app; lia|].
  rewrite take_app_length, drop_app_length, take_drop. reflexivity.
Qed.

Lemma loop_turn_idle ev s : reads ev = 0%nat -> works 0 ev ->
  let '(t, s') := loop_turn W init_fd notify_fd ev s in
  t = Again /\ said init_fd (ops s') = said init_fd (ops s) /\ stream s' = stream s.
Proof.
  destruct ev as [| |[pids|] [|] hevs pevs]; try done. intros _ _.
  change (let '(t, s') := (Again, s <| ops := ops s ++ map Reaped pids |>) in
    t = Again /\ said init_fd (ops s') = said init_fd (ops s) /\ stream s' = stream s).
  cbn. split; [done|]. split; [|done]. by rewrite said_app, (said_map Reaped), app_nil_r.
Qed.

Lemma loop_turn_reads children hevs pevs m rest s n :
  bytes_ok m -> framed m -> stream s = m ++ rest -> (length m <= n)%nat ->
  works n (Polled children true hevs pevs) ->
  let '(t, s') := loop_turn W init_fd notify_fd (Polled children true hevs pevs) s in
  exists h, t = to_turn h /\ after m (said init_fd (ops s)) rest h s'.
Proof.
  intros Hb Hf Hs Hn Hw. unfold loop_turn, mbind at 1, M_bind at 1.
  set (pre := match children with Some pids => reap_children pids | None => skip end).
  assert (Hpre : keeps (at_point (said init_fd (ops s)) (m ++ rest)) pre).
  { destruct children; [|apply keeps_skip]. apply hush_emits. by apply said_map. }
  specialize (Hpre s (conj eq_refl Hs)). destruct (pre s) as [u s1]. destruct Hpre as [H1 H2].
  rewrite (receive_whole_message hevs pevs m rest s1 n Hf H2 Hn Hw). unfold mbind, M_bind.
  pose proof (dispatch_point m Hb Hf (said init_fd (ops s)) rest (s1 <| stream := rest |>)
                (conj H1 eq_refl)) as Hd.
  destruct (dispatch _ _ _ _ _) as [h s2]. by exists h.
Qed.

(** [done] were taken and answered, [todo] were not when the loop stopped. *)
Definition answered (ms : list bytes) (rest : bytes) (s : init) (t : turn) (s' : init) : Prop :=
  exists taken todo replies,
    ms = taken ++ todo
    /\ said init_fd (ops s') = said init_fd (ops s) ++ replies
    /\ Forall2 answers (List.filter replying taken) replies
    /\ (t = Again -> todo = [] /\ stream s' = rest)
    /\ (t <> Again -> exists h, t = Stopped h /\ h <> Handled).

Lemma answered_nil s s' t :
  t = Again -> said init_fd (ops s') = said init_fd (ops s) -> answered [] (stream s') s t s'.
Proof.
  intros Ht H. exists [], [], [].
  split_and!; [done|by rewrite app_nil_r|by constructor|done|by intros ?].
Qed.

Lemma answered_step m ms rest s s1 h t s' :
  after m (said init_fd (ops s)) (concat ms ++ rest) h s1 ->
  (if to_turn h is Again then answered ms rest s1 t s' else t = to_turn h /\ s' = s1) ->
  answered (m :: ms) rest s t s'.
Proof.
  intros Ha Hrest.
  assert (Hstop : forall taken replies, to_turn h <> Again -> t = to_turn h -> s' = s1 ->
    m :: ms = taken ++ drop (length taken) (m :: ms) ->
    said init_fd (ops s1) = said init_fd (ops s) ++ replies ->
    Forall2 answers (List.filter replying taken) replies -> answered (m :: ms) rest s t s').
  { intros taken replies Hne -> -> E1 E2 E3. exists taken, (drop (length taken) (m :: ms)), replies.
    split_and!; try done. intros _. exists h. by destruct h. }
  assert (Hkeep : forall replies, said init_fd (ops s1) = said init_fd (ops s) ++ replies ->
    Forall2 answers (List.filter replying [m]) replies -> answered (m :: ms) rest s t s').
  { intros replies E1 E2. destruct (to_turn h) eqn:Eh.
    1: { destruct Hrest as (tk & td & rs & -> & Es & Hrs & Hend). exists (m :: tk), td, (replies ++ rs).
         rewrite app_assoc, <-E1. split_and!; try done; try apply Hend.
         change (m :: tk) with ([m] ++ tk). rewrite List.filter_app. by apply Forall2_app. }
    all: destruct Hrest as [Ht ->]; by apply (Hstop [m] replies). }
  unfold after in Ha. destruct (replying m) eqn:Em.
  - destruct Ha as [(-> & H1 & _)|(_ & r & Hr & H1 & _)].
    + destruct Hrest as [Ht ->]. apply (Hstop [] []); try done. by rewrite app_nil_r.
    + apply (Hkeep [r] H1). cbn. rewrite Em. by constructor.
  - destruct Ha as [H1 _]. apply (Hkeep []); [by rewrite app_nil_r|]. cbn. by rewrite Em.
Qed.

Lemma event_loop_answers ms rest evs s n :
  Forall (fun m => bytes_ok m /\ framed m /\ (length m <= n)%nat) ms ->
  stream s = concat ms ++ rest -> Forall (works n) evs -> total_reads evs = length ms ->
  let '(t, s') := event_loop W init_fd notify_fd evs s in answered ms rest s t s'.
Proof.
  intros Hms Hs Hw. revert ms s Hms Hs. induction Hw as [|ev evs Hev Hw IH]; intros ms s Hms Hs Hn.
  - destruct ms; [|done]. cbn [event_loop]. replace rest with (stream s) by exact Hs. by apply answered_nil.
  - cbn [event_loop]. unfold mbind, M_bind. unfold total_reads in *. 
    change (list_sum (map reads (ev :: evs))) with (reads ev + list_sum (map reads evs))%nat in Hn.
    destruct (reads ev) eqn:Er.
    + pose proof (loop_turn_idle ev s Er ltac:(by destruct ev as [| |? [|] ? ?])) as H.
      destruct (loop_turn _ _ _ ev s) as [t1 s1]. destruct H as (-> & H1 & H2).
      specialize (IH ms s1 Hms ltac:(by rewrite H2) Hn). destruct (event_loop _ _ _ evs s1) as [t s'].
      unfold answered in *. by rewrite H1 in IH.
    + destruct ev as [| |ch [|] hevs pevs]; try done. injection Er as <-.
      destruct ms as [|m ms]; [done|]. cbn [length] in Hn.
      assert (list_sum (map reads evs) = length ms) as Hn' by lia. apply Forall_cons in Hms as [(Hb & Hf & Hl) Hms].
      cbn [concat] in Hs. rewrite <-app_assoc in Hs.
      pose proof (loop_turn_reads ch hevs pevs m (concat ms ++ rest) s n Hb Hf Hs Hl Hev) as H.
      destruct (loop_turn _ _ _ _ s) as [t1 s1]. destruct H as (h & -> & Ha).
      specialize (IH ms s1 Hms). destruct h; cbn [to_turn].
      1: assert (Hs1 : stream s1 = concat ms ++ rest) by (unfold after in Ha;
           destruct (replying m); [destruct Ha as [[? _]|(_ & r & _ & _ & ?)]|destruct Ha]; done).
      1: specialize (IH Hs1 Hn'); destruct (event_loop _ _ _ evs s1) as [t s'].
      all: by eapply answered_step.
Qed.

(** C5: requests are answered.  On a socket that works, with one poll per message
    (and any number of polls that find nothing), the loop takes the framed messages
    off the stream one by one and says, in order, exactly one message for each of
    the nine requests that ask for a reply and nothing for the others; a reply
    carries the sequence number of its request and its own size.  The loop goes on
    until the last message is taken, unless a handler stops it. *)
Theorem requests_answered_in_order ms rest evs s n :
  Forall (fun m => bytes_ok m /\ framed m /\ (length m <= n)%nat) ms ->
  stream s = concat ms ++ rest -> Forall (works n) evs -> total_reads evs = length ms ->
  let '(t, s') := event_loop W init_fd notify_fd evs s in
  exists taken todo replies,
    ms = taken ++ todo
    /\ said init_fd (ops s') = said init_fd (ops s) ++ replies
    /\ Forall2 answers (List.filter replying taken) replies
    /\ (t = Again -> todo = [] /\ stream s' = rest)
    /\ (t <> Again -> exists h, t = Stopped h /\ h <> Handled).
Proof. apply event_loop_answers. Qed.
End Loop.

(** * Shutting down *)
Section Shutdown.
Context (W : world) (init_fd notify_fd : Z).

(** Each path is unmounted in turn, again by force when it was busy. *)
Fixpoint unmounts (h : hist) (paths : list bytes) : hist :=
  match paths with
  | [] => []
  | p :: paths =>
    let here := Unmount p false ::
      match w_unmount W h p false with Busy => [Unmount p true] | _ => [] end in
    here ++ unmounts (h ++ here) paths
  end.

Lemma unmount_list_ops paths s :
  snd (unmount_list W paths s) = s <| ops := ops s ++ unmounts (ops s) paths |>.
Proof.
  revert s. induction paths as [|p paths IH]; intros s.
  - cbn. rewrite app_nil_r. by destruct s.
  - cbn [unmount_list unmounts]. unfold unmount_one, unmount, mbind, M_bind, ask, gets, emit, modify.
    destruct (w_unmount W (ops s) p false); cbn [fst snd]; try destruct (w_unmount W _ p true);
    cbn -[unmount_list unmounts];
    match goal with |- context [unmount_list W paths ?x] => specialize (IH x); destruct (unmount_list W paths x) end;
    cbn [snd] in *; rewrite IH; cbn; by rewrite <-?app_assoc.
Qed.

(** What is done to the two child processes that may be there. *)
Definition engine_stop (pid : Z) : hist :=
  if 0 <? pid then [Kill pid SIGTERM; Waitpid pid] else [].
Definition server_stop (p : Plan9Life.plan9) : hist :=
  if Plan9Life.plan9_is_running p then
    [Plan9 (Plan9Life.Kill (Plan9Life.child_pid p) Plan9Life.SIGKILL);
     Plan9 (Plan9Life.Waitpid (Plan9Life.child_pid p) false)]
    ++ (if fst (Plan9Life.control_pipe p) <? 0 then []
        else [Plan9 (Plan9Life.Close (fst (Plan9Life.control_pipe p)))])
  else [].

Lemma gns_stop_engine_ops s :
  let s' := snd (gns_stop_engine s) in
  ops s' = ops s ++ engine_stop (g_gns_pid s) /\ g_plan9 s' = g_plan9 s
  /\ g_mounted_fs s' = g_mounted_fs s.
Proof.
  unfold gns_stop_engine, engine_stop, mbind, M_bind, get, when, emit, modify, skip. cbn.
  destruct (0 <? g_gns_pid s); cbn; [by rewrite <-app_assoc|by rewrite app_nil_r].
Qed.

Lemma stop_server_ops answers s :
  Plan9Life.plan9_is_running (g_plan9 s) = true ->
  let s' := snd (with_plan9 (fun h => Plan9Life.plan9_stop_server true (answers h)) s) in
  ops s' = ops s ++ server_stop (g_plan9 s) /\ g_mounted_fs s' = g_mounted_fs s.
Proof.
  intros Hr. unfold server_stop. rewrite Hr. unfold Plan9Life.plan9_is_running in Hr.
  apply andb_prop in Hr as [Hs Hpid].
  assert (Hn : forall p, Plan9Life.started p = Plan9Life.started (g_plan9 s) ->
    Plan9Life.child_pid p = Plan9Life.child_pid (g_plan9 s) -> Plan9Life.not_running p = false).
  { intros p E1 E2. unfold Plan9Life.not_running. rewrite E1, E2, Hs. cbn. lia. }
  unfold with_plan9, Plan9Life.plan9_stop_server, Plan9Life.reap, mbind, M_bind, get.
  rewrite Hn by done. cbn. by destruct (fst _ <? 0).
Qed.

Lemma terminate_ops seq s :
  let before := [Send init_fd (result_uint32 seq 0)] ++ engine_stop (g_gns_pid s)
                ++ server_stop (g_plan9 s) in
  let '(h, s') := handle_terminate_instance W init_fd seq s in
  h = Exiting
  /\ ops s' = ops s ++ before ++ unmounts (ops s ++ before) (rev (g_mounted_fs s)) ++ [Sync; Exit 0].
Proof.
  intros before. unfold handle_terminate_instance, send_all.
  unfold mbind, M_bind, emit at 1, modify at 1.
  pose proof (gns_stop_engine_ops (s <| ops := ops s ++ [Send init_fd (result_uint32 seq 0)] |>))
    as (H1 & H2 & H3).
  destruct (gns_stop_engine _) as [u1 s1]. cbn [snd] in *. unfold get at 1.
  change (g_plan9 s1 = g_plan9 s) in H2. change (g_mounted_fs s1 = g_mounted_fs s) in H3.
  change (ops s1 = (ops s ++ [Send init_fd (result_uint32 seq 0)]) ++ engine_stop (g_gns_pid s)) in H1.
  set (stop := when (Plan9Life.plan9_is_running (g_plan9 s1)) _).
  assert (Hstop : ops (snd (stop s1)) = ops s1 ++ server_stop (g_plan9 s)
                  /\ g_mounted_fs (snd (stop s1)) = g_mounted_fs s).
  { subst stop. rewrite H2. destruct (Plan9Life.plan9_is_running (g_plan9 s)) eqn:Er.
    - pose proof (stop_server_ops (w_waits W) s1 ltac:(by rewrite H2)) as [E1 E2].
      cbn [when]. unfold mbind, M_bind. rewrite <-H3, <-H2, <-E1, <-E2. by destruct (with_plan9 _ s1).
    - cbn. unfold server_stop. by rewrite Er, app_nil_r. }
  destruct (stop s1) as [u2 s2]. cbn [snd] in Hstop. destruct Hstop as [H4 H5]. cbn beta iota.
  unfold get. rewrite H5.
  assert (H6 : ops s2 = ops s ++ before) by (rewrite H4, H1; unfold before; by rewrite <-!app_assoc).
  clearbody before. pose proof (unmount_list_ops (rev (g_mounted_fs s)) s2) as Hu. rewrite H6 in Hu.
  destruct (g_mounted_fs s) as [|p ps].
  - cbn. rewrite H6. by rewrite <-!app_assoc.
  - unfold fs_unmount_all, mbind, M_bind, get. rewrite H5.
    destruct (unmount_list W _ s2) as [k s3]. cbn [snd] in Hu. subst s3. cbn.
    by rewrite <-!app_assoc.
Qed.

Lemma children_ops children s :
  (match children with Some pids => reap_children pids | None => skip end) s
  = (tt, s <| ops := ops s ++ map Reaped (default [] children) |>).
Proof. destruct children; [done|]. cbn. rewrite app_nil_r. by destruct s. Qed.

(** C6: TerminateInstance takes everything down, in a fixed order.  However its
    twelve bytes are fragmented, the loop answers it first with a zero result,
    then stops the network engine, kills and reaps the Plan 9 server, unmounts
    every tracked mount exactly once, the last mounted first (with a forced second
    attempt exactly when the first finds it busy), syncs and exits with status 0;
    whatever the channel brings after it is not looked at. *)
Theorem terminate_shuts_down children hevs pevs later seq rest s :
  0 <= seq < 2 ^ 32 -> healthy hevs -> (12 <= progress hevs)%nat -> healthy pevs ->
  stream s = header_bytes (mk_header LxInitMessageTerminateInstance 12 seq) ++ rest ->
  let before := map Reaped (default [] children)
                ++ [Send init_fd (result_uint32 seq 0)]
                ++ engine_stop (g_gns_pid s) ++ server_stop (g_plan9 s) in
  let '(t, s') := event_loop W init_fd notify_fd (Polled children true hevs pevs :: later) s in
  t = Stopped Exiting
  /\ ops s' = ops s ++ before ++ unmounts (ops s ++ before) (rev (g_mounted_fs s)) ++ [Sync; Exit 0].
Proof.
  intros Hseq Hh Hhp Hp Hs before. cbn [event_loop loop_turn]. unfold mbind, M_bind.
  rewrite children_ops. set (m := header_bytes _) in Hs.
  assert (Hr : read_header m = mk_header LxInitMessageTerminateInstance 12 seq).
  { unfold m. rewrite <-(app_nil_r (header_bytes _)).
    by apply read_header_bytes; unfold LxInitMessageTerminateInstance. }
  assert (Hl : length m = 12%nat) by apply header_bytes_length.
  rewrite (receive_whole_message W init_fd notify_fd hevs pevs m rest _ 12);
    [|split; [lia|by rewrite Hr, Hl]|exact Hs|lia|by split_and!; try lia].
  unfold mbind, M_bind, dispatch. rewrite Hr. cbn [MessageType SequenceNumber].
  rewrite Z.eqb_refl. set (s1 := s <| ops := _ |> <| stream := rest |>).
  pose proof (terminate_ops seq s1) as Ht.
  destruct (handle_terminate_instance _ _ _ s1) as [h s2]. destruct Ht as [-> Ht].
  split; [done|]. set (kids := map Reaped (default [] children)) in *.
  set (mid := [Send init_fd (result_uint32 seq 0)] ++ engine_stop (g_gns_pid s)
              ++ server_stop (g_plan9 s)) in *.
  change (ops s2 = (ops s ++ kids) ++ mid ++ unmounts ((ops s ++ kids) ++ mid) (rev (g_mounted_fs s))
                   ++ [Sync; Exit 0]) in Ht.
  rewrite Ht. unfold before. clearbody mid. by rewrite <-!app_assoc.
Qed.
End Shutdown.

(** * Examples *)
Definition ex_init (host : bytes) : init := (InitBoot.init_start host)
  <| g_gns_pid := 55 |>
  <| g_plan9 := Plan9Life.mk_plan9 77 50001 true (5, -1) [] [] |>
  <| g_mounted_fs := [str "/dev"; str "/mnt/c"] |>.

Definition ex_requests : list bytes :=
  [header_bytes (mk_header LxInitMessageKernelVersion 12 4);
   header_bytes (mk_header LxInitMessageWindowSizeChanged 16 5) ++ [24; 0; 80; 0];
   header_bytes (mk_header LxInitMessageStopPlan9Server 16 6) ++ [1; 0; 0; 0]].
Definition ex_poll (k : nat) : loop_event := Polled None true (repeat (Progress 4) 12) (repeat (Progress k) 4).

(** Two requests are answered and the window size goes to the other channel. *)
Lemma requests_answered_in_order_witness :
  let '(t, s') := event_loop ex_world 9 8 [ex_poll 3; Poll_intr; ex_poll 0; ex_poll 1]
                    (ex_init (concat ex_requests ++ [7])) in
  exists taken todo replies,
    ex_requests = taken ++ todo
    /\ said 9 (ops s') = said 9 [] ++ replies
    /\ Forall2 answers (List.filter replying taken) replies
    /\ (t = Again -> todo = [] /\ stream s' = [7])
    /\ (t <> Again -> exists h, t = Stopped h /\ h <> Handled).
Proof.
  refine (requests_answered_in_order ex_world 9 8 ltac:(done) ltac:(done) ex_requests [7]
    [ex_poll 3; Poll_intr; ex_poll 0; ex_poll 1] (ex_init (concat ex_requests ++ [7])) 16 _ eq_refl _ eq_refl).
  - unfold bytes_ok, is_byte, framed. apply (bool_decide_unpack _). vm_compute. exact I.
  - repeat constructor; cbn; lia.
Defined.

Lemma terminate_shuts_down_witness :
  let s := ex_init (header_bytes (mk_header LxInitMessageTerminateInstance 12 9) ++ [1; 2]) in
  ops (snd (event_loop ex_world 9 8 [Polled (Some [55]) true (repeat (Progress 0) 12) []] s))
  = [Reaped 55; Send 9 (result_uint32 9 0); Kill 55 SIGTERM; Waitpid 55;
     Plan9 (Plan9Life.Kill 77 9); Plan9 (Plan9Life.Waitpid 77 false); Plan9 (Plan9Life.Close 5);
     Unmount (str "/mnt/c") false; Unmount (str "/mnt/c") true;
     Unmount (str "/dev") false; Unmount (str "/dev") true; Sync; Exit 0].
Proof.
  intros s.
  pose proof (terminate_shuts_down ex_world 9 8 (Some [55]) (repeat (Progress 0) 12) [] [] 9 [1; 2] s
    ltac:(lia) ltac:(by repeat constructor) ltac:(by apply Nat.leb_le) ltac:(constructor) eq_refl) as H.
  destruct (event_loop ex_world 9 8 _ s) as [t s']. destruct H as [_ H]. cbn [snd]. rewrite H. reflexivity.
Defined.

(** In this trace the engine's pid (55) was already reaped at the poll; it is
    signalled and waited for afterwards all the same. *)
Example reaped_engine_is_signalled :
  let s := ex_init (header_bytes (mk_header LxInitMessageTerminateInstance 12 9)) in
  take 3 (drop 1 (ops (snd (event_loop ex_world 9 8
    [Polled (Some [55]) true [Progress 11] []] s))))
  = [Send 9 (result_uint32 9 0); Kill 55 SIGTERM; Waitpid 55].
Proof. reflexivity. Qed.
End InitLoopThm.

Import StateM Wire Init InitBoot InitThm InitBootThm.

Module InitMountsThm.

(** The directories something was mounted on, in order. *)
Definition targets (h : hist) : list bytes :=
  omap (fun o => match o with Sys (Mount _ t) => Some t | _ => None end) h.
#[global] Arguments targets : simpl never.

Lemma targets_app a b : targets (a ++ b) = targets a ++ targets b.
Proof. apply omap_app. Qed.

(** The table of mounts: at most 16 entries of at most 63 bytes, each (up to that
    length) a directory that was mounted on, in the order of the mounts. *)
Definition tracked (s : init) : Prop :=
  (length (g_mounted_fs s) <= 16)%nat
  /\ Forall (fun p => (length p <= 63)%nat) (g_mounted_fs s)
  /\ sublist (g_mounted_fs s) (map (take 63) (targets (ops s))).

Lemma tracked_grows s s' new :
  tracked s -> g_mounted_fs s' = g_mounted_fs s -> ops s' = ops s ++ new -> tracked s'.
Proof.
  intros (H1 & H2 & H3) E1 E2. unfold tracked. rewrite E1, E2. split; [done|]. split; [done|].
  rewrite targets_app, map_app. by apply sublist_inserts_r.
Qed.

Lemma tracked_emits os : keeps tracked (emits os).
Proof. intros s H. by apply (tracked_grows s _ os). Qed.
Lemma tracked_emit o : keeps tracked (emit o).
Proof. apply (tracked_emits [o]). Qed.

Lemma tracked_modify (f : init -> init) :
  (forall s, g_mounted_fs (f s) = g_mounted_fs s /\ ops (f s) = ops s) -> keeps tracked (modify f).
Proof.
  intros Hf. apply keeps_modify. intros s H. destruct (Hf s) as [E1 E2].
  apply (tracked_grows s _ [] H E1). by rewrite E2, app_nil_r.
Qed.

Lemma tracked_ask {A} (f : hist -> A) : keeps tracked (ask f).
Proof. apply keeps_gets. Qed.

Lemma tracked_with_gns {A} (m : hist -> Gns.M A) : keeps tracked (with_gns m).
Proof. intros s H. unfold with_gns. destruct (m _ _). by eapply tracked_grows. Qed.
Lemma tracked_with_plan9 {A} (m : hist -> M Plan9Life.plan9 A) : keeps tracked (with_plan9 m).
Proof. intros s H. unfold with_plan9. destruct (m _ _). by eapply tracked_grows. Qed.

#[local] Hint Resolve tracked_emits tracked_emit tracked_ask tracked_with_gns tracked_with_plan9 : wsl.
#[local] Hint Extern 2 (keeps tracked (modify _)) => apply tracked_modify; intros ?; by repeat case_match : wsl.

(** A mount and its entry go together. *)
Lemma track_after_mount ops0 fstype target (ok : bool) :
  keeps tracked (emits (ops0 ++ [Sys (Mount fstype target)]);; when ok (fs_track_mount target)).
Proof.
  intros s H. pose proof H as (H1 & H2 & H3). unfold mbind, M_bind. cbn [emits modify].
  set (s1 := s <| ops := _ |>).
  assert (Ht : tracked s1) by by apply (tracked_grows s _ (ops0 ++ [Sys (Mount fstype target)])).
  destruct ok; [|exact Ht]. change (tracked (if (length (g_mounted_fs s1) <? 16)%nat
    then s1 <| g_mounted_fs := g_mounted_fs s1 ++ [take 63 target] |> else s1)).
  destruct (Nat.ltb_spec (length (g_mounted_fs s1)) 16) as [Hlt|_]; [|exact Ht].
  change (length (g_mounted_fs s) < 16)%nat in Hlt.
  change ((length (g_mounted_fs s ++ [take 63 target]) <= 16)%nat
    /\ Forall (fun p => (length p <= 63)%nat) (g_mounted_fs s ++ [take 63 target])
    /\ sublist (g_mounted_fs s ++ [take 63 target])
         (map (take 63) (targets (ops s ++ ops0 ++ [Sys (Mount fstype target)])))).
  split; [rewrite length_app; cbn [length]; lia|]. split.
  - apply Forall_app. split; [done|]. constructor; [|done]. rewrite length_take. lia.
  - rewrite !targets_app, !map_app. apply sublist_app; [done|]. by apply sublist_inserts_l.
Qed.

Section World.
Context (W : world).

Lemma tracked_mount_fs fstype target : keeps tracked (mount_fs W fstype target).
Proof.
  unfold mount_fs. apply keeps_bind; [auto with wsl|]. intros there.
  apply keeps_bind; [keep_steps|]. intros _. apply keeps_bind; [auto with wsl|]. intros ok.
  exact (track_after_mount [] fstype target ok).
Qed.

Lemma mount_single_ops h source target std opts flags elevated ops0 :
  Drvfs.drvfs_mount_single (w_exists W h) (w_mkdir W h) (w_mount W h) source target std opts flags elevated
    = (ops0, 0) -> exists pre, ops0 = pre ++ [Mount Drvfs.PLAN9_FS_TYPE target].
Proof.
  unfold Drvfs.drvfs_mount_single.
  destruct (if w_exists W h target then _ else _) as [pre rc]. destruct (rc <? 0); [done|].
  destruct (Drvfs.drvfs_build_options _ _ _ _ _ _); [|done]. destruct (w_mount W h target); [|done].
  intros [= <-]. by exists pre.
Qed.

Lemma mount_loop_ops h fuel bitmap prefix std opts flags elevated v :
  v ∈ Drvfs.mount_loop (w_exists W h) (w_mkdir W h) (w_mount W h) fuel bitmap prefix std opts flags elevated ->
  snd (snd v) = 0 ->
  exists pre, fst (snd v) = pre ++ [Mount Drvfs.PLAN9_FS_TYPE (Drvfs.volume_target prefix (fst v))].
Proof.
  revert bitmap. induction fuel as [|fuel IH]; intros bitmap; cbn [Drvfs.mount_loop]; [by intros ?%elem_of_nil|].
  destruct (bitmap =? 0); [by intros ?%elem_of_nil|].
  destruct (Drvfs.ffs_index bitmap) as [i|]; [|by intros ?%elem_of_nil].
  intros [->|Hv]%elem_of_cons; [|by eapply IH]. cbn [fst snd].
  destruct (Drvfs.drvfs_mount_single _ _ _ _ _ _ _ _ _) as [os rc] eqn:E. cbn [fst snd].
  intros ->. by eapply mount_single_ops.
Qed.

Lemma tracked_mount_drvfs b o e f : keeps tracked (mount_drvfs W b o e f).
Proof.
  unfold mount_drvfs. apply keeps_bind; [apply keeps_get|]. intros s.
  set (prefix := match _ with Some r => r | None => _ end).
  set (opts := if g_wsl_conf_parsed s then WslConf.automount_options _ else None). eapply triple_bind.
  { apply (triple_gets tracked _ (fun r s' => (exists h, r = Drvfs.drvfs_mount_volumes (w_exists W h)
      (w_mkdir W h) (w_mount W h) b o (w_gid W o) e (Some prefix) opts f) /\ tracked s')).
    intros s1 H1. split; [by exists (ops s1)|done]. }
  intros r. apply triple_pre. intros [h ->]. apply keeps_bind; [|intros _; apply keeps_ret].
  apply keeps_for_each. intros v Hv. unfold Drvfs.drvfs_mount_volumes in *.
  destruct (b =? 0); [by apply elem_of_nil in Hv|]. cbn [fst] in Hv.
  destruct (snd (snd v) =? 0) eqn:E.
  - apply mount_loop_ops in Hv as [pre ->]; [|lia]. rewrite map_app. apply track_after_mount.
  - apply keeps_bind; [apply tracked_emits|]. intros _. apply keeps_skip.
Qed.

Lemma tracked_unmount_list l : keeps tracked (unmount_list W l).
Proof.
  induction l as [|p l IH]; cbn [unmount_list]; [apply keeps_ret|].
  unfold unmount_one, unmount. keep_steps.
Qed.
#[local] Hint Resolve tracked_mount_fs tracked_mount_drvfs tracked_unmount_list : wsl.

Section Channel.
Context (init_fd notify_fd : Z).

Lemma tracked_dispatch msg : keeps tracked (dispatch W init_fd notify_fd msg).
Proof.
  unfold dispatch, handle_terminate_instance, handle_window_size_changed, handle_network_information,
    handle_timezone, handle_start_socket_relay, query, handle_remount_drvfs, handle_stop_plan9,
    handle_kernel_version, handle_add_virtiofs, handle_remount_virtiofs, handle_start_distro_init,
    run_boot_command, fs_unmount_all, gns_stop_engine, conf_or, send_all, run_system.
  keep_steps.
Qed.
#[local] Hint Resolve tracked_dispatch : wsl.

Lemma tracked_loop evs : keeps tracked (event_loop W init_fd notify_fd evs).
Proof.
  induction evs as [|e evs IH]; cbn [event_loop]; [apply keeps_ret|].
  apply keeps_bind; [|intros []; auto with wsl]. unfold loop_turn, receive_message, reap_children.
  keep_steps.
Qed.
End Channel.
#[local] Hint Resolve tracked_loop : wsl.

Section Boot.
Context (B : boot_events).

Lemma tracked_recv_once fd ev n : keeps tracked (recv_once fd ev n).
Proof.
  intros s Hs. unfold recv_once. destruct (fd <? 0); [done|]. by destruct ev.
Qed.
#[local] Hint Resolve tracked_recv_once : wsl.

Lemma tracked_apply_initialize init_fd msg : keeps tracked (apply_initialize W init_fd msg).
Proof.
  unfold apply_initialize, parse_initialize, parse_wsl_conf, apply_timezone, apply_network, automount,
    run_boot_command, set_generate_resolvconf, set_append_path, apply, run_system,
    send_configuration_info_response, conf_or, setenv.
  keep_steps.
Qed.
#[local] Hint Resolve tracked_apply_initialize : wsl.

Lemma tracked_main evs : keeps tracked (main W B evs).
Proof.
  unfold main, gns_configure_test_paths, initialize_filesystems, close_channels, handshake,
    receive_initialize, receive_create_session, send_oobe_result, run_engine_and_loop,
    gns_start_engine, clean_up, gns_stop_engine, hv_connect.
  keep_steps.
Qed.
End Boot.

(** The table of mounts.  Whatever the host sends and the system answers, the
    table the shutdown works from never has more than 16 entries, no entry is
    longer than the 63 bytes its slot holds, and each entry is (up to that length)
    a directory a file system was mounted on, in the order of the mounts: nothing
    that was not mounted is ever unmounted. *)
Theorem mounts_tracked B evs host :
  let s := snd (main W B evs (init_start host)) in
  (length (g_mounted_fs s) <= 16)%nat
  /\ Forall (fun p => (length p <= 63)%nat) (g_mounted_fs s)
  /\ sublist (g_mounted_fs s) (map (take 63) (targets (ops s))).
Proof.
  pose proof (tracked_main B evs (init_start host)) as H.
  destruct (main W B evs _) as [r s]. apply H.
  split; [cbn; lia|]. split; constructor.
Qed.
End World.

(** Twenty drives and the three system mounts are 23 mounts; seven of them are
    not in the table, and the shutdown leaves them. *)
Example mounts_beyond_the_table :
  let msg := ConfigMsg.wsl_config_build_message (Some (str "box")) None None (Some (str "FreeBSD"))
               None None 1048575 1000 32 2 7 in
  let s := snd (main ex_world ex_boot [] (init_start (msg ++ ex_session))) in
  (length (targets (ops s)), length (g_mounted_fs s)) = (23%nat, 16%nat).
Proof. vm_compute. reflexivity. Qed.
End InitMountsThm.
